(* ===== verification/_CoqProject ===== *)
-Q . S2P
Prelude.v
Endian.v
Time.v
Floats.v
Bandwidth.v
Message.v
Fragmentation.v
Defragmentation.v
Scheduler.v
SchedulerLoop.v
Heap.v
MultiMap.v
MessageQueue.v
Regex.v
RegexNfa.v
RegexEval.v
RegexDfa.v
RegexMin.v
RegexMerge.v
Tokenizer.v
Bloom.v
Crc.v
Ibf.v
Strings.v
Dns.v
DnsPack.v
Crypto.v
CoreKx.v
TypeMap.v
CoreSessions.v
CoreClients.v
CoreService.v
CoreStack.v
FsTree.v
FsDownload.v
FsTransfer.v
