(* ===== verification/Prelude.v ===== *)
(** * Verification of core components of GNUnet

    GNUnet is a framework for peer-to-peer networking written in C. Its services
    (transport, core, cadet, dht, fs, gns and others, one directory each under
    [src/src/]) are separate processes that exchange messages; they are built on the
    library in [src/src/util/] and on a few libraries beside it. This development
    models parts of that foundation, the whole core service, and the encoding and downloading
    of files in file sharing, function by function, and proves what the rest of the system relies on.

    ** Components and files

    - [Prelude]: return codes, machine words with their wrap-around, byte buffers,
      endian encodings, the failure notations [let?] and [assert?], automation.
    - [Endian]: [util/common_endian.c], 64-bit network byte order.
    - [Time]: [util/time.c], absolute and relative times in 64-bit microseconds with
      the value "forever", saturating arithmetic, network conversion, rounding.
    - [Floats]: the binary64 operations used below, on the Standard Library's
      specification of floating point numbers.
    - [Bandwidth]: [util/bandwidth.c], the bandwidth tracker. The class [FlowControl]
      states what the fragmenter needs of it; the tracker is an instance.
    - [Message]: the common message header and packed fields in network byte order.
    - [Fragmentation]: [fragmentation/fragmentation.c], the sender of fragments,
      against the interface [FlowControl].
    - [Defragmentation]: [fragmentation/defragmentation.c], the receiver, and the
      protocol formed by both sides.
    - [Scheduler], [SchedulerLoop]: [util/scheduler.c], the event loop that drives every
      process. The first file has the tasks, the lists they wait in and the operations on
      them; the second what becomes ready, what [select] is asked for, and the main loop.
    - [Heap]: [util/container_heap.c], the binary heap, with a store of nodes and
      parent and child pointers as in the C code.
    - [MultiMap]: [util/container_multihashmap.c], [util/container_multipeermap.c] and
      [util/container_multihashmap32.c], hash maps with several values per key. The
      three files hold the same program for three key types; it is modelled once over
      the class [MapKey], with an instance and the named operations for each file.
    - [MessageQueue]: [util/mq.c], envelopes and the queues through which services and their
      clients send them, the dispatch of messages to handlers, and requests that wait for an
      answer, which are kept in a map of [MultiMap].
    - [Regex], [RegexNfa], [RegexEval], [RegexDfa], [RegexMin], [RegexMerge]:
      [regex/regex_internal.c], the compiler from regular expressions to automata. The first
      file has all definitions; the others the meaning of expressions and the construction of
      nondeterministic automata, their evaluation, the subset construction and the evaluation
      of deterministic automata, and the passes of the minimization.
    - [Tokenizer]: [util/mst.c] and [util/server_mst.c], which cut byte streams into
      messages, with the private buffer, its compaction and growth, and the loops and
      gotos of the code as program points.
    - [Bloom]: [util/container_bloomfilter.c], Bloom filters with a file of 4-bit
      counters.
    - [Crc]: [util/crypto_crc.c], the checksums CRC-32 (with its table), the 16-bit
      checksum of TCP/IP and CRC-8.
    - [Ibf]: [set/ibf.c], the invertible Bloom filter with which the set service
      reconciles two sets; its buckets are chosen with the CRC-32 of [Crc].
    - [Strings]: [util/strings.c], base 32, sizes and times as text.
    - [Dns], [DnsPack]: [dns/dnsparser.c], the parser and the builder of DNS packets.
      The class [Idna] stands for [libidn]. [DnsPack] also gives the wire format as a
      function, which the builder computes and the parser inverts.
    - [Crypto]: [util/crypto_hash.c], [util/crypto_hkdf.c], [util/crypto_kdf.c] and
      [util/crypto_symmetric.c]: hash codes, key derivation and symmetric encryption.
      The class [Gcrypt] stands for [libgcrypt].
    - [CoreKx]: [core/gnunet-service-core_kx.c], the key exchange of the core service
      and its encrypted messages, with the class [Ecc] for elliptic curves.
    - [TypeMap]: [core/gnunet-service-core_typemap.c], the sets of message types that
      peers handle, and their messages. The class [Zlib] stands for [zlib].
    - [CoreSessions]: [core/gnunet-service-core_sessions.c], the queues of messages and
      requests for each neighbour.
    - [CoreClients], [CoreService]: [core/gnunet-service-core.c], the clients of the core
      service. The first file has the state of the whole service, the handlers of
      messages of clients and the invariant; the second the events of the service and the
      theorems on all runs of it.
    - [CoreStack]: the way of messages from the session of one peer to the clients of another.
    - [FsTree]: [fs/fs_tree.c], the encoder that turns a file into a tree of encrypted blocks
      with content hash keys, and the tree as a specification.
    - [FsDownload]: [fs/fs_download.c], the download of a file: the tree of requests, the
      blocks that arrive, the file on disk and the connection to the service.
    - [FsTransfer]: the invariant of downloads and the way of a file from the encoder to the
      download.

    The components build on each other as in the program: times are used by the
    tracker and the scheduler, the tracker by the fragmenter, the fragments it makes are
    the input of the receiver; messages are the unit of fragmentation and of the
    tokenizer; the checksum is what makes the search for buckets of the invertible filter
    end; DNS records carry times; the key exchange derives its keys with HKDF and orders
    peers by their hash codes. In the core service, clients ask sessions for permission to
    send; sessions combine the messages of clients into payloads, which the key exchange
    encrypts; what it decrypts is cut into messages by the tokenizer and delivered to the
    clients. Sessions start when the key exchange is done and clients are told about those
    whose type map has one of their types. In file sharing, blocks are hashed and encrypted with
    [Crypto], and a download asks for the blocks that the encoder has made. The calls between these parts are outputs of the
    operations of one part that [CoreClients], [CoreService] and [CoreStack] give as inputs
    to the next, in the order of the code.

    ** How the code is modelled

    Integers are [Z] with the wrap-around of their width written out ([u32], [u64],
    [s64]). Structs are records, arrays of bytes are lists. State is passed
    explicitly: an operation takes the state and returns the new one with its result.
    [None] stands for what must not happen: a failed assertion, an access outside of
    an object or through a dangling pointer, a shift by the width of a word, signed
    overflow, or a loop that runs out of fuel. Theorems state that the result is not
    [None]. Where the source has pointers that can dangle ([Heap], the cursors of
    [MultiMap], the tasks of [Scheduler], envelopes and queues) objects have addresses and freeing removes them
    from the store.

    What the code takes from elsewhere is an argument of the definitions: the clock,
    random numbers, addresses of new objects, callbacks with their closure, the results of
    [select], the data a socket delivers, the hash function, the order in which maps are
    iterated over, the conversion of out-of-range floating point numbers. Libraries whose
    code is not in the repository are classes whose laws are their documented behaviour
    ([Idna], [Gcrypt], [Ecc], [Zlib]), each with an instance that shows that the laws can
    hold. Logging, statistics and the release of memory at the end of an object's life are
    left out.

    ** What the theorems show

    - Fragments ([transfer_exactly_once], [defragmenter_safe], [defragmenter_faithful],
      [fragmenter_safe]): if every fragment arrives once at least, in any order, with
      duplicates and foreign fragments in between that use no more identifiers than the receiver keeps, the receiver delivers the message exactly
      once and unchanged; no input makes it fail or corrupts a message; the sender always
      makes well-formed fragments. Further theorems of these files: it starves none, and
      learns from an acknowledgement exactly what the receiver misses; the estimate of the
      loss rate looks at one fragment only.
    - Scheduler ([scheduler_safe], [scheduler_runs_due], [tasks_woken], [select_watches],
      [timeouts_in_order], [highest_priority_first]): in every run of callbacks that keep to
      the interface (with priorities of their own for timers) and with no other errors of [select] than interruptions no assertion fails, and a task is started or cancelled at most once and
      only after it was added; tasks become ready exactly when their time has come or their
      file descriptors are ready; [select] watches these and does not sleep for longer than
      any task waits; the heuristic search in the list of times is the plain one; tasks
      that are due are run in the round or cancelled, the ones of highest priority first.
    - Message queues ([mq_fifo], [mq_drains], [mq_nested_roundtrip]):
      in every run on any number of queues no envelope is used after
      it was freed, and a queue is a list: its implementation gets one envelope at a time in
      the order in which they were sent, and gets all of them; messages go to the handler of
      their type; nested messages are extracted unchanged. Requests are a finite map. Taking the head of an
      empty queue is left out: the code crashes where it is documented to return NULL.
    - Regular expressions ([regex_nfa_correct], [regex_dfa_correct], [regex_errors]): for every
      expression in the syntax, which is an inductive relation between strings and expressions,
      both automata are constructed and accept exactly the strings that the expression matches;
      no two states of the minimized one are equivalent. Malformed expressions give an error,
      except for a bar at the end and empty parentheses, which make an assertion fail.
    - Containers ([heap_refines_priority_queue], [multimap_refines_bag]): the heap refines a
      priority queue with handles and the maps refine a bag of pairs, in every run of their
      operations, with fewer than 1966080 pairs in a map. Inspection, iteration and cursors, which visit every entry once, are
      further theorems of [Heap] and [MultiMap].
    - Streams ([tokenizer_refines_specification]): the tokenizer
      refines a specification on the whole stream, independent of how the stream is cut and
      aligned; reading from a socket behaves accordingly.
    - Key exchange ([secure_channel], [kx_safe], [kx_authenticated]): two
      peers establish a session by the messages they send and then transmit payload
      reliably; no run of messages and tasks fails an assertion or leaves an exchange without
      a pending task; foreign keys are authentic. A further theorem, [replay_window], says that fresh sequence numbers are accepted and
      none more than twice; that a number can be accepted twice is a defect of the window.
    - Core service ([core_service_safe], [clients_informed],
      [session_priority_fifo], [session_progress], [typemap_tracks_clients]): a session sends its messages each once, in the
      order of priorities; in every run in which clients keep to the protocol, messages are
      shorter than 63 KiB and a type is not named more than 255 times (the code fails beyond these) no assertion
      fails and clients know exactly the neighbours that share a type with them; messages do
      not stay in a queue; the type map is that of all clients and is broadcast when it changes. What leaves the session of one peer is given to the
      clients of the other unchanged ([core_end_to_end], a further theorem).
      The examples of [CoreService] are runs in which a client that does not keep to the
      protocol makes the service fail.
    - File sharing ([download_correct], [download_completes], [file_encoded]): the encoder
      makes the tree of blocks of a file of up to [2 ^ 31] bytes; a download with its URI never fails an
      assertion, whatever blocks arrive and however connections and writes fail, and when it
      has finished the file is the one that was encoded; from every connected state published
      blocks complete it. Assumed are that hashes do not collide, that the whole file is wanted with
      temporary blocks, and that a job is not stopped while it waits to connect again; the lemmas
      [large_file_incomplete], [partial_download_fails], [no_temporaries_no_file] and
      [stopped_download_connects] show how the code fails without these limits.
    - Hashes and keys ([hkdf_is_rfc5869]): key derivation is HKDF as
      in RFC 5869; hash codes behave as 512-bit numbers with the XOR metric; decryption
      inverts encryption.
    - DNS ([dns_pack_parse_roundtrip], [dns_parse_safe], [dns_pack_bounds], [dns_records_typed]):
      parsing what was packed gives the packet back, but for certificate records and names that
      the conversion to ASCII changes; parsing arbitrary
      bytes ends and is memory safe, but for one byte after the payload and the data of
      certificate records; the builder, given room for a header, writes exactly the wire format if it fits and stays in
      its array. That its errors leave the offset is a further theorem.
    - Set reconciliation ([ibf_reconciliation]): the difference of the
      filters of two sets is the filter of their difference; decoding lists it or reports
      failure. Bucket indices are found and in range; filters survive transmission in slices.
    - Checksums, text and Bloom filters ([crc32_detects_bursts], [base32_roundtrip],
      [bloom_no_false_negatives]): the table computes the shift register of the polynomial and
      bursts of errors up to 32 bits are detected; base 32 and times have their inverses;
      filters have no false negatives and exact removal while no counter is full. [Bloom] also
      shows that resizing ignores its argument [k] and does not end for sizes above [2 ^ 31].
    - Times and bandwidth ([time_refines_extended_arithmetic]): arithmetic refines saturating arithmetic on the extended naturals;
      the tracker keeps its bounds, and the delay it returns is long enough.

    ** Bounds and fuel

    Loops whose end is not structural have fuel, and the theorems prove that the fuel
    given by the operations is enough: 64 positions for the search of a pending
    fragment (one round over a 64-bit mask); the number of nodes for walks in the heap
    (a path has no node twice); the number of bytes in the buffer and the input plus
    five for the tokenizer (every message takes four bytes at least); 64 and 32
    doublings for sizes of Bloom filters, one round per 65536 bytes for their files;
    [h * (h * h + 2)] candidates for [h] bucket indices (two successive candidates that
    are taken determine the counter); 34 times the length of the payload for a DNS name
    (pointers are followed to a depth of 33); two characters per byte for base 32; the
    number of requests of a session plus one for the attempts to transmit (each solicits a
    request); the number of states for traversals and closures of automata (no state is
    entered twice), their square plus one for the rounds over the table of pairs (each but the
    last marks a pair), the levels of the tree for requests of a download, while the recursion of the subset construction has the fuel of its
    environment, and some fuel is shown to suffice. The loop over ready tasks of the scheduler runs for as long as callbacks make
    tasks ready: it has the fuel of its environment, safety holds for any fuel, and for
    callbacks that make no task ready the number of tasks is enough. Only the rejection
    sampling of [GNUNET_CRYPTO_kdf_mod_mpi] has no bound: it returns the first candidate
    below the modulus if the fuel reaches it.
    Sizes that the C code keeps in [size_t] are assumed below [2 ^ 63] where sums of
    them are formed; Bloom filters are considered up to [2 ^ 29] bytes, where bit
    numbers fit in 32 bits; hash maps up to the size of a table that [GNUNET_malloc] permits; files that are shared up
    to [2 ^ 31] bytes, since larger ones are not encoded completely; a process has fewer than [2 ^ 32] tasks; regular
    expressions have fewer than [2 ^ 31] characters.

    ** What is not modelled

    Code that consists of system calls (sockets, files, processes), wrappers of external
    libraries (public-key cryptography, data bases, JSON), and the other services; of
    [util/strings.c] what converts character sets, file names, calendar times and command
    lines; of the scheduler the signal handlers and what is for debugging; of the core
    service its start and end and the monitoring of key exchanges; of message queues their
    implementation for clients of the old server interface; of regular expressions the way
    back from automata to expressions, multi-strides, the compression of paths and the
    iteration over edges, and the limits of its allocations; of downloads the reconstruction of blocks from
    an old file or meta data, recursive downloads, persistence and the queue of jobs. Next, in this order:
    the serialization of meta data and of GNS records, the
    packet headers of [tun/tun.c], base 64 and port policies of [util/strings.c], then
    protocol state machines of transport and cadet on top of these. *)

(** ** Machine words, byte buffers and shared automation *)

From stdpp Require Export base list numbers option relations.
From Stdlib Require Export ZArith Lia.
#[global] Open Scope Z_scope.

(** ** Return codes of the GNUnet C API *)

(** [GNUNET_OK] and [GNUNET_YES] share the value 1 in the C headers. *)
Definition GNUNET_OK : Z := 1.
Definition GNUNET_YES : Z := 1.
Definition GNUNET_NO : Z := 0.
Definition GNUNET_SYSERR : Z := -1.

(** ** Machine-width integers *)

(** Unsigned wrap-around: the value an expression of type [uintN_t] takes. *)
Definition u8 (z : Z) : Z := z mod 2 ^ 8.
Definition u16 (z : Z) : Z := z mod 2 ^ 16.
Definition u32 (z : Z) : Z := z mod 2 ^ 32.
Definition u64 (z : Z) : Z := z mod 2 ^ 64.

(** Two's complement reading, for conversions to [int64_t]. *)
Definition s64 (z : Z) : Z := (z + 2 ^ 63) mod 2 ^ 64 - 2 ^ 63.

(** Conversion to [int8_t]. *)
Definition s8 (z : Z) : Z := (z + 2 ^ 7) mod 2 ^ 8 - 2 ^ 7.

(** Conversion to [int]. *)
Definition s32 (z : Z) : Z := (z + 2 ^ 31) mod 2 ^ 32 - 2 ^ 31.

Definition UINT16_MAX : Z := 2 ^ 16 - 1.
Definition UINT32_MAX : Z := 2 ^ 32 - 1.
Definition UINT64_MAX : Z := 2 ^ 64 - 1.
Definition INT64_MAX : Z := 2 ^ 63 - 1.
Definition INT64_MIN : Z := - 2 ^ 63.

Definition is_u8 (z : Z) : Prop := 0 <= z < 2 ^ 8.
Definition is_u16 (z : Z) : Prop := 0 <= z < 2 ^ 16.
Definition is_u32 (z : Z) : Prop := 0 <= z < 2 ^ 32.
Definition is_u64 (z : Z) : Prop := 0 <= z < 2 ^ 64.
Definition is_s64 (z : Z) : Prop := - 2 ^ 63 <= z < 2 ^ 63.

#[global] Instance is_u8_dec z : Decision (is_u8 z).
Proof. unfold is_u8. apply _. Defined.
#[global] Instance is_u16_dec z : Decision (is_u16 z).
Proof. unfold is_u16. apply _. Defined.
#[global] Instance is_u32_dec z : Decision (is_u32 z).
Proof. unfold is_u32. apply _. Defined.
#[global] Instance is_u64_dec z : Decision (is_u64 z).
Proof. unfold is_u64. apply _. Defined.

(** ** Byte buffers *)

(** A buffer of bytes is a list of integers below 256. *)
Definition bytes_ok (l : list Z) : Prop := Forall is_u8 l.

(** [n] bytes from offset [off]. *)
Definition slice (off n : nat) (l : list Z) : list Z := take n (drop off l).

(** [memcpy (&buf[off], data, length data)], inside [buf]. *)
Definition splice (off : nat) (data buf : list Z) : list Z :=
  take off buf ++ data ++ drop (off + length data) buf.

(** Little- and big-endian images of an integer on [n] bytes. *)
Fixpoint le_encode (n : nat) (z : Z) : list Z :=
  match n with
  | O => []
  | S n' => z mod 256 :: le_encode n' (z / 256)
  end.

Fixpoint le_decode (l : list Z) : Z :=
  match l with
  | [] => 0
  | b :: l' => b + 256 * le_decode l'
  end.

Definition be_encode (n : nat) (z : Z) : list Z := rev (le_encode n z).
Definition be_decode (l : list Z) : Z := le_decode (rev l).

(** ** Failing computations

    [None] is an assertion failure (the process aborts) or a loop that does not
    end within its fuel. *)

Declare Scope abort_scope.
Notation "'let?' p := c 'in' k" :=
  (match c with Some p => k | None => None end)
  (at level 10, p strict pattern, c at level 100, k at level 200) : abort_scope.

(** [GNUNET_assert]. *)
Notation "'assert?' b 'in' k" := (if b then k else None)
  (at level 10, b at level 100, k at level 200) : abort_scope.
#[global] Open Scope abort_scope.

(** [GNUNET_malloc] asserts that at most this many bytes are wanted. *)
Definition GNUNET_MAX_MALLOC_CHECKED : Z := 1024 * 1024 * 40.

(** ** Automation *)

Create HintDb words.
Create Rewrite HintDb wordsimpl.

(** Unfolds the word predicates and constants and calls [lia]. *)
Ltac words :=
  unfold is_u8, is_u16, is_u32, is_u64, is_s64,
    UINT16_MAX, UINT32_MAX, UINT64_MAX, INT64_MAX, INT64_MIN,
    GNUNET_OK, GNUNET_YES, GNUNET_NO, GNUNET_SYSERR in *;
  lia.

(** Splits the [if]s of the goal, innermost tests first, and turns the boolean
    tests into (in)equalities. *)
Ltac case_if :=
  match goal with
  | |- context [if ?b then _ else _] =>
      lazymatch b with
      | context [if _ then _ else _] => fail
      | _ => let E := fresh "E" in destruct b eqn:E
      end
  end.

Ltac bool_hyps :=
  rewrite ?Bool.andb_true_iff, ?Bool.orb_true_iff, ?Bool.andb_false_iff,
    ?Bool.orb_false_iff, ?Bool.negb_true_iff, ?Bool.negb_false_iff,
    ?Z.eqb_eq, ?Z.eqb_neq, ?Z.ltb_lt, ?Z.ltb_ge, ?Z.leb_le, ?Z.leb_gt in *.

Ltac split_ifs := repeat (case_if; bool_hyps).

(** ** Words *)

Section Words.

Lemma u8_range z : is_u8 (u8 z).
Proof. unfold is_u8, u8. apply Z.mod_pos_bound. lia. Qed.
Lemma u16_range z : is_u16 (u16 z).
Proof. unfold is_u16, u16. apply Z.mod_pos_bound. lia. Qed.
Lemma u32_range z : is_u32 (u32 z).
Proof. unfold is_u32, u32. apply Z.mod_pos_bound. lia. Qed.
Lemma u64_range z : is_u64 (u64 z).
Proof. unfold is_u64, u64. apply Z.mod_pos_bound. lia. Qed.
Lemma s64_range z : is_s64 (s64 z).
Proof. unfold is_s64, s64. pose proof (Z.mod_pos_bound (z + 2 ^ 63) (2 ^ 64)). lia. Qed.

Lemma u8_small z : is_u8 z -> u8 z = z.
Proof. apply Z.mod_small. Qed.
Lemma u16_small z : is_u16 z -> u16 z = z.
Proof. apply Z.mod_small. Qed.
Lemma u32_small z : is_u32 z -> u32 z = z.
Proof. apply Z.mod_small. Qed.
Lemma u64_small z : is_u64 z -> u64 z = z.
Proof. apply Z.mod_small. Qed.
Lemma s64_small z : is_s64 z -> s64 z = z.
Proof. unfold is_s64, s64. intros. rewrite Z.mod_small; lia. Qed.

(** A sum of two words either fits or wraps below both summands: the overflow
    test [a + b < a] of the C code is exact. *)
Lemma u64_add_overflow a b :
  is_u64 a -> is_u64 b -> (u64 (a + b) < a <-> 2 ^ 64 <= a + b).
Proof.
  unfold is_u64, u64. intros Ha Hb. split; intros H.
  - destruct (Z.lt_ge_cases (a + b) (2 ^ 64)); [|done].
    rewrite Z.mod_small in H; lia.
  - replace (a + b) with ((a + b - 2 ^ 64) + 1 * 2 ^ 64) by lia.
    rewrite Z.mod_add, Z.mod_small; lia.
Qed.

(** The division test [(a * b) / b != a] of the C code detects exactly the
    products that do not fit in 64 bits. *)
Lemma u64_mul_overflow a b :
  is_u64 a -> is_u64 b -> b <> 0 -> (u64 (a * b) / b = a <-> a * b < 2 ^ 64).
Proof.
  unfold is_u64, u64. intros Ha Hb Hb0. split; intros H.
  - destruct (Z.lt_ge_cases (a * b) (2 ^ 64)) as [|Hge]; [done|].
    pose proof (Z.mul_div_le ((a * b) mod 2 ^ 64) b ltac:(lia)) as Hle.
    pose proof (Z.mod_pos_bound (a * b) (2 ^ 64) ltac:(lia)).
    rewrite H in Hle. lia.
  - rewrite Z.mod_small by nia. apply Z.div_mul. done.
Qed.

(** Facts about all bytes, by computation. *)
Lemma byte_cases (P : Z -> bool) : forallb P (seqZ 0 256) = true -> forall v, is_u8 v -> P v = true.
Proof.
  intros H v Hv. rewrite forallb_forall in H. apply H, list_elem_of_In, elem_of_seqZ.
  unfold is_u8 in Hv. lia.
Qed.

(** Words of [n] bits, by their bits. *)
Lemma word_bits_high n z i : 0 <= z < 2 ^ n -> n <= i -> Z.testbit z i = false.
Proof.
  intros Hz Hi. destruct (Z.lt_ge_cases n 0); [rewrite Z.pow_neg_r in Hz; lia|].
  rewrite <- (Z.mod_small z (2 ^ n)) by done. apply Z.mod_pow2_bits_high. lia.
Qed.

Lemma word_of_bits n z :
  0 <= n -> 0 <= z -> (forall i, n <= i -> Z.testbit z i = false) -> 0 <= z < 2 ^ n.
Proof.
  intros Hn Hz Hb. split; [done|]. destruct (Z.lt_ge_cases z (2 ^ n)) as [|Hge]; [done|exfalso].
  assert (0 < z) by (pose proof (Z.pow_pos_nonneg 2 n); lia).
  assert (n <= Z.log2 z) by (by apply Z.log2_le_pow2).
  specialize (Hb (Z.log2 z)). rewrite Z.bit_log2 in Hb by done. by discriminate Hb.
Qed.

(** The test of one bit. *)
Lemma land_pow2 w k : 0 <= k -> Z.land w (2 ^ k) = if Z.testbit w k then 2 ^ k else 0.
Proof.
  intros Hk. apply Z.bits_inj'. intros i Hi. rewrite Z.land_spec, Z.pow2_bits_eqb by done.
  destruct (Z.eqb_spec k i) as [<-|Hne].
  - destruct (Z.testbit w k); cbn [andb]; [by rewrite Z.pow2_bits_true|by rewrite Z.testbit_0_l].
  - rewrite andb_false_r. destruct (Z.testbit w k); [by rewrite Z.pow2_bits_false|by rewrite Z.testbit_0_l].
Qed.

Lemma land_pow2_zero w k : 0 <= k -> (Z.land w (2 ^ k) =? 0) = negb (Z.testbit w k).
Proof.
  intros Hk. rewrite land_pow2 by done. pose proof (Z.pow_pos_nonneg 2 k).
  destruct (Z.testbit w k); cbn [negb]; lia.
Qed.

Lemma word_lxor n x y : 0 <= n -> 0 <= x < 2 ^ n -> 0 <= y < 2 ^ n -> 0 <= Z.lxor x y < 2 ^ n.
Proof.
  intros Hn Hx Hy. apply word_of_bits; [done|apply Z.lxor_nonneg; lia|].
  intros i Hi. rewrite Z.lxor_spec, (word_bits_high n x), (word_bits_high n y) by done. done.
Qed.

Lemma word_lor n x y : 0 <= n -> 0 <= x < 2 ^ n -> 0 <= y < 2 ^ n -> 0 <= Z.lor x y < 2 ^ n.
Proof.
  intros Hn Hx Hy. apply word_of_bits; [done|apply Z.lor_nonneg; lia|].
  intros i Hi. rewrite Z.lor_spec, (word_bits_high n x), (word_bits_high n y) by done. done.
Qed.

End Words.

#[export] Hint Resolve u8_range u16_range u32_range u64_range s64_range : words.
#[export] Hint Rewrite u8_small u16_small u32_small u64_small using words : wordsimpl.

(** ** Buffers *)

Section Buffers.

Lemma length_slice off n l :
  (off + n <= length l)%nat -> length (slice off n l) = n.
Proof. intros. unfold slice. rewrite length_take, length_drop. lia. Qed.

Lemma length_splice off data buf :
  (off + length data <= length buf)%nat ->
  length (splice off data buf) = length buf.
Proof.
  intros. unfold splice.
  rewrite !length_app, length_take, length_drop. lia.
Qed.

Lemma lookup_splice off data buf i :
  (off + length data <= length buf)%nat ->
  splice off data buf !! i =
    if decide (off <= i < off + length data)%nat then data !! (i - off)%nat
    else buf !! i.
Proof.
  intros H. unfold splice. case_decide as Hi.
  - rewrite lookup_app_r by (rewrite length_take; lia).
    rewrite length_take, Nat.min_l by lia.
    apply lookup_app_l. lia.
  - destruct (decide (i < off)%nat) as [Hlt|Hge].
    + rewrite lookup_app_l by (rewrite length_take; lia).
      apply lookup_take_lt. done.
    + rewrite lookup_app_r by (rewrite length_take; lia).
      rewrite length_take, Nat.min_l by lia.
      rewrite lookup_app_r by lia. rewrite lookup_drop. f_equal. lia.
Qed.

Lemma lookup_slice off n l i :
  (i < n)%nat -> slice off n l !! i = l !! (off + i)%nat.
Proof. intros. unfold slice. rewrite lookup_take_lt by done. apply lookup_drop. Qed.

Lemma bytes_ok_slice off n l : bytes_ok l -> bytes_ok (slice off n l).
Proof. intros. unfold slice. by apply Forall_take, Forall_drop. Qed.

Lemma bytes_ok_splice off data buf :
  bytes_ok data -> bytes_ok buf -> bytes_ok (splice off data buf).
Proof.
  intros. unfold splice.
  apply Forall_app; split; [by apply Forall_take|].
  apply Forall_app; split; [done|by apply Forall_drop].
Qed.

Lemma slice_app_l off n l k :
  (off + n <= length l)%nat -> slice off n (l ++ k) = slice off n l.
Proof.
  intros. unfold slice. rewrite drop_app_le by lia.
  rewrite take_app_le; [done|]. rewrite length_drop. lia.
Qed.

Lemma slice_app_r off n l k :
  (length l <= off)%nat -> slice off n (l ++ k) = slice (off - length l) n k.
Proof. intros. unfold slice. by rewrite drop_app_ge. Qed.

Lemma slice_all n l : length l = n -> slice 0 n l = l.
Proof. intros <-. unfold slice. apply firstn_all. Qed.

Lemma fold_left_cons {A B} (f : A -> B -> A) b l a : fold_left f (b :: l) a = fold_left f l (f a b).
Proof. done. Qed.

End Buffers.

(** ** Endianness *)

Section Endian.

Lemma length_le_encode n z : length (le_encode n z) = n.
Proof. revert z. induction n; intros; simpl; auto. Qed.

Lemma bytes_ok_le_encode n z : bytes_ok (le_encode n z).
Proof.
  revert z. induction n as [|n IH]; intros; simpl; constructor; [|apply IH].
  unfold is_u8. apply Z.mod_pos_bound. lia.
Qed.

Lemma le_decode_range l :
  bytes_ok l -> 0 <= le_decode l < 256 ^ Z.of_nat (length l).
Proof.
  induction 1 as [|b l Hb Hl IH]; [simpl; lia|].
  cbn [le_decode length]. rewrite Nat2Z.inj_succ, Z.pow_succ_r by lia.
  unfold is_u8 in Hb. lia.
Qed.

Lemma le_decode_encode n z : le_decode (le_encode n z) = z mod 256 ^ Z.of_nat n.
Proof.
  revert z. induction n as [|n IH]; intros z.
  - simpl. by rewrite Z.mod_1_r.
  - cbn [le_encode le_decode]. rewrite IH, Nat2Z.inj_succ, Z.pow_succ_r by lia.
    symmetry. apply Z.rem_mul_r; [lia|]. apply Z.pow_pos_nonneg; lia.
Qed.

Lemma le_encode_decode l : bytes_ok l -> le_encode (length l) (le_decode l) = l.
Proof.
  induction 1 as [|b l Hb Hl IH]; [done|]. cbn [length le_decode le_encode].
  unfold is_u8 in Hb. rewrite (Z.mul_comm 256), Z.mod_add, Z.mod_small by lia.
  f_equal. rewrite Z.div_add, Z.div_small by lia. apply IH.
Qed.

Lemma length_be_encode n z : length (be_encode n z) = n.
Proof. unfold be_encode. by rewrite length_rev, length_le_encode. Qed.

Lemma bytes_ok_be_encode n z : bytes_ok (be_encode n z).
Proof. unfold bytes_ok, be_encode. apply Forall_rev, bytes_ok_le_encode. Qed.

Lemma be_decode_encode n z : be_decode (be_encode n z) = z mod 256 ^ Z.of_nat n.
Proof. unfold be_decode, be_encode. by rewrite rev_involutive, le_decode_encode. Qed.

Lemma be_decode_range l :
  bytes_ok l -> 0 <= be_decode l < 256 ^ Z.of_nat (length l).
Proof.
  intros H. unfold be_decode. rewrite <- (length_rev l).
  apply le_decode_range. by apply Forall_rev.
Qed.

Lemma be_encode_decode l : bytes_ok l -> be_encode (length l) (be_decode l) = l.
Proof.
  intros H. unfold be_encode, be_decode. rewrite <- (length_rev l).
  rewrite le_encode_decode by (by apply Forall_rev). apply rev_involutive.
Qed.

End Endian.

#[export] Hint Rewrite length_le_encode length_be_encode : wordsimpl.
#[export] Hint Resolve bytes_ok_le_encode bytes_ok_be_encode bytes_ok_slice
  bytes_ok_splice : words.

(** ** Filters *)

Lemma filter_none {A} (P : A -> Prop) `{forall x, Decision (P x)} (l : list A) :
  (forall x, x ∈ l -> ~ P x) -> filter P l = [].
Proof.
  induction l as [|x l IH]; intros Hn; [done|]. rewrite filter_cons_False by (apply Hn; left).
  apply IH. intros y Hy. apply Hn. by right.
Qed.

Lemma filter_all {A} (P : A -> Prop) `{forall x, Decision (P x)} (l : list A) :
  (forall x, x ∈ l -> P x) -> filter P l = l.
Proof.
  induction l as [|x l IH]; intros Hn; [done|]. rewrite filter_cons_True by (apply Hn; left).
  f_equal. apply IH. intros y Hy. apply Hn. by right.
Qed.

Lemma elem_of_rev {A} (x : A) l : x ∈ rev l <-> x ∈ l.
Proof. by rewrite !list_elem_of_In, <- in_rev. Qed.

(** ** Doubly linked lists

    A list of [src/include/gnunet_container_lib.h] is the list of the addresses of its
    elements, from the head on. An element is inserted into one list at most. *)

Definition DLL_insert (id : Z) (l : list Z) : option (list Z) :=
  assert? negb (bool_decide (id ∈ l)) in Some (id :: l).

Definition DLL_insert_tail (id : Z) (l : list Z) : option (list Z) :=
  assert? negb (bool_decide (id ∈ l)) in Some (l ++ [id]).

Definition DLL_remove (id : Z) (l : list Z) : option (list Z) :=
  assert? bool_decide (id ∈ l) in Some (filter (fun x => x <> id) l).

Lemma filter_head (x : Z) l : x ∉ l -> filter (fun y => y <> x) (x :: l) = l.
Proof.
  intros Hx. rewrite filter_cons_False by tauto. apply filter_all. intros y Hy ->. done.
Qed.

Lemma filter_ne_length (x : Z) l : NoDup l -> x ∈ l -> length l = S (length (filter (fun y => y <> x) l)).
Proof.
  induction 1 as [|y l Hy Hn IH]; [by intros ?%elem_of_nil|]. intros [->|Hx]%elem_of_cons; [by rewrite filter_head|].
  rewrite filter_cons_True by (intros ->; done). cbn. by rewrite <- IH.
Qed.
