(* ===== verification/Endian.v ===== *)
(** * Network byte order: [src/util/common_endian.c]

    The host is little-endian, the branch of the preprocessor conditional that
    does work; [htons], [htonl] and their inverses are the byte swaps of the C
    library on such a host. *)

From S2P Require Import Prelude.

(** ** C library *)

Definition htons (n : Z) : Z := Z.lor (Z.shiftl (Z.land n 255) 8) (Z.shiftr (u16 n) 8).
Definition ntohs (n : Z) : Z := htons n.

(** The argument is converted to [uint32_t] first. *)
Definition htonl (n : Z) : Z := le_decode (be_encode 4 (u32 n)).
Definition ntohl (n : Z) : Z := htonl n.

#[global] Arguments htonl _ : simpl never.
#[global] Arguments ntohl _ : simpl never.

(** ** common_endian.c *)

Definition GNUNET_htonll (n : Z) : Z :=
  u64 (u64 (Z.shiftl (htonl n) 32) + htonl (Z.shiftr n 32)).

Definition GNUNET_ntohll (n : Z) : Z :=
  u64 (u64 (Z.shiftl (ntohl n) 32) + ntohl (Z.shiftr n 32)).

#[global] Arguments GNUNET_htonll _ : simpl never.
#[global] Arguments GNUNET_ntohll _ : simpl never.

(** ** Properties *)

Lemma htonl_range n : is_u32 (htonl n).
Proof.
  unfold htonl, is_u32.
  pose proof (le_decode_range (be_encode 4 (u32 n)) (bytes_ok_be_encode _ _)) as H.
  rewrite length_be_encode in H. exact H.
Qed.

Lemma ntohl_range n : is_u32 (ntohl n).
Proof. apply htonl_range. Qed.

#[export] Hint Resolve htonl_range ntohl_range : words.

(** The image of [htonl n] in memory is [n] in big-endian order. *)
Lemma htonl_image n : le_encode 4 (htonl n) = be_encode 4 (u32 n).
Proof.
  unfold htonl.
  rewrite <- (length_be_encode 4 (u32 n)) at 1.
  apply le_encode_decode, bytes_ok_be_encode.
Qed.

Lemma le_encode_app k m z :
  le_encode (k + m) z = le_encode k z ++ le_encode m (z / 256 ^ Z.of_nat k).
Proof.
  revert z. induction k as [|k IH]; intros z.
  - cbn. by rewrite Z.div_1_r.
  - cbn [Nat.add le_encode app]. rewrite IH, Nat2Z.inj_succ, Z.pow_succ_r by lia.
    rewrite Z.div_div; [done|lia|]. apply Z.pow_pos_nonneg; lia.
Qed.

Lemma le_encode_mod n z : le_encode n (z mod 256 ^ Z.of_nat n) = le_encode n z.
Proof.
  rewrite <- le_decode_encode.
  rewrite <- (length_le_encode n z) at 1.
  apply le_encode_decode, bytes_ok_le_encode.
Qed.

Lemma le_encode_cong n a b :
  a mod 256 ^ Z.of_nat n = b mod 256 ^ Z.of_nat n -> le_encode n a = le_encode n b.
Proof. intros H. by rewrite <- (le_encode_mod n a), H, le_encode_mod. Qed.

(** Adding a high half does not disturb the low half. *)
Lemma le_encode_hi_lo lo hi :
  is_u32 lo -> is_u32 hi ->
  le_encode 8 (u64 (u64 (Z.shiftl hi 32) + lo)) = le_encode 4 lo ++ le_encode 4 hi.
Proof.
  intros Hlo Hhi. rewrite Z.shiftl_mul_pow2 by lia.
  rewrite (u64_small (hi * 2 ^ 32)), u64_small by words.
  change 8%nat with (4 + 4)%nat. rewrite le_encode_app. f_equal.
  - rewrite <- (le_encode_mod 4 (hi * 2 ^ 32 + lo)).
    change (256 ^ Z.of_nat 4) with (2 ^ 32).
    rewrite Z.add_comm, Z.mod_add, Z.mod_small by words. done.
  - change (256 ^ Z.of_nat 4) with (2 ^ 32). f_equal.
    rewrite Z.div_add_l, Z.div_small by words. lia.
Qed.

(** The image of [GNUNET_htonll n] in memory is the big-endian image of [n]. *)
Lemma htonll_image n : le_encode 8 (GNUNET_htonll n) = be_encode 8 (u64 n).
Proof.
  unfold GNUNET_htonll. rewrite le_encode_hi_lo by auto with words.
  rewrite !htonl_image. unfold be_encode. rewrite <- rev_app_distr. f_equal.
  change 8%nat with (4 + 4)%nat. rewrite le_encode_app.
  unfold u32, u64. f_equal; apply le_encode_cong;
    change (256 ^ Z.of_nat 4) with (2 ^ 32); change (2 ^ 64) with (2 ^ 32 * 2 ^ 32).
  - rewrite Z.mod_mod, Z.mod_mod_divide by (lia || by exists (2 ^ 32)). done.
  - rewrite Z.mod_mod, Z.shiftr_div_pow2, Z.rem_mul_r by lia.
    rewrite Z.add_comm, (Z.mul_comm (2 ^ 32)), Z.div_add_l by lia.
    rewrite (Z.div_small (n mod _)), Z.add_0_r, Z.mod_mod; [done|lia|].
    apply Z.mod_pos_bound. lia.
Qed.

Lemma htonll_range n : is_u64 (GNUNET_htonll n).
Proof. apply u64_range. Qed.

#[export] Hint Resolve htonll_range : words.

Lemma le_encode_inj n a b :
  0 <= a < 256 ^ Z.of_nat n -> 0 <= b < 256 ^ Z.of_nat n ->
  le_encode n a = le_encode n b -> a = b.
Proof.
  intros Ha Hb H. apply (f_equal le_decode) in H.
  rewrite !le_decode_encode, !Z.mod_small in H by done. done.
Qed.

(** Byte reversal of the 64-bit image. *)
Lemma htonll_decode n : GNUNET_htonll n = le_decode (be_encode 8 (u64 n)).
Proof.
  rewrite <- htonll_image, le_decode_encode, Z.mod_small; [done|].
  apply htonll_range.
Qed.

Lemma u64_u64 z : u64 (u64 z) = u64 z.
Proof. unfold u64. by rewrite Z.mod_mod. Qed.

(** [GNUNET_ntohll] inverts [GNUNET_htonll]: reversing eight bytes twice. *)
Lemma ntohll_htonll n : is_u64 n -> GNUNET_ntohll (GNUNET_htonll n) = n.
Proof.
  intros Hn. change GNUNET_ntohll with GNUNET_htonll.
  rewrite htonll_decode, (u64_small (GNUNET_htonll n)) by apply htonll_range.
  unfold be_encode. rewrite htonll_image, u64_small by done.
  unfold be_encode. rewrite rev_involutive, le_decode_encode.
  apply Z.mod_small. words.
Qed.
