(* ===== verification/Time.v ===== *)
(** * Time arithmetic: [src/util/time.c]

    Absolute times and durations are 64-bit microsecond counts whose largest
    value stands for "forever". The clock ([gettimeofday] plus the configured
    offset) is an argument [now] of the functions that read it. *)

From S2P Require Import Prelude Endian.

(** ** Data *)

Record GNUNET_TIME_Absolute := mk_abs { abs_value_us : Z }.
Record GNUNET_TIME_Relative := mk_rel { rel_value_us : Z }.
Record GNUNET_TIME_AbsoluteNBO := mk_abs_nbo { abs_value_us__ : Z }.
Record GNUNET_TIME_RelativeNBO := mk_rel_nbo { rel_value_us__ : Z }.

Definition abs_wf (t : GNUNET_TIME_Absolute) : Prop := is_u64 (abs_value_us t).
Definition rel_wf (t : GNUNET_TIME_Relative) : Prop := is_u64 (rel_value_us t).

Definition GNUNET_TIME_relative_get_zero_ : GNUNET_TIME_Relative := mk_rel 0.
Definition GNUNET_TIME_absolute_get_zero_ : GNUNET_TIME_Absolute := mk_abs 0.
Definition GNUNET_TIME_relative_get_unit_ : GNUNET_TIME_Relative := mk_rel 1.
Definition GNUNET_TIME_relative_get_millisecond_ : GNUNET_TIME_Relative := mk_rel 1000.
Definition GNUNET_TIME_relative_get_second_ : GNUNET_TIME_Relative := mk_rel (1000 * 1000).
Definition GNUNET_TIME_relative_get_minute_ : GNUNET_TIME_Relative :=
  mk_rel (60 * 1000 * 1000).
Definition GNUNET_TIME_relative_get_hour_ : GNUNET_TIME_Relative :=
  mk_rel (60 * 60 * 1000 * 1000).
Definition GNUNET_TIME_relative_get_forever_ : GNUNET_TIME_Relative := mk_rel UINT64_MAX.
Definition GNUNET_TIME_absolute_get_forever_ : GNUNET_TIME_Absolute := mk_abs UINT64_MAX.

Abbreviation GNUNET_TIME_UNIT_ZERO := GNUNET_TIME_relative_get_zero_ (only parsing).
Abbreviation GNUNET_TIME_UNIT_ZERO_ABS := GNUNET_TIME_absolute_get_zero_ (only parsing).
Abbreviation GNUNET_TIME_UNIT_MICROSECONDS := GNUNET_TIME_relative_get_unit_ (only parsing).
Abbreviation GNUNET_TIME_UNIT_MILLISECONDS := GNUNET_TIME_relative_get_millisecond_ (only parsing).
Abbreviation GNUNET_TIME_UNIT_SECONDS := GNUNET_TIME_relative_get_second_ (only parsing).
Abbreviation GNUNET_TIME_UNIT_FOREVER_REL := GNUNET_TIME_relative_get_forever_ (only parsing).
Abbreviation GNUNET_TIME_UNIT_FOREVER_ABS := GNUNET_TIME_absolute_get_forever_ (only parsing).

(** ** Operations *)

(** The two rounding functions return the code and the updated value. *)
Definition GNUNET_TIME_round_abs (at_ : GNUNET_TIME_Absolute) : Z * GNUNET_TIME_Absolute :=
  if abs_value_us at_ =? abs_value_us GNUNET_TIME_UNIT_FOREVER_ABS then (GNUNET_OK, at_)
  else if 0 =? abs_value_us at_ mod 1000000 then (GNUNET_OK, at_)
  else (GNUNET_NO, mk_abs (u64 (abs_value_us at_ - abs_value_us at_ mod 1000000))).

Definition GNUNET_TIME_round_rel (rt : GNUNET_TIME_Relative) : Z * GNUNET_TIME_Relative :=
  if rel_value_us rt =? rel_value_us GNUNET_TIME_UNIT_FOREVER_REL then (GNUNET_OK, rt)
  else if 0 =? rel_value_us rt mod 1000000 then (GNUNET_OK, rt)
  else (GNUNET_NO, mk_rel (u64 (rel_value_us rt - rel_value_us rt mod 1000000))).

(** [tv_sec] and [tv_usec] are what [gettimeofday] stores. *)
Definition GNUNET_TIME_absolute_get (timestamp_offset tv_sec tv_usec : Z)
  : GNUNET_TIME_Absolute :=
  mk_abs (u64 (u64 (u64 (u64 tv_sec * 1000 * 1000) + u64 tv_usec) + timestamp_offset)).

Definition GNUNET_TIME_relative_to_absolute (now : GNUNET_TIME_Absolute)
  (rel : GNUNET_TIME_Relative) : GNUNET_TIME_Absolute :=
  if rel_value_us rel =? UINT64_MAX then GNUNET_TIME_UNIT_FOREVER_ABS
  else if u64 (rel_value_us rel + abs_value_us now) <? rel_value_us rel
  then GNUNET_TIME_UNIT_FOREVER_ABS
  else mk_abs (u64 (rel_value_us rel + abs_value_us now)).

Definition GNUNET_TIME_relative_min (t1 t2 : GNUNET_TIME_Relative) : GNUNET_TIME_Relative :=
  if rel_value_us t1 <? rel_value_us t2 then t1 else t2.

Definition GNUNET_TIME_relative_max (t1 t2 : GNUNET_TIME_Relative) : GNUNET_TIME_Relative :=
  if rel_value_us t2 <? rel_value_us t1 then t1 else t2.

Definition GNUNET_TIME_absolute_min (t1 t2 : GNUNET_TIME_Absolute) : GNUNET_TIME_Absolute :=
  if abs_value_us t1 <? abs_value_us t2 then t1 else t2.

Definition GNUNET_TIME_absolute_max (t1 t2 : GNUNET_TIME_Absolute) : GNUNET_TIME_Absolute :=
  if abs_value_us t2 <? abs_value_us t1 then t1 else t2.

Definition GNUNET_TIME_absolute_get_remaining (now future : GNUNET_TIME_Absolute)
  : GNUNET_TIME_Relative :=
  if abs_value_us future =? UINT64_MAX then GNUNET_TIME_UNIT_FOREVER_REL
  else if abs_value_us future <? abs_value_us now then GNUNET_TIME_UNIT_ZERO
  else mk_rel (u64 (abs_value_us future - abs_value_us now)).

Definition GNUNET_TIME_absolute_get_difference (start end_ : GNUNET_TIME_Absolute)
  : GNUNET_TIME_Relative :=
  if abs_value_us end_ =? UINT64_MAX then GNUNET_TIME_UNIT_FOREVER_REL
  else if abs_value_us end_ <? abs_value_us start then GNUNET_TIME_UNIT_ZERO
  else mk_rel (u64 (abs_value_us end_ - abs_value_us start)).

Definition GNUNET_TIME_absolute_get_duration (now whence : GNUNET_TIME_Absolute)
  : GNUNET_TIME_Relative :=
  if abs_value_us now <? abs_value_us whence then GNUNET_TIME_UNIT_ZERO
  else mk_rel (u64 (abs_value_us now - abs_value_us whence)).

Definition GNUNET_TIME_absolute_add (start : GNUNET_TIME_Absolute)
  (duration : GNUNET_TIME_Relative) : GNUNET_TIME_Absolute :=
  if (abs_value_us start =? UINT64_MAX) || (rel_value_us duration =? UINT64_MAX)
  then GNUNET_TIME_UNIT_FOREVER_ABS
  else if u64 (abs_value_us start + rel_value_us duration) <? abs_value_us start
  then GNUNET_TIME_UNIT_FOREVER_ABS
  else mk_abs (u64 (abs_value_us start + rel_value_us duration)).

Definition GNUNET_TIME_absolute_subtract (start : GNUNET_TIME_Absolute)
  (duration : GNUNET_TIME_Relative) : GNUNET_TIME_Absolute :=
  if abs_value_us start <=? rel_value_us duration then GNUNET_TIME_UNIT_ZERO_ABS
  else if abs_value_us start =? abs_value_us GNUNET_TIME_UNIT_FOREVER_ABS
  then GNUNET_TIME_UNIT_FOREVER_ABS
  else mk_abs (u64 (abs_value_us start - rel_value_us duration)).

Definition GNUNET_TIME_relative_multiply (rel : GNUNET_TIME_Relative) (factor : Z)
  : GNUNET_TIME_Relative :=
  if 0 =? factor then GNUNET_TIME_UNIT_ZERO
  else if rel_value_us rel =? rel_value_us GNUNET_TIME_UNIT_FOREVER_REL
  then GNUNET_TIME_UNIT_FOREVER_REL
  else
    let ret := mk_rel (u64 (rel_value_us rel * factor)) in
    if negb (rel_value_us ret / factor =? rel_value_us rel)
    then GNUNET_TIME_UNIT_FOREVER_REL
    else ret.

Definition GNUNET_TIME_relative_saturating_multiply (rel : GNUNET_TIME_Relative)
  (factor : Z) : GNUNET_TIME_Relative :=
  if 0 =? factor then GNUNET_TIME_UNIT_ZERO
  else if rel_value_us rel =? rel_value_us GNUNET_TIME_UNIT_FOREVER_REL
  then GNUNET_TIME_UNIT_FOREVER_REL
  else
    let ret := mk_rel (u64 (rel_value_us rel * factor)) in
    if negb (rel_value_us ret / factor =? rel_value_us rel)
    then GNUNET_TIME_UNIT_FOREVER_REL
    else ret.

Definition GNUNET_TIME_relative_divide (rel : GNUNET_TIME_Relative) (factor : Z)
  : GNUNET_TIME_Relative :=
  if (0 =? factor) || (rel_value_us rel =? rel_value_us GNUNET_TIME_UNIT_FOREVER_REL)
  then GNUNET_TIME_UNIT_FOREVER_REL
  else mk_rel (rel_value_us rel / factor).

Definition GNUNET_TIME_relative_add (a1 a2 : GNUNET_TIME_Relative) : GNUNET_TIME_Relative :=
  if (rel_value_us a1 =? UINT64_MAX) || (rel_value_us a2 =? UINT64_MAX)
  then GNUNET_TIME_UNIT_FOREVER_REL
  else if u64 (rel_value_us a1 + rel_value_us a2) <? rel_value_us a1
  then GNUNET_TIME_UNIT_FOREVER_REL
  else mk_rel (u64 (rel_value_us a1 + rel_value_us a2)).

Definition GNUNET_TIME_relative_subtract (a1 a2 : GNUNET_TIME_Relative)
  : GNUNET_TIME_Relative :=
  if rel_value_us a1 <=? rel_value_us a2 then GNUNET_TIME_UNIT_ZERO
  else if rel_value_us a1 =? UINT64_MAX then GNUNET_TIME_UNIT_FOREVER_REL
  else mk_rel (u64 (rel_value_us a1 - rel_value_us a2)).

Definition GNUNET_TIME_relative_hton (a : GNUNET_TIME_Relative) : GNUNET_TIME_RelativeNBO :=
  mk_rel_nbo (GNUNET_htonll (rel_value_us a)).
Definition GNUNET_TIME_relative_ntoh (a : GNUNET_TIME_RelativeNBO) : GNUNET_TIME_Relative :=
  mk_rel (GNUNET_ntohll (rel_value_us__ a)).
Definition GNUNET_TIME_absolute_hton (a : GNUNET_TIME_Absolute) : GNUNET_TIME_AbsoluteNBO :=
  mk_abs_nbo (GNUNET_htonll (abs_value_us a)).
Definition GNUNET_TIME_absolute_ntoh (a : GNUNET_TIME_AbsoluteNBO) : GNUNET_TIME_Absolute :=
  mk_abs (GNUNET_ntohll (abs_value_us__ a)).

(** ** Abstract specification: extended durations

    [None] is "forever", [Some z] a finite number of microseconds; a result
    that reaches the largest word saturates to "forever". *)

Definition xtime := option Z.

Definition xsat (z : Z) : xtime := if z <? UINT64_MAX then Some z else None.
Definition xabs (t : GNUNET_TIME_Absolute) : xtime := xsat (abs_value_us t).
Definition xrel (t : GNUNET_TIME_Relative) : xtime := xsat (rel_value_us t).

Definition xadd (a b : xtime) : xtime :=
  match a, b with Some x, Some y => xsat (x + y) | _, _ => None end.
(** Truncated difference, "forever" minus anything finite being forever. *)
Definition xsub (a b : xtime) : xtime :=
  match a, b with
  | Some x, Some y => Some (Z.max 0 (x - y))
  | Some _, None => Some 0
  | None, Some _ => None
  | None, None => Some 0
  end.
Definition xmul (a : xtime) (k : Z) : xtime :=
  if k =? 0 then Some 0 else match a with Some x => xsat (x * k) | None => None end.
Definition xdiv (a : xtime) (k : Z) : xtime :=
  match a with Some x => if k =? 0 then None else Some (x / k) | None => None end.

(** "Forever" is larger than all others. *)
Definition xle (a b : xtime) : bool := match a, b with _, None => true | None, Some _ => false | Some x, Some y => x <=? y end.
Definition xmin (a b : xtime) : xtime := if xle a b then a else b.
Definition xmax (a b : xtime) : xtime := if xle a b then b else a.

(** ** Proofs *)

Create HintDb time.

Ltac time_unfold :=
  unfold xabs, xrel, xsat, xadd, xsub, xmul, xdiv, abs_wf, rel_wf in *;
  cbn [abs_value_us rel_value_us GNUNET_TIME_relative_get_zero_
       GNUNET_TIME_absolute_get_zero_ GNUNET_TIME_relative_get_forever_
       GNUNET_TIME_absolute_get_forever_] in *.

(** Saturating sums: the overflow test and the two "forever" tests together
    decide whether the exact sum stays below the largest word. *)
Lemma add_saturates a b :
  is_u64 a -> is_u64 b ->
  xsat (if (a =? UINT64_MAX) || (b =? UINT64_MAX) then UINT64_MAX
        else if u64 (a + b) <? a then UINT64_MAX else u64 (a + b))
  = xadd (xsat a) (xsat b).
Proof.
  intros Ha Hb. pose proof (u64_add_overflow a b Ha Hb) as Hov.
  destruct (decide (a + b < 2 ^ 64)) as [Hs|Hs].
  - rewrite (u64_small (a + b)) in * by words.
    unfold xadd, xsat. repeat (split_ifs; simpl); try done; exfalso; words.
  - assert ((u64 (a + b) <? a) = true) as -> by (apply Z.ltb_lt, Hov; words).
    unfold xadd, xsat. repeat (split_ifs; simpl); try done; exfalso; words.
Qed.

Lemma mul_saturates a k :
  is_u64 a -> is_u64 k ->
  xsat (if 0 =? k then 0
        else if a =? UINT64_MAX then UINT64_MAX
        else if negb (u64 (a * k) / k =? a) then UINT64_MAX else u64 (a * k))
  = xmul (xsat a) k.
Proof.
  intros Ha Hk. unfold xmul. rewrite (Z.eqb_sym k 0).
  destruct (0 =? k) eqn:E0; [done|]. bool_hyps.
  destruct (a =? UINT64_MAX) eqn:Ea; bool_hyps.
  { subst a. done. }
  pose proof (u64_mul_overflow a k Ha Hk ltac:(lia)) as Hov.
  assert (a * k >= 0) by (words || (unfold is_u64 in *; nia)).
  unfold xsat at 2. destruct (a <? UINT64_MAX) eqn:El; bool_hyps; [|words].
  destruct (u64 (a * k) / k =? a) eqn:Ed; bool_hyps; simpl.
  - apply Hov in Ed. by rewrite u64_small by words.
  - assert (2 ^ 64 <= a * k) by (destruct (Z.lt_ge_cases (a * k) (2 ^ 64)); tauto).
    unfold xsat. split_ifs; try done; words.
Qed.

(** The two multiplications of the source compute the same function; they
    differ in the log entry of the overflow branch only. *)
Lemma multiply_same rel k :
  GNUNET_TIME_relative_multiply rel k = GNUNET_TIME_relative_saturating_multiply rel k.
Proof. done. Qed.

(** ** Well-formedness *)

Lemma mk_abs_wf z : abs_wf (mk_abs (u64 z)).
Proof. apply u64_range. Qed.
Lemma mk_rel_wf z : rel_wf (mk_rel (u64 z)).
Proof. apply u64_range. Qed.
Lemma forever_abs_wf : abs_wf GNUNET_TIME_UNIT_FOREVER_ABS.
Proof. unfold abs_wf. simpl. words. Qed.
Lemma forever_rel_wf : rel_wf GNUNET_TIME_UNIT_FOREVER_REL.
Proof. unfold rel_wf. simpl. words. Qed.
Lemma zero_rel_wf : rel_wf GNUNET_TIME_UNIT_ZERO.
Proof. unfold rel_wf. simpl. words. Qed.
Lemma zero_abs_wf : abs_wf GNUNET_TIME_UNIT_ZERO_ABS.
Proof. unfold abs_wf. simpl. words. Qed.
#[export] Hint Resolve mk_abs_wf mk_rel_wf forever_abs_wf forever_rel_wf zero_rel_wf
  zero_abs_wf : time.

Lemma relative_min_wf a b : rel_wf a -> rel_wf b -> rel_wf (GNUNET_TIME_relative_min a b).
Proof. intros. unfold GNUNET_TIME_relative_min. by case_if. Qed.
Lemma relative_max_wf a b : rel_wf a -> rel_wf b -> rel_wf (GNUNET_TIME_relative_max a b).
Proof. intros. unfold GNUNET_TIME_relative_max. by case_if. Qed.
Lemma saturating_multiply_wf a k : rel_wf (GNUNET_TIME_relative_saturating_multiply a k).
Proof. unfold GNUNET_TIME_relative_saturating_multiply. split_ifs; auto with time. Qed.
Lemma get_duration_wf now w : rel_wf (GNUNET_TIME_absolute_get_duration now w).
Proof. unfold GNUNET_TIME_absolute_get_duration. split_ifs; auto with time. Qed.
Lemma to_absolute_wf now r : abs_wf (GNUNET_TIME_relative_to_absolute now r).
Proof. unfold GNUNET_TIME_relative_to_absolute. split_ifs; auto with time. Qed.
#[export] Hint Resolve relative_min_wf relative_max_wf saturating_multiply_wf
  get_duration_wf to_absolute_wf : time.

(** ** Refinement, operation by operation *)

(** Case analysis on every test of the code and of the specification. *)
Ltac time_cases :=
  intros; time_unfold;
  repeat match goal with t : GNUNET_TIME_Absolute |- _ => destruct t end;
  repeat match goal with t : GNUNET_TIME_Relative |- _ => destruct t end;
  simpl in *; split_ifs; simpl in *; split_ifs; simpl; try done;
  try (rewrite u64_small in * by words); try (f_equal; words); exfalso; words.

Lemma absolute_add_refines s d :
  abs_wf s -> rel_wf d -> xabs (GNUNET_TIME_absolute_add s d) = xadd (xabs s) (xrel d).
Proof.
  intros Hs Hd. unfold xabs, xrel. rewrite <- add_saturates by done.
  unfold GNUNET_TIME_absolute_add. by split_ifs.
Qed.

Lemma relative_add_refines d d' :
  rel_wf d -> rel_wf d' -> xrel (GNUNET_TIME_relative_add d d') = xadd (xrel d) (xrel d').
Proof.
  intros Hd Hd'. unfold xrel. rewrite <- add_saturates by done.
  unfold GNUNET_TIME_relative_add. by split_ifs.
Qed.

Lemma saturating_multiply_refines d k :
  rel_wf d -> is_u64 k ->
  xrel (GNUNET_TIME_relative_saturating_multiply d k) = xmul (xrel d) k.
Proof.
  intros Hd Hk. unfold xrel. rewrite <- mul_saturates by done.
  unfold GNUNET_TIME_relative_saturating_multiply. by split_ifs.
Qed.

Lemma relative_divide_refines d k :
  rel_wf d -> is_u64 k -> xrel (GNUNET_TIME_relative_divide d k) = xdiv (xrel d) k.
Proof.
  unfold GNUNET_TIME_relative_divide. destruct d as [d]. intros Hd Hk. time_unfold.
  destruct (0 =? k) eqn:Ek; bool_hyps; [subst k; simpl; by split_ifs|].
  pose proof (Z.div_le_upper_bound d k d ltac:(words) ltac:(unfold is_u64 in *; nia)).
  repeat (split_ifs; simpl in *); try done; try (exfalso; words).
Qed.

Lemma absolute_subtract_refines s d :
  abs_wf s -> rel_wf d -> xabs (GNUNET_TIME_absolute_subtract s d) = xsub (xabs s) (xrel d).
Proof. unfold GNUNET_TIME_absolute_subtract. time_cases. Qed.

Lemma relative_subtract_refines d d' :
  rel_wf d -> rel_wf d' -> xrel (GNUNET_TIME_relative_subtract d d') = xsub (xrel d) (xrel d').
Proof. unfold GNUNET_TIME_relative_subtract. time_cases. Qed.

(** Readings of the clock are finite: [now] below the largest word. *)
Lemma get_difference_refines s e :
  abs_wf s -> abs_wf e ->
  xrel (GNUNET_TIME_absolute_get_difference s e)
  = match xabs e with Some y => Some (Z.max 0 (y - abs_value_us s)) | None => None end.
Proof. unfold GNUNET_TIME_absolute_get_difference. time_cases. Qed.

Lemma to_absolute_refines now d :
  abs_wf now -> rel_wf d -> abs_value_us now <> UINT64_MAX ->
  xabs (GNUNET_TIME_relative_to_absolute now d) = xadd (xrel d) (xabs now).
Proof.
  intros Hn Hd Hf. unfold xabs, xrel. rewrite <- add_saturates by done.
  unfold GNUNET_TIME_relative_to_absolute.
  apply Z.eqb_neq in Hf. rewrite Hf, orb_false_r. by split_ifs.
Qed.

Lemma min_max_refine s e d d' : abs_wf s -> abs_wf e -> rel_wf d -> rel_wf d' ->
  xrel (GNUNET_TIME_relative_min d d') = xmin (xrel d) (xrel d') /\ xrel (GNUNET_TIME_relative_max d d') = xmax (xrel d) (xrel d')
  /\ xabs (GNUNET_TIME_absolute_min s e) = xmin (xabs s) (xabs e) /\ xabs (GNUNET_TIME_absolute_max s e) = xmax (xabs s) (xabs e).
Proof.
  intros Hs He Hd Hd'. unfold GNUNET_TIME_relative_min, GNUNET_TIME_relative_max, GNUNET_TIME_absolute_min, GNUNET_TIME_absolute_max, xmin, xmax, xle.
  destruct s as [s], e as [e], d as [d], d' as [d']. time_unfold. unfold is_u64, UINT64_MAX in *.
  split_and!; repeat case_match; simplify_eq/=; try done; try (exfalso; lia); f_equal; lia.
Qed.

(** ** Main theorems *)

(** C37. The arithmetic of time.c on well-formed times is that of extended
    durations: sums saturate to "forever" and never wrap, differences truncate
    at zero, products saturate, quotients are rounded down, and the minimum and
    maximum of two times compare them with "forever" as the largest. "Forever" is absorbing but
    for a subtraction of "forever", which gives 0, and for a multiplication by 0, which gives 0 as well
    (the comment in time.c says that it gives "forever"). The clock reading [now] is any time other than "forever". *)
Theorem time_refines_extended_arithmetic (s e now : GNUNET_TIME_Absolute)
  (d d' : GNUNET_TIME_Relative) (k : Z) :
  abs_wf s -> abs_wf e -> abs_wf now -> abs_value_us now <> UINT64_MAX ->
  rel_wf d -> rel_wf d' -> is_u64 k ->
  xabs (GNUNET_TIME_absolute_add s d) = xadd (xabs s) (xrel d)
  /\ xrel (GNUNET_TIME_relative_add d d') = xadd (xrel d) (xrel d')
  /\ xabs (GNUNET_TIME_relative_to_absolute now d) = xadd (xrel d) (xabs now)
  /\ xabs (GNUNET_TIME_absolute_subtract s d) = xsub (xabs s) (xrel d)
  /\ xrel (GNUNET_TIME_relative_subtract d d') = xsub (xrel d) (xrel d')
  /\ xrel (GNUNET_TIME_absolute_get_difference s e)
     = match xabs e with Some y => Some (Z.max 0 (y - abs_value_us s)) | None => None end
  /\ xrel (GNUNET_TIME_relative_multiply d k) = xmul (xrel d) k
  /\ xrel (GNUNET_TIME_relative_saturating_multiply d k) = xmul (xrel d) k
  /\ xrel (GNUNET_TIME_relative_divide d k) = xdiv (xrel d) k
  /\ xrel (GNUNET_TIME_relative_min d d') = xmin (xrel d) (xrel d') /\ xrel (GNUNET_TIME_relative_max d d') = xmax (xrel d) (xrel d')
  /\ xabs (GNUNET_TIME_absolute_min s e) = xmin (xabs s) (xabs e) /\ xabs (GNUNET_TIME_absolute_max s e) = xmax (xabs s) (xabs e).
Proof.
  intros. rewrite multiply_same. pose proof (min_max_refine s e d d') as Hm. destruct Hm as (? & ? & ? & ?); [done..|].
  repeat split; auto using absolute_add_refines, relative_add_refines,
    to_absolute_refines, absolute_subtract_refines, relative_subtract_refines,
    get_difference_refines, saturating_multiply_refines, relative_divide_refines.
Qed.

Lemma time_refines_extended_arithmetic_witness :
  xabs (GNUNET_TIME_absolute_add (mk_abs 5) (mk_rel (2 ^ 64 - 3))) = None.
Proof.
  refine (eq_trans (proj1 (time_refines_extended_arithmetic (mk_abs 5) (mk_abs 9)
    (mk_abs 7) (mk_rel (2 ^ 64 - 3)) (mk_rel 4) 3 _ _ _ _ _ _ _)) _);
    vm_compute; intuition congruence.
Defined.

(** A deadline is met exactly: as long as the exact sum is below "forever",
    [absolute_add] followed by [get_difference], by [absolute_subtract] or, for
    a deadline set from the clock, by [get_remaining], gives the duration
    (respectively the start) back, and the difference of a deadline with itself
    after any later start is zero. *)
Theorem deadline_roundtrip (s now : GNUNET_TIME_Absolute) (d : GNUNET_TIME_Relative) :
  abs_wf s -> rel_wf d -> abs_value_us s + rel_value_us d < UINT64_MAX ->
  GNUNET_TIME_absolute_get_difference s (GNUNET_TIME_absolute_add s d) = d
  /\ GNUNET_TIME_absolute_get_remaining s (GNUNET_TIME_relative_to_absolute s d) = d
  /\ (0 < abs_value_us s ->
      GNUNET_TIME_absolute_subtract (GNUNET_TIME_absolute_add s d) d = s)
  /\ (abs_value_us s + rel_value_us d <= abs_value_us now ->
      GNUNET_TIME_absolute_get_remaining now (GNUNET_TIME_absolute_add s d)
      = GNUNET_TIME_UNIT_ZERO).
Proof.
  destruct s as [s], d as [d], now as [n]. unfold abs_wf, rel_wf. simpl. intros Hs Hd Hlt.
  assert (GNUNET_TIME_absolute_add (mk_abs s) (mk_rel d) = mk_abs (s + d)) as ->.
  { unfold GNUNET_TIME_absolute_add. simpl. rewrite u64_small by words.
    split_ifs; try done; words. }
  assert (GNUNET_TIME_relative_to_absolute (mk_abs s) (mk_rel d) = mk_abs (d + s)) as ->.
  { unfold GNUNET_TIME_relative_to_absolute. simpl. rewrite u64_small by words.
    split_ifs; try done; words. }
  unfold GNUNET_TIME_absolute_get_difference, GNUNET_TIME_absolute_get_remaining,
    GNUNET_TIME_absolute_subtract. simpl.
  repeat split; intros; split_ifs; try words;
    try (rewrite u64_small by words; f_equal; lia); try done.
  all: unfold GNUNET_TIME_relative_get_zero_; f_equal; rewrite u64_small; words.
Qed.

Lemma deadline_roundtrip_witness :
  GNUNET_TIME_absolute_get_difference (mk_abs 10)
    (GNUNET_TIME_absolute_add (mk_abs 10) (mk_rel 32)) = mk_rel 32.
Proof.
  apply (deadline_roundtrip (mk_abs 10) (mk_abs 99) (mk_rel 32));
    vm_compute; intuition congruence.
Defined.

(** Times cross the wire unchanged: converting to network byte order and
    back is the identity, and the eight bytes transmitted are the big-endian
    image of the microsecond count. *)
Theorem time_network_roundtrip (a : GNUNET_TIME_Absolute) (r : GNUNET_TIME_Relative) :
  abs_wf a -> rel_wf r ->
  GNUNET_TIME_absolute_ntoh (GNUNET_TIME_absolute_hton a) = a
  /\ GNUNET_TIME_relative_ntoh (GNUNET_TIME_relative_hton r) = r
  /\ le_encode 8 (abs_value_us__ (GNUNET_TIME_absolute_hton a)) = be_encode 8 (abs_value_us a)
  /\ le_encode 8 (rel_value_us__ (GNUNET_TIME_relative_hton r)) = be_encode 8 (rel_value_us r).
Proof.
  destruct a as [a], r as [r]. unfold abs_wf, rel_wf.
  cbn [abs_value_us rel_value_us]. intros Ha Hr.
  unfold GNUNET_TIME_absolute_ntoh, GNUNET_TIME_relative_ntoh,
    GNUNET_TIME_absolute_hton, GNUNET_TIME_relative_hton.
  cbn [abs_value_us rel_value_us abs_value_us__ rel_value_us__].
  rewrite !ntohll_htonll, !htonll_image, !u64_small by done. done.
Qed.

Lemma time_network_roundtrip_witness :
  le_encode 8 (abs_value_us__ (GNUNET_TIME_absolute_hton (mk_abs 258)))
  = [0; 0; 0; 0; 0; 0; 1; 2].
Proof.
  refine (eq_trans (proj1 (proj2 (proj2 (time_network_roundtrip
    (mk_abs 258) (mk_rel 1) _ _)))) _); vm_compute; intuition congruence.
Defined.

(** What both rounding functions compute on the microsecond count. *)
Lemma floor_second z :
  is_u64 z -> u64 (z - z mod 1000000) = 1000000 * (z / 1000000)
  /\ 0 <= 1000000 * (z / 1000000) <= z
  /\ (1000000 * (z / 1000000)) mod 1000000 = 0
  /\ (z mod 1000000 = 0 <-> 1000000 * (z / 1000000) = z).
Proof.
  intros Hz. pose proof (Z.div_mod z 1000000 ltac:(lia)) as E.
  pose proof (Z.mod_pos_bound z 1000000 ltac:(lia)).
  pose proof (Z.div_pos z 1000000 ltac:(words) ltac:(lia)).
  rewrite u64_small, (Z.mul_comm 1000000), Z.mod_mul by words. words.
Qed.

Lemma round_rel_abs r :
  GNUNET_TIME_round_rel r =
    let '(c, t) := GNUNET_TIME_round_abs (mk_abs (rel_value_us r)) in (c, mk_rel (abs_value_us t)).
Proof.
  destruct r as [r]. unfold GNUNET_TIME_round_rel, GNUNET_TIME_round_abs. simpl. by split_ifs.
Qed.

Lemma round_abs_spec t :
  abs_wf t ->
  let '(ca, t') := GNUNET_TIME_round_abs t in
  (t' = if decide (abs_value_us t = UINT64_MAX) then t
        else mk_abs (1000000 * (abs_value_us t / 1000000)))
  /\ (ca = GNUNET_OK <-> t' = t)
  /\ GNUNET_TIME_round_abs t' = (GNUNET_OK, t').
Proof.
  destruct t as [t]. intros Ht. unfold abs_wf in Ht. simpl in Ht.
  destruct (floor_second t Ht) as (E1 & E2 & E3 & E4).
  unfold GNUNET_TIME_round_abs. cbn [abs_value_us GNUNET_TIME_absolute_get_forever_].
  destruct (Z.eqb_spec t UINT64_MAX) as [->|Hf].
  { rewrite decide_True by done. done. }
  rewrite decide_False by done.
  destruct (Z.eqb_spec 0 (t mod 1000000)) as [Hm|Hm].
  - rewrite (proj1 E4) by lia. cbn [abs_value_us]. rewrite <- Hm. by case_if.
  - rewrite E1. cbn [abs_value_us]. split; [done|]. split; [split; intros H|].
    + discriminate H.
    + injection H. lia.
    + rewrite E3. destruct (Z.eqb_spec (1000000 * (t / 1000000)) UINT64_MAX); [words|done].
Qed.

(** Rounding for JSON: the result is "forever" for "forever", otherwise the
    greatest whole number of seconds not above the argument; [GNUNET_OK] is
    returned exactly when nothing changed, and rounding again changes nothing. *)
Theorem round_spec (t : GNUNET_TIME_Absolute) (r : GNUNET_TIME_Relative) :
  abs_wf t -> rel_wf r ->
  let '(ca, t') := GNUNET_TIME_round_abs t in
  let '(cr, r') := GNUNET_TIME_round_rel r in
  (t' = if decide (abs_value_us t = UINT64_MAX) then t
        else mk_abs (1000000 * (abs_value_us t / 1000000)))
  /\ (r' = if decide (rel_value_us r = UINT64_MAX) then r
           else mk_rel (1000000 * (rel_value_us r / 1000000)))
  /\ (ca = GNUNET_OK <-> t' = t) /\ (cr = GNUNET_OK <-> r' = r)
  /\ GNUNET_TIME_round_abs t' = (GNUNET_OK, t')
  /\ GNUNET_TIME_round_rel r' = (GNUNET_OK, r').
Proof.
  destruct r as [r]. intros Ht Hr.
  pose proof (round_abs_spec t Ht) as Ha. pose proof (round_abs_spec (mk_abs r) Hr) as Hb.
  rewrite round_rel_abs. simpl.
  destruct (GNUNET_TIME_round_abs t) as [ca t'], (GNUNET_TIME_round_abs (mk_abs r)) as [cr [r']].
  destruct Ha as (-> & Ha2 & Ha3), Hb as (Hb1 & Hb2 & Hb3). simpl in *.
  assert (r' = if decide (r = UINT64_MAX) then r else 1000000 * (r / 1000000)) as ->
    by (case_decide; congruence).
  rewrite round_rel_abs. simpl. rewrite Hb3. simpl.
  repeat split; try tauto; try (case_decide; done).
  - intros H. apply Hb2 in H. congruence.
  - intros H. apply Hb2. congruence.
Qed.

Lemma round_spec_witness :
  GNUNET_TIME_round_abs (mk_abs 2000000) = (GNUNET_OK, mk_abs 2000000).
Proof.
  assert (Ha : abs_wf (mk_abs 2500000)) by (vm_compute; intuition congruence).
  assert (Hr : rel_wf (mk_rel 7)) by (vm_compute; intuition congruence).
  pose proof (round_spec (mk_abs 2500000) (mk_rel 7) Ha Hr) as H.
  vm_compute in H |- *. apply H.
Defined.
