(* ===== verification/Floats.v ===== *)
(** * IEEE double arithmetic

    The C type [double], as the binary64 instance of the Standard Library's
    executable floating-point specification: round-to-nearest-even on 53 bits
    of precision. Used by the bandwidth tracker and by the latency estimator of
    the defragmenter. *)

From S2P Require Import Prelude.
From Stdlib Require Export SpecFloat.

Definition double := spec_float.

(** Conversion of an integer to [double]. *)
Definition double_of_Z (z : Z) : double := binary_normalize 53 1024 z 0 false.

Definition dadd (x y : double) : double := SFadd 53 1024 x y.
Definition dsub (x y : double) : double := SFsub 53 1024 x y.
Definition dmul (x y : double) : double := SFmul 53 1024 x y.
Definition ddiv (x y : double) : double := SFdiv 53 1024 x y.
Definition dsqrt (x : double) : double := SFsqrt 53 1024 x.

(** Truncation towards zero of a finite double. *)
Definition double_trunc (x : double) : option Z :=
  match x with
  | S754_zero _ => Some 0
  | S754_finite s m e =>
      let a := if 0 <=? e then Z.pos m * 2 ^ e else Z.pos m / 2 ^ (- e) in
      Some (if s then - a else a)
  | S754_infinity _ | S754_nan => None
  end.

(** Conversion to [uint64_t]: C leaves the result open when the truncated value
    does not fit, and so does the model: [undef] is what the machine gives. *)
Definition double_to_u64 (undef : double -> Z) (x : double) : Z :=
  match double_trunc x with
  | Some z => if (0 <=? z) && (z <? 2 ^ 64) then z else u64 (undef x)
  | None => u64 (undef x)
  end.

Lemma double_to_u64_range undef x : is_u64 (double_to_u64 undef x).
Proof.
  unfold double_to_u64.
  destruct (double_trunc x); split_ifs; auto with words; words.
Qed.

#[export] Hint Resolve double_to_u64_range : words.

Example double_div_trunc :
  double_to_u64 (fun _ => 0) (ddiv (double_of_Z 65536) (double_of_Z 1000)) = 65.
Proof. reflexivity. Qed.
