(* ===== verification/Bandwidth.v ===== *)
(** * Bandwidth trackers: [src/util/bandwidth.c]

    A tracker accounts for the bytes consumed against a rate limit and lets
    unused bandwidth accumulate up to a bound. The file models every operation
    of the source; callbacks are returned as events, the scheduled task is the
    delay it was scheduled with. Other components see a tracker through the
    interface [FlowControl]. *)

From S2P Require Import Prelude Endian Time Floats.

(** ** Interface *)

(** What a component that sends traffic relies on: a delay to respect before
    sending [size] bytes, and the accounting of bytes sent. Both read the
    clock; [clk i] is the [i]-th reading of the clock during the call. *)
Definition clock := nat -> GNUNET_TIME_Absolute.

Definition clock_wf (clk : clock) : Prop := forall i, abs_wf (clk i).

(** The clock after [n] readings. *)
Definition shift_clock (n : nat) (clk : clock) : clock := fun i => clk (n + i)%nat.

Lemma shift_clock_wf n clk : clock_wf clk -> clock_wf (shift_clock n clk).
Proof. intros H i. apply H. Qed.

Lemma clock_reads clk i : clock_wf clk -> abs_wf (clk i).
Proof. intros H. apply H. Qed.
#[export] Hint Resolve clock_reads shift_clock_wf : words.

Class FlowControl (T : Type) := {
  flow_wf : T -> Prop;
  flow_get_delay : clock -> T -> Z -> T * GNUNET_TIME_Relative;
  flow_consume : clock -> T -> Z -> T * Z;
  flow_get_delay_wf clk t size :
    clock_wf clk -> flow_wf t -> is_u64 size ->
    flow_wf (flow_get_delay clk t size).1 /\ rel_wf (flow_get_delay clk t size).2;
  flow_consume_wf clk t size :
    clock_wf clk -> flow_wf t -> is_s64 size -> flow_wf (flow_consume clk t size).1;
}.

(** ** Data *)

Definition GNUNET_SERVER_MAX_MESSAGE_SIZE : Z := 65536.

Record GNUNET_BANDWIDTH_Value32NBO := mk_bw { value__ : Z }.

(** [update_cb] and [excess_cb] say whether the callback pointer is non-NULL;
    [excess_task] is the delay of the scheduled task, if any. *)
Record GNUNET_BANDWIDTH_Tracker := mk_tracker {
  update_cb : bool;
  excess_cb : bool;
  consumption_since_last_update__ : Z;
  excess_task : option GNUNET_TIME_Relative;
  last_update__ : GNUNET_TIME_Absolute;
  available_bytes_per_s__ : Z;
  max_carry_s__ : Z;
}.

Inductive bw_event := ExcessCb | UpdateCb.

Definition set_consumption (c : Z) (av : GNUNET_BANDWIDTH_Tracker) :=
  mk_tracker (update_cb av) (excess_cb av) c (excess_task av) (last_update__ av)
    (available_bytes_per_s__ av) (max_carry_s__ av).
Definition set_excess_task (t : option GNUNET_TIME_Relative) (av : GNUNET_BANDWIDTH_Tracker) :=
  mk_tracker (update_cb av) (excess_cb av) (consumption_since_last_update__ av) t
    (last_update__ av) (available_bytes_per_s__ av) (max_carry_s__ av).
Definition set_last_update (t : GNUNET_TIME_Absolute) (av : GNUNET_BANDWIDTH_Tracker) :=
  mk_tracker (update_cb av) (excess_cb av) (consumption_since_last_update__ av)
    (excess_task av) t (available_bytes_per_s__ av) (max_carry_s__ av).
Definition set_available (n : Z) (av : GNUNET_BANDWIDTH_Tracker) :=
  mk_tracker (update_cb av) (excess_cb av) (consumption_since_last_update__ av)
    (excess_task av) (last_update__ av) n (max_carry_s__ av).

(** ** Values *)

Definition GNUNET_BANDWIDTH_value_init (bytes_per_second : Z) : GNUNET_BANDWIDTH_Value32NBO :=
  mk_bw (htonl bytes_per_second).

Definition GNUNET_BANDWIDTH_value_min (b1 b2 : GNUNET_BANDWIDTH_Value32NBO)
  : GNUNET_BANDWIDTH_Value32NBO :=
  GNUNET_BANDWIDTH_value_init
    (if ntohl (value__ b1) <? ntohl (value__ b2) then ntohl (value__ b1)
     else ntohl (value__ b2)).

Definition GNUNET_BANDWIDTH_value_max (b1 b2 : GNUNET_BANDWIDTH_Value32NBO)
  : GNUNET_BANDWIDTH_Value32NBO :=
  GNUNET_BANDWIDTH_value_init
    (if ntohl (value__ b2) <? ntohl (value__ b1) then ntohl (value__ b1)
     else ntohl (value__ b2)).

Definition GNUNET_BANDWIDTH_value_get_available_until (bps : GNUNET_BANDWIDTH_Value32NBO)
  (deadline : GNUNET_TIME_Relative) : Z :=
  let b := ntohl (value__ bps) in
  u64 (u64 (b * rel_value_us deadline) + 500000) / 1000000.

Definition GNUNET_BANDWIDTH_value_get_delay_for (bps : GNUNET_BANDWIDTH_Value32NBO) (size : Z)
  : GNUNET_TIME_Relative :=
  let b := ntohl (value__ bps) in
  if 0 =? b then GNUNET_TIME_UNIT_FOREVER_REL
  else mk_rel (u64 (u64 (size * 1000) * 1000) / b).

(** ** Tracker operations *)

Section Tracker.
(** Result of the conversions from [double] that C leaves undefined. *)
Variable undef : double -> Z.

Definition excess_trigger (av : GNUNET_BANDWIDTH_Tracker)
  : GNUNET_BANDWIDTH_Tracker * list bw_event :=
  let av := set_excess_task None av in
  (av, if excess_cb av then [ExcessCb] else []).

(** The bytes that became available since the last update. *)
Definition delta_avail (now : GNUNET_TIME_Absolute) (av : GNUNET_BANDWIDTH_Tracker) : Z :=
  let delta_time := u64 (abs_value_us now - abs_value_us (last_update__ av)) in
  u64 (u64 (delta_time * available_bytes_per_s__ av) + 500000) / 1000000.

(** The bound on accumulated savings, as both functions below compute it. *)
Definition max_carry (av : GNUNET_BANDWIDTH_Tracker) : Z :=
  let m := u64 (available_bytes_per_s__ av * max_carry_s__ av) in
  let m := if m <? GNUNET_SERVER_MAX_MESSAGE_SIZE then GNUNET_SERVER_MAX_MESSAGE_SIZE else m in
  if INT64_MAX <? m then INT64_MAX else m.

Definition update_excess (now : GNUNET_TIME_Absolute) (av : GNUNET_BANDWIDTH_Tracker)
  : GNUNET_BANDWIDTH_Tracker :=
  if negb (excess_cb av) then av
  else
    let consumption := consumption_since_last_update__ av in
    let current_consumption := s64 (consumption - delta_avail now av) in
    let current_consumption :=
      if consumption <? current_consumption then INT64_MIN else current_consumption in
    let left_bytes := s64 (current_consumption + max_carry av) in
    let left_bytes := if left_bytes <? current_consumption then INT64_MAX else left_bytes in
    let delay :=
      if left_bytes <? 0 then GNUNET_TIME_UNIT_ZERO
      else
        let factor :=
          ddiv (dmul (double_of_Z 1) (double_of_Z left_bytes))
            (double_of_Z (available_bytes_per_s__ av)) in
        GNUNET_TIME_relative_saturating_multiply GNUNET_TIME_UNIT_SECONDS
          (double_to_u64 undef factor) in
    set_excess_task (Some delay) av.

(** [update] and [excess]: the callback arguments are non-NULL. *)
Definition GNUNET_BANDWIDTH_tracker_init2 (now : GNUNET_TIME_Absolute)
  (av : GNUNET_BANDWIDTH_Tracker) (update : bool)
  (bytes_per_second_limit : GNUNET_BANDWIDTH_Value32NBO) (max_carry_s : Z) (excess : bool)
  : GNUNET_BANDWIDTH_Tracker :=
  update_excess now
    (mk_tracker update excess 0 (excess_task av) now
       (ntohl (value__ bytes_per_second_limit)) max_carry_s).

Definition GNUNET_BANDWIDTH_tracker_init (now : GNUNET_TIME_Absolute)
  (av : GNUNET_BANDWIDTH_Tracker) (update : bool)
  (bytes_per_second_limit : GNUNET_BANDWIDTH_Value32NBO) (max_carry_s : Z)
  : GNUNET_BANDWIDTH_Tracker :=
  GNUNET_BANDWIDTH_tracker_init2 now av update bytes_per_second_limit max_carry_s false.

Definition GNUNET_BANDWIDTH_tracker_notification_stop (av : GNUNET_BANDWIDTH_Tracker)
  : GNUNET_BANDWIDTH_Tracker :=
  mk_tracker false false (consumption_since_last_update__ av) None (last_update__ av)
    (available_bytes_per_s__ av) (max_carry_s__ av).

Definition update_tracker (now : GNUNET_TIME_Absolute) (av : GNUNET_BANDWIDTH_Tracker)
  : GNUNET_BANDWIDTH_Tracker :=
  let consumption := s64 (consumption_since_last_update__ av - delta_avail now av) in
  let av := set_last_update now (set_consumption consumption av) in
  if consumption <? 0 then
    let left_bytes := u64 (- consumption) in
    if left_bytes <? max_carry av then set_consumption (s64 (- left_bytes)) av
    else set_consumption (s64 (- max_carry av)) av
  else av.

Definition GNUNET_BANDWIDTH_tracker_consume (clk : clock)
  (av : GNUNET_BANDWIDTH_Tracker) (size : Z) : GNUNET_BANDWIDTH_Tracker * Z :=
  let consumption := consumption_since_last_update__ av in
  let nc := s64 (consumption + size) in
  if 0 <? size then
    if nc <? consumption then (av, GNUNET_SYSERR)
    else
      let av := update_excess (clk 1%nat) (update_tracker (clk 0%nat) (set_consumption nc av)) in
      (av, if 0 <? consumption_since_last_update__ av then GNUNET_YES else GNUNET_NO)
  else
    if consumption <? nc then (av, GNUNET_SYSERR)
    else (update_excess (clk 0%nat) (set_consumption nc av), GNUNET_NO).

Definition GNUNET_BANDWIDTH_tracker_get_delay (clk : clock)
  (av : GNUNET_BANDWIDTH_Tracker) (size : Z) : GNUNET_BANDWIDTH_Tracker * GNUNET_TIME_Relative :=
  if 0 =? available_bytes_per_s__ av then (av, GNUNET_TIME_UNIT_FOREVER_REL)
  else
    let av := update_tracker (clk 0%nat) av in
    let bytes_needed := s64 (size + consumption_since_last_update__ av) in
    if bytes_needed <=? 0 then (av, GNUNET_TIME_UNIT_ZERO)
    else (av, mk_rel (u64 (s64 (1000 * 1000 * bytes_needed)) / available_bytes_per_s__ av)).

Definition GNUNET_BANDWIDTH_tracker_get_available (clk : clock)
  (av : GNUNET_BANDWIDTH_Tracker) : GNUNET_BANDWIDTH_Tracker * Z :=
  let av := update_tracker (clk 0%nat) av in
  let bps := GNUNET_BANDWIDTH_value_init (available_bytes_per_s__ av) in
  let avail := GNUNET_BANDWIDTH_value_get_available_until bps
                 (GNUNET_TIME_absolute_get_duration (clk 1%nat) (last_update__ av)) in
  (av, s64 (avail - consumption_since_last_update__ av)).

Definition GNUNET_BANDWIDTH_tracker_update_quota (clk : clock)
  (av : GNUNET_BANDWIDTH_Tracker) (bytes_per_second_limit : GNUNET_BANDWIDTH_Value32NBO)
  : GNUNET_BANDWIDTH_Tracker * list bw_event :=
  let new_limit := ntohl (value__ bytes_per_second_limit) in
  let av := update_tracker (clk 0%nat) av in
  let old_limit := available_bytes_per_s__ av in
  let av := set_available new_limit av in
  let ev := if update_cb av then [UpdateCb] else [] in
  let av := if new_limit <? old_limit then update_tracker (clk 1%nat) av else av in
  (update_excess (clk 2%nat) av, ev).

End Tracker.

(** ** Invariant *)

Record tracker_wf (av : GNUNET_BANDWIDTH_Tracker) : Prop := {
  wf_consumption : is_s64 (consumption_since_last_update__ av);
  wf_last_update : abs_wf (last_update__ av);
  wf_available : is_u32 (available_bytes_per_s__ av);
  wf_max_carry : is_u32 (max_carry_s__ av);
}.

(** Savings (negative consumption) do not exceed the carry limit. *)
Definition savings_bounded (av : GNUNET_BANDWIDTH_Tracker) : Prop :=
  - max_carry av <= consumption_since_last_update__ av.

Section TrackerFacts.
Variable undef : double -> Z.

Lemma max_carry_range av : GNUNET_SERVER_MAX_MESSAGE_SIZE <= max_carry av <= INT64_MAX.
Proof. unfold max_carry, GNUNET_SERVER_MAX_MESSAGE_SIZE. split_ifs; words. Qed.

Lemma delta_avail_range now av : 0 <= delta_avail now av < 2 ^ 64.
Proof.
  unfold delta_avail. pose proof (u64_range (u64 (u64 (abs_value_us now -
    abs_value_us (last_update__ av)) * available_bytes_per_s__ av) + 500000)) as H.
  split; [apply Z.div_pos; words|]. apply Z.div_lt_upper_bound; words.
Qed.

Lemma update_excess_same now av :
  consumption_since_last_update__ (update_excess undef now av) = consumption_since_last_update__ av
  /\ available_bytes_per_s__ (update_excess undef now av) = available_bytes_per_s__ av
  /\ max_carry_s__ (update_excess undef now av) = max_carry_s__ av
  /\ last_update__ (update_excess undef now av) = last_update__ av.
Proof. unfold update_excess. by case_if. Qed.

Lemma update_excess_wf now av : tracker_wf av -> tracker_wf (update_excess undef now av).
Proof.
  intros [H1 H2 H3 H4]. destruct (update_excess_same now av) as (E1 & E2 & E3 & E4).
  split; congruence.
Qed.

Lemma update_excess_bounded now av :
  savings_bounded av -> savings_bounded (update_excess undef now av).
Proof.
  unfold savings_bounded, max_carry.
  destruct (update_excess_same now av) as (-> & -> & -> & _). done.
Qed.

(** Case analysis of [update_tracker]: what it leaves is the exact balance
    (consumption less what became available, in 64-bit arithmetic) or the carry
    limit, whichever saves less. *)
Lemma update_tracker_consumption now av :
  let c := s64 (consumption_since_last_update__ av - delta_avail now av) in
  c <> INT64_MIN ->
  consumption_since_last_update__ (update_tracker now av) = Z.max c (- max_carry av).
Proof.
  intros c Hc. unfold update_tracker. fold c. cbn zeta.
  pose proof (s64_range (consumption_since_last_update__ av - delta_avail now av)) as Hr.
  fold c in Hr. pose proof (max_carry_range av) as Hm.
  unfold GNUNET_SERVER_MAX_MESSAGE_SIZE in Hm.
  change (max_carry (set_last_update now (set_consumption c av))) with (max_carry av).
  destruct (c <? 0) eqn:E; bool_hyps; cbn; [|words].
  rewrite (u64_small (- c)) by words.
  split_ifs; cbn; rewrite s64_small by words; words.
Qed.

Lemma update_tracker_wf now av : abs_wf now -> tracker_wf av -> tracker_wf (update_tracker now av).
Proof.
  intros Hn [H1 H2 H3 H4].
  unfold update_tracker. split_ifs; split; cbn; auto with words.
Qed.

Lemma update_tracker_same now av :
  available_bytes_per_s__ (update_tracker now av) = available_bytes_per_s__ av
  /\ max_carry_s__ (update_tracker now av) = max_carry_s__ av
  /\ last_update__ (update_tracker now av) = now.
Proof. unfold update_tracker. by split_ifs. Qed.

Lemma update_tracker_max_carry now av : max_carry (update_tracker now av) = max_carry av.
Proof. unfold max_carry. by destruct (update_tracker_same now av) as (-> & -> & _). Qed.

Lemma update_tracker_bounded now av : savings_bounded (update_tracker now av).
Proof.
  unfold savings_bounded. rewrite update_tracker_max_carry.
  unfold update_tracker. set (c := s64 _). pose proof (max_carry_range av) as Hm.
  unfold GNUNET_SERVER_MAX_MESSAGE_SIZE in Hm.
  change (max_carry (set_last_update now (set_consumption c av))) with (max_carry av).
  pose proof (s64_range (consumption_since_last_update__ av - delta_avail now av)) as Hr.
  fold c in Hr.
  destruct (c <? 0) eqn:E; bool_hyps; cbn; [|words].
  rewrite (u64_small (- c)) by words.
  split_ifs; cbn; rewrite s64_small by words; words.
Qed.

End TrackerFacts.

#[export] Hint Resolve update_excess_wf update_tracker_wf update_tracker_bounded
  update_excess_bounded : words.

(** ** Runs of a tracker *)

(** One call of the public interface, at any clock readings. *)
Inductive tracker_step (undef : double -> Z)
  : GNUNET_BANDWIDTH_Tracker -> GNUNET_BANDWIDTH_Tracker -> Prop :=
| step_consume clk av size :
    clock_wf clk -> is_s64 size ->
    tracker_step undef av (GNUNET_BANDWIDTH_tracker_consume undef clk av size).1
| step_get_delay clk av size :
    clock_wf clk -> is_u64 size ->
    tracker_step undef av (GNUNET_BANDWIDTH_tracker_get_delay clk av size).1
| step_get_available clk av :
    clock_wf clk -> tracker_step undef av (GNUNET_BANDWIDTH_tracker_get_available clk av).1
| step_update_quota clk av limit :
    clock_wf clk ->
    tracker_step undef av (GNUNET_BANDWIDTH_tracker_update_quota undef clk av limit).1
| step_excess av : tracker_step undef av (excess_trigger av).1
| step_stop av : tracker_step undef av (GNUNET_BANDWIDTH_tracker_notification_stop av).

Section TrackerTheorems.
Variable undef : double -> Z.

Lemma set_consumption_wf c av : is_s64 c -> tracker_wf av -> tracker_wf (set_consumption c av).
Proof. intros Hc [H1 H2 H3 H4]. by split. Qed.

Lemma set_available_wf c av : is_u32 c -> tracker_wf av -> tracker_wf (set_available c av).
Proof. intros Hc [H1 H2 H3 H4]. by split. Qed.

Lemma tracker_step_wf av av' : tracker_step undef av av' -> tracker_wf av -> tracker_wf av'.
Proof.
  intros Hs Hw. destruct Hs as [clk av size Hc Hz|clk av size Hc Hz|clk av Hc|clk av lim Hc|av|av].
  - unfold GNUNET_BANDWIDTH_tracker_consume. split_ifs; cbn; auto using set_consumption_wf with words.
  - unfold GNUNET_BANDWIDTH_tracker_get_delay. split_ifs; cbn; auto with words.
  - cbn. auto with words.
  - unfold GNUNET_BANDWIDTH_tracker_update_quota. cbn. apply update_excess_wf.
    case_if; auto using set_available_wf with words.
  - destruct Hw. by split.
  - destruct Hw. by split.
Qed.

Lemma init2_wf now av up lim carry ex :
  abs_wf now -> is_u32 carry ->
  tracker_wf (GNUNET_BANDWIDTH_tracker_init2 undef now av up lim carry ex).
Proof.
  intros Hn Hc. apply update_excess_wf. split; cbn; auto with words. words.
Qed.

(** Raising the limit never lowers the carry bound: the product of two 32-bit
    words does not wrap. *)
Lemma max_carry_mono av n :
  tracker_wf av -> available_bytes_per_s__ av <= n -> is_u32 n ->
  max_carry av <= max_carry (set_available n av).
Proof.
  intros [_ _ H1 H2] Hle Hn. unfold max_carry, GNUNET_SERVER_MAX_MESSAGE_SIZE. cbn.
  assert (available_bytes_per_s__ av * max_carry_s__ av <= n * max_carry_s__ av)
    by (unfold is_u32 in *; nia).
  assert (0 <= available_bytes_per_s__ av * max_carry_s__ av) by (unfold is_u32 in *; nia).
  assert (n * max_carry_s__ av < 2 ^ 64) by (unfold is_u32 in *; nia).
  rewrite !u64_small by words. split_ifs; words.
Qed.

Lemma update_quota_bounded clk av lim :
  clock_wf clk -> tracker_wf av ->
  savings_bounded (GNUNET_BANDWIDTH_tracker_update_quota undef clk av lim).1.
Proof.
  intros Hc Hw. unfold GNUNET_BANDWIDTH_tracker_update_quota. cbn.
  apply update_excess_bounded.
  set (av1 := update_tracker _ av). set (n := ntohl _).
  assert (is_u32 n) as Hn by apply htonl_range.
  assert (tracker_wf av1) as Hw1 by (unfold av1; auto with words).
  destruct (n <? available_bytes_per_s__ av1) eqn:E; bool_hyps; [auto with words|].
  pose proof (update_tracker_bounded (clk 0%nat) av) as Hb. fold av1 in Hb.
  pose proof (max_carry_mono av1 n Hw1 E Hn). unfold savings_bounded in *. cbn. lia.
Qed.

(** In every run of the tracker interface from an initialised tracker, all
    fields stay within their C types; and every call that brings the tracker up
    to date ([consume] of a positive size that is accepted, [get_delay] on a
    non-zero limit, [get_available], [update_quota]) leaves at most [max_carry]
    bytes of savings, the bound of the current limit. *)
Theorem tracker_invariant (now : GNUNET_TIME_Absolute) (av0 av : GNUNET_BANDWIDTH_Tracker)
  (up ex : bool) (lim lim' : GNUNET_BANDWIDTH_Value32NBO) (carry size : Z) (clk : clock) :
  abs_wf now -> is_u32 carry -> clock_wf clk -> 0 < size ->
  rtc (tracker_step undef) (GNUNET_BANDWIDTH_tracker_init2 undef now av0 up lim carry ex) av ->
  tracker_wf av
  /\ ((GNUNET_BANDWIDTH_tracker_consume undef clk av size).2 <> GNUNET_SYSERR ->
      savings_bounded (GNUNET_BANDWIDTH_tracker_consume undef clk av size).1)
  /\ (available_bytes_per_s__ av <> 0 ->
      savings_bounded (GNUNET_BANDWIDTH_tracker_get_delay clk av size).1)
  /\ savings_bounded (GNUNET_BANDWIDTH_tracker_get_available clk av).1
  /\ savings_bounded (GNUNET_BANDWIDTH_tracker_update_quota undef clk av lim').1.
Proof.
  intros Hn Hc Hclk Hs Hrun.
  assert (tracker_wf av) as Hw.
  { revert Hrun. generalize (init2_wf now av0 up lim carry ex Hn Hc).
    generalize (GNUNET_BANDWIDTH_tracker_init2 undef now av0 up lim carry ex).
    intros a Ha Hrun. induction Hrun; eauto using tracker_step_wf. }
  split; [done|]. repeat split.
  - unfold GNUNET_BANDWIDTH_tracker_consume.
    destruct (0 <? size) eqn:E; bool_hyps; [|lia].
    case_if; [done|]. cbn. auto with words.
  - unfold GNUNET_BANDWIDTH_tracker_get_delay.
    intros Ha. destruct (Z.eqb_spec 0 (available_bytes_per_s__ av)); [lia|].
    case_if; apply update_tracker_bounded.
  - apply update_tracker_bounded.
  - by apply update_quota_bounded.
Qed.

(** Rounding: [1000000 * B / a] microseconds at [a] bytes per second give [B]
    bytes up to the granularity of one microsecond. *)
Lemma rate_rounding a B :
  0 < a -> 0 <= B ->
  B - (1000000 * B / a * a + 500000) / 1000000 <= (a + 499998) / 1000000.
Proof.
  intros Ha HB. set (d := 1000000 * B / a).
  pose proof (Z.div_mod (1000000 * B) a ltac:(lia)).
  pose proof (Z.mod_pos_bound (1000000 * B) a Ha).
  pose proof (Z.div_mod (d * a + 500000) 1000000 ltac:(lia)).
  pose proof (Z.mod_pos_bound (d * a + 500000) 1000000 ltac:(lia)).
  apply Z.div_le_lower_bound; [lia|]. fold d in H. nia.
Qed.

(** What becomes available in [d] microseconds when nothing overflows. *)
Lemma delta_avail_exact now av d :
  last_update__ av = now -> abs_wf now -> 0 <= d -> abs_value_us now + d < 2 ^ 64 ->
  0 <= available_bytes_per_s__ av -> d * available_bytes_per_s__ av < 2 ^ 63 ->
  delta_avail (mk_abs (abs_value_us now + d)) av
  = (d * available_bytes_per_s__ av + 500000) / 1000000.
Proof.
  intros El Hn Hd Hs Ha Hp. unfold delta_avail, abs_wf in *. rewrite El. cbn.
  replace (abs_value_us now + d - abs_value_us now) with d by lia.
  assert (0 <= d * available_bytes_per_s__ av) by nia.
  rewrite (u64_small d), (u64_small (d * _)), u64_small by words. done.
Qed.

(** Waiting for the delay [get_delay] returns is enough for any message of
    the GNUnet protocol: when the call made at [now] for [size <= 65536] bytes
    returns [d] without overflow, a tracker brought up to date at [now + d] needs
    at most [(limit + 499998) / 1000000] more bytes, which is none at limits up
    to 500001 bytes per second. *)
Theorem get_delay_sufficient (clk : clock) (av av' : GNUNET_BANDWIDTH_Tracker) (size d : Z) :
  clock_wf clk -> tracker_wf av -> 0 <= size <= GNUNET_SERVER_MAX_MESSAGE_SIZE ->
  0 < available_bytes_per_s__ av ->
  GNUNET_BANDWIDTH_tracker_get_delay clk av size = (av', mk_rel d) ->
  1000000 * (size + consumption_since_last_update__ av') < 2 ^ 63 ->
  abs_value_us (clk 0%nat) + d < 2 ^ 64 ->
  let later := update_tracker (mk_abs (abs_value_us (clk 0%nat) + d)) av' in
  size + consumption_since_last_update__ later
    <= (available_bytes_per_s__ av + 499998) / 1000000.
Proof.
  intros Hclk Hw Hsize Ha Hcall Hfit Hd later.
  set (a := available_bytes_per_s__ av) in *.
  unfold GNUNET_BANDWIDTH_tracker_get_delay in Hcall.
  destruct (Z.eqb_spec 0 (available_bytes_per_s__ av)) as [E|_]; [fold a in E; lia|].
  set (av1 := update_tracker (clk 0%nat) av) in *.
  assert (tracker_wf av1) as Hw1 by (unfold av1; auto with words).
  destruct (update_tracker_same (clk 0%nat) av) as (Ea & Ec & El).
  fold av1 a in Ea, Ec, El.
  pose proof (update_tracker_bounded (clk 0%nat) av) as Hb. fold av1 in Hb.
  pose proof (max_carry_range av1) as Hm.
  unfold savings_bounded, GNUNET_SERVER_MAX_MESSAGE_SIZE in *.
  set (B := size + consumption_since_last_update__ av1) in *.
  assert (av' = av1 /\ 0 <= d /\ d * a < 2 ^ 63
          /\ B - (d * a + 500000) / 1000000 <= (a + 499998) / 1000000
          /\ (d = 0 \/ - 65536 <= consumption_since_last_update__ av1))
    as (-> & Hd0 & Hda & Hround & Hlow).
  { pose proof (wf_consumption _ Hw1).
    destruct (s64 B <=? 0) eqn:EB; injection Hcall as <- <-; bool_hyps; fold B in Hfit.
    - rewrite s64_small in EB by (unfold B in *; words).
      split; [done|]. split; [lia|]. split; [lia|]. split; [|by left].
      pose proof (Z.div_pos (a + 499998) 1000000).
      change ((0 * a + 500000) / 1000000) with 0. lia.
    - rewrite (s64_small B) in * by (unfold B in *; words).
      rewrite s64_small, u64_small, Ea by (unfold B in *; words).
      pose proof (Z.mul_div_le (1000 * 1000 * B) a Ha).
      pose proof (Z.div_pos (1000 * 1000 * B) a ltac:(lia) Ha).
      split; [done|]. split; [lia|]. split; [lia|].
      split; [apply rate_rounding; lia|unfold B in *; lia]. }
  subst later. pose proof (delta_avail_exact (clk 0%nat) av1 d El (Hclk 0%nat) Hd0 Hd) as Hx.
  rewrite Ea in Hx. specialize (Hx ltac:(lia) Hda).
  pose proof (Z.div_pos (d * a + 500000) 1000000 ltac:(nia) ltac:(lia)).
  assert ((d * a + 500000) / 1000000 < 2 ^ 62) by (apply Z.div_lt_upper_bound; lia).
  pose proof (wf_consumption _ Hw1) as Hc1.
  assert (is_s64 (consumption_since_last_update__ av1 - (d * a + 500000) / 1000000)
          /\ consumption_since_last_update__ av1 - (d * a + 500000) / 1000000 <> INT64_MIN)
    as [Hr1 Hr2].
  { destruct Hlow as [->|Hlow]; [change ((0 * a + 500000) / 1000000) with 0|]; words. }
  rewrite update_tracker_consumption; rewrite Hx, s64_small by done; [|done].
  pose proof (Z.div_pos (a + 499998) 1000000). unfold B in *. lia.
Qed.

(** Accounting: [consume] rejects exactly the sizes whose sum with the
    balance does not fit in 64 bits, leaving the tracker as it was; otherwise a
    positive size is charged, what became available since the last update is
    credited (in 64-bit arithmetic, down to the carry limit), and the answer is
    [GNUNET_YES] exactly when the balance is over the limit; a refund is booked
    as it is. *)
Theorem consume_spec (clk : clock) (av : GNUNET_BANDWIDTH_Tracker) (size : Z) :
  tracker_wf av -> is_s64 size ->
  let c := consumption_since_last_update__ av in
  let '(av', code) := GNUNET_BANDWIDTH_tracker_consume undef clk av size in
  if decide (is_s64 (c + size)) then
    let c' := consumption_since_last_update__ av' in
    code = (if decide (0 < size /\ 0 < c') then GNUNET_YES else GNUNET_NO)
    /\ (size <= 0 -> c' = c + size)
    /\ (0 < size ->
        let d := delta_avail (clk 0%nat) av in
        s64 (c + size - d) <> INT64_MIN -> c' = Z.max (s64 (c + size - d)) (- max_carry av))
  else code = GNUNET_SYSERR /\ av' = av.
Proof.
  intros Hw Hs c. pose proof (wf_consumption _ Hw) as Hc. fold c in Hc.
  assert (s64 (c + size) = if decide (is_s64 (c + size)) then c + size
          else if decide (0 < size) then c + size - 2 ^ 64 else c + size + 2 ^ 64) as Hnc.
  { case_decide as Hd; [by apply s64_small|]. unfold s64.
    case_decide.
    - replace (c + size + 2 ^ 63) with ((c + size - 2 ^ 63) + 1 * 2 ^ 64) by lia.
      rewrite Z.mod_add, Z.mod_small; words.
    - replace (c + size + 2 ^ 63) with ((c + size + 3 * 2 ^ 63) + (-1) * 2 ^ 64) by lia.
      rewrite Z.mod_add, Z.mod_small; words. }
  unfold GNUNET_BANDWIDTH_tracker_consume. fold c. rewrite Hnc.
  case_decide as Hd.
  - destruct (0 <? size) eqn:Ez; bool_hyps.
    + destruct (c + size <? c) eqn:El; bool_hyps; [lia|].
      set (av1 := update_excess _ _ _).
      destruct (update_excess_same undef (clk 1%nat) (update_tracker (clk 0%nat)
        (set_consumption (c + size) av))) as (E & _). fold av1 in E.
      split_ifs; repeat split; try lia; try (case_decide; [try done; lia|try done; lia]).
      all: intros _ Hm; rewrite E;
        exact (update_tracker_consumption (clk 0%nat) (set_consumption (c + size) av) Hm).
    + destruct (c <? c + size) eqn:El; bool_hyps; [lia|].
      destruct (update_excess_same undef (clk 0%nat) (set_consumption (c + size) av)) as (E & _).
      repeat split; try lia; [|by rewrite E].
      case_decide; [lia|done].
  - destruct (0 <? size) eqn:Ez; bool_hyps; case_decide; try words.
    + destruct (c + size - 2 ^ 64 <? c) eqn:El; bool_hyps; [done|words].
    + destruct (c <? c + size + 2 ^ 64) eqn:El; bool_hyps; [done|words].
Qed.

End TrackerTheorems.

(** ** Concrete runs *)

(** A fresh tracker at 1000 bytes per second, with both callbacks set. *)
Definition demo_tracker : GNUNET_BANDWIDTH_Tracker :=
  mk_tracker true true 0 None (mk_abs 1000) 1000 5.

Lemma demo_tracker_wf : tracker_wf demo_tracker.
Proof. split; vm_compute; intuition congruence. Qed.

Lemma const_clock_wf t : is_u64 t -> clock_wf (fun _ => mk_abs t).
Proof. intros H i. exact H. Qed.

Lemma tracker_invariant_witness :
  savings_bounded (GNUNET_BANDWIDTH_tracker_get_available (fun _ => mk_abs 90000000)
    (GNUNET_BANDWIDTH_tracker_init2 (fun _ => 0) (mk_abs 5) demo_tracker true
       (GNUNET_BANDWIDTH_value_init 1000) 5 true)).1.
Proof.
  refine (proj1 (proj2 (proj2 (proj2 (tracker_invariant (fun _ => 0) (mk_abs 5) demo_tracker
    _ true true (GNUNET_BANDWIDTH_value_init 1000) (mk_bw 0) 5 1 (fun _ => mk_abs 90000000)
    _ _ _ _ (rtc_refl _ _))))));
    [| |apply const_clock_wf|]; vm_compute; intuition congruence.
Defined.

Lemma get_delay_sufficient_witness :
  let r := GNUNET_BANDWIDTH_tracker_get_delay (fun _ => mk_abs 2000)
             (set_consumption 4000 demo_tracker) 1000 in
  r.2 = mk_rel 4999000
  /\ 1000 + consumption_since_last_update__ (update_tracker (mk_abs (2000 + 4999000)) r.1) <= 0.
Proof.
  split; [vm_compute; reflexivity|].
  refine (get_delay_sufficient (fun _ => mk_abs 2000) (set_consumption 4000 demo_tracker)
    _ 1000 4999000 (const_clock_wf _ _) (set_consumption_wf _ _ _ demo_tracker_wf) _ _ _ _ _);
    vm_compute; intuition congruence.
Defined.

Lemma consume_spec_witness :
  (GNUNET_BANDWIDTH_tracker_consume (fun _ => 0) (fun _ => mk_abs 2000)
     (set_consumption INT64_MAX demo_tracker) 1).2 = GNUNET_SYSERR.
Proof.
  assert (Hw : tracker_wf (set_consumption INT64_MAX demo_tracker))
    by (apply set_consumption_wf; [vm_compute; intuition congruence|apply demo_tracker_wf]).
  assert (Hs : is_s64 1) by (vm_compute; intuition congruence).
  pose proof (consume_spec (fun _ => 0) (fun _ => mk_abs 2000) _ 1 Hw Hs) as H.
  vm_compute in H |- *. apply H.
Defined.

(** ** The tracker as flow control *)

Lemma get_delay_wf clk av size :
  clock_wf clk -> tracker_wf av -> is_u64 size ->
  tracker_wf (GNUNET_BANDWIDTH_tracker_get_delay clk av size).1
  /\ rel_wf (GNUNET_BANDWIDTH_tracker_get_delay clk av size).2.
Proof.
  intros Hc Hw Hs. split.
  { apply (tracker_step_wf (fun _ => 0) av); [by constructor|done]. }
  unfold GNUNET_BANDWIDTH_tracker_get_delay.
  destruct (Z.eqb_spec 0 (available_bytes_per_s__ av)); [apply forever_rel_wf|].
  case_if; [apply zero_rel_wf|]. unfold rel_wf. cbn -[Z.mul].
  destruct (update_tracker_same (clk 0%nat) av) as (-> & _ & _).
  pose proof (wf_available _ Hw).
  set (x := s64 _). pose proof (u64_range x). split; [apply Z.div_pos; words|].
  apply Z.div_lt_upper_bound; [words|]. unfold is_u64, is_u32 in *. nia.
Qed.

#[export] Program Instance tracker_FlowControl (undef : double -> Z)
  : FlowControl GNUNET_BANDWIDTH_Tracker := {
  flow_wf := tracker_wf;
  flow_get_delay := GNUNET_BANDWIDTH_tracker_get_delay;
  flow_consume := GNUNET_BANDWIDTH_tracker_consume undef;
}.
Next Obligation. intros. by apply get_delay_wf. Qed.
Next Obligation.
  intros undef clk t size Hc Hw Hs. apply (tracker_step_wf undef t); [by constructor|done].
Qed.
