(* ===== verification/Message.v ===== *)
(** * Messages as bytes

    Every GNUnet message starts with a [struct GNUNET_MessageHeader]
    ([src/include/gnunet_common.h]): total size and type, 16 bits each in network
    byte order. Packed structs are read and written at their byte offsets. *)

From S2P Require Import Prelude.

Definition sizeof_MessageHeader : Z := 4.

(** [ntohs], [ntohl] and [GNUNET_ntohll] of the packed field at an offset. *)
Definition rd16 (off : nat) (m : list Z) : Z := be_decode (slice off 2 m).
Definition rd32 (off : nat) (m : list Z) : Z := be_decode (slice off 4 m).
Definition rd64 (off : nat) (m : list Z) : Z := be_decode (slice off 8 m).

(** Fields of the common header. *)
Definition msg_size (m : list Z) : Z := rd16 0 m.
Definition msg_type (m : list Z) : Z := rd16 2 m.

(** A message as it sits in a buffer of its own: the size field is its length. *)
Record msg_wf (m : list Z) : Prop := {
  msg_bytes : bytes_ok m;
  msg_len : Z.of_nat (length m) = msg_size m;
  msg_min : sizeof_MessageHeader <= msg_size m;
}.

Section Fields.

Lemma be_decode_range_n n off m :
  bytes_ok m -> 0 <= be_decode (slice off n m) < 256 ^ Z.of_nat n.
Proof.
  intros Hm. pose proof (be_decode_range (slice off n m) (bytes_ok_slice _ _ _ Hm)) as H.
  split; [apply H|]. eapply Z.lt_le_trans; [apply H|].
  apply Z.pow_le_mono_r; [lia|]. unfold slice. rewrite length_take. lia.
Qed.

Lemma rd16_range off m : bytes_ok m -> is_u16 (rd16 off m).
Proof. intros. by apply (be_decode_range_n 2). Qed.
Lemma rd32_range off m : bytes_ok m -> is_u32 (rd32 off m).
Proof. intros. by apply (be_decode_range_n 4). Qed.
Lemma rd64_range off m : bytes_ok m -> is_u64 (rd64 off m).
Proof. intros. by apply (be_decode_range_n 8). Qed.

Lemma msg_size_pos m : msg_wf m -> 0 < msg_size m < 2 ^ 16.
Proof.
  intros [Hb _ Hm]. pose proof (rd16_range 0 m Hb) as Hr.
  unfold sizeof_MessageHeader, msg_size, is_u16 in *. lia.
Qed.

(** A field written by [be_encode] between [pre] and [post] reads back. *)
Lemma slice_field n z pre post off :
  length pre = off -> slice off n (pre ++ be_encode n z ++ post) = be_encode n z.
Proof.
  intros <-. rewrite slice_app_r, Nat.sub_diag by lia.
  rewrite slice_app_l by (rewrite length_be_encode; lia).
  apply slice_all, length_be_encode.
Qed.

Lemma rd16_field z pre post off :
  length pre = off -> is_u16 z -> rd16 off (pre ++ be_encode 2 z ++ post) = z.
Proof.
  intros. unfold rd16. rewrite slice_field, be_decode_encode by done.
  by apply Z.mod_small.
Qed.
Lemma rd32_field z pre post off :
  length pre = off -> is_u32 z -> rd32 off (pre ++ be_encode 4 z ++ post) = z.
Proof.
  intros. unfold rd32. rewrite slice_field, be_decode_encode by done.
  by apply Z.mod_small.
Qed.
Lemma rd64_field z pre post off :
  length pre = off -> is_u64 z -> rd64 off (pre ++ be_encode 8 z ++ post) = z.
Proof.
  intros. unfold rd64. rewrite slice_field, be_decode_encode by done.
  by apply Z.mod_small.
Qed.

End Fields.

#[export] Hint Resolve rd16_range rd32_range rd64_range : words.
