(* ===== verification/Fragmentation.v ===== *)
(** * Message fragmentation: [src/fragmentation/fragmentation.c]

    The sender side of the fragmentation protocol: a context holds one message,
    the bit set of unacknowledged fragments and the timing of retransmissions.
    Statistics calls are left out; the bandwidth tracker is any [FlowControl].
    A handler returns [None] where the C code fails an assertion. *)

From S2P Require Import Prelude Time Bandwidth Message.

(** ** Data *)

Definition sizeof_FragmentHeader : Z := 12.
Definition sizeof_FragmentAcknowledgement : Z := 16.
Definition GNUNET_MESSAGE_TYPE_FRAGMENT : Z := 18.
Definition GNUNET_MESSAGE_TYPE_FRAGMENT_ACK : Z := 19.

(** How a pending task was handed to the scheduler. *)
Inductive sched_task :=
| TaskNow
| TaskDelayed (d : GNUNET_TIME_Relative)
| TaskAt (t : GNUNET_TIME_Absolute).

(** Lowest [bits] bits set, as the code computes the masks of both sides. *)
Definition low_bits (bits : Z) : Z :=
  if bits =? 64 then UINT64_MAX else u64 (u64 (Z.shiftl 1 bits) - 1).

(** Is bit [i] of [w] set: the test [0 != (w & (1LLU << i))]. *)
Definition bit_set (w i : Z) : bool := negb (0 =? Z.land w (u64 (Z.shiftl 1 i))).

Section Fragmentation.
Context {T : Type} `{FlowControl T}.

Record GNUNET_FRAGMENT_Context := mk_fc {
  tracker : option T;
  ack_delay : GNUNET_TIME_Relative;
  msg_delay : GNUNET_TIME_Relative;
  delay_until : GNUNET_TIME_Absolute;
  last_round : GNUNET_TIME_Absolute;
  msg : list Z;
  acks : Z;
  acks_mask : Z;
  task : option sched_task;
  fragment_id : Z;
  next_transmission : Z;
  num_rounds : Z;
  num_transmissions : Z;
  proc_busy : bool;
  wack : bool;
  mtu : Z;
}.

Definition MIN_ACK_DELAY : GNUNET_TIME_Relative :=
  GNUNET_TIME_relative_multiply GNUNET_TIME_UNIT_MILLISECONDS 1.

(** ** transmit_next *)

(** The two [while] loops that look for the next unacknowledged fragment; one
    round of 64 positions is enough when there is one. *)
Fixpoint find_next (fuel : nat) (acks next : Z) (wrap : bool) : option (Z * bool) :=
  match fuel with
  | O => None
  | S fuel' =>
      if negb (bit_set acks next) then
        let next := (next + 1) mod 64 in
        find_next fuel' acks next (wrap || (0 =? next))
      else Some (next, wrap)
  end.

(** Payload bytes per fragment. *)
Definition payload (mtu : Z) : Z := mtu - sizeof_FragmentHeader.

Definition frag_size (mtu size bit : Z) : Z :=
  if bit =? size / payload mtu then size mod payload mtu + sizeof_FragmentHeader
  else mtu.

(** The fragment message assembled for [bit]. *)
Definition assemble (mtu fid : Z) (m : list Z) (bit : Z) : list Z :=
  let fsize := frag_size mtu (msg_size m) bit in
  be_encode 2 fsize ++ be_encode 2 GNUNET_MESSAGE_TYPE_FRAGMENT
  ++ be_encode 4 fid ++ slice 0 2 m ++ be_encode 2 (payload mtu * bit)
  ++ slice (Z.to_nat (bit * payload mtu)) (Z.to_nat (fsize - sizeof_FragmentHeader)) m.

Definition track_delay (clk : clock) (t : option T) (size : Z)
  : option T * GNUNET_TIME_Relative :=
  match t with
  | Some t => let '(t, d) := flow_get_delay clk t size in (Some t, d)
  | None => (None, GNUNET_TIME_UNIT_ZERO)
  end.

Definition track_consume (clk : clock) (t : option T) (size : Z) : option T :=
  match t with Some t => Some (flow_consume clk t size).1 | None => None end.

(** Returns the fragment handed to [proc], if one is. *)
Definition transmit_next (clk : clock) (fc : GNUNET_FRAGMENT_Context)
  : option (GNUNET_FRAGMENT_Context * option (list Z)) :=
  assert? negb (proc_busy fc) in
  if 0 =? acks fc then
    Some (mk_fc (tracker fc) (ack_delay fc) (msg_delay fc) (delay_until fc) (last_round fc)
            (msg fc) (acks fc) (acks_mask fc) None (fragment_id fc) (next_transmission fc)
            (num_rounds fc) (num_transmissions fc) (proc_busy fc) (wack fc) (mtu fc), None)
  else
    let? (bit, wrap) := find_next 64 (acks fc) (next_transmission fc) false in
    let size := msg_size (msg fc) in
    let fsize := frag_size (mtu fc) size bit in
    let '(t1, delay) := track_delay clk (tracker fc) fsize in
    if 0 <? rel_value_us delay then
      Some (mk_fc t1 (ack_delay fc) (msg_delay fc) (delay_until fc) (last_round fc)
              (msg fc) (acks fc) (acks_mask fc) (Some (TaskDelayed delay)) (fragment_id fc)
              bit (num_rounds fc) (num_transmissions fc) (proc_busy fc) (wack fc) (mtu fc), None)
    else
      let next := (bit + 1) mod 64 in
      let? (next, wrap) := find_next 64 (acks fc) next (wrap || (0 =? next)) in
      let frag := assemble (mtu fc) (fragment_id fc) (msg fc) bit in
      let t2 := track_consume (shift_clock 1 clk) t1 fsize in
      let fsize' :=
        if next =? size / payload (mtu fc) then size mod payload (mtu fc) else mtu fc in
      let '(t3, delay) := track_delay (shift_clock 3 clk) t2 fsize' in
      let delay :=
        if num_rounds fc <? 64 then
          GNUNET_TIME_relative_max delay
            (GNUNET_TIME_relative_saturating_multiply (msg_delay fc)
               (u64 (Z.shiftl 1 (num_rounds fc))))
        else GNUNET_TIME_UNIT_FOREVER_REL in
      let delay :=
        if wrap then
          GNUNET_TIME_relative_max MIN_ACK_DELAY
            (GNUNET_TIME_relative_saturating_multiply (ack_delay fc) 2)
        else delay in
      Some (mk_fc t3 (ack_delay fc) (msg_delay fc)
              (GNUNET_TIME_relative_to_absolute (clk 5%nat) delay)
              (if wrap then clk 4%nat else last_round fc)
              (msg fc) (acks fc) (acks_mask fc) None (fragment_id fc) next
              (if wrap then u32 (num_rounds fc + 1) else num_rounds fc)
              (u32 (num_transmissions fc + 1)) true
              (if wrap then true else wack fc) (mtu fc), Some frag).

(** ** The interface *)

(** [random] is the fragment identifier drawn by [GNUNET_CRYPTO_random_u32]. *)
Definition GNUNET_FRAGMENT_context_create (random mtu : Z) (tracker : option T)
  (msg_delay ack_delay : GNUNET_TIME_Relative) (m : list Z) : option GNUNET_FRAGMENT_Context :=
  assert? 1024 + sizeof_FragmentHeader <=? mtu in
  let size := msg_size m in
  assert? sizeof_MessageHeader <=? size in
  let bits := (size + mtu - sizeof_FragmentHeader - 1) / (mtu - sizeof_FragmentHeader) in
  assert? bits <=? 64 in
  let mask := low_bits bits in
  Some (mk_fc tracker ack_delay msg_delay (mk_abs 0) (mk_abs 0)
          (take (Z.to_nat size) m) mask mask (Some TaskNow) random 0 0 0 false false mtu).

Definition GNUNET_FRAGMENT_context_transmission_done (fc : GNUNET_FRAGMENT_Context)
  : option GNUNET_FRAGMENT_Context :=
  assert? proc_busy fc in
  assert? match task fc with None => true | Some _ => false end in
  Some (mk_fc (tracker fc) (ack_delay fc) (msg_delay fc) (delay_until fc) (last_round fc)
          (msg fc) (acks fc) (acks_mask fc) (Some (TaskAt (delay_until fc)))
          (fragment_id fc) (next_transmission fc) (num_rounds fc)
          (num_transmissions fc) false (wack fc) (mtu fc)).

(** One iteration, then the loop over the 64 bits: [(snd_cnt, ack_cnt)]. *)
Definition count_step (mask abits : Z) (st : Z * Z) (i : Z) : Z * Z :=
  let '(snd_cnt, ack_cnt) := st in
  if 1 =? Z.land mask (u64 (Z.shiftl 1 i)) then
    (u32 (snd_cnt + 1), if negb (bit_set abits i) then u32 (ack_cnt + 1) else ack_cnt)
  else (snd_cnt, ack_cnt).

Definition count_acks (mask abits : Z) : Z * Z :=
  fold_left (count_step mask abits) (map Z.of_nat (seq 0 64)) (0, 0).

(** New values of [ack_delay] and [msg_delay] after an acknowledgement. *)
Definition new_delays (now : GNUNET_TIME_Absolute) (fc : GNUNET_FRAGMENT_Context) (abits : Z)
  : GNUNET_TIME_Relative * GNUNET_TIME_Relative :=
  let ndelay := rel_value_us (GNUNET_TIME_absolute_get_duration now (last_round fc)) in
  let ad := u64 (ndelay / num_transmissions fc + u64 (3 * rel_value_us (ack_delay fc))) / 4 in
  let '(snd_cnt, ack_cnt) := count_acks (acks_mask fc) abits in
  let md :=
    if 0 =? ack_cnt then GNUNET_TIME_relative_saturating_multiply (msg_delay fc) snd_cnt
    else if ack_cnt <? snd_cnt then
      mk_rel (u64 (rel_value_us (msg_delay fc) * ack_cnt) / snd_cnt)
    else if snd_cnt =? ack_cnt then
      mk_rel (u64 (ndelay / num_transmissions fc + u64 (3 * rel_value_us (msg_delay fc))) / 5)
    else msg_delay fc in
  (GNUNET_TIME_relative_min (mk_rel ad) GNUNET_TIME_UNIT_SECONDS,
   GNUNET_TIME_relative_min md GNUNET_TIME_UNIT_SECONDS).

Definition GNUNET_FRAGMENT_process_ack (clk : clock) (fc : GNUNET_FRAGMENT_Context)
  (m : list Z) : option (GNUNET_FRAGMENT_Context * Z) :=
  if negb (sizeof_FragmentAcknowledgement =? msg_size m) then Some (fc, GNUNET_SYSERR)
  else if negb (rd32 4 m =? fragment_id fc) then Some (fc, GNUNET_SYSERR)
  else
    let abits := rd64 8 m in
    let update := wack fc && negb (0 =? num_transmissions fc) in
    let '(ad, md) :=
      if update then new_delays (clk 0%nat) fc abits else (ack_delay fc, msg_delay fc) in
    let acks' := Z.land abits (acks_mask fc) in
    let fc' task' :=
      mk_fc (tracker fc) ad md (delay_until fc) (last_round fc) (msg fc) acks' (acks_mask fc)
        task' (fragment_id fc) (next_transmission fc) (num_rounds fc)
        (if update then 0 else num_transmissions fc) (proc_busy fc)
        (if update then false else wack fc) (mtu fc) in
    if negb (0 =? acks') then
      match task fc with
      | Some _ => Some (fc' (Some TaskNow), GNUNET_NO)
      | None => assert? proc_busy fc in Some (fc' None, GNUNET_NO)
      end
    else Some (fc' None, GNUNET_OK).

(** The delays written to the out-parameters: message delay and ACK delay. *)
Definition GNUNET_FRAGMENT_context_destroy (fc : GNUNET_FRAGMENT_Context)
  : GNUNET_TIME_Relative * GNUNET_TIME_Relative :=
  (GNUNET_TIME_relative_saturating_multiply (msg_delay fc) (num_rounds fc), ack_delay fc).

End Fragmentation.
Arguments GNUNET_FRAGMENT_Context : clear implicits.

(** ** Bit sets *)

Section BitSets.

Lemma land_bit w i :
  0 <= i < 64 ->
  Z.land w (u64 (Z.shiftl 1 i)) = if Z.testbit w i then 2 ^ i else 0.
Proof.
  intros Hi. rewrite Z.shiftl_1_l.
  rewrite u64_small by (unfold is_u64; split; [lia|apply Z.pow_lt_mono_r; lia]).
  apply Z.bits_inj'. intros j Hj. rewrite Z.land_spec, Z.pow2_bits_eqb by lia.
  destruct (Z.eqb_spec i j) as [<-|]; [rewrite andb_true_r|rewrite andb_false_r];
    destruct (Z.testbit w i); rewrite ?Z.pow2_bits_eqb, ?Z.bits_0 by lia;
    rewrite ?Z.eqb_refl; try done; symmetry; by apply Z.eqb_neq.
Qed.

Lemma bit_set_testbit w i : 0 <= i < 64 -> bit_set w i = Z.testbit w i.
Proof.
  intros Hi. unfold bit_set. rewrite land_bit by done.
  destruct (Z.testbit w i); [|done].
  pose proof (Z.pow_pos_nonneg 2 i). destruct (Z.eqb_spec 0 (2 ^ i)); lia || done.
Qed.

Lemma low_bits_ones n : 0 <= n <= 64 -> low_bits n = Z.ones n.
Proof.
  intros Hn. unfold low_bits. case_if; bool_hyps; [by subst|].
  rewrite Z.shiftl_1_l, Z.ones_equiv.
  assert (0 < 2 ^ n) by (apply Z.pow_pos_nonneg; lia).
  assert (2 ^ n < 2 ^ 64) by (apply Z.pow_lt_mono_r; lia).
  rewrite (u64_small (2 ^ n)), u64_small by words. lia.
Qed.

Lemma testbit_low_bits n i : 0 <= n <= 64 -> 0 <= i -> Z.testbit (low_bits n) i = (i <? n).
Proof.
  intros Hn Hi. rewrite low_bits_ones by done.
  destruct (Z.ltb_spec i n); [apply Z.ones_spec_low|apply Z.ones_spec_high]; lia.
Qed.

Lemma low_bits_range n : is_u64 (low_bits n).
Proof. unfold low_bits. case_if; auto with words. words. Qed.

(** Clearing a bit that is set, as the code does it: by subtraction. *)
Lemma clear_bit_testbit w i j :
  0 <= i < 64 -> Z.testbit w i = true ->
  Z.testbit (w - 2 ^ i) j = Z.testbit w j && negb (i =? j).
Proof.
  intros Hi Hset.
  assert (w - 2 ^ i = Z.ldiff w (2 ^ i)) as ->.
  { rewrite Z.sub_nocarry_ldiff; [done|]. apply Z.bits_inj'. intros k Hk.
    rewrite Z.ldiff_spec, Z.pow2_bits_eqb, Z.bits_0 by lia.
    destruct (Z.eqb_spec i k) as [<-|]; [by rewrite Hset|done]. }
  destruct (decide (0 <= j)).
  - by rewrite Z.ldiff_spec, Z.pow2_bits_eqb by lia.
  - by rewrite !Z.testbit_neg_r by lia.
Qed.

Lemma land_u64 a b : is_u64 a -> is_u64 (Z.land a b).
Proof.
  unfold is_u64. intros Ha.
  assert (Z.land a b = Z.land (Z.land a b) (Z.ones 64)) as ->.
  { rewrite <- Z.land_assoc, (Z.land_comm b), Z.land_assoc, Z.land_ones, (Z.mod_small a)
      by lia. done. }
  rewrite Z.land_ones by lia. apply Z.mod_pos_bound. lia.
Qed.

Lemma has_bit w : is_u64 w -> w <> 0 -> exists i, 0 <= i < 64 /\ Z.testbit w i = true.
Proof.
  intros Hw H0. exists (Z.log2 w). unfold is_u64 in Hw. split.
  - split; [apply Z.log2_nonneg|]. apply Z.log2_lt_pow2; lia.
  - apply Z.bit_log2. lia.
Qed.

(** The search returns the first set bit at or after [next], cyclically, and
    whether it went through position 63 on the way. *)
Lemma find_next_spec fuel acks next w b w' :
  0 <= next < 64 -> (fuel <= 64)%nat -> find_next fuel acks next w = Some (b, w') ->
  exists k, 0 <= k < Z.of_nat fuel /\ b = (next + k) mod 64 /\ Z.testbit acks b = true
    /\ (forall j, 0 <= j < k -> Z.testbit acks ((next + j) mod 64) = false)
    /\ w' = (w || (64 <=? next + k)).
Proof.
  revert next w. induction fuel as [|fuel IH]; intros next w Hn Hf; [done|].
  cbn [find_next]. rewrite bit_set_testbit by done.
  destruct (Z.testbit acks next) eqn:Hb; cbn [negb].
  - intros [= <- <-]. exists 0. rewrite Z.add_0_r, Z.mod_small by done.
    repeat split; try lia; [done|]. destruct (Z.leb_spec 64 next); [lia|].
    by rewrite orb_false_r.
  - intros Hrec. apply IH in Hrec as (k & Hk & -> & Hset & Hno & ->);
      [|apply Z.mod_pos_bound; lia|lia].
    exists (k + 1). rewrite Zplus_mod_idemp_l in *.
    replace (next + 1 + k) with (next + (k + 1)) in * by lia.
    repeat split; try lia; [done| |].
    + intros j Hj. destruct (decide (j = 0)) as [->|].
      * by rewrite Z.add_0_r, Z.mod_small.
      * specialize (Hno (j - 1) ltac:(lia)). rewrite Zplus_mod_idemp_l in Hno.
        by replace (next + 1 + (j - 1)) with (next + j) in Hno by lia.
    + rewrite <- orb_assoc. f_equal.
      destruct (decide (next = 63)) as [->|].
      * change ((63 + 1) mod 64) with 0. simpl. symmetry. apply Z.leb_le. lia.
      * rewrite Z.mod_small by lia. destruct (Z.eqb_spec 0 (next + 1)); [lia|]. rewrite orb_false_l.
        by replace (next + 1 + k) with (next + (k + 1)) by lia.
Qed.

(** A failed search has seen [fuel] positions, none of them set. *)
Lemma find_next_none fuel acks next w :
  0 <= next < 64 -> find_next fuel acks next w = None ->
  forall j, 0 <= j < Z.of_nat fuel -> Z.testbit acks ((next + j) mod 64) = false.
Proof.
  revert next w. induction fuel as [|fuel IH]; intros next w Hn; [simpl; lia|].
  cbn [find_next]. rewrite bit_set_testbit by done.
  destruct (Z.testbit acks next) eqn:Hb; cbn [negb]; [done|].
  intros Hrec j Hj. destruct (decide (j = 0)) as [->|].
  - by rewrite Z.add_0_r, Z.mod_small.
  - specialize (IH _ _ ltac:(apply Z.mod_pos_bound; lia) Hrec (j - 1) ltac:(lia)).
    rewrite Zplus_mod_idemp_l in IH.
    by replace (next + 1 + (j - 1)) with (next + j) in IH by lia.
Qed.

(** The loops terminate: 64 positions suffice when some fragment is pending. *)
Lemma find_next_total acks next w :
  is_u64 acks -> acks <> 0 -> 0 <= next < 64 -> is_Some (find_next 64 acks next w).
Proof.
  intros Ha H0 Hn. destruct (find_next 64 acks next w) eqn:E; [by eexists|].
  destruct (has_bit acks Ha H0) as (i & Hi & Hbit).
  pose proof (find_next_none 64 acks next w Hn E ((i - next) mod 64)
    ltac:(apply Z.mod_pos_bound; lia)) as Hno.
  rewrite Zplus_mod_idemp_r in Hno. replace (next + (i - next)) with i in Hno by lia.
  rewrite Z.mod_small in Hno by lia. congruence.
Qed.

End BitSets.

(** ** Fragment geometry *)

(** Number of fragments of a message of [size] bytes. *)
Definition nfrags (mtu size : Z) : Z := (size + payload mtu - 1) / payload mtu.

Definition mtu_ok (mtu : Z) : Prop := 1024 + sizeof_FragmentHeader <= mtu < 2 ^ 16.

Section Geometry.
Variables (mtu size : Z).
Hypothesis Hmtu : mtu_ok mtu.
Hypothesis Hsize : 0 < size < 2 ^ 16.

Let P := payload mtu.

Lemma payload_range : 1024 <= P < 2 ^ 16.
Proof. unfold P, payload, mtu_ok, sizeof_FragmentHeader in *. lia. Qed.

Lemma nfrags_bounds : P * (nfrags mtu size - 1) < size <= P * nfrags mtu size.
Proof.
  pose proof payload_range. unfold nfrags. fold P.
  pose proof (Z.div_mod (size + P - 1) P ltac:(lia)).
  pose proof (Z.mod_pos_bound (size + P - 1) P ltac:(lia)). nia.
Qed.

Lemma nfrags_range : 1 <= nfrags mtu size <= 64.
Proof. pose proof payload_range. pose proof nfrags_bounds. nia. Qed.

(** The size the sender puts into a fragment is that of the piece of the
    message at its offset, plus the header. *)
Lemma frag_size_spec bit :
  0 <= bit < nfrags mtu size ->
  frag_size mtu size bit = sizeof_FragmentHeader + Z.min P (size - bit * P)
  /\ 0 < Z.min P (size - bit * P).
Proof.
  intros Hb. pose proof payload_range as HP. pose proof nfrags_bounds as Hn.
  unfold frag_size. fold P.
  pose proof (Z.div_mod size P ltac:(lia)) as E.
  pose proof (Z.mod_pos_bound size P ltac:(lia)) as Hm.
  assert (0 < size - bit * P) by nia.
  case_if; bool_hyps.
  - subst bit. rewrite Z.min_r by nia. split; nia.
  - assert (bit < size / P).
    { assert (bit <= size / P) by (apply Z.div_le_lower_bound; lia). lia. }
    rewrite Z.min_l by nia.
    assert (mtu = sizeof_FragmentHeader + P) by (unfold P, payload; lia). lia.
Qed.

Lemma frag_size_range bit :
  0 <= bit < nfrags mtu size ->
  sizeof_FragmentHeader < frag_size mtu size bit <= mtu.
Proof.
  intros Hb. destruct (frag_size_spec bit Hb) as [-> ?].
  unfold P, payload in *. lia.
Qed.

End Geometry.

(** ** Fragments on the wire *)

Section Wire.
Variables (mtu fid : Z) (m : list Z).
Hypothesis Hmtu : mtu_ok mtu.
Hypothesis Hfid : is_u32 fid.
Hypothesis Hm : msg_wf m.

Let P := payload mtu.
Let size := msg_size m.

(** The piece of the message carried by fragment [bit]. *)
Definition piece (bit : Z) : list Z :=
  slice (Z.to_nat (bit * P)) (Z.to_nat (Z.min P (size - bit * P))) m.

Variable bit : Z.
Hypothesis Hbit : 0 <= bit < nfrags mtu size.

Lemma length_piece : Z.of_nat (length (piece bit)) = Z.min P (size - bit * P).
Proof.
  pose proof (frag_size_spec mtu size Hmtu (msg_size_pos m Hm) bit Hbit) as [_ H].
  pose proof (msg_len m Hm) as Hl. pose proof (payload_range mtu Hmtu) as HP.
  fold P in H, HP. fold size in Hl.
  unfold piece. rewrite length_slice; nia.
Qed.

Lemma assemble_eq :
  assemble mtu fid m bit =
    be_encode 2 (frag_size mtu size bit) ++ be_encode 2 GNUNET_MESSAGE_TYPE_FRAGMENT
    ++ be_encode 4 fid ++ be_encode 2 size ++ be_encode 2 (bit * P) ++ piece bit.
Proof.
  pose proof (frag_size_spec mtu size Hmtu (msg_size_pos m Hm) bit Hbit) as [E _].
  unfold assemble. fold size. rewrite E. do 3 f_equal. f_equal; [|f_equal].
  - pose proof (msg_len m Hm) as Hl. pose proof (msg_min m Hm) as Hmin.
    unfold sizeof_MessageHeader in Hmin. unfold size, msg_size, rd16.
    rewrite <- (length_slice 0 2 m) at 2 by lia.
    symmetry. apply be_encode_decode. apply bytes_ok_slice, Hm.
  - f_equal. fold P. lia.
  - unfold piece. f_equal. fold P. lia.
Qed.

Lemma length_assemble :
  Z.of_nat (length (assemble mtu fid m bit)) = frag_size mtu size bit.
Proof.
  pose proof (frag_size_spec mtu size Hmtu (msg_size_pos m Hm) bit Hbit) as [-> _].
  rewrite assemble_eq, !length_app, !length_be_encode, !Nat2Z.inj_add, length_piece.
  unfold sizeof_FragmentHeader. fold P. lia.
Qed.

Lemma offset_range : 0 <= bit * P < size.
Proof.
  pose proof (nfrags_bounds mtu size Hmtu) as Hn.
  pose proof (payload_range mtu Hmtu) as HP. fold P in Hn, HP. nia.
Qed.

(** What a receiver reads from the fields of a fragment. *)
Lemma assemble_fields :
  msg_size (assemble mtu fid m bit) = frag_size mtu size bit
  /\ msg_type (assemble mtu fid m bit) = GNUNET_MESSAGE_TYPE_FRAGMENT
  /\ rd32 4 (assemble mtu fid m bit) = fid
  /\ rd16 8 (assemble mtu fid m bit) = size
  /\ rd16 10 (assemble mtu fid m bit) = bit * P
  /\ drop 12 (assemble mtu fid m bit) = piece bit.
Proof.
  pose proof (frag_size_range mtu size Hmtu (msg_size_pos m Hm) bit Hbit) as Hs.
  pose proof (msg_size_pos m Hm) as Hsz. fold size in Hsz. pose proof offset_range.
  unfold mtu_ok, sizeof_FragmentHeader in *.
  rewrite assemble_eq. unfold msg_size, msg_type. split_and!.
  - apply (rd16_field _ []); [done|words].
  - apply rd16_field; [done|unfold GNUNET_MESSAGE_TYPE_FRAGMENT; words].
  - rewrite (app_assoc (be_encode 2 _)). by apply rd32_field.
  - rewrite (app_assoc (be_encode 2 _)), (app_assoc _ (be_encode 4 _)).
    apply rd16_field; [done|words].
  - rewrite (app_assoc (be_encode 2 _)), (app_assoc _ (be_encode 4 _)),
      (app_assoc _ (be_encode 2 size)). apply rd16_field; [done|words].
  - reflexivity.
Qed.

Lemma assemble_bytes : bytes_ok (assemble mtu fid m bit).
Proof.
  rewrite assemble_eq. unfold bytes_ok. rewrite !Forall_app.
  repeat split; try apply bytes_ok_be_encode. apply bytes_ok_slice, Hm.
Qed.

End Wire.

(** ** Invariant of the context *)

Section Context.
Context {T : Type} `{FC : FlowControl T}.
Implicit Types fc : GNUNET_FRAGMENT_Context T.

Record fc_wf fc : Prop := {
  fw_mtu : mtu_ok (mtu fc);
  fw_msg : msg_wf (msg fc);
  fw_fid : is_u32 (fragment_id fc);
  fw_mask : acks_mask fc = low_bits (nfrags (mtu fc) (msg_size (msg fc)));
  fw_acks : is_u64 (acks fc);
  fw_sub : Z.land (acks fc) (acks_mask fc) = acks fc;
  fw_next : 0 <= next_transmission fc < 64;
  fw_rounds : is_u32 (num_rounds fc) /\ is_u32 (num_transmissions fc);
  fw_delays : rel_wf (ack_delay fc) /\ rel_wf (msg_delay fc);
  fw_times : abs_wf (delay_until fc) /\ abs_wf (last_round fc);
  fw_tracker : match tracker fc with Some t => flow_wf t | None => True end;
  (** Control state: while a fragment is with [proc] nothing is scheduled, and
      work left to do is either scheduled or with [proc]. *)
  fw_busy : proc_busy fc = true -> task fc = None;
  fw_live : acks fc <> 0 -> task fc <> None \/ proc_busy fc = true;
}.

Lemma pending_bit fc b :
  fc_wf fc -> 0 <= b -> Z.testbit (acks fc) b = true ->
  0 <= b < nfrags (mtu fc) (msg_size (msg fc)).
Proof.
  intros Hw Hb Hset. pose proof (fw_sub fc Hw) as Hs. rewrite (fw_mask fc Hw) in Hs.
  pose proof (nfrags_range _ _ (fw_mtu fc Hw) (msg_size_pos _ (fw_msg fc Hw))).
  rewrite <- Hs, Z.land_spec, testbit_low_bits, andb_true_iff, Z.ltb_lt in Hset by lia. lia.
Qed.

Lemma track_delay_wf clk t size :
  clock_wf clk -> is_u64 size -> match t with Some t => flow_wf t | None => True end ->
  match (track_delay clk t size).1 with Some t => flow_wf t | None => True end
  /\ rel_wf (track_delay clk t size).2.
Proof.
  intros Hc Hs Ht. destruct t as [t|]; cbn; [|split; [done|apply zero_rel_wf]].
  pose proof (flow_get_delay_wf clk t size Hc Ht Hs) as [H1 H2].
  by destruct (flow_get_delay clk t size).
Qed.

Lemma track_consume_wf clk t size :
  clock_wf clk -> is_s64 size -> match t with Some t => flow_wf t | None => True end ->
  match track_consume clk t size with Some t => flow_wf t | None => True end.
Proof. intros Hc Hs Ht. destruct t as [t|]; cbn; [|done]. by apply flow_consume_wf. Qed.

(** The outcome of [transmit_next] on a well-formed context that is not busy:
    the assertion holds, both searches succeed, the invariant is kept, and a
    fragment handed out is the one assembled for a pending bit, the first one at
    or after [next_transmission]; the new [next_transmission] is the next pending
    bit after it. *)
Lemma transmit_next_spec clk fc :
  clock_wf clk -> fc_wf fc -> proc_busy fc = false ->
  exists fc' o, transmit_next clk fc = Some (fc', o) /\ fc_wf fc'
    /\ (acks fc', acks_mask fc', msg fc', mtu fc', fragment_id fc')
       = (acks fc, acks_mask fc, msg fc, mtu fc, fragment_id fc)
    /\ match o with
       | None => proc_busy fc' = false
           /\ (acks fc <> 0 -> task fc' <> None /\ exists w,
                find_next 64 (acks fc) (next_transmission fc) false
                = Some (next_transmission fc', w))
       | Some frag =>
           proc_busy fc' = true
           /\ exists b w w', find_next 64 (acks fc) (next_transmission fc) false = Some (b, w)
              /\ find_next 64 (acks fc) ((b + 1) mod 64) (w || (0 =? (b + 1) mod 64))
                 = Some (next_transmission fc', w')
              /\ frag = assemble (mtu fc) (fragment_id fc) (msg fc) b
       end.
Proof.
  intros Hc Hw Hb. pose proof Hw as [? ? ? ? Ha ? Hn [? ?] [? ?] [? ?] Ht Hbusy Hlive].
  unfold transmit_next. rewrite Hb. cbn [negb].
  destruct (Z.eqb_spec 0 (acks fc)) as [Hz|Hz].
  { eexists _, None. split; [done|]. split; [split; cbn; try done; congruence|].
    split; [done|]. split; [done|]. congruence. }
  destruct (find_next_total (acks fc) (next_transmission fc) false Ha ltac:(lia) Hn)
    as [[b w] Ef]. rewrite Ef.
  destruct (find_next_spec 64 _ _ _ _ _ Hn ltac:(lia) Ef) as (k & Hk & Eb & Hset & _ & _).
  assert (0 <= b < 64) as Hb64 by (subst b; apply Z.mod_pos_bound; lia).
  pose proof (pending_bit fc b Hw ltac:(lia) Hset) as Hbn.
  set (fsize := frag_size _ _ b).
  pose proof (frag_size_range _ _ (fw_mtu fc Hw) (msg_size_pos _ (fw_msg fc Hw)) b Hbn) as Hfs.
  fold fsize in Hfs. pose proof (fw_mtu fc Hw) as Hmtu.
  unfold mtu_ok, sizeof_FragmentHeader in Hmtu, Hfs.
  pose proof (track_delay_wf clk (tracker fc) fsize Hc ltac:(words) Ht) as [Ht1 Hd1].
  destruct (track_delay clk (tracker fc) fsize) as [t1 d1]. cbn [fst snd] in *.
  destruct (0 <? rel_value_us d1).
  { eexists _, None. split; [done|].
    split; [split; cbn; try done; try congruence; by left|].
    split; [done|]. split; [done|]. intros _. split; [done|]. by exists w. }
  assert (0 <= (b + 1) mod 64 < 64) as Hn1 by (apply Z.mod_pos_bound; lia).
  destruct (find_next_total (acks fc) ((b + 1) mod 64) (w || (0 =? (b + 1) mod 64))
    Ha ltac:(lia) Hn1) as [[b2 w2] Ef2]. rewrite Ef2.
  destruct (find_next_spec 64 _ _ _ _ _ Hn1 ltac:(lia) Ef2) as (k2 & _ & Eb2 & _).
  assert (0 <= b2 < 64) as Hb2 by (subst b2; apply Z.mod_pos_bound; lia).
  set (fsize' := if b2 =? _ then _ else _).
  assert (is_u64 fsize') as Hfs'.
  { subst fsize'. pose proof (msg_size_pos _ (fw_msg fc Hw)).
    pose proof (payload_range _ (fw_mtu fc Hw)). case_if; [|words].
    pose proof (Z.mod_pos_bound (msg_size (msg fc)) (payload (mtu fc)) ltac:(lia)). words. }
  pose proof (track_consume_wf (shift_clock 1 clk) t1 fsize
    ltac:(auto with words) ltac:(words) Ht1) as Ht2.
  pose proof (track_delay_wf (shift_clock 3 clk) _ fsize' ltac:(auto with words) Hfs' Ht2)
    as [Ht3 _].
  destruct (track_delay (shift_clock 3 clk) _ fsize') as [t3 d3]. cbn [fst snd] in *.
  eexists _, (Some _). split; [reflexivity|]. split; [|split; [done|split; [done|]]].
  - split; cbn; try done.
    + split; [destruct w2; auto with words|]. apply u32_range.
    + split; [apply to_absolute_wf|]. destruct w2; [apply Hc|done].
    + intros. by right.
  - exists b, w, w2. done.
Qed.

Lemma div_rel_wf z k : 0 <= k -> rel_wf (mk_rel (u64 z / k)).
Proof.
  intros Hk. unfold rel_wf. cbn. pose proof (u64_range z) as Hz. unfold is_u64 in *.
  destruct (decide (k = 0)) as [->|]; [rewrite Z.div_0_r; lia|].
  split; [apply Z.div_pos; lia|]. apply Z.div_lt_upper_bound; [lia|nia].
Qed.

Lemma seconds_wf : rel_wf GNUNET_TIME_UNIT_SECONDS.
Proof. vm_compute. intuition congruence. Qed.

Lemma count_step_skip mask abits st i :
  0 < i < 64 -> count_step mask abits st i = st.
Proof.
  intros Hi. unfold count_step. destruct st. rewrite land_bit by lia.
  destruct (Z.testbit mask i); [|done].
  destruct (Z.eqb_spec 1 (2 ^ i)) as [E|]; [|done].
  assert (2 ^ 1 <= 2 ^ i) by (apply Z.pow_le_mono_r; lia). lia.
Qed.

(** The two counters of [count_acks] count bit 0 of the mask only: the test of
    the code compares the masked word with 1. *)
Lemma count_acks_bit0 mask abits :
  count_acks mask abits =
    if Z.testbit mask 0 then (1, if Z.testbit abits 0 then 0 else 1) else (0, 0).
Proof.
  unfold count_acks.
  assert (forall l st, Forall (fun i => 0 < i < 64) l ->
    fold_left (count_step mask abits) l st = st) as Hrest.
  { induction l as [|i l IH]; intros st Hl; [done|]. inversion_clear Hl.
    cbn [fold_left]. rewrite count_step_skip by done. by apply IH. }
  change (map Z.of_nat (seq 0 64)) with (0 :: map Z.of_nat (seq 1 63)).
  cbn [fold_left]. rewrite Hrest.
  - unfold count_step. rewrite land_bit, bit_set_testbit by lia.
    by destruct (Z.testbit mask 0), (Z.testbit abits 0).
  - apply Forall_forall. intros i Hi. apply list_elem_of_In, in_map_iff in Hi as (j & <- & Hj).
    apply in_seq in Hj. lia.
Qed.

Lemma new_delays_wf now fc abits :
  fc_wf fc -> rel_wf (new_delays now fc abits).1 /\ rel_wf (new_delays now fc abits).2.
Proof.
  intros Hw. unfold new_delays. rewrite count_acks_bit0.
  pose proof (fw_delays fc Hw) as [Ha Hm].
  destruct (Z.testbit _ 0), (Z.testbit abits 0); cbn [fst snd]; split;
    apply relative_min_wf; try apply seconds_wf; try (apply div_rel_wf; lia);
    split_ifs; auto with time; apply div_rel_wf; lia.
Qed.

(** What an acknowledgement does: rejected ones change nothing, accepted ones
    replace the pending set by the transmitted bits, cut to the fragments that
    exist, and [GNUNET_OK] means that nothing is pending any more. *)
Record ack_outcome fc (m : list Z) fc' (code : Z) : Prop := {
  ao_wf : fc_wf fc';
  ao_same : (acks_mask fc', msg fc', mtu fc', fragment_id fc', proc_busy fc')
    = (acks_mask fc, msg fc, mtu fc, fragment_id fc, proc_busy fc);
  ao_rejected : code = GNUNET_SYSERR -> fc' = fc;
  ao_acks : code <> GNUNET_SYSERR -> acks fc' = Z.land (rd64 8 m) (acks_mask fc);
  ao_done : code <> GNUNET_SYSERR -> (code = GNUNET_OK <-> acks fc' = 0);
  ao_live : code <> GNUNET_OK -> task fc' <> None \/ proc_busy fc' = true;
}.

Lemma process_ack_spec clk fc m :
  clock_wf clk -> bytes_ok m -> fc_wf fc -> (task fc <> None \/ proc_busy fc = true) ->
  exists fc' code,
    GNUNET_FRAGMENT_process_ack clk fc m = Some (fc', code) /\ ack_outcome fc m fc' code.
Proof.
  intros Hc Hm Hw Hlive. pose proof Hw as [? ? ? ? ? ? ? [? ?] [? ?] [? ?] ? Hb _].
  unfold GNUNET_FRAGMENT_process_ack.
  assert (ack_outcome fc m fc GNUNET_SYSERR) as Hrej by done.
  destruct (negb (_ =? msg_size m)); [by eexists _, _|].
  destruct (negb (rd32 4 m =? _)); [by eexists _, _|]. clear Hrej.
  set (upd := wack fc && _).
  assert (exists ad md, (if upd then new_delays (clk 0%nat) fc (rd64 8 m)
    else (ack_delay fc, msg_delay fc)) = (ad, md) /\ rel_wf ad /\ rel_wf md)
    as (ad & md & -> & Had & Hmd).
  { pose proof (new_delays_wf (clk 0%nat) fc (rd64 8 m) Hw).
    destruct upd; [destruct (new_delays _ _ _)|]; by eexists _, _. }
  set (acks' := Z.land (rd64 8 m) (acks_mask fc)).
  assert (is_u64 acks' /\ Z.land acks' (acks_mask fc) = acks') as [Hu Hsub].
  { unfold acks'. split; [|by rewrite <- Z.land_assoc, Z.land_diag].
    apply land_u64. by apply rd64_range. }
  assert (is_u32 (if upd then 0 else num_transmissions fc)) by (destruct upd; words).
  destruct (Z.eqb_spec 0 acks') as [Hz|Hz]; cbn [negb].
  { eexists _, GNUNET_OK. split; [reflexivity|]. split; cbn; try done;
    split; cbn; try done; congruence. }
  destruct (task fc) as [tk|] eqn:Htk;
    [|destruct Hlive as [[]|Hbusy]; [done|]; rewrite Hbusy].
  - eexists _, GNUNET_NO. split; [reflexivity|]. split; cbn; try done; try (by left);
    split; cbn; try done; try (by left); intros Hbu; by specialize (Hb Hbu).
  - eexists _, GNUNET_NO. split; [reflexivity|]. split; cbn; try done; try congruence;
    try (by right); split; cbn; try done; by right.
Qed.

Lemma transmission_done_spec fc :
  fc_wf fc -> proc_busy fc = true ->
  exists fc', GNUNET_FRAGMENT_context_transmission_done fc = Some fc' /\ fc_wf fc'.
Proof.
  intros [? ? ? ? ? ? ? ? ? [? ?] ? Hb Hl] Hbusy.
  unfold GNUNET_FRAGMENT_context_transmission_done. rewrite Hbusy, (Hb Hbusy).
  eexists. split; [done|]. split; cbn; try done. by left.
Qed.

Lemma create_spec random mtu0 t md ad m :
  mtu_ok mtu0 -> is_u32 random -> rel_wf md -> rel_wf ad -> msg_wf m ->
  match t with Some t => flow_wf t | None => True end ->
  exists fc, GNUNET_FRAGMENT_context_create random mtu0 t md ad m = Some fc /\ fc_wf fc
    /\ msg fc = m /\ mtu fc = mtu0 /\ fragment_id fc = random
    /\ acks fc = low_bits (nfrags mtu0 (msg_size m)) /\ proc_busy fc = false
    /\ task fc <> None.
Proof.
  intros Hmtu Hr Hmd Had Hm Ht. unfold GNUNET_FRAGMENT_context_create.
  pose proof (msg_size_pos m Hm) as Hs. pose proof (nfrags_range mtu0 _ Hmtu Hs) as Hn.
  pose proof (msg_min m Hm). pose proof (msg_len m Hm) as Hl.
  destruct (Z.leb_spec (1024 + sizeof_FragmentHeader) mtu0); [|unfold mtu_ok in *; lia].
  destruct (Z.leb_spec sizeof_MessageHeader (msg_size m)); [|lia].
  set (bits := _ / _).
  assert (bits = nfrags mtu0 (msg_size m)) as ->
    by (unfold bits, nfrags, payload; f_equal; lia).
  destruct (Z.leb_spec (nfrags mtu0 (msg_size m)) 64); [|lia].
  rewrite take_ge by lia. eexists. split; [done|]. split_and!; try done.
  split; cbn; try done; try words.
  - apply low_bits_range.
  - by rewrite Z.land_diag.
  - by left.
Qed.

(** ** Runs of the fragmenter *)

(** A context in use, or one whose last acknowledgement said [GNUNET_OK]: the
    caller then destroys it. *)
Inductive frag_state := FRun fc | FDone.

(** The environment: the scheduler runs [transmit_next] when it is pending, the
    client reports [transmission_done] for a fragment it was given, and the
    network delivers arbitrary bytes as acknowledgements at any time. [out] are
    the fragments handed to the client. *)
Inductive frag_step : frag_state -> list (list Z) -> frag_state -> Prop :=
| fs_transmit clk fc fc' o :
    clock_wf clk -> task fc <> None -> transmit_next clk fc = Some (fc', o) ->
    frag_step (FRun fc) (match o with Some f => [f] | None => [] end) (FRun fc')
| fs_done fc fc' :
    proc_busy fc = true -> GNUNET_FRAGMENT_context_transmission_done fc = Some fc' ->
    frag_step (FRun fc) [] (FRun fc')
| fs_ack clk fc m fc' code :
    clock_wf clk -> bytes_ok m -> GNUNET_FRAGMENT_process_ack clk fc m = Some (fc', code) ->
    frag_step (FRun fc) [] (if code =? GNUNET_OK then FDone else FRun fc').

Inductive frag_run : frag_state -> list (list Z) -> frag_state -> Prop :=
| fr_refl s : frag_run s [] s
| fr_step s o s' o' s'' : frag_step s o s' -> frag_run s' o' s'' -> frag_run s (o ++ o') s''.

(** The invariant of a run started for message [m] with identifier [fid]. *)
Definition frag_inv (mtu0 fid : Z) (m : list Z) (s : frag_state) : Prop :=
  match s with
  | FRun fc => fc_wf fc /\ msg fc = m /\ mtu fc = mtu0 /\ fragment_id fc = fid /\ acks fc <> 0
  | FDone => True
  end.

Lemma not_busy_of_task fc : fc_wf fc -> task fc <> None -> proc_busy fc = false.
Proof. intros Hw Ht. destruct (proc_busy fc) eqn:E; [|done]. by apply (fw_busy fc Hw) in E. Qed.

(** One step keeps the invariant, and every fragment handed out is the one
    assembled for a fragment number of the message. *)
Lemma frag_step_inv mtu0 fid m s o s' :
  frag_step s o s' -> frag_inv mtu0 fid m s ->
  frag_inv mtu0 fid m s'
  /\ forall f, f ∈ o -> exists b, 0 <= b < nfrags mtu0 (msg_size m) /\ f = assemble mtu0 fid m b.
Proof.
  intros Hs. destruct Hs as [clk fc fc' o Hc Ht E|fc fc' Hb E|clk fc a fc' code Hc Ha E];
    intros (Hw & Hmsg & Hmtu & Hfid & Hacks).
  - destruct (transmit_next_spec clk fc Hc Hw (not_busy_of_task fc Hw Ht))
      as (fc1 & o1 & E1 & Hw1 & Hsame & Ho). rewrite E in E1. injection E1 as <- <-.
    injection Hsame as ? ? ? ? ?. split; [repeat split; try apply Hw1; congruence|].
    intros f Hf. destruct o as [frag|]; [|by apply not_elem_of_nil in Hf].
    apply list_elem_of_singleton in Hf as ->.
    destruct Ho as (_ & b & w & w' & Ef & _ & ->). exists b.
    destruct (find_next_spec 64 _ _ _ _ _ (fw_next fc Hw) ltac:(lia) Ef)
      as (k & Hk & Eb & Hset & _).
    rewrite <- Hmsg, <- Hmtu, <- Hfid. split; [|done]. apply pending_bit; try done.
    subst b. apply Z.mod_pos_bound. lia.
  - split; [|intros f Hf; by apply not_elem_of_nil in Hf].
    destruct (transmission_done_spec fc Hw Hb) as (fc1 & E1 & Hw1). rewrite E in E1.
    injection E1 as <-. unfold GNUNET_FRAGMENT_context_transmission_done in E.
    destruct (proc_busy fc), (task fc); simplify_eq/=. done.
  - split; [|intros f Hf; by apply not_elem_of_nil in Hf].
    destruct (process_ack_spec clk fc a Hc Ha Hw (fw_live fc Hw Hacks))
      as (fc1 & c1 & E1 & Hout). rewrite E in E1. injection E1 as <- <-.
    destruct (Z.eqb_spec code GNUNET_OK) as [|Hok]; [done|].
    destruct Hout as [Hw1 Hsame Hrej Hac Hdone Hlive]. injection Hsame as ? ? ? ? ?.
    split; [done|]. split_and!; try congruence.
    destruct (decide (code = GNUNET_SYSERR)) as [Hse|Hse]; [by rewrite Hrej|].
    specialize (Hdone Hse). tauto.
Qed.

Lemma frag_run_inv mtu0 fid m s o s' :
  frag_run s o s' -> frag_inv mtu0 fid m s ->
  frag_inv mtu0 fid m s'
  /\ forall f, f ∈ o -> exists b, 0 <= b < nfrags mtu0 (msg_size m) /\ f = assemble mtu0 fid m b.
Proof.
  induction 1 as [s|s o s' o' s'' Hs Hr IH]; intros Hi.
  - split; [done|]. intros f Hf. by apply not_elem_of_nil in Hf.
  - destruct (frag_step_inv _ _ _ _ _ _ Hs Hi) as [Hi' Ho]. destruct (IH Hi') as [Hi'' Ho'].
    split; [done|]. intros f [Hf|Hf]%elem_of_app; auto.
Qed.

(** ** Round-robin progress *)

(** Cyclic distance from the round-robin position to fragment [b]. *)
Definition dist fc (b : Z) : Z := (b - next_transmission fc) mod 64.

Lemma dist_range fc b : 0 <= dist fc b < 64.
Proof. apply Z.mod_pos_bound. lia. Qed.

(** The first pending position after [next] is not past a pending [b]. *)
Lemma find_next_le acks next w b s w' :
  0 <= next < 64 -> 0 <= b < 64 -> Z.testbit acks b = true ->
  find_next 64 acks next w = Some (s, w') ->
  exists k, s = (next + k) mod 64 /\ 0 <= k <= (b - next) mod 64.
Proof.
  intros Hn Hb Hset E.
  destruct (find_next_spec 64 _ _ _ _ _ Hn ltac:(lia) E) as (k & Hk & -> & _ & Hno & _).
  exists k. split; [done|]. split; [lia|].
  destruct (Z.le_gt_cases k ((b - next) mod 64)) as [|Hgt]; [done|].
  specialize (Hno ((b - next) mod 64) ltac:(pose proof (Z.mod_pos_bound (b - next) 64); lia)).
  rewrite Zplus_mod_idemp_r in Hno. replace (next + (b - next)) with b in Hno by lia.
  rewrite Z.mod_small in Hno by lia. congruence.
Qed.

Lemma mod64_shift a k : (a - k mod 64) mod 64 = (a - k) mod 64.
Proof. by rewrite Zminus_mod_idemp_r. Qed.

Lemma mod64_sub a k : 0 <= k <= a mod 64 -> (a - k) mod 64 = a mod 64 - k.
Proof.
  intros Hk. rewrite <- Zminus_mod_idemp_l. apply Z.mod_small.
  pose proof (Z.mod_pos_bound a 64). lia.
Qed.

(** A call that hands out a fragment other than [b] brings the round-robin
    position strictly closer to [b]; a delayed call does not move it past. *)
Lemma transmit_next_progress clk fc b fc' o :
  clock_wf clk -> fc_wf fc -> proc_busy fc = false -> acks fc <> 0 ->
  0 <= b < 64 -> Z.testbit (acks fc) b = true ->
  transmit_next clk fc = Some (fc', o) ->
  match o with
  | Some f => f = assemble (mtu fc) (fragment_id fc) (msg fc) b \/ dist fc' b < dist fc b
  | None => dist fc' b <= dist fc b
  end.
Proof.
  intros Hc Hw Hb Ha Hb64 Hset E.
  destruct (transmit_next_spec clk fc Hc Hw Hb) as (fc1 & o1 & E1 & _ & _ & Ho).
  rewrite E in E1. injection E1 as <- <-. pose proof (fw_next fc Hw) as Hn. unfold dist.
  destruct o as [f|].
  - destruct Ho as (_ & s & w & w' & Ef & Ef2 & ->).
    destruct (decide (s = b)) as [->|Hne]; [by left|right].
    destruct (find_next_le _ _ _ b _ _ Hn Hb64 Hset Ef) as (k & Es & Hk).
    assert (0 <= (s + 1) mod 64 < 64) as Hs1 by (apply Z.mod_pos_bound; lia).
    destruct (find_next_le _ _ _ b _ _ Hs1 Hb64 Hset Ef2) as (k2 & -> & Hk2).
    rewrite Zplus_mod_idemp_l, mod64_shift in *. subst s.
    assert (k <> (b - next_transmission fc) mod 64).
    { intros ->. apply Hne. rewrite Zplus_mod_idemp_r.
      replace (next_transmission fc + (b - next_transmission fc)) with b by lia.
      by apply Z.mod_small. }
    replace (b - ((next_transmission fc + k) mod 64 + 1)) with
      (b - 1 - (next_transmission fc + k) mod 64) in Hk2 by lia.
    rewrite mod64_shift in Hk2.
    replace (b - 1 - (next_transmission fc + k)) with
      (b - next_transmission fc - (k + 1)) in Hk2 by lia.
    rewrite mod64_sub in Hk2 by lia.
    replace (b - ((next_transmission fc + k) mod 64 + 1 + k2)) with
      (b - 1 - k2 - (next_transmission fc + k) mod 64) by lia.
    rewrite mod64_shift.
    replace (b - 1 - k2 - (next_transmission fc + k)) with
      (b - next_transmission fc - (k + 1 + k2)) by lia.
    rewrite mod64_sub; lia.
  - destruct Ho as (_ & Ho). destruct (Ho Ha) as (_ & w & Ef).
    destruct (find_next_le _ _ _ b _ _ Hn Hb64 Hset Ef) as (k & -> & Hk).
    rewrite mod64_shift.
    replace (b - (next_transmission fc + k)) with (b - next_transmission fc - k) by lia.
    rewrite mod64_sub; lia.
Qed.

(** Transmissions without intervening acknowledgements. *)
Inductive tx_run : GNUNET_FRAGMENT_Context T -> list (list Z) -> GNUNET_FRAGMENT_Context T -> Prop :=
| tx_refl fc : tx_run fc [] fc
| tx_send clk fc fc' o out fc'' :
    clock_wf clk -> task fc <> None -> transmit_next clk fc = Some (fc', o) ->
    tx_run fc' out fc'' ->
    tx_run fc (match o with Some f => f :: out | None => out end) fc''
| tx_done fc fc' out fc'' :
    proc_busy fc = true -> GNUNET_FRAGMENT_context_transmission_done fc = Some fc' ->
    tx_run fc' out fc'' -> tx_run fc out fc''.

Lemma tx_run_frag_run fc out fc' : tx_run fc out fc' -> frag_run (FRun fc) out (FRun fc').
Proof.
  induction 1 as [fc|clk fc fc1 o out fc2 Hc Ht E _ IH|fc fc1 out fc2 Hb E _ IH].
  - constructor.
  - pose proof (fr_step _ _ _ _ _ (fs_transmit clk fc fc1 o Hc Ht E) IH) as Hr.
    by destruct o.
  - exact (fr_step _ _ _ _ _ (fs_done fc fc1 Hb E) IH).
Qed.

(** While [b] has not been handed out, each fragment handed out uses up one
    unit of its distance. *)
Lemma tx_run_progress fc out fc' b :
  tx_run fc out fc' -> fc_wf fc -> 0 <= b < 64 -> Z.testbit (acks fc) b = true ->
  assemble (mtu fc) (fragment_id fc) (msg fc) b ∈ out
  \/ Z.of_nat (length out) <= dist fc b.
Proof.
  intros Hr Hw Hb. revert Hw.
  induction Hr as [fc|clk fc fc' o out fc'' Hc Ht E Hr IH|fc fc' out fc'' Hbu E Hr IH];
    intros Hw Hset.
  - right. simpl. pose proof (dist_range fc b). lia.
  - assert (acks fc <> 0) as Ha by (intros Ha; rewrite Ha, Z.bits_0 in Hset; done).
    pose proof (not_busy_of_task fc Hw Ht) as Hnb.
    pose proof (transmit_next_progress clk fc b fc' o Hc Hw Hnb Ha Hb Hset E) as Hp.
    destruct (transmit_next_spec clk fc Hc Hw Hnb) as (fc1 & o1 & E1 & Hw1 & Hsame & _).
    rewrite E in E1. injection E1 as <- <-. injection Hsame as Ea _ Em Eu Ei.
    rewrite Ea, Em, Eu, Ei in IH. specialize (IH Hw1 Hset).
    destruct o as [f|]; [|destruct IH; [by left|right; lia]].
    destruct Hp as [->|Hd]; [left; by left|].
    destruct IH as [|Hl]; [left; by right|right]. simpl. lia.
  - destruct (transmission_done_spec fc Hw Hbu) as (fc1 & E1 & Hw1). rewrite E in E1.
    injection E1 as <-. unfold GNUNET_FRAGMENT_context_transmission_done in E.
    destruct (proc_busy fc), (task fc); simplify_eq/=. by apply IH.
Qed.

End Context.

(** ** Main theorems *)

Section FragmentationTheorems.
Context {T : Type} `{FC : FlowControl T}.

(** C33. The fragmenter never aborts or hangs and only emits pieces of its
    message: a context can be created for every well-formed message and every
    MTU of at least 1036 bytes; in every run of scheduler, client and network
    (arbitrary acknowledgement bytes included) each handler that may be called
    returns, so no assertion fails and both search loops end; and every fragment
    handed out is a well-formed message no larger than the MTU that carries a
    fragment number of the message. *)
Theorem fragmenter_safe (random mtu0 : Z) (t : option T) (md ad : GNUNET_TIME_Relative)
  (m : list Z) :
  mtu_ok mtu0 -> is_u32 random -> rel_wf md -> rel_wf ad -> msg_wf m ->
  match t with Some t => flow_wf t | None => True end ->
  exists fc0, GNUNET_FRAGMENT_context_create random mtu0 t md ad m = Some fc0
  /\ forall out s, frag_run (FRun fc0) out s ->
     (forall fc, s = FRun fc ->
        (task fc <> None -> forall clk, clock_wf clk -> is_Some (transmit_next clk fc))
        /\ (proc_busy fc = true -> is_Some (GNUNET_FRAGMENT_context_transmission_done fc))
        /\ (forall clk a, clock_wf clk -> bytes_ok a ->
            is_Some (GNUNET_FRAGMENT_process_ack clk fc a)))
     /\ (forall f, f ∈ out ->
          exists b, 0 <= b < nfrags mtu0 (msg_size m) /\ f = assemble mtu0 random m b
          /\ msg_wf f /\ msg_size f <= mtu0).
Proof.
  intros Hmtu Hr Hmd Had Hm Ht.
  destruct (create_spec random mtu0 t md ad m Hmtu Hr Hmd Had Hm Ht)
    as (fc0 & E & Hw & Em & Eu & Ei & Ea & _ & _).
  exists fc0. split; [done|]. intros out s Hrun.
  assert (frag_inv mtu0 random m (FRun fc0)) as Hi.
  { split; [done|]. split_and!; try done. rewrite Ea. intros E0.
    pose proof (nfrags_range mtu0 _ Hmtu (msg_size_pos m Hm)).
    pose proof (testbit_low_bits (nfrags mtu0 (msg_size m)) 0 ltac:(lia) ltac:(lia)) as Hb.
    rewrite E0, Z.bits_0 in Hb. symmetry in Hb. apply Z.ltb_ge in Hb. lia. }
  destruct (frag_run_inv _ _ _ _ _ _ Hrun Hi) as [Hi' Hout]. split.
  - intros fc ->. destruct Hi' as (Hw' & _ & _ & _ & Hacks). split_and!.
    + intros Htk clk Hc.
      destruct (transmit_next_spec clk fc Hc Hw' (not_busy_of_task fc Hw' Htk))
        as (? & ? & -> & _). by eexists.
    + intros Hb. destruct (transmission_done_spec fc Hw' Hb) as (? & -> & _). by eexists.
    + intros clk a Hc Hba.
      destruct (process_ack_spec clk fc a Hc Hba Hw' (fw_live fc Hw' Hacks))
        as (? & ? & -> & _). by eexists.
  - intros f Hf. destruct (Hout f Hf) as (b & Hb & ->). exists b.
    pose proof (assemble_fields mtu0 random m Hmtu Hr Hm b Hb) as (Es & _).
    pose proof (length_assemble mtu0 random m Hmtu Hm b Hb) as El.
    pose proof (frag_size_range mtu0 _ Hmtu (msg_size_pos m Hm) b Hb) as Hs.
    unfold sizeof_FragmentHeader in Hs. split; [done|]. split; [done|].
    split; [split|]; unfold sizeof_MessageHeader; try congruence; try lia.
    by apply assemble_bytes.
Qed.

(** No starvation: as long as no acknowledgement arrives, 64 transmissions
    include every fragment that was pending, whatever the bandwidth tracker
    delays. *)
Theorem fragmenter_round_robin (fc fc' : GNUNET_FRAGMENT_Context T) (out : list (list Z)) (b : Z) :
  fc_wf fc -> tx_run fc out fc' -> 0 <= b < 64 -> Z.testbit (acks fc) b = true ->
  (64 <= length out)%nat -> assemble (mtu fc) (fragment_id fc) (msg fc) b ∈ out.
Proof.
  intros Hw Hr Hb Hset Hl. pose proof (dist_range fc b).
  destruct (tx_run_progress fc out fc' b Hr Hw Hb Hset); [done|lia].
Qed.

(** The loss estimate of [process_ack] looks at fragment 0 only: the code
    compares [acks_mask & (1 << i)] with 1, so it counts one fragment as sent
    and, as acknowledged, that one or none, whatever the other 63 bits say. The
    branch for partial loss is dead. *)
Theorem loss_estimate_counts_first_fragment (n abits : Z) :
  1 <= n <= 64 ->
  count_acks (low_bits n) abits = (1, if Z.testbit abits 0 then 0 else 1).
Proof.
  intros Hn. rewrite count_acks_bit0, testbit_low_bits by lia.
  by destruct (Z.ltb_spec 0 n); [|lia].
Qed.

End FragmentationTheorems.

(** ** Concrete runs *)

Section Demo.
Local Instance demo_flow : FlowControl GNUNET_BANDWIDTH_Tracker :=
  tracker_FlowControl (fun _ => 0).

(** A message of two fragments at the smallest MTU. *)
Definition demo_msg : list Z := be_encode 2 1026 ++ [0; 7] ++ repeat 9 1022.

Lemma demo_msg_wf : msg_wf demo_msg.
Proof.
  split; [|reflexivity|vm_compute; congruence].
  apply Forall_app; split; [apply bytes_ok_be_encode|].
  apply Forall_app; split; [repeat constructor; words|].
  apply Forall_forall. intros x Hx. apply list_elem_of_In, repeat_spec in Hx as ->. words.
Qed.

Lemma fragmenter_safe_witness :
  exists fc0, GNUNET_FRAGMENT_context_create 42 1036 (None : option GNUNET_BANDWIDTH_Tracker)
    (mk_rel 1) (mk_rel 1000) demo_msg = Some fc0.
Proof.
  destruct (fragmenter_safe 42 1036 (None : option GNUNET_BANDWIDTH_Tracker)
    (mk_rel 1) (mk_rel 1000) demo_msg) as (fc0 & E & _);
    [vm_compute; intuition congruence ..|apply demo_msg_wf|exact I|by exists fc0].
Defined.

(** Transmit and report completion, [n] times. *)
Fixpoint drive (n : nat) (clk : clock) (fc : GNUNET_FRAGMENT_Context GNUNET_BANDWIDTH_Tracker)
  : option (list (list Z) * GNUNET_FRAGMENT_Context GNUNET_BANDWIDTH_Tracker) :=
  match n with
  | O => Some ([], fc)
  | S n' =>
      let? _ := task fc in
      let? (fc1, o) := transmit_next clk fc in
      assert? proc_busy fc1 in
      let? fc2 := GNUNET_FRAGMENT_context_transmission_done fc1 in
      let? (out, fc3) := drive n' clk fc2 in
      Some (match o with Some f => f :: out | None => out end, fc3)
  end.

Lemma drive_tx_run n clk fc out fc' :
  clock_wf clk -> drive n clk fc = Some (out, fc') -> tx_run fc out fc'.
Proof.
  intros Hc. revert fc out. induction n as [|n IH]; intros fc out; cbn [drive].
  { intros [= <- <-]. constructor. }
  destruct (task fc) eqn:Et; [|done].
  destruct (transmit_next clk fc) as [[fc1 o]|] eqn:E1; [|done].
  destruct (proc_busy fc1) eqn:Eb; [|done].
  destruct (GNUNET_FRAGMENT_context_transmission_done fc1) as [fc2|] eqn:E2; [|done].
  destruct (drive n clk fc2) as [[out' fc3]|] eqn:E3; [|done]. intros [= <- <-].
  eapply (tx_send clk fc fc1 o out'); [done|congruence|done|].
  eapply tx_done; eauto.
Qed.

Definition demo_fc : GNUNET_FRAGMENT_Context GNUNET_BANDWIDTH_Tracker :=
  mk_fc None (mk_rel 1) (mk_rel 1000) (mk_abs 0) (mk_abs 0) demo_msg 3 3 (Some TaskNow)
    42 0 0 0 false false 1036.

Lemma demo_fc_wf : fc_wf demo_fc.
Proof.
  split; cbn [mtu msg fragment_id acks_mask acks next_transmission num_rounds
    num_transmissions ack_delay msg_delay delay_until last_round tracker proc_busy task demo_fc];
    try apply demo_msg_wf; try (vm_compute; intuition congruence).
Qed.

Lemma fragmenter_round_robin_witness :
  exists out, length out = 64%nat /\ assemble 1036 42 demo_msg 1 ∈ out.
Proof.
  destruct (drive 64 (fun _ => mk_abs 7) demo_fc) as [[out fc']|] eqn:E;
    [|vm_compute in E; discriminate].
  assert (length out = 64%nat) as Hl.
  { apply (f_equal (fun r => match r with Some (o, _) => length o | None => 0%nat end)) in E.
    vm_compute in E. symmetry. exact E. }
  exists out. split; [exact Hl|].
  refine (fragmenter_round_robin demo_fc fc' out 1 demo_fc_wf _ _ _ _).
  - refine (drive_tx_run 64 _ demo_fc out fc' _ E). intros i. vm_compute. intuition congruence.
  - lia.
  - reflexivity.
  - lia.
Defined.

Lemma loss_estimate_witness : count_acks (low_bits 10) 6 = (1, 1).
Proof. apply (loss_estimate_counts_first_fragment 10 6). lia. Defined.

End Demo.
