(* ===== verification/Defragmentation.v ===== *)
(** * Message reassembly: [src/fragmentation/defragmentation.c]

    The receiver side of the fragmentation protocol, and the two sides put
    together. A handler returns [None] where the C code would fail an assertion,
    access memory outside of an object or shift by the width of a word. *)

From S2P Require Import Prelude Time Floats Bandwidth Message Fragmentation.

(** ** Data *)

(** [mc_msg] is the buffer at the end of the struct; [mc_frag_times] holds time
    and bit; [mc_ack_task] is the delay the ACK task was scheduled with. *)
Record MessageContext := mk_mc {
  mc_msg : list Z;
  mc_last_update : GNUNET_TIME_Absolute;
  mc_ack_task : option GNUNET_TIME_Relative;
  mc_frag_times : list (GNUNET_TIME_Absolute * Z);
  mc_bits : Z;
  mc_fragment_id : Z;
  mc_last_bit : Z;
  mc_start_offset : Z;
  mc_write_offset : Z;
  mc_total_size : Z;
  mc_last_duplicate : bool;
}.

(** The doubly linked list is the list from head to tail. *)
Record GNUNET_DEFRAGMENT_Context := mk_dc {
  dc_list : list MessageContext;
  dc_latency : GNUNET_TIME_Relative;
  dc_num_msgs : Z;
  dc_list_size : Z;
  dc_mtu : Z;
}.

Definition GNUNET_DEFRAGMENT_context_create (mtu num_msgs : Z) : GNUNET_DEFRAGMENT_Context :=
  mk_dc [] GNUNET_TIME_UNIT_SECONDS num_msgs 0 mtu.

(** Frees every message context, then asserts that none is left. *)
Fixpoint GNUNET_DEFRAGMENT_context_destroy (l : list MessageContext) (list_size : Z)
  : option unit :=
  match l with
  | _ :: l' => GNUNET_DEFRAGMENT_context_destroy l' (u32 (list_size - 1))
  | [] => assert? 0 =? list_size in Some tt
  end.

(** The acknowledgement sent for a message context. *)
Definition send_ack (mc : MessageContext) : MessageContext * list Z :=
  (mk_mc (mc_msg mc) (mc_last_update mc) None (mc_frag_times mc) (mc_bits mc)
     (mc_fragment_id mc) (mc_last_bit mc) (mc_start_offset mc) (mc_write_offset mc)
     (mc_total_size mc) false,
   be_encode 2 sizeof_FragmentAcknowledgement
   ++ be_encode 2 GNUNET_MESSAGE_TYPE_FRAGMENT_ACK
   ++ be_encode 4 (mc_fragment_id mc) ++ be_encode 8 (mc_bits mc)).

(** ** Latency estimation *)

Definition dnth (l : list double) (i : nat) : double := nth i l (S754_nan).

(** [i + 1.0] for a [size_t] counter. *)
Definition dsucc (i : nat) : double := dadd (double_of_Z (Z.of_nat i)) (double_of_Z 1).

Definition gsl_fit_mul (x : list double) (xstride : nat) (y : list double) (ystride n : nat)
  : double * double * double :=
  let zero := double_of_Z 0 in
  let '(m_x, m_y) :=
    fold_left (fun '(m_x, m_y) i =>
        (dadd m_x (ddiv (dsub (dnth x (i * xstride)) m_x) (dsucc i)),
         dadd m_y (ddiv (dsub (dnth y (i * ystride)) m_y) (dsucc i))))
      (seq 0 n) (zero, zero) in
  let '(m_dx2, m_dxdy) :=
    fold_left (fun '(m_dx2, m_dxdy) i =>
        let dx := dsub (dnth x (i * xstride)) m_x in
        let dy := dsub (dnth y (i * ystride)) m_y in
        (dadd m_dx2 (ddiv (dsub (dmul dx dx) m_dx2) (dsucc i)),
         dadd m_dxdy (ddiv (dsub (dmul dx dy) m_dxdy) (dsucc i))))
      (seq 0 n) (zero, zero) in
  let den := dadd (dmul m_x m_x) m_dx2 in
  let b := ddiv (dadd (dmul m_x m_y) m_dxdy) den in
  let d2 :=
    fold_left (fun d2 i =>
        let dx := dsub (dnth x (i * xstride)) m_x in
        let dy := dsub (dnth y (i * ystride)) m_y in
        let d := dsub (dadd (dsub m_y (dmul b m_x)) dy) (dmul b dx) in
        dadd d2 (dmul d d))
      (seq 0 n) zero in
  let s2 := ddiv d2 (dsub (double_of_Z (Z.of_nat n)) (double_of_Z 1)) in
  let cov_11 := ddiv (dmul s2 (double_of_Z 1)) (dmul (double_of_Z (Z.of_nat n)) den) in
  (b, cov_11, d2).

Section Defragmentation.
Variable undef : double -> Z.

Definition estimate_latency (mc : MessageContext) : option GNUNET_TIME_Relative :=
  let total := Z.to_nat (u32 (mc_write_offset mc - mc_start_offset mc)) in
  let first := take total (drop (Z.to_nat (mc_start_offset mc)) (mc_frag_times mc)) in
  assert? (1 <? total)%nat in
  let? t0 := abs_value_us ∘ fst <$> head first in
  let x := map (fun i => double_of_Z (Z.of_nat i)) (seq 0 total) in
  let y := map (fun ft => double_of_Z (u64 (abs_value_us (fst ft) - t0))) first in
  let '(c1, _, sumsq) := gsl_fit_mul x 1 y 1 total in
  let c1 := dadd c1 (dsqrt sumsq) in
  let ret := mk_rel (double_to_u64 undef c1) in
  Some (if 0 =? rel_value_us ret then GNUNET_TIME_UNIT_MICROSECONDS else ret).

(** ** The list of message contexts *)

(** Position of the context with the oldest update, the first of them if there
    are several; [old] is the best position so far and its time. *)
Fixpoint oldest (l : list MessageContext) (i : nat) (old : option (nat * Z)) : option nat :=
  match l with
  | [] => fst <$> old
  | pos :: l' =>
      let t := abs_value_us (mc_last_update pos) in
      oldest l' (S i)
        (match old with
         | None => Some (i, t)
         | Some (j, t') => if t <? t' then Some (i, t) else old
         end)
  end.

Definition discard_oldest_mc (dc : GNUNET_DEFRAGMENT_Context) : option GNUNET_DEFRAGMENT_Context :=
  let? i := oldest (dc_list dc) 0 None in
  Some (mk_dc (delete i (dc_list dc)) (dc_latency dc) (dc_num_msgs dc)
          (u32 (dc_list_size dc - 1)) (dc_mtu dc)).

(** The loop that looks a fragment identifier up. *)
Fixpoint mc_index (fid : Z) (l : list MessageContext) : option nat :=
  match l with
  | [] => None
  | mc :: l' =>
      if negb (fid =? mc_fragment_id mc) then S <$> mc_index fid l' else Some 0%nat
  end.

(** ** process_fragment *)

(** A fresh context for a message of [msize] bytes; [GNUNET_malloc] clears it. *)
Definition new_mc (now : GNUNET_TIME_Absolute) (mtu fid msize : Z) : option MessageContext :=
  let n := u32 ((msize + mtu - sizeof_FragmentHeader - 1) / (mtu - sizeof_FragmentHeader)) in
  assert? n <=? 64 in
  Some (mk_mc (replicate (Z.to_nat msize) 0) now None (replicate 64 (mk_abs 0, 0))
          (low_bits n) fid 0 0 0 msize false).

(** Records the payload [data] of fragment [bit]: the updated context and
    whether the fragment was a duplicate. *)
Definition store_fragment (now : GNUNET_TIME_Absolute) (mtu bit : Z) (data : list Z)
  (mc : MessageContext) : option (MessageContext * bool) :=
  assert? bit <? 64 in
  if bit_set (mc_bits mc) bit then
    let off := Z.to_nat (bit * (mtu - sizeof_FragmentHeader)) in
    assert? (off + length data <=? length (mc_msg mc))%nat in
    assert? (Z.to_nat (mc_write_offset mc) <? length (mc_frag_times mc))%nat in
    Some (mk_mc (splice off data (mc_msg mc)) now (mc_ack_task mc)
            (<[Z.to_nat (mc_write_offset mc) := (now, bit)]> (mc_frag_times mc))
            (mc_bits mc - u64 (Z.shiftl 1 bit)) (mc_fragment_id mc) bit
            (if bit <? mc_last_bit mc then mc_write_offset mc else mc_start_offset mc)
            (u32 (mc_write_offset mc + 1)) (mc_total_size mc) (mc_last_duplicate mc), false)
  else Some (mc, true).

(** Number of missing fragments since the last one present, from [bit] on. *)
Definition missing_after (bits bit : Z) : Z :=
  fold_left (fun bc b => if bit_set bits b then u32 (bc + 1) else 0)
    (map Z.of_nat (seq (Z.to_nat bit) (64 - Z.to_nat bit))) 0.

Definition set_ack (mc : MessageContext) (delay : GNUNET_TIME_Relative) (duplicate : bool)
  : MessageContext :=
  mk_mc (mc_msg mc) (mc_last_update mc) (Some delay) (mc_frag_times mc) (mc_bits mc)
    (mc_fragment_id mc) (mc_last_bit mc) (mc_start_offset mc) (mc_write_offset mc)
    (mc_total_size mc) (if duplicate then true else mc_last_duplicate mc).

(** The context to use for the fragment: the one found at position [found], or
    a fresh one at the head of the list, which may take the place of the oldest.
    Returns the list, its size and the position. *)
Definition locate_mc (now : GNUNET_TIME_Absolute) (dc : GNUNET_DEFRAGMENT_Context)
  (found : option nat) (fid msize : Z) : option (list MessageContext * Z * nat) :=
  match found with
  | Some i => Some (dc_list dc, dc_list_size dc, i)
  | None =>
      let? mc := new_mc now (dc_mtu dc) fid msize in
      let? dc1 := if dc_num_msgs dc <=? dc_list_size dc then discard_oldest_mc dc else Some dc in
      Some (mc :: dc_list dc1, u32 (dc_list_size dc1 + 1), 0%nat)
  end.

(** Returns the new context, the return code and the message handed to [proc],
    if one is. *)
Definition GNUNET_DEFRAGMENT_process_fragment (now : GNUNET_TIME_Absolute)
  (dc : GNUNET_DEFRAGMENT_Context) (m : list Z)
  : option (GNUNET_DEFRAGMENT_Context * Z * option (list Z)) :=
  let syserr := Some (dc, GNUNET_SYSERR, None) in
  if msg_size m <? sizeof_FragmentHeader then syserr
  else if dc_mtu dc <? msg_size m then syserr
  else
  let msize := rd16 8 m in
  if msize <? sizeof_MessageHeader then syserr
  else
  let fid := rd32 4 m in
  let foff := rd16 10 m in
  if msize <=? foff then syserr
  else
  let P := dc_mtu dc - sizeof_FragmentHeader in
  if negb (0 =? foff mod P) then syserr
  else
  let num_fragments := u32 ((msg_size m + dc_mtu dc - sizeof_FragmentHeader - 1) / P) in
  let last := Z.of_nat (length (filter (fun mc => fid < mc_fragment_id mc) (dc_list dc))) in
  let found := mc_index fid (dc_list dc) in
  let bit := u32 (foff / P) in
  if msize <? bit * P + msg_size m - sizeof_FragmentHeader then syserr
  else
  if match found ≫= (fun i => dc_list dc !! i) with
     | Some mc => negb (msize =? mc_total_size mc)
     | None => false
     end then syserr
  else
  let? (l, lsize, i) := locate_mc now dc found fid msize in
  let? mc := l !! i in
  let? (mc, duplicate) :=
    store_fragment now (dc_mtu dc) bit (slice 12 (Z.to_nat (msg_size m - sizeof_FragmentHeader)) m) mc in
  let bc := missing_after (mc_bits mc) bit in
  let deliver := if negb duplicate && (0 =? mc_bits mc) then Some (mc_msg mc) else None in
  let? latency :=
    if 1 <? u32 (mc_write_offset mc - mc_start_offset mc) then estimate_latency mc
    else Some (dc_latency dc) in
  let delay := GNUNET_TIME_relative_saturating_multiply latency (u32 (bc + 1)) in
  let delay :=
    if (u32 (last + fid) =? num_fragments) || (0 =? mc_bits mc) || duplicate
    then GNUNET_TIME_UNIT_ZERO else delay in
  Some (mk_dc (<[i := set_ack mc delay duplicate]> l) latency (dc_num_msgs dc) lsize (dc_mtu dc),
        if duplicate then GNUNET_NO else GNUNET_YES, deliver).

End Defragmentation.

(** ** Counting missing fragments *)

Definition popcount (w : Z) : nat := length (filter (fun i => Z.testbit w i = true) (seqZ 0 64)).

Lemma length_filter_drop `{EqDecision A} (P Q : A -> Prop) `{forall x, Decision (P x)}
  `{forall x, Decision (Q x)} (l : list A) (a : A) :
  NoDup l -> a ∈ l -> P a -> ~ Q a -> (forall x, x <> a -> (P x <-> Q x)) ->
  length (filter P l) = S (length (filter Q l)).
Proof.
  intros Hnd Ha HP HQ Hiff. induction l as [|x l IH]; [by apply not_elem_of_nil in Ha|].
  apply NoDup_cons in Hnd as [Hx Hnd].
  destruct (decide (x = a)) as [->|Hne].
  - rewrite filter_cons_True, filter_cons_False by done. cbn [length]. do 2 f_equal.
    clear IH Hnd Ha. induction l as [|y l IH]; [done|].
    assert (y <> a) as Hy by (intros ->; apply Hx; left).
    assert (a ∉ l) as Hl by (intros ?; apply Hx; by right).
    rewrite !filter_cons. destruct (decide (P y)) as [HPy|HPy], (decide (Q y)) as [HQy|HQy].
    + f_equal. by apply IH.
    + by apply Hiff in HPy.
    + by apply Hiff in HQy.
    + by apply IH.
  - assert (a ∈ l) as Hal by (apply elem_of_cons in Ha as [->|]; done).
    rewrite !filter_cons. destruct (decide (P x)) as [HPx|HPx], (decide (Q x)) as [HQx|HQx].
    + cbn [length]. f_equal. by apply IH.
    + by apply Hiff in HPx.
    + by apply Hiff in HQx.
    + by apply IH.
Qed.

Lemma popcount_clear w i :
  0 <= i < 64 -> Z.testbit w i = true -> popcount w = S (popcount (w - 2 ^ i)).
Proof.
  intros Hi Hset. apply (length_filter_drop _ _ _ i).
  - apply NoDup_seqZ.
  - apply elem_of_seqZ. lia.
  - done.
  - rewrite clear_bit_testbit, Z.eqb_refl, andb_false_r by done. done.
  - intros j Hj. rewrite clear_bit_testbit by done.
    destruct (Z.eqb_spec i j); [congruence|]. by rewrite andb_true_r.
Qed.

Lemma popcount_low_bits n : 0 <= n <= 64 -> Z.of_nat (popcount (low_bits n)) = n.
Proof.
  intros Hn.
  assert (Forall (fun k => Z.of_nat (popcount (low_bits k)) = k) (seqZ 0 65)) as Hall.
  { apply (bool_decide_unpack _). vm_compute. exact I. }
  rewrite Forall_forall in Hall. apply Hall, elem_of_seqZ. lia.
Qed.

(** ** Invariants *)

Definition mc_nfrags (mtu : Z) (mc : MessageContext) : Z := nfrags mtu (mc_total_size mc).

(** A message context: the buffer has the announced size, only fragments that
    exist are missing, and the time stamps recorded and the fragments missing
    add up to the number of fragments. *)
Record mc_wf (mtu : Z) (mc : MessageContext) : Prop := {
  mw_len : Z.of_nat (length (mc_msg mc)) = mc_total_size mc;
  mw_bytes : bytes_ok (mc_msg mc);
  mw_size : sizeof_MessageHeader <= mc_total_size mc < 2 ^ 16;
  mw_fid : is_u32 (mc_fragment_id mc);
  mw_bits : is_u64 (mc_bits mc);
  mw_sub : forall i, 0 <= i -> Z.testbit (mc_bits mc) i = true -> i < mc_nfrags mtu mc;
  mw_times : length (mc_frag_times mc) = 64%nat;
  mw_count : mc_write_offset mc + Z.of_nat (popcount (mc_bits mc)) = mc_nfrags mtu mc;
  mw_start : 0 <= mc_start_offset mc <= mc_write_offset mc;
}.

Record dc_wf (dc : GNUNET_DEFRAGMENT_Context) : Prop := {
  dw_mtu : mtu_ok (dc_mtu dc);
  dw_list : Forall (mc_wf (dc_mtu dc)) (dc_list dc);
  dw_nodup : NoDup (mc_fragment_id <$> dc_list dc);
  dw_num : 1 <= dc_num_msgs dc < 2 ^ 32;
  dw_size : dc_list_size dc = Z.of_nat (length (dc_list dc));
  dw_bound : dc_list_size dc <= dc_num_msgs dc;
}.

Section Facts.
Variable undef : double -> Z.

Lemma mc_nfrags_range mtu mc : mtu_ok mtu -> mc_wf mtu mc -> 1 <= mc_nfrags mtu mc <= 64.
Proof.
  intros Hm Hw. apply nfrags_range; [done|].
  pose proof (mw_size _ _ Hw). unfold sizeof_MessageHeader in *. lia.
Qed.

Lemma new_mc_spec now mtu fid msize :
  mtu_ok mtu -> is_u32 fid -> sizeof_MessageHeader <= msize < 2 ^ 16 ->
  exists mc, new_mc now mtu fid msize = Some mc /\ mc_wf mtu mc /\ mc_fragment_id mc = fid
    /\ mc_total_size mc = msize /\ mc_bits mc = low_bits (nfrags mtu msize)
    /\ mc_msg mc = replicate (Z.to_nat msize) 0 /\ mc_last_update mc = now.
Proof.
  intros Hm Hf Hs. unfold new_mc.
  assert (0 < msize < 2 ^ 16) as Hs' by (unfold sizeof_MessageHeader in *; lia).
  pose proof (nfrags_range mtu msize Hm Hs') as Hn.
  replace (u32 _) with (nfrags mtu msize).
  2:{ rewrite u32_small; unfold nfrags, payload in *;
      replace (msize + mtu - sizeof_FragmentHeader - 1)
        with (msize + (mtu - sizeof_FragmentHeader) - 1) by lia; [done|words]. }
  destruct (Z.leb_spec (nfrags mtu msize) 64); [|lia].
  eexists. split; [done|]. split; [|done].
  split; unfold mc_nfrags; cbn [mc_msg mc_total_size mc_fragment_id mc_bits mc_frag_times
    mc_write_offset mc_start_offset]; try done; try lia.
  - rewrite length_replicate. lia.
  - apply Forall_replicate. words.
  - apply low_bits_range.
  - intros i Hi. rewrite testbit_low_bits by lia. apply Z.ltb_lt.
  - rewrite popcount_low_bits by lia. lia.
Qed.

(** A fragment whose payload lies inside the message: no access is out of
    bounds, and the invariant is kept. A fragment that was missing is copied to
    its place; a duplicate changes nothing. *)
Lemma store_fragment_spec now mtu bit data mc :
  mtu_ok mtu -> mc_wf mtu mc -> bytes_ok data -> 0 <= bit -> bit * payload mtu < mc_total_size mc ->
  bit * payload mtu + Z.of_nat (length data) <= mc_total_size mc ->
  exists mc' dup, store_fragment now mtu bit data mc = Some (mc', dup) /\ mc_wf mtu mc'
    /\ (mc_fragment_id mc', mc_total_size mc') = (mc_fragment_id mc, mc_total_size mc)
    /\ dup = negb (Z.testbit (mc_bits mc) bit)
    /\ mc_msg mc' = (if dup then mc_msg mc
                     else splice (Z.to_nat (bit * payload mtu)) data (mc_msg mc))
    /\ (forall i, Z.testbit (mc_bits mc') i = Z.testbit (mc_bits mc) i && negb (bit =? i)).
Proof.
  intros Hm Hw Hd Hb Hoff Hlen. pose proof (mc_nfrags_range mtu mc Hm Hw) as Hn.
  pose proof (payload_range mtu Hm) as HP.
  assert (bit < mc_nfrags mtu mc) as Hbn.
  { pose proof (nfrags_bounds mtu (mc_total_size mc) Hm). unfold mc_nfrags. nia. }
  unfold store_fragment. fold (payload mtu). destruct (Z.ltb_spec bit 64); [|lia].
  rewrite bit_set_testbit by lia. destruct (Z.testbit (mc_bits mc) bit) eqn:Hset.
  2:{ exists mc, true. split_and!; try done. intros i.
      destruct (Z.eqb_spec bit i) as [<-|]; [by rewrite Hset|by rewrite andb_true_r]. }
  pose proof (popcount_clear (mc_bits mc) bit ltac:(lia) Hset) as Hpop.
  pose proof (mw_count mtu mc Hw) as Hc. pose proof (mw_len mtu mc Hw) as Hl.
  pose proof (mw_start mtu mc Hw) as Hst. pose proof (mw_times mtu mc Hw) as Ht.
  destruct (Nat.leb_spec (Z.to_nat (bit * payload mtu) + length data) (length (mc_msg mc)));
    [|lia].
  destruct (Nat.ltb_spec (Z.to_nat (mc_write_offset mc)) (length (mc_frag_times mc))); [|lia].
  assert (u64 (Z.shiftl 1 bit) = 2 ^ bit) as Ebit.
  { rewrite Z.shiftl_1_l. apply u64_small. split; [lia|apply Z.pow_lt_mono_r; lia]. }
  assert (forall i, Z.testbit (mc_bits mc - 2 ^ bit) i
    = Z.testbit (mc_bits mc) i && negb (bit =? i)) as Hclear
    by (intros; apply clear_bit_testbit; [lia|done]).
  eexists _, false. rewrite Ebit. split; [reflexivity|].
  split; [|by split_and!].
  split; unfold mc_nfrags; cbn [mc_msg mc_total_size mc_fragment_id mc_bits mc_frag_times
    mc_write_offset mc_start_offset]; try apply Hw.
  - rewrite length_splice; lia.
  - apply bytes_ok_splice; [done|apply Hw].
  - pose proof (mw_bits mtu mc Hw) as Hu. assert (2 ^ bit <= mc_bits mc).
    { apply Z.testbit_true in Hset as Hq; [|lia].
      destruct (Z.le_gt_cases (2 ^ bit) (mc_bits mc)) as [|Hlt]; [done|].
      unfold is_u64 in Hu. rewrite Z.div_small in Hq by lia. done. }
    pose proof (Z.pow_pos_nonneg 2 bit). words.
  - intros i Hi. rewrite Hclear. intros [Hi' _]%andb_true_iff. by apply Hw.
  - by rewrite length_insert.
  - rewrite u32_small by words. unfold mc_nfrags in *. lia.
  - rewrite u32_small by words. case_if; lia.
Qed.

(** The scan for the oldest context returns a position of the list. *)
Lemma oldest_spec l i old :
  (l <> [] \/ is_Some old) ->
  exists j, oldest l i old = Some j
    /\ ((i <= j < i + length l)%nat \/ exists t, old = Some (j, t)).
Proof.
  revert i old. induction l as [|mc l IH]; intros i old Hne; cbn [oldest].
  { destruct Hne as [[]|[[j t] ->]]; [done|]. exists j. cbn. eauto. }
  set (old' := match old with None => _ | Some _ => _ end).
  assert (is_Some old' /\ ((exists t, old' = Some (i, t)) \/ old' = old)) as [Hs Hcase].
  { unfold old'. destruct old as [[j t]|]; [case_if|]; split; eauto. }
  destruct (IH (S i) old') as (j & Ej & Hj); [by right|].
  exists j. split; [done|]. cbn [length]. destruct Hj as [Hj|[t Ht]]; [left; lia|].
  destruct Hcase as [[t' Ht']|Ho]; [|right; exists t; congruence].
  left. rewrite Ht in Ht'. injection Ht' as -> _. lia.
Qed.

Lemma oldest_lt l : l <> [] -> exists j, oldest l 0 None = Some j /\ (j < length l)%nat.
Proof.
  intros Hne. destruct (oldest_spec l 0 None) as (j & E & [Hj|[t Ht]]); [by left| |done].
  exists j. split; [done|lia].
Qed.

Lemma mc_index_Some fid l i :
  mc_index fid l = Some i -> exists mc, l !! i = Some mc /\ mc_fragment_id mc = fid.
Proof.
  revert i. induction l as [|mc l IH]; intros i; [done|]. cbn [mc_index].
  destruct (Z.eqb_spec fid (mc_fragment_id mc)) as [->|Hne]; cbn [negb].
  - intros [= <-]. by exists mc.
  - destruct (mc_index fid l) as [j|]; [|done]. intros [= <-]. by apply IH.
Qed.

Lemma mc_index_None fid l : mc_index fid l = None -> fid ∉ mc_fragment_id <$> l.
Proof.
  induction l as [|mc l IH]; [intros _; apply not_elem_of_nil|]. rewrite fmap_cons. cbn [mc_index].
  destruct (Z.eqb_spec fid (mc_fragment_id mc)) as [->|Hne]; cbn [negb]; [done|].
  destruct (mc_index fid l); [done|]. intros _. apply not_elem_of_cons. auto.
Qed.

(** The estimator is called with at least two time stamps inside the array. *)
Lemma estimate_latency_total mtu mc :
  mtu_ok mtu -> mc_wf mtu mc -> 1 < u32 (mc_write_offset mc - mc_start_offset mc) ->
  exists d, estimate_latency undef mc = Some d /\ rel_wf d.
Proof.
  intros Hm Hw Htot. pose proof (mc_nfrags_range mtu mc Hm Hw) as Hn.
  pose proof (mw_count _ _ Hw) as Hc. pose proof (mw_start _ _ Hw) as Hs.
  pose proof (mw_times _ _ Hw) as Ht. unfold estimate_latency.
  set (total := Z.to_nat _). destruct (Nat.ltb_spec 1 total); [|lia].
  set (first := take total _).
  assert (length first = total) as Hl.
  { unfold first, total. rewrite length_take, length_drop, Ht.
    rewrite u32_small by words. lia. }
  destruct first as [|[t b] first']; [cbn in Hl; lia|]. cbn [head fmap option_fmap option_map].
  destruct (gsl_fit_mul _ _ _ _ _) as [[c1 cov] sumsq]. eexists. split; [reflexivity|].
  case_if; [vm_compute; intuition congruence|]. unfold rel_wf. cbn. auto with words.
Qed.

(** Evicting the oldest context keeps the invariant and makes room. *)
Lemma discard_oldest_spec dc :
  dc_wf dc -> dc_list dc <> [] ->
  exists dc', discard_oldest_mc dc = Some dc' /\ dc_wf dc'
    /\ dc_list_size dc' = dc_list_size dc - 1 /\ dc_num_msgs dc' = dc_num_msgs dc
    /\ dc_mtu dc' = dc_mtu dc
    /\ exists i, dc_list dc' = delete i (dc_list dc).
Proof.
  intros [? ? ? ? Hs ?] Hne. destruct (oldest_lt _ Hne) as (j & Ej & Hj).
  unfold discard_oldest_mc. rewrite Ej. eexists. split; [done|].
  assert (u32 (dc_list_size dc - 1) = dc_list_size dc - 1) as ->
    by (apply u32_small; words).
  split; [|by split_and!; eauto]. split; cbn [dc_mtu dc_list dc_num_msgs dc_list_size]; try done.
  - by apply Forall_delete.
  - rewrite list_fmap_delete. eapply sublist_NoDup; [done|apply sublist_delete].
  - rewrite length_delete by (by apply lookup_lt_is_Some). lia.
  - lia.
Qed.

Lemma locate_mc_spec now dc fid msize :
  dc_wf dc -> is_u32 fid -> sizeof_MessageHeader <= msize < 2 ^ 16 ->
  match mc_index fid (dc_list dc) ≫= (fun i => dc_list dc !! i) with
  | Some mc => msize = mc_total_size mc | None => True end ->
  exists l lsize i mc, locate_mc now dc (mc_index fid (dc_list dc)) fid msize = Some (l, lsize, i)
    /\ l !! i = Some mc /\ mc_fragment_id mc = fid /\ mc_total_size mc = msize
    /\ (forall lat, dc_wf (mk_dc l lat (dc_num_msgs dc) lsize (dc_mtu dc)))
    /\ (forall mc1, mc1 ∈ l -> mc1 ∈ dc_list dc \/
          mc1 = mc /\ mc_bits mc = low_bits (nfrags (dc_mtu dc) msize))
    /\ (l = dc_list dc \/ (fid ∉ mc_fragment_id <$> dc_list dc)
          /\ mc_bits mc = low_bits (nfrags (dc_mtu dc) msize)
          /\ (dc_list_size dc < dc_num_msgs dc -> l = mc :: dc_list dc)).
Proof.
  intros Hw Hf Hs Hsame. unfold locate_mc.
  destruct (mc_index fid (dc_list dc)) as [i|] eqn:Ei.
  { destruct (mc_index_Some _ _ _ Ei) as (mc & Hl & Hfid). cbn in Hsame. rewrite Hl in Hsame.
    exists (dc_list dc), (dc_list_size dc), i, mc. split_and!; try done; [|by left..].
    intros lat. by destruct Hw. }
  apply mc_index_None in Ei.
  destruct (new_mc_spec now (dc_mtu dc) fid msize (dw_mtu dc Hw) Hf Hs)
    as (mc & -> & Hmc & Hfid & Hsz & Hbits & _).
  assert (exists dc1, (if dc_num_msgs dc <=? dc_list_size dc then discard_oldest_mc dc else Some dc)
    = Some dc1 /\ dc_wf dc1 /\ dc_list_size dc1 < dc_num_msgs dc
    /\ dc_num_msgs dc1 = dc_num_msgs dc /\ dc_mtu dc1 = dc_mtu dc
    /\ (forall mc1, mc1 ∈ dc_list dc1 -> mc1 ∈ dc_list dc)
    /\ (dc_list_size dc < dc_num_msgs dc -> dc1 = dc))
    as (dc1 & -> & Hw1 & Hroom & Hnum & Hmtu & Hsub & Hkeep).
  { pose proof (dw_num dc Hw). pose proof (dw_size dc Hw) as Hsize.
    destruct (Z.leb_spec (dc_num_msgs dc) (dc_list_size dc)); [|by exists dc].
    assert (dc_list dc <> []) as Hne by (intros E; rewrite E in Hsize; cbn in Hsize; lia).
    destruct (discard_oldest_spec dc Hw Hne) as (dc1 & -> & Hw1 & Hs1 & Hn1 & Hm1 & i & Hi).
    pose proof (dw_bound dc Hw). exists dc1. split_and!; try done; [lia| |lia].
    intros mc1. rewrite Hi. apply list_subseteq_delete. }
  pose proof (dw_size dc1 Hw1) as Hsize1. pose proof (dw_num dc Hw).
  exists (mc :: dc_list dc1), (u32 (dc_list_size dc1 + 1)), 0%nat, mc. split_and!; try done.
  - intros lat. rewrite u32_small by words.
    split; cbn [dc_mtu dc_list dc_num_msgs dc_list_size length]; try done; try apply Hw;
      try lia.
    + constructor; [done|]. rewrite <- Hmtu. apply Hw1.
    + rewrite fmap_cons. constructor; [|apply Hw1]. rewrite Hfid. intros (mc1 & Hmc1 & Hin)%list_elem_of_fmap.
      apply Ei. rewrite Hmc1. apply list_elem_of_fmap_2. by apply Hsub.
  - intros mc1 [->|Hin]%elem_of_cons; [by right|left; by apply Hsub].
  - right. split_and!; try done. intros Hlt. by rewrite Hkeep.
Qed.

(** A fragment the receiver can place: sizes in range, an offset that is a
    multiple of the payload size, and a payload inside the message. *)
Record placeable (mtu : Z) (m : list Z) (bit : Z) : Prop := {
  pl_size : sizeof_FragmentHeader <= msg_size m <= mtu;
  pl_total : sizeof_MessageHeader <= rd16 8 m < 2 ^ 16;
  pl_off : rd16 10 m = bit * payload mtu;
  pl_bit : 0 <= bit;
  pl_start : bit * payload mtu < rd16 8 m;
  pl_end : bit * payload mtu + (msg_size m - sizeof_FragmentHeader) <= rd16 8 m;
}.

Definition frag_payload (m : list Z) : list Z :=
  slice 12 (Z.to_nat (msg_size m - sizeof_FragmentHeader)) m.

(** What [process_fragment] does with a fragment it accepts, for the message
    context [mc] at position [i] of the list [l]. *)
Record accepted (now : GNUNET_TIME_Absolute) (dc : GNUNET_DEFRAGMENT_Context) (m : list Z)
  (bit : Z) (l : list MessageContext) (i : nat) (mc mc' : MessageContext) (dup : bool)
  (r : GNUNET_DEFRAGMENT_Context * Z * option (list Z)) : Prop := {
  ac_place : placeable (dc_mtu dc) m bit;
  ac_at : l !! i = Some mc;
  ac_fid : mc_fragment_id mc = rd32 4 m;
  ac_total : mc_total_size mc = rd16 8 m;
  ac_origin : forall mc1, mc1 ∈ l -> mc1 ∈ dc_list dc \/
    mc1 = mc /\ mc_bits mc = low_bits (nfrags (dc_mtu dc) (rd16 8 m));
  ac_room : l = dc_list dc \/ (rd32 4 m ∉ mc_fragment_id <$> dc_list dc)
    /\ mc_bits mc = low_bits (nfrags (dc_mtu dc) (rd16 8 m))
    /\ (dc_list_size dc < dc_num_msgs dc -> l = mc :: dc_list dc);
  ac_list : forall mc1, mc1 ∈ l -> mc_wf (dc_mtu dc) mc1;
  ac_store : store_fragment now (dc_mtu dc) bit (frag_payload m) mc = Some (mc', dup);
  ac_result : exists lat lsize delay,
    r = (mk_dc (<[i := set_ack mc' delay dup]> l) lat (dc_num_msgs dc) lsize (dc_mtu dc),
         if dup then GNUNET_NO else GNUNET_YES,
         if negb dup && (0 =? mc_bits mc') then Some (mc_msg mc') else None);
  ac_wf : dc_wf r.1.1;
}.

(** Why a fragment is rejected: it cannot be placed, or it contradicts the size
    announced by an earlier fragment of the same message. *)
Definition rejected (dc : GNUNET_DEFRAGMENT_Context) (m : list Z) : Prop :=
  (forall bit, ~ placeable (dc_mtu dc) m bit)
  \/ exists mc, mc ∈ dc_list dc /\ mc_fragment_id mc = rd32 4 m /\ mc_total_size mc <> rd16 8 m.

Lemma set_ack_wf mtu mc d dup : mc_wf mtu mc -> mc_wf mtu (set_ack mc d dup).
Proof. intros []. by split. Qed.

Lemma dc_wf_update l lat num lsize mtu i mc mc' :
  dc_wf (mk_dc l lat num lsize mtu) -> l !! i = Some mc -> mc_wf mtu mc' ->
  mc_fragment_id mc' = mc_fragment_id mc ->
  dc_wf (mk_dc (<[i := mc']> l) lat num lsize mtu).
Proof.
  intros [? Hl Hnd ? Hs ?] Hi Hmc' Hfid. cbn in *.
  split; cbn [dc_mtu dc_list dc_num_msgs dc_list_size]; try done.
  - by apply Forall_insert.
  - rewrite list_fmap_insert, list_insert_id; [done|].
    rewrite list_lookup_fmap, Hi. cbn. by f_equal.
  - by rewrite length_insert.
Qed.

Lemma frag_payload_length m :
  sizeof_FragmentHeader <= msg_size m <= Z.of_nat (length m) ->
  Z.of_nat (length (frag_payload m)) = msg_size m - sizeof_FragmentHeader.
Proof.
  intros H. unfold frag_payload, sizeof_FragmentHeader in *. rewrite length_slice; lia.
Qed.

Lemma placeable_offset mtu m bit :
  mtu_ok mtu -> placeable mtu m bit -> bit = rd16 10 m / payload mtu.
Proof.
  intros Hmtu []. pose proof (payload_range mtu Hmtu).
  rewrite pl_off0, Z.div_mul; lia.
Qed.

(** An accepted fragment, once the checks on its header have passed. *)
Lemma accept_spec now dc m bit l lsize i mc :
  dc_wf dc -> bytes_ok m -> msg_size m <= Z.of_nat (length m) ->
  placeable (dc_mtu dc) m bit -> l !! i = Some mc -> mc_total_size mc = rd16 8 m ->
  (forall lat, dc_wf (mk_dc l lat (dc_num_msgs dc) lsize (dc_mtu dc))) ->
  exists mc' dup lat, store_fragment now (dc_mtu dc) bit (frag_payload m) mc = Some (mc', dup)
    /\ mc_wf (dc_mtu dc) mc' /\ mc_fragment_id mc' = mc_fragment_id mc
    /\ (if 1 <? u32 (mc_write_offset mc' - mc_start_offset mc')
        then estimate_latency undef mc' else Some (dc_latency dc)) = Some lat.
Proof.
  intros Hw Hb Hlen Hpl Hi Htot Hwf. pose proof (dw_mtu dc Hw) as Hmtu.
  assert (mc_wf (dc_mtu dc) mc) as Hmc.
  { pose proof (dw_list _ (Hwf (dc_latency dc))) as Hall. cbn in Hall.
    by eapply Forall_lookup_1. }
  pose proof (frag_payload_length m (conj (proj1 (pl_size _ _ _ Hpl)) Hlen)) as Hpay.
  destruct (store_fragment_spec now (dc_mtu dc) bit (frag_payload m) mc Hmtu Hmc
    (bytes_ok_slice _ _ _ Hb) (pl_bit _ _ _ Hpl)) as (mc' & dup & Est & Hmc' & Hsame & _);
    [rewrite Htot; apply Hpl|rewrite Htot, Hpay; apply Hpl|].
  injection Hsame as Hf' Ht'. exists mc', dup.
  destruct (Z.ltb_spec 1 (u32 (mc_write_offset mc' - mc_start_offset mc'))) as [Hlt|].
  - destruct (estimate_latency_total _ mc' Hmtu Hmc' Hlt) as (d & -> & _). by exists d.
  - by exists (dc_latency dc).
Qed.

(** The case of a fragment that cannot be placed. *)
Ltac reject := left; split; [done|left; intros ? Hpl'; destruct Hpl'; nia].

(** Every input is either rejected, leaving the context as it was, or accepted. *)
Lemma process_fragment_spec now dc m :
  dc_wf dc -> bytes_ok m -> msg_size m <= Z.of_nat (length m) ->
  GNUNET_DEFRAGMENT_process_fragment undef now dc m = Some (dc, GNUNET_SYSERR, None)
    /\ rejected dc m
  \/ exists bit l i mc mc' dup r,
      GNUNET_DEFRAGMENT_process_fragment undef now dc m = Some r
      /\ accepted now dc m bit l i mc mc' dup r.
Proof.
  intros Hw Hb Hlen. pose proof (dw_mtu dc Hw) as Hmtu.
  pose proof (payload_range _ Hmtu) as HP.
  pose proof (fun bit => placeable_offset (dc_mtu dc) m bit Hmtu) as Hbit'.
  pose proof (rd16_range 8 m Hb) as Hr8. pose proof (rd16_range 10 m Hb) as Hr10.
  unfold GNUNET_DEFRAGMENT_process_fragment. fold (payload (dc_mtu dc)).
  destruct (Z.ltb_spec (msg_size m) sizeof_FragmentHeader) as [|H1]; [reject|].
  destruct (Z.ltb_spec (dc_mtu dc) (msg_size m)) as [|H2]; [reject|].
  destruct (Z.ltb_spec (rd16 8 m) sizeof_MessageHeader) as [|H3]; [reject|].
  destruct (Z.leb_spec (rd16 8 m) (rd16 10 m)) as [|H4]; [reject|].
  destruct (Z.eqb_spec 0 (rd16 10 m mod payload (dc_mtu dc))) as [H5|H5]; cbn [negb].
  2:{ left; split; [done|left]. intros bit [_ _ Ho _ _ _]. rewrite Ho, Z.mod_mul in H5; lia. }
  assert (rd16 10 m = rd16 10 m / payload (dc_mtu dc) * payload (dc_mtu dc)) as Hoff.
  { pose proof (Z.div_mod (rd16 10 m) (payload (dc_mtu dc)) ltac:(lia)). lia. }
  assert (0 <= rd16 10 m / payload (dc_mtu dc) <= rd16 10 m) as Hbit.
  { split; [apply Z.div_pos; words|]. apply Z.div_le_upper_bound; [words|unfold is_u16 in *; nia]. }
  rewrite (u32_small (rd16 10 m / _)) by words.
  set (bit := rd16 10 m / payload (dc_mtu dc)) in *.
  destruct (Z.ltb_spec (rd16 8 m) (bit * payload (dc_mtu dc) + msg_size m - sizeof_FragmentHeader))
    as [|H6].
  { left; split; [done|left]. intros b Hpl. rewrite (Hbit' b Hpl) in Hpl. destruct Hpl. lia. }
  set (same := match _ ≫= _ with Some mc => _ | None => _ end).
  destruct same eqn:Esame.
  { left; split; [done|right]. unfold same in Esame.
    destruct (mc_index _ _) as [i|] eqn:Ei; cbn in Esame; [|done].
    destruct (mc_index_Some _ _ _ Ei) as (mc & Hl & Hfid). rewrite Hl in Esame.
    exists mc. apply negb_true_iff, Z.eqb_neq in Esame. split_and!; [|done|done].
    by eapply list_elem_of_lookup_2. }
  right. assert (placeable (dc_mtu dc) m bit) as Hpl by (split; words || lia).
  destruct (locate_mc_spec now dc (rd32 4 m) (rd16 8 m) Hw (rd32_range _ _ Hb) (pl_total _ _ _ Hpl))
    as (l & lsize & i & mc & El & Hi & Hfid & Htot & Hwf & Horig & Hroom).
  { unfold same in Esame. destruct (_ ≫= _); [|done]. apply negb_false_iff, Z.eqb_eq in Esame. done. }
  rewrite El, Hi. fold (frag_payload m).
  destruct (accept_spec now dc m bit l lsize i mc Hw Hb Hlen Hpl Hi Htot Hwf)
    as (mc' & dup & lat & Est & Hmc' & Hf' & Elat).
  rewrite Est, Elat. do 6 eexists. eexists (_, _, _). split; [reflexivity|]. split; try done.
  - intros mc1 Hin. pose proof (dw_list _ (Hwf lat)) as Hall. cbn in Hall.
    rewrite Forall_forall in Hall. by apply Hall.
  - by eexists _, _, _.
  - cbn [fst]. eapply dc_wf_update; [apply Hwf|done|by apply set_ack_wf|done].
Qed.

End Facts.

(** ** Runs of the receiver *)

(** Messages received, each with the clock reading at its arrival; the result
    is the final context and the messages delivered, in order, each with the
    identifier of the fragment that completed it. *)
Fixpoint defrag_run (undef : double -> Z) (dc : GNUNET_DEFRAGMENT_Context)
  (inputs : list (GNUNET_TIME_Absolute * list Z))
  : option (GNUNET_DEFRAGMENT_Context * list (Z * list Z)) :=
  match inputs with
  | [] => Some (dc, [])
  | (now, m) :: inputs' =>
      let? (dc', _, d) := GNUNET_DEFRAGMENT_process_fragment undef now dc m in
      let? (dc'', ds) := defrag_run undef dc' inputs' in
      Some (dc'', match d with Some x => (rd32 4 m, x) :: ds | None => ds end)
  end.

(** A received message: bytes, and at least as many as its header announces. *)
Definition received_ok (i : GNUNET_TIME_Absolute * list Z) : Prop :=
  bytes_ok i.2 /\ msg_size i.2 <= Z.of_nat (length i.2).

Section Pieces.
Variables (mtu : Z) (msg : list Z).
Hypothesis Hmtu : mtu_ok mtu.
Hypothesis Hmsg : msg_wf msg.

Let P := payload mtu.
Let size := msg_size msg.

(** The buffer agrees with the message on the bytes of fragment [i]. *)
Definition agrees_at (buf : list Z) (i : Z) : Prop :=
  forall j, i * P <= Z.of_nat j < i * P + Z.min P (size - i * P) -> buf !! j = msg !! j.

(** Buffers that agree on every fragment are the message. *)
Lemma agrees_everywhere buf :
  Z.of_nat (length buf) = size ->
  (forall i, 0 <= i < nfrags mtu size -> agrees_at buf i) -> buf = msg.
Proof.
  intros Hl Hall. apply list_eq. intros j.
  pose proof (payload_range mtu Hmtu) as HP. fold P in HP.
  pose proof (msg_len msg Hmsg) as Hml. fold size in Hml.
  destruct (decide (Z.of_nat j < size)) as [Hj|Hj].
  - pose proof (nfrags_bounds mtu size Hmtu) as Hn. fold P in Hn.
    pose proof (Z.div_mod (Z.of_nat j) P ltac:(lia)).
    pose proof (Z.mod_pos_bound (Z.of_nat j) P ltac:(lia)).
    pose proof (Z.div_pos (Z.of_nat j) P ltac:(lia) ltac:(lia)).
    apply (Hall (Z.of_nat j / P)); nia.
  - rewrite !lookup_ge_None_2 by lia. done.
Qed.

(** Copying fragment [b] in makes its bytes agree and keeps the others. *)
Lemma splice_agrees buf b i :
  Z.of_nat (length buf) = size -> 0 <= b < nfrags mtu size -> 0 <= i < nfrags mtu size ->
  i = b \/ agrees_at buf i ->
  agrees_at (splice (Z.to_nat (b * P)) (piece mtu msg b) buf) i.
Proof.
  intros Hl Hb Hi Hag j Hj. pose proof (payload_range mtu Hmtu) as HP. fold P in HP.
  pose proof (msg_len msg Hmsg) as Hml. fold size in Hml.
  pose proof (length_piece mtu msg Hmtu Hmsg b Hb) as Hlp. fold P size in Hlp.
  pose proof (offset_range mtu msg Hmtu b Hb) as Hob. fold P size in Hob.
  rewrite lookup_splice by lia. case_decide as Hin.
  - unfold piece. fold P size. rewrite lookup_slice by lia. f_equal. lia.
  - destruct Hag as [->|Hag]; [lia|]. by apply Hag.
Qed.

End Pieces.

(** ** Fragments of honest senders *)

Section Honest.
Variable undef : double -> Z.
(** The message each sender identifier stands for. *)
Variable msg_of : Z -> list Z.
Variable mtu : Z.
Hypothesis Hmtu : mtu_ok mtu.

(** A fragment as the fragmenter assembles it. *)
Definition honest_for (fid b : Z) (m : list Z) : Prop :=
  is_u32 fid /\ msg_wf (msg_of fid) /\ 0 <= b < nfrags mtu (msg_size (msg_of fid))
  /\ m = assemble mtu fid (msg_of fid) b.

(** What is not missing has been copied from the message. *)
Record faithful (mc : MessageContext) : Prop := {
  fa_msg : msg_wf (msg_of (mc_fragment_id mc));
  fa_size : mc_total_size mc = msg_size (msg_of (mc_fragment_id mc));
  fa_data : forall i, 0 <= i < nfrags mtu (msg_size (msg_of (mc_fragment_id mc))) ->
    Z.testbit (mc_bits mc) i = false ->
    agrees_at mtu (msg_of (mc_fragment_id mc)) (mc_msg mc) i;
}.

Lemma assemble_payload fid b m :
  honest_for fid b m -> frag_payload m = piece mtu (msg_of fid) b.
Proof.
  intros (Hf & Hm & Hb & ->). unfold frag_payload.
  destruct (assemble_fields mtu fid _ Hmtu Hf Hm b Hb) as (-> & _ & _ & _ & _ & Hd).
  unfold slice. rewrite Hd. apply take_ge.
  pose proof (length_piece mtu _ Hmtu Hm b Hb) as Hl.
  pose proof (frag_size_spec mtu _ Hmtu (msg_size_pos _ Hm) b Hb) as [-> _]. lia.
Qed.

Lemma honest_received now fid b m : honest_for fid b m -> received_ok (now, m).
Proof.
  intros (Hf & Hm & Hb & ->). split; [by apply assemble_bytes|]. cbn [snd].
  destruct (assemble_fields mtu fid _ Hmtu Hf Hm b Hb) as (-> & _).
  by rewrite (length_assemble mtu fid _ Hmtu Hm b Hb).
Qed.

(** Storing an honest fragment in its own context. *)
Lemma store_faithful now fid b m mc mc' dup :
  honest_for fid b m -> mc_wf mtu mc -> faithful mc -> mc_fragment_id mc = fid ->
  store_fragment now mtu b (frag_payload m) mc = Some (mc', dup) ->
  faithful mc' /\ mc_wf mtu mc' /\ mc_fragment_id mc' = fid
  /\ dup = negb (Z.testbit (mc_bits mc) b)
  /\ (forall i, Z.testbit (mc_bits mc') i = Z.testbit (mc_bits mc) i && negb (b =? i))
  /\ (mc_bits mc' = 0 -> mc_msg mc' = msg_of fid).
Proof.
  intros Hh Hw Hfa Hfid Hst. pose proof Hh as (Hf & Hm & Hb & _).
  rewrite (assemble_payload fid b m Hh) in Hst.
  pose proof (length_piece mtu _ Hmtu Hm b Hb) as Hlp.
  pose proof (offset_range mtu _ Hmtu b Hb) as Hob.
  pose proof (fa_size mc Hfa) as Hsz. rewrite Hfid in Hsz.
  destruct (store_fragment_spec now mtu b (piece mtu (msg_of fid) b) mc Hmtu Hw)
    as (mc1 & dup1 & E & Hw' & Hsame & Hdup & Hbuf & Hbits); try lia.
  { apply bytes_ok_slice, Hm. }
  rewrite Hst in E. injection E as <- <-. injection Hsame as Hf' Ht'.
  pose proof (mw_len mtu mc Hw) as Hlen.
  assert (faithful mc') as Hfa'.
  { split; rewrite Hf', Hfid; [done|congruence|]. intros i Hi Hclear. rewrite Hbuf, Hdup.
    rewrite Hbits in Hclear. pose proof (fa_data mc Hfa i) as Hold. rewrite Hfid in Hold.
    destruct (Z.testbit (mc_bits mc) b) eqn:Eb; cbn [negb].
    - apply splice_agrees; try done; [lia|].
      destruct (Z.eqb_spec b i) as [->|]; [by left|right]. apply Hold; [done|].
      by rewrite andb_true_r in Hclear.
    - apply Hold; [done|]. destruct (Z.eqb_spec b i) as [->|]; [done|].
      by rewrite andb_true_r in Hclear. }
  split_and!; try done; [congruence|]. intros H0.
  apply (agrees_everywhere mtu (msg_of fid) Hmtu Hm).
  - rewrite (mw_len mtu mc' Hw'). congruence.
  - intros i Hi. pose proof (fa_data mc' Hfa' i) as Hd. rewrite Hf', Hfid in Hd.
    apply Hd; [done|]. by rewrite H0, Z.bits_0.
Qed.

(** An honest fragment that is accepted is placed at its own number. *)
Lemma honest_bit fid b m bit : honest_for fid b m -> placeable mtu m bit -> bit = b.
Proof.
  intros (Hf & Hm & Hb & ->) Hpl. pose proof (pl_off _ _ _ Hpl) as Ho.
  destruct (assemble_fields mtu fid _ Hmtu Hf Hm b Hb) as (_ & _ & _ & _ & Ho' & _).
  pose proof (payload_range mtu Hmtu). rewrite Ho' in Ho. nia.
Qed.

(** Identifiers that only honest senders use; fragments with any other
    identifier are arbitrary. *)
Variable genuine_id : Z -> Prop.

Definition genuine (m : list Z) : Prop :=
  genuine_id (rd32 4 m) -> exists b, honest_for (rd32 4 m) b m.

Definition all_faithful (l : list MessageContext) : Prop :=
  Forall (fun mc => genuine_id (mc_fragment_id mc) -> faithful mc) l.

Lemma fresh_faithful fid b m mc :
  honest_for fid b m -> mc_fragment_id mc = fid -> mc_total_size mc = msg_size (msg_of fid) ->
  mc_bits mc = low_bits (nfrags mtu (msg_size (msg_of fid))) -> faithful mc.
Proof.
  intros (_ & Hm & _) Hfid Htot Hnew. split; rewrite Hfid; [done|done|]. intros i Hi Hc.
  pose proof (nfrags_range _ _ Hmtu (msg_size_pos _ Hm)).
  rewrite Hnew, testbit_low_bits in Hc by lia. apply Z.ltb_ge in Hc. lia.
Qed.

Lemma honest_fields fid b m :
  honest_for fid b m -> rd32 4 m = fid /\ rd16 8 m = msg_size (msg_of fid).
Proof.
  intros (Hf & Hm & Hb & ->).
  by destruct (assemble_fields _ fid _ Hmtu Hf Hm b Hb) as (_ & _ & Hx & Hy & _ & _).
Qed.

(** Accepting a fragment keeps the contexts of genuine messages faithful and
    delivers only the message. *)
Lemma accepted_faithful now dc m bit l i mc mc' dup dc' code d :
  dc_mtu dc = mtu -> all_faithful (dc_list dc) -> genuine m ->
  accepted now dc m bit l i mc mc' dup (dc', code, d) ->
  all_faithful l /\ all_faithful (dc_list dc')
  /\ (genuine_id (rd32 4 m) -> d = Some (mc_msg mc') -> mc_msg mc' = msg_of (rd32 4 m)).
Proof.
  intros Hdm Hfa Hg [Hpl Hat Hfid Htot Horig _ Hall Hst (lat & lsize & delay & Er) _].
  rewrite Hdm in *. apply pair_equal_spec in Er as [[-> ->]%pair_equal_spec ->].
  assert (all_faithful l) as Hfl.
  { apply Forall_forall. intros mc1 Hin Hgen. destruct (Horig mc1 Hin) as [Hold|[-> Hnew]].
    - unfold all_faithful in Hfa. rewrite Forall_forall in Hfa. by apply Hfa.
    - rewrite Hfid in Hgen. destruct (Hg Hgen) as [b Hh].
      destruct (honest_fields _ _ _ Hh) as [_ Hsz]. rewrite Hsz in *.
      by eapply fresh_faithful. }
  assert (genuine_id (rd32 4 m) -> faithful mc' /\ (mc_bits mc' = 0 -> mc_msg mc' = msg_of (rd32 4 m)))
    as Hmc'.
  { intros Hgen. destruct (Hg Hgen) as [b Hh]. rewrite (honest_bit _ b m bit Hh Hpl) in Hst.
    destruct (store_faithful now _ b m mc mc' dup Hh) as (Hfa' & _ & _ & _ & _ & Hdel); try done.
    - apply Hall. by eapply list_elem_of_lookup_2.
    - apply (Forall_lookup_1 _ _ _ _ Hfl Hat). by rewrite Hfid. }
  assert (mc_fragment_id mc' = rd32 4 m) as Hf'.
  { unfold store_fragment in Hst. repeat case_match; simplify_eq; done. }
  split_and!; [done| |].
  - cbn [dc_list]. apply Forall_insert; [done|]. cbn. rewrite Hf'. intros Hgen.
    destruct (Hmc' Hgen) as [[] _]. by split.
  - intros Hgen. destruct (negb dup && (0 =? mc_bits mc')) eqn:Ed; [|done].
    apply andb_true_iff in Ed as [_ H0%Z.eqb_eq]. intros _. by apply Hmc'.
Qed.

Lemma genuine_step now dc m :
  dc_wf dc -> dc_mtu dc = mtu -> all_faithful (dc_list dc) -> received_ok (now, m) -> genuine m ->
  exists dc' code d,
    GNUNET_DEFRAGMENT_process_fragment undef now dc m = Some (dc', code, d)
    /\ dc_wf dc' /\ dc_mtu dc' = mtu /\ dc_num_msgs dc' = dc_num_msgs dc
    /\ all_faithful (dc_list dc')
    /\ (forall x, genuine_id (rd32 4 m) -> d = Some x -> x = msg_of (rd32 4 m)).
Proof.
  intros Hw Hdm Hfa [Hby Hle] Hg.
  destruct (process_fragment_spec undef now dc m Hw Hby Hle)
    as [[-> _]|(bit & l & i & mc & mc' & dup & [[dc' code] d] & -> & Hac)].
  { by exists dc, GNUNET_SYSERR, None. }
  exists dc', code, d.
  destruct (accepted_faithful _ _ _ _ _ _ _ _ _ _ _ _ Hdm Hfa Hg Hac) as (_ & Hfa' & Hd).
  pose proof (ac_wf _ _ _ _ _ _ _ _ _ _ Hac) as Hw'.
  destruct (ac_result _ _ _ _ _ _ _ _ _ _ Hac) as (lat & lsize & delay & Er).
  split_and!; try done.
  - by injection Er as -> _ _.
  - by injection Er as -> _ _.
  - intros x Hgen ->. injection Er as _ _ Ed. case_match; [|done]. injection Ed as ->.
    by apply Hd.
Qed.

(** Any sequence of received messages is processed without a failure. *)
Lemma genuine_run inputs dc :
  dc_wf dc -> dc_mtu dc = mtu -> all_faithful (dc_list dc) ->
  Forall (fun i => received_ok i /\ genuine i.2) inputs ->
  exists dc' ds, defrag_run undef dc inputs = Some (dc', ds) /\ dc_wf dc' /\ dc_mtu dc' = mtu
    /\ dc_num_msgs dc' = dc_num_msgs dc
    /\ Forall (fun p => genuine_id p.1 -> p.2 = msg_of p.1) ds.
Proof.
  revert dc. induction inputs as [|[now m] inputs IH]; intros dc Hw Hdm Hfa Hin; cbn [defrag_run].
  { by eexists _, _. }
  apply Forall_cons in Hin as [[Hok Hg] Hin]. cbn [snd] in Hg.
  destruct (genuine_step now dc m Hw Hdm Hfa Hok Hg) as (dc1 & code & d & -> & Hw1 & Hm1 & Hn1 & Hfa1 & Hd).
  destruct (IH dc1 Hw1 Hm1 Hfa1 Hin) as (dc2 & ds & -> & Hw2 & Hm2 & Hn2 & Hds).
  eexists _, _. split_and!; try done; [congruence|].
  destruct d; [|done]. constructor; [|done]. cbn. eauto.
Qed.

End Honest.

(** ** Completing a message *)

Section Complete.
Variable undef : double -> Z.
Variables (mtu fid : Z) (msg : list Z).
Hypothesis Hmtu : mtu_ok mtu.
Hypothesis Hmsg : msg_wf msg.

Let n := nfrags mtu (msg_size msg).

(** Fragment [b] of the message of interest; fragments with its identifier are
    fragments of the message, the others are arbitrary. *)
Definition fragment_of (b : Z) (m : list Z) : Prop := honest_for (fun _ => msg) mtu fid b m.
Definition genuine1 (m : list Z) : Prop := genuine (fun _ => msg) mtu (eq fid) m.
Definition faithful1 (dc : GNUNET_DEFRAGMENT_Context) : Prop :=
  all_faithful (fun _ => msg) mtu (eq fid) (dc_list dc).

Definition ids (dc : GNUNET_DEFRAGMENT_Context) : list Z := mc_fragment_id <$> dc_list dc.

(** The fragments of the message the receiver still misses. *)
Definition misses (dc : GNUNET_DEFRAGMENT_Context) (w : Z) : Prop :=
  ((fid ∉ ids dc) /\ w = low_bits n)
  \/ exists mc, mc ∈ dc_list dc /\ mc_fragment_id mc = fid /\ mc_bits mc = w.

(** A genuine fragment is never rejected. *)
Lemma genuine_not_rejected dc b m :
  dc_mtu dc = mtu -> faithful1 dc -> fragment_of b m -> ~ rejected dc m.
Proof.
  intros Hdm Hfa Hh. destruct (honest_fields _ mtu Hmtu _ _ _ Hh) as [Hid Htot].
  pose proof Hh as (Hf & Hm & Hb & Em). pose proof (msg_size_pos _ Hm) as Hpos.
  intros [Hno|(mc & Hin & Hmid & Hne)].
  - apply (Hno b). rewrite Hdm.
    destruct (assemble_fields _ fid _ Hmtu Hf Hm _ Hb) as (Hs & _ & _ & Hy & Ho & _).
    pose proof (frag_size_spec _ _ Hmtu Hpos _ Hb) as [Hfs Hle].
    pose proof (payload_range _ Hmtu). pose proof (offset_range _ _ Hmtu _ Hb) as Hor.
    rewrite <- Em in Hs, Ho, Hy. pose proof (msg_min _ Hm).
    split; unfold payload, sizeof_FragmentHeader, sizeof_MessageHeader in *; lia.
  - unfold faithful1, all_faithful in Hfa. rewrite Forall_forall in Hfa.
    destruct (Hfa mc Hin) as [_ Hsz _]; [by rewrite Hmid|]. congruence.
Qed.

Section Accepted.
Variables (now : GNUNET_TIME_Absolute) (dc : GNUNET_DEFRAGMENT_Context) (m : list Z) (w : Z).
Variables (bit : Z) (l : list MessageContext) (i : nat) (mc mc' : MessageContext) (dup : bool).
Variables (dc' : GNUNET_DEFRAGMENT_Context) (code : Z) (d : option (list Z)).
Hypothesis Hw : dc_wf dc.
Hypothesis Hdm : dc_mtu dc = mtu.
Hypothesis Hfa : faithful1 dc.
Hypothesis Hg : genuine1 m.
Hypothesis Hmiss : misses dc w.
Hypothesis Hroom : rd32 4 m ∉ ids dc -> dc_list_size dc < dc_num_msgs dc.
Hypothesis Hac : accepted now dc m bit l i mc mc' dup (dc', code, d).

(** Either the message context existed or a new one was put in front. *)
Lemma accepted_list :
  l = dc_list dc
  \/ (rd32 4 m ∉ ids dc) /\ l = mc :: dc_list dc
     /\ mc_bits mc = low_bits (nfrags (dc_mtu dc) (rd16 8 m)).
Proof.
  destruct (ac_room _ _ _ _ _ _ _ _ _ _ Hac) as [E|(Hnot & Hb & Hl)]; [by left|right].
  auto.
Qed.

Lemma accepted_ids x : x ∈ ids dc' <-> x ∈ ids dc \/ x = rd32 4 m.
Proof.
  destruct (ac_result _ _ _ _ _ _ _ _ _ _ Hac) as (lat & lsize & delay & Er).
  apply pair_equal_spec in Er as [[E _]%pair_equal_spec _].
  pose proof (ac_at _ _ _ _ _ _ _ _ _ _ Hac) as Hat.
  pose proof (ac_fid _ _ _ _ _ _ _ _ _ _ Hac) as Hid.
  pose proof (ac_store _ _ _ _ _ _ _ _ _ _ Hac) as Hst.
  assert (ids dc' = mc_fragment_id <$> l) as ->.
  { rewrite E. unfold ids. cbn [dc_list]. rewrite list_fmap_insert. apply list_insert_id.
    rewrite list_lookup_fmap, Hat. cbn. f_equal.
    unfold store_fragment in Hst. by repeat case_match; simplify_eq. }
  apply list_elem_of_lookup_2 in Hat.
  destruct accepted_list as [->|(Hnot & -> & _)].
  - split; [by left|]. intros [Hx | ->]; [done|]. rewrite <- Hid. by apply list_elem_of_fmap_2.
  - rewrite fmap_cons, elem_of_cons, Hid. unfold ids. tauto.
Qed.

(** Fragments of other messages leave this one alone. *)
Lemma accepted_other : rd32 4 m <> fid -> misses dc' w.
Proof.
  intros Hne. destruct Hmiss as [[Hnot ->]|(mc0 & Hin & Hid0 & Hw0)].
  { left. split; [|done]. rewrite accepted_ids. intros [?|?]; [done|congruence]. }
  right. exists mc0. split_and!; try done.
  destruct (ac_result _ _ _ _ _ _ _ _ _ _ Hac) as (lat & lsize & delay & Er).
  apply pair_equal_spec in Er as [[Ed _]%pair_equal_spec _]; rewrite Ed. cbn [dc_list].
  pose proof (ac_at _ _ _ _ _ _ _ _ _ _ Hac) as Hat.
  pose proof (ac_fid _ _ _ _ _ _ _ _ _ _ Hac) as Hid.
  assert (mc0 ∈ l) as [j Hj]%list_elem_of_lookup.
  { destruct accepted_list as [->|(_ & -> & _)]; [done|by right]. }
  apply (list_elem_of_lookup_2 _ j). rewrite list_lookup_insert_ne; [done|].
  intros ->. rewrite Hat in Hj. simplify_eq. congruence.
Qed.

(** The context used for a fragment of this message holds what is missing. *)
Lemma accepted_bits : rd32 4 m = fid -> rd16 8 m = msg_size msg -> mc_bits mc = w.
Proof.
  intros Hidm Hszm. pose proof (ac_at _ _ _ _ _ _ _ _ _ _ Hac) as Hat.
  pose proof (ac_fid _ _ _ _ _ _ _ _ _ _ Hac) as Hid.
  destruct accepted_list as [->|(Hnot & -> & Hb)], Hmiss as [[Hnot' ->]|(mc0 & Hin & Hid0 & <-)].
  - exfalso. apply Hnot'. unfold ids. rewrite <- Hidm, <- Hid.
    by eapply list_elem_of_fmap_2, list_elem_of_lookup_2.
  - apply list_elem_of_lookup in Hin as [j Hj].
    assert (i = j) as ->; [|congruence].
    eapply (NoDup_lookup _ _ _ fid (dw_nodup _ Hw)); rewrite list_lookup_fmap; [rewrite Hat|rewrite Hj];
      cbn; congruence.
  - rewrite Hb, Hdm, Hszm. done.
  - exfalso. apply Hnot. unfold ids. rewrite Hidm, <- Hid0. by apply list_elem_of_fmap_2.
Qed.

Lemma accepted_own b :
  fragment_of b m ->
  exists w', misses dc' w' /\ (forall j, Z.testbit w' j = Z.testbit w j && negb (b =? j))
    /\ d = if Z.testbit w b && (0 =? w') then Some msg else None.
Proof.
  intros Hh. destruct (honest_fields _ mtu Hmtu _ _ _ Hh) as [Hidm Hszm].
  destruct (accepted_faithful (fun _ => msg) mtu Hmtu (eq fid) now dc m bit l i mc mc' dup
    dc' code d Hdm Hfa Hg Hac) as (Hfl & _ & _).
  pose proof Hac as [Hpl Hat Hid _ _ _ Hall Hst (lat & lsize & delay & Er) _].
  rewrite Hdm in Hpl, Hall, Hst, Er. rewrite (honest_bit _ _ Hmtu _ b m bit Hh Hpl) in Hst.
  destruct (store_faithful (fun _ => msg) mtu Hmtu now fid b m mc mc' dup Hh)
    as (_ & _ & Hid' & Hdup & Hbits & Hdel); try done.
  { apply Hall. by eapply list_elem_of_lookup_2. }
  { apply (Forall_lookup_1 _ _ _ _ Hfl Hat). congruence. }
  { congruence. }
  rewrite (accepted_bits Hidm Hszm) in Hbits, Hdup.
  apply pair_equal_spec in Er as [[-> ->]%pair_equal_spec ->]. exists (mc_bits mc'). split_and!; try done.
  - right. exists (set_ack mc' delay dup). split_and!; try done. cbn [dc_list].
    apply list_elem_of_insert. by eapply lookup_lt_Some.
  - rewrite Hdup, negb_involutive. destruct (Z.testbit w b && (0 =? mc_bits mc')) eqn:E; [|done].
    apply andb_true_iff in E as [_ E%Z.eqb_eq]. rewrite Hdel; [done|lia].
Qed.

End Accepted.

(** The messages with identifier [fid] among those delivered. *)
Definition of_id (ds : list (Z * list Z)) : list (Z * list Z) := filter (fun p => p.1 = fid) ds.

(** What one input does to the message, when no context has to be evicted. *)
Record progress (dc : GNUNET_DEFRAGMENT_Context) (m : list Z) (w : Z)
  (dc' : GNUNET_DEFRAGMENT_Context) (d : option (list Z)) (w' : Z) : Prop := {
  pr_wf : dc_wf dc';
  pr_mtu : dc_mtu dc' = mtu;
  pr_num : dc_num_msgs dc' = dc_num_msgs dc;
  pr_faithful : faithful1 dc';
  pr_misses : misses dc' w';
  pr_ids : forall x, x ∈ ids dc' -> x ∈ ids dc \/ x = rd32 4 m;
  pr_other : rd32 4 m <> fid -> w' = w;
  pr_own : forall b, fragment_of b m ->
    (forall j, Z.testbit w' j = Z.testbit w j && negb (b =? j))
    /\ d = if Z.testbit w b && (0 =? w') then Some msg else None;
}.

Lemma fragment_unique b b' m : fragment_of b m -> fragment_of b' m -> b = b'.
Proof.
  intros (Hf & Hm & Hb & Em) (_ & _ & Hb' & Em').
  destruct (assemble_fields _ fid _ Hmtu Hf Hm b Hb) as (_ & _ & _ & _ & Ho & _).
  destruct (assemble_fields _ fid _ Hmtu Hf Hm b' Hb') as (_ & _ & _ & _ & Ho' & _).
  rewrite <- Em in Ho. rewrite <- Em' in Ho'. pose proof (payload_range _ Hmtu). nia.
Qed.

Lemma complete_step now dc m w :
  dc_wf dc -> dc_mtu dc = mtu -> faithful1 dc -> received_ok (now, m) -> genuine1 m ->
  misses dc w -> ((rd32 4 m ∉ ids dc) -> dc_list_size dc < dc_num_msgs dc) ->
  exists dc' code d w',
    GNUNET_DEFRAGMENT_process_fragment undef now dc m = Some (dc', code, d)
    /\ progress dc m w dc' d w'.
Proof.
  intros Hw Hdm Hfa Hok Hg Hmiss Hroom.
  destruct (genuine_step undef _ mtu Hmtu (eq fid) now dc m Hw Hdm Hfa Hok Hg)
    as (dc' & code & d & E & Hw' & Hm' & Hn' & Hfa' & _).
  exists dc', code, d. destruct Hok as [Hby Hle].
  destruct (process_fragment_spec undef now dc m Hw Hby Hle)
    as [[E' Hrej]|(bit & l & i & mc & mc' & dup & r & E' & Hac)]; rewrite E in E'.
  { injection E' as -> -> ->. exists w. split; [done|]. split; try done; [by left|].
    intros b Hh. by destruct (genuine_not_rejected dc b m Hdm Hfa Hh). }
  injection E' as <-.
  assert (forall x, x ∈ ids dc' -> x ∈ ids dc \/ x = rd32 4 m) as Hids
    by (intros x; by apply (accepted_ids now dc m bit l i mc mc' dup dc' code d)).
  destruct (decide (rd32 4 m = fid)) as [Hid|Hid].
  - destruct (Hg (eq_sym Hid)) as [b Hh]. rewrite Hid in Hh.
    destruct (accepted_own now dc m w bit l i mc mc' dup dc' code d Hw Hdm Hfa Hg Hmiss Hroom Hac b Hh)
      as (w' & Hw1 & Hbits & Hd).
    exists w'. split; [done|]. split; try done. intros b' Hh'.
    by rewrite (fragment_unique b' b m Hh' Hh).
  - exists w. split; [done|]. split; try done.
    + by eapply accepted_other.
    + intros b Hh. by destruct (honest_fields _ mtu Hmtu _ _ _ Hh).
Qed.

(** With at most as many identifiers around as there are slots, a new one
    always finds a free slot. *)
Lemma free_slot dc known x :
  dc_wf dc -> Z.of_nat (length known) <= dc_num_msgs dc ->
  (forall y, y ∈ ids dc -> y ∈ known) -> x ∈ known -> (x ∉ ids dc) ->
  dc_list_size dc < dc_num_msgs dc.
Proof.
  intros Hw Hlen Hsub Hx Hnot. rewrite (dw_size _ Hw).
  assert (length (x :: ids dc) <= length known)%nat as Hl.
  { apply submseteq_length, NoDup_submseteq.
    - constructor; [done|apply Hw].
    - intros y [->|Hy]%elem_of_cons; auto. }
  unfold ids in Hl. cbn [length] in Hl. rewrite length_fmap in Hl. lia.
Qed.

Definition input_ok (known : list Z) (i : GNUNET_TIME_Absolute * list Z) : Prop :=
  received_ok i /\ genuine1 i.2 /\ rd32 4 i.2 ∈ known.

Lemma complete_run known inputs dc w :
  dc_wf dc -> dc_mtu dc = mtu -> faithful1 dc -> misses dc w ->
  Z.of_nat (length known) <= dc_num_msgs dc -> (forall x, x ∈ ids dc -> x ∈ known) ->
  Forall (input_ok known) inputs ->
  exists dc' ds, defrag_run undef dc inputs = Some (dc', ds)
    /\ (w = 0 -> of_id ds = [])
    /\ (w <> 0 -> (forall b, 0 <= b -> Z.testbit w b = true ->
          exists i, i ∈ inputs /\ fragment_of b i.2) -> of_id ds = [(fid, msg)]).
Proof.
  revert dc w. induction inputs as [|[now m] inputs IH]; intros dc w Hw Hdm Hfa Hmiss Hlen Hsub Hin;
    cbn [defrag_run].
  { eexists _, _. split; [done|]. split; [done|]. intros Hne Hall. exfalso. apply Hne.
    apply Z.bits_inj_0. intros b. destruct (Z.le_gt_cases 0 b); [|by apply Z.testbit_neg_r].
    destruct (Z.testbit w b) eqn:Eb; [|done]. destruct (Hall b) as (i & Hi & _); [done|done|].
    by apply not_elem_of_nil in Hi. }
  apply Forall_cons in Hin as [(Hok & Hg & Hkn) Hin]. cbn [snd] in Hg, Hkn.
  destruct (complete_step now dc m w Hw Hdm Hfa Hok Hg Hmiss) as (dc1 & code & d & w1 & -> & Hp).
  { intros Hnot. by eapply free_slot. }
  destruct Hp as [Hw1 Hm1 Hn1 Hfa1 Hmiss1 Hids1 Hother Hown].
  destruct (IH dc1 w1 Hw1 Hm1 Hfa1 Hmiss1) as (dc2 & ds & -> & H0 & H1); [lia| |done|].
  { intros x [Hx| ->]%Hids1; auto. }
  eexists _, _. split; [done|]. destruct (decide (rd32 4 m = fid)) as [Hid|Hid].
  2:{ rewrite (Hother Hid) in *. assert (of_id (match d with Some x => (rd32 4 m, x) :: ds | None => ds end)
        = of_id ds) as -> by (destruct d; [by apply filter_cons_False|done]).
      split; [done|]. intros Hne Hall. apply H1; [done|]. intros b Hb Hbit.
      destruct (Hall b Hb Hbit) as (i & [->|Hi]%elem_of_cons & Hh); [|by exists i].
      by destruct (honest_fields _ mtu Hmtu _ _ _ Hh). }
  destruct (Hg (eq_sym Hid)) as [b Hh]. rewrite Hid in Hh. destruct (Hown b Hh) as [Hbits ->].
  split.
  - intros ->. rewrite Z.bits_0. apply H0. apply Z.bits_inj_0. intros j. by rewrite Hbits, Z.bits_0.
  - intros Hne Hall. destruct (Z.eqb_spec 0 w1) as [<-|Hne1].
    + replace (Z.testbit w b) with true; cbn [andb].
      { unfold of_id. rewrite filter_cons_True by done. rewrite Hid. f_equal. by apply H0. }
      symmetry. apply not_false_iff_true. intros Hb. apply Hne, Z.bits_inj_0. intros j.
      specialize (Hbits j). rewrite Z.bits_0 in Hbits.
      destruct (Z.eqb_spec b j) as [Ej|]; [by rewrite <- Ej|]. by rewrite andb_true_r in Hbits.
    + rewrite andb_false_r. apply H1; [done|]. intros j Hj Hbj. rewrite Hbits in Hbj.
      apply andb_true_iff in Hbj as [Hwj Hbne]. destruct (Hall j Hj Hwj) as (i & [->|Hi]%elem_of_cons & Hh');
        [|by exists i]. rewrite (fragment_unique _ _ _ Hh Hh'), Z.eqb_refl in Hbne. done.
Qed.

End Complete.

(** ** Theorems *)

Section DefragmentationTheorems.
Variable undef : double -> Z.

Lemma create_wf mtu num_msgs :
  mtu_ok mtu -> 1 <= num_msgs < 2 ^ 32 -> dc_wf (GNUNET_DEFRAGMENT_context_create mtu num_msgs).
Proof. intros Hm Hn. split; cbn; try done; try lia; constructor. Qed.

Lemma context_destroy_spec l :
  Z.of_nat (length l) < 2 ^ 32 ->
  GNUNET_DEFRAGMENT_context_destroy l (Z.of_nat (length l)) = Some tt.
Proof.
  induction l as [|mc l IH]; intros Hl; cbn [length GNUNET_DEFRAGMENT_context_destroy]; [done|].
  cbn [length] in Hl. rewrite u32_small by words.
  replace (Z.of_nat (S (length l)) - 1) with (Z.of_nat (length l)) by lia. apply IH. lia.
Qed.

(** C2. The receiver survives any input: whatever bytes arrive, in whatever
    order and at whatever times, every call of [process_fragment] returns (no
    assertion fails, no copy leaves the message buffer, no time stamp leaves its
    array, no shift exceeds the word), never more messages than configured are
    kept, and the context can be destroyed afterwards. *)
Theorem defragmenter_safe (mtu num_msgs : Z) (inputs : list (GNUNET_TIME_Absolute * list Z)) :
  mtu_ok mtu -> 1 <= num_msgs < 2 ^ 32 -> Forall received_ok inputs ->
  exists dc ds, defrag_run undef (GNUNET_DEFRAGMENT_context_create mtu num_msgs) inputs = Some (dc, ds)
    /\ dc_wf dc /\ Z.of_nat (length (dc_list dc)) <= num_msgs
    /\ GNUNET_DEFRAGMENT_context_destroy (dc_list dc) (dc_list_size dc) = Some tt.
Proof.
  intros Hm Hn Hin.
  destruct (genuine_run undef (fun _ => []) mtu Hm (fun _ => False) inputs
    (GNUNET_DEFRAGMENT_context_create mtu num_msgs)) as (dc & ds & E & Hw & _ & Hnum & _).
  - by apply create_wf.
  - done.
  - constructor.
  - eapply Forall_impl; [exact Hin|]. intros i Hi. split; [done|]. intros [].
  - exists dc, ds. pose proof (dw_size dc Hw). pose proof (dw_bound dc Hw). cbn in Hnum.
    split_and!; try done; [lia|]. rewrite (dw_size dc Hw). apply context_destroy_spec. lia.
Qed.

(** C3. No corruption and no cross-talk: if all fragments that carry one of the
    identifiers of honest senders are fragments of the message that identifier
    stands for, then whatever is lost, duplicated, reordered or interleaved,
    whatever contexts are evicted, and whatever fragments with other identifiers
    contain, each message delivered under an honest identifier is that message. *)
Theorem defragmenter_faithful (msg_of : Z -> list Z) (genuine_id : Z -> Prop) (mtu num_msgs : Z)
  (inputs : list (GNUNET_TIME_Absolute * list Z)) :
  mtu_ok mtu -> 1 <= num_msgs < 2 ^ 32 ->
  Forall (fun i => received_ok i /\ genuine msg_of mtu genuine_id i.2) inputs ->
  exists dc ds, defrag_run undef (GNUNET_DEFRAGMENT_context_create mtu num_msgs) inputs = Some (dc, ds)
    /\ forall fid x, (fid, x) ∈ ds -> genuine_id fid -> x = msg_of fid.
Proof.
  intros Hm Hn Hin.
  destruct (genuine_run undef msg_of mtu Hm genuine_id inputs
    (GNUNET_DEFRAGMENT_context_create mtu num_msgs)) as (dc & ds & E & _ & _ & _ & Hds);
    [by apply create_wf|done|constructor|done|].
  exists dc, ds. split; [done|]. intros fid x Hx. rewrite Forall_forall in Hds.
  apply (Hds (fid, x) Hx).
Qed.

Context {T : Type} `{FC : FlowControl T}.

Lemma low_bits_nonzero mtu m :
  mtu_ok mtu -> msg_wf m -> low_bits (nfrags mtu (msg_size m)) <> 0.
Proof.
  intros Hmtu Hm E0. pose proof (nfrags_range mtu _ Hmtu (msg_size_pos m Hm)).
  pose proof (testbit_low_bits (nfrags mtu (msg_size m)) 0 ltac:(lia) ltac:(lia)) as Hb.
  rewrite E0, Z.bits_0 in Hb. symmetry in Hb. apply Z.ltb_ge in Hb. lia.
Qed.

(** C1. Transfer, end to end: the sender fragments a message in any run of its
    handlers; the network reorders and repeats what it sent and mixes it with
    arbitrary other traffic. All traffic together uses at most [num_msgs] identifiers
    (with more, the receiver discards the oldest message), and only fragments that the
    sender sent come under its identifier. If then every fragment number arrives at least
    once, the receiver delivers the message exactly once, and nothing else under its identifier. *)
Theorem transfer_exactly_once (fid mtu num_msgs : Z) (t : option T) (md ad : GNUNET_TIME_Relative)
  (m : list Z) (fc0 : GNUNET_FRAGMENT_Context T) (out : list (list Z)) (s : frag_state (T := T))
  (known : list Z) (inputs : list (GNUNET_TIME_Absolute * list Z)) :
  mtu_ok mtu -> 1 <= num_msgs < 2 ^ 32 -> is_u32 fid -> rel_wf md -> rel_wf ad -> msg_wf m ->
  match t with Some t => flow_wf t | None => True end ->
  GNUNET_FRAGMENT_context_create fid mtu t md ad m = Some fc0 ->
  frag_run (FRun fc0) out s ->
  Z.of_nat (length known) <= num_msgs ->
  Forall (fun i => received_ok i /\ rd32 4 i.2 ∈ known /\ (rd32 4 i.2 = fid -> i.2 ∈ out)) inputs ->
  (forall b, 0 <= b < nfrags mtu (msg_size m) -> assemble mtu fid m b ∈ inputs.*2) ->
  exists dc ds, defrag_run undef (GNUNET_DEFRAGMENT_context_create mtu num_msgs) inputs = Some (dc, ds)
    /\ of_id fid ds = [(fid, m)].
Proof.
  intros Hmtu Hn Hfid Hmd Had Hm Ht Ec Hrun Hknown Hin Hall.
  destruct (create_spec fid mtu t md ad m Hmtu Hfid Hmd Had Hm Ht)
    as (fc & E & Hw & Em & Eu & Ei & Ea & _ & _). rewrite Ec in E. injection E as <-.
  pose proof (low_bits_nonzero mtu m Hmtu Hm) as Hne.
  destruct (frag_run_inv mtu fid m _ _ _ Hrun) as [_ Hout]; [by rewrite <- Ea in Hne|].
  destruct (complete_run undef mtu fid m Hmtu known inputs
    (GNUNET_DEFRAGMENT_context_create mtu num_msgs) (low_bits (nfrags mtu (msg_size m))))
    as (dc & ds & E & _ & Hdel).
  - by apply create_wf.
  - done.
  - constructor.
  - left. split; [apply not_elem_of_nil|done].
  - done.
  - intros x Hx. by apply not_elem_of_nil in Hx.
  - eapply Forall_impl; [exact Hin|]. intros i (Hok & Hk & Ho). split_and!; try done.
    intros Hid. destruct (Hout _ (Ho (eq_sym Hid))) as (b & Hb & ->). exists b.
    destruct (assemble_fields mtu fid m Hmtu Hfid Hm b Hb) as (_ & _ & -> & _). done.
  - exists dc, ds. split; [done|]. apply Hdel; [done|]. intros b Hb Hbit.
    rewrite testbit_low_bits in Hbit
      by (try lia; pose proof (nfrags_range mtu _ Hmtu (msg_size_pos m Hm)); lia).
    apply Z.ltb_lt in Hbit. destruct (list_elem_of_fmap_1 _ _ _ (Hall b (conj Hb Hbit))) as (i & Ei' & Hi).
    exists i. split; [done|]. split_and!; try done.
Qed.

Lemma send_ack_fields mc :
  is_u32 (mc_fragment_id mc) -> is_u64 (mc_bits mc) ->
  let a := (send_ack mc).2 in
  bytes_ok a /\ msg_size a = sizeof_FragmentAcknowledgement
  /\ rd32 4 a = mc_fragment_id mc /\ rd64 8 a = mc_bits mc.
Proof.
  intros Hf Hb. cbn zeta. unfold send_ack. cbn [snd]. split_and!.
  - unfold bytes_ok. rewrite !Forall_app. split_and!; apply bytes_ok_be_encode.
  - by apply (rd16_field _ []).
  - rewrite (app_assoc (be_encode 2 _)). by apply rd32_field.
  - rewrite (app_assoc (be_encode 2 _)), (app_assoc _ (be_encode 4 _)),
      <- (app_nil_r (be_encode 8 _)). by apply rd64_field.
Qed.

(** An acknowledgement with the right size and identifier is not rejected. *)
Lemma process_ack_accepted clk (fc fc' : GNUNET_FRAGMENT_Context T) a code :
  msg_size a = sizeof_FragmentAcknowledgement -> rd32 4 a = fragment_id fc ->
  GNUNET_FRAGMENT_process_ack clk fc a = Some (fc', code) ->
  code = (if acks fc' =? 0 then GNUNET_OK else GNUNET_NO) /\ code <> GNUNET_SYSERR.
Proof.
  intros Hs Hf. unfold GNUNET_FRAGMENT_process_ack. rewrite Hs, Hf, !Z.eqb_refl. cbn [negb].
  destruct (if _ : bool then new_delays _ _ _ else _) as [ad md].
  destruct (Z.eqb_spec 0 (Z.land (rd64 8 a) (acks_mask fc))) as [E|E]; cbn [negb].
  - intros [= <- <-]. cbn [acks]. by rewrite <- E.
  - intros H. assert (code = GNUNET_NO /\ acks fc' = Z.land (rd64 8 a) (acks_mask fc)) as [-> ->].
    { destruct (task fc); [|destruct (proc_busy fc); [|done]]; by injection H as <- <-. }
    destruct (Z.eqb_spec (Z.land (rd64 8 a) (acks_mask fc)) 0); [lia|done].
Qed.

(** Acknowledgements carry the receiver's state to the sender: feeding the
    ACK for a message context to the sender of that message is accepted, leaves
    exactly the fragments the receiver misses pending, and reports completion
    exactly when the receiver has the whole message. *)
Theorem ack_roundtrip (clk : clock) (fc : GNUNET_FRAGMENT_Context T) (mc : MessageContext) :
  clock_wf clk -> fc_wf fc -> acks fc <> 0 -> mc_wf (mtu fc) mc ->
  mc_fragment_id mc = fragment_id fc -> mc_total_size mc = msg_size (msg fc) ->
  exists fc' code, GNUNET_FRAGMENT_process_ack clk fc (send_ack mc).2 = Some (fc', code)
    /\ fc_wf fc' /\ acks fc' = mc_bits mc
    /\ code = if mc_bits mc =? 0 then GNUNET_OK else GNUNET_NO.
Proof.
  intros Hc Hw Hacks Hmc Hid Hsz.
  destruct (send_ack_fields mc (mw_fid _ _ Hmc) (mw_bits _ _ Hmc)) as (Hby & Hs & Hf & Hb).
  destruct (process_ack_spec clk fc (send_ack mc).2 Hc Hby Hw (fw_live fc Hw Hacks))
    as (fc' & code & E & [Hw' _ _ Hac Hdone _]).
  exists fc', code. split; [done|]. split; [done|].
  destruct (process_ack_accepted clk fc fc' _ code Hs (eq_trans Hf Hid) E) as [Hcode Hne].
  assert (acks fc' = mc_bits mc) as Ha; [|by rewrite <- Ha].
  rewrite (Hac Hne), Hb, (fw_mask fc Hw), <- Hsz. apply Z.bits_inj'. intros i Hi.
  pose proof (mc_nfrags_range _ mc (fw_mtu fc Hw) Hmc).
  rewrite Z.land_spec, testbit_low_bits by (unfold mc_nfrags in *; lia).
  destruct (Z.testbit (mc_bits mc) i) eqn:Ebi; [|done].
  pose proof (mw_sub _ _ Hmc i Hi Ebi). cbn. by apply Z.ltb_lt.
Qed.

End DefragmentationTheorems.

(** ** Concrete runs *)

Section Demo.
Local Instance demo_flow : FlowControl GNUNET_BANDWIDTH_Tracker :=
  tracker_FlowControl (fun _ => 0).
Let undef : double -> Z := fun _ => 0.

(** The two fragments of the sender's demonstration message, the second one
    first and the first one twice. *)
Definition demo_inputs : list (GNUNET_TIME_Absolute * list Z) :=
  [(mk_abs 5, assemble 1036 42 demo_msg 1); (mk_abs 9, assemble 1036 42 demo_msg 0);
   (mk_abs 11, assemble 1036 42 demo_msg 0)].

Lemma demo_fragment b : 0 <= b < 2 -> honest_for (fun _ => demo_msg) 1036 42 b (assemble 1036 42 demo_msg b).
Proof.
  intros Hb. split; [words|]. split; [apply demo_msg_wf|]. split; [|done].
  by change (nfrags 1036 (msg_size demo_msg)) with 2.
Qed.

Lemma demo_mtu : mtu_ok 1036.
Proof. vm_compute. intuition congruence. Qed.

Lemma demo_received :
  Forall (fun i => received_ok i /\ genuine (fun _ => demo_msg) 1036 (eq 42) i.2) demo_inputs.
Proof.
  assert (forall t b, 0 <= b < 2 -> received_ok (t, assemble 1036 42 demo_msg b)
    /\ genuine (fun _ => demo_msg) 1036 (eq 42) (assemble 1036 42 demo_msg b)) as H.
  { intros t b Hb. pose proof (demo_fragment b Hb) as Hf. split.
    - eapply honest_received; [apply demo_mtu|done].
    - intros <-. by exists b. }
  apply Forall_cons_2; [apply H; lia|]. apply Forall_cons_2; [apply H; lia|].
  apply Forall_cons_2; [apply H; lia|constructor].
Qed.

Lemma defragmenter_safe_witness :
  exists dc ds, defrag_run undef (GNUNET_DEFRAGMENT_context_create 1036 4)
    ((mk_abs 3, [0; 4; 255; 255]) :: demo_inputs) = Some (dc, ds)
    /\ Z.of_nat (length (dc_list dc)) <= 4.
Proof.
  destruct (defragmenter_safe undef 1036 4 ((mk_abs 3, [0; 4; 255; 255]) :: demo_inputs))
    as (dc & ds & E & _ & Hl & _).
  - exact demo_mtu.
  - lia.
  - constructor; [split; [repeat constructor; words|vm_compute; congruence]|].
    eapply Forall_impl; [exact demo_received|]. intros i Hi. exact (proj1 Hi).
  - by exists dc, ds.
Defined.

Lemma defragmenter_faithful_witness :
  exists dc ds, defrag_run undef (GNUNET_DEFRAGMENT_context_create 1036 4) demo_inputs = Some (dc, ds)
    /\ forall x, (42, x) ∈ ds -> x = demo_msg.
Proof.
  destruct (defragmenter_faithful undef (fun _ => demo_msg) (eq 42) 1036 4 demo_inputs)
    as (dc & ds & E & Hd).
  - exact demo_mtu.
  - lia.
  - exact demo_received.
  - exists dc, ds. split; [exact E|]. intros x Hx. exact (Hd 42 x Hx eq_refl).
Defined.

Lemma transfer_exactly_once_witness :
  exists dc ds, defrag_run undef (GNUNET_DEFRAGMENT_context_create 1036 4) demo_inputs = Some (dc, ds)
    /\ of_id 42 ds = [(42, demo_msg)].
Proof.
  destruct (drive 2 (fun _ => mk_abs 7) demo_fc) as [[out fc']|] eqn:E; [|vm_compute in E; discriminate].
  assert (out = [assemble 1036 42 demo_msg 0; assemble 1036 42 demo_msg 1]) as Ho.
  { apply (f_equal (fun r => match r with Some (o, _) => o | None => [] end)) in E.
    rewrite <- E. vm_compute. reflexivity. }
  refine (transfer_exactly_once undef 42 1036 4 None (mk_rel 1000) (mk_rel 1) demo_msg
    demo_fc out (FRun fc') [42] demo_inputs demo_mtu _ _ _ _ demo_msg_wf I _ _ _ _ _).
  - lia.
  - words.
  - vm_compute. intuition congruence.
  - vm_compute. intuition congruence.
  - vm_compute. reflexivity.
  - apply tx_run_frag_run. refine (drive_tx_run 2 _ demo_fc out fc' _ E).
    intros i. vm_compute. intuition congruence.
  - cbn [length]. lia.
  - rewrite Ho. pose proof (Forall_impl _ _ _ demo_received (fun i H => proj1 H)) as Hr.
    inversion_clear Hr as [|? ? H1 Hr1]. inversion_clear Hr1 as [|? ? H2 Hr2].
    assert (forall b, 0 <= b < 2 -> rd32 4 (assemble 1036 42 demo_msg b) ∈ [42]) as Hid.
    { intros b Hb. destruct (honest_fields _ 1036 demo_mtu _ _ _ (demo_fragment b Hb)) as [-> _].
      apply list_elem_of_singleton. reflexivity. }
    apply Forall_cons_2; [|apply Forall_cons_2; [|apply Forall_cons_2; [|constructor]]];
      (split; [assumption|split; [apply Hid; lia|intros _; cbn [snd]; rewrite !elem_of_cons; tauto]]).
  - intros b Hb. change (nfrags 1036 (msg_size demo_msg)) with 2 in Hb.
    unfold demo_inputs. rewrite !fmap_cons. cbn [snd]. rewrite !elem_of_cons.
    assert (b = 0 \/ b = 1) as [->| ->] by lia; tauto.
Defined.

Definition demo_mc : MessageContext :=
  mk_mc (replicate 1026 0) (mk_abs 5) None (replicate 64 (mk_abs 0, 0)) 3 42 0 0 0 1026 false.

Lemma ack_roundtrip_witness :
  exists fc' code, GNUNET_FRAGMENT_process_ack (fun _ => mk_abs 7) demo_fc (send_ack demo_mc).2
    = Some (fc', code) /\ acks fc' = 3 /\ code = GNUNET_NO.
Proof.
  destruct (new_mc_spec (mk_abs 5) 1036 42 1026) as (mc & E & Hw & _);
    [exact demo_mtu|words|vm_compute; intuition congruence|].
  assert (mc = demo_mc) as -> by (vm_compute in E; injection E as <-; reflexivity).
  destruct (ack_roundtrip (fun _ => mk_abs 7) demo_fc demo_mc) as (fc' & code & Ea & _ & Hb & Hc);
    try reflexivity; try exact Hw; try exact demo_fc_wf.
  - intros i. vm_compute. intuition congruence.
  - discriminate.
  - exists fc', code. split; [exact Ea|]. split; [exact Hb|exact Hc].
Defined.

End Demo.
