(* ===== verification/Scheduler.v ===== *)
(** * The scheduler: [src/util/scheduler.c]

    Every GNUnet process is driven by this event loop. Tasks wait for a time, for file
    descriptors or for the shutdown; those that are ready are run by priority. Tasks have
    addresses and are kept in a store, from which they are removed when they are freed; the
    doubly linked lists of the code are lists of addresses, from the head on. *)

From stdpp Require Import gmap sorting.
From S2P Require Import Prelude Time.
#[local] Open Scope Z_scope.

(** ** Data *)

Definition GNUNET_SCHEDULER_PRIORITY_KEEP : Z := 0.
Definition GNUNET_SCHEDULER_PRIORITY_DEFAULT : Z := 3.
Definition GNUNET_SCHEDULER_PRIORITY_SHUTDOWN : Z := 7.
Definition GNUNET_SCHEDULER_PRIORITY_COUNT : Z := 8.

Definition GNUNET_SCHEDULER_REASON_STARTUP : Z := 1.
Definition GNUNET_SCHEDULER_REASON_SHUTDOWN : Z := 2.
Definition GNUNET_SCHEDULER_REASON_TIMEOUT : Z := 4.
Definition GNUNET_SCHEDULER_REASON_READ_READY : Z := 8.
Definition GNUNET_SCHEDULER_REASON_WRITE_READY : Z := 16.
Definition GNUNET_SCHEDULER_REASON_PREREQ_DONE : Z := 32.

(** Sets of file descriptors ([struct GNUNET_NETWORK_FDSet]). *)
Abbreviation fdset := (gset Z) (only parsing).
Definition FD_SETSIZE : Z := 1024.

(** Callbacks are given by their address. *)
Record GNUNET_SCHEDULER_Task := mk_task {
  callback : Z;
  callback_cls : Z;
  read_set : option fdset;
  write_set : option fdset;
  timeout : GNUNET_TIME_Absolute;
  reason : Z;
  priority : Z;
  read_fd : Z;
  write_fd : Z;
  lifeness : Z;
  on_shutdown : Z;
  in_ready_list : Z;
}.

Record GNUNET_SCHEDULER_TaskContext := mk_tc {
  tc_reason : Z;
  read_ready : fdset;
  write_ready : fdset;
}.

(** The static variables. *)
Record SchedulerState := mk_sched {
  tasks : gmap Z GNUNET_SCHEDULER_Task;
  pending : list Z;
  shutdown_tasks : list Z;
  pending_timeout : list Z;
  pending_timeout_last : option Z;
  active_task : option Z;
  ready : list (list Z);
  ready_count : Z;
  tasks_run : Z;
  current_priority : Z;
  max_priority_added : Z;
  current_lifeness : Z;
}.

Definition set_task id t st := mk_sched (<[id := t]> (tasks st)) (pending st) (shutdown_tasks st) (pending_timeout st)
  (pending_timeout_last st) (active_task st) (ready st) (ready_count st) (tasks_run st) (current_priority st)
  (max_priority_added st) (current_lifeness st).
Definition free_task id st := mk_sched (delete id (tasks st)) (pending st) (shutdown_tasks st) (pending_timeout st)
  (pending_timeout_last st) (active_task st) (ready st) (ready_count st) (tasks_run st) (current_priority st)
  (max_priority_added st) (current_lifeness st).
Definition set_pending l st := mk_sched (tasks st) l (shutdown_tasks st) (pending_timeout st)
  (pending_timeout_last st) (active_task st) (ready st) (ready_count st) (tasks_run st) (current_priority st)
  (max_priority_added st) (current_lifeness st).
Definition set_shutdown l st := mk_sched (tasks st) (pending st) l (pending_timeout st)
  (pending_timeout_last st) (active_task st) (ready st) (ready_count st) (tasks_run st) (current_priority st)
  (max_priority_added st) (current_lifeness st).
Definition set_timeouts l last st := mk_sched (tasks st) (pending st) (shutdown_tasks st) l
  last (active_task st) (ready st) (ready_count st) (tasks_run st) (current_priority st)
  (max_priority_added st) (current_lifeness st).
Definition set_active a st := mk_sched (tasks st) (pending st) (shutdown_tasks st) (pending_timeout st)
  (pending_timeout_last st) a (ready st) (ready_count st) (tasks_run st) (current_priority st)
  (max_priority_added st) (current_lifeness st).
Definition set_ready_queues r n st := mk_sched (tasks st) (pending st) (shutdown_tasks st) (pending_timeout st)
  (pending_timeout_last st) (active_task st) r n (tasks_run st) (current_priority st)
  (max_priority_added st) (current_lifeness st).
Definition set_current p l st := mk_sched (tasks st) (pending st) (shutdown_tasks st) (pending_timeout st)
  (pending_timeout_last st) (active_task st) (ready st) (ready_count st) (tasks_run st) p
  (max_priority_added st) l.
Definition set_max_added p st := mk_sched (tasks st) (pending st) (shutdown_tasks st) (pending_timeout st)
  (pending_timeout_last st) (active_task st) (ready st) (ready_count st) (tasks_run st) (current_priority st)
  p (current_lifeness st).
Definition set_tasks_run n st := mk_sched (tasks st) (pending st) (shutdown_tasks st) (pending_timeout st)
  (pending_timeout_last st) (active_task st) (ready st) (ready_count st) n (current_priority st)
  (max_priority_added st) (current_lifeness st).

Definition set_reason r t := mk_task (callback t) (callback_cls t) (read_set t) (write_set t) (timeout t) r (priority t)
  (read_fd t) (write_fd t) (lifeness t) (on_shutdown t) (in_ready_list t).
Definition set_in_ready t := mk_task (callback t) (callback_cls t) (read_set t) (write_set t) (timeout t) (reason t)
  (priority t) (read_fd t) (write_fd t) (lifeness t) (on_shutdown t) GNUNET_YES.
Definition set_sets r w t := mk_task (callback t) (callback_cls t) r w (timeout t) (reason t) (priority t)
  (read_fd t) (write_fd t) (lifeness t) (on_shutdown t) (in_ready_list t).
Definition set_lifeness l t := mk_task (callback t) (callback_cls t) (read_set t) (write_set t) (timeout t) (reason t)
  (priority t) (read_fd t) (write_fd t) l (on_shutdown t) (in_ready_list t).

(** ** Sets and priorities *)

Definition fdset_set_native (s : fdset) (nfd : Z) : option fdset :=
  assert? ((nfd >=? 0) && (nfd <? FD_SETSIZE)) in Some ({[nfd]} ∪ s).

Definition fdset_test_native (s : fdset) (nfd : Z) : bool := negb (nfd =? -1) && bool_decide (nfd ∈ s).

Definition fdset_overlap (a b : fdset) : bool := negb (bool_decide (a ∩ b = ∅)).

Definition check_priority (p : Z) : option Z :=
  assert? ((p >=? 0) && (p <? GNUNET_SCHEDULER_PRIORITY_COUNT)) in Some p.

(** ** Readiness *)

(** [if (timeout->rel_value_us > to.rel_value_us) *timeout = to]. *)
Definition earlier (t to : GNUNET_TIME_Relative) : GNUNET_TIME_Relative :=
  if rel_value_us t >? rel_value_us to then to else t.

(** The loop of [update_sets]. *)
Fixpoint update_pending (st : SchedulerState) (now : GNUNET_TIME_Absolute) (l : list Z)
    (rs ws : fdset) (to : GNUNET_TIME_Relative) : option (fdset * fdset * GNUNET_TIME_Relative) :=
  match l with
  | [] => Some (rs, ws, to)
  | id :: l =>
      let? pos := tasks st !! id in
      let to := if negb (abs_value_us (timeout pos) =? abs_value_us GNUNET_TIME_UNIT_FOREVER_ABS)
                then earlier to (GNUNET_TIME_absolute_get_difference now (timeout pos)) else to in
      let? rs := if negb (-1 =? read_fd pos) then fdset_set_native rs (read_fd pos) else Some rs in
      let? ws := if negb (-1 =? write_fd pos) then fdset_set_native ws (write_fd pos) else Some ws in
      let rs := match read_set pos with Some s => rs ∪ s | None => rs end in
      let ws := match write_set pos with Some s => ws ∪ s | None => ws end in
      let to := if negb (0 =? reason pos) then GNUNET_TIME_UNIT_ZERO else to in
      update_pending st now l rs ws to
  end.

(** What it does before. *)
Definition update_first_timeout (st : SchedulerState) (now : GNUNET_TIME_Absolute) (to : GNUNET_TIME_Relative)
  : option GNUNET_TIME_Relative :=
  match pending_timeout st with
  | [] => Some to
  | id :: _ =>
      let? pos := tasks st !! id in
      let to := earlier to (GNUNET_TIME_absolute_get_difference now (timeout pos)) in
      Some (if negb (0 =? reason pos) then GNUNET_TIME_UNIT_ZERO else to)
  end.

Definition update_sets (st : SchedulerState) (now : GNUNET_TIME_Absolute) (rs ws : fdset) (to : GNUNET_TIME_Relative)
  : option (fdset * fdset * GNUNET_TIME_Relative) :=
  let? to := update_first_timeout st now to in
  update_pending st now (pending st) rs ws to.

(** Also the set of the task, which is changed if they overlap. *)
Definition set_overlaps (ready : fdset) (want : option fdset) : option fdset * Z :=
  match want with
  | None => (None, GNUNET_NO)
  | Some w => if fdset_overlap ready w then (Some ready, GNUNET_YES) else (Some w, GNUNET_NO)
  end.

(** One of the two tests for file descriptors of [is_ready]. *)
Definition fd_ready (flag reason fd : Z) (ready : fdset) (want : option fdset) : Z * option fdset :=
  if negb (0 =? Z.land reason flag) then (reason, want)
  else if negb (fd =? -1) && fdset_test_native ready fd then (Z.lor reason flag, want)
  else let '(want, r) := set_overlaps ready want in
       (if GNUNET_YES =? r then Z.lor reason flag else reason, want).

Definition is_ready (task : GNUNET_SCHEDULER_Task) (now : GNUNET_TIME_Absolute) (rs ws : fdset)
  : GNUNET_SCHEDULER_Task * Z :=
  let r := if abs_value_us now >=? abs_value_us (timeout task)
           then Z.lor (reason task) GNUNET_SCHEDULER_REASON_TIMEOUT else reason task in
  let '(r, rset) := fd_ready GNUNET_SCHEDULER_REASON_READ_READY r (read_fd task) rs (read_set task) in
  let '(r, wset) := fd_ready GNUNET_SCHEDULER_REASON_WRITE_READY r (write_fd task) ws (write_set task) in
  let task := set_sets rset wset task in
  if 0 =? r then (task, GNUNET_NO)
  else (set_reason (Z.lor r GNUNET_SCHEDULER_REASON_PREREQ_DONE) task, GNUNET_YES).

Definition queue_ready_task (id : Z) (st : SchedulerState) : option SchedulerState :=
  let? task := tasks st !! id in
  let? p := check_priority (priority task) in
  let? q := ready st !! Z.to_nat p in
  let? q := DLL_insert id q in
  Some (set_ready_queues (<[Z.to_nat p := q]> (ready st)) (u32 (ready_count st + 1)) (set_task id (set_in_ready task) st)).

(** The first loop of [check_ready]; [l] is the list of tasks that wait for a time. *)
Fixpoint ready_timeouts (now : GNUNET_TIME_Absolute) (l : list Z) (st : SchedulerState) : option SchedulerState :=
  match l with
  | [] => Some st
  | id :: l =>
      let? pos := tasks st !! id in
      let r := if abs_value_us now >=? abs_value_us (timeout pos)
               then Z.lor (reason pos) GNUNET_SCHEDULER_REASON_TIMEOUT else reason pos in
      let st := set_task id (set_reason r pos) st in
      if 0 =? r then Some st
      else
        let last := if bool_decide (pending_timeout_last st = Some id) then None else pending_timeout_last st in
        let? st := queue_ready_task id (set_timeouts l last st) in
        ready_timeouts now l st
  end.

(** The second loop. *)
Fixpoint ready_pending (now : GNUNET_TIME_Absolute) (rs ws : fdset) (l : list Z) (st : SchedulerState)
  : option SchedulerState :=
  match l with
  | [] => Some st
  | id :: l =>
      let? pos := tasks st !! id in
      let '(pos, r) := is_ready pos now rs ws in
      let st := set_task id pos st in
      let? st := if GNUNET_YES =? r
                 then let? q := DLL_remove id (pending st) in queue_ready_task id (set_pending q st)
                 else Some st in
      ready_pending now rs ws l st
  end.

Definition check_ready (now : GNUNET_TIME_Absolute) (rs ws : fdset) (st : SchedulerState) : option SchedulerState :=
  let? st := ready_timeouts now (pending_timeout st) st in
  ready_pending now rs ws (pending st) st.

Fixpoint shutdown_loop (l : list Z) (st : SchedulerState) : option SchedulerState :=
  match l with
  | [] => Some st
  | id :: l =>
      let? pos := tasks st !! id in
      let st := set_task id (set_reason (Z.lor (reason pos) GNUNET_SCHEDULER_REASON_SHUTDOWN) pos) (set_shutdown l st) in
      let? st := queue_ready_task id st in
      shutdown_loop l st
  end.

Definition GNUNET_SCHEDULER_shutdown (st : SchedulerState) : option SchedulerState := shutdown_loop (shutdown_tasks st) st.

(** ** Tasks are added and cancelled *)

(** [addr] is the address of the new task; null callbacks are 0. *)
Definition GNUNET_SCHEDULER_add_with_reason_and_priority (addr task task_cls reason priority : Z) (st : SchedulerState)
  : option SchedulerState :=
  assert? negb (task =? 0) in
  assert? (bool_decide (active_task st <> None) || (GNUNET_SCHEDULER_REASON_STARTUP =? reason)) in
  let t := mk_task task task_cls None None (mk_abs 0) reason priority (-1) (-1) (current_lifeness st) GNUNET_NO GNUNET_NO in
  queue_ready_task addr (set_task addr t st).

(** The list up to the element, in reverse, and what follows it. *)
Fixpoint split_at (id : Z) (before l : list Z) : option (list Z * list Z) :=
  match l with
  | [] => None
  | x :: l => if x =? id then Some (x :: before, l) else split_at id (x :: before) l
  end.

(** [prev] is the head of the first list, [pos] that of the second. *)
Fixpoint move_back (st : SchedulerState) (at_ : GNUNET_TIME_Absolute) (before after : list Z) : option (list Z * list Z) :=
  match before with
  | [] => Some ([], after)
  | x :: b =>
      let? t := tasks st !! x in
      if abs_value_us (timeout t) >? abs_value_us at_ then move_back st at_ b (x :: after) else Some (before, after)
  end.

Fixpoint move_forward (st : SchedulerState) (at_ : GNUNET_TIME_Absolute) (before after : list Z)
  : option (list Z * list Z) :=
  match after with
  | [] => Some (before, [])
  | y :: a =>
      let? t := tasks st !! y in
      if (abs_value_us (timeout t) <=? abs_value_us at_) || negb (0 =? reason t)
      then move_forward st at_ (y :: before) a else Some (before, after)
  end.

(** Where the task is put into the list of those that wait for a time. *)
Definition insert_timeout (addr : Z) (at_ : GNUNET_TIME_Absolute) (st : SchedulerState) : option (list Z) :=
  match pending_timeout st with
  | [] => Some [addr]
  | h :: _ =>
      let? th := tasks st !! h in
      if abs_value_us at_ <? abs_value_us (timeout th) then DLL_insert addr (pending_timeout st)
      else
        let? (before, after) := match pending_timeout_last st with
                                | None => Some ([], pending_timeout st)
                                | Some last => split_at last [] (pending_timeout st)
                                end in
        let? (before, after) := move_back st at_ before after in
        let? (before, after) := move_forward st at_ before after in
        Some (rev before ++ addr :: after)
  end.

Definition GNUNET_SCHEDULER_add_at_with_priority (addr : Z) (at_ : GNUNET_TIME_Absolute) (priority task task_cls : Z) (st : SchedulerState)
  : option SchedulerState :=
  assert? bool_decide (active_task st <> None) in
  assert? negb (task =? 0) in
  let t := mk_task task task_cls None None at_ 0 priority (-1) (-1) (current_lifeness st) GNUNET_NO GNUNET_NO in
  let? l := insert_timeout addr at_ st in
  Some (set_timeouts l (Some addr) (set_task addr t st)).

Definition GNUNET_SCHEDULER_add_delayed_with_priority (now : GNUNET_TIME_Absolute) (addr : Z) (delay : GNUNET_TIME_Relative)
    (priority task task_cls : Z) (st : SchedulerState) : option SchedulerState :=
  GNUNET_SCHEDULER_add_at_with_priority addr (GNUNET_TIME_relative_to_absolute now delay) priority task task_cls st.

Definition GNUNET_SCHEDULER_add_with_priority (now : GNUNET_TIME_Absolute) (addr prio task task_cls : Z) (st : SchedulerState) :=
  GNUNET_SCHEDULER_add_delayed_with_priority now addr GNUNET_TIME_UNIT_ZERO prio task task_cls st.

Definition GNUNET_SCHEDULER_add_at (addr : Z) (at_ : GNUNET_TIME_Absolute) (task task_cls : Z) (st : SchedulerState) :=
  GNUNET_SCHEDULER_add_at_with_priority addr at_ GNUNET_SCHEDULER_PRIORITY_DEFAULT task task_cls st.

Definition GNUNET_SCHEDULER_add_delayed (now : GNUNET_TIME_Absolute) (addr : Z) (delay : GNUNET_TIME_Relative) (task task_cls : Z)
    (st : SchedulerState) :=
  GNUNET_SCHEDULER_add_delayed_with_priority now addr delay GNUNET_SCHEDULER_PRIORITY_DEFAULT task task_cls st.

Definition GNUNET_SCHEDULER_add_now (now : GNUNET_TIME_Absolute) (addr task task_cls : Z) (st : SchedulerState) :=
  GNUNET_SCHEDULER_add_delayed now addr GNUNET_TIME_UNIT_ZERO task task_cls st.

Definition GNUNET_SCHEDULER_add_shutdown (addr task task_cls : Z) (st : SchedulerState) : option SchedulerState :=
  assert? bool_decide (active_task st <> None) in
  assert? negb (task =? 0) in
  let t := mk_task task task_cls None None GNUNET_TIME_UNIT_FOREVER_ABS 0 GNUNET_SCHEDULER_PRIORITY_SHUTDOWN (-1) (-1)
             GNUNET_YES GNUNET_YES GNUNET_NO in
  let? l := DLL_insert addr (shutdown_tasks st) in
  Some (set_shutdown l (set_task addr t st)).

Definition GNUNET_SCHEDULER_add_now_with_lifeness (now : GNUNET_TIME_Absolute) (addr life task task_cls : Z) (st : SchedulerState)
  : option SchedulerState :=
  let? st := GNUNET_SCHEDULER_add_now now addr task task_cls st in
  let? t := tasks st !! addr in
  Some (set_task addr (set_lifeness life t) st).

(** What [add_without_sets] and [GNUNET_SCHEDULER_add_select] have in common. *)
Definition add_pending (addr : Z) (t : GNUNET_SCHEDULER_Task) (st : SchedulerState) : option SchedulerState :=
  let? l := DLL_insert addr (pending st) in
  Some (set_max_added (Z.max (max_priority_added st) (priority t)) (set_pending l (set_task addr t st))).

Definition keep_priority (prio : Z) (st : SchedulerState) : option Z :=
  check_priority (if prio =? GNUNET_SCHEDULER_PRIORITY_KEEP then current_priority st else prio).

Definition add_without_sets (now : GNUNET_TIME_Absolute) (addr : Z) (delay : GNUNET_TIME_Relative)
    (priority rfd wfd task task_cls : Z) (st : SchedulerState) : option SchedulerState :=
  assert? bool_decide (active_task st <> None) in
  assert? negb (task =? 0) in
  assert? (wfd >=? -1) in
  let? p := keep_priority priority st in
  add_pending addr (mk_task task task_cls None None (GNUNET_TIME_relative_to_absolute now delay) 0 p rfd wfd
                      (current_lifeness st) GNUNET_NO GNUNET_NO) st.

(** Sockets and files are given by their file descriptors. *)
Definition GNUNET_SCHEDULER_add_net_with_priority (now : GNUNET_TIME_Absolute) (addr : Z) (delay : GNUNET_TIME_Relative)
    (priority fd : Z) (on_read on_write : bool) (task task_cls : Z) (st : SchedulerState) : option SchedulerState :=
  assert? (fd >=? 0) in
  add_without_sets now addr delay priority (if on_read then fd else -1) (if on_write then fd else -1) task task_cls st.

Definition GNUNET_SCHEDULER_add_file_with_priority (now : GNUNET_TIME_Absolute) (addr : Z) (delay : GNUNET_TIME_Relative)
    (priority real_fd : Z) (on_read on_write : bool) (task task_cls : Z) (st : SchedulerState) : option SchedulerState :=
  assert? (real_fd >=? 0) in
  add_without_sets now addr delay priority (if on_read then real_fd else -1) (if on_write then real_fd else -1) task task_cls st.

Definition GNUNET_SCHEDULER_add_read_net_with_priority (now : GNUNET_TIME_Absolute) (addr : Z) (delay : GNUNET_TIME_Relative)
    (priority rfd task task_cls : Z) (st : SchedulerState) : option SchedulerState :=
  GNUNET_SCHEDULER_add_net_with_priority now addr delay priority rfd true false task task_cls st.

Definition GNUNET_SCHEDULER_add_read_net (now : GNUNET_TIME_Absolute) (addr : Z) (delay : GNUNET_TIME_Relative)
    (rfd task task_cls : Z) (st : SchedulerState) : option SchedulerState :=
  GNUNET_SCHEDULER_add_read_net_with_priority now addr delay GNUNET_SCHEDULER_PRIORITY_DEFAULT rfd task task_cls st.

Definition GNUNET_SCHEDULER_add_write_net (now : GNUNET_TIME_Absolute) (addr : Z) (delay : GNUNET_TIME_Relative)
    (wfd task task_cls : Z) (st : SchedulerState) : option SchedulerState :=
  GNUNET_SCHEDULER_add_net_with_priority now addr delay GNUNET_SCHEDULER_PRIORITY_DEFAULT wfd false true task task_cls st.

Definition GNUNET_SCHEDULER_add_read_file (now : GNUNET_TIME_Absolute) (addr : Z) (delay : GNUNET_TIME_Relative)
    (rfd task task_cls : Z) (st : SchedulerState) : option SchedulerState :=
  GNUNET_SCHEDULER_add_file_with_priority now addr delay GNUNET_SCHEDULER_PRIORITY_DEFAULT rfd true false task task_cls st.

Definition GNUNET_SCHEDULER_add_write_file (now : GNUNET_TIME_Absolute) (addr : Z) (delay : GNUNET_TIME_Relative)
    (wfd task task_cls : Z) (st : SchedulerState) : option SchedulerState :=
  GNUNET_SCHEDULER_add_file_with_priority now addr delay GNUNET_SCHEDULER_PRIORITY_DEFAULT wfd false true task task_cls st.

Definition GNUNET_SCHEDULER_add_select (now : GNUNET_TIME_Absolute) (addr prio : Z) (delay : GNUNET_TIME_Relative)
    (rs ws : option fdset) (task task_cls : Z) (st : SchedulerState) : option SchedulerState :=
  if bool_decide (rs = None) && bool_decide (ws = None)
  then GNUNET_SCHEDULER_add_delayed_with_priority now addr delay prio task task_cls st
  else
    assert? bool_decide (active_task st <> None) in
    assert? negb (task =? 0) in
    let? p := keep_priority prio st in
    add_pending addr (mk_task task task_cls rs ws (GNUNET_TIME_relative_to_absolute now delay) 0 p (-1) (-1)
                        (current_lifeness st) GNUNET_NO GNUNET_NO) st.

(** The closure of the task is returned. *)
Definition GNUNET_SCHEDULER_cancel (id : Z) (st : SchedulerState) : option (SchedulerState * Z) :=
  let? task := tasks st !! id in
  assert? (bool_decide (active_task st <> None) || (GNUNET_NO =? lifeness task)) in
  let? st :=
    if GNUNET_NO =? in_ready_list task then
      if (-1 =? read_fd task) && (-1 =? write_fd task) && bool_decide (read_set task = None)
         && bool_decide (write_set task = None)
      then
        let last := if bool_decide (pending_timeout_last st = Some id) then None else pending_timeout_last st in
        if GNUNET_YES =? on_shutdown task
        then let? l := DLL_remove id (shutdown_tasks st) in
             Some (set_timeouts (pending_timeout st) last (set_shutdown l st))
        else let? l := DLL_remove id (pending_timeout st) in Some (set_timeouts l last st)
      else let? l := DLL_remove id (pending st) in Some (set_pending l st)
    else
      let? p := check_priority (priority task) in
      let? q := ready st !! Z.to_nat p in
      let? q := DLL_remove id q in
      Some (set_ready_queues (<[Z.to_nat p := q]> (ready st)) (u32 (ready_count st - 1)) st) in
  Some (free_task id st, callback_cls task).

Definition GNUNET_SCHEDULER_get_load (p : Z) (st : SchedulerState) : option Z :=
  assert? bool_decide (active_task st <> None) in
  if p =? GNUNET_SCHEDULER_PRIORITY_COUNT then Some (ready_count st)
  else
    let? p := check_priority (if p =? GNUNET_SCHEDULER_PRIORITY_KEEP then current_priority st else p) in
    let? q := ready st !! Z.to_nat p in
    Some (u32 (Z.of_nat (length q))).

(** ** The event loop *)

(** What a callback may do; new tasks come with their addresses and the time. The other functions
    to add tasks are cases of these. *)
Inductive sched_op :=
  | AddWithReason (addr task task_cls reason priority : Z)
  | AddAt (addr : Z) (at_ : GNUNET_TIME_Absolute) (priority task task_cls : Z)
  | AddDelayed (now : GNUNET_TIME_Absolute) (addr : Z) (delay : GNUNET_TIME_Relative) (priority task task_cls : Z)
  | AddNowWithLifeness (now : GNUNET_TIME_Absolute) (addr life task task_cls : Z)
  | AddShutdown (addr task task_cls : Z)
  | AddFd (now : GNUNET_TIME_Absolute) (addr : Z) (delay : GNUNET_TIME_Relative) (priority fd : Z)
      (on_read on_write : bool) (task task_cls : Z)
  | AddSelect (now : GNUNET_TIME_Absolute) (addr prio : Z) (delay : GNUNET_TIME_Relative) (rs ws : option fdset)
      (task task_cls : Z)
  | Cancel (id : Z)
  | Shutdown
  | GetLoad (p : Z).

(** What happens to tasks. *)
Inductive sched_event :=
  | Added (id : Z)
  | Cancelled (id : Z)
  | Started (id : Z) (tc : GNUNET_SCHEDULER_TaskContext).

Definition with_event (e : sched_event) (r : option SchedulerState) : option (SchedulerState * list sched_event) :=
  let? st := r in Some (st, [e]).

Definition sched_op_step (op : sched_op) (st : SchedulerState) : option (SchedulerState * list sched_event) :=
  match op with
  | AddWithReason addr task task_cls reason priority =>
      with_event (Added addr) (GNUNET_SCHEDULER_add_with_reason_and_priority addr task task_cls reason priority st)
  | AddAt addr at_ priority task task_cls => with_event (Added addr) (GNUNET_SCHEDULER_add_at_with_priority addr at_ priority task task_cls st)
  | AddDelayed now addr delay priority task task_cls =>
      with_event (Added addr) (GNUNET_SCHEDULER_add_delayed_with_priority now addr delay priority task task_cls st)
  | AddNowWithLifeness now addr life task task_cls =>
      with_event (Added addr) (GNUNET_SCHEDULER_add_now_with_lifeness now addr life task task_cls st)
  | AddShutdown addr task task_cls => with_event (Added addr) (GNUNET_SCHEDULER_add_shutdown addr task task_cls st)
  | AddFd now addr delay priority fd on_read on_write task task_cls =>
      with_event (Added addr) (GNUNET_SCHEDULER_add_net_with_priority now addr delay priority fd on_read on_write task task_cls st)
  | AddSelect now addr prio delay rs ws task task_cls =>
      with_event (Added addr) (GNUNET_SCHEDULER_add_select now addr prio delay rs ws task task_cls st)
  | Cancel id => let? (st, _) := GNUNET_SCHEDULER_cancel id st in Some (st, [Cancelled id])
  | Shutdown => let? st := GNUNET_SCHEDULER_shutdown st in Some (st, [])
  | GetLoad p => let? _ := GNUNET_SCHEDULER_get_load p st in Some (st, [])
  end.

Fixpoint sched_ops (ops : list sched_op) (st : SchedulerState) : option (SchedulerState * list sched_event) :=
  match ops with
  | [] => Some (st, [])
  | op :: ops =>
      let? (st, e1) := sched_op_step op st in
      let? (st, e2) := sched_ops ops st in
      Some (st, e1 ++ e2)
  end.

Section Loop.
(** What the callback of a task does in a state. *)
Context (body : SchedulerState -> Z -> GNUNET_SCHEDULER_Task -> GNUNET_SCHEDULER_TaskContext -> list sched_op).

(** The search for a task, from the highest priority on. *)
Fixpoint find_ready (p : nat) (queues : list (list Z)) : option (nat * Z) :=
  match p with
  | O => None
  | S p' =>
      let? q := queues !! p in
      match q with
      | [] => find_ready p' queues
      | pos :: _ => Some (p, pos)
      end
  end.

Definition set_if (b : bool) (s : fdset) (fd : Z) : option fdset := if b then fdset_set_native s fd else Some s.

(** One round of the loop of [run_ready], up to its condition: the priority of the task and
    the sets as well. *)
Definition run_one (rs ws : fdset) (st : SchedulerState)
  : option (SchedulerState * Z * fdset * fdset * list sched_event) :=
  assert? bool_decide (ready st !! 0%nat = Some []) in
  let? (p, id) := find_ready (Z.to_nat (GNUNET_SCHEDULER_PRIORITY_COUNT - 1)) (ready st) in
  let? pos := tasks st !! id in
  let? q := ready st !! p in
  let? q := DLL_remove id q in
  let st := set_ready_queues (<[p := q]> (ready st)) (u32 (ready_count st - 1)) st in
  let st := set_active (Some id) (set_current (priority pos) (lifeness pos) st) in
  let read_flag := negb (0 =? Z.land (reason pos) GNUNET_SCHEDULER_REASON_READ_READY) in
  let write_flag := negb (0 =? Z.land (reason pos) GNUNET_SCHEDULER_REASON_WRITE_READY) in
  let? rs := set_if (negb (-1 =? read_fd pos) && read_flag) rs (read_fd pos) in
  let? ws := set_if (negb (-1 =? write_fd pos) && write_flag) ws (write_fd pos) in
  assert? negb (write_flag && negb (-1 =? write_fd pos) && negb (fdset_test_native ws (write_fd pos))) in
  let tc := mk_tc (reason pos) (default rs (read_set pos)) (default ws (write_set pos)) in
  let? (st, ev) := sched_ops (body st id pos tc) st in
  let st := set_tasks_run (u64 (tasks_run st + 1)) (free_task id (set_active None st)) in
  Some (st, Z.of_nat p, rs, ws, Started id tc :: ev).

(** Whether the loop has ended within its fuel is part of the result. *)
Fixpoint run_loop (fuel : nat) (rs ws : fdset) (st : SchedulerState)
  : option (SchedulerState * fdset * fdset * list sched_event * bool) :=
  match fuel with
  | O => Some (st, rs, ws, [], false)
  | S fuel =>
      if 0 =? ready_count st then Some (st, rs, ws, [], true)
      else
        let? (st, p, rs, ws, e1) := run_one rs ws st in
        if bool_decide (pending st = []) || (p >=? max_priority_added st) then
          let? (st, rs, ws, e2, finished) := run_loop fuel rs ws st in
          Some (st, rs, ws, e1 ++ e2, finished)
        else Some (st, rs, ws, e1, true)
  end.

Definition run_ready (fuel : nat) (rs ws : fdset) (st : SchedulerState)
  : option (SchedulerState * fdset * fdset * list sched_event * bool) :=
  run_loop fuel rs ws (set_max_added GNUNET_SCHEDULER_PRIORITY_KEEP st).

(** A task of the list keeps the process alive. *)
Definition keeps_alive (st : SchedulerState) (l : list Z) : bool :=
  existsb (fun id => match tasks st !! id with Some t => lifeness t =? GNUNET_YES | None => false end) l.

Definition check_lifeness (st : SchedulerState) : option (SchedulerState * Z) :=
  if ready_count st >? 0 then Some (st, GNUNET_OK)
  else if keeps_alive st (pending st) then Some (st, GNUNET_OK)
  else if keeps_alive st (shutdown_tasks st) then Some (st, GNUNET_OK)
  else if keeps_alive st (pending_timeout st) then Some (st, GNUNET_OK)
  else match shutdown_tasks st with
       | [] => Some (st, GNUNET_NO)
       | _ => let? st := GNUNET_SCHEDULER_shutdown st in Some (st, GNUNET_OK)
       end.

(** What the system gives to a round of the main loop: the times at which sets are made and
    tasks are checked, and the result of [select]. *)
Record LoopEnv := mk_loop_env {
  le_update : GNUNET_TIME_Absolute;
  le_check : GNUNET_TIME_Absolute;
  le_select : fdset -> fdset -> GNUNET_TIME_Relative -> Z * fdset * fdset;
  le_eintr : bool;
  le_fuel : nat;
}.

Inductive loop_result := Continue | Exit | OutOfFuel.

(** The sets and the time for which [select] is called. *)
Definition select_arguments (pr : Z) (now : GNUNET_TIME_Absolute) (st : SchedulerState)
  : option (fdset * fdset * GNUNET_TIME_Relative) :=
  let? (rs, ws, to) := update_sets st now ∅ ∅ GNUNET_TIME_UNIT_FOREVER_REL in
  Some ({[pr]} ∪ rs, ws, if ready_count st >? 0 then GNUNET_TIME_UNIT_ZERO else to).

(** One round of the main loop; [pr] is the end of the pipe for signals. *)
Definition loop_round (pr : Z) (env : LoopEnv) (st : SchedulerState)
  : option (SchedulerState * list sched_event * loop_result) :=
  let? (st, alive) := check_lifeness st in
  if negb (GNUNET_OK =? alive) then Some (st, [], Exit)
  else
    let? (rs, ws, to) := select_arguments pr (le_update env) st in
    let '(ret, rs, ws) := le_select env rs ws to in
    if ret =? GNUNET_SYSERR then assert? le_eintr env in Some (st, [], Continue)
    else
      let? st := check_ready (le_check env) rs ws st in
      let? (st, rs, ws, ev, finished) := run_ready (le_fuel env) rs ws st in
      if negb finished then Some (st, ev, OutOfFuel)
      else
        let? st := if bool_decide (pr ∈ rs) then GNUNET_SCHEDULER_shutdown st else Some st in
        Some (st, ev, Continue).

Fixpoint main_loop (pr : Z) (envs : list LoopEnv) (st : SchedulerState)
  : option (SchedulerState * list sched_event * loop_result) :=
  match envs with
  | [] => Some (st, [], Continue)
  | env :: envs =>
      let? (st, e1, r) := loop_round pr env st in
      match r with
      | Continue =>
          let? (st, e2, r) := main_loop pr envs st in
          Some (st, e1 ++ e2, r)
      | _ => Some (st, e1, r)
      end
  end.

Definition sched_initial : SchedulerState :=
  mk_sched ∅ [] [] [] None None (replicate 8 []) 0 0 GNUNET_SCHEDULER_PRIORITY_KEEP GNUNET_SCHEDULER_PRIORITY_KEEP 0.

(** The first [length envs] rounds of the process; [addr] and [addr2] are the addresses of the
    first two tasks, [handler] is [GNUNET_OS_install_parent_control_handler]. *)
Definition GNUNET_SCHEDULER_run (task task_cls handler addr addr2 pr : Z) (now : GNUNET_TIME_Absolute)
    (envs : list LoopEnv) : option (SchedulerState * list sched_event * loop_result) :=
  let st := set_current GNUNET_SCHEDULER_PRIORITY_DEFAULT GNUNET_YES sched_initial in
  let? st := GNUNET_SCHEDULER_add_with_reason_and_priority addr task task_cls GNUNET_SCHEDULER_REASON_STARTUP
               GNUNET_SCHEDULER_PRIORITY_DEFAULT st in
  let? st := GNUNET_SCHEDULER_add_now_with_lifeness now addr2 GNUNET_NO handler 0 (set_active (Some (-1)) st) in
  let? (st, ev, r) := main_loop pr envs (set_active None st) in
  Some (st, [Added addr; Added addr2] ++ ev, r).
End Loop.

(** ** Invariant *)

(** Where a task is, by its fields. *)
Inductive Place := PReady (p : nat) | PShutdown | PTimeout | PPending.
#[global] Instance Place_eq_dec : EqDecision Place.
Proof. solve_decision. Defined.

(** The task waits for a time or for the shutdown only. *)
Definition no_fds (t : GNUNET_SCHEDULER_Task) : bool :=
  (-1 =? read_fd t) && (-1 =? write_fd t) && bool_decide (read_set t = None) && bool_decide (write_set t = None).

Definition place (t : GNUNET_SCHEDULER_Task) : Place :=
  if negb (GNUNET_NO =? in_ready_list t) then PReady (Z.to_nat (priority t))
  else if no_fds t then if GNUNET_YES =? on_shutdown t then PShutdown else PTimeout
  else PPending.

Definition queue (st : SchedulerState) (pl : Place) : list Z :=
  match pl with
  | PReady p => default [] (ready st !! p)
  | PShutdown => shutdown_tasks st
  | PTimeout => pending_timeout st
  | PPending => pending st
  end.

Definition timeout_of (st : SchedulerState) (id : Z) : Z :=
  match tasks st !! id with Some t => abs_value_us (timeout t) | None => 0 end.

Definition fd_ok (fd : Z) : Prop := fd = -1 \/ 0 <= fd < FD_SETSIZE.

Record task_ok (t : GNUNET_SCHEDULER_Task) : Prop := {
  to_priority : 0 < priority t < GNUNET_SCHEDULER_PRIORITY_COUNT;
  to_read : fd_ok (read_fd t);
  to_write : fd_ok (write_fd t);
  to_timeout : is_u64 (abs_value_us (timeout t));
}.

(** Tasks in [D] are in no list. *)
Record sched_inv (D : gset Z) (st : SchedulerState) : Prop := {
  si_place : forall id pl, id ∈ queue st pl <-> (exists t, tasks st !! id = Some t /\ id ∉ D /\ place t = pl);
  si_nodup : forall pl, NoDup (queue st pl);
  si_ready : length (ready st) = Z.to_nat GNUNET_SCHEDULER_PRIORITY_COUNT;
  si_count : ready_count st = Z.of_nat (length (concat (ready st)));
  si_tasks : forall id t, tasks st !! id = Some t -> task_ok t /\ (id ∉ D -> in_ready_list t = GNUNET_NO -> reason t = 0);
  si_sorted : StronglySorted (fun a b => timeout_of st a <= timeout_of st b) (pending_timeout st);
  si_last : forall h, pending_timeout_last st = Some h -> h ∈ pending_timeout st;
  si_size : Z.of_nat (size (tasks st)) < 2 ^ 32;
  si_current : 0 < current_priority st < GNUNET_SCHEDULER_PRIORITY_COUNT;
  si_apart : D ⊆ dom (tasks st);
}.

(** The parts of the state that have nothing to do with lists. *)
Definition same_rest (st st' : SchedulerState) : Prop :=
  active_task st' = active_task st /\ current_priority st' = current_priority st /\ current_lifeness st' = current_lifeness st
  /\ max_priority_added st' = max_priority_added st /\ tasks_run st' = tasks_run st.

Section Moves.
Context (D : gset Z) (st st' : SchedulerState) (id : Z) (t : GNUNET_SCHEDULER_Task).

(** A task is taken from its list. *)
Lemma detach : sched_inv D st -> tasks st !! id = Some t -> id ∉ D -> tasks st' = tasks st ->
  (forall pl, queue st' pl = if decide (pl = place t) then filter (fun x => x <> id) (queue st pl) else queue st pl) ->
  length (ready st') = length (ready st) -> current_priority st' = current_priority st -> ready_count st' = Z.of_nat (length (concat (ready st'))) ->
  (forall h, pending_timeout_last st' = Some h -> h ∈ pending_timeout st') ->
  sched_inv ({[id]} ∪ D) st'.
Proof.
  intros [P N R C T S L Z CP A] Ht Hd Et Hq Hr Hcp Hc Hl. split.
  - intros i pl. rewrite Hq, Et. case_decide as Hpl.
    + rewrite list_elem_of_filter, P. split.
      * intros (Hne & ti & Hti & Hdi & Hpi). exists ti. split_and!; [done|set_solver|done].
      * intros (ti & Hti & Hdi & Hpi). split; [set_solver|]. exists ti. split_and!; [done|set_solver|done].
    + rewrite P. split; intros (ti & Hti & Hdi & Hpi); exists ti; (split_and!; [done| |done]).
      * intros Hin. apply elem_of_union in Hin as [->%elem_of_singleton|]; [|done]. congruence.
      * set_solver.
  - intros pl. rewrite Hq. case_decide; [apply NoDup_filter|]; apply N.
  - by rewrite Hr.
  - done.
  - intros i ti Hti. rewrite Et in Hti. destruct (T i ti Hti) as [Hok Hre]. split; [done|]. intros Hdi. apply Hre. set_solver.
  - change (pending_timeout st') with (queue st' PTimeout). rewrite Hq.
    assert (Hf : StronglySorted (fun a b => timeout_of st' a <= timeout_of st' b) (queue st PTimeout))
      by (unfold timeout_of; rewrite Et; exact S).
    case_decide; [|done]. clear - Hf. induction Hf as [|x l _ IH Hx]; [constructor|]. rewrite filter_cons.
    case_decide; [|done]. apply StronglySorted_cons. split; [|done]. eapply Forall_forall. intros y [_ Hy]%list_elem_of_filter.
    by eapply Forall_forall in Hx.
  - done.
  - by rewrite Et.
  - by rewrite Hcp.
  - rewrite Et. apply elem_of_dom_2 in Ht. set_solver.
Qed.

(** A task is put into its list. *)
Lemma attach : sched_inv D st -> tasks st !! id = Some t -> id ∈ D -> tasks st' = tasks st ->
  (in_ready_list t = GNUNET_NO -> reason t = 0) ->
  (forall pl, queue st' pl ≡ₚ if decide (pl = place t) then id :: queue st pl else queue st pl) ->
  length (ready st') = length (ready st) -> current_priority st' = current_priority st -> ready_count st' = Z.of_nat (length (concat (ready st'))) ->
  StronglySorted (fun a b => timeout_of st' a <= timeout_of st' b) (pending_timeout st') ->
  (forall h, pending_timeout_last st' = Some h -> h ∈ pending_timeout st') ->
  sched_inv (D ∖ {[id]}) st'.
Proof.
  intros [P N R C T S L Z CP A] Ht Hd Et Hre Hq Hr Hcp Hc Hs Hl.
  assert (Hni : forall pl, id ∉ queue st pl) by (intros pl (ti & _ & Hdi & _)%P; done). split.
  - intros i pl. rewrite Hq, Et. case_decide as Hpl.
    + rewrite elem_of_cons, P. split.
      * intros [->|(ti & Hti & Hdi & Hpi)]; [exists t; split_and!; [done|set_solver|done]|]. exists ti. split_and!; [done|set_solver|done].
      * intros (ti & Hti & Hdi & Hpi). destruct (decide (i = id)) as [->|Hne]; [by left|]. right. exists ti.
        split_and!; [done|set_solver|done].
    + rewrite P. split; intros (ti & Hti & Hdi & Hpi); exists ti; (split_and!; [done| |done]); [set_solver|].
      intros Hin. destruct (decide (i = id)) as [->|Hne]; [congruence|]. set_solver.
  - intros pl. rewrite Hq. case_decide; [apply NoDup_cons; split; [apply Hni|]|]; apply N.
  - by rewrite Hr.
  - done.
  - intros i ti Hti. rewrite Et in Hti. destruct (T i ti Hti) as [Hok Hr']. split; [done|]. intros Hdi Hin.
    destruct (decide (i = id)) as [->|Hne]; [assert (ti = t) as -> by congruence; auto|]. apply Hr'; [set_solver|done].
  - done.
  - done.
  - by rewrite Et.
  - by rewrite Hcp.
  - rewrite Et. apply elem_of_dom_2 in Ht. set_solver.
Qed.
End Moves.

(** The order of a list depends on the times of its members only. *)
Lemma sorted_ext {A} (f g : A -> Z) l : (forall x, x ∈ l -> f x = g x) ->
  StronglySorted (fun a b => f a <= f b) l -> StronglySorted (fun a b => g a <= g b) l.
Proof.
  intros H Hs. induction Hs as [|x l _ IH Hx]; [constructor|]. apply StronglySorted_cons. split.
  - eapply Forall_forall. intros y Hy. eapply Forall_forall in Hx; [|exact Hy]. cbn in Hx. rewrite <- !H; [done| |]; set_solver.
  - apply IH. intros y Hy. apply H. set_solver.
Qed.

(** A task that is in no list, or that is new, gets its fields. *)
Lemma inv_set_task D st id t : sched_inv D st -> tasks st !! id = None \/ id ∈ D -> task_ok t ->
  Z.of_nat (size (<[id := t]> (tasks st))) < 2 ^ 32 -> sched_inv ({[id]} ∪ D) (set_task id t st).
Proof.
  intros [P N R C T S L Z CP A] H0 Hok Hsz.
  assert (Hni : forall pl, id ∉ queue st pl) by (intros pl (ti & Hti & Hdi & _)%P; destruct H0; congruence).
  split; cbn [set_task tasks ready ready_count pending_timeout pending_timeout_last current_priority]; try done.
  - intros i pl. change (queue (set_task id t st) pl) with (queue st pl).
    destruct (decide (i = id)) as [->|Hne].
    + split; [intros Hi; by apply Hni in Hi|]. intros (ti & _ & ? & _). set_solver.
    + rewrite P, lookup_insert_ne by done. split; intros (ti & ? & ? & ?); exists ti; (split_and!; [done| |done]); set_solver.
  - intros i ti. destruct (decide (i = id)) as [->|Hne].
    + rewrite lookup_insert_eq. intros [= <-]. split; [done|set_solver].
    + rewrite lookup_insert_ne by done. intros Hti. apply T in Hti as [??]. split; [done|set_solver].
  - eapply sorted_ext; [|exact S]. intros x Hx. unfold timeout_of. cbn [set_task tasks].
    rewrite lookup_insert_ne; [done|]. intros ->. by apply (Hni PTimeout).
  - set_solver.
Qed.

(** A task that is in no list is freed. *)
Lemma inv_free_task D st id : sched_inv D st -> id ∈ D -> sched_inv (D ∖ {[id]}) (free_task id st).
Proof.
  intros [P N R C T S L Z CP A] Hd.
  assert (Hni : forall pl, id ∉ queue st pl) by (intros pl (ti & Hti & Hdi & _)%P; done).
  split; cbn [free_task tasks ready ready_count pending_timeout pending_timeout_last current_priority]; try done.
  - intros i pl. change (queue (free_task id st) pl) with (queue st pl).
    destruct (decide (i = id)) as [->|Hne].
    + rewrite lookup_delete_eq. split; [intros Hi; by apply Hni in Hi|]. by intros (ti & ? & _).
    + rewrite P, lookup_delete_ne by done. split; intros (ti & ? & ? & ?); exists ti; (split_and!; [done| |done]); set_solver.
  - intros i ti [Hne Hti]%lookup_delete_Some. apply T in Hti as [??]. split; [done|set_solver].
  - eapply sorted_ext; [|exact S]. intros x Hx. unfold timeout_of. cbn [free_task tasks].
    rewrite lookup_delete_ne; [done|]. intros ->. by apply (Hni PTimeout).
  - destruct (tasks st !! id) eqn:E; [|by rewrite delete_id]. rewrite map_size_delete_Some by eauto. lia.
  - set_solver.
Qed.

(** Other variables do not matter. *)
Lemma inv_ext D st st' : sched_inv D st -> tasks st' = tasks st -> (forall pl, queue st' pl = queue st pl) ->
  ready st' = ready st -> ready_count st' = ready_count st -> pending_timeout_last st' = pending_timeout_last st ->
  0 < current_priority st' < GNUNET_SCHEDULER_PRIORITY_COUNT -> sched_inv D st'.
Proof.
  intros [P N R C T S L Z CP A] Et Hq Er Ec El Hp. pose proof (Hq PTimeout) as Eq. cbn in Eq.
  split; rewrite ?Et, ?Er, ?Ec, ?El, ?Eq; try done.
  - intros i pl. rewrite Hq. apply P.
  - intros pl. rewrite Hq. apply N.
  - eapply sorted_ext; [|exact S]. intros x _. unfold timeout_of. by rewrite Et.
Qed.

(** ** The ready queues *)

Lemma concat_bind_seq (ls : list (list Z)) : concat ls = seq 0 (length ls) ≫= (fun p => default [] (ls !! p)).
Proof.
  induction ls as [|l ls IH]; [done|]. cbn [concat length seq]. rewrite bind_cons. cbn [lookup list_lookup default]. f_equal.
  rewrite <- fmap_S_seq, IH. clear. generalize (seq 0 (length ls)) as s. intros s. induction s as [|x s IH]; [done|].
  cbn [fmap list_fmap]. rewrite !bind_cons. by rewrite IH.
Qed.

Lemma concat_insert_length (ls : list (list Z)) p q q' : ls !! p = Some q ->
  (length (concat (<[p := q']> ls)) + length q = length (concat ls) + length q')%nat.
Proof.
  revert p. induction ls as [|l ls IH]; intros p Hp; [done|]. destruct p as [|p]; cbn in Hp |- *.
  - injection Hp as ->. rewrite !length_app. lia.
  - rewrite !length_app, <- !Nat.add_assoc. f_equal. exact (IH _ Hp).
Qed.

Lemma queue_set_ready st r p q n pl : r = ready st -> (p < length r)%nat ->
  queue (set_ready_queues (<[p := q]> r) n st) pl = if decide (pl = PReady p) then q else queue st pl.
Proof.
  intros -> Hp. case_decide as E; [subst pl; cbn; by rewrite list_lookup_insert_eq|].
  destruct pl; try done. cbn. rewrite list_lookup_insert_ne by congruence. done.
Qed.

Section ReadyQueues.
Context (D : gset Z) (st : SchedulerState) (I : sched_inv D st).

Lemma ready_concat id : id ∈ concat (ready st) <-> exists t, tasks st !! id = Some t /\ id ∉ D /\ exists p, place t = PReady p.
Proof.
  rewrite concat_bind_seq, list_elem_of_bind. split.
  - intros (p & Hid & _). apply (si_place _ _ I id (PReady p)) in Hid as (t & ? & ? & ?). eauto 10.
  - intros (t & Ht & Hd & p & Hp). exists p. assert (Hq : id ∈ queue st (PReady p)) by (apply (si_place _ _ I); eauto). split; [done|].
    apply elem_of_seq. cbn in Hq. destruct (ready st !! p) as [q|] eqn:Eq; [|by apply elem_of_nil in Hq].
    apply lookup_lt_Some in Eq. lia.
Qed.

Lemma ready_nodup : NoDup (concat (ready st)).
Proof.
  rewrite concat_bind_seq. apply NoDup_bind.
  - intros p1 p2 id _ _ H1 H2. apply (si_place _ _ I id (PReady p1)) in H1 as (t1 & ? & _ & ?).
    apply (si_place _ _ I id (PReady p2)) in H2 as (t2 & ? & _ & ?). congruence.
  - intros p _. apply (si_nodup _ _ I (PReady p)).
  - apply NoDup_ListNoDup, seq_NoDup.
Qed.

Lemma ready_count_range : 0 <= ready_count st < 2 ^ 32.
Proof.
  rewrite (si_count _ _ I). pose proof (si_size _ _ I).
  assert (length (concat (ready st)) <= size (tasks st))%nat; [|lia].
  rewrite <- size_dom, <- (size_list_to_set (C := gset Z) _ ready_nodup). apply subseteq_size.
  intros id Hid%elem_of_list_to_set. apply ready_concat in Hid as (t & ? & _). by apply elem_of_dom.
Qed.

Lemma ready_count_room id : id ∈ D -> is_Some (tasks st !! id) -> ready_count st + 1 < 2 ^ 32.
Proof.
  intros Hd Hid. rewrite (si_count _ _ I). pose proof (si_size _ _ I).
  assert (length (id :: concat (ready st)) <= size (tasks st))%nat; [|cbn in *; lia].
  assert (Hn : NoDup (id :: concat (ready st))).
  { apply NoDup_cons. split; [|apply ready_nodup]. intros (t & ? & ? & _)%ready_concat. done. }
  rewrite <- size_dom, <- (size_list_to_set (C := gset Z) _ Hn). apply subseteq_size.
  intros i [->|Hi]%elem_of_list_to_set%elem_of_cons; [by apply elem_of_dom|].
  apply ready_concat in Hi as (t & ? & _). by apply elem_of_dom.
Qed.
End ReadyQueues.

Definition same_waiting (st st' : SchedulerState) : Prop :=
  pending st' = pending st /\ shutdown_tasks st' = shutdown_tasks st /\ pending_timeout st' = pending_timeout st
  /\ pending_timeout_last st' = pending_timeout_last st.

Lemma task_priority t : task_ok t -> check_priority (priority t) = Some (priority t).
Proof. intros [[? ?] _ _ _]. unfold check_priority, GNUNET_SCHEDULER_PRIORITY_COUNT in *. case_match eqn:E; [done|lia]. Qed.

Lemma ready_lookup D st t : sched_inv D st -> task_ok t ->
  ready st !! Z.to_nat (priority t) = Some (queue st (PReady (Z.to_nat (priority t)))).
Proof.
  intros I [[? ?] _ _ _]. cbn. destruct (ready st !! Z.to_nat (priority t)) eqn:E; [done|]. apply lookup_ge_None in E.
  rewrite (si_ready _ _ I) in E. lia.
Qed.

Lemma queue_ready_task_ok D st id t : sched_inv D st -> tasks st !! id = Some t -> id ∈ D ->
  exists st', queue_ready_task id st = Some st' /\ sched_inv (D ∖ {[id]}) st' /\ same_rest st st' /\ same_waiting st st'
    /\ tasks st' = <[id := set_in_ready t]> (tasks st).
Proof.
  intros I Ht Hd. destruct (si_tasks _ _ I _ _ Ht) as [Hok _]. unfold queue_ready_task.
  rewrite Ht, (task_priority _ Hok), (ready_lookup _ _ _ I Hok). unfold DLL_insert.
  set (p := Z.to_nat (priority t)). set (q := queue st (PReady p)).
  assert (Hq : id ∉ q) by (intros (ti & _ & ? & _)%(si_place _ _ I); done).
  rewrite bool_decide_eq_false_2 by done. eexists. split; [reflexivity|].
  split; [|split; [done|split; done]].
  assert (I' : sched_inv D (set_task id (set_in_ready t) st)).
  { replace D with ({[id]} ∪ D) by set_solver. apply inv_set_task; [done|by right|by destruct Hok|].
    rewrite map_size_insert_Some by eauto. apply I. }
  assert (Hp : ready st !! p = Some q) by exact (ready_lookup _ _ _ I Hok).
  pose proof (lookup_lt_Some _ _ _ Hp).
  eapply attach; [exact I'|apply lookup_insert_eq|done|done|done| |apply length_insert|done| |apply I'|].
  - intros pl. rewrite queue_set_ready by done. change (place (set_in_ready t)) with (PReady p).
    case_decide as E; [subst pl; done|done].
  - cbn [set_ready_queues set_task ready ready_count]. rewrite (si_count _ _ I). pose proof (concat_insert_length _ _ _ (id :: q) Hp) as Hl. cbn [length] in Hl.
    pose proof (ready_count_room _ _ I _ Hd (mk_is_Some _ _ Ht)) as Hr. rewrite (si_count _ _ I) in Hr.
    rewrite u32_small by (unfold is_u32; lia). lia.
  - apply I'.
Qed.

(** ** The list of tasks that wait for a time *)

(** The task goes after all that are not due later. *)
Fixpoint insert_ordered (st : SchedulerState) (addr at_ : Z) (l : list Z) : list Z :=
  match l with
  | [] => [addr]
  | x :: l' => if timeout_of st x <=? at_ then x :: insert_ordered st addr at_ l' else addr :: l
  end.

Lemma insert_ordered_app st addr at_ l1 l2 : (forall x, x ∈ l1 -> timeout_of st x <= at_) ->
  (forall x, head l2 = Some x -> at_ < timeout_of st x) -> insert_ordered st addr at_ (l1 ++ l2) = l1 ++ addr :: l2.
Proof.
  intros H1 H2. induction l1 as [|x l1 IH]; cbn.
  - destruct l2 as [|y l2]; [done|]. cbn. specialize (H2 y eq_refl). case_match; [lia|done].
  - specialize (H1 x ltac:(set_solver)) as Hx. case_match; [|lia]. f_equal. apply IH. intros y Hy. apply H1. set_solver.
Qed.

Lemma insert_ordered_perm st addr at_ l : insert_ordered st addr at_ l ≡ₚ addr :: l.
Proof. induction l as [|x l IH]; cbn; [done|]. case_match; [|done]. rewrite IH. apply Permutation_swap. Qed.

Lemma insert_ordered_sorted st addr at_ l : timeout_of st addr = at_ ->
  StronglySorted (fun a b => timeout_of st a <= timeout_of st b) l ->
  StronglySorted (fun a b => timeout_of st a <= timeout_of st b) (insert_ordered st addr at_ l).
Proof.
  intros Ha Hs. induction Hs as [|x l Hs IH Hx]; cbn; [repeat constructor|]. case_match eqn:E.
  - apply StronglySorted_cons. split; [|done]. rewrite insert_ordered_perm. constructor; [lia|done].
  - apply StronglySorted_cons. split; [|by apply StronglySorted_cons]. constructor; [lia|].
    eapply Forall_impl; [exact Hx|]. intros y Hy. cbn in Hy. lia.
Qed.

Lemma insert_ordered_ext st st' addr at_ l : (forall x, x ∈ l -> timeout_of st x = timeout_of st' x) ->
  insert_ordered st addr at_ l = insert_ordered st' addr at_ l.
Proof.
  intros H. induction l as [|x l IH]; cbn; [done|]. rewrite (H x) by set_solver. case_match; [|done]. f_equal. apply IH.
  intros y Hy. apply H. set_solver.
Qed.

Lemma split_at_ok id before l : id ∈ l -> exists b a, split_at id before l = Some (b, a) /\ rev b ++ a = rev before ++ l.
Proof.
  revert before. induction l as [|x l IH]; intros before Hid; [by apply elem_of_nil in Hid|]. cbn.
  case_match eqn:E; [exists (x :: before), l; split; [done|]; cbn; by rewrite <- (app_assoc _ [x] l)|].
  destruct (IH (x :: before)) as (b & a & -> & Hl); [apply elem_of_cons in Hid as [->|]; [lia|done]|].
  exists b, a. split; [done|]. rewrite Hl. cbn. by rewrite <- app_assoc.
Qed.

Section InsertTimeout.
Context (st : SchedulerState) (at_ : GNUNET_TIME_Absolute).

Lemma move_back_ok before after : (forall x, x ∈ before -> is_Some (tasks st !! x)) ->
  exists b a, move_back st at_ before after = Some (b, a) /\ rev b ++ a = rev before ++ after
    /\ (forall x, head b = Some x -> timeout_of st x <= abs_value_us at_).
Proof.
  revert after. induction before as [|x before IH]; intros after H; cbn; [exists [], after; done|].
  destruct (H x) as [t Ht]; [set_solver|]. rewrite Ht. case_match eqn:E.
  - destruct (IH (x :: after)) as (b & a & -> & Hl & Hh); [set_solver|]. exists b, a. split_and!; [done| |done].
    rewrite Hl. cbn. by rewrite <- app_assoc.
  - exists (x :: before), after. split_and!; [done|done|]. intros ? [= <-]. unfold timeout_of. rewrite Ht. lia.
Qed.

Lemma move_forward_ok before after : (forall x, x ∈ after -> exists t, tasks st !! x = Some t /\ reason t = 0) ->
  exists b a, move_forward st at_ before after = Some (rev b ++ before, a) /\ b ++ a = after
    /\ (forall x, x ∈ b -> timeout_of st x <= abs_value_us at_)
    /\ (forall x, head a = Some x -> abs_value_us at_ < timeout_of st x).
Proof.
  revert before. induction after as [|y after IH]; intros before H; cbn.
  { exists [], []. split_and!; [done|done| |done]. intros x Hx. by apply elem_of_nil in Hx. }
  destruct (H y) as (t & Ht & Hr); [set_solver|]. rewrite Ht, Hr. cbn. case_match eqn:E.
  - destruct (IH (y :: before)) as (b & a & -> & <- & Hb & Ha); [set_solver|]. exists (y :: b), a.
    split_and!; [cbn; by rewrite <- app_assoc|done| |done].
    intros x [->|Hx]%elem_of_cons; [unfold timeout_of; rewrite Ht; lia|auto].
  - exists [], (y :: after). split_and!; [done|done| |]; [intros x Hx; by apply elem_of_nil in Hx|].
    intros ? [= <-]. unfold timeout_of. rewrite Ht. lia.
Qed.
End InsertTimeout.

Lemma place_waiting t pl : place t = pl -> (forall p, pl <> PReady p) -> in_ready_list t = GNUNET_NO.
Proof. unfold place. case_match eqn:E; [intros <- H; by destruct (H (Z.to_nat (priority t)))|]. intros _ _. lia. Qed.

Lemma waiting_task D st pl id : sched_inv D st -> (forall p, pl <> PReady p) -> id ∈ queue st pl ->
  exists t, tasks st !! id = Some t /\ (id ∉ D) /\ place t = pl /\ task_ok t /\ in_ready_list t = GNUNET_NO /\ reason t = 0.
Proof.
  intros I Hp Hid. apply (si_place _ _ I) in Hid as (t & Ht & Hd & Hpl). pose proof (place_waiting _ _ Hpl Hp) as Hn.
  destruct (si_tasks _ _ I _ _ Ht) as [Hok Hr]. exists t. split_and!; auto.
Qed.

Lemma sorted_last_bound (f : Z -> Z) b a z : StronglySorted (fun x y => f x <= f y) (rev b ++ a) ->
  (forall x, head b = Some x -> f x <= z) -> forall x, x ∈ b -> f x <= z.
Proof.
  destruct b as [|y b]; [intros _ _ x Hx; by apply elem_of_nil in Hx|]. intros Hs Hh x [->|Hx]%elem_of_cons; [auto|].
  specialize (Hh y eq_refl). cbn in Hs. rewrite <- app_assoc in Hs.
  apply elem_of_rev in Hx.
  apply StronglySorted_app_1_elem_of with (x1 := x) (x2 := y) in Hs; [lia|done|set_solver].
Qed.

(** The place found from the last insertion is the place found from the start. *)
Lemma insert_timeout_ok D st addr at_ : sched_inv D st -> tasks st !! addr = None ->
  insert_timeout addr at_ st = Some (insert_ordered st addr (abs_value_us at_) (pending_timeout st)).
Proof.
  intros I Hn. pose proof (fun x => waiting_task _ _ PTimeout x I ltac:(done)) as W. cbn in W. unfold insert_timeout.
  destruct (pending_timeout st) as [|h l] eqn:El; [done|].
  destruct (W h) as (th & Hth & _); [set_solver|]. rewrite Hth.
  assert (Hh : timeout_of st h = abs_value_us (timeout th)) by (unfold timeout_of; by rewrite Hth).
  case_match eqn:E; [unfold DLL_insert; rewrite bool_decide_eq_false_2;
    [cbn [insert_ordered]; rewrite Hh, (proj2 (Z.leb_gt _ _)) by lia; done|intros (t & Ht & _)%W; congruence]|].
  assert (exists b a, match pending_timeout_last st with
                      | None => Some ([], h :: l)
                      | Some last => split_at last [] (h :: l)
                      end = Some (b, a) /\ rev b ++ a = h :: l) as (b & a & -> & Hl).
  { destruct (pending_timeout_last st) as [z|] eqn:Ez; [|by exists [], (h :: l)].
    apply split_at_ok. rewrite <- El. by apply I. }
  destruct (move_back_ok st at_ b a) as (b1 & a1 & -> & Hl1 & Hb1).
  { intros x Hx. destruct (W x) as (t & Ht & _); [|by rewrite Ht]. rewrite <- Hl. apply elem_of_app. left.
    by apply elem_of_rev. }
  destruct (move_forward_ok st at_ b1 a1) as (b2 & a2 & -> & <- & Hb2 & Ha2).
  { intros x Hx. destruct (W x) as (t & Ht & _ & _ & _ & _ & Hr); [|eauto]. rewrite <- Hl, <- Hl1. set_solver. }
  f_equal. rewrite rev_app_distr, rev_involutive, <- Hl, <- Hl1, (app_assoc (rev b1)).
  pose proof (si_sorted _ _ I) as S. rewrite El, <- Hl, <- Hl1 in S.
  rewrite insert_ordered_app; [done| |done].
  intros x [Hx|Hx]%elem_of_app; [|auto]. eapply sorted_last_bound; [exact S|exact Hb1|].
  by apply elem_of_rev.
Qed.

(** ** Operations *)

(** A new task waits. *)
Lemma added D st st' addr t : sched_inv D st -> tasks st !! addr = None -> Z.of_nat (size (tasks st)) + 1 < 2 ^ 32 ->
  task_ok t -> reason t = 0 -> tasks st' = <[addr := t]> (tasks st) ->
  (forall pl, queue st' pl ≡ₚ if decide (pl = place t) then addr :: queue st pl else queue st pl) ->
  ready st' = ready st -> ready_count st' = ready_count st -> current_priority st' = current_priority st ->
  StronglySorted (fun a b => timeout_of st' a <= timeout_of st' b) (pending_timeout st') ->
  (forall h, pending_timeout_last st' = Some h -> h ∈ pending_timeout st') -> sched_inv D st'.
Proof.
  intros I Hn Hsz Hok Hr Et Hq Er Ec Ep Hs Hl.
  assert (I1 : sched_inv ({[addr]} ∪ D) (set_task addr t st)).
  { apply inv_set_task; [done|by left|done|]. rewrite map_size_insert_None by done. lia. }
  assert (HD : addr ∉ D) by (intros HD; apply (si_apart _ _ I) in HD; apply not_elem_of_dom in Hn; done).
  replace D with (({[addr]} ∪ D) ∖ {[addr]}) by set_solver.
  eapply attach; [exact I1|apply lookup_insert_eq|set_solver|done|done|done|by rewrite Er|done| |done|done].
  rewrite Er, Ec. apply (si_count _ _ I).
Qed.

Lemma inv_set_lifeness D st id t life : sched_inv D st -> tasks st !! id = Some t -> sched_inv D (set_task id (set_lifeness life t) st).
Proof.
  intros [P N R C T S L Z CP A] Ht.
  assert (Hi : forall i, tasks (set_task id (set_lifeness life t) st) !! i =
    (if decide (i = id) then Some (set_lifeness life t) else tasks st !! i)).
  { intros i. cbn. case_decide as E; [subst i; apply lookup_insert_eq|by rewrite lookup_insert_ne]. }
  split; try done.
  - intros i pl. change (queue (set_task id (set_lifeness life t) st) pl) with (queue st pl). rewrite P, Hi.
    case_decide as E; [subst i|done]. split; intros (ti & Hti & Hr).
    + assert (ti = t) as -> by congruence. by exists (set_lifeness life t).
    + injection Hti as <-. by exists t.
  - intros i ti. rewrite Hi. case_decide as E; [subst i; intros [= <-]; destruct (T _ _ Ht) as [[] ?]; split; [by split|done]|apply T].
  - eapply sorted_ext; [|exact S]. intros x _. unfold timeout_of. rewrite Hi. case_decide as E; [subst x; by rewrite Ht|done].
  - cbn. rewrite map_size_insert_Some by eauto. done.
  - cbn. rewrite dom_insert_lookup_L by eauto. done.
Qed.

(** What remains of the tasks after some events; events happen to tasks that are there. *)
Fixpoint history (ev : list sched_event) (live : gset Z) : option (gset Z) :=
  match ev with
  | [] => Some live
  | Added id :: ev => assert? negb (bool_decide (id ∈ live)) in history ev ({[id]} ∪ live)
  | Cancelled id :: ev | Started id _ :: ev => assert? bool_decide (id ∈ live) in history ev (live ∖ {[id]})
  end.

Lemma history_app e1 e2 l1 l2 : history e1 l1 = Some l2 -> history (e1 ++ e2) l1 = history e2 l2.
Proof.
  revert l1. induction e1 as [|e e1 IH]; intros l1; cbn; [by intros [= ->]|].
  destruct e; (case_match; [|done]); apply IH.
Qed.

(** What an operation does to the rest of the state. *)
Record op_effect (D : gset Z) (st st' : SchedulerState) (ev : list sched_event) : Prop := {
  oe_inv : sched_inv D st';
  oe_active : active_task st' = active_task st;
  oe_life : current_lifeness st' = current_lifeness st;
  oe_run : tasks_run st' = tasks_run st;
  oe_apart : forall x, x ∈ D -> tasks st' !! x = tasks st !! x;
  oe_history : history ev (dom (tasks st) ∖ D) = Some (dom (tasks st') ∖ D);
  oe_ready : forall id t, tasks st !! id = Some t -> in_ready_list t <> GNUNET_NO -> (Cancelled id ∉ ev) -> tasks st' !! id = Some t;
}.

Lemma added_effect D st st' addr t : sched_inv D st -> sched_inv D st' -> tasks st !! addr = None ->
  tasks st' = <[addr := t]> (tasks st) -> active_task st' = active_task st -> current_lifeness st' = current_lifeness st ->
  tasks_run st' = tasks_run st -> op_effect D st st' [Added addr].
Proof.
  intros I I' Hn Et Ha Hc Hr.
  assert (HD : addr ∉ dom (tasks st)) by by apply not_elem_of_dom. pose proof (si_apart _ _ I) as HA.
  split; try done.
  - intros x Hx. rewrite Et, lookup_insert_ne; [done|]. intros ->. set_solver.
  - cbn. rewrite bool_decide_eq_false_2 by set_solver. cbn. rewrite Et, dom_insert_L. f_equal. set_solver.
  - intros id ti Hi _ _. rewrite Et, lookup_insert_ne; [done|]. intros ->. congruence.
Qed.

Lemma effect_trans D st st1 st2 e1 e2 : op_effect D st st1 e1 -> op_effect D st1 st2 e2 -> op_effect D st st2 (e1 ++ e2).
Proof.
  intros [I A C R P H K] [I' A' C' R' P' H' K']. split; try congruence.
  - intros x Hx. rewrite P', P; done.
  - by rewrite (history_app _ _ _ _ H).
  - intros id t Ht Hr Hc. apply K'; [apply K| |]; set_solver.
Qed.

Lemma effect_refl D st : sched_inv D st -> op_effect D st st [].
Proof. done. Qed.

(** What a callback may ask for. New tasks get addresses that are not in use. *)
Definition new_task_allowed (addr task : Z) (st : SchedulerState) : Prop :=
  tasks st !! addr = None /\ Z.of_nat (size (tasks st)) + 1 < 2 ^ 32 /\ task <> 0.

Definition own_priority (p : Z) : Prop := 0 < p < GNUNET_SCHEDULER_PRIORITY_COUNT.

Definition op_allowed (op : sched_op) (st : SchedulerState) : Prop :=
  match op with
  | AddWithReason addr task _ _ p | AddDelayed _ addr _ p task _ => new_task_allowed addr task st /\ own_priority p
  | AddAt addr at_ p task _ => new_task_allowed addr task st /\ own_priority p /\ is_u64 (abs_value_us at_)
  | AddNowWithLifeness _ addr _ task _ | AddShutdown addr task _ => new_task_allowed addr task st
  | AddFd _ addr _ p fd on_read on_write task _ =>
      new_task_allowed addr task st /\ (p = GNUNET_SCHEDULER_PRIORITY_KEEP \/ own_priority p) /\ 0 <= fd < FD_SETSIZE
      /\ on_read || on_write = true
  | AddSelect _ addr p _ rs ws task _ =>
      new_task_allowed addr task st
      /\ (own_priority p \/ p = GNUNET_SCHEDULER_PRIORITY_KEEP /\ (rs <> None \/ ws <> None))
  | Cancel id => is_Some (tasks st !! id) /\ active_task st <> Some id
  | Shutdown => True
  | GetLoad p => 0 <= p <= GNUNET_SCHEDULER_PRIORITY_COUNT
  end.

Lemma relative_to_absolute_u64 now delay : is_u64 (abs_value_us (GNUNET_TIME_relative_to_absolute now delay)).
Proof. unfold GNUNET_TIME_relative_to_absolute. repeat case_match; cbn; [done|done|apply u64_range]. Qed.

Lemma timeout_of_others D st st' addr t : sched_inv D st -> tasks st !! addr = None -> tasks st' = <[addr := t]> (tasks st) ->
  forall x, x ∈ pending_timeout st -> timeout_of st x = timeout_of st' x.
Proof.
  intros I Hn Et x Hx. apply (si_place _ _ I x PTimeout) in Hx as (tx & Hx & _). unfold timeout_of.
  rewrite Et, lookup_insert_ne; [done|]. intros ->. congruence.
Qed.

Section Operations.
Context (D : gset Z) (st : SchedulerState) (I : sched_inv D st) (Hact : active_task st <> None).

Lemma add_with_reason_ok addr task cls reason p : active_task st <> None \/ reason = GNUNET_SCHEDULER_REASON_STARTUP ->
  new_task_allowed addr task st -> own_priority p ->
  exists st', GNUNET_SCHEDULER_add_with_reason_and_priority addr task cls reason p st = Some st' /\ op_effect D st st' [Added addr].
Proof.
  clear Hact. intros Ha (Hn & Hs & Ht) Hp. unfold GNUNET_SCHEDULER_add_with_reason_and_priority. rewrite (proj2 (Z.eqb_neq _ _)) by done. cbn [negb].
  replace (_ || _) with true by (destruct Ha as [Ha| ->]; [by rewrite bool_decide_eq_true_2|by rewrite orb_true_r]).
  set (t := mk_task _ _ _ _ _ _ _ _ _ _ _ _).
  assert (I1 : sched_inv ({[addr]} ∪ D) (set_task addr t st)).
  { apply inv_set_task; [done|by left|split; [done|by left|by left|done]|]. rewrite map_size_insert_None by done. lia. }
  destruct (queue_ready_task_ok _ _ addr t I1) as (st' & -> & I' & (A & _ & L & _ & R) & _ & Et); [apply lookup_insert_eq|set_solver|].
  exists st'. split; [done|]. assert (HD : addr ∉ D) by (intros HD; apply (si_apart _ _ I) in HD; by apply not_elem_of_dom in Hn).
  replace (({[addr]} ∪ D) ∖ {[addr]}) with D in I' by set_solver.
  eapply added_effect; try done. rewrite Et. apply insert_insert_eq.
Qed.

Lemma add_at_ok addr at_ p task cls : new_task_allowed addr task st -> own_priority p -> is_u64 (abs_value_us at_) ->
  exists st', GNUNET_SCHEDULER_add_at_with_priority addr at_ p task cls st = Some st' /\ op_effect D st st' [Added addr].
Proof.
  intros (Hn & Hs & Ht) Hp Hat. unfold GNUNET_SCHEDULER_add_at_with_priority. rewrite (proj2 (Z.eqb_neq _ _)), bool_decide_eq_true_2 by done. cbn.
  set (t := mk_task _ _ _ _ _ _ _ _ _ _ _ _). rewrite (insert_timeout_ok _ _ _ _ I Hn). eexists. split; [done|].
  set (l := insert_ordered _ _ _ _). set (st' := set_timeouts _ _ _).
  assert (El : l = insert_ordered st' addr (abs_value_us at_) (pending_timeout st)).
  { apply insert_ordered_ext. by eapply timeout_of_others. }
  assert (Hto : timeout_of st' addr = abs_value_us at_) by (unfold timeout_of, st'; cbn; by rewrite lookup_insert_eq).
  apply (added_effect _ _ _ _ t); try done.
  apply (added D st _ addr t); try done; cbn [st' set_timeouts set_task pending_timeout pending_timeout_last].
  - split; [done|by left|by left|done].
  - intros pl. case_decide as E; [subst pl; apply insert_ordered_perm|by destruct pl].
  - fold st'. rewrite El. apply insert_ordered_sorted; [done|]. apply (sorted_ext (timeout_of st)); [|apply I]. by eapply (timeout_of_others _ st _ addr t I).
  - intros h [= <-]. unfold l. rewrite insert_ordered_perm. set_solver.
Qed.

Lemma add_shutdown_ok addr task cls : new_task_allowed addr task st ->
  exists st', GNUNET_SCHEDULER_add_shutdown addr task cls st = Some st' /\ op_effect D st st' [Added addr].
Proof.
  intros (Hn & Hs & Ht). unfold GNUNET_SCHEDULER_add_shutdown. rewrite (proj2 (Z.eqb_neq _ _)), bool_decide_eq_true_2 by done. cbn.
  set (t := mk_task _ _ _ _ _ _ _ _ _ _ _ _). unfold DLL_insert.
  rewrite bool_decide_eq_false_2 by (intros (tx & Hx & _)%(si_place _ _ I addr PShutdown); congruence). cbn. eexists. split; [done|].
  apply (added_effect _ _ _ _ t); try done.
  apply (added D st _ addr t); try done.
  - split; [done|by left|by left|done].
  - intros pl. case_decide as E; [by subst pl|by destruct pl].
  - apply (sorted_ext (timeout_of st)); [|apply I]. by eapply (timeout_of_others _ st _ addr t I).
  - apply I.
Qed.

Lemma add_pending_ok addr t : tasks st !! addr = None -> Z.of_nat (size (tasks st)) + 1 < 2 ^ 32 -> task_ok t ->
  reason t = 0 -> place t = PPending ->
  exists st', add_pending addr t st = Some st' /\ op_effect D st st' [Added addr].
Proof.
  intros Hn Hs Hok Hr Hpl. unfold add_pending, DLL_insert.
  rewrite bool_decide_eq_false_2 by (intros (tx & Hx & _)%(si_place _ _ I addr PPending); congruence). cbn. eexists. split; [done|].
  apply (added_effect _ _ _ _ t); try done.
  apply (added D st _ addr t); try done.
  - intros pl. rewrite Hpl. case_decide as E; [by subst pl|by destruct pl].
  - apply (sorted_ext (timeout_of st)); [|apply I]. by eapply (timeout_of_others _ st _ addr t I).
  - apply I.
Qed.

Lemma keep_priority_ok p : p = GNUNET_SCHEDULER_PRIORITY_KEEP \/ own_priority p -> exists q, keep_priority p st = Some q /\ own_priority q.
Proof.
  intros Hp. unfold keep_priority, check_priority. pose proof (si_current _ _ I) as HC.
  set (q := if p =? GNUNET_SCHEDULER_PRIORITY_KEEP then current_priority st else p). assert (Hq : own_priority q).
  { unfold q, own_priority in *. case_match; [done|]. unfold GNUNET_SCHEDULER_PRIORITY_KEEP in *. lia. }
  exists q. split; [|done]. unfold own_priority in Hq. case_match; [done|lia].
Qed.
End Operations.

(** A task that has been taken from its list is made ready. *)
Lemma wake_task D st id t t' : sched_inv ({[id]} ∪ D) st -> id ∉ D -> tasks st !! id = Some t -> task_ok t' ->
  exists st', queue_ready_task id (set_task id t' st) = Some st' /\ sched_inv D st' /\ same_rest st st' /\ same_waiting st st'
    /\ tasks st' = <[id := set_in_ready t']> (tasks st).
Proof.
  intros I Hd Ht Hok.
  assert (I1 : sched_inv ({[id]} ∪ D) (set_task id t' st)).
  { replace ({[id]} ∪ D) with ({[id]} ∪ ({[id]} ∪ D)) by set_solver. apply inv_set_task; [done|set_solver|done|].
    rewrite map_size_insert_Some by eauto. apply I. }
  destruct (queue_ready_task_ok _ _ id t' I1) as (st' & -> & I' & R & W & Et); [apply lookup_insert_eq|set_solver|].
  exists st'. replace (({[id]} ∪ D) ∖ {[id]}) with D in I' by set_solver. split_and!; try done.
  rewrite Et. apply insert_insert_eq.
Qed.

(** The tasks of the list are changed, the others are not. *)
Definition changed (f : GNUNET_SCHEDULER_Task -> GNUNET_SCHEDULER_Task) (l : list Z) (st st' : SchedulerState) : Prop :=
  forall i, tasks st' !! i = (if decide (i ∈ l) then f else (fun t => t)) <$> tasks st !! i.

Lemma changed_nil f st : changed f [] st st.
Proof. intros i. rewrite decide_False by (by intros ?%elem_of_nil). by destruct (tasks st !! i). Qed.

Lemma changed_cons f id t l st st1 st' : tasks st !! id = Some t -> tasks st1 = <[id := f t]> (tasks st) -> id ∉ l ->
  changed f l st1 st' -> changed f (id :: l) st st'.
Proof.
  intros Ht E1 Hl H i. rewrite H, E1. destruct (decide (i = id)) as [->|Hne].
  - rewrite decide_False, decide_True by set_solver. by rewrite lookup_insert_eq, Ht.
  - rewrite lookup_insert_ne by done. case_decide; case_decide; set_solver.
Qed.

Definition shutdown_task (t : GNUNET_SCHEDULER_Task) : GNUNET_SCHEDULER_Task :=
  set_in_ready (set_reason (Z.lor (reason t) GNUNET_SCHEDULER_REASON_SHUTDOWN) t).

Lemma same_rest_trans st1 st2 st3 : same_rest st1 st2 -> same_rest st2 st3 -> same_rest st1 st3.
Proof. unfold same_rest. intuition congruence. Qed.

Lemma shutdown_loop_ok D l st : sched_inv D st -> shutdown_tasks st = l ->
  exists st', shutdown_loop l st = Some st' /\ sched_inv D st' /\ same_rest st st' /\ changed shutdown_task l st st'
    /\ shutdown_tasks st' = [] /\ pending st' = pending st /\ pending_timeout st' = pending_timeout st.
Proof.
  revert st. induction l as [|id l IH]; intros st I El; [exists st; split_and!; try done; apply changed_nil|].
  pose proof (si_nodup _ _ I PShutdown) as Hnd. cbn in Hnd. rewrite El in Hnd. apply NoDup_cons in Hnd as [Hnl _].
  destruct (waiting_task _ _ PShutdown id I) as (t & Ht & Hd & Hpl & Hok & _); [done|cbn; rewrite El; set_solver|].
  cbn [shutdown_loop]. rewrite Ht.
  assert (I1 : sched_inv ({[id]} ∪ D) (set_shutdown l st)).
  { eapply detach; [exact I|exact Ht|done|done| |done|done|apply I|apply I].
    intros pl. rewrite Hpl. case_decide as E; [subst pl; cbn; by rewrite El, filter_head|by destruct pl]. }
  destruct (wake_task _ _ id t (set_reason (Z.lor (reason t) GNUNET_SCHEDULER_REASON_SHUTDOWN) t) I1)
    as (st1 & -> & I2 & R & (Wp & Ws & Wt & Wl) & Et); [done|done|by destruct Hok|].
  cbn in Wp, Wt. destruct (IH st1 I2 Ws) as (st' & -> & I' & R' & C & E1 & E2 & E3). exists st'. split_and!; try done; try congruence.
  - by eapply same_rest_trans.
  - by eapply changed_cons.
Qed.

Lemma shutdown_ok D st : sched_inv D st ->
  exists st', GNUNET_SCHEDULER_shutdown st = Some st' /\ sched_inv D st' /\ same_rest st st'
    /\ changed shutdown_task (shutdown_tasks st) st st' /\ shutdown_tasks st' = [] /\ pending st' = pending st
    /\ pending_timeout st' = pending_timeout st.
Proof. intros I. by apply shutdown_loop_ok. Qed.

Lemma changed_dom f l st st' : changed f l st st' -> dom (tasks st') = dom (tasks st).
Proof. intros H. apply set_eq. intros i. rewrite !elem_of_dom, H. by destruct (tasks st !! i). Qed.

(** Tasks of waiting lists are changed: nothing else notices. *)
Lemma changed_effect D st st' f pl : sched_inv D st -> sched_inv D st' -> same_rest st st' -> (forall p, pl <> PReady p) ->
  changed f (queue st pl) st st' -> op_effect D st st' [].
Proof.
  intros I I' (Ha & _ & Hl & _ & Hr) Hpl C. split; try done.
  - intros x Hx. rewrite C, decide_False; [by destruct (tasks st !! x)|]. intros (t & _ & ? & _)%(waiting_task _ _ _ _ I Hpl). done.
  - cbn. by rewrite (changed_dom _ _ _ _ C).
  - intros id t Ht Hin _. rewrite C, Ht, decide_False; [done|]. intros (t' & Ht' & _ & _ & _ & Hn & _)%(waiting_task _ _ _ _ I Hpl).
    congruence.
Qed.

Lemma freed_effect D st st1 id t : sched_inv D st -> sched_inv ({[id]} ∪ D) st1 -> id ∉ D -> tasks st !! id = Some t -> tasks st1 = tasks st ->
  same_rest st st1 -> op_effect D st (free_task id st1) [Cancelled id].
Proof.
  intros I I1 Hd Ht Et (Ha & _ & Hl & _ & Hr). apply elem_of_dom_2 in Ht.
  assert (I' : sched_inv D (free_task id st1)).
  { replace D with (({[id]} ∪ D) ∖ {[id]}) by set_solver. apply inv_free_task; [done|set_solver]. }
  split; try done; cbn.
  - intros x Hx. rewrite Et, lookup_delete_ne; [done|]. by intros ->.
  - rewrite bool_decide_eq_true_2 by set_solver. f_equal. rewrite Et, dom_delete_L. set_solver.
  - intros i ti Hi _ Hc. rewrite Et, lookup_delete_ne; [done|]. intros ->. set_solver.
Qed.

(** The last insertion is forgotten with its task. *)
Lemma last_after_remove D st id (l : list Z) : sched_inv D st -> (forall x, x ∈ pending_timeout st -> x <> id -> x ∈ l) ->
  forall h, (if bool_decide (pending_timeout_last st = Some id) then None else pending_timeout_last st) = Some h -> h ∈ l.
Proof. intros I Hl h. case_bool_decide as E; [done|]. intros Hh. apply Hl; [by apply I|]. congruence. Qed.

(** A ready task is taken from its queue. *)
Lemma take_ready D st id t : sched_inv D st -> tasks st !! id = Some t -> id ∉ D -> in_ready_list t <> GNUNET_NO ->
  sched_inv ({[id]} ∪ D) (set_ready_queues (<[Z.to_nat (priority t) := filter (fun x => x <> id) (queue st (place t))]> (ready st))
    (u32 (ready_count st - 1)) st) /\ id ∈ queue st (place t) /\ place t = PReady (Z.to_nat (priority t)) /\ 0 < ready_count st.
Proof.
  intros I Ht Hd Hin. destruct (si_tasks _ _ I _ _ Ht) as [Hok _]. pose proof (ready_lookup _ _ _ I Hok) as Hp.
  assert (Hpl : place t = PReady (Z.to_nat (priority t))) by (unfold place; case_match eqn:E; [done|lia]).
  assert (Hid : id ∈ queue st (place t)) by (apply (si_place _ _ I); eauto). rewrite Hpl in Hid |- *.
  pose proof (lookup_lt_Some _ _ _ Hp) as Hlt. set (p := Z.to_nat (priority t)) in *. set (q := queue st (PReady p)) in *.
  pose proof (concat_insert_length _ _ _ (filter (fun x => x <> id) q) Hp) as Hl.
  assert (Hf : length q = S (length (filter (fun x => x <> id) q))).
  { apply filter_ne_length; [apply I|done]. }
  pose proof (ready_count_range _ _ I) as HR. rewrite (si_count _ _ I) in HR |- *.
  split; [|split_and!; [done|done|lia]].
  eapply detach; [exact I|exact Ht|done|done| |apply length_insert|done| |apply I].
  - intros pl. rewrite queue_set_ready by done. rewrite Hpl. case_decide as E; [by subst pl|done].
  - cbn [set_ready_queues ready ready_count]. rewrite u32_small by (unfold is_u32; lia). lia.
Qed.

Lemma cancel_ok D st id t : sched_inv D st -> active_task st <> None -> tasks st !! id = Some t -> id ∉ D ->
  exists st', GNUNET_SCHEDULER_cancel id st = Some (st', callback_cls t) /\ op_effect D st st' [Cancelled id].
Proof.
  intros I Hact Ht Hd. unfold GNUNET_SCHEDULER_cancel. rewrite Ht, bool_decide_eq_true_2 by done. cbn [orb].
  destruct (si_tasks _ _ I _ _ Ht) as [Hok _].
  assert (Hid : id ∈ queue st (place t)) by (apply (si_place _ _ I); eauto).
  destruct (GNUNET_NO =? in_ready_list t) eqn:E.
  - assert (Hpl : place t = if no_fds t then if GNUNET_YES =? on_shutdown t then PShutdown else PTimeout else PPending)
      by (unfold place; by rewrite E).
    fold (no_fds t).
    destruct (no_fds t); [destruct (GNUNET_YES =? on_shutdown t)|]; rewrite Hpl in Hid; cbn in Hid; unfold DLL_remove;
      rewrite bool_decide_eq_true_2 by done; (eexists; split; [reflexivity|]); eapply freed_effect; try done;
      (eapply detach; [exact I|exact Ht|done|done| |done|done|apply I|];
        [intros pl; rewrite Hpl; case_decide as E'; [by subst pl|by destruct pl]|]); cbn.
    + by eapply last_after_remove.
    + eapply last_after_remove; [done|]. intros x Hx Hne. apply list_elem_of_filter. done.
    + apply I.
  - destruct (take_ready _ _ _ _ I Ht Hd) as (I1 & _ & Hpl & _); [lia|]. rewrite (task_priority _ Hok), (ready_lookup _ _ _ I Hok).
    rewrite Hpl in Hid, I1. unfold DLL_remove. rewrite bool_decide_eq_true_2 by done. eexists. split; [reflexivity|].
    by eapply freed_effect.
Qed.

Lemma get_load_ok D st p : sched_inv D st -> active_task st <> None -> 0 <= p <= GNUNET_SCHEDULER_PRIORITY_COUNT ->
  is_Some (GNUNET_SCHEDULER_get_load p st).
Proof.
  intros I Hact Hp. unfold GNUNET_SCHEDULER_get_load. rewrite bool_decide_eq_true_2 by done. case_match eqn:E; [done|].
  pose proof (si_current _ _ I) as HC. unfold check_priority. set (q := if p =? GNUNET_SCHEDULER_PRIORITY_KEEP then current_priority st else p).
  assert (Hq : 0 <= q < GNUNET_SCHEDULER_PRIORITY_COUNT) by (unfold q; case_match; lia).
  destruct ((q >=? 0) && (q <? GNUNET_SCHEDULER_PRIORITY_COUNT)) eqn:E'; [|lia].
  destruct (ready st !! Z.to_nat q) eqn:El; [done|].
  apply lookup_ge_None in El. rewrite (si_ready _ _ I) in El. lia.
Qed.

Section Steps.
Context (D : gset Z) (st : SchedulerState) (I : sched_inv D st) (Hact : active_task st <> None).

Lemma add_fd_ok now addr delay p fd r w task cls : op_allowed (AddFd now addr delay p fd r w task cls) st ->
  exists st', GNUNET_SCHEDULER_add_net_with_priority now addr delay p fd r w task cls st = Some st' /\ op_effect D st st' [Added addr].
Proof.
  intros ((Hn & Hs & Ht) & Hp & Hfd & Hrw). unfold GNUNET_SCHEDULER_add_net_with_priority, add_without_sets.
  destruct (keep_priority_ok _ _ I p Hp) as (q & -> & Hq).
  replace (fd >=? 0) with true by lia. rewrite (proj2 (Z.eqb_neq _ _)), bool_decide_eq_true_2 by done. cbn [negb].
  replace ((if w then fd else -1) >=? -1) with true by (destruct w; lia).
  apply (add_pending_ok D); try done.
  - split; [done| | |apply relative_to_absolute_u64]; cbn; unfold fd_ok; [destruct r|destruct w]; lia.
  - unfold place, no_fds. cbn [in_ready_list read_fd write_fd read_set write_set].
    replace ((-1 =? _) && (-1 =? _)) with false by (destruct r, w; lia). done.
Qed.

Lemma add_select_ok now addr p delay rs ws task cls : op_allowed (AddSelect now addr p delay rs ws task cls) st ->
  exists st', GNUNET_SCHEDULER_add_select now addr p delay rs ws task cls st = Some st' /\ op_effect D st st' [Added addr].
Proof.
  intros ((Hn & Hs & Ht) & Hp). unfold GNUNET_SCHEDULER_add_select. destruct (bool_decide (rs = None) && bool_decide (ws = None)) eqn:E.
  - apply andb_prop in E as [->%bool_decide_eq_true ->%bool_decide_eq_true]. apply (add_at_ok D); try done; [|apply relative_to_absolute_u64].
    destruct Hp as [|[_ []]]; done.
  - destruct (keep_priority_ok _ _ I p) as (q & -> & Hq); [tauto|].
    rewrite (proj2 (Z.eqb_neq _ _)), bool_decide_eq_true_2 by done. cbn [negb].
    apply (add_pending_ok D); try done; [split; [done|by left|by left|apply relative_to_absolute_u64]|].
    by destruct rs, ws.
Qed.

Lemma add_now_with_lifeness_ok now addr life task cls : new_task_allowed addr task st ->
  exists st', GNUNET_SCHEDULER_add_now_with_lifeness now addr life task cls st = Some st' /\ op_effect D st st' [Added addr].
Proof.
  intros Hn. unfold GNUNET_SCHEDULER_add_now_with_lifeness, GNUNET_SCHEDULER_add_now, GNUNET_SCHEDULER_add_delayed, GNUNET_SCHEDULER_add_delayed_with_priority.
  destruct (add_at_ok D st I Hact addr (GNUNET_TIME_relative_to_absolute now GNUNET_TIME_UNIT_ZERO) GNUNET_SCHEDULER_PRIORITY_DEFAULT
    task cls Hn ltac:(done) (relative_to_absolute_u64 _ _)) as (st1 & -> & E). pose proof (oe_history _ _ _ _ E) as H. cbn in H.
  pose proof (si_apart _ _ I) as HA. destruct Hn as (Hn & _). apply not_elem_of_dom in Hn.
  rewrite bool_decide_eq_false_2 in H by set_solver. injection H as H.
  assert (addr ∈ dom (tasks st1)) as [t Ht]%elem_of_dom by set_solver. rewrite Ht. eexists. split; [done|].
  destruct E as [I1 A1 L1 R1 P1 H1 K1]. split; try done; cbn.
  - by apply inv_set_lifeness.
  - intros x Hx. rewrite lookup_insert_ne; [by apply P1|]. intros ->. set_solver.
  - rewrite bool_decide_eq_false_2 by set_solver. cbn. rewrite dom_insert_lookup_L by eauto. by rewrite H.
  - intros i ti Hi Hin Hc. rewrite lookup_insert_ne; [by apply K1|]. intros ->. apply elem_of_dom_2 in Hi. done.
Qed.

(** Every operation that is allowed is carried out. *)
Lemma op_step_ok op : (forall x, x ∈ D -> active_task st = Some x) -> op_allowed op st ->
  exists st' ev, sched_op_step op st = Some (st', ev) /\ op_effect D st st' ev.
Proof.
  intros HD Hop. destruct op; cbn [sched_op_step op_allowed] in *; unfold with_event.
  - destruct Hop. edestruct (add_with_reason_ok D) as (st' & -> & ?); eauto.
  - destruct Hop as (? & ? & ?). edestruct (add_at_ok D) as (st' & -> & ?); eauto.
  - destruct Hop. unfold GNUNET_SCHEDULER_add_delayed_with_priority. edestruct (add_at_ok D) as (st' & -> & ?); eauto using relative_to_absolute_u64.
  - edestruct add_now_with_lifeness_ok as (st' & -> & ?); eauto.
  - edestruct (add_shutdown_ok D) as (st' & -> & ?); eauto.
  - edestruct add_fd_ok as (st' & -> & ?); eauto.
  - edestruct add_select_ok as (st' & -> & ?); eauto.
  - destruct Hop as [[t Ht] Ha]. destruct (cancel_ok D st id t I Hact Ht) as (st' & -> & ?); [|eauto].
    intros Hd. apply Ha. auto.
  - destruct (shutdown_ok D st I) as (st' & -> & I' & R & C & _). do 2 eexists. split; [done|].
    by eapply (changed_effect _ _ _ _ PShutdown).
  - destruct (get_load_ok D st p) as [n ->]; eauto using effect_refl.
Qed.
End Steps.

Fixpoint ops_allowed (ops : list sched_op) (st : SchedulerState) : Prop :=
  match ops with
  | [] => True
  | op :: ops =>
      op_allowed op st /\ match sched_op_step op st with Some (st', _) => ops_allowed ops st' | None => True end
  end.

Lemma ops_ok D ops st : sched_inv D st -> active_task st <> None -> (forall x, x ∈ D -> active_task st = Some x) -> ops_allowed ops st ->
  exists st' ev, sched_ops ops st = Some (st', ev) /\ op_effect D st st' ev.
Proof.
  revert st. induction ops as [|op ops IH]; intros st I Ha HD Hops; cbn; [eauto using effect_refl|].
  destruct Hops as [Hop Hops]. destruct (op_step_ok D st I Ha op HD Hop) as (st1 & e1 & E1 & F1). rewrite E1 in Hops |- *.
  destruct (IH st1) as (st2 & e2 & -> & F2); [apply F1| | |done|].
  - by rewrite (oe_active _ _ _ _ F1).
  - intros x Hx. rewrite (oe_active _ _ _ _ F1). auto.
  - do 2 eexists. split; [done|]. by eapply effect_trans.
Qed.
