(* ===== verification/SchedulerLoop.v ===== *)
(** * The event loop: theorems on [src/util/scheduler.c]

    Which tasks become ready, what [select] is asked for, in which order tasks run, and the
    safety of the whole loop for callbacks that keep to the interface. *)

From stdpp Require Import gmap sorting.
From S2P Require Import Prelude Time Scheduler.
#[local] Open Scope Z_scope.

(** ** Which tasks become ready *)

(** The file descriptor or one of the set is ready. *)
Definition fd_woken (fd : Z) (want : option fdset) (ready : fdset) : Prop :=
  (fd <> -1 /\ fd ∈ ready) \/ match want with Some w => ready ∩ w <> ∅ | None => False end.
#[global] Instance fd_woken_dec fd want ready : Decision (fd_woken fd want ready).
Proof. unfold fd_woken. destruct want; apply _. Defined.

Definition due (now : GNUNET_TIME_Absolute) (t : GNUNET_SCHEDULER_Task) : Prop := abs_value_us (timeout t) <= abs_value_us now.

#[global] Instance due_dec now t : Decision (due now t).
Proof. unfold due. apply _. Defined.

Definition flag_if (P : Prop) `{Decision P} (flag : Z) : Z := if decide P then flag else 0.

(** What happened of that for which the task waits. *)
Definition wake_reason (now : GNUNET_TIME_Absolute) (rs ws : fdset) (t : GNUNET_SCHEDULER_Task) : Z :=
  Z.lor (Z.lor (flag_if (due now t) GNUNET_SCHEDULER_REASON_TIMEOUT)
               (flag_if (fd_woken (read_fd t) (read_set t) rs) GNUNET_SCHEDULER_REASON_READ_READY))
        (flag_if (fd_woken (write_fd t) (write_set t) ws) GNUNET_SCHEDULER_REASON_WRITE_READY).

(** All but the reason, the sets and the place of the task. *)
Definition same_request (t t' : GNUNET_SCHEDULER_Task) : Prop :=
  callback t' = callback t /\ callback_cls t' = callback_cls t /\ timeout t' = timeout t /\ priority t' = priority t
  /\ read_fd t' = read_fd t /\ write_fd t' = write_fd t /\ lifeness t' = lifeness t /\ on_shutdown t' = on_shutdown t.

(** The task waits for a time or file descriptors. *)
Definition waiting (t : GNUNET_SCHEDULER_Task) : Prop := place t = PTimeout \/ place t = PPending.
#[global] Instance waiting_dec t : Decision (waiting t).
Proof. unfold waiting. apply _. Defined.

Definition woken (now : GNUNET_TIME_Absolute) (rs ws : fdset) (t t' : GNUNET_SCHEDULER_Task) : Prop :=
  if decide (waiting t /\ wake_reason now rs ws t <> 0)
  then in_ready_list t' = GNUNET_YES /\ same_request t t'
       /\ reason t' = Z.lor (wake_reason now rs ws t) (if no_fds t then 0 else GNUNET_SCHEDULER_REASON_PREREQ_DONE)
  else t' = t.

Lemma fd_ready_ok flag r fd rdy want : Z.land r flag = 0 -> exists want',
  fd_ready flag r fd rdy want = (Z.lor r (flag_if (fd_woken fd want rdy) flag), want')
  /\ (~ fd_woken fd want rdy -> want' = want).
Proof.
  intros Hr. unfold fd_ready, flag_if, fdset_test_native. rewrite Hr. cbn [Z.eqb negb].
  destruct (negb (fd =? -1) && (negb (fd =? -1) && bool_decide (fd ∈ rdy))) eqn:E.
  - apply andb_prop in E as [E1 [_ E2%bool_decide_eq_true]%andb_prop]. rewrite decide_True by (left; split; [lia|done]). eauto.
  - assert (Hf : ~ (fd <> -1 /\ fd ∈ rdy)).
    { intros [H1 H2]. rewrite (bool_decide_eq_true_2 _ H2) in E. lia. }
    destruct want as [w|]; cbn [set_overlaps]; [|cbn; rewrite decide_False by (unfold fd_woken; tauto); rewrite Z.lor_0_r; eauto].
    unfold fdset_overlap. clear E. case_bool_decide as Ew; cbn.
    + rewrite decide_False by (unfold fd_woken; tauto). rewrite Z.lor_0_r. eauto.
    + rewrite decide_True by (by right). eexists. split; [done|]. intros []. by right.
Qed.

Lemma flag_if_cases (P : Prop) `{Decision P} flag : (P /\ flag_if P flag = flag) \/ (~ P /\ flag_if P flag = 0).
Proof. unfold flag_if. case_decide; tauto. Qed.

Lemma wake_reason_zero now rs ws t : wake_reason now rs ws t = 0 ->
  ~ due now t /\ ~ fd_woken (read_fd t) (read_set t) rs /\ ~ fd_woken (write_fd t) (write_set t) ws.
Proof.
  unfold wake_reason. intros [[H1 H2]%Z.lor_eq_0_iff H3]%Z.lor_eq_0_iff.
  destruct (flag_if_cases (due now t) GNUNET_SCHEDULER_REASON_TIMEOUT) as [[_ E]|[]]; [rewrite E in H1; done|].
  destruct (flag_if_cases (fd_woken (read_fd t) (read_set t) rs) GNUNET_SCHEDULER_REASON_READ_READY) as [[_ E]|[]]; [rewrite E in H2; done|].
  destruct (flag_if_cases (fd_woken (write_fd t) (write_set t) ws) GNUNET_SCHEDULER_REASON_WRITE_READY) as [[_ E]|[]]; [rewrite E in H3; done|].
  done.
Qed.

Lemma is_ready_ok now rs ws t : reason t = 0 -> exists r w,
  is_ready t now rs ws =
    if decide (wake_reason now rs ws t <> 0)
    then (set_reason (Z.lor (wake_reason now rs ws t) GNUNET_SCHEDULER_REASON_PREREQ_DONE) (set_sets r w t), GNUNET_YES)
    else (t, GNUNET_NO).
Proof.
  intros Hr. unfold is_ready. rewrite Hr.
  assert (Hd : (if abs_value_us now >=? abs_value_us (timeout t) then Z.lor 0 GNUNET_SCHEDULER_REASON_TIMEOUT else 0) =
    flag_if (due now t) GNUNET_SCHEDULER_REASON_TIMEOUT).
  { unfold flag_if, due. destruct (abs_value_us now >=? _) eqn:E; [rewrite decide_True by lia|rewrite decide_False by lia]; done. }
  rewrite Hd. destruct (fd_ready_ok GNUNET_SCHEDULER_REASON_READ_READY (flag_if (due now t) GNUNET_SCHEDULER_REASON_TIMEOUT)
    (read_fd t) rs (read_set t)) as (r & -> & Hrs); [by destruct (flag_if_cases (due now t) GNUNET_SCHEDULER_REASON_TIMEOUT) as [[_ ->]|[_ ->]]|].
  match goal with |- context [fd_ready _ ?r0 _ _ _] => set (r1 := r0) end.
  destruct (fd_ready_ok GNUNET_SCHEDULER_REASON_WRITE_READY r1 (write_fd t) ws (write_set t)) as (w & -> & Hws).
  { unfold r1. destruct (flag_if_cases (due now t) GNUNET_SCHEDULER_REASON_TIMEOUT) as [[_ ->]|[_ ->]],
      (flag_if_cases (fd_woken (read_fd t) (read_set t) rs) GNUNET_SCHEDULER_REASON_READ_READY) as [[_ ->]|[_ ->]]; done. }
  change (Z.lor r1 _) with (wake_reason now rs ws t). exists r, w. case_decide as E.
  - by rewrite (proj2 (Z.eqb_neq _ _)) by (intros H; by apply E).
  - rewrite E. cbn [Z.eqb]. apply wake_reason_zero in E as (_ & H1 & H2).
    rewrite Hrs, Hws by done. by destruct t.
Qed.

(** What the two loops of [check_ready] do to a task. *)
Definition checked_timeout (now : GNUNET_TIME_Absolute) (t : GNUNET_SCHEDULER_Task) : GNUNET_SCHEDULER_Task :=
  if decide (due now t) then set_in_ready (set_reason GNUNET_SCHEDULER_REASON_TIMEOUT t) else t.

Definition checked_pending (now : GNUNET_TIME_Absolute) (rs ws : fdset) (t : GNUNET_SCHEDULER_Task) : GNUNET_SCHEDULER_Task :=
  let '(t', r) := is_ready t now rs ws in if GNUNET_YES =? r then set_in_ready t' else t'.

Lemma changed_same f l st : (forall i t, i ∈ l -> tasks st !! i = Some t -> f t = t) -> changed f l st st.
Proof.
  intros H i. case_decide as E; destruct (tasks st !! i) eqn:Ei; cbn; try done. by rewrite (H i).
Qed.

Lemma set_task_id st id t : tasks st !! id = Some t -> set_task id t st = st.
Proof. intros Ht. unfold set_task. rewrite insert_id by done. by destruct st. Qed.

Lemma ready_timeouts_ok D now l st : sched_inv D st -> pending_timeout st = l ->
  exists st', ready_timeouts now l st = Some st' /\ sched_inv D st' /\ same_rest st st'
    /\ changed (checked_timeout now) l st st' /\ pending st' = pending st /\ shutdown_tasks st' = shutdown_tasks st.
Proof.
  revert st. induction l as [|id l IH]; intros st I El; [exists st; split_and!; try done; apply changed_nil|].
  pose proof (si_nodup _ _ I PTimeout) as Hnd. cbn in Hnd. rewrite El in Hnd. apply NoDup_cons in Hnd as [Hnl _].
  destruct (waiting_task _ _ PTimeout id I) as (t & Ht & Hd & Hpl & Hok & _ & Hr); [done|cbn; rewrite El; set_solver|].
  cbn [ready_timeouts]. rewrite Ht, Hr. destruct (abs_value_us now >=? abs_value_us (timeout t)) eqn:E.
  - change (0 =? Z.lor 0 GNUNET_SCHEDULER_REASON_TIMEOUT) with false. cbv iota.
    set (t' := set_reason _ t). cbn [pending_timeout_last set_task].
    set (last := if bool_decide _ then None else _).
    assert (I1 : sched_inv ({[id]} ∪ D) (set_timeouts l last st)).
    { eapply detach; [exact I|exact Ht|done|done| |done|done|apply I|].
      - intros pl. rewrite Hpl. case_decide as E1; [subst pl; cbn; by rewrite El, filter_head|by destruct pl].
      - eapply last_after_remove; [exact I|]. rewrite El. set_solver. }
    destruct (wake_task _ _ id t t' I1) as (st1 & E1 & I2 & R & (Wp & Ws & Wt & Wl) & Et); [done|done|by destruct Hok|].
    change (set_timeouts l last (set_task id t' st)) with (set_task id t' (set_timeouts l last st)). rewrite E1.
    destruct (IH st1 I2 Wt) as (st' & -> & I' & R' & C & E2 & E3). exists st'. cbn in Wp, Ws.
    split_and!; try done; try congruence; [by eapply same_rest_trans|].
    eapply (changed_cons _ id t); try done. rewrite Et. cbn. unfold checked_timeout. rewrite decide_True by (unfold due; lia). done.
  - cbn [Z.eqb]. replace (set_reason 0 t) with t by (destruct t; cbn in Hr; by subst). rewrite set_task_id by done.
    exists st. split_and!; try done. apply changed_same. intros i ti Hi Hti. unfold checked_timeout.
    rewrite decide_False; [done|]. unfold due. pose proof (si_sorted _ _ I) as S. rewrite El in S.
    apply StronglySorted_cons in S as [HS _]. apply elem_of_cons in Hi as [->|Hi]; [simplify_eq; lia|].
    eapply Forall_forall in HS; [|exact Hi]. unfold timeout_of in HS. rewrite Ht, Hti in HS. lia.
Qed.

Lemma is_ready_task_ok now rs ws t t' r : task_ok t -> is_ready t now rs ws = (t', r) -> task_ok t'.
Proof.
  intros [P R W U]. unfold is_ready. destruct (fd_ready _ _ (read_fd t) _ _) as [r1 w1].
  destruct (fd_ready _ _ (write_fd t) _ _) as [r2 w2]. case_match; intros [= <- <-]; by split.
Qed.

Lemma ready_pending_ok D now rs ws l st : sched_inv D st -> NoDup l -> (forall x, x ∈ l -> x ∈ pending st) ->
  exists st', ready_pending now rs ws l st = Some st' /\ sched_inv D st' /\ same_rest st st'
    /\ changed (checked_pending now rs ws) l st st' /\ pending_timeout st' = pending_timeout st
    /\ shutdown_tasks st' = shutdown_tasks st.
Proof.
  revert st. induction l as [|id l IH]; intros st I Hnd Hl; [exists st; split_and!; try done; apply changed_nil|].
  apply NoDup_cons in Hnd as [Hnl Hnd].
  destruct (waiting_task _ _ PPending id I) as (t & Ht & Hd & Hpl & Hok & _ & Hr); [done|apply Hl; set_solver|].
  cbn [ready_pending]. rewrite Ht. destruct (is_ready_ok now rs ws t Hr) as (r & w & E).
  pose proof (is_ready_task_ok now rs ws t _ _ Hok (surjective_pairing _)) as Hok'.
  assert (Hc : checked_pending now rs ws t = if decide (wake_reason now rs ws t <> 0)
    then set_in_ready (fst (is_ready t now rs ws)) else t).
  { unfold checked_pending. rewrite E. by case_decide. }
  rewrite E in Hok', Hc |- *. clear E. destruct (decide (wake_reason now rs ws t <> 0)) as [Hw|Hw]; cbn [fst] in Hok', Hc; cbv iota.
  - cbn [Z.eqb Pos.eqb GNUNET_YES]. set (t' := set_reason _ _) in *. unfold DLL_remove. cbn [pending set_task].
    rewrite bool_decide_eq_true_2 by (apply Hl; set_solver). set (q := filter _ _).
    assert (I1 : sched_inv ({[id]} ∪ D) (set_pending q st)).
    { eapply detach; [exact I|exact Ht|done|done| |done|done|apply I|apply I].
      intros pl. rewrite Hpl. case_decide as E1; [by subst pl|by destruct pl]. }
    destruct (wake_task _ _ id t t' I1) as (st1 & E1 & I2 & R & (Wp & Ws & Wt & Wl) & Et); [done|done|done|].
    change (set_pending q (set_task id t' st)) with (set_task id t' (set_pending q st)). rewrite E1. cbn in Wp, Ws, Wt.
    destruct (IH st1 I2 Hnd) as (st' & -> & I' & R' & C & E2 & E3).
    { intros x Hx. rewrite Wp. apply list_elem_of_filter. split; [intros ->; done|]. apply Hl. set_solver. }
    exists st'. split_and!; try done; try congruence; [by eapply same_rest_trans|].
    eapply (changed_cons _ id t); try done. by rewrite Et, Hc.
  - cbn [Z.eqb GNUNET_YES GNUNET_NO]. rewrite set_task_id by done.
    destruct (IH st I Hnd) as (st' & -> & I' & R' & C & E2 & E3); [set_solver|]. exists st'. split_and!; try done.
    eapply (changed_cons _ id t); try done. by rewrite Hc, insert_id.
Qed.

Lemma place_no_fds t : place t = PTimeout -> no_fds t = true.
Proof. unfold place. repeat case_match; done. Qed.

Lemma place_fds t : place t = PPending -> no_fds t = false.
Proof. unfold place. repeat case_match; done. Qed.

Lemma wake_reason_no_fds now rs ws t : no_fds t = true -> wake_reason now rs ws t = flag_if (due now t) GNUNET_SCHEDULER_REASON_TIMEOUT.
Proof.
  unfold no_fds. intros [[[H1 H2]%andb_prop H3%bool_decide_eq_true]%andb_prop H4%bool_decide_eq_true]%andb_prop.
  unfold wake_reason. destruct (flag_if_cases (fd_woken (read_fd t) (read_set t) rs) GNUNET_SCHEDULER_REASON_READ_READY) as [[H _]|[_ ->]].
  { unfold fd_woken in H. rewrite H3 in H. lia. }
  destruct (flag_if_cases (fd_woken (write_fd t) (write_set t) ws) GNUNET_SCHEDULER_REASON_WRITE_READY) as [[H _]|[_ ->]].
  { unfold fd_woken in H. rewrite H4 in H. lia. }
  by rewrite !Z.lor_0_r.
Qed.

Lemma checked_timeout_woken now rs ws t : place t = PTimeout -> woken now rs ws t (checked_timeout now t).
Proof.
  intros Hpl. pose proof (place_no_fds _ Hpl) as Hf. unfold woken, checked_timeout. rewrite (wake_reason_no_fds _ _ _ _ Hf), Hf.
  unfold flag_if. destruct (decide (due now t)).
  - rewrite decide_True; [done|]. split; [by left|done].
  - rewrite decide_False; [done|]. by intros [_ []].
Qed.

Lemma checked_pending_woken now rs ws t : place t = PPending -> reason t = 0 -> woken now rs ws t (checked_pending now rs ws t).
Proof.
  intros Hpl Hr. unfold woken, checked_pending. destruct (is_ready_ok now rs ws t Hr) as (r & w & ->).
  rewrite (place_fds _ Hpl). case_decide as E.
  - by rewrite decide_True by apply E.
  - rewrite decide_False; [done|]. intros H. apply E. split; [by right|done].
Qed.

Lemma woken_idle now rs ws t : ~ waiting t -> woken now rs ws t t.
Proof. intros Hw. unfold woken. rewrite decide_False; [done|]. tauto. Qed.

Lemma not_listed D st pl i t : sched_inv D st -> tasks st !! i = Some t -> place t <> pl -> i ∉ queue st pl.
Proof. intros I Ht Hp (t' & Ht' & _ & Hp')%(si_place _ _ I). congruence. Qed.

Lemma listed st i t : sched_inv ∅ st -> tasks st !! i = Some t -> i ∈ queue st (place t).
Proof. intros I Ht. apply (si_place _ _ I). exists t. split_and!; [done|apply not_elem_of_empty|done]. Qed.

(** The tasks that become ready are those whose time has come or that wait for a file
    descriptor which is ready; what they learn is what has happened. *)
Lemma check_ready_ok st now rs ws : sched_inv ∅ st ->
  exists st', check_ready now rs ws st = Some st' /\ sched_inv ∅ st' /\ same_rest st st' /\ dom (tasks st') = dom (tasks st)
    /\ (forall id t, tasks st !! id = Some t -> exists t', tasks st' !! id = Some t' /\ woken now rs ws t t').
Proof.
  intros I. unfold check_ready.
  destruct (ready_timeouts_ok ∅ now _ st I eq_refl) as (st1 & -> & I1 & R1 & C1 & Ep & Es).
  destruct (ready_pending_ok ∅ now rs ws (pending st1) st1 I1) as (st2 & -> & I2 & R2 & C2 & _); [apply (si_nodup _ _ I1 PPending)|done|].
  exists st2. split_and!; try done; [by eapply same_rest_trans|by rewrite (changed_dom _ _ _ _ C2), (changed_dom _ _ _ _ C1)|].
  intros id t Ht. specialize (C1 id). specialize (C2 id). rewrite C1, Ht, Ep in C2. clear C1. rewrite C2. clear C2.
  eexists. split; [done|]. pose proof (not_listed _ _ PTimeout id t I Ht) as NT. pose proof (not_listed _ _ PPending id t I Ht) as NP.
  pose proof (listed _ _ _ I Ht) as Hin.
  cbn in NT, NP. destruct (place t) eqn:Hpl; cbn in Hin.
  - rewrite !decide_False by (auto; by apply NT || by apply NP). apply woken_idle. unfold waiting. rewrite Hpl. by intros [].
  - rewrite !decide_False by (auto; by apply NT || by apply NP). apply woken_idle. unfold waiting. rewrite Hpl. by intros [].
  - rewrite (decide_False (P := id ∈ pending st)) by (by apply NP).
    rewrite decide_True by done. by apply checked_timeout_woken.
  - rewrite (decide_False (P := id ∈ pending_timeout st)) by (by apply NT).
    rewrite decide_True by done. apply checked_pending_woken; [done|].
    destruct (waiting_task _ _ PPending id I) as (t0 & Ht0 & _ & _ & _ & _ & Hr); [done|done|]. congruence.
Qed.

(** ** What [select] is asked for *)

Definition delay_until (now : GNUNET_TIME_Absolute) (t : GNUNET_SCHEDULER_Task) : Z :=
  rel_value_us (GNUNET_TIME_absolute_get_difference now (timeout t)).

(** The task waits for the file descriptor. *)
Definition wants (fd fd0 : Z) (s : option fdset) : Prop := (fd = fd0 /\ fd <> -1) \/ exists w, s = Some w /\ fd ∈ w.

Lemma delay_until_range now t : is_u64 (delay_until now t).
Proof. unfold delay_until, GNUNET_TIME_absolute_get_difference. repeat case_match; cbn; [done|done|apply u64_range]. Qed.

Lemma delay_until_monotone now t t' : is_u64 (abs_value_us now) -> is_u64 (abs_value_us (timeout t)) -> is_u64 (abs_value_us (timeout t')) ->
  abs_value_us (timeout t) <= abs_value_us (timeout t') -> delay_until now t <= delay_until now t'.
Proof.
  intros Hn Ht Ht' Hle. pose proof (delay_until_range now t) as R. pose proof (delay_until_range now t') as R'.
  revert R R'. unfold delay_until, GNUNET_TIME_absolute_get_difference, is_u64, UINT64_MAX in *.
  destruct (abs_value_us (timeout t') =? _) eqn:E1; [cbn; unfold UINT64_MAX; lia|].
  destruct (abs_value_us (timeout t) =? _) eqn:E2; [lia|].
  destruct (abs_value_us (timeout t) <? _) eqn:E3; [cbn; lia|].
  destruct (abs_value_us (timeout t') <? _) eqn:E4; [lia|]. cbn. rewrite !u64_small by (unfold is_u64; lia). lia.
Qed.

Lemma earlier_min a b : rel_value_us (earlier a b) = Z.min (rel_value_us a) (rel_value_us b).
Proof. unfold earlier. case_match; lia. Qed.

Lemma set_native_ok s fd : 0 <= fd < FD_SETSIZE -> fdset_set_native s fd = Some ({[fd]} ∪ s).
Proof. intros H. unfold fdset_set_native. case_match; [done|lia]. Qed.

(** One of the two sets of the loop of [update_sets]. *)
Lemma update_set_ok s fd want : fd_ok fd -> exists s',
  (if negb (-1 =? fd) then fdset_set_native s fd else Some s) = Some s'
  /\ forall x, x ∈ (match want with Some w => s' ∪ w | None => s' end) <-> x ∈ s \/ wants x fd want.
Proof.
  intros [->|Hfd].
  - exists s. split; [done|]. intros x. unfold wants. destruct want; set_solver by lia.
  - rewrite set_native_ok by done. replace (-1 =? fd) with false by (unfold FD_SETSIZE in *; lia). eexists. split; [done|].
    intros x. assert (fd <> -1) by lia. unfold wants. destruct want; set_solver.
Qed.

Lemma update_pending_ok st now l rs ws to : (forall id, id ∈ l -> exists t, tasks st !! id = Some t /\ task_ok t /\ reason t = 0) ->
  rel_value_us to <= UINT64_MAX ->
  exists rs' ws' to', update_pending st now l rs ws to = Some (rs', ws', to')
    /\ (forall fd, fd ∈ rs' <-> fd ∈ rs \/ exists id t, id ∈ l /\ tasks st !! id = Some t /\ wants fd (read_fd t) (read_set t))
    /\ (forall fd, fd ∈ ws' <-> fd ∈ ws \/ exists id t, id ∈ l /\ tasks st !! id = Some t /\ wants fd (write_fd t) (write_set t))
    /\ rel_value_us to' <= rel_value_us to
    /\ (forall id t, id ∈ l -> tasks st !! id = Some t -> rel_value_us to' <= delay_until now t)
    /\ (rel_value_us to' = rel_value_us to \/ exists id t, id ∈ l /\ tasks st !! id = Some t /\ rel_value_us to' = delay_until now t).
Proof.
  revert rs ws to. induction l as [|id l IH]; intros rs ws to Hl Hto; cbn [update_pending].
  { exists rs, ws, to. split_and!; try done; [set_solver|set_solver|set_solver|by left]. }
  destruct (Hl id) as (t & Ht & Hok & Hr); [set_solver|]. rewrite Ht, Hr. change (negb (0 =? 0)) with false. cbv iota.
  destruct (update_set_ok rs (read_fd t) (read_set t) (to_read _ Hok)) as (r1 & -> & Hr1).
  destruct (update_set_ok ws (write_fd t) (write_set t) (to_write _ Hok)) as (w1 & -> & Hw1).
  set (to1 := if negb _ then earlier to _ else to).
  assert (Ht1 : rel_value_us to1 = Z.min (rel_value_us to) (delay_until now t)).
  { unfold to1. destruct (abs_value_us (timeout t) =? _) eqn:E; cbn [negb]; [|apply earlier_min]. unfold delay_until.
    unfold GNUNET_TIME_absolute_get_difference. cbn [abs_value_us GNUNET_TIME_absolute_get_forever_] in E. rewrite E. cbn in *. lia. }
  edestruct IH as (rs' & ws' & to' & -> & H1 & H2 & H3 & H4 & H5); [set_solver|lia|].
  exists rs', ws', to'. split_and!; [done| | |lia| |].
  - intros fd. rewrite H1, Hr1. split; [intros [[]|(i & ti & ? & ? & ?)]; [by left|right; exists id, t; set_solver|right; exists i, ti; set_solver]|].
    intros [|(i & ti & [->|Hi]%elem_of_cons & Hti & Hw)]; [tauto|simplify_eq; tauto|right; eauto].
  - intros fd. rewrite H2, Hw1. split; [intros [[]|(i & ti & ? & ? & ?)]; [by left|right; exists id, t; set_solver|right; exists i, ti; set_solver]|].
    intros [|(i & ti & [->|Hi]%elem_of_cons & Hti & Hw)]; [tauto|simplify_eq; tauto|right; eauto].
  - intros i ti [->|Hi]%elem_of_cons Hti; [simplify_eq; lia|eauto].
  - destruct H5 as [H5|(i & ti & ? & ? & ?)]; [|right; exists i, ti; set_solver].
    destruct (Z.min_dec (rel_value_us to) (delay_until now t)) as [Hm|Hm]; [left; lia|].
    right. exists id, t. split_and!; [set_solver|done|lia].
Qed.

(** The delay of the first task that waits for a time is the least. *)
Lemma update_first_timeout_ok st now : sched_inv ∅ st -> is_u64 (abs_value_us now) -> exists to,
  update_first_timeout st now GNUNET_TIME_UNIT_FOREVER_REL = Some to /\ rel_value_us to <= UINT64_MAX
  /\ (forall id t, id ∈ pending_timeout st -> tasks st !! id = Some t -> rel_value_us to <= delay_until now t)
  /\ (rel_value_us to = UINT64_MAX \/ exists id t, tasks st !! id = Some t /\ waiting t /\ rel_value_us to = delay_until now t).
Proof.
  intros I Hnow. unfold update_first_timeout. pose proof (si_sorted _ _ I) as S.
  pose proof (fun x => waiting_task _ _ PTimeout x I ltac:(done)) as W. cbn in W.
  destruct (pending_timeout st) as [|h l]; [eexists; split_and!; [done|done|set_solver|by left]|].
  destruct (W h) as (t & Ht & _ & Hpl & Hok & _ & Hr); [set_solver|]. rewrite Ht, Hr. cbn [Z.eqb negb]. eexists. split; [done|].
  rewrite earlier_min. fold (delay_until now t). pose proof (delay_until_range now t) as HR. unfold is_u64 in HR.
  cbn [rel_value_us GNUNET_TIME_relative_get_forever_]. split_and!; [lia| |].
  - intros i ti Hi Hti. apply StronglySorted_cons in S as [HS _]. apply elem_of_cons in Hi as [->|Hi]; [simplify_eq; lia|].
    eapply Forall_forall in HS; [|exact Hi]. unfold timeout_of in HS. rewrite Ht, Hti in HS.
    destruct (si_tasks _ _ I _ _ Hti) as [Hoki _].
    pose proof (delay_until_monotone now t ti Hnow (to_timeout _ Hok) (to_timeout _ Hoki) HS). lia.
  - right. exists h, t. split_and!; [done|by left|]. unfold UINT64_MAX. lia.
Qed.

Lemma pending_listed st P : sched_inv ∅ st ->
  (exists id t, id ∈ pending st /\ tasks st !! id = Some t /\ P t) <-> (exists id t, tasks st !! id = Some t /\ place t = PPending /\ P t).
Proof.
  intros I. split; intros (id & t & H1 & H2 & H3); exists id, t.
  - destruct (waiting_task _ _ PPending id I) as (t0 & Ht0 & _ & Hp & _); [done|done|]. split_and!; [done|congruence|done].
  - split_and!; [|done|done]. apply (listed _ _ _ I) in H1. by rewrite H2 in H1.
Qed.

(** All file descriptors for which a task waits are watched, and no others but [pr]; the
    process sleeps until the first time for which a task waits. *)
Lemma select_arguments_ok pr st now : sched_inv ∅ st -> is_u64 (abs_value_us now) -> exists rs ws to,
  select_arguments pr now st = Some (rs, ws, to)
  /\ (forall fd, fd ∈ rs <-> fd = pr \/ exists id t, tasks st !! id = Some t /\ place t = PPending /\ wants fd (read_fd t) (read_set t))
  /\ (forall fd, fd ∈ ws <-> exists id t, tasks st !! id = Some t /\ place t = PPending /\ wants fd (write_fd t) (write_set t))
  /\ (forall id t, tasks st !! id = Some t -> waiting t -> rel_value_us to <= delay_until now t)
  /\ (if decide (0 < ready_count st) then rel_value_us to = 0
      else rel_value_us to = UINT64_MAX
           \/ exists id t, tasks st !! id = Some t /\ waiting t /\ rel_value_us to = delay_until now t).
Proof.
  intros I Hnow. unfold select_arguments, update_sets.
  destruct (update_first_timeout_ok st now I Hnow) as (to & -> & Hto & Hle & Hex).
  edestruct (update_pending_ok st now (pending st) ∅ ∅ to) as (rs & ws & to' & -> & H1 & H2 & H3 & H4 & H5); [|done|].
  { intros id Hid. destruct (waiting_task _ _ PPending id I) as (t & ? & _ & _ & ? & _ & ?); [done|done|eauto]. }
  assert (Hw : forall id t, tasks st !! id = Some t -> waiting t -> rel_value_us to' <= delay_until now t).
  { intros id t Ht Hw. pose proof (listed _ _ _ I Ht) as Hin. destruct Hw as [Hp|Hp]; rewrite Hp in Hin; cbn in Hin; [|by eapply H4].
    specialize (Hle _ _ Hin Ht). lia. }
  do 3 eexists. split; [done|]. split_and!.
  - intros fd. rewrite elem_of_union, elem_of_singleton, H1, <- pending_listed by done. set_solver.
  - intros fd. rewrite H2, <- pending_listed by done. set_solver.
  - intros id t Ht Hwt. case_match; [apply delay_until_range|eauto].
  - case_decide; [by replace (ready_count st >? 0) with true by lia|]. replace (ready_count st >? 0) with false by lia.
    destruct H5 as [->|H5]; [done|right].
    destruct H5 as (id & t & Hid & Ht & ->). exists id, t. split_and!; [done| |done]. right.
    destruct (waiting_task _ _ PPending id I) as (t0 & Ht0 & _ & Hp & _); [done|done|]. congruence.
Qed.

(** ** Ready tasks are run *)

Lemma find_ready_ok p (queues : list (list Z)) : (p < length queues)%nat ->
  (exists q id l, find_ready p queues = Some (q, id) /\ (0 < q <= p)%nat /\ queues !! q = Some (id :: l)
     /\ forall q', (q < q' <= p)%nat -> queues !! q' = Some [])
  \/ (forall q', (0 < q' <= p)%nat -> queues !! q' = Some []).
Proof.
  induction p as [|p IH]; intros Hp; [right; lia|]. cbn. destruct (lookup_lt_is_Some_2 queues (S p) Hp) as [q Hq]. rewrite Hq.
  destruct q as [|id l]; [|left; exists (S p), id, l; split_and!; [done|lia|lia|done|lia]].
  assert (Hs : forall q', q' = S p -> queues !! q' = Some []) by (by intros ? ->).
  destruct IH as [(q & id & l & E & Hr & Hl & Hh)|Hh]; [lia| |].
  - left. exists q, id, l. split_and!; [done|lia|lia|done|]. intros q' Hq'.
    destruct (decide (q' = S p)); [auto|]. apply Hh. lia.
  - right. intros q' Hq'. destruct (decide (q' = S p)); [auto|]. apply Hh. lia.
Qed.

Lemma ready_place D st p id : sched_inv D st -> id ∈ queue st (PReady p) ->
  exists t, tasks st !! id = Some t /\ task_ok t /\ (id ∉ D) /\ in_ready_list t <> GNUNET_NO /\ p = Z.to_nat (priority t).
Proof.
  intros I (t & Ht & Hd & Hpl)%(si_place _ _ I). exists t. destruct (si_tasks _ _ I _ _ Ht) as [Hok _]. split_and!; try done.
  - intros Hn. unfold place in Hpl. rewrite Hn in Hpl. cbn [Z.eqb GNUNET_NO negb] in Hpl. repeat case_match; done.
  - unfold place in Hpl. repeat case_match; try done. congruence.
Qed.

Lemma keep_queue_empty D st : sched_inv D st -> ready st !! 0%nat = Some [].
Proof.
  intros I. destruct (ready st !! 0%nat) as [[|id l]|] eqn:E; [done| |].
  - destruct (ready_place D st 0 id I) as (t & _ & [[? _] _ _ _] & _ & _ & ?); [cbn; rewrite E; set_solver|]. lia.
  - apply lookup_ge_None in E. rewrite (si_ready _ _ I) in E. unfold GNUNET_SCHEDULER_PRIORITY_COUNT in E. lia.
Qed.

(** If there are ready tasks, one of the highest priority is found. *)
Lemma find_ready_highest D st : sched_inv D st -> ready_count st <> 0 -> exists p id l t,
  find_ready (Z.to_nat (GNUNET_SCHEDULER_PRIORITY_COUNT - 1)) (ready st) = Some (p, id) /\ ready st !! p = Some (id :: l)
  /\ tasks st !! id = Some t /\ task_ok t /\ (id ∉ D) /\ in_ready_list t <> GNUNET_NO /\ p = Z.to_nat (priority t)
  /\ (forall i ti, tasks st !! i = Some ti -> (i ∉ D) -> in_ready_list ti <> GNUNET_NO -> priority ti <= priority t).
Proof.
  intros I Hc. pose proof (si_ready _ _ I) as Hlen. unfold GNUNET_SCHEDULER_PRIORITY_COUNT in *.
  assert (Hup : forall q, (forall q', (q < q' <= 7)%nat -> ready st !! q' = Some []) ->
    forall i ti, tasks st !! i = Some ti -> (i ∉ D) -> in_ready_list ti <> GNUNET_NO -> (Z.to_nat (priority ti) <= q)%nat).
  { intros q Hh i ti Hti Hd Hin. destruct (take_ready _ _ _ _ I Hti Hd Hin) as (_ & Hi & Hpl & _). rewrite Hpl in Hi. cbn in Hi.
    destruct (si_tasks _ _ I _ _ Hti) as [[[? Hp] _ _ _] _]. unfold GNUNET_SCHEDULER_PRIORITY_COUNT in Hp.
    destruct (decide (q < Z.to_nat (priority ti))%nat); [|lia]. rewrite Hh in Hi by lia. by apply elem_of_nil in Hi. }
  destruct (find_ready_ok (Z.to_nat (8 - 1)) (ready st)) as [(p & id & l & E & Hr & Hl & Hh)|Hh]; [rewrite Hlen; lia| |].
  - destruct (ready_place D st p id I) as (t & Ht & Hok & Hd & Hin & Hp); [cbn; rewrite Hl; set_solver|].
    exists p, id, l, t. split_and!; try done. intros i ti Hti Hdi Hini.
    pose proof (Hup p Hh i ti Hti Hdi Hini). destruct Hok as [[? _] _ _ _]. lia.
  - exfalso. apply Hc. rewrite (si_count _ _ I). destruct (concat (ready st)) as [|i l] eqn:El; [done|].
    assert (Hi : i ∈ concat (ready st)) by (rewrite El; set_solver).
    apply (ready_concat _ _ I) in Hi as (t & Ht & Hd & p & Hp).
    destruct (ready_place D st p i I) as (t' & Ht' & [[? _] _ _ _] & _ & Hin & _); [apply (si_place _ _ I); eauto|].
    assert (t' = t) as -> by congruence. pose proof (Hup 0%nat Hh i t Ht Hd Hin). lia.
Qed.

(** What happens between two callbacks of the main loop. *)
Record loop_effect (st st' : SchedulerState) (ev : list sched_event) : Prop := {
  lf_inv : sched_inv ∅ st';
  lf_idle : active_task st' = None;
  lf_history : history ev (dom (tasks st)) = Some (dom (tasks st'));
  lf_ready : forall id t, tasks st !! id = Some t -> in_ready_list t <> GNUNET_NO -> (Cancelled id ∉ ev) ->
    (forall tc, Started id tc ∉ ev) -> tasks st' !! id = Some t;
}.

Lemma loop_effect_refl st : sched_inv ∅ st -> active_task st = None -> loop_effect st st [].
Proof. done. Qed.

Lemma loop_effect_trans st st1 st2 e1 e2 : loop_effect st st1 e1 -> loop_effect st1 st2 e2 -> loop_effect st st2 (e1 ++ e2).
Proof.
  intros [I A H K] [I' A' H' K']. split; [done|done|by rewrite (history_app _ _ _ _ H)|].
  intros id t Ht Hr Hc Hs. apply K'; [apply K| | |]; try done; try set_solver; intros tc; specialize (Hs tc); set_solver.
Qed.

(** Steps that change tasks in waiting lists. *)
Lemma op_loop_effect st st' ev : op_effect ∅ st st' ev -> active_task st = None -> loop_effect st st' ev.
Proof.
  intros [I A L R P H K] Ha. split; [done|congruence| |auto]. by rewrite !difference_empty_L in H.
Qed.

Lemma set_if_ok b s fd : (b = true -> 0 <= fd < FD_SETSIZE) -> exists s', set_if b s fd = Some s' /\ (b = true -> fd ∈ s').
Proof. intros H. destruct b; cbn; [rewrite set_native_ok by auto; eexists; split; [done|set_solver]|exists s; by split]. Qed.

Lemma fd_ok_range fd b : fd_ok fd -> negb (-1 =? fd) && b = true -> 0 <= fd < FD_SETSIZE.
Proof. intros [->|?]; [done|auto]. Qed.

(** The state in which a callback is called, and that after the task has been freed. *)
Definition starting (st : SchedulerState) (id : Z) (t : GNUNET_SCHEDULER_Task) (stA : SchedulerState) : Prop :=
  sched_inv {[id]} stA /\ active_task stA = Some id /\ tasks stA = tasks st /\ ready_count stA = ready_count st - 1
  /\ max_priority_added stA = max_priority_added st.

Definition finished (id : Z) (st : SchedulerState) : SchedulerState :=
  set_tasks_run (u64 (tasks_run st + 1)) (free_task id (set_active None st)).

Lemma finished_effect st id t tc stA stB ev : starting st id t stA -> op_effect {[id]} stA stB ev -> tasks st !! id = Some t ->
  loop_effect st (finished id stB) (Started id tc :: ev).
Proof.
  intros (IA & Aa & Et & _) [IB Ab Lb Rb Pb Hb Kb] Ht. split.
  - replace (∅ : gset Z) with ({[id]} ∖ {[id]} : gset Z) by set_solver. eapply inv_ext; [apply (inv_free_task _ stB id IB); set_solver|..]; try done.
    apply IB.
  - done.
  - cbn [history]. rewrite bool_decide_eq_true_2 by (by eapply elem_of_dom_2). rewrite <- Et, Hb. f_equal. cbn. by rewrite dom_delete_L.
  - intros i ti Hi Hin Hc Hs. cbn. assert (i <> id) by (intros ->; specialize (Hs tc); set_solver).
    rewrite lookup_delete_ne by done. apply Kb; [by rewrite Et|done|set_solver].
Qed.

Lemma keeps_alive_false st l : keeps_alive st l = false ->
  forall id t, id ∈ l -> tasks st !! id = Some t -> lifeness t <> GNUNET_YES.
Proof.
  unfold keeps_alive. intros H id t Hid Ht E. apply list_elem_of_In in Hid.
  assert (existsb (fun id => match tasks st !! id with Some t => lifeness t =? GNUNET_YES | None => false end) l = true); [|congruence].
  apply existsb_exists. exists id. split; [done|]. rewrite Ht. lia.
Qed.

(** Nothing keeps the process alive. *)
Definition all_done (st : SchedulerState) : Prop :=
  forall id t, tasks st !! id = Some t -> waiting t /\ lifeness t <> GNUNET_YES.

Lemma check_lifeness_ok st : sched_inv ∅ st -> active_task st = None -> exists st' r,
  check_lifeness st = Some (st', r) /\ loop_effect st st' [] /\ (r = GNUNET_OK \/ r = GNUNET_NO /\ st' = st /\ all_done st)
  /\ (forall id t, tasks st !! id = Some t -> waiting t -> tasks st' !! id = Some t).
Proof.
  intros I Ha. unfold check_lifeness. case_match eqn:Ec; [eauto 10 using loop_effect_refl|].
  case_match eqn:Ep; [eauto 10 using loop_effect_refl|]. case_match eqn:Es; [eauto 10 using loop_effect_refl|].
  case_match eqn:Et; [eauto 10 using loop_effect_refl|]. case_match eqn:El.
  - exists st, GNUNET_NO. split_and!; [done|by apply loop_effect_refl| |done]. right. split_and!; [done|done|]. intros id t Ht.
    pose proof (listed _ _ _ I Ht) as Hin. unfold waiting. destruct (place t) eqn:Hpl; cbn in Hin.
    + destruct (ready_place _ _ _ _ I Hin) as (t' & Ht' & _ & Hd & Hr & _).
      destruct (take_ready _ _ _ _ I Ht' Hd Hr) as (_ & _ & _ & ?). lia.
    + rewrite El in Hin. by apply elem_of_nil in Hin.
    + split; [by left|]. exact (keeps_alive_false _ _ Et _ _ Hin Ht).
    + split; [by right|]. exact (keeps_alive_false _ _ Ep _ _ Hin Ht).
  - destruct (shutdown_ok ∅ st I) as (st' & -> & I' & R & C & _). exists st', GNUNET_OK. split_and!; [done| |by left|].
    + apply op_loop_effect; [by eapply (changed_effect _ _ _ _ PShutdown)|done].
    + intros id t Ht Hw. rewrite C, Ht, decide_False; [done|]. apply (not_listed _ _ PShutdown _ _ I Ht).
      by destruct Hw as [-> | ->].
Qed.

(** The only errors of [select] are interruptions. *)
Definition env_ok (env : LoopEnv) : Prop :=
  is_u64 (abs_value_us (le_update env)) /\ is_u64 (abs_value_us (le_check env))
  /\ (le_eintr env = true \/ forall rs ws to, fst (fst (le_select env rs ws to)) <> GNUNET_SYSERR).

Lemma check_ready_effect st st' now rs ws : active_task st = None -> sched_inv ∅ st' -> same_rest st st' ->
  dom (tasks st') = dom (tasks st) ->
  (forall id t, tasks st !! id = Some t -> exists t', tasks st' !! id = Some t' /\ woken now rs ws t t') -> loop_effect st st' [].
Proof.
  intros Ha I' (Ra & _) Hd Hw. split; [done|congruence|cbn; by rewrite Hd|]. intros id t Ht Hin _ _.
  destruct (Hw _ _ Ht) as (t' & Ht' & H). unfold woken in H. rewrite decide_False in H; [by subst|].
  intros [[Hp|Hp] _]; apply Hin; (eapply place_waiting; [exact Hp|done]).
Qed.

Section Body.
Context (body : SchedulerState -> Z -> GNUNET_SCHEDULER_Task -> GNUNET_SCHEDULER_TaskContext -> list sched_op).

(** Callbacks keep to the interface. *)
Definition body_allowed : Prop := forall st id t tc, sched_inv {[id]} st -> active_task st = Some id -> tasks st !! id = Some t ->
  ops_allowed (body st id t tc) st.
Context (Hbody : body_allowed).

(** A task of the highest priority is run. *)
Lemma run_one_ok rs ws st : sched_inv ∅ st -> ready_count st <> 0 -> exists id t tc stA stB ev rs' ws',
  run_one body rs ws st = Some (finished id stB, priority t, rs', ws', Started id tc :: ev)
  /\ starting st id t stA /\ sched_ops (body stA id t tc) stA = Some (stB, ev) /\ op_effect {[id]} stA stB ev
  /\ tasks st !! id = Some t /\ in_ready_list t <> GNUNET_NO /\ tc_reason tc = reason t
  /\ (forall i ti, tasks st !! i = Some ti -> in_ready_list ti <> GNUNET_NO -> priority ti <= priority t).
Proof.
  intros I Hc. destruct (find_ready_highest ∅ st I Hc) as (p & id & l & t & E & Hl & Ht & Hok & Hd & Hin & -> & Hmax).
  destruct (take_ready ∅ st id t I Ht Hd Hin) as (I1 & Hq & Hpl & Hpos). rewrite Hpl in I1. cbn [queue] in I1. rewrite Hl in I1. cbn [default] in I1.
  unfold run_one. rewrite (bool_decide_eq_true_2 _ (keep_queue_empty _ _ I)), E, Ht, Hl. unfold DLL_remove.
  rewrite bool_decide_eq_true_2 by set_solver. cbn [tasks_run]. set (stA := set_active _ _).
  rewrite union_empty_r_L in I1.
  assert (HA : starting st id t stA).
  { pose proof (ready_count_range _ _ I) as HR. split_and!; try done.
    - eapply inv_ext; [exact I1|..]; try done. apply Hok.
    - cbn. apply u32_small. unfold is_u32. lia. }
  destruct (set_if_ok (negb (-1 =? read_fd t) && negb (0 =? Z.land (reason t) GNUNET_SCHEDULER_REASON_READ_READY)) rs (read_fd t))
    as (rs' & -> & _); [apply fd_ok_range, Hok|].
  destruct (set_if_ok (negb (-1 =? write_fd t) && negb (0 =? Z.land (reason t) GNUNET_SCHEDULER_REASON_WRITE_READY)) ws (write_fd t))
    as (ws' & -> & Hws); [apply fd_ok_range, Hok|].
  replace (negb (_ && _ && _)) with true.
  2: { destruct (-1 =? write_fd t) eqn:Ew; [by rewrite andb_false_r|]. destruct (0 =? Z.land (reason t) _); [done|].
       unfold fdset_test_native. rewrite bool_decide_eq_true_2 by auto. replace (write_fd t =? -1) with false by lia. done. }
  set (tc := mk_tc _ _ _). destruct HA as (IA & Aa & HA).
  destruct (ops_ok {[id]} (body stA id t tc) stA) as (stB & ev & Eo & FB); [done|by rewrite Aa| |by apply Hbody|].
  { intros x ->%elem_of_singleton. done. }
  rewrite Eo. exists id, t, tc, stA, stB, ev, rs', ws'. split_and!; try done.
  - rewrite Z2Nat.id; [done|]. destruct Hok as [[? _] _ _ _]. lia.
  - intros i ti Hti Hi. apply (Hmax i); [done|apply not_elem_of_empty|done].
Qed.

Lemma run_loop_ok fuel rs ws st : sched_inv ∅ st -> active_task st = None -> exists st' rs' ws' ev b,
  run_loop body fuel rs ws st = Some (st', rs', ws', ev, b) /\ loop_effect st st' ev.
Proof.
  revert rs ws st. induction fuel as [|fuel IH]; intros rs ws st I Ha; cbn [run_loop]; [eauto 10 using loop_effect_refl|].
  destruct (0 =? ready_count st) eqn:Ec; [eauto 10 using loop_effect_refl|].
  destruct (run_one_ok rs ws st I) as (id & t & tc & stA & stB & ev & rs1 & ws1 & -> & HA & _ & FB & Ht & _); [lia|].
  pose proof (finished_effect _ _ _ tc _ _ _ HA FB Ht) as F.
  case_match; [|eauto 10]. destruct (IH rs1 ws1 (finished id stB)) as (st' & rs' & ws' & e2 & b & -> & F'); [apply F|apply F|].
  do 5 eexists. split; [done|]. apply (loop_effect_trans _ _ _ _ _ F F').
Qed.

Lemma run_ready_ok fuel rs ws st : sched_inv ∅ st -> active_task st = None -> exists st' rs' ws' ev b,
  run_ready body fuel rs ws st = Some (st', rs', ws', ev, b) /\ loop_effect st st' ev.
Proof.
  intros I Ha. destruct (run_loop_ok fuel rs ws (set_max_added GNUNET_SCHEDULER_PRIORITY_KEEP st)) as (st' & rs' & ws' & ev & b & E & F);
    [|done|]; [eapply inv_ext; [exact I|..]; try done; apply I|].
  do 5 eexists. split; [exact E|]. destruct F as [I' A' H' K']. split; done.
Qed.

Lemma loop_round_ok pr env st : sched_inv ∅ st -> active_task st = None -> env_ok env -> exists st' ev r,
  loop_round body pr env st = Some (st', ev, r) /\ loop_effect st st' ev /\ (r = Exit -> all_done st').
Proof.
  intros I Ha (Hu & Hk & He). unfold loop_round.
  destruct (check_lifeness_ok st I Ha) as (st1 & a & -> & F1 & Hr & _).
  destruct (GNUNET_OK =? a) eqn:Ea; cbn [negb]; [|do 3 eexists; split; [done|]; split; [done|]; intros _;
    destruct Hr as [->|(_ & -> & ?)]; [done|done]]. clear Hr.
  destruct (select_arguments_ok pr st1 (le_update env) (lf_inv _ _ _ F1) Hu) as (rs & ws & to & -> & _).
  destruct (le_select env rs ws to) as [[ret rs1] ws1] eqn:Es. destruct (ret =? GNUNET_SYSERR) eqn:Er.
  { destruct He as [->|He]; [by do 3 eexists|]. specialize (He rs ws to). rewrite Es in He. cbn in He. lia. }
  destruct (check_ready_ok st1 (le_check env) rs1 ws1 (lf_inv _ _ _ F1)) as (st2 & -> & I2 & R2 & D2 & W2).
  pose proof (check_ready_effect _ _ _ _ _ (lf_idle _ _ _ F1) I2 R2 D2 W2) as F2.
  destruct (run_ready_ok (le_fuel env) rs1 ws1 st2 I2 (lf_idle _ _ _ F2)) as (st3 & rs3 & ws3 & ev & b & -> & F3).
  assert (F : loop_effect st st3 ev) by apply (loop_effect_trans _ _ _ [] _ F1 (loop_effect_trans _ _ _ [] _ F2 F3)).
  destruct b; cbn [negb]; [|by do 3 eexists]. destruct (bool_decide (pr ∈ rs3)); [|by do 3 eexists].
  destruct (shutdown_ok ∅ st3 (lf_inv _ _ _ F3)) as (st4 & -> & I4 & R4 & C4 & _). do 3 eexists. split; [done|]. split; [|done].
  rewrite <- (app_nil_r ev). eapply loop_effect_trans; [exact F|].
  apply op_loop_effect; [|apply F3]. by eapply (changed_effect _ _ _ _ PShutdown (lf_inv _ _ _ F3)).
Qed.

Lemma main_loop_ok pr envs st : sched_inv ∅ st -> active_task st = None -> Forall env_ok envs -> exists st' ev r,
  main_loop body pr envs st = Some (st', ev, r) /\ loop_effect st st' ev /\ (r = Exit -> all_done st').
Proof.
  intros I Ha He. revert st I Ha. induction He as [|env envs Hv _ IH]; intros st I Ha; cbn.
  { do 3 eexists. split; [done|]. split; [by apply loop_effect_refl|done]. }
  destruct (loop_round_ok pr env st I Ha Hv) as (st1 & e1 & r1 & -> & F1 & Hr). destruct r1; [|by do 3 eexists|by do 3 eexists].
  destruct (IH st1) as (st2 & e2 & r2 & -> & F2 & Hr2); [apply F1|apply F1|].
  do 3 eexists. split; [done|]. split; [by eapply loop_effect_trans|done].
Qed.
End Body.

(** ** Operations that make no task ready *)

Definition quiet_op (op : sched_op) : bool := match op with AddWithReason _ _ _ _ _ | Shutdown => false | _ => true end.

(** Nor are file descriptors watched. *)
Definition timer_op (op : sched_op) : bool :=
  quiet_op op && match op with AddFd _ _ _ _ _ _ _ _ _ | AddSelect _ _ _ _ _ _ _ _ => false | _ => true end.

Lemma cancel_ready_count D st id st' r : sched_inv D st -> id ∉ D -> GNUNET_SCHEDULER_cancel id st = Some (st', r) ->
  ready_count st' <= ready_count st /\ max_priority_added st' = max_priority_added st.
Proof.
  intros I Hd. unfold GNUNET_SCHEDULER_cancel. destruct (tasks st !! id) as [t|] eqn:Ht; [|done].
  case_match; [|done]. destruct (GNUNET_NO =? in_ready_list t) eqn:En.
  - unfold DLL_remove. repeat case_match; intros; simplify_eq/=; split; (done || lia).
  - destruct (take_ready _ _ _ _ I Ht Hd) as (_ & _ & _ & Hpos); [lia|]. pose proof (ready_count_range _ _ I).
    destruct (check_priority (priority t)) as [p|]; [|done]. destruct (ready st !! Z.to_nat p) as [q|]; [|done].
    destruct (DLL_remove id q) as [q'|]; [|done]. intros [= <- <-]. cbn. rewrite u32_small by (unfold is_u32; lia). split; [lia|done].
Qed.

Lemma add_at_quiet addr at_ p task cls st st' : GNUNET_SCHEDULER_add_at_with_priority addr at_ p task cls st = Some st' ->
  ready_count st' = ready_count st /\ max_priority_added st' = max_priority_added st.
Proof.
  unfold GNUNET_SCHEDULER_add_at_with_priority. repeat (case_match; [|done]). destruct (insert_timeout addr at_ st); [|done]. by intros [= <-].
Qed.

Lemma add_pending_quiet addr t st st' : add_pending addr t st = Some st' -> ready_count st' = ready_count st.
Proof. unfold add_pending. destruct (DLL_insert _ _); [|done]. by intros [= <-]. Qed.

Lemma add_fd_quiet now addr delay p fd r w task cls st st' :
  GNUNET_SCHEDULER_add_net_with_priority now addr delay p fd r w task cls st = Some st' -> ready_count st' = ready_count st.
Proof.
  unfold GNUNET_SCHEDULER_add_net_with_priority, add_without_sets. repeat (case_match; [|done]). destruct (keep_priority p st); [|done].
  apply add_pending_quiet.
Qed.

Lemma add_select_quiet now addr p delay rs ws task cls st st' :
  GNUNET_SCHEDULER_add_select now addr p delay rs ws task cls st = Some st' -> ready_count st' = ready_count st.
Proof.
  unfold GNUNET_SCHEDULER_add_select, GNUNET_SCHEDULER_add_delayed_with_priority. destruct (bool_decide (rs = None) && bool_decide (ws = None)); [by intros [-> _]%add_at_quiet|].
  repeat (case_match; [|done]). destruct (keep_priority p st); [|done]. apply add_pending_quiet.
Qed.

Lemma quiet_step D op st st' ev : sched_inv D st -> (forall x, x ∈ D -> active_task st = Some x) -> op_allowed op st ->
  quiet_op op = true -> sched_op_step op st = Some (st', ev) ->
  ready_count st' <= ready_count st /\ (timer_op op = true -> max_priority_added st' = max_priority_added st).
Proof.
  intros I HD Ha Hq. destruct op; try done; cbn [sched_op_step]; unfold with_event.
  - destruct (GNUNET_SCHEDULER_add_at_with_priority _ _ _ _ _ _) eqn:E; [|done]. intros [= <- <-]. apply add_at_quiet in E as [-> ->]. split; [lia|done].
  - unfold GNUNET_SCHEDULER_add_delayed_with_priority. destruct (GNUNET_SCHEDULER_add_at_with_priority _ _ _ _ _ _) eqn:E; [|done]. intros [= <- <-].
    apply add_at_quiet in E as [-> ->]. split; [lia|done].
  - unfold GNUNET_SCHEDULER_add_now_with_lifeness, GNUNET_SCHEDULER_add_now, GNUNET_SCHEDULER_add_delayed, GNUNET_SCHEDULER_add_delayed_with_priority.
    destruct (GNUNET_SCHEDULER_add_at_with_priority _ _ _ _ _ _) as [s1|] eqn:E; [|done]. destruct (tasks s1 !! addr); [|done]. intros [= <- <-].
    apply add_at_quiet in E as [<- <-]. cbn. split; [lia|done].
  - unfold GNUNET_SCHEDULER_add_shutdown. repeat case_match; intros; simplify_eq/=; split; (done || lia).
  - destruct (GNUNET_SCHEDULER_add_net_with_priority _ _ _ _ _ _ _ _ _ _) eqn:E; [|done]. intros [= <- <-]. apply add_fd_quiet in E as ->. split; [lia|done].
  - destruct (GNUNET_SCHEDULER_add_select _ _ _ _ _ _ _ _ _) eqn:E; [|done]. intros [= <- <-]. apply add_select_quiet in E as ->. split; [lia|done].
  - destruct (GNUNET_SCHEDULER_cancel id st) as [[s1 r]|] eqn:E; [|done]. intros [= <- <-]. destruct Ha as [_ Ha].
    eapply cancel_ready_count in E as [? ?]; [by split|exact I|]. intros Hd. by apply Ha, HD.
  - destruct (GNUNET_SCHEDULER_get_load p st); [|done]. intros [= <- <-]. split; [lia|done].
Qed.

Lemma quiet_ops D ops st st' ev : sched_inv D st -> active_task st <> None -> (forall x, x ∈ D -> active_task st = Some x) ->
  ops_allowed ops st -> forallb quiet_op ops = true -> sched_ops ops st = Some (st', ev) ->
  ready_count st' <= ready_count st /\ (forallb timer_op ops = true -> max_priority_added st' = max_priority_added st).
Proof.
  revert st ev. induction ops as [|op ops IH]; intros st ev I Ha HD Hops Hq; cbn; [intros [= <- <-]; split; [lia|done]|].
  cbn in Hq, Hops. apply andb_prop in Hq as [Hq1 Hq2]. destruct Hops as [Hop Hops].
  destruct (op_step_ok D st I Ha op HD Hop) as (st1 & e1 & E1 & F1). rewrite E1 in Hops |- *.
  destruct (quiet_step D op st st1 e1 I HD Hop Hq1 E1) as [L1 M1].
  destruct (sched_ops ops st1) as [[s2 e2]|] eqn:E2; [|done]. intros [= <- <-]. destruct F1 as [I1 A1 _].
  destruct (IH st1 e2 I1) as [L2 M2]; try done; [by rewrite A1|by rewrite A1|]. split; [lia|].
  intros [? ?]%andb_prop. rewrite M2, M1; done.
Qed.

(** ** Termination *)

Lemma run_loop_terminates body fuel rs ws st : body_allowed body ->
  (forall st id t tc, forallb quiet_op (body st id t tc) = true) -> sched_inv ∅ st -> active_task st = None ->
  ready_count st < Z.of_nat fuel ->
  exists st' rs' ws' ev, run_loop body fuel rs ws st = Some (st', rs', ws', ev, true) /\ loop_effect st st' ev
    /\ ((forall st id t tc, forallb timer_op (body st id t tc) = true) ->
        max_priority_added st = GNUNET_SCHEDULER_PRIORITY_KEEP -> ready_count st' = 0).
Proof.
  intros Hb Hq. revert rs ws st. induction fuel as [|fuel IH]; intros rs ws st I Ha Hf; cbn [run_loop].
  { pose proof (ready_count_range _ _ I). lia. }
  destruct (0 =? ready_count st) eqn:Ec; [do 4 eexists; split; [done|]; split; [by apply loop_effect_refl|lia]|].
  destruct (run_one_ok body Hb rs ws st I) as (id & t & tc & stA & stB & ev & rs1 & ws1 & -> & HA & EB & FB & Ht & _); [lia|].
  pose proof (finished_effect _ _ _ tc _ _ _ HA FB Ht) as F. destruct HA as (IA & Aa & Et & Cc & Cm).
  destruct (quiet_ops {[id]} (body stA id t tc) stA stB ev IA) as [L M]; try done;
    [by rewrite Aa|set_solver|by apply Hb; [| |rewrite Et]|].
  destruct (si_tasks _ _ I _ _ Ht) as [[[Hp _] _ _ _] _].
  destruct (bool_decide (pending (finished id stB) = []) || (priority t >=? max_priority_added (finished id stB))) eqn:Eb.
  - destruct (IH rs1 ws1 (finished id stB)) as (st' & rs' & ws' & e2 & -> & F' & H'); [apply F|apply F|cbn; lia|].
    do 4 eexists. split; [done|]. split; [apply (loop_effect_trans _ _ _ _ _ F F')|]. intros Htm Hm. apply H'; [done|]. cbn.
    rewrite M, Cm; auto.
  - do 4 eexists. split; [done|]. split; [exact F|]. intros Htm Hm. cbn in Eb. rewrite M, Cm, Hm in Eb by auto.
    unfold GNUNET_SCHEDULER_PRIORITY_KEEP in Eb. lia.
Qed.

(** The task is taken from the scheduler. *)
Definition leaves (id : Z) (e : sched_event) : Prop :=
  match e with Cancelled i | Started i _ => i = id | Added _ => False end.
#[global] Instance leaves_dec id e : Decision (leaves id e).
Proof. destruct e; cbn; apply _. Defined.

Lemma stays id ev : ~ Exists (leaves id) ev -> (Cancelled id ∉ ev) /\ forall tc, Started id tc ∉ ev.
Proof. intros H. split; [|intros tc]; intros Hin; apply H, Exists_exists; eexists; split; (exact Hin || done). Qed.

Lemma leaves_cases id ev : Exists (leaves id) ev -> (exists tc, Started id tc ∈ ev) \/ Cancelled id ∈ ev.
Proof. intros ([x|x|x tc] & Hin & Hl)%Exists_exists; cbn in Hl; try done; subst x; eauto. Qed.

Lemma ready_leave st st' ev id t : loop_effect st st' ev -> ready_count st' = 0 -> tasks st !! id = Some t -> in_ready_list t <> GNUNET_NO ->
  Exists (leaves id) ev.
Proof.
  intros F H0 Ht Hin. destruct (decide (Exists (leaves id) ev)) as [|Hn]; [done|]. apply stays in Hn as [H1 H2].
  pose proof (lf_ready _ _ _ F _ _ Ht Hin H1 H2) as Ht'.
  destruct (take_ready _ _ _ _ (lf_inv _ _ _ F) Ht' (not_elem_of_empty _) Hin) as (_ & _ & _ & ?). lia.
Qed.

Lemma loop_effect_nil_dom st st' : loop_effect st st' [] -> dom (tasks st') = dom (tasks st).
Proof. intros [_ _ [= H] _]. done. Qed.

Lemma quiet_fuel st st' : sched_inv ∅ st' -> dom (tasks st') = dom (tasks st) -> ready_count st' <= Z.of_nat (size (tasks st)).
Proof.
  intros I Hd. rewrite (si_count _ _ I), <- size_dom, <- Hd, <- (size_list_to_set (C := gset Z) _ (ready_nodup _ _ I)).
  apply inj_le, subseteq_size. intros id Hid%elem_of_list_to_set. apply (ready_concat _ _ I) in Hid as (t & ? & _). by apply elem_of_dom.
Qed.

Lemma forallb_timer_quiet ops : forallb timer_op ops = true -> forallb quiet_op ops = true.
Proof. rewrite !forallb_forall. intros H op Hin. apply H in Hin. unfold timer_op in Hin. by apply andb_prop in Hin as [? _]. Qed.

(** Tasks that are ready before a round, or of which [select] finds that they are, are ready
    when tasks are run. *)
Lemma round_ready st st1 st2 now rs ws id t : loop_effect st st1 [] -> loop_effect st1 st2 [] ->
  (forall id t, tasks st !! id = Some t -> waiting t -> tasks st1 !! id = Some t) ->
  (forall id t, tasks st1 !! id = Some t -> exists t', tasks st2 !! id = Some t' /\ woken now rs ws t t') ->
  tasks st !! id = Some t -> in_ready_list t <> GNUNET_NO \/ waiting t /\ wake_reason now rs ws t <> 0 ->
  exists t', tasks st2 !! id = Some t' /\ in_ready_list t' <> GNUNET_NO.
Proof.
  intros F1 F2 Hw W Ht [Hr|[Hwt Hr]].
  - exists t. split; [|done]. apply (lf_ready _ _ _ F2); [apply (lf_ready _ _ _ F1)| | |]; try done; set_solver.
  - destruct (W id t (Hw _ _ Ht Hwt)) as (t' & Ht' & H). unfold woken in H. rewrite decide_True in H by done.
    exists t'. split; [done|]. by destruct H as [-> _].
Qed.

(** ** The whole process *)

Lemma initial_inv : sched_inv ∅ (set_current GNUNET_SCHEDULER_PRIORITY_DEFAULT GNUNET_YES sched_initial).
Proof.
  assert (Hq : forall pl, queue (set_current GNUNET_SCHEDULER_PRIORITY_DEFAULT GNUNET_YES sched_initial) pl = []).
  { intros [p| | |]; try done. do 8 (destruct p as [|p]; [done|]). done. }
  split; try done.
  - intros id pl. rewrite Hq. split; [by intros ?%elem_of_nil|]. by intros (t & ? & _).
  - intros pl. rewrite Hq. constructor.
  - constructor.
Qed.

Lemma scheduler_run_ok body task cls handler addr addr2 pr now envs : body_allowed body -> Forall env_ok envs ->
  task <> 0 -> handler <> 0 -> addr2 <> addr -> exists st ev r,
  GNUNET_SCHEDULER_run body task cls handler addr addr2 pr now envs = Some (st, ev, r)
  /\ sched_inv ∅ st /\ active_task st = None /\ history ev ∅ = Some (dom (tasks st)) /\ (r = Exit -> all_done st).
Proof.
  intros Hb He Ht Hh Ha. unfold GNUNET_SCHEDULER_run. set (st0 := set_current _ _ sched_initial).
  pose proof initial_inv as I0. fold st0 in I0.
  destruct (add_with_reason_ok ∅ st0 I0 addr task cls GNUNET_SCHEDULER_REASON_STARTUP GNUNET_SCHEDULER_PRIORITY_DEFAULT)
    as (st1 & -> & F1); [by right|done|done|].
  pose proof (oe_history _ _ _ _ F1) as H1. cbn in H1. rewrite !difference_empty_L, dom_empty_L in H1.
  rewrite bool_decide_eq_false_2 in H1 by set_solver. cbn in H1. injection H1 as H1.
  assert (I1 : sched_inv ∅ (set_active (Some (-1)) st1)) by (eapply inv_ext; [apply F1|..]; try done; apply F1).
  destruct (add_now_with_lifeness_ok ∅ (set_active (Some (-1)) st1) I1 ltac:(done) now addr2 GNUNET_NO handler 0) as (st2 & -> & F2).
  { split_and!; [|cbn; rewrite <- size_dom, <- H1|done].
    - apply not_elem_of_dom. cbn. rewrite <- H1. set_solver.
    - rewrite union_empty_r_L, size_singleton. done. }
  destruct (main_loop_ok body Hb pr envs (set_active None st2)) as (st3 & ev & r & -> & F3 & Hr); [|done|done|].
  { eapply inv_ext; [apply F2|..]; try done. apply F2. }
  do 3 eexists. split; [done|]. split_and!; [apply F3|apply F3| |done].
  pose proof (oe_history _ _ _ _ F2) as H2. rewrite !difference_empty_L in H2. cbn [set_active tasks] in H2. rewrite <- H1 in H2.
  change ([Added addr; Added addr2] ++ ev) with ([Added addr] ++ [Added addr2] ++ ev).
  rewrite (history_app [Added addr] _ _ ({[addr]} ∪ ∅)) by (cbn; by rewrite bool_decide_eq_false_2 by set_solver). rewrite (history_app [Added addr2] _ _ _ H2). apply F3.
Qed.

(** ** Theorems *)

(** Callbacks that add a task each, for a time or for a file descriptor, under an address
    that is not in use. *)
Definition demo_body (st : SchedulerState) (id : Z) (t : GNUNET_SCHEDULER_Task) (tc : GNUNET_SCHEDULER_TaskContext) : list sched_op :=
  if Z.of_nat (size (tasks st)) + 1 <? 2 ^ 32 then
    let addr := fresh (dom (tasks st)) in
    if callback t =? 1 then [AddDelayed (mk_abs 1000) addr (mk_rel 5000) GNUNET_SCHEDULER_PRIORITY_DEFAULT 2 0]
    else if callback t =? 2 then [AddFd (mk_abs 6000) addr (mk_rel 5000) GNUNET_SCHEDULER_PRIORITY_KEEP 4 true false 3 0]
    else []
  else [].

(** Those that are given address 103 add timers only. *)
Definition timer_body (st : SchedulerState) (id : Z) (t : GNUNET_SCHEDULER_Task) (tc : GNUNET_SCHEDULER_TaskContext) : list sched_op :=
  if (Z.of_nat (size (tasks st)) + 1 <? 2 ^ 32) && bool_decide (tasks st !! 103 = None) && (callback t =? 1)
  then [AddDelayed (mk_abs 1000) 103 (mk_rel 5000) GNUNET_SCHEDULER_PRIORITY_DEFAULT 2 0] else [].

Lemma demo_body_allowed : body_allowed demo_body.
Proof.
  intros st id t tc I Ha Ht. unfold demo_body. destruct (_ <? _) eqn:E; [|done].
  assert (Hn : tasks st !! fresh (dom (tasks st)) = None) by (apply not_elem_of_dom, is_fresh).
  destruct (callback t =? 1); [|destruct (callback t =? 2); [|done]].
  - split; [split; [split_and!; [done|lia|done]|done]|]. by destruct (sched_op_step _ st) as [[]|].
  - split; [split; [by split_and!; [|lia|]|split; [by left|done]]|]. by destruct (sched_op_step _ st) as [[]|].
Qed.

Lemma timer_body_allowed : body_allowed timer_body.
Proof.
  intros st id t tc I Ha Ht. unfold timer_body. destruct (_ && _ && _) eqn:E; [|done].
  apply andb_prop in E as [[E1 E2%bool_decide_eq_true]%andb_prop _].
  split; [split; [split_and!; [done|lia|done]|done]|]. by destruct (sched_op_step _ st) as [[]|].
Qed.

Lemma timer_body_timers st id t tc : forallb timer_op (timer_body st id t tc) = true.
Proof. unfold timer_body. by case_match. Qed.

(** The process after its start: one task is ready, the other waits. *)
Definition demo_state : SchedulerState :=
  match GNUNET_SCHEDULER_run timer_body 1 0 9 100 101 5 (mk_abs 1000) [] with Some (st, _, _) => st | None => sched_initial end.

Lemma demo_inv : sched_inv ∅ demo_state.
Proof.
  destruct (scheduler_run_ok timer_body 1 0 9 100 101 5 (mk_abs 1000) [] timer_body_allowed (Forall_nil_2 _) ltac:(done) ltac:(done)
    ltac:(done)) as (st & ev & r & E & I & _). unfold demo_state. by rewrite E.
Qed.

(** Rounds in which [select] reports that the file descriptor is ready. *)
Definition demo_env (time : Z) (fds : list Z) : LoopEnv :=
  mk_loop_env (mk_abs time) (mk_abs time) (fun rs _ _ => (GNUNET_OK, rs ∩ list_to_set fds, ∅)) false 10.

(** C6. Callbacks add tasks with priorities of their own (for timers [GNUNET_SCHEDULER_PRIORITY_KEEP] is left out) and
    file descriptors below [FD_SETSIZE], and cancel tasks that exist and do not run; [select] returns any sets, or fails because of a signal
    (after other errors the code aborts). Then for every clock no assertion of the scheduler fails and no freed task is used: after any
    number of rounds every task is in exactly the list that its fields say, the lists have no
    duplicates, the list of times is in order and [ready_count] is the number of ready tasks.
    The history is one in which only tasks that were added are started or cancelled, each at
    most once; the tasks that remain are those that were added and neither started nor
    cancelled. The process ends only when no task is ready, none waits for the shutdown and
    none of those that wait keeps it alive. *)
Theorem scheduler_safe body task cls handler addr addr2 pr now envs : body_allowed body -> Forall env_ok envs ->
  task <> 0 -> handler <> 0 -> addr2 <> addr -> exists st ev r,
  GNUNET_SCHEDULER_run body task cls handler addr addr2 pr now envs = Some (st, ev, r)
  /\ sched_inv ∅ st /\ history ev ∅ = Some (dom (tasks st)) /\ (r = Exit -> all_done st).
Proof.
  intros Hb He Ht Hh Ha. destruct (scheduler_run_ok body task cls handler addr addr2 pr now envs) as (st & ev & r & E & I & _ & H & R); eauto 10.
Qed.

Lemma scheduler_safe_witness : exists st ev r,
  GNUNET_SCHEDULER_run demo_body 1 0 9 100 101 5 (mk_abs 1000) [demo_env 2000 []; demo_env 6000 []; demo_env 7000 [4]] = Some (st, ev, r)
  /\ sched_inv ∅ st /\ history ev ∅ = Some (dom (tasks st)) /\ (r = Exit -> all_done st).
Proof.
  apply (scheduler_safe demo_body 1 0 9 100 101 5 (mk_abs 1000)); [exact demo_body_allowed| |done|done|done].
  repeat constructor; try done; right; intros; done.
Defined.

(** C18. If callbacks make no task ready and watch no file descriptors and [select] does not fail, a round of the main
    loop terminates, within as many steps as there are tasks. Either nothing keeps the process alive any more and the
    loop ends, or [select] is called for what the tasks wait for and every task that was ready, whose time has come or
    whose file descriptors this call reports is started in the round, or a callback has cancelled it. *)
Theorem scheduler_runs_due body pr env st : body_allowed body -> (forall st id t tc, forallb timer_op (body st id t tc) = true) ->
  sched_inv ∅ st -> active_task st = None -> env_ok env -> Z.of_nat (size (tasks st)) < Z.of_nat (le_fuel env) ->
  (forall rs ws to, fst (fst (le_select env rs ws to)) <> GNUNET_SYSERR) ->
  exists st' ev r, loop_round body pr env st = Some (st', ev, r)
    /\ (r = Exit /\ st' = st /\ ev = [] /\ all_done st
        \/ r = Continue /\ exists st1 rs ws to ret rs1 ws1, check_lifeness st = Some (st1, GNUNET_OK)
           /\ select_arguments pr (le_update env) st1 = Some (rs, ws, to) /\ le_select env rs ws to = (ret, rs1, ws1)
           /\ forall id t, tasks st !! id = Some t -> in_ready_list t <> GNUNET_NO \/ waiting t /\ wake_reason (le_check env) rs1 ws1 t <> 0 ->
                (exists tc, Started id tc ∈ ev) \/ Cancelled id ∈ ev).
Proof.
  intros Hb Htm I Ha (Hu & Hk & _) Hfuel He. unfold loop_round.
  destruct (check_lifeness_ok st I Ha) as (st1 & a & -> & F1 & Hr & Hw1).
  destruct (GNUNET_OK =? a) eqn:Ea; cbn [negb]; [|do 3 eexists; split; [done|]; left; destruct Hr as [->|(_ & -> & ?)]; done].
  assert (a = GNUNET_OK) as -> by (apply Z.eqb_eq in Ea; congruence).
  destruct (select_arguments_ok pr st1 (le_update env) (lf_inv _ _ _ F1) Hu) as (rs & ws & to & Esel & _). rewrite Esel.
  destruct (le_select env rs ws to) as [[ret rs1] ws1] eqn:Es.
  replace (ret =? GNUNET_SYSERR) with false by (specialize (He rs ws to); rewrite Es in He; cbn in He; lia).
  destruct (check_ready_ok st1 (le_check env) rs1 ws1 (lf_inv _ _ _ F1)) as (st2 & -> & I2 & R2 & D2 & W2).
  pose proof (check_ready_effect _ _ _ _ _ (lf_idle _ _ _ F1) I2 R2 D2 W2) as F2.
  pose proof (quiet_fuel _ _ I2 (eq_trans D2 (loop_effect_nil_dom _ _ F1))) as Hc.
  destruct (run_loop_terminates body (le_fuel env) rs1 ws1 (set_max_added GNUNET_SCHEDULER_PRIORITY_KEEP st2) Hb)
    as (st3 & rs3 & ws3 & ev & E3 & F3 & H3).
  { intros ????. apply forallb_timer_quiet, Htm. }
  { eapply inv_ext; [exact I2|..]; try done. apply I2. }
  { apply F2. }
  { cbn. lia. }
  unfold run_ready. rewrite E3. cbn [negb]. specialize (H3 Htm eq_refl).
  assert (Hl : forall id t, tasks st !! id = Some t -> in_ready_list t <> GNUNET_NO \/ waiting t /\ wake_reason (le_check env) rs1 ws1 t <> 0 ->
    (exists tc, Started id tc ∈ ev) \/ Cancelled id ∈ ev).
  { intros id t Ht Hrd. destruct (round_ready _ _ _ _ _ _ _ _ F1 F2 Hw1 W2 Ht Hrd) as (t2 & Ht2 & Hin2).
    eapply leaves_cases, (ready_leave (set_max_added GNUNET_SCHEDULER_PRIORITY_KEEP st2) st3); done. }
  destruct (bool_decide (pr ∈ rs3)).
  - destruct (shutdown_ok ∅ st3 (lf_inv _ _ _ F3)) as (st4 & -> & _). do 3 eexists. split; [done|]. right. split; [done|]. by exists st1, rs, ws, to, ret, rs1, ws1.
  - do 3 eexists. split; [done|]. right. split; [done|]. by exists st1, rs, ws, to, ret, rs1, ws1.
Qed.

(** The task that was ready is started. *)
Lemma scheduler_runs_due_witness : exists st' ev, loop_round timer_body 5 (demo_env 2000 []) demo_state = Some (st', ev, Continue)
  /\ forall id t, tasks demo_state !! id = Some t -> in_ready_list t <> GNUNET_NO -> (exists tc, Started id tc ∈ ev) \/ Cancelled id ∈ ev.
Proof.
  destruct (scheduler_runs_due timer_body 5 (demo_env 2000 []) demo_state timer_body_allowed timer_body_timers demo_inv) as (st' & ev & r & E & Hr).
  - vm_compute. reflexivity.
  - split; [done|]. split; [done|]. right. intros. done.
  - vm_compute. reflexivity.
  - intros. done.
  - destruct Hr as [(-> & _)|(-> & st1 & rs & ws & to & ret & rs1 & ws1 & _ & _ & _ & H)]; [vm_compute in E; discriminate|].
    exists st', ev. split; [done|]. intros id t Ht Hin. apply (H id t Ht). by left.
Defined.

(** C19. [check_ready] makes exactly those tasks ready whose time has come or that wait for a
    file descriptor which is ready, tells them which of this has happened, and leaves all
    others and all other fields as they were. *)
Theorem tasks_woken st now rs ws : sched_inv ∅ st ->
  exists st', check_ready now rs ws st = Some st' /\ sched_inv ∅ st' /\ same_rest st st' /\ dom (tasks st') = dom (tasks st)
    /\ (forall id t, tasks st !! id = Some t -> exists t', tasks st' !! id = Some t' /\ woken now rs ws t t').
Proof. apply check_ready_ok. Qed.

Lemma tasks_woken_witness : exists st', check_ready (mk_abs 2000) ∅ ∅ demo_state = Some st' /\ sched_inv ∅ st' /\ same_rest demo_state st'
  /\ dom (tasks st') = dom (tasks demo_state)
  /\ (forall id t, tasks demo_state !! id = Some t -> exists t', tasks st' !! id = Some t' /\ woken (mk_abs 2000) ∅ ∅ t t').
Proof. apply (tasks_woken demo_state (mk_abs 2000) ∅ ∅ demo_inv). Defined.

(** C29. [select] is asked for exactly the file descriptors for which tasks wait, and the pipe
    for signals; it does not sleep if a task is ready, never longer than until the time of any
    task that waits, and otherwise until just the first of these times, or for ever. *)
Theorem select_watches pr st now : sched_inv ∅ st -> is_u64 (abs_value_us now) -> exists rs ws to,
  select_arguments pr now st = Some (rs, ws, to)
  /\ (forall fd, fd ∈ rs <-> fd = pr \/ exists id t, tasks st !! id = Some t /\ place t = PPending /\ wants fd (read_fd t) (read_set t))
  /\ (forall fd, fd ∈ ws <-> exists id t, tasks st !! id = Some t /\ place t = PPending /\ wants fd (write_fd t) (write_set t))
  /\ (forall id t, tasks st !! id = Some t -> waiting t -> rel_value_us to <= delay_until now t)
  /\ (if decide (0 < ready_count st) then rel_value_us to = 0
      else rel_value_us to = UINT64_MAX
           \/ exists id t, tasks st !! id = Some t /\ waiting t /\ rel_value_us to = delay_until now t).
Proof. apply select_arguments_ok. Qed.

Lemma select_watches_witness : exists rs ws to,
  select_arguments 5 (mk_abs 500) demo_state = Some (rs, ws, to)
  /\ (forall fd, fd ∈ rs <-> fd = 5 \/ exists id t, tasks demo_state !! id = Some t /\ place t = PPending /\ wants fd (read_fd t) (read_set t))
  /\ (forall fd, fd ∈ ws <-> exists id t, tasks demo_state !! id = Some t /\ place t = PPending /\ wants fd (write_fd t) (write_set t))
  /\ (forall id t, tasks demo_state !! id = Some t -> waiting t -> rel_value_us to <= delay_until (mk_abs 500) t)
  /\ (if decide (0 < ready_count demo_state) then rel_value_us to = 0
      else rel_value_us to = UINT64_MAX
           \/ exists id t, tasks demo_state !! id = Some t /\ waiting t /\ rel_value_us to = delay_until (mk_abs 500) t).
Proof. apply (select_watches 5 demo_state (mk_abs 500) demo_inv). done. Defined.

(** C30. The search for the place of a new task from that of the last insertion, backwards and
    then forwards, finds the place that a search from the start of the list finds: after all
    tasks that are not due later. The list stays in order. *)
Theorem timeouts_in_order D st addr at_ : sched_inv D st -> tasks st !! addr = None ->
  insert_timeout addr at_ st = Some (insert_ordered st addr (abs_value_us at_) (pending_timeout st))
  /\ (forall st' t, tasks st' = <[addr := t]> (tasks st) -> timeout t = at_ ->
      StronglySorted (fun a b => timeout_of st' a <= timeout_of st' b) (insert_ordered st addr (abs_value_us at_) (pending_timeout st))).
Proof.
  intros I Hn. split; [by eapply insert_timeout_ok|]. intros st' t Et <-.
  pose proof (timeout_of_others _ _ _ _ _ I Hn Et) as Ho. rewrite (insert_ordered_ext _ st') by done.
  apply insert_ordered_sorted; [unfold timeout_of; by rewrite Et, lookup_insert_eq|].
  apply (sorted_ext (timeout_of st)); [done|apply I].
Qed.

Lemma timeouts_in_order_witness : insert_timeout 102 (mk_abs 500) demo_state = Some (insert_ordered demo_state 102 500 (pending_timeout demo_state))
  /\ (forall st' t, tasks st' = <[102 := t]> (tasks demo_state) -> timeout t = mk_abs 500 ->
      StronglySorted (fun a b => timeout_of st' a <= timeout_of st' b) (insert_ordered demo_state 102 500 (pending_timeout demo_state))).
Proof. apply (timeouts_in_order ∅ demo_state 102 (mk_abs 500) demo_inv). vm_compute. reflexivity. Defined.

(** C31. If there are ready tasks, one is started, and no ready task has a higher priority; it
    is told the reason that was noted for it. *)
Theorem highest_priority_first body rs ws st : body_allowed body -> sched_inv ∅ st -> ready_count st <> 0 -> exists st' p rs' ws' id t tc ev,
  run_one body rs ws st = Some (st', p, rs', ws', Started id tc :: ev) /\ sched_inv ∅ st'
  /\ history (Started id tc :: ev) (dom (tasks st)) = Some (dom (tasks st'))
  /\ tasks st !! id = Some t /\ p = priority t /\ tc_reason tc = reason t
  /\ (forall i ti, tasks st !! i = Some ti -> in_ready_list ti <> GNUNET_NO -> priority ti <= priority t).
Proof.
  intros Hb I Hc. destruct (run_one_ok body Hb rs ws st I Hc) as (id & t & tc & stA & stB & ev & rs' & ws' & E & HA & _ & FB & Ht & _ & Hr & Hm).
  destruct (finished_effect _ _ _ tc _ _ _ HA FB Ht) as [I' _ H' _]. do 8 eexists. split; [exact E|]. split_and!; done.
Qed.

Lemma highest_priority_first_witness : exists st' p rs' ws' id t tc ev,
  run_one timer_body ∅ ∅ demo_state = Some (st', p, rs', ws', Started id tc :: ev) /\ sched_inv ∅ st'
  /\ history (Started id tc :: ev) (dom (tasks demo_state)) = Some (dom (tasks st'))
  /\ tasks demo_state !! id = Some t /\ p = priority t /\ tc_reason tc = reason t
  /\ (forall i ti, tasks demo_state !! i = Some ti -> in_ready_list ti <> GNUNET_NO -> priority ti <= priority t).
Proof. apply (highest_priority_first timer_body ∅ ∅ demo_state timer_body_allowed demo_inv). vm_compute. discriminate. Defined.

(** ** Examples *)

(** What has been started, added and cancelled, without the contexts. *)
Definition event_ids (ev : list sched_event) : list (Z * Z) :=
  map (fun e => match e with Added id => (0, id) | Started id _ => (1, id) | Cancelled id => (2, id) end) ev.

(** Tasks that are due together run in the opposite order of their times. *)
Definition order_body (_ : SchedulerState) (_ : Z) (t : GNUNET_SCHEDULER_Task) (_ : GNUNET_SCHEDULER_TaskContext) : list sched_op :=
  if callback t =? 1 then [AddAt 201 (mk_abs 3000) 3 2 0; AddAt 202 (mk_abs 4000) 3 2 0; AddAt 203 (mk_abs 3500) 3 2 0] else [].

Example due_together : (let? (_, ev, r) := GNUNET_SCHEDULER_run order_body 1 0 9 100 101 5 (mk_abs 1000) [demo_env 500 []; demo_env 9000 []; demo_env 9000 []]
                        in Some (event_ids ev, r)) =
  Some ([(0, 100); (0, 101); (1, 100); (0, 201); (0, 202); (0, 203); (1, 202); (1, 203); (1, 201); (1, 101)], Exit).
Proof. vm_compute. reflexivity. Qed.

(** A task that is to keep the priority of the current one when a time has come: its
    callback is never called, the process fails. *)
Definition keep_body (_ : SchedulerState) (_ : Z) (t : GNUNET_SCHEDULER_Task) (_ : GNUNET_SCHEDULER_TaskContext) : list sched_op :=
  if callback t =? 1 then [AddAt 201 (mk_abs 3000) GNUNET_SCHEDULER_PRIORITY_KEEP 2 0] else [].

Example keep_priority_fails :
  is_Some (GNUNET_SCHEDULER_run keep_body 1 0 9 100 101 5 (mk_abs 1000) [demo_env 2000 []])
  /\ GNUNET_SCHEDULER_run keep_body 1 0 9 100 101 5 (mk_abs 1000) [demo_env 2000 []; demo_env 9000 []] = None.
Proof. split; [vm_compute; eauto|vm_compute; reflexivity]. Qed.
