(* ===== verification/Heap.v ===== *)
(** * Binary heap with handles: [src/util/container_heap.c]

    The heap at pointer level: nodes live in a store, link to parent and
    children, and carry the 32-bit size of the subtree below them. Operations
    return [None] where the C code would dereference a dangling or null pointer
    or fail an assertion. *)

From S2P Require Import Prelude.
From stdpp Require Import gmap.
Open Scope Z_scope.

(** ** Data *)

Definition loc := positive.

Inductive GNUNET_CONTAINER_HeapOrder := ORDER_MAX | ORDER_MIN.

Record HeapNode := mk_node {
  parent : option loc;
  left_child : option loc;
  right_child : option loc;
  element : Z;
  cost : Z;
  tree_size : Z;
}.

Record Heap := mk_heap {
  nodes : gmap loc HeapNode;
  root : option loc;
  walk_pos : option loc;
  size : Z;
  order : GNUNET_CONTAINER_HeapOrder;
}.

Definition set_parent (p : option loc) (n : HeapNode) : HeapNode :=
  mk_node p (left_child n) (right_child n) (element n) (cost n) (tree_size n).
Definition set_left (p : option loc) (n : HeapNode) : HeapNode :=
  mk_node (parent n) p (right_child n) (element n) (cost n) (tree_size n).
Definition set_right (p : option loc) (n : HeapNode) : HeapNode :=
  mk_node (parent n) (left_child n) p (element n) (cost n) (tree_size n).
Definition set_cost (c : Z) (n : HeapNode) : HeapNode :=
  mk_node (parent n) (left_child n) (right_child n) (element n) c (tree_size n).
Definition add_size (z : Z) (n : HeapNode) : HeapNode :=
  mk_node (parent n) (left_child n) (right_child n) (element n) (cost n) (u32 (tree_size n + z)).

Definition set_root (r : option loc) (h : Heap) : Heap :=
  mk_heap (nodes h) r (walk_pos h) (size h) (order h).
Definition set_walk (w : option loc) (h : Heap) : Heap :=
  mk_heap (nodes h) (root h) w (size h) (order h).
Definition set_size (s : Z) (h : Heap) : Heap :=
  mk_heap (nodes h) (root h) (walk_pos h) (u32 s) (order h).
Definition free_node (l : loc) (h : Heap) : Heap :=
  mk_heap (delete l (nodes h)) (root h) (walk_pos h) (size h) (order h).

(** Reads and writes through a node pointer. *)
Definition get (h : Heap) (l : loc) : option HeapNode := nodes h !! l.
Definition put (l : loc) (n : HeapNode) (h : Heap) : Heap :=
  mk_heap (<[l := n]> (nodes h)) (root h) (walk_pos h) (size h) (order h).
Definition modify (f : HeapNode -> HeapNode) (l : loc) (h : Heap) : option Heap :=
  let? n := get h l in Some (put l (f n) h).

(** ** Inspection *)

Definition GNUNET_CONTAINER_heap_create (o : GNUNET_CONTAINER_HeapOrder) : Heap :=
  mk_heap ∅ None None 0 o.

(** Frees the handle; the result is whether the check for emptiness passes. *)
Definition GNUNET_CONTAINER_heap_destroy (h : Heap) : bool := size h =? 0.

(** [Some None] is the null pointer returned for an empty heap. *)
Definition GNUNET_CONTAINER_heap_peek (h : Heap) : option (option Z) :=
  match root h with
  | None => Some None
  | Some r => let? n := get h r in Some (Some (element n))
  end.

Definition GNUNET_CONTAINER_heap_peek2 (h : Heap) : option (Z * option (Z * Z)) :=
  match root h with
  | None => Some (GNUNET_NO, None)
  | Some r => let? n := get h r in Some (GNUNET_YES, Some (element n, cost n))
  end.

Definition GNUNET_CONTAINER_heap_get_size (h : Heap) : Z := size h.

Definition GNUNET_CONTAINER_heap_node_get_cost (h : Heap) (l : loc) : option Z :=
  cost <$> get h l.

(** The iterator is a function of its closure, the node, element and cost. *)
Fixpoint node_iterator {A} (fuel : nat) (h : Heap) (node : option loc)
  (it : A -> loc -> Z -> Z -> A * Z) (cls : A) : option (A * Z) :=
  match node with
  | None => Some (cls, GNUNET_YES)
  | Some l =>
      match fuel with
      | O => None
      | S fuel' =>
          let? n := get h l in
          let? (cls, r) := node_iterator fuel' h (left_child n) it cls in
          if negb (r =? GNUNET_YES) then Some (cls, GNUNET_NO)
          else
          let? (cls, r) := node_iterator fuel' h (right_child n) it cls in
          if negb (r =? GNUNET_YES) then Some (cls, GNUNET_NO)
          else Some (it cls l (element n) (cost n))
      end
  end.

Definition GNUNET_CONTAINER_heap_iterate {A} (fuel : nat) (h : Heap)
  (it : A -> loc -> Z -> Z -> A * Z) (cls : A) : option A :=
  fst <$> node_iterator fuel h (root h) it cls.

(** [random] is the outcome of [GNUNET_CRYPTO_random_u32 (.., 2)]. *)
Definition GNUNET_CONTAINER_heap_walk_get_next (random : Z) (h : Heap) : option (Heap * option Z) :=
  match root h with
  | None => Some (h, None)
  | Some r =>
      let pos := match walk_pos h with None => r | Some p => p end in
      let? n := get h pos in
      Some (set_walk (if 0 =? random then right_child n else left_child n) h, Some (element n))
  end.

(** ** Modification *)

Definition heap_le (o : GNUNET_CONTAINER_HeapOrder) (c1 c2 : Z) : bool :=
  match o with ORDER_MAX => c2 <=? c1 | ORDER_MIN => c1 <=? c2 end.

(** The body of [insert_node] after its assertion: the descent from [pos], and
    the recursive call with the roles of [pos] and [node] exchanged. *)
Fixpoint insert_loop (fuel : nat) (pos node : loc) (h : Heap) : option Heap :=
  match fuel with
  | O => None
  | S fuel' =>
      let? p := get h pos in
      let? n := get h node in
      if heap_le (order h) (cost p) (cost n) then
        let? h := modify (add_size (1 + tree_size n)) pos h in
        match left_child p, right_child p with
        | None, _ =>
            let? h := modify (set_left (Some node)) pos h in
            modify (set_parent (Some pos)) node h
        | Some _, None =>
            let? h := modify (set_right (Some node)) pos h in
            modify (set_parent (Some pos)) node h
        | Some l, Some r =>
            let? ln := get h l in
            let? rn := get h r in
            insert_loop fuel' (if tree_size ln <? tree_size rn then l else r) node h
        end
      else
        let? h := modify (set_parent None) pos h in
        let? h := modify (set_parent (parent p)) node h in
        let? h :=
          match parent p with
          | None => Some (set_root (Some node) h)
          | Some q =>
              let? qn := get h q in
              modify (if decide (left_child qn = Some pos)
                      then set_left (Some node) else set_right (Some node)) q h
          end in
        let? p := get h pos in
        assert? match parent p with None => true | Some _ => false end in
        insert_loop fuel' node pos h
  end.

Definition insert_node (fuel : nat) (pos node : loc) (h : Heap) : option Heap :=
  let? n := get h node in
  assert? match parent n with None => true | Some _ => false end in
  insert_loop fuel pos node h.

(** [l] is the address of the new node. *)
Definition GNUNET_CONTAINER_heap_insert (fuel : nat) (l : loc) (elem c : Z) (h : Heap)
  : option (Heap * loc) :=
  let h := put l (mk_node None None None elem c 0) h in
  let h := set_size (size h + 1) h in
  let? h :=
    match root h with
    | None => Some (set_root (Some l) h)
    | Some r => insert_node fuel r l h
    end in
  let? r := root h in
  let? rn := get h r in
  assert? size h =? u32 (tree_size rn + 1) in
  Some (h, l).

(** The element of the removed root, or nothing for an empty heap. *)
Definition GNUNET_CONTAINER_heap_remove_root (fuel : nat) (h : Heap) : option (Heap * option Z) :=
  match root h with
  | None => Some (h, None)
  | Some r =>
      let h := set_size (size h - 1) h in
      let? rn := get h r in
      let? h :=
        match left_child rn, right_child rn with
        | None, None => Some (set_root None h)
        | None, Some rc => modify (set_parent None) rc (set_root (Some rc) h)
        | Some lc, None => modify (set_parent None) lc (set_root (Some lc) h)
        | Some lc, Some rc =>
            let? h := modify (set_parent None) lc h in
            let? h := modify (set_parent None) rc h in
            insert_node fuel lc rc (set_root (Some lc) h)
        end in
      let h := if decide (walk_pos h = Some r) then set_walk (root h) h else h in
      Some (free_node r h, Some (element rn))
  end.

(** The loop over the ancestors of a node. *)
Fixpoint dec_ancestors (fuel : nat) (anc : option loc) (h : Heap) : option Heap :=
  match anc with
  | None => Some h
  | Some l =>
      match fuel with
      | O => None
      | S fuel' =>
          let? h := modify (add_size (-1)) l h in
          let? n := get h l in
          dec_ancestors fuel' (parent n) h
      end
  end.

(** [node->tree_size -= (1 + child->tree_size)], if the child exists. *)
Definition sub_child (l : loc) (child : option loc) (h : Heap) : option Heap :=
  match child with
  | None => Some h
  | Some c => let? cn := get h c in modify (add_size (- (1 + tree_size cn))) l h
  end.

(** Unlinks a child and inserts it again at [q]. *)
Definition reinsert_child (fuel : nat) (q : loc) (child : option loc) (h : Heap) : option Heap :=
  match child with
  | None => Some h
  | Some c =>
      let? h := modify (set_parent None) c h in
      let? h := sub_child q (Some c) h in
      insert_node fuel q c h
  end.

Definition remove_node (fuel : nat) (node : loc) (h : Heap) : option Heap :=
  let? n := get h node in
  let? h := dec_ancestors fuel (parent n) h in
  let? h := sub_child node (left_child n) h in
  let? h := sub_child node (right_child n) h in
  let? h :=
    match parent n with
    | None =>
        match left_child n, right_child n with
        | Some lc, rc =>
            let? h := modify (set_parent None) lc (set_root (Some lc) h) in
            match rc with
            | Some rc =>
                let? h := modify (set_parent None) rc h in
                insert_node fuel lc rc h
            | None => Some h
            end
        | None, rc =>
            let h := set_root rc h in
            match rc with
            | Some rc => modify (set_parent None) rc h
            | None => Some h
            end
        end
    | Some q =>
        let? qn := get h q in
        let? h := modify (if decide (left_child qn = Some node)
                          then set_left None else set_right None) q h in
        let? h := reinsert_child fuel q (left_child n) h in
        reinsert_child fuel q (right_child n) h
    end in
  let? h := modify (set_parent None) node h in
  let? h := modify (set_left None) node h in
  let? h := modify (set_right None) node h in
  let? n := get h node in
  assert? tree_size n =? 0 in
  Some h.

Definition GNUNET_CONTAINER_heap_remove_node (fuel : nat) (random : Z) (node : loc) (h : Heap)
  : option (Heap * Z) :=
  let? h :=
    if decide (walk_pos h = Some node)
    then fst <$> GNUNET_CONTAINER_heap_walk_get_next random h else Some h in
  let? h := remove_node fuel node h in
  let h := set_size (size h - 1) h in
  let? n := get h node in
  let h := if decide (walk_pos h = Some node) then set_walk None h else h in
  Some (free_node node h, element n).

Definition GNUNET_CONTAINER_heap_update_cost (fuel : nat) (node : loc) (new_cost : Z) (h : Heap)
  : option Heap :=
  let? h := remove_node fuel node h in
  let? h := modify (set_cost new_cost) node h in
  match root h with
  | None => Some (set_root (Some node) h)
  | Some r => insert_node fuel r node h
  end.

(** ** Trees in the store *)

Inductive tree := E | N (l : loc) (e c : Z) (tl tr : tree).

Fixpoint tsize (t : tree) : Z :=
  match t with E => 0 | N _ _ _ tl tr => 1 + tsize tl + tsize tr end.

Fixpoint locs (t : tree) : list loc :=
  match t with E => [] | N l _ _ tl tr => l :: locs tl ++ locs tr end.

(** Handle, element and cost of every node. *)
Fixpoint entries (t : tree) : list (loc * (Z * Z)) :=
  match t with E => [] | N l e c tl tr => (l, (e, c)) :: entries tl ++ entries tr end.

Definition ptr (t : tree) : option loc :=
  match t with E => None | N l _ _ _ _ => Some l end.

(** The store holds the tree, below the node [par]. *)
Fixpoint rep (m : gmap loc HeapNode) (par : option loc) (t : tree) : Prop :=
  match t with
  | E => True
  | N l e c tl tr =>
      m !! l = Some (mk_node par (ptr tl) (ptr tr) e c (u32 (tsize tl + tsize tr)))
      /\ rep m (Some l) tl /\ rep m (Some l) tr
  end.

(** A node above a subtree: its data, the side the subtree is on, and the tree
    on the other side. A context lists the nodes from the subtree up. *)
Record frame := mk_frame {
  f_loc : loc; f_elem : Z; f_cost : Z; f_left : bool; f_sib : tree;
}.
Definition ctx := list frame.

Definition ctx_ptr (C : ctx) : option loc := f_loc <$> head C.

Fixpoint ctx_root (C : ctx) (hole : option loc) : option loc :=
  match C with [] => hole | f :: C' => ctx_root C' (Some (f_loc f)) end.

Definition fill (f : frame) (t : tree) : tree :=
  if f_left f then N (f_loc f) (f_elem f) (f_cost f) t (f_sib f)
  else N (f_loc f) (f_elem f) (f_cost f) (f_sib f) t.

Definition plug (C : ctx) (t : tree) : tree := fold_left (fun t f => fill f t) C t.

Definition ctx_locs (C : ctx) : list loc := C ≫= (fun f => f_loc f :: locs (f_sib f)).
Definition ctx_entries (C : ctx) : list (loc * (Z * Z)) :=
  C ≫= (fun f => (f_loc f, (f_elem f, f_cost f)) :: entries (f_sib f)).

(** The store holds the context of a subtree at [hole] that counts as [sz]. *)
Fixpoint rep_ctx (m : gmap loc HeapNode) (C : ctx) (hole : option loc) (sz : Z) : Prop :=
  match C with
  | [] => True
  | f :: C' =>
      m !! f_loc f = Some (mk_node (ctx_ptr C')
        (if f_left f then hole else ptr (f_sib f)) (if f_left f then ptr (f_sib f) else hole)
        (f_elem f) (f_cost f) (u32 (sz + tsize (f_sib f))))
      /\ rep m (Some (f_loc f)) (f_sib f)
      /\ rep_ctx m C' (Some (f_loc f)) (sz + tsize (f_sib f) + 1)
  end.

(** Heap order: no child comes before its parent. *)
Definition top_le (o : GNUNET_CONTAINER_HeapOrder) (c : Z) (t : tree) : Prop :=
  match t with E => True | N _ _ c' _ _ => heap_le o c c' = true end.

Fixpoint ordered (o : GNUNET_CONTAINER_HeapOrder) (t : tree) : Prop :=
  match t with
  | E => True
  | N _ _ c tl tr => top_le o c tl /\ top_le o c tr /\ ordered o tl /\ ordered o tr
  end.

(** Order of the context, for a subtree that may start with cost [c]. *)
Definition ctx_ordered (o : GNUNET_CONTAINER_HeapOrder) (C : ctx) (t : tree) : Prop :=
  ordered o (plug C t).

Section Trees.
Implicit Types (m : gmap loc HeapNode) (t n : tree) (C : ctx).

Lemma length_locs l e c tl tr :
  length (locs (N l e c tl tr)) = S (length (locs tl) + length (locs tr)).
Proof. cbn [locs length]. by rewrite length_app. Qed.

Lemma tsize_locs t : tsize t = Z.of_nat (length (locs t)).
Proof. induction t; cbn [tsize locs length]; [done|]. rewrite length_app. lia. Qed.

Lemma entries_locs t : (entries t).*1 = locs t.
Proof. induction t as [|l e c tl IHl tr IHr]; [done|]. cbn. rewrite fmap_app. congruence. Qed.

Lemma ptr_locs t l : ptr t = Some l -> l ∈ locs t.
Proof. destruct t; [done|]. intros [= ->]. left. Qed.

Lemma rep_agree m m' par t :
  rep m par t -> (forall x, x ∈ locs t -> m' !! x = m !! x) -> rep m' par t.
Proof.
  revert par. induction t as [|l e c tl IHl tr IHr]; intros par; [done|].
  cbn [rep locs]. intros (Hn & Hl & Hr) Hag. split_and!.
  - rewrite Hag; [done|left].
  - apply IHl; [done|]. intros x Hx. apply Hag. right. apply elem_of_app. by left.
  - apply IHr; [done|]. intros x Hx. apply Hag. right. apply elem_of_app. by right.
Qed.

Lemma rep_ctx_agree m m' C hole sz :
  rep_ctx m C hole sz -> (forall x, x ∈ ctx_locs C -> m' !! x = m !! x) -> rep_ctx m' C hole sz.
Proof.
  revert hole sz. induction C as [|f C IH]; intros hole sz; [done|].
  cbn [rep_ctx]. unfold ctx_locs. cbn [mbind list_bind app]. intros (Hn & Hs & HC) Hag. split_and!.
  - rewrite Hag; [done|left].
  - eapply rep_agree; [done|]. intros x Hx. apply Hag. right. apply elem_of_app. by left.
  - eapply IH; [done|]. intros x Hx. apply Hag. right. apply elem_of_app. by right.
Qed.

(** A tree moves to another parent when its root's parent pointer is set. *)
Lemma rep_reparent m m' par par' t nd l :
  rep m par t -> NoDup (locs t) -> ptr t = Some l -> m !! l = Some nd ->
  m' !! l = Some (set_parent par' nd) ->
  (forall x, x ∈ locs t -> x <> l -> m' !! x = m !! x) -> rep m' par' t.
Proof.
  destruct t as [|l' e c tl tr]; [done|]. cbn [rep locs ptr].
  intros (Hn & Hl & Hr) Hnd [= ->] Hm Hm' Hag.
  rewrite Hn in Hm. injection Hm as <-. apply NoDup_cons in Hnd as [Hni _].
  rewrite elem_of_app in Hni. split_and!; [done|eapply rep_agree..]; try done;
    intros x Hx; (apply Hag; [right; apply elem_of_app; tauto|intros ->; tauto]).
Qed.

Lemma rep_root m par t l :
  rep m par t -> ptr t = Some l ->
  exists tl tr e c, t = N l e c tl tr
    /\ m !! l = Some (mk_node par (ptr tl) (ptr tr) e c (u32 (tsize tl + tsize tr))).
Proof.
  destruct t as [|l' e c tl tr]; [done|]. intros (Hn & _) [= ->]. by eexists _, _, _, _.
Qed.

Lemma plug_ptr C t : ptr (plug C t) = ctx_root C (ptr t).
Proof.
  revert t. induction C as [|f C IH]; intros t; [done|]. unfold plug in *. cbn [fold_left ctx_root].
  rewrite IH. by destruct f as [? ? ? []].
Qed.

Lemma plug_entries C t : entries (plug C t) ≡ₚ ctx_entries C ++ entries t.
Proof.
  revert t. induction C as [|f C IH]; intros t; [done|]. unfold plug in *. cbn [fold_left].
  rewrite IH. unfold ctx_entries, fill. cbn [mbind list_bind]. destruct (f_left f); cbn [entries];
    solve_Permutation.
Qed.

Lemma ctx_entries_locs C : (ctx_entries C).*1 = ctx_locs C.
Proof.
  induction C as [|f C IH]; [done|]. unfold ctx_entries, ctx_locs in *. cbn [mbind list_bind].
  rewrite !fmap_app, IH, fmap_cons, entries_locs. done.
Qed.

Lemma plug_locs C t : locs (plug C t) ≡ₚ ctx_locs C ++ locs t.
Proof. by rewrite <- entries_locs, plug_entries, fmap_app, ctx_entries_locs, entries_locs. Qed.

(** Zipping and unzipping a stored tree. *)
Lemma rep_plug m C t :
  rep m None (plug C t) <-> rep m (ctx_ptr C) t /\ rep_ctx m C (ptr t) (tsize t).
Proof.
  revert t. induction C as [|f C IH]; intros t; [cbn; tauto|]. unfold plug in *. cbn [fold_left].
  rewrite IH. unfold fill. destruct f as [l e c [] s];
    cbn [f_loc f_elem f_cost f_left f_sib rep rep_ctx ctx_ptr head fmap option_fmap option_map ptr tsize].
  - rewrite (Z.add_comm (tsize t + tsize s) 1), <- Z.add_assoc. tauto.
  - rewrite (Z.add_comm (tsize s) (tsize t)).
    replace (1 + tsize s + tsize t) with (tsize t + tsize s + 1) by lia. tauto.
Qed.

Lemma unplug t l :
  l ∈ locs t -> exists C e c tl tr, t = plug C (N l e c tl tr).
Proof.
  induction t as [|l' e c tl IHl tr IHr]; cbn [locs]; [by intros ?%not_elem_of_nil|].
  intros [->|[Hl|Hr]%elem_of_app]%elem_of_cons.
  - by exists [], e, c, tl, tr.
  - destruct (IHl Hl) as (C & e' & c' & tl' & tr' & ->).
    exists (C ++ [mk_frame l' e c true tr]), e', c', tl', tr'. unfold plug. by rewrite fold_left_app.
  - destruct (IHr Hr) as (C & e' & c' & tl' & tr' & ->).
    exists (C ++ [mk_frame l' e c false tl]), e', c', tl', tr'. unfold plug. by rewrite fold_left_app.
Qed.

End Trees.

(** ** Inserting a tree *)

(** Nothing but the nodes at [S], and the root, has changed. *)
Record same_else (S : list loc) (h h' : Heap) : Prop := {
  se_nodes : forall x, x ∉ S -> nodes h' !! x = nodes h !! x;
  se_walk : walk_pos h' = walk_pos h;
  se_size : size h' = size h;
  se_order : order h' = order h;
}.

(** The tree [w] has taken the place of [t] below [C], and holds [t] and [n]. *)
Record merged (h : Heap) (C : ctx) (t n : tree) (h' : Heap) (w : tree) : Prop := {
  mg_rep : rep (nodes h') None (plug C w);
  mg_root : root h' = ptr (plug C w);
  mg_entries : entries w ≡ₚ entries t ++ entries n;
  mg_ordered : ordered (order h) t -> ordered (order h) n -> ordered (order h) w;
  mg_top : forall c, top_le (order h) c t -> top_le (order h) c n -> top_le (order h) c w;
  mg_else : same_else (ctx_locs C ++ locs t ++ locs n) h h';
}.

(** What [insert_loop] needs: [t] sits below [C], whose sizes already count [n]. *)
Record pending (h : Heap) (C : ctx) (t n : tree) : Prop := {
  pd_pos : rep (nodes h) (ctx_ptr C) t;
  pd_node : rep (nodes h) None n;
  pd_ctx : rep_ctx (nodes h) C (ptr t) (tsize t + tsize n);
  pd_root : root h = ctx_root C (ptr t);
  pd_nodup : NoDup (ctx_locs C ++ locs t ++ locs n);
}.

Definition before (o : GNUNET_CONTAINER_HeapOrder) (t n : tree) : bool :=
  match t, n with N _ _ c _ _, N _ _ c' _ _ => heap_le o c c' | _, _ => true end.

Section Insert.
Implicit Types (m : gmap loc HeapNode) (t n : tree) (C : ctx) (h : Heap).

Lemma heap_le_total o c c' : heap_le o c c' = false -> heap_le o c' c = true.
Proof. destruct o; cbn; lia. Qed.

Lemma heap_le_trans o a b c : heap_le o a b = true -> heap_le o b c = true -> heap_le o a c = true.
Proof. destruct o; cbn; lia. Qed.

Lemma heap_le_refl o c : heap_le o c c = true.
Proof. destruct o; cbn; lia. Qed.

Lemma same_else_refl S h : same_else S h h.
Proof. done. Qed.

Lemma same_else_trans S h1 h2 h3 : same_else S h1 h2 -> same_else S h2 h3 -> same_else S h1 h3.
Proof.
  intros [A1 A2 A3 A4] [B1 B2 B3 B4]. split; try congruence. intros x Hx.
  by rewrite B1, A1.
Qed.

Lemma same_else_weaken S S' h h' :
  (forall x, x ∈ S -> x ∈ S') -> same_else S h h' -> same_else S' h h'.
Proof. intros Hs [A1 A2 A3 A4]. split; try done. intros x Hx. apply A1. auto. Qed.

#[global] Instance same_else_proper : Proper (Permutation ==> eq ==> eq ==> iff) same_else.
Proof.
  intros S S' HS h ? <- h' ? <-. split; apply same_else_weaken; intros x; by rewrite HS.
Qed.

Lemma modify_put f l nd h : nodes h !! l = Some nd -> modify f l h = Some (put l (f nd) h).
Proof. unfold modify, get. by intros ->. Qed.

Lemma put_same_else l nd h S : l ∈ S -> same_else S h (put l nd h).
Proof.
  intros Hl. split; try done. intros x Hx. cbn [nodes put]. apply lookup_insert_ne. by intros ->.
Qed.

Lemma u32_add_l a b : u32 (u32 a + b) = u32 (a + b).
Proof. apply Zplus_mod_idemp_l. Qed.
Lemma u32_add_r a b : u32 (a + u32 b) = u32 (a + b).
Proof. apply Zplus_mod_idemp_r. Qed.

Lemma add_size_u32 b nd : add_size (1 + u32 b) nd = add_size (1 + b) nd.
Proof. unfold add_size. f_equal. rewrite !Z.add_assoc. apply u32_add_r. Qed.

(** The size of a node after a tree of [s] nodes, root included, was added. *)
Lemma u32_grow a b : u32 (u32 a + (1 + u32 b)) = u32 (a + (1 + b)).
Proof. rewrite u32_add_l, Z.add_assoc, u32_add_r, <- Z.add_assoc. done. Qed.

Lemma plug_ordered o C t w :
  ordered o (plug C t) -> (ordered o t -> ordered o w) ->
  (forall c, top_le o c t -> top_le o c w) -> ordered o (plug C w).
Proof.
  unfold plug. revert t w. induction C as [|f C IH]; intros t w; cbn [fold_left]; [auto|].
  intros Ho Hw Htop. apply (IH (fill f t)); [done| |].
  - unfold fill. destruct (f_left f); cbn; intros (? & ? & ? & ?); auto.
  - intros c. unfold fill. by destruct (f_left f).
Qed.

Lemma ordered_plug o C t : ordered o (plug C t) -> ordered o t.
Proof.
  unfold plug. revert t. induction C as [|f C IH]; intros t; cbn [fold_left]; [done|].
  intros Ho%IH. unfold fill in Ho. destruct (f_left f); cbn in Ho; tauto.
Qed.

Lemma pending_root h C l e c tl tr n :
  pending h C (N l e c tl tr) n ->
  nodes h !! l = Some (mk_node (ctx_ptr C) (ptr tl) (ptr tr) e c (u32 (tsize tl + tsize tr))).
Proof. intros [(Hn & _) _ _ _ _]. done. Qed.

(** The places of the three parts do not overlap. *)
Lemma parts_disjoint C t n :
  NoDup (ctx_locs C ++ locs t ++ locs n) ->
  NoDup (locs t) /\ NoDup (locs n) /\ NoDup (ctx_locs C)
  /\ (forall x, x ∈ ctx_locs C -> x ∈ locs t -> False)
  /\ (forall x, x ∈ ctx_locs C -> x ∈ locs n -> False)
  /\ (forall x, x ∈ locs t -> x ∈ locs n -> False).
Proof.
  intros Hnd. rewrite !NoDup_app in Hnd. setoid_rewrite elem_of_app in Hnd.
  destruct Hnd as (H1 & H2 & H3 & H4 & H5). split_and!; try done; intros x Hx Hx'.
  - apply (H2 x Hx). by left.
  - apply (H2 x Hx). by right.
Qed.

(** The node [l] with its subtrees below [C], where the size of the node counts
    [s] nodes too many and those of its ancestors another [d]. *)
Record pos_at (m : gmap loc HeapNode) (C : ctx) (l : loc) (e c : Z) (tl tr : tree) (s d : Z)
  : Prop := {
  pa_node : m !! l = Some (mk_node (ctx_ptr C) (ptr tl) (ptr tr) e c (u32 (tsize tl + tsize tr + s)));
  pa_left : rep m (Some l) tl;
  pa_right : rep m (Some l) tr;
  pa_ctx : rep_ctx m C (Some l) (1 + tsize tl + tsize tr + s + d);
}.

Lemma pos_at_rep m C l e c tl tr d :
  pos_at m C l e c tl tr 0 d <->
  rep m (ctx_ptr C) (N l e c tl tr) /\ rep_ctx m C (Some l) (tsize (N l e c tl tr) + d).
Proof.
  cbn [rep tsize]. split.
  - intros [Hn Hl Hr HC]. rewrite Z.add_0_r in Hn. rewrite Z.add_0_r in HC. done.
  - intros ((Hn & Hl & Hr) & HC). split; rewrite ?Z.add_0_r; done.
Qed.

Lemma pos_at_plug m C l e c tl tr :
  pos_at m C l e c tl tr 0 0 -> rep m None (plug C (N l e c tl tr)).
Proof. rewrite pos_at_rep, rep_plug, Z.add_0_r. done. Qed.

(** Hanging [n] below a node with a free side: the store afterwards. *)
Lemma attach_rep m m' C l e c tl tr ln en cn nl nr s (dir : bool) :
  let n := N ln en cn nl nr in
  pos_at m C l e c tl tr s (tsize n) -> rep m None n ->
  NoDup (ctx_locs C ++ locs (N l e c tl tr) ++ locs n) -> (if dir then tl else tr) = E ->
  m' !! l = Some (mk_node (ctx_ptr C) (if dir then Some ln else ptr tl)
    (if dir then ptr tr else Some ln) e c (u32 (tsize tl + tsize tr + s + tsize n))) ->
  m' !! ln = Some (mk_node (Some l) (ptr nl) (ptr nr) en cn (u32 (tsize nl + tsize nr))) ->
  (forall x, x <> l -> x <> ln -> m' !! x = m !! x) ->
  pos_at m' C l e c (if dir then n else tl) (if dir then tr else n) s 0.
Proof.
  intros n [_ Htl Htr Hctx] Hpn Hnd Hfree Hml Hmln Hother.
  destruct (parts_disjoint _ _ _ Hnd) as (Hnt & Hnn & _ & Hct & Hcn & Htn).
  pose proof Hpn as (Hln & _ & _).
  cbn [locs] in Hnt. apply NoDup_cons in Hnt as [Hni _]. rewrite elem_of_app in Hni.
  assert (rep m' (Some l) tl) as Htl'.
  { eapply rep_agree; [exact Htl|]. intros x Hx. apply Hother; intros ->; [tauto|].
    apply (Htn ln); [right; apply elem_of_app; by left|left]. }
  assert (rep m' (Some l) tr) as Htr'.
  { eapply rep_agree; [exact Htr|]. intros x Hx. apply Hother; intros ->; [tauto|].
    apply (Htn ln); [right; apply elem_of_app; by right|left]. }
  assert (rep_ctx m' C (Some l) (1 + tsize tl + tsize tr + s + tsize n)) as Hctx'.
  { eapply rep_ctx_agree; [exact Hctx|]. intros x Hx. apply Hother; intros ->.
    - apply (Hct l Hx). left.
    - apply (Hcn ln Hx). left. }
  assert (rep m' (Some l) n) as Hn'.
  { eapply (rep_reparent m m' None); [done|done|done|exact Hln|exact Hmln|].
    intros x Hx Hxn. apply Hother; [|done]. intros ->. apply (Htn l); [left|done]. }
  destruct dir; subst; split; try done; try (rewrite Hml; do 3 f_equal; cbn [tsize]; lia);
    (refine (eq_ind _ (rep_ctx m' C (Some l)) Hctx' _ _); cbn [tsize]; lia).
Qed.

(** The assignments that hang [n] below [l]. *)
Definition hang (l ln : loc) (sz : Z) (dir : bool) (h : Heap) : option Heap :=
  let? g := modify (add_size (1 + sz)) l h in
  let? g := modify (if dir then set_left (Some ln) else set_right (Some ln)) l g in
  modify (set_parent (Some l)) ln g.

Lemma hang_spec h C l e c tl tr ln en cn nl nr s (dir : bool) :
  let n := N ln en cn nl nr in
  pos_at (nodes h) C l e c tl tr s (tsize n) -> rep (nodes h) None n ->
  NoDup (ctx_locs C ++ locs (N l e c tl tr) ++ locs n) -> (if dir then tl else tr) = E ->
  exists h', hang l ln (u32 (tsize nl + tsize nr)) dir h = Some h'
    /\ pos_at (nodes h') C l e c (if dir then n else tl) (if dir then tr else n) s 0
    /\ root h' = root h /\ same_else (l :: locs n) h h'.
Proof.
  intros n Hp Hn Hnd Hfree. destruct (parts_disjoint _ _ _ Hnd) as (_ & _ & _ & _ & _ & Htn).
  pose proof (pa_node _ _ _ _ _ _ _ _ _ Hp) as Hl. pose proof Hn as (Hln & _).
  assert (l <> ln) as Hne. { intros ->. apply (Htn ln); left. }
  unfold hang. erewrite modify_put by done.
  erewrite modify_put by (cbn [nodes put]; apply lookup_insert_eq).
  erewrite modify_put by (cbn [nodes put]; rewrite !lookup_insert_ne by done; exact Hln).
  eexists. split; [reflexivity|]. cbn [put nodes root]. split_and!; try done.
  - apply (attach_rep (nodes h)); try done.
    + rewrite lookup_insert_ne, lookup_insert_eq by done.
      destruct dir; unfold add_size, set_left, set_right;
        cbn [parent left_child right_child element cost tree_size]; do 2 f_equal;
        rewrite u32_grow; f_equal; unfold n; cbn [tsize]; lia.
    + by rewrite lookup_insert_eq.
    + intros x H1 H2. by rewrite !lookup_insert_ne.
  - split; cbn [put nodes walk_pos size order]; try done. intros x. unfold n. cbn [locs].
    rewrite !elem_of_cons. intros Hx. rewrite !lookup_insert_ne by (intros ->; tauto). done.
Qed.

Lemma attach_spec h C l e c tl tr ln en cn nl nr (dir : bool) :
  let n := N ln en cn nl nr in
  pending h C (N l e c tl tr) n -> heap_le (order h) c cn = true ->
  (if dir then tl else tr) = E ->
  exists h', hang l ln (u32 (tsize nl + tsize nr)) dir h = Some h'
    /\ merged h C (N l e c tl tr) n h' (if dir then N l e c n tr else N l e c tl n).
Proof.
  intros n [Hpos Hn Hctx Hroot Hnd] Hle Hfree.
  destruct (hang_spec h C l e c tl tr ln en cn nl nr 0 dir) as (h' & E & Hp' & Hr & Hs);
    [by apply pos_at_rep|done..|].
  exists h'. split; [done|]. apply pos_at_plug in Hp'. split.
  - by destruct dir.
  - rewrite plug_ptr, Hr, Hroot. by destruct dir.
  - destruct dir; subst; cbn [entries]; solve_Permutation.
  - intros Ho Hon. destruct dir; cbn in Ho, Hon |- *; tauto.
  - intros c0 Hc0 _. by destruct dir.
  - eapply same_else_weaken; [|exact Hs]. intros x. rewrite !elem_of_app. unfold n.
    cbn [locs]. rewrite !elem_of_cons. tauto.
Qed.

(** Redirecting the pointer to the subtree in the innermost frame. *)
Definition relink (lt ln : loc) (qn : HeapNode) : HeapNode :=
  if decide (left_child qn = Some lt) then set_left (Some ln) qn else set_right (Some ln) qn.

Lemma rep_ctx_relink m m' C lt ln sz qn :
  rep_ctx m C (Some lt) sz -> NoDup (ctx_locs C) -> lt ∉ ctx_locs C ->
  (forall q, ctx_ptr C = Some q -> m !! q = Some qn /\ m' !! q = Some (relink lt ln qn)) ->
  (forall x, x ∈ ctx_locs C -> ctx_ptr C <> Some x -> m' !! x = m !! x) ->
  rep_ctx m' C (Some ln) sz.
Proof.
  destruct C as [|f C]; [done|]. unfold ctx_locs. cbn [rep_ctx mbind list_bind ctx_ptr head fmap
    option_fmap option_map app]. fold (ctx_locs C). intros (Hq & Hs & HC) Hnd Hlt Hqn Hag.
  destruct (Hqn (f_loc f) eq_refl) as [Hq1 Hq2]. rewrite Hq in Hq1. injection Hq1 as <-.
  apply NoDup_cons in Hnd as [Hni _]. rewrite elem_of_app in Hni.
  rewrite not_elem_of_cons, not_elem_of_app in Hlt. split_and!.
  - rewrite Hq2. unfold relink. cbn [left_child]. destruct (f_left f).
    + by rewrite decide_True.
    + rewrite decide_False; [done|]. intros Hp%ptr_locs. tauto.
  - eapply rep_agree; [done|]. intros x Hx. apply Hag; [right; apply elem_of_app; tauto|].
    intros [= <-]. tauto.
  - eapply rep_ctx_agree; [done|]. intros x Hx. apply Hag; [right; apply elem_of_app; tauto|].
    intros [= <-]. tauto.
Qed.

Lemma ctx_locs_cons f C : ctx_locs (f :: C) = f_loc f :: locs (f_sib f) ++ ctx_locs C.
Proof. done. Qed.

Lemma ctx_ptr_locs C q : ctx_ptr C = Some q -> q ∈ ctx_locs C.
Proof. destruct C; [done|]. intros [= <-]. left. Qed.

Lemma rep_ctx_top m C hole sz q :
  rep_ctx m C hole sz -> ctx_ptr C = Some q -> exists qn, m !! q = Some qn.
Proof. destruct C; [done|]. cbn [rep_ctx]. intros (Hq & _) [= <-]. by eexists. Qed.

Lemma ctx_root_cons C hole hole' q : ctx_ptr C = Some q -> ctx_root C hole = ctx_root C hole'.
Proof. by destruct C. Qed.

Lemma swap_pending h h' C l e c tl tr ln en cn nl nr qn :
  let t := N l e c tl tr in let n := N ln en cn nl nr in
  pending h C t n ->
  nodes h' !! l = Some (mk_node None (ptr tl) (ptr tr) e c (u32 (tsize tl + tsize tr))) ->
  nodes h' !! ln = Some (mk_node (ctx_ptr C) (ptr nl) (ptr nr) en cn (u32 (tsize nl + tsize nr))) ->
  (forall q, ctx_ptr C = Some q -> nodes h !! q = Some qn /\ nodes h' !! q = Some (relink l ln qn)) ->
  (forall x, x <> l -> x <> ln -> ctx_ptr C <> Some x -> nodes h' !! x = nodes h !! x) ->
  root h' = ctx_root C (Some ln) -> pending h' C n t.
Proof.
  intros t n Hp Hl' Hln' Hq Hother Hroot.
  destruct (parts_disjoint _ _ _ (pd_nodup _ _ _ _ Hp)) as (Hnt & Hnn & Hnc & Hct & Hcn & Htn).
  pose proof Hp as [Hpt Hpn Hctx _ Hnd]. pose proof Hpt as (Hl & _). pose proof Hpn as (Hln & _).
  split.
  - eapply (rep_reparent (nodes h) _ None _ n); [done..|].
    intros x Hx Hxn. apply Hother; [|done|].
    + intros ->. apply (Htn l); [left|done].
    + intros Hx'%ctx_ptr_locs. by apply (Hcn x).
  - eapply (rep_reparent (nodes h) _ (ctx_ptr C) _ t); [done..|].
    intros x Hx Hxn. apply Hother; [done| |].
    + intros ->. apply (Htn ln); [done|left].
    + intros Hx'%ctx_ptr_locs. by apply (Hct x).
  - rewrite Z.add_comm. eapply (rep_ctx_relink (nodes h) (nodes h') C l ln); try done.
    + intros Hx. apply (Hct l); [done|left].
    + intros x Hx Hxq. apply Hother; [| |done]; intros ->.
      * apply (Hct l); [done|left].
      * apply (Hcn ln); [done|left].
  - done.
  - rewrite (Permutation_app_comm (locs n)). done.
Qed.

(** Exchanging the roles of the two trees. *)
Lemma swap_spec h C l e c tl tr ln en cn nl nr :
  let t := N l e c tl tr in let n := N ln en cn nl nr in
  pending h C t n ->
  exists h', (let? g := modify (set_parent None) l h in
              let? g := modify (set_parent (ctx_ptr C)) ln g in
              match ctx_ptr C with
              | None => Some (set_root (Some ln) g)
              | Some q => let? qn := get g q in
                  modify (if decide (left_child qn = Some l)
                          then set_left (Some ln) else set_right (Some ln)) q g
              end) = Some h'
    /\ pending h' C n t /\ same_else (ctx_locs C ++ locs t ++ locs n) h h'.
Proof.
  intros t n Hp. destruct (parts_disjoint _ _ _ (pd_nodup _ _ _ _ Hp)) as (_ & _ & _ & Hct & Hcn & Htn).
  pose proof Hp as [(Hl & _) (Hln & _) Hctx Hroot _].
  assert (l <> ln) as Hne. { intros ->. apply (Htn ln); left. }
  erewrite modify_put by done.
  erewrite modify_put by (cbn [nodes put]; rewrite lookup_insert_ne by done; exact Hln).
  set (g := put ln _ _).
  assert (forall x, x <> l -> x <> ln -> nodes g !! x = nodes h !! x) as Hg.
  { intros x H1 H2. unfold g. cbn [put nodes]. by rewrite !lookup_insert_ne. }
  assert (nodes g !! l = Some (set_parent None (mk_node (ctx_ptr C) (ptr tl) (ptr tr) e c
    (u32 (tsize tl + tsize tr))))) as Hgl.
  { unfold g. cbn [put nodes]. by rewrite lookup_insert_ne, lookup_insert_eq. }
  assert (nodes g !! ln = Some (set_parent (ctx_ptr C) (mk_node None (ptr nl) (ptr nr) en cn
    (u32 (tsize nl + tsize nr))))) as Hgln.
  { unfold g. cbn [put nodes]. by rewrite lookup_insert_eq. }
  assert (same_else (ctx_locs C ++ locs t ++ locs n) h g) as Hsame.
  { split; try done. intros x Hx. rewrite !elem_of_app in Hx. apply Hg; intros ->; apply Hx.
    - right; left. left.
    - right; right. left. }
  assert (root g = root h) as Hrg by done.
  clearbody g. destruct (ctx_ptr C) as [q|] eqn:Eq.
  - destruct (rep_ctx_top _ _ _ _ _ Hctx Eq) as [qn Hqn]. pose proof (ctx_ptr_locs _ _ Eq) as Hin.
    assert (q <> l) as Hql by (intros ->; apply (Hct l); [done|left]).
    assert (q <> ln) as Hqn' by (intros ->; apply (Hcn ln); [done|left]).
    unfold get. rewrite Hg, Hqn by done. erewrite modify_put by (rewrite Hg by done; exact Hqn).
    eexists. split; [reflexivity|]. split.
    + apply (swap_pending h _ C l e c tl tr ln en cn nl nr qn); try done; cbn [put nodes].
      * by rewrite lookup_insert_ne.
      * rewrite lookup_insert_ne by done. by rewrite Eq.
      * intros q' [= <-]%(eq_trans (eq_sym Eq)). split; [done|]. rewrite lookup_insert_eq.
        unfold relink. by destruct (decide _).
      * intros x H1 H2 H3. rewrite lookup_insert_ne by congruence. by apply Hg.
      * cbn [put root]. rewrite Hrg, Hroot. by eapply ctx_root_cons.
    + eapply same_else_trans; [exact Hsame|]. apply put_same_else. rewrite elem_of_app. by left.
  - eexists. split; [reflexivity|]. split.
    + apply (swap_pending h _ C l e c tl tr ln en cn nl nr (mk_node None None None 0 0 0)); try done; cbn [set_root nodes].
      * by rewrite Eq.
      * intros q. by rewrite Eq.
      * intros x H1 H2 _. by apply Hg.
      * by destruct C.
    + destruct Hsame. by split.
Qed.

Lemma merged_swap h h' C t n h'' w :
  pending h C t n -> same_else (ctx_locs C ++ locs t ++ locs n) h h' ->
  merged h' C n t h'' w -> merged h C t n h'' w.
Proof.
  intros Hp Hs [H1 H2 H3 H4 H5 H6]. rewrite (se_order _ _ _ Hs) in H4, H5. split; try done; auto.
  - by rewrite H3, Permutation_app_comm.
  - eapply same_else_trans; [done|]. eapply same_else_weaken; [|exact H6].
    intros x. rewrite !elem_of_app. tauto.
Qed.

(** Descending into a child: the node joins the context. *)
Lemma descend_pending h C l e c tl tr n (dir : bool) :
  let t := N l e c tl tr in
  let h1 := put l (add_size (tsize n) (mk_node (ctx_ptr C) (ptr tl) (ptr tr) e c (u32 (tsize tl + tsize tr)))) h in
  let f := mk_frame l e c dir (if dir then tr else tl) in
  pending h C t n -> pending h1 (f :: C) (if dir then tl else tr) n.
Proof.
  intros t h1 f Hp. destruct (parts_disjoint _ _ _ (pd_nodup _ _ _ _ Hp)) as (Hnt & Hnn & Hnc & Hct & Hcn & Htn).
  pose proof Hp as [(Hl & Htl & Htr) Hpn Hctx Hroot Hnd].
  unfold t in Hnt. cbn [locs] in Hnt. apply NoDup_cons in Hnt as [Hni _]. rewrite elem_of_app in Hni.
  assert (forall x, x <> l -> nodes h1 !! x = nodes h !! x) as Hother.
  { intros x Hx. unfold h1. cbn [put nodes]. by rewrite lookup_insert_ne. }
  assert (forall par t', (forall x, x ∈ locs t' -> x ∈ locs tl \/ x ∈ locs tr) ->
    rep (nodes h) par t' -> rep (nodes h1) par t') as Hsub.
  { intros par t' Hin Ht'. eapply rep_agree; [done|]. intros x Hx. apply Hother. intros ->.
    by apply Hni, Hin. }
  split.
  - destruct dir; apply Hsub; auto.
  - eapply rep_agree; [done|]. intros x Hx. apply Hother. intros ->. apply (Htn l); [left|done].
  - cbn [rep_ctx f f_loc f_elem f_cost f_left f_sib]. split_and!.
    + unfold h1. cbn [put nodes]. rewrite lookup_insert_eq. unfold add_size.
      cbn [parent left_child right_child element cost tree_size]. rewrite u32_add_l.
      destruct dir; do 3 f_equal; lia.
    + destruct dir; apply Hsub; auto.
    + assert (rep_ctx (nodes h1) C (Some l) (1 + tsize tl + tsize tr + tsize n)) as Hc'.
      { eapply rep_ctx_agree; [exact Hctx|]. intros x Hx. apply Hother. intros ->.
        apply (Hct l); [done|left]. }
      refine (eq_ind _ (rep_ctx (nodes h1) C (Some l)) Hc' _ _). destruct dir; lia.
  - unfold h1. cbn [put root]. rewrite Hroot. done.
  - eapply NoDup_Permutation_proper; [|exact Hnd]. rewrite ctx_locs_cons. unfold t. cbn [f f_loc f_sib locs].
    destruct dir; solve_Permutation.
Qed.

Lemma merged_descend h C l e c tl tr n h1 h' w (dir : bool) :
  let t := N l e c tl tr in
  let f := mk_frame l e c dir (if dir then tr else tl) in
  pending h C t n -> same_else (ctx_locs C ++ locs t ++ locs n) h h1 -> top_le (order h) c n ->
  merged h1 (f :: C) (if dir then tl else tr) n h' w -> merged h C t n h' (fill f w).
Proof.
  intros t f Hp Hs Hc [H1 H2 H3 H4 H5 H6]. rewrite (se_order _ _ _ Hs) in H4, H5. split; try done.
  - unfold fill, t. destruct dir; cbn [f f_left f_loc f_elem f_cost f_sib entries]; rewrite H3;
      solve_Permutation.
  - unfold t. cbn [ordered]. intros (Ha & Hb & Ho1 & Ho2) Hon.
    destruct dir; cbn [fill f f_left ordered f_loc f_elem f_cost f_sib]; auto.
  - unfold t. intros c0 Hc0 _. by destruct dir.
  - eapply same_else_trans; [done|]. eapply same_else_weaken; [|exact H6]. intros x.
    rewrite ctx_locs_cons. unfold t. cbn [f f_loc f_sib locs].
    rewrite !elem_of_app, !elem_of_cons, !elem_of_app. destruct dir; tauto.
Qed.

(** [insert_node] merges the two trees below the context. *)
Lemma insert_loop_spec fuel h C t n lt ln :
  ptr t = Some lt -> ptr n = Some ln -> pending h C t n ->
  (2 * (length (locs t) + length (locs n)) + (if before (order h) t n then 0 else 1) < fuel)%nat ->
  exists h' w, insert_loop fuel lt ln h = Some h' /\ merged h C t n h' w.
Proof.
  revert h C t n lt ln. induction fuel as [|fuel IH]; intros h C t n lt ln Ht Hn Hp Hfuel; [lia|].
  destruct t as [|l e c tl tr]; [done|]. injection Ht as <-.
  destruct n as [|l' e' c' nl nr]; [done|]. injection Hn as <-.
  pose proof Hp as [(Hl & Htl & Htr) (Hln & _) _ _ _].
  cbn [insert_loop]. unfold get. rewrite Hl, Hln. cbn [cost parent left_child right_child tree_size].
  cbn [before] in Hfuel. destruct (heap_le (order h) c c') eqn:Ele.
  2:{ destruct (swap_spec h C l e c tl tr l' e' c' nl nr Hp) as (h1 & E1 & Hp1 & Hs1).
      unfold get in E1.
      destruct (modify (set_parent None) l h) as [g1|]; [|done].
      destruct (modify (set_parent (ctx_ptr C)) l' g1) as [g2|]; [|done]. rewrite E1.
      pose proof (pd_node _ _ _ _ Hp1) as (Hl1 & _). rewrite Hl1. cbn [parent].
      destruct (IH h1 C (N l' e' c' nl nr) (N l e c tl tr) l' l eq_refl eq_refl Hp1) as (h2 & w & E2 & Hm).
      { cbn [before]. rewrite (se_order _ _ _ Hs1), (heap_le_total _ _ _ Ele). lia. }
      exists h2, w. split; [done|]. by eapply merged_swap. }
  destruct tl as [|ll el cl tll tlr].
  { destruct (attach_spec h C l e c E tr l' e' c' nl nr true Hp Ele eq_refl) as (h1 & E1 & Hm).
    exists h1. eexists. split; [exact E1|exact Hm]. }
  cbn [ptr]. destruct tr as [|lr er cr trl trr].
  { destruct (attach_spec h C l e c _ E l' e' c' nl nr false Hp Ele eq_refl) as (h1 & E1 & Hm).
    exists h1. eexists. split; [exact E1|exact Hm]. }
  cbn [ptr]. erewrite modify_put by exact Hl. rewrite add_size_u32.
  replace (1 + (tsize nl + tsize nr)) with (tsize (N l' e' c' nl nr)) by (cbn [tsize]; lia).
  pose proof (descend_pending h C l e c _ _ _ true Hp) as Hp1. cbn zeta in Hp1.
  pose proof (descend_pending h C l e c _ _ _ false Hp) as Hp2. cbn zeta in Hp2.
  set (h1 := put l _ h) in *. set (n := N l' e' c' nl nr) in *.
  pose proof (pd_pos _ _ _ _ Hp1) as (Hl1 & _). pose proof (pd_pos _ _ _ _ Hp2) as (Hl2 & _).
  rewrite Hl1, Hl2. cbn [tree_size].
  assert (same_else (ctx_locs C ++ locs (N l e c (N ll el cl tll tlr) (N lr er cr trl trr)) ++ locs n) h h1)
    as Hs1 by (apply put_same_else; rewrite !elem_of_app; right; left; left).
  rewrite !length_locs in Hfuel.
  assert (forall t', length (locs t') = length (locs (N ll el cl tll tlr)) \/
    length (locs t') = length (locs (N lr er cr trl trr)) ->
    (2 * (length (locs t') + length (locs n)) + (if before (order h1) t' n then 0 else 1) < fuel)%nat)
    as Hf.
  { intros t' Ht'. unfold n in *. rewrite !length_locs in *. destruct (before _ _ _); lia. }
  destruct (_ <? _).
  - destruct (IH h1 _ (N ll el cl tll tlr) n ll l' eq_refl eq_refl Hp1) as (h2 & w & E2 & Hm); [apply Hf; by left|].
    exists h2. eexists. split; [exact E2|]. by eapply (merged_descend h C l e c _ _ n h1 h2 w true).
  - destruct (IH h1 _ (N lr er cr trl trr) n lr l' eq_refl eq_refl Hp2) as (h2 & w & E2 & Hm); [apply Hf; by right|].
    exists h2. eexists. split; [exact E2|]. by eapply (merged_descend h C l e c _ _ n h1 h2 w false).
Qed.

End Insert.

(** ** The heap as a finite map from handles to elements and costs *)

Definition contents (h : Heap) : gmap loc (Z * Z) := (fun nd => (element nd, cost nd)) <$> nodes h.

(** The store holds the tree [t] and nothing else. *)
Record heap_ok (h : Heap) (t : tree) : Prop := {
  ho_rep : rep (nodes h) None t;
  ho_root : root h = ptr t;
  ho_nodup : NoDup (locs t);
  ho_dom : forall x, is_Some (nodes h !! x) -> x ∈ locs t;
  ho_size : size h = u32 (tsize t);
  ho_ordered : ordered (order h) t;
  ho_walk : forall w, walk_pos h = Some w -> w ∈ locs t;
}.

Definition heap_wf (h : Heap) : Prop := exists t, heap_ok h t.

(** Number of entries, and enough fuel for every operation on them. *)
Definition count (h : Heap) : nat := length (map_to_list (contents h)).

Definition enough (fuel : nat) (h : Heap) : Prop := (2 * count h + 4 <= fuel)%nat.

Section Contents.
Implicit Types (h : Heap) (t : tree).

Lemma entries_In t l p : (l, p) ∈ entries t -> l ∈ locs t.
Proof. intros H. rewrite <- entries_locs. by apply (list_elem_of_fmap_2 fst _ (l, p)). Qed.

Lemma rep_entries m par t l e c :
  rep m par t -> (l, (e, c)) ∈ entries t ->
  exists nd, m !! l = Some nd /\ element nd = e /\ cost nd = c.
Proof.
  revert par. induction t as [|l' e' c' tl IHl tr IHr]; intros par; cbn [rep entries];
    [by intros _ ?%not_elem_of_nil|].
  intros (Hn & Hl & Hr). rewrite elem_of_cons, elem_of_app. intros [Heq|[Hin|Hin]]; eauto.
  injection Heq as -> -> ->. by eexists.
Qed.

Lemma contents_entries h t : heap_ok h t -> contents h = list_to_map (entries t).
Proof.
  intros [Hr _ Hnd Hdom _ _ _]. apply map_eq. intros l. unfold contents. rewrite lookup_fmap.
  destruct (decide (l ∈ locs t)) as [Hin|Hin].
  - rewrite <- entries_locs in Hin. apply list_elem_of_fmap in Hin as ([l' [e c]] & -> & Hin).
    cbn [fst]. destruct (rep_entries _ _ _ _ _ _ Hr Hin) as (nd & -> & <- & <-). cbn. symmetry.
    apply elem_of_list_to_map_1; [by rewrite entries_locs|done].
  - rewrite (not_elem_of_list_to_map_1 (entries t)) by (by rewrite entries_locs).
    destruct (nodes h !! l) as [nd|] eqn:E; [|done]. destruct Hin. by apply Hdom; eexists.
Qed.

Lemma contents_size h t : heap_ok h t -> count h = length (locs t).
Proof.
  intros Hok. unfold count. rewrite (contents_entries h t Hok), <- entries_locs, length_fmap.
  apply Permutation_length, map_to_list_to_map. rewrite entries_locs. apply Hok.
Qed.

Lemma contents_lookup h t l p : heap_ok h t -> contents h !! l = Some p <-> (l, p) ∈ entries t.
Proof.
  intros Hok. rewrite (contents_entries h t Hok). symmetry. apply elem_of_list_to_map.
  rewrite entries_locs. apply (ho_nodup _ _ Hok).
Qed.

Lemma contents_perm h t l : heap_ok h t -> entries t ≡ₚ l -> contents h = list_to_map l.
Proof.
  intros Hok Hp. rewrite (contents_entries h t Hok). apply list_to_map_proper; [|done].
  rewrite entries_locs. apply Hok.
Qed.

Lemma contents_locs h t l : heap_ok h t -> is_Some (contents h !! l) <-> l ∈ locs t.
Proof.
  intros Hok. rewrite <- entries_locs, list_elem_of_fmap. split.
  - intros [p Hp]. exists (l, p). split; [done|]. by apply (contents_lookup h).
  - intros ([l' p] & -> & Hin). exists p. by apply (contents_lookup h t).
Qed.

Lemma entries_delete t x p l :
  NoDup (locs t) -> entries t ≡ₚ (x, p) :: l ->
  delete x (list_to_map (M := gmap loc (Z * Z)) (entries t)) = list_to_map l.
Proof.
  intros Hnd Hp. rewrite (list_to_map_proper _ _ (eq_ind_r (fun z => NoDup z) Hnd (entries_locs t)) Hp).
  cbn [list_to_map foldr fst snd]. rewrite delete_insert_id; [done|]. apply not_elem_of_list_to_map_1.
  assert (NoDup (((x, p) :: l).*1)) as H by (rewrite <- Hp; by rewrite entries_locs).
  cbn in H. by apply NoDup_cons in H as [H _].
Qed.

(** The root comes before every other entry. *)
Lemma ordered_min o l e c tl tr l' e' c' :
  ordered o (N l e c tl tr) -> (l', (e', c')) ∈ entries (N l e c tl tr) -> heap_le o c c' = true.
Proof.
  assert (forall t c, ordered o t -> top_le o c t -> forall l' e' c', (l', (e', c')) ∈ entries t ->
    heap_le o c c' = true) as Hall.
  { clear. induction t as [|l e c tl IHl tr IHr]; intros c0; cbn [entries ordered top_le];
      [by intros _ _ ? ? ? ?%not_elem_of_nil|].
    intros (Hl & Hr & Hol & Hor) Hc l' e' c'. rewrite elem_of_cons, elem_of_app.
    intros [Heq|[Hin|Hin]].
    - by injection Heq as -> -> ->.
    - eapply heap_le_trans; [exact Hc|]. eapply IHl; eauto.
    - eapply heap_le_trans; [exact Hc|]. eapply IHr; eauto. }
  intros Ho. apply Hall; [done|]. apply heap_le_refl.
Qed.

End Contents.

(** ** The operations *)

Section Operations.
Implicit Types (h : Heap) (t n : tree).

(** Merging at the top of the heap. *)
Lemma insert_node_spec fuel h t n lt ln :
  ptr t = Some lt -> ptr n = Some ln -> rep (nodes h) None t -> rep (nodes h) None n ->
  root h = ptr t -> NoDup (locs t ++ locs n) ->
  (2 * (length (locs t) + length (locs n)) + 1 < fuel)%nat ->
  exists h' w, insert_node fuel lt ln h = Some h' /\ merged h [] t n h' w.
Proof.
  intros Ht Hn Hrt Hrn Hroot Hnd Hfuel. unfold insert_node, get.
  destruct (rep_root _ _ _ _ Hrn Hn) as (nl & nr & e & c & -> & Hln). rewrite Hln. cbn [parent].
  eapply insert_loop_spec; [done|done| |destruct (before _ _ _); lia].
  by split.
Qed.

Lemma merged_ok h t n h' w :
  merged h [] t n h' w -> NoDup (locs t ++ locs n) ->
  (forall x, is_Some (nodes h !! x) -> x ∈ locs t ++ locs n) ->
  size h = u32 (tsize t + tsize n) -> ordered (order h) t -> ordered (order h) n ->
  (forall x, walk_pos h = Some x -> x ∈ locs t ++ locs n) -> heap_ok h' w.
Proof.
  intros [H1 H2 H3 H4 _ [S1 S2 S3 S4]] Hnd Hdom Hsz Ht Hn Hw. cbn [plug fold_left ctx_locs app] in *.
  assert (locs w ≡ₚ locs t ++ locs n) as Hlocs.
  { rewrite <- !entries_locs, H3, fmap_app. done. }
  split; try done.
  - by rewrite Hlocs.
  - intros x Hx. rewrite Hlocs. destruct (decide (x ∈ locs t ++ locs n)) as [|Hx']; [done|].
    apply Hdom. rewrite <- S1; [done|]. exact Hx'.
  - rewrite S3, Hsz, !tsize_locs, Hlocs, length_app. f_equal. lia.
  - rewrite S4. auto.
  - intros x. rewrite S2, Hlocs. apply Hw.
Qed.

(** A heap and a node of the store that is not linked into its tree. *)
Record detached (h : Heap) (t : tree) (l : loc) (e c : Z) : Prop := {
  dt_rep : rep (nodes h) None t;
  dt_root : root h = ptr t;
  dt_nodup : NoDup (l :: locs t);
  dt_node : nodes h !! l = Some (mk_node None None None e c 0);
  dt_dom : forall x, is_Some (nodes h !! x) -> x ∈ l :: locs t;
  dt_size : size h = u32 (tsize t + 1);
  dt_ordered : ordered (order h) t;
  dt_walk : forall w, walk_pos h = Some w -> w ∈ l :: locs t;
}.

(** Linking it makes it part of the heap. *)
Lemma link_spec fuel h t l e c :
  detached h t l e c -> (2 * length (locs t) + 4 <= fuel)%nat ->
  exists h' w, (match root h with
                | None => Some (set_root (Some l) h)
                | Some r => insert_node fuel r l h
                end) = Some h'
    /\ heap_ok h' w /\ order h' = order h /\ entries w ≡ₚ (l, (e, c)) :: entries t.
Proof.
  intros [Hr Hroot Hnd Hn Hdom Hsz Ho Hw] Hfuel. set (n := N l e c E E).
  assert (rep (nodes h) None n) as Hrn by done.
  rewrite Hroot. destruct t as [|lt et ct tl tr]; cbn [ptr].
  - exists (set_root (Some l) h), n. split; [done|]. by split.
  - assert (NoDup (locs (N lt et ct tl tr) ++ locs n)) as Hnd'.
    { by rewrite Permutation_app_comm. }
    destruct (insert_node_spec fuel h (N lt et ct tl tr) n lt l) as (h1 & w & E1 & Hm); try done.
    { unfold n. rewrite (length_locs l). cbn [locs length]. cbn [locs length] in Hfuel. lia. }
    assert (forall x, x ∈ l :: locs (N lt et ct tl tr) -> x ∈ locs (N lt et ct tl tr) ++ locs n) as Hin.
    { intros x. change (locs n) with [l]. rewrite elem_of_app, elem_of_cons, list_elem_of_singleton. tauto. }
    exists h1, w. split; [done|]. split; [|split].
    + eapply merged_ok; [exact Hm|done| |done|done|done|]; auto.
    + by rewrite (se_order _ _ _ (mg_else _ _ _ _ _ _ Hm)).
    + rewrite (mg_entries _ _ _ _ _ _ Hm). unfold n. cbn [entries app]. solve_Permutation.
Qed.

Lemma insert_ok fuel h l e c :
  heap_wf h -> nodes h !! l = None -> enough fuel h ->
  exists h', GNUNET_CONTAINER_heap_insert fuel l e c h = Some (h', l) /\ heap_wf h'
    /\ contents h' = <[l := (e, c)]> (contents h) /\ order h' = order h.
Proof.
  intros [t Hok] Hnew Hfuel. pose proof Hok as [Hr Hroot Hnd Hdom Hsz Ho Hw].
  unfold enough in Hfuel. rewrite (contents_size h t Hok) in Hfuel.
  assert (l ∉ locs t) as Hl.
  { intros Hin. apply (contents_locs h t l Hok) in Hin as [p Hp]. unfold contents in Hp.
    by rewrite lookup_fmap, Hnew in Hp. }
  unfold GNUNET_CONTAINER_heap_insert. set (h0 := set_size _ _).
  assert (detached h0 t l e c) as Hd.
  { split; unfold h0; cbn [set_size put nodes root size order walk_pos]; try done.
    - eapply rep_agree; [exact Hr|]. intros x Hx. apply lookup_insert_ne. by intros ->.
    - by constructor.
    - by rewrite lookup_insert_eq.
    - intros x Hx. destruct (decide (x = l)) as [->|Hx']; [left|right]. apply Hdom.
      by rewrite lookup_insert_ne in Hx.
    - by rewrite Hsz, u32_add_l.
    - intros x Hx. right. by apply Hw. }
  destruct (link_spec fuel h0 t l e c Hd Hfuel) as (h1 & w & -> & Hok1 & Ho1 & He1).
  pose proof Hok1 as [Hr1 Hroot1 _ _ Hsz1 _ _].
  destruct w as [|lw ew cw wl wr]; [by apply Permutation_nil_cons in He1|].
  rewrite Hroot1. cbn [ptr]. destruct Hr1 as (Hn1 & _). unfold get. rewrite Hn1. cbn [tree_size].
  rewrite Hsz1, u32_add_l. cbn [tsize].
  rewrite (Z.add_comm (tsize wl + tsize wr)), Z.add_assoc, Z.eqb_refl.
  exists h1. split; [done|]. split; [by eexists|]. split; [|done].
  rewrite (contents_perm _ _ _ Hok1 He1), (contents_entries _ _ Hok). done.
Qed.

(** Making the children of a removed root the new heap. *)
Definition promote (fuel : nat) (lc rc : option loc) (h : Heap) : option Heap :=
  match lc, rc with
  | None, None => Some (set_root None h)
  | None, Some rc => modify (set_parent None) rc (set_root (Some rc) h)
  | Some lc, None => modify (set_parent None) lc (set_root (Some lc) h)
  | Some lc, Some rc =>
      let? g := modify (set_parent None) lc (set_root (Some lc) h) in
      let? g := modify (set_parent None) rc g in
      insert_node fuel lc rc g
  end.

(** A tree loses its parent and nothing else. *)
Lemma orphan h par t l :
  rep (nodes h) par t -> NoDup (locs t) -> ptr t = Some l ->
  exists nd, modify (set_parent None) l h = Some (put l (set_parent None nd) h)
    /\ rep (nodes (put l (set_parent None nd) h)) None t.
Proof.
  intros Hr Hnd Hp. destruct (rep_root _ _ _ _ Hr Hp) as (tl & tr & e & c & -> & Hl).
  eexists. split; [by erewrite modify_put by exact Hl|].
  eapply (rep_reparent (nodes h)); [done..| |]; cbn [put nodes].
  - apply lookup_insert_eq.
  - intros x _ Hx. by apply lookup_insert_ne.
Qed.

Lemma put_rep h par t l nd : l ∉ locs t -> rep (nodes h) par t -> rep (nodes (put l nd h)) par t.
Proof.
  intros Hl Hr. eapply rep_agree; [done|]. intros x Hx. cbn [put nodes]. apply lookup_insert_ne.
  by intros ->.
Qed.

Lemma promote_spec fuel h r tl tr :
  rep (nodes h) (Some r) tl -> rep (nodes h) (Some r) tr -> NoDup (locs tl ++ locs tr) ->
  (2 * (length (locs tl) + length (locs tr)) + 2 <= fuel)%nat ->
  exists h' w, promote fuel (ptr tl) (ptr tr) h = Some h' /\ rep (nodes h') None w
    /\ root h' = ptr w /\ entries w ≡ₚ entries tl ++ entries tr
    /\ (ordered (order h) tl -> ordered (order h) tr -> ordered (order h) w)
    /\ same_else (locs tl ++ locs tr) h h'.
Proof.
  intros Hl Hr Hnd Hfuel. pose proof Hnd as (Hndl & Hdisj & Hndr)%NoDup_app.
  destruct (ptr tl) as [lc|] eqn:Etl, (ptr tr) as [rc|] eqn:Etr; cbn [promote].
  - destruct (orphan (set_root (Some lc) h) _ tl lc Hl Hndl Etl) as (nl & -> & Hl1).
    set (h1 := put lc _ _) in *. pose proof (ptr_locs _ _ Etl) as Hlc. pose proof (ptr_locs _ _ Etr) as Hrc.
    destruct (orphan h1 (Some r) tr rc) as (nr & -> & Hr2); [|done..|].
    { apply put_rep; [|done]. intros H. by apply (Hdisj lc). }
    apply (put_rep _ _ _ rc (set_parent None nr)) in Hl1; [|intros H; by apply (Hdisj rc)].
    set (h2 := put rc _ _) in *.
    destruct (insert_node_spec fuel h2 tl tr lc rc) as (h3 & w & -> & Hm); try done; [lia|].
    exists h3, w. pose proof Hm as [M1 M2 M3 M4 _ M6]. cbn [plug fold_left ctx_locs app] in *.
    split_and!; try done. eapply same_else_trans; [|exact M6].
    eapply same_else_trans; [|apply put_same_else; rewrite elem_of_app; by right].
    eapply (same_else_trans _ _ (set_root (Some lc) h)); [done|].
    apply put_same_else. rewrite elem_of_app; by left.
  - destruct tr; [|done]. destruct (orphan (set_root (Some lc) h) _ tl lc Hl Hndl Etl) as (nl & -> & Hl1).
    eexists _, tl. split_and!; try done; [by rewrite app_nil_r|].
    eapply (same_else_trans _ _ (set_root (Some lc) h)); [done|].
    apply put_same_else. rewrite elem_of_app; left. by apply ptr_locs.
  - destruct tl; [|done]. destruct (orphan (set_root (Some rc) h) _ tr rc Hr Hndr Etr) as (nr & -> & Hr1).
    eexists _, tr. split_and!; try done.
    eapply (same_else_trans _ _ (set_root (Some rc) h)); [done|].
    apply put_same_else. rewrite elem_of_app; right. by apply ptr_locs.
  - destruct tl, tr; try done. by eexists _, E.
Qed.

(** Freeing a node that is not part of the tree. *)
Lemma free_ok h l w :
  rep (nodes h) None w -> root h = ptr w -> NoDup (l :: locs w) ->
  (forall x, is_Some (nodes h !! x) -> x ∈ l :: locs w) -> size h = u32 (tsize w) ->
  ordered (order h) w -> (forall x, walk_pos h = Some x -> x ∈ locs w) ->
  heap_ok (free_node l h) w.
Proof.
  intros Hr Hroot [Hl Hnd]%NoDup_cons Hdom Hsz Ho Hw.
  split; cbn [free_node nodes root size order walk_pos]; try done.
  - eapply rep_agree; [done|]. intros x Hx. apply lookup_delete_ne. by intros ->.
  - intros x Hx. destruct (decide (x = l)) as [->|Hne].
    + rewrite lookup_delete_eq in Hx. by destruct Hx.
    + rewrite lookup_delete_ne in Hx by done. apply Hdom, elem_of_cons in Hx as [?|?]; done.
Qed.

Lemma remove_root_promote fuel h r nd :
  root h = Some r -> nodes h !! r = Some nd ->
  GNUNET_CONTAINER_heap_remove_root fuel h =
    let? g := promote fuel (left_child nd) (right_child nd) (set_size (size h - 1) h) in
    Some (free_node r (if decide (walk_pos g = Some r) then set_walk (root g) g else g),
          Some (element nd)).
Proof.
  intros Hr Hnd. unfold GNUNET_CONTAINER_heap_remove_root, promote. rewrite Hr. unfold get.
  cbn [set_size nodes]. rewrite Hnd. destruct (left_child nd) as [lc|], (right_child nd) as [rc|]; try done.
  unfold modify, get. cbn [set_root set_size nodes]. destruct (nodes h !! lc); [|done].
  cbn [put nodes]. destruct (_ !! rc); done.
Qed.

Lemma remove_root_ok fuel h :
  heap_wf h -> enough fuel h ->
  (contents h = ∅ /\ GNUNET_CONTAINER_heap_remove_root fuel h = Some (h, None)) \/
  exists h' l e c, GNUNET_CONTAINER_heap_remove_root fuel h = Some (h', Some e)
    /\ contents h !! l = Some (e, c)
    /\ (forall l' e' c', contents h !! l' = Some (e', c') -> heap_le (order h) c c' = true)
    /\ heap_wf h' /\ contents h' = delete l (contents h) /\ order h' = order h.
Proof.
  intros [t Hok] Hfuel. unfold enough in Hfuel. rewrite (contents_size h t Hok) in Hfuel.
  destruct t as [|r e c tl tr].
  { left. split; [by rewrite (contents_entries h E Hok)|].
    unfold GNUNET_CONTAINER_heap_remove_root. by rewrite (ho_root _ _ Hok). }
  right. pose proof Hok as [(Hn & Hl & Hr) Hroot Hnd Hdom Hsz Ho Hw].
  rewrite (remove_root_promote fuel h r _ Hroot Hn). cbn [left_child right_child element].
  cbn [locs] in Hnd, Hdom, Hw. pose proof Hnd as [Hni Hnd']%NoDup_cons. rewrite length_locs in Hfuel.
  destruct (promote_spec fuel (set_size (size h - 1) h) r tl tr Hl Hr Hnd' ltac:(lia))
    as (h1 & w & -> & Hr1 & Hroot1 & He1 & Ho1 & [S1 S2 S3 S4]).
  cbn [set_size nodes walk_pos size order] in *.
  assert (locs w ≡ₚ locs tl ++ locs tr) as Hlw by (by rewrite <- !entries_locs, He1, fmap_app).
  set (h2 := if decide _ then _ else _).
  assert (nodes h2 = nodes h1 /\ root h2 = root h1 /\ size h2 = size h1 /\ order h2 = order h1)
    as (N2 & R2 & Z2 & O2) by (unfold h2; by destruct (decide _)).
  assert (heap_ok (free_node r h2) w) as Hok2.
  { apply free_ok; rewrite ?N2, ?R2, ?Z2, ?O2, ?S4; try done.
    - by rewrite Hlw.
    - intros x Hx. destruct (decide (x ∈ locs tl ++ locs tr)) as [Hx'|Hx'].
      + right. by rewrite Hlw.
      + rewrite S1 in Hx by done. apply Hdom, elem_of_cons in Hx as [->|?]; [left|done].
    - rewrite S3, Hsz, <- Z.add_opp_r, u32_add_l, (tsize_locs w), Hlw, length_app. cbn [tsize]. rewrite !tsize_locs. f_equal. lia.
    - apply Ho1; apply Ho.
    - intros x. unfold h2. rewrite Hlw. destruct (decide _) as [Heq|Hne]; cbn [set_walk walk_pos].
      + rewrite Hroot1. intros Hx%ptr_locs. by rewrite <- Hlw.
      + rewrite S2 in Hne |- *. intros Hx. pose proof (Hw x Hx) as [->|?]%elem_of_cons; done. }
  exists (free_node r h2), r, e, c. split_and!; try done.
  - apply (contents_lookup h _ _ _ Hok). left.
  - intros l' e' c' Hin%(contents_lookup h _ _ _ Hok). by eapply ordered_min.
  - by exists w.
  - rewrite (contents_entries _ _ Hok2), (contents_entries _ _ Hok). symmetry.
    rewrite (entries_delete _ r (e, c) (entries w)); [done|apply Hok|]. by rewrite He1.
  - cbn [free_node order]. by rewrite O2, S4.
Qed.

(** *** Removing an inner node *)

Lemma ctx_length C : (length C <= length (ctx_locs C))%nat.
Proof.
  induction C as [|f C IH]; [done|]. rewrite ctx_locs_cons. cbn [length]. rewrite length_app. lia.
Qed.

(** All ancestors count one node less. *)
Lemma dec_ancestors_spec fuel h C hole sz :
  rep_ctx (nodes h) C hole sz -> NoDup (ctx_locs C) -> (length C <= fuel)%nat ->
  exists h', dec_ancestors fuel (ctx_ptr C) h = Some h' /\ rep_ctx (nodes h') C hole (sz - 1)
    /\ root h' = root h /\ same_else (ctx_locs C) h h'.
Proof.
  revert fuel h hole sz. induction C as [|f C IH]; intros fuel h hole sz.
  { intros _ _ _. exists h. by destruct fuel. }
  cbn [rep_ctx]. rewrite ctx_locs_cons. intros (Hq & Hs & HC) Hnd Hf.
  destruct fuel as [|fuel]; [cbn [length] in Hf; lia|]. cbn [dec_ancestors ctx_ptr head fmap option_fmap option_map].
  apply NoDup_cons in Hnd as [Hni (_ & Hdis & Hnd)%NoDup_app]. rewrite elem_of_app in Hni.
  erewrite modify_put by exact Hq. set (h1 := put _ _ _).
  assert (forall x, x <> f_loc f -> nodes h1 !! x = nodes h !! x) as H1.
  { intros x Hx. unfold h1. cbn [put nodes]. by rewrite lookup_insert_ne. }
  assert (nodes h1 !! f_loc f = Some (mk_node (ctx_ptr C)
    (if f_left f then hole else ptr (f_sib f)) (if f_left f then ptr (f_sib f) else hole)
    (f_elem f) (f_cost f) (u32 (sz - 1 + tsize (f_sib f))))) as Hq1.
  { unfold h1. cbn [put nodes]. rewrite lookup_insert_eq. unfold add_size.
    cbn [parent left_child right_child element cost tree_size]. rewrite u32_add_l. do 3 f_equal. lia. }
  unfold get. rewrite Hq1. cbn [parent].
  destruct (IH fuel h1 (Some (f_loc f)) (sz + tsize (f_sib f) + 1)) as (h2 & -> & HC2 & R2 & S2);
    [|done|cbn [length] in Hf; lia|].
  { eapply rep_ctx_agree; [done|]. intros x Hx. apply H1. intros ->. tauto. }
  exists h2. split_and!; try done.
  - rewrite (se_nodes _ _ _ S2); [done|tauto].
  - eapply rep_agree; [exact Hs|]. intros x Hx. rewrite <- (H1 x) by (intros ->; tauto).
    apply (se_nodes _ _ _ S2). by apply Hdis.
  - replace (sz - 1 + tsize (f_sib f) + 1) with (sz + tsize (f_sib f) + 1 - 1) by lia. done.
  - eapply same_else_trans; [apply (put_same_else (f_loc f)); left|].
    eapply same_else_weaken; [|exact S2]. intros x Hx. right. apply elem_of_app. by right.
Qed.

Lemma sub_child_spec h l p a b e c z par t :
  nodes h !! l = Some (mk_node p a b e c (u32 z)) -> rep (nodes h) par t ->
  exists h', sub_child l (ptr t) h = Some h'
    /\ nodes h' !! l = Some (mk_node p a b e c (u32 (z - tsize t)))
    /\ root h' = root h /\ same_else [l] h h'.
Proof.
  intros Hl Ht. destruct t as [|lt et ct tl tr]; cbn [sub_child ptr tsize].
  { exists h. rewrite Z.sub_0_r. done. }
  destruct Ht as (Hn & _). unfold get. rewrite Hn. cbn [tree_size]. erewrite modify_put by exact Hl.
  eexists. split; [reflexivity|]. split_and!; [|done|].
  - cbn [put nodes]. rewrite lookup_insert_eq. unfold add_size.
    cbn [parent left_child right_child element cost tree_size]. rewrite u32_add_l. do 2 f_equal.
    unfold u32. rewrite Z.add_opp_r, Zminus_mod, Zplus_mod_idemp_r, <- Zminus_mod. f_equal. lia.
  - apply put_same_else. left.
Qed.

(** Taking the subtree [y] out of the count of [l]. *)
Lemma uncount_spec h C l e c tl tr y ly par s :
  pos_at (nodes h) C l e c tl tr (tsize y + s) 0 -> rep (nodes h) par y -> ptr y = Some ly ->
  NoDup (ctx_locs C ++ locs (N l e c tl tr) ++ locs y) ->
  exists h', (let? g := modify (set_parent None) ly h in sub_child l (Some ly) g) = Some h'
    /\ pos_at (nodes h') C l e c tl tr s (tsize y) /\ rep (nodes h') None y
    /\ root h' = root h /\ same_else (l :: locs y) h h'.
Proof.
  intros [Hn Hl Hr HC] Hy Ely Hnd.
  destruct (parts_disjoint _ _ _ Hnd) as (Hnt & Hny & Hnc & Hct & Hcy & Hty).
  pose proof (ptr_locs _ _ Ely) as Hly.
  destruct (orphan h par y ly Hy Hny Ely) as (nd & -> & Hy1). set (h1 := put ly _ h) in *.
  assert (forall x, x ∉ locs y -> nodes h1 !! x = nodes h !! x) as H1.
  { intros x Hx. unfold h1. cbn [put nodes]. rewrite lookup_insert_ne; [done|]. by intros ->. }
  rewrite <- Ely. destruct (sub_child_spec h1 l (ctx_ptr C) (ptr tl) (ptr tr) e c
    (tsize tl + tsize tr + (tsize y + s)) None y) as (h2 & -> & Hl2 & R2 & S2); [|done|].
  { rewrite H1; [done|]. intros H. apply (Hty l); [left|done]. }
  assert (forall x, x <> l -> nodes h2 !! x = nodes h1 !! x) as H2.
  { intros x Hx. apply (se_nodes _ _ _ S2). by rewrite list_elem_of_singleton. }
  assert (forall x, x ∈ ctx_locs C ++ locs tl ++ locs tr -> nodes h2 !! x = nodes h !! x) as H12.
  { cbn [locs] in Hnt. apply NoDup_cons in Hnt as [Hni _]. intros x Hx. rewrite elem_of_app in Hx.
    rewrite H2, H1; [done| |].
    - intros Hx'. destruct Hx as [Hx|Hx]; [by apply (Hcy x)|]. apply (Hty x); [by right|done].
    - intros ->. destruct Hx as [Hx|Hx]; [|done]. apply (Hct l); [done|left]. }
  exists h2. split_and!; [done|split|..]; try done.
  - rewrite Hl2. do 3 f_equal. lia.
  - eapply rep_agree; [exact Hl|]. intros x Hx. apply H12. rewrite !elem_of_app. tauto.
  - eapply rep_agree; [exact Hr|]. intros x Hx. apply H12. rewrite !elem_of_app. tauto.
  - refine (eq_ind _ (rep_ctx (nodes h2) C (Some l)) _ _ (_ : 1 + tsize tl + tsize tr + (tsize y + s) + 0 = _));
      [|lia]. eapply rep_ctx_agree; [exact HC|]. intros x Hx. apply H12. rewrite !elem_of_app. tauto.
  - eapply rep_agree; [exact Hy1|]. intros x Hx. apply H2. intros ->. apply (Hty l); [left|done].
  - eapply same_else_trans; [apply put_same_else; by right|].
    eapply same_else_weaken; [|exact S2]. intros x Hx%list_elem_of_singleton. subst x. left.
Qed.

(** Unlinking a subtree below its parent and inserting it there again, when
    the parent has exactly this subtree too much. *)
Lemma reinsert_spec fuel h C l e c tl tr y ly par :
  pos_at (nodes h) C l e c tl tr (tsize y) 0 -> rep (nodes h) par y -> ptr y = Some ly ->
  NoDup (ctx_locs C ++ locs (N l e c tl tr) ++ locs y) -> root h = ctx_root C (Some l) ->
  (2 * (length (locs (N l e c tl tr)) + length (locs y)) + 2 <= fuel)%nat ->
  exists h' w, reinsert_child fuel l (Some ly) h = Some h' /\ merged h C (N l e c tl tr) y h' w.
Proof.
  intros Hp Hy Ely Hnd Hroot Hfuel. unfold reinsert_child.
  rewrite <- (Z.add_0_r (tsize y)) in Hp.
  destruct (uncount_spec h C l e c tl tr y ly par 0 Hp Hy Ely Hnd) as (h2 & E2 & Hp2 & Hy2 & R2 & S2).
  destruct (modify (set_parent None) ly h) as [h1|]; [|done]. rewrite E2.
  apply pos_at_rep in Hp2 as [Hpos Hctx].
  assert (pending h2 C (N l e c tl tr) y) as Hp' by (split; try done; by rewrite R2).
  unfold insert_node, get. destruct (rep_root _ _ _ _ Hy2 Ely) as (yl & yr & ey & cy & -> & Hyn).
  rewrite Hyn. cbn [parent].
  destruct (insert_loop_spec fuel h2 C (N l e c tl tr) (N ly ey cy yl yr) l ly eq_refl eq_refl Hp')
    as (h3 & w & -> & [M1 M2 M3 M4 M5 M6]); [destruct (before _ _ _); lia|].
  exists h3, w. split; [done|]. rewrite (se_order _ _ _ S2) in M4, M5. split; try done.
  eapply same_else_trans; [|exact M6]. eapply same_else_weaken; [|exact S2]. intros x.
  rewrite !elem_of_app, elem_of_cons. cbn [locs]. rewrite !elem_of_cons. tauto.
Qed.

(** The same when more is to come and there is a free side. *)
Lemma reinsert_hang fuel h C l e c tl tr y ly ey cy yl yr par s :
  y = N ly ey cy yl yr ->
  pos_at (nodes h) C l e c tl tr (tsize y + s) 0 -> rep (nodes h) par y ->
  NoDup (ctx_locs C ++ locs (N l e c tl tr) ++ locs y) -> tl = E \/ tr = E ->
  heap_le (order h) c cy = true ->
  exists h' dir, reinsert_child (S fuel) l (Some ly) h = Some h' /\ (if dir : bool then tl else tr) = E
    /\ pos_at (nodes h') C l e c (if dir then y else tl) (if dir then tr else y) s 0
    /\ root h' = root h /\ same_else (l :: locs y) h h'.
Proof.
  intros -> Hp Hy Hnd Hfree Hle. unfold reinsert_child.
  destruct (uncount_spec h C l e c tl tr _ ly par s Hp Hy eq_refl Hnd) as (h2 & E2 & Hp2 & Hy2 & R2 & S2).
  destruct (modify (set_parent None) ly h) as [h1|]; [|done]. rewrite E2.
  pose proof (pa_node _ _ _ _ _ _ _ _ _ Hp2) as Hl2. pose proof Hy2 as (Hyn & _).
  set (dir := match ptr tl with None => true | Some _ => false end).
  assert ((if dir then tl else tr) = E) as Hdir.
  { unfold dir. destruct tl; [done|]. destruct Hfree; done. }
  destruct (hang_spec h2 C l e c tl tr ly ey cy yl yr s dir Hp2 Hy2 Hnd Hdir) as (h3 & E3 & Hp3 & R3 & S3).
  exists h3, dir. split_and!; try done; [|congruence|by eapply same_else_trans].
  unfold insert_node, get. rewrite Hyn. cbn [parent insert_loop]. unfold get. rewrite Hl2, Hyn.
  cbn [cost left_child right_child tree_size]. rewrite (se_order _ _ _ S2), Hle. rewrite <- E3.
  unfold hang, dir. destruct tl; [done|]. destruct Hfree as [Hf| ->]; done.
Qed.

(** Both subtrees of a removed node go back below its parent [l]. *)
Lemma refill_spec fuel h C l e c tl tr xl xr par :
  pos_at (nodes h) C l e c tl tr (tsize xl + tsize xr) 0 -> tl = E \/ tr = E ->
  rep (nodes h) par xl -> rep (nodes h) par xr ->
  NoDup (ctx_locs C ++ locs (N l e c tl tr) ++ locs xl ++ locs xr) ->
  root h = ctx_root C (Some l) -> top_le (order h) c xl -> top_le (order h) c xr ->
  (2 * (length (locs (N l e c tl tr)) + length (locs xl) + length (locs xr)) + 2 <= fuel)%nat ->
  exists h' w, (let? g := reinsert_child fuel l (ptr xl) h in reinsert_child fuel l (ptr xr) g) = Some h'
    /\ rep (nodes h') None (plug C w) /\ root h' = ptr (plug C w)
    /\ entries w ≡ₚ entries (N l e c tl tr) ++ entries xl ++ entries xr
    /\ (ordered (order h) (N l e c tl tr) -> ordered (order h) xl -> ordered (order h) xr ->
        ordered (order h) w)
    /\ (forall c0, heap_le (order h) c0 c = true -> top_le (order h) c0 w)
    /\ same_else (ctx_locs C ++ locs (N l e c tl tr) ++ locs xl ++ locs xr) h h'.
Proof.
  intros Hp Hfree Hxl Hxr Hnd Hroot Hcl Hcr Hfuel.
  assert (forall c0 t, heap_le (order h) c0 c = true -> top_le (order h) c t -> top_le (order h) c0 t)
    as Htop. { intros c0 [|? ? c1 ? ?]; [done|]. cbn [top_le]. eauto using heap_le_trans. }
  destruct xl as [|ll el cl xll xlr], xr as [|lr er cr xrl xrr].
  - exists h, (N l e c tl tr). cbn [ptr reinsert_child entries app]. rewrite app_nil_r.
    split_and!; try done; [by apply pos_at_plug|by rewrite plug_ptr].
  - cbn [ptr]. change (reinsert_child fuel l None h) with (Some h). cbn [tsize] in Hp. rewrite Z.add_0_l in Hp.
    destruct (reinsert_spec fuel h C l e c tl tr (N lr er cr xrl xrr) lr par) as (h1 & w & -> & [M1 M2 M3 M4 M5 M6]);
      try done; [cbn [locs length] in Hfuel |- *; lia|].
    exists h1, w. split_and!; try done; auto.
  - cbn [ptr]. change (tsize E) with 0 in Hp. rewrite Z.add_0_r in Hp.
    cbn [locs] in Hnd. rewrite app_nil_r in Hnd.
    destruct (reinsert_spec fuel h C l e c tl tr (N ll el cl xll xlr) ll par) as (h1 & w & -> & [M1 M2 M3 M4 M5 M6]);
      try done; [cbn [locs length] in Hfuel |- *; lia|].
    exists h1, w. cbn [reinsert_child entries locs]. rewrite !app_nil_r. split_and!; try done; auto.
  - set (xl := N ll el cl xll xlr) in *. set (xr := N lr er cr xrl xrr) in *.
    destruct fuel as [|fuel]; [lia|].
    assert (NoDup (ctx_locs C ++ locs (N l e c tl tr) ++ locs xl) /\
      (forall x, x ∈ locs xr -> x ∉ ctx_locs C ++ locs (N l e c tl tr) ++ locs xl)) as [Hndl Hdr].
    { rewrite !app_assoc in Hnd. apply NoDup_app in Hnd as (H1 & H2 & _).
      rewrite <- !app_assoc in H1, H2. split; [done|]. intros x Hx Hx'. by apply (H2 x). }
    destruct (reinsert_hang fuel h C l e c tl tr xl ll el cl xll xlr par (tsize xr)) as
      (h1 & dir & E1 & Hdir & Hp1 & R1 & S1); try done.
    change (ptr xl) with (Some ll). rewrite E1.
    assert (locs (N l e c (if dir then xl else tl) (if dir then tr else xl))
      ≡ₚ locs (N l e c tl tr) ++ locs xl) as Hlocs.
    { destruct dir; rewrite Hdir; cbn [locs app]; solve_Permutation. }
    destruct (reinsert_spec (S fuel) h1 C l e c _ _ xr lr par Hp1) as (h2 & w & E2 & [M1 M2 M3 M4 M5 M6]); try done.
    { eapply rep_agree; [exact Hxr|]. intros x Hx. apply (se_nodes _ _ _ S1). intros Hx'.
      apply (Hdr x Hx). rewrite !elem_of_app. cbn [locs]. rewrite elem_of_cons in Hx' |- *. tauto. }
    { by rewrite Hlocs, <- app_assoc. }
    { congruence. }
    { rewrite Hlocs, length_app. lia. }
    change (ptr xr) with (Some lr). exists h2, w. rewrite (se_order _ _ _ S1) in M4, M5. split_and!; try done.
    + rewrite M3. destruct dir; rewrite Hdir; cbn [entries app]; solve_Permutation.
    + intros (Ha & Hb & Hc & Hd) Ho1 Ho2. apply M4; [|done]. destruct dir; cbn [ordered]; tauto.
    + intros c0 Hc0. apply M5; auto.
    + eapply same_else_trans.
      * eapply same_else_weaken; [|exact S1]. intros x. rewrite !elem_of_app. cbn [locs].
        rewrite !elem_of_cons. tauto.
      * eapply same_else_weaken; [|exact M6]. intros x. rewrite Hlocs, !elem_of_app. tauto.
Qed.

(** The first half of [remove_node]: nobody counts the node any more. *)
Lemma uncount_node fuel h C x e c xl xr :
  rep (nodes h) None (plug C (N x e c xl xr)) -> NoDup (locs (plug C (N x e c xl xr))) ->
  (length (ctx_locs C) <= fuel)%nat ->
  exists h', (let? g := dec_ancestors fuel (ctx_ptr C) h in
              let? g := sub_child x (ptr xl) g in sub_child x (ptr xr) g) = Some h'
    /\ nodes h' !! x = Some (mk_node (ctx_ptr C) (ptr xl) (ptr xr) e c 0)
    /\ rep (nodes h') (Some x) xl /\ rep (nodes h') (Some x) xr
    /\ rep_ctx (nodes h') C (Some x) (tsize xl + tsize xr)
    /\ root h' = root h /\ same_else (x :: ctx_locs C) h h'.
Proof.
  intros Hrep Hnd Hfuel. apply rep_plug in Hrep as [(Hn & Hl & Hr) HC].
  rewrite plug_locs in Hnd. apply NoDup_app in Hnd as (HndC & Hdis & [Hx _]%NoDup_cons).
  rewrite elem_of_app in Hx. cbn [locs] in Hdis. pose proof (ctx_length C).
  destruct (dec_ancestors_spec fuel h C _ _ HC HndC) as (h1 & -> & HC1 & R1 & S1); [lia|].
  assert (forall y, y ∈ x :: locs xl ++ locs xr -> nodes h1 !! y = nodes h !! y) as H1.
  { intros y Hy. apply (se_nodes _ _ _ S1). intros Hy'. by apply (Hdis y). }
  assert (forall t h', same_else [x] h1 h' -> (forall y, y ∈ locs t -> y ∈ locs xl \/ y ∈ locs xr) ->
    forall par, rep (nodes h) par t -> rep (nodes h') par t) as Hsub.
  { intros t h' S' Ht par Hr'. eapply rep_agree; [exact Hr'|]. intros y Hy.
    rewrite <- H1 by (right; apply elem_of_app; auto). apply (se_nodes _ _ _ S').
    intros ->%list_elem_of_singleton. apply Hx. auto. }
  destruct (sub_child_spec h1 x (ctx_ptr C) (ptr xl) (ptr xr) e c (tsize xl + tsize xr) (Some x) xl)
    as (h2 & -> & Hn2 & R2 & S2); [rewrite H1; [done|left]|by apply (Hsub xl h1); auto|].
  destruct (sub_child_spec h2 x (ctx_ptr C) (ptr xl) (ptr xr) e c (tsize xl + tsize xr - tsize xl) (Some x) xr)
    as (h3 & -> & Hn3 & R3 & S3); [done|by apply (Hsub xr h2); auto|].
  pose proof (same_else_trans _ _ _ _ S2 S3) as S23.
  exists h3. split_and!; try done.
  - rewrite Hn3. do 2 f_equal. replace (tsize xl + tsize xr - tsize xl - tsize xr) with 0 by lia. done.
  - apply (Hsub xl h3); auto.
  - apply (Hsub xr h3); auto.
  - refine (eq_ind _ (rep_ctx (nodes h3) C (Some x)) _ _ (_ : tsize (N x e c xl xr) - 1 = _));
      [|cbn [tsize]; lia]. eapply rep_ctx_agree; [exact HC1|]. intros y Hy.
    apply (se_nodes _ _ _ S23). intros ->%list_elem_of_singleton. apply (Hdis x Hy). left.
  - congruence.
  - eapply same_else_trans; [eapply same_else_weaken; [|exact S1]|eapply same_else_weaken; [|exact S23]].
    + intros y Hy. by right.
    + intros y ->%list_elem_of_singleton. left.
Qed.

(** The code for a node without parent is [promote]. *)
Lemma promote_eq fuel lc rc h :
  (match lc, rc with
   | Some lc, rc =>
       let? g := modify (set_parent None) lc (set_root (Some lc) h) in
       match rc with
       | Some rc => let? g := modify (set_parent None) rc g in insert_node fuel lc rc g
       | None => Some g
       end
   | None, rc =>
       let g := set_root rc h in
       match rc with Some rc => modify (set_parent None) rc g | None => Some g end
   end) = promote fuel lc rc h.
Proof.
  destruct lc as [lc|], rc as [rc|]; try done. cbn [promote]. by destruct (modify _ _ _).
Qed.

(** Clearing the links of the node. *)
Lemma clear_node h x p a b e c :
  nodes h !! x = Some (mk_node p a b e c 0) ->
  exists h', (let? g := modify (set_parent None) x h in
              let? g := modify (set_left None) x g in
              let? g := modify (set_right None) x g in
              let? nd := get g x in
              assert? tree_size nd =? 0 in Some g) = Some h'
    /\ nodes h' !! x = Some (mk_node None None None e c 0) /\ root h' = root h /\ same_else [x] h h'.
Proof.
  intros Hx. erewrite modify_put by exact Hx.
  erewrite modify_put by (cbn [put nodes]; apply lookup_insert_eq).
  erewrite modify_put by (cbn [put nodes]; apply lookup_insert_eq).
  unfold get. cbn [put nodes]. rewrite lookup_insert_eq. cbn [tree_size set_right set_left set_parent].
  eexists. split; [reflexivity|]. cbn [put nodes root]. rewrite lookup_insert_eq. split_and!; try done.
  split; try done. intros y Hy. cbn [put nodes]. rewrite list_elem_of_singleton in Hy.
  by rewrite !lookup_insert_ne by done.
Qed.

(** Unlinking a node from its parent leaves a free side. *)
Lemma unlink_spec h f C x s :
  rep_ctx (nodes h) (f :: C) (Some x) s -> NoDup (ctx_locs (f :: C)) -> (x ∉ ctx_locs (f :: C)) ->
  exists h', (let? qn := get h (f_loc f) in
              modify (if decide (left_child qn = Some x) then set_left None else set_right None)
                (f_loc f) h) = Some h'
    /\ pos_at (nodes h') C (f_loc f) (f_elem f) (f_cost f) (if f_left f then E else f_sib f)
         (if f_left f then f_sib f else E) s 0
    /\ root h' = root h /\ same_else [f_loc f] h h'.
Proof.
  cbn [rep_ctx]. rewrite ctx_locs_cons. intros (Hq & Hs & HC) Hnd Hx. unfold get. rewrite Hq.
  erewrite modify_put by exact Hq. cbn [left_child]. eexists. split; [reflexivity|].
  apply NoDup_cons in Hnd as [Hni _]. rewrite not_elem_of_cons, not_elem_of_app in Hx.
  rewrite elem_of_app in Hni.
  split_and!; [split|done|apply put_same_else; left]; cbn [put nodes].
  - rewrite lookup_insert_eq. destruct (f_left f).
    + rewrite decide_True by done. unfold set_left. cbn. do 3 f_equal. lia.
    + rewrite decide_False by (intros H%ptr_locs; tauto). unfold set_right. cbn. do 3 f_equal. lia.
  - destruct (f_left f); [done|]. apply put_rep; [tauto|done].
  - destruct (f_left f); [|done]. apply put_rep; [tauto|done].
  - refine (eq_ind _ (rep_ctx _ C (Some (f_loc f))) _ _ (_ : s + tsize (f_sib f) + 1 = _));
      [|destruct (f_left f); cbn [tsize]; lia].
    eapply rep_ctx_agree; [done|]. intros y Hy. apply lookup_insert_ne. intros <-. tauto.
Qed.

(** The second half of [remove_node]: the children take the place of the node. *)
Lemma replace_spec fuel h C x e c xl xr :
  rep (nodes h) (Some x) xl -> rep (nodes h) (Some x) xr ->
  rep_ctx (nodes h) C (Some x) (tsize xl + tsize xr) -> root h = ctx_root C (Some x) ->
  NoDup (x :: ctx_locs C ++ locs xl ++ locs xr) ->
  ordered (order h) (plug C (N x e c xl xr)) ->
  (2 * (length (ctx_locs C) + length (locs xl) + length (locs xr)) + 4 <= fuel)%nat ->
  exists h' t, (match ctx_ptr C with
    | None => promote fuel (ptr xl) (ptr xr) h
    | Some q => let? qn := get h q in
        let? g := modify (if decide (left_child qn = Some x) then set_left None else set_right None) q h in
        let? g := reinsert_child fuel q (ptr xl) g in reinsert_child fuel q (ptr xr) g
    end) = Some h' /\ rep (nodes h') None t /\ root h' = ptr t
    /\ entries t ≡ₚ ctx_entries C ++ entries xl ++ entries xr /\ ordered (order h) t
    /\ same_else (ctx_locs C ++ locs xl ++ locs xr) h h'.
Proof.
  intros Hl Hr HC Hroot Hnd Ho Hfuel. apply NoDup_cons in Hnd as [Hx Hnd]. rewrite !elem_of_app in Hx.
  pose proof (ordered_plug _ _ _ Ho) as (Hcl & Hcr & Hol & Hor). pose proof Hnd as (HndC & Hdis & Hndx)%NoDup_app.
  destruct C as [|f C].
  { destruct (promote_spec fuel h x xl xr Hl Hr Hndx) as (h2 & t & E2 & Hr2 & R2 & He & Ho2 & S2); [lia|].
    exists h2, t. split_and!; try done. by apply Ho2. }
  destruct (unlink_spec h f C x _ HC HndC ltac:(tauto)) as (h1 & E1 & Hp1 & R1 & S1).
  set (tl := if f_left f then E else f_sib f) in *. set (tr := if f_left f then f_sib f else E) in *.
  set (q := N (f_loc f) (f_elem f) (f_cost f) tl tr).
  assert (locs q ++ ctx_locs C ≡ₚ ctx_locs (f :: C)) as Hq.
  { rewrite ctx_locs_cons. unfold q, tl, tr. cbn [locs]. destruct (f_left f); cbn [app locs]; solve_Permutation. }
  assert (forall t, (forall y, y ∈ locs t -> y ∈ locs xl ++ locs xr) -> rep (nodes h) (Some x) t ->
    rep (nodes h1) (Some x) t) as Hsub.
  { intros t Ht Hrt. eapply rep_agree; [exact Hrt|]. intros y Hy. apply (se_nodes _ _ _ S1).
    intros ->%list_elem_of_singleton. apply (Hdis (f_loc f)); [left|by apply Ht]. }
  pose proof (ordered_plug _ C (fill f (N x e c xl xr)) Ho) as Hof.
  assert (heap_le (order h) (f_cost f) c = true /\ ordered (order h) q) as [Hfc Hoq].
  { unfold fill, q, tl, tr in *. destruct (f_left f); cbn in Hof |- *; tauto. }
  assert (forall t, top_le (order h) c t -> top_le (order h) (f_cost f) t) as Htop.
  { intros [|? ? c1 ? ?]; [done|]. cbn [top_le]. eauto using heap_le_trans. }
  destruct (refill_spec fuel h1 C (f_loc f) (f_elem f) (f_cost f) tl tr xl xr (Some x) Hp1)
    as (h2 & w & E2 & Hr2 & R2 & He2 & Ho2 & Ht2 & S2); rewrite ?(se_order _ _ _ S1); auto.
  { unfold tl, tr. destruct (f_left f); auto. }
  { apply Hsub; [|done]. intros y Hy. apply elem_of_app. by left. }
  { apply Hsub; [|done]. intros y Hy. apply elem_of_app. by right. }
  { fold q. eapply NoDup_Permutation_proper; [|exact Hnd]. rewrite <- Hq. solve_Permutation. }
  { by rewrite R1, Hroot. }
  { fold q. rewrite <- (Permutation_length Hq), length_app in Hfuel. lia. }
  rewrite (se_order _ _ _ S1) in Ho2, Ht2.
  exists h2, (plug C w). cbn [ctx_ptr head fmap option_fmap option_map]. split_and!; try done.
  - destruct (get h (f_loc f)); [|done]. rewrite E1. exact E2.
  - rewrite plug_entries, He2. unfold ctx_entries, tl, tr. cbn [mbind list_bind].
    destruct (f_left f); cbn [entries app]; solve_Permutation.
  - eapply plug_ordered; [exact Ho| |].
    + intros _. by apply Ho2.
    + intros c0 Hc0. apply Ht2. unfold fill in Hc0. by destruct (f_left f).
  - eapply same_else_trans; eapply same_else_weaken; [|exact S1| |exact S2].
    + intros y ->%list_elem_of_singleton. rewrite elem_of_app. left. left.
    + intros y. fold q. rewrite <- Hq, !elem_of_app. tauto.
Qed.

(** [remove_node] takes exactly the node out of the tree. *)
Lemma remove_node_spec fuel h t x :
  heap_ok h t -> x ∈ locs t -> (2 * length (locs t) + 4 <= fuel)%nat ->
  exists h' t' e c, remove_node fuel x h = Some h' /\ detached h' t' x e c
    /\ entries t ≡ₚ (x, (e, c)) :: entries t' /\ order h' = order h /\ walk_pos h' = walk_pos h.
Proof.
  intros Hok Hin Hfuel. destruct (unplug t x Hin) as (C & e & c & xl & xr & ->).
  pose proof Hok as [Hrep Hroot Hnd Hdom Hsz Ho Hw].
  pose proof (proj1 (rep_plug _ _ _) Hrep) as [(Hn & _) _].
  rewrite plug_locs, length_app, length_locs in Hfuel. rewrite plug_ptr in Hroot.
  destruct (uncount_node fuel h C x e c xl xr Hrep Hnd ltac:(lia))
    as (h1 & E1 & Hn1 & Hl1 & Hr1 & HC1 & R1 & S1).
  assert (x :: ctx_locs C ++ locs xl ++ locs xr ≡ₚ locs (plug C (N x e c xl xr))) as Hall.
  { rewrite plug_locs. cbn [locs]. solve_Permutation. }
  destruct (replace_spec fuel h1 C x e c xl xr) as (h2 & t' & E2 & Hr2 & R2 & He2 & Ho2 & S2);
    rewrite ?(se_order _ _ _ S1), ?R1; try done; [by rewrite Hall|lia|].
  assert (locs t' ≡ₚ ctx_locs C ++ locs xl ++ locs xr) as Hlocs.
  { by rewrite <- entries_locs, He2, !fmap_app, ctx_entries_locs, !entries_locs. }
  rewrite <- Hlocs in Hall, S2. rewrite <- Hall in Hnd. pose proof Hnd as [Hx' _]%NoDup_cons.
  destruct (clear_node h2 x (ctx_ptr C) (ptr xl) (ptr xr) e c) as (h3 & E3 & Hn3 & R3 & S3).
  { by rewrite (se_nodes _ _ _ S2). }
  rewrite (se_order _ _ _ S1) in Ho2.
  assert (order h3 = order h /\ walk_pos h3 = walk_pos h /\ size h3 = size h) as (O3 & W3 & Z3).
  { by rewrite (se_order _ _ _ S3), (se_order _ _ _ S2), (se_order _ _ _ S1), (se_walk _ _ _ S3),
      (se_walk _ _ _ S2), (se_walk _ _ _ S1), (se_size _ _ _ S3), (se_size _ _ _ S2), (se_size _ _ _ S1). }
  exists h3, t', e, c. split_and!; try done.
  - unfold remove_node, get. rewrite Hn. cbn [parent left_child right_child].
    destruct (dec_ancestors fuel (ctx_ptr C) h) as [g1|]; [|done].
    destruct (sub_child x (ptr xl) g1) as [g2|]; [|done]. rewrite E1.
    destruct (ctx_ptr C) as [q|].
    + unfold get in E2. rewrite E2. exact E3.
    + rewrite promote_eq, E2. exact E3.
  - split; rewrite ?O3, ?W3, ?Z3; try done.
    + eapply rep_agree; [exact Hr2|]. intros y Hy. apply (se_nodes _ _ _ S3).
      by intros ->%list_elem_of_singleton.
    + congruence.
    + intros y Hy. destruct (decide (y ∈ x :: locs t')) as [|Hy']; [done|]. rewrite Hall.
      apply Hdom. pose proof Hy' as [Hyx Hyt]%not_elem_of_cons.
      rewrite (se_nodes _ _ _ S3), (se_nodes _ _ _ S2), (se_nodes _ _ _ S1) in Hy; try done.
      * rewrite elem_of_cons. rewrite Hlocs, !elem_of_app in Hyt. tauto.
      * by rewrite list_elem_of_singleton.
    + rewrite Hsz, !tsize_locs, <- Hall. cbn [length]. f_equal. lia.
    + intros y Hy%Hw. by rewrite Hall.
  - rewrite plug_entries, He2. cbn [entries]. solve_Permutation.
Qed.

Lemma walk_ok random h :
  heap_wf h ->
  exists h' r, GNUNET_CONTAINER_heap_walk_get_next random h = Some (h', r)
    /\ heap_wf h' /\ nodes h' = nodes h /\ order h' = order h
    /\ match r with
       | None => contents h = ∅
       | Some e => exists l c, contents h !! l = Some (e, c)
       end.
Proof.
  intros [t Hok]. pose proof Hok as [Hrep Hroot Hnd Hdom Hsz Ho Hw].
  unfold GNUNET_CONTAINER_heap_walk_get_next. rewrite Hroot.
  destruct t as [|l e c tl tr]; cbn [ptr].
  { exists h, None. split_and!; try done; [by exists E|]. by rewrite (contents_entries h E Hok). }
  set (pos := match walk_pos h with None => l | Some p => p end).
  assert (pos ∈ locs (N l e c tl tr)) as Hpos.
  { unfold pos. destruct (walk_pos h) as [w|]; [by apply Hw|left]. }
  destruct (unplug _ _ Hpos) as (C & e' & c' & pl & pr & Et).
  rewrite Et in Hrep. apply rep_plug in Hrep as [(Hn & _) _]. unfold get. rewrite Hn.
  cbn [left_child right_child element]. eexists _, (Some e'). split; [reflexivity|]. split_and!; try done.
  - exists (N l e c tl tr). destruct Hok. split; try done. intros w Hw'. cbn [set_walk walk_pos] in Hw'.
    rewrite Et, plug_locs, elem_of_app. right. cbn [locs]. right. apply elem_of_app.
    destruct (0 =? random); [right|left]; by apply ptr_locs.
  - exists pos, c'. apply (contents_lookup h _ _ _ Hok). rewrite Et, plug_entries, elem_of_app.
    right. left.
Qed.

Lemma remove_node_ok fuel random h x :
  heap_wf h -> is_Some (contents h !! x) -> enough fuel h ->
  exists h' e c, GNUNET_CONTAINER_heap_remove_node fuel random x h = Some (h', e)
    /\ contents h !! x = Some (e, c) /\ heap_wf h' /\ contents h' = delete x (contents h)
    /\ order h' = order h.
Proof.
  intros Hwf Hx Hfuel. unfold GNUNET_CONTAINER_heap_remove_node.
  assert (exists h1, (if decide (walk_pos h = Some x)
    then fst <$> GNUNET_CONTAINER_heap_walk_get_next random h else Some h) = Some h1
    /\ heap_wf h1 /\ nodes h1 = nodes h /\ order h1 = order h) as (h1 & -> & [t Hok] & N1 & O1).
  { destruct (decide _); [|by exists h]. destruct (walk_ok random h Hwf) as (h1 & r & -> & ? & ? & ? & _).
    by exists h1. }
  assert (contents h1 = contents h) as C1 by (unfold contents; by rewrite N1).
  unfold enough, count in Hfuel. rewrite <- C1 in Hfuel, Hx |- *. fold (count h1) in Hfuel.
  rewrite (contents_size h1 t Hok) in Hfuel. apply (contents_locs h1 t x Hok) in Hx.
  destruct (remove_node_spec fuel h1 t x Hok Hx Hfuel) as (h2 & t' & e & c & -> & Hd & He & O2 & W2).
  pose proof Hd as [Hr2 R2 Hnd2 Hn2 Hdom2 Hsz2 Ho2 Hw2]. unfold get. cbn [set_size nodes].
  rewrite Hn2. cbn [element]. set (h3 := if decide _ then _ else _).
  assert (nodes h3 = nodes h2 /\ root h3 = root h2 /\ size h3 = u32 (size h2 - 1) /\ order h3 = order h2)
    as (N3 & R3 & Z3 & O3) by (unfold h3; by destruct (decide _)).
  assert (heap_ok (free_node x h3) t') as Hok3.
  { apply free_ok; rewrite ?N3, ?R3, ?Z3, ?O3; try done.
    - rewrite Hsz2, <- Z.add_opp_r, u32_add_l. f_equal. lia.
    - intros w. unfold h3. destruct (decide _) as [Heq|Hne]; cbn [set_walk set_size walk_pos]; [done|].
      intros Hw. cbn [set_size walk_pos] in Hne. pose proof (Hw2 _ Hw) as [->|?]%elem_of_cons; done. }
  exists (free_node x h3), e, c. split_and!; try done.
  - apply (contents_lookup h1 t _ _ Hok). rewrite He. left.
  - by exists t'.
  - rewrite (contents_entries _ _ Hok3), (contents_entries _ _ Hok). symmetry.
    apply (entries_delete _ x (e, c)); [apply Hok|done].
  - cbn [free_node order]. by rewrite O3, O2.
Qed.

Lemma update_cost_ok fuel h x c' :
  heap_wf h -> is_Some (contents h !! x) -> enough fuel h ->
  exists h' e c, GNUNET_CONTAINER_heap_update_cost fuel x c' h = Some h'
    /\ contents h !! x = Some (e, c) /\ heap_wf h' /\ contents h' = <[x := (e, c')]> (contents h)
    /\ order h' = order h.
Proof.
  intros [t Hok] Hx Hfuel. unfold GNUNET_CONTAINER_heap_update_cost.
  unfold enough in Hfuel. rewrite (contents_size h t Hok) in Hfuel.
  apply (contents_locs h t x Hok) in Hx.
  destruct (remove_node_spec fuel h t x Hok Hx Hfuel) as (h1 & t' & e & c & -> & Hd & He & O1 & W1).
  pose proof Hd as [Hr1 R1 Hnd1 Hn1 Hdom1 Hsz1 Ho1 Hw1]. erewrite modify_put by exact Hn1.
  set (h2 := put x _ h1). pose proof Hnd1 as [Hx1 _]%NoDup_cons.
  assert (detached h2 t' x e c') as Hd2.
  { split; unfold h2; try done.
    - by apply put_rep.
    - cbn [put nodes]. by rewrite lookup_insert_eq.
    - cbn [put nodes]. intros y Hy. destruct (decide (y = x)) as [->|Hne]; [left|].
      rewrite lookup_insert_ne in Hy by done. by apply Hdom1. }
  assert (length (locs t) = S (length (locs t'))) as Hlen.
  { rewrite <- !entries_locs, !length_fmap, He. done. }
  destruct (link_spec fuel h2 t' x e c' Hd2) as (h3 & w & -> & Hok3 & O3 & He3); [lia|].
  exists h3, e, c. split_and!; try done.
  - apply (contents_lookup h t _ _ Hok). rewrite He. left.
  - by exists w.
  - rewrite (contents_perm _ _ _ Hok3 He3), (contents_perm _ _ _ Hok He). cbn [list_to_map foldr fst snd].
    by rewrite insert_insert_eq.
  - rewrite O3. exact O1.
Qed.

End Operations.

(** ** Refinement *)

Inductive heap_op :=
| OpInsert (l : loc) (e c : Z)
| OpRemoveRoot
| OpRemoveNode (l : loc) (random : Z)
| OpUpdateCost (l : loc) (c : Z)
| OpWalk (random : Z).

Definition exec (op : heap_op) (h : Heap) : option (Heap * option Z) :=
  let fuel := (2 * count h + 4)%nat in
  match op with
  | OpInsert l e c => let? (h', _) := GNUNET_CONTAINER_heap_insert fuel l e c h in Some (h', None)
  | OpRemoveRoot => GNUNET_CONTAINER_heap_remove_root fuel h
  | OpRemoveNode l random =>
      let? (h', e) := GNUNET_CONTAINER_heap_remove_node fuel random l h in Some (h', Some e)
  | OpUpdateCost l c => let? h' := GNUNET_CONTAINER_heap_update_cost fuel l c h in Some (h', None)
  | OpWalk random => GNUNET_CONTAINER_heap_walk_get_next random h
  end.

(** What a client must respect: a new node has a new address, and handles are
    those of nodes in the heap. *)
Definition op_pre (m : gmap loc (Z * Z)) (op : heap_op) : Prop :=
  match op with
  | OpInsert l _ _ => m !! l = None
  | OpRemoveNode l _ | OpUpdateCost l _ => is_Some (m !! l)
  | _ => True
  end.

(** [p] is an entry that no other entry comes before. *)
Definition is_first (o : GNUNET_CONTAINER_HeapOrder) (m : gmap loc (Z * Z)) (l : loc) (e c : Z) : Prop :=
  m !! l = Some (e, c) /\ forall l' e' c', m !! l' = Some (e', c') -> heap_le o c c' = true.

(** A priority queue with handles, as a finite map. *)
Inductive queue_step (o : GNUNET_CONTAINER_HeapOrder) (m : gmap loc (Z * Z))
  : heap_op -> option Z -> gmap loc (Z * Z) -> Prop :=
| qs_insert l e c : m !! l = None -> queue_step o m (OpInsert l e c) None (<[l := (e, c)]> m)
| qs_empty : m = ∅ -> queue_step o m OpRemoveRoot None m
| qs_remove_root l e c : is_first o m l e c -> queue_step o m OpRemoveRoot (Some e) (delete l m)
| qs_remove l random e c : m !! l = Some (e, c) ->
    queue_step o m (OpRemoveNode l random) (Some e) (delete l m)
| qs_update l e c c' : m !! l = Some (e, c) ->
    queue_step o m (OpUpdateCost l c') None (<[l := (e, c')]> m)
| qs_walk_empty random : m = ∅ -> queue_step o m (OpWalk random) None m
| qs_walk random l e c : m !! l = Some (e, c) -> queue_step o m (OpWalk random) (Some e) m.

(** Runs of the queue and of the heap under a client. *)
Inductive queue_run (o : GNUNET_CONTAINER_HeapOrder)
  : gmap loc (Z * Z) -> list (heap_op * option Z) -> gmap loc (Z * Z) -> Prop :=
| qr_refl m : queue_run o m [] m
| qr_step m op r m' tr m'' : queue_step o m op r m' -> queue_run o m' tr m'' ->
    queue_run o m ((op, r) :: tr) m''.

Inductive heap_run : Heap -> list (heap_op * option Z) -> Heap -> Prop :=
| hr_refl h : heap_run h [] h
| hr_step h op r h' tr h'' : op_pre (contents h) op -> exec op h = Some (h', r) ->
    heap_run h' tr h'' -> heap_run h ((op, r) :: tr) h''.

Section Refinement.

(** Every permitted call returns and does what the queue does. *)
Lemma exec_refines h op :
  heap_wf h -> op_pre (contents h) op ->
  exists h' r, exec op h = Some (h', r) /\ heap_wf h'
    /\ queue_step (order h) (contents h) op r (contents h') /\ order h' = order h.
Proof.
  intros Hwf Hpre. assert (enough (2 * count h + 4) h) as Hf by (unfold enough; lia).
  destruct op as [l e c| |l random|l c'|random]; cbn [exec op_pre] in *.
  - assert (nodes h !! l = None) as Hl.
    { unfold contents in Hpre. rewrite lookup_fmap in Hpre. by destruct (nodes h !! l). }
    destruct (insert_ok _ h l e c Hwf Hl Hf) as (h' & -> & Hwf' & Hc & Ho).
    eexists _, _. split_and!; [done|done| |done]. rewrite Hc. by constructor.
  - destruct (remove_root_ok _ h Hwf Hf) as [[Hc ->]|(h' & l & e & c & -> & Hin & Hmin & Hwf' & Hc & Ho)];
      eexists _, _; split_and!; try done; [by apply qs_empty|].
    rewrite Hc. by apply (qs_remove_root _ _ l e c).
  - destruct (remove_node_ok _ random h l Hwf Hpre Hf) as (h' & e & c & -> & Hin & Hwf' & Hc & Ho).
    eexists _, _. split_and!; [done|done| |done]. rewrite Hc. by eapply qs_remove.
  - destruct (update_cost_ok _ h l c' Hwf Hpre Hf) as (h' & e & c & -> & Hin & Hwf' & Hc & Ho).
    eexists _, _. split_and!; [done|done| |done]. rewrite Hc. by eapply qs_update.
  - destruct (walk_ok random h Hwf) as (h' & r & -> & Hwf' & Hn & Ho & Hr).
    eexists _, _. split_and!; [done|done| |done].
    assert (contents h' = contents h) as -> by (unfold contents; by rewrite Hn).
    destruct r as [e|]; [|by constructor]. destruct Hr as (l & c & Hin). by eapply qs_walk.
Qed.

Lemma create_heap_wf o : heap_wf (GNUNET_CONTAINER_heap_create o).
Proof.
  exists E. split; try done.
  - constructor.
  - intros x [nd Hx]. cbn [GNUNET_CONTAINER_heap_create nodes] in Hx. by rewrite lookup_empty in Hx.
Qed.

Lemma run_refines h tr h' :
  heap_run h tr h' -> heap_wf h ->
  heap_wf h' /\ queue_run (order h) (contents h) tr (contents h') /\ order h' = order h.
Proof.
  induction 1 as [h|h op r h1 tr h2 Hpre Hex _ IH]; intros Hwf; [split_and!; try done; constructor|].
  destruct (exec_refines h op Hwf Hpre) as (h1' & r' & E & Hwf1 & Hq & Ho).
  rewrite Hex in E. injection E as <- <-. destruct (IH Hwf1) as (Hwf2 & Hr & Ho2).
  rewrite Ho in Hr, Ho2. split_and!; try done. by econstructor.
Qed.

End Refinement.

(** ** Iteration *)

(** The iterator applied to a list of entries, until it does not say yes. *)
Fixpoint iter_until {A} (it : A -> loc -> Z -> Z -> A * Z) (l : list (loc * (Z * Z))) (cls : A)
  : A * bool :=
  match l with
  | [] => (cls, true)
  | (x, (e, c)) :: l' =>
      let '(cls, r) := it cls x e c in
      if r =? GNUNET_YES then iter_until it l' cls else (cls, false)
  end.

Fixpoint postorder (t : tree) : list (loc * (Z * Z)) :=
  match t with E => [] | N l e c tl tr => postorder tl ++ postorder tr ++ [(l, (e, c))] end.

Section Iteration.

Lemma iter_until_app {A} (it : A -> loc -> Z -> Z -> A * Z) l1 l2 cls :
  iter_until it (l1 ++ l2) cls =
    let '(cls1, go) := iter_until it l1 cls in if go : bool then iter_until it l2 cls1 else (cls1, false).
Proof.
  revert cls. induction l1 as [|[x [e c]] l1 IH]; intros cls; cbn [app iter_until]; [done|].
  destruct (it cls x e c) as [cls1 r]. destruct (r =? GNUNET_YES); [apply IH|done].
Qed.

Lemma postorder_entries t : postorder t ≡ₚ entries t.
Proof.
  induction t as [|l e c tl IHl tr IHr]; [done|]. cbn [postorder entries]. rewrite IHl, IHr.
  solve_Permutation.
Qed.

Lemma node_iterator_spec {A} fuel h par t (it : A -> loc -> Z -> Z -> A * Z) cls :
  rep (nodes h) par t -> (length (locs t) <= fuel)%nat ->
  exists r, node_iterator fuel h (ptr t) it cls = Some ((iter_until it (postorder t) cls).1, r)
    /\ (r =? GNUNET_YES) = (iter_until it (postorder t) cls).2.
Proof.
  revert fuel par cls. induction t as [|l e c tl IHl tr IHr]; intros fuel par cls.
  { intros _ _. exists GNUNET_YES. by destruct fuel. }
  intros (Hn & Hl & Hr) Hfuel. rewrite length_locs in Hfuel. destruct fuel as [|fuel]; [lia|].
  cbn [ptr node_iterator postorder]. unfold get. rewrite Hn. cbn [left_child right_child element cost].
  rewrite !iter_until_app.
  destruct (IHl fuel _ cls Hl ltac:(lia)) as (r1 & -> & ->).
  destruct (iter_until it (postorder tl) cls) as [cls1 [|]]; cbn [fst snd negb]; [|by exists GNUNET_NO].
  rewrite iter_until_app. destruct (IHr fuel _ cls1 Hr ltac:(lia)) as (r2 & -> & ->).
  destruct (iter_until it (postorder tr) cls1) as [cls2 [|]]; cbn [fst snd negb]; [|by exists GNUNET_NO].
  cbn [iter_until]. destruct (it cls2 l e c) as [cls3 r3]. exists r3.
  by destruct (r3 =? GNUNET_YES).
Qed.

End Iteration.

(** ** Theorems *)

Section HeapTheorems.

(** C4. The heap is a priority queue with handles: in any run of a client that
    uses fresh addresses and live handles, the results and the contents are
    those of a finite map from which the root removed is always a first entry;
    and in every state reached the next permitted call returns, so no pointer
    dangles, no assertion fails and no loop runs away, whatever the costs and
    whatever the outcomes of the random walk. *)
Theorem heap_refines_priority_queue (o : GNUNET_CONTAINER_HeapOrder)
  (tr : list (heap_op * option Z)) (h : Heap) :
  heap_run (GNUNET_CONTAINER_heap_create o) tr h ->
  queue_run o ∅ tr (contents h)
  /\ forall op, op_pre (contents h) op -> is_Some (exec op h).
Proof.
  intros Hrun. destruct (run_refines _ _ _ Hrun (create_heap_wf o)) as (Hwf & Hq & _).
  split; [exact Hq|]. intros op Hpre.
  destruct (exec_refines h op Hwf Hpre) as (h' & r & -> & _). by eexists.
Qed.

(** Inspection: [peek] and [peek2] return a first entry of the contents, or
    report an empty heap exactly when there is none; [get_size] is the number of
    entries modulo the width of an [unsigned int]; and [node_get_cost] returns
    the cost a handle was last given. *)
Theorem heap_inspection (o : GNUNET_CONTAINER_HeapOrder) (tr : list (heap_op * option Z)) (h : Heap) :
  heap_run (GNUNET_CONTAINER_heap_create o) tr h ->
  (if decide (contents h = ∅)
   then GNUNET_CONTAINER_heap_peek h = Some None
        /\ GNUNET_CONTAINER_heap_peek2 h = Some (GNUNET_NO, None)
   else exists l e c, is_first o (contents h) l e c
        /\ GNUNET_CONTAINER_heap_peek h = Some (Some e)
        /\ GNUNET_CONTAINER_heap_peek2 h = Some (GNUNET_YES, Some (e, c)))
  /\ GNUNET_CONTAINER_heap_get_size h = u32 (Z.of_nat (count h))
  /\ forall l, GNUNET_CONTAINER_heap_node_get_cost h l = snd <$> contents h !! l.
Proof.
  intros Hrun. destruct (run_refines _ _ _ Hrun (create_heap_wf o)) as ([t Hok] & _ & Ho).
  cbn [GNUNET_CONTAINER_heap_create order] in Ho. pose proof Hok as [Hrep Hroot _ _ Hsz Hord _].
  rewrite Ho in Hord. split_and!.
  - unfold GNUNET_CONTAINER_heap_peek, GNUNET_CONTAINER_heap_peek2. rewrite Hroot.
    destruct t as [|l e c tl tr']; cbn [ptr].
    + rewrite decide_True by apply (contents_entries h E Hok). done.
    + pose proof (proj2 (contents_lookup h _ l (e, c) Hok) ltac:(left)) as Hl.
      rewrite decide_False by (intros E0; by rewrite E0, lookup_empty in Hl).
      destruct Hrep as (Hn & _). unfold get. rewrite Hn. exists l, e, c. split_and!; try done.
      split; [done|]. intros l' e' c' Hin%(contents_lookup h _ _ _ Hok). by eapply ordered_min.
  - unfold GNUNET_CONTAINER_heap_get_size. by rewrite Hsz, tsize_locs, (contents_size h t Hok).
  - intros l. unfold GNUNET_CONTAINER_heap_node_get_cost, get, contents. rewrite lookup_fmap.
    by destruct (nodes h !! l).
Qed.

(** Iteration: [heap_iterate] ends, and calls the iterator on the entries of
    the heap in some order, each exactly once, until it does not return
    [GNUNET_YES]. *)
Theorem heap_iterate_each_once {A : Type} (o : GNUNET_CONTAINER_HeapOrder)
  (tr : list (heap_op * option Z)) (h : Heap) (it : A -> loc -> Z -> Z -> A * Z) (cls : A) :
  heap_run (GNUNET_CONTAINER_heap_create o) tr h ->
  exists l, l ≡ₚ map_to_list (contents h)
  /\ GNUNET_CONTAINER_heap_iterate (count h) h it cls = Some (iter_until it l cls).1.
Proof.
  intros Hrun. destruct (run_refines _ _ _ Hrun (create_heap_wf o)) as ([t Hok] & _ & _).
  exists (postorder t). split.
  - rewrite postorder_entries, (contents_entries h t Hok), map_to_list_to_map; [done|].
    rewrite entries_locs. apply Hok.
  - unfold GNUNET_CONTAINER_heap_iterate. rewrite (ho_root _ _ Hok), (contents_size h t Hok).
    destruct (node_iterator_spec (length (locs t)) h None t it cls (ho_rep _ _ Hok) ltac:(lia))
      as (r & -> & _). done.
Qed.

End HeapTheorems.

(** ** Concrete runs *)

Section Demo.

Definition demo_heap_trace : list (heap_op * option Z) :=
  [(OpInsert 1%positive 10 5, None); (OpInsert 2%positive 20 3, None);
   (OpInsert 3%positive 30 9, None);
   (OpWalk 0, Some 20); (OpUpdateCost 3%positive 1, None); (OpRemoveNode 2%positive 0, Some 20);
   (OpRemoveRoot, Some 30)].

Definition demo_heap : Heap :=
  mk_heap {[ 1%positive := mk_node None None None 10 5 0 ]} (Some 1%positive) (Some 1%positive) 1 ORDER_MIN.

Lemma demo_heap_run : heap_run (GNUNET_CONTAINER_heap_create ORDER_MIN) demo_heap_trace demo_heap.
Proof.
  repeat (eapply hr_step; [vm_compute; first [exact I|reflexivity|eexists; reflexivity]
    |vm_compute; reflexivity|]). apply hr_refl.
Qed.

Lemma heap_refines_priority_queue_witness :
  queue_run ORDER_MIN ∅ demo_heap_trace (contents demo_heap).
Proof. exact (proj1 (heap_refines_priority_queue ORDER_MIN demo_heap_trace demo_heap demo_heap_run)). Defined.

Lemma heap_inspection_witness : GNUNET_CONTAINER_heap_get_size demo_heap = u32 (Z.of_nat (count demo_heap)).
Proof.
  exact (proj1 (proj2 (heap_inspection ORDER_MIN demo_heap_trace demo_heap demo_heap_run))).
Defined.

Lemma heap_iterate_each_once_witness :
  exists l, l ≡ₚ map_to_list (contents demo_heap)
  /\ GNUNET_CONTAINER_heap_iterate (count demo_heap) demo_heap (fun n _ _ c => (n + c, GNUNET_YES)) 0
     = Some (iter_until (fun n _ _ c => (n + c, GNUNET_YES)) l 0).1.
Proof.
  exact (heap_iterate_each_once ORDER_MIN demo_heap_trace demo_heap
    (fun n _ _ c => (n + c, GNUNET_YES)) 0 demo_heap_run).
Defined.

End Demo.
