(* ===== verification/MultiMap.v ===== *)
(** * Hash maps with several values per key: [src/util/container_multihashmap.c],
    [container_multipeermap.c] and [container_multihashmap32.c]

    The three maps are the same program over three key types, which a type
    class abstracts from. Buckets are linked lists of entries with addresses, so
    that cursors and freed entries can be told apart. The two entry layouts (with
    a copy of the key, or with a pointer to a key that outlives the entry)
    behave alike and share one model. Operations return [None] where the C code
    would fail an assertion, divide by zero, overflow an [int] or follow a
    dangling pointer. *)

From S2P Require Import Prelude.
Open Scope Z_scope.

(** ** Keys *)

(** [key_word] is the [unsigned int] at the start of the key. *)
Class MapKey (K : Type) := {
  key_eq :: EqDecision K;
  key_word : K -> Z;
}.

Record GNUNET_HashCode := mk_hash { hash_bytes : list Z }.
Record GNUNET_PeerIdentity := mk_peer { peer_bytes : list Z }.
Record uint32 := mk_u32 { u32_value : Z }.

#[global] Instance HashCode_eq : EqDecision GNUNET_HashCode.
Proof. solve_decision. Defined.
#[global] Instance PeerIdentity_eq : EqDecision GNUNET_PeerIdentity.
Proof. solve_decision. Defined.
#[global] Instance uint32_eq : EqDecision uint32.
Proof. solve_decision. Defined.

#[global] Instance HashCode_key : MapKey GNUNET_HashCode :=
  {| key_word k := le_decode (take 4 (hash_bytes k)) |}.
#[global] Instance PeerIdentity_key : MapKey GNUNET_PeerIdentity :=
  {| key_word k := le_decode (take 4 (peer_bytes k)) |}.
#[global] Instance uint32_key : MapKey uint32 := {| key_word k := u32_value k |}.

Inductive GNUNET_CONTAINER_MultiHashMapOption := REPLACE | MULTIPLE | UNIQUE_ONLY | UNIQUE_FAST.

#[global] Instance MultiHashMapOption_eq : EqDecision GNUNET_CONTAINER_MultiHashMapOption.
Proof. solve_decision. Defined.

(** Increment of an [int]. *)
Definition int_succ (n : Z) : option Z := assert? n <? 2 ^ 31 - 1 in Some (n + 1).

(** ** The map *)

Section MultiMap.
Context {K : Type} `{MapKey K}.

(** [e_addr] is the address of the entry. *)
Record MapEntry := mk_entry { e_addr : positive; e_key : K; e_value : Z }.

Record MultiMap := mk_map {
  buckets : list (list MapEntry);
  mm_size : Z;
  map_length : Z;
  use_small_entries : bool;
  modification_counter : Z;
}.

Definition set_buckets (b : list (list MapEntry)) (m : MultiMap) : MultiMap :=
  mk_map b (mm_size m) (map_length m) (use_small_entries m) (modification_counter m).
Definition set_mm_size (z : Z) (m : MultiMap) : MultiMap :=
  mk_map (buckets m) (u32 z) (map_length m) (use_small_entries m) (modification_counter m).
Definition bump_counter (m : MultiMap) : MultiMap :=
  mk_map (buckets m) (mm_size m) (map_length m) (use_small_entries m)
    (u32 (modification_counter m + 1)).

Definition sizeof_pointer : Z := 8.

Definition multimap_create (len : Z) (do_not_copy_keys : bool) : option MultiMap :=
  assert? 0 <? len in
  assert? len * sizeof_pointer <=? GNUNET_MAX_MALLOC_CHECKED in
  Some (mk_map (replicate (Z.to_nat len) []) 0 len do_not_copy_keys 0).

(** The addresses freed, in order. *)
Definition multimap_destroy (m : MultiMap) : list positive := e_addr <$> concat (buckets m).

Definition idx_of (m : MultiMap) (key : K) : option nat :=
  assert? negb (map_length m =? 0) in Some (Z.to_nat (key_word key mod map_length m)).

Definition multimap_size (m : MultiMap) : Z := mm_size m.

(** The entries of the bucket of a key. *)
Definition bucket (m : MultiMap) (key : K) : option (list MapEntry) :=
  let? i := idx_of m key in buckets m !! i.

Definition has_key (key : K) (e : MapEntry) : bool := bool_decide (key = e_key e).
Definition has_pair (key : K) (value : Z) (e : MapEntry) : bool :=
  has_key key e && (value =? e_value e).

(** Loop over a bucket until an entry satisfies the test. *)
Fixpoint scan (test : MapEntry -> bool) (l : list MapEntry) : option MapEntry :=
  match l with
  | [] => None
  | e :: l' => if test e then Some e else scan test l'
  end.

(** The value, or nothing for the null pointer. *)
Definition multimap_get (m : MultiMap) (key : K) : option (option Z) :=
  let? l := bucket m key in Some (e_value <$> scan (has_key key) l).

Definition multimap_contains (m : MultiMap) (key : K) : option Z :=
  let? l := bucket m key in
  Some (match scan (has_key key) l with Some _ => GNUNET_YES | None => GNUNET_NO end).

Definition multimap_contains_value (m : MultiMap) (key : K) (value : Z) : option Z :=
  let? l := bucket m key in
  Some (match scan (has_pair key value) l with Some _ => GNUNET_YES | None => GNUNET_NO end).

(** An iterator is a function of its closure; [None] is a null pointer. The
    result is the closure and the count, or [GNUNET_SYSERR]. *)
Fixpoint iterate_list {A} (it : option (A -> K -> Z -> A * Z)) (l : list MapEntry)
  (cls : A) (count : Z) : option (A * Z) :=
  match l with
  | [] => Some (cls, count)
  | e :: l' =>
      let '(cls, r) :=
        match it with Some f => f cls (e_key e) (e_value e) | None => (cls, GNUNET_OK) end in
      if negb (GNUNET_OK =? r) then Some (cls, GNUNET_SYSERR)
      else let? count := int_succ count in iterate_list it l' cls count
  end.

Fixpoint iterate_buckets {A} (it : option (A -> K -> Z -> A * Z)) (bs : list (list MapEntry))
  (cls : A) (count : Z) : option (A * Z) :=
  match bs with
  | [] => Some (cls, count)
  | l :: bs' =>
      let? (cls, count) := iterate_list it l cls count in
      if count =? GNUNET_SYSERR then Some (cls, GNUNET_SYSERR)
      else iterate_buckets it bs' cls count
  end.

Definition multimap_iterate {A} (m : MultiMap) (it : option (A -> K -> Z -> A * Z)) (cls : A)
  : option (A * Z) := iterate_buckets it (buckets m) cls 0.

(** The loop over a bucket that skips the other keys. *)
Fixpoint iterate_key {A} (key : K) (it : option (A -> K -> Z -> A * Z)) (l : list MapEntry)
  (cls : A) (count : Z) : option (A * Z) :=
  match l with
  | [] => Some (cls, count)
  | e :: l' =>
      if negb (has_key key e) then iterate_key key it l' cls count
      else
        let '(cls, r) :=
          match it with Some f => f cls key (e_value e) | None => (cls, GNUNET_OK) end in
        if negb (GNUNET_OK =? r) then Some (cls, GNUNET_SYSERR)
        else let? count := int_succ count in iterate_key key it l' cls count
  end.

Definition multimap_get_multiple {A} (m : MultiMap) (key : K) (it : option (A -> K -> Z -> A * Z))
  (cls : A) : option (A * Z) :=
  let? l := bucket m key in iterate_key key it l cls 0.

(** Unlinks the first entry that satisfies the test. *)
Fixpoint unlink_first (test : MapEntry -> bool) (l : list MapEntry) : option (list MapEntry) :=
  match l with
  | [] => None
  | e :: l' => if test e then Some l' else let? l'' := unlink_first test l' in Some (e :: l'')
  end.

Definition multimap_remove (m : MultiMap) (key : K) (value : Z) : option (MultiMap * Z) :=
  let m := bump_counter m in
  let? i := idx_of m key in
  let? l := buckets m !! i in
  match unlink_first (has_pair key value) l with
  | Some l' => Some (set_mm_size (mm_size m - 1) (set_buckets (<[i := l']> (buckets m)) m), GNUNET_YES)
  | None => Some (m, GNUNET_NO)
  end.

(** The loop of [remove_all]: entries kept, new size and number removed. *)
Fixpoint unlink_all (key : K) (l : list MapEntry) (sz ret : Z) : option (list MapEntry * Z * Z) :=
  match l with
  | [] => Some ([], sz, ret)
  | e :: l' =>
      if has_key key e then
        let? ret := int_succ ret in unlink_all key l' (u32 (sz - 1)) ret
      else
        let? (l'', sz, ret) := unlink_all key l' sz ret in Some (e :: l'', sz, ret)
  end.

Definition multimap_remove_all (m : MultiMap) (key : K) : option (MultiMap * Z) :=
  let m := bump_counter m in
  let? i := idx_of m key in
  let? l := buckets m !! i in
  let? (l', sz, ret) := unlink_all key l (mm_size m) 0 in
  Some (set_mm_size sz (set_buckets (<[i := l']> (buckets m)) m), ret).

(** [iterate] with the callback [remove_all]: the entries of a bucket are
    visited along the links as they were; the entry visited must be alive. *)
Fixpoint clear_bucket (i : nat) (l : list MapEntry) (m : MultiMap) (count : Z)
  : option (MultiMap * Z) :=
  match l with
  | [] => Some (m, count)
  | e :: l' =>
      let? now := buckets m !! i in
      assert? bool_decide (e_addr e ∈ e_addr <$> now) in
      let? (m, _) := multimap_remove m (e_key e) (e_value e) in
      let? count := int_succ count in
      clear_bucket i l' m count
  end.

Fixpoint clear_buckets (n i : nat) (m : MultiMap) (count : Z) : option (MultiMap * Z) :=
  match n with
  | O => Some (m, count)
  | S n' =>
      let? l := buckets m !! i in
      let? (m, count) := clear_bucket i l m count in
      clear_buckets n' (S i) m count
  end.

Definition multimap_clear (m : MultiMap) : option (MultiMap * Z) :=
  let ret := mm_size m in
  let? (m, _) := clear_buckets (Z.to_nat (map_length m)) 0 m 0 in
  Some (m, ret).

(** Moves the entries of a bucket, from the head on, to the front of their
    new buckets. *)
Fixpoint rehash (len : Z) (l : list MapEntry) (bs : list (list MapEntry))
  : option (list (list MapEntry)) :=
  match l with
  | [] => Some bs
  | e :: l' =>
      assert? negb (len =? 0) in
      let idx := Z.to_nat (key_word (e_key e) mod len) in
      let? b := bs !! idx in
      rehash len l' (<[idx := e :: b]> bs)
  end.

Definition grow (m : MultiMap) : option MultiMap :=
  let m := bump_counter m in
  let new_len := u32 (map_length m * 2) in
  assert? sizeof_pointer * new_len <=? GNUNET_MAX_MALLOC_CHECKED in
  let? bs := rehash new_len (concat (buckets m)) (replicate (Z.to_nat new_len) []) in
  Some (mk_map bs (mm_size m) new_len (use_small_entries m) (modification_counter m)).

(** Replaces the value of the first entry with the key. *)
Fixpoint replace_first (key : K) (value : Z) (l : list MapEntry) : list MapEntry :=
  match l with
  | [] => []
  | e :: l' =>
      if has_key key e then mk_entry (e_addr e) (e_key e) value :: l'
      else e :: replace_first key value l'
  end.

(** [addr] is the address of the new entry, if one is made. *)
Definition multimap_put (addr : positive) (m : MultiMap) (key : K) (value : Z)
  (opt : GNUNET_CONTAINER_MultiHashMapOption) : option (MultiMap * Z) :=
  let? i := idx_of m key in
  let? l := buckets m !! i in
  let search := negb (bool_decide (opt = MULTIPLE)) && negb (bool_decide (opt = UNIQUE_FAST)) in
  if search && match scan (has_key key) l with Some _ => true | None => false end then
    if bool_decide (opt = UNIQUE_ONLY) then Some (m, GNUNET_SYSERR)
    else Some (set_buckets (<[i := replace_first key value l]> (buckets m)) m, GNUNET_NO)
  else
    let? m := if map_length m / 4 <=? mm_size m / 3 then grow m else Some m in
    let? i := idx_of m key in
    let? l := buckets m !! i in
    Some (set_mm_size (mm_size m + 1)
            (set_buckets (<[i := mk_entry addr key value :: l]> (buckets m)) m), GNUNET_OK).

(** [off] is what the random number generator returns for [map->size]. *)
Definition multimap_get_random {A} (off : Z) (m : MultiMap) (it : option (A -> K -> Z -> A * Z))
  (cls : A) : A * Z :=
  if 0 =? mm_size m then (cls, 0)
  else
    match it with
    | None => (cls, 1)
    | Some f =>
        match concat (buckets m) !! Z.to_nat off with
        | Some e =>
            let '(cls, r) := f cls (e_key e) (e_value e) in
            (cls, if negb (GNUNET_OK =? r) then u32 GNUNET_SYSERR else 1)
        | None => (cls, u32 GNUNET_SYSERR)
        end
    end.

(** ** Cursors *)

(** [it_me] is the address of the current entry, if there is one. *)
Record MultiMapIterator := mk_iter {
  it_me : option positive;
  it_idx : Z;
  it_modification_counter : Z;
}.

Definition head_addr (l : list MapEntry) : option positive := e_addr <$> head l.

Definition multimap_iterator_create (m : MultiMap) : option MultiMapIterator :=
  let? l := buckets m !! 0%nat in
  Some (mk_iter (head_addr l) 0 (modification_counter m)).

(** The entry at an address of the bucket, and the address of its successor. *)
Fixpoint deref (a : positive) (l : list MapEntry) : option (MapEntry * option positive) :=
  match l with
  | [] => None
  | e :: l' => if bool_decide (e_addr e = a) then Some (e, head_addr l') else deref a l'
  end.

Fixpoint next_loop (fuel : nat) (m : MultiMap) (it : MultiMapIterator)
  : option (MultiMapIterator * option (K * Z)) :=
  match fuel with
  | O => None
  | S fuel' =>
      if map_length m <=? it_idx it then Some (it, None)
      else
        match it_me it with
        | Some a =>
            let? l := buckets m !! Z.to_nat (it_idx it) in
            let? (e, nxt) := deref a l in
            Some (mk_iter nxt (it_idx it) (it_modification_counter it), Some (e_key e, e_value e))
        | None =>
            let idx := u32 (it_idx it + 1) in
            let? me :=
              if idx <? map_length m then head_addr <$> buckets m !! Z.to_nat idx
              else Some (it_me it) in
            next_loop fuel' m (mk_iter me idx (it_modification_counter it))
        end
  end.

(** Every iteration but the last moves to the next bucket. *)
Definition multimap_iterator_next (m : MultiMap) (it : MultiMapIterator)
  : option (MultiMapIterator * option (K * Z)) :=
  assert? it_modification_counter it =? modification_counter m in
  next_loop (S (Z.to_nat (map_length m - it_idx it))) m it.

End MultiMap.
Arguments MapEntry : clear implicits.
Arguments MultiMap : clear implicits.

(** ** Invariant *)

Section Invariant.
Context {K : Type} `{MapKey K}.
Implicit Types (m : MultiMap K) (l : list (MapEntry K)) (e : MapEntry K).

Definition entries (m : MultiMap K) : list (MapEntry K) := concat (buckets m).
Definition pair (e : MapEntry K) : K * Z := (e_key e, e_value e).

(** The key-value pairs of the map. *)
Definition bag (m : MultiMap K) : list (K * Z) := pair <$> entries m.

(** Every entry is in the bucket of its key. *)
Record map_wf (m : MultiMap K) : Prop := {
  mw_len : Z.of_nat (length (buckets m)) = map_length m;
  mw_pos : 0 < map_length m < 2 ^ 32;
  mw_place : forall i l e, buckets m !! i = Some l -> e ∈ l ->
    Z.of_nat i = key_word (e_key e) mod map_length m;
  mw_addr : NoDup (e_addr <$> entries m);
  mw_size : mm_size m = Z.of_nat (length (entries m));
  mw_counter : is_u32 (modification_counter m);
}.

(** Fewer entries than this, and no counter overflows and the table is never larger than
    what [GNUNET_malloc] permits, 5242880 buckets. *)
Definition capacity : Z := 1966080.

Lemma elem_of_concat {A} (x : A) (ls : list (list A)) :
  x ∈ concat ls <-> exists y, y ∈ ls /\ x ∈ y.
Proof. rewrite list_elem_of_In, in_concat. by setoid_rewrite list_elem_of_In. Qed.

Lemma concat_split (bs : list (list (MapEntry K))) i l :
  bs !! i = Some l ->
  concat bs ≡ₚ l ++ concat (delete i bs)
  /\ forall l', concat (<[i := l']> bs) ≡ₚ l' ++ concat (delete i bs).
Proof.
  revert i. induction bs as [|b bs IH]; intros [|i]; try done; cbn.
  - intros [= ->]. done.
  - intros Hi. destruct (IH i Hi) as [E1 E2]. split; [rewrite E1|intros l'; rewrite E2];
      solve_Permutation.
Qed.

Lemma idx_of_spec m k :
  map_wf m -> exists i l, idx_of m k = Some i /\ buckets m !! i = Some l
    /\ bucket m k = Some l /\ Z.of_nat i = key_word k mod map_length m.
Proof.
  intros Hw. unfold bucket, idx_of. pose proof (mw_pos m Hw) as Hp. pose proof (mw_len m Hw) as Hl.
  destruct (Z.eqb_spec (map_length m) 0); [lia|]. cbn [negb].
  pose proof (Z.mod_pos_bound (key_word k) (map_length m) ltac:(lia)) as Hm.
  destruct (lookup_lt_is_Some_2 (buckets m) (Z.to_nat (key_word k mod map_length m))) as [l Hi]; [lia|].
  eexists _, l. rewrite Hi. split_and!; try done. lia.
Qed.

(** The bucket of a key holds all its entries. *)
Lemma split_bucket m k :
  map_wf m -> exists i l rest, idx_of m k = Some i /\ buckets m !! i = Some l
    /\ bucket m k = Some l /\ Z.of_nat i = key_word k mod map_length m
    /\ entries m ≡ₚ l ++ rest /\ (forall e, e ∈ rest -> e_key e <> k)
    /\ (forall l', concat (<[i := l']> (buckets m)) ≡ₚ l' ++ rest).
Proof.
  intros Hw. destruct (idx_of_spec m k Hw) as (i & l & Ei & Hi & Hb & Hk).
  destruct (concat_split (buckets m) i l Hi) as [E1 E2].
  exists i, l, (concat (delete i (buckets m))). split_and!; try done.
  intros e He Hek. apply elem_of_concat in He as (b & Hb' & Heb).
  apply list_elem_of_lookup in Hb' as [j Hj].
  destruct (decide (j < i)%nat) as [Hlt|Hge].
  - rewrite list_lookup_delete_lt in Hj by lia. pose proof (mw_place m Hw j b e Hj Heb). rewrite Hek in *. lia.
  - rewrite list_lookup_delete_ge in Hj by lia. pose proof (mw_place m Hw (S j) b e Hj Heb).
    rewrite Hek in *. lia.
Qed.

(** Exchanging one bucket. *)
Lemma update_wf m i l l' rest sz :
  map_wf m -> buckets m !! i = Some l -> entries m ≡ₚ l ++ rest ->
  concat (<[i := l']> (buckets m)) ≡ₚ l' ++ rest ->
  (forall e, e ∈ l' -> Z.of_nat i = key_word (e_key e) mod map_length m) ->
  NoDup (e_addr <$> l' ++ rest) -> Z.of_nat (length (l' ++ rest)) < 2 ^ 32 ->
  u32 sz = Z.of_nat (length (l' ++ rest)) ->
  map_wf (set_mm_size sz (set_buckets (<[i := l']> (buckets m)) m)).
Proof.
  intros Hw Hi He Hc Hp Hnd Hlt Hsz. split; unfold entries in *;
    cbn [set_mm_size set_buckets buckets map_length mm_size modification_counter]; try apply Hw.
  - rewrite length_insert. apply Hw.
  - intros j b e Hj Heb. destruct (decide (i = j)) as [->|Hne].
    + rewrite list_lookup_insert_eq in Hj by (by eapply lookup_lt_Some). injection Hj as <-. by apply Hp.
    + rewrite list_lookup_insert_ne in Hj by done. by eapply (mw_place m Hw).
  - by rewrite Hc.
  - by rewrite Hc.
Qed.

(** *** The loops *)

Lemma has_key_spec k e : has_key k e = true <-> e_key e = k.
Proof. unfold has_key. rewrite bool_decide_eq_true. split; congruence. Qed.

Lemma has_pair_spec k v e : has_pair k v e = true <-> pair e = (k, v).
Proof.
  unfold has_pair, pair. rewrite andb_true_iff, has_key_spec, Z.eqb_eq. split; [intros [-> ->]|intros [= -> ->]]; done.
Qed.

Lemma scan_spec test l :
  match scan test l with
  | Some e => e ∈ l /\ test e = true
  | None => forall e, e ∈ l -> test e = false
  end.
Proof.
  induction l as [|e l IH]; cbn [scan]; [by intros ? ?%not_elem_of_nil|].
  destruct (test e) eqn:E; [split; [left|done]|]. destruct (scan test l).
  - destruct IH. split; [by right|done].
  - intros e' [->|He]%elem_of_cons; auto.
Qed.

Lemma unlink_first_spec test l :
  match unlink_first test l with
  | Some l' => exists e, test e = true /\ l ≡ₚ e :: l'
  | None => forall e, e ∈ l -> test e = false
  end.
Proof.
  induction l as [|e l IH]; cbn [unlink_first]; [by intros ? ?%not_elem_of_nil|].
  destruct (test e) eqn:E; [by exists e|]. destruct (unlink_first test l).
  - destruct IH as (e' & He' & Hl). exists e'. split; [done|]. rewrite Hl. solve_Permutation.
  - intros e' [->|He]%elem_of_cons; auto.
Qed.

Lemma unlink_all_spec k l sz ret :
  let c := Z.of_nat (length (filter (fun e => e_key e = k) l)) in
  c <= sz < 2 ^ 32 -> 0 <= ret -> ret + c <= 2 ^ 31 - 1 ->
  unlink_all k l sz ret = Some (filter (fun e => e_key e <> k) l, sz - c, ret + c).
Proof.
  revert sz ret. induction l as [|e l IH]; intros sz ret; cbn [unlink_all].
  { cbn. intros. by rewrite Z.sub_0_r, Z.add_0_r. }
  destruct (has_key k e) eqn:Ek.
  - apply has_key_spec in Ek. rewrite (filter_cons_True (fun e => e_key e = k)), (filter_cons_False (fun e => e_key e <> k)) by naive_solver.
    cbn [length]. intros Hc Hr Hm. unfold int_succ. destruct (Z.ltb_spec ret (2 ^ 31 - 1)); [|lia].
    rewrite u32_small by words. rewrite IH by lia. do 2 f_equal; [f_equal|]; lia.
  - assert (e_key e <> k) as Hne by (intros He%has_key_spec; congruence).
    rewrite (filter_cons_False (fun e => e_key e = k)), (filter_cons_True (fun e => e_key e <> k)) by done. intros Hc Hr Hm.
    by rewrite IH.
Qed.

Lemma replace_first_spec k v l e :
  scan (has_key k) l = Some e ->
  exists e0 R, e_key e0 = k /\ l ≡ₚ e0 :: R
    /\ replace_first k v l ≡ₚ mk_entry (e_addr e0) (e_key e0) v :: R.
Proof.
  revert e. induction l as [|e' l IH]; intros e; cbn [scan replace_first]; [done|].
  destruct (has_key k e') eqn:Ek.
  - intros [= <-]. exists e', l. by apply has_key_spec in Ek.
  - intros (e0 & R & Hk & H1 & H2)%IH. exists e0, (e' :: R).
    split_and!; [done|rewrite H1; solve_Permutation|rewrite H2; solve_Permutation].
Qed.

Definition placed (len : Z) (bs : list (list (MapEntry K))) : Prop :=
  forall i l e, bs !! i = Some l -> e ∈ l -> Z.of_nat i = key_word (e_key e) mod len.

Lemma rehash_spec len l bs :
  0 < len -> Z.of_nat (length bs) = len -> placed len bs ->
  exists bs', rehash len l bs = Some bs' /\ length bs' = length bs /\ placed len bs'
    /\ concat bs' ≡ₚ l ++ concat bs.
Proof.
  intros Hlen. revert bs. induction l as [|e l IH]; intros bs Hl Hp; cbn [rehash]; [by exists bs|].
  destruct (Z.eqb_spec len 0); [lia|]. cbn [negb].
  pose proof (Z.mod_pos_bound (key_word (e_key e)) len ltac:(lia)) as Hm.
  set (i := Z.to_nat _). destruct (lookup_lt_is_Some_2 bs i) as [b Hi]; [lia|]. rewrite Hi.
  destruct (IH (<[i := e :: b]> bs)) as (bs' & -> & Hl' & Hp' & Hc').
  - by rewrite length_insert.
  - intros j b' e' Hj He'. destruct (decide (i = j)) as [<-|Hne].
    + rewrite list_lookup_insert_eq in Hj by (by eapply lookup_lt_Some). injection Hj as <-.
      apply elem_of_cons in He' as [->|He']; [lia|by eapply Hp].
    + rewrite list_lookup_insert_ne in Hj by done. by eapply Hp.
  - exists bs'. rewrite length_insert in Hl'. split_and!; try done. rewrite Hc'.
    destruct (concat_split bs i b Hi) as [E1 E2]. rewrite E1, E2. solve_Permutation.
Qed.

Lemma grow_spec m :
  map_wf m -> map_length m <= 2621440 ->
  exists m', grow m = Some m' /\ map_wf m' /\ entries m' ≡ₚ entries m
    /\ mm_size m' = mm_size m /\ modification_counter m' = u32 (modification_counter m + 1).
Proof.
  intros Hw Hlt. pose proof (mw_pos m Hw) as Hpos. unfold grow.
  cbn [bump_counter map_length buckets]. rewrite u32_small by words.
  rewrite (proj2 (Z.leb_le _ _)) by (unfold sizeof_pointer, GNUNET_MAX_MALLOC_CHECKED; lia).
  destruct (rehash_spec (map_length m * 2) (entries m) (replicate (Z.to_nat (map_length m * 2)) []))
    as (bs & E & Hl & Hp & Hc); [lia|rewrite length_replicate; lia| |].
  { intros i l e Hi He. apply lookup_replicate in Hi as [-> _]. by apply not_elem_of_nil in He. }
  unfold entries in E. rewrite E. eexists. split; [reflexivity|].
  assert (concat bs ≡ₚ entries m) as Hc'.
  { rewrite Hc. replace (concat (replicate _ [])) with (@nil (MapEntry K)); [by rewrite app_nil_r|].
    symmetry. generalize (Z.to_nat (map_length m * 2)). intros n0. by induction n0. }
  rewrite length_replicate in Hl.
  split_and!; try done. split; unfold entries in *; cbn [buckets map_length mm_size modification_counter bump_counter].
  - lia.
  - lia.
  - done.
  - rewrite Hc'. apply Hw.
  - rewrite (mw_size m Hw). unfold entries. by rewrite Hc'.
  - apply u32_range.
Qed.

End Invariant.

(** ** The map as a bag of pairs *)

Section Bag.
Context {K : Type} `{MapKey K}.
Implicit Types (m : MultiMap K) (k : K) (v : Z) (rest : list (MapEntry K)) (e : MapEntry K).

Inductive mm_op :=
| OpPut (addr : positive) (k : K) (v : Z) (opt : GNUNET_CONTAINER_MultiHashMapOption)
| OpRemove (k : K) (v : Z)
| OpRemoveAll (k : K)
| OpClear
| OpGet (k : K)
| OpContains (k : K)
| OpContainsValue (k : K) (v : Z)
| OpSize.

(** Results: a code or a number, or a value that may be null. *)
Inductive mm_res := RCode (z : Z) | RValue (v : option Z).

Definition exec (op : mm_op) (m : MultiMap K) : option (MultiMap K * mm_res) :=
  match op with
  | OpPut a k v opt => let? (m', r) := multimap_put a m k v opt in Some (m', RCode r)
  | OpRemove k v => let? (m', r) := multimap_remove m k v in Some (m', RCode r)
  | OpRemoveAll k => let? (m', r) := multimap_remove_all m k in Some (m', RCode r)
  | OpClear => let? (m', r) := multimap_clear m in Some (m', RCode r)
  | OpGet k => let? r := multimap_get m k in Some (m, RValue r)
  | OpContains k => let? r := multimap_contains m k in Some (m, RCode r)
  | OpContainsValue k v => let? r := multimap_contains_value m k v in Some (m, RCode r)
  | OpSize => Some (m, RCode (multimap_size m))
  end.

(** The address of a new entry is not in use. *)
Definition op_pre (m : MultiMap K) (op : mm_op) : Prop :=
  match op with OpPut a _ _ _ => a ∉ e_addr <$> entries m | _ => True end.

(** What the operations do to a bag of pairs. *)
Definition bag_add (k : K) (v : Z) (B : list (K * Z)) (r : mm_res) (B' : list (K * Z)) : Prop :=
  r = RCode GNUNET_OK /\ B' ≡ₚ (k, v) :: B.

Definition bag_spec (op : mm_op) (B : list (K * Z)) (r : mm_res) (B' : list (K * Z)) : Prop :=
  match op with
  | OpPut _ k v MULTIPLE | OpPut _ k v UNIQUE_FAST => bag_add k v B r B'
  | OpPut _ k v UNIQUE_ONLY =>
      if decide (k ∈ B.*1) then r = RCode GNUNET_SYSERR /\ B' ≡ₚ B else bag_add k v B r B'
  | OpPut _ k v REPLACE =>
      if decide (k ∈ B.*1)
      then r = RCode GNUNET_NO /\ exists v0 R, B ≡ₚ (k, v0) :: R /\ B' ≡ₚ (k, v) :: R
      else bag_add k v B r B'
  | OpRemove k v =>
      if decide ((k, v) ∈ B) then r = RCode GNUNET_YES /\ B ≡ₚ (k, v) :: B'
      else r = RCode GNUNET_NO /\ B' ≡ₚ B
  | OpRemoveAll k =>
      r = RCode (Z.of_nat (length (filter (fun p => p.1 = k) B)))
      /\ B' ≡ₚ filter (fun p => p.1 <> k) B
  | OpClear => r = RCode (Z.of_nat (length B)) /\ B' = []
  | OpGet k =>
      B' = B /\ ((r = RValue None /\ (k ∉ B.*1)) \/ exists v, r = RValue (Some v) /\ (k, v) ∈ B)
  | OpContains k => B' = B /\ r = RCode (if decide (k ∈ B.*1) then GNUNET_YES else GNUNET_NO)
  | OpContainsValue k v =>
      B' = B /\ r = RCode (if decide ((k, v) ∈ B) then GNUNET_YES else GNUNET_NO)
  | OpSize => B' = B /\ r = RCode (Z.of_nat (length B))
  end.

(** What is found in the bucket of a key is what the bag has for it. *)
Lemma scan_key m k l rest :
  entries m ≡ₚ l ++ rest -> (forall e, e ∈ rest -> e_key e <> k) ->
  match scan (has_key k) l with
  | Some e => (k, e_value e) ∈ bag m
  | None => k ∉ (bag m).*1
  end.
Proof.
  intros He Hr. pose proof (scan_spec (has_key k) l) as Hs. destruct (scan (has_key k) l) as [e|].
  - destruct Hs as [Hin <-%has_key_spec]. unfold bag. apply (list_elem_of_fmap_2 pair).
    rewrite He, elem_of_app. by left.
  - intros Hin. unfold bag in Hin. rewrite <- list_fmap_compose in Hin.
    apply list_elem_of_fmap in Hin as (e & -> & Hin). rewrite He, elem_of_app in Hin.
    destruct Hin as [Hin|Hin]; [|by apply (Hr e)]. apply Hs in Hin.
    exact (eq_true_false_abs _ (proj2 (has_key_spec (e_key e) e) eq_refl) Hin).
Qed.

Lemma scan_pair m k v l rest :
  entries m ≡ₚ l ++ rest -> (forall e, e ∈ rest -> e_key e <> k) ->
  match scan (has_pair k v) l with
  | Some _ => (k, v) ∈ bag m
  | None => (k, v) ∉ bag m
  end.
Proof.
  intros He Hr. pose proof (scan_spec (has_pair k v) l) as Hs. destruct (scan (has_pair k v) l) as [e|].
  - destruct Hs as [Hin <-%has_pair_spec]. unfold bag. apply (list_elem_of_fmap_2 pair).
    rewrite He, elem_of_app. by left.
  - unfold bag. intros (e & Hp & Hin)%list_elem_of_fmap. rewrite He, elem_of_app in Hin.
    destruct Hin as [Hin|Hin]; [|apply (Hr e Hin); by injection Hp]. apply Hs in Hin.
    by rewrite (proj2 (has_pair_spec _ _ _) (eq_sym Hp)) in Hin.
Qed.

Lemma elem_of_keys k v (B : list (K * Z)) : (k, v) ∈ B -> k ∈ B.*1.
Proof. apply (list_elem_of_fmap_2 fst B (k, v)). Qed.

Lemma length_bag m : length (bag m) = length (entries m).
Proof. apply length_fmap. Qed.

(** Queries. *)
Lemma query_spec m op :
  map_wf m ->
  match op with OpGet _ | OpContains _ | OpContainsValue _ _ | OpSize => True | _ => False end ->
  exists r, exec op m = Some (m, r) /\ bag_spec op (bag m) r (bag m).
Proof.
  intros Hw Hop. destruct op as [| | | |k|k|k v|]; try done; cbn [exec bag_spec].
  1-3: destruct (split_bucket m k Hw) as (i & l & rest & _ & _ & Hb & _ & He & Hr & _).
  - unfold multimap_get. rewrite Hb. pose proof (scan_key m k l rest He Hr) as Hs.
    destruct (scan (has_key k) l) as [e|]; cbn; eexists; (split; [done|]; split; [done|]); eauto.
  - unfold multimap_contains. rewrite Hb. pose proof (scan_key m k l rest He Hr) as Hs.
    eexists. split; [done|]. split; [done|]. destruct (scan (has_key k) l) as [e|].
    + rewrite decide_True; [done|]. by eapply elem_of_keys.
    + by rewrite decide_False.
  - unfold multimap_contains_value. rewrite Hb. pose proof (scan_pair m k v l rest He Hr) as Hs.
    eexists. split; [done|]. split; [done|]. destruct (scan (has_pair k v) l) as [e|].
    + by rewrite decide_True.
    + by rewrite decide_False.
  - eexists. split; [done|]. split; [done|]. unfold multimap_size. by rewrite (mw_size m Hw), length_bag.
Qed.

Lemma bump_wf m : map_wf m -> map_wf (bump_counter m).
Proof. intros []. split; try done. apply u32_range. Qed.

Lemma pair_perm m l rest : entries m ≡ₚ l ++ rest -> bag m ≡ₚ (pair <$> l) ++ (pair <$> rest).
Proof. intros He. unfold bag. by rewrite He, fmap_app. Qed.

Lemma set_bag i l' rest sz m :
  concat (<[i := l']> (buckets m)) ≡ₚ l' ++ rest ->
  bag (set_mm_size sz (set_buckets (<[i := l']> (buckets m)) m)) ≡ₚ (pair <$> l') ++ (pair <$> rest).
Proof. intros Hc. by apply pair_perm. Qed.

(** The entries of a bucket stay in it. *)
Lemma sub_placed m i (l l' : list (MapEntry K)) :
  map_wf m -> buckets m !! i = Some l -> (forall e, e ∈ l' -> e ∈ l) ->
  forall e, e ∈ l' -> Z.of_nat i = key_word (e_key e) mod map_length m.
Proof. intros Hw Hi Hsub e He. eapply (mw_place m Hw); [done|]. by apply Hsub. Qed.

Lemma entries_small m l rest :
  map_wf m -> Z.of_nat (length (entries m)) < capacity -> entries m ≡ₚ l ++ rest ->
  mm_size m = Z.of_nat (length l) + Z.of_nat (length rest) /\ mm_size m < 1966080
  /\ NoDup (e_addr <$> l ++ rest).
Proof.
  intros Hw Hc He. pose proof (mw_addr m Hw) as Hnd. rewrite (mw_size m Hw). unfold capacity in Hc.
  rewrite He in *. rewrite length_app in *. split_and!; [lia|lia|done].
Qed.

Lemma remove_spec m k v :
  map_wf m -> Z.of_nat (length (entries m)) < capacity ->
  exists m' r, exec (OpRemove k v) m = Some (m', r) /\ map_wf m'
    /\ bag_spec (OpRemove k v) (bag m) r (bag m').
Proof.
  intros Hw Hcap. pose proof (bump_wf m Hw) as Hw1. set (m1 := bump_counter m) in *.
  destruct (split_bucket m1 k Hw1) as (i & l & rest & Hi & Hl & _ & _ & He & Hr & Hc).
  cbn [exec]. unfold multimap_remove. fold m1. rewrite Hi, Hl.
  change (entries m1) with (entries m) in He. pose proof (pair_perm m l rest He) as Hbag.
  destruct (entries_small m1 l rest Hw1 Hcap He) as (Hs & Hlt & Hnd).
  pose proof (unlink_first_spec (has_pair k v) l) as Hu.
  destruct (unlink_first (has_pair k v) l) as [l'|]; (eexists _, _; split; [reflexivity|]).
  - destruct Hu as (e & Hek%has_pair_spec & Hl'). rewrite Hl' in Hs, Hnd, Hbag. cbn [length] in Hs. split.
    + eapply update_wf; try done.
      * eapply sub_placed; [done|done|]. intros e' He'. rewrite Hl'. by right.
      * cbn [app] in Hnd. rewrite fmap_cons in Hnd. by apply NoDup_cons in Hnd as [_ Hnd].
      * rewrite length_app. lia.
      * rewrite u32_small, length_app by words. lia.
    + cbn [bag_spec]. rewrite fmap_cons, Hek in Hbag. rewrite decide_True by (rewrite Hbag; left).
      split; [done|]. by rewrite (set_bag i l' rest), Hbag.
  - split; [done|]. cbn [bag_spec]. rewrite decide_False; [done|].
    unfold bag. intros (e & Hp & Hin)%list_elem_of_fmap. rewrite He, elem_of_app in Hin.
    destruct Hin as [Hin|Hin]; [|apply (Hr e Hin); by injection Hp].
    apply Hu in Hin. by rewrite (proj2 (has_pair_spec _ _ _) (eq_sym Hp)) in Hin.
Qed.

Lemma filter_pair k (l : list (MapEntry K)) :
  filter (fun p : K * Z => p.1 = k) (pair <$> l) = pair <$> filter (fun e => e_key e = k) l
  /\ filter (fun p : K * Z => p.1 <> k) (pair <$> l) = pair <$> filter (fun e => e_key e <> k) l.
Proof.
  induction l as [|e l [IH1 IH2]]; [done|]. rewrite fmap_cons. destruct (decide (e_key e = k)) as [Hk|Hk].
  - rewrite (filter_cons_True (fun p => p.1 = k)), (filter_cons_False (fun p => p.1 <> k)) by (cbn; naive_solver).
    rewrite (filter_cons_True (fun e => e_key e = k)), (filter_cons_False (fun e => e_key e <> k)) by naive_solver.
    by rewrite fmap_cons, IH1.
  - rewrite (filter_cons_False (fun p => p.1 = k)), (filter_cons_True (fun p => p.1 <> k)) by done.
    rewrite (filter_cons_False (fun e => e_key e = k)), (filter_cons_True (fun e => e_key e <> k)) by done.
    by rewrite fmap_cons, IH2.
Qed.

Lemma remove_all_spec m k :
  map_wf m -> Z.of_nat (length (entries m)) < capacity ->
  exists m' r, exec (OpRemoveAll k) m = Some (m', r) /\ map_wf m'
    /\ bag_spec (OpRemoveAll k) (bag m) r (bag m').
Proof.
  intros Hw Hcap. pose proof (bump_wf m Hw) as Hw1. set (m1 := bump_counter m) in *.
  destruct (split_bucket m1 k Hw1) as (i & l & rest & Hi & Hl & _ & _ & He & Hr & Hc).
  cbn [exec]. unfold multimap_remove_all. fold m1. rewrite Hi, Hl.
  change (entries m1) with (entries m) in He. pose proof (pair_perm m l rest He) as Hbag.
  destruct (entries_small m1 l rest Hw1 Hcap He) as (Hs & Hlt & Hnd).
  set (keep := filter (fun e => e_key e <> k) l). set (gone := filter (fun e => e_key e = k) l).
  assert (l ≡ₚ gone ++ keep) as Hsplit by (symmetry; apply filter_app_complement).
  pose proof (Permutation_length Hsplit) as Hlen. rewrite length_app in Hlen.
  rewrite unlink_all_spec by (fold gone; lia). fold keep gone. eexists _, _. split; [reflexivity|]. split.
  - eapply update_wf; try done.
    + eapply sub_placed; [done|done|]. intros e [_ H1]%list_elem_of_filter. done.
    + rewrite Hsplit, <- app_assoc, fmap_app in Hnd. by apply NoDup_app in Hnd as (_ & _ & Hnd).
    + rewrite length_app. lia.
    + rewrite u32_small, length_app by words. lia.
  - cbn [bag_spec]. rewrite Hbag, !filter_app. destruct (filter_pair k l) as [-> ->].
    rewrite (filter_none (fun p => p.1 = k) (pair <$> rest)), (filter_all (fun p => p.1 <> k) (pair <$> rest)).
    + fold gone keep. rewrite app_nil_r, length_fmap. split; [done|]. by apply set_bag.
    + intros p (e & -> & Hin)%list_elem_of_fmap. by apply Hr.
    + intros p (e & -> & Hin)%list_elem_of_fmap. by apply Hr.
Qed.

(** Making room keeps the entries. *)
Lemma make_room m :
  map_wf m -> Z.of_nat (length (entries m)) < capacity ->
  exists m', (if map_length m / 4 <=? mm_size m / 3 then grow m else Some m) = Some m'
    /\ map_wf m' /\ entries m' ≡ₚ entries m /\ mm_size m' = mm_size m.
Proof.
  intros Hw Hcap. unfold capacity in Hcap. rewrite <- (mw_size m Hw) in Hcap.
  destruct (Z.leb_spec (map_length m / 4) (mm_size m / 3)) as [Hle|]; [|by exists m].
  destruct (grow_spec m Hw) as (m' & -> & Hw' & He & Hs & _); [|by exists m'].
  pose proof (Z.div_mod (map_length m) 4 ltac:(lia)). pose proof (Z.mod_pos_bound (map_length m) 4 ltac:(lia)).
  pose proof (Z.mul_div_le (mm_size m) 3 ltac:(lia)). lia.
Qed.

Lemma add_spec a m k v :
  map_wf m -> Z.of_nat (length (entries m)) < capacity -> a ∉ e_addr <$> entries m ->
  exists m', (let? g := if map_length m / 4 <=? mm_size m / 3 then grow m else Some m in
              let? i := idx_of g k in
              let? l := buckets g !! i in
              Some (set_mm_size (mm_size g + 1)
                (set_buckets (<[i := mk_entry a k v :: l]> (buckets g)) g), GNUNET_OK))
             = Some (m', GNUNET_OK)
    /\ map_wf m' /\ bag m' ≡ₚ (k, v) :: bag m.
Proof.
  intros Hw Hcap Ha. destruct (make_room m Hw Hcap) as (m1 & -> & Hw1 & He1 & Hs1).
  destruct (split_bucket m1 k Hw1) as (i & l & rest & -> & Hl & _ & Hk & He & Hr & Hc). rewrite Hl.
  eexists. split; [reflexivity|]. rewrite <- He1 in Ha, Hcap.
  destruct (entries_small m1 l rest Hw1 Hcap He) as (Hs & Hlt & Hnd). split.
  - eapply update_wf; try done.
    + intros e [->|Hin]%elem_of_cons; [done|]. by eapply (mw_place m1 Hw1).
    + cbn [app]. rewrite fmap_cons. constructor; [|done]. by rewrite <- He.
    + cbn [app length]. rewrite length_app. lia.
    + cbn [app length]. rewrite u32_small, length_app by words. lia.
  - rewrite (set_bag i _ rest) by apply Hc. rewrite fmap_cons. cbn [app].
    assert (bag m ≡ₚ bag m1) as -> by (unfold bag; by rewrite He1).
    by rewrite (pair_perm m1 l rest He).
Qed.

Lemma put_spec m a k v opt :
  map_wf m -> Z.of_nat (length (entries m)) < capacity -> a ∉ e_addr <$> entries m ->
  exists m' r, exec (OpPut a k v opt) m = Some (m', r) /\ map_wf m'
    /\ bag_spec (OpPut a k v opt) (bag m) r (bag m').
Proof.
  intros Hw Hcap Ha. cbn [exec]. unfold multimap_put.
  destruct (split_bucket m k Hw) as (i & l & rest & Hi & Hl & _ & Hk & He & Hr & Hc). rewrite Hi, Hl.
  pose proof (scan_key m k l rest He Hr) as Hs.
  destruct (add_spec a m k v Hw Hcap Ha) as (m' & Eadd & Hw' & Hbag').
  destruct (_ && _) eqn:Efound.
  2:{ rewrite Eadd. exists m', (RCode GNUNET_OK). split_and!; [done|done|].
      destruct opt; try done; cbn [bag_spec]; cbn in Efound;
        (destruct (scan (has_key k) l); [done|]; by rewrite decide_False). }
  apply andb_true_iff in Efound as [Hopt Hfound].
  destruct (scan (has_key k) l) as [e|] eqn:Escan; [|done]. apply elem_of_keys in Hs.
  destruct opt; try done; cbn [bool_decide decide_rel].
  - rewrite bool_decide_false by done. eexists _, _. split; [reflexivity|].
    destruct (replace_first_spec k v l e Escan) as (e0 & R & Hk0 & H1 & H2).
    destruct (entries_small m l rest Hw Hcap He) as (Hsz & Hlt & Hnd). split.
    + replace (set_buckets _ m) with (set_mm_size (mm_size m) (set_buckets (<[i := replace_first k v l]> (buckets m)) m)).
      2:{ unfold set_mm_size, set_buckets. cbn [buckets mm_size map_length use_small_entries modification_counter].
          by rewrite u32_small by words. }
      eapply update_wf; try done.
      * intros e'. rewrite H2. intros [->|Hin]%elem_of_cons; cbn [e_key]; [by rewrite Hk0|].
        eapply (mw_place m Hw); [done|]. rewrite H1. by right.
      * rewrite H2. cbn [app]. rewrite fmap_cons. cbn [e_addr]. rewrite H1 in Hnd. done.
      * rewrite length_app, H2. rewrite H1 in Hsz. cbn [length] in *. lia.
      * rewrite u32_small, length_app, H2 by words. rewrite H1 in Hsz. cbn [length] in *. lia.
    + cbn [bag_spec]. rewrite decide_True by done. split; [done|].
      exists (e_value e0), ((pair <$> R) ++ (pair <$> rest)). split.
      * rewrite (pair_perm m l rest He), H1, fmap_cons. unfold pair at 1. by rewrite Hk0.
      * unfold bag, entries. cbn [set_buckets buckets]. rewrite Hc, fmap_app, H2, fmap_cons.
        unfold pair at 1. cbn [e_key e_value app]. by rewrite Hk0.
  - rewrite bool_decide_true by done. eexists _, _. split; [reflexivity|]. split; [done|].
    cbn [bag_spec]. by rewrite decide_True.
Qed.

(** Clearing a bucket removes its entries one by one, each while it is alive. *)
Lemma clear_bucket_spec i l m count :
  map_wf m -> buckets m !! i = Some l -> 0 <= count ->
  Z.of_nat (length (entries m)) < capacity -> count + Z.of_nat (length l) < capacity ->
  exists m', clear_bucket i l m count = Some (m', count + Z.of_nat (length l)) /\ map_wf m'
    /\ buckets m' = <[i := []]> (buckets m) /\ map_length m' = map_length m.
Proof.
  revert m count. induction l as [|e l IH]; intros m count Hw Hi Hc0 Hcap Hc; cbn [clear_bucket].
  { exists m. rewrite Z.add_0_r. split_and!; try done. by rewrite list_insert_id. }
  rewrite Hi, bool_decide_true by (rewrite fmap_cons; left).
  pose proof (bump_wf m Hw) as Hw1. unfold multimap_remove. set (m1 := bump_counter m) in *.
  assert (Z.of_nat i = key_word (e_key e) mod map_length m) as Hk by (eapply (mw_place m Hw); [done|left]).
  destruct (split_bucket m1 (e_key e) Hw1) as (i' & l' & rest & Hi' & Hl' & _ & Hk' & He & Hr & Hcon).
  assert (i' = i) as -> by (change (map_length m1) with (map_length m) in Hk'; lia).
  change (buckets m1) with (buckets m) in *. rewrite Hi in Hl'. injection Hl' as <-.
  rewrite Hi', Hi. cbn [unlink_first]. rewrite (proj2 (has_pair_spec _ _ _) eq_refl).
  change (entries m1) with (entries m) in He.
  destruct (entries_small m1 _ rest Hw1 Hcap He) as (Hs & Hlt & Hnd). cbn [length] in Hs, Hc.
  unfold int_succ. unfold capacity in Hc, Hcap. destruct (Z.ltb_spec count (2 ^ 31 - 1)); [|lia].
  set (m2 := set_mm_size _ _).
  assert (map_wf m2) as Hw2.
  { apply (update_wf m1 i (e :: l) l rest); try done.
    - apply (sub_placed m1 i (e :: l) l); [done|exact Hi|]. intros e' He'. by right.
    - cbn [app] in Hnd. rewrite fmap_cons in Hnd. by apply NoDup_cons in Hnd as [_ Hnd].
    - rewrite length_app. lia.
    - rewrite u32_small, length_app by words. lia. }
  destruct (IH m2 (count + 1) Hw2) as (m' & -> & Hw' & Hb' & Hl'').
  - unfold m2. cbn [set_mm_size set_buckets buckets]. rewrite list_lookup_insert_eq; [done|].
    by eapply lookup_lt_Some.
  - lia.
  - rewrite <- (mw_size m2 Hw2). unfold m2, capacity. cbn [set_mm_size mm_size].
    rewrite u32_small by words. lia.
  - unfold capacity. lia.
  - exists m'. cbn [length]. split_and!; [f_equal; f_equal; lia|done| |done].
    rewrite Hb'. unfold m2. cbn [set_mm_size set_buckets buckets]. by rewrite list_insert_insert_eq.
Qed.

Lemma clear_buckets_spec n i m count :
  map_wf m -> (n + i = length (buckets m))%nat -> 0 <= count ->
  count + Z.of_nat (length (entries m)) < capacity ->
  (forall j, (j < i)%nat -> buckets m !! j = Some []) ->
  exists m' c, clear_buckets n i m count = Some (m', c) /\ map_wf m' /\ entries m' = [].
Proof.
  revert i m count. induction n as [|n IH]; intros i m count Hw Hn Hc Hcap Hdone; cbn [clear_buckets].
  { exists m, count. split_and!; try done. unfold entries. apply concat_nil_Forall, Forall_forall.
    intros b [j Hj]%list_elem_of_lookup.
    pose proof (lookup_lt_Some _ _ _ Hj). rewrite Hdone in Hj by lia. congruence. }
  destruct (lookup_lt_is_Some_2 (buckets m) i) as [l Hl]; [lia|]. rewrite Hl.
  destruct (concat_split (buckets m) i l Hl) as [E1 E2].
  pose proof (Permutation_length E1) as Hlen. rewrite length_app in Hlen. fold (entries m) in Hlen.
  destruct (clear_bucket_spec i l m count Hw Hl Hc) as (m1 & -> & Hw1 & Hb1 & Hl1); [lia|lia|].
  assert (length (entries m1) = length (concat (delete i (buckets m)))) as Hlen1.
  { unfold entries. by rewrite Hb1, E2. }
  apply IH; [done| |lia|lia|].
  - rewrite Hb1, length_insert. lia.
  - intros j Hj. rewrite Hb1. destruct (decide (i = j)) as [->|Hne].
    + apply list_lookup_insert_eq. by eapply lookup_lt_Some.
    + rewrite list_lookup_insert_ne by done. apply Hdone. lia.
Qed.

Lemma clear_spec m :
  map_wf m -> Z.of_nat (length (entries m)) < capacity ->
  exists m' r, exec OpClear m = Some (m', r) /\ map_wf m' /\ bag_spec OpClear (bag m) r (bag m').
Proof.
  intros Hw Hcap. cbn [exec]. unfold multimap_clear. pose proof (mw_len m Hw).
  destruct (clear_buckets_spec (Z.to_nat (map_length m)) 0 m 0 Hw) as (m' & c & -> & Hw' & He);
    [lia|lia|lia|lia|].
  eexists _, _. split; [reflexivity|]. split; [done|]. cbn [bag_spec]. unfold bag at 2. rewrite He.
  by rewrite (mw_size m Hw), length_bag.
Qed.

Lemma exec_spec m op :
  map_wf m -> Z.of_nat (length (entries m)) < capacity -> op_pre m op ->
  exists m' r, exec op m = Some (m', r) /\ map_wf m' /\ bag_spec op (bag m) r (bag m').
Proof.
  intros Hw Hcap Hpre. destruct op.
  1: by apply put_spec.
  1: by apply remove_spec.
  1: by apply remove_all_spec.
  1: by apply clear_spec.
  all: edestruct query_spec as (r & E & Hs); [exact Hw| |eexists _, r; split; [exact E|done]]; done.
Qed.

End Bag.
Arguments mm_op : clear implicits.
Arguments mm_res : clear implicits.

(** ** Iteration *)

Section Iteration.
Context {K : Type} `{MapKey K} {A : Type}.
Implicit Types (m : MultiMap K) (e : MapEntry K) (f : A -> K -> Z -> A * Z).

(** A callback applied to a list of pairs until it does not return
    [GNUNET_OK]; the flag tells whether all pairs were visited. *)
Fixpoint visit (f : A -> K -> Z -> A * Z) (l : list (K * Z)) (cls : A) : A * bool :=
  match l with
  | [] => (cls, true)
  | (k, v) :: l' =>
      let '(cls, r) := f cls k v in
      if GNUNET_OK =? r then visit f l' cls else (cls, false)
  end.

Lemma iterate_list_spec f (l : list (MapEntry K)) cls count :
  0 <= count -> count + Z.of_nat (length l) <= 2 ^ 31 - 1 ->
  iterate_list (Some f) l cls count =
    let '(cls', done) := visit f (pair <$> l) cls in
    Some (cls', if done : bool then count + Z.of_nat (length l) else GNUNET_SYSERR).
Proof.
  revert cls count. induction l as [|e l IH]; intros cls count Hc Hl; cbn [iterate_list].
  { cbn. by rewrite Z.add_0_r. }
  rewrite fmap_cons. cbn [visit pair]. destruct (f cls (e_key e) (e_value e)) as [cls1 r].
  destruct (GNUNET_OK =? r); cbn [negb]; [|done]. cbn [length] in Hl |- *. unfold int_succ.
  destruct (Z.ltb_spec count (2 ^ 31 - 1)); [|lia]. rewrite IH by lia.
  destruct (visit f (pair <$> l) cls1) as [cls2 []]; do 2 f_equal. lia.
Qed.

Lemma visit_app f l1 l2 cls :
  visit f (l1 ++ l2) cls =
    let '(cls1, done) := visit f l1 cls in if done : bool then visit f l2 cls1 else (cls1, false).
Proof.
  revert cls. induction l1 as [|[k v] l1 IH]; intros cls; cbn [app visit]; [done|].
  destruct (f cls k v) as [cls1 r]. by destruct (GNUNET_OK =? r).
Qed.

Lemma iterate_buckets_spec f (bs : list (list (MapEntry K))) cls count :
  0 <= count -> count + Z.of_nat (length (concat bs)) <= 2 ^ 31 - 1 ->
  iterate_buckets (Some f) bs cls count =
    let '(cls', done) := visit f (pair <$> concat bs) cls in
    Some (cls', if done : bool then count + Z.of_nat (length (concat bs)) else GNUNET_SYSERR).
Proof.
  revert cls count. induction bs as [|b bs IH]; intros cls count Hc Hl; cbn [iterate_buckets concat].
  { cbn. by rewrite Z.add_0_r. }
  cbn [concat] in Hl. rewrite length_app in Hl |- *. rewrite iterate_list_spec by lia.
  rewrite fmap_app, visit_app. destruct (visit f (pair <$> b) cls) as [cls1 []]; [|done].
  destruct (Z.eqb_spec (count + Z.of_nat (length b)) GNUNET_SYSERR); [words|].
  rewrite IH by lia. destruct (visit f (pair <$> concat bs) cls1) as [cls2 []]; do 2 f_equal. lia.
Qed.

Lemma iterate_key_spec k f (l : list (MapEntry K)) cls count :
  iterate_key k (Some f) l cls count = iterate_list (Some f) (filter (fun e => e_key e = k) l) cls count.
Proof.
  revert cls count. induction l as [|e l IH]; intros cls count; cbn [iterate_key]; [done|].
  destruct (has_key k e) eqn:Ek; cbn [negb].
  - apply has_key_spec in Ek. rewrite (filter_cons_True (fun e => e_key e = k)) by done.
    cbn [iterate_list]. rewrite Ek. destruct (f cls k (e_value e)) as [cls1 r].
    destruct (GNUNET_OK =? r); cbn [negb]; [|done]. destruct (int_succ count); [|done]. apply IH.
  - rewrite (filter_cons_False (fun e => e_key e = k)); [apply IH|].
    intros Hk%has_key_spec. congruence.
Qed.

Lemma get_multiple_spec m k f cls :
  map_wf m -> Z.of_nat (length (entries m)) < capacity ->
  exists l, l ≡ₚ filter (fun p => p.1 = k) (bag m)
  /\ multimap_get_multiple m k (Some f) cls =
       let '(cls', done) := visit f l cls in
       Some (cls', if done : bool then Z.of_nat (length l) else GNUNET_SYSERR).
Proof.
  intros Hw Hcap. destruct (split_bucket m k Hw) as (i & l & rest & _ & _ & Hb & _ & He & Hr & _).
  destruct (filter_pair k l) as [Hf _]. exists (pair <$> filter (fun e => e_key e = k) l). split.
  - rewrite (pair_perm m l rest He), filter_app, Hf, (filter_none _ (pair <$> rest)), app_nil_r; [done|].
    intros p (e & -> & Hin)%list_elem_of_fmap. by apply Hr.
  - unfold multimap_get_multiple. rewrite Hb, iterate_key_spec, iterate_list_spec, length_fmap; [done|lia|].
    pose proof (Permutation_length He) as Hlen. rewrite length_app in Hlen. unfold capacity in Hcap.
    pose proof (length_filter (fun e => e_key e = k) l). lia.
Qed.

End Iteration.

(** ** Cursors *)

Section Cursor.
Context {K : Type} `{MapKey K}.
Implicit Types (m : MultiMap K) (it : MultiMapIterator).

(** The cursor points to nothing or to an entry of its bucket. *)
Definition cursor_ok (m : MultiMap K) (it : MultiMapIterator) : Prop :=
  0 <= it_idx it <= map_length m
  /\ forall a, it_me it = Some a ->
     exists l, buckets m !! Z.to_nat (it_idx it) = Some l /\ a ∈ e_addr <$> l.

(** The suffix of a bucket from an address on. *)
Fixpoint suffix_from (me : option positive) (l : list (MapEntry K)) : list (MapEntry K) :=
  match me with
  | None => []
  | Some a =>
      match l with
      | [] => []
      | e :: l' => if decide (e_addr e = a) then l else suffix_from me l'
      end
  end.

(** The entries a cursor has still to return. *)
Definition remaining (m : MultiMap K) (it : MultiMapIterator) : list (MapEntry K) :=
  match buckets m !! Z.to_nat (it_idx it) with
  | Some l => suffix_from (it_me it) l ++ concat (drop (S (Z.to_nat (it_idx it))) (buckets m))
  | None => []
  end.

Lemma suffix_None (l : list (MapEntry K)) : suffix_from None l = [].
Proof. by destruct l. Qed.

Lemma suffix_head (l : list (MapEntry K)) : suffix_from (head_addr l) l = l.
Proof. destruct l as [|e l]; [done|]. cbn. by rewrite decide_True. Qed.

Lemma remaining_sub m it e : e ∈ remaining m it -> e ∈ entries m.
Proof.
  assert (forall me (l : list (MapEntry K)), e ∈ suffix_from me l -> e ∈ l) as Hsub.
  { intros me l. induction l as [|e' l IH]; [by destruct me; intros ?%not_elem_of_nil|].
    cbn [suffix_from]. destruct me as [a|]; [|by intros ?%not_elem_of_nil].
    destruct (decide _); [done|]. intros Hin. right. by apply IH. }
  unfold remaining, entries. destruct (buckets m !! Z.to_nat (it_idx it)) as [l|] eqn:Hl;
    [|by intros ?%not_elem_of_nil].
  rewrite elem_of_app, !elem_of_concat. intros [Hin%Hsub|(b & Hb & Hin)].
  - exists l. split; [|done]. by eapply list_elem_of_lookup_2.
  - exists b. split; [|done]. by eapply subseteq_drop.
Qed.

Lemma deref_spec a (l : list (MapEntry K)) :
  NoDup (e_addr <$> l) -> a ∈ e_addr <$> l ->
  exists e nxt, deref a l = Some (e, nxt) /\ suffix_from (Some a) l = e :: suffix_from nxt l
    /\ forall b, nxt = Some b -> b ∈ e_addr <$> l.
Proof.
  induction l as [|e l IH]; intros Hnd Ha; [by apply not_elem_of_nil in Ha|].
  rewrite fmap_cons in Hnd, Ha. apply NoDup_cons in Hnd as [Hni Hnd].
  cbn [deref suffix_from]. destruct (decide (e_addr e = a)) as [<-|Hne].
  - rewrite bool_decide_true by done. exists e, (head_addr l). split_and!; try done.
    + destruct l as [|e' l]; [done|]. cbn [head_addr head fmap option_fmap option_map].
      rewrite fmap_cons in Hni. apply not_elem_of_cons in Hni as [Hne _].
      cbn [suffix_from]. rewrite decide_False by done. rewrite decide_True by done. done.
    + intros b Hb. destruct l as [|e' l]; [done|]. injection Hb as <-. rewrite !fmap_cons. right. left.
  - rewrite bool_decide_false by done. apply elem_of_cons in Ha as [->|Ha]; [done|].
    destruct (IH Hnd Ha) as (e' & nxt & -> & Hs & Hn). exists e', nxt. split_and!; try done.
    + rewrite Hs. f_equal. destruct nxt as [b|]; [|by rewrite suffix_None].
      cbn [suffix_from]. rewrite decide_False; [done|]. intros <-. by apply Hni, Hn.
    + intros b Hb. rewrite fmap_cons. right. by apply Hn.
Qed.

Lemma bucket_nodup m i l : map_wf m -> buckets m !! i = Some l -> NoDup (e_addr <$> l).
Proof.
  intros Hw Hi. pose proof (mw_addr m Hw) as Hnd. unfold entries in Hnd.
  destruct (concat_split (buckets m) i l Hi) as [E1 _]. rewrite E1, fmap_app in Hnd.
  by apply NoDup_app in Hnd as [Hnd _].
Qed.

(** A valid cursor returns the first of the remaining entries, if there is one. *)
Lemma next_loop_spec fuel m it :
  map_wf m -> cursor_ok m it -> (Z.to_nat (map_length m - it_idx it) < fuel)%nat ->
  exists it' r, next_loop fuel m it = Some (it', r) /\ cursor_ok m it'
    /\ it_modification_counter it' = it_modification_counter it
    /\ match r with
       | Some p => exists e, remaining m it = e :: remaining m it' /\ p = pair e
       | None => remaining m it = [] /\ remaining m it' = []
       end.
Proof.
  intros Hw. pose proof (mw_len m Hw) as Hlen. pose proof (mw_pos m Hw) as Hpos.
  revert it. induction fuel as [|fuel IH]; intros it [Hidx Hme] Hfuel; [lia|]. cbn [next_loop].
  destruct (Z.leb_spec (map_length m) (it_idx it)) as [Hend|Hlt].
  { eexists _, _. split; [reflexivity|]. unfold remaining.
    rewrite (lookup_ge_None_2 (buckets m)) by lia. split_and!; done. }
  destruct (lookup_lt_is_Some_2 (buckets m) (Z.to_nat (it_idx it))) as [l Hl]; [lia|].
  destruct (it_me it) as [a|] eqn:Ea.
  - rewrite Hl. destruct (Hme a eq_refl) as (l' & Hl' & Ha). rewrite Hl in Hl'. injection Hl' as <-.
    destruct (deref_spec a l (bucket_nodup m _ l Hw Hl) Ha) as (e & nxt & -> & Hs & Hn).
    eexists _, _. split; [reflexivity|]. cbn [it_idx it_me it_modification_counter]. split_and!; try done.
    + split; [done|]. cbn [it_idx it_me]. intros b Hb. exists l. split; [done|]. by apply Hn.
    + exists e. unfold remaining. cbn [it_idx it_me]. rewrite Hl, Ea, Hs. done.
  - rewrite u32_small by words. destruct (Z.ltb_spec (it_idx it + 1) (map_length m)) as [Hin|Hout].
    + destruct (lookup_lt_is_Some_2 (buckets m) (Z.to_nat (it_idx it + 1))) as [b Hb]; [lia|].
      rewrite Hb. cbn [fmap option_fmap option_map].
      set (it1 := mk_iter (head_addr b) (it_idx it + 1) (it_modification_counter it)).
      destruct (IH it1) as (it' & r & -> & Hok & Hcnt & Hr).
      * split; cbn [it1 it_idx it_me]; [lia|]. intros a Ha. exists b. split; [done|].
        destruct b as [|e b]; [done|]. injection Ha as <-. rewrite fmap_cons. left.
      * cbn [it1 it_idx]. lia.
      * assert (remaining m it = remaining m it1) as Hrem.
        { unfold remaining. cbn [it1 it_idx it_me]. rewrite Hl, Hb, Ea, suffix_head. cbn [suffix_from app].
          replace (Z.to_nat (it_idx it + 1)) with (S (Z.to_nat (it_idx it))) in * by lia.
          destruct l; cbn [suffix_from app]; by rewrite (drop_S _ _ _ Hb). }
        exists it', r. rewrite Hrem. done.
    + destruct fuel as [|fuel']; [lia|]. cbn [next_loop it_idx].
      destruct (Z.leb_spec (map_length m) (it_idx it + 1)); [|lia].
      eexists _, _. split; [reflexivity|]. cbn [it_modification_counter]. split_and!; try done.
      * split; cbn [it_idx it_me]; [lia|done].
      * unfold remaining. rewrite Hl, Ea. rewrite drop_ge by lia. by destruct l.
      * unfold remaining. cbn [it_idx it_me]. by rewrite (lookup_ge_None_2 (buckets m)) by lia.
Qed.

Lemma iterator_next_spec m it :
  map_wf m -> cursor_ok m it -> it_modification_counter it = modification_counter m ->
  exists it' r, multimap_iterator_next m it = Some (it', r) /\ cursor_ok m it'
    /\ it_modification_counter it' = modification_counter m
    /\ match r with
       | Some p => exists e, remaining m it = e :: remaining m it' /\ p = pair e
       | None => remaining m it = [] /\ remaining m it' = []
       end.
Proof.
  intros Hw Hok Hc. unfold multimap_iterator_next. rewrite Hc, Z.eqb_refl.
  destruct (next_loop_spec (S (Z.to_nat (map_length m - it_idx it))) m it Hw Hok ltac:(lia))
    as (it' & r & E & Hok' & Hc' & Hr). exists it', r. split_and!; try done. congruence.
Qed.

Lemma iterator_create_spec m :
  map_wf m -> exists it, multimap_iterator_create m = Some it /\ cursor_ok m it
    /\ it_modification_counter it = modification_counter m /\ remaining m it = entries m.
Proof.
  intros Hw. pose proof (mw_len m Hw) as Hlen. pose proof (mw_pos m Hw) as Hpos.
  destruct (buckets m) as [|b bs] eqn:Eb; [cbn in Hlen; lia|].
  unfold multimap_iterator_create. rewrite Eb. cbn [lookup list_lookup].
  eexists. split; [reflexivity|]. split_and!; try done.
  - split; cbn [it_idx it_me]; [lia|]. intros a Ha. exists b. rewrite Eb. split; [done|].
    destruct b as [|e b]; [done|]. injection Ha as <-. rewrite fmap_cons. left.
  - unfold remaining, entries. cbn [it_idx it_me]. rewrite Eb.
    change (suffix_from (head_addr b) b ++ concat bs = b ++ concat bs). by rewrite suffix_head.
Qed.

(** Calling [next] until it returns nothing, at most [n] times. *)
Fixpoint drain (n : nat) (m : MultiMap K) (it : MultiMapIterator) : option (list (K * Z)) :=
  match n with
  | O => None
  | S n' =>
      let? (it', r) := multimap_iterator_next m it in
      match r with
      | None => Some []
      | Some p => let? l := drain n' m it' in Some (p :: l)
      end
  end.

Lemma drain_spec n m it :
  map_wf m -> cursor_ok m it -> it_modification_counter it = modification_counter m ->
  (length (remaining m it) < n)%nat -> drain n m it = Some (pair <$> remaining m it).
Proof.
  intros Hw. revert it. induction n as [|n IH]; intros it Hok Hc Hn; [lia|]. cbn [drain].
  destruct (iterator_next_spec m it Hw Hok Hc) as (it' & r & -> & Hok' & Hc' & Hr).
  destruct r as [p|].
  - destruct Hr as (e & Hrem & ->). rewrite Hrem in Hn |- *. cbn [length] in Hn.
    rewrite IH; [done|done|done|lia].
  - destruct Hr as [-> _]. done.
Qed.

End Cursor.

(** ** Cursors and modifications *)

Section Guard.
Context {K : Type} `{MapKey K}.
Implicit Types (m : MultiMap K) (it : MultiMapIterator).

(** [n] calls of operations other than [clear], interleaved with any number of
    calls of [next]. *)
Inductive cursor_run : nat -> MultiMap K -> MultiMapIterator -> MultiMap K -> MultiMapIterator -> Prop :=
| cr_refl m it : cursor_run 0 m it m it
| cr_op n m it op m' r m'' it'' :
    op_pre m op -> Z.of_nat (length (entries m)) < capacity -> op <> OpClear ->
    exec op m = Some (m', r) -> cursor_run n m' it m'' it'' -> cursor_run (S n) m it m'' it''
| cr_next n m it it' r m'' it'' :
    multimap_iterator_next m it = Some (it', r) ->
    cursor_run n m it' m'' it'' -> cursor_run n m it m'' it''.

Lemma cursor_ok_insert m m' it i (l l' : list (MapEntry K)) :
  buckets m !! i = Some l -> buckets m' = <[i := l']> (buckets m) -> map_length m' = map_length m ->
  (forall a, a ∈ e_addr <$> l -> a ∈ e_addr <$> l') -> cursor_ok m it -> cursor_ok m' it.
Proof.
  intros Hi Hb Hl Hsub [Hidx Hme]. split; [by rewrite Hl|]. intros a Ha.
  destruct (Hme a Ha) as (b & Hb' & Hab). rewrite Hb. destruct (decide (i = Z.to_nat (it_idx it))) as [->|Hne].
  - rewrite Hi in Hb'. injection Hb' as <-. exists l'. rewrite list_lookup_insert_eq; [auto|].
    by eapply lookup_lt_Some.
  - exists b. by rewrite list_lookup_insert_ne.
Qed.

Lemma replace_first_addr k v (l : list (MapEntry K)) :
  e_addr <$> replace_first k v l = e_addr <$> l.
Proof.
  induction l as [|e l IH]; [done|]. cbn [replace_first]. destruct (has_key k e); [done|].
  by rewrite !fmap_cons, IH.
Qed.

(** An operation either leaves cursors valid or counts as a modification. *)
Lemma op_counter m op m' r :
  map_wf m -> Z.of_nat (length (entries m)) < capacity -> op <> OpClear -> exec op m = Some (m', r) ->
  (modification_counter m' = modification_counter m /\ forall it, cursor_ok m it -> cursor_ok m' it)
  \/ modification_counter m' = u32 (modification_counter m + 1).
Proof.
  intros Hw Hcap Hop E. destruct op as [a k v opt|k v|k| |k|k|k v|]; cbn [exec] in E; try done.
  - destruct (multimap_put a m k v opt) as [[m1 r1]|] eqn:E1; [|done]. injection E as <- _.
    unfold multimap_put in E1. destruct (idx_of m k) as [i|]; [|done].
    destruct (buckets m !! i) as [l|] eqn:Hi; [|done]. destruct (_ && _).
    { destruct (bool_decide _); injection E1 as <- _; left; (split; [done|]); [done|].
      intros it. eapply (cursor_ok_insert m _ it i l); [done..|].
      intros b. by rewrite replace_first_addr. }
    destruct (map_length m / 4 <=? mm_size m / 3) eqn:Egrow.
    + right. destruct (make_room m Hw Hcap) as (g & Eg & _). rewrite Egrow in Eg. rewrite Eg in E1.
      assert (modification_counter g = u32 (modification_counter m + 1)) as Hg.
      { unfold grow in Eg. destruct (sizeof_pointer * _ <=? _); [|done]. destruct (rehash _ _ _); [|done]. by injection Eg as <-. }
      destruct (idx_of g k); [|done]. destruct (buckets g !! n); [|done]. by injection E1 as <- _.
    + left. destruct (idx_of m k) as [j|]; [|done]. destruct (buckets m !! j) as [b|] eqn:Hj; [|done].
      injection E1 as <- _. split; [done|]. intros it. eapply (cursor_ok_insert m _ it j b); [done..|].
      intros x Hx. rewrite fmap_cons. by right.
  - right. unfold multimap_remove in E. cbn [bump_counter buckets] in E. destruct (idx_of _ k); [|done].
    destruct (_ !! _); [|done]. destruct (unlink_first _ _); by injection E as <- _.
  - right. unfold multimap_remove_all in E. cbn [bump_counter buckets] in E. destruct (idx_of _ k); [|done].
    destruct (_ !! _); [|done]. destruct (unlink_all _ _ _ _) as [[[]]|]; [|done]. by injection E as <- _.
  - left. destruct (multimap_get m k); [|done]. by injection E as <- _.
  - left. destruct (multimap_contains m k); [|done]. by injection E as <- _.
  - left. destruct (multimap_contains_value m k v); [|done]. by injection E as <- _.
  - left. by injection E as <- _.
Qed.

(** [b] modifications since the cursor was made with counter [c0]. *)
Definition guarded (c0 b : Z) (m : MultiMap K) (it : MultiMapIterator) : Prop :=
  map_wf m /\ 0 <= b /\ modification_counter m = u32 (c0 + b) /\ it_modification_counter it = c0
  /\ (b = 0 -> cursor_ok m it).

Lemma guarded_valid c0 b m it :
  is_u32 c0 -> guarded c0 b m it -> b < 2 ^ 32 ->
  it_modification_counter it = modification_counter m -> cursor_ok m it.
Proof.
  intros Hc0 (Hw & Hb & Hm & Hi & Hok) Hlt Heq. apply Hok. rewrite Hi, Hm in Heq. unfold u32 in Heq.
  unfold is_u32 in Hc0. destruct (Z.lt_ge_cases (c0 + b) (2 ^ 32)).
  - rewrite Z.mod_small in Heq by lia. lia.
  - rewrite <- (Z_mod_plus_full _ (-1)), Z.mod_small in Heq by lia. lia.
Qed.

Lemma cursor_run_guarded n m it m' it' c0 b :
  is_u32 c0 -> cursor_run n m it m' it' -> guarded c0 b m it -> b + Z.of_nat n < 2 ^ 32 ->
  exists b', guarded c0 b' m' it' /\ b' < 2 ^ 32.
Proof.
  intros Hc0 Hrun. revert b. induction Hrun as [m it|n m it op m1 r m2 it2 Hpre Hcap Hop E _ IH
    |n m it it1 r m2 it2 E _ IH]; intros b Hg Hn.
  - exists b. split; [done|lia].
  - pose proof Hg as (Hw & Hb & Hm & Hi & Hok).
    destruct (exec_spec m op Hw Hcap Hpre) as (m1' & r' & E' & Hw1 & _). rewrite E in E'. injection E' as <- <-.
    destruct (op_counter m op m1 r Hw Hcap Hop E) as [[Hc Hkeep]|Hc].
    + apply (IH b); [|lia]. split_and!; try done; [congruence|]. auto.
    + apply (IH (b + 1)); [|lia]. split_and!; try done; [lia| |lia].
      rewrite Hc, Hm. unfold u32. rewrite Zplus_mod_idemp_l. f_equal. lia.
  - assert (it_modification_counter it = modification_counter m) as Heq.
    { unfold multimap_iterator_next in E. by destruct (Z.eqb_spec (it_modification_counter it) (modification_counter m)). }
    pose proof (guarded_valid c0 b m it Hc0 Hg ltac:(lia) Heq) as Hv.
    pose proof Hg as (Hw & Hb & Hm & Hi & Hok).
    destruct (iterator_next_spec m it Hw Hv Heq) as (it1' & r' & E' & Hv1 & Hc1 & _).
    rewrite E in E'. injection E' as <- <-. apply (IH b); [|done]. split_and!; try done. congruence.
Qed.

End Guard.

(** ** Theorems *)

Section MultiMapTheorems.
Context {K : Type} `{MapKey K}.

(** Runs of a client that uses fresh addresses and stays below the capacity,
    and runs of a bag of pairs. *)
Inductive mm_run : MultiMap K -> list (mm_op K * mm_res) -> MultiMap K -> Prop :=
| mr_refl m : mm_run m [] m
| mr_step m op r m' tr m'' :
    op_pre m op -> Z.of_nat (length (entries m)) < capacity ->
    exec op m = Some (m', r) -> mm_run m' tr m'' -> mm_run m ((op, r) :: tr) m''.

Inductive bag_run : list (K * Z) -> list (mm_op K * mm_res) -> list (K * Z) -> Prop :=
| br_refl B : bag_run B [] B
| br_step B op r B' tr B'' : bag_spec op B r B' -> bag_run B' tr B'' -> bag_run B ((op, r) :: tr) B''.

Lemma multimap_create_spec len small :
  0 < len <= 5242880 ->
  exists m, multimap_create (K := K) len small = Some m /\ map_wf m /\ entries m = [].
Proof.
  intros Hlen. unfold multimap_create. destruct (Z.ltb_spec 0 len); [|lia].
  rewrite (proj2 (Z.leb_le _ _)) by (unfold sizeof_pointer, GNUNET_MAX_MALLOC_CHECKED; lia).
  eexists. split; [reflexivity|].
  assert (concat (replicate (Z.to_nat len) (@nil (MapEntry K))) = []) as Hnil.
  { generalize (Z.to_nat len). intros n. by induction n. }
  split; [|done]. split; unfold entries;
    cbn [buckets map_length mm_size modification_counter]; rewrite ?Hnil; try done; try words.
  - rewrite length_replicate. lia.
  - intros i l e Hi He. apply lookup_replicate in Hi as [-> _]. by apply not_elem_of_nil in He.
  - constructor.
Qed.

Lemma mm_run_spec m tr m' :
  mm_run m tr m' -> map_wf m -> map_wf m' /\ bag_run (bag m) tr (bag m').
Proof.
  induction 1 as [m|m op r m1 tr m2 Hpre Hcap E _ IH]; intros Hw; [split; [done|constructor]|].
  destruct (exec_spec m op Hw Hcap Hpre) as (m1' & r' & E' & Hw1 & Hs). rewrite E in E'.
  injection E' as <- <-. destruct (IH Hw1) as [Hw2 Hr]. split; [done|]. by econstructor.
Qed.

Lemma create_run_wf len small m0 tr m :
  0 < len < 2 ^ 32 -> multimap_create len small = Some m0 -> mm_run m0 tr m ->
  map_wf m /\ bag_run [] tr (bag m).
Proof.
  intros Hlen Hc Hrun. destruct (multimap_create_spec len small) as (m1 & E & Hw & He).
  { split; [lia|]. unfold multimap_create in Hc. destruct (Z.ltb_spec 0 len); [|lia].
    destruct (Z.leb_spec (len * sizeof_pointer) GNUNET_MAX_MALLOC_CHECKED); [|done]. unfold sizeof_pointer, GNUNET_MAX_MALLOC_CHECKED in *. lia. }
  rewrite Hc in E. injection E as <-. destruct (mm_run_spec m0 tr m Hrun Hw) as [Hw' Hr].
  unfold bag in Hr at 1. rewrite He in Hr. done.
Qed.

(** C5. The map is a bag of key-value pairs: in every run of a client that uses
    fresh addresses and fewer than 1966080 pairs (more may need a table that is larger
    than what [GNUNET_malloc] permits, and its assertion fails), put, remove, remove_all, clear,
    get, contains, contains_value and size return what a bag returns, on every
    option and whether or not the table grows; every permitted call returns, so
    no index leaves the table, no length overflows and no freed entry is
    visited; and destroying the map frees every entry exactly once. *)
Theorem multimap_refines_bag (len : Z) (small : bool) (m0 : MultiMap K)
  (tr : list (mm_op K * mm_res)) (m : MultiMap K) :
  0 < len < 2 ^ 32 -> multimap_create len small = Some m0 -> mm_run m0 tr m ->
  bag_run [] tr (bag m)
  /\ (Z.of_nat (length (bag m)) < capacity -> forall op, op_pre m op -> is_Some (exec op m))
  /\ NoDup (multimap_destroy m) /\ length (multimap_destroy m) = length (bag m).
Proof.
  intros Hlen Hc Hrun. destruct (create_run_wf len small m0 tr m Hlen Hc Hrun) as [Hw Hr].
  split_and!; [done| |apply Hw|].
  - intros Hcap op Hpre. rewrite length_bag in Hcap.
    destruct (exec_spec m op Hw Hcap Hpre) as (m' & r & -> & _). by eexists.
  - unfold multimap_destroy. by rewrite length_fmap, length_bag.
Qed.

(** Iteration: [iterate] calls the iterator on all pairs in some order, each
    exactly once, and [get_multiple] on the pairs of the key; both stop at the
    first result other than [GNUNET_OK] and then return [GNUNET_SYSERR], and
    return the number of pairs visited otherwise. *)
Theorem multimap_iterate_each_once {A : Type} (len : Z) (small : bool) (m0 : MultiMap K)
  (tr : list (mm_op K * mm_res)) (m : MultiMap K) (f : A -> K -> Z -> A * Z) (cls : A) (k : K) :
  0 < len < 2 ^ 32 -> multimap_create len small = Some m0 -> mm_run m0 tr m ->
  Z.of_nat (length (bag m)) < capacity ->
  (exists l, l ≡ₚ bag m /\ multimap_iterate m (Some f) cls =
     let '(cls', done) := visit f l cls in
     Some (cls', if done : bool then Z.of_nat (length l) else GNUNET_SYSERR))
  /\ exists l, l ≡ₚ filter (fun p => p.1 = k) (bag m) /\ multimap_get_multiple m k (Some f) cls =
     let '(cls', done) := visit f l cls in
     Some (cls', if done : bool then Z.of_nat (length l) else GNUNET_SYSERR).
Proof.
  intros Hlen Hc Hrun Hcap. destruct (create_run_wf len small m0 tr m Hlen Hc Hrun) as [Hw _].
  rewrite length_bag in Hcap. split; [|by apply get_multiple_spec].
  exists (bag m). split; [done|]. unfold multimap_iterate, capacity, entries in *.
  rewrite iterate_buckets_spec by lia. unfold bag, entries. by rewrite length_fmap.
Qed.

(** Cursors: as long as the map is not modified, a new cursor returns every
    pair exactly once and then [GNUNET_NO]. *)
Theorem multimap_cursor_each_once (len : Z) (small : bool) (m0 : MultiMap K)
  (tr : list (mm_op K * mm_res)) (m : MultiMap K) :
  0 < len < 2 ^ 32 -> multimap_create len small = Some m0 -> mm_run m0 tr m ->
  exists it, multimap_iterator_create m = Some it /\ drain (S (length (bag m))) m it = Some (bag m).
Proof.
  intros Hlen Hc Hrun. destruct (create_run_wf len small m0 tr m Hlen Hc Hrun) as [Hw _].
  destruct (iterator_create_spec m Hw) as (it & E & Hok & Hcnt & Hrem). exists it. split; [done|].
  rewrite (drain_spec _ m it Hw Hok Hcnt); [by rewrite Hrem|]. rewrite Hrem, length_bag. lia.
Qed.

(** The modification counter protects cursors: after fewer than 2^32 calls
    of any operations of the map, interleaved with calls of [next], the next call
    of [next] follows a pointer only if the counter allows it, and then the
    pointer is that of an entry still in the map, even if pairs were added or
    values replaced in between. *)
Theorem multimap_cursor_safe (len : Z) (small : bool) (m0 : MultiMap K)
  (tr : list (mm_op K * mm_res)) (m : MultiMap K) (it : MultiMapIterator) (n : nat)
  (m' : MultiMap K) (it' : MultiMapIterator) :
  0 < len < 2 ^ 32 -> multimap_create len small = Some m0 -> mm_run m0 tr m ->
  multimap_iterator_create m = Some it -> cursor_run n m it m' it' -> Z.of_nat n < 2 ^ 32 ->
  it_modification_counter it' = modification_counter m' ->
  exists it'' r, multimap_iterator_next m' it' = Some (it'', r)
    /\ forall p, r = Some p -> p ∈ bag m'.
Proof.
  intros Hlen Hc Hrun Hit Hcr Hn Heq.
  destruct (create_run_wf len small m0 tr m Hlen Hc Hrun) as [Hw _].
  destruct (iterator_create_spec m Hw) as (it0 & E & Hok & Hcnt & _). rewrite Hit in E. injection E as <-.
  pose proof (mw_counter m Hw) as Hc0.
  destruct (cursor_run_guarded n m it m' it' (modification_counter m) 0 Hc0 Hcr) as (b & Hg & Hb); [|lia|].
  { split_and!; try done. by rewrite Z.add_0_r, u32_small. }
  pose proof (guarded_valid _ b m' it' Hc0 Hg Hb Heq) as Hv.
  destruct (iterator_next_spec m' it' (proj1 Hg) Hv Heq) as (it'' & r & E & _ & _ & Hr).
  exists it'', r. split; [done|]. intros p ->. destruct Hr as (e & Hrem & ->).
  unfold bag. apply list_elem_of_fmap_2, (remaining_sub m' it'). rewrite Hrem. left.
Qed.

End MultiMapTheorems.

(** ** The three maps *)

(** Keys are hash codes. *)
Definition GNUNET_CONTAINER_multihashmap_create := multimap_create (K := GNUNET_HashCode).
Definition GNUNET_CONTAINER_multihashmap_destroy := multimap_destroy (K := GNUNET_HashCode).
Definition GNUNET_CONTAINER_multihashmap_size := multimap_size (K := GNUNET_HashCode).
Definition GNUNET_CONTAINER_multihashmap_get := multimap_get (K := GNUNET_HashCode).
Definition GNUNET_CONTAINER_multihashmap_iterate {A} := multimap_iterate (K := GNUNET_HashCode) (A := A).
Definition GNUNET_CONTAINER_multihashmap_remove := multimap_remove (K := GNUNET_HashCode).
Definition GNUNET_CONTAINER_multihashmap_remove_all := multimap_remove_all (K := GNUNET_HashCode).
Definition GNUNET_CONTAINER_multihashmap_clear := multimap_clear (K := GNUNET_HashCode).
Definition GNUNET_CONTAINER_multihashmap_contains := multimap_contains (K := GNUNET_HashCode).
Definition GNUNET_CONTAINER_multihashmap_contains_value := multimap_contains_value (K := GNUNET_HashCode).
Definition GNUNET_CONTAINER_multihashmap_put := multimap_put (K := GNUNET_HashCode).
Definition GNUNET_CONTAINER_multihashmap_get_multiple {A} :=
  multimap_get_multiple (K := GNUNET_HashCode) (A := A).
Definition GNUNET_CONTAINER_multihashmap_get_random {A} :=
  multimap_get_random (K := GNUNET_HashCode) (A := A).
Definition GNUNET_CONTAINER_multihashmap_iterator_create :=
  multimap_iterator_create (K := GNUNET_HashCode).
Definition GNUNET_CONTAINER_multihashmap_iterator_next := multimap_iterator_next (K := GNUNET_HashCode).

(** Keys are peer identities. *)
Definition GNUNET_CONTAINER_multipeermap_create := multimap_create (K := GNUNET_PeerIdentity).
Definition GNUNET_CONTAINER_multipeermap_destroy := multimap_destroy (K := GNUNET_PeerIdentity).
Definition GNUNET_CONTAINER_multipeermap_size := multimap_size (K := GNUNET_PeerIdentity).
Definition GNUNET_CONTAINER_multipeermap_get := multimap_get (K := GNUNET_PeerIdentity).
Definition GNUNET_CONTAINER_multipeermap_iterate {A} :=
  multimap_iterate (K := GNUNET_PeerIdentity) (A := A).
Definition GNUNET_CONTAINER_multipeermap_remove := multimap_remove (K := GNUNET_PeerIdentity).
Definition GNUNET_CONTAINER_multipeermap_remove_all := multimap_remove_all (K := GNUNET_PeerIdentity).
Definition GNUNET_CONTAINER_multipeermap_contains := multimap_contains (K := GNUNET_PeerIdentity).
Definition GNUNET_CONTAINER_multipeermap_contains_value :=
  multimap_contains_value (K := GNUNET_PeerIdentity).
Definition GNUNET_CONTAINER_multipeermap_put := multimap_put (K := GNUNET_PeerIdentity).
Definition GNUNET_CONTAINER_multipeermap_get_multiple {A} :=
  multimap_get_multiple (K := GNUNET_PeerIdentity) (A := A).
Definition GNUNET_CONTAINER_multipeermap_get_random {A} :=
  multimap_get_random (K := GNUNET_PeerIdentity) (A := A).
Definition GNUNET_CONTAINER_multipeermap_iterator_create :=
  multimap_iterator_create (K := GNUNET_PeerIdentity).
Definition GNUNET_CONTAINER_multipeermap_iterator_next :=
  multimap_iterator_next (K := GNUNET_PeerIdentity).

(** Keys are 32-bit integers; entries always hold the key. *)
Definition GNUNET_CONTAINER_multihashmap32_create (len : Z) := multimap_create (K := uint32) len false.
Definition GNUNET_CONTAINER_multihashmap32_destroy := multimap_destroy (K := uint32).
Definition GNUNET_CONTAINER_multihashmap32_size := multimap_size (K := uint32).
Definition GNUNET_CONTAINER_multihashmap32_get := multimap_get (K := uint32).
Definition GNUNET_CONTAINER_multihashmap32_iterate {A} := multimap_iterate (K := uint32) (A := A).
Definition GNUNET_CONTAINER_multihashmap32_remove := multimap_remove (K := uint32).
Definition GNUNET_CONTAINER_multihashmap32_remove_all := multimap_remove_all (K := uint32).
Definition GNUNET_CONTAINER_multihashmap32_contains := multimap_contains (K := uint32).
Definition GNUNET_CONTAINER_multihashmap32_contains_value := multimap_contains_value (K := uint32).
Definition GNUNET_CONTAINER_multihashmap32_put := multimap_put (K := uint32).
Definition GNUNET_CONTAINER_multihashmap32_get_multiple {A} :=
  multimap_get_multiple (K := uint32) (A := A).
Definition GNUNET_CONTAINER_multihashmap32_iterator_create := multimap_iterator_create (K := uint32).
Definition GNUNET_CONTAINER_multihashmap32_iterator_next := multimap_iterator_next (K := uint32).

(** ** Concrete runs *)

Section Demo.

Definition demo_key (z : Z) : GNUNET_HashCode := mk_hash (le_encode 64 z).

Definition demo_mm_trace : list (mm_op GNUNET_HashCode * mm_res) :=
  [(OpPut 1%positive (demo_key 7) 10 UNIQUE_ONLY, RCode GNUNET_OK);
   (OpPut 2%positive (demo_key 7) 11 UNIQUE_ONLY, RCode GNUNET_SYSERR);
   (OpPut 2%positive (demo_key 9) 12 MULTIPLE, RCode GNUNET_OK);
   (OpPut 3%positive (demo_key 9) 13 MULTIPLE, RCode GNUNET_OK);
   (OpPut 4%positive (demo_key 7) 14 REPLACE, RCode GNUNET_NO);
   (OpRemove (demo_key 9) 12, RCode GNUNET_YES);
   (OpGet (demo_key 7), RValue (Some 14))].

Definition demo_map : MultiMap GNUNET_HashCode :=
  mk_map [[]; [mk_entry 3%positive (demo_key 9) 13]; []; [mk_entry 1%positive (demo_key 7) 14]]
    2 4 false 3.

Definition demo_map0 : MultiMap GNUNET_HashCode := mk_map [[]] 0 1 false 0.

Lemma demo_create : multimap_create 1 false = Some demo_map0.
Proof. reflexivity. Qed.

Lemma demo_mm_run : mm_run demo_map0 demo_mm_trace demo_map.
Proof.
  repeat (eapply mr_step; [first [exact I|apply (bool_decide_unpack _); vm_compute; exact I]
    |vm_compute; reflexivity|vm_compute; reflexivity|]). apply mr_refl.
Qed.

Lemma multimap_refines_bag_witness : bag_run [] demo_mm_trace (bag demo_map).
Proof.
  refine (proj1 (multimap_refines_bag 1 false demo_map0 demo_mm_trace demo_map _ demo_create demo_mm_run)).
  lia.
Defined.

Lemma multimap_iterate_each_once_witness :
  exists l, l ≡ₚ bag demo_map
  /\ multimap_iterate demo_map (Some (fun n _ v => (n + v, GNUNET_OK))) 0
     = let '(c, done) := visit (fun n _ v => (n + v, GNUNET_OK)) l 0 in
       Some (c, if done : bool then Z.of_nat (length l) else GNUNET_SYSERR).
Proof.
  refine (proj1 (multimap_iterate_each_once 1 false demo_map0 demo_mm_trace demo_map
    (fun n _ v => (n + v, GNUNET_OK)) 0 (demo_key 7) _ demo_create demo_mm_run _));
    [lia|vm_compute; reflexivity].
Defined.

Lemma multimap_cursor_each_once_witness :
  exists it, multimap_iterator_create demo_map = Some it /\ drain 3 demo_map it = Some (bag demo_map).
Proof.
  refine (multimap_cursor_each_once 1 false demo_map0 demo_mm_trace demo_map _ demo_create demo_mm_run).
  lia.
Defined.

(** A cursor, a value replaced behind it, and the next call. *)
Lemma multimap_cursor_safe_witness :
  exists it'' r, multimap_iterator_next
      (mk_map [[]; [mk_entry 3%positive (demo_key 9) 99]; []; [mk_entry 1%positive (demo_key 7) 14]]
         2 4 false 3) (mk_iter None 0 3) = Some (it'', r)
    /\ forall p, r = Some p -> p ∈ [(demo_key 9, 99); (demo_key 7, 14)].
Proof.
  refine (multimap_cursor_safe 1 false demo_map0 demo_mm_trace demo_map (mk_iter None 0 3) 1
    _ (mk_iter None 0 3) _ demo_create demo_mm_run _ _ _ _).
  - lia.
  - reflexivity.
  - eapply (cr_op 0 demo_map (mk_iter None 0 3) (OpPut 5%positive (demo_key 9) 99 REPLACE)).
    + apply (bool_decide_unpack _). vm_compute. exact I.
    + vm_compute. reflexivity.
    + discriminate.
    + vm_compute. reflexivity.
    + apply cr_refl.
  - lia.
  - reflexivity.
Defined.

End Demo.
