(* ===== verification/MessageQueue.v ===== *)
(** * Message queues: [src/util/mq.c]

    Applications put messages into envelopes and the envelopes into queues; a queue gives them
    to the function that transmits them, one after the other. Envelopes and queues have
    addresses; a null pointer to a function is 0. Callbacks and the tasks of the scheduler are
    outputs of the operations; what they do is given by further operations. *)

From stdpp Require Import gmap.
From S2P Require Import Prelude Message MultiMap.
#[local] Open Scope Z_scope.

(** ** Data *)

Record GNUNET_MQ_Envelope := mk_envelope {
  mh : list Z;
  parent_queue : option Z;
  sent_cb : Z;
  sent_cls : Z;
  env_flags : Z;
  env_extra : Z;
  have_custom_options : Z;
}.

(** [mv] is a function of its closure and the message. *)
Record GNUNET_MQ_MessageHandler := mk_handler {
  h_mv : option (Z -> list Z -> Z);
  h_cb : Z;
  h_cls : Z;
  h_type : Z;
  expected_size : Z;
}.

Record GNUNET_MQ_DestroyNotificationHandle := mk_dnh { dnh_addr : Z; dnh_cb : Z; dnh_cls : Z }.

(** Of the functions of an implementation only whether they are given. *)
Record GNUNET_MQ_Handle := mk_mq {
  mq_handlers : option (list GNUNET_MQ_MessageHandler);
  destroy_impl : bool;
  cancel_impl : bool;
  error_handler : Z;
  error_handler_cls : Z;
  send_task : option Z;
  envelope_list : list Z;
  current_envelope : option Z;
  assoc_map : option (MultiMap uint32);
  dnh_list : list GNUNET_MQ_DestroyNotificationHandle;
  default_extra : Z;
  default_flags : Z;
  assoc_id : Z;
  queue_length : Z;
  evacuate_called : Z;
  in_flight : Z;
}.

Record mq_state := mk_mqs { envelopes : gmap Z GNUNET_MQ_Envelope; queues : gmap Z GNUNET_MQ_Handle }.

Definition GNUNET_MQ_ERROR_MALFORMED : Z := 8.

Inductive mq_call :=
  | CallSend (q ev : Z) (msg : list Z)
  | CallCancel (q : Z)
  | CallDestroy (q : Z)
  | CallSent (cb cls : Z)
  | CallHandler (cb cls : Z) (msg : list Z)
  | CallError (cb cls error : Z)
  | CallDestroyed (cb cls : Z)
  | AddTask (q task : Z)
  | CancelTask (task : Z).

Definition set_env ev e st := mk_mqs (<[ev := e]> (envelopes st)) (queues st).
Definition free_env ev st := mk_mqs (delete ev (envelopes st)) (queues st).
Definition set_queue q mq st := mk_mqs (envelopes st) (<[q := mq]> (queues st)).
Definition free_queue q st := mk_mqs (envelopes st) (delete q (queues st)).

Definition set_parent p e := mk_envelope (mh e) p (sent_cb e) (sent_cls e) (env_flags e) (env_extra e) (have_custom_options e).
Definition set_sent cb cls e := mk_envelope (mh e) (parent_queue e) cb cls (env_flags e) (env_extra e) (have_custom_options e).

(** The part of a queue that concerns sending. *)
Definition set_sending task l cur len fl mq := mk_mq (mq_handlers mq) (destroy_impl mq) (cancel_impl mq) (error_handler mq)
  (error_handler_cls mq) task l cur (assoc_map mq) (dnh_list mq) (default_extra mq) (default_flags mq) (assoc_id mq) len
  (evacuate_called mq) fl.
Definition set_handlers h mq := mk_mq h (destroy_impl mq) (cancel_impl mq) (error_handler mq) (error_handler_cls mq) (send_task mq)
  (envelope_list mq) (current_envelope mq) (assoc_map mq) (dnh_list mq) (default_extra mq) (default_flags mq) (assoc_id mq)
  (queue_length mq) (evacuate_called mq) (in_flight mq).
Definition set_assoc m id mq := mk_mq (mq_handlers mq) (destroy_impl mq) (cancel_impl mq) (error_handler mq) (error_handler_cls mq)
  (send_task mq) (envelope_list mq) (current_envelope mq) m (dnh_list mq) (default_extra mq) (default_flags mq) id
  (queue_length mq) (evacuate_called mq) (in_flight mq).
Definition set_dnh l mq := mk_mq (mq_handlers mq) (destroy_impl mq) (cancel_impl mq) (error_handler mq) (error_handler_cls mq)
  (send_task mq) (envelope_list mq) (current_envelope mq) (assoc_map mq) l (default_extra mq) (default_flags mq) (assoc_id mq)
  (queue_length mq) (evacuate_called mq) (in_flight mq).
Definition set_default f x mq := mk_mq (mq_handlers mq) (destroy_impl mq) (cancel_impl mq) (error_handler mq) (error_handler_cls mq)
  (send_task mq) (envelope_list mq) (current_envelope mq) (assoc_map mq) (dnh_list mq) x f (assoc_id mq)
  (queue_length mq) (evacuate_called mq) (in_flight mq).
Definition set_evacuate v mq := mk_mq (mq_handlers mq) (destroy_impl mq) (cancel_impl mq) (error_handler mq) (error_handler_cls mq)
  (send_task mq) (envelope_list mq) (current_envelope mq) (assoc_map mq) (dnh_list mq) (default_extra mq) (default_flags mq)
  (assoc_id mq) (queue_length mq) v (in_flight mq).

(** ** Messages that arrive *)

Definition GNUNET_MQ_inject_error (mq : GNUNET_MQ_Handle) (error : Z) : list mq_call :=
  if error_handler mq =? 0 then [] else [CallError (error_handler mq) (error_handler_cls mq) error].

(** The loop over the handlers, whose last has no callback. *)
Fixpoint inject_loop (mq : GNUNET_MQ_Handle) (hs : list GNUNET_MQ_MessageHandler) (m : list Z) : option (list mq_call) :=
  match hs with
  | [] => None
  | h :: hs =>
      if h_cb h =? 0 then Some []
      else if h_type h =? msg_type m then
        let ms := msg_size m in
        Some (if (expected_size h >? ms) || negb (expected_size h =? ms) && match h_mv h with None => true | Some _ => false end
              then GNUNET_MQ_inject_error mq GNUNET_MQ_ERROR_MALFORMED
              else if match h_mv h with None => true | Some mv => GNUNET_OK =? mv (h_cls h) m end
              then [CallHandler (h_cb h) (h_cls h) m]
              else GNUNET_MQ_inject_error mq GNUNET_MQ_ERROR_MALFORMED)
      else inject_loop mq hs m
  end.

Definition GNUNET_MQ_inject_message (q : Z) (m : list Z) (st : mq_state) : option (list mq_call) :=
  let? mq := queues st !! q in
  match mq_handlers mq with
  | None => Some []
  | Some hs => inject_loop mq hs m
  end.

Fixpoint GNUNET_MQ_count_handlers (hs : list GNUNET_MQ_MessageHandler) : option nat :=
  match hs with
  | [] => None
  | h :: hs => if h_cb h =? 0 then Some O else let? n := GNUNET_MQ_count_handlers hs in Some (S n)
  end.

(** The entry that ends a list of handlers. *)
Definition no_handler : GNUNET_MQ_MessageHandler := mk_handler None 0 0 0 0.

Definition GNUNET_MQ_copy_handlers (hs : option (list GNUNET_MQ_MessageHandler))
  : option (option (list GNUNET_MQ_MessageHandler)) :=
  match hs with
  | None => Some None
  | Some hs => let? n := GNUNET_MQ_count_handlers hs in Some (Some (take n hs ++ [no_handler]))
  end.

Fixpoint set_closures (cls : Z) (hs : list GNUNET_MQ_MessageHandler) : option (list GNUNET_MQ_MessageHandler) :=
  match hs with
  | [] => None
  | h :: hs =>
      if h_cb h =? 0 then Some (h :: hs)
      else let? hs := set_closures cls hs in Some (mk_handler (h_mv h) (h_cb h) cls (h_type h) (expected_size h) :: hs)
  end.

Definition GNUNET_MQ_set_handlers_closure (q cls : Z) (st : mq_state) : option mq_state :=
  let? mq := queues st !! q in
  match mq_handlers mq with
  | None => Some st
  | Some hs => let? hs := set_closures cls hs in Some (set_queue q (set_handlers (Some hs) mq) st)
  end.

(** ** Envelopes *)

(** A new message is zero but for its header. *)
Definition GNUNET_MQ_msg_ (addr size type : Z) (st : mq_state) : option mq_state :=
  assert? (sizeof_MessageHeader <=? size) in
  let m := be_encode 2 size ++ be_encode 2 type ++ replicate (Z.to_nat (size - sizeof_MessageHeader)) 0 in
  Some (set_env addr (mk_envelope m None 0 0 0 0 GNUNET_NO) st).

(** The bytes of [hdr] beyond the message are not copied. *)
Definition GNUNET_MQ_msg_copy (addr : Z) (hdr : list Z) (st : mq_state) : option mq_state :=
  assert? (msg_size hdr <=? Z.of_nat (length hdr)) in
  Some (set_env addr (mk_envelope (take (Z.to_nat (msg_size hdr)) hdr) None 0 0 0 0 GNUNET_NO) st).

(** The result is null if the message would be too long. *)
Definition GNUNET_MQ_msg_nested_mh_ (addr base_size type : Z) (nested_mh : option (list Z)) (st : mq_state)
  : option (mq_state * Z) :=
  match nested_mh with
  | None => let? st := GNUNET_MQ_msg_ addr base_size type st in Some (st, addr)
  | Some n =>
      let size := u16 (base_size + msg_size n) in
      if size <? base_size then Some (st, 0)
      else
        let? st := GNUNET_MQ_msg_ addr size type st in
        let? e := envelopes st !! addr in
        assert? (msg_size n <=? Z.of_nat (length n)) in
        let m := splice (Z.to_nat base_size) (take (Z.to_nat (msg_size n)) n) (mh e) in
        Some (set_env addr (mk_envelope m (parent_queue e) (sent_cb e) (sent_cls e) (env_flags e) (env_extra e)
                              (have_custom_options e)) st, addr)
  end.

(** The nested message, or nothing. *)
Definition GNUNET_MQ_extract_nested_mh_ (m : list Z) (base_size : Z) : option (option (list Z)) :=
  let whole_size := msg_size m in
  assert? (whole_size >=? base_size) in
  let nested_size := u16 (whole_size - base_size) in
  if 0 =? nested_size then Some None
  else if nested_size <? sizeof_MessageHeader then Some None
  else
    let nested := drop (Z.to_nat base_size) m in
    if negb (msg_size nested =? nested_size) then Some None
    else Some (Some (take (Z.to_nat nested_size) nested)).

Definition GNUNET_MQ_discard (ev : Z) (st : mq_state) : option mq_state :=
  let? e := envelopes st !! ev in
  assert? bool_decide (parent_queue e = None) in
  Some (free_env ev st).

(** That [env] is in no list follows from its queue. *)
Definition GNUNET_MQ_env_copy (addr env : Z) (st : mq_state) : option mq_state :=
  let? e := envelopes st !! env in
  assert? bool_decide (parent_queue e = None) in
  assert? (sent_cb e =? 0) in
  assert? (GNUNET_NO =? have_custom_options e) in
  GNUNET_MQ_msg_copy addr (mh e) st.

Definition GNUNET_MQ_notify_sent (ev cb cls : Z) (st : mq_state) : option mq_state :=
  let? e := envelopes st !! ev in
  assert? (sent_cb e =? 0) in
  Some (set_env ev (set_sent cb cls e) st).

Definition GNUNET_MQ_env_set_options (ev flags extra : Z) (st : mq_state) : option mq_state :=
  let? e := envelopes st !! ev in
  Some (set_env ev (mk_envelope (mh e) (parent_queue e) (sent_cb e) (sent_cls e) flags extra GNUNET_YES) st).

(** The extra options and the flags. *)
Definition GNUNET_MQ_env_get_options (ev : Z) (st : mq_state) : option (Z * Z) :=
  let? e := envelopes st !! ev in
  if GNUNET_YES =? have_custom_options e then Some (env_extra e, env_flags e)
  else match parent_queue e with
       | None => Some (0, 0)
       | Some q => let? mq := queues st !! q in Some (default_extra mq, default_flags mq)
       end.

Definition GNUNET_MQ_set_options (q flags extra : Z) (st : mq_state) : option mq_state :=
  let? mq := queues st !! q in Some (set_queue q (set_default flags extra mq) st).

(** ** Queues *)

Definition GNUNET_MQ_queue_for_callbacks (q : Z) (destroy cancel : bool) (handlers : option (list GNUNET_MQ_MessageHandler))
    (error error_cls : Z) (st : mq_state) : option mq_state :=
  let? hs := GNUNET_MQ_copy_handlers handlers in
  Some (set_queue q (mk_mq hs destroy cancel error error_cls None [] None None [] 0 0 0 0 0 GNUNET_NO) st).

Definition GNUNET_MQ_get_length (q : Z) (st : mq_state) : option Z :=
  let? mq := queues st !! q in
  Some (if negb (GNUNET_YES =? in_flight mq) then queue_length mq else u32 (queue_length mq - 1)).

Definition GNUNET_MQ_send (q ev : Z) (st : mq_state) : option (mq_state * list mq_call) :=
  let? mq := queues st !! q in
  let? e := envelopes st !! ev in
  assert? bool_decide (parent_queue e = None) in
  let len := u32 (queue_length mq + 1) in
  let st := set_env ev (set_parent (Some q) e) st in
  if bool_decide (current_envelope mq <> None) || bool_decide (send_task mq <> None) then
    let? l := DLL_insert_tail ev (envelope_list mq) in
    Some (set_queue q (set_sending (send_task mq) l (current_envelope mq) len (in_flight mq) mq) st, [])
  else
    assert? bool_decide (envelope_list mq = []) in
    Some (set_queue q (set_sending (send_task mq) [] (Some ev) len (in_flight mq) mq) st, [CallSend q ev (mh e)]).

(** The first envelope that waits is returned. *)
Definition GNUNET_MQ_unsent_head (q : Z) (st : mq_state) : option (mq_state * Z) :=
  let? mq := queues st !! q in
  match envelope_list mq with
  | [] => None
  | ev :: _ =>
      let? l := DLL_remove ev (envelope_list mq) in
      let? e := envelopes st !! ev in
      Some (set_env ev (set_parent None e)
              (set_queue q (set_sending (send_task mq) l (current_envelope mq) (u32 (queue_length mq - 1)) (in_flight mq) mq) st), ev)
  end.

(** The copy does not have the options of the envelope. *)
Definition GNUNET_MQ_send_copy (q addr ev : Z) (st : mq_state) : option (mq_state * list mq_call) :=
  let? e := envelopes st !! ev in
  assert? (msg_size (mh e) <=? Z.of_nat (length (mh e))) in
  let m := take (Z.to_nat (msg_size (mh e))) (mh e) in
  GNUNET_MQ_send q addr (set_env addr (mk_envelope m None (sent_cb e) (sent_cls e) 0 0 GNUNET_NO) st).

(** The task. *)
Definition impl_send_continue (q : Z) (st : mq_state) : option (mq_state * list mq_call) :=
  let? mq := queues st !! q in
  match envelope_list mq with
  | [] => Some (set_queue q (set_sending None [] (current_envelope mq) (queue_length mq) (in_flight mq) mq) st, [])
  | ev :: _ =>
      let? l := DLL_remove ev (envelope_list mq) in
      let? e := envelopes st !! ev in
      Some (set_queue q (set_sending None l (Some ev) (queue_length mq) (in_flight mq) mq) st, [CallSend q ev (mh e)])
  end.

(** The notification, if there is one. *)
Definition notification (e : GNUNET_MQ_Envelope) : list mq_call :=
  if sent_cb e =? 0 then [] else [CallSent (sent_cb e) (sent_cls e)].

(** [task] is the new task of the scheduler. *)
Definition GNUNET_MQ_impl_send_continue (q task : Z) (st : mq_state) : option (mq_state * list mq_call) :=
  let? mq := queues st !! q in
  assert? (0 <? queue_length mq) in
  let? ev := current_envelope mq in
  let? e := envelopes st !! ev in
  assert? bool_decide (send_task mq = None) in
  let mq := set_sending (Some task) (envelope_list mq) None (u32 (queue_length mq - 1)) GNUNET_NO mq in
  Some (free_env ev (set_queue q mq st), AddTask q task :: notification e).

Definition GNUNET_MQ_impl_send_in_flight (q : Z) (st : mq_state) : option (mq_state * list mq_call) :=
  let? mq := queues st !! q in
  let? ev := current_envelope mq in
  let? e := envelopes st !! ev in
  let mq := set_sending (send_task mq) (envelope_list mq) (current_envelope mq) (queue_length mq) GNUNET_YES mq in
  Some (set_env ev (set_sent 0 (sent_cls e) (set_parent None e)) (set_queue q mq st), notification e).

Definition GNUNET_MQ_impl_current (q : Z) (st : mq_state) : option (list Z) :=
  let? mq := queues st !! q in
  let? ev := current_envelope mq in
  let? e := envelopes st !! ev in
  Some (mh e).

Definition GNUNET_MQ_get_current_envelope (q : Z) (st : mq_state) : option (option Z) :=
  let? mq := queues st !! q in Some (current_envelope mq).

Definition GNUNET_MQ_get_last_envelope (q : Z) (st : mq_state) : option (option Z) :=
  let? mq := queues st !! q in
  Some (match last (envelope_list mq) with Some ev => Some ev | None => current_envelope mq end).

Definition GNUNET_MQ_send_cancel (ev : Z) (st : mq_state) : option (mq_state * list mq_call) :=
  let? e := envelopes st !! ev in
  let? q := parent_queue e in
  let? mq := queues st !! q in
  assert? cancel_impl mq in
  let mq := set_evacuate GNUNET_NO mq in
  let? (mq, calls) :=
    if bool_decide (current_envelope mq = Some ev) then
      assert? (0 <? queue_length mq) in
      let len := u32 (queue_length mq - 1) in
      match envelope_list mq with
      | [] => Some (set_sending (send_task mq) [] None len (in_flight mq) mq, [CallCancel q])
      | next :: _ =>
          let? l := DLL_remove next (envelope_list mq) in
          let? n := envelopes st !! next in
          Some (set_sending (send_task mq) l (Some next) len (in_flight mq) mq, [CallCancel q; CallSend q next (mh n)])
      end
    else
      let? l := DLL_remove ev (envelope_list mq) in
      assert? (0 <? queue_length mq) in
      Some (set_sending (send_task mq) l (current_envelope mq) (u32 (queue_length mq - 1)) (in_flight mq) mq, []) in
  let st := set_queue q mq st in
  Some (if negb (GNUNET_YES =? evacuate_called mq) then free_env ev st else st, calls).

(** ** Destruction *)

Definition GNUNET_MQ_destroy_notify (q addr cb cls : Z) (st : mq_state) : option mq_state :=
  let? mq := queues st !! q in Some (set_queue q (set_dnh (mk_dnh addr cb cls :: dnh_list mq) mq) st).

Definition GNUNET_MQ_destroy_notify_cancel (q addr : Z) (st : mq_state) : option mq_state :=
  let? mq := queues st !! q in
  assert? bool_decide (addr ∈ dnh_addr <$> dnh_list mq) in
  Some (set_queue q (set_dnh (filter (fun d => dnh_addr d <> addr) (dnh_list mq)) mq) st).

(** The loop over the envelopes that wait, with the length of the queue. *)
Fixpoint destroy_loop (l : list Z) (len : Z) (st : mq_state) : option (mq_state * Z) :=
  match l with
  | [] => Some (st, len)
  | ev :: l =>
      let? e := envelopes st !! ev in
      let st := set_env ev (set_parent None e) st in
      assert? (0 <? len) in
      let? st := GNUNET_MQ_discard ev st in
      destroy_loop l (u32 (len - 1)) st
  end.

(** What happens to the envelope that is sent. *)
Definition destroy_current (cur : option Z) (len : Z) (st : mq_state) : option (mq_state * Z) :=
  match cur with
  | None => Some (st, len)
  | Some ev =>
      let? e := envelopes st !! ev in
      let? st := GNUNET_MQ_discard ev (set_env ev (set_parent None e) st) in
      assert? (0 <? len) in Some (st, u32 (len - 1))
  end.

Definition GNUNET_MQ_destroy (q : Z) (st : mq_state) : option (mq_state * list mq_call) :=
  let? mq := queues st !! q in
  let c1 := if destroy_impl mq then [CallDestroy q] else [] in
  let c2 := match send_task mq with Some task => [CancelTask task] | None => [] end in
  let? (st, len) := destroy_loop (envelope_list mq) (queue_length mq) st in
  let? (st, len) := destroy_current (current_envelope mq) len st in
  assert? (0 =? len) in
  let c3 := map (fun d => CallDestroyed (dnh_cb d) (dnh_cls d)) (dnh_list mq) in
  Some (free_queue q st, c1 ++ c2 ++ c3).

(** ** Associations *)

Definition GNUNET_MQ_assoc_add (q : Z) (addr : positive) (assoc_data : Z) (st : mq_state) : option (mq_state * Z) :=
  let? mq := queues st !! q in
  let? (m, next) := match assoc_map mq with
                    | Some m => Some (m, assoc_id mq)
                    | None => let? m := GNUNET_CONTAINER_multihashmap32_create 8 in Some (m, 1)
                    end in
  let? (m, _) := GNUNET_CONTAINER_multihashmap32_put addr m (mk_u32 next) assoc_data UNIQUE_ONLY in
  Some (set_queue q (set_assoc (Some m) (u32 (next + 1)) mq) st, next).

(** Null is 0. *)
Definition GNUNET_MQ_assoc_get (q request_id : Z) (st : mq_state) : option Z :=
  let? mq := queues st !! q in
  match assoc_map mq with
  | None => Some 0
  | Some m => let? v := GNUNET_CONTAINER_multihashmap32_get m (mk_u32 request_id) in Some (default 0 v)
  end.

Definition GNUNET_MQ_assoc_remove (q request_id : Z) (st : mq_state) : option (mq_state * Z) :=
  let? mq := queues st !! q in
  match assoc_map mq with
  | None => Some (st, 0)
  | Some m =>
      let? v := GNUNET_CONTAINER_multihashmap32_get m (mk_u32 request_id) in
      let? (m, _) := GNUNET_CONTAINER_multihashmap32_remove_all m (mk_u32 request_id) in
      Some (set_queue q (set_assoc (Some m) (assoc_id mq) mq) st, default 0 v)
  end.

(** ** Invariant *)

Definition bool_of {A} (o : option A) : nat := match o with Some _ => 1%nat | None => 0%nat end.

(** What holds of one queue, with the envelopes [E]. *)
Record queue_ok (E : gmap Z GNUNET_MQ_Envelope) (q : Z) (mq : GNUNET_MQ_Handle) : Prop := {
  qo_nodup : NoDup (envelope_list mq);
  qo_list : forall ev, ev ∈ envelope_list mq -> exists e, E !! ev = Some e /\ parent_queue e = Some q;
  qo_current : match current_envelope mq with
    | Some ev => (ev ∉ envelope_list mq) /\ send_task mq = None
        /\ exists e, E !! ev = Some e
             /\ (in_flight mq = GNUNET_YES /\ parent_queue e = None \/ in_flight mq = GNUNET_NO /\ parent_queue e = Some q)
    | None => in_flight mq = GNUNET_NO /\ (send_task mq = None -> envelope_list mq = [])
    end;
  qo_length : queue_length mq = Z.of_nat (length (envelope_list mq) + bool_of (current_envelope mq));
  qo_bound : queue_length mq < 2 ^ 32;
  qo_handlers : forall hs, mq_handlers mq = Some hs -> Exists (fun h => h_cb h = 0) hs;
  qo_assoc : forall m, assoc_map mq = Some m -> map_wf m /\ is_u32 (assoc_id mq);
}.

(** The envelope waits in the queue or is sent by it. *)
Definition holds (mq : GNUNET_MQ_Handle) (ev : Z) : Prop := ev ∈ envelope_list mq \/ current_envelope mq = Some ev.

Record mq_inv (st : mq_state) : Prop := {
  mi_queue : forall q mq, queues st !! q = Some mq -> queue_ok (envelopes st) q mq;
  mi_parent : forall ev e q, envelopes st !! ev = Some e -> parent_queue e = Some q ->
    exists mq, queues st !! q = Some mq /\ holds mq ev;
  mi_current : forall q1 q2 mq1 mq2 ev, queues st !! q1 = Some mq1 -> queues st !! q2 = Some mq2 ->
    current_envelope mq1 = Some ev -> current_envelope mq2 = Some ev -> q1 = q2;
}.

(** The application has the envelope. *)
Definition owned (st : mq_state) (ev : Z) : Prop :=
  (exists e, envelopes st !! ev = Some e /\ parent_queue e = None)
  /\ forall q mq, queues st !! q = Some mq -> current_envelope mq <> Some ev.

Section Invariant.
Context (st : mq_state) (I : mq_inv st).

(** An envelope is in one queue only. *)
Lemma holds_one q1 q2 mq1 mq2 ev : queues st !! q1 = Some mq1 -> queues st !! q2 = Some mq2 -> holds mq1 ev -> holds mq2 ev -> q1 = q2.
Proof.
  intros H1 H2. pose proof (mi_queue _ I _ _ H1) as Q1. pose proof (mi_queue _ I _ _ H2) as Q2.
  intros [L1|C1] [L2|C2]; [| | |by eapply (mi_current _ I)].
  - destruct (qo_list _ _ _ Q1 _ L1) as (e1 & ? & ?), (qo_list _ _ _ Q2 _ L2) as (e2 & ? & ?). congruence.
  - destruct (qo_list _ _ _ Q1 _ L1) as (e1 & ? & ?). pose proof (qo_current _ _ _ Q2) as C. rewrite C2 in C.
    destruct C as (_ & _ & e2 & ? & [[_ ?]|[_ ?]]); congruence.
  - destruct (qo_list _ _ _ Q2 _ L2) as (e1 & ? & ?). pose proof (qo_current _ _ _ Q1) as C. rewrite C1 in C.
    destruct C as (_ & _ & e2 & ? & [[_ ?]|[_ ?]]); congruence.
Qed.

Lemma owned_free ev q mq : owned st ev -> queues st !! q = Some mq -> ~ holds mq ev.
Proof.
  intros [(e & He & Hp) Ho] Hq [L|C]; [|by eapply Ho]. destruct (qo_list _ _ _ (mi_queue _ I _ _ Hq) _ L) as (e' & ? & ?). congruence.
Qed.
End Invariant.

(** One queue and the envelopes of [X] change, which are in no other queue. *)
Lemma inv_update (X : Z -> Prop) st st' q mq' : mq_inv st -> queues st' = <[q := mq']> (queues st) ->
  (forall ev, X ev \/ (~ X ev /\ envelopes st' !! ev = envelopes st !! ev)) ->
  (forall ev q2 mq2, X ev -> q2 <> q -> queues st !! q2 = Some mq2 -> ~ holds mq2 ev) ->
  queue_ok (envelopes st') q mq' ->
  (forall ev e p, X ev -> envelopes st' !! ev = Some e -> parent_queue e = Some p -> p = q /\ holds mq' ev) ->
  (forall ev mq, ~ X ev -> queues st !! q = Some mq -> holds mq ev -> holds mq' ev) ->
  (forall ev q2 mq2, q2 <> q -> queues st !! q2 = Some mq2 -> current_envelope mq' = Some ev -> current_envelope mq2 <> Some ev) ->
  mq_inv st'.
Proof.
  intros I Eq EX HX Q HP HM HC.
  assert (Hother : forall q2 mq2 ev, q2 <> q -> queues st !! q2 = Some mq2 -> holds mq2 ev -> envelopes st' !! ev = envelopes st !! ev).
  { intros q2 mq2 ev Hne Hq2 Hh. destruct (EX ev) as [Hx|[]]; [|done]. by destruct (HX ev q2 mq2 Hx Hne Hq2). }
  split; rewrite Eq.
  - intros q2 mq2. destruct (decide (q2 = q)) as [->|Hne]; [rewrite lookup_insert_eq; by intros [= <-]|].
    rewrite lookup_insert_ne by done. intros Hq2. destruct (mi_queue _ I _ _ Hq2) as [N L C Len B Hs A]. split; try done.
    + intros ev Hev. rewrite (Hother q2 mq2 ev) by (done || by left). auto.
    + destruct (current_envelope mq2) as [ev|] eqn:Ec; [|done]. rewrite (Hother q2 mq2 ev) by (done || by right). done.
  - intros ev e p He Hp. destruct (EX ev) as [Hx|[Hx Hs]].
    { destruct (HP ev e p Hx He Hp) as [-> Hh]. exists mq'. by rewrite lookup_insert_eq. }
    rewrite Hs in He. destruct (mi_parent _ I _ _ _ He Hp) as (mq & Hq & Hh). destruct (decide (p = q)) as [->|Hne].
    + exists mq'. rewrite lookup_insert_eq. eauto.
    + exists mq. by rewrite lookup_insert_ne.
  - intros q1 q2 mq1 mq2 ev. destruct (decide (q1 = q)) as [->|H1], (decide (q2 = q)) as [->|H2]; try done;
      rewrite ?lookup_insert_eq, ?lookup_insert_ne by done.
    + intros [= <-] Hq2 C1 C2. by destruct (HC ev q2 mq2 H2 Hq2 C1).
    + intros Hq1 [= <-] C1 C2. by destruct (HC ev q1 mq1 H1 Hq1 C2).
    + apply (mi_current _ I).
Qed.

(** Fields that have nothing to do with envelopes change. *)
Lemma inv_fields st q mq mq' : mq_inv st -> queues st !! q = Some mq ->
  envelope_list mq' = envelope_list mq -> current_envelope mq' = current_envelope mq -> send_task mq' = send_task mq ->
  in_flight mq' = in_flight mq -> queue_length mq' = queue_length mq ->
  (forall hs, mq_handlers mq' = Some hs -> Exists (fun h => h_cb h = 0) hs) ->
  (forall m, assoc_map mq' = Some m -> map_wf m /\ is_u32 (assoc_id mq')) ->
  mq_inv (set_queue q mq' st).
Proof.
  intros I Hq El Ec Et Ei En Hh Ha. eapply (inv_update (fun _ => False)); [exact I|done| | | | | |]; cbn; try tauto.
  - destruct (mi_queue _ I _ _ Hq) as [N L C Len B Hs A]. split; rewrite ?El, ?Ec, ?Et, ?Ei, ?En; done.
  - intros ev mq0 _ H0. assert (mq0 = mq) as -> by congruence. unfold holds. by rewrite El, Ec.
  - intros ev q2 mq2 Hne H2 C1 C2. apply Hne. rewrite Ec in C1. eapply (mi_current _ I); eauto.
Qed.

(** Envelopes of the application come, change and go. *)
Lemma inv_owned st st' ev : mq_inv st -> queues st' = queues st ->
  (forall x, x <> ev -> envelopes st' !! x = envelopes st !! x) ->
  (forall q mq, queues st !! q = Some mq -> ~ holds mq ev) ->
  (forall e, envelopes st' !! ev = Some e -> parent_queue e = None) -> mq_inv st'.
Proof.
  intros I Eq EX HX HP.
  assert (Hother : forall q mq x, queues st !! q = Some mq -> holds mq x -> envelopes st' !! x = envelopes st !! x).
  { intros q mq x Hq Hh. apply EX. intros ->. by eapply HX. }
  split; rewrite Eq.
  - intros q mq Hq. destruct (mi_queue _ I _ _ Hq) as [N L C Len B Hs A]. split; try done.
    + intros x Hx. rewrite (Hother q mq x) by (done || by left). auto.
    + destruct (current_envelope mq) as [x|] eqn:Ec; [|done]. rewrite (Hother q mq x) by (done || by right). done.
  - intros x e p He Hp. destruct (decide (x = ev)) as [->|Hne]; [apply HP in He; congruence|].
    rewrite EX in He by done. by eapply (mi_parent _ I).
  - apply (mi_current _ I).
Qed.

(** An envelope gets fields that do not matter here. *)
Lemma inv_env_fields st ev e e' : mq_inv st -> envelopes st !! ev = Some e -> parent_queue e' = parent_queue e -> mq_inv (set_env ev e' st).
Proof.
  intros I He Hp.
  assert (Hl : forall x ex, envelopes st !! x = Some ex -> exists ex', envelopes (set_env ev e' st) !! x = Some ex' /\ parent_queue ex' = parent_queue ex).
  { intros x ex Hx. cbn. destruct (decide (x = ev)) as [->|]; [rewrite lookup_insert_eq|rewrite lookup_insert_ne by done; eauto].
    exists e'. split; [done|]. congruence. }
  split; cbn [set_env queues].
  - intros q mq Hq. destruct (mi_queue _ I _ _ Hq) as [N L C Len B Hs A]. split; try done.
    + intros x Hx. destruct (L x Hx) as (ex & H1 & H2). destruct (Hl x ex H1) as (ex' & H3 & H4). exists ex'. split; [done|congruence].
    + destruct (current_envelope mq) as [x|]; [|done]. destruct C as (C1 & C2 & ex & C3 & C4). split_and!; [done|done|].
      destruct (Hl x ex C3) as (ex' & H3 & H4). exists ex'. rewrite H4. done.
  - intros x ex p. cbn. destruct (decide (x = ev)) as [->|].
    + rewrite lookup_insert_eq. intros [= <-]. rewrite Hp. by apply (mi_parent _ I).
    + rewrite lookup_insert_ne by done. apply (mi_parent _ I).
  - apply (mi_current _ I).
Qed.

(** ** The queue as a list *)

(** What the application, the implementation and the scheduler do. Lookups without effect are
    left out. *)
Inductive mq_op :=
  | OpQueue (q : Z) (destroy cancel : bool) (handlers : option (list GNUNET_MQ_MessageHandler)) (error error_cls : Z)
  | OpMsg (addr size type : Z)
  | OpMsgCopy (addr : Z) (hdr : list Z)
  | OpMsgNested (addr base_size type : Z) (nested : option (list Z))
  | OpEnvCopy (addr env : Z)
  | OpDiscard (ev : Z)
  | OpNotifySent (ev cb cls : Z)
  | OpEnvOptions (ev flags extra : Z)
  | OpOptions (q flags extra : Z)
  | OpSend (q ev : Z)
  | OpSendCopy (q addr ev : Z)
  | OpUnsentHead (q : Z)
  | OpCancel (ev : Z)
  | OpTask (q : Z)
  | OpContinue (q task : Z)
  | OpInFlight (q : Z)
  | OpInject (q : Z) (m : list Z)
  | OpClosure (q cls : Z)
  | OpDestroyNotify (q addr cb cls : Z)
  | OpDestroyNotifyCancel (q addr : Z)
  | OpAssocAdd (q : Z) (addr : positive) (data : Z)
  | OpAssocRemove (q id : Z)
  | OpDestroy (q : Z).

Definition quietly (r : option mq_state) : option (mq_state * list mq_call) := let? st := r in Some (st, []).

Definition mq_step (op : mq_op) (st : mq_state) : option (mq_state * list mq_call) :=
  match op with
  | OpQueue q d c hs e ecls => quietly (GNUNET_MQ_queue_for_callbacks q d c hs e ecls st)
  | OpMsg addr size type => quietly (GNUNET_MQ_msg_ addr size type st)
  | OpMsgCopy addr hdr => quietly (GNUNET_MQ_msg_copy addr hdr st)
  | OpMsgNested addr b t n => let? (st, _) := GNUNET_MQ_msg_nested_mh_ addr b t n st in Some (st, [])
  | OpEnvCopy addr env => quietly (GNUNET_MQ_env_copy addr env st)
  | OpDiscard ev => quietly (GNUNET_MQ_discard ev st)
  | OpNotifySent ev cb cls => quietly (GNUNET_MQ_notify_sent ev cb cls st)
  | OpEnvOptions ev f x => quietly (GNUNET_MQ_env_set_options ev f x st)
  | OpOptions q f x => quietly (GNUNET_MQ_set_options q f x st)
  | OpSend q ev => GNUNET_MQ_send q ev st
  | OpSendCopy q addr ev => GNUNET_MQ_send_copy q addr ev st
  | OpUnsentHead q => let? (st, _) := GNUNET_MQ_unsent_head q st in Some (st, [])
  | OpCancel ev => GNUNET_MQ_send_cancel ev st
  | OpTask q => impl_send_continue q st
  | OpContinue q task => GNUNET_MQ_impl_send_continue q task st
  | OpInFlight q => GNUNET_MQ_impl_send_in_flight q st
  | OpInject q m => let? calls := GNUNET_MQ_inject_message q m st in Some (st, calls)
  | OpClosure q cls => quietly (GNUNET_MQ_set_handlers_closure q cls st)
  | OpDestroyNotify q addr cb cls => quietly (GNUNET_MQ_destroy_notify q addr cb cls st)
  | OpDestroyNotifyCancel q addr => quietly (GNUNET_MQ_destroy_notify_cancel q addr st)
  | OpAssocAdd q addr data => let? (st, _) := GNUNET_MQ_assoc_add q addr data st in Some (st, [])
  | OpAssocRemove q id => let? (st, _) := GNUNET_MQ_assoc_remove q id st in Some (st, [])
  | OpDestroy q => GNUNET_MQ_destroy q st
  end.

(** New envelopes and queues get addresses that are not in use; envelopes are given away once;
    the implementation reports only what it was asked to send; the task runs when it is there. *)
Definition new_env (st : mq_state) (addr : Z) : Prop := envelopes st !! addr = None.
Definition message_ok (m : list Z) : Prop := msg_size m <= Z.of_nat (length m).

Definition op_allowed (op : mq_op) (st : mq_state) : Prop :=
  match op with
  | OpQueue q _ _ hs _ _ => queues st !! q = None /\ (forall l, hs = Some l -> Exists (fun h => h_cb h = 0) l)
  | OpMsg addr size _ => new_env st addr /\ sizeof_MessageHeader <= size
  | OpMsgCopy addr hdr => new_env st addr /\ message_ok hdr
  | OpMsgNested addr b _ n => new_env st addr /\ sizeof_MessageHeader <= b /\ (forall m, n = Some m -> message_ok m)
  | OpEnvCopy addr env => new_env st addr
      /\ exists e, envelopes st !! env = Some e /\ parent_queue e = None /\ sent_cb e = 0 /\ have_custom_options e = GNUNET_NO
           /\ message_ok (mh e)
  | OpDiscard ev => owned st ev
  | OpNotifySent ev _ _ => exists e, envelopes st !! ev = Some e /\ sent_cb e = 0
  | OpEnvOptions ev _ _ => is_Some (envelopes st !! ev)
  | OpSend q ev => owned st ev /\ exists mq, queues st !! q = Some mq /\ queue_length mq + 1 < 2 ^ 32
  | OpSendCopy q addr ev => new_env st addr /\ (exists e, envelopes st !! ev = Some e /\ message_ok (mh e))
      /\ exists mq, queues st !! q = Some mq /\ queue_length mq + 1 < 2 ^ 32
  | OpUnsentHead q => exists mq, queues st !! q = Some mq /\ envelope_list mq <> []
  | OpCancel ev => exists e q mq, envelopes st !! ev = Some e /\ parent_queue e = Some q /\ queues st !! q = Some mq /\ cancel_impl mq = true
  | OpTask q => exists mq, queues st !! q = Some mq /\ send_task mq <> None
  | OpContinue q _ | OpInFlight q => exists mq, queues st !! q = Some mq /\ current_envelope mq <> None
  | OpDestroyNotifyCancel q addr => exists mq, queues st !! q = Some mq /\ addr ∈ dnh_addr <$> dnh_list mq
  | OpAssocAdd q addr _ => exists mq, queues st !! q = Some mq
      /\ forall m, assoc_map mq = Some m -> (addr ∉ e_addr <$> entries m) /\ Z.of_nat (length (entries m)) < capacity
  | OpAssocRemove q _ => exists mq, queues st !! q = Some mq
      /\ forall m, assoc_map mq = Some m -> Z.of_nat (length (entries m)) < capacity
  | OpOptions q _ _ | OpInject q _ | OpClosure q _ | OpDestroyNotify q _ _ _ | OpDestroy q => is_Some (queues st !! q)
  end.

(** The envelopes that wait in a queue, and that which is sent. *)
Definition view (st : mq_state) (q : Z) : list Z * option Z :=
  match queues st !! q with Some mq => (envelope_list mq, current_envelope mq) | None => ([], None) end.

(** A queue in the abstract: envelopes are appended by the application, those it takes back are
    removed, and the implementation has one at a time... *)
Definition spec_op (q : Z) (op : mq_op) (v : list Z * option Z) : list Z * option Z :=
  match op with
  | OpSend q' ev | OpSendCopy q' ev _ => if decide (q' = q) then (v.1 ++ [ev], v.2) else v
  | OpUnsentHead q' => if decide (q' = q) then (tail v.1, v.2) else v
  | OpCancel ev => (filter (fun x => x <> ev) v.1, if decide (v.2 = Some ev) then None else v.2)
  | OpContinue q' _ => if decide (q' = q) then (v.1, None) else v
  | OpQueue q' _ _ _ _ _ | OpDestroy q' => if decide (q' = q) then ([], None) else v
  | _ => v
  end.

(** ... which is the first of those that wait. *)
Definition spec_call (q : Z) (call : mq_call) (v : list Z * option Z) : option (list Z * option Z) :=
  match call with
  | CallSend q' ev _ =>
      if decide (q' = q) then
        match v with
        | (x :: w, None) => assert? bool_decide (x = ev) in Some (w, Some ev)
        | _ => None
        end
      else Some v
  | _ => Some v
  end.

Fixpoint spec_calls (q : Z) (calls : list mq_call) (v : list Z * option Z) : option (list Z * option Z) :=
  match calls with
  | [] => Some v
  | c :: calls => let? v := spec_call q c v in spec_calls q calls v
  end.

Fixpoint spec_run (q : Z) (tr : list (mq_op * list mq_call)) (v : list Z * option Z) : option (list Z * option Z) :=
  match tr with
  | [] => Some v
  | (op, calls) :: tr => let? v := spec_calls q calls (spec_op q op v) in spec_run q tr v
  end.

(** ** Operations *)

Definition refines (op : mq_op) (st st' : mq_state) (calls : list mq_call) : Prop :=
  mq_inv st' /\ forall q, spec_calls q calls (spec_op q op (view st q)) = Some (view st' q).

Lemma view_set_queue st st' q mq q' : queues st' = queues st ->
  view (set_queue q mq st') q' = if decide (q = q') then (envelope_list mq, current_envelope mq) else view st q'.
Proof.
  intros E. unfold view. cbn. rewrite E. case_decide as H; [subst; by rewrite lookup_insert_eq|by rewrite lookup_insert_ne].
Qed.

Lemma view_lookup st q mq : queues st !! q = Some mq -> view st q = (envelope_list mq, current_envelope mq).
Proof. intros H. unfold view. by rewrite H. Qed.

(** Operations that do not concern the envelopes in queues. *)
Lemma refines_quiet op st st' calls : mq_inv st' -> (forall q, view st' q = view st q) -> (forall q v, spec_op q op v = v) ->
  (forall c, c ∈ calls -> forall q v, spec_call q c v = Some v) -> refines op st st' calls.
Proof.
  intros I Hv Ho Hc. split; [done|]. intros q. rewrite Ho, Hv. clear Ho. induction calls as [|c calls IH]; [done|]. cbn.
  rewrite Hc by set_solver. apply IH. intros c' Hc'. apply Hc. set_solver.
Qed.

Lemma u32_len E q mq : queue_ok E q mq -> 0 <= queue_length mq.
Proof. intros Q. rewrite (qo_length _ _ _ Q). lia. Qed.

(** One queue and one envelope change. *)
Lemma inv_one st st' q mq mq' ev : mq_inv st -> queues st !! q = Some mq -> queues st' = <[q := mq']> (queues st) ->
  (forall x, x <> ev -> envelopes st' !! x = envelopes st !! x) ->
  (forall q2 mq2, q2 <> q -> queues st !! q2 = Some mq2 -> ~ holds mq2 ev) ->
  queue_ok (envelopes st') q mq' ->
  (forall e p, envelopes st' !! ev = Some e -> parent_queue e = Some p -> p = q /\ holds mq' ev) ->
  (forall x, x <> ev -> holds mq x -> holds mq' x) ->
  (forall x, current_envelope mq' = Some x -> holds mq x \/ x = ev) -> mq_inv st'.
Proof.
  intros I Hq Eq EX HX Q HP HM HC. eapply (inv_update (fun x => x = ev)); [exact I|done| | |done| | |].
  - intros x. destruct (decide (x = ev)); [by left|right; auto].
  - intros x q2 mq2 ->. apply HX.
  - intros x e p ->. apply HP.
  - intros x mq0 Hne H0. assert (mq0 = mq) as -> by congruence. by apply HM.
  - intros x q2 mq2 Hne H2 C1 C2. destruct (HC x C1) as [Hh| ->].
    + apply Hne. eapply (holds_one st I q2 q mq2 mq x); [done|done|by right|done].
    + apply (HX q2 mq2 Hne H2). by right.
Qed.

(** The rest of a queue. *)
Lemma queue_ok_sending E E' q mq task l cur len fl : queue_ok E q mq -> NoDup l ->
  (forall ev, ev ∈ l -> exists e, E' !! ev = Some e /\ parent_queue e = Some q) ->
  match cur with
  | Some ev => (ev ∉ l) /\ task = None
      /\ exists e, E' !! ev = Some e /\ (fl = GNUNET_YES /\ parent_queue e = None \/ fl = GNUNET_NO /\ parent_queue e = Some q)
  | None => fl = GNUNET_NO /\ (task = None -> l = [])
  end ->
  len = Z.of_nat (length l + bool_of cur) -> len < 2 ^ 32 -> queue_ok E' q (set_sending task l cur len fl mq).
Proof. intros [N L C Len B Hh A] HN HL HC Hlen HB. by split. Qed.

(** What a queue has is not changed with another envelope. *)
Lemma list_others (E E' : gmap Z GNUNET_MQ_Envelope) q (l : list Z) ev : (forall x, x <> ev -> E' !! x = E !! x) -> ev ∉ l ->
  (forall x, x ∈ l -> exists e, E !! x = Some e /\ parent_queue e = Some q) ->
  forall x, x ∈ l -> exists e : GNUNET_MQ_Envelope, E' !! x = Some e /\ parent_queue e = Some q.
Proof. intros HE Hn HL x Hx. rewrite HE by (by intros ->). auto. Qed.

Lemma insert_others {A} (m : gmap Z A) ev e x : x <> ev -> <[ev := e]> m !! x = m !! x.
Proof. intros H. by rewrite lookup_insert_ne. Qed.

Lemma delete_others {A} (m : gmap Z A) ev x : x <> ev -> delete ev m !! x = m !! x.
Proof. intros H. by rewrite lookup_delete_ne. Qed.
#[local] Hint Resolve insert_others delete_others : core.

Section Held.
Context (st : mq_state) (I : mq_inv st) (q : Z) (mq : GNUNET_MQ_Handle) (Hq : queues st !! q = Some mq).

Lemma held_apart ev : holds mq ev -> forall q2 mq2, q2 <> q -> queues st !! q2 = Some mq2 -> ~ holds mq2 ev.
Proof. intros Hh q2 mq2 Hne H2 Hh2. apply Hne. by eapply (holds_one st I). Qed.

Lemma owned_apart ev : owned st ev -> forall q2 mq2, q2 <> q -> queues st !! q2 = Some mq2 -> ~ holds mq2 ev.
Proof. intros Ho q2 mq2 _. by apply owned_free. Qed.

(** An envelope that no queue holds is sent. *)
Lemma send_waits ev e : owned st ev -> envelopes st !! ev = Some e -> queue_length mq + 1 < 2 ^ 32 ->
  current_envelope mq <> None \/ send_task mq <> None ->
  mq_inv (set_queue q (set_sending (send_task mq) (envelope_list mq ++ [ev]) (current_envelope mq) (queue_length mq + 1) (in_flight mq) mq)
            (set_env ev (set_parent (Some q) e) st)).
Proof.
  intros Ho He Hb Hbusy. pose proof (mi_queue _ I _ _ Hq) as Q. pose proof (owned_free _ I _ _ _ Ho Hq) as Hn.
  assert (Hl : ev ∉ envelope_list mq) by (intros ?; apply Hn; by left).
  eapply (inv_one st _ q mq _ ev); [exact I|exact Hq|done|cbn; auto|by apply owned_apart| | | |]; cbn.
  - destruct Q as [N L C Len B Hh A]. apply (queue_ok_sending (envelopes st)); [by split| | | | |done].
    + apply NoDup_app. split_and!; [done| |apply NoDup_singleton]. intros x Hx ->%list_elem_of_singleton. done.
    + intros x [Hx|Hx%list_elem_of_singleton]%elem_of_app; [|subst; rewrite lookup_insert_eq; by eexists].
      eapply list_others; [|exact Hl|exact L|done]. auto.
    + destruct (current_envelope mq) as [c|] eqn:Ec.
      * destruct C as (C1 & C2 & e' & C3 & C4). assert (c <> ev) by (intros ->; apply Hn; by right).
        split_and!; [set_solver|done|]. exists e'. by rewrite lookup_insert_ne.
      * destruct C as [C1 C2]. split; [done|]. intros Ht. destruct Hbusy; congruence.
    + rewrite length_app. cbn. lia.
  - rewrite lookup_insert_eq. intros e' p [= <-] [= <-]. split; [done|]. left. cbn. set_solver.
  - intros x _ [Hx|Hx]; [left; cbn; set_solver|by right].
  - intros x Hx. left. by right.
Qed.

Lemma send_starts ev e : owned st ev -> envelopes st !! ev = Some e -> current_envelope mq = None -> send_task mq = None ->
  envelope_list mq = [] /\
  mq_inv (set_queue q (set_sending (send_task mq) [] (Some ev) (queue_length mq + 1) (in_flight mq) mq)
            (set_env ev (set_parent (Some q) e) st)).
Proof.
  intros Ho He Ec Et. pose proof (mi_queue _ I _ _ Hq) as Q. pose proof (qo_current _ _ _ Q) as C. rewrite Ec in C.
  destruct C as [C1 C2]. specialize (C2 Et). split; [done|].
  pose proof (qo_length _ _ _ Q) as Len. rewrite C2, Ec in Len. cbn in Len.
  eapply (inv_one st _ q mq _ ev); [exact I|exact Hq|done|cbn; auto|by apply owned_apart| | | |]; cbn.
  - apply (queue_ok_sending (envelopes st)); [done|constructor|by intros x ?%elem_of_nil| |cbn; lia|lia].
    split_and!; [apply not_elem_of_nil|done|]. rewrite lookup_insert_eq. eexists. split; [done|]. by right.
  - rewrite lookup_insert_eq. intros e' p [= <-] [= <-]. split; [done|]. by right.
  - intros x _ [Hx|Hx]; [rewrite C2 in Hx; by apply elem_of_nil in Hx|congruence].
  - intros x [= <-]. by right.
Qed.
End Held.

Lemma send_refines q ev st mq : mq_inv st -> owned st ev -> queues st !! q = Some mq -> queue_length mq + 1 < 2 ^ 32 ->
  exists st' calls, GNUNET_MQ_send q ev st = Some (st', calls) /\ refines (OpSend q ev) st st' calls.
Proof.
  intros I Ho Hq Hb. unfold GNUNET_MQ_send. rewrite Hq. destruct (proj1 Ho) as (e & He & Hp). rewrite He, bool_decide_eq_true_2 by done.
  pose proof (mi_queue _ I _ _ Hq) as Q. pose proof (u32_len _ _ _ Q) as H0. pose proof (owned_free _ I _ _ _ Ho Hq) as Hn.
  rewrite u32_small by (unfold is_u32; lia).
  destruct (bool_decide (current_envelope mq <> None) || bool_decide (send_task mq <> None)) eqn:E.
  - unfold DLL_insert_tail. rewrite bool_decide_eq_false_2 by (intros H; apply Hn; by left). cbn [negb].
    do 2 eexists. split; [done|]. split.
    + apply send_waits; try done. apply orb_true_iff in E as [E%bool_decide_eq_true|E%bool_decide_eq_true]; auto.
    + intros q'. rewrite (view_set_queue st) by done. unfold spec_op. destruct (decide (q = q')) as [<-|]; [|by destruct (view st q')].
      by rewrite (view_lookup _ _ _ Hq).
  - apply orb_false_iff in E as [E1%bool_decide_eq_false E2%bool_decide_eq_false]. apply dec_stable in E1, E2.
    destruct (send_starts st I q mq Hq ev e Ho He E1 E2) as [C2 I']. rewrite bool_decide_eq_true_2 by done.
    do 2 eexists. split; [done|]. split; [done|].
    intros q'. rewrite (view_set_queue st) by done. unfold spec_op. destruct (decide (q = q')) as [<-|];
      [|destruct (view st q'); cbn; by rewrite decide_False].
    rewrite (view_lookup _ _ _ Hq), C2, E1. cbn. by rewrite decide_True, bool_decide_eq_true_2 by done.
Qed.

Lemma DLL_remove_head ev l : NoDup (ev :: l) -> DLL_remove ev (ev :: l) = Some l.
Proof.
  intros [Hn _]%NoDup_cons. unfold DLL_remove. rewrite bool_decide_eq_true_2 by set_solver. by rewrite filter_head.
Qed.

(** The first envelope is taken back. *)
Lemma unsent_head_refines q st mq : mq_inv st -> queues st !! q = Some mq -> envelope_list mq <> [] ->
  exists st' ev, GNUNET_MQ_unsent_head q st = Some (st', ev) /\ refines (OpUnsentHead q) st st' [] /\ head (envelope_list mq) = Some ev
    /\ owned st' ev.
Proof.
  intros I Hq Hne. unfold GNUNET_MQ_unsent_head. rewrite Hq. pose proof (mi_queue _ I _ _ Hq) as Q.
  destruct (envelope_list mq) as [|ev l] eqn:El; [done|]. destruct Q as [N L C Len B Hh A]. rewrite El in *.
  rewrite DLL_remove_head by done. destruct (L ev) as (e & He & Hp); [set_solver|]. rewrite He.
  apply NoDup_cons in N as [Hn N]. cbn in Len. assert (Hc : current_envelope mq <> Some ev).
  { intros Hc. rewrite Hc in C. destruct C as (C & _). set_solver. }
  rewrite u32_small by (unfold is_u32; lia). do 2 eexists. split; [done|].
  assert (Hev : holds mq ev) by (left; rewrite El; set_solver).
  set (mq' := set_sending _ _ _ _ _ mq). set (st' := set_env _ _ _).
  assert (I' : mq_inv st').
  { eapply (inv_one st st' q mq mq' ev); [exact I|exact Hq|done|cbn; auto|by eapply held_apart| | | |]; cbn.
    - apply (queue_ok_sending (envelopes st)); [by split; rewrite ?El; try done; apply NoDup_cons|done| | |lia|lia].
      + intros x Hx. eapply (list_others (envelopes st)); [|exact Hn| |exact Hx]; [auto|]. intros y Hy. apply L. set_solver.
      + destruct (current_envelope mq) as [c|].
        * destruct C as (C1 & C2 & e' & C3 & C4). split_and!; [set_solver|done|]. exists e'. rewrite lookup_insert_ne by congruence. done.
        * destruct C as [C1 C2]. split; [done|]. intros Ht. by specialize (C2 Ht).
    - rewrite lookup_insert_eq. intros e' p [= <-]. done.
    - intros x Hx [Hh'|Hh']; [left; cbn; rewrite El in Hh'; set_solver|by right].
    - intros x Hx. left. by right. }
  split_and!; [|done|]; [split; [done|]|].
  - intros q'. change (view st' q') with (view (set_queue q mq' st) q'). rewrite (view_set_queue st) by done. unfold spec_op.
    destruct (decide (q = q')) as [<-|]; [|by destruct (view st q')]. by rewrite (view_lookup _ _ _ Hq), El.
  - split; [eexists; cbn; by rewrite lookup_insert_eq|]. intros q2 mq2. cbn. destruct (decide (q2 = q)) as [->|].
    + rewrite lookup_insert_eq. by intros [= <-].
    + rewrite lookup_insert_ne by done. intros H2 Hc2. apply (held_apart st I q mq Hq ev Hev q2 mq2); [done|done|by right].
Qed.

(** The next envelope is given to the implementation. *)
Lemma task_refines q st mq : mq_inv st -> queues st !! q = Some mq -> send_task mq <> None ->
  exists st' calls, impl_send_continue q st = Some (st', calls) /\ refines (OpTask q) st st' calls.
Proof.
  intros I Hq Ht. unfold impl_send_continue. rewrite Hq. pose proof (mi_queue _ I _ _ Hq) as Q.
  assert (Hc : current_envelope mq = None).
  { destruct (current_envelope mq) eqn:E; [|done]. pose proof (qo_current _ _ _ Q) as C. rewrite E in C. by destruct C as (_ & C & _). }
  destruct Q as [N L C Len B Hh A]. rewrite Hc in C, Len. destruct C as [C1 C2].
  destruct (envelope_list mq) as [|ev l] eqn:El.
  - do 2 eexists. split; [done|]. split.
    + eapply (inv_update (fun _ => False)); [exact I|done|cbn; auto|done| |done| |]; cbn.
      * apply (queue_ok_sending (envelopes st)); [by split; rewrite ?El, ?Hc|done|done|by rewrite Hc|cbn in Len |- *; rewrite Hc; cbn; lia|done].
      * intros x mq0 _ H0. assert (mq0 = mq) as -> by congruence. unfold holds. cbn. by rewrite El.
      * intros x q2 mq2 Hne H2 Cx. congruence.
    + intros q'. rewrite (view_set_queue st) by done. unfold spec_op. destruct (decide (q = q')) as [<-|]; [|by destruct (view st q')].
      by rewrite (view_lookup _ _ _ Hq), El, Hc.
  - rewrite DLL_remove_head by done. destruct (L ev) as (e & He & Hp); [set_solver|]. rewrite He. apply NoDup_cons in N as [Hn N].
    do 2 eexists. split; [done|]. assert (Hev : holds mq ev) by (left; rewrite El; set_solver). split.
    + eapply (inv_one st _ q mq _ ev); [exact I|exact Hq|done|done|by eapply held_apart| | | |]; cbn.
      * apply (queue_ok_sending (envelopes st)); [split; rewrite ?El, ?Hc; try done; by apply NoDup_cons|done| | |cbn in *; lia|done].
        -- intros x Hx. apply L. set_solver.
        -- split_and!; [done|done|]. exists e. split; [done|]. by right.
      * intros e' p. rewrite He. intros [= <-]. rewrite Hp. intros [= <-]. split; [done|]. by right.
      * intros x Hx [Hh'|Hh']; [left; cbn; rewrite El in Hh'; set_solver|congruence].
      * intros x [= <-]. by right.
    + intros q'. rewrite (view_set_queue st) by done. unfold spec_op. destruct (decide (q = q')) as [<-|];
        [|destruct (view st q'); cbn; by rewrite decide_False].
      rewrite (view_lookup _ _ _ Hq), El, Hc. cbn. by rewrite decide_True, bool_decide_eq_true_2 by done.
Qed.

(** The implementation is done with an envelope. *)
Lemma continue_refines q task st mq : mq_inv st -> queues st !! q = Some mq -> current_envelope mq <> None ->
  exists st' calls, GNUNET_MQ_impl_send_continue q task st = Some (st', calls) /\ refines (OpContinue q task) st st' calls.
Proof.
  intros I Hq Hc. unfold GNUNET_MQ_impl_send_continue. rewrite Hq. destruct (mi_queue _ I _ _ Hq) as [N L C Len B Hh A].
  destruct (current_envelope mq) as [ev|] eqn:Ec; [|done]. destruct C as (C1 & C2 & e & C3 & C4). cbn in Len.
  replace (0 <? queue_length mq) with true by lia. rewrite C3, bool_decide_eq_true_2 by done.
  rewrite u32_small by (unfold is_u32; lia). do 2 eexists. split; [done|].
  assert (Hev : holds mq ev) by by right. set (mq' := set_sending _ _ _ _ _ mq). split.
  - eapply (inv_one st _ q mq mq' ev); [exact I|exact Hq|done|cbn; auto|by eapply held_apart| | | |]; cbn.
    + apply (queue_ok_sending (envelopes st)); [split; rewrite ?Ec; try done; eauto|done| |done|cbn; lia|lia].
      eapply list_others; [|exact C1|exact L]. auto.
    + by rewrite lookup_delete_eq.
    + intros x Hx [Hh'|Hh']; [by left|congruence].
    + done.
  - intros q'. change (view (free_env ev (set_queue q mq' st)) q') with (view (set_queue q mq' st) q').
    rewrite (view_set_queue st) by done. unfold notification.
    assert (E : forall v, spec_calls q' (AddTask q task :: (if sent_cb e =? 0 then [] else [CallSent (sent_cb e) (sent_cls e)])) v = Some v)
      by (intros v; by destruct (sent_cb e =? 0)).
    rewrite E. unfold spec_op. destruct (decide (q = q')) as [<-|]; [|by destruct (view st q')]. by rewrite (view_lookup _ _ _ Hq).
Qed.

Lemma in_flight_refines q st mq : mq_inv st -> queues st !! q = Some mq -> current_envelope mq <> None ->
  exists st' calls, GNUNET_MQ_impl_send_in_flight q st = Some (st', calls) /\ refines (OpInFlight q) st st' calls.
Proof.
  intros I Hq Hc. unfold GNUNET_MQ_impl_send_in_flight. rewrite Hq. destruct (mi_queue _ I _ _ Hq) as [N L C Len B Hh A].
  destruct (current_envelope mq) as [ev|] eqn:Ec; [|done]. destruct C as (C1 & C2 & e & C3 & C4). rewrite C3.
  do 2 eexists. split; [done|]. assert (Hev : holds mq ev) by by right. set (mq' := set_sending _ _ _ _ _ mq). split.
  - eapply (inv_one st _ q mq mq' ev); [exact I|exact Hq|done|cbn; auto|by eapply held_apart| | | |]; cbn.
    + apply (queue_ok_sending (envelopes st)); [split; rewrite ?Ec; try done; eauto|done| | |done|done].
      * eapply list_others; [|exact C1|exact L]. auto.
      * rewrite lookup_insert_eq. split_and!; [done|done|]. eexists. split; [done|]. by left.
    + rewrite lookup_insert_eq. by intros e' p [= <-].
    + intros x Hx [Hh'|Hh']; [by left|by right; rewrite Ec in Hh'].
    + intros x [= <-]. by right.
  - intros q'. set (e' := set_sent _ _ _). change (view (set_env ev e' (set_queue q mq' st)) q') with (view (set_queue q mq' st) q').
    rewrite (view_set_queue st) by done. unfold notification.
    assert (E : forall v, spec_calls q' (if sent_cb e =? 0 then [] else [CallSent (sent_cb e) (sent_cls e)]) v = Some v)
      by (intros v; by destruct (sent_cb e =? 0)).
    rewrite E. unfold spec_op. destruct (decide (q = q')) as [<-|]; [|by destruct (view st q')]. by rewrite (view_lookup _ _ _ Hq), Ec.
Qed.

(** Other queues do not notice that an envelope is cancelled. *)
Lemma cancel_elsewhere st q mq ev q' : mq_inv st -> queues st !! q = Some mq -> holds mq ev -> q' <> q ->
  spec_op q' (OpCancel ev) (view st q') = view st q'.
Proof.
  intros I Hq Hh Hne. unfold spec_op, view. destruct (queues st !! q') as [mq'|] eqn:Hq'; [|done].
  assert (Hn : ~ holds mq' ev) by by eapply (held_apart st I q mq Hq ev Hh). rewrite decide_False by (intros H; apply Hn; by right).
  rewrite filter_all; [done|]. intros x Hx ->. apply Hn. by left.
Qed.

Section Cancel.
Context (st : mq_state) (I : mq_inv st) (q : Z) (mq : GNUNET_MQ_Handle) (Hq : queues st !! q = Some mq).
Context (ev : Z) (Hev : holds mq ev).

(** The queue gets other values and the envelope is freed. *)
Lemma cancelled_inv mq' : queue_ok (delete ev (envelopes st)) q mq' -> (forall x, x <> ev -> holds mq x -> holds mq' x) ->
  (forall x, current_envelope mq' = Some x -> holds mq x) -> mq_inv (free_env ev (set_queue q mq' st)).
Proof.
  intros Q HM HC. eapply (inv_one st _ q mq mq' ev); [exact I|exact Hq|done|cbn; auto|by eapply held_apart|done| |done|].
  - cbn. by rewrite lookup_delete_eq.
  - intros x Hx. left. auto.
Qed.

(** The envelope is being sent: the next one takes its place. *)
Lemma cancel_current e : envelopes st !! ev = Some e -> parent_queue e = Some q -> current_envelope mq = Some ev ->
  in_flight mq = GNUNET_NO /\ 0 < queue_length mq /\ forall cur l, envelope_list mq = match cur with Some x => x :: l | None => l end ->
    (cur = None -> l = []) ->
    mq_inv (free_env ev (set_queue q (set_sending (send_task mq) l cur (queue_length mq - 1) (in_flight mq) (set_evacuate GNUNET_NO mq)) st)).
Proof.
  intros He Hp Hc. destruct (mi_queue _ I _ _ Hq) as [N L C Len B Hh A]. rewrite Hc in C, Len. destruct C as (C1 & C2 & e' & C3 & C4).
  assert (e' = e) as -> by congruence. assert (Hf : in_flight mq = GNUNET_NO) by (destruct C4 as [[_ ?]|[? _]]; congruence).
  split; [done|]. cbn in Len. split; [lia|]. intros cur l El Hl. apply cancelled_inv.
  - apply (queue_ok_sending (envelopes st)); [split; cbn; rewrite ?Hc; try done; eauto 10| | | | |lia].
    + rewrite El in N. destruct cur; [by apply NoDup_cons in N as [_ N]|done].
    + intros x Hx. assert (Hin : x ∈ envelope_list mq) by (rewrite El; destruct cur; set_solver).
      rewrite lookup_delete_ne by (intros <-; done). auto.
    + destruct cur as [c|]; [|auto]. rewrite El in N, L, C1. apply NoDup_cons in N as [N _]. split_and!; [done|done|].
      destruct (L c) as (ec & H1 & H2); [set_solver|]. exists ec. rewrite lookup_delete_ne by set_solver. split; [done|]. by right.
    + rewrite Len, El. destruct cur; cbn; lia.
  - intros x Hx [Hh'|Hh']; [|congruence]. unfold holds. cbn. rewrite El in Hh'. destruct cur; set_solver.
  - cbn. intros x ->. left. rewrite El. set_solver.
Qed.

(** The envelope waits. *)
Lemma cancel_waiting : current_envelope mq <> Some ev -> (ev ∈ envelope_list mq) /\ 0 < queue_length mq /\
  mq_inv (free_env ev (set_queue q (set_sending (send_task mq) (filter (fun x => x <> ev) (envelope_list mq)) (current_envelope mq)
            (queue_length mq - 1) (in_flight mq) (set_evacuate GNUNET_NO mq)) st)).
Proof.
  intros Hc. destruct Hev as [Hl|]; [|done]. destruct (mi_queue _ I _ _ Hq) as [N L C Len B Hh A].
  pose proof (filter_ne_length _ _ N Hl) as Hlen. split_and!; [done|lia|]. apply cancelled_inv.
  - apply (queue_ok_sending (envelopes st)); [by split|by apply NoDup_filter| | |lia|lia].
    + intros x [Hx Hin]%list_elem_of_filter. rewrite lookup_delete_ne by congruence. auto.
    + destruct (current_envelope mq) as [c|]; [|destruct C as [C1 C2]; split; [done|]; intros Ht; by rewrite C2].
      destruct C as (C1 & C2 & e & C3 & C4). split_and!; [by intros [_ ?]%list_elem_of_filter|done|].
      exists e. by rewrite lookup_delete_ne by congruence.
  - intros x Hx [Hh'|Hh']; [left; cbn; by apply list_elem_of_filter|by right].
  - intros x Hx. by right.
Qed.
End Cancel.

Lemma cancel_refines ev e q st mq : mq_inv st -> envelopes st !! ev = Some e -> parent_queue e = Some q -> queues st !! q = Some mq ->
  cancel_impl mq = true -> exists st' calls, GNUNET_MQ_send_cancel ev st = Some (st', calls) /\ refines (OpCancel ev) st st' calls.
Proof.
  intros I He Hp Hq Hci. unfold GNUNET_MQ_send_cancel. rewrite He, Hp, Hq, Hci. cbn [current_envelope set_evacuate envelope_list queue_length send_task in_flight].
  assert (Hev : holds mq ev) by (destruct (mi_parent _ I _ _ _ He Hp) as (mq0 & H0 & ?); congruence).
  pose proof (qo_bound _ _ _ (mi_queue _ I _ _ Hq)) as B. pose proof (qo_current _ _ _ (mi_queue _ I _ _ Hq)) as C.
  assert (Hv : forall mq' q', view (free_env ev (set_queue q mq' st)) q' =
    if decide (q = q') then (envelope_list mq', current_envelope mq') else view st q') by (intros; by apply (view_set_queue st)).
  destruct (bool_decide (current_envelope mq = Some ev)) eqn:Ec.
  - apply bool_decide_eq_true in Ec. destruct (cancel_current st I q mq Hq ev Hev e He Hp Ec) as (Hf & H0 & HI).
    replace (0 <? queue_length mq) with true by lia. rewrite Ec in C. destruct C as (C1 & _).
    destruct (envelope_list mq) as [|n l] eqn:El.
    + rewrite u32_small by (unfold is_u32; lia). cbn [evacuate_called set_sending set_evacuate].
    change (negb (GNUNET_YES =? GNUNET_NO)) with true. do 2 eexists. split; [done|]. split; [by apply (HI None [])|].
      intros q'. cbn [spec_calls spec_call]. rewrite Hv.
      destruct (decide (q = q')) as [<-|Hne]; [|by erewrite (cancel_elsewhere st q mq)].
      rewrite (view_lookup _ _ _ Hq), El, Ec. cbn. by rewrite decide_True.
    + pose proof (qo_nodup _ _ _ (mi_queue _ I _ _ Hq)) as N. rewrite El in N. rewrite DLL_remove_head by done.
      destruct (qo_list _ _ _ (mi_queue _ I _ _ Hq) n) as (en & Hn & _); [rewrite El; set_solver|]. rewrite Hn.
      rewrite u32_small by (unfold is_u32; lia). cbn [evacuate_called set_sending set_evacuate].
    change (negb (GNUNET_YES =? GNUNET_NO)) with true. do 2 eexists. split; [done|]. split; [by apply (HI (Some n) l)|].
      intros q'. cbn [spec_calls spec_call]. rewrite Hv.
      destruct (decide (q = q')) as [<-|Hne]; [|by erewrite (cancel_elsewhere st q mq)].
      rewrite (view_lookup _ _ _ Hq), El, Ec. cbn [spec_op]. rewrite decide_True by done. rewrite filter_all by (intros x Hx ->; done).
      cbn. by rewrite bool_decide_eq_true_2.
  - apply bool_decide_eq_false in Ec. destruct (cancel_waiting st I q mq Hq ev Hev Ec) as (Hl & H0 & HI).
    unfold DLL_remove. rewrite bool_decide_eq_true_2 by done. replace (0 <? queue_length mq) with true by lia.
    rewrite u32_small by (unfold is_u32; lia). cbn [evacuate_called set_sending set_evacuate].
    change (negb (GNUNET_YES =? GNUNET_NO)) with true. do 2 eexists. split; [done|]. split; [done|].
    intros q'. cbn [spec_calls spec_call]. rewrite Hv.
    destruct (decide (q = q')) as [<-|Hne]; [|by erewrite (cancel_elsewhere st q mq)].
    rewrite (view_lookup _ _ _ Hq). cbn [spec_op]. by rewrite decide_False.
Qed.

(** Some envelopes are freed. *)
Definition freed (l : list Z) (st st' : mq_state) : Prop :=
  queues st' = queues st /\ forall x, envelopes st' !! x = if decide (x ∈ l) then None else envelopes st !! x.

Lemma discard_parentless ev e st : GNUNET_MQ_discard ev (set_env ev (set_parent None e) st) = Some (free_env ev st).
Proof.
  unfold GNUNET_MQ_discard. cbn. rewrite lookup_insert_eq. cbn. unfold free_env. cbn.
  by rewrite delete_insert_eq.
Qed.

Lemma destroy_loop_ok l len st : NoDup l -> (forall ev, ev ∈ l -> is_Some (envelopes st !! ev)) ->
  Z.of_nat (length l) <= len < 2 ^ 32 -> exists st', destroy_loop l len st = Some (st', len - Z.of_nat (length l)) /\ freed l st st'.
Proof.
  revert len st. induction l as [|ev l IH]; intros len st N Hl Hlen.
  { exists st. cbn. rewrite Z.sub_0_r. done. }
  apply NoDup_cons in N as [Hn N]. cbn [destroy_loop length] in *. destruct (Hl ev) as [e He]; [set_solver|]. rewrite He.
  replace (0 <? len) with true by lia. rewrite discard_parentless, u32_small by (unfold is_u32; lia).
  destruct (IH (len - 1) (free_env ev st) N) as (st' & -> & Eq & Ee); [|lia|].
  { intros x Hx. cbn. rewrite lookup_delete_ne by (intros <-; done). apply Hl. set_solver. }
  exists st'. split; [do 2 f_equal; lia|]. split; [done|]. intros x. rewrite Ee. cbn.
  destruct (decide (x = ev)) as [->|]; [rewrite lookup_delete_eq, decide_False, decide_True by set_solver; done|].
  rewrite lookup_delete_ne by done. case_decide; case_decide; set_solver.
Qed.

Lemma destroy_current_ok cur len st : (forall ev, cur = Some ev -> is_Some (envelopes st !! ev)) ->
  Z.of_nat (bool_of cur) <= len < 2 ^ 32 ->
  exists st', destroy_current cur len st = Some (st', len - Z.of_nat (bool_of cur)) /\ freed (option_list cur) st st'.
Proof.
  intros Hc Hlen. destruct cur as [ev|]; cbn in *.
  - destruct (Hc ev eq_refl) as [e ->]. rewrite discard_parentless. replace (0 <? len) with true by lia.
    rewrite u32_small by (unfold is_u32; lia). eexists. split; [done|]. split; [done|]. intros x. cbn.
    destruct (decide (x = ev)) as [->|]; [by rewrite lookup_delete_eq, decide_True by set_solver|].
    rewrite lookup_delete_ne, decide_False by set_solver. done.
  - exists st. rewrite Z.sub_0_r. done.
Qed.

Lemma holds_freed l1 l2 st st1 st2 mq x : freed l1 st st1 -> freed l2 st1 st2 -> l1 = envelope_list mq -> l2 = option_list (current_envelope mq) ->
  (holds mq x /\ envelopes st2 !! x = None) \/ (~ holds mq x /\ envelopes st2 !! x = envelopes st !! x).
Proof.
  intros [_ E1] [_ E2] -> ->. rewrite E2, E1. unfold holds.
  assert (Hc : x ∈ option_list (current_envelope mq) <-> current_envelope mq = Some x)
    by (destruct (current_envelope mq); cbn; rewrite ?list_elem_of_singleton, ?elem_of_nil; naive_solver).
  case_decide as H2; [left; split; [|done]; tauto|]. case_decide; [left|right]; tauto.
Qed.

(** A queue is gone with all its envelopes. *)
Lemma destroyed_inv st st' q mq : mq_inv st -> queues st !! q = Some mq -> queues st' = delete q (queues st) ->
  (forall x, (holds mq x /\ envelopes st' !! x = None) \/ (~ holds mq x /\ envelopes st' !! x = envelopes st !! x)) -> mq_inv st'.
Proof.
  intros I Hq Eq HX.
  assert (Hother : forall q2 mq2 x, queues st !! q2 = Some mq2 -> q2 <> q -> holds mq2 x -> envelopes st' !! x = envelopes st !! x).
  { intros q2 mq2 x Hq2 Hne Hh. destruct (HX x) as [[Hx _]|[_ ->]]; [|done]. destruct Hne. by eapply (holds_one st I). }
  split; rewrite Eq.
  - intros q2 mq2 [Hne Hq2]%lookup_delete_Some. destruct (mi_queue _ I _ _ Hq2) as [N L C Len B Hs A]. split; try done.
    + intros x Hx. rewrite (Hother q2 mq2 x) by (done || by left). auto.
    + destruct (current_envelope mq2) as [x|] eqn:Ec; [|done]. rewrite (Hother q2 mq2 x) by (done || by right). done.
  - intros x e p He Hp. destruct (HX x) as [[_ Hx]|[Hn Hx]]; [congruence|]. rewrite Hx in He.
    destruct (mi_parent _ I _ _ _ He Hp) as (mq2 & H2 & Hh). exists mq2. split; [|done].
    rewrite lookup_delete_ne; [done|]. intros <-. apply Hn. congruence.
  - intros q1 q2 mq1 mq2 x [_ H1]%lookup_delete_Some [_ H2]%lookup_delete_Some. by apply (mi_current _ I).
Qed.

Lemma destroy_refines q st mq : mq_inv st -> queues st !! q = Some mq ->
  exists st' calls, GNUNET_MQ_destroy q st = Some (st', calls) /\ refines (OpDestroy q) st st' calls.
Proof.
  intros I Hq. unfold GNUNET_MQ_destroy. rewrite Hq. destruct (mi_queue _ I _ _ Hq) as [N L C Len B Hh A].
  destruct (destroy_loop_ok (envelope_list mq) (queue_length mq) st N) as (st1 & -> & F1); [|lia|].
  { intros ev Hev. destruct (L ev Hev) as (e & -> & _). done. }
  destruct (destroy_current_ok (current_envelope mq) (queue_length mq - Z.of_nat (length (envelope_list mq))) st1) as (st2 & -> & F2); [|lia|].
  { intros ev Ec. rewrite Ec in C. destruct C as (C1 & _ & e & He & _). destruct F1 as [_ F1]. rewrite F1, decide_False by done. by rewrite He. }
  replace (0 =? _) with true by lia. set (calls := _ ++ _). do 2 eexists. split; [done|].
  assert (Eq : queues st2 = queues st) by (destruct F2 as [-> _], F1 as [-> _]; done). split.
  - eapply destroyed_inv; [exact I|exact Hq|cbn; by rewrite Eq|]. intros x. by apply (holds_freed _ _ st st1 st2 mq x F1 F2).
  - intros q'. assert (E : forall v, spec_calls q' calls v = Some v).
    { intros v. unfold calls. destruct (destroy_impl mq), (send_task mq); cbn; (induction (dnh_list mq); [done|]; cbn; done). }
    rewrite E. f_equal. unfold spec_op, view. cbn [free_queue queues]. rewrite Eq.
    destruct (decide (q = q')) as [<-|]; [by rewrite lookup_delete_eq; destruct (queues st !! q)|].
    rewrite lookup_delete_ne by done. by destruct (queues st !! q').
Qed.

(** ** Envelopes, handlers and associations *)

Lemma new_free st addr q mq : mq_inv st -> new_env st addr -> queues st !! q = Some mq -> ~ holds mq addr.
Proof.
  intros I Hn Hq. destruct (mi_queue _ I _ _ Hq) as [N L C Len B Hh A]. intros [Hx|Hx].
  - destruct (L addr Hx) as (e & ? & _). unfold new_env in Hn. congruence.
  - rewrite Hx in C. destruct C as (_ & _ & e & ? & _). unfold new_env in Hn. congruence.
Qed.

Lemma new_env_inv st addr e : mq_inv st -> new_env st addr -> parent_queue e = None -> mq_inv (set_env addr e st).
Proof.
  intros I Hn Hp. eapply (inv_owned st _ addr); [exact I|done|cbn; auto|intros q mq Hq; by eapply new_free|].
  cbn. rewrite lookup_insert_eq. by intros e' [= <-].
Qed.

Lemma new_env_owned st addr e : mq_inv st -> new_env st addr -> parent_queue e = None -> owned (set_env addr e st) addr.
Proof.
  intros I Hn Hp. split; [exists e; cbn; by rewrite lookup_insert_eq|]. cbn. intros q mq Hq Hc.
  apply (new_free st addr q mq I Hn Hq). by right.
Qed.

Lemma new_env_refines op st addr e : mq_inv st -> new_env st addr -> parent_queue e = None -> (forall q v, spec_op q op v = v) ->
  refines op st (set_env addr e st) [].
Proof. intros I Hn Hp Ho. apply refines_quiet; [by apply new_env_inv|done|done|]. by intros c ?%elem_of_nil. Qed.

Lemma fields_refines op st q mq mq' : mq_inv (set_queue q mq' st) -> queues st !! q = Some mq -> envelope_list mq' = envelope_list mq ->
  current_envelope mq' = current_envelope mq -> (forall q v, spec_op q op v = v) -> refines op st (set_queue q mq' st) [].
Proof.
  intros I Hq El Ec Ho. apply refines_quiet; [done| |done|by intros c ?%elem_of_nil]. intros q'. rewrite (view_set_queue st) by done.
  case_decide as E; [subst q'; by rewrite (view_lookup _ _ _ Hq), El, Ec|done].
Qed.

(** The handlers of an array, which ends with one that has no callback. *)
Fixpoint handlers_of (hs : list GNUNET_MQ_MessageHandler) : list GNUNET_MQ_MessageHandler :=
  match hs with
  | [] => []
  | h :: hs => if h_cb h =? 0 then [] else h :: handlers_of hs
  end.

(** A handler without a check wants messages of one size, one with a check those it accepts. *)
Definition accepts (h : GNUNET_MQ_MessageHandler) (m : list Z) : bool :=
  match h_mv h with
  | None => expected_size h =? msg_size m
  | Some mv => (expected_size h <=? msg_size m) && (mv (h_cls h) m =? GNUNET_OK)
  end.

(** What becomes of a message: the first handler for its type decides. *)
Definition dispatch (error error_cls : Z) (hs : list GNUNET_MQ_MessageHandler) (m : list Z) : list mq_call :=
  match List.find (fun h => h_type h =? msg_type m) (handlers_of hs) with
  | None => []
  | Some h => if accepts h m then [CallHandler (h_cb h) (h_cls h) m]
              else if error =? 0 then [] else [CallError error error_cls GNUNET_MQ_ERROR_MALFORMED]
  end.

Definition with_closure (cls : Z) (h : GNUNET_MQ_MessageHandler) := mk_handler (h_mv h) (h_cb h) cls (h_type h) (expected_size h).

Lemma inject_loop_dispatch mq hs m : Exists (fun h => h_cb h = 0) hs ->
  inject_loop mq hs m = Some (dispatch (error_handler mq) (error_handler_cls mq) hs m).
Proof.
  unfold dispatch. induction 1 as [h hs Hh|h hs _ IH]; cbn [inject_loop handlers_of]; [by rewrite Hh|].
  destruct (h_cb h =? 0); [done|]. cbn [List.find]. destruct (h_type h =? msg_type m); [|done].
  unfold accepts, GNUNET_MQ_inject_error. f_equal. destruct (h_mv h) as [mv|].
  - rewrite andb_false_r, orb_false_r, Z.gtb_ltb, Z.leb_antisym, (Z.eqb_sym GNUNET_OK). by destruct (_ <? _).
  - rewrite andb_true_r, Z.gtb_ltb. destruct (Z.eqb_spec (expected_size h) (msg_size m)) as [->|]; [by rewrite Z.ltb_irrefl|].
    by rewrite orb_true_r.
Qed.

(** The copy of an array has the same handlers. *)
Lemma copy_handlers_of hs : Exists (fun h => h_cb h = 0) hs ->
  GNUNET_MQ_copy_handlers (Some hs) = Some (Some (handlers_of hs ++ [no_handler])).
Proof.
  intros H. cbn [GNUNET_MQ_copy_handlers].
  assert (exists n, GNUNET_MQ_count_handlers hs = Some n /\ take n hs = handlers_of hs) as (n & -> & ->); [|done].
  induction H as [h hs Hh|h hs _ (n & E & IH)]; cbn; [rewrite Hh; by exists 0%nat|].
  destruct (h_cb h =? 0); [by exists 0%nat|]. rewrite E. exists (S n). cbn. by rewrite IH.
Qed.

Lemma handlers_of_app hs : handlers_of (handlers_of hs ++ [no_handler]) = handlers_of hs.
Proof.
  induction hs as [|h hs IH]; cbn; [done|]. destruct (h_cb h =? 0) eqn:E; [done|]. cbn [app handlers_of]. by rewrite E, IH.
Qed.

Lemma set_closures_of cls hs : Exists (fun h => h_cb h = 0) hs ->
  exists hs', set_closures cls hs = Some hs' /\ handlers_of hs' = with_closure cls <$> handlers_of hs /\ Exists (fun h => h_cb h = 0) hs'.
Proof.
  induction 1 as [h hs Hh|h hs Hx (hs' & E & H1 & H2)]; cbn.
  - rewrite Hh. exists (h :: hs). cbn. rewrite Hh. split; [done|]. split; [done|by left].
  - destruct (h_cb h =? 0) eqn:Eh; [exists (h :: hs); cbn; rewrite Eh; split; [done|]; split; [done|left; lia]|].
    rewrite E. exists (with_closure cls h :: hs'). cbn. rewrite Eh, H1. split; [done|]. split; [done|by right].
Qed.

Lemma handlers_of_closure cls hs : handlers_of (with_closure cls <$> hs) = with_closure cls <$> handlers_of hs.
Proof. induction hs as [|h hs IH]; cbn; [done|]. destruct (h_cb h =? 0); [done|]. cbn. by rewrite <- IH. Qed.

Lemma inject_loop_ok mq hs m : Exists (fun h => h_cb h = 0) hs ->
  exists calls, inject_loop mq hs m = Some calls /\ forall c, c ∈ calls -> forall q v, spec_call q c v = Some v.
Proof.
  intros H. rewrite inject_loop_dispatch by done. eexists. split; [done|]. intros c. unfold dispatch.
  repeat case_match; (by intros ?%elem_of_nil) || by intros ->%list_elem_of_singleton.
Qed.

Lemma put_ok addr (m : MultiMap uint32) k v : map_wf m -> addr ∉ e_addr <$> entries m -> Z.of_nat (length (entries m)) < capacity ->
  exists m' r, GNUNET_CONTAINER_multihashmap32_put addr m k v UNIQUE_ONLY = Some (m', r) /\ map_wf m'
    /\ bag_spec (OpPut addr k v UNIQUE_ONLY) (bag m) (RCode r) (bag m').
Proof.
  intros Hw Ha Hc. destruct (exec_spec m (OpPut addr k v UNIQUE_ONLY) Hw Hc Ha) as (m' & r & E & Hw' & Hs). cbn [exec] in E.
  unfold GNUNET_CONTAINER_multihashmap32_put. destruct (multimap_put addr m k v UNIQUE_ONLY) as [[m1 r1]|]; [|done].
  injection E as <- <-. eauto 10.
Qed.

Lemma get_ok (m : MultiMap uint32) k : map_wf m -> Z.of_nat (length (entries m)) < capacity ->
  exists v, GNUNET_CONTAINER_multihashmap32_get m k = Some v /\ bag_spec (OpGet k) (bag m) (RValue v) (bag m).
Proof.
  intros Hw Hc. destruct (exec_spec m (OpGet k) Hw Hc I) as (m' & r & E & Hw' & Hs). cbn [exec] in E.
  unfold GNUNET_CONTAINER_multihashmap32_get. destruct (multimap_get m k) as [v|]; [|done]. injection E as <- <-. eauto.
Qed.

Lemma remove_all_ok (m : MultiMap uint32) k : map_wf m -> Z.of_nat (length (entries m)) < capacity ->
  exists m' r, GNUNET_CONTAINER_multihashmap32_remove_all m k = Some (m', r) /\ map_wf m'
    /\ bag_spec (OpRemoveAll k) (bag m) (RCode r) (bag m').
Proof.
  intros Hw Hc. destruct (exec_spec m (OpRemoveAll k) Hw Hc I) as (m' & r & E & Hw' & Hs). cbn [exec] in E.
  unfold GNUNET_CONTAINER_multihashmap32_remove_all. destruct (multimap_remove_all m k) as [[m1 r1]|]; [|done].
  injection E as <- <-. eauto 10.
Qed.

Lemma msg_refines op addr size type st : mq_inv st -> new_env st addr -> sizeof_MessageHeader <= size -> (forall q v, spec_op q op v = v) ->
  exists e, GNUNET_MQ_msg_ addr size type st = Some (set_env addr e st) /\ parent_queue e = None
    /\ mh e = be_encode 2 size ++ be_encode 2 type ++ replicate (Z.to_nat (size - sizeof_MessageHeader)) 0
    /\ refines op st (set_env addr e st) [].
Proof.
  intros I Hn Hs Ho. unfold GNUNET_MQ_msg_. replace (sizeof_MessageHeader <=? size) with true by lia. eexists.
  split; [done|]. split_and!; try done. by apply new_env_refines.
Qed.

Lemma nested_refines addr b t n st : mq_inv st -> new_env st addr -> sizeof_MessageHeader <= b -> (forall m, n = Some m -> message_ok m) ->
  exists st' r, GNUNET_MQ_msg_nested_mh_ addr b t n st = Some (st', r) /\ refines (OpMsgNested addr b t n) st st' [].
Proof.
  intros I Hn Hb Hm. unfold GNUNET_MQ_msg_nested_mh_. destruct n as [m|].
  - destruct (u16 (b + msg_size m) <? b) eqn:E.
    { do 2 eexists. split; [done|]. apply refines_quiet; try done. by intros c ?%elem_of_nil. }
    destruct (msg_refines (OpMsgNested addr b t (Some m)) addr (u16 (b + msg_size m)) t st I Hn) as (e & -> & Hp & _ & _); [lia|done|].
    cbn [envelopes set_env]. rewrite lookup_insert_eq. specialize (Hm m eq_refl). unfold message_ok in Hm.
    replace (msg_size m <=? Z.of_nat (length m)) with true by lia. do 2 eexists. split; [done|].
    unfold set_env. cbn. rewrite insert_insert_eq. by apply new_env_refines.
  - destruct (msg_refines (OpMsgNested addr b t None) addr b t st I Hn Hb ltac:(done)) as (e & -> & _ & _ & R). eauto.
Qed.

Lemma msg_copy_refines op addr hdr st : mq_inv st -> new_env st addr -> message_ok hdr -> (forall q v, spec_op q op v = v) ->
  exists st', GNUNET_MQ_msg_copy addr hdr st = Some st' /\ refines op st st' [].
Proof.
  intros I Hn Hm Ho. unfold GNUNET_MQ_msg_copy. unfold message_ok in Hm. replace (_ <=? _) with true by lia.
  eexists. split; [done|]. by apply new_env_refines.
Qed.

Lemma send_copy_refines q addr ev e st mq : mq_inv st -> new_env st addr -> envelopes st !! ev = Some e -> message_ok (mh e) ->
  queues st !! q = Some mq -> queue_length mq + 1 < 2 ^ 32 ->
  exists st' calls, GNUNET_MQ_send_copy q addr ev st = Some (st', calls) /\ refines (OpSendCopy q addr ev) st st' calls.
Proof.
  intros I Hn He Hm Hq Hb. unfold GNUNET_MQ_send_copy. rewrite He. unfold message_ok in Hm. replace (_ <=? _) with true by lia.
  set (e' := mk_envelope _ _ _ _ _ _ _). destruct (send_refines q addr (set_env addr e' st) mq) as (st' & calls & -> & I' & R);
    [by apply new_env_inv|by apply new_env_owned|done|done|]. do 2 eexists. split; [done|]. split; [done|]. exact R.
Qed.

Lemma discard_refines ev st : mq_inv st -> owned st ev -> exists st', GNUNET_MQ_discard ev st = Some st' /\ refines (OpDiscard ev) st st' [].
Proof.
  intros I Ho. unfold GNUNET_MQ_discard. destruct (proj1 Ho) as (e & -> & Hp). rewrite bool_decide_eq_true_2 by done.
  eexists. split; [done|]. apply refines_quiet; [|done|done|by intros c ?%elem_of_nil].
  eapply (inv_owned st _ ev); [exact I|done|cbn; auto|intros q mq; by apply owned_free|]. cbn. by rewrite lookup_delete_eq.
Qed.

Lemma env_fields_refines op ev e e' st : mq_inv st -> envelopes st !! ev = Some e -> parent_queue e' = parent_queue e ->
  (forall q v, spec_op q op v = v) -> refines op st (set_env ev e' st) [].
Proof. intros I He Hp Ho. apply refines_quiet; [by eapply inv_env_fields|done|done|by intros c ?%elem_of_nil]. Qed.

(** A new queue is empty. *)
Lemma queue_refines q d c hs er ecls st : mq_inv st -> queues st !! q = None -> (forall l, hs = Some l -> Exists (fun h => h_cb h = 0) l) ->
  exists st', GNUNET_MQ_queue_for_callbacks q d c hs er ecls st = Some st' /\ refines (OpQueue q d c hs er ecls) st st' [].
Proof.
  intros I Hq Hh. unfold GNUNET_MQ_queue_for_callbacks.
  assert (exists hs', GNUNET_MQ_copy_handlers hs = Some hs' /\ forall l, hs' = Some l -> Exists (fun h => h_cb h = 0) l) as (hs' & -> & Hh').
  { destruct hs as [l|]; [|by exists None]. rewrite copy_handlers_of by auto. eexists. split; [done|].
    intros l' [= <-]. apply Exists_app. right. by left. }
  eexists. split; [done|]. split.
  - eapply (inv_update (fun _ => False)); [exact I|done|cbn; auto|done| |done| |]; cbn.
    + split; cbn; try done; [constructor|by intros ev ?%elem_of_nil].
    + congruence.
    + done.
  - intros q'. rewrite (view_set_queue st) by done. cbn [spec_calls]. unfold spec_op.
    destruct (decide (q = q')); destruct (view st q'); done.
Qed.

Lemma assoc_add_refines q addr data st mq : mq_inv st -> queues st !! q = Some mq ->
  (forall m, assoc_map mq = Some m -> (addr ∉ e_addr <$> entries m) /\ Z.of_nat (length (entries m)) < capacity) ->
  exists st' r, GNUNET_MQ_assoc_add q addr data st = Some (st', r) /\ refines (OpAssocAdd q addr data) st st' [].
Proof.
  intros I Hq Hm. unfold GNUNET_MQ_assoc_add. rewrite Hq. destruct (mi_queue _ I _ _ Hq) as [N L C Len B Hh A].
  assert (exists m next, match assoc_map mq with
    | Some m => Some (m, assoc_id mq)
    | None => let? m := GNUNET_CONTAINER_multihashmap32_create 8 in Some (m, 1)
    end = Some (m, next) /\ map_wf m /\ (addr ∉ e_addr <$> entries m) /\ Z.of_nat (length (entries m)) < capacity) as (m & next & -> & Hw & Ha & Hc).
  { destruct (assoc_map mq) as [m|] eqn:Em; [destruct (A m eq_refl), (Hm m eq_refl); eauto 10|].
    unfold GNUNET_CONTAINER_multihashmap32_create. destruct (multimap_create_spec (K := uint32) 8 false) as (m & -> & Hw & He); [lia|].
    exists m, 1. rewrite He. split_and!; try done. by intros ?%elem_of_nil. }
  destruct (put_ok addr m (mk_u32 next) data Hw Ha Hc) as (m' & r & -> & Hw' & _). do 2 eexists. split; [done|].
  apply (fields_refines _ st q mq); try done. apply (inv_fields st q mq); try done. cbn. intros m0 [= <-]. split; [done|apply u32_range].
Qed.

Lemma assoc_remove_refines q id st mq : mq_inv st -> queues st !! q = Some mq ->
  (forall m, assoc_map mq = Some m -> Z.of_nat (length (entries m)) < capacity) ->
  exists st' r, GNUNET_MQ_assoc_remove q id st = Some (st', r) /\ refines (OpAssocRemove q id) st st' [].
Proof.
  intros I Hq Hm. unfold GNUNET_MQ_assoc_remove. rewrite Hq. destruct (mi_queue _ I _ _ Hq) as [N L C Len B Hh A].
  destruct (assoc_map mq) as [m|] eqn:Em; [|do 2 eexists; split; [done|]; apply refines_quiet; try done; by intros c ?%elem_of_nil].
  destruct (A m eq_refl) as [Hw Hid]. destruct (get_ok m (mk_u32 id) Hw (Hm m eq_refl)) as (v & -> & _).
  destruct (remove_all_ok m (mk_u32 id) Hw (Hm m eq_refl)) as (m' & r & -> & Hw' & _). do 2 eexists. split; [done|].
  apply (fields_refines _ st q mq); try done. apply (inv_fields st q mq); try done. cbn. by intros m0 [= <-].
Qed.

(** Every operation that is allowed succeeds, and does to the queues what the specification says. *)
Lemma mq_step_refines op st : mq_inv st -> op_allowed op st ->
  exists st' calls, mq_step op st = Some (st', calls) /\ refines op st st' calls.
Proof.
  intros I Ha. destruct op; cbn [mq_step op_allowed] in *; unfold quietly.
  - destruct Ha as [H1 H2]. destruct (queue_refines q destroy cancel handlers error error_cls st I H1 H2) as (st' & -> & R). eauto.
  - destruct Ha as [H1 H2]. destruct (msg_refines (OpMsg addr size type) addr size type st I H1 H2 ltac:(done)) as (e & -> & _ & _ & R). eauto.
  - destruct Ha as [H1 H2]. destruct (msg_copy_refines (OpMsgCopy addr hdr) addr hdr st I H1 H2 ltac:(done)) as (st' & -> & R). eauto.
  - destruct Ha as (H1 & H2 & H3). destruct (nested_refines addr base_size type nested st I H1 H2 H3) as (st' & r & -> & R). eauto.
  - destruct Ha as (H1 & e & H2 & H3 & H4 & H5 & H6). unfold GNUNET_MQ_env_copy. rewrite H2, bool_decide_eq_true_2, H4, H5 by done.
    change ((0 =? 0)) with true. change (GNUNET_NO =? GNUNET_NO) with true. cbv iota.
    destruct (msg_copy_refines (OpEnvCopy addr env) addr (mh e) st I H1 H6 ltac:(done)) as (st' & -> & R). eauto.
  - destruct (discard_refines ev st I Ha) as (st' & -> & R). eauto.
  - destruct Ha as (e & H1 & H2). unfold GNUNET_MQ_notify_sent. rewrite H1, H2. do 2 eexists. split; [done|]. by eapply env_fields_refines.
  - destruct Ha as [e He]. unfold GNUNET_MQ_env_set_options. rewrite He. do 2 eexists. split; [done|]. by eapply env_fields_refines.
  - destruct Ha as [mq Hq]. unfold GNUNET_MQ_set_options. rewrite Hq. do 2 eexists. split; [done|].
    pose proof (mi_queue _ I _ _ Hq) as []. apply (fields_refines _ st q mq); try done. by apply (inv_fields st q mq).
  - destruct Ha as (H1 & mq & H2 & H3). by eapply send_refines.
  - destruct Ha as (H1 & (e & H2 & H3) & mq & H4 & H5). by eapply send_copy_refines.
  - destruct Ha as (mq & H1 & H2). destruct (unsent_head_refines q st mq I H1 H2) as (st' & ev & -> & R & _). eauto.
  - destruct Ha as (e & q & mq & H1 & H2 & H3 & H4). by eapply cancel_refines.
  - destruct Ha as (mq & H1 & H2). by eapply task_refines.
  - destruct Ha as (mq & H1 & H2). by eapply continue_refines.
  - destruct Ha as (mq & H1 & H2). by eapply in_flight_refines.
  - destruct Ha as [mq Hq]. unfold GNUNET_MQ_inject_message. rewrite Hq.
    assert (exists calls, match mq_handlers mq with None => Some [] | Some hs => inject_loop mq hs m end = Some calls
      /\ forall c, c ∈ calls -> forall q v, spec_call q c v = Some v) as (calls & -> & Hc).
    { destruct (mq_handlers mq) as [hs|] eqn:Eh; [apply inject_loop_ok; by eapply (qo_handlers _ _ _ (mi_queue _ I _ _ Hq))|].
      eexists. split; [done|]. by intros c ?%elem_of_nil. }
    do 2 eexists. split; [done|]. by apply refines_quiet.
  - destruct Ha as [mq Hq]. unfold GNUNET_MQ_set_handlers_closure. rewrite Hq. pose proof (mi_queue _ I _ _ Hq) as Q.
    destruct (mq_handlers mq) as [hs|] eqn:Eh; [|do 2 eexists; split; [done|]; apply refines_quiet; try done; by intros c ?%elem_of_nil].
    destruct (set_closures_of cls hs (qo_handlers _ _ _ Q _ Eh)) as (hs' & -> & _ & Hex). do 2 eexists. split; [done|].
    apply (fields_refines _ st q mq); try done. apply (inv_fields st q mq); try done; [|apply Q]. cbn. by intros l [= <-].
  - destruct Ha as [mq Hq]. unfold GNUNET_MQ_destroy_notify. rewrite Hq. do 2 eexists. split; [done|].
    pose proof (mi_queue _ I _ _ Hq) as []. apply (fields_refines _ st q mq); try done. by apply (inv_fields st q mq).
  - destruct Ha as (mq & Hq & Hin). unfold GNUNET_MQ_destroy_notify_cancel. rewrite Hq, bool_decide_eq_true_2 by done.
    do 2 eexists. split; [done|].
    pose proof (mi_queue _ I _ _ Hq) as []. apply (fields_refines _ st q mq); try done. by apply (inv_fields st q mq).
  - destruct Ha as (mq & H1 & H2). destruct (assoc_add_refines q addr data st mq I H1 H2) as (st' & r & -> & R). eauto.
  - destruct Ha as (mq & H1 & H2). destruct (assoc_remove_refines q id st mq I H1 H2) as (st' & r & -> & R). eauto.
  - destruct Ha as [mq Hq]. by eapply destroy_refines.
Qed.

(** ** Runs *)

Definition mq_initial : mq_state := mk_mqs ∅ ∅.

Fixpoint mq_run (ops : list mq_op) (st : mq_state) : option (mq_state * list (mq_op * list mq_call)) :=
  match ops with
  | [] => Some (st, [])
  | op :: ops => let? (st, calls) := mq_step op st in let? (st, tr) := mq_run ops st in Some (st, (op, calls) :: tr)
  end.

Fixpoint run_allowed (ops : list mq_op) (st : mq_state) : Prop :=
  match ops with
  | [] => True
  | op :: ops => op_allowed op st /\ match mq_step op st with Some (st', _) => run_allowed ops st' | None => True end
  end.

Lemma mq_initial_inv : mq_inv mq_initial.
Proof. split; done. Qed.

Lemma mq_run_refines ops st : mq_inv st -> run_allowed ops st ->
  exists st' tr, mq_run ops st = Some (st', tr) /\ mq_inv st' /\ forall q, spec_run q tr (view st q) = Some (view st' q).
Proof.
  revert st. induction ops as [|op ops IH]; intros st I Ha; cbn; [by exists st, []|]. destruct Ha as [Ha Hr].
  destruct (mq_step_refines op st I Ha) as (st1 & calls & E & I1 & R). rewrite E in Hr |- *.
  destruct (IH st1 I1 Hr) as (st2 & tr & -> & I2 & R2). do 2 eexists. split; [done|]. split; [done|].
  intros q. cbn. by rewrite R.
Qed.

(** The envelopes that are given to the implementation of a queue, in order. *)
Definition handed (q : Z) (tr : list (mq_op * list mq_call)) : list Z :=
  concat (map (fun p => concat (map (fun c => match c with CallSend q' ev _ => if decide (q' = q) then [ev] else [] | _ => [] end) p.2)) tr).

Lemma handed_app q tr1 tr2 : handed q (tr1 ++ tr2) = handed q tr1 ++ handed q tr2.
Proof. unfold handed. by rewrite map_app, concat_app. Qed.

Lemma mq_run_app ops1 ops2 st st1 tr1 : mq_run ops1 st = Some (st1, tr1) ->
  mq_run (ops1 ++ ops2) st = let? (st2, tr2) := mq_run ops2 st1 in Some (st2, tr1 ++ tr2).
Proof.
  revert st tr1. induction ops1 as [|op ops1 IH]; intros st tr1; cbn.
  - intros [= <- <-]. by destruct (mq_run ops2 st) as [[]|].
  - destruct (mq_step op st) as [[st' c]|]; [|done]. destruct (mq_run ops1 st') as [[st2 tr2]|] eqn:E; [|done]. intros [= -> <-].
    rewrite (IH st' tr2 E). by destruct (mq_run ops2 st1) as [[]|].
Qed.

(** The task of the queue runs and the implementation sends, [n] times. *)
Definition send_rounds (q task : Z) (n : nat) : list mq_op := concat (replicate n [OpTask q; OpContinue q task]).

Lemma round_hands q task st mq ev l : mq_inv st -> queues st !! q = Some mq -> send_task mq <> None -> envelope_list mq = ev :: l ->
  exists st' mq' c1 c2, mq_run [OpTask q; OpContinue q task] st = Some (st', [(OpTask q, c1); (OpContinue q task, c2)]) /\ mq_inv st'
    /\ queues st' !! q = Some mq' /\ send_task mq' <> None /\ envelope_list mq' = l
    /\ handed q [(OpTask q, c1); (OpContinue q task, c2)] = [ev].
Proof.
  intros I Hq Ht El. destruct (task_refines q st mq I Hq Ht) as (st1 & c1 & E1 & I1 & _).
  pose proof (mi_queue _ I _ _ Hq) as [N L _ _ _ _ _]. rewrite El in N. destruct (L ev) as (e & He & _); [rewrite El; set_solver|].
  cbn [mq_run mq_step]. rewrite E1. unfold impl_send_continue in E1. rewrite Hq, El, DLL_remove_head, He in E1 by done.
  injection E1 as <- <-. set (mq1 := set_sending _ _ _ _ _ mq) in *. set (st1 := set_queue q mq1 st) in *.
  assert (Hq1 : queues st1 !! q = Some mq1) by apply lookup_insert_eq.
  destruct (continue_refines q task st1 mq1 I1 Hq1) as (st2 & c2 & E2 & I2 & _); [done|]. rewrite E2.
  unfold GNUNET_MQ_impl_send_continue in E2. rewrite Hq1 in E2. cbv iota beta in E2. change (current_envelope mq1) with (Some ev) in E2. cbv iota in E2.
  change (envelopes st1) with (envelopes st) in E2. rewrite He in E2.
  destruct (0 <? queue_length mq1); [|done]. destruct (bool_decide (send_task mq1 = None)); [|done]. injection E2 as <- <-.
  do 4 eexists. split; [done|]. split; [done|]. split; [apply lookup_insert_eq|]. split_and!; try done.
  unfold handed, notification. cbn. rewrite decide_True by done. by destruct (sent_cb e =? 0).
Qed.

(** ** Associations *)

(** The entries of a map behave as [M]. *)
Definition bag_is (m : MultiMap uint32) (M : gmap Z Z) : Prop :=
  NoDup (bag m).*1 /\ forall id v, (mk_u32 id, v) ∈ bag m <-> M !! id = Some v.

Lemma bag_get m M id v : bag_is m M -> bag_spec (OpGet (mk_u32 id)) (bag m) (RValue v) (bag m) -> v = M !! id.
Proof.
  intros [_ HM] [_ [[[= ->] Hn]|(w & [= ->] & Hin)]]; [|by apply HM in Hin].
  destruct (M !! id) as [w|] eqn:E; [|done]. exfalso. apply Hn. apply HM in E. by apply (list_elem_of_fmap_2 fst) in E.
Qed.

Lemma bag_is_key m M id : bag_is m M -> mk_u32 id ∈ (bag m).*1 <-> is_Some (M !! id).
Proof.
  intros [_ HM]. rewrite list_elem_of_fmap. split.
  - intros ([[k] v] & [= ->] & Hin). apply HM in Hin. eauto.
  - intros [v Hv]. exists (mk_u32 id, v). split; [done|]. by apply HM.
Qed.

Lemma bag_is_add m m' M id v r : bag_is m M -> M !! id = None ->
  bag_spec (OpPut xH (mk_u32 id) v UNIQUE_ONLY) (bag m) (RCode r) (bag m') -> bag_is m' (<[id := v]> M) /\ length (bag m') = S (length (bag m)).
Proof.
  intros HB Hn. pose proof (bag_is_key m M id HB) as Hk. destruct HB as [Hd HM]. cbn. rewrite decide_False by (rewrite Hk, Hn; by intros []).
  intros [_ Hp]. split; [|by rewrite Hp]. split.
  - rewrite Hp. cbn. constructor; [rewrite Hk, Hn; by intros []|done].
  - intros id' v'. rewrite Hp, elem_of_cons, HM. destruct (decide (id = id')) as [<-|Hne].
    + rewrite lookup_insert_eq, Hn. split; [by intros [[= <-]|]|intros [= <-]; by left].
    + rewrite lookup_insert_ne by done. split; [intros [[= <- <-]|]; done|by right].
Qed.

Lemma bag_is_remove m m' M id r : bag_is m M ->
  bag_spec (OpRemoveAll (mk_u32 id)) (bag m) (RCode r) (bag m') -> bag_is m' (delete id M) /\ (length (bag m') <= length (bag m))%nat.
Proof.
  intros [Hd HM] [_ Hp]. split; [|rewrite Hp; apply length_filter]. split.
  - rewrite Hp. eapply sublist_NoDup; [exact Hd|]. apply fmap_sublist, sublist_filter.
  - intros id' v'. rewrite Hp, list_elem_of_filter, HM. cbn. destruct (decide (id = id')) as [<-|Hne].
    + rewrite lookup_delete_eq. split; [by intros [[] _]|done].
    + rewrite lookup_delete_ne by done. split; [by intros []|]. intros. split; [congruence|done].
Qed.

(** The requests of a queue are the entries of [M]; the number of the next is not in use. *)
Definition assoc_rel (q : Z) (st : mq_state) (M : gmap Z Z) : Prop :=
  exists mq, queues st !! q = Some mq /\
  match assoc_map mq with
  | None => M = ∅
  | Some m => map_wf m /\ bag_is m M /\ Z.of_nat (length (entries m)) < capacity /\ 0 < assoc_id mq < 2 ^ 32
      /\ (forall id, is_Some (M !! id) -> 0 < id < assoc_id mq)
  end.

(** There is room for another request, with its entry at [addr]. *)
Definition assoc_room (q : Z) (addr : positive) (st : mq_state) : Prop :=
  forall mq m, queues st !! q = Some mq -> assoc_map mq = Some m ->
    (addr ∉ e_addr <$> entries m) /\ Z.of_nat (length (entries m)) + 1 < capacity /\ assoc_id mq + 1 < 2 ^ 32.

(** The map a new request goes to, and its number. *)
Lemma assoc_lazily q addr st mq M : assoc_rel q st M -> assoc_room q addr st -> queues st !! q = Some mq ->
  exists m next, match assoc_map mq with
    | Some m => Some (m, assoc_id mq)
    | None => let? m := GNUNET_CONTAINER_multihashmap32_create 8 in Some (m, 1)
    end = Some (m, next) /\ map_wf m /\ bag_is m M /\ (addr ∉ e_addr <$> entries m) /\ Z.of_nat (length (entries m)) + 1 < capacity
    /\ 0 < next /\ next + 1 < 2 ^ 32 /\ (forall id, is_Some (M !! id) -> 0 < id < next).
Proof.
  intros (mq0 & Hq0 & HR) Hroom Hq. assert (mq0 = mq) as -> by congruence. destruct (assoc_map mq) as [m|] eqn:Em.
  - destruct HR as (Hw & HB & Hc & Hid & Hlt), (Hroom mq m Hq Em) as (Ha & Hl & Hn). exists m, (assoc_id mq). split_and!; try done; lia.
  - subst M. unfold GNUNET_CONTAINER_multihashmap32_create. destruct (multimap_create_spec (K := uint32) 8 false) as (m & -> & Hw & He); [lia|].
    exists m, 1. unfold bag_is, bag. rewrite He. split_and!; try done; [constructor| |by intros ?%elem_of_nil|by intros id []].
    intros id v. rewrite lookup_empty. split; [by intros ?%elem_of_nil|done].
Qed.

Lemma assoc_add_spec q addr data st M : assoc_rel q st M -> assoc_room q addr st ->
  exists st' id, GNUNET_MQ_assoc_add q addr data st = Some (st', id) /\ 0 < id /\ M !! id = None /\ assoc_rel q st' (<[id := data]> M).
Proof.
  intros HR Hroom. destruct HR as (mq & Hq & HR0). assert (HR : assoc_rel q st M) by (by exists mq).
  unfold GNUNET_MQ_assoc_add. rewrite Hq.
  destruct (assoc_lazily q addr st mq M HR Hroom Hq) as (m & next & -> & Hw & HB & Ha & Hl & Hp & Hn & Hlt).
  destruct (put_ok addr m (mk_u32 next) data Hw Ha) as (m' & r & -> & Hw' & Hs); [lia|].
  assert (Hfree : M !! next = None).
  { destruct (M !! next) eqn:E; [|done]. specialize (Hlt next). rewrite E in Hlt. destruct Hlt; [by eexists|lia]. }
  destruct (bag_is_add m m' M next data r HB Hfree Hs) as [HB' Hlen]. rewrite !length_bag in Hlen.
  do 2 eexists. split_and!; [done|done|done|]. eexists. split; [apply lookup_insert_eq|]. cbn. rewrite u32_small by (unfold is_u32; lia).
  split_and!; try done; try lia; intros id Hid; (destruct (decide (id = next)) as [->|Hne]; [lia|]);
    rewrite lookup_insert_ne in Hid by done; specialize (Hlt id Hid); lia.
Qed.

Lemma assoc_get_spec q id st M : assoc_rel q st M -> GNUNET_MQ_assoc_get q id st = Some (default 0 (M !! id)).
Proof.
  intros (mq & Hq & HR). unfold GNUNET_MQ_assoc_get. rewrite Hq. destruct (assoc_map mq) as [m|]; [|by subst M].
  destruct HR as (Hw & HB & Hc & _). destruct (get_ok m (mk_u32 id) Hw Hc) as (v & -> & Hs). by rewrite (bag_get m M id v HB Hs).
Qed.

Lemma assoc_remove_spec q id st M : assoc_rel q st M ->
  exists st', GNUNET_MQ_assoc_remove q id st = Some (st', default 0 (M !! id)) /\ assoc_rel q st' (delete id M).
Proof.
  intros (mq & Hq & HR). unfold GNUNET_MQ_assoc_remove. rewrite Hq. destruct (assoc_map mq) as [m|] eqn:Em.
  - destruct HR as (Hw & HB & Hc & Hid & Hlt). destruct (get_ok m (mk_u32 id) Hw Hc) as (v & -> & Hs).
    destruct (remove_all_ok m (mk_u32 id) Hw Hc) as (m' & r & -> & Hw' & Hr). rewrite (bag_get m M id v HB Hs).
    destruct (bag_is_remove m m' M id r HB Hr) as [HB' Hlen]. rewrite !length_bag in Hlen.
    eexists. split; [done|]. eexists. split; [apply lookup_insert_eq|]. cbn. split_and!; try done; try lia;
      intros id' [v' Hv]; apply lookup_delete_Some in Hv as [_ Hv]; apply (Hlt id'); eauto.
  - subst M. exists st. split; [done|]. exists mq. rewrite Em. split; [done|]. apply delete_empty.
Qed.

(** ** Nested messages *)

(** A message at the end of a zeroed one. *)
Lemma splice_end (hdr n : list Z) (base : nat) : (length hdr <= base)%nat ->
  splice base n (hdr ++ replicate (base + length n - length hdr) 0) = (hdr ++ replicate (base - length hdr) 0) ++ n.
Proof.
  intros H. unfold splice. rewrite (drop_ge _ (base + length n)) by (rewrite length_app, length_replicate; lia). rewrite app_nil_r. f_equal.
  rewrite take_app_ge by done. f_equal. rewrite take_replicate. f_equal. lia.
Qed.

(** The message that carries [n] behind [base] bytes. *)
Lemma nested_built addr base type n st : msg_wf n -> sizeof_MessageHeader <= base -> base + msg_size n < 2 ^ 16 ->
  GNUNET_MQ_msg_nested_mh_ addr base type (Some n) st =
    Some (set_env addr (mk_envelope ((be_encode 2 (base + msg_size n) ++ be_encode 2 type ++ replicate (Z.to_nat base - 4) 0) ++ n)
                          None 0 0 0 0 GNUNET_NO) st, addr).
Proof.
  intros Hw Hb Hs. pose proof (msg_size_pos n Hw) as Hp. destruct Hw as [Hby Hl Hm]. unfold sizeof_MessageHeader in *.
  unfold GNUNET_MQ_msg_nested_mh_, GNUNET_MQ_msg_, sizeof_MessageHeader. rewrite u16_small by (unfold is_u16; lia).
  replace (_ <? base) with false by lia. replace (4 <=? _) with true by lia. cbn [set_env envelopes queues]. rewrite lookup_insert_eq.
  replace (msg_size n <=? _) with true by lia. cbn [mh parent_queue sent_cb sent_cls env_flags env_extra have_custom_options].
  unfold set_env. cbn [envelopes queues]. rewrite insert_insert_eq, take_ge by lia. do 4 f_equal.
  rewrite <- Hl, app_assoc.
  replace (Z.to_nat (base + Z.of_nat (length n) - 4))
    with (Z.to_nat base + length n - length (be_encode 2 (base + Z.of_nat (length n)) ++ be_encode 2 type))%nat
    by (rewrite length_app, !length_be_encode; lia).
  rewrite splice_end by (rewrite length_app, !length_be_encode; lia). rewrite length_app, !length_be_encode, <- app_assoc. done.
Qed.

Lemma u16_wrap z : 2 ^ 16 <= z < 2 ^ 17 -> u16 z = z - 2 ^ 16.
Proof. intros. unfold u16. symmetry. apply (Z.mod_unique z (2 ^ 16) 1); lia. Qed.

Lemma nested_extracted base type n : msg_wf n -> sizeof_MessageHeader <= base -> base + msg_size n < 2 ^ 16 -> is_u16 type ->
  let m := (be_encode 2 (base + msg_size n) ++ be_encode 2 type ++ replicate (Z.to_nat base - 4) 0) ++ n in
  msg_size m = base + msg_size n /\ msg_type m = type /\ GNUNET_MQ_extract_nested_mh_ m base = Some (Some n).
Proof.
  intros Hw Hb Hs Ht m. pose proof (msg_size_pos n Hw) as Hp. destruct Hw as [Hby Hl Hm]. unfold sizeof_MessageHeader in *.
  assert (Em : msg_size m = base + msg_size n).
  { unfold m, msg_size at 1. rewrite <- !app_assoc. apply (rd16_field _ []); [done|unfold is_u16; lia]. }
  split; [done|]. split.
  { unfold m, msg_type. rewrite <- !app_assoc. apply (rd16_field type); [apply length_be_encode|done]. }
  unfold GNUNET_MQ_extract_nested_mh_, sizeof_MessageHeader. rewrite Em.
  replace (base + msg_size n - base) with (msg_size n) by lia. rewrite u16_small by (unfold is_u16; lia).
  replace (_ >=? base) with true by lia. replace (0 =? _) with false by lia. replace (_ <? 4) with false by lia.
  assert (drop (Z.to_nat base) m = n) as ->.
  { unfold m. apply drop_app_length'. rewrite !length_app, !length_be_encode, length_replicate. lia. }
  rewrite Z.eqb_refl. cbn [negb]. by rewrite take_ge by lia.
Qed.

(** ** Properties *)

(** C12. Whatever the application, the implementations of the queues and the scheduler do, in
    any order, on any number of queues, within [op_allowed] (envelopes and queues that exist are used, by
    their owner; fewer than 2^32 envelopes wait; and [GNUNET_MQ_unsent_head] is not called on an empty queue, where the code
    follows a null pointer instead of returning NULL as documented): each operation succeeds (no assertion fails, no envelope is
    used after it was freed), the invariant holds, and every queue behaves as a list: the
    implementation is given the first of the envelopes that wait, only when it has none, and the
    envelopes wait in the order in which they were sent, without those that were cancelled or
    taken back. *)
Theorem mq_fifo (ops : list mq_op) : run_allowed ops mq_initial ->
  exists st tr, mq_run ops mq_initial = Some (st, tr) /\ mq_inv st /\ forall q, spec_run q tr ([], None) = Some (view st q).
Proof.
  intros Ha. destruct (mq_run_refines ops mq_initial mq_initial_inv Ha) as (st & tr & E & I & R). exists st, tr. split_and!; [done|done|].
  intros q. rewrite <- R. done.
Qed.

(** C26. No envelope is left behind: from any state of a queue whose task is scheduled, as many
    rounds of the task and of the implementation as there are envelopes hand all of them over, in the
    order in which they wait, and leave the queue empty. *)
Theorem mq_drains (q task : Z) (st : mq_state) (mq : GNUNET_MQ_Handle) :
  mq_inv st -> queues st !! q = Some mq -> send_task mq <> None ->
  exists st' tr, mq_run (send_rounds q task (length (envelope_list mq))) st = Some (st', tr)
    /\ handed q tr = envelope_list mq /\ view st' q = ([], None) /\ GNUNET_MQ_get_length q st' = Some 0.
Proof.
  remember (envelope_list mq) as l eqn:El. revert st mq El. induction l as [|ev l IH]; intros st mq El I Hq Ht.
  - exists st, []. pose proof (mi_queue _ I _ _ Hq) as Q. pose proof (qo_current _ _ _ Q) as C. pose proof (qo_length _ _ _ Q) as Len.
    destruct (current_envelope mq) as [ev|] eqn:Ec; [by destruct C as (_ & ? & _)|]. rewrite <- El in Len. destruct C as [C _].
    split; [done|]. split; [done|]. unfold view, GNUNET_MQ_get_length. rewrite Hq, <- El, Ec, C, Len. done.
  - destruct (round_hands q task st mq ev l I Hq Ht ltac:(done)) as (st1 & mq1 & c1 & c2 & E & I1 & Hq1 & Ht1 & El1 & Hh).
    destruct (IH st1 mq1 ltac:(done) I1 Hq1 Ht1) as (st2 & tr & E2 & Hh2 & V). exists st2, ([(OpTask q, c1); (OpContinue q task, c2)] ++ tr).
    change (send_rounds q task (length (ev :: l))) with ([OpTask q; OpContinue q task] ++ send_rounds q task (length l)).
    rewrite (mq_run_app _ _ _ _ _ E), E2. split; [done|]. split; [|done].
    rewrite handed_app, Hh, Hh2. done.
Qed.

(** The associations of a queue are a finite map: a new request gets a number that is not in
    use and is stored under it, a request is found by its number, and is found no more once removed.
    Other requests are not affected. *)
Theorem mq_assoc_refines_map (q : Z) (st : mq_state) (M : gmap Z Z) : assoc_rel q st M ->
  (forall addr data, assoc_room q addr st -> exists st' id, GNUNET_MQ_assoc_add q addr data st = Some (st', id)
     /\ 0 < id /\ M !! id = None /\ assoc_rel q st' (<[id := data]> M))
  /\ (forall id, GNUNET_MQ_assoc_get q id st = Some (default 0 (M !! id)))
  /\ (forall id, exists st', GNUNET_MQ_assoc_remove q id st = Some (st', default 0 (M !! id)) /\ assoc_rel q st' (delete id M)).
Proof.
  intros HR. split_and!; intros.
  - by apply assoc_add_spec.
  - by apply assoc_get_spec.
  - by apply assoc_remove_spec.
Qed.

(** C28. A message that is nested in another is extracted unchanged by the receiver, whatever its
    size, provided that both fit in one message; if they do not, there is no envelope. *)
Theorem mq_nested_roundtrip (addr base type : Z) (n : list Z) (st : mq_state) :
  msg_wf n -> sizeof_MessageHeader <= base < 2 ^ 16 -> is_u16 type ->
  if base + msg_size n <? 2 ^ 16 then
    exists st' e, GNUNET_MQ_msg_nested_mh_ addr base type (Some n) st = Some (st', addr) /\ envelopes st' !! addr = Some e
      /\ msg_size (mh e) = base + msg_size n /\ msg_type (mh e) = type /\ GNUNET_MQ_extract_nested_mh_ (mh e) base = Some (Some n)
  else GNUNET_MQ_msg_nested_mh_ addr base type (Some n) st = Some (st, 0).
Proof.
  intros Hw Hb Ht. destruct (base + msg_size n <? 2 ^ 16) eqn:E.
  - rewrite nested_built by (done || lia). do 2 eexists. split; [done|]. split; [apply lookup_insert_eq|].
    apply nested_extracted; done || lia.
  - unfold GNUNET_MQ_msg_nested_mh_. pose proof (msg_size_pos n Hw) as Hp. rewrite (u16_wrap (base + msg_size n)) by lia.
    by replace (_ <? base) with true by lia.
Qed.

(** A message that arrives at a queue goes to the first handler for its type, if its size is
    the one expected or the check of the handler accepts it, and the error handler hears of it
    otherwise; if there is no handler, nothing happens (the documented error [GNUNET_MQ_ERROR_NO_MATCH] is not raised). This is so for the handlers with which the
    queue was made and, after [GNUNET_MQ_set_handlers_closure], for the same with the new closure. *)
Theorem mq_dispatch (q : Z) (destroy cancel : bool) (hs : list GNUNET_MQ_MessageHandler) (error error_cls cls : Z) (st : mq_state) :
  Exists (fun h => h_cb h = 0) hs ->
  exists st1 st2, GNUNET_MQ_queue_for_callbacks q destroy cancel (Some hs) error error_cls st = Some st1
    /\ GNUNET_MQ_set_handlers_closure q cls st1 = Some st2
    /\ forall m, GNUNET_MQ_inject_message q m st1 = Some (dispatch error error_cls hs m)
         /\ GNUNET_MQ_inject_message q m st2 = Some (dispatch error error_cls (with_closure cls <$> hs) m).
Proof.
  intros H. unfold GNUNET_MQ_queue_for_callbacks. rewrite copy_handlers_of by done.
  set (hs1 := handlers_of hs ++ [no_handler]).
  assert (H1 : Exists (fun h => h_cb h = 0) hs1) by (apply Exists_app; right; by left).
  destruct (set_closures_of cls hs1 H1) as (hs2 & E2 & Hof & H2). do 2 eexists. split; [done|].
  unfold GNUNET_MQ_set_handlers_closure, GNUNET_MQ_inject_message. cbn [set_queue queues]. rewrite lookup_insert_eq. cbn [mq_handlers].
  rewrite E2. split; [done|]. intros m. cbn [set_queue queues]. rewrite lookup_insert_eq. cbn [mq_handlers set_handlers].
  rewrite !inject_loop_dispatch by done. unfold dispatch. cbn. rewrite Hof, handlers_of_closure. unfold hs1. by rewrite handlers_of_app.
Qed.

(** ** Examples *)

(** Four messages for a queue: the second is cancelled, the fourth is a copy. *)
Definition example_ops : list mq_op :=
  [OpQueue 1 true true (Some [mk_handler None 7 0 5 8; no_handler]) 9 0; OpMsg 10 8 5; OpMsg 11 8 5; OpMsg 12 8 5;
   OpNotifySent 10 70 71; OpSend 1 10; OpSend 1 11; OpSendCopy 1 13 12; OpSend 1 12; OpCancel 11; OpInFlight 1; OpContinue 1 50].

Definition example_state : mq_state := match mq_run example_ops mq_initial with Some (st, _) => st | None => mq_initial end.

(** The queue at an address. *)
Definition queue_at (st : mq_state) (q : Z) : GNUNET_MQ_Handle :=
  default (mk_mq None false false 0 0 None [] None None [] 0 0 0 0 0 GNUNET_NO) (queues st !! q).

Lemma owned_by_evaluation st ev : (match envelopes st !! ev with Some e => bool_decide (parent_queue e = None) | None => false end)
  && bool_decide (map_Forall (fun _ mq => current_envelope mq <> Some ev) (queues st)) = true -> owned st ev.
Proof.
  intros [H1 H2%bool_decide_eq_true]%andb_true_iff. split; [|exact H2].
  destruct (envelopes st !! ev) as [e|]; [|done]. exists e. by apply bool_decide_eq_true in H1.
Qed.

Lemma run_allowed_cons op ops st st' calls : mq_step op st = Some (st', calls) -> op_allowed op st -> run_allowed ops st' ->
  run_allowed (op :: ops) st.
Proof. intros E Ha Hr. cbn. by rewrite E. Qed.

(** One operation on a state that is given. *)
Ltac allowed_step := eapply run_allowed_cons; [vm_compute; reflexivity| |].

Lemma example_allowed : run_allowed example_ops mq_initial.
Proof.
  unfold example_ops. allowed_step. { split; [done|]. intros l [= <-]. right. by left. }
  do 3 (allowed_step; [done|]). allowed_step. { by eexists. }
  do 2 (allowed_step; [split; [by apply owned_by_evaluation|by eexists]|]).
  allowed_step. { split; [done|]. split; eexists; (split; [vm_compute; reflexivity|done]). }
  allowed_step. { split; [by apply owned_by_evaluation|by eexists]. }
  allowed_step. { do 3 eexists. split_and!; try done; vm_compute; reflexivity. }
  do 2 (allowed_step; [by eexists|]). done.
Qed.

Lemma mq_fifo_witness : view example_state 1 = ([13; 12], None)
  /\ exists st tr, mq_run example_ops mq_initial = Some (st, tr) /\ mq_inv st /\ forall q, spec_run q tr ([], None) = Some (view st q).
Proof. split; [vm_compute; reflexivity|]. apply (mq_fifo example_ops example_allowed). Defined.

Lemma example_inv : mq_inv example_state.
Proof.
  destruct (mq_run_refines example_ops mq_initial mq_initial_inv example_allowed) as (st & tr & E & I & _). unfold example_state. by rewrite E.
Qed.

Lemma mq_drains_witness : exists st' tr, mq_run (send_rounds 1 60 2) example_state = Some (st', tr)
  /\ handed 1 tr = [13; 12] /\ view st' 1 = ([], None) /\ GNUNET_MQ_get_length 1 st' = Some 0.
Proof.
  apply (mq_drains 1 60 example_state (queue_at example_state 1)); [exact example_inv|vm_compute; reflexivity|vm_compute; discriminate].
Defined.

(** The message is delivered with the new closure, one of the wrong size is an error, others are ignored. *)
Lemma mq_dispatch_witness : let hs := [mk_handler None 7 0 5 8; no_handler] in
  dispatch 9 1 hs (be_encode 2 8 ++ be_encode 2 5 ++ replicate 4 0) = [CallHandler 7 0 (be_encode 2 8 ++ be_encode 2 5 ++ replicate 4 0)]
  /\ dispatch 9 1 hs (be_encode 2 7 ++ be_encode 2 5 ++ replicate 3 0) = [CallError 9 1 GNUNET_MQ_ERROR_MALFORMED]
  /\ dispatch 9 1 hs (be_encode 2 8 ++ be_encode 2 6 ++ replicate 4 0) = []
  /\ exists st1 st2, GNUNET_MQ_queue_for_callbacks 1 true true (Some hs) 9 1 mq_initial = Some st1
       /\ GNUNET_MQ_set_handlers_closure 1 33 st1 = Some st2
       /\ forall m, GNUNET_MQ_inject_message 1 m st1 = Some (dispatch 9 1 hs m)
            /\ GNUNET_MQ_inject_message 1 m st2 = Some (dispatch 9 1 (with_closure 33 <$> hs) m).
Proof. split_and!; try (vm_compute; reflexivity). apply mq_dispatch. right. by left. Defined.

Lemma mq_assoc_refines_map_witness :
  (exists st' id, GNUNET_MQ_assoc_add 1 5 77 example_state = Some (st', id) /\ 0 < id /\ (∅ : gmap Z Z) !! id = None
     /\ assoc_rel 1 st' (<[id := 77]> ∅))
  /\ GNUNET_MQ_assoc_get 1 4 example_state = Some 0.
Proof.
  assert (R : assoc_rel 1 example_state ∅) by (eexists; split; [vm_compute; reflexivity|done]).
  destruct (mq_assoc_refines_map 1 example_state ∅ R) as (Hadd & Hget & _). split; [|apply Hget].
  apply Hadd. intros mq m Hq Hm. assert (mq = queue_at example_state 1) as -> by (unfold queue_at; by rewrite Hq). vm_compute in Hm. discriminate Hm.
Defined.

Lemma mq_nested_roundtrip_witness : let n := be_encode 2 6 ++ be_encode 2 9 ++ [1; 2] in
  exists st' e, GNUNET_MQ_msg_nested_mh_ 20 12 8 (Some n) mq_initial = Some (st', 20) /\ envelopes st' !! 20 = Some e
    /\ msg_size (mh e) = 12 + msg_size n /\ msg_type (mh e) = 8 /\ GNUNET_MQ_extract_nested_mh_ (mh e) 12 = Some (Some n).
Proof.
  apply (mq_nested_roundtrip 20 12 8 (be_encode 2 6 ++ be_encode 2 9 ++ [1; 2]) mq_initial); [|done|done].
  split; [|done|done]. repeat constructor; done.
Defined.

(** An empty queue has no first envelope to take back: the operation reads through a null pointer. *)
Example unsent_head_of_empty : forall st q mq, queues st !! q = Some mq -> envelope_list mq = [] -> GNUNET_MQ_unsent_head q st = None.
Proof. intros st q mq Hq El. unfold GNUNET_MQ_unsent_head. by rewrite Hq, El. Qed.
