(* ===== verification/Regex.v ===== *)
(** * Regular expressions: [src/regex/regex_internal.c], data and operations

    The regex service compiles a regular expression to a nondeterministic automaton
    (Thompson's construction, driven by a parser with explicit counters), that one to a
    deterministic automaton (subset construction), and minimizes it. States have addresses, for
    which their numbers [id] serve; a null pointer is [None]. Names, proofs and depth-first numbers
    of states, which are for display and for the DHT, are left out. *)

From stdpp Require Import gmap sorting.
From S2P Require Import Prelude.
#[local] Open Scope Z_scope.

(** ** Data *)

(** Characters are their codes, a string has no 0. *)
Notation str := (list Z).

Record Transition := mk_trans { t_label : option str; to_state : option Z }.

(** [transition_count] is the length of the list. *)
Record State := mk_rstate { accepting : bool; transitions : list Transition; nfa_set : list Z }.

Inductive AutomatonType := NFA | DFA.

#[export] Instance AutomatonType_eq_dec : EqDecision AutomatonType.
Proof. solve_decision. Defined.

Record Automaton := mk_aut { a_type : AutomatonType; start : option Z; end_ : option Z; state_count : Z; states : list Z }.

Notation store := (gmap Z State).

(** The list of automata from its tail, the top of the stack. *)
Record Context := mk_ctx { state_id : Z; stack : list Automaton }.

(** ** States and transitions *)

Fixpoint strcmp (a b : str) : Z :=
  match a, b with
  | [], [] => 0
  | [], _ :: _ => -1
  | _ :: _, [] => 1
  | x :: a, y :: b => if x =? y then strcmp a b else if x <? y then -1 else 1
  end.

Definition nullstrcmp (str1 str2 : option str) : Z :=
  match str1, str2 with
  | None, None => 0
  | Some a, Some b => strcmp a b
  | _, _ => -1
  end.

Definition set_transitions ts s := mk_rstate (accepting s) ts (nfa_set s).
Definition set_accepting v s := mk_rstate v (transitions s) (nfa_set s).

(** Before the first transition with a greater label. *)
Fixpoint insert_sorted (t : Transition) (ts : list Transition) : list Transition :=
  match ts with
  | [] => [t]
  | oth :: ts => if 0 <? nullstrcmp (t_label oth) (t_label t) then t :: oth :: ts else oth :: insert_sorted t ts
  end.

Definition state_add_transition (from_state : option Z) (label : option str) (to : option Z) (st : store) : option store :=
  match from_state with
  | None => Some st
  | Some f =>
      let? s := st !! f in
      if existsb (fun t => bool_decide (to_state t = to) && (0 =? nullstrcmp (t_label t) label)) (transitions s) then Some st
      else Some (<[f := set_transitions (insert_sorted (mk_trans label to) (transitions s)) s]> st)
  end.

(** [s->accepting = v]. *)
Definition state_set_accepting (s : option Z) (v : bool) (st : store) : option store :=
  let? f := s in let? x := st !! f in Some (<[f := set_accepting v x]> st).

Definition automaton_add_state (a : Automaton) (s : Z) : option Automaton :=
  let? l := DLL_insert s (states a) in Some (mk_aut (a_type a) (start a) (end_ a) (u32 (state_count a + 1)) l).

(** The transitions to [s] are removed from a list. *)
Definition without_target (s : Z) (ts : list Transition) : list Transition := filter (fun t => to_state t <> Some s) ts.

(** The loop over the states of the automaton. *)
Fixpoint remove_targets (s : Z) (l : list Z) (st : store) : option store :=
  match l with
  | [] => Some st
  | f :: l => let? x := st !! f in remove_targets s l (<[f := set_transitions (without_target s (transitions x)) x]> st)
  end.

Definition automaton_remove_state (a : Automaton) (s : Z) (st : store) : option (store * Automaton) :=
  let? st := remove_targets s (states a) st in
  let? l := DLL_remove s (states a) in
  Some (delete s st, mk_aut (a_type a) (start a) (end_ a) (u32 (state_count a - 1)) l).

(** The loop over the transitions of a state, with the states that were visited and the order of the
    visits, the last first. *)
Fixpoint traverse_targets (visit : Z -> gset Z * list Z -> option (gset Z * list Z)) (ts : list Transition) (marks : gset Z * list Z)
  : option (gset Z * list Z) :=
  match ts with
  | [] => Some marks
  | t :: ts => let? d := to_state t in let? marks := visit d marks in traverse_targets visit ts marks
  end.

(** Depth-first traversal. *)
Fixpoint automaton_state_traverse (fuel : nat) (st : store) (s : Z) (marks : gset Z * list Z) : option (gset Z * list Z) :=
  match fuel with
  | O => None
  | S fuel =>
      if bool_decide (s ∈ marks.1) then Some marks
      else
        let? x := st !! s in
        traverse_targets (automaton_state_traverse fuel st) (transitions x) ({[s]} ∪ marks.1, s :: marks.2)
  end.

(** From [s], or from the start if it is null. *)
Definition REGEX_INTERNAL_automaton_traverse (a : Automaton) (s : option Z) (st : store) : option (list Z) :=
  if 0 =? state_count a then Some []
  else
    let? s := match s with None => start a | Some s => Some s end in
    let? (_, order) := automaton_state_traverse (S (size st)) st s (∅, []) in
    Some (reverse order).

(** ** Nondeterministic automata *)

Definition nfa_fragment_create (s e : option Z) : option Automaton :=
  let n := mk_aut NFA None None 0 [] in
  match s, e with
  | Some s, Some e =>
      let? n := automaton_add_state n e in
      let? n := automaton_add_state n s in
      Some (mk_aut NFA (Some s) (Some e) 2 (states n))
  | _, _ => Some n
  end.

(** The states are counted only if there are some already. *)
Definition nfa_add_states (n : Automaton) (l : list Z) : Automaton :=
  match l, states n with
  | [], _ => n
  | _ :: _, [] => mk_aut (a_type n) (start n) (end_ n) (state_count n) l
  | _ :: _, _ :: _ => mk_aut (a_type n) (start n) (end_ n) (u32 (state_count n + Z.of_nat (length l))) (states n ++ l)
  end.

Definition nfa_state_create (acc : bool) (ctx : Context) (st : store) : store * Context * Z :=
  (<[state_id ctx := mk_rstate acc [] []]> st, mk_ctx (state_id ctx + 1) (stack ctx), state_id ctx).

Definition push (n : Automaton) (ctx : Context) : Context := mk_ctx (state_id ctx) (n :: stack ctx).

Definition nfa_add_concatenation (ctx : Context) (st : store) : option (Context * store) :=
  match stack ctx with
  | b :: a :: rest =>
      let? st := state_add_transition (end_ a) None (start b) st in
      let? st := state_set_accepting (end_ a) false st in
      let? st := state_set_accepting (end_ b) true st in
      let? n := nfa_fragment_create None None in
      let n := nfa_add_states n (states a) in
      let n := nfa_add_states n (states b) in
      let n := mk_aut (a_type n) (start a) (end_ b) (u32 (state_count n + (state_count a + state_count b))) (states n) in
      Some (mk_ctx (state_id ctx) (n :: rest), st)
  | _ => None
  end.

Definition nfa_add_star_op (ctx : Context) (st : store) : option (Context * store) :=
  match stack ctx with
  | [] => Some (ctx, st)
  | a :: rest =>
      let '(st, ctx, s) := nfa_state_create false (mk_ctx (state_id ctx) rest) st in
      let '(st, ctx, e) := nfa_state_create true ctx st in
      let? st := state_add_transition (Some s) None (start a) st in
      let? st := state_add_transition (Some s) None (Some e) st in
      let? st := state_add_transition (end_ a) None (start a) st in
      let? st := state_add_transition (end_ a) None (Some e) st in
      let? st := state_set_accepting (end_ a) false st in
      let? st := state_set_accepting (Some e) true st in
      let? n := nfa_fragment_create (Some s) (Some e) in
      Some (push (nfa_add_states n (states a)) ctx, st)
  end.

Definition nfa_add_plus_op (ctx : Context) (st : store) : option (Context * store) :=
  match stack ctx with
  | [] => Some (ctx, st)
  | a :: rest => let? st := state_add_transition (end_ a) None (start a) st in Some (mk_ctx (state_id ctx) (a :: rest), st)
  end.

Definition nfa_add_question_op (ctx : Context) (st : store) : option (Context * store) :=
  match stack ctx with
  | [] => Some (ctx, st)
  | a :: rest =>
      let '(st, ctx, s) := nfa_state_create false (mk_ctx (state_id ctx) rest) st in
      let '(st, ctx, e) := nfa_state_create true ctx st in
      let? st := state_add_transition (Some s) None (start a) st in
      let? st := state_add_transition (Some s) None (Some e) st in
      let? st := state_add_transition (end_ a) None (Some e) st in
      let? st := state_set_accepting (end_ a) false st in
      let? n := nfa_fragment_create (Some s) (Some e) in
      Some (push (nfa_add_states n (states a)) ctx, st)
  end.

Definition nfa_add_alternation (ctx : Context) (st : store) : option (Context * store) :=
  match stack ctx with
  | b :: a :: rest =>
      let '(st, ctx, s) := nfa_state_create false (mk_ctx (state_id ctx) rest) st in
      let '(st, ctx, e) := nfa_state_create true ctx st in
      let? st := state_add_transition (Some s) None (start a) st in
      let? st := state_add_transition (Some s) None (start b) st in
      let? st := state_add_transition (end_ a) None (Some e) st in
      let? st := state_add_transition (end_ b) None (Some e) st in
      let? st := state_set_accepting (end_ a) false st in
      let? st := state_set_accepting (end_ b) false st in
      let? st := state_set_accepting (Some e) true st in
      let? n := nfa_fragment_create (Some s) (Some e) in
      Some (push (nfa_add_states (nfa_add_states n (states a)) (states b)) ctx, st)
  | _ => None
  end.

Definition nfa_add_label (label : str) (ctx : Context) (st : store) : option (Context * store) :=
  let '(st, ctx, s) := nfa_state_create false ctx st in
  let '(st, ctx, e) := nfa_state_create true ctx st in
  let? st := state_add_transition (Some s) (Some label) (Some e) st in
  let? n := nfa_fragment_create (Some s) (Some e) in
  Some (push n ctx, st).

(** ** The parser *)

Definition LPAREN : Z := 40.
Definition RPAREN : Z := 41.
Definition STAR : Z := 42.
Definition PLUS : Z := 43.
Definition QUESTION : Z := 63.
Definition BAR : Z := 124.

(** The counters, and those saved at opening parentheses, the last first. The counters grow by at
    most one for each character; only [--atomcount] can leave the range of 32 bits. *)
Record Parser := mk_parser { altcount : Z; atomcount : Z; saved : list (Z * Z); p_ctx : Context; p_st : store }.

Definition set_counts alt atom sv p := mk_parser alt atom sv (p_ctx p) (p_st p).

(** An operation on the stack. *)
Definition on_stack (f : Context -> store -> option (Context * store)) (p : Parser) : option Parser :=
  let? (ctx, st) := f (p_ctx p) (p_st p) in Some (mk_parser (altcount p) (atomcount p) (saved p) ctx st).

(** [while (--atomcount > 0)], where the counter wraps around. Each round takes an automaton from
    the stack. *)
Fixpoint concat_while (fuel : nat) (p : Parser) : option Parser :=
  let p := set_counts (altcount p) (u32 (atomcount p - 1)) (saved p) p in
  if atomcount p >? 0 then
    match fuel with
    | O => None
    | S fuel => let? p := on_stack nfa_add_concatenation p in concat_while fuel p
    end
  else Some p.

Fixpoint alternate_while (fuel : nat) (p : Parser) : option Parser :=
  if altcount p >? 0 then
    match fuel with
    | O => None
    | S fuel =>
        let? p := on_stack nfa_add_alternation p in
        alternate_while fuel (set_counts (altcount p - 1) (atomcount p) (saved p) p)
    end
  else Some p.

Definition concat_all (p : Parser) : option Parser := concat_while (length (stack (p_ctx p))) p.
Definition alternate_all (p : Parser) : option Parser := alternate_while (length (stack (p_ctx p))) p.

(** A new atom follows: all but the last are put together. *)
Definition concat_some (p : Parser) : option Parser :=
  if atomcount p >? 1 then on_stack nfa_add_concatenation (set_counts (altcount p) (atomcount p - 1) (saved p) p) else Some p.

(** One character. The inner [None] is an error in the regular expression. *)
Definition parse_char (c : Z) (p : Parser) : option (option Parser) :=
  let unary f := if atomcount p =? 0 then Some None else let? p := on_stack f p in Some (Some p) in
  if c =? LPAREN then
    let? p := concat_some p in
    Some (Some (set_counts 0 0 ((altcount p, atomcount p) :: saved p) p))
  else if c =? BAR then
    if 0 =? atomcount p then Some None
    else let? p := concat_all p in Some (Some (set_counts (altcount p + 1) (atomcount p) (saved p) p))
  else if c =? RPAREN then
    match saved p with
    | [] => Some None
    | (alt, atom) :: sv =>
        if 0 =? atomcount p then Some (Some (set_counts alt atom sv p))
        else
          let? p := concat_all p in
          let? p := alternate_all p in
          Some (Some (set_counts alt (u32 (atom + 1)) sv p))
    end
  else if c =? STAR then unary nfa_add_star_op
  else if c =? PLUS then unary nfa_add_plus_op
  else if c =? QUESTION then unary nfa_add_question_op
  else
    let? p := concat_some p in
    let? p := on_stack (nfa_add_label [c]) p in
    Some (Some (set_counts (altcount p) (u32 (atomcount p + 1)) (saved p) p)).

Fixpoint parse_chars (regex : str) (p : Parser) : option (option Parser) :=
  match regex with
  | [] => Some (Some p)
  | c :: regex => let? r := parse_char c p in match r with None => Some None | Some p => parse_chars regex p end
  end.

Definition REGEX_INTERNAL_context_init : Context := mk_ctx 0 [].

(** The automaton, or null. *)
Definition REGEX_INTERNAL_construct_nfa (regex : str) (len : nat) : option (option (store * Automaton)) :=
  if bool_decide (regex = []) || bool_decide (len = O) then Some None
  else
    let? r := parse_chars (take len regex) (mk_parser 0 0 [] REGEX_INTERNAL_context_init ∅) in
    match r with
    | None => Some None
    | Some p =>
        if bool_decide (saved p <> []) then Some None
        else
          let? p := concat_all p in
          let? p := alternate_all p in
          match stack (p_ctx p) with
          | [] => None
          | nfa :: rest =>
              if bool_decide (rest <> []) then Some None
              else let? _ := REGEX_INTERNAL_automaton_traverse nfa None (p_st p) in Some (Some (p_st p, nfa))
          end
    end.

(** ** Sets of states *)

(** The set so far, the stack from its tail, and the states whose flag [contained] is set, all of which
    are in the set. *)
Record Closure := mk_closure { c_ret : list Z; c_stack : list Z; contained : gset Z }.

(** The loop over the transitions of a state. *)
Fixpoint closure_scan (label : option str) (ts : list Transition) (c : Closure) : Closure :=
  match ts with
  | [] => c
  | t :: ts =>
      closure_scan label ts
        match to_state t with
        | None => c
        | Some clsstate =>
            if bool_decide (clsstate ∈ contained c) then c
            else if negb (0 =? nullstrcmp label (t_label t)) then c
            else mk_closure (c_ret c ++ [clsstate]) (clsstate :: c_stack c) ({[clsstate]} ∪ contained c)
        end
  end.

Fixpoint closure_loop (fuel : nat) (label : option str) (st : store) (c : Closure) : option Closure :=
  match c_stack c with
  | [] => Some c
  | currentstate :: stk =>
      match fuel with
      | O => None
      | S fuel => let? x := st !! currentstate in
                  closure_loop fuel label st (closure_scan label (transitions x) (mk_closure (c_ret c) stk (contained c)))
      end
  end.

(** The loop over the given states. *)
Fixpoint closure_states (label : option str) (st : store) (l : list Z) (c : Closure) : option Closure :=
  match l with
  | [] => Some c
  | s :: l =>
      let ret := match label with None => c_ret c ++ [s] | Some _ => c_ret c end in
      let? c := closure_loop (S (size st)) label st (mk_closure ret [s] (contained c)) in
      closure_states label st l c
  end.

Definition nfa_closure_set_create (l : list Z) (label : option str) (st : store) : option (list Z) :=
  let? c := closure_states label st l (mk_closure [] [] ∅) in
  Some (if (1 <? length (c_ret c))%nat then merge_sort Z.le (c_ret c) else c_ret c).

(** ** Evaluation of nondeterministic automata *)

Fixpoint evaluate_nfa_loop (string : str) (sset : list Z) (st : store) : option (list Z) :=
  match string with
  | [] => Some sset
  | c :: string =>
      let? new_sset := nfa_closure_set_create sset (Some [c]) st in
      let? sset := nfa_closure_set_create new_sset None st in
      evaluate_nfa_loop string sset st
  end.

(** Whether a state of the set is accepting. *)
Fixpoint accepts_one (l : list Z) (st : store) : option bool :=
  match l with
  | [] => Some false
  | s :: l => let? x := st !! s in if accepting x then Some true else accepts_one l st
  end.

(** 0 if the string matches. *)
Definition evaluate_nfa (a : Automaton) (string : str) (st : store) : option Z :=
  if bool_decide (a_type a <> NFA) then Some (-1) else
  let? s := start a in
  let? x := st !! s in
  if bool_decide (string = []) && accepting x then Some 0
  else
    let? sset := nfa_closure_set_create [s] None st in
    let? sset := evaluate_nfa_loop string sset st in
    let? b := accepts_one sset st in
    Some (if b : bool then 0 else 1).

(** ** Deterministic automata *)

(** A transition to null for each label, and whether there is an accepting state. *)
Fixpoint dfa_state_fill (s : Z) (nfa_states : list Z) (nst dst : store) : option store :=
  match nfa_states with
  | [] => Some dst
  | c :: l =>
      let? cstate := nst !! c in
      let? dst := fold_left (fun dst t => match t_label t with None => dst | Some _ => let? dst := dst in state_add_transition (Some s) (t_label t) None dst end)
                    (transitions cstate) (Some dst) in
      let? dst := if accepting cstate then state_set_accepting (Some s) true dst else Some dst in
      dfa_state_fill s l nst dst
  end.

Definition dfa_state_create (nfa_states : list Z) (nst : store) (id : Z) (dst : store) : option (store * Z * Z) :=
  let? dst := dfa_state_fill id nfa_states nst (<[id := mk_rstate false [] nfa_states]> dst) in
  Some (dst, id + 1, id).

Fixpoint state_set_compare_loop (l1 l2 : list Z) : Z :=
  match l1, l2 with
  | x :: l1, y :: l2 => if x - y =? 0 then state_set_compare_loop l1 l2 else x - y
  | _, _ => 0
  end.

Definition state_set_compare (l1 l2 : list Z) : Z :=
  if (length l1 <? length l2)%nat then -1
  else if (length l2 <? length l1)%nat then 1
  else state_set_compare_loop l1 l2.

(** The first state for a set. *)
Fixpoint find_state_set (set : list Z) (l : list Z) (dst : store) : option (option Z) :=
  match l with
  | [] => Some None
  | s :: l => let? x := dst !! s in if 0 =? state_set_compare (nfa_set x) set then Some (Some s) else find_state_set set l dst
  end.

(** The target of the transition at a position. *)
Definition set_target (s : Z) (i : nat) (d : Z) (dst : store) : option store :=
  let? x := dst !! s in
  let? t := transitions x !! i in
  Some (<[s := set_transitions (<[i := mk_trans (t_label t) (Some d)]> (transitions x)) x]> dst).

(** The state: the number of the next state, the automaton and its states. *)
Record Dfa := mk_dfa { next_id : Z; dfa : Automaton; dst : store }.

(** The loop over the transitions of a state, by their positions. *)
Fixpoint construct_targets (construct : Z -> Dfa -> option Dfa) (nst : store) (dfa_state : Z) (positions : list nat) (D : Dfa) : option Dfa :=
  match positions with
  | [] => Some D
  | i :: positions =>
      let? x := dst D !! dfa_state in
      let? ctran := transitions x !! i in
      match t_label ctran, to_state ctran with
      | Some _, None =>
          let? tmp := nfa_closure_set_create (nfa_set x) (t_label ctran) nst in
          let? set := nfa_closure_set_create tmp None nst in
          let? state_contains := find_state_set set (states (dfa D)) (dst D) in
          let? D := match state_contains with
                    | None =>
                        let? (st, id, s) := dfa_state_create set nst (next_id D) (dst D) in
                        let? a := automaton_add_state (dfa D) s in
                        let? st := set_target dfa_state i s st in
                        construct s (mk_dfa id a st)
                    | Some s => let? st := set_target dfa_state i s (dst D) in Some (mk_dfa (next_id D) (dfa D) st)
                    end in
          construct_targets construct nst dfa_state positions D
      | _, _ => construct_targets construct nst dfa_state positions D
      end
  end.

Fixpoint construct_dfa_states (fuel : nat) (nst : store) (dfa_state : Z) (D : Dfa) : option Dfa :=
  match fuel with
  | O => None
  | S fuel =>
      let? x := dst D !! dfa_state in
      construct_targets (construct_dfa_states fuel nst) nst dfa_state (seq 0 (length (transitions x))) D
  end.

(** ** Minimization *)

Definition remove_states (remove : Z -> Automaton -> store -> option bool) : list Z -> Automaton -> store -> option (Automaton * store) :=
  fix loop (l : list Z) (a : Automaton) (st : store) :=
    match l with
    | [] => Some (a, st)
    | s :: l =>
        let? r := remove s a st in
        let? (st, a) := if r : bool then automaton_remove_state a s st else Some (st, a) in
        loop l a st
    end.

Definition dfa_remove_unreachable_states (a : Automaton) (st : store) : option (Automaton * store) :=
  let? marked := REGEX_INTERNAL_automaton_traverse a (start a) st in
  remove_states (fun s _ _ => Some (negb (bool_decide (s ∈ marked)))) (states a) a st.

Definition is_dead (s : Z) (st : store) : option bool :=
  let? x := st !! s in
  Some (negb (accepting x) && forallb (fun t => match to_state t with None => true | Some d => d =? s end) (transitions x)).

Definition dfa_remove_dead_states (a : Automaton) (st : store) : option (Automaton * store) :=
  assert? bool_decide (a_type a = DFA) in
  remove_states (fun s _ st => is_dead s st) (states a) a st.

(** Labels of deterministic automata are not null. *)
Definition same_label (t1 t2 : Transition) : bool := 0 =? nullstrcmp (t_label t1) (t_label t2).

(** Transitions to [s2] lead to [s1]; [before] are those that were looked at. *)
Fixpoint redirect (s1 s2 : Z) (before ts : list Transition) : list Transition :=
  match ts with
  | [] => before
  | t :: ts =>
      if bool_decide (to_state t = Some s2) then
        if existsb (fun t' => bool_decide (to_state t' = Some s1) && same_label t t') (before ++ t :: ts) then redirect s1 s2 before ts
        else redirect s1 s2 (before ++ [mk_trans (t_label t) (Some s1)]) ts
      else redirect s1 s2 (before ++ [t]) ts
  end.

Fixpoint redirect_all (s1 s2 : Z) (l : list Z) (st : store) : option store :=
  match l with
  | [] => Some st
  | f :: l => let? x := st !! f in redirect_all s1 s2 l (<[f := set_transitions (redirect s1 s2 [] (transitions x)) x]> st)
  end.

Fixpoint add_transitions (s1 : Z) (ts : list Transition) (st : store) : option store :=
  match ts with
  | [] => Some st
  | t :: ts =>
      let? st := if bool_decide (to_state t = Some s1) then Some st else state_add_transition (Some s1) (t_label t) (to_state t) st in
      add_transitions s1 ts st
  end.

Definition automaton_merge_states (s1 s2 : Z) (a : Automaton) (st : store) : option (Automaton * store) :=
  if s1 =? s2 then Some (a, st)
  else
    let? st := redirect_all s1 s2 (states a) st in
    let? x := st !! s2 in
    let? st := add_transitions s1 (transitions x) st in
    let? l := DLL_remove s2 (states a) in
    Some (mk_aut (a_type a) (start a) (end_ a) (u32 (state_count a - 1)) l, delete s2 st).

(** The table of pairs as the set of its bits, of which 32 are in a word. *)
Definition table_bit (cnt m1 m2 : Z) : option Z :=
  let size := 4 * cnt * cnt / 32 + 4 in
  let idx := m1 * cnt + m2 in
  assert? (4 * (idx / 32) + 4 <=? size) in Some idx.

(** [marked]: the position of a state. *)
Definition position (l : list Z) (s : Z) : option Z := Z.of_nat <$> (fst <$> list_find (fun x => x = s) l).

(** Whether the bit of two states is set. *)
Definition table_test (l : list Z) (cnt : Z) (table : gset Z) (s1 s2 : Z) : option bool :=
  let? m1 := position l s1 in
  let? m2 := position l s2 in
  let? idx := table_bit cnt m1 m2 in
  Some (bool_decide (idx ∈ table)).

Definition table_set (l : list Z) (cnt : Z) (s1 s2 : Z) (table : gset Z) : option (gset Z) :=
  let? m1 := position l s1 in
  let? m2 := position l s2 in
  let? idx := table_bit cnt m1 m2 in
  Some ({[idx]} ∪ table).

(** All pairs of states, in the order of the loops. *)
Definition all_pairs (l : list Z) : list (Z * Z) := concat (map (fun s1 => map (fun s2 => (s1, s2)) l) l).

(** The pairs in which the second state precedes the first. *)
Fixpoint until (s : Z) (l : list Z) : list Z :=
  match l with
  | [] => []
  | x :: l => if x =? s then [] else x :: until s l
  end.
Definition lower_pairs (l : list Z) : list (Z * Z) := concat (map (fun s1 => map (fun s2 => (s1, s2)) (until s1 l)) l).

Fixpoint mark_accepting (l : list Z) (cnt : Z) (st : store) (pairs : list (Z * Z)) (table : gset Z) : option (gset Z) :=
  match pairs with
  | [] => Some table
  | (s1, s2) :: pairs =>
      let? x1 := st !! s1 in
      let? x2 := st !! s2 in
      let? table := if xorb (accepting x1) (accepting x2) then table_set l cnt s1 s2 table else Some table in
      mark_accepting l cnt st pairs table
  end.

(** Edges with the same label: their number, and whether the targets of one pair differ. *)
Fixpoint compare_edges (l : list Z) (cnt : Z) (table : gset Z) (edges : list (Transition * Transition)) (num : Z) (differ : bool)
  : option (Z * bool) :=
  match edges with
  | [] => Some (num, differ)
  | (t1, t2) :: edges =>
      if same_label t1 t2 then
        let? d1 := to_state t1 in
        let? d2 := to_state t2 in
        let? m1 := position l d1 in
        let? m2 := position l d2 in
        let? b := if m1 >? m2 then table_test l cnt table d1 d2 else table_test l cnt table d2 d1 in
        compare_edges l cnt table edges (num + 1) (differ || b)
      else compare_edges l cnt table edges num differ
  end.

(** One round over the pairs, with whether a bit was set. *)
Fixpoint find_equal (l : list Z) (cnt : Z) (st : store) (pairs : list (Z * Z)) (table : gset Z) (change : bool) : option (gset Z * bool) :=
  match pairs with
  | [] => Some (table, change)
  | (s1, s2) :: pairs =>
      let? marked := table_test l cnt table s1 s2 in
      if marked : bool then find_equal l cnt st pairs table change
      else
        let? x1 := st !! s1 in
        let? x2 := st !! s2 in
        let edges := concat (map (fun t1 => map (fun t2 => (t1, t2)) (transitions x2)) (transitions x1)) in
        let? (num, differ) := compare_edges l cnt table edges 0 false in
        if differ || negb (num =? Z.of_nat (length (transitions x1))) || negb (num =? Z.of_nat (length (transitions x2))) then
          let? table := table_set l cnt s1 s2 table in
          find_equal l cnt st pairs table true
        else find_equal l cnt st pairs table change
  end.

Fixpoint find_equal_while (fuel : nat) (l : list Z) (cnt : Z) (st : store) (table : gset Z) : option (gset Z) :=
  match fuel with
  | O => None
  | S fuel =>
      let? (table, change) := find_equal l cnt st (lower_pairs l) table false in
      if change : bool then find_equal_while fuel l cnt st table else Some table
  end.

(** The states before [s1] that are equal to it are merged into it. *)
Fixpoint merge_into (l : list Z) (cnt : Z) (table : gset Z) (s1 : Z) (rest : list Z) (a : Automaton) (st : store) : option (Automaton * store) :=
  match rest with
  | [] => Some (a, st)
  | s2 :: rest =>
      let? marked := table_test l cnt table s1 s2 in
      let? (a, st) := if marked : bool then Some (a, st) else automaton_merge_states s1 s2 a st in
      merge_into l cnt table s1 rest a st
  end.

Fixpoint merge_all (l : list Z) (cnt : Z) (table : gset Z) (rest : list Z) (a : Automaton) (st : store) : option (Automaton * store) :=
  match rest with
  | [] => Some (a, st)
  | s1 :: rest =>
      let? (a, st) := merge_into l cnt table s1 (until s1 (states a)) a st in
      merge_all l cnt table rest a st
  end.

Definition dfa_merge_nondistinguishable_states (a : Automaton) (st : store) : option (Z * Automaton * store) :=
  if 0 =? state_count a then Some (GNUNET_SYSERR, a, st)
  else
    let l := states a in
    let cnt := state_count a in
    let? table := mark_accepting l cnt st (all_pairs l) ∅ in
    let? table := find_equal_while (S (length l * length l)) l cnt st table in
    let? (a, st) := merge_all l cnt table l a st in
    Some (GNUNET_OK, a, st).

Definition dfa_minimize (a : Automaton) (st : store) : option (Z * Automaton * store) :=
  assert? bool_decide (a_type a = DFA) in
  let? (a, st) := dfa_remove_unreachable_states a st in
  let? (a, st) := dfa_remove_dead_states a st in
  dfa_merge_nondistinguishable_states a st.

(** The states for the sets of states of the nondeterministic automaton, before the minimization. *)
Definition dfa_of_nfa (fuel : nat) (nst : store) (nfa : Automaton) : option Dfa :=
  let? s := start nfa in
  let? set := nfa_closure_set_create [s] None nst in
  let? (st, id, s) := dfa_state_create set nst 0 ∅ in
  let? a := automaton_add_state (mk_aut DFA (Some s) None 0 []) s in
  construct_dfa_states fuel nst s (mk_dfa id a st).

(** Without the proofs of the states, and without the compression of paths, that is for [max_path_len] 1. *)
Definition REGEX_INTERNAL_construct_dfa (fuel : nat) (regex : str) (len : nat) : option (option (store * Automaton)) :=
  let? r := REGEX_INTERNAL_construct_nfa regex len in
  match r with
  | None => Some None
  | Some (nst, nfa) =>
      let? D := dfa_of_nfa fuel nst nfa in
      let? (r, a, st) := dfa_minimize (dfa D) (dst D) in
      if negb (r =? GNUNET_OK) then Some None else Some (Some (st, a))
  end.

(** ** Evaluation of deterministic automata *)

(** The last transition with the longest label that is a prefix of the string. *)
Fixpoint dfa_move_loop (ts : list Transition) (string : str) (new_s : option Z) (max_len : nat) : option (option Z * nat) :=
  match ts with
  | [] => Some (new_s, max_len)
  | t :: ts =>
      let? label := t_label t in
      let len := length label in
      if bool_decide (take len string = label) && (max_len <=? len)%nat then dfa_move_loop ts string (to_state t) len
      else dfa_move_loop ts string new_s max_len
  end.

Definition dfa_move (s : Z) (string : str) (st : store) : option (option Z * nat) :=
  let? x := st !! s in dfa_move_loop (transitions x) string None 0.

(** The state at the end of the string. *)
Fixpoint evaluate_dfa_loop (fuel : nat) (string : str) (s : Z) (st : store) : option (option Z) :=
  match string with
  | [] => Some (Some s)
  | _ :: _ =>
      match fuel with
      | O => None
      | S fuel =>
          let? (s, step_len) := dfa_move s string st in
          match s with
          | None => Some None
          | Some s => evaluate_dfa_loop fuel (drop step_len string) s st
          end
      end
  end.

Definition evaluate_dfa (a : Automaton) (string : str) (st : store) : option Z :=
  if bool_decide (a_type a <> DFA) then Some (-1) else
  let? s := start a in
  let? x := st !! s in
  if bool_decide (string = []) && accepting x then Some 0
  else
    let? s := evaluate_dfa_loop (length string) string s st in
    match s with
    | None => Some 1
    | Some s => let? x := st !! s in Some (if accepting x then 0 else 1)
    end.

Definition REGEX_INTERNAL_eval (a : Automaton) (string : str) (st : store) : option Z :=
  match a_type a with
  | DFA => evaluate_dfa a string st
  | NFA => evaluate_nfa a string st
  end.
