(* ===== verification/RegexNfa.v ===== *)
(** * Regular expressions: the nondeterministic automaton

    What regular expressions mean, and that Thompson's construction, driven by the parser of
    [REGEX_INTERNAL_construct_nfa], and the evaluation by sets of states compute it. *)

From stdpp Require Import gmap sorting.
From S2P Require Import Prelude Regex.
#[local] Open Scope Z_scope.

Create HintDb regex.

(** ** Regular expressions and their languages *)

Inductive re :=
  | Chr (c : Z)
  | Cat (r1 r2 : re)
  | Alt (r1 r2 : re)
  | Star (r : re)
  | Plus (r : re)
  | Opt (r : re).

Inductive matches : re -> str -> Prop :=
  | m_chr c : matches (Chr c) [c]
  | m_cat r1 r2 u v : matches r1 u -> matches r2 v -> matches (Cat r1 r2) (u ++ v)
  | m_alt_l r1 r2 u : matches r1 u -> matches (Alt r1 r2) u
  | m_alt_r r1 r2 u : matches r2 u -> matches (Alt r1 r2) u
  | m_star_nil r : matches (Star r) []
  | m_star_app r u v : matches r u -> matches (Star r) v -> matches (Star r) (u ++ v)
  | m_plus r u v : matches r u -> matches (Star r) v -> matches (Plus r) (u ++ v)
  | m_opt_nil r : matches (Opt r) []
  | m_opt r u : matches r u -> matches (Opt r) u.
#[export] Hint Constructors matches : regex.

(** What the characters that are no operators are. *)
Definition literal (c : Z) : Prop :=
  c <> LPAREN /\ c <> RPAREN /\ c <> STAR /\ c <> PLUS /\ c <> QUESTION /\ c <> BAR.

(** How regular expressions are written: sequences of atoms, separated by bars; what is in
    parentheses is an atom. *)
Inductive atom : str -> re -> Prop :=
  | a_chr c : literal c -> atom [c] (Chr c)
  | a_group s r : alternatives s r -> atom (LPAREN :: s ++ [RPAREN]) r
  | a_star s r : atom s r -> atom (s ++ [STAR]) (Star r)
  | a_plus s r : atom s r -> atom (s ++ [PLUS]) (Plus r)
  | a_opt s r : atom s r -> atom (s ++ [QUESTION]) (Opt r)
with sequence : str -> re -> Prop :=
  | s_atom s r : atom s r -> sequence s r
  | s_app s1 r1 s2 r2 : sequence s1 r1 -> atom s2 r2 -> sequence (s1 ++ s2) (Cat r1 r2)
with alternatives : str -> re -> Prop :=
  | l_sequence s r : sequence s r -> alternatives s r
  | l_bar s1 r1 s2 r2 : sequence s1 r1 -> alternatives s2 r2 -> alternatives (s1 ++ BAR :: s2) (Alt r1 r2).

Scheme atom_mut := Minimality for atom Sort Prop
  with sequence_mut := Minimality for sequence Sort Prop
  with alternatives_mut := Minimality for alternatives Sort Prop.
Combined Scheme syntax_ind from atom_mut, sequence_mut, alternatives_mut.

(** ** Graphs *)

(** Transitions, as a relation. *)
Notation graph := (Z -> option str -> Z -> Prop).

Inductive path (E : graph) : Z -> str -> Z -> Prop :=
  | p_nil p : path E p [] p
  | p_eps p q w r : E p None q -> path E q w r -> path E p w r
  | p_chr p c q w r : E p (Some [c]) q -> path E q w r -> path E p (c :: w) r.
#[export] Hint Constructors path : regex.

Lemma path_app E p u q v r : path E p u q -> path E q v r -> path E p (u ++ v) r.
Proof. induction 1; cbn; eauto with regex. Qed.

Lemma path_mono (E E' : graph) p w q : (forall p l q, E p l q -> E' p l q) -> path E p w q -> path E' p w q.
Proof. intros H. induction 1; eauto with regex. Qed.

(** A path stays where its edges stay, and needs the edges from there only. *)
Lemma path_within (E E' : graph) (S : Z -> Prop) p w q : S p -> (forall p l q, S p -> E p l q -> S q /\ E' p l q) ->
  path E p w q -> path E' p w q.
Proof. intros Hp H. induction 1; [constructor| |]; (edestruct H; [done|done|]); eauto with regex. Qed.

Lemma path_from_end (E : graph) p w q : (forall l q, ~ E p l q) -> path E p w q -> w = [] /\ q = p.
Proof. intros H. destruct 1 as [|? ? ? ? He|? ? ? ? ? He]; [done| |]; by apply H in He. Qed.

(** An edge from the end back to the start repeats the expression. *)
Lemma path_back (E E' : graph) r s e x w : (forall w, path E s w e -> matches r w) ->
  (forall p l q, E' p l q -> E p l q \/ p = e /\ l = None /\ q = s) ->
  path E' x w e -> exists u v, w = u ++ v /\ path E x u e /\ matches (Star r) v.
Proof.
  intros Hr H P. remember e as y eqn:Ey. induction P as [p|p q w y He P IH|p c q w y He P IH]; subst.
  - exists [], []. eauto with regex.
  - destruct IH as (u & v & -> & Pu & Mv); [done..|]. apply H in He as [He|(-> & _ & ->)]; [exists u, v; eauto with regex|].
    exists [], (u ++ v). split_and!; [done|constructor|]. apply m_star_app; auto.
  - destruct IH as (u & v & -> & Pu & Mv); [done..|]. apply H in He as [He|(_ & ? & _)]; [|done]. exists (c :: u), v. eauto with regex.
Qed.

(** An edge from one part of the graph to another. *)
Lemma path_bridge (E E' : graph) (A B : Z -> Prop) ae bs x w y :
  (forall p l q, E' p l q -> E p l q \/ p = ae /\ l = None /\ q = bs) ->
  (forall p l q, A p -> E p l q -> A q) -> (forall p l q, B p -> E p l q -> B q) -> (forall p, A p -> ~ B p) ->
  A ae -> B bs -> B y -> A x -> path E' x w y ->
  exists u v, w = u ++ v /\ path E x u ae /\ path E bs v y.
Proof.
  intros H HA HB HAB Hae Hbs Hy Hx P.
  assert (HBp : forall p w, B p -> path E' p w y -> path E p w y).
  { intros p w0 Hp P0. apply (path_within E' E B); [done| |done]. intros p' l q Hp' He. destruct (H _ _ _ He) as [He'|(-> & _)]; [eauto|].
    by destruct (HAB ae). }
  induction P as [p|p q w y He P IH|p c q w y He P IH].
  - by destruct (HAB p).
  - destruct (H _ _ _ He) as [He'|(-> & _ & ->)].
    + destruct IH as (u & v & -> & Pu & Pv); eauto. exists u, v. eauto with regex.
    + exists [], w. split_and!; [done|constructor|]. auto.
  - destruct (H _ _ _ He) as [He'|(_ & ? & _)]; [|done]. destruct IH as (u & v & -> & Pu & Pv); eauto. exists (c :: u), v. eauto with regex.
Qed.

(** Edges from the end of a part to a state without edges. *)
Lemma path_exit (E E' : graph) (A : Z -> Prop) ae e x w :
  (forall p l q, A p -> E' p l q -> E p l q \/ p = ae /\ l = None /\ q = e) ->
  (forall p l q, A p -> E p l q -> A q) -> ~ A e -> (forall l q, ~ E' e l q) -> A x -> path E' x w e -> path E x w ae.
Proof.
  intros H HA Hne Hend Hx P. remember e as y eqn:Ey. induction P as [p|p q w y He P IH|p c q w y He P IH]; subst.
  - done.
  - destruct (H _ _ _ Hx He) as [He'|(-> & _ & ->)]; [eapply p_eps; eauto|]. destruct (path_from_end _ _ _ _ Hend P) as [-> _]. constructor.
  - destruct (H _ _ _ Hx He) as [He'|(_ & ? & _)]; [eapply p_chr; eauto|done].
Qed.

(** ** Stores as graphs *)

Definition acc (st : store) (s : Z) : option bool := accepting <$> st !! s.
Definition tr (st : store) (s : Z) (t : Transition) : Prop := exists x, st !! s = Some x /\ t ∈ transitions x.
Definition edges (st : store) : graph := fun p l q => tr st p (mk_trans l (Some q)).

(** Transitions are added. *)
Definition adds (st st' : store) (new : list (Z * Transition)) : Prop := forall s t, tr st' s t <-> tr st s t \/ (s, t) ∈ new.

Lemma adds_nil st : adds st st [].
Proof. intros s t. split; [by left|]. intros [?|?%elem_of_nil]; done. Qed.

Lemma adds_trans st st1 st2 n1 n2 : adds st st1 n1 -> adds st1 st2 n2 -> adds st st2 (n1 ++ n2).
Proof. intros H1 H2 s t. specialize (H1 s t). specialize (H2 s t). rewrite elem_of_app. tauto. Qed.

Lemma strcmp_eq a b : strcmp a b = 0 <-> a = b.
Proof.
  revert b. induction a as [|x a IH]; intros [|y b]; cbn; try done. destruct (Z.eqb_spec x y) as [->|Hne].
  - rewrite IH. split; [by intros ->|by intros [= ->]].
  - split; [by destruct (x <? y)|]. by intros [= ? _].
Qed.

Lemma nullstrcmp_eq a b : nullstrcmp a b = 0 <-> a = b.
Proof. destruct a, b; cbn; rewrite ?strcmp_eq; split; congruence. Qed.

Lemma insert_sorted_elem t ts x : x ∈ insert_sorted t ts <-> x = t \/ x ∈ ts.
Proof.
  induction ts as [|oth ts IH]; cbn; [set_solver|]. destruct (0 <? nullstrcmp (t_label oth) (t_label t)); set_solver.
Qed.

Lemma tr_insert st f x s t : tr (<[f := x]> st) s t <-> if decide (s = f) then t ∈ transitions x else tr st s t.
Proof.
  unfold tr. destruct (decide (s = f)) as [->|Hne]; [rewrite lookup_insert_eq|by rewrite lookup_insert_ne]. naive_solver.
Qed.

Lemma acc_insert st f x s : acc (<[f := x]> st) s = if decide (s = f) then Some (accepting x) else acc st s.
Proof. unfold acc. destruct (decide (s = f)) as [->|Hne]; [by rewrite lookup_insert_eq|by rewrite lookup_insert_ne]. Qed.

Lemma acc_lookup st s b : acc st s = Some b -> exists x, st !! s = Some x /\ accepting x = b.
Proof. unfold acc. destruct (st !! s) as [x|]; [|done]. intros [= <-]. eauto. Qed.

Lemma add_transition_spec f l to st b : acc st f = Some b -> exists st', state_add_transition (Some f) l to st = Some st'
  /\ (forall s, acc st' s = acc st s) /\ adds st st' [(f, mk_trans l to)].
Proof.
  intros (x & Hx & Hb)%acc_lookup. cbn [state_add_transition]. rewrite Hx. destruct (existsb _ (transitions x)) eqn:Ed.
  - exists st. split_and!; [done|done|]. apply existsb_exists in Ed as (t & Hin%list_elem_of_In & [H1%bool_decide_eq_true H2]%andb_true_iff).
    rewrite Z.eqb_eq in H2. symmetry in H2. apply nullstrcmp_eq in H2. destruct t as [l' to']. cbn in *. subst. intros s t.
    rewrite list_elem_of_singleton. split; [by left|]. intros [?|[= -> ->]]; [done|]. by exists x.
  - eexists. split; [done|]. split.
    + intros s. rewrite acc_insert. case_decide as Hd; [|done]. subst s. unfold acc. by rewrite Hx.
    + intros s t. rewrite tr_insert, list_elem_of_singleton. case_decide as Hd.
      * subst s. cbn. rewrite insert_sorted_elem. unfold tr. rewrite Hx. naive_solver.
      * naive_solver.
Qed.

Lemma set_accepting_spec f v st b : acc st f = Some b -> exists st', state_set_accepting (Some f) v st = Some st'
  /\ (forall s, acc st' s = if decide (s = f) then Some v else acc st s) /\ adds st st' [].
Proof.
  intros (x & Hx & Hb)%acc_lookup. cbn [state_set_accepting]. rewrite Hx. eexists. split; [done|]. split.
  - intros s. apply acc_insert.
  - intros s t. rewrite tr_insert. case_decide as Hd; [|set_solver]. subst s. cbn. unfold tr. rewrite Hx. split.
    + left. eauto.
    + intros [(x' & [= <-] & Ht)|?%elem_of_nil]; done.
Qed.

Lemma nfa_create_spec v ctx st st' ctx' s : nfa_state_create v ctx st = (st', ctx', s) -> st !! state_id ctx = None ->
  s = state_id ctx /\ state_id ctx' = state_id ctx + 1 /\ stack ctx' = stack ctx
  /\ (forall p, acc st' p = if decide (p = s) then Some v else acc st p) /\ adds st st' [].
Proof.
  intros [= <- <- <-] Hn. split_and!; [done|done|done|apply acc_insert|]. intros p t. rewrite tr_insert. case_decide as Hd; [|set_solver].
  subst p. unfold tr. rewrite Hn. cbn. set_solver.
Qed.

(** ** Fragments *)

Notation eps q := (mk_trans None (Some q)).

(** The states [S] are an automaton for [r] with the start [s] and the end [e]. Where a labelled
    transition leads to there is none: one step is the whole closure for a label. *)
Record fragment (st : store) (S : list Z) (s e : Z) (r : re) : Prop := {
  fr_start : s ∈ S;
  fr_end : e ∈ S;
  fr_closed : forall p t, p ∈ S -> tr st p t -> exists q, to_state t = Some q /\ q ∈ S;
  fr_acc : forall p, p ∈ S -> acc st p = Some (bool_decide (p = e));
  fr_label : forall p l q, p ∈ S -> edges st p (Some l) q -> (exists c, l = [c]) /\ forall l' q', ~ edges st q (Some l') q';
  fr_lang : forall w, path (edges st) s w e <-> matches r w;
}.

Lemma fragment_closed st S s e r : fragment st S s e r -> forall p l q, p ∈ S -> edges st p l q -> q ∈ S.
Proof. intros F p l q Hp He. destruct (fr_closed _ _ _ _ _ F _ _ Hp He) as (q' & [= <-] & ?). done. Qed.

(** States outside do not matter. *)
Lemma fragment_frame st st' S s e r : (forall p, p ∈ S -> acc st' p = acc st p) -> (forall p t, p ∈ S -> tr st' p t <-> tr st p t) ->
  fragment st S s e r -> fragment st' S s e r.
Proof.
  intros HA HT F. pose proof (fragment_closed _ _ _ _ _ F) as Hc. destruct F as [F1 F2 F3 F4 F5 F6]. split; try done.
  - intros p t Hp Ht. apply HT in Ht; eauto.
  - intros p Hp. rewrite HA; auto.
  - intros p l q Hp He. apply HT in He; [|done]. destruct (F5 p l q Hp He) as [H1 H2]. split; [done|]. intros l' q' He'.
    apply HT in He'; [by eapply H2|]. eauto.
  - intros w. rewrite <- F6. split; apply (path_within _ _ (fun p => p ∈ S)); try done.
    + intros p l q Hp He. apply HT in He; [|done]. eauto.
    + intros p l q Hp He. split; [eauto|]. by apply HT.
Qed.

(** Edges without label are added. *)
Definition links (st st' : store) (new : list (Z * Z)) : Prop := adds st st' ((fun pq => (pq.1, eps pq.2)) <$> new).

Lemma links_edges st st' new p l q : links st st' new -> edges st' p l q <-> edges st p l q \/ l = None /\ (p, q) ∈ new.
Proof.
  intros H. unfold edges. rewrite (H p _). split; (intros [He|Hn]; [by left|right]).
  - apply list_elem_of_fmap in Hn as ([p' q'] & [= -> -> ->] & Hin). done.
  - destruct Hn as [-> Hin]. by apply (list_elem_of_fmap_2 (fun pq => (pq.1, eps pq.2))) in Hin.
Qed.

(** What follows for the transitions of the states of a fragment. *)
Lemma links_closed st st' new (S S' : list Z) : links st st' new -> (forall p t, p ∈ S -> tr st p t -> exists q, to_state t = Some q /\ q ∈ S') ->
  (forall p q, (p, q) ∈ new -> q ∈ S') -> forall p t, p ∈ S -> tr st' p t -> exists q, to_state t = Some q /\ q ∈ S'.
Proof.
  intros H H1 H2 p t Hp [Ht|Ht]%H; [by apply (H1 p)|]. apply list_elem_of_fmap in Ht as ([p' q'] & [= -> ->] & Hin). exists q'. eauto.
Qed.

Lemma links_label st st' new (P : Z -> Prop) : links st st' new ->
  (forall p l q, P p -> edges st p (Some l) q -> (exists c, l = [c]) /\ forall l' q', ~ edges st q (Some l') q') ->
  forall p l q, P p -> edges st' p (Some l) q -> (exists c, l = [c]) /\ forall l' q', ~ edges st' q (Some l') q'.
Proof.
  intros H F p l q Hp He. apply (links_edges _ _ _ _ _ _ H) in He as [He|[? _]]; [|done]. destruct (F p l q Hp He) as [H1 H2]. split; [done|].
  intros l' q' He'. apply (links_edges _ _ _ _ _ _ H) in He' as [He'|[? _]]; [|done]. by eapply H2.
Qed.

Lemma links_path st st' new p w q : links st st' new -> path (edges st) p w q -> path (edges st') p w q.
Proof. intros H. apply path_mono. intros. apply (links_edges _ _ _ _ _ _ H). by left. Qed.

Lemma links_step st st' new p q w r : links st st' new -> (p, q) ∈ new -> path (edges st') q w r -> path (edges st') p w r.
Proof. intros H Hin. apply p_eps. apply (links_edges _ _ _ _ _ _ H). by right. Qed.

Lemma matches_star_plus r w : matches (Star r) w <-> w = [] \/ matches (Plus r) w.
Proof.
  split.
  - inversion 1; subst; [by left|]. right. by constructor.
  - intros [->|M]; [constructor|]. inversion M; subst. by constructor.
Qed.

Lemma star_app r u v : matches (Star r) u -> matches (Star r) v -> matches (Star r) (u ++ v).
Proof.
  intros M Mv. remember (Star r) as r' eqn:E. induction M; simplify_eq; [done|]. rewrite <- app_assoc. constructor; auto.
Qed.

(** Repetition, from any graph in which the end leads back to the start. *)
Lemma path_star (E : graph) r s e w : E e None s -> (forall w, matches r w -> path E s w e) -> matches (Star r) w -> path E e w e.
Proof.
  intros He Hr M. remember (Star r) as r' eqn:E'. induction M; simplify_eq; [constructor|]. eapply p_eps; [exact He|].
  eapply path_app; eauto.
Qed.

Section Combine.
Context (st st' : store).

Lemma fragment_plus S s e r : fragment st S s e r -> links st st' [(e, s)] -> (forall p, acc st' p = acc st p) -> fragment st' S s e (Plus r).
Proof.
  intros F H HA. pose proof F as [F1 F2 F3 F4 F5 F6]. split; try done.
  - apply (links_closed st st' [(e, s)]); [done..|]. set_solver.
  - intros p Hp. rewrite HA. auto.
  - by apply (links_label st st' [(e, s)]).
  - intros w. split.
    + intros P. eapply path_back in P as (u & v & -> & Pu & Mv); [constructor; [by apply F6|exact Mv]|intros; by apply F6|].
      intros p l q He. apply (links_edges _ _ _ _ _ _ H) in He. set_solver.
    + inversion 1; subst. apply (path_app _ _ _ e); [apply (links_path st st' [(e, s)] _ _ _ H), F6; done|].
      eapply (path_star _ r s e); [apply (links_edges _ _ _ _ _ _ H); set_solver| |done]. intros w0 M. by apply (links_path st st' [(e, s)] _ _ _ H), F6.
Qed.

Lemma fragment_cat A B s1 e1 r1 s2 e2 r2 : fragment st A s1 e1 r1 -> fragment st B s2 e2 r2 -> (forall p, p ∈ A -> p ∉ B) ->
  links st st' [(e1, s2)] -> (forall p, acc st' p = if decide (p = e2) then Some true else if decide (p = e1) then Some false else acc st p) ->
  fragment st' (A ++ B) s1 e2 (Cat r1 r2).
Proof.
  intros F G Hd H HA. pose proof F as [F1 F2 F3 F4 F5 F6]. pose proof G as [G1 G2 G3 G4 G5 G6]. split.
  - set_solver.
  - set_solver.
  - apply (links_closed st st' [(e1, s2)]); [done| |set_solver]. intros p t [Hp|Hp]%elem_of_app Ht.
    + destruct (F3 p t Hp Ht) as (q & ? & ?). set_solver.
    + destruct (G3 p t Hp Ht) as (q & ? & ?). set_solver.
  - intros p Hp. rewrite HA. case_decide; [by rewrite bool_decide_eq_true_2|]. rewrite bool_decide_eq_false_2 by done.
    case_decide; [done|]. apply elem_of_app in Hp as [Hp|Hp]; [rewrite F4 by done|rewrite G4 by done]; by rewrite bool_decide_eq_false_2.
  - intros p l q Hp. apply (links_label st st' [(e1, s2)] (fun p => p ∈ A ++ B)); [done| |done].
    intros p' l' q' [Hp'|Hp']%elem_of_app; eauto.
  - intros w. split.
    + intros P. eapply (path_bridge (edges st) _ (fun p => p ∈ A) (fun p => p ∈ B) e1 s2) in P as (u & v & -> & Pu & Pv); try done.
      * constructor; [by apply F6|by apply G6].
      * intros p l q He. apply (links_edges _ _ _ _ _ _ H) in He. set_solver.
      * exact (fragment_closed _ _ _ _ _ F).
      * exact (fragment_closed _ _ _ _ _ G).
    + inversion 1; subst. apply (path_app _ _ _ e1); [apply (links_path st st' [(e1, s2)] _ _ _ H), F6; done|].
      apply (links_step st st' [(e1, s2)] _ s2); [done|set_solver|]. by apply (links_path st st' [(e1, s2)] _ _ _ H), G6.
Qed.

(** New states [s] and [e] around fragments, which have no transitions yet. *)
Context (s e : Z) (Hse : s <> e) (Hs : forall t, ~ tr st s t) (He : forall t, ~ tr st e t).

(** What holds of the new automaton but for its language. *)
Lemma fragment_around S new r (old_end : Z -> Prop) (Hdec : forall p, Decision (old_end p)) : s ∉ S -> e ∉ S -> links st st' new ->
  (forall p t, p ∈ S -> tr st p t -> exists q, to_state t = Some q /\ q ∈ S) ->
  (forall p, p ∈ S -> acc st p = Some (bool_decide (old_end p))) ->
  (forall p l q, p ∈ S -> edges st p (Some l) q -> (exists c, l = [c]) /\ forall l' q', ~ edges st q (Some l') q') ->
  (forall p q, (p, q) ∈ new -> q ∈ [s; e] ++ S) ->
  (forall p, acc st' p = if decide (p = e) then Some true else if decide (p = s \/ p ∈ S /\ old_end p) then Some false else acc st p) ->
  (forall w, path (edges st') s w e <-> matches r w) ->
  fragment st' ([s; e] ++ S) s e r.
Proof.
  intros Hs' He' H F3 F4 F5 Hn HA HL. split; [set_solver|set_solver| | | |done].
  - apply (links_closed st st' new); [done| |done]. intros p t Hp Ht. assert (p = s \/ p = e \/ p ∈ S) as [->|[->|Hp']] by set_solver.
    + by apply Hs in Ht.
    + by apply He in Ht.
    + destruct (F3 p t Hp' Ht) as (q & ? & ?). exists q. set_solver.
  - intros p Hp. rewrite HA. case_decide; [by rewrite bool_decide_eq_true_2|]. rewrite (bool_decide_eq_false_2 (p = e)) by done.
    case_decide as Hd; [done|]. assert (p ∈ S) as Hp' by set_solver. rewrite F4 by done. rewrite bool_decide_eq_false_2; [done|]. tauto.
  - intros p l q Hp. apply (links_label st st' new (fun p => p ∈ [s; e] ++ S)); [done| |done].
    intros p' l' q' Hp' Hed. assert (p' = s \/ p' = e \/ p' ∈ S) as [->|[->|Hp'']] by set_solver; [by apply Hs in Hed|by apply He in Hed|eauto].
Qed.

(** The end has no transitions, and the start the new ones only. *)
Lemma from_end new w q : links st st' new -> (forall q, (e, q) ∉ new) -> path (edges st') e w q -> w = [] /\ q = e.
Proof.
  intros H Hn. apply path_from_end. intros l q' Hed. apply (links_edges _ _ _ _ _ _ H) in Hed as [Hed|[_ ?]]; [by apply He in Hed|by eapply Hn].
Qed.

Lemma from_start new w : links st st' new -> path (edges st') s w e -> exists q, (s, q) ∈ new /\ path (edges st') q w e.
Proof.
  intros H P. inversion P as [|p q w' r' Hed P'|p c q w' r' Hed P']; subst; [done| |];
    apply (links_edges _ _ _ _ _ _ H) in Hed as [Hed|[? ?]]; (by apply Hs in Hed) || eauto || done.
Qed.

Lemma fragment_star S s0 e0 r : fragment st S s0 e0 r -> s ∉ S -> e ∉ S -> links st st' [(s, s0); (s, e); (e0, s0); (e0, e)] ->
  (forall p, acc st' p = if decide (p = e) then Some true else if decide (p = s \/ p ∈ S /\ p = e0) then Some false else acc st p) ->
  fragment st' ([s; e] ++ S) s e (Star r).
Proof.
  intros F Hs' He' H HA. pose proof F as [F1 F2 F3 F4 F5 F6]. set (new := [(s, s0); (s, e); (e0, s0); (e0, e)]) in *.
  apply (fragment_around S new (Star r) (fun p => p = e0) _); try done; [unfold new; set_solver|]. set (E1 := fun p l q => edges st p l q \/ p = e0 /\ l = None /\ q = s0).
  intros w. rewrite matches_star_plus. split.
  - intros (q & Hq & P)%(from_start new); [|done]. assert (q = s0 \/ q = e) as [->| ->] by set_solver.
    + right. apply (path_exit E1 _ (fun p => p ∈ S) e0) in P; [| | |done| |done].
      * apply (path_back (edges st) E1 r s0 e0) in P as (u & v & -> & Pu & Mv); [constructor; [by apply F6|done]|intros; by apply F6|done].
      * intros p l q Hp Hed. unfold E1. apply (links_edges _ _ _ _ _ _ H) in Hed. set_solver.
      * intros p l q Hp [Hed|(_ & _ & ->)]; [|done]. by eapply fragment_closed.
      * intros l q Hed. apply (links_edges _ _ _ _ _ _ H) in Hed as [Hed|[_ ?]]; [by apply He in Hed|set_solver].
    + left. apply (from_end new) in P as [-> _]; [done|done|set_solver].
  - intros [->|M]; [eapply (links_step st st' new _ e); [done|set_solver|constructor]|].
    apply (links_step st st' new _ s0); [done|set_solver|]. rewrite <- (app_nil_r w). apply (path_app _ _ _ e0).
    + inversion M; subst. apply (path_app _ _ _ e0); [by apply (links_path st st' new _ _ _ H), F6|].
      eapply (path_star _ r s0 e0); [apply (links_edges _ _ _ _ _ _ H); set_solver| |done]. intros w0 M0. by apply (links_path st st' new _ _ _ H), F6.
    + apply (links_step st st' new _ e); [done|set_solver|constructor].
Qed.

Lemma fragment_opt S s0 e0 r : fragment st S s0 e0 r -> s ∉ S -> e ∉ S -> links st st' [(s, s0); (s, e); (e0, e)] ->
  (forall p, acc st' p = if decide (p = e) then Some true else if decide (p = s \/ p ∈ S /\ p = e0) then Some false else acc st p) ->
  fragment st' ([s; e] ++ S) s e (Opt r).
Proof.
  intros F Hs' He' H HA. pose proof F as [F1 F2 F3 F4 F5 F6]. set (new := [(s, s0); (s, e); (e0, e)]) in *.
  apply (fragment_around S new (Opt r) (fun p => p = e0) _); try done; [unfold new; set_solver|]. intros w. split.
  - intros (q & Hq & P)%(from_start new); [|done]. assert (q = s0 \/ q = e) as [->| ->] by set_solver.
    + apply m_opt, F6. apply (path_exit (edges st) (edges st') (fun p => p ∈ S) e0 e); [| |done| |done|done].
      * intros p l q Hp Hed. apply (links_edges _ _ _ _ _ _ H) in Hed. set_solver.
      * exact (fragment_closed _ _ _ _ _ F).
      * intros l q Hed. apply (links_edges _ _ _ _ _ _ H) in Hed as [Hed|[_ ?]]; [by apply He in Hed|set_solver].
    + apply (from_end new) in P as [-> _]; [constructor|done|set_solver].
  - inversion 1; subst; [apply (links_step st st' new _ e); [done|set_solver|constructor]|].
    apply (links_step st st' new _ s0); [done|set_solver|]. rewrite <- (app_nil_r w). apply (path_app _ _ _ e0).
    + by apply (links_path st st' new _ _ _ H), F6.
    + apply (links_step st st' new _ e); [done|set_solver|constructor].
Qed.

Lemma fragment_alt A B s1 e1 r1 s2 e2 r2 : fragment st A s1 e1 r1 -> fragment st B s2 e2 r2 -> (forall p, p ∈ A -> p ∉ B) ->
  s ∉ A ++ B -> e ∉ A ++ B -> links st st' [(s, s1); (s, s2); (e1, e); (e2, e)] ->
  (forall p, acc st' p = if decide (p = e) then Some true else if decide (p = s \/ p ∈ A ++ B /\ (p = e1 \/ p = e2)) then Some false else acc st p) ->
  fragment st' ([s; e] ++ A ++ B) s e (Alt r1 r2).
Proof.
  intros F G Hd Hs' He' H HA. pose proof F as [F1 F2 F3 F4 F5 F6]. pose proof G as [G1 G2 G3 G4 G5 G6].
  set (new := [(s, s1); (s, s2); (e1, e); (e2, e)]) in *.
  assert (Hexit : forall (S : list Z) s0 e0 r0, fragment st S s0 e0 r0 -> e ∉ S -> s ∉ S -> (forall q, q ∈ S -> (q, e) ∈ new -> q = e0) ->
    forall w, path (edges st') s0 w e -> matches r0 w).
  { intros S s0 e0 r0 F0 He0 Hs0 Hn w P. apply F0. apply (path_exit (edges st) (edges st') (fun p => p ∈ S) e0 e); [| |done| |apply F0|done].
    - intros p l q Hp Hed. apply (links_edges _ _ _ _ _ _ H) in Hed as [?|[-> Hin]]; [by left|]. right.
      assert (q = e) as -> by (unfold new in Hin; set_solver). split_and!; [by apply Hn|done|done].
    - exact (fragment_closed _ _ _ _ _ F0).
    - intros l q Hed. apply (links_edges _ _ _ _ _ _ H) in Hed as [Hed|[_ ?]]; [by apply He in Hed|unfold new in *; set_solver]. }
  apply not_elem_of_app in Hs' as HsAB. apply not_elem_of_app in He' as HeAB.
  assert (HnA : forall q, q ∈ A -> (q, e) ∈ new -> q = e1) by (clear - HsAB Hd G2; set_solver).
  assert (HnB : forall q, q ∈ B -> (q, e) ∈ new -> q = e2) by (clear - HsAB Hd F2; set_solver).
  apply (fragment_around (A ++ B) new (Alt r1 r2) (fun p => p = e1 \/ p = e2) _); try done.
  - intros p t [Hp|Hp]%elem_of_app Ht; [destruct (F3 p t Hp Ht) as (q & ? & ?)|destruct (G3 p t Hp Ht) as (q & ? & ?)]; set_solver.
  - intros p [Hp|Hp]%elem_of_app; [rewrite F4 by done|rewrite G4 by done]; f_equal; apply bool_decide_ext; set_solver.
  - intros p l q [Hp|Hp]%elem_of_app; eauto.
  - unfold new. set_solver.
  - intros w. split.
    + intros (q & Hq & P)%(from_start new); [|done]. assert (q = s1 \/ q = s2) as [->| ->] by (unfold new in Hq; set_solver).
      * apply m_alt_l. apply (Hexit A s1 e1 r1); done || apply HeAB || apply HsAB.
      * apply m_alt_r. apply (Hexit B s2 e2 r2); done || apply HeAB || apply HsAB.
    + inversion 1; subst.
      * apply (links_step st st' new _ s1); [done|unfold new; set_solver|]. rewrite <- (app_nil_r w). apply (path_app _ _ _ e1).
        -- by apply (links_path st st' new _ _ _ H), F6.
        -- apply (links_step st st' new _ e); [done|unfold new; set_solver|constructor].
      * apply (links_step st st' new _ s2); [done|unfold new; set_solver|]. rewrite <- (app_nil_r w). apply (path_app _ _ _ e2).
        -- by apply (links_path st st' new _ _ _ H), G6.
        -- apply (links_step st st' new _ e); [done|unfold new; set_solver|constructor].
Qed.

Lemma fragment_label c : adds st st' [(s, mk_trans (Some [c]) (Some e))] -> acc st' s = Some false -> acc st' e = Some true ->
  fragment st' [s; e] s e (Chr c).
Proof.
  intros H Ha1 Ha2.
  assert (Hed : forall p l q, p ∈ [s; e] -> edges st' p l q -> p = s /\ l = Some [c] /\ q = e).
  { intros p l q Hp Hed. apply H in Hed as [Hed|Hed]; [|set_solver]. exfalso. rewrite !elem_of_cons, elem_of_nil in Hp.
    destruct Hp as [->|[->|[]]]; [by apply Hs in Hed|by apply He in Hed]. }
  split; [set_solver|set_solver| | | |].
  - intros p t Hp Ht. apply H in Ht as [Ht|Ht]; [|set_solver]. exfalso. rewrite !elem_of_cons, elem_of_nil in Hp.
    destruct Hp as [->|[->|[]]]; [by apply Hs in Ht|by apply He in Ht].
  - intros p Hp. rewrite !elem_of_cons, elem_of_nil in Hp. destruct Hp as [->|[->|[]]].
    + by rewrite bool_decide_eq_false_2.
    + by rewrite bool_decide_eq_true_2.
  - intros p l q Hp (-> & [= ->] & ->)%Hed; [|done]. split; [eauto|]. intros l' q' (? & _)%Hed; [congruence|set_solver].
  - intros w. split.
    + intros P. inversion P as [|? ? ? ? Hx|? ? ? ? ? Hx P']; subst; [done| |];
        (apply Hed in Hx as (_ & ? & ->); [|by apply elem_of_cons; left]); simplify_eq.
      apply path_from_end in P' as [-> _]; [constructor|]. intros l q (? & _)%Hed; [congruence|set_solver].
    + inversion 1; subst. apply (p_chr _ _ _ e); [apply H; right; by apply list_elem_of_singleton|constructor].
Qed.
End Combine.

(** ** The stack of automata *)

Definition aut_ok (st : store) (a : Automaton) (r : re) : Prop :=
  a_type a = NFA /\ exists s e, start a = Some s /\ end_ a = Some e /\ fragment st (states a) s e r.

(** The stack has automata for the given expressions, which share no state. *)
Record stack_ok (ctx : Context) (st : store) (rs : list re) : Prop := {
  so_auts : Forall2 (aut_ok st) (stack ctx) rs;
  so_nodup : NoDup (concat (states <$> stack ctx));
  so_ids : forall s, is_Some (st !! s) -> s < state_id ctx;
}.

Lemma epsilon_spec f q st b : acc st f = Some b -> exists st', state_add_transition (Some f) None (Some q) st = Some st'
  /\ (forall s, acc st' s = acc st s) /\ links st st' [(f, q)].
Proof. apply add_transition_spec. Qed.

Lemma links_trans st st1 st2 n1 n2 : links st st1 n1 -> links st1 st2 n2 -> links st st2 (n1 ++ n2).
Proof. unfold links. rewrite fmap_app. apply adds_trans. Qed.

Lemma mark_spec f v st b : acc st f = Some b -> exists st', state_set_accepting (Some f) v st = Some st'
  /\ (forall s, acc st' s = if decide (s = f) then Some v else acc st s) /\ links st st' [].
Proof. apply set_accepting_spec. Qed.

(** A chain of updates that leave the states but for some alone. *)
Definition same_at (st st' : store) (p : Z) : Prop := acc st' p = acc st p /\ forall t, tr st' p t <-> tr st p t.

Lemma links_same_at st st' new p : links st st' new -> p ∉ new.*1 -> acc st' p = acc st p -> same_at st st' p.
Proof.
  intros H Hn Ha. split; [done|]. intros t. rewrite (H p t). split; [|by left]. intros [?|Hin]; [done|]. exfalso. apply Hn.
  apply list_elem_of_fmap in Hin as ([p' q'] & [= -> ->] & Hin). by apply (list_elem_of_fmap_2 fst) in Hin.
Qed.

Lemma frame_rest st st' fs rs : Forall2 (aut_ok st) fs rs -> (forall p, p ∈ concat (states <$> fs) -> same_at st st' p) -> Forall2 (aut_ok st') fs rs.
Proof.
  induction 1 as [|a r fs rs (Ht & s & e & H1 & H2 & F) _ IH]; intros Hs; constructor.
  - split; [done|]. exists s, e. split_and!; [done..|]. apply (fragment_frame st); [..|done]; intros p; intros; apply Hs; cbn; set_solver.
  - apply IH. intros p Hp. apply Hs. cbn. set_solver.
Qed.

Lemma acc_is_Some st s : is_Some (st !! s) <-> is_Some (acc st s).
Proof. unfold acc. by rewrite fmap_is_Some. Qed.

Lemma acc_fresh st id : (forall s, is_Some (st !! s) -> s < id) -> forall s b, acc st s = Some b -> s < id.
Proof. intros H s b Hs. apply H, acc_is_Some. by exists b. Qed.

Lemma aut_states_old st a r id : aut_ok st a r -> (forall s, is_Some (st !! s) -> s < id) -> forall p, p ∈ states a -> p < id.
Proof. intros (_ & s & e & _ & _ & F) Hid p Hp. eapply acc_fresh; [done|]. by apply (fr_acc _ _ _ _ _ F). Qed.

Lemma stack_states_old st fs rs id : Forall2 (aut_ok st) fs rs -> (forall s, is_Some (st !! s) -> s < id) ->
  forall p, p ∈ concat (states <$> fs) -> p < id.
Proof.
  induction 1 as [|a r fs rs F _ IH]; intros Hid p; cbn; [by intros ?%elem_of_nil|]. intros [Hp|Hp]%elem_of_app; [|auto].
  by eapply aut_states_old.
Qed.

(** Two new states. *)
Lemma two_states ctx st : (forall s, is_Some (st !! s) -> s < state_id ctx) -> exists st1 ctx1 st2 ctx2,
  nfa_state_create false ctx st = (st1, ctx1, state_id ctx) /\ nfa_state_create true ctx1 st1 = (st2, ctx2, state_id ctx + 1)
  /\ state_id ctx2 = state_id ctx + 2 /\ stack ctx2 = stack ctx /\ links st st2 []
  /\ (forall p, acc st2 p = if decide (p = state_id ctx + 1) then Some true else if decide (p = state_id ctx) then Some false else acc st p)
  /\ (forall t, ~ tr st2 (state_id ctx) t) /\ (forall t, ~ tr st2 (state_id ctx + 1) t).
Proof.
  intros Hid. assert (Hnone : forall s, state_id ctx <= s -> st !! s = None).
  { intros s Hs. destruct (st !! s) as [x|] eqn:E; [|done]. enough (s < state_id ctx) by lia. apply Hid. by rewrite E. }
  destruct (nfa_state_create false ctx st) as [[st1 ctx1] s] eqn:E1. pose proof (nfa_create_spec _ _ _ _ _ _ E1 (Hnone (state_id ctx) ltac:(lia))) as (-> & Hi & Hk & HA & HT).
  destruct (nfa_state_create true ctx1 st1) as [[st2 ctx2] e] eqn:E2.
  assert (Hn1 : st1 !! state_id ctx1 = None).
  { injection E1 as <- <-. cbn. rewrite lookup_insert_ne by lia. apply Hnone. lia. }
  pose proof (nfa_create_spec _ _ _ _ _ _ E2 Hn1) as (-> & Hi2 & Hk2 & HA2 & HT2). rewrite Hi in *.
  pose proof (adds_trans _ _ _ _ _ HT HT2) as HT3. cbn in HT3.
  assert (Htr : forall p t, state_id ctx <= p -> ~ tr st2 p t).
  { intros p t Hp Ht. apply HT3 in Ht as [(x & Hx & _)|?%elem_of_nil]; [|done]. by rewrite Hnone in Hx by lia. }
  exists st1, ctx1, st2, ctx2. rewrite E2. split_and!; try done; try (intros; apply Htr; lia).
  - lia.
  - congruence.
  - intros p. rewrite HA2. case_decide; [done|]. apply HA.
Qed.

Lemma fragment_create_eq s e : s <> e -> nfa_fragment_create (Some s) (Some e) = Some (mk_aut NFA (Some s) (Some e) 2 [s; e]).
Proof.
  intros H. unfold nfa_fragment_create, automaton_add_state, DLL_insert. cbn [states].
  rewrite (bool_decide_eq_false_2 (e ∈ [])) by set_solver. cbn [negb states].
  by rewrite (bool_decide_eq_false_2 (s ∈ [e])) by set_solver.
Qed.

Lemma add_states_eq n l : states (nfa_add_states n l) = states n ++ l /\ start (nfa_add_states n l) = start n
  /\ end_ (nfa_add_states n l) = end_ n /\ a_type (nfa_add_states n l) = a_type n.
Proof. unfold nfa_add_states. destruct l as [|x l]; [by rewrite app_nil_r|]. by destruct (states n). Qed.

(** Two new states leave the automata as they are. *)
Lemma two_states_ok ctx st rs rest : stack_ok ctx st rs -> let id := state_id ctx in exists st1 ctx1 st2 ctx2,
  nfa_state_create false (mk_ctx id rest) st = (st1, ctx1, id) /\ nfa_state_create true ctx1 st1 = (st2, ctx2, id + 1)
  /\ state_id ctx2 = id + 2 /\ stack ctx2 = rest /\ Forall2 (aut_ok st2) (stack ctx) rs
  /\ (forall p, p ∈ concat (states <$> stack ctx) -> p < id) /\ (forall s, is_Some (st2 !! s) -> s < id + 2)
  /\ acc st2 id = Some false /\ acc st2 (id + 1) = Some true /\ (forall t, ~ tr st2 id t) /\ (forall t, ~ tr st2 (id + 1) t).
Proof.
  intros [HF HN HI] id. pose proof (stack_states_old _ _ _ _ HF HI) as Hold.
  destruct (two_states (mk_ctx id rest) st HI) as (st1 & ctx1 & st2 & ctx2 & E1 & E2 & Ei & Ek & HL & HA & Hs & He).
  cbn [state_id stack] in *. exists st1, ctx1, st2, ctx2. split_and!; try done.
  - apply (frame_rest st); [done|]. intros p Hp. specialize (Hold p Hp). fold id in Hold.
    apply (links_same_at st st2 []); [done|by intros ?%elem_of_nil|]. by rewrite HA, !decide_False by lia.
  - intros p [b Hb]%acc_is_Some. rewrite HA in Hb. repeat case_decide; [lia..|]. pose proof (acc_fresh st _ HI p b Hb). lia.
  - by rewrite HA, decide_False, decide_True by lia.
  - by rewrite HA, decide_True by lia.
Qed.

(** The automata with the states [S] are replaced by one with two more states. *)
Lemma stack_around ctx2 st st' fs rs S n r new id : Forall2 (aut_ok st) fs rs -> NoDup (S ++ concat (states <$> fs)) ->
  (forall s, is_Some (st !! s) -> s < id + 2) -> (forall p, p ∈ S ++ concat (states <$> fs) -> p < id) ->
  aut_ok st' n r -> states n = [id; id + 1] ++ S ->
  state_id ctx2 = id + 2 -> stack ctx2 = fs -> links st st' new -> (forall p, p ∈ new.*1 -> p ∈ [id; id + 1] ++ S) ->
  (forall p, p ∉ [id; id + 1] ++ S -> acc st' p = acc st p) -> stack_ok (push n ctx2) st' (r :: rs).
Proof.
  intros HF HN HI Hold Hn En Ei Ek HL Hnew HA. pose proof HN as (N1 & N2 & N3)%NoDup_app. split; cbn.
  - rewrite Ek. constructor; [done|]. apply (frame_rest st); [done|]. intros p Hp.
    assert (p ∉ [id; id + 1] ++ S).
    { intros [Hq|Hq]%elem_of_app; [|by eapply N2]. specialize (Hold p ltac:(apply elem_of_app; by right)). set_solver by lia. }
    apply (links_same_at st st' new); auto.
  - rewrite Ek, En, <- app_assoc. cbn. apply NoDup_cons. split; [intros [Hq|Hq]%elem_of_cons; [lia|specialize (Hold _ Hq); lia]|].
    apply NoDup_cons. split; [intros Hq; specialize (Hold _ Hq); lia|done].
  - rewrite Ei. intros p [b Hb]%acc_is_Some. destruct (decide (p ∈ [id; id + 1] ++ S)) as [Hp|Hp].
    + apply elem_of_app in Hp as [Hp|Hp]; [set_solver by lia|]. specialize (Hold p ltac:(apply elem_of_app; by left)). lia.
    + rewrite HA in Hb by done. apply HI, acc_is_Some. by exists b.
Qed.

(** What the flags are after some updates. *)
Ltac acc_now := repeat match goal with H : forall s, acc ?x s = _ |- context [acc ?x _] => rewrite H end; repeat case_decide; eauto.

Ltac acc_done :=
  repeat match goal with H : _ \/ _ |- _ => destruct H | H : _ /\ _ |- _ => destruct H end; subst;
  first [congruence|lia|exfalso; tauto].

(** The next transition without label, the next flag. *)
Ltac link :=
  match goal with
  | |- context [state_add_transition (Some ?f) None (Some ?q) ?st] =>
      let Hb := fresh "Hb" in let st' := fresh "st" in let HA := fresh "HA" in let HL := fresh "HL" in
      assert (exists b, acc st f = Some b) as [? Hb]; [acc_now|destruct (epsilon_spec f q st _ Hb) as (st' & -> & HA & HL)]
  | |- context [state_set_accepting (Some ?f) ?v ?st] =>
      let Hb := fresh "Hb" in let st' := fresh "st" in let HA := fresh "HA" in let HL := fresh "HL" in
      assert (exists b, acc st f = Some b) as [? Hb]; [acc_now|destruct (mark_spec f v st _ Hb) as (st' & -> & HA & HL)]
  end.

(** All the transitions together. *)
Ltac links_all :=
  repeat match goal with
  | H1 : links ?st ?st1 ?n1, H2 : links ?st1 ?st2 ?n2 |- _ =>
      let H := fresh "HL" in pose proof (links_trans st st1 st2 n1 n2 H1 H2) as H; clear H1 H2; cbn [app] in H
  end.

(** Take the automata of the expressions from the stack. *)
Lemma stack_cons ctx st r rs : stack_ok ctx st (r :: rs) -> exists a fs, stack ctx = a :: fs.
Proof. intros [HF _ _]. inversion HF. eauto. Qed.

Lemma star_ok ctx st r rs : stack_ok ctx st (r :: rs) ->
  exists ctx' st', nfa_add_star_op ctx st = Some (ctx', st') /\ stack_ok ctx' st' (Star r :: rs).
Proof.
  intros HK. destruct (stack_cons _ _ _ _ HK) as (a & fs & Ek). pose proof (so_nodup _ _ _ HK) as HN. unfold nfa_add_star_op.
  destruct (two_states_ok ctx st (r :: rs) fs HK) as (st1 & ctx1 & st2 & ctx2 & E1 & E2 & Ei & Ek2 & HF & Hold & HI & Hid & Hid' & Hs & He).
  rewrite Ek in *. cbn [fmap list_fmap concat] in *. rewrite E1, E2. set (id := state_id ctx) in *.
  apply Forall2_cons in HF as [(Ht & s0 & e0 & Es & Ee & F) HF']. rewrite Es, Ee.
  pose proof (fr_acc _ _ _ _ _ F e0 (fr_end _ _ _ _ _ F)) as He0. pose proof (fr_end _ _ _ _ _ F) as Hin.
  do 6 link. rewrite fragment_create_eq by lia. do 2 eexists. split; [done|]. links_all.
  set (n := mk_aut NFA (Some id) (Some (id + 1)) 2 [id; id + 1]). destruct (add_states_eq n (states a)) as (En & E3 & E4 & E5).
  assert (Hlt : forall p, p ∈ states a -> p < id) by (intros; apply Hold, elem_of_app; by left).
  eapply (stack_around ctx2 st2 _ fs rs (states a)); try done.
  - split; [by rewrite E5|]. exists id, (id + 1). rewrite E3, E4, En. split_and!; [done|done|]. cbn [states n].
    apply (fragment_star st2 _ id (id + 1)) with (s0 := s0) (e0 := e0); try done; [lia|intros ?%Hlt; lia|intros ?%Hlt; lia|].
    intros p. acc_now; acc_done.
  - intros p Hp. cbn in Hp. set_solver.
  - intros p Hp. acc_now; exfalso; apply Hp; set_solver.
Qed.

Lemma opt_ok ctx st r rs : stack_ok ctx st (r :: rs) ->
  exists ctx' st', nfa_add_question_op ctx st = Some (ctx', st') /\ stack_ok ctx' st' (Opt r :: rs).
Proof.
  intros HK. destruct (stack_cons _ _ _ _ HK) as (a & fs & Ek). pose proof (so_nodup _ _ _ HK) as HN. unfold nfa_add_question_op.
  destruct (two_states_ok ctx st (r :: rs) fs HK) as (st1 & ctx1 & st2 & ctx2 & E1 & E2 & Ei & Ek2 & HF & Hold & HI & Hid & Hid' & Hs & He).
  rewrite Ek in *. cbn [fmap list_fmap concat] in *. rewrite E1, E2. set (id := state_id ctx) in *.
  apply Forall2_cons in HF as [(Ht & s0 & e0 & Es & Ee & F) HF']. rewrite Es, Ee.
  pose proof (fr_acc _ _ _ _ _ F e0 (fr_end _ _ _ _ _ F)) as He0. pose proof (fr_end _ _ _ _ _ F) as Hin.
  do 4 link. rewrite fragment_create_eq by lia. do 2 eexists. split; [done|]. links_all.
  set (n := mk_aut NFA (Some id) (Some (id + 1)) 2 [id; id + 1]). destruct (add_states_eq n (states a)) as (En & E3 & E4 & E5).
  assert (Hlt : forall p, p ∈ states a -> p < id) by (intros; apply Hold, elem_of_app; by left).
  eapply (stack_around ctx2 st2 _ fs rs (states a)); try done.
  - split; [by rewrite E5|]. exists id, (id + 1). rewrite E3, E4, En. split_and!; [done|done|]. cbn [states n].
    apply (fragment_opt st2 _ id (id + 1)) with (s0 := s0) (e0 := e0); try done; [lia|intros ?%Hlt; lia|intros ?%Hlt; lia|].
    specialize (Hlt e0 Hin). intros p. acc_now; acc_done.
  - intros p Hp. cbn in Hp. set_solver.
  - intros p Hp. acc_now; exfalso; apply Hp; set_solver.
Qed.

Lemma alt_ok ctx st r1 r2 rs : stack_ok ctx st (r2 :: r1 :: rs) ->
  exists ctx' st', nfa_add_alternation ctx st = Some (ctx', st') /\ stack_ok ctx' st' (Alt r1 r2 :: rs).
Proof.
  intros HK. destruct (stack_cons _ _ _ _ HK) as (b & [|a fs] & Ek).
  { destruct HK as [HF _ _]. rewrite Ek in HF. apply Forall2_cons in HF as [_ HF]. inversion HF. }
  pose proof (so_nodup _ _ _ HK) as HN. unfold nfa_add_alternation.
  destruct (two_states_ok ctx st (r2 :: r1 :: rs) fs HK) as (st1 & ctx1 & st2 & ctx2 & E1 & E2 & Ei & Ek2 & HF & Hold & HI & Hid & Hid' & Hs & He).
  rewrite Ek in *. cbn [fmap list_fmap concat] in *. rewrite E1, E2. set (id := state_id ctx) in *.
  apply Forall2_cons in HF as [(Htb & s2 & e2 & Esb & Eeb & G) HF]. apply Forall2_cons in HF as [(Hta & s1 & e1 & Esa & Eea & F) HF'].
  rewrite Esa, Eea, Esb, Eeb.
  pose proof (fr_acc _ _ _ _ _ F e1 (fr_end _ _ _ _ _ F)) as He1. pose proof (fr_end _ _ _ _ _ F) as Hin1.
  pose proof (fr_acc _ _ _ _ _ G e2 (fr_end _ _ _ _ _ G)) as He2. pose proof (fr_end _ _ _ _ _ G) as Hin2.
  do 7 link. rewrite fragment_create_eq by lia. do 2 eexists. split; [done|]. links_all.
  set (n := mk_aut NFA (Some id) (Some (id + 1)) 2 [id; id + 1]). destruct (add_states_eq n (states a)) as (En & E3 & E4 & E5).
  destruct (add_states_eq (nfa_add_states n (states a)) (states b)) as (En' & E3' & E4' & E5').
  assert (Hlta : forall p, p ∈ states a ++ states b -> p < id) by (intros p Hp; apply Hold; set_solver).
  pose proof HN as (N1 & N2 & (N3 & N4 & N5)%NoDup_app)%NoDup_app.
  assert (Hdis : forall p, p ∈ states a -> p ∉ states b). { intros p Hpa Hpb. apply (N2 p Hpb), elem_of_app. by left. }
  eapply (stack_around ctx2 st2 _ fs rs (states a ++ states b)); try done.
  - eapply NoDup_Permutation_proper; [|exact HN]. by rewrite <- app_assoc, (Permutation_app_swap_app (states a)).
  - intros p Hp. apply Hold. set_solver.
  - split; [by rewrite E5', E5|]. exists id, (id + 1). rewrite E3', E3, E4', E4, En', En. split_and!; [done|done|]. cbn [states n]. rewrite <- app_assoc.
    apply (fragment_alt st2 _ id (id + 1)) with (s1 := s1) (e1 := e1) (s2 := s2) (e2 := e2); try done; [lia|intros ?%Hlta; lia|intros ?%Hlta; lia|].
    assert (e1 ∈ states a ++ states b) as H1 by (apply elem_of_app; by left). assert (e2 ∈ states a ++ states b) as H2 by (apply elem_of_app; by right).
    pose proof (Hlta e1 H1). pose proof (Hlta e2 H2). intros p. acc_now; acc_done.
  - by rewrite En', En, <- app_assoc.
  - intros p Hp. cbn in Hp. set_solver.
  - intros p Hp. acc_now; exfalso; apply Hp; set_solver.
Qed.

(** The automata with the states [S] are replaced by one with the same states. *)
Lemma stack_inside ctx st st' fs rs S n r new : Forall2 (aut_ok st) fs rs -> NoDup (S ++ concat (states <$> fs)) ->
  (forall s, is_Some (st !! s) -> s < state_id ctx) -> (forall p, p ∈ S -> is_Some (acc st p)) -> aut_ok st' n r -> states n = S -> stack ctx = n :: fs ->
  links st st' new -> (forall p, p ∈ new.*1 -> p ∈ S) -> (forall p, p ∉ S -> acc st' p = acc st p) -> stack_ok ctx st' (r :: rs).
Proof.
  intros HF HN HI HS Hn En Ek HL Hnew HA. pose proof HN as (N1 & N2 & N3)%NoDup_app. split.
  - rewrite Ek. constructor; [done|]. apply (frame_rest st); [done|]. intros p Hp.
    assert (p ∉ S) by (intros Hq; by eapply N2). apply (links_same_at st st' new); auto.
  - rewrite Ek. cbn. by rewrite En.
  - intros p [b Hb]%acc_is_Some. apply HI, acc_is_Some. destruct (decide (p ∈ S)) as [Hp|Hp]; [by apply HS|].
    rewrite HA in Hb by done. by exists b.
Qed.

Lemma fragment_acc st S s e r : fragment st S s e r -> forall p, p ∈ S -> is_Some (acc st p).
Proof. intros F p Hp. rewrite (fr_acc _ _ _ _ _ F) by done. by eexists. Qed.

Lemma plus_ok ctx st r rs : stack_ok ctx st (r :: rs) ->
  exists ctx' st', nfa_add_plus_op ctx st = Some (ctx', st') /\ stack_ok ctx' st' (Plus r :: rs).
Proof.
  intros HK. destruct (stack_cons _ _ _ _ HK) as (a & fs & Ek). destruct HK as [HF HN HI]. unfold nfa_add_plus_op.
  rewrite Ek in *. cbn [fmap list_fmap concat] in *. apply Forall2_cons in HF as [(Ht & s0 & e0 & Es & Ee & F) HF']. rewrite Es, Ee.
  pose proof (fr_end _ _ _ _ _ F) as Hin. pose proof (fr_acc _ _ _ _ _ F e0 Hin) as He0.
  link. do 2 eexists. split; [done|]. eapply (stack_inside _ st st0 fs rs (states a) a); try done.
  - exact (fragment_acc _ _ _ _ _ F).
  - split; [done|]. exists s0, e0. split_and!; [done..|]. by apply (fragment_plus st).
  - intros p Hp. cbn in Hp. set_solver.
Qed.

Lemma cat_ok ctx st r1 r2 rs : stack_ok ctx st (r2 :: r1 :: rs) ->
  exists ctx' st', nfa_add_concatenation ctx st = Some (ctx', st') /\ stack_ok ctx' st' (Cat r1 r2 :: rs).
Proof.
  intros HK. destruct (stack_cons _ _ _ _ HK) as (b & [|a fs] & Ek).
  { destruct HK as [HF _ _]. rewrite Ek in HF. apply Forall2_cons in HF as [_ HF]. inversion HF. }
  destruct HK as [HF HN HI]. unfold nfa_add_concatenation. rewrite Ek in *. cbn [fmap list_fmap concat] in *.
  apply Forall2_cons in HF as [(Htb & s2 & e2 & Esb & Eeb & G) HF]. apply Forall2_cons in HF as [(Hta & s1 & e1 & Esa & Eea & F) HF'].
  rewrite Esa, Eea, Esb, Eeb. pose proof (fr_end _ _ _ _ _ F) as Hin1. pose proof (fr_acc _ _ _ _ _ F e1 Hin1) as He1.
  pose proof (fr_end _ _ _ _ _ G) as Hin2. pose proof (fr_acc _ _ _ _ _ G e2 Hin2) as He2.
  do 3 link. cbn [nfa_fragment_create]. do 2 eexists. split; [done|]. links_all.
  set (n := mk_aut NFA None None 0 []). destruct (add_states_eq n (states a)) as (En & E3 & E4 & E5).
  destruct (add_states_eq (nfa_add_states n (states a)) (states b)) as (En' & E3' & E4' & E5').
  pose proof HN as (N1 & N2 & N3)%NoDup_app. assert (Hdis : forall p, p ∈ states a -> p ∉ states b).
  { intros p Hpa Hpb. apply (N2 p Hpb), elem_of_app. by left. }
  eapply (stack_inside _ st _ fs rs (states a ++ states b)); [done| | | | | |done|done| |].
  - eapply NoDup_Permutation_proper; [|exact HN]. by rewrite <- app_assoc, (Permutation_app_swap_app (states a)).
  - done.
  - intros p [Hp|Hp]%elem_of_app; [exact (fragment_acc _ _ _ _ _ F p Hp)|exact (fragment_acc _ _ _ _ _ G p Hp)].
  - split; cbn [a_type start end_ states]; [by rewrite E5', E5|]. exists s1, e2. split_and!; [done|done|]. rewrite En', En. cbn [states n].
    rewrite app_nil_l. apply (fragment_cat st) with (e1 := e1) (s2 := s2); try done. intros p. acc_now; acc_done.
  - cbn [states]. by rewrite En', En.
  - intros p Hp. cbn in Hp. set_solver.
  - intros p Hp. acc_now; exfalso; apply Hp; set_solver.
Qed.

Lemma label_ok c ctx st rs : stack_ok ctx st rs ->
  exists ctx' st', nfa_add_label [c] ctx st = Some (ctx', st') /\ stack_ok ctx' st' (Chr c :: rs).
Proof.
  intros HK. unfold nfa_add_label. pose proof (so_nodup _ _ _ HK) as HN.
  destruct (two_states_ok ctx st rs (stack ctx) HK) as (st1 & ctx1 & st2 & ctx2 & E1 & E2 & Ei & Ek2 & HF & Hold & HI & Hid & Hid' & Hs & He).
  replace (mk_ctx (state_id ctx) (stack ctx)) with ctx in E1 by (by destruct ctx). rewrite E1, E2. set (id := state_id ctx) in *.
  destruct (add_transition_spec id (Some [c]) (Some (id + 1)) st2 false Hid) as (st3 & -> & HA & HT).
  rewrite fragment_create_eq by lia. do 2 eexists. split; [done|].
  assert (HF3 : Forall2 (aut_ok st3) (stack ctx) rs).
  { apply (frame_rest st2); [done|]. intros p Hp. specialize (Hold p Hp). split; [done|]. intros t. rewrite (HT p t), list_elem_of_singleton.
    split; [|by left]. intros [?|[= -> _]]; [done|lia]. }
  split; cbn.
  - rewrite Ek2. constructor; [|done]. split; [done|]. exists id, (id + 1). split_and!; [done|done|].
    apply (fragment_label st2 st3 id (id + 1)); try done; [lia|by rewrite HA..].
  - rewrite Ek2. apply NoDup_cons. split; [intros [Hq|Hq]%elem_of_cons; [lia|specialize (Hold _ Hq); lia]|].
    apply NoDup_cons. split; [intros Hq; specialize (Hold _ Hq); lia|done].
  - intros p [b Hb]%acc_is_Some. rewrite HA in Hb. rewrite Ei. apply HI, acc_is_Some. by exists b.
Qed.

(** ** The parser *)

Definition parser_ok (p : Parser) (rs : list re) : Prop := stack_ok (p_ctx p) (p_st p) rs.

(** The counters other than that of atoms stay. *)
Definition same_counts (p p' : Parser) : Prop := altcount p' = altcount p /\ saved p' = saved p.

(** The sequence that was read last, if any, is on top of [rs]; its last atom may be apart. *)
Definition at_sequence (p : Parser) (cur : option re) (rs : list re) : Prop :=
  match cur with
  | None => atomcount p = 0 /\ parser_ok p rs
  | Some r => atomcount p = 1 /\ parser_ok p (r :: rs) \/ atomcount p = 2 /\ exists a b, r = Cat a b /\ parser_ok p (b :: a :: rs)
  end.

(** The atom [r] is on top, after the sequence [cur]. *)
Definition at_atom (p : Parser) (cur : option re) (r : re) (rs : list re) : Prop :=
  match cur with
  | None => atomcount p = 1 /\ parser_ok p (r :: rs)
  | Some q => atomcount p = 2 /\ parser_ok p (r :: q :: rs)
  end.

Lemma atom_sequence p cur r rs : at_atom p cur r rs -> at_sequence p (Some (match cur with None => r | Some q => Cat q r end)) rs.
Proof. destruct cur as [q|]; cbn; [|by left]. intros [? ?]. right. eauto. Qed.

(** The alternatives [l] before [r], the last first. *)
Fixpoint fold_alt (l : list re) (r : re) : re :=
  match l with
  | [] => r
  | q :: l => fold_alt l (Alt q r)
  end.

Lemma fold_alt_last l q r : fold_alt (l ++ [q]) r = Alt q (fold_alt l r).
Proof. revert r. induction l as [|x l IH]; intros r; cbn; [done|]. apply IH. Qed.

Lemma parse_chars_app s t p p' : parse_chars s p = Some (Some p') -> parse_chars (s ++ t) p = parse_chars t p'.
Proof.
  revert p. induction s as [|c s IH]; intros p; cbn; [by intros [= ->]|]. destruct (parse_char c p) as [[q|]|]; try done. apply IH.
Qed.

(** An operation on the top of the stack. *)
Lemma on_stack_ok f p rs rs' : (exists ctx' st', f (p_ctx p) (p_st p) = Some (ctx', st') /\ stack_ok ctx' st' rs') -> parser_ok p rs ->
  exists p', on_stack f p = Some p' /\ parser_ok p' rs' /\ same_counts p p' /\ atomcount p' = atomcount p.
Proof. intros (ctx' & st' & E & Hk) _. unfold on_stack. rewrite E. eexists. split; [done|]. done. Qed.

Lemma concat_some_ok p cur rs : at_sequence p cur rs -> exists p', concat_some p = Some p' /\ same_counts p p'
  /\ match cur with None => atomcount p' = 0 /\ parser_ok p' rs | Some r => atomcount p' = 1 /\ parser_ok p' (r :: rs) end.
Proof.
  unfold concat_some. destruct cur as [r|]; cbn.
  - intros [[Hn Hk]|[Hn (a & b & -> & Hk)]]; rewrite Hn; cbn; [by exists p|].
    destruct (on_stack_ok nfa_add_concatenation (set_counts (altcount p) (2 - 1) (saved p) p) (b :: a :: rs) (Cat a b :: rs)) as (p' & -> & Hk' & Hs & Ha);
      [by apply cat_ok|done|]. by exists p'.
  - intros [Hn Hk]. rewrite Hn. by exists p.
Qed.

Lemma concat_all_ok p r rs : at_sequence p (Some r) rs -> exists p', concat_all p = Some p' /\ same_counts p p' /\ atomcount p' = 0 /\ parser_ok p' (r :: rs).
Proof.
  unfold concat_all. intros [[Hn Hk]|[Hn (a & b & -> & Hk)]].
  - destruct (length _); cbn; rewrite Hn; cbn; by eexists.
  - assert (exists n, length (stack (p_ctx p)) = S n) as [n ->].
    { destruct Hk as [HF _ _]. apply Forall2_length in HF. rewrite HF. cbn. eauto. }
    cbn [concat_while]. rewrite Hn. change (u32 (2 - 1)) with 1. change (atomcount (set_counts (altcount p) 1 (saved p) p)) with 1.
    change (1 >? 0) with true. cbv iota.
    destruct (on_stack_ok nfa_add_concatenation (set_counts (altcount p) 1 (saved p) p) (b :: a :: rs) (Cat a b :: rs)) as (p' & E & Hk' & Hs & Ha);
      [by apply cat_ok|done|]. rewrite E. cbn in Ha. destruct n; cbn; rewrite Ha; cbn; eexists; (split; [done|]); done.
Qed.

Lemma alternate_while_ok l fuel p r rs : (length l <= fuel)%nat -> altcount p = Z.of_nat (length l) -> parser_ok p (r :: l ++ rs) ->
  exists p', alternate_while fuel p = Some p' /\ altcount p' = 0 /\ saved p' = saved p /\ atomcount p' = atomcount p /\ parser_ok p' (fold_alt l r :: rs).
Proof.
  revert fuel p r. induction l as [|q l IH]; intros fuel p r Hf Hn Hk; cbn in Hn.
  - exists p. split; [|done]. destruct fuel; cbn; by rewrite Hn.
  - destruct fuel as [|fuel]; cbn in Hf; [lia|]. cbn. replace (altcount p >? 0) with true by lia.
    destruct (on_stack_ok nfa_add_alternation p (r :: q :: l ++ rs) (Alt q r :: l ++ rs)) as (p' & -> & Hk' & [Hs1 Hs2] & Ha); [by apply alt_ok|done|].
    destruct (IH fuel (set_counts (altcount p' - 1) (atomcount p') (saved p') p') (Alt q r)) as (p2 & E & H1 & H2 & H3 & H4); [lia|cbn; lia|done|].
    exists p2. cbn in H2, H3. split_and!; [done|done|congruence|congruence|done].
Qed.

Lemma alternate_all_ok l p r rs : altcount p = Z.of_nat (length l) -> parser_ok p (r :: l ++ rs) ->
  exists p', alternate_all p = Some p' /\ altcount p' = 0 /\ saved p' = saved p /\ atomcount p' = atomcount p /\ parser_ok p' (fold_alt l r :: rs).
Proof.
  intros Hn Hk. apply alternate_while_ok; [|done|done]. destruct Hk as [HF _ _]. apply Forall2_length in HF. rewrite HF. cbn. rewrite length_app. lia.
Qed.

(** After alternatives: the last of them is the current sequence. *)
Definition at_alternatives (p : Parser) (k : Z) (r : re) (rs : list re) : Prop :=
  exists l q, at_sequence p (Some q) (l ++ rs) /\ altcount p = k + Z.of_nat (length l) /\ fold_alt l q = r.

Lemma parse_unary f op r r' p cur rs : (forall q, atomcount q <> 0 -> parse_char op q = let? q := on_stack f q in Some (Some q)) ->
  (forall ctx st rs, stack_ok ctx st (r :: rs) -> exists ctx' st', f ctx st = Some (ctx', st') /\ stack_ok ctx' st' (r' :: rs)) ->
  at_atom p cur r rs -> exists p', parse_chars [op] p = Some (Some p') /\ same_counts p p' /\ at_atom p' cur r' rs.
Proof.
  intros Hc Hf Ha. cbn. rewrite Hc by (destruct cur; cbn in Ha; lia). destruct cur as [q|]; destruct Ha as [Hn Hk].
  - destruct (on_stack_ok f p _ (r' :: q :: rs) (Hf _ _ _ Hk) Hk) as (p' & -> & Hk' & Hs & Ha). exists p'. split_and!; [done|done|]. cbn. split; [lia|done].
  - destruct (on_stack_ok f p _ (r' :: rs) (Hf _ _ _ Hk) Hk) as (p' & -> & Hk' & Hs & Ha). exists p'. split_and!; [done|done|]. cbn. split; [lia|done].
Qed.

Lemma same_counts_trans p1 p2 p3 : same_counts p1 p2 -> same_counts p2 p3 -> same_counts p1 p3.
Proof. intros [? ?] [? ?]. split; congruence. Qed.

Lemma parse_literal c p : literal c ->
  parse_char c p = let? p := concat_some p in let? p := on_stack (nfa_add_label [c]) p in
                   Some (Some (set_counts (altcount p) (u32 (atomcount p + 1)) (saved p) p)).
Proof.
  intros (H1 & H2 & H3 & H4 & H5 & H6). unfold parse_char.
  by rewrite !(proj2 (Z.eqb_neq _ _)) by done.
Qed.

Lemma parse_bar p : atomcount p <> 0 ->
  parse_char BAR p = let? p := concat_all p in Some (Some (set_counts (altcount p + 1) (atomcount p) (saved p) p)).
Proof. intros H. unfold parse_char. change (BAR =? LPAREN) with false. change (BAR =? BAR) with true. cbv iota. by replace (0 =? atomcount p) with false by lia. Qed.

Lemma parse_rparen p alt atom sv : atomcount p <> 0 -> saved p = (alt, atom) :: sv ->
  parse_char RPAREN p = let? p := concat_all p in let? p := alternate_all p in Some (Some (set_counts alt (u32 (atom + 1)) sv p)).
Proof.
  intros H Hs. unfold parse_char. change (RPAREN =? LPAREN) with false. change (RPAREN =? BAR) with false. change (RPAREN =? RPAREN) with true.
  cbv iota. rewrite Hs. by replace (0 =? atomcount p) with false by lia.
Qed.

Lemma sequence_nonzero p r rs : at_sequence p (Some r) rs -> atomcount p <> 0.
Proof. intros [[-> _]|[-> _]]; lia. Qed.

Lemma parse_group s r : (forall p rs, at_sequence p None rs -> exists p', parse_chars s p = Some (Some p') /\ saved p' = saved p /\ at_alternatives p' (altcount p) r rs) ->
  forall p cur rs, at_sequence p cur rs ->
  exists p', parse_chars (LPAREN :: s ++ [RPAREN]) p = Some (Some p') /\ same_counts p p' /\ at_atom p' cur r rs.
Proof.
  intros IH p cur rs Hp. destruct (concat_some_ok p cur rs Hp) as (p1 & E1 & [Hs1 Hs1'] & H1).
  cbn [parse_chars]. change (parse_char LPAREN p) with (let? p := concat_some p in Some (Some (set_counts 0 0 ((altcount p, atomcount p) :: saved p) p))).
  rewrite E1. set (p2 := set_counts _ _ _ p1). set (rs1 := match cur with None => rs | Some q => q :: rs end).
  destruct (IH p2 rs1) as (p3 & E3 & Hs3 & l & q & Hq & Hl & Hf).
  { split; [done|]. unfold rs1. destruct cur; apply H1. }
  rewrite (parse_chars_app _ _ _ _ E3). cbn [parse_chars]. rewrite (parse_rparen p3 (altcount p1) (atomcount p1) (saved p1)); [|by eapply sequence_nonzero|done].
  destruct (concat_all_ok p3 q (l ++ rs1) Hq) as (p4 & -> & [Hs4 Hs4'] & H4 & Hk4).
  destruct (alternate_all_ok l p4 q rs1) as (p5 & -> & H5 & _ & _ & Hk5); [rewrite Hs4, Hl; done|done|].
  eexists. split; [done|]. split; [done|]. rewrite Hf in Hk5. unfold at_atom, rs1 in *. cbn [atomcount set_counts].
  destruct cur as [x|]; destruct H1 as [-> _]; done.
Qed.

(** What the syntax describes is read accordingly. *)
Lemma parse_syntax :
  (forall s r, atom s r -> forall p cur rs, at_sequence p cur rs -> exists p', parse_chars s p = Some (Some p') /\ same_counts p p' /\ at_atom p' cur r rs)
  /\ (forall s r, sequence s r -> forall p rs, at_sequence p None rs -> exists p', parse_chars s p = Some (Some p') /\ same_counts p p' /\ at_sequence p' (Some r) rs)
  /\ (forall s r, alternatives s r -> forall p rs, at_sequence p None rs ->
        exists p', parse_chars s p = Some (Some p') /\ saved p' = saved p /\ at_alternatives p' (altcount p) r rs).
Proof.
  assert (Hop : forall f op r r' s, (forall q, atomcount q <> 0 -> parse_char op q = let? q := on_stack f q in Some (Some q)) ->
    (forall ctx st rs, stack_ok ctx st (r :: rs) -> exists ctx' st', f ctx st = Some (ctx', st') /\ stack_ok ctx' st' (r' :: rs)) ->
    (forall p cur rs, at_sequence p cur rs -> exists p', parse_chars s p = Some (Some p') /\ same_counts p p' /\ at_atom p' cur r rs) ->
    forall p cur rs, at_sequence p cur rs -> exists p', parse_chars (s ++ [op]) p = Some (Some p') /\ same_counts p p' /\ at_atom p' cur r' rs).
  { intros f op r r' s Hc Hf IH p cur rs Hp. destruct (IH p cur rs Hp) as (p1 & E1 & Hs1 & Ha1). rewrite (parse_chars_app _ _ _ _ E1).
    destruct (parse_unary f op r r' p1 cur rs Hc Hf Ha1) as (p2 & -> & Hs2 & Ha2). exists p2. split_and!; [done|by eapply same_counts_trans|done]. }
  apply syntax_ind.
  - intros c Hc p cur rs Hp. cbn [parse_chars]. rewrite parse_literal by done. destruct (concat_some_ok p cur rs Hp) as (p1 & -> & Hs1 & H1).
    destruct cur as [q|]; destruct H1 as [Hn Hk].
    + destruct (on_stack_ok (nfa_add_label [c]) p1 _ (Chr c :: q :: rs) (label_ok c _ _ _ Hk) Hk) as (p2 & -> & Hk2 & [Hs2 Hs2'] & Ha).
      eexists. split; [done|]. split; [by split; cbn; rewrite ?Hs2, ?Hs2'; apply Hs1|]. cbn. rewrite Ha, Hn. done.
    + destruct (on_stack_ok (nfa_add_label [c]) p1 _ (Chr c :: rs) (label_ok c _ _ _ Hk) Hk) as (p2 & -> & Hk2 & [Hs2 Hs2'] & Ha).
      eexists. split; [done|]. split; [by split; cbn; rewrite ?Hs2, ?Hs2'; apply Hs1|]. cbn. rewrite Ha, Hn. done.
  - intros s r _ IH. by apply parse_group.
  - intros s r _ IH. eapply Hop; [|intros; by apply star_ok|exact IH]. intros q Hq. unfold parse_char. cbn. by rewrite (proj2 (Z.eqb_neq _ _)).
  - intros s r _ IH. eapply Hop; [|intros; by apply plus_ok|exact IH]. intros q Hq. unfold parse_char. cbn. by rewrite (proj2 (Z.eqb_neq _ _)).
  - intros s r _ IH. eapply Hop; [|intros; by apply opt_ok|exact IH]. intros q Hq. unfold parse_char. cbn. by rewrite (proj2 (Z.eqb_neq _ _)).
  - intros s r _ IH p rs Hp. destruct (IH p None rs Hp) as (p1 & E1 & Hs1 & Ha1). exists p1. split_and!; [done|done|]. exact (atom_sequence _ _ _ _ Ha1).
  - intros s1 r1 s2 r2 _ IH1 _ IH2 p rs Hp. destruct (IH1 p rs Hp) as (p1 & E1 & Hs1 & Ha1). rewrite (parse_chars_app _ _ _ _ E1).
    destruct (IH2 p1 (Some r1) rs Ha1) as (p2 & E2 & Hs2 & Ha2). exists p2. split_and!; [done|by eapply same_counts_trans|].
    exact (atom_sequence _ _ _ _ Ha2).
  - intros s r _ IH p rs Hp. destruct (IH p rs Hp) as (p1 & E1 & [Hs1 Hs1'] & Ha1). exists p1. split_and!; [done|done|].
    exists [], r. split_and!; [done|cbn; lia|done].
  - intros s1 r1 s2 r2 _ IH1 _ IH2 p rs Hp. destruct (IH1 p rs Hp) as (p1 & E1 & [Hs1 Hs1'] & Ha1). rewrite (parse_chars_app _ _ _ _ E1).
    cbn [parse_chars]. rewrite parse_bar by (by eapply sequence_nonzero). destruct (concat_all_ok p1 r1 rs Ha1) as (p2 & -> & [Hs2 Hs2'] & H2 & Hk2).
    set (p3 := set_counts _ _ _ p2). destruct (IH2 p3 (r1 :: rs)) as (p4 & E4 & Hs4 & l & q & Hq & Hl & Hf); [by split|].
    exists p4. split_and!; [done|rewrite Hs4; cbn; congruence|]. exists (l ++ [r1]), q. split_and!.
    + by rewrite <- app_assoc.
    + rewrite Hl. cbn. rewrite length_app. cbn. lia.
    + by rewrite fold_alt_last, Hf.
Qed.
