(* ===== verification/RegexEval.v ===== *)
(** * Regular expressions: traversal, sets of states and the evaluation of the automaton *)

From stdpp Require Import gmap sorting relations.
From S2P Require Import Prelude Regex RegexNfa.
#[local] Open Scope Z_scope.

(** ** Traversal *)

(** The transitions of some states lead to these. *)
Record closed_on (st : store) (S : gset Z) : Prop := {
  co_dom : S ⊆ dom st;
  co_target : forall p t, p ∈ S -> tr st p t -> exists q, to_state t = Some q /\ q ∈ S;
}.

Definition next_state (st : store) (p q : Z) : Prop := exists l, edges st p l q.

(** What a visit adds to the marks [M] and the order [o], from some of the states [R]. *)
Record visited (st : store) (S : gset Z) (R : list Z) (M : gset Z) (o : list Z) (M' : gset Z) (o' : list Z) : Prop := {
  vi_marks : M ⊆ M';
  vi_dom : M' ⊆ S;
  vi_order : forall p, p ∈ o' <-> p ∈ o \/ p ∈ M' /\ p ∉ M;
  vi_roots : forall p, p ∈ R -> p ∈ M';
  vi_closed : forall p q, p ∈ M' -> p ∉ M -> next_state st p q -> q ∈ M';
  vi_reach : forall p, p ∈ M' -> p ∉ M -> exists r, r ∈ R /\ rtc (next_state st) r p;
}.

Lemma visited_nil st S M o : M ⊆ S -> visited st S [] M o M o.
Proof. intros H. split; try done; [|by intros p ?%elem_of_nil]. intros p. tauto. Qed.

Lemma visited_app st S R1 R2 M1 o1 M2 o2 M3 o3 : visited st S R1 M1 o1 M2 o2 -> visited st S R2 M2 o2 M3 o3 -> visited st S (R1 ++ R2) M1 o1 M3 o3.
Proof.
  intros [A1 A2 A3 A4 A5 A6] [B1 B2 B3 B4 B5 B6]. split.
  - set_solver.
  - done.
  - intros p. rewrite B3, A3. specialize (A1 p). specialize (B1 p). destruct (decide (p ∈ M2)); tauto.
  - intros p [Hp|Hp]%elem_of_app; auto.
  - intros p q H3 H1 Hq. destruct (decide (p ∈ M2)); eauto.
  - intros p H3 H1. destruct (decide (p ∈ M2)) as [H2|H2].
    + destruct (A6 p H2 H1) as (r & Hr & Hp). exists r. split; [apply elem_of_app; by left|done].
    + destruct (B6 p H3 H2) as (r & Hr & Hp). exists r. split; [apply elem_of_app; by right|done].
Qed.

Definition targets (ts : list Transition) : list Z := omap to_state ts.

Lemma elem_of_targets ts d : d ∈ targets ts <-> exists l, mk_trans l (Some d) ∈ ts.
Proof.
  unfold targets. rewrite list_elem_of_omap. split.
  - intros ([l to] & Hin & Ht). cbn in Ht. subst to. eauto.
  - intros [l Hin]. by exists (mk_trans l (Some d)).
Qed.

Section Traverse.
Context (st : store) (S : gset Z) (Hst : closed_on st S).

Lemma traverse_targets_ok (visit : Z -> gset Z * list Z -> option (gset Z * list Z)) k ts M o :
  (forall d M o, d ∈ S -> M ⊆ S -> (size (S ∖ M) < k)%nat -> exists M' o', visit d (M, o) = Some (M', o') /\ visited st S [d] M o M' o') ->
  (forall t, t ∈ ts -> exists q, to_state t = Some q /\ q ∈ S) -> M ⊆ S -> (size (S ∖ M) < k)%nat ->
  exists M' o', traverse_targets visit ts (M, o) = Some (M', o') /\ visited st S (targets ts) M o M' o'.
Proof.
  intros IH Ht HM Hk. revert M o HM Hk. induction ts as [|t ts IHts]; intros M o HM Hk; cbn [traverse_targets].
  { exists M, o. split; [done|]. by apply visited_nil. }
  destruct (Ht t) as (d & Hd & Hs); [by left|]. rewrite Hd. destruct (IH d M o) as (M1 & o1 & -> & V1); [done|done|done|].
  destruct (IHts (fun t H => Ht t ltac:(by right)) M1 o1) as (M2 & o2 & E & V2); [apply V1| |].
  { eapply Nat.le_lt_trans; [|exact Hk]. apply subseteq_size. destruct V1. set_solver. }
  exists M2, o2. split; [done|]. unfold targets. cbn. rewrite Hd. exact (visited_app st S [d] _ _ _ _ _ _ _ V1 V2).
Qed.

Lemma traverse_ok fuel s M o : s ∈ S -> M ⊆ S -> (size (S ∖ M) < fuel)%nat ->
  exists M' o', automaton_state_traverse fuel st s (M, o) = Some (M', o') /\ visited st S [s] M o M' o'.
Proof.
  revert s M o. induction fuel as [|fuel IH]; intros s M o Hs HM Hf; [lia|]. cbn [automaton_state_traverse fst snd].
  case_bool_decide as Hm.
  { exists M, o. split; [done|]. split; try done; set_solver. }
  destruct (proj1 (elem_of_dom st s) (co_dom _ _ Hst _ Hs)) as [x Hx]. rewrite Hx.
  destruct (traverse_targets_ok (automaton_state_traverse fuel st) fuel (transitions x) ({[s]} ∪ M) (s :: o)) as (M' & o' & E & [A1 A2 A3 A4 A5 A6]).
  - intros. by apply IH.
  - intros t Ht. apply (co_target _ _ Hst s); [done|]. by exists x.
  - set_solver.
  - eapply Nat.lt_le_trans; [|apply Nat.lt_succ_r; exact Hf]. apply subset_size. set_solver.
  - exists M', o'. split; [done|]. split.
    + set_solver.
    + done.
    + intros p. rewrite A3. destruct (decide (p = s)) as [->|]; set_solver.
    + set_solver.
    + intros p q Hp Hn (l & Hpq). destruct (decide (p = s)) as [->|Hne].
      * apply A4, elem_of_targets. destruct Hpq as (x' & Hx' & Hin). assert (x' = x) as -> by congruence. eauto.
      * apply (A5 p); [done|set_solver|by exists l].
    + intros p Hp Hn. exists s. split; [set_solver|]. destruct (decide (p = s)) as [->|Hne]; [constructor|].
      destruct (A6 p Hp ltac:(set_solver)) as (r & (l & Hr)%elem_of_targets & Hrp). eapply rtc_l; [|exact Hrp]. exists l. by exists x.
Qed.

Lemma automaton_traverse_ok a s s0 : start a = Some s0 -> state_count a <> 0 -> default s0 s ∈ S ->
  exists order, REGEX_INTERNAL_automaton_traverse a s st = Some order /\ forall p, p ∈ order <-> rtc (next_state st) (default s0 s) p.
Proof.
  intros Ha Hc Hs. unfold REGEX_INTERNAL_automaton_traverse. replace (0 =? state_count a) with false by lia.
  replace (match s with Some s => Some s | None => start a end) with (Some (default s0 s)) by (by destruct s). set (s1 := default s0 s) in *.
  destruct (traverse_ok (Datatypes.S (size st)) s1 ∅ []) as (M & o & -> & [A1 A2 A3 A4 A5 A6]).
  - done.
  - set_solver.
  - rewrite difference_empty_L, <- size_dom. apply Nat.lt_succ_r, subseteq_size, Hst.
  - exists (reverse o). split; [done|]. intros p. rewrite elem_of_reverse, A3. split.
    + intros [?%elem_of_nil|[Hp _]]; [done|]. destruct (A6 p Hp) as (r & ->%list_elem_of_singleton & Hr); [set_solver|done].
    + intros Hr. right. split; [|set_solver]. assert (s1 ∈ M) as Hm by set_solver.
      assert (Hin : forall x y, rtc (next_state st) x y -> x ∈ M -> y ∈ M); [|by apply (Hin s1)].
      induction 1 as [|x y z Hxy _ IH]; [done|]. intros Hx. apply IH, (A5 x); [done|set_solver|done].
Qed.
End Traverse.

(** ** Sets of states *)

Section Closure.
Context (st : store) (S : gset Z) (Hst : closed_on st S) (label : option str).

(** One transition with the label. *)
Definition follows (p q : Z) : Prop := edges st p label q.

(** What the loops add: the states [new], reached from [R]. *)
Record extended (R : list Z) (C : gset Z) (new : list Z) (C' : gset Z) : Prop := {
  ex_nodup : NoDup new;
  ex_new : forall p, p ∈ new <-> p ∈ C' /\ p ∉ C;
  ex_mono : C ⊆ C';
  ex_dom : C' ⊆ S;
  ex_closed : forall p q, p ∈ R \/ p ∈ new -> follows p q -> q ∈ C';
  ex_sound : forall p, p ∈ new -> exists r, r ∈ R /\ tc follows r p;
}.

Lemma extended_nil C : C ⊆ S -> extended [] C [] C.
Proof.
  intros H. split; [constructor| |done|done| |by intros p ?%elem_of_nil].
  - intros p. split; [by intros ?%elem_of_nil|by intros []].
  - by intros p q [?%elem_of_nil|?%elem_of_nil].
Qed.

Lemma extended_size R C new C' : extended R C new C' -> (size C' = size C + length new)%nat.
Proof.
  intros [H1 H2 H3 H4 _ _]. assert (C' = C ∪ list_to_set new) as ->.
  { apply set_eq. intros p. rewrite elem_of_union, elem_of_list_to_set, H2. specialize (H3 p). destruct (decide (p ∈ C)); tauto. }
  rewrite size_union by (intros p Hp; rewrite elem_of_list_to_set, H2; tauto). by rewrite size_list_to_set.
Qed.

Lemma closure_scan_spec ts c : exists new, NoDup new /\ (forall d, d ∈ new <-> mk_trans label (Some d) ∈ ts /\ d ∉ contained c)
  /\ closure_scan label ts c = mk_closure (c_ret c ++ new) (reverse new ++ c_stack c) (list_to_set new ∪ contained c).
Proof.
  revert c. induction ts as [|t ts IH]; intros c; cbn [closure_scan].
  { exists []. split_and!; [constructor|set_solver|]. destruct c. cbn. rewrite app_nil_r. f_equal. set_solver. }
  assert (Hskip : forall c', c' = c -> (forall d, t = mk_trans label (Some d) -> d ∈ contained c) ->
    exists new, NoDup new /\ (forall d, d ∈ new <-> mk_trans label (Some d) ∈ t :: ts /\ d ∉ contained c)
    /\ closure_scan label ts c' = mk_closure (c_ret c ++ new) (reverse new ++ c_stack c) (list_to_set new ∪ contained c)).
  { intros c' -> Ht. destruct (IH c) as (new & N & Hnew & E). exists new. split_and!; [done| |done]. intros d. rewrite Hnew, elem_of_cons. naive_solver. }
  destruct t as [l [d|]]; cbn [to_state t_label]; [|by apply Hskip].
  case_bool_decide as Hc; [apply Hskip; [done|]; by intros d' [= _ ->]|].
  destruct (Z.eqb_spec 0 (nullstrcmp label l)) as [E0|Hne].
  - cbn [negb]. symmetry in E0. apply nullstrcmp_eq in E0 as <-. destruct (IH (mk_closure (c_ret c ++ [d]) (d :: c_stack c) ({[d]} ∪ contained c))) as (new & N & Hnew & E).
    cbn in Hnew. exists (d :: new). split_and!.
    + constructor; [|done]. rewrite Hnew. set_solver.
    + intros d'. rewrite !elem_of_cons, Hnew. destruct (decide (d' = d)) as [->|]; set_solver.
    + rewrite E. cbn [c_ret c_stack contained]. rewrite <- app_assoc, reverse_cons, <- app_assoc. f_equal. set_solver.
  - cbn [negb]. apply Hskip; [done|]. intros d' [= <- _]. exfalso. apply Hne. symmetry. by apply nullstrcmp_eq.
Qed.

Lemma closure_loop_spec fuel c : (forall p, p ∈ c_stack c -> p ∈ S) -> contained c ⊆ S ->
  (length (c_stack c) + size (S ∖ contained c) <= fuel)%nat ->
  exists new C', closure_loop fuel label st c = Some (mk_closure (c_ret c ++ new) [] C') /\ extended (c_stack c) (contained c) new C'.
Proof.
  revert c. induction fuel as [|fuel IH]; intros [ret stk C] Hs HC Hf; cbn in *; destruct stk as [|cur stk]; cbn in Hf.
  1,3: exists [], C; rewrite app_nil_r; split; [done|]; by apply extended_nil.
  { lia. }
  destruct (proj1 (elem_of_dom st cur)) as [x Hx]; [apply Hst, Hs; by left|]. rewrite Hx.
  destruct (closure_scan_spec (transitions x) (mk_closure ret stk C)) as (new & N & Hnew & ->). cbn in *.
  assert (Hdom : forall d, d ∈ new -> d ∈ S).
  { intros d [Hd _]%Hnew. destruct (co_target _ _ Hst cur (mk_trans label (Some d))) as (q & [= <-] & Hq); [apply Hs; by left|by exists x|done]. }
  destruct (IH (mk_closure (ret ++ new) (reverse new ++ stk) (list_to_set new ∪ C))) as (new' & C' & E & [A1 A2 A3 A4 A5 A6]); cbn in *.
  - intros p. rewrite elem_of_app, elem_of_reverse. intros [Hp|Hp]; [by apply Hdom|]. apply Hs. by right.
  - intros p. rewrite elem_of_union, elem_of_list_to_set. intros [?|?]; [by apply Hdom|by apply HC].
  - rewrite length_app, length_reverse. assert (size (S ∖ C) = length new + size (S ∖ (list_to_set new ∪ C)))%nat as Hsz; [|lia].
    rewrite <- (size_list_to_set (C := gset Z) new) by done. rewrite <- size_union by (intros p; set_solver). f_equal. apply set_eq. intros p.
    rewrite elem_of_union, !elem_of_difference, elem_of_union, elem_of_list_to_set. specialize (Hdom p). specialize (Hnew p). destruct (decide (p ∈ new)); tauto.
  - exists (new ++ new'), C'. rewrite E, <- app_assoc. split; [done|]. split.
    + apply NoDup_app. split_and!; [done| |done]. intros p Hp Hp'. apply A2 in Hp' as [_ Hn]. apply Hn, elem_of_union. left. by apply elem_of_list_to_set.
    + intros p. rewrite elem_of_app, A2, elem_of_union, elem_of_list_to_set. specialize (A3 p). rewrite elem_of_union, elem_of_list_to_set in A3.
      specialize (Hnew p). destruct (decide (p ∈ new)); tauto.
    + intros p Hp. apply A3, elem_of_union. by right.
    + done.
    + intros p q Hp Hpq. destruct (decide (p = cur)) as [->|Hne].
      * destruct Hpq as (x' & Hx' & Hin). assert (x' = x) as -> by congruence. apply A3, elem_of_union. rewrite elem_of_list_to_set, Hnew.
        destruct (decide (q ∈ C)); [by right|by left].
      * apply (A5 p q); [|done]. rewrite !elem_of_app, elem_of_reverse. rewrite elem_of_cons, elem_of_app in Hp. tauto.
    + assert (Hcur : forall p, p ∈ new -> follows cur p) by (intros p [Hp _]%Hnew; by exists x).
      intros p [Hp|Hp]%elem_of_app.
      * exists cur. split; [by left|]. apply tc_once. auto.
      * destruct (A6 p Hp) as (r & Hr & Hrp). rewrite elem_of_app, elem_of_reverse in Hr. destruct Hr as [Hr|Hr].
        -- exists cur. split; [by left|]. eapply tc_l; [|exact Hrp]. auto.
        -- exists r. split; [by right|done].
Qed.

Lemma closure_states_spec l ret C : (forall p, p ∈ l -> p ∈ S) -> C ⊆ S ->
  exists ret' new C', closure_states label st l (mk_closure ret [] C) = Some (mk_closure ret' [] C') /\ extended l C new C'
    /\ ret' ≡ₚ ret ++ (match label with None => l | Some _ => [] end) ++ new.
Proof.
  revert ret C. induction l as [|s l IH]; intros ret C Hl HC; cbn [closure_states contained c_ret].
  { exists ret, [], C. split; [done|]. split; [by apply extended_nil|]. by destruct label; rewrite !app_nil_r. }
  set (ret1 := match label with None => ret ++ [s] | Some _ => ret end).
  destruct (closure_loop_spec (Datatypes.S (size st)) (mk_closure ret1 [s] C)) as (n1 & C1 & -> & X1); cbn in *.
  - intros p ->%list_elem_of_singleton. apply Hl. by left.
  - done.
  - apply le_n_S. rewrite <- size_dom. apply subseteq_size. destruct Hst. set_solver.
  - destruct (IH (ret1 ++ n1) C1) as (ret2 & n2 & C2 & E & X2 & P); [intros; apply Hl; by right|apply X1|].
    exists ret2, (n1 ++ n2), C2. split; [done|]. split.
    + destruct X1 as [A1 A2 A3 A4 A5 A6], X2 as [B1 B2 B3 B4 B5 B6]. split.
      * apply NoDup_app. split_and!; [done| |done]. intros p Hp Hp'. apply A2 in Hp as [Hp _]. by apply B2 in Hp' as [_ Hn].
      * intros p. rewrite elem_of_app, A2, B2. specialize (A3 p). specialize (B3 p). destruct (decide (p ∈ C1)), (decide (p ∈ C)); tauto.
      * set_solver.
      * done.
      * intros p q Hp Hpq. destruct (decide (p ∈ [s] \/ p ∈ n1)) as [H1|H1]; [apply B3; eauto|]. apply (B5 p q); [|done].
        rewrite elem_of_app, elem_of_cons in Hp. rewrite list_elem_of_singleton in H1. tauto.
      * intros p [Hp|Hp]%elem_of_app.
        -- destruct (A6 p Hp) as (r & ->%list_elem_of_singleton & Hr). exists s. split; [by left|done].
        -- destruct (B6 p Hp) as (r & Hr & Hrp). exists r. split; [by right|done].
    + rewrite P. unfold ret1. destruct label; rewrite <- !app_assoc; [done|]. cbn. f_equiv. f_equiv. rewrite !app_assoc. f_equiv. apply Permutation_app_comm.
Qed.
End Closure.

Section Sets.
Context (st : store) (S : gset Z) (Hst : closed_on st S).

Lemma closure_spec l label : (forall p, p ∈ l -> p ∈ S) -> exists ret, nfa_closure_set_create l label st = Some ret
  /\ (forall p, p ∈ ret <-> label = None /\ p ∈ l \/ exists s, s ∈ l /\ tc (follows st label) s p) /\ (forall p, p ∈ ret -> p ∈ S)
  /\ (length ret <= (match label with None => length l | Some _ => 0 end) + size S)%nat.
Proof.
  intros Hl. unfold nfa_closure_set_create. destruct (closure_states_spec st S Hst label l [] ∅ Hl) as (ret & new & C & -> & X & P); [set_solver|].
  cbn [c_ret]. set (ret' := if (1 <? length ret)%nat then merge_sort Z.le ret else ret).
  assert (P' : ret' ≡ₚ (match label with None => l | Some _ => [] end) ++ new).
  { unfold ret'. rewrite <- (app_nil_l (match label with None => l | Some _ => [] end)). rewrite <- P. destruct (1 <? length ret)%nat; [apply merge_sort_Permutation|done]. }
  pose proof (extended_size _ _ _ _ _ _ _ X) as Hsz. destruct X as [A1 A2 A3 A4 A5 A6]. exists ret'. split; [done|].
  assert (Hin : forall p, p ∈ ret' <-> label = None /\ p ∈ l \/ p ∈ C).
  { intros p. rewrite P', elem_of_app, A2. destruct label; set_solver. }
  split_and!.
  - intros p. rewrite Hin. split; (intros [H|H]; [by left|right]).
    + apply A6, A2. set_solver.
    + destruct H as (s & Hs & Hp). assert (Hind : forall x y, tc (follows st label) x y -> (x ∈ l \/ x ∈ new) -> y ∈ C); [|by apply (Hind s p Hp); left].
      induction 1 as [x y Hxy|x y z Hxy _ IH]; intros Hx; [by apply (A5 x)|]. apply IH. right. apply A2. split; [by apply (A5 x)|set_solver].
  - intros p [[_ Hp]|Hp]%Hin; auto.
  - rewrite P', length_app. rewrite size_empty in Hsz. pose proof (subseteq_size C S A4). destruct label; cbn; lia.
Qed.

(** The closure without label. *)
Lemma closure_eps l : (forall p, p ∈ l -> p ∈ S) -> exists ret, nfa_closure_set_create l None st = Some ret
  /\ (forall p, p ∈ ret <-> exists s, s ∈ l /\ rtc (follows st None) s p) /\ (forall p, p ∈ ret -> p ∈ S) /\ (length ret <= length l + size S)%nat.
Proof.
  intros Hl. destruct (closure_spec l None Hl) as (ret & E & H1 & H2 & H3). exists ret. split_and!; [done| |done|done]. intros p. rewrite H1. split.
  - intros [[_ Hp]|(s & Hs & Hp)]; [by exists p|]. exists s. split; [done|]. by apply tc_rtc.
  - intros (s & Hs & [->|Hp]%rtc_tc); eauto.
Qed.

(** The closure with a label, if its targets have no labelled transitions. *)
Lemma closure_label l c : (forall p, p ∈ l -> p ∈ S) -> (forall p q, p ∈ S -> edges st p (Some c) q -> forall q', ~ edges st q (Some c) q') ->
  exists ret, nfa_closure_set_create l (Some c) st = Some ret
  /\ (forall p, p ∈ ret <-> exists s, s ∈ l /\ edges st s (Some c) p) /\ (forall p, p ∈ ret -> p ∈ S) /\ (length ret <= size S)%nat.
Proof.
  intros Hl Hflat. destruct (closure_spec l (Some c) Hl) as (ret & E & H1 & H2 & H3). exists ret. split_and!; [done| |done|done]. intros p. rewrite H1. split.
  - intros [[? _]|(s & Hs & Hp)]; [done|]. exists s. split; [done|]. inversion Hp as [? ? Hsp|? q ? Hsq Hq]; subst; [done|].
    exfalso. inversion Hq as [? ? Hx|? ? ? Hx]; subst; exact (Hflat s q (Hl s Hs) Hsq _ Hx).
  - intros (s & Hs & Hp). right. exists s. split; [done|]. by apply tc_once.
Qed.

Lemma path_nil p q : path (edges st) p [] q <-> rtc (follows st None) p q.
Proof.
  split.
  - intros P. remember [] as w eqn:E. induction P; simplify_eq; [constructor|]. eapply rtc_l; eauto.
  - induction 1; [constructor|]. by eapply p_eps.
Qed.

Lemma path_snoc p u c q : path (edges st) p (u ++ [c]) q <-> exists x y, path (edges st) p u x /\ edges st x (Some [c]) y /\ path (edges st) y [] q.
Proof.
  split.
  - intros P. remember (u ++ [c]) as w eqn:E. revert u E. induction P as [p|p q w r He P IH|p c' q w r He P IH]; intros u E.
    + by destruct u.
    + destruct (IH u E) as (x & y & H1 & H2 & H3). exists x, y. split_and!; [by eapply p_eps|done|done].
    + destruct u as [|c0 u]; cbn in E; simplify_eq.
      * exists p, q. split_and!; [constructor|done|done].
      * destruct (IH u eq_refl) as (x & y & H1 & H2 & H3). exists x, y. split_and!; [by eapply p_chr|done|done].
  - intros (x & y & H1 & H2 & H3). eapply path_app; [done|]. by eapply p_chr.
Qed.

Context (Hflat : forall p l q, p ∈ S -> edges st p (Some l) q -> forall l' q', ~ edges st q (Some l') q').

(** The states that are reached from [s] by a string. *)
Definition reached (s : Z) (w : str) (X : list Z) : Prop := (forall p, p ∈ X -> p ∈ S) /\ forall p, p ∈ X <-> path (edges st) s w p.

(** One character of the evaluation. *)
Lemma step_reached s u c X : reached s u X -> exists X1 X2, nfa_closure_set_create X (Some [c]) st = Some X1
  /\ nfa_closure_set_create X1 None st = Some X2 /\ reached s (u ++ [c]) X2 /\ (length X2 <= size S + size S)%nat.
Proof.
  intros [HX HP]. destruct (closure_label X [c] HX) as (X1 & E1 & H1 & H1' & L1); [intros p q Hp He q'; by eapply Hflat|].
  destruct (closure_eps X1 H1') as (X2 & E2 & H2 & H2' & L2). exists X1, X2. split_and!; [done|done| |lia]. split; [done|].
  intros p. rewrite H2, path_snoc. split.
  - intros (y & Hy & Hp). apply H1 in Hy as (x & Hx & Hxy). exists x, y. split_and!; [by apply HP|done|by apply path_nil].
  - intros (x & y & Hx & Hxy & Hp). exists y. split; [apply H1; exists x; split; [by apply HP|done]|by apply path_nil].
Qed.

Lemma start_reached s : s ∈ S -> exists X, nfa_closure_set_create [s] None st = Some X /\ reached s [] X /\ (length X <= Datatypes.S (size S))%nat.
Proof.
  intros Hs. destruct (closure_eps [s]) as (X & E & H1 & H2 & L); [by intros p ->%list_elem_of_singleton|]. exists X. split_and!; [done| |exact L].
  split; [done|]. intros p. rewrite H1, path_nil. split.
  - by intros (s' & ->%list_elem_of_singleton & Hp).
  - intros Hp. exists s. split; [by apply list_elem_of_singleton|done].
Qed.

Lemma evaluate_loop_reached s w u X : reached s u X -> exists X', evaluate_nfa_loop w X st = Some X' /\ reached s (u ++ w) X'.
Proof.
  revert u X. induction w as [|c w IH]; intros u X HX; cbn; [exists X; by rewrite app_nil_r|].
  destruct (step_reached s u c X HX) as (X1 & X2 & -> & -> & H2 & _). destruct (IH _ _ H2) as (X' & E & H'). exists X'. split; [done|].
  by rewrite <- app_assoc in H'.
Qed.

Lemma accepts_one_spec X : (forall p, p ∈ X -> p ∈ S) -> exists b, accepts_one X st = Some b /\ (b = true <-> exists p, p ∈ X /\ acc st p = Some true).
Proof.
  induction X as [|s X IH]; intros HX; cbn.
  { exists false. split; [done|]. split; [done|]. by intros (p & ?%elem_of_nil & _). }
  destruct (proj1 (elem_of_dom st s)) as [x Hx]; [apply Hst, HX; by left|]. rewrite Hx. destruct (accepting x) eqn:Ea.
  - exists true. split; [done|]. split; [|done]. exists s. split; [by left|]. unfold acc. by rewrite Hx, <- Ea.
  - destruct IH as (b & -> & Hb); [intros; apply HX; by right|]. exists b. split; [done|]. rewrite Hb. split; intros (p & Hp & Hacc).
    + exists p. split; [by right|done].
    + apply elem_of_cons in Hp as [->|Hp]; [|by exists p]. unfold acc in Hacc. rewrite Hx in Hacc. cbn in Hacc. congruence.
Qed.
End Sets.

(** An automaton is evaluated to the language of its expression. *)
Lemma evaluate_nfa_spec st a s e r w : a_type a = NFA -> start a = Some s -> fragment st (states a) s e r ->
  exists v, evaluate_nfa a w st = Some v /\ (v = 0 <-> matches r w) /\ (v = 0 \/ v = 1).
Proof.
  intros Ht Hs F. pose proof F as [F1 F2 F3 F4 F5 F6]. unfold evaluate_nfa. rewrite Ht, Hs. rewrite bool_decide_eq_false_2 by (by intros []).
  assert (Hst : closed_on st (list_to_set (states a))).
  { split; [|intros p t Hp%elem_of_list_to_set Htr; destruct (F3 p t Hp Htr) as (q & ? & ?); exists q; by rewrite elem_of_list_to_set].
    intros p Hp%elem_of_list_to_set. apply elem_of_dom, acc_is_Some. rewrite F4 by done. by eexists. }
  assert (Hfl : forall p l q, p ∈ (list_to_set (states a) : gset Z) -> edges st p (Some l) q -> forall l' q', ~ edges st q (Some l') q').
  { intros p l q Hp%elem_of_list_to_set He. by apply (F5 p l q Hp He). }
  destruct (acc_lookup st s (bool_decide (s = e))) as (x & Hx & Ha); [by apply F4|]. rewrite Hx, Ha.
  destruct (bool_decide (w = []) && bool_decide (s = e)) eqn:E0.
  { apply andb_true_iff in E0 as [Hw%bool_decide_eq_true He%bool_decide_eq_true]. subst w e. exists 0. split_and!; [done| |by left].
    split; [|done]. intros _. apply F6. constructor. }
  destruct (start_reached st _ Hst s) as (X & -> & HX & _); [by apply elem_of_list_to_set|].
  destruct (evaluate_loop_reached st _ Hst Hfl s w [] X HX) as (X' & -> & HX' & HP). destruct (accepts_one_spec st _ Hst X' HX') as (b & -> & Hb).
  exists (if b then 0 else 1). split_and!; [done| |by destruct b; auto]. rewrite <- F6. transitivity (b = true); [by destruct b|]. rewrite Hb. split.
  - intros (p & Hp & Hacc). rewrite F4 in Hacc by (by apply HX', elem_of_list_to_set in Hp). injection Hacc as ->%bool_decide_eq_true. by apply HP.
  - intros P. exists e. split; [by apply HP|]. rewrite F4 by done. by rewrite bool_decide_eq_true_2.
Qed.

(** The parser accepts what is written as the syntax says, and makes an automaton for it. *)
Lemma construct_nfa_spec regex r : alternatives regex r -> exists st a s e,
  REGEX_INTERNAL_construct_nfa regex (length regex) = Some (Some (st, a)) /\ a_type a = NFA /\ start a = Some s /\ fragment st (states a) s e r.
Proof.
  intros Hr. assert (Hne : regex <> []).
  { intros ->. assert (Hl : (forall s r, atom s r -> s <> []) /\ (forall s r, sequence s r -> s <> []) /\ (forall s r, alternatives s r -> s <> [])).
    { apply syntax_ind; try done; intros; by apply app_ne_nil_l || by apply app_ne_nil_r || (intros ?%app_eq_nil; naive_solver). }
    by eapply Hl. }
  unfold REGEX_INTERNAL_construct_nfa. rewrite bool_decide_eq_false_2 by done. rewrite bool_decide_eq_false_2 by (by destruct regex).
  cbn [orb]. rewrite take_ge by done. set (p0 := mk_parser 0 0 [] REGEX_INTERNAL_context_init ∅).
  destruct (proj2 (proj2 parse_syntax) regex r Hr p0 []) as (p1 & -> & Hs1 & l & q & Hq & Hl & Hf).
  { split; [done|]. split; [constructor|constructor|]. intros s [x Hx]. cbn in Hx. by rewrite lookup_empty in Hx. }
  rewrite app_nil_r in Hq. rewrite Hs1. rewrite bool_decide_eq_false_2 by (by intros []).
  destruct (concat_all_ok p1 q l Hq) as (p2 & -> & [Ha2 Hs2] & _ & Hk2).
  destruct (alternate_all_ok l p2 q []) as (p3 & -> & _ & _ & _ & Hk3); [rewrite Ha2, Hl; done|by rewrite app_nil_r|].
  destruct (stack_cons _ _ _ _ Hk3) as (a & fs & Ek). destruct Hk3 as [HF HN HI]. rewrite Ek in *.
  apply Forall2_cons in HF as [(Ht & s & e & Hs & He & F) HF]. apply Forall2_nil_inv_r in HF as ->. rewrite bool_decide_eq_false_2 by (by intros []).
  assert (Hst : closed_on (p_st p3) (list_to_set (states a))).
  { destruct F as [F1 F2 F3 F4 F5 F6]. split; [|intros p t Hp%elem_of_list_to_set Htr; destruct (F3 p t Hp Htr) as (q' & ? & ?); exists q'; by rewrite elem_of_list_to_set].
    intros p Hp%elem_of_list_to_set. apply elem_of_dom, acc_is_Some. rewrite F4 by done. by eexists. }
  assert (exists order, REGEX_INTERNAL_automaton_traverse a None (p_st p3) = Some order) as [order ->].
  { destruct (decide (state_count a = 0)) as [E|E]; [unfold REGEX_INTERNAL_automaton_traverse; rewrite E; by eexists|].
    destruct (automaton_traverse_ok _ _ Hst a None s Hs E) as (o & -> & _); [apply elem_of_list_to_set, F|]. by eexists. }
  rewrite Hf in F. by exists (p_st p3), a, s, e.
Qed.
