(* ===== verification/RegexDfa.v ===== *)
(** * Regular expressions: the deterministic automaton

    What a deterministic automaton accepts and that it is evaluated accordingly; the subset
    construction. *)

From stdpp Require Import gmap sorting relations.
From S2P Require Import Prelude Regex RegexNfa RegexEval.
#[local] Open Scope Z_scope.

(** ** Evaluation *)

(** The string leads from [p] to a state with the given flag. *)
Fixpoint outcome (st : store) (p : Z) (w : str) (b : bool) : Prop :=
  match w with
  | [] => acc st p = Some b
  | c :: w => exists q, edges st p (Some [c]) q /\ outcome st q w b
  end.

(** Transitions have a character as label and those with the same label lead to states that are
    equivalent. *)
Record dfa_ok (st : store) (S : gset Z) : Prop := {
  do_closed : closed_on st S;
  do_label : forall p t, p ∈ S -> tr st p t -> exists c, t_label t = Some [c];
  do_coherent : forall p l q q', p ∈ S -> edges st p l q -> edges st p l q' -> forall w b, outcome st q w b <-> outcome st q' w b;
}.

Lemma closed_edge st S p l q : closed_on st S -> p ∈ S -> edges st p l q -> q ∈ S.
Proof. intros H Hp He. destruct (co_target _ _ H _ _ Hp He) as (q' & [= <-] & ?). done. Qed.

Lemma closed_lookup st S p : closed_on st S -> p ∈ S -> exists x, st !! p = Some x.
Proof. intros H Hp. apply elem_of_dom. by apply (co_dom _ _ H). Qed.

Lemma closed_acc st S p : closed_on st S -> p ∈ S -> exists b, acc st p = Some b.
Proof. intros H Hp. destruct (closed_lookup _ _ _ H Hp) as [x Hx]. unfold acc. rewrite Hx. by eexists. Qed.

Lemma path_stays st S p w q : closed_on st S -> p ∈ S -> path (edges st) p w q -> q ∈ S.
Proof. intros HS Hp P. revert Hp. induction P; intros Hp; eauto using closed_edge. Qed.

Lemma move_loop_spec ts c w new max : (forall t, t ∈ ts -> exists c, t_label t = Some [c]) -> (max <= 1)%nat ->
  exists r, dfa_move_loop ts (c :: w) new max = Some r
    /\ ((exists t, t ∈ ts /\ t_label t = Some [c] /\ r = (to_state t, 1%nat)) \/ (forall t, t ∈ ts -> t_label t <> Some [c]) /\ r = (new, max)).
Proof.
  revert new max. induction ts as [|t ts IH]; intros new max Hts Hm; cbn [dfa_move_loop].
  { eexists. split; [done|]. right. split; [|done]. by intros t ?%elem_of_nil. }
  destruct (Hts t) as (c' & Ht); [by left|]. rewrite Ht. change (length [c']) with 1%nat. cbn [take].
  assert (Hts' : forall t, t ∈ ts -> exists c, t_label t = Some [c]) by (intros; apply Hts; by right).
  destruct (decide (c = c')) as [->|Hne].
  - rewrite bool_decide_eq_true_2 by done. rewrite (proj2 (Nat.leb_le _ _)) by done. cbn [andb].
    destruct (IH (to_state t) 1%nat Hts' ltac:(lia)) as (r & -> & [(t' & H1 & H2 & ->)|[_ ->]]); eexists; (split; [done|]); left.
    + exists t'. split; [by right|done].
    + exists t. split; [by left|done].
  - rewrite bool_decide_eq_false_2 by congruence. cbn [andb].
    destruct (IH new max Hts' Hm) as (r & -> & [(t' & H1 & H2 & ->)|[H ->]]); eexists; (split; [done|]).
    + left. exists t'. split; [by right|done].
    + right. split; [|done]. intros t' [->|Ht']%elem_of_cons; [congruence|auto].
Qed.

Section Eval.
Context (st : store) (S : gset Z) (Hok : dfa_ok st S).

Lemma move_spec p c w : p ∈ S -> exists r, dfa_move p (c :: w) st = Some r
  /\ ((exists q, edges st p (Some [c]) q /\ r = (Some q, 1%nat)) \/ (forall q, ~ edges st p (Some [c]) q) /\ r = (None, 0%nat)).
Proof.
  intros Hp. unfold dfa_move. destruct (closed_lookup _ _ _ (do_closed _ _ Hok) Hp) as [x Hx]. rewrite Hx.
  destruct (move_loop_spec (transitions x) c w None 0) as (r & -> & [(t & H1 & H2 & ->)|[H ->]]); [|lia| |].
  - intros t Ht. apply (do_label _ _ Hok p); [done|]. by exists x.
  - eexists. split; [done|]. left. destruct (co_target _ _ (do_closed _ _ Hok) p t Hp) as (q & Hq & _); [by exists x|].
    exists q. rewrite Hq. split; [|done]. exists x. split; [done|]. destruct t as [l to]. cbn in *. by subst.
  - eexists. split; [done|]. right. split; [|done]. intros q (x' & Hx' & Hin). assert (x' = x) as -> by congruence. by apply H in Hin.
Qed.

Lemma evaluate_dfa_loop_spec fuel w p : (length w <= fuel)%nat -> p ∈ S -> exists r, evaluate_dfa_loop fuel w p st = Some r
  /\ match r with None => forall b, ~ outcome st p w b | Some q => q ∈ S /\ forall b, outcome st p w b <-> acc st q = Some b end.
Proof.
  revert fuel p. induction w as [|c w IH]; intros fuel p Hf Hp; [exists (Some p); by destruct fuel|].
  destruct fuel as [|fuel]; cbn in Hf; [lia|]. cbn [evaluate_dfa_loop]. destruct (move_spec p c w Hp) as (r & -> & [(q & He & ->)|[Hn ->]]).
  - change (drop 1 (c :: w)) with w.
    destruct (IH fuel q) as (r & E & Hr); [lia|by eapply closed_edge; [apply Hok|..]|]. exists r. split; [done|].
    assert (Ho : forall b, outcome st p (c :: w) b <-> outcome st q w b).
    { intros b. cbn. split; [|eauto]. intros (q' & He' & Ho). by apply (do_coherent _ _ Hok p _ q q' Hp He He'). }
    destruct r as [d|]; [|intros b; rewrite Ho; apply Hr]. split; [apply Hr|]. intros b. rewrite Ho. apply Hr.
  - exists None. split; [done|]. intros b (q & He & _). by apply Hn in He.
Qed.

Lemma evaluate_dfa_spec a s w : a_type a = DFA -> start a = Some s -> s ∈ S ->
  exists v, evaluate_dfa a w st = Some v /\ (v = 0 <-> outcome st s w true) /\ (v = 0 \/ v = 1).
Proof.
  intros Ht Ha Hs. unfold evaluate_dfa. rewrite Ht, Ha. rewrite bool_decide_eq_false_2 by (by intros []).
  destruct (closed_lookup _ _ _ (do_closed _ _ Hok) Hs) as [x Hx]. rewrite Hx.
  destruct (bool_decide (w = []) && accepting x) eqn:E0.
  { apply andb_true_iff in E0 as [->%bool_decide_eq_true Hacc]. exists 0. split_and!; [done| |by left]. split; [|done]. intros _. cbn. unfold acc.
    by rewrite Hx, <- Hacc. }
  destruct (evaluate_dfa_loop_spec (length w) w s ltac:(done) Hs) as ([q|] & -> & Hr).
  - destruct Hr as [Hq Hr]. destruct (closed_lookup _ _ _ (do_closed _ _ Hok) Hq) as [y Hy]. rewrite Hy. exists (if accepting y then 0 else 1).
    split_and!; [done| |destruct (accepting y); auto]. rewrite Hr. unfold acc. rewrite Hy. cbn. destruct (accepting y); split; congruence || done.
  - exists 1. split_and!; [done| |by right]. split; [done|]. intros H. by apply Hr in H.
Qed.
End Eval.

(** ** New states *)

Definition set_of (st : store) (s : Z) : option (list Z) := nfa_set <$> st !! s.

Lemma state_set_compare_eq l1 l2 : state_set_compare l1 l2 = 0 <-> l1 = l2.
Proof.
  unfold state_set_compare. destruct (Nat.ltb_spec (length l1) (length l2)); [split; [by intros [=]|intros ->; lia]|].
  destruct (Nat.ltb_spec (length l2) (length l1)); [split; [by intros [=]|intros ->; lia]|].
  assert (length l1 = length l2) as Hlen by lia. clear -Hlen. revert l2 Hlen. induction l1 as [|x l1 IH]; intros [|y l2] Hlen; cbn in *; try done; [lia..|].
  destruct (Z.eqb_spec (x - y) 0) as [E|E].
  - rewrite IH by lia. assert (x = y) as -> by lia. split; [by intros ->|by intros [= ->]].
  - split; [by intros ?|]. intros [= -> _]. lia.
Qed.

Lemma find_state_set_spec X l st : (forall s, s ∈ l -> is_Some (st !! s)) -> exists r, find_state_set X l st = Some r
  /\ match r with Some s => s ∈ l /\ set_of st s = Some X | None => forall s, s ∈ l -> set_of st s <> Some X end.
Proof.
  induction l as [|s l IH]; intros Hl; cbn [find_state_set]; [exists None; split; [done|]; by intros s ?%elem_of_nil|].
  destruct (Hl s) as [x Hx]; [by left|]. rewrite Hx. destruct (Z.eqb_spec 0 (state_set_compare (nfa_set x) X)) as [E|E].
  - exists (Some s). split; [done|]. split; [by left|]. unfold set_of. rewrite Hx. cbn. f_equal. by apply state_set_compare_eq.
  - destruct IH as (r & -> & Hr); [intros; apply Hl; by right|]. exists r. split; [done|]. destruct r as [s'|]; [split; [right|]; apply Hr|].
    intros s' [->|Hs']%elem_of_cons; [|by apply Hr]. unfold set_of. rewrite Hx. intros [= Heq]. apply E. symmetry. by apply state_set_compare_eq.
Qed.

(** Transitions to null, one for each label in [P]. *)
Record row (ts : list Transition) (P : option str -> Prop) : Prop := {
  ro_nodup : NoDup (t_label <$> ts);
  ro_null : forall t, t ∈ ts -> to_state t = None;
  ro_label : forall l, l ∈ t_label <$> ts <-> P l;
}.

Lemma insert_sorted_perm t ts : insert_sorted t ts ≡ₚ t :: ts.
Proof.
  induction ts as [|oth ts IH]; cbn; [done|]. destruct (0 <? nullstrcmp (t_label oth) (t_label t)); [done|]. rewrite IH. constructor.
Qed.

Lemma row_ext ts P Q : (forall l, P l <-> Q l) -> row ts P -> row ts Q.
Proof. intros H [A B C]. split; [done|done|]. intros l. by rewrite C. Qed.

(** A state of the store is replaced by one with the same set. *)
Definition replaced (st st' : store) (s : Z) (x' : State) : Prop := st' !! s = Some x' /\ forall p, p <> s -> st' !! p = st !! p.

Lemma replaced_same st s x : st !! s = Some x -> replaced st st s x.
Proof. done. Qed.

Lemma replaced_insert st s x : replaced st (<[s := x]> st) s x.
Proof. split; [apply lookup_insert_eq|]. intros p Hp. by apply lookup_insert_ne. Qed.

Lemma replaced_trans st st1 st2 s x1 x2 : replaced st st1 s x1 -> replaced st1 st2 s x2 -> replaced st st2 s x2.
Proof. intros [_ H1] [H2 H3]. split; [done|]. intros p Hp. rewrite H3, H1; done. Qed.

Lemma add_null_transition s x lb P st : st !! s = Some x -> row (transitions x) P -> exists st' x',
  state_add_transition (Some s) (Some lb) None st = Some st' /\ replaced st st' s x' /\ nfa_set x' = nfa_set x /\ accepting x' = accepting x
  /\ row (transitions x') (fun l => P l \/ l = Some lb).
Proof.
  intros Hx [A B C]. cbn [state_add_transition]. rewrite Hx.
  set (dup := fun t => bool_decide (to_state t = None) && (0 =? nullstrcmp (t_label t) (Some lb))).
  assert (Hd : existsb dup (transitions x) = true <-> P (Some lb)).
  { rewrite existsb_exists, <- C, list_elem_of_fmap. split.
    - intros (t & Ht%list_elem_of_In & [_ H]%andb_true_iff). rewrite Z.eqb_eq in H. symmetry in H. apply nullstrcmp_eq in H. by exists t.
    - intros (t & Hl & Ht). exists t. split; [by apply list_elem_of_In|]. unfold dup. rewrite bool_decide_eq_true_2 by auto. cbn [andb].
      rewrite Z.eqb_eq. symmetry. by apply nullstrcmp_eq. }
  destruct (existsb dup (transitions x)).
  - exists st, x. split_and!; try done. apply (row_ext _ P); [|done]. intros l. split; [by left|]. intros [?| ->]; [done|by apply Hd].
  - eexists _, _. split; [done|]. split; [apply replaced_insert|]. split_and!; [done|done|]. cbn [transitions set_transitions]. split.
    + rewrite insert_sorted_perm. cbn. constructor; [|done]. rewrite C. by intros ?%Hd.
    + intros t. rewrite insert_sorted_elem. intros [->|?]; auto.
    + intros l. rewrite insert_sorted_perm. cbn. rewrite elem_of_cons, C. tauto.
Qed.

Lemma fill_row s ts x P st : st !! s = Some x -> row (transitions x) P -> exists st' x',
  fold_left (fun dst t => match t_label t with None => dst | Some _ => let? dst := dst in state_add_transition (Some s) (t_label t) None dst end) ts (Some st)
    = Some st' /\ replaced st st' s x' /\ nfa_set x' = nfa_set x /\ accepting x' = accepting x
  /\ row (transitions x') (fun l => P l \/ l <> None /\ exists t, t ∈ ts /\ t_label t = l).
Proof.
  revert st x P. induction ts as [|t ts IH]; intros st x P Hx HP; cbn [fold_left].
  { exists st, x. split_and!; try done. apply (row_ext _ P); [|done]. intros l. split; [by left|]. by intros [?|(_ & t & ?%elem_of_nil & _)]. }
  destruct (t_label t) as [lb|] eqn:Et.
  - destruct (add_null_transition s x lb P st Hx HP) as (st1 & x1 & -> & R1 & N1 & A1 & P1).
    destruct (IH st1 x1 _ (proj1 R1) P1) as (st2 & x2 & -> & R2 & N2 & A2 & P2). exists st2, x2.
    split_and!; [done|by eapply replaced_trans|congruence|congruence|]. eapply row_ext; [|exact P2]. intros l. cbn. setoid_rewrite elem_of_cons. naive_solver.
  - destruct (IH st x P Hx HP) as (st2 & x2 & -> & R2 & N2 & A2 & P2). exists st2, x2. split_and!; try done.
    eapply row_ext; [|exact P2]. intros l. cbn. setoid_rewrite elem_of_cons. naive_solver.
Qed.

(** A state for the set [l] of states of the automaton [nst]. *)
Definition some_label (nst : store) (l : list Z) (lb : option str) : Prop := lb <> None /\ exists p t, p ∈ l /\ tr nst p t /\ t_label t = lb.
Definition some_accepting (nst : store) (l : list Z) : Prop := exists p, p ∈ l /\ acc nst p = Some true.

Lemma state_fill_spec nst s l st x P : (forall p, p ∈ l -> is_Some (nst !! p)) -> st !! s = Some x -> row (transitions x) P -> exists st' x',
  dfa_state_fill s l nst st = Some st' /\ replaced st st' s x' /\ nfa_set x' = nfa_set x
  /\ (accepting x' = true <-> accepting x = true \/ some_accepting nst l) /\ row (transitions x') (fun lb => P lb \/ some_label nst l lb).
Proof.
  revert st x P. induction l as [|c l IH]; intros st x P Hl Hx HP; cbn [dfa_state_fill].
  { exists st, x. split_and!; try done.
    - split; [by left|]. by intros [?|(p & ?%elem_of_nil & _)].
    - apply (row_ext _ P); [|done]. intros lb. split; [by left|]. by intros [?|(_ & p & t & ?%elem_of_nil & _)]. }
  destruct (Hl c) as [y Hy]; [by left|]. rewrite Hy. destruct (fill_row s (transitions y) x P st Hx HP) as (st1 & x1 & -> & R1 & N1 & A1 & P1).
  assert (exists st2 x2, (if accepting y then state_set_accepting (Some s) true st1 else Some st1) = Some st2 /\ replaced st st2 s x2
    /\ nfa_set x2 = nfa_set x1 /\ accepting x2 = accepting x1 || accepting y /\ transitions x2 = transitions x1) as (st2 & x2 & -> & R2 & N2 & A2 & T2).
  { destruct (accepting y).
    - cbn. rewrite (proj1 R1). eexists _, _. split; [done|]. split; [eapply replaced_trans; [done|apply replaced_insert]|]. cbn. by rewrite orb_true_r.
    - exists st1, x1. by rewrite orb_false_r. }
  destruct (IH st2 x2 _ ltac:(intros; apply Hl; by right) (proj1 R2) ltac:(rewrite T2; exact P1)) as (st3 & x3 & -> & R3 & N3 & A3 & P3).
  exists st3, x3. split_and!; [done|by eapply replaced_trans|congruence| |].
  - rewrite A3, A2, A1, orb_true_iff. unfold some_accepting. setoid_rewrite elem_of_cons.
    assert (acc nst c = Some (accepting y)) as Hc by (unfold acc; by rewrite Hy). split.
    + intros [[?|Ha]|(p & ? & ?)]; [by left| |naive_solver]. right. exists c. rewrite Hc, Ha. auto.
    + intros [?|(p & [->|Hp] & Ha)]; [by left; left| |naive_solver]. left. right. congruence.
  - eapply row_ext; [|exact P3]. intros lb. cbn. unfold some_label. setoid_rewrite elem_of_cons. split.
    + intros [[?|(? & t & ? & ?)]|(? & p & t & ? & ? & ?)]; [by left| |]; right; (split; [done|]).
      * exists c, t. split_and!; [by left|by exists y|done].
      * exists p, t. split_and!; [by right|done|done].
    + intros [?|(? & p & t & [->|Hp] & Ht & ?)]; [by left; left| |]; [left|]; right; (split; [done|]).
      * destruct Ht as (y' & Hy' & Hin). assert (y' = y) as -> by congruence. by exists t.
      * by exists p, t.
Qed.

Lemma state_create_spec nst l id st : (forall p, p ∈ l -> is_Some (nst !! p)) -> exists st' x,
  dfa_state_create l nst id st = Some (st', id + 1, id) /\ replaced st st' id x /\ nfa_set x = l
  /\ (accepting x = true <-> some_accepting nst l) /\ row (transitions x) (some_label nst l).
Proof.
  intros Hl. unfold dfa_state_create. set (st1 := <[id := mk_rstate false [] l]> st).
  destruct (state_fill_spec nst id l st1 (mk_rstate false [] l) (fun _ => False) Hl) as (st' & x & -> & R & N & A & P).
  - apply lookup_insert_eq.
  - split; [constructor|by intros t ?%elem_of_nil|]. intros lb. cbn. split; [by intros ?%elem_of_nil|done].
  - exists st', x. split_and!; [done|by eapply replaced_trans; [apply replaced_insert|]|done| |].
    + rewrite A. cbn. naive_solver.
    + eapply row_ext; [|exact P]. cbn. tauto.
Qed.

(** ** The subset construction *)

(** All lists over [l] up to a length. *)
Fixpoint all_lists (l : list Z) (n : nat) : list (list Z) :=
  match n with
  | O => [[]]
  | S n => [] :: concat (map (fun x => cons x <$> all_lists l n) l)
  end.

Lemma elem_of_all_lists l n X : (forall p, p ∈ X -> p ∈ l) -> (length X <= n)%nat -> X ∈ all_lists l n.
Proof.
  revert X. induction n as [|n IH]; intros [|x X] HX Hlen; cbn in *; [by left|lia|by left|]. right. apply list_elem_of_In, in_concat.
  exists (cons x <$> all_lists l n). split; [apply in_map_iff; exists x; split; [done|]; apply list_elem_of_In, HX; by left|].
  apply list_elem_of_In, list_elem_of_fmap. exists X. split; [done|]. apply IH; [|lia]. intros. apply HX. by right.
Qed.

Section Subset.
Context (nst : store) (N : gset Z) (Hst : closed_on nst N).
Context (Hflat : forall p l q, p ∈ N -> edges nst p (Some l) q -> forall l' q', ~ edges nst q (Some l') q').

(** By one transition with the label and any number without. *)
Definition moves (l : list Z) (lb : option str) (q : Z) : Prop := exists p y, p ∈ l /\ edges nst p lb y /\ path (edges nst) y [] q.

Definition bound : nat := (2 * size N + 1)%nat.

Lemma move_set l lb : (forall p, p ∈ l -> p ∈ N) -> exists X1 X2, nfa_closure_set_create l (Some lb) nst = Some X1
  /\ nfa_closure_set_create X1 None nst = Some X2 /\ (forall p, p ∈ X2 -> p ∈ N) /\ (length X2 <= bound)%nat /\ forall q, q ∈ X2 <-> moves l (Some lb) q.
Proof.
  intros Hl. destruct (closure_label nst N Hst l lb Hl) as (X1 & E1 & H1 & H1' & L1); [intros p q Hp He q'; by eapply Hflat|].
  destruct (closure_eps nst N Hst X1 H1') as (X2 & E2 & H2 & H2' & L2). exists X1, X2. unfold bound. split_and!; [done|done|done|lia|].
  intros q. rewrite H2. unfold moves. setoid_rewrite path_nil. split.
  - intros (y & Hy & Hq). apply H1 in Hy as (p & Hp & He). by exists p, y.
  - intros (p & y & Hp & He & Hq). exists y. split; [apply H1; by exists p|done].
Qed.

(** A state of the deterministic automaton stands for a set of states; its transitions, as far as they
    have targets, lead to the states for what is reached by their label. *)
Record state_ok (D : Dfa) (x : State) : Prop := {
  sk_set : forall p, p ∈ nfa_set x -> p ∈ N;
  sk_length : (length (nfa_set x) <= bound)%nat;
  sk_acc : accepting x = true <-> some_accepting nst (nfa_set x);
  sk_nodup : NoDup (t_label <$> transitions x);
  sk_label : forall l, l ∈ t_label <$> transitions x <-> some_label nst (nfa_set x) l;
  sk_target : forall t d, t ∈ transitions x -> to_state t = Some d ->
    d ∈ states (dfa D) /\ exists X, set_of (dst D) d = Some X /\ forall q, q ∈ X <-> moves (nfa_set x) (t_label t) q;
}.

Record subset_ok (D : Dfa) : Prop := {
  su_state : forall s, s ∈ states (dfa D) -> exists x, dst D !! s = Some x /\ state_ok D x;
  su_nodup : NoDup (states (dfa D));
  su_next : forall s, is_Some (dst D !! s) -> s < next_id D;
  su_distinct : forall s s' X, s ∈ states (dfa D) -> s' ∈ states (dfa D) -> set_of (dst D) s = Some X -> set_of (dst D) s' = Some X -> s = s';
  su_count : state_count (dfa D) = u32 (Z.of_nat (length (states (dfa D))));
  su_type : a_type (dfa D) = DFA;
}.

(** All transitions of the state have a target. *)
Definition complete (D : Dfa) (s : Z) : Prop := forall x t, dst D !! s = Some x -> t ∈ transitions x -> to_state t <> None.

(** Work on the state [d] adds states that are complete, and leaves the others. *)
Record grows (d : Z) (D D' : Dfa) : Prop := {
  gr_states : exists new, states (dfa D') = new ++ states (dfa D) /\ forall s, s ∈ new -> complete D' s;
  gr_others : forall s, s ∈ states (dfa D) -> s <> d -> dst D' !! s = dst D !! s;
  gr_sets : forall s, s ∈ states (dfa D) -> set_of (dst D') s = set_of (dst D) s;
  gr_start : start (dfa D') = start (dfa D);
}.

Lemma grows_refl d D : grows d D D.
Proof. split; try done. exists []. split; [done|]. by intros s ?%elem_of_nil. Qed.

Lemma grows_old d D D' s : grows d D D' -> s ∈ states (dfa D) -> s ∈ states (dfa D').
Proof. intros [(new & -> & _) _ _ _] Hs. apply elem_of_app. by right. Qed.

Lemma grows_trans d D1 D2 D3 : d ∈ states (dfa D1) -> grows d D1 D2 -> grows d D2 D3 -> NoDup (states (dfa D2)) -> grows d D1 D3.
Proof.
  intros Hd G1 G2 HN. pose proof (grows_old d D1 D2) as Hold. destruct G1 as [(n1 & E1 & C1) A1 B1 S1], G2 as [(n2 & E2 & C2) A2 B2 S2]. split.
  - exists (n2 ++ n1). rewrite E2, E1, app_assoc. split; [done|]. intros s [Hs|Hs]%elem_of_app; [auto|]. intros x t Hx Ht. apply (C1 s Hs x t); [|done].
    rewrite <- A2; [done|rewrite E1; apply elem_of_app; by left|]. intros ->. rewrite E1 in HN. apply NoDup_app in HN as (_ & HN & _). by eapply HN.
  - intros s Hs Hne. rewrite A2, A1; try done. rewrite E1. apply elem_of_app. by right.
  - intros s Hs. rewrite B2, B1; try done. rewrite E1. apply elem_of_app. by right.
  - congruence.
Qed.

(** What a state means does not change when there are more. *)
Definition extends (D D' : Dfa) : Prop := forall s, s ∈ states (dfa D) -> s ∈ states (dfa D') /\ set_of (dst D') s = set_of (dst D) s.

Lemma grows_extends d D D' : grows d D D' -> extends D D'.
Proof. intros G s Hs. split; [by eapply grows_old|by apply G]. Qed.

Lemma state_ok_extends D D' x : state_ok D x -> extends D D' -> state_ok D' x.
Proof.
  intros [A B C E F G] H. split; try done. intros t s Ht Hs. destruct (G t s Ht Hs) as (Hin & X & HX & Hq). destruct (H s Hin) as [H1 H2].
  split; [done|]. exists X. by rewrite H2.
Qed.

(** The sets for which there are states, and how many may follow. *)
Definition admissible : gset (list Z) := list_to_set (all_lists (elements N) bound).
Definition present (D : Dfa) : gset (list Z) := list_to_set (omap (set_of (dst D)) (states (dfa D))).
Definition room (D : Dfa) : nat := size (admissible ∖ present D).

Lemma elem_of_present D X : X ∈ present D <-> exists s, s ∈ states (dfa D) /\ set_of (dst D) s = Some X.
Proof. unfold present. rewrite elem_of_list_to_set, list_elem_of_omap. done. Qed.

Lemma admissible_ok X : (forall p, p ∈ X -> p ∈ N) -> (length X <= bound)%nat -> X ∈ admissible.
Proof. intros H1 H2. apply elem_of_list_to_set, elem_of_all_lists; [|done]. intros p Hp. apply elem_of_elements. auto. Qed.

Lemma room_grows d D D' : grows d D D' -> (room D' <= room D)%nat.
Proof.
  intros G. unfold room. apply subseteq_size. intros X. rewrite !elem_of_difference, !elem_of_present. intros [HX Hn]. split; [done|]. intros (s & Hs & Hset). apply Hn.
  exists s. split; [by eapply grows_old|]. by rewrite (gr_sets _ _ _ G).
Qed.

(** One transition gets a target. *)
Definition with_target (i : nat) (lb : option str) (s : Z) (x : State) : State := set_transitions (<[i := mk_trans lb (Some s)]> (transitions x)) x.

Lemma with_target_labels i t s x : transitions x !! i = Some t -> t_label <$> transitions (with_target i (t_label t) s x) = t_label <$> transitions x.
Proof.
  intros Ht. cbn. rewrite list_fmap_insert. apply list_insert_id. by rewrite list_lookup_fmap, Ht.
Qed.

Lemma with_target_ok D D' x i t s X : state_ok D x -> extends D D' -> transitions x !! i = Some t -> s ∈ states (dfa D') -> set_of (dst D') s = Some X ->
  (forall q, q ∈ X <-> moves (nfa_set x) (t_label t) q) -> state_ok D' (with_target i (t_label t) s x).
Proof.
  intros Hx HE Ht Hs HX Hq. destruct (state_ok_extends D D' x Hx HE) as [A B C E F G]. split; try done.
  - by rewrite with_target_labels.
  - by rewrite with_target_labels.
  - cbn. intros t' d Hin Hd. apply list_elem_of_lookup in Hin as [j Hj]. destruct (decide (i = j)) as [<-|Hne].
    + rewrite list_lookup_insert_eq in Hj by (by eapply lookup_lt_Some). injection Hj as <-. cbn in Hd. injection Hd as <-. split; [done|]. by exists X.
    + rewrite list_lookup_insert_ne in Hj by done. apply (G t' d); [|done]. by eapply list_elem_of_lookup_2.
Qed.

Section Position.
Context (d : Z) (D : Dfa) (HD : subset_ok D) (Hd : d ∈ states (dfa D)) (x : State) (Hx : dst D !! d = Some x).
Context (i : nat) (t : Transition) (Ht : transitions x !! i = Some t).

Lemma set_target_eq s st : st !! d = Some x -> set_target d i s st = Some (<[d := with_target i (t_label t) s x]> st).
Proof. intros H. unfold set_target. by rewrite H, Ht. Qed.

Lemma old_state_ok s : s ∈ states (dfa D) -> exists y, dst D !! s = Some y /\ state_ok D y.
Proof. apply HD. Qed.

Lemma next_fresh : dst D !! next_id D = None.
Proof. destruct (dst D !! next_id D) as [y|] eqn:E; [|done]. enough (next_id D < next_id D) by lia. apply (su_next _ HD). by rewrite E. Qed.

Lemma old_ne_next s : s ∈ states (dfa D) -> s <> next_id D.
Proof. intros Hs ->. destruct (old_state_ok _ Hs) as (y & Hy & _). by rewrite next_fresh in Hy. Qed.

(** The target is there already. *)
Lemma target_found s X : s ∈ states (dfa D) -> set_of (dst D) s = Some X -> (forall q, q ∈ X <-> moves (nfa_set x) (t_label t) q) ->
  let D' := mk_dfa (next_id D) (dfa D) (<[d := with_target i (t_label t) s x]> (dst D)) in subset_ok D' /\ grows d D D'.
Proof.
  intros Hs HX Hq D'. assert (Hsets : forall p, set_of (dst D') p = set_of (dst D) p).
  { intros p. unfold set_of. cbn. destruct (decide (p = d)) as [->|Hne]; [by rewrite lookup_insert_eq, Hx|by rewrite lookup_insert_ne]. }
  assert (HE : extends D D') by (intros p Hp; split; [done|apply Hsets]).
  split.
  - destruct HD as [A B C E F G]. split; try done.
    + intros p Hp. cbn. destruct (decide (p = d)) as [->|Hne].
      * rewrite lookup_insert_eq. eexists. split; [done|]. destruct (A d Hd) as (y & Hy & Hok). assert (y = x) as -> by congruence.
        eapply (with_target_ok D D'); try done. by rewrite Hsets.
      * rewrite lookup_insert_ne by done. destruct (A p Hp) as (y & Hy & Hok). exists y. split; [done|]. by eapply state_ok_extends.
    + intros p Hp. cbn in Hp. apply C. destruct (decide (p = d)) as [->|Hne]; [by rewrite Hx|by rewrite lookup_insert_ne in Hp].
    + intros p p' Y Hp Hp'. rewrite !Hsets. by apply E.
  - split; try done.
    + exists []. split; [done|]. by intros p ?%elem_of_nil.
    + intros p Hp Hne. cbn. by rewrite lookup_insert_ne.
Qed.

(** A new state for the target. *)
Lemma target_new X : (forall p, p ∈ X -> p ∈ N) -> (length X <= bound)%nat -> (forall s, s ∈ states (dfa D) -> set_of (dst D) s <> Some X) ->
  (forall q, q ∈ X <-> moves (nfa_set x) (t_label t) q) ->
  exists st a y, let s := next_id D in dfa_state_create X nst s (dst D) = Some (st, s + 1, s) /\ automaton_add_state (dfa D) s = Some a
  /\ set_target d i s st = Some (<[d := with_target i (t_label t) s x]> st)
  /\ let D' := mk_dfa (s + 1) a (<[d := with_target i (t_label t) s x]> st) in
     subset_ok D' /\ states (dfa D') = s :: states (dfa D) /\ start (dfa D') = start (dfa D) /\ dst D' !! s = Some y /\ nfa_set y = X
     /\ (forall p, p ∈ states (dfa D) -> p <> d -> dst D' !! p = dst D !! p) /\ extends D D' /\ (room D' < room D)%nat.
Proof.
  intros HXN HXl Hnew Hq. assert (Hdom : forall p, p ∈ X -> is_Some (nst !! p)) by (intros p Hp; apply elem_of_dom; by apply (co_dom _ _ Hst), HXN).
  destruct (state_create_spec nst X (next_id D) (dst D) Hdom) as (st & y & Ecreate & [Hy Hother] & HyX & Hacc & Hrow).
  set (s := next_id D) in *. assert (Hsn : s ∉ states (dfa D)) by (intros Hs; by apply (old_ne_next s)). assert (Hds : d <> s) by (by apply old_ne_next).
  set (a := mk_aut (a_type (dfa D)) (start (dfa D)) (end_ (dfa D)) (u32 (state_count (dfa D) + 1)) (s :: states (dfa D))).
  exists st, a, y. split; [done|]. split; [unfold automaton_add_state, DLL_insert; by rewrite bool_decide_eq_false_2|].
  split; [apply set_target_eq; by rewrite Hother|]. set (D' := mk_dfa _ _ _). cbn zeta.
  assert (Hold : forall p, p ∈ states (dfa D) -> p <> d -> dst D' !! p = dst D !! p).
  { intros p Hp Hne. cbn. rewrite lookup_insert_ne by done. apply Hother. by apply old_ne_next. }
  assert (Hs' : dst D' !! s = Some y) by (cbn; by rewrite lookup_insert_ne).
  assert (Hsets : forall p, p ∈ states (dfa D) -> set_of (dst D') p = set_of (dst D) p).
  { intros p Hp. unfold set_of. destruct (decide (p = d)) as [->|Hne]; [cbn; by rewrite lookup_insert_eq, Hx|by rewrite Hold]. }
  assert (HE : extends D D') by (intros p Hp; split; [cbn; by right|by apply Hsets]).
  assert (HsX : set_of (dst D') s = Some X) by (unfold set_of; rewrite Hs'; cbn; by rewrite HyX).
  split_and!; try done.
  - destruct HD as [A B C E F G]. split.
    + intros p [->|Hp]%elem_of_cons.
      * exists y. split; [done|]. destruct Hrow as [R1 R2 R3]. split; rewrite ?HyX; try done. intros t' d' Ht' Hd'. by rewrite R2 in Hd'.
      * destruct (decide (p = d)) as [->|Hne].
        -- eexists. split; [apply lookup_insert_eq|]. destruct (A d Hd) as (x' & Hx' & Hok). assert (x' = x) as -> by congruence.
           eapply (with_target_ok D D'); try done. by left.
        -- rewrite Hold by done. destruct (A p Hp) as (z & Hz & Hok). exists z. split; [done|]. by eapply state_ok_extends.
    + cbn. by constructor.
    + intros p Hp. cbn in *. destruct (decide (p = s)) as [->|Hps]; [lia|]. enough (p < s) by lia. apply C.
      destruct (decide (p = d)) as [->|Hne]; [by rewrite Hx|]. rewrite lookup_insert_ne in Hp by done. by rewrite Hother in Hp.
    + intros p p' Y [->|Hp]%elem_of_cons [->|Hp']%elem_of_cons; rewrite ?HsX; [done| | |].
      * rewrite Hsets by done. intros [= <-] H. by apply Hnew in H.
      * rewrite Hsets by done. intros H [= <-]. by apply Hnew in H.
      * rewrite !Hsets by done. by apply E.
    + cbn [dfa D' a state_count states length]. rewrite F. unfold u32. rewrite Zplus_mod_idemp_l. f_equal. lia.
    + done.
  - unfold room. apply subset_size. split.
    + intros Y. rewrite !elem_of_difference, !elem_of_present. intros [HY Hn]. split; [done|]. intros (p & Hp & Hset). apply Hn. exists p.
      split; [cbn; by right|]. by rewrite Hsets.
    + intros Hsub. specialize (Hsub X). rewrite !elem_of_difference, !elem_of_present in Hsub. destruct Hsub as [_ []].
      * split; [by apply admissible_ok|]. intros (p & Hp & Hset). by apply Hnew in Hset.
      * exists s. split; [cbn; by left|done].
Qed.
End Position.

(** After a new state and the work on it. *)
Lemma grows_new d s D D1 D2 : s ∉ states (dfa D) -> states (dfa D1) = s :: states (dfa D) -> start (dfa D1) = start (dfa D) ->
  (forall p, p ∈ states (dfa D) -> p <> d -> dst D1 !! p = dst D !! p) -> extends D D1 -> grows s D1 D2 -> complete D2 s -> grows d D D2.
Proof.
  intros Hs Es Est Ho HE [(new & En & Hc) A B C] Hcs. split.
  - exists (new ++ [s]). rewrite En, Es, <- app_assoc. split; [done|]. intros p [Hp|Hp%list_elem_of_singleton]%elem_of_app; [auto|by subst].
  - intros p Hp Hne. rewrite A, Ho; try done; [rewrite Es; by right|]. by intros ->.
  - intros p Hp. rewrite B by (rewrite Es; by right). by apply HE.
  - congruence.
Qed.

Lemma construct_targets_ok construct k d n i D x : (forall s D, subset_ok D -> s ∈ states (dfa D) -> (room D < k)%nat ->
    exists D', construct s D = Some D' /\ subset_ok D' /\ grows s D D' /\ complete D' s) ->
  subset_ok D -> d ∈ states (dfa D) -> dst D !! d = Some x -> length (transitions x) = (i + n)%nat ->
  (forall j t, (j < i)%nat -> transitions x !! j = Some t -> to_state t <> None) -> (room D <= k)%nat ->
  exists D', construct_targets construct nst d (seq i n) D = Some D' /\ subset_ok D' /\ grows d D D' /\ complete D' d.
Proof.
  intros IHc. revert i D x. induction n as [|n IH]; intros i D x HD Hd Hx Hlen Hdone Hroom; cbn [seq construct_targets].
  { exists D. split_and!; [done|done|apply grows_refl|]. intros x' t Hx' Ht. assert (x' = x) as -> by congruence.
    apply list_elem_of_lookup in Ht as [j Hj]. apply (Hdone j t); [|done]. apply lookup_lt_Some in Hj. lia. }
  rewrite Hx. destruct (transitions x !! i) as [t|] eqn:Ht; [|apply lookup_ge_None in Ht; lia].
  destruct (su_state _ HD d Hd) as (x' & Hx' & Hok). assert (x' = x) as -> by congruence.
  destruct (t_label t) as [lb|] eqn:El.
  2: { exfalso. assert (None ∈ t_label <$> transitions x) as Hin.
       { rewrite <- El. apply list_elem_of_fmap_2. by eapply list_elem_of_lookup_2. }
       by apply (sk_label _ _ Hok) in Hin as [? _]. }
  (* the positions that follow, from a state in which this one is done *)
  assert (Hgo : forall D1 s, subset_ok D1 -> grows d D D1 -> dst D1 !! d = Some (with_target i (t_label t) s x) -> (room D1 <= k)%nat ->
    exists D', construct_targets construct nst d (seq (S i) n) D1 = Some D' /\ subset_ok D' /\ grows d D D' /\ complete D' d).
  { intros D1 s HD1 G1 Hx1 Hr1. destruct (IH (S i) D1 _ HD1 (grows_old _ _ _ _ G1 Hd) Hx1) as (D' & -> & HD' & G' & C').
    - cbn. rewrite length_insert. lia.
    - intros j t' Hj Ht'. cbn in Ht'. destruct (decide (i = j)) as [<-|Hne].
      + rewrite list_lookup_insert_eq in Ht' by (by eapply lookup_lt_Some). by injection Ht' as <-.
      + rewrite list_lookup_insert_ne in Ht' by done. apply (Hdone j); [lia|done].
    - done.
    - exists D'. split_and!; [done|done| |done]. eapply grows_trans; try done. apply HD1. }
  destruct (to_state t) as [d'|] eqn:Eto.
  - destruct (IH (S i) D x HD Hd Hx) as (D' & -> & HD' & G' & C'); [lia| |done|by exists D'].
    intros j t' Hj Ht'. destruct (decide (i = j)) as [<-|Hne]; [congruence|]. apply (Hdone j); [lia|done].
  - destruct (move_set (nfa_set x) lb (sk_set _ _ Hok)) as (X1 & X & -> & -> & HXN & HXl & Hq).
    destruct (find_state_set_spec X (states (dfa D)) (dst D)) as (r & -> & Hr).
    { intros p Hp. destruct (su_state _ HD p Hp) as (y & Hy & _). by rewrite Hy. }
    rewrite <- El in Hq. destruct r as [s|].
    + destruct Hr as [Hs HX]. rewrite (set_target_eq d x i t Ht s _ Hx).
      destruct (target_found d D HD Hd x Hx i t Ht s X Hs HX Hq) as [HD1 G1]. apply (Hgo _ s); [done|done|apply lookup_insert_eq|].
      etransitivity; [by eapply room_grows|done].
    + destruct (target_new d D HD Hd x Hx i t Ht X HXN HXl Hr Hq) as (st & a & y & -> & -> & -> & HD1 & Es & Est & Hy & HyX & Ho & HE & Hrm).
      set (D1 := mk_dfa _ _ _) in *. destruct (IHc (next_id D) D1 HD1) as (D2 & -> & HD2 & G2 & C2); [rewrite Es; by left|lia|].
      assert (Hsn : next_id D ∉ states (dfa D)) by (intros Hs; by apply (old_ne_next D HD (next_id D))).
      apply (Hgo D2 (next_id D)); [done| | |].
      * by apply (grows_new d (next_id D) D D1 D2).
      * rewrite (gr_others _ _ _ G2); [apply lookup_insert_eq|rewrite Es; by right|]. by apply old_ne_next.
      * pose proof (room_grows _ _ _ G2). lia.
Qed.

(** The whole recursion ends and completes the state and all new ones. *)
Lemma construct_dfa_states_ok fuel s D : subset_ok D -> s ∈ states (dfa D) -> (room D < fuel)%nat ->
  exists D', construct_dfa_states fuel nst s D = Some D' /\ subset_ok D' /\ grows s D D' /\ complete D' s.
Proof.
  revert s D. induction fuel as [|fuel IH]; intros s D HD Hs Hf; [lia|]. cbn [construct_dfa_states].
  destruct (su_state _ HD s Hs) as (x & Hx & Hok). rewrite Hx.
  apply (construct_targets_ok (construct_dfa_states fuel nst) fuel s (length (transitions x)) 0 D x); try done; lia.
Qed.

(** ** What the deterministic automaton accepts *)

Context (Hsingle : forall p l q, p ∈ N -> edges nst p (Some l) q -> exists c, l = [c]).
Context (D : Dfa) (HD : subset_ok D) (Hall : forall s, s ∈ states (dfa D) -> complete D s).

(** Labels are different and single characters, all transitions have targets. *)
Record deterministic (st : store) (l : list Z) : Prop := {
  de_target : forall p t, p ∈ l -> tr st p t -> exists q c, t = mk_trans (Some [c]) (Some q) /\ q ∈ l;
  de_nodup : forall p x, p ∈ l -> st !! p = Some x -> NoDup (t_label <$> transitions x);
  de_dom : forall p, p ∈ l -> is_Some (st !! p);
}.

Lemma subset_deterministic : deterministic (dst D) (states (dfa D)).
Proof.
  split.
  - intros p t Hp (x & Hx & Ht). destruct (su_state _ HD p Hp) as (x' & Hx' & Hok). assert (x' = x) as -> by congruence.
    destruct (to_state t) as [q|] eqn:Eq; [|by apply (Hall p Hp x t Hx) in Ht]. exists q.
    destruct (sk_target _ _ Hok t q Ht Eq) as [Hq _].
    destruct (proj1 (sk_label _ _ Hok (t_label t))) as (Hne & n & t' & Hn & Ht' & El); [by apply list_elem_of_fmap_2|].
    destruct (t_label t) as [lb|] eqn:Elb; [|done]. destruct (co_target _ _ Hst n t') as (y & Hy & _); [by apply (sk_set _ _ Hok)|done|].
    destruct (Hsingle n lb y) as [c ->]; [by apply (sk_set _ _ Hok)|unfold edges; rewrite <- El, <- Hy; by destruct t'|].
    exists c. split; [|done]. destruct t. cbn in *. by subst.
  - intros p x Hp Hx. destruct (su_state _ HD p Hp) as (x' & Hx' & Hok). assert (x' = x) as -> by congruence. apply Hok.
  - intros p Hp. destruct (su_state _ HD p Hp) as (x & Hx & _). by rewrite Hx.
Qed.

(** Closed under transitions without label. *)
Definition eps_closed (X : list Z) : Prop := forall p q, p ∈ X -> path (edges nst) p [] q -> q ∈ X.

Lemma moves_closed X l lb : (forall q, q ∈ X <-> moves l lb q) -> eps_closed X.
Proof.
  intros H p q Hp Hpq. apply H in Hp as (n & y & Hn & He & Hy). apply H. exists n, y. split_and!; [done|done|].
  change (@nil Z) with (@nil Z ++ []). by eapply path_app.
Qed.

Lemma path_first p c w q : path (edges nst) p (c :: w) q -> exists p1 y, path (edges nst) p [] p1 /\ edges nst p1 (Some [c]) y /\ path (edges nst) y w q.
Proof.
  intros P. remember (c :: w) as w' eqn:E. induction P as [|p p' w0 q He P IH|p c' y w0 q He P IH]; simplify_eq.
  - destruct (IH eq_refl) as (p1 & y & H1 & H2 & H3). exists p1, y. split_and!; [by eapply p_eps|done|done].
  - exists p, y. split_and!; [constructor|done|done].
Qed.

Lemma subset_outcome w d X : d ∈ states (dfa D) -> set_of (dst D) d = Some X -> eps_closed X ->
  outcome (dst D) d w true <-> exists p q, p ∈ X /\ path (edges nst) p w q /\ acc nst q = Some true.
Proof.
  revert d X. induction w as [|c w IH]; intros d X Hd HX HC; destruct (su_state _ HD d Hd) as (x & Hx & Hok);
    assert (nfa_set x = X) as EX by (unfold set_of in HX; rewrite Hx in HX; by injection HX).
  - cbn. unfold acc at 1. rewrite Hx. cbn. transitivity (accepting x = true); [split; congruence|]. rewrite (sk_acc _ _ Hok), EX. split.
    + intros (p & Hp & Ha). exists p, p. split_and!; [done|constructor|done].
    + intros (p & q & Hp & Hpq & Ha). exists q. split; [by eapply HC|done].
  - cbn. split.
    + intros (d' & (x' & Hx' & Ht) & Ho). assert (x' = x) as -> by congruence. destruct (sk_target _ _ Hok _ d' Ht eq_refl) as (Hd' & X' & HX' & Hq).
      rewrite EX in Hq. cbn in Hq. apply (IH d' X' Hd' HX') in Ho as (p' & q & Hp' & Hpq & Ha); [|by eapply moves_closed].
      apply Hq in Hp' as (p & y & Hp & He & Hy). exists p, q. split_and!; [done| |done]. eapply p_chr; [done|]. by eapply (path_app _ _ []).
    + intros (p & q & Hp & Hpq & Ha). apply path_first in Hpq as (p1 & y & H1 & He & H2).
      assert (Hp1 : p1 ∈ X) by (by eapply HC).
      assert (Some [c] ∈ t_label <$> transitions x) as Hin.
      { apply (sk_label _ _ Hok). split; [done|]. exists p1, (mk_trans (Some [c]) (Some y)). rewrite EX. done. }
      apply list_elem_of_fmap in Hin as (t & El & Ht). destruct (to_state t) as [d'|] eqn:Eto; [|by apply (Hall d Hd x t Hx) in Ht].
      destruct (sk_target _ _ Hok t d' Ht Eto) as (Hd' & X' & HX' & Hq). rewrite EX, <- El in Hq. exists d'. split.
      { exists x. split; [done|]. rewrite El, <- Eto. by destruct t. }
      apply (IH d' X' Hd' HX'); [by eapply moves_closed|]. exists y, q. split_and!; [|done|done]. apply Hq. exists p1, y. split_and!; [done|done|constructor].
Qed.
End Subset.

Lemma fragment_closed_on st S s e r : fragment st S s e r -> closed_on st (list_to_set S).
Proof.
  intros [F1 F2 F3 F4 F5 F6]. split; [|intros p t Hp%elem_of_list_to_set Htr; destruct (F3 p t Hp Htr) as (q & ? & ?); exists q; by rewrite elem_of_list_to_set].
  intros p Hp%elem_of_list_to_set. apply elem_of_dom, acc_is_Some. rewrite F4 by done. by eexists.
Qed.

(** The subset construction: with enough fuel it gives a deterministic automaton for the expression. *)
Lemma subset_spec nst a s e r : start a = Some s -> fragment nst (states a) s e r -> exists fuel0, forall fuel, (fuel0 <= fuel)%nat ->
  exists X st id d A D, nfa_closure_set_create [s] None nst = Some X /\ dfa_state_create X nst 0 ∅ = Some (st, id, d)
    /\ automaton_add_state (mk_aut DFA (Some d) None 0 []) d = Some A /\ construct_dfa_states fuel nst d (mk_dfa id A st) = Some D
    /\ deterministic (dst D) (states (dfa D)) /\ NoDup (states (dfa D)) /\ a_type (dfa D) = DFA
    /\ state_count (dfa D) = u32 (Z.of_nat (length (states (dfa D)))) /\ start (dfa D) = Some d /\ last (states (dfa D)) = Some d
    /\ forall w, outcome (dst D) d w true <-> matches r w.
Proof.
  intros Hs F. pose proof (fragment_closed_on _ _ _ _ _ F) as Hst. set (N := list_to_set (states a) : gset Z) in *. pose proof F as [F1 F2 F3 F4 F5 F6].
  assert (Hfl : forall p l q, p ∈ N -> edges nst p (Some l) q -> (exists c, l = [c]) /\ forall l' q', ~ edges nst q (Some l') q').
  { intros p l q Hp%elem_of_list_to_set. by apply F5. }
  destruct (start_reached nst N Hst s) as (X & EX & [HXN HX] & HXl); [by apply elem_of_list_to_set|].
  destruct (state_create_spec nst X 0 ∅) as (st & y & Ecr & [Hy Hother] & HyX & Hacc & [R1 R2 R3]).
  { intros p Hp. apply elem_of_dom. by apply (co_dom _ _ Hst), HXN. }
  set (A := mk_aut DFA (Some 0) None 1 [0]). set (D0 := mk_dfa (0 + 1) A st).
  assert (HD0 : subset_ok nst N D0).
  { split; cbn.
    - intros p ->%list_elem_of_singleton. exists y. split; [done|]. split; rewrite ?HyX; try done; [unfold bound; lia|].
      intros t d Ht Hd. by rewrite R2 in Hd.
    - repeat constructor. by intros ?%elem_of_nil.
    - intros p Hp. destruct (decide (p = 0)) as [->|Hne]; [done|]. rewrite Hother, lookup_empty in Hp by done. by destruct Hp.
    - by intros p p' Y ->%list_elem_of_singleton ->%list_elem_of_singleton.
    - done.
    - done. }
  exists (S (room N D0)). intros fuel Hf.
  destruct (construct_dfa_states_ok nst N Hst (fun p l q Hp He => proj2 (Hfl p l q Hp He)) fuel 0 D0 HD0) as (D & ED & HD & G & C); [by left|lia|].
  assert (Hall : forall p, p ∈ states (dfa D) -> complete D p).
  { destruct G as [(new & En & Hnew) _ _ _]. intros p Hp. rewrite En in Hp. apply elem_of_app in Hp as [Hp|Hp%list_elem_of_singleton]; [auto|by subst]. }
  assert (H0 : 0 ∈ states (dfa D)) by (eapply grows_old; [exact G|by left]).
  exists X, st, (0 + 1), 0, A, D. split_and!; try done.
  - apply (subset_deterministic nst N Hst (fun p l q Hp He => proj1 (Hfl p l q Hp He)) D HD Hall).
  - apply HD.
  - apply HD.
  - apply HD.
  - by rewrite (gr_start _ _ _ G).
  - destruct G as [(new & -> & _) _ _ _]. apply last_snoc.
  - intros w. rewrite (subset_outcome nst N D HD Hall w 0 X H0).
    + rewrite <- F6. split.
      * intros (p & q & Hp & Hpq & Ha). apply HX in Hp. assert (P : path (edges nst) s w q) by (by eapply (path_app _ _ [])).
        assert (Hq : q ∈ N) by (eapply path_stays; [exact Hst| |exact P]; by apply elem_of_list_to_set). apply elem_of_list_to_set in Hq.
        rewrite F4 in Ha by done. by injection Ha as ->%bool_decide_eq_true.
      * intros P. exists s, e. split_and!; [apply HX; constructor|done|]. rewrite F4 by done. by rewrite bool_decide_eq_true_2.
    + rewrite (gr_sets _ _ _ G) by (by left). unfold set_of. cbn. rewrite Hy. cbn. by rewrite HyX.
    + intros p q Hp Hpq. apply HX in Hp. apply HX. change (@nil Z) with (@nil Z ++ []). by eapply path_app.
Qed.
