(* ===== verification/RegexMin.v ===== *)
(** * Regular expressions: removal of states of the deterministic automaton

    The first two passes of the minimization: states that are not reachable and dead states are
    removed, and the automaton accepts the same strings. *)

From stdpp Require Import gmap sorting relations.
From S2P Require Import Prelude Regex RegexNfa RegexEval RegexDfa.
#[local] Open Scope Z_scope.

(** A deterministic automaton with start [s0]. *)
Record dfa_wf (a : Automaton) (st : store) (s0 : Z) : Prop := {
  dw_det : deterministic st (states a);
  dw_nodup : NoDup (states a);
  dw_count : state_count a = Z.of_nat (length (states a));
  dw_small : Z.of_nat (length (states a)) < 2 ^ 32;
  dw_type : a_type a = DFA;
  dw_start : start a = Some s0;
  dw_last : last (states a) = Some s0;
}.

Lemma dw_in a st s0 : dfa_wf a st s0 -> s0 ∈ states a.
Proof. intros H. apply last_Some_elem_of, H. Qed.

Section Det.
Context (st : store) (l : list Z) (Hdet : deterministic st l).

Lemma det_edge p lb q : p ∈ l -> edges st p lb q -> q ∈ l /\ exists c, lb = Some [c].
Proof. intros Hp He. destruct (de_target _ _ Hdet _ _ Hp He) as (q' & c & [= -> ->] & ?). eauto. Qed.

Lemma same_label_same ts t t' : NoDup (t_label <$> ts) -> t ∈ ts -> t' ∈ ts -> t_label t = t_label t' -> t = t'.
Proof.
  intros HN [i Hi]%list_elem_of_lookup [j Hj]%list_elem_of_lookup E.
  assert (i = j) as <-; [|congruence]. eapply NoDup_lookup; [exact HN| |]; rewrite list_lookup_fmap, ?Hi, ?Hj; cbn; by rewrite ?E.
Qed.

Lemma det_unique p lb q q' : p ∈ l -> edges st p lb q -> edges st p lb q' -> q = q'.
Proof.
  intros Hp (x & Hx & H) (x' & Hx' & H'). assert (x' = x) as -> by congruence.
  assert (mk_trans lb (Some q) = mk_trans lb (Some q')) as [= ->]; [|done]. eapply same_label_same; [by eapply de_nodup|done|done|done].
Qed.

Lemma det_acc p : p ∈ l -> exists b, acc st p = Some b.
Proof. intros Hp. destruct (de_dom _ _ Hdet p Hp) as [x Hx]. unfold acc. rewrite Hx. by eexists. Qed.

Lemma det_closed : closed_on st (list_to_set l).
Proof.
  split.
  - intros p Hp%elem_of_list_to_set. by apply elem_of_dom, (de_dom _ _ Hdet).
  - intros p t Hp%elem_of_list_to_set Ht. destruct (de_target _ _ Hdet p t Hp Ht) as (q & c & -> & Hq). exists q. by rewrite elem_of_list_to_set.
Qed.
End Det.

(** ** Removal of a state *)

(** Every state of a list is updated. *)
Lemma update_each (F : list Z -> store -> option store) (f : State -> State) : (forall st, F [] st = Some st) ->
  (forall p l st, F (p :: l) st = let? x := st !! p in F l (<[p := f x]> st)) -> forall l st, NoDup l -> (forall p, p ∈ l -> is_Some (st !! p)) ->
  exists st', F l st = Some st' /\ (forall p, p ∈ l -> st' !! p = f <$> st !! p) /\ forall p, p ∉ l -> st' !! p = st !! p.
Proof.
  intros F0 F1. induction l as [|p l IH]; intros st HN Hl; [rewrite F0; exists st; split; [done|]; split; [by intros p ?%elem_of_nil|done]|].
  apply NoDup_cons in HN as [Hp HN]. destruct (Hl p) as [x Hx]; [by left|]. rewrite F1, Hx.
  destruct (IH (<[p := f x]> st) HN) as (st' & -> & H1 & H2).
  { intros q Hq. rewrite lookup_insert_ne by (by intros ->). apply Hl. by right. }
  exists st'. split; [done|]. split.
  - intros q [->|Hq]%elem_of_cons; [rewrite H2, lookup_insert_eq, Hx by done; done|]. rewrite H1 by done. by rewrite lookup_insert_ne by (by intros ->).
  - intros q [Hne Hq]%not_elem_of_cons. rewrite H2 by done. by rewrite lookup_insert_ne.
Qed.

Lemma remove_targets_spec s l st : NoDup l -> (forall p, p ∈ l -> is_Some (st !! p)) -> exists st', remove_targets s l st = Some st'
  /\ (forall p, p ∈ l -> st' !! p = (fun x => set_transitions (without_target s (transitions x)) x) <$> st !! p) /\ forall p, p ∉ l -> st' !! p = st !! p.
Proof. by apply update_each. Qed.

Lemma length_filter_ne (s : Z) l : NoDup l -> s ∈ l -> length l = S (length (filter (fun p => p <> s) l)).
Proof.
  induction 1 as [|x l Hx HN IH]; intros Hs; [by apply elem_of_nil in Hs|]. rewrite filter_cons. case_decide as Hd.
  - cbn. rewrite <- IH; [done|]. by apply elem_of_cons in Hs as [->|].
  - assert (x = s) as -> by (destruct (decide (x = s)); tauto). cbn. f_equal. rewrite filter_all; [done|]. intros y Hy ->. done.
Qed.

Lemma last_filter_keep (s s0 : Z) l : last l = Some s0 -> s <> s0 -> last (filter (fun p => p <> s) l) = Some s0.
Proof. intros [k ->]%last_Some Hne. rewrite filter_app, filter_cons_True, filter_nil by done. apply last_snoc. Qed.

Lemma remove_state_ok a st s0 s : dfa_wf a st s0 -> s ∈ states a -> s <> s0 -> exists st' a', automaton_remove_state a s st = Some (st', a')
  /\ dfa_wf a' st' s0 /\ states a' = filter (fun p => p <> s) (states a) /\ (forall p, p ∈ states a' -> acc st' p = acc st p)
  /\ forall p l q, p ∈ states a' -> edges st' p l q <-> edges st p l q /\ q <> s.
Proof.
  intros [Hdet HN Hc Hsm Ht Hst Hin] Hs Hne. unfold automaton_remove_state.
  destruct (remove_targets_spec s (states a) st HN (de_dom _ _ Hdet)) as (st1 & -> & H1 & H2).
  unfold DLL_remove. rewrite bool_decide_eq_true_2 by done. eexists _, _. split; [done|].
  set (l' := filter (fun p => p <> s) (states a)). set (st' := delete s st1).
  assert (Hl' : forall p, p ∈ l' <-> p <> s /\ p ∈ states a) by (intros p; unfold l'; by rewrite list_elem_of_filter).
  assert (Hlook : forall p, p ∈ l' -> st' !! p = (fun x => set_transitions (without_target s (transitions x)) x) <$> st !! p).
  { intros p [Hp1 Hp2]%Hl'. unfold st'. rewrite lookup_delete_ne by done. auto. }
  assert (Htr : forall p t, p ∈ l' -> tr st' p t <-> tr st p t /\ to_state t <> Some s).
  { intros p t Hp. unfold tr. rewrite Hlook by done. destruct (st !! p) as [x|]; cbn.
    - split.
      + intros (y & [= <-] & Hy). cbn in Hy. apply list_elem_of_filter in Hy as [? ?]. eauto.
      + intros [(y & [= <-] & Hy) Hto]. eexists. split; [done|]. cbn. by apply list_elem_of_filter.
    - naive_solver. }
  split_and!; [|done| |].
  - pose proof (length_filter_ne s (states a) HN Hs) as Hlen. fold l' in Hlen. split; cbn; try done.
    + split.
      * intros p t Hp Htt. apply Htr in Htt as [Htt Hto]; [|done]. apply Hl' in Hp as [Hp1 Hp2].
        destruct (de_target _ _ Hdet p t Hp2 Htt) as (q & c & -> & Hq). exists q, c. split; [done|]. apply Hl'. split; [|done]. cbn in Hto. congruence.
      * intros p x Hp Hx. rewrite Hlook in Hx by done. apply Hl' in Hp as [Hp1 Hp2]. destruct (st !! p) as [y|] eqn:Ey; [|done]. injection Hx as <-. cbn.
        eapply sublist_NoDup; [by eapply (de_nodup _ _ Hdet p)|]. apply fmap_sublist, sublist_filter.
      * intros p Hp. rewrite Hlook by done. apply Hl' in Hp as [Hp1 Hp2]. apply fmap_is_Some. by apply (de_dom _ _ Hdet).
    + by apply NoDup_filter.
    + rewrite Hc, Hlen. unfold u32. rewrite Z.mod_small by lia. lia.
    + lia.
    + by apply last_filter_keep.
  - intros p Hp. unfold acc. cbn. rewrite Hlook by done. by destruct (st !! p).
  - intros p lb q Hp. unfold edges. rewrite Htr by done. cbn. split; intros [? ?]; (split; [done|]); congruence.
Qed.

(** Removal of the states for which a test holds. *)
Lemma remove_states_ok (remove : Z -> Automaton -> store -> option bool) (I : Automaton -> store -> Prop) s0 l a st :
  (forall a st s, dfa_wf a st s0 -> I a st -> s ∈ states a -> exists b, remove s a st = Some b
     /\ (b = true -> s <> s0 /\ forall st' a', dfa_wf a' st' s0 -> states a' = filter (fun p => p <> s) (states a) ->
           (forall p, p ∈ states a' -> acc st' p = acc st p) -> (forall p l q, p ∈ states a' -> edges st' p l q <-> edges st p l q /\ q <> s) -> I a' st')) ->
  dfa_wf a st s0 -> I a st -> NoDup l -> (forall s, s ∈ l -> s ∈ states a) ->
  exists a' st', remove_states remove l a st = Some (a', st') /\ dfa_wf a' st' s0 /\ I a' st' /\ (length (states a') <= length (states a))%nat.
Proof.
  intros Hrem. revert a st. induction l as [|s l IH]; intros a st Hwf HI HN Hl; cbn [remove_states]; [by exists a, st|].
  apply NoDup_cons in HN as [Hsl HN]. destruct (Hrem a st s Hwf HI) as (b & -> & Hb); [apply Hl; by left|]. destruct b.
  - destruct (Hb eq_refl) as [Hne Hpres]. destruct (remove_state_ok a st s0 s Hwf) as (st' & a' & -> & Hwf' & El & Hacc & Hed); [apply Hl; by left|done|].
    destruct (IH a' st' Hwf') as (a2 & st2 & E & H2 & H3 & H4); [by apply Hpres|done| |].
    { intros p Hp. rewrite El. apply list_elem_of_filter. split; [by intros ->|]. apply Hl. by right. }
    exists a2, st2. split_and!; try done. etransitivity; [done|]. rewrite El. apply length_filter.
  - apply IH; [done|done|done|]. intros p Hp. apply Hl. by right.
Qed.

(** ** States that are not needed *)

Lemma unreachable_ok a st s0 : dfa_wf a st s0 -> exists a' st', dfa_remove_unreachable_states a st = Some (a', st') /\ dfa_wf a' st' s0
  /\ (forall w b, outcome st' s0 w b <-> outcome st s0 w b) /\ (length (states a') <= length (states a))%nat.
Proof.
  intros Hwf. pose proof Hwf as [Hdet HN Hc Hsm Ht Hst _]. pose proof (dw_in _ _ _ Hwf) as Hin. unfold dfa_remove_unreachable_states.
  destruct (automaton_traverse_ok st _ (det_closed _ _ Hdet) a (start a) s0 Hst) as (order & -> & Ho).
  { rewrite Hc. destruct (states a); [by apply elem_of_nil in Hin|]. cbn. lia. }
  { rewrite Hst. cbn. by apply elem_of_list_to_set. }
  rewrite Hst in Ho. cbn in Ho. assert (Hroot : s0 ∈ order) by (apply Ho; constructor).
  assert (Hnext : forall p l q, p ∈ order -> edges st p l q -> q ∈ order).
  { intros p l q Hp He. apply Ho in Hp. apply Ho. eapply rtc_r; [done|]. by exists l. }
  set (I := fun a' st' => forall p, p ∈ order -> p ∈ states a' /\ acc st' p = acc st p /\ forall l q, edges st' p l q <-> edges st p l q).
  destruct (remove_states_ok (fun s _ _ => Some (negb (bool_decide (s ∈ order)))) I s0 (states a) a st) as (a' & st' & -> & Hwf' & HI & Hlen); try done.
  - intros a1 st1 s Hwf1 HI Hs. eexists. split; [done|]. intros Hb. apply negb_true_iff, bool_decide_eq_false in Hb. split; [by intros ->|].
    intros st2 a2 Hwf2 El Hacc Hed p Hp. destruct (HI p Hp) as (H1 & H2 & H3).
    assert (p ∈ states a2) as Hp2 by (rewrite El; apply list_elem_of_filter; split; [by intros ->|done]).
    split_and!; [done|by rewrite Hacc|]. intros l q. rewrite Hed, H3 by done. split; [tauto|]. intros He. split; [done|]. intros ->. apply Hb. by eapply Hnext.
  - intros p Hp. split; [|done]. apply Ho in Hp. assert (Hall : forall x y, rtc (next_state st) x y -> x ∈ states a -> y ∈ states a); [|by eapply Hall].
    induction 1 as [|x y z [l Hxy] _ IH]; [done|]. intros Hx. apply IH. by eapply det_edge.
  - exists a', st'. split_and!; try done.
    assert (Hout : forall w p b, p ∈ order -> outcome st' p w b <-> outcome st p w b); [|intros; by apply Hout].
    induction w as [|c w IH]; intros p b Hp; destruct (HI p Hp) as (H1 & H2 & H3); cbn; [by rewrite H2|].
    split; intros (q & He & Hq); exists q; (split; [by apply H3|]); apply IH; try done; eapply Hnext; try done; by apply H3.
Qed.

(** A dead state accepts nothing. *)
Lemma dead_outcome st s w : is_dead s st = Some true -> ~ outcome st s w true.
Proof.
  unfold is_dead. destruct (st !! s) as [x|] eqn:Ex; [|done]. intros [= [Ha Hall]%andb_true_iff]. induction w as [|c w IH]; cbn.
  - unfold acc. rewrite Ex. cbn. intros [= Hacc]. by rewrite Hacc in Ha.
  - intros (q & (x' & Hx' & Ht) & Ho). assert (x' = x) as -> by congruence. rewrite forallb_forall in Hall.
    apply list_elem_of_In, Hall in Ht. cbn in Ht. assert (q = s) as -> by lia. by apply IH.
Qed.

Lemma dead_ok a st s0 w0 : dfa_wf a st s0 -> outcome st s0 w0 true -> exists a' st', dfa_remove_dead_states a st = Some (a', st') /\ dfa_wf a' st' s0
  /\ (forall w, outcome st' s0 w true <-> outcome st s0 w true) /\ (length (states a') <= length (states a))%nat.
Proof.
  intros Hwf H0. pose proof Hwf as [Hdet HN Hc Hsm Ht Hst _]. pose proof (dw_in _ _ _ Hwf) as Hin. unfold dfa_remove_dead_states. rewrite bool_decide_eq_true_2 by done.
  set (I := fun a' st' => forall p, p ∈ states a' -> forall w, outcome st' p w true <-> outcome st p w true).
  destruct (remove_states_ok (fun s _ st => is_dead s st) I s0 (states a) a st) as (a' & st' & -> & Hwf' & HI & Hlen); try done.
  - intros a1 st1 s Hwf1 HI Hs. destruct (de_dom _ _ (dw_det _ _ _ Hwf1) s Hs) as [x Hx].
    assert (exists b, is_dead s st1 = Some b) as [b Hb] by (unfold is_dead; rewrite Hx; by eexists). exists b. split; [done|]. intros ->.
    pose proof (dead_outcome st1 s) as Hdead. split.
    { intros ->. apply (Hdead w0 Hb). by apply HI. }
    intros st2 a2 Hwf2 El Hacc Hed p Hp w. assert (Hsub : forall p, p ∈ states a2 -> p ∈ states a1 /\ p <> s).
    { intros p'. rewrite El, list_elem_of_filter. tauto. }
    rewrite <- (HI p) by (by apply Hsub). revert p Hp. induction w as [|c w IH]; intros p Hp; cbn; [by rewrite Hacc|]. split.
    + intros (q & He & Hq). apply Hed in He as [He Hne]; [|done]. exists q. split; [done|]. apply IH; [|done].
      rewrite El. apply list_elem_of_filter. split; [done|]. eapply (det_edge _ _ (dw_det _ _ _ Hwf1) p); [by apply Hsub|done].
    + intros (q & He & Hq). assert (q <> s) as Hne by (intros ->; by apply (Hdead w Hb)). exists q. split; [by apply Hed|]. apply IH; [|done].
      rewrite El. apply list_elem_of_filter. split; [done|]. eapply (det_edge _ _ (dw_det _ _ _ Hwf1) p); [by apply Hsub|done].
  - exists a', st'. split_and!; try done. intros w. by apply HI, (dw_in _ st').
Qed.
