(* ===== verification/RegexMerge.v ===== *)
(** * Regular expressions: merging of equivalent states

    The last pass of the minimization: the table of pairs of states, of which exactly those of
    states that can be distinguished are marked in the end; the merging of the others, after which the
    automaton accepts the same strings; and the theorems on the whole compiler. *)

From stdpp Require Import gmap sorting relations.
From S2P Require Import Prelude Regex RegexNfa RegexEval RegexDfa RegexMin.
#[local] Open Scope Z_scope.

(** ** The table of pairs *)

Section Table.
Context (l : list Z) (HN : NoDup l).

Lemma position_spec s : s ∈ l -> exists i, position l s = Some (Z.of_nat i) /\ l !! i = Some s.
Proof.
  intros Hs. unfold position. destruct (list_find (fun x => x = s) l) as [[i x]|] eqn:E.
  - apply list_find_Some in E as (Hi & -> & _). by exists i.
  - exfalso. apply list_find_None in E. rewrite Forall_forall in E. by apply (E s).
Qed.

Definition pos (s : Z) : Z := default 0 (position l s).
Definition cnt : Z := Z.of_nat (length l).
Definition idx (s1 s2 : Z) : Z := pos s1 * cnt + pos s2.

Lemma pos_eq s : s ∈ l -> position l s = Some (pos s) /\ 0 <= pos s < cnt /\ l !! Z.to_nat (pos s) = Some s.
Proof.
  intros Hs. destruct (position_spec s Hs) as (i & E & Hi). unfold pos, cnt. rewrite E. cbn. apply lookup_lt_Some in Hi as Hlt.
  split_and!; [done|lia|lia|]. by rewrite Nat2Z.id.
Qed.

Lemma pos_inj s1 s2 : s1 ∈ l -> s2 ∈ l -> pos s1 = pos s2 -> s1 = s2.
Proof. intros H1 H2 E. destruct (pos_eq s1 H1) as (_ & _ & L1), (pos_eq s2 H2) as (_ & _ & L2). rewrite E in L1. congruence. Qed.

Lemma idx_range s1 s2 : s1 ∈ l -> s2 ∈ l -> 0 <= idx s1 s2 < cnt * cnt.
Proof. intros H1 H2. destruct (pos_eq s1 H1) as (_ & P1 & _), (pos_eq s2 H2) as (_ & P2 & _). unfold idx. nia. Qed.

Lemma bit_in_table s1 s2 : s1 ∈ l -> s2 ∈ l -> table_bit cnt (pos s1) (pos s2) = Some (idx s1 s2).
Proof.
  intros H1 H2. pose proof (idx_range s1 s2 H1 H2) as Hr. unfold table_bit. fold (idx s1 s2).
  replace (4 * (idx s1 s2 / 32) + 4 <=? 4 * cnt * cnt / 32 + 4) with true; [done|]. symmetry. apply Z.leb_le. apply Z.add_le_mono_r.
  transitivity (4 * idx s1 s2 / 32); [apply Z.div_mul_le; lia|]. apply Z.div_le_mono; lia.
Qed.

Lemma table_test_eq table s1 s2 : s1 ∈ l -> s2 ∈ l -> table_test l cnt table s1 s2 = Some (bool_decide (idx s1 s2 ∈ table)).
Proof.
  intros H1 H2. unfold table_test. destruct (pos_eq s1 H1) as (-> & _ & _), (pos_eq s2 H2) as (-> & _ & _). by rewrite bit_in_table.
Qed.

Lemma table_set_eq table s1 s2 : s1 ∈ l -> s2 ∈ l -> table_set l cnt s1 s2 table = Some ({[idx s1 s2]} ∪ table).
Proof.
  intros H1 H2. unfold table_set. destruct (pos_eq s1 H1) as (-> & _ & _), (pos_eq s2 H2) as (-> & _ & _). by rewrite bit_in_table.
Qed.

(** The bit of two states, the later of them first. *)
Definition distinct (table : gset Z) (p q : Z) : Prop := if pos p >? pos q then idx p q ∈ table else idx q p ∈ table.

#[local] Instance distinct_dec table p q : Decision (distinct table p q).
Proof. unfold distinct. destruct (_ >? _); apply _. Defined.

Lemma distinct_sym table p q : p ∈ l -> q ∈ l -> distinct table p q <-> distinct table q p.
Proof.
  intros Hp Hq. unfold distinct. destruct (Z.gtb_spec (pos p) (pos q)), (Z.gtb_spec (pos q) (pos p)); try done; [lia|].
  by rewrite (pos_inj p q Hp Hq) by lia.
Qed.

Lemma until_pos s1 s2 : s1 ∈ l -> s2 ∈ l -> pos s2 < pos s1 -> s2 ∈ until s1 l.
Proof.
  intros H1 H2 Hlt. destruct (pos_eq s1 H1) as (_ & P1 & L1), (pos_eq s2 H2) as (_ & P2 & L2).
  assert (Hgen : forall k i j, NoDup k -> k !! i = Some s1 -> k !! j = Some s2 -> (j < i)%nat -> s2 ∈ until s1 k); [|eapply Hgen; [exact HN|exact L1|exact L2|lia]].
  clear. induction k as [|x k IH]; intros i j N Hi Hj Hji; [done|]. apply NoDup_cons in N as [Nx N]. destruct i as [|i]; [lia|]. cbn in *.
  destruct (Z.eqb_spec x s1) as [->|Hne]; [exfalso; apply Nx; by eapply list_elem_of_lookup_2|].
  destruct j as [|j]; cbn in *; [injection Hj as ->; by left|]. right. apply (IH i j); [done|done|done|lia].
Qed.

Lemma until_in s k x : x ∈ until s k -> x ∈ k /\ x <> s.
Proof.
  induction k as [|y k IH]; cbn; [by intros ?%elem_of_nil|]. destruct (Z.eqb_spec y s) as [->|Hne]; [by intros ?%elem_of_nil|].
  intros [->|Hx]%elem_of_cons; [split; [by left|done]|]. destruct (IH Hx). split; [by right|done].
Qed.

Lemma lower_pairs_elem s1 s2 : (s1, s2) ∈ lower_pairs l <-> s1 ∈ l /\ s2 ∈ until s1 l.
Proof.
  unfold lower_pairs. rewrite list_elem_of_In, in_concat. split.
  - intros (k & (s & <- & Hs)%in_map_iff & (s' & [= -> ->] & Hs')%in_map_iff). rewrite !list_elem_of_In. done.
  - intros [H1 H2]. exists (map (fun s2 => (s1, s2)) (until s1 l)). split; [apply in_map_iff; exists s1; split; [done|by apply list_elem_of_In]|].
    apply in_map_iff. exists s2. split; [done|by apply list_elem_of_In].
Qed.

Lemma lower_pairs_in s1 s2 : (s1, s2) ∈ lower_pairs l -> s1 ∈ l /\ s2 ∈ l.
Proof. intros [H1 H2]%lower_pairs_elem. split; [done|]. by apply until_in in H2 as [? _]. Qed.

Lemma all_pairs_elem s1 s2 : (s1, s2) ∈ all_pairs l <-> s1 ∈ l /\ s2 ∈ l.
Proof.
  unfold all_pairs. rewrite list_elem_of_In, in_concat. split.
  - intros (k & (s & <- & Hs)%in_map_iff & (s' & [= -> ->] & Hs')%in_map_iff). rewrite !list_elem_of_In. done.
  - intros [H1 H2]. exists (map (fun s2 => (s1, s2)) l). split; [apply in_map_iff; exists s1; split; [done|by apply list_elem_of_In]|].
    apply in_map_iff. exists s2. split; [done|by apply list_elem_of_In].
Qed.

Lemma idx_inj s1 s2 t1 t2 : s1 ∈ l -> s2 ∈ l -> t1 ∈ l -> t2 ∈ l -> idx s1 s2 = idx t1 t2 -> s1 = t1 /\ s2 = t2.
Proof.
  intros H1 H2 H3 H4 E. unfold idx in E.
  destruct (pos_eq s1 H1) as (_ & P1 & _), (pos_eq s2 H2) as (_ & P2 & _), (pos_eq t1 H3) as (_ & P3 & _), (pos_eq t2 H4) as (_ & P4 & _).
  assert (pos s1 = pos t1) by nia. split; apply pos_inj; try done. lia.
Qed.

Lemma until_lt s1 s2 : s1 ∈ l -> s2 ∈ until s1 l -> pos s2 < pos s1.
Proof.
  intros H1 H2. destruct (until_in _ _ _ H2) as [H3 Hne]. destruct (pos_eq s1 H1) as (_ & P1 & L1), (pos_eq s2 H3) as (_ & P2 & L2).
  assert (Hgen : forall k i j, k !! i = Some s1 -> k !! j = Some s2 -> NoDup k -> s2 ∈ until s1 k -> (j < i)%nat).
  { clear. induction k as [|x k IH]; intros i j Hi Hj N; cbn; [by intros ?%elem_of_nil|]. apply NoDup_cons in N as [Nx N].
    destruct (Z.eqb_spec x s1) as [->|Hne]; [by intros ?%elem_of_nil|]. destruct i as [|i]; [by injection Hi|]. destruct j as [|j]; [lia|].
    intros [->|Hx]%elem_of_cons; [exfalso; apply Nx; by eapply list_elem_of_lookup_2|]. cbn in *. specialize (IH i j Hi Hj N Hx). lia. }
  specialize (Hgen l _ _ L1 L2 HN H2). lia.
Qed.

Lemma distinct_lower table s1 s2 : s1 ∈ l -> s2 ∈ until s1 l -> distinct table s1 s2 <-> idx s1 s2 ∈ table.
Proof. intros H1 H2. pose proof (until_lt s1 s2 H1 H2). unfold distinct. by rewrite (proj2 (Z.gtb_lt _ _)) by done. Qed.

(** All bits are in the range. *)
Definition in_range (table : gset Z) : Prop := forall i, i ∈ table -> 0 <= i < cnt * cnt.

Lemma in_range_size table : in_range table -> (size table <= length l * length l)%nat.
Proof.
  intros H. assert (table ⊆ list_to_set (seqZ 0 (cnt * cnt))) as Hsub.
  { intros i Hi. apply elem_of_list_to_set, elem_of_seqZ. specialize (H i Hi). lia. }
  apply subseteq_size in Hsub. rewrite size_list_to_set in Hsub by apply NoDup_seqZ. rewrite length_seqZ in Hsub. unfold cnt in Hsub. lia.
Qed.

Lemma in_range_add table s1 s2 : s1 ∈ l -> s2 ∈ l -> in_range table -> in_range ({[idx s1 s2]} ∪ table).
Proof. intros H1 H2 H i. rewrite elem_of_union, elem_of_singleton. intros [->|Hi]; [by apply idx_range|auto]. Qed.
End Table.

(** ** Equivalent states *)

Definition equivalent (st : store) (p q : Z) : Prop := forall w b, outcome st p w b <-> outcome st q w b.

#[global] Instance equivalent_equiv st : Equivalence (equivalent st).
Proof. split; [done|intros p q H w b; by rewrite (H w b)|intros p q r H1 H2 w b; by rewrite (H1 w b), (H2 w b)]. Qed.

Section Equivalent.
Context (st : store) (l : list Z) (Hdet : deterministic st l).

Lemma outcome_step p c d w b : p ∈ l -> edges st p (Some [c]) d -> outcome st p (c :: w) b <-> outcome st d w b.
Proof. intros Hp He. split; [|by exists d]. intros (d' & He' & Ho). by rewrite (det_unique st l Hdet p _ d d' Hp He He'). Qed.

(** Equivalent states have the same labels, and targets that are equivalent. *)
Lemma equivalent_edge p q lb d : p ∈ l -> q ∈ l -> equivalent st p q -> edges st p lb d -> exists d', edges st q lb d' /\ equivalent st d d'.
Proof.
  intros Hp Hq Heq He. destruct (det_edge st l Hdet _ _ _ Hp He) as (Hd & c & ->). destruct (det_acc st l Hdet d Hd) as [b Hb].
  assert (outcome st q [c] b) as (d' & He' & _) by (apply Heq; by exists d). exists d'. split; [done|]. intros w b'.
  rewrite <- (outcome_step p c d w b' Hp He), <- (outcome_step q c d' w b' Hq He'). apply Heq.
Qed.

Lemma equivalent_acc p q : equivalent st p q -> acc st p = acc st q.
Proof.
  intros H. destruct (acc st p) as [b|] eqn:E; [symmetry; by apply (H [] b)|]. destruct (acc st q) as [b|] eqn:E'; [|done].
  rewrite <- E. by apply (H [] b).
Qed.

(** A bisimulation contains only equivalent states. *)
Lemma bisimulation (R : Z -> Z -> Prop) : (forall p q, R p q -> p ∈ l /\ q ∈ l /\ acc st p = acc st q) ->
  (forall p q lb d, R p q -> edges st p lb d -> exists d', edges st q lb d' /\ R d d') ->
  (forall p q lb d, R p q -> edges st q lb d -> exists d', edges st p lb d' /\ R d' d) -> forall p q, R p q -> equivalent st p q.
Proof.
  intros H1 H2 H3 p q HR w b. revert p q HR. induction w as [|c w IH]; intros p q HR; cbn; [by destruct (H1 p q HR) as (_ & _ & ->)|]. split.
  - intros (d & He & Ho). destruct (H2 p q _ d HR He) as (d' & He' & HR'). exists d'. split; [done|]. by apply (IH d d').
  - intros (d & He & Ho). destruct (H3 p q _ d HR He) as (d' & He' & HR'). exists d'. split; [done|]. by apply (IH d' d).
Qed.
End Equivalent.

(** ** The rounds over the table *)

Lemma same_label_eq t1 t2 : same_label t1 t2 = bool_decide (t_label t1 = t_label t2).
Proof.
  unfold same_label. apply eq_true_iff_eq. rewrite bool_decide_eq_true, Z.eqb_eq, <- nullstrcmp_eq. split; congruence.
Qed.

(** The number of pairs with the same label is that of the labels of the first list that the second has. *)
Definition common (ts1 ts2 : list Transition) : list (Transition * Transition) :=
  filter (fun tt => t_label tt.1 = t_label tt.2) (concat (map (fun t1 => map (fun t2 => (t1, t2)) ts2) ts1)).

Lemma common_one t ts : NoDup (t_label <$> ts) ->
  length (filter (fun tt => t_label tt.1 = t_label tt.2) (map (fun t2 => (t, t2)) ts)) = if decide (t_label t ∈ t_label <$> ts) then 1%nat else 0%nat.
Proof.
  induction ts as [|x ts IH]; cbn [map fmap list_fmap]; intros N; [by rewrite decide_False by (by intros ?%elem_of_nil)|]. apply NoDup_cons in N as [Nx N].
  rewrite filter_cons. cbn [fst snd]. specialize (IH N). destruct (decide (t_label t = t_label x)) as [E|E].
  - cbn [length]. rewrite IH, (decide_True (P := _ ∈ _ :: _)) by (rewrite E; by left). by rewrite decide_False by (by rewrite E).
  - rewrite IH. apply decide_ext. rewrite elem_of_cons. tauto.
Qed.

Lemma common_count ts1 ts2 : NoDup (t_label <$> ts2) -> length (common ts1 ts2) = length (filter (fun lb => lb ∈ t_label <$> ts2) (t_label <$> ts1)).
Proof.
  intros N. unfold common. induction ts1 as [|t ts1 IH]; [done|]. cbn [map concat fmap list_fmap]. rewrite filter_app, length_app, IH, common_one by done.
  rewrite filter_cons. by case_decide.
Qed.

Lemma filter_full {A} (P : A -> Prop) `{!forall x, Decision (P x)} k : length (filter P k) = length k -> forall x, x ∈ k -> P x.
Proof.
  induction k as [|y k IH]; [by intros _ x ?%elem_of_nil|]. rewrite filter_cons. case_decide; cbn [length].
  - intros [= E] x [->|Hx]%elem_of_cons; auto.
  - intros E. pose proof (length_filter P k). lia.
Qed.

Lemma common_full ts1 ts2 : NoDup (t_label <$> ts1) -> NoDup (t_label <$> ts2) ->
  length (common ts1 ts2) = length ts1 /\ length (common ts1 ts2) = length ts2 <-> forall lb, lb ∈ t_label <$> ts1 <-> lb ∈ t_label <$> ts2.
Proof.
  intros N1 N2. rewrite common_count by done. split.
  - intros [E1 E2]. rewrite <- (length_fmap t_label) in E1. pose proof (filter_full _ _ E1) as Hsub. cbn in Hsub.
    rewrite E1 in E2. rewrite <- (length_fmap t_label ts2) in E2.
    assert (t_label <$> ts1 ≡ₚ t_label <$> ts2) as HP.
    { apply submseteq_length_Permutation; [by apply NoDup_submseteq|lia]. }
    intros lb. by rewrite HP.
  - intros H. assert (filter (fun lb => lb ∈ t_label <$> ts2) (t_label <$> ts1) = t_label <$> ts1) as ->.
    { apply filter_all. intros x Hx. by apply H. }
    assert (t_label <$> ts1 ≡ₚ t_label <$> ts2) as HP by (by apply NoDup_Permutation).
    apply Permutation_length in HP. rewrite !length_fmap in HP. by rewrite length_fmap.
Qed.

Section Rounds.
Context (st : store) (l : list Z) (Hdet : deterministic st l) (HN : NoDup l).
#[local] Notation cnt := (cnt l).
#[local] Notation idx := (idx l).
#[local] Notation distinct := (distinct l).
#[local] Existing Instance distinct_dec.

(** Two targets that are marked. *)
Definition differing (table : gset Z) (tt : Transition * Transition) : Prop :=
  t_label tt.1 = t_label tt.2 /\ exists d1 d2, to_state tt.1 = Some d1 /\ to_state tt.2 = Some d2 /\ distinct table d1 d2.

Lemma compare_edges_spec table es num differ : (forall t1 t2, (t1, t2) ∈ es -> exists d1 d2, to_state t1 = Some d1 /\ to_state t2 = Some d2 /\ d1 ∈ l /\ d2 ∈ l) ->
  exists differ', compare_edges l cnt table es num differ = Some (num + Z.of_nat (length (filter (fun tt => t_label tt.1 = t_label tt.2) es)), differ')
    /\ (differ' = true <-> differ = true \/ exists tt, tt ∈ es /\ differing table tt).
Proof.
  revert num differ. induction es as [|[t1 t2] es IH]; intros num differ Hes; cbn [compare_edges].
  { exists differ. split; [cbn; by rewrite Z.add_0_r|]. split; [by left|]. by intros [?|(tt & ?%elem_of_nil & _)]. }
  assert (Hes' : forall t1 t2, (t1, t2) ∈ es -> exists d1 d2, to_state t1 = Some d1 /\ to_state t2 = Some d2 /\ d1 ∈ l /\ d2 ∈ l) by (intros; apply Hes; by right).
  rewrite same_label_eq, filter_cons. cbn [fst snd]. case_bool_decide as E.
  - rewrite decide_True by done. destruct (Hes t1 t2) as (d1 & d2 & E1 & E2 & H1 & H2); [by left|]. rewrite E1, E2.
    destruct (pos_eq l d1 H1) as (-> & _ & _), (pos_eq l d2 H2) as (-> & _ & _).
    assert ((if pos l d1 >? pos l d2 then table_test l cnt table d1 d2 else table_test l cnt table d2 d1) = Some (bool_decide (distinct table d1 d2))) as ->.
    { rewrite !table_test_eq by done. destruct (_ >? _) eqn:Eg; f_equal; apply bool_decide_ext; unfold RegexMerge.distinct; by rewrite Eg. }
    destruct (IH (num + 1) (differ || bool_decide (distinct table d1 d2)) Hes') as (differ' & -> & Hd). exists differ'. cbn [length].
    split; [f_equal; f_equal; lia|]. rewrite Hd, orb_true_iff, bool_decide_eq_true. setoid_rewrite elem_of_cons. split.
    + intros [[?|Hx]|(tt & ? & ?)]; [by left| |right; eauto]. right. exists (t1, t2). split; [by left|]. split; [done|]. by exists d1, d2.
    + intros [?|(tt & [->|?] & Ht)]; [by left; left| |right; by exists tt]. left. right. destruct Ht as (_ & d1' & d2' & X1 & X2 & Hx). cbn in *. congruence.
  - rewrite decide_False by done. destruct (IH num differ Hes') as (differ' & -> & Hd). exists differ'. split; [done|]. rewrite Hd. setoid_rewrite elem_of_cons.
    split; [naive_solver|]. intros [?|(tt & [->|?] & Ht)]; [by left| |right; by exists tt]. by destruct Ht as [? _].
Qed.
Lemma edge_labels p x lb : p ∈ l -> st !! p = Some x -> lb ∈ t_label <$> transitions x <-> exists d, edges st p lb d.
Proof.
  intros Hp Hx. rewrite list_elem_of_fmap. split.
  - intros (t & -> & Ht). destruct (de_target _ _ Hdet p t Hp) as (q & c & -> & _); [by exists x|]. exists q. by exists x.
  - intros (d & x' & Hx' & Ht). assert (x' = x) as -> by congruence. by exists (mk_trans lb (Some d)).
Qed.

(** Two states that a round leaves unmarked. *)
Definition settled (table : gset Z) (p q : Z) : Prop :=
  (forall lb, (exists d, edges st p lb d) <-> exists d, edges st q lb d) /\
  forall lb d1 d2, edges st p lb d1 -> edges st q lb d2 -> ~ distinct table d1 d2.

Definition product (ts1 ts2 : list Transition) : list (Transition * Transition) := concat (map (fun t1 => map (fun t2 => (t1, t2)) ts2) ts1).

Lemma product_elem ts1 ts2 t1 t2 : (t1, t2) ∈ product ts1 ts2 <-> t1 ∈ ts1 /\ t2 ∈ ts2.
Proof.
  unfold product. rewrite list_elem_of_In, in_concat, !list_elem_of_In. split.
  - by intros (k & (t & <- & Ht)%in_map_iff & (t' & [= -> ->] & Ht')%in_map_iff).
  - intros [H1 H2]. eexists. split; [apply in_map_iff; by exists t1|]. apply in_map_iff. by exists t2.
Qed.

Lemma compare_pair table p q x1 x2 : p ∈ l -> q ∈ l -> st !! p = Some x1 -> st !! q = Some x2 -> exists num differ,
  compare_edges l cnt table (product (transitions x1) (transitions x2)) 0 false = Some (num, differ)
  /\ (differ || negb (num =? Z.of_nat (length (transitions x1))) || negb (num =? Z.of_nat (length (transitions x2))) = false <-> settled table p q).
Proof.
  intros Hp Hq H1 H2.
  destruct (compare_edges_spec table (product (transitions x1) (transitions x2)) 0 false) as (differ & -> & Hd).
  { intros t1 t2 [Ht1 Ht2]%product_elem. destruct (de_target _ _ Hdet p t1 Hp) as (d1 & c1 & -> & ?); [by exists x1|].
    destruct (de_target _ _ Hdet q t2 Hq) as (d2 & c2 & -> & ?); [by exists x2|]. by exists d1, d2. }
  eexists _, _. split; [done|]. rewrite !orb_false_iff, !negb_false_iff, !Z.eqb_eq, Z.add_0_l, !Nat2Z.inj_iff, Logic.and_assoc.
  pose proof (common_full _ _ (de_nodup _ _ Hdet p x1 Hp H1) (de_nodup _ _ Hdet q x2 Hq H2)) as Hc. unfold common in Hc. fold (product (transitions x1) (transitions x2)) in Hc.
  rewrite Hc. clear Hc. unfold settled. rewrite Logic.and_comm. f_equiv.
  - by setoid_rewrite (edge_labels p x1 _ Hp H1); setoid_rewrite (edge_labels q x2 _ Hq H2).
  - rewrite <- not_true_iff_false, Hd. split.
    + intros Hn lb d1 d2 (y1 & Hy1 & Ht1) (y2 & Hy2 & Ht2) Hx. apply Hn. right. exists (mk_trans lb (Some d1), mk_trans lb (Some d2)).
      assert (y1 = x1) as -> by congruence. assert (y2 = x2) as -> by congruence. split; [by apply product_elem|]. split; [done|]. by exists d1, d2.
    + intros Hn [?|([[lb1 to1] [lb2 to2]] & [Ht1 Ht2]%product_elem & El & d1 & d2 & E1 & E2 & Hx)]; [done|]. cbn in *. subst.
      apply (Hn lb2 d1 d2); [by exists x1|by exists x2|done].
Qed.

(** Marked pairs can be distinguished. *)
Definition sound (table : gset Z) : Prop := forall p q, p ∈ l -> q ∈ l -> idx p q ∈ table -> ~ equivalent st p q.

Lemma sound_distinct table p q : sound table -> p ∈ l -> q ∈ l -> distinct table p q -> ~ equivalent st p q.
Proof. intros H Hp Hq. unfold RegexMerge.distinct. destruct (_ >? _); intros Hx; [by apply H|]. rewrite (symmetry_iff (equivalent st)). by apply H. Qed.

Lemma sound_add table p q : sound table -> p ∈ l -> q ∈ l -> ~ equivalent st p q -> sound ({[idx p q]} ∪ table).
Proof.
  intros H Hp Hq Hne p' q' Hp' Hq'. rewrite elem_of_union, elem_of_singleton. intros [E|?]; [|by apply H].
  by destruct (idx_inj l p' q' p q) as [-> ->].
Qed.

Lemma unsettled table p q : sound table -> p ∈ l -> q ∈ l -> equivalent st p q -> settled table p q.
Proof.
  intros Hs Hp Hq He. split.
  - intros lb. split; intros [d Hd].
    + destruct (equivalent_edge st l Hdet p q lb d Hp Hq He Hd) as (d' & ? & _). eauto.
    + symmetry in He. destruct (equivalent_edge st l Hdet q p lb d Hq Hp He Hd) as (d' & ? & _). eauto.
  - intros lb d1 d2 E1 E2 Hx. destruct (equivalent_edge st l Hdet p q lb d1 Hp Hq He E1) as (d' & E' & Heq).
    rewrite (det_unique st l Hdet q lb d2 d' Hq E2 E') in Hx.
    apply (sound_distinct table d1 d' Hs) in Hx; [done|by eapply (det_edge st l Hdet p)|by eapply (det_edge st l Hdet q)].
Qed.

Lemma mark_accepting_spec pairs table : (forall p q, (p, q) ∈ pairs -> p ∈ l /\ q ∈ l) -> in_range l table -> sound table -> exists table',
  mark_accepting l cnt st pairs table = Some table' /\ in_range l table' /\ sound table' /\ table ⊆ table'
  /\ forall p q, (p, q) ∈ pairs -> idx p q ∉ table' -> acc st p = acc st q.
Proof.
  revert table. induction pairs as [|[p q] pairs IH]; intros table Hpairs Hr Hs; cbn [mark_accepting].
  { exists table. split_and!; try done. by intros p q ?%elem_of_nil. }
  destruct (Hpairs p q) as [Hp Hq]; [by left|]. destruct (de_dom _ _ Hdet p Hp) as [x1 H1], (de_dom _ _ Hdet q Hq) as [x2 H2]. rewrite H1, H2.
  assert (Ha : acc st p = Some (accepting x1) /\ acc st q = Some (accepting x2)) by (unfold acc; by rewrite H1, H2). destruct Ha as [Ha1 Ha2].
  assert (exists t1, (if xorb (accepting x1) (accepting x2) then table_set l cnt p q table else Some table) = Some t1 /\ in_range l t1 /\ sound t1 /\ table ⊆ t1
    /\ (idx p q ∉ t1 -> acc st p = acc st q)) as (t1 & -> & Hr1 & Hs1 & Hsub & Hd).
  { destruct (xorb _ _) eqn:Ex.
    - rewrite table_set_eq by done. eexists. split; [done|]. split; [by apply in_range_add|]. split; [|set_solver]. apply sound_add; try done.
      intros He%equivalent_acc. rewrite Ha1, Ha2 in He. injection He as He. by rewrite He, xorb_nilpotent in Ex.
    - exists table. split_and!; try done. intros _. rewrite Ha1, Ha2. f_equal. by apply xorb_eq. }
  destruct (IH t1) as (table' & -> & Hr' & Hs' & Hsub' & Hd'); [|done|done|].
  { intros; apply Hpairs; by right. }
  exists table'. split_and!; try done; [set_solver|]. intros p' q' [[= -> ->]|Hin]%elem_of_cons; [|by apply Hd']. intros Hn. apply Hd. set_solver.
Qed.
Lemma find_equal_spec pairs table change : (forall p q, (p, q) ∈ pairs -> p ∈ l /\ q ∈ l) -> in_range l table -> sound table -> exists table' change',
  find_equal l cnt st pairs table change = Some (table', change') /\ in_range l table' /\ sound table' /\ table ⊆ table'
  /\ (change' = true -> change = true \/ (size table < size table')%nat)
  /\ (change' = false -> change = false /\ table' = table /\ forall p q, (p, q) ∈ pairs -> idx p q ∉ table -> settled table p q).
Proof.
  revert table change. induction pairs as [|[p q] pairs IH]; intros table change Hpairs Hr Hs; cbn [find_equal].
  { exists table, change. split_and!; try done; [by left|]. intros ->. split_and!; try done. by intros p q ?%elem_of_nil. }
  destruct (Hpairs p q) as [Hp Hq]; [by left|]. assert (Hpairs' : forall p q, (p, q) ∈ pairs -> p ∈ l /\ q ∈ l) by (intros; apply Hpairs; by right).
  rewrite table_test_eq by done. case_bool_decide as Hm.
  { destruct (IH table change Hpairs' Hr Hs) as (t' & c' & -> & ? & ? & ? & ? & Hf). exists t', c'. split_and!; try done.
    intros Hc. destruct (Hf Hc) as (? & ? & Hset). split_and!; try done. intros p' q' [[= -> ->]|?]%elem_of_cons ?; [done|by apply Hset]. }
  destruct (de_dom _ _ Hdet p Hp) as [x1 H1], (de_dom _ _ Hdet q Hq) as [x2 H2]. rewrite H1, H2.
  destruct (compare_pair table p q x1 x2 Hp Hq H1 H2) as (num & differ & E & Hset). unfold product in E. rewrite E.
  destruct (differ || _ || _).
  - rewrite table_set_eq by done. destruct (IH ({[idx p q]} ∪ table) true Hpairs') as (t' & c' & -> & ? & ? & Hsub & Ht & Hf).
    { by apply in_range_add. }
    { apply sound_add; try done. intros He. assert (true = false) by (apply Hset; by apply unsettled). done. }
    exists t', c'. split_and!; try done; [set_solver| |].
    + intros _. right. apply subset_size. set_solver.
    + intros Hc. by destruct (Hf Hc).
  - destruct (IH table change Hpairs' Hr Hs) as (t' & c' & -> & ? & ? & ? & ? & Hf). exists t', c'. split_and!; try done.
    intros Hc. destruct (Hf Hc) as (? & ? & Hset'). split_and!; try done. intros p' q' [[= -> ->]|?]%elem_of_cons ?; [by apply Hset|by apply Hset'].
Qed.

(** The rounds end, with a table in which all pairs are settled. *)
Lemma find_equal_while_spec fuel table : in_range l table -> sound table -> (length l * length l < fuel + size table)%nat -> exists table',
  find_equal_while fuel l cnt st table = Some table' /\ in_range l table' /\ sound table' /\ table ⊆ table'
  /\ forall p q, (p, q) ∈ lower_pairs l -> idx p q ∉ table' -> settled table' p q.
Proof.
  revert table. induction fuel as [|fuel IH]; intros table Hr Hs Hf; [pose proof (in_range_size l table Hr); lia|]. cbn [find_equal_while].
  destruct (find_equal_spec (lower_pairs l) table false) as (t1 & c1 & -> & Hr1 & Hs1 & Hsub & Ht & Hset); [by apply lower_pairs_in|done|done|].
  destruct c1.
  - destruct (Ht eq_refl) as [?|Hsz]; [done|]. destruct (IH t1 Hr1 Hs1) as (t2 & -> & ? & ? & ? & ?); [lia|]. exists t2. split_and!; try done. set_solver.
  - destruct (Hset eq_refl) as (_ & -> & ?). exists table. by split_and!.
Qed.

(** Exactly the pairs that can be distinguished are marked. *)
Lemma table_spec : exists t1 t2, mark_accepting l cnt st (all_pairs l) ∅ = Some t1 /\ find_equal_while (S (length l * length l)) l cnt st t1 = Some t2
  /\ forall p q, p ∈ l -> q ∈ l -> equivalent st p q <-> ~ distinct t2 p q.
Proof.
  destruct (mark_accepting_spec (all_pairs l) ∅) as (t1 & E1 & Hr1 & Hs1 & _ & Hacc); [by apply all_pairs_elem|by intros i ?%not_elem_of_empty|by intros ? ? ? ? ?%not_elem_of_empty|].
  destruct (find_equal_while_spec (S (length l * length l)) t1 Hr1 Hs1) as (t2 & E2 & Hr2 & Hs2 & Hsub & Hset); [lia|].
  exists t1, t2. split_and!; [done|done|]. intros p q Hp Hq. split; [intros He Hd; by apply (sound_distinct t2 p q) in Hd|]. intros Hd.
  set (R := fun p q => p ∈ l /\ q ∈ l /\ (p = q \/ ~ distinct t2 p q)).
  assert (Hlow : forall p q, p ∈ l -> q ∈ until p l -> ~ distinct t2 p q -> acc st p = acc st q /\ settled t2 p q).
  { intros p' q' Hp' Hq' Hd'. rewrite distinct_lower in Hd' by done. split; [|apply Hset; [by apply lower_pairs_elem|done]].
    apply Hacc; [|set_solver]. apply all_pairs_elem. by destruct (until_in _ _ _ Hq'). }
  assert (HRs : forall p q, R p q -> R q p) by (intros p' q' (? & ? & [?|?]); split_and!; try done; [by left|right; by rewrite distinct_sym]).
  assert (HR : forall p q, R p q -> acc st p = acc st q /\ forall lb d, edges st p lb d -> exists d', edges st q lb d' /\ R d d').
  { intros p' q' (Hp' & Hq' & HR). destruct (decide (p' = q')) as [->|Hpq].
    { split; [done|]. intros lb d He. exists d. split; [done|]. assert (d ∈ l) by (by eapply (det_edge st l Hdet q')). split_and!; try done. by left. }
    destruct HR as [?|Hd']; [done|]. assert (acc st p' = acc st q' /\ settled t2 p' q') as [Ha [Hl Ht]].
    { destruct (Z.lt_total (pos l p') (pos l q')) as [Hlt|[E|Hlt]]; [|by apply pos_inj in E|].
      - destruct (Hlow q' p') as [Ha [Hl Ht]]; [done|by apply until_pos|by rewrite distinct_sym|]. split; [done|]. split; [intros lb; symmetry; apply Hl|].
        intros lb d1 d2 X1 X2. rewrite distinct_sym; [by eapply Ht|by eapply (det_edge st l Hdet p')|by eapply (det_edge st l Hdet q')].
      - apply Hlow; [done|by apply until_pos|done]. }
    split; [done|]. intros lb d He. destruct (proj1 (Hl lb)) as [d' He']; [by exists d|]. exists d'. split; [done|].
    split_and!; [by eapply (det_edge st l Hdet p')|by eapply (det_edge st l Hdet q')|]. right. by eapply Ht. }
  apply (bisimulation st l R); [|intros p' q' lb d HR' He; by apply (proj2 (HR p' q' HR'))| |].
  - intros p' q' HR'. destruct (HR p' q' HR') as [Ha _]. destruct HR' as (? & ? & _). done.
  - intros p' q' lb d HR' He. apply HRs in HR'. destruct (HR _ _ HR') as [_ H]. destruct (H lb d He) as (d' & ? & ?). exists d'. split; [done|by apply HRs].
  - split_and!; try done. by right.
Qed.
End Rounds.

(** ** Merging *)

Lemma redirect_spec s1 s2 before ts : s1 <> s2 ->
  (forall t, t ∈ redirect s1 s2 before ts -> t ∈ before \/ (t ∈ ts /\ to_state t <> Some s2) \/ exists t0, t0 ∈ ts /\ to_state t0 = Some s2 /\ t = mk_trans (t_label t0) (Some s1))
  /\ (forall t, t ∈ before \/ (t ∈ ts /\ to_state t <> Some s2) -> t ∈ redirect s1 s2 before ts)
  /\ forall t, t ∈ ts -> to_state t = Some s2 -> exists t', t' ∈ redirect s1 s2 before ts /\ t_label t' = t_label t.
Proof.
  intros Hne. revert before. induction ts as [|t ts IH]; intros before; cbn [redirect].
  { split_and!; [tauto|by intros t [?|[?%elem_of_nil ?]]|by intros t ?%elem_of_nil]. }
  case_bool_decide as Et; [destruct (existsb _ _) eqn:Ex|].
  - destruct (IH before) as (H1 & H2 & H3). split_and!.
    + intros t' Ht'. setoid_rewrite elem_of_cons. destruct (H1 t' Ht') as [?|[[? ?]|(t0 & ? & ?)]]; [tauto|tauto|]. right. right. exists t0. tauto.
    + intros t'. rewrite elem_of_cons. intros [?|[[-> | ?] ?]]; [|done|]; apply H2; tauto.
    + intros t' [->|Ht']%elem_of_cons Eto; [|by apply H3]. apply existsb_exists in Ex as (u & Hu%list_elem_of_In & [Eu Hl]%andb_true_iff).
      apply bool_decide_eq_true in Eu. rewrite same_label_eq in Hl. apply bool_decide_eq_true in Hl. exists u. split; [|done].
      apply H2. rewrite elem_of_app, elem_of_cons in Hu. destruct Hu as [?|[-> | ?]]; [by left| |]; [congruence|]. right. split; [done|]. congruence.
  - destruct (IH (before ++ [mk_trans (t_label t) (Some s1)])) as (H1 & H2 & H3). split_and!.
    + intros t' Ht'. setoid_rewrite elem_of_cons. destruct (H1 t' Ht') as [Hb|[[? ?]|(t0 & ? & ?)]]; [|tauto|right; right; exists t0; tauto].
      apply elem_of_app in Hb as [?| ->%list_elem_of_singleton]; [by left|]. right. right. exists t. tauto.
    + intros t'. rewrite elem_of_cons. intros [?|[[-> | ?] ?]]; [|done|]; apply H2; rewrite elem_of_app; tauto.
    + intros t' [->|Ht']%elem_of_cons Eto; [|by apply H3]. eexists. split; [apply H2; left; apply elem_of_app; right; by left|done].
  - destruct (IH (before ++ [t])) as (H1 & H2 & H3). split_and!.
    + intros t' Ht'. setoid_rewrite elem_of_cons. destruct (H1 t' Ht') as [Hb|[[? ?]|(t0 & ? & ?)]]; [|tauto|right; right; exists t0; tauto].
      apply elem_of_app in Hb as [?| ->%list_elem_of_singleton]; [by left|]. tauto.
    + intros t'. rewrite elem_of_cons. intros [?|[[-> | ?] ?]]; apply H2; rewrite elem_of_app, list_elem_of_singleton; tauto.
    + intros t' [->|Ht']%elem_of_cons Eto; [done|]. by apply H3.
Qed.

Lemma redirect_all_spec s1 s2 l st : NoDup l -> (forall p, p ∈ l -> is_Some (st !! p)) -> exists st', redirect_all s1 s2 l st = Some st'
  /\ (forall p, p ∈ l -> st' !! p = (fun x => set_transitions (redirect s1 s2 [] (transitions x)) x) <$> st !! p) /\ forall p, p ∉ l -> st' !! p = st !! p.
Proof. by apply update_each. Qed.

(** The transitions of another state are added, those to the state itself left out. *)
Lemma add_transitions_spec s1 ts st x : st !! s1 = Some x -> exists st' x', add_transitions s1 ts st = Some st' /\ replaced st st' s1 x' /\ accepting x' = accepting x
  /\ forall t, (t ∈ transitions x' -> t ∈ transitions x \/ t ∈ ts) /\ (t ∈ transitions x -> t ∈ transitions x').
Proof.
  revert st x. induction ts as [|t ts IH]; intros st x Hx; cbn [add_transitions]; [exists st, x; split_and!; [done|by apply replaced_same|done|tauto]|].
  assert (exists st1 x1, (if bool_decide (to_state t = Some s1) then Some st else state_add_transition (Some s1) (t_label t) (to_state t) st) = Some st1
    /\ replaced st st1 s1 x1 /\ accepting x1 = accepting x /\ forall u, (u ∈ transitions x1 -> u ∈ transitions x \/ u = t) /\ (u ∈ transitions x -> u ∈ transitions x1))
    as (st1 & x1 & -> & R1 & A1 & T1).
  { case_bool_decide; [exists st, x; split_and!; [done|by apply replaced_same|done|tauto]|]. cbn [state_add_transition]. rewrite Hx. destruct (existsb _ _); [exists st, x; split_and!; [done|by apply replaced_same|done|tauto]|].
    eexists _, _. split; [done|]. split; [apply replaced_insert|]. split; [done|]. intros u. cbn [transitions set_transitions]. rewrite insert_sorted_elem.
    destruct t as [lb to]. cbn. naive_solver. }
  destruct (IH st1 x1 (proj1 R1)) as (st2 & x2 & -> & R2 & A2 & T2). exists st2, x2. split_and!; [done|by eapply replaced_trans|congruence|].
  intros u. setoid_rewrite elem_of_cons. specialize (T1 u). specialize (T2 u). naive_solver.
Qed.

Section Merge.
Context (st0 : store) (l0 : list Z) (Hdet : deterministic st0 l0) (s0 : Z).

(** What is kept while states are merged: [p] still has its transitions of the original automaton,
    to states that are equivalent to the original targets. *)
Record merged (st : store) (l : list Z) : Prop := {
  me_sub : forall p, p ∈ l -> p ∈ l0;
  me_nodup : NoDup l;
  me_last : last l = Some s0;
  me_dom : forall p, p ∈ l -> is_Some (st !! p);
  me_acc : forall p, p ∈ l -> acc st p = acc st0 p;
  me_target : forall p t, p ∈ l -> tr st p t -> exists q c d, t = mk_trans (Some [c]) (Some q) /\ q ∈ l /\ edges st0 p (Some [c]) d /\ equivalent st0 q d;
  me_edge : forall p lb d, p ∈ l -> edges st0 p lb d -> exists t, tr st p t /\ t_label t = lb;
}.

Lemma merged_init : NoDup l0 -> last l0 = Some s0 -> merged st0 l0.
Proof.
  intros HN HL. split; try done; [apply Hdet| |].
  - intros p t Hp Ht. destruct (de_target _ _ Hdet p t Hp Ht) as (q & c & -> & Hq). by exists q, c, q.
  - intros p lb d _ He. eexists. split; [exact He|done].
Qed.

Lemma merged_target st l p lb d : merged st l -> p ∈ l -> edges st0 p lb d -> exists q, edges st p lb q /\ q ∈ l /\ equivalent st0 q d.
Proof.
  intros M Hp He. destruct (me_edge _ _ M p lb d Hp He) as (t & Ht & El). destruct (me_target _ _ M p t Hp Ht) as (q & c & d' & -> & Hq & He' & Heq).
  cbn in El. subst lb. exists q. split_and!; [done|done|]. by rewrite (det_unique st0 l0 Hdet p _ d d' (me_sub _ _ M p Hp) He He').
Qed.

Lemma merged_outcome st l p w b : merged st l -> p ∈ l -> outcome st p w b <-> outcome st0 p w b.
Proof.
  intros M. revert p. induction w as [|c w IH]; intros p Hp; cbn; [by rewrite (me_acc _ _ M)|]. split.
  - intros (q & He & Ho). destruct (me_target _ _ M _ _ Hp He) as (q' & c' & d & [= <- <-] & Hq & He' & Heq). exists d. split; [done|]. apply Heq. by apply IH.
  - intros (d & He & Ho). destruct (merged_target st l p _ d M Hp He) as (q & He' & Hq & Heq). exists q. split; [done|]. apply IH; [done|]. by apply Heq.
Qed.

Lemma merged_dfa_ok st l : merged st l -> dfa_ok st (list_to_set l).
Proof.
  intros M. split.
  - split.
    + intros p Hp%elem_of_list_to_set. by apply elem_of_dom, (me_dom _ _ M).
    + intros p t Hp%elem_of_list_to_set Ht. destruct (me_target _ _ M p t Hp Ht) as (q & c & d & -> & Hq & _). exists q. by rewrite elem_of_list_to_set.
  - intros p t Hp%elem_of_list_to_set Ht. destruct (me_target _ _ M p t Hp Ht) as (q & c & d & -> & _). by exists c.
  - intros p lb q q' Hp%elem_of_list_to_set He He' w b.
    destruct (me_target _ _ M _ _ Hp He) as (? & c & d & [= -> <-] & Hq & Hd & Heq), (me_target _ _ M _ _ Hp He') as (? & c' & d' & [= <- <-] & Hq' & Hd' & Heq').
    rewrite (merged_outcome st l q w b M Hq), (merged_outcome st l q' w b M Hq'), (Heq w b), (Heq' w b).
    by rewrite (det_unique st0 l0 Hdet p _ d d' (me_sub _ _ M p Hp) Hd Hd').
Qed.

(** Transitions to [s2] lead to [s1]. *)
Lemma merged_redirect st st1 l s1 s2 : merged st l -> s1 ∈ l -> s2 ∈ l -> s1 <> s2 -> equivalent st0 s1 s2 ->
  (forall p, p ∈ l -> st1 !! p = (fun x => set_transitions (redirect s1 s2 [] (transitions x)) x) <$> st !! p) ->
  merged st1 l /\ forall p t, p ∈ l -> tr st1 p t -> to_state t <> Some s2.
Proof.
  intros M H1 H2 Hne Heq Hl.
  assert (Htr : forall p t, p ∈ l -> tr st1 p t -> (tr st p t /\ to_state t <> Some s2) \/ exists t0, tr st p t0 /\ to_state t0 = Some s2 /\ t = mk_trans (t_label t0) (Some s1)).
  { intros p t Hp (x & Hx & Ht). rewrite Hl in Hx by done. destruct (st !! p) as [y|] eqn:Ey; [|done]. injection Hx as <-. cbn in Ht.
    destruct (redirect_spec s1 s2 [] (transitions y) Hne) as (R & _ & _). destruct (R t Ht) as [?%elem_of_nil|[[? ?]|(t0 & ? & ? & ?)]]; [done| |].
    - left. split; [by exists y|done].
    - right. exists t0. split; [by exists y|done]. }
  split; [split; try apply M|].
  - intros p Hp. rewrite Hl, fmap_is_Some by done. by apply (me_dom _ _ M).
  - intros p Hp. rewrite <- (me_acc _ _ M p Hp). unfold acc. rewrite Hl by done. by destruct (st !! p).
  - intros p t Hp Ht. destruct (Htr p t Hp Ht) as [[Ht' _]|(t0 & Ht0 & E0 & ->)]; [by apply (me_target _ _ M)|].
    destruct (me_target _ _ M p t0 Hp Ht0) as (q & c & d & -> & Hq & He & Heq'). cbn in E0. injection E0 as ->. exists s1, c, d. split_and!; try done. by rewrite Heq.
  - intros p lb d Hp He. destruct (me_edge _ _ M p lb d Hp He) as (t & (y & Hy & Ht) & El).
    destruct (redirect_spec s1 s2 [] (transitions y) Hne) as (_ & R1 & R2). specialize (Hl p Hp). rewrite Hy in Hl. cbn in Hl.
    destruct (decide (to_state t = Some s2)) as [E|E].
    + destruct (R2 t Ht E) as (t' & Ht' & El'). exists t'. split; [|congruence]. eexists. split; [exact Hl|done].
    + exists t. split; [|done]. eexists. split; [exact Hl|]. apply R1. by right.
  - intros p t Hp Ht. destruct (Htr p t Hp Ht) as [[_ ?]|(t0 & _ & _ & ->)]; [done|]. cbn. congruence.
Qed.
(** The number of states is kept up to date. *)
Definition counted (a : Automaton) : Prop := state_count a = u32 (Z.of_nat (length (states a))).

(** An automaton in which some states were merged. *)
Record merged_to (a : Automaton) (st : store) (l : list Z) : Prop := {
  mt_merged : merged st l;
  mt_states : states a = l;
  mt_type : a_type a = DFA;
  mt_start : start a = Some s0;
  mt_count : counted a;
}.

Lemma merge_states_ok a st l s1 s2 : merged_to a st l -> s1 ∈ l -> s2 ∈ l -> s1 <> s2 -> equivalent st0 s1 s2 -> s2 <> s0 ->
  exists a' st', automaton_merge_states s1 s2 a st = Some (a', st') /\ merged_to a' st' (filter (fun p => p <> s2) l).
Proof.
  intros [M <- Ht Hst Hc] H1 H2 Hne Heq H0. unfold automaton_merge_states. rewrite (proj2 (Z.eqb_neq s1 s2)) by done.
  destruct (redirect_all_spec s1 s2 (states a) st) as (st1 & -> & Hl & _); [apply M|apply M|].
  destruct (merged_redirect st st1 (states a) s1 s2 M H1 H2 Hne Heq Hl) as [M1 Hto].
  destruct (me_dom _ _ M1 s2 H2) as [x2 Hx2], (me_dom _ _ M1 s1 H1) as [x1 Hx1]. rewrite Hx2.
  destruct (add_transitions_spec s1 (transitions x2) st1 x1 Hx1) as (st2 & x1' & -> & [R1 R2] & A & T).
  unfold DLL_remove. rewrite bool_decide_eq_true_2 by done. eexists _, _. split; [done|]. set (l' := filter _ _).
  assert (Hin : forall p, p ∈ l' <-> p <> s2 /\ p ∈ states a) by (intros p; unfold l'; by rewrite list_elem_of_filter).
  assert (Hdel : forall p, p ∈ l' -> delete s2 st2 !! p = st2 !! p) by (intros p [Hp _]%Hin; by rewrite lookup_delete_ne).
  assert (Htr : forall p t, p ∈ l' -> tr (delete s2 st2) p t -> tr st1 p t \/ p = s1 /\ tr st1 s2 t).
  { intros p t Hp (x & Hx & Htx). rewrite Hdel in Hx by done. destruct (decide (p = s1)) as [->|Hps].
    - assert (x = x1') as -> by congruence. destruct (proj1 (T t) Htx); [left; by exists x1|right; split; [done|by exists x2]].
    - left. exists x. by rewrite <- R2. }
  assert (Htr' : forall p t, p ∈ l' -> tr st1 p t -> tr (delete s2 st2) p t).
  { intros p t Hp (x & Hx & Htx). destruct (decide (p = s1)) as [->|Hps].
    - exists x1'. rewrite Hdel by done. split; [done|]. apply T. by assert (x = x1) as <- by congruence.
    - exists x. by rewrite Hdel, R2 by done. }
  split; cbn; try done; [split|].
  - intros p [_ Hp]%Hin. by apply (me_sub _ _ M).
  - apply NoDup_filter, M.
  - apply last_filter_keep; [apply M|done].
  - intros p Hp. rewrite Hdel by done. destruct (decide (p = s1)) as [->|Hps]; [by rewrite R1|]. rewrite R2 by done. apply (me_dom _ _ M1). by apply Hin in Hp as [_ ?].
  - intros p Hp. pose proof Hp as [_ Hp']%Hin. rewrite <- (me_acc _ _ M1 p Hp'). unfold acc. rewrite Hdel by done.
    destruct (decide (p = s1)) as [->|Hps]; [rewrite R1, Hx1; cbn; by rewrite A|by rewrite R2].
  - intros p t Hp Htt. pose proof Hp as [_ Hp']%Hin. destruct (Htr p t Hp Htt) as [Ht1|[-> Ht2]].
    + destruct (me_target _ _ M1 p t Hp' Ht1) as (q & c & d & -> & Hq & ?). exists q, c, d. split_and!; try done; [|naive_solver..].
      apply Hin. split; [|done]. specialize (Hto p _ Hp' Ht1). cbn in Hto. congruence.
    + destruct (me_target _ _ M1 s2 t H2 Ht2) as (q & c & d & -> & Hq & He & Heq').
      destruct (equivalent_edge st0 l0 Hdet s2 s1 _ d (me_sub _ _ M _ H2) (me_sub _ _ M _ H1) ltac:(done) He) as (d' & He' & Hd).
      exists q, c, d'. split_and!; [done| |done|by rewrite Heq']. apply Hin. split; [|done]. specialize (Hto s2 _ H2 Ht2). cbn in Hto. congruence.
  - intros p lb d Hp He. pose proof Hp as [_ Hp']%Hin. destruct (me_edge _ _ M1 p lb d Hp' He) as (t & ? & ?). exists t. auto.
  - unfold counted in *. cbn. rewrite Hc. unfold u32. rewrite Zminus_mod_idemp_l. f_equal. pose proof (length_filter_ne s2 (states a) (me_nodup _ _ M) H2). fold l' in H. lia.
Qed.
Context (HN : NoDup l0) (table : gset Z).
Context (Htable : forall p q, p ∈ l0 -> q ∈ l0 -> equivalent st0 p q <-> ~ distinct l0 table p q).
#[local] Existing Instance distinct_dec.

Lemma filter_middle (s : Z) k1 k2 : NoDup (k1 ++ s :: k2) -> filter (fun p => p <> s) (k1 ++ s :: k2) = k1 ++ k2.
Proof.
  intros N. assert (s ∉ k1 ++ k2) as Hs by (rewrite <- Permutation_middle in N; by apply NoDup_cons in N as [? _]).
  rewrite filter_app, filter_cons_False, <- filter_app by tauto. apply filter_all. by intros p Hp ->.
Qed.

Lemma merge_into_ok s1 tail rest kept a st : s1 ∈ l0 -> (forall p, p ∈ rest -> p ∈ until s1 l0) -> merged_to a st (kept ++ rest ++ s1 :: tail) ->
  exists a' st', merge_into l0 (cnt l0) table s1 rest a st = Some (a', st') /\ merged_to a' st' (kept ++ filter (fun p => distinct l0 table s1 p) rest ++ s1 :: tail).
Proof.
  intros H1. revert kept a st. induction rest as [|s2 rest IH]; intros kept a st Hrest M; cbn [merge_into]; [by exists a, st|].
  assert (Hu : s2 ∈ until s1 l0) by (apply Hrest; by left). destruct (until_in _ _ _ Hu) as [H2 Hne].
  assert (Hrest' : forall p, p ∈ rest -> p ∈ until s1 l0) by (intros; apply Hrest; by right).
  rewrite table_test_eq by done. rewrite filter_cons. pose proof (distinct_lower l0 HN table s1 s2 H1 Hu) as Hd. case_bool_decide as Hm.
  - rewrite decide_True by (by apply Hd). destruct (IH (kept ++ [s2]) a st Hrest') as (a' & st' & -> & M').
    { by rewrite <- app_assoc. }
    rewrite <- app_assoc in M'. by exists a', st'.
  - rewrite decide_False by (by rewrite Hd). pose proof (me_nodup _ _ (mt_merged _ _ _ M)) as N. pose proof (me_last _ _ (mt_merged _ _ _ M)) as L.
    destruct (merge_states_ok a st _ s1 s2 M) as (a1 & st1 & -> & M1); [set_solver|set_solver|done|apply Htable; [done|done|by rewrite Hd]| |].
    + intros ->. rewrite app_assoc, last_app_cons in L. apply last_Some_elem_of in L. cbn in N. rewrite <- Permutation_middle in N.
      apply NoDup_cons in N as [N _]. apply N. set_solver.
    + cbn in M1, N. rewrite filter_middle in M1 by done. by apply IH.
Qed.

Lemma until_middle s k1 k2 : s ∉ k1 -> until s (k1 ++ s :: k2) = k1.
Proof.
  induction k1 as [|x k1 IH]; cbn; [by rewrite Z.eqb_refl|]. intros [Hne Hs]%not_elem_of_cons. rewrite (proj2 (Z.eqb_neq x s)) by done. by rewrite IH.
Qed.

(** The states that were visited are not equivalent to each other. *)
Lemma merge_all_ok rest before k a st : l0 = before ++ rest -> (forall p, p ∈ k -> p ∈ before) -> merged_to a st (k ++ rest) ->
  (forall p q, p ∈ k -> q ∈ k -> p <> q -> ~ equivalent st0 p q) ->
  exists a' st' l, merge_all l0 (cnt l0) table rest a st = Some (a', st') /\ merged_to a' st' l /\ forall p q, p ∈ l -> q ∈ l -> p <> q -> ~ equivalent st0 p q.
Proof.
  revert before k a st. induction rest as [|s1 rest IH]; intros before k a st E Hk M Hd; cbn [merge_all].
  { exists a, st, k. rewrite app_nil_r in M. done. }
  assert (N0 : s1 ∉ before) by (rewrite E, <- Permutation_middle in HN; apply NoDup_cons in HN as [? _]; set_solver).
  assert (H1 : s1 ∈ l0) by (rewrite E; set_solver). rewrite (mt_states _ _ _ M), until_middle by (intros ?; by apply N0, Hk).
  destruct (merge_into_ok s1 rest k [] a st H1) as (a1 & st1 & -> & M1).
  { intros p Hp. rewrite E, until_middle by done. by apply Hk. }
  { done. }
  cbn [app] in M1. set (k' := filter _ k) in M1. assert (Hk' : forall p, p ∈ k' <-> distinct l0 table s1 p /\ p ∈ k) by (intros p; unfold k'; by rewrite list_elem_of_filter).
  assert (Hin : forall p, p ∈ k -> p ∈ l0) by (intros p Hp; rewrite E; set_solver).
  apply (IH (before ++ [s1]) (k' ++ [s1])).
  - by rewrite <- app_assoc.
  - intros p [[_ Hp]%Hk'|Hp]%elem_of_app; apply elem_of_app; [left; by apply Hk|by right].
  - by rewrite <- app_assoc.
  - assert (Hs : forall p, p ∈ k' -> ~ equivalent st0 s1 p) by (intros p [? ?]%Hk'; rewrite Htable by auto; tauto).
    intros p q [Hp|Hp%list_elem_of_singleton]%elem_of_app [Hq|Hq%list_elem_of_singleton]%elem_of_app Hne; subst.
    + apply Hk' in Hp as [_ ?], Hq as [_ ?]. by apply Hd.
    + rewrite (symmetry_iff (equivalent st0)). by apply Hs.
    + by apply Hs.
    + done.
Qed.
End Merge.

Lemma merge_ok a st s0 : dfa_wf a st s0 -> exists a' st', dfa_merge_nondistinguishable_states a st = Some (GNUNET_OK, a', st')
  /\ merged_to st (states a) s0 a' st' (states a') /\ forall p q, p ∈ states a' -> q ∈ states a' -> p <> q -> ~ equivalent st p q.
Proof.
  intros Hwf. pose proof Hwf as [Hdet HN Hc Hsm Ht Hst Hl]. unfold dfa_merge_nondistinguishable_states.
  destruct (table_spec st (states a) Hdet HN) as (t1 & t2 & E1 & E2 & Htable). unfold cnt in *.
  assert (0 < length (states a))%nat as Hpos by (apply last_Some in Hl as [k ->]; rewrite length_app; cbn; lia).
  rewrite Hc, (proj2 (Z.eqb_neq 0 _)), E1, E2 by lia.
  destruct (merge_all_ok st (states a) Hdet s0 HN t2 Htable (states a) [] [] a st) as (a' & st' & l & E & M & Hd).
  - done.
  - by intros p ?%elem_of_nil.
  - split; try done; [by apply merged_init|]. unfold counted, u32. rewrite Z.mod_small; lia.
  - by intros p q ?%elem_of_nil.
  - unfold cnt in E. rewrite E. exists a', st'. rewrite (mt_states _ _ _ _ _ _ M). done.
Qed.

(** The minimized automaton accepts the same strings, and its states can be distinguished. *)
Lemma minimize_ok a st s0 w0 : dfa_wf a st s0 -> outcome st s0 w0 true -> exists a' st', dfa_minimize a st = Some (GNUNET_OK, a', st')
  /\ dfa_ok st' (list_to_set (states a')) /\ a_type a' = DFA /\ start a' = Some s0 /\ s0 ∈ states a' /\ counted a'
  /\ (forall w, outcome st' s0 w true <-> outcome st s0 w true)
  /\ forall p q, p ∈ states a' -> q ∈ states a' -> p <> q -> ~ equivalent st' p q.
Proof.
  intros Hwf H0. unfold dfa_minimize. rewrite bool_decide_eq_true_2 by apply Hwf.
  destruct (unreachable_ok a st s0 Hwf) as (a1 & st1 & -> & Hwf1 & Ho1 & _).
  destruct (dead_ok a1 st1 s0 w0 Hwf1) as (a2 & st2 & -> & Hwf2 & Ho2 & _); [by apply Ho1|].
  destruct (merge_ok a2 st2 s0 Hwf2) as (a3 & st3 & -> & [M _ Ht Hst Hc] & Hd). exists a3, st3.
  assert (Hs0 : s0 ∈ states a3) by apply last_Some_elem_of, M.
  pose proof (merged_outcome st2 (states a2) (dw_det _ _ _ Hwf2) s0 st3 (states a3)) as Ho3. split_and!; try done.
  - by apply (merged_dfa_ok st2 (states a2) (dw_det _ _ _ Hwf2) s0).
  - intros w. rewrite Ho3, Ho2, Ho1; done.
  - intros p q Hp Hq Hne He. apply (Hd p q Hp Hq Hne). intros w b. rewrite <- !Ho3 by done. apply He.
Qed.

(** ** The compiler *)

(** Every regular expression matches some string. *)
Lemma matches_some r : exists w, matches r w.
Proof.
  induction r as [c|r1 [u1 H1] r2 [u2 H2]|r1 [u1 H1] r2 _|r _|r [u H]|r _]; eexists; eauto with regex.
Qed.

(** C10. For a regular expression in the syntax the parser makes a nondeterministic automaton, and the
    evaluation of the automaton on any string ends and says exactly whether the expression matches it. *)
Theorem regex_nfa_correct regex r : alternatives regex r -> exists st a,
  REGEX_INTERNAL_construct_nfa regex (length regex) = Some (Some (st, a))
  /\ forall w, exists v, REGEX_INTERNAL_eval a w st = Some v /\ (v = 0 <-> matches r w) /\ (v = 0 \/ v = 1).
Proof.
  intros Hr. destruct (construct_nfa_spec regex r Hr) as (st & a & s & e & E & Ht & Hs & F). exists st, a. split; [done|].
  intros w. unfold REGEX_INTERNAL_eval. rewrite Ht. by eapply evaluate_nfa_spec.
Qed.

(** C9. The deterministic automaton: unless it needs 2^32 states or more before the minimization, the
    construction ends, the evaluation of the result says exactly whether the expression matches a
    string, and no two states of the result are equivalent. *)
Theorem regex_dfa_correct regex r : alternatives regex r ->
  (forall fuel nst nfa D, REGEX_INTERNAL_construct_nfa regex (length regex) = Some (Some (nst, nfa)) ->
     dfa_of_nfa fuel nst nfa = Some D -> Z.of_nat (length (states (dfa D))) < 2 ^ 32) ->
  exists fuel0, forall fuel, (fuel0 <= fuel)%nat -> exists st a,
    REGEX_INTERNAL_construct_dfa fuel regex (length regex) = Some (Some (st, a))
    /\ (forall w, exists v, REGEX_INTERNAL_eval a w st = Some v /\ (v = 0 <-> matches r w) /\ (v = 0 \/ v = 1))
    /\ forall p q, p ∈ states a -> q ∈ states a -> p <> q -> ~ equivalent st p q.
Proof.
  intros Hr Hsmall. destruct (construct_nfa_spec regex r Hr) as (nst & nfa & s & e & E & _ & Hs & F).
  destruct (subset_spec nst nfa s e r Hs F) as (fuel0 & Hsub). exists fuel0. intros fuel Hfuel.
  destruct (Hsub fuel Hfuel) as (X & st & id & d & A & D & E1 & E2 & E3 & E4 & Hdet & HN & Ht & Hc & Hst & Hl & Ho).
  assert (ED : dfa_of_nfa fuel nst nfa = Some D) by (unfold dfa_of_nfa; by rewrite Hs, E1, E2, E3).
  specialize (Hsmall fuel nst nfa D E ED). destruct (matches_some r) as [w0 Hw0].
  destruct (minimize_ok (dfa D) (dst D) d w0) as (a' & st' & EM & Hok & Ht' & Hst' & Hin & _ & Ho' & Hd).
  { split; try done. rewrite Hc. unfold u32. rewrite Z.mod_small; lia. }
  { by apply Ho. }
  exists st', a'. unfold REGEX_INTERNAL_construct_dfa. rewrite E, ED, EM. split_and!; [done| |done].
  intros w. unfold REGEX_INTERNAL_eval. rewrite Ht'.
  destruct (evaluate_dfa_spec st' _ Hok a' d w Ht' Hst') as (v & Ev & Hv & H01); [by apply elem_of_list_to_set|]. exists v. split_and!; [done| |done]. by rewrite Hv, Ho', Ho.
Qed.

Definition regex_ab : str := [97; STAR; 98].

Lemma regex_ab_syntax : alternatives regex_ab (Cat (Star (Chr 97)) (Chr 98)).
Proof. apply l_sequence, (s_app [97; STAR] _ [98]); [apply s_atom, (a_star [97])|]; by constructor. Qed.

Lemma regex_nfa_correct_witness : exists st a, REGEX_INTERNAL_construct_nfa regex_ab 3 = Some (Some (st, a))
  /\ forall w, exists v, REGEX_INTERNAL_eval a w st = Some v /\ (v = 0 <-> matches (Cat (Star (Chr 97)) (Chr 98)) w) /\ (v = 0 \/ v = 1).
Proof. exact (regex_nfa_correct regex_ab _ regex_ab_syntax). Defined.

Lemma regex_dfa_correct_witness : exists fuel0, forall fuel, (fuel0 <= fuel)%nat -> exists st a,
    REGEX_INTERNAL_construct_dfa fuel regex_ab 3 = Some (Some (st, a))
    /\ (forall w, exists v, REGEX_INTERNAL_eval a w st = Some v /\ (v = 0 <-> matches (Cat (Star (Chr 97)) (Chr 98)) w) /\ (v = 0 \/ v = 1))
    /\ forall p q, p ∈ states a -> q ∈ states a -> p <> q -> ~ equivalent st p q.
Proof.
  apply (regex_dfa_correct regex_ab _ regex_ab_syntax). intros fuel nst nfa D E ED.
  assert (H : match REGEX_INTERNAL_construct_nfa regex_ab (length regex_ab) with
              | Some (Some (nst, nfa)) => match dfa_of_nfa fuel nst nfa with Some D => (length (states (dfa D)) <=? 3)%nat = true | None => True end
              | _ => True
              end) by (destruct fuel as [|[|[|fuel]]]; vm_compute; done).
  rewrite E, ED in H. apply Nat.leb_le in H. lia.
Defined.

(** ** Errors *)

Lemma parse_error regex : regex <> [] ->
  parse_chars regex (mk_parser 0 0 [] REGEX_INTERNAL_context_init ∅) = Some None -> REGEX_INTERNAL_construct_nfa regex (length regex) = Some None.
Proof. intros Hne H. unfold REGEX_INTERNAL_construct_nfa. rewrite take_ge, H by done. by destruct regex. Qed.

Lemma parser_start : at_sequence (mk_parser 0 0 [] REGEX_INTERNAL_context_init ∅) None [].
Proof. split; [done|]. split; [constructor|constructor|]. intros s [x Hx]. cbn in Hx. by rewrite lookup_empty in Hx. Qed.

Lemma concatenation_stack q q' : on_stack nfa_add_concatenation q = Some q' ->
  atomcount q' = atomcount q /\ length (stack (p_ctx q)) = S (length (stack (p_ctx q'))) /\ (2 <= length (stack (p_ctx q)))%nat.
Proof.
  unfold on_stack, nfa_add_concatenation. destruct (stack (p_ctx q)) as [|b [|a rest]]; [done|done|].
  destruct (state_add_transition _ _ _ _); [|done]. destruct (state_set_accepting _ _ _); [|done]. destruct (state_set_accepting _ _ _); [|done].
  destruct (nfa_fragment_create _ _); [|done]. intros [= <-]. cbn. split_and!; [done|done|lia].
Qed.

(** Once [--atomcount] wraps around, the automata on the stack do not suffice. *)
Lemma concat_while_wraps fuel p : 1 <= u32 (atomcount p - 1) -> Z.of_nat (length (stack (p_ctx p))) <= u32 (atomcount p - 1) -> concat_while fuel p = None.
Proof.
  revert p. induction fuel as [|fuel IH]; intros p H1 Hs; cbn [concat_while]; set (q := set_counts _ _ _ p);
    assert (Hq : atomcount q = u32 (atomcount p - 1)) by done; (destruct (Z.gtb_spec (atomcount q) 0); [|lia]); [done|].
  assert (Hctx : p_ctx q = p_ctx p) by done. clearbody q. destruct (on_stack _ q) as [q'|] eqn:E; [|done].
  apply concatenation_stack in E as (E1 & E2 & E3). rewrite Hctx in E2, E3.
  assert (u32 (atomcount q' - 1) = atomcount q - 1) as Hu 
    by (pose proof (Z.mod_pos_bound (atomcount p - 1) (2 ^ 32) ltac:(done)) as Hb; fold (u32 (atomcount p - 1)) in Hb; rewrite E1; unfold u32 at 1; rewrite Z.mod_small; lia).
  apply IH; rewrite Hu; lia.
Qed.

(** C27. What is not in the syntax: an expression that starts with an operator, one that is not closed and
    one with a parenthesis too many give an error. But after a bar at the end the counter of atoms wraps
    around and an assertion fails, which ends the process. *)
Theorem regex_errors :
  (forall op s, op = STAR \/ op = PLUS \/ op = QUESTION \/ op = BAR \/ op = RPAREN -> REGEX_INTERNAL_construct_nfa (op :: s) (length (op :: s)) = Some None)
  /\ (forall s r, alternatives s r -> REGEX_INTERNAL_construct_nfa (LPAREN :: s) (length (LPAREN :: s)) = Some None)
  /\ (forall s r s', alternatives s r -> REGEX_INTERNAL_construct_nfa (s ++ RPAREN :: s') (length (s ++ RPAREN :: s')) = Some None)
  /\ (forall s r, sequence s r -> REGEX_INTERNAL_construct_nfa (s ++ [BAR]) (length (s ++ [BAR])) = None)
  /\ REGEX_INTERNAL_construct_nfa [LPAREN; RPAREN] 2 = None.
Proof.
  split_and!.
  - intros op s H. apply parse_error; [done|]. cbn [parse_chars]. by destruct H as [-> |[-> |[-> |[-> | ->]]]].
  - intros s r Hr. unfold REGEX_INTERNAL_construct_nfa. rewrite take_ge by done. cbn [parse_chars].
    set (p0 := mk_parser _ _ _ _ _). change (parse_char LPAREN p0) with (Some (Some (set_counts 0 0 [(0, 0)] p0))). set (p1 := set_counts _ _ _ p0).
    destruct (proj2 (proj2 parse_syntax) s r Hr p1 []) as (p2 & E & Hs & _); [by apply parser_start|]. cbn -[parse_chars]. by rewrite E, Hs.
  - intros s r s' Hr. apply parse_error; [by destruct s|].
    destruct (proj2 (proj2 parse_syntax) s r Hr _ [] parser_start) as (p1 & E & Hs & _). rewrite (parse_chars_app _ _ _ _ E). cbn [parse_chars].
    unfold parse_char. cbn. by rewrite Hs.
  - intros s r Hr. unfold REGEX_INTERNAL_construct_nfa. rewrite take_ge by done.
    destruct (proj1 (proj2 parse_syntax) s r Hr _ [] parser_start) as (p1 & E & [_ Hs] & Ha). rewrite (parse_chars_app _ _ _ _ E). cbn [parse_chars].
    rewrite parse_bar by (by eapply sequence_nonzero). destruct (concat_all_ok p1 r [] Ha) as (p2 & -> & [_ Hs2] & H2 & Hk).
    rewrite bool_decide_eq_false_2 by (by destruct s). rewrite bool_decide_eq_false_2 by (by destruct s). cbn [orb].
    cbn [saved set_counts]. rewrite Hs2, Hs. cbn. unfold concat_all. rewrite concat_while_wraps; [done|cbn; rewrite H2; done|].
    destruct Hk as [HF _ _]. apply Forall2_length in HF. cbn in *. rewrite HF, H2. done.
  - by vm_compute.
Qed.

(** The number of states is too high after a concatenation: four states, but a count of six. *)
Lemma concatenation_count : exists st a, REGEX_INTERNAL_construct_nfa [97; 98] 2 = Some (Some (st, a)) /\ length (states a) = 4%nat /\ state_count a = 6.
Proof. eexists _, _. split; [vm_compute; reflexivity|]. done. Qed.

(** The automaton of [(a|b)*ab] has three states. *)
Example minimized_size : exists st a, REGEX_INTERNAL_construct_dfa 20 [LPAREN; 97; BAR; 98; RPAREN; STAR; 97; 98] 8 = Some (Some (st, a)) /\ state_count a = 3
  /\ length (states a) = 3%nat /\ REGEX_INTERNAL_eval a [98; 97; 97; 98] st = Some 0 /\ REGEX_INTERNAL_eval a [97; 98; 97] st = Some 1.
Proof. eexists _, _. split; [vm_compute; reflexivity|]. by vm_compute. Qed.
