(* ===== verification/Tokenizer.v ===== *)
(** * Message stream tokenizer: [src/util/mst.c], [src/util/server_mst.c]

    Cuts a byte stream into messages. Complete messages that are aligned are
    handed to the callback where they are; others are collected in a private
    buffer that is compacted and grown on demand. The two files hold the same
    program, the second passing an extra argument to the callback.

    A computation is [None] where the C code would fail an assertion, access
    memory outside of a buffer or not end. *)

From S2P Require Import Prelude Message.

(** ** Data *)

(** [mst_hdr] is the private buffer, of [mst_curr_buf] bytes; the bytes from
    [mst_off] to [mst_pos] are valid and not processed yet. *)
Record GNUNET_MessageStreamTokenizer := mk_mst {
  mst_curr_buf : Z;
  mst_off : Z;
  mst_pos : Z;
  mst_hdr : list Z;
}.

Definition GNUNET_SERVER_MIN_BUFFER_SIZE : Z := sizeof_MessageHeader.

(** [GNUNET_malloc] and [GNUNET_new] clear what they allocate. *)
Definition GNUNET_MST_create : GNUNET_MessageStreamTokenizer :=
  mk_mst GNUNET_SERVER_MIN_BUFFER_SIZE 0 0
    (replicate (Z.to_nat GNUNET_SERVER_MIN_BUFFER_SIZE) 0).

(** ** Operations *)

Section Tokenizer.

(** 4 where the machine has unaligned 64-bit access, 8 elsewhere. *)
Variable ALIGN_FACTOR : Z.

(** The bytes [GNUNET_realloc] finds beyond the old contents. *)
Variable fresh : nat -> Z.

(** The state of the callback's closure, and the callback: what it makes of a
    message and its return code. *)
Context {S : Type}.
Variable cb : S -> list Z -> S * Z.

(** [memmove] of the unprocessed bytes to the front of the buffer. *)
Definition compact (m : GNUNET_MessageStreamTokenizer) : option GNUNET_MessageStreamTokenizer :=
  let p := u64 (mst_pos m - mst_off m) in
  assert? mst_off m + p <=? Z.of_nat (length (mst_hdr m)) in
  Some (mk_mst (mst_curr_buf m) 0 p
          (splice 0 (slice (Z.to_nat (mst_off m)) (Z.to_nat p) (mst_hdr m)) (mst_hdr m))).

(** [memcpy] of the first [n] bytes of [data] behind the valid bytes. *)
Definition append (n : Z) (data : list Z) (m : GNUNET_MessageStreamTokenizer)
  : option GNUNET_MessageStreamTokenizer :=
  assert? (mst_pos m + n <=? Z.of_nat (length (mst_hdr m))) && (n <=? Z.of_nat (length data)) in
  Some (mk_mst (mst_curr_buf m) (mst_off m) (u64 (mst_pos m + n))
          (splice (Z.to_nat (mst_pos m)) (take (Z.to_nat n) data) (mst_hdr m))).

(** [GNUNET_realloc] of the buffer to [n] bytes, at least as many as it had. *)
Definition enlarge (n : Z) (m : GNUNET_MessageStreamTokenizer) : GNUNET_MessageStreamTokenizer :=
  let l := length (mst_hdr m) in
  mk_mst n (mst_off m) (mst_pos m)
    (mst_hdr m ++ map fresh (seq l (Z.to_nat n - l))).

(** The variables of [GNUNET_MST_from_buffer] that change: the tokenizer, the
    address and the contents of the rest of [buf], [one_shot], and the closure of
    the callback. *)
Record Run := mk_run {
  r_mst : GNUNET_MessageStreamTokenizer;
  r_buf : Z;
  r_data : list Z;
  r_one_shot : Z;
  r_cls : S;
}.

(** Program points of [GNUNET_MST_from_buffer]: the heads of the two loops, the
    labels [do_align] and [copy], and the return. *)
Inductive Label :=
  | While_pos
  | Do_align
  | While_size
  | Copy (ret : Z)
  | Return (ret : Z).

(** Bytes to copy so that [n] are unprocessed in the private buffer. *)
Definition fill_delta (n : Z) (m : GNUNET_MessageStreamTokenizer) (data : list Z) : Z :=
  Z.min (u64 (n - u64 (mst_pos m - mst_off m))) (Z.of_nat (length data)).

(** [mst->pos - mst->off < n] *)
Definition short_of (n : Z) (m : GNUNET_MessageStreamTokenizer) : bool :=
  u64 (mst_pos m - mst_off m) <? n.

(** Copies what is missing to [n] unprocessed bytes, as far as [buf] has it. *)
Definition fill_to (n : Z) (r : Run) : option Run :=
  let m := r_mst r in
  if short_of n m then
    let delta := fill_delta n m (r_data r) in
    let? m := append delta (r_data r) m in
    Some (mk_run m (r_buf r + delta) (drop (Z.to_nat delta) (r_data r)) (r_one_shot r) (r_cls r))
  else Some r.

(** [off = pos = 0], the buffer is free. *)
Definition reset (m : GNUNET_MessageStreamTokenizer) : GNUNET_MessageStreamTokenizer :=
  mk_mst (mst_curr_buf m) 0 0 (mst_hdr m).

Definition set_mst (m : GNUNET_MessageStreamTokenizer) (r : Run) : Run :=
  mk_run m (r_buf r) (r_data r) (r_one_shot r) (r_cls r).

(** The exit for want of data. *)
Definition need_more (purge : bool) (r : Run) : Label * Run :=
  (Return GNUNET_OK, if purge then set_mst (reset (r_mst r)) r else r).

(** The space for a message of [want] bytes: by moving, then by growing. *)
Definition make_room (want : Z) (m : GNUNET_MessageStreamTokenizer)
  : option GNUNET_MessageStreamTokenizer :=
  let? m :=
    if (u64 (mst_curr_buf m - mst_off m) <? want) && (0 <? mst_off m)
    then compact m else Some m in
  if mst_curr_buf m <? want then
    assert? 0 =? mst_off m in Some (enlarge want m)
  else Some m.

(** The end of the first loop's body: a message of [want] bytes is complete in
    the private buffer. *)
Definition deliver_private (want : Z) (r : Run) : option (Label * Run) :=
  let m := r_mst r in
  if r_one_shot r =? GNUNET_SYSERR then Some (Copy GNUNET_NO, r)
  else
    let one_shot := if r_one_shot r =? GNUNET_YES then GNUNET_SYSERR else r_one_shot r in
    assert? mst_off m + want <=? Z.of_nat (length (mst_hdr m)) in
    let msg := slice (Z.to_nat (mst_off m)) (Z.to_nat want) (mst_hdr m) in
    let m := mk_mst (mst_curr_buf m) (u64 (mst_off m + want)) (mst_pos m) (mst_hdr m) in
    let '(cls, c) := cb (r_cls r) msg in
    let r := mk_run m (r_buf r) (r_data r) one_shot cls in
    if c =? GNUNET_SYSERR then Some (Return GNUNET_SYSERR, r)
    else if mst_off m =? mst_pos m then Some (While_pos, set_mst (reset m) r)
    else Some (While_pos, r).

(** The body of the first loop, from [do_align] on. *)
Definition do_align (purge : bool) (r : Run) : option (Label * Run) :=
  let m := r_mst r in
  assert? mst_off m <=? mst_pos m in
  let? m :=
    if (u64 (mst_curr_buf m - mst_off m) <? sizeof_MessageHeader)
       || negb (0 =? mst_off m mod ALIGN_FACTOR)
    then compact m else Some m in
  let? r := fill_to sizeof_MessageHeader (set_mst m r) in
  if short_of sizeof_MessageHeader (r_mst r) then Some (need_more purge r)
  else
    let m := r_mst r in
    assert? mst_off m + sizeof_MessageHeader <=? Z.of_nat (length (mst_hdr m)) in
    let want := rd16 (Z.to_nat (mst_off m)) (mst_hdr m) in
    if want <? sizeof_MessageHeader then Some (Return GNUNET_SYSERR, r)
    else
      let? m := make_room want m in
      assert? (mst_pos m + (if short_of want m then fill_delta want m (r_data r) else 0)
               <=? mst_curr_buf m) in
      let? r := fill_to want (set_mst m r) in
      if short_of want (r_mst r) then Some (need_more purge r)
      else deliver_private want r.

(** The body of the second loop: messages are taken from [buf] itself as long as
    it is aligned. *)
Definition while_size (r : Run) : option (Label * Run) :=
  let size := Z.of_nat (length (r_data r)) in
  if size <? sizeof_MessageHeader then Some (Copy GNUNET_OK, r)
  else if negb (0 =? u64 (r_buf r) mod ALIGN_FACTOR) then Some (Do_align, r)
  else
    let want := rd16 0 (r_data r) in
    if want <? sizeof_MessageHeader then
      let m := r_mst r in
      Some (Return GNUNET_SYSERR,
            set_mst (mk_mst (mst_curr_buf m) 0 (mst_pos m) (mst_hdr m)) r)
    else if size <? want then Some (Copy GNUNET_OK, r)
    else if r_one_shot r =? GNUNET_SYSERR then Some (Copy GNUNET_NO, r)
    else
      let one_shot := if r_one_shot r =? GNUNET_YES then GNUNET_SYSERR else r_one_shot r in
      let '(cls, c) := cb (r_cls r) (take (Z.to_nat want) (r_data r)) in
      if c =? GNUNET_SYSERR then
        Some (Return GNUNET_SYSERR, mk_run (r_mst r) (r_buf r) (r_data r) one_shot cls)
      else
        Some (While_size,
              mk_run (r_mst r) (r_buf r + want) (drop (Z.to_nat want) (r_data r)) one_shot cls).

(** The code at [copy]: keeps what is left of [buf]. *)
Definition copy_rest (purge : bool) (r : Run) : option Run :=
  let m := r_mst r in
  let size := Z.of_nat (length (r_data r)) in
  let? m :=
    if (0 <? size) && negb purge then
      let m := if mst_curr_buf m <? u64 (size + mst_pos m)
               then enlarge (u64 (size + mst_pos m)) m else m in
      assert? u64 (size + mst_pos m) <=? mst_curr_buf m in
      append size (r_data r) m
    else Some m in
  Some (set_mst (if purge then reset m else m) r).

(** One step from a program point. *)
Definition step (purge : bool) (l : Label) (r : Run) : option (Label * Run) :=
  match l with
  | While_pos =>
      if 0 <? mst_pos (r_mst r) then Some (Do_align, r)
      else assert? 0 =? mst_pos (r_mst r) in Some (While_size, r)
  | Do_align => do_align purge r
  | While_size => if 0 <? Z.of_nat (length (r_data r)) then while_size r else Some (Copy GNUNET_OK, r)
  | Copy ret => let? r := copy_rest purge r in Some (Return ret, r)
  | Return _ => Some (l, r)
  end.

Fixpoint steps (fuel : nat) (purge : bool) (l : Label) (r : Run) : option (Run * Z) :=
  match l, fuel with
  | Return ret, _ => Some (r, ret)
  | _, O => None
  | _, Datatypes.S fuel => let? (l, r) := step purge l r in steps fuel purge l r
  end.

(** [buf] is the address of the data, which decides whether it is aligned.
    Returns the tokenizer, the closure of the callback and the return code. *)
Definition GNUNET_MST_from_buffer (m : GNUNET_MessageStreamTokenizer) (cls : S)
  (buf : Z) (data : list Z) (purge : bool) (one_shot : Z)
  : option (GNUNET_MessageStreamTokenizer * S * Z) :=
  assert? mst_off m <=? mst_pos m in
  assert? mst_pos m <=? mst_curr_buf m in
  let? (r, ret) := steps (Z.to_nat (mst_pos m) + length data + 5) purge While_pos
                     (mk_run m buf data one_shot cls) in
  Some (r_mst r, r_cls r, ret).

(** The outcome of [GNUNET_NETWORK_socket_recv]: bytes (none when the other side
    closed the connection), [EAGAIN] or [EINTR], or another error. *)
Inductive RecvResult :=
  | Received (data : list Z)
  | Recv_again
  | Recv_error.

(** [recv left] is the outcome of a call that asks for [left] bytes; they are
    stored in the private buffer itself. *)
Definition GNUNET_MST_read (m : GNUNET_MessageStreamTokenizer) (cls : S)
  (recv : Z -> RecvResult) (purge : bool) (one_shot : Z)
  : option (GNUNET_MessageStreamTokenizer * S * Z) :=
  let left := u64 (mst_curr_buf m - mst_pos m) in
  match recv left with
  | Recv_again => Some (m, cls, GNUNET_OK)
  | Recv_error => Some (m, cls, GNUNET_SYSERR)
  | Received data =>
      if 0 =? Z.of_nat (length data) then Some (m, cls, GNUNET_SYSERR)
      else
        let? m := append (Z.of_nat (length data)) data m in
        GNUNET_MST_from_buffer m cls 0 [] purge one_shot
  end.

Definition GNUNET_MST_next (m : GNUNET_MessageStreamTokenizer) (cls : S) (one_shot : Z)
  : option (GNUNET_MessageStreamTokenizer * S * Z) :=
  GNUNET_MST_from_buffer m cls 0 [] false one_shot.

End Tokenizer.

(** The older interface, whose callback is told the client as well. *)
Definition GNUNET_SERVER_mst_receive {C S : Type} (ALIGN_FACTOR : Z) (fresh : nat -> Z)
  (cb : S -> C -> list Z -> S * Z) (m : GNUNET_MessageStreamTokenizer) (cls : S)
  (client_identity : C) (buf : Z) (data : list Z) (purge : bool) (one_shot : Z)
  : option (GNUNET_MessageStreamTokenizer * S * Z) :=
  GNUNET_MST_from_buffer ALIGN_FACTOR fresh (fun cls msg => cb cls client_identity msg)
    m cls buf data purge one_shot.

Definition GNUNET_SERVER_mst_create : GNUNET_MessageStreamTokenizer := GNUNET_MST_create.

(** ** Specification *)

(** What the front of a stream is: not a complete message yet, garbage, or a
    message followed by the rest of the stream. *)
Inductive Token :=
  | More
  | Corrupt
  | Message (m rest : list Z).

Definition next_token (s : list Z) : Token :=
  if Z.of_nat (length s) <? sizeof_MessageHeader then More
  else if msg_size s <? sizeof_MessageHeader then Corrupt
  else if Z.of_nat (length s) <? msg_size s then More
  else Message (take (Z.to_nat (msg_size s)) s) (drop (Z.to_nat (msg_size s)) s).

Section Specification.
Context {S : Type} (cb : S -> list Z -> S * Z).

(** Hands the messages at the front of the stream [s] to the callback, one only
    if [one_shot] is [GNUNET_YES] and none if it is [GNUNET_SYSERR]: the closure,
    the return code and the rest of the stream. *)
Fixpoint tokenize_fuel (fuel : nat) (one_shot : Z) (cls : S) (s : list Z) : S * Z * list Z :=
  match fuel, next_token s with
  | O, _ | _, More => (cls, GNUNET_OK, s)
  | _, Corrupt => (cls, GNUNET_SYSERR, s)
  | Datatypes.S fuel, Message m rest =>
      if one_shot =? GNUNET_SYSERR then (cls, GNUNET_NO, s)
      else
        let '(cls, c) := cb cls m in
        if c =? GNUNET_SYSERR then (cls, GNUNET_SYSERR, rest)
        else tokenize_fuel fuel (if one_shot =? GNUNET_YES then GNUNET_SYSERR else one_shot) cls rest
  end.

(** A message has four bytes at least, so that its length bounds the number of
    messages of a stream. *)
Definition tokenize (one_shot : Z) (cls : S) (s : list Z) : S * Z * list Z :=
  tokenize_fuel (length s) one_shot cls s.

(** What is kept of the rest: nothing if the client purges or gives up. *)
Definition keep (purge : bool) (o : S * Z * list Z) : S * Z * list Z :=
  let '(cls, ret, rest) := o in
  (cls, ret, if purge || (ret =? GNUNET_SYSERR) then [] else rest).

End Specification.

Lemma next_token_message s m rest :
  next_token s = Message m rest ->
  s = m ++ rest /\ Z.of_nat (length m) = msg_size s /\ 4 <= Z.of_nat (length m)
  /\ msg_size m = msg_size s.
Proof.
  unfold next_token, sizeof_MessageHeader. split_ifs; [done..|]. intros [= <- <-].
  rewrite take_drop, length_take. split_and!; [done|lia|lia|].
  unfold msg_size at 1, rd16, slice. rewrite !drop_0, take_take, Nat.min_l by lia. done.
Qed.

(** The token at the front of a stream does not change when more bytes arrive,
    unless it was incomplete. *)
Lemma next_token_app s t :
  match next_token s with
  | More => True
  | Corrupt => next_token (s ++ t) = Corrupt
  | Message m rest => next_token (s ++ t) = Message m (rest ++ t)
  end.
Proof.
  unfold next_token, sizeof_MessageHeader.
  destruct (Z.of_nat (length s) <? 4) eqn:E4; [done|]. bool_hyps.
  assert (Hs : msg_size (s ++ t) = msg_size s).
  { unfold msg_size, rd16. rewrite slice_app_l by lia. done. }
  rewrite Hs, length_app.
  replace (Z.of_nat (length s + length t) <? 4) with false by (symmetry; bool_hyps; lia).
  destruct (msg_size s <? 4) eqn:E1; [done|].
  destruct (Z.of_nat (length s) <? msg_size s) eqn:E2; [done|]. bool_hyps.
  replace (Z.of_nat (length s + length t) <? msg_size s) with false
    by (symmetry; bool_hyps; lia).
  rewrite take_app_le, drop_app_le by lia. done.
Qed.

Section SpecificationLemmas.
Context {S : Type} (cb : S -> list Z -> S * Z).

Lemma tokenize_fuel_enough n os cls s :
  (length s <= n)%nat -> tokenize_fuel cb n os cls s = tokenize cb os cls s.
Proof.
  unfold tokenize. remember (length s) as k eqn:Hk. revert n s os cls Hk.
  induction (lt_wf k) as [k _ IH]. intros n s os cls -> Hn.
  destruct (next_token s) as [| |m rest] eqn:E.
  - destruct n, (length s); cbn [tokenize_fuel]; by rewrite ?E.
  - assert (0 < length s)%nat.
    { revert E. unfold next_token, sizeof_MessageHeader. split_ifs; try done; lia. }
    destruct n, (length s); try lia; cbn [tokenize_fuel]; by rewrite ?E.
  - destruct (next_token_message s m rest E) as (Hs & _ & H4 & _).
    assert (Hl : (length rest + 4 <= length s)%nat) by (rewrite Hs, length_app; lia).
    destruct n as [|n]; [lia|]. destruct (length s) as [|l] eqn:El; [lia|].
    cbn [tokenize_fuel]. rewrite E. case_if; [done|].
    destruct (cb cls m) as [cls' c]. case_if; [done|].
    rewrite (IH (length rest) ltac:(lia) n rest), (IH (length rest) ltac:(lia) l rest); done || lia.
Qed.

(** The equation of the specification. *)
Lemma tokenize_eq os cls s :
  tokenize cb os cls s =
  match next_token s with
  | More => (cls, GNUNET_OK, s)
  | Corrupt => (cls, GNUNET_SYSERR, s)
  | Message m rest =>
      if os =? GNUNET_SYSERR then (cls, GNUNET_NO, s)
      else
        let '(cls, c) := cb cls m in
        if c =? GNUNET_SYSERR then (cls, GNUNET_SYSERR, rest)
        else tokenize cb (if os =? GNUNET_YES then GNUNET_SYSERR else os) cls rest
  end.
Proof.
  rewrite <- (tokenize_fuel_enough (Datatypes.S (length s)) os cls s) by lia.
  cbn [tokenize_fuel]. destruct (next_token s) as [| |m rest] eqn:E; [done..|].
  case_if; [done|]. destruct (cb cls m). case_if; [done|].
  apply tokenize_fuel_enough. apply next_token_message in E as (-> & _).
  rewrite length_app. lia.
Qed.

(** What the callback keeps on messages is kept. *)
Lemma tokenize_keeps (P : S -> Prop) n os cls s : bytes_ok s -> (length s <= n)%nat -> P cls ->
  (forall cls m, P cls -> msg_wf m -> (length m <= n)%nat -> P (fst (cb cls m))) ->
  P (fst (fst (tokenize cb os cls s))).
Proof.
  intros Hb Hn Hc Hcb. rewrite <- (tokenize_fuel_enough n) by done.
  assert (Hall : forall k os cls s, bytes_ok s -> (length s <= n)%nat -> P cls -> P (fst (fst (tokenize_fuel cb k os cls s)))).
  2: { by apply Hall. }
  clear os cls s Hb Hn Hc. induction k as [|k IH]; intros os cls s Hb Hn Hc; [done|]. cbn [tokenize_fuel].
  destruct (next_token s) as [| |m rest] eqn:E; [done|done|]. case_if; [done|].
  apply next_token_message in E as (-> & Hl & H4 & Hs). apply Forall_app in Hb as [Hb1 Hb2]. rewrite length_app in Hn.
  assert (Hm : P (fst (cb cls m))) by (apply Hcb; [done|split; [done|lia|unfold sizeof_MessageHeader; lia]|lia]).
  destruct (cb cls m) as [cls' c]. case_if; [done|]. apply IH; [done|lia|done].
Qed.

End SpecificationLemmas.

(** ** Invariant *)

(** The bytes that wait in the private buffer. *)
Definition unread (m : GNUNET_MessageStreamTokenizer) : list Z :=
  slice (Z.to_nat (mst_off m)) (Z.to_nat (mst_pos m - mst_off m)) (mst_hdr m).

Record mst_wf (m : GNUNET_MessageStreamTokenizer) : Prop := {
  mst_order : 0 <= mst_off m <= mst_pos m /\ mst_pos m <= mst_curr_buf m;
  mst_space : sizeof_MessageHeader <= mst_curr_buf m < 2 ^ 63;
  mst_alloc : Z.of_nat (length (mst_hdr m)) = mst_curr_buf m;
  mst_bytes : bytes_ok (unread m);
}.

(** Unfolds the invariant of a tokenizer into facts on its fields. *)
Ltac mst_facts H :=
  let H1 := fresh in let H2 := fresh in let H3 := fresh in let H4 := fresh in
  pose proof (mst_order _ H) as H1; pose proof (mst_space _ H) as H2;
  pose proof (mst_alloc _ H) as H3; pose proof (mst_bytes _ H) as H4;
  unfold sizeof_MessageHeader in *.

Section Buffer.
Implicit Types m : GNUNET_MessageStreamTokenizer.

Lemma length_unread m : mst_wf m -> Z.of_nat (length (unread m)) = mst_pos m - mst_off m.
Proof. intros H. mst_facts H. unfold unread. rewrite length_slice; lia. Qed.

Lemma unread_empty m : mst_wf m -> mst_pos m = mst_off m -> unread m = [].
Proof. intros H E. apply nil_length_inv. pose proof (length_unread m H). lia. Qed.

Lemma pending_size m : mst_wf m -> u64 (mst_pos m - mst_off m) = Z.of_nat (length (unread m)).
Proof. intros H. rewrite length_unread by done. mst_facts H. apply u64_small. words. Qed.

Lemma short_of_spec n m : mst_wf m -> short_of n m = (Z.of_nat (length (unread m)) <? n).
Proof. intros. unfold short_of. by rewrite pending_size. Qed.

Lemma tokenizer_create_wf : mst_wf GNUNET_MST_create.
Proof.
  split; [done..|constructor].
Qed.

Lemma reset_wf m : mst_wf m -> mst_wf (reset m) /\ unread (reset m) = [].
Proof.
  intros H. mst_facts H. assert (unread (reset m) = []) as E by done.
  split; [|done]. split; unfold sizeof_MessageHeader; cbn; try (lia || done). rewrite E. constructor.
Qed.

Lemma compact_spec m :
  mst_wf m -> exists m', compact m = Some m' /\ mst_wf m' /\ unread m' = unread m
    /\ mst_off m' = 0 /\ mst_pos m' = mst_pos m - mst_off m /\ mst_curr_buf m' = mst_curr_buf m.
Proof.
  intros H. pose proof (length_unread m H) as Hl. mst_facts H. unfold compact.
  rewrite pending_size, Hl by done. rewrite (proj2 (Z.leb_le _ _)) by lia.
  eexists. split; [done|]. fold (unread m).
  assert (E : slice 0 (length (unread m)) (splice 0 (unread m) (mst_hdr m)) = unread m).
  { unfold splice. rewrite take_0. cbn [app]. rewrite slice_app_l by lia. by apply slice_all. }
  assert (E' : unread (mk_mst (mst_curr_buf m) 0 (mst_pos m - mst_off m)
                 (splice 0 (unread m) (mst_hdr m))) = unread m).
  { unfold unread at 1. cbn [mst_off mst_pos mst_hdr].
    replace (Z.to_nat (mst_pos m - mst_off m - 0)) with (length (unread m)) by lia. exact E. }
  split_and!; try done. split; cbn [mst_off mst_pos mst_hdr mst_curr_buf]; try (unfold sizeof_MessageHeader; lia).
  - rewrite length_splice; lia.
  - by rewrite E'.
Qed.

Lemma append_spec n data m :
  mst_wf m -> bytes_ok data -> 0 <= n <= Z.of_nat (length data) ->
  mst_pos m + n <= mst_curr_buf m ->
  exists m', append n data m = Some m' /\ mst_wf m'
    /\ unread m' = unread m ++ take (Z.to_nat n) data
    /\ mst_off m' = mst_off m /\ mst_pos m' = mst_pos m + n /\ mst_curr_buf m' = mst_curr_buf m.
Proof.
  intros H Hd Hn Hfit. mst_facts H. unfold append.
  rewrite (proj2 (Z.leb_le _ _)), (proj2 (Z.leb_le n _)) by lia. cbn [andb].
  rewrite u64_small by words. eexists. split; [done|].
  set (m' := mk_mst _ _ _ _).
  assert (Ht : length (take (Z.to_nat n) data) = Z.to_nat n) by (rewrite length_take; lia).
  assert (E : unread m' = unread m ++ take (Z.to_nat n) data).
  { unfold unread, m', slice, splice. cbn [mst_off mst_pos mst_hdr].
    rewrite drop_app_le by (rewrite length_take; lia).
    rewrite <- (take_drop (Z.to_nat (mst_pos m) - Z.to_nat (mst_off m))
                  (drop (Z.to_nat (mst_off m)) (mst_hdr m))).
    rewrite app_assoc, take_app_le.
    2:{ rewrite length_app, length_drop, !length_take. lia. }
    rewrite take_ge by (rewrite length_app, length_drop, !length_take; lia).
    f_equal. rewrite skipn_firstn_comm. rewrite take_app_le by (rewrite length_take, length_drop; lia).
    rewrite take_take. f_equal. lia. }
  split_and!; try done. split; cbn [m' mst_off mst_pos mst_hdr mst_curr_buf]; try (unfold sizeof_MessageHeader; lia).
  - rewrite length_splice; lia.
  - rewrite E. apply Forall_app; split; [done|by apply Forall_take].
Qed.

Lemma enlarge_spec fresh n m :
  mst_wf m -> mst_curr_buf m <= n < 2 ^ 63 ->
  mst_wf (enlarge fresh n m) /\ unread (enlarge fresh n m) = unread m.
Proof.
  intros H Hn. mst_facts H.
  assert (E : unread (enlarge fresh n m) = unread m).
  { unfold unread, enlarge. cbn [mst_off mst_pos mst_hdr]. apply slice_app_l. lia. }
  split; [|done]. split; rewrite ?E; unfold enlarge, sizeof_MessageHeader; cbn; try (lia || done).
  rewrite length_app, length_map, length_seq. lia.
Qed.

End Buffer.

(** ** Refinement *)

Section Refinement.
Context (ALIGN_FACTOR : Z) (fresh : nat -> Z) {S : Type} (cb : S -> list Z -> S * Z).

(** Bounds on the bytes buffered in the worst case and on the size of [buf]. *)
Context (B D : Z) (HB : B < 2 ^ 63).
Implicit Types r : Run (S := S).

(** The part of the stream that is not processed: private buffer, then [buf]. *)
Definition stream r : list Z := unread (r_mst r) ++ r_data r.

Record run_wf r : Prop := {
  run_mst : mst_wf (r_mst r);
  run_data : bytes_ok (r_data r);
  run_fits : mst_pos (r_mst r) + Z.of_nat (length (r_data r)) <= B;
  run_size : Z.of_nat (length (r_data r)) <= D;
}.

(** The state the function leaves behind. *)
Record return_wf (purge : bool) (ret : Z) r : Prop := {
  return_mst : mst_wf (r_mst r);
  return_fits : mst_pos (r_mst r) <= B;
  return_size : Z.of_nat (length (r_data r)) <= D;
  return_purged : ret <> GNUNET_SYSERR -> purge = true -> unread (r_mst r) = [];
  return_space : ret = GNUNET_OK -> r_data r = [] -> mst_pos (r_mst r) < mst_curr_buf (r_mst r);
}.

(** Replacing the tokenizer by one with the same unread bytes. *)
Lemma set_mst_wf m r :
  run_wf r -> mst_wf m -> mst_pos m <= mst_pos (r_mst r) -> run_wf (set_mst m r).
Proof. intros [H1 H2 H3 H4] Hm Hle. split; cbn; [done..|lia|done]. Qed.

Lemma stream_bytes r : run_wf r -> bytes_ok (stream r).
Proof. intros [H1 H2 H3 _]. apply Forall_app; split; [apply H1|done]. Qed.

Lemma fill_to_spec n r :
  run_wf r -> 0 <= n -> mst_off (r_mst r) + n <= mst_curr_buf (r_mst r) ->
  exists r', fill_to n r = Some r' /\ run_wf r' /\ stream r' = stream r
    /\ mst_off (r_mst r') = mst_off (r_mst r)
    /\ mst_curr_buf (r_mst r') = mst_curr_buf (r_mst r)
    /\ (r_one_shot r', r_cls r') = (r_one_shot r, r_cls r)
    /\ (short_of n (r_mst r') = true -> r_data r' = []).
Proof.
  intros [Hm Hd Hf Hz] Hn Hroom. unfold fill_to. destruct (short_of n (r_mst r)) eqn:Es.
  2:{ exists r. split_and!; try done. by rewrite Es. }
  rewrite short_of_spec in Es by done. pose proof (length_unread _ Hm) as Hl. bool_hyps.
  pose proof Hm as Hm'. mst_facts Hm'. unfold fill_delta. rewrite pending_size by done.
  rewrite (u64_small (n - _)) by words.
  set (delta := Z.min _ _).
  assert (Hdelta : 0 <= delta <= Z.of_nat (length (r_data r))
                   /\ mst_pos (r_mst r) + delta <= mst_curr_buf (r_mst r)) by (unfold delta; lia).
  destruct (append_spec delta (r_data r) (r_mst r)) as (m & -> & Hwf & Hu & Ho & Hp & Hc);
    [done|done|lia|lia|].
  eexists. split; [done|]. cbn. unfold stream; cbn.
  rewrite Hu, <- app_assoc, take_drop, Ho, Hc. split_and!; try done.
  - split; cbn; [done|by apply Forall_drop|rewrite length_drop; lia..].
  - rewrite short_of_spec, Hu, length_app, length_take by done. bool_hyps. intros.
    apply nil_length_inv. rewrite length_drop. unfold delta in *. lia.
Qed.

(** The same outcome, on the stream that is left, from every program point. *)
Definition outcome (purge : bool) (l : Label) r : S * Z * list Z :=
  keep purge
    match l with
    | While_pos | Do_align | While_size => tokenize cb (r_one_shot r) (r_cls r) (stream r)
    | Copy ret => (r_cls r, ret, stream r)
    | Return ret => (r_cls r, ret, unread (r_mst r))
    end.

(** What holds at a program point. *)
Definition label_wf (purge : bool) (l : Label) r : Prop :=
  match l with
  | While_pos | Do_align => run_wf r
  | While_size => run_wf r /\ mst_pos (r_mst r) = 0
  | Copy ret => run_wf r /\ (ret = GNUNET_OK /\ mst_pos (r_mst r) = 0 \/ ret = GNUNET_NO)
  | Return ret => return_wf purge ret r
  end.

Definition rank (l : Label) : nat :=
  match l with While_pos => 5 | While_size => 4 | Do_align => 3 | Copy _ => 2 | Return _ => 1 end.

(** Decreases with every step. *)
Definition measure (l : Label) r : nat :=
  match l with Return _ => 0 | _ => length (stream r) + rank l end.

(** A good step from [l] and [r]. *)
Definition refines_step (purge : bool) (l : Label) r (o : option (Label * Run)) : Prop :=
  exists l' r', o = Some (l', r') /\ label_wf purge l' r'
    /\ (measure l' r' < measure l r)%nat /\ outcome purge l' r' = outcome purge l r.

Lemma next_token_more s :
  Z.of_nat (length s) < sizeof_MessageHeader \/ sizeof_MessageHeader <= msg_size s
    /\ Z.of_nat (length s) < msg_size s -> next_token s = More.
Proof. unfold next_token. intros. split_ifs; try done; lia. Qed.

(** Giving up needs no care for the rest of the buffer. *)
Lemma return_syserr purge r : run_wf r -> return_wf purge GNUNET_SYSERR r.
Proof. intros [H1 H2 H3 H4]. split; try done. lia. Qed.

(** The exits for want of data. *)
Lemma need_more_refines purge l r r0 :
  run_wf r -> r_data r = [] -> mst_pos (r_mst r) < mst_curr_buf (r_mst r) ->
  stream r = stream r0 -> next_token (stream r0) = More ->
  (r_one_shot r, r_cls r) = (r_one_shot r0, r_cls r0) ->
  l = While_pos \/ l = Do_align \/ l = While_size ->
  refines_step purge l r0 (Some (need_more purge r)).
Proof.
  intros Hr Hd Hsp Hs Ht [= Hos Hcls] Hl. unfold refines_step, need_more. do 2 eexists. split; [done|].
  destruct (reset_wf _ (run_mst _ Hr)) as [Hw Hu].
  assert (Ho : outcome purge l r0 = keep purge (r_cls r0, GNUNET_OK, stream r0)).
  { destruct Hl as [->|[->| ->]]; unfold outcome; by rewrite tokenize_eq, Ht. }
  rewrite Ho. split_and!.
  - pose proof Hr as [Hm _ Hf Hz]. pose proof Hm as Hm'. mst_facts Hm'.
    split; destruct purge; cbn; done || lia.
  - destruct Hl as [->|[->| ->]]; cbn; lia.
  - unfold outcome. rewrite <- Hs, <- Hcls. unfold stream. rewrite Hd, app_nil_r.
    destruct purge; cbn; done.
Qed.

Lemma make_room_spec want m :
  mst_wf m -> 4 <= want < 2 ^ 16 ->
  exists m', make_room fresh want m = Some m' /\ mst_wf m' /\ unread m' = unread m
    /\ mst_pos m' <= mst_pos m /\ mst_off m' + want <= mst_curr_buf m'.
Proof.
  intros H Hw. unfold make_room. pose proof H as H'. mst_facts H'.
  rewrite (u64_small (mst_curr_buf m - _)) by words.
  assert (exists m1, (if (mst_curr_buf m - mst_off m <? want) && (0 <? mst_off m)
                      then compact m else Some m) = Some m1
            /\ mst_wf m1 /\ unread m1 = unread m /\ mst_pos m1 <= mst_pos m
            /\ mst_curr_buf m1 = mst_curr_buf m
            /\ (mst_off m1 = 0 \/ mst_off m1 + want <= mst_curr_buf m1))
    as (m1 & -> & Hw1 & Hu1 & Hp1 & Hc1 & Hoff).
  { case_if; bool_hyps.
    - destruct (compact_spec m H) as (m1 & -> & ? & ? & ? & ? & ?). exists m1.
      split_and!; try done; lia.
    - exists m. split_and!; try done. lia. }
  pose proof Hw1 as Hw1'. mst_facts Hw1'. case_if; bool_hyps.
  - assert (mst_off m1 = 0) as -> by lia. rewrite Z.eqb_refl.
    destruct (enlarge_spec fresh want m1) as [He Hu]; [done|lia|].
    eexists. split_and!; [done|done|congruence|cbn; lia|cbn; lia].
  - exists m1. split_and!; try done. lia.
Qed.

(** Where a complete message has been found. *)
Definition at_message (l : Label) r (msg rest : list Z) : Prop :=
  (l = Do_align \/ l = While_size) /\ next_token (stream r) = Message msg rest.

Lemma outcome_at_message purge l r msg rest :
  at_message l r msg rest ->
  outcome purge l r = keep purge (
    if r_one_shot r =? GNUNET_SYSERR then (r_cls r, GNUNET_NO, stream r)
    else let '(cls, c) := cb (r_cls r) msg in
      if c =? GNUNET_SYSERR then (cls, GNUNET_SYSERR, rest)
      else tokenize cb (if r_one_shot r =? GNUNET_YES then GNUNET_SYSERR else r_one_shot r) cls rest).
Proof.
  intros [Hl Ht]. destruct Hl as [-> | ->]; unfold outcome; rewrite tokenize_eq, Ht;
    destruct (_ =? _); [done| |done|]; by destruct (cb _ _).
Qed.

(** No further message may be delivered. *)
Lemma one_shot_refines purge l r r0 msg rest :
  at_message l r0 msg rest -> run_wf r -> stream r = stream r0 ->
  (r_one_shot r, r_cls r) = (r_one_shot r0, r_cls r0) -> r_one_shot r = GNUNET_SYSERR ->
  refines_step purge l r0 (Some (Copy GNUNET_NO, r)).
Proof.
  intros Hat Hr Hs [= Hos Hcls] Es. do 2 eexists. split; [done|].
  split_and!; [split; [done|by right]| |].
  - unfold measure. rewrite Hs. destruct Hat as [[-> | ->] _]; cbn; lia.
  - rewrite (outcome_at_message _ _ _ _ _ Hat), <- Hos, Es. unfold outcome. by rewrite Hcls, Hs.
Qed.

(** A message has been delivered: [l'] and [r'] are where the code goes on. *)
Lemma delivered_refines purge l r0 msg rest l' r' c :
  at_message l r0 msg rest -> r_one_shot r0 <> GNUNET_SYSERR ->
  cb (r_cls r0) msg = (r_cls r', c) -> run_wf r' ->
  (length (stream r') <= length (stream r0))%nat ->
  (if c =? GNUNET_SYSERR then l' = Return GNUNET_SYSERR
   else (l' = While_pos \/ l' = While_size /\ mst_pos (r_mst r') = 0) /\ stream r' = rest
     /\ r_one_shot r' = if r_one_shot r0 =? GNUNET_YES then GNUNET_SYSERR else r_one_shot r0) ->
  refines_step purge l r0 (Some (l', r')).
Proof.
  intros Hat Hos Hcb Hr Hlen Hgo. do 2 eexists. split; [done|].
  rewrite (outcome_at_message _ _ _ _ _ Hat), (proj2 (Z.eqb_neq _ _) Hos), Hcb.
  destruct (c =? GNUNET_SYSERR).
  - subst l'. split_and!; [by apply return_syserr|destruct Hat as [[-> | ->] _]; cbn; lia|].
    unfold outcome, keep. by rewrite !orb_true_r.
  - destruct Hgo as (Hl & Hrest & Hone). destruct Hat as [Hl0 Ht].
    apply next_token_message in Ht as (E & _ & H4 & _).
    split_and!.
    + by destruct Hl as [-> | [-> ?]].
    + assert (length rest + 4 <= length (stream r0))%nat by (rewrite E, length_app; lia).
      destruct Hl0 as [-> | ->], Hl as [-> | [-> ?]]; cbn; rewrite Hrest; lia.
    + unfold outcome. rewrite Hone, Hrest. by destruct Hl as [-> | [-> ?]].
Qed.

(** The bytes of the message taken from the private buffer. *)
Lemma advance_spec want m :
  mst_wf m -> 0 <= want <= Z.of_nat (length (unread m)) ->
  let m' := mk_mst (mst_curr_buf m) (mst_off m + want) (mst_pos m) (mst_hdr m) in
  slice (Z.to_nat (mst_off m)) (Z.to_nat want) (mst_hdr m) = take (Z.to_nat want) (unread m)
  /\ unread m' = drop (Z.to_nat want) (unread m) /\ mst_wf m'.
Proof.
  intros H Hw m'. rewrite length_unread in Hw by done. pose proof H as H'. mst_facts H'.
  assert (Hu : unread m' = drop (Z.to_nat want) (unread m)).
  { unfold unread, m', slice. cbn [mst_off mst_pos mst_hdr].
    rewrite skipn_firstn_comm, drop_drop. f_equal; [lia|]. f_equal. lia. }
  split_and!; [|done|].
  - unfold unread, slice. rewrite take_take. f_equal. lia.
  - split; rewrite ?Hu; unfold m', sizeof_MessageHeader; cbn; try lia.
    by apply Forall_drop.
Qed.

(** A complete message in the private buffer. *)
Lemma deliver_private_refines purge r r0 :
  run_wf r -> stream r = stream r0 ->
  (r_one_shot r, r_cls r) = (r_one_shot r0, r_cls r0) ->
  let want := msg_size (stream r0) in
  4 <= want <= Z.of_nat (length (unread (r_mst r))) ->
  refines_step purge Do_align r0 (deliver_private cb want r).
Proof.
  intros Hr Hs Heq want Hw. pose proof Heq as [= Hos Hcls].
  pose proof (run_mst _ Hr) as Hm. pose proof (length_unread _ Hm) as Hl. pose proof Hm as Hm'.
  mst_facts Hm'.
  assert (Hat : at_message Do_align r0 (take (Z.to_nat want) (unread (r_mst r)))
                 (drop (Z.to_nat want) (unread (r_mst r)) ++ r_data r)).
  { split; [by left|]. unfold next_token, sizeof_MessageHeader. fold want.
    rewrite <- Hs. unfold stream. rewrite length_app, take_app_le, drop_app_le by lia.
    split_ifs; try done; lia. }
  unfold deliver_private. destruct (r_one_shot r =? GNUNET_SYSERR) eqn:Eos; bool_hyps.
  { by eapply one_shot_refines. }
  rewrite (proj2 (Z.leb_le _ _)), u64_small by (words || lia). cbn [mst_off mst_pos].
  destruct (advance_spec want _ Hm) as (-> & Hu & Hmw); [lia|].
  set (m := mk_mst _ _ _ _) in *. destruct (cb (r_cls r) _) as [cls c] eqn:Ecb.
  assert (Hlen : (length (unread m ++ r_data r) <= length (stream r0))%nat).
  { rewrite <- Hs, Hu. unfold stream. rewrite !length_app, length_drop. lia. }
  assert (Hrw : forall m' os, mst_wf m' -> mst_pos m' <= mst_pos (r_mst r) ->
            run_wf (mk_run m' (r_buf r) (r_data r) os cls)).
  { intros m' ? ? ?. destruct Hr. split; cbn; [done..|lia|done]. }
  rewrite Hos, Hcls in *.
  destruct (c =? GNUNET_SYSERR) eqn:Ec; [|destruct (mst_off _ + want =? _) eqn:Ee];
    (eapply delivered_refines; [exact Hat|done|exact Ecb| | |rewrite Ec]).
  1,4,7: unfold set_mst; apply Hrw; cbn; [by apply reset_wf || done|lia].
  - done.
  - done.
  - unfold stream at 1; cbn [set_mst r_mst r_data]. change (unread (reset m)) with (@nil Z).
    rewrite length_app in Hlen. cbn [app]. lia.
  - assert (unread m = []) by (apply Z.eqb_eq in Ee; apply unread_empty; [done|cbn; lia]).
    split_and!; [by left| |done]. unfold stream; cbn. change (unread (reset m)) with (@nil Z).
    rewrite <- Hu. congruence.
  - done.
  - split_and!; [by left| |done]. unfold stream; cbn. by rewrite Hu.
Qed.

Lemma rd16_unread m :
  mst_wf m -> 4 <= Z.of_nat (length (unread m)) ->
  rd16 (Z.to_nat (mst_off m)) (mst_hdr m) = rd16 0 (unread m).
Proof.
  intros H Hl. rewrite length_unread in Hl by done. unfold rd16, unread, slice.
  rewrite drop_0, take_take, Nat.min_l by lia. done.
Qed.

Lemma rd16_stream r : 4 <= Z.of_nat (length (unread (r_mst r))) ->
  rd16 0 (unread (r_mst r)) = msg_size (stream r).
Proof. intros. unfold msg_size, rd16, stream. rewrite slice_app_l by lia. done. Qed.

(** The first alignment and the collection of a header. *)
Lemma collect_header r :
  run_wf r ->
  exists r', (let m := r_mst r in
      let? m := if (u64 (mst_curr_buf m - mst_off m) <? sizeof_MessageHeader)
                   || negb (0 =? mst_off m mod ALIGN_FACTOR) then compact m else Some m in
      fill_to sizeof_MessageHeader (set_mst m r)) = Some r'
    /\ run_wf r' /\ stream r' = stream r
    /\ (r_one_shot r', r_cls r') = (r_one_shot r, r_cls r)
    /\ mst_off (r_mst r') + 4 <= mst_curr_buf (r_mst r')
    /\ (short_of sizeof_MessageHeader (r_mst r') = true -> r_data r' = []).
Proof.
  intros Hr. pose proof (run_mst _ Hr) as Hm. pose proof Hm as Hm'. mst_facts Hm'. cbn zeta.
  rewrite u64_small by words.
  assert (exists m, (if (mst_curr_buf (r_mst r) - mst_off (r_mst r) <? 4)
                        || negb (0 =? mst_off (r_mst r) mod ALIGN_FACTOR)
                     then compact (r_mst r) else Some (r_mst r)) = Some m
            /\ mst_wf m /\ unread m = unread (r_mst r) /\ mst_pos m <= mst_pos (r_mst r)
            /\ mst_off m + 4 <= mst_curr_buf m) as (m & -> & Hw & Hu & Hp & Hroom).
  { case_if; bool_hyps.
    - destruct (compact_spec _ Hm) as (m & -> & ? & ? & ? & ? & ?). exists m.
      split_and!; try done; lia.
    - eexists. split_and!; try done. lia. }
  destruct (fill_to_spec 4 (set_mst m r)) as (r' & -> & Hr' & Hs' & Ho' & Hc' & Heq & Hsh);
    [by apply set_mst_wf|lia|done|].
  exists r'. split_and!; try done; [|by rewrite Ho', Hc']. rewrite Hs'. unfold stream; cbn. by rewrite Hu.
Qed.

Lemma do_align_refines purge r :
  run_wf r -> refines_step purge Do_align r (do_align ALIGN_FACTOR fresh cb purge r).
Proof.
  intros Hr. pose proof (run_mst _ Hr) as Hm. pose proof Hm as Hm'. mst_facts Hm'.
  unfold do_align. rewrite (proj2 (Z.leb_le _ _)) by lia.
  destruct (collect_header r Hr) as (r1 & E1 & Hr1 & Hs1 & Heq1 & Hsp1 & Hsh1).
  cbn zeta in E1 |- *. destruct (if _ || _ then _ else _) as [m0|]; [|done]. rewrite E1.
  pose proof (run_mst _ Hr1) as Hm1. pose proof Hm1 as Hm1'. mst_facts Hm1'.
  pose proof (length_unread _ Hm1) as Hl1.
  destruct (short_of 4 (r_mst r1)) eqn:Es1.
  { specialize (Hsh1 eq_refl). rewrite short_of_spec in Es1 by done. bool_hyps.
    apply need_more_refines; auto; [lia|]. apply next_token_more. left.
    rewrite <- Hs1. unfold stream. rewrite Hsh1, app_nil_r. done. }
  rewrite short_of_spec in Es1 by done. bool_hyps. rewrite (proj2 (Z.leb_le _ _)) by lia.
  rewrite rd16_unread, rd16_stream, Hs1 by done. set (want := msg_size (stream r)).
  assert (Hw16 : 0 <= want < 2 ^ 16) by (apply rd16_range, stream_bytes; done).
  destruct (want <? 4) eqn:Ew; bool_hyps.
  { do 2 eexists. split; [done|]. split_and!; [by apply return_syserr|cbn; lia|].
    - unfold outcome. rewrite tokenize_eq. unfold next_token, sizeof_MessageHeader. fold want.
      rewrite (proj2 (Z.ltb_lt want 4)), (proj2 (Z.ltb_ge _ _)) by
        (done || (rewrite <- Hs1; unfold stream; rewrite length_app; lia)).
      unfold keep. rewrite !orb_true_r. by injection Heq1 as _ ->. }
  destruct (make_room_spec want _ Hm1) as (m2 & -> & Hw2 & Hu2 & Hp2 & Hroom); [lia|].
  pose proof (length_unread _ Hw2) as Hl2. pose proof Hw2 as Hw2'. mst_facts Hw2'.
  rewrite (proj2 (Z.leb_le _ _)).
  2:{ unfold fill_delta. rewrite short_of_spec, pending_size by done.
      case_if; bool_hyps; [rewrite u64_small by words|]; lia. }
  destruct (fill_to_spec want (set_mst m2 r1)) as (r3 & -> & Hr3 & Hs3 & Ho3 & Hc3 & Heq3 & Hsh3);
    [by apply set_mst_wf|lia|done|].
  assert (Hs : stream r3 = stream r).
  { rewrite Hs3, <- Hs1. unfold stream; cbn. by rewrite Hu2. }
  cbn in Heq3. rewrite Heq1 in Heq3. pose proof (run_mst _ Hr3) as Hm3.
  destruct (short_of want (r_mst r3)) eqn:Es3; rewrite short_of_spec in Es3 by done; bool_hyps.
  - pose proof (length_unread _ Hm3). cbn in Ho3, Hc3.
    apply need_more_refines; auto; [lia|]. apply next_token_more. right. split; [done|]. fold want.
    rewrite <- Hs. unfold stream. rewrite (Hsh3 eq_refl), app_nil_r. done.
  - by apply deliver_private_refines.
Qed.

Lemma while_size_refines purge r :
  run_wf r -> mst_pos (r_mst r) = 0 ->
  refines_step purge While_size r (while_size ALIGN_FACTOR cb r).
Proof.
  intros Hr Hp. pose proof (run_mst _ Hr) as Hm. pose proof Hm as Hm'. mst_facts Hm'.
  assert (Hu : unread (r_mst r) = []) by (apply unread_empty; [done|lia]).
  assert (Hs : stream r = r_data r) by (unfold stream; by rewrite Hu).
  assert (Hmore : next_token (r_data r) = More ->
            refines_step purge While_size r (Some (Copy GNUNET_OK, r))).
  { intros Ht. do 2 eexists. split; [done|].
    split_and!; [split; [done|left; done]|unfold measure; cbn; lia|].
    unfold outcome. by rewrite tokenize_eq, Hs, Ht. }
  unfold while_size. case_if; bool_hyps.
  { apply Hmore, next_token_more. left. done. }
  case_if.
  { do 2 eexists. split; [done|]. split_and!; [done|unfold measure; cbn; lia|done]. }
  change (rd16 0 (r_data r)) with (msg_size (r_data r)). case_if; bool_hyps.
  { do 2 eexists. split; [done|]. split_and!.
    - apply return_syserr. unfold set_mst.
      replace (mk_mst _ _ _ _) with (r_mst r); [by destruct r|]. destruct (r_mst r); cbn in *. f_equal; lia.
    - cbn. lia.
    - unfold outcome. rewrite tokenize_eq, Hs. unfold next_token.
      rewrite (proj2 (Z.ltb_lt (msg_size _) _)), (proj2 (Z.ltb_ge _ _)) by done.
      unfold keep. by rewrite !orb_true_r. }
  case_if; bool_hyps; [apply Hmore, next_token_more; by right|].
  assert (Hat : at_message While_size r (take (Z.to_nat (msg_size (r_data r))) (r_data r))
                 (drop (Z.to_nat (msg_size (r_data r))) (r_data r))).
  { split; [by right|]. rewrite Hs. unfold next_token, sizeof_MessageHeader in *.
    split_ifs; try done; lia. }
  case_if; bool_hyps; [by eapply one_shot_refines|].
  destruct (cb _ _) as [cls c] eqn:Ecb.
  assert (Hlen : (length (drop (Z.to_nat (msg_size (r_data r))) (r_data r)) <= length (r_data r))%nat)
    by (rewrite length_drop; lia).
  destruct (c =? GNUNET_SYSERR) eqn:Ec;
    (eapply delivered_refines; [exact Hat|done|exact Ecb| | |rewrite Ec]); try done.
  - destruct Hr. by split.
  - destruct Hr. split; cbn; [done|by apply Forall_drop|lia..].
  - rewrite Hs. unfold stream; cbn. by rewrite Hu.
  - split_and!; [by right|unfold stream; cbn; by rewrite Hu|done].
Qed.

Lemma copy_refines purge ret r :
  run_wf r -> ret = GNUNET_OK /\ mst_pos (r_mst r) = 0 \/ ret = GNUNET_NO ->
  refines_step purge (Copy ret) r (step ALIGN_FACTOR fresh cb purge (Copy ret) r).
Proof.
  intros Hr Hret. pose proof Hr as [Hm Hd Hf Hz]. pose proof Hm as Hm'. mst_facts Hm'.
  assert (exists m, (if (0 <? Z.of_nat (length (r_data r))) && negb purge then
      let m := if mst_curr_buf (r_mst r) <? u64 (Z.of_nat (length (r_data r)) + mst_pos (r_mst r))
               then enlarge fresh (u64 (Z.of_nat (length (r_data r)) + mst_pos (r_mst r))) (r_mst r)
               else r_mst r in
      assert? u64 (Z.of_nat (length (r_data r)) + mst_pos m) <=? mst_curr_buf m in
      append (Z.of_nat (length (r_data r))) (r_data r) m
    else Some (r_mst r)) = Some m /\ mst_wf m /\ (purge = false -> unread m = stream r)
      /\ mst_pos m <= B /\ (r_data r = [] -> m = r_mst r))
    as (m & Em & Hw & Hu & Hfit & Hsame).
  { rewrite (u64_small (_ + mst_pos (r_mst r))) by words. cbn zeta.
    destruct ((0 <? _) && negb purge) eqn:E; bool_hyps.
    2:{ eexists. split_and!; [done..|intros ->|lia|done]. unfold stream.
        replace (r_data r) with (@nil Z); [by rewrite app_nil_r|].
        symmetry. apply nil_length_inv. destruct E; [lia|done]. }
    set (m1 := if _ <? _ then _ else _).
    assert (Hm1 : mst_wf m1 /\ unread m1 = unread (r_mst r) /\ mst_pos m1 = mst_pos (r_mst r)
                 /\ Z.of_nat (length (r_data r)) + mst_pos m1 <= mst_curr_buf m1).
    { unfold m1. case_if; bool_hyps; [|split_and!; done || lia].
      destruct (enlarge_spec fresh (Z.of_nat (length (r_data r)) + mst_pos (r_mst r)) (r_mst r));
        [done|lia|]. split_and!; cbn; done || lia. }
    destruct Hm1 as (Hw1 & Hu1 & Hp1 & Hle). rewrite Hp1, u64_small, (proj2 (Z.leb_le _ _)) by words.
    destruct (append_spec (Z.of_nat (length (r_data r))) (r_data r) m1)
      as (m & -> & ? & Hu & _ & Hp & _); [done|done|lia|lia|].
    exists m. split_and!; [done..| |lia|intros E0; rewrite E0 in E; cbn in E; lia]. intros _.
    rewrite Hu, Hu1, Nat2Z.id, firstn_all. done. }
  unfold refines_step. cbn [step]. unfold copy_rest. cbn zeta in Em |- *. rewrite Em.
  do 2 eexists. split; [done|]. destruct (reset_wf m Hw) as [Hw0 Hu0]. split_and!.
  - split; cbn; [by destruct purge|destruct purge; cbn; lia|done|by intros _ ->|].
    intros Hok Hnil. rewrite (Hsame Hnil). destruct purge; cbn; [lia|].
    destruct Hret as [[_ ->]|Hno]; [lia|by rewrite Hno in Hok].
  - cbn. lia.
  - unfold outcome, keep. destruct purge; cbn; [done|]. by rewrite Hu.
Qed.

(** Every step is a good one. *)
Lemma step_refines purge l r :
  label_wf purge l r -> (forall ret, l <> Return ret) ->
  refines_step purge l r (step ALIGN_FACTOR fresh cb purge l r).
Proof.
  intros Hl Hne. destruct l as [| | |ret|ret]; cbn [step].
  - cbn in Hl. pose proof (run_mst _ Hl) as Hm. mst_facts Hm. case_if; bool_hyps.
    + do 2 eexists. split; [done|]. split_and!; [done|unfold measure; cbn; lia|done].
    + assert (mst_pos (r_mst r) = 0) as E0 by lia. rewrite (proj2 (Z.eqb_eq 0 _)) by lia.
      do 2 eexists. split; [done|]. split_and!; [done|unfold measure; cbn; lia|done].
  - by apply do_align_refines.
  - destruct Hl as [Hr Hp]. case_if; bool_hyps; [by apply while_size_refines|].
    do 2 eexists. split; [done|]. split_and!; [split; [done|left; done]|unfold measure; cbn; lia|].
    unfold outcome. rewrite tokenize_eq, next_token_more; [done|]. left.
    pose proof (run_mst _ Hr) as Hm. pose proof (length_unread _ Hm). mst_facts Hm.
    unfold stream. rewrite length_app. lia.
  - destruct Hl. by apply copy_refines.
  - by destruct (Hne ret).
Qed.

Lemma steps_refine purge fuel l r :
  label_wf purge l r -> (measure l r <= fuel)%nat ->
  exists r' ret, steps ALIGN_FACTOR fresh cb fuel purge l r = Some (r', ret)
    /\ label_wf purge (Return ret) r' /\ outcome purge (Return ret) r' = outcome purge l r.
Proof.
  revert l r. induction fuel as [|fuel IH]; intros l r Hl Hf;
    (destruct l as [| | |rt|rt]; [| | | |by exists r, rt]).
  1-4: exfalso; unfold measure in Hf; cbn in Hf; lia.
  all: destruct (step_refines purge _ r Hl) as (l' & r' & E & Hl' & Hlt & Ho); [done|];
    cbn [steps]; rewrite E;
    destruct (IH l' r' Hl') as (r2 & ret & -> & ? & ?); [lia|];
    exists r2, ret; split_and!; [done..|congruence].
Qed.

End Refinement.

Section Behaviour.
Context (ALIGN_FACTOR : Z) (fresh : nat -> Z) {S : Type} (cb : S -> list Z -> S * Z).

(** [GNUNET_MST_from_buffer] does what the specification says. *)
Lemma from_buffer_spec m cls buf data purge one_shot :
  mst_wf m -> bytes_ok data -> mst_pos m + Z.of_nat (length data) < 2 ^ 63 ->
  exists m' cls' ret,
    GNUNET_MST_from_buffer ALIGN_FACTOR fresh cb m cls buf data purge one_shot
      = Some (m', cls', ret)
    /\ mst_wf m'
    /\ keep purge (cls', ret, unread m') = keep purge (tokenize cb one_shot cls (unread m ++ data))
    /\ (purge = true -> ret <> GNUNET_SYSERR -> unread m' = [])
    /\ mst_pos m' <= mst_pos m + Z.of_nat (length data)
    /\ (data = [] -> ret = GNUNET_OK -> mst_pos m' < mst_curr_buf m').
Proof.
  intros Hm Hd Hf. unfold GNUNET_MST_from_buffer. pose proof Hm as Hm'. mst_facts Hm'.
  rewrite !(proj2 (Z.leb_le _ _)) by lia.
  destruct (steps_refine ALIGN_FACTOR fresh cb (mst_pos m + Z.of_nat (length data))
              (Z.of_nat (length data)) Hf purge
              (Z.to_nat (mst_pos m) + length data + 5) While_pos
              (mk_run m buf data one_shot cls)) as (r & ret & -> & Hw & Ho).
  - split; cbn; done || lia.
  - unfold measure, stream; cbn. rewrite length_app. pose proof (length_unread m Hm). lia.
  - exists (r_mst r), (r_cls r), ret. destruct Hw as [? ? Hz ? Hsp]. split_and!; auto.
    intros E Hret. apply Hsp; [done|]. apply nil_length_inv. rewrite E in Hz. cbn in Hz. lia.
Qed.

(** The specification on a stream that arrives in two parts. *)
Lemma tokenize_app cls s t :
  keep false (tokenize cb GNUNET_NO cls (s ++ t)) =
  let '(cls', ret, rest) := tokenize cb GNUNET_NO cls s in
  if ret =? GNUNET_SYSERR then (cls', ret, [])
  else keep false (tokenize cb GNUNET_NO cls' (rest ++ t)).
Proof.
  remember (length s) as k eqn:Hk. revert s cls Hk.
  induction (lt_wf k) as [k _ IH]. intros s cls ->.
  pose proof (next_token_app s t) as Ha. rewrite (tokenize_eq cb _ cls s).
  destruct (next_token s) as [| |m rest] eqn:E; [done|by rewrite tokenize_eq, Ha|].
  rewrite tokenize_eq, Ha. change (GNUNET_NO =? GNUNET_SYSERR) with false.
  change (GNUNET_NO =? GNUNET_YES) with false. cbn beta iota.
  destruct (cb cls m) as [cls' c]. destruct (c =? GNUNET_SYSERR); [done|].
  apply next_token_message in E as (Es & _ & H4 & _).
  rewrite (IH (length rest)); [done| |done]. rewrite Es, length_app. lia.
Qed.

(** Feeding a tokenizer piece by piece, each piece at an address of its own,
    until it reports an error. *)
Fixpoint feed (m : GNUNET_MessageStreamTokenizer) (cls : S) (pieces : list (Z * list Z))
  : option (GNUNET_MessageStreamTokenizer * S * Z) :=
  match pieces with
  | [] => Some (m, cls, GNUNET_OK)
  | (buf, data) :: pieces =>
      let? (m, cls, ret) :=
        GNUNET_MST_from_buffer ALIGN_FACTOR fresh cb m cls buf data false GNUNET_NO in
      if ret =? GNUNET_SYSERR then Some (m, cls, ret) else feed m cls pieces
  end.

(** All pieces together. *)
Definition joined (pieces : list (Z * list Z)) : list Z := concat (map snd pieces).

(** What the return code says about the rest. *)
Lemma tokenize_ret os cls s cls' ret rest :
  tokenize cb os cls s = (cls', ret, rest) ->
  ret = GNUNET_OK /\ next_token rest = More
  \/ ret = GNUNET_NO /\ os <> GNUNET_NO /\ (exists m r, next_token rest = Message m r)
  \/ ret = GNUNET_SYSERR.
Proof.
  remember (length s) as k eqn:Hk. revert s os cls Hk.
  induction (lt_wf k) as [k _ IH]. intros s os cls ->. rewrite tokenize_eq.
  destruct (next_token s) as [| |m r] eqn:E; [intros [= _ <- <-]; auto|intros [= _ <- _]; auto|].
  destruct (os =? GNUNET_SYSERR) eqn:Eos; bool_hyps.
  { intros [= _ <- <-]. right; left. split_and!; [done|by rewrite Eos|eauto]. }
  destruct (cb cls m) as [cls1 c]. case_if; [intros [= _ <- _]; auto|]. intros Ht.
  apply next_token_message in E as (Es & _ & H4 & _).
  apply (IH (length r)) in Ht as [?|[(? & Hos & ?)|?]]; [auto| |auto|rewrite Es, length_app; lia|done].
  right; left. split_and!; [done| |done]. revert Hos. case_if; bool_hyps; [by rewrite E|done].
Qed.

Lemma feed_spec pieces m cls :
  mst_wf m -> bytes_ok (joined pieces) ->
  mst_pos m + Z.of_nat (length (joined pieces)) < 2 ^ 63 ->
  next_token (unread m) = More ->
  exists m' cls' ret, feed m cls pieces = Some (m', cls', ret) /\ mst_wf m'
    /\ keep false (cls', ret, unread m')
       = keep false (tokenize cb GNUNET_NO cls (unread m ++ joined pieces)).
Proof.
  revert m cls. induction pieces as [|[buf data] pieces IH]; intros m cls Hm Hd Hf Ht.
  { exists m, cls, GNUNET_OK. split_and!; [done..|]. cbn. by rewrite app_nil_r, tokenize_eq, Ht. }
  unfold joined in *. cbn [map snd concat feed] in *. rewrite length_app in Hf.
  apply Forall_app in Hd as [Hd1 Hd2].
  destruct (from_buffer_spec m cls buf data false GNUNET_NO)
    as (m1 & cls1 & ret & -> & Hm1 & Hk & _ & Hp & _); [done..|lia|].
  rewrite app_assoc, tokenize_app. destruct (tokenize _ _ _ (unread m ++ data)) as [[c0 r0] rest] eqn:E.
  cbn [keep orb] in Hk. injection Hk as -> -> Hrest. destruct (r0 =? GNUNET_SYSERR) eqn:Er.
  - exists m1, c0, r0. split_and!; [done..|]. cbn [keep orb]. by rewrite Er.
  - subst rest. apply IH; [done|done|lia|].
    apply tokenize_ret in E as [[_ ?]|[(_ & ? & _)| ->]]; done.
Qed.

(** A stream of well-formed messages is cut back into these messages. *)
Lemma next_token_wf m t : msg_wf m -> next_token (m ++ t) = Message m t.
Proof.
  intros [Hb Hl H4]. unfold next_token, sizeof_MessageHeader in *.
  assert (msg_size (m ++ t) = msg_size m) as ->.
  { unfold msg_size, rd16. rewrite slice_app_l by lia. done. }
  rewrite length_app. rewrite <- Hl, Nat2Z.id, take_app_length, drop_app_length.
  split_ifs; try done; lia.
Qed.

(** The closure after the messages [ms]. *)
Definition deliver_all (cls : S) (ms : list (list Z)) : S := fold_left (fun c m => (cb c m).1) ms cls.

Lemma tokenize_messages cls ms t :
  Forall msg_wf ms -> (forall c m, (cb c m).2 <> GNUNET_SYSERR) ->
  tokenize cb GNUNET_NO cls (concat ms ++ t) = tokenize cb GNUNET_NO (deliver_all cls ms) t.
Proof.
  intros Hms Hcb. revert cls. induction Hms as [|m ms Hm _ IH]; intros cls; [done|].
  cbn [concat]. rewrite <- app_assoc, tokenize_eq, next_token_wf by done.
  change (GNUNET_NO =? GNUNET_SYSERR) with false.
  change (GNUNET_NO =? GNUNET_YES) with false. cbn beta iota.
  specialize (Hcb cls m). destruct (cb cls m) as [cls' c] eqn:E. cbn in Hcb.
  rewrite (proj2 (Z.eqb_neq _ _) Hcb), IH. unfold deliver_all at 2. cbn [fold_left]. by rewrite E.
Qed.

(** Repeated one-shot calls: [GNUNET_MST_next] as long as it reports that another
    message is ready. *)
Fixpoint drain (fuel : nat) (m : GNUNET_MessageStreamTokenizer) (cls : S)
  : option (GNUNET_MessageStreamTokenizer * S * Z) :=
  match fuel with
  | O => None
  | Datatypes.S fuel =>
      let? (m, cls, ret) := GNUNET_MST_next ALIGN_FACTOR fresh cb m cls GNUNET_YES in
      if ret =? GNUNET_NO then drain fuel m cls else Some (m, cls, ret)
  end.

(** One shot of the specification: at most one message, the first one. *)
Lemma tokenize_one_shot cls s :
  tokenize cb GNUNET_YES cls s =
  match next_token s with
  | More => (cls, GNUNET_OK, s)
  | Corrupt => (cls, GNUNET_SYSERR, s)
  | Message m rest =>
      let '(cls', c) := cb cls m in
      (cls', if c =? GNUNET_SYSERR then GNUNET_SYSERR
             else match next_token rest with
                  | More => GNUNET_OK | Corrupt => GNUNET_SYSERR | Message _ _ => GNUNET_NO end, rest)
  end.
Proof.
  rewrite tokenize_eq. destruct (next_token s) as [| |m rest]; [done..|].
  change (GNUNET_YES =? GNUNET_SYSERR) with false.
  change (GNUNET_YES =? GNUNET_YES) with true. cbn beta iota.
  destruct (cb cls m) as [cls' c]. destruct (c =? GNUNET_SYSERR); [done|].
  rewrite tokenize_eq. by destruct (next_token rest).
Qed.

(** Draining with one-shot calls has the effect of one call without limit. *)
Lemma drain_next_spec fuel m cls :
  mst_wf m -> (length (unread m) < fuel)%nat ->
  exists m' cls' ret, drain fuel m cls = Some (m', cls', ret) /\ mst_wf m'
    /\ keep false (cls', ret, unread m') = keep false (tokenize cb GNUNET_NO cls (unread m)).
Proof.
  revert m cls. induction fuel as [|fuel IH]; intros m cls Hm Hf; [lia|].
  cbn [drain]. unfold GNUNET_MST_next. pose proof Hm as Hm'. mst_facts Hm'.
  destruct (from_buffer_spec m cls 0 [] false GNUNET_YES)
    as (m1 & cls1 & ret & -> & Hm1 & Hk & _); [done|constructor|cbn; lia|].
  rewrite app_nil_r, tokenize_one_shot in Hk. rewrite (tokenize_eq _ _ _ (unread m)).
  destruct (next_token (unread m)) as [| |msg rest] eqn:E.
  - injection Hk as -> -> Hu. exists m1, cls, GNUNET_OK. cbn in Hu |- *. by rewrite Hu.
  - injection Hk as -> ->. by exists m1, cls, GNUNET_SYSERR.
  - change (GNUNET_NO =? GNUNET_SYSERR) with false.
    change (GNUNET_NO =? GNUNET_YES) with false. cbn beta iota.
    destruct (cb cls msg) as [cls' c]. destruct (c =? GNUNET_SYSERR).
    { injection Hk as -> ->. by exists m1, cls', GNUNET_SYSERR. }
    apply next_token_message in E as (Es & _ & H4 & _).
    destruct (next_token rest) as [| |msg2 rest2] eqn:E2.
    + injection Hk as -> -> Hu. exists m1, cls', GNUNET_OK. split_and!; [done..|].
      rewrite tokenize_eq, E2. cbn in Hu |- *. by rewrite Hu.
    + injection Hk as -> ->. exists m1, cls', GNUNET_SYSERR. split_and!; [done..|].
      by rewrite tokenize_eq, E2.
    + injection Hk as -> -> Hu. cbn [keep] in Hu. change (GNUNET_NO =? GNUNET_NO) with true.
      cbn beta iota. rewrite <- Hu. apply IH; [done|].
      assert (length (unread m1) + 4 <= length (unread m))%nat; [|lia].
      cbn in Hu. rewrite Es, Hu, length_app. lia.
Qed.

End Behaviour.

(** ** Properties *)

(** C15. Whatever bytes arrive, however they are aligned and whatever the
    callback answers, [GNUNET_MST_from_buffer] returns without failing an
    assertion or leaving its buffer; the callback has seen the messages at the
    front of the stream formed by the bytes kept and the bytes that arrived, the
    return code is that of the specification, and what is kept is the rest of the
    stream, or nothing if the client asked to purge it. The same holds of the older
    interface. *)
Theorem tokenizer_refines_specification (C S : Type) ALIGN_FACTOR fresh
  (cb : S -> C -> list Z -> S * Z) m cls client buf data purge one_shot :
  mst_wf m -> bytes_ok data -> mst_pos m + Z.of_nat (length data) < 2 ^ 63 ->
  exists m' cls' ret rest,
    tokenize (fun c => cb c client) one_shot cls (unread m ++ data) = (cls', ret, rest)
    /\ GNUNET_MST_from_buffer ALIGN_FACTOR fresh (fun c => cb c client) m cls buf data purge one_shot
       = Some (m', cls', ret)
    /\ GNUNET_SERVER_mst_receive ALIGN_FACTOR fresh cb m cls client buf data purge one_shot
       = Some (m', cls', ret)
    /\ mst_wf m'
    /\ (ret <> GNUNET_SYSERR -> unread m' = if purge then [] else rest).
Proof.
  intros Hm Hd Hf.
  destruct (from_buffer_spec ALIGN_FACTOR fresh (fun c => cb c client) m cls buf data purge one_shot)
    as (m' & cls' & ret & E & Hm' & Hk & Hp & _); [done..|].
  destruct (tokenize _ _ _ _) as [[c r] rest]. cbn [keep] in Hk. injection Hk as -> -> Hu.
  exists m', c, r, rest. split_and!; [done..|]. intros Hr.
  rewrite (proj2 (Z.eqb_neq _ _) Hr) in Hu. destruct purge; [by apply Hp|done].
Qed.

(** A stream of messages that arrives in arbitrary pieces at arbitrary
    addresses is delivered message by message, in order, each exactly once; the
    incomplete message at its end, if there is one, waits in the buffer. *)
Theorem tokenizer_delivers_stream (S : Type) ALIGN_FACTOR fresh (cb : S -> list Z -> S * Z)
  cls ms tail pieces :
  Forall msg_wf ms -> bytes_ok tail -> next_token tail = More ->
  (forall c m, (cb c m).2 <> GNUNET_SYSERR) ->
  joined pieces = concat ms ++ tail -> Z.of_nat (length (joined pieces)) < 2 ^ 63 ->
  exists m', feed ALIGN_FACTOR fresh cb GNUNET_MST_create cls pieces
             = Some (m', deliver_all cb cls ms, GNUNET_OK)
    /\ unread m' = tail.
Proof.
  intros Hms Ht Hmore Hcb Hj Hlen.
  destruct (feed_spec ALIGN_FACTOR fresh cb pieces GNUNET_MST_create cls)
    as (m' & cls' & ret & -> & _ & Hk); [apply tokenizer_create_wf| |done|done|].
  { rewrite Hj. apply Forall_app; split; [|done]. apply Forall_concat.
    eapply Forall_impl; [exact Hms|]. by intros m [H _ _]. }
  rewrite Hj in Hk. change (unread GNUNET_MST_create) with (@nil Z) in Hk. cbn [app] in Hk.
  rewrite tokenize_messages, tokenize_eq, Hmore in Hk by done.
  cbn [keep orb] in Hk. injection Hk as -> -> Hu. by exists m'.
Qed.

(** A one-shot call delivers the first message only, if it is complete, and
    returns [GNUNET_NO] exactly if the next one is complete as well; calling
    [GNUNET_MST_next] until it returns something else delivers what a call
    without that restriction would have. *)
Theorem tokenizer_one_shot (S : Type) ALIGN_FACTOR fresh (cb : S -> list Z -> S * Z)
  m cls buf data :
  mst_wf m -> bytes_ok data -> mst_pos m + Z.of_nat (length data) < 2 ^ 63 ->
  (forall c m, (cb c m).2 <> GNUNET_SYSERR) ->
  exists m1 cls1 ret1,
    GNUNET_MST_from_buffer ALIGN_FACTOR fresh cb m cls buf data false GNUNET_YES
      = Some (m1, cls1, ret1)
    /\ cls1 = match next_token (unread m ++ data) with
              | Message msg _ => (cb cls msg).1 | _ => cls end
    /\ (ret1 = GNUNET_NO <-> exists msg rest msg2 rest2,
          next_token (unread m ++ data) = Message msg rest /\ next_token rest = Message msg2 rest2)
    /\ (ret1 = GNUNET_NO -> forall fuel, (length (unread m1) < fuel)%nat ->
        exists m2 cls2 ret2, drain ALIGN_FACTOR fresh cb fuel m1 cls1 = Some (m2, cls2, ret2)
          /\ keep false (cls2, ret2, unread m2)
             = keep false (tokenize cb GNUNET_NO cls (unread m ++ data))).
Proof.
  intros Hm Hd Hf Hcb.
  destruct (from_buffer_spec ALIGN_FACTOR fresh cb m cls buf data false GNUNET_YES)
    as (m1 & cls1 & ret1 & E & Hm1 & Hk & _); [done..|].
  exists m1, cls1, ret1. split; [done|]. rewrite tokenize_one_shot in Hk.
  rewrite (tokenize_eq _ _ _ (unread m ++ data)).
  destruct (next_token (unread m ++ data)) as [| |msg rest].
  1,2: cbn [keep orb] in Hk; injection Hk as -> ->; split_and!; [done| |done];
    split; [done|by intros (? & ? & ? & ? & ? & _)].
  specialize (Hcb cls msg). destruct (cb cls msg) as [c r]. cbn [fst snd] in *.
  rewrite (proj2 (Z.eqb_neq _ _) Hcb) in Hk |- *. cbn [keep orb] in Hk.
  injection Hk as -> -> Hu. split; [done|]. destruct (next_token rest) as [| |msg2 rest2] eqn:E2.
  - split; [|done]. split; [done|]. intros (? & ? & ? & ? & [= <- <-] & ?). congruence.
  - split; [|done]. split; [done|]. intros (? & ? & ? & ? & [= <- <-] & ?). congruence.
  - split; [split; [by eauto 10|done]|]. intros _ fuel Hfuel.
    destruct (drain_next_spec ALIGN_FACTOR fresh cb fuel m1 c) as (m2 & cls2 & ret2 & ? & _ & Hk2);
      [done..|].
    exists m2, cls2, ret2. split; [done|]. rewrite Hk2. cbn in Hu. by rewrite Hu.
Qed.

(** What [GNUNET_NETWORK_socket_recv] guarantees: at most as many bytes as asked
    for. *)
Definition recv_ok (recv : Z -> RecvResult) : Prop :=
  forall left data, 0 <= left -> recv left = Received data -> bytes_ok data /\ Z.of_nat (length data) <= left.

(** A client that reads from a socket with [GNUNET_MST_read] always offers
    room for at least one byte, so that an empty result means what the code takes
    it for, a closed connection: room is there at first and after every call that
    returned [GNUNET_OK]. A call keeps the bytes inside of the buffer and processes
    the bytes received like bytes from elsewhere. *)
Theorem tokenizer_read_never_full (S : Type) ALIGN_FACTOR fresh (cb : S -> list Z -> S * Z)
  m cls recv purge one_shot :
  recv_ok recv -> mst_wf m -> mst_pos m < mst_curr_buf m ->
  0 < u64 (mst_curr_buf m - mst_pos m)
  /\ exists m' cls' ret,
      GNUNET_MST_read ALIGN_FACTOR fresh cb m cls recv purge one_shot = Some (m', cls', ret)
      /\ mst_wf m' /\ (ret = GNUNET_OK -> mst_pos m' < mst_curr_buf m')
      /\ keep purge (cls', ret, unread m') =
         match recv (mst_curr_buf m - mst_pos m) with
         | Recv_again => keep purge (cls, GNUNET_OK, unread m)
         | Recv_error | Received [] => (cls, GNUNET_SYSERR, [])
         | Received data => keep purge (tokenize cb one_shot cls (unread m ++ data))
         end.
Proof.
  intros Hrecv Hm Hroom. pose proof Hm as Hm'. mst_facts Hm'.
  unfold GNUNET_MST_read. rewrite u64_small by words. split; [lia|].
  destruct (recv _) as [data| |] eqn:E.
  - destruct (Hrecv (mst_curr_buf m - mst_pos m) data ltac:(lia) E) as [Hd Hl]. destruct data as [|b data'] eqn:Ed.
    { exists m, cls, GNUNET_SYSERR. split_and!; try done. unfold keep. by rewrite orb_true_r. }
    rewrite <- Ed in *. rewrite (proj2 (Z.eqb_neq 0 _)) by (rewrite Ed; cbn [length]; lia).
    destruct (append_spec (Z.of_nat (length data)) data m) as (m1 & -> & Hm1 & Hu1 & _ & Hp1 & Hc1);
      [done|done|lia|lia|].
    destruct (from_buffer_spec ALIGN_FACTOR fresh cb m1 cls 0 [] purge one_shot)
      as (m' & cls' & ret & -> & ? & Hk & _ & _ & Hsp); [done|constructor|cbn; lia|].
    exists m', cls', ret. split_and!; try done; [auto|]. rewrite Hk, app_nil_r, Hu1.
    rewrite Nat2Z.id, firstn_all. done.
  - exists m, cls, GNUNET_OK. split_and!; done.
  - exists m, cls, GNUNET_SYSERR. split_and!; try done. unfold keep. by rewrite orb_true_r.
Qed.

(** ** Witnesses *)

Definition demo_cb (c : list (list Z)) (m : list Z) : list (list Z) * Z := (c ++ [m], GNUNET_OK).

(** Two messages and the beginning of a third. *)
Definition demo_ms : list (list Z) := [[0; 5; 0; 1; 9]; [0; 6; 0; 2; 8; 8]].
Definition demo_bytes : list Z := [0; 5; 0; 1; 9; 0; 6; 0; 2; 8; 8; 0; 7].

Lemma demo_bytes_ok : bytes_ok demo_bytes.
Proof. repeat constructor; words. Qed.

Lemma tokenizer_refines_specification_witness :
  exists m' cls' ret rest,
    tokenize demo_cb GNUNET_NO [] (unread GNUNET_MST_create ++ demo_bytes) = (cls', ret, rest)
    /\ GNUNET_MST_from_buffer 8 (fun _ => 7) demo_cb GNUNET_MST_create [] 3 demo_bytes false GNUNET_NO
       = Some (m', cls', ret)
    /\ mst_wf m' /\ (ret <> GNUNET_SYSERR -> unread m' = rest).
Proof.
  destruct (tokenizer_refines_specification unit _ 8 (fun _ => 7) (fun c _ m => demo_cb c m)
              GNUNET_MST_create [] tt 3 demo_bytes false GNUNET_NO tokenizer_create_wf demo_bytes_ok
              ltac:(reflexivity)) as (m' & cls' & ret & rest & H1 & H2 & _ & H4 & H5).
  exists m', cls', ret, rest. auto.
Defined.

Lemma tokenizer_delivers_stream_witness :
  exists m', feed 8 (fun _ => 7) demo_cb GNUNET_MST_create []
      [(3, [0; 5; 0]); (16, [1; 9; 0; 6; 0; 2; 8]); (24, [8; 0; 7])]
      = Some (m', demo_ms, GNUNET_OK) /\ unread m' = [0; 7].
Proof.
  apply (tokenizer_delivers_stream (list (list Z)) 8 (fun _ => 7) demo_cb [] demo_ms [0; 7]).
  - repeat constructor; reflexivity || words || (unfold sizeof_MessageHeader; discriminate).
  - repeat constructor; words.
  - reflexivity.
  - discriminate.
  - reflexivity.
  - reflexivity.
Defined.

Lemma tokenizer_one_shot_witness :
  exists m1 cls1 ret1,
    GNUNET_MST_from_buffer 8 (fun _ => 7) demo_cb GNUNET_MST_create [] 3 demo_bytes false GNUNET_YES
      = Some (m1, cls1, ret1)
    /\ cls1 = [[0; 5; 0; 1; 9]] /\ ret1 = GNUNET_NO.
Proof.
  destruct (tokenizer_one_shot _ 8 (fun _ => 7) demo_cb GNUNET_MST_create [] 3 demo_bytes
              tokenizer_create_wf demo_bytes_ok ltac:(reflexivity) ltac:(discriminate))
    as (m1 & cls1 & ret1 & H1 & H2 & H3 & _).
  exists m1, cls1, ret1. split; [exact H1|]. split; [exact H2|]. apply H3.
  do 4 eexists. split; reflexivity.
Defined.

Lemma tokenizer_read_never_full_witness :
  exists m' cls' ret,
    GNUNET_MST_read 8 (fun _ => 7) demo_cb GNUNET_MST_create []
      (fun left => Received (take (Z.to_nat left) demo_bytes)) false GNUNET_NO = Some (m', cls', ret)
    /\ mst_wf m' /\ (ret = GNUNET_OK -> mst_pos m' < mst_curr_buf m').
Proof.
  destruct (tokenizer_read_never_full _ 8 (fun _ => 7) demo_cb GNUNET_MST_create []
              (fun left => Received (take (Z.to_nat left) demo_bytes)) false GNUNET_NO)
    as (_ & m' & cls' & ret & H1 & H2 & H3 & _).
  - intros left data Hleft [= <-]. split; [apply Forall_take, demo_bytes_ok|].
    rewrite length_take. lia.
  - exact tokenizer_create_wf.
  - reflexivity.
  - exists m', cls', ret. auto.
Defined.
