(* ===== verification/Bloom.v ===== *)
(** * Bloom filters: [src/util/container_bloomfilter.c]

    A bit array in memory and, for filters that support removal, a file with a
    4-bit usage counter per bit. The file is modelled by its contents; reading and
    writing it are assumed to succeed, as is the allocation of memory.

    A computation is [None] where the C code would fail an assertion, access
    memory outside of an array or not end. *)

From S2P Require Import Prelude Message.

(** ** Data *)

(** [fh] stands for the handle and the name of the file, which are set together:
    the contents of the file, or nothing for a filter in memory. *)
Record GNUNET_CONTAINER_BloomFilter := mk_bf {
  bitArray : list Z;
  fh : option (list Z);
  addressesPerElement : Z;
  bitArraySize : Z;
}.

Definition set_bits (bits : list Z) (bf : GNUNET_CONTAINER_BloomFilter)
  : GNUNET_CONTAINER_BloomFilter :=
  mk_bf bits (fh bf) (addressesPerElement bf) (bitArraySize bf).

Definition set_fh (f : option (list Z)) (bf : GNUNET_CONTAINER_BloomFilter)
  : GNUNET_CONTAINER_BloomFilter :=
  mk_bf (bitArray bf) f (addressesPerElement bf) (bitArraySize bf).

Definition GNUNET_CONTAINER_bloomfilter_get_element_addresses
  (bf : option GNUNET_CONTAINER_BloomFilter) : Z :=
  match bf with None => 0 | Some bf => addressesPerElement bf end.

Definition GNUNET_CONTAINER_bloomfilter_get_size (bf : option GNUNET_CONTAINER_BloomFilter) : Z :=
  match bf with None => 0 | Some bf => bitArraySize bf end.

(** ** Bits *)

Definition targetBit (bitIdx : Z) : Z := Z.shiftl 1 (bitIdx mod 8).

Definition setBit (bits : list Z) (bitIdx : Z) : option (list Z) :=
  let slot := Z.to_nat (bitIdx / 8) in
  let? v := bits !! slot in
  Some (<[slot := u8 (Z.lor v (targetBit bitIdx))]> bits).

Definition clearBit (bits : list Z) (bitIdx : Z) : option (list Z) :=
  let slot := Z.to_nat (bitIdx / 8) in
  let? v := bits !! slot in
  Some (<[slot := u8 (Z.land v (u32 (Z.lnot (targetBit bitIdx))))]> bits).

Definition testBit (bits : list Z) (bitIdx : Z) : option Z :=
  let? v := bits !! Z.to_nat (bitIdx / 8) in
  Some (if negb (0 =? Z.land v (targetBit bitIdx)) then GNUNET_YES else GNUNET_NO).

(** ** The counter file *)

(** Seeking to a position and reading one byte; nothing at the end of the file. *)
Definition read_byte (f : list Z) (slot : Z) : option Z := f !! Z.to_nat slot.

(** Seeking to a position and writing [data] there; a gap is filled with zeros. *)
Definition write_at (f : list Z) (slot : Z) (data : list Z) : list Z :=
  let f := f ++ replicate (Z.to_nat slot + length data - length f) 0 in
  splice (Z.to_nat slot) data f.

Definition value_at (f : list Z) (slot : Z) : Z :=
  match read_byte f slot with Some v => v | None => 0 end.

Definition incrementBit (bits : list Z) (bitIdx : Z) (f : option (list Z))
  : option (list Z * option (list Z)) :=
  let? bits := setBit bits bitIdx in
  match f with
  | None => Some (bits, None)
  | Some f =>
      let fileSlot := bitIdx / 2 in
      let targetLoc := bitIdx mod 2 in
      let value := value_at f fileSlot in
      let low := Z.land value 15 in
      let high := Z.shiftr (Z.land value (Z.lnot 15)) 4 in
      let '(low, high) :=
        if targetLoc =? 0 then (if low <? 15 then low + 1 else low, high)
        else (low, if high <? 15 then high + 1 else high) in
      let value := u8 (Z.lor (Z.shiftl high 4) low) in
      Some (bits, Some (write_at f fileSlot [value]))
  end.

Definition decrementBit (bits : list Z) (bitIdx : Z) (f : option (list Z))
  : option (list Z * option (list Z)) :=
  match f with
  | None => Some (bits, None)
  | Some f =>
      let fileslot := bitIdx / 2 in
      let targetLoc := bitIdx mod 2 in
      let value := value_at f fileslot in
      let low := Z.land value 15 in
      let high := Z.shiftr (Z.land value 240) 4 in
      let? (bits, low, high) :=
        if targetLoc =? 0 then
          let low := if (0 <? low) && (low <? 15) then low - 1 else low in
          let? bits := if low =? 0 then clearBit bits bitIdx else Some bits in
          Some (bits, low, high)
        else
          let high := if (0 <? high) && (high <? 15) then high - 1 else high in
          let? bits := if high =? 0 then clearBit bits bitIdx else Some bits in
          Some (bits, low, high) in
      let value := u8 (Z.lor (Z.shiftl high 4) low) in
      Some (bits, Some (write_at f fileslot [value]))
  end.

Definition BUFFSIZE : Z := 65536.

(** Writes zeros in chunks from the start of the file; what is behind them stays. *)
Fixpoint write_zeros (fuel : nat) (f : list Z) (pos bytesleft : Z) : option (list Z) :=
  if 0 <? bytesleft then
    match fuel with
    | O => None
    | S fuel =>
        let res := if BUFFSIZE <? bytesleft then BUFFSIZE else bytesleft in
        write_zeros fuel (write_at f pos (replicate (Z.to_nat res) 0)) (pos + res) (bytesleft - res)
    end
  else Some f.

Definition make_empty_file (f : option (list Z)) (size : Z) : option (option (list Z) * Z) :=
  match f with
  | None => Some (None, GNUNET_SYSERR)
  | Some f =>
      let? f := write_zeros (Z.to_nat (size / BUFFSIZE + 1)) f 0 size in
      Some (Some f, GNUNET_OK)
  end.

(** ** Iteration over the bits of an element *)

Section Bloom.

(** [GNUNET_CRYPTO_hash] of the 64 bytes of a hash code. *)
Variable hash : list Z -> list Z.

(** The two nested loops as one: a further hash is computed when the 16 words of
    the current one are used up. The callback says whether to go on. *)
Fixpoint iterate_words {A : Type} (bitCount : nat) (nbits : Z) (callback : A -> Z -> option (A * Z))
  (slot : nat) (tmp : list Z) (arg : A) : option A :=
  match bitCount with
  | O => Some arg
  | S bitCount =>
      let '(tmp, slot) := if (slot <? 16)%nat then (tmp, slot) else (hash tmp, O) in
      let? (arg, go) := callback arg (rd32 (4 * slot) tmp mod nbits) in
      if negb (GNUNET_YES =? go) then Some arg
      else iterate_words bitCount nbits callback (S slot) tmp arg
  end.

(** [bitCount] is an [int]: nothing is done for more than [INT_MAX] addresses. *)
Definition iterateBits {A : Type} (bf : GNUNET_CONTAINER_BloomFilter)
  (callback : A -> Z -> option (A * Z)) (arg : A) (key : list Z) : option A :=
  assert? 0 <? bitArraySize bf in
  assert? bitArraySize bf <? u64 (bitArraySize bf * 8) in
  iterate_words (Z.to_nat (s32 (addressesPerElement bf))) (u64 (bitArraySize bf * 8))
    callback 0 key arg.

Definition incrementBitCallback (b : GNUNET_CONTAINER_BloomFilter) (bit : Z)
  : option (GNUNET_CONTAINER_BloomFilter * Z) :=
  let? (bits, f) := incrementBit (bitArray b) bit (fh b) in
  Some (set_fh f (set_bits bits b), GNUNET_YES).

Definition decrementBitCallback (b : GNUNET_CONTAINER_BloomFilter) (bit : Z)
  : option (GNUNET_CONTAINER_BloomFilter * Z) :=
  let? (bits, f) := decrementBit (bitArray b) bit (fh b) in
  Some (set_fh f (set_bits bits b), GNUNET_YES).

Definition testBitCallback (bf : GNUNET_CONTAINER_BloomFilter) (res bit : Z) : option (Z * Z) :=
  let? t := testBit (bitArray bf) bit in
  Some (if GNUNET_NO =? t then (GNUNET_NO, GNUNET_NO) else (res, GNUNET_YES)).

(** ** Interface

    The functions that do nothing for [NULL] are modelled for other arguments. *)

(** [ui *= 2] as long as it is smaller than [size] and does not overflow. *)
Fixpoint power_at_least (fuel : nat) (ui size : Z) : option Z :=
  if (ui <? size) && (ui <? u64 (ui * 2)) then
    match fuel with
    | O => None
    | S fuel => power_at_least fuel (u64 (ui * 2)) size
    end
  else Some ui.

(** The bits of a chunk of the counter file that starts with bit [pos]. *)
Fixpoint load_chunk (chunk : list Z) (pos : Z) (bits : list Z) : option (list Z) :=
  match chunk with
  | [] => Some bits
  | v :: chunk =>
      let? bits := if negb (Z.land v 15 =? 0) then setBit bits (u32 pos) else Some bits in
      let? bits := if negb (Z.land v 240 =? 0) then setBit bits (u32 (pos + 1)) else Some bits in
      load_chunk chunk (pos + 2) bits
  end.

(** The loop that reads the file [f]; [fpos] is its position. *)
Fixpoint load_loop (fuel : nat) (f : list Z) (fpos pos nbits : Z) (bits : list Z)
  : option (list Z) :=
  if pos <? nbits then
    match fuel with
    | O => None
    | S fuel =>
        let chunk := slice (Z.to_nat fpos) (Z.to_nat BUFFSIZE) f in
        let res := Z.of_nat (length chunk) in
        if res =? 0 then Some bits
        else
          let? bits := load_chunk chunk pos bits in
          if res <? BUFFSIZE then Some bits
          else load_loop fuel f (fpos + res) (pos + BUFFSIZE * 2) nbits bits
    end
  else Some bits.

(** [file] is the contents of the file, if it exists. The inner [None] is the
    result [NULL]. *)
Definition GNUNET_CONTAINER_bloomfilter_load (file : option (list Z)) (size k : Z)
  : option (option GNUNET_CONTAINER_BloomFilter) :=
  if (k =? 0) || (size =? 0) then Some None
  else
    let size := if size <? BUFFSIZE then BUFFSIZE else size in
    let? size := power_at_least 64 1 size in
    let fresh f := mk_bf (replicate (Z.to_nat size) 0) f k size in
    match file with
    | None =>
        let? (f, _) := make_empty_file (Some []) (u64 (size * 4)) in
        Some (Some (fresh f))
    | Some f =>
        let fsize := Z.of_nat (length f) in
        if fsize =? 0 then
          (* the file position is behind the zeros written: nothing to read *)
          let? (f, _) := make_empty_file (Some f) (u64 (size * 4)) in
          Some (Some (fresh f))
        else if negb (fsize =? u64 (size * 4)) then Some None
        else
          let? bits := load_loop (Z.to_nat (size * 8 / (BUFFSIZE * 2) + 1)) f 0 0 (u64 (size * 8))
                         (replicate (Z.to_nat size) 0) in
          Some (Some (set_bits bits (fresh (Some f))))
    end.

(** [data] has [size] bytes, if it is not [NULL]. *)
Definition GNUNET_CONTAINER_bloomfilter_init (data : option (list Z)) (size k : Z)
  : option GNUNET_CONTAINER_BloomFilter :=
  if (0 =? k) || (0 =? size) then None
  else Some (mk_bf (match data with
                    | None => replicate (Z.to_nat size) 0
                    | Some d => take (Z.to_nat size) d
                    end) None k size).

Definition GNUNET_CONTAINER_bloomfilter_copy (bf : GNUNET_CONTAINER_BloomFilter)
  : option GNUNET_CONTAINER_BloomFilter :=
  GNUNET_CONTAINER_bloomfilter_init (Some (bitArray bf)) (bitArraySize bf) (addressesPerElement bf).

(** The return code and the data written. *)
Definition GNUNET_CONTAINER_bloomfilter_get_raw_data (bf : option GNUNET_CONTAINER_BloomFilter)
  (size : Z) : Z * list Z :=
  match bf with
  | None => (GNUNET_SYSERR, [])
  | Some bf =>
      if negb (bitArraySize bf =? size) then (GNUNET_SYSERR, [])
      else (GNUNET_OK, take (Z.to_nat size) (bitArray bf))
  end.

Definition GNUNET_CONTAINER_bloomfilter_clear (bf : GNUNET_CONTAINER_BloomFilter)
  : option GNUNET_CONTAINER_BloomFilter :=
  let bf := set_bits (replicate (Z.to_nat (bitArraySize bf)) 0) bf in
  match fh bf with
  | None => Some bf
  | Some f =>
      let? (f, _) := make_empty_file (Some f) (u64 (bitArraySize bf * 4)) in
      Some (set_fh f bf)
  end.

Definition GNUNET_CONTAINER_bloomfilter_test (bf : option GNUNET_CONTAINER_BloomFilter)
  (e : list Z) : option Z :=
  match bf with
  | None => Some GNUNET_YES
  | Some bf => iterateBits bf (testBitCallback bf) GNUNET_YES e
  end.

Definition GNUNET_CONTAINER_bloomfilter_add (bf : GNUNET_CONTAINER_BloomFilter) (e : list Z)
  : option GNUNET_CONTAINER_BloomFilter :=
  iterateBits bf incrementBitCallback bf e.

Definition GNUNET_CONTAINER_bloomfilter_remove (bf : GNUNET_CONTAINER_BloomFilter) (e : list Z)
  : option GNUNET_CONTAINER_BloomFilter :=
  match fh bf with
  | None => Some bf
  | Some _ => iterateBits bf decrementBitCallback bf e
  end.

(** The loops of the two [or] functions: 64-bit words, then the bytes left. *)
Fixpoint or_words (n : nat) (fc dc : list Z) : list Z :=
  match n with
  | O => fc
  | S n =>
      le_encode 8 (Z.lor (le_decode (take 8 fc)) (le_decode (take 8 dc)))
      ++ or_words n (drop 8 fc) (drop 8 dc)
  end.

Definition or_arrays (fc dc : list Z) (size : Z) : list Z :=
  let n := Z.to_nat (u32 (size / 8)) in
  let fc := or_words n fc dc in
  let i := (8 * n)%nat in
  take i fc ++ zip_with Z.lor (slice i (Z.to_nat size - i) fc) (slice i (Z.to_nat size - i) dc)
  ++ drop (Z.to_nat size) fc.

Definition GNUNET_CONTAINER_bloomfilter_or (bf : GNUNET_CONTAINER_BloomFilter)
  (data : list Z) (size : Z) : GNUNET_CONTAINER_BloomFilter * Z :=
  if negb (bitArraySize bf =? size) then (bf, GNUNET_SYSERR)
  else (set_bits (or_arrays (bitArray bf) data size) bf, GNUNET_OK).

Definition GNUNET_CONTAINER_bloomfilter_or2 (bf to_or : GNUNET_CONTAINER_BloomFilter)
  : GNUNET_CONTAINER_BloomFilter * Z :=
  if negb (bitArraySize bf =? bitArraySize to_or) then (bf, GNUNET_SYSERR)
  else (set_bits (or_arrays (bitArray bf) (bitArray to_or) (bitArraySize bf)) bf, GNUNET_OK).

(** [i *= 2] in an [unsigned int] as long as it is smaller than [size]. *)
Fixpoint resize_power (fuel : nat) (i size : Z) : option Z :=
  if i <? size then
    match fuel with
    | O => None
    | S fuel => resize_power fuel (u32 (i * 2)) size
    end
  else Some i.

Fixpoint add_all (es : list (list Z)) (bf : GNUNET_CONTAINER_BloomFilter)
  : option GNUNET_CONTAINER_BloomFilter :=
  match es with
  | [] => Some bf
  | e :: es => let? bf := GNUNET_CONTAINER_bloomfilter_add bf e in add_all es bf
  end.

(** [es] are the elements the iterator returns. The argument [k] of the C function
    is not used by its body. *)
Definition GNUNET_CONTAINER_bloomfilter_resize (bf : GNUNET_CONTAINER_BloomFilter)
  (es : list (list Z)) (size k : Z) : option GNUNET_CONTAINER_BloomFilter :=
  let? size := resize_power 32 1 size in
  let bf := mk_bf (replicate (Z.to_nat size) 0) (fh bf) (addressesPerElement bf) size in
  let? bf :=
    match fh bf with
    | None => Some bf
    | Some f =>
        let? (f, _) := make_empty_file (Some f) (u64 (bitArraySize bf * 4)) in
        Some (set_fh f bf)
    end in
  add_all es bf.

End Bloom.

(** ** Bits *)

(** Bit [i] of the array. *)
Definition bit_on (bits : list Z) (i : Z) : bool :=
  match bits !! Z.to_nat (i / 8) with Some v => Z.testbit v (i mod 8) | None => false end.

Section Bits.
Implicit Types bits : list Z.

Lemma slot_lt bits i : 0 <= i < 8 * Z.of_nat (length bits) -> (Z.to_nat (i / 8) < length bits)%nat.
Proof. intros. apply Nat2Z.inj_lt. rewrite Z2Nat.id by (apply Z.div_pos; lia).
  apply Z.div_lt_upper_bound; lia. Qed.

Lemma testbit_u8 z i : 0 <= i < 8 -> Z.testbit (u8 z) i = Z.testbit z i.
Proof. intros. unfold u8. apply Z.mod_pow2_bits_low. lia. Qed.

Lemma testbit_targetBit i j : 0 <= j -> Z.testbit (targetBit i) j = (j =? i mod 8).
Proof.
  intros. unfold targetBit. pose proof (Z.mod_pos_bound i 8 ltac:(lia)).
  rewrite Z.shiftl_1_l, Z.pow2_bits_eqb by lia. apply Z.eqb_sym.
Qed.

(** Bit indices are determined by slot and position. *)
Lemma same_slot i j :
  0 <= i -> 0 <= j -> Z.to_nat (i / 8) = Z.to_nat (j / 8) -> (j mod 8 =? i mod 8) = (j =? i).
Proof.
  intros Hi Hj E. apply Z2Nat.inj in E; [|apply Z.div_pos; lia..].
  pose proof (Z.div_mod i 8 ltac:(lia)). pose proof (Z.div_mod j 8 ltac:(lia)).
  destruct (j =? i) eqn:Eq; bool_hyps; [by subst|]. apply Z.eqb_neq. lia.
Qed.

(** Replacing the byte of bit [i] by one that differs in that bit only. *)
Lemma bit_on_update bits i v v' b j :
  0 <= i < 8 * Z.of_nat (length bits) -> 0 <= j -> bits !! Z.to_nat (i / 8) = Some v ->
  (forall k, 0 <= k < 8 -> Z.testbit v' k = if k =? i mod 8 then b else Z.testbit v k) ->
  bit_on (<[Z.to_nat (i / 8) := v']> bits) j = if j =? i then b else bit_on bits j.
Proof.
  intros Hi Hj Hv Hb. unfold bit_on.
  destruct (decide (Z.to_nat (i / 8) = Z.to_nat (j / 8))) as [E|E].
  - rewrite <- E. rewrite list_lookup_insert_eq by (by apply slot_lt). rewrite Hv.
    rewrite Hb by (apply Z.mod_pos_bound; lia). rewrite (same_slot i j) by (lia || done). done.
  - rewrite list_lookup_insert_ne by done. destruct (j =? i) eqn:Eq; [|done].
    bool_hyps. by subst.
Qed.

Lemma setBit_spec bits i :
  bytes_ok bits -> 0 <= i < 8 * Z.of_nat (length bits) ->
  exists bits', setBit bits i = Some bits' /\ bytes_ok bits' /\ length bits' = length bits
    /\ forall j, 0 <= j -> bit_on bits' j = if j =? i then true else bit_on bits j.
Proof.
  intros Hb Hi. unfold setBit. destruct (lookup_lt_is_Some_2 bits _ (slot_lt bits i Hi)) as [v Hv].
  rewrite Hv. eexists. split_and!; [done| |apply length_insert|].
  - apply Forall_insert; [done|apply u8_range].
  - intros j Hj. eapply bit_on_update; [done..|]. intros k Hk.
    rewrite testbit_u8, Z.lor_spec, testbit_targetBit by lia. by destruct (k =? i mod 8), (Z.testbit v k).
Qed.

Lemma clearBit_spec bits i :
  bytes_ok bits -> 0 <= i < 8 * Z.of_nat (length bits) ->
  exists bits', clearBit bits i = Some bits' /\ bytes_ok bits' /\ length bits' = length bits
    /\ forall j, 0 <= j -> bit_on bits' j = if j =? i then false else bit_on bits j.
Proof.
  intros Hb Hi. unfold clearBit. destruct (lookup_lt_is_Some_2 bits _ (slot_lt bits i Hi)) as [v Hv].
  rewrite Hv. eexists. split_and!; [done| |apply length_insert|].
  - apply Forall_insert; [done|apply u8_range].
  - intros j Hj. eapply bit_on_update; [done..|]. intros k Hk.
    rewrite testbit_u8, Z.land_spec by lia. unfold u32. rewrite Z.mod_pow2_bits_low by lia.
    rewrite Z.lnot_spec, testbit_targetBit by lia. by destruct (k =? i mod 8), (Z.testbit v k).
Qed.

Lemma testBit_spec bits i :
  0 <= i < 8 * Z.of_nat (length bits) ->
  testBit bits i = Some (if bit_on bits i then GNUNET_YES else GNUNET_NO).
Proof.
  intros Hi. unfold testBit, bit_on.
  destruct (lookup_lt_is_Some_2 bits _ (slot_lt bits i Hi)) as [v ->].
  pose proof (Z.mod_pos_bound i 8 ltac:(lia)).
  f_equal. replace (negb _) with (Z.testbit v (i mod 8)); [done|].
  symmetry. destruct (Z.testbit v (i mod 8)) eqn:E.
  - apply negb_true_iff, Z.eqb_neq. intros H0.
    assert (Ht : Z.testbit (Z.land v (targetBit i)) (i mod 8) = true).
    { by rewrite Z.land_spec, testbit_targetBit, E, Z.eqb_refl by lia. }
    by rewrite <- H0, Z.bits_0 in Ht.
  - apply negb_false_iff, Z.eqb_eq. symmetry. apply Z.bits_inj'. intros k Hk.
    rewrite Z.land_spec, testbit_targetBit, Z.bits_0 by lia.
    destruct (k =? i mod 8) eqn:Ek; [|apply andb_false_r]. apply Z.eqb_eq in Ek as ->. by rewrite E.
Qed.

(** Arrays of the same length with the same bits are equal. *)
Lemma bits_ext bits bits' :
  bytes_ok bits -> bytes_ok bits' -> length bits = length bits' ->
  (forall i, 0 <= i < 8 * Z.of_nat (length bits) -> bit_on bits i = bit_on bits' i) -> bits = bits'.
Proof.
  intros H1 H2 Hl Hi. apply list_eq_same_length with (n := length bits); [done|done|].
  intros n v v' Hn E1 E2. apply Z.bits_inj'. intros k Hk.
  pose proof (Forall_lookup_1 _ _ _ _ H1 E1). pose proof (Forall_lookup_1 _ _ _ _ H2 E2).
  destruct (Z.lt_ge_cases k 8).
  - specialize (Hi (8 * Z.of_nat n + k) ltac:(lia)). unfold bit_on in Hi.
    rewrite (Z.mul_comm 8), Z.div_add_l, Z.div_small, Z.add_0_r, Nat2Z.id, E1, E2 in Hi by lia.
    rewrite Z.add_comm, Z.mod_add, Z.mod_small in Hi by lia. done.
  - assert (Hz : forall z, is_u8 z -> Z.testbit z k = false).
    { intros z Hz. rewrite <- (u8_small z Hz). unfold u8. apply Z.mod_pow2_bits_high. lia. }
    by rewrite !Hz.
Qed.

End Bits.

(** ** Counters *)

(** The usage counter of bit [i]. *)
Definition counter (f : list Z) (i : Z) : Z :=
  if i mod 2 =? 0 then Z.land (value_at f (i / 2)) 15 else Z.shiftr (value_at f (i / 2)) 4.

Section Counters.
Implicit Types f : list Z.

Lemma nibbles_of v :
  is_u8 v ->
  (0 <= Z.land v 15 < 16 /\ 0 <= Z.shiftr v 4 < 16)
  /\ (Z.shiftr (Z.land v (Z.lnot 15)) 4 = Z.shiftr v 4 /\ Z.shiftr (Z.land v 240) 4 = Z.shiftr v 4)
  /\ (Z.land v 240 =? 0) = (Z.shiftr v 4 =? 0).
Proof.
  intros Hv.
  pose proof (byte_cases (fun v =>
    ((0 <=? Z.land v 15) && (Z.land v 15 <? 16) && (0 <=? Z.shiftr v 4) && (Z.shiftr v 4 <? 16)
    && (Z.shiftr (Z.land v (Z.lnot 15)) 4 =? Z.shiftr v 4)
    && (Z.shiftr (Z.land v 240) 4 =? Z.shiftr v 4)
    && eqb (Z.land v 240 =? 0) (Z.shiftr v 4 =? 0))%bool) ltac:(vm_compute; reflexivity) v Hv) as H.
  cbn beta in H. rewrite !andb_true_iff, eqb_true_iff in H. bool_hyps. tauto.
Qed.

Lemma nibbles_join low high :
  0 <= low < 16 -> 0 <= high < 16 ->
  let v := u8 (Z.lor (Z.shiftl high 4) low) in Z.land v 15 = low /\ Z.shiftr v 4 = high.
Proof.
  intros Hl Hh v.
  assert (H : v = 16 * high + low).
  { pose proof (byte_cases (fun w => u8 (Z.lor (Z.shiftl (w / 16) 4) (w mod 16)) =? w)
      ltac:(vm_compute; reflexivity) (16 * high + low)) as H.
    rewrite Z.add_comm, Z.mul_comm, Z.div_add, Z.mod_add, Z.div_small, Z.mod_small in H by lia.
    apply Z.eqb_eq. unfold v. rewrite Z.add_comm, (Z.mul_comm 16). apply H. unfold is_u8. lia. }
  rewrite H, Z.shiftr_div_pow2 by lia. change 15 with (Z.ones 4). rewrite Z.land_ones by lia.
  change (2 ^ 4) with 16.
  rewrite Z.add_comm, (Z.mul_comm 16), Z.div_add, Z.mod_add, Z.div_small, Z.mod_small; lia.
Qed.

Lemma write_at_inside f slot v :
  0 <= slot < Z.of_nat (length f) -> write_at f slot [v] = <[Z.to_nat slot := v]> f.
Proof.
  intros H. unfold write_at. cbn [length].
  replace (Z.to_nat slot + 1 - length f)%nat with 0%nat by lia.
  rewrite app_nil_r. unfold splice. cbn [length app].
  rewrite insert_take_drop by lia. by rewrite Nat.add_1_r.
Qed.

Lemma value_at_byte f slot : bytes_ok f -> is_u8 (value_at f slot).
Proof.
  intros Hf. unfold value_at, read_byte. destruct (f !! _) as [v|] eqn:E; [|unfold is_u8; lia].
  by eapply Forall_lookup_1 in Hf.
Qed.

Lemma counter_range f i : bytes_ok f -> 0 <= counter f i < 16.
Proof.
  intros Hf. unfold counter. destruct (nibbles_of _ (value_at_byte f (i / 2) Hf)) as [[? ?] _].
  case_if; lia.
Qed.

(** Writing the counter of bit [i] and keeping the other half of its byte. *)
Lemma counter_update f i c :
  bytes_ok f -> 0 <= i < 2 * Z.of_nat (length f) -> 0 <= c < 16 ->
  let v := value_at f (i / 2) in
  let '(low, high) := if i mod 2 =? 0 then (c, Z.shiftr v 4) else (Z.land v 15, c) in
  let f' := write_at f (i / 2) [u8 (Z.lor (Z.shiftl high 4) low)] in
  bytes_ok f' /\ length f' = length f
  /\ forall j, 0 <= j -> counter f' j = if j =? i then c else counter f j.
Proof.
  intros Hf Hi Hc v. pose proof (nibbles_of v (value_at_byte f _ Hf)) as [[Hlo Hhi] _].
  destruct (if i mod 2 =? 0 then _ else _) as [low high] eqn:E. cbn zeta.
  assert (Hlh : 0 <= low < 16 /\ 0 <= high < 16 /\ (if i mod 2 =? 0 then low else high) = c
                /\ (if i mod 2 =? 0 then high else low)
                    = (if i mod 2 =? 0 then Z.shiftr v 4 else Z.land v 15)).
  { destruct (i mod 2 =? 0); injection E as <- <-; auto. }
  destruct Hlh as (Hl & Hh & Hmine & Hother). destruct (nibbles_join low high Hl Hh) as [Jl Jh].
  set (w := u8 _) in *.
  assert (Hs : 0 <= i / 2 < Z.of_nat (length f)).
  { split; [apply Z.div_pos; lia|]. apply Z.div_lt_upper_bound; lia. }
  rewrite write_at_inside by done. split_and!.
  - apply Forall_insert; [done|apply u8_range].
  - apply length_insert.
  - intros j Hj. unfold counter, value_at, read_byte.
    assert (0 <= j / 2) by (apply Z.div_pos; lia).
    destruct (decide (i / 2 = j / 2)) as [Es|Es].
    + rewrite <- Es, list_lookup_insert_eq by lia. fold (read_byte f (i / 2)).
      fold (value_at f (i / 2)). fold v.
      pose proof (Z.div_mod i 2 ltac:(lia)). pose proof (Z.div_mod j 2 ltac:(lia)).
      pose proof (Z.mod_pos_bound i 2 ltac:(lia)). pose proof (Z.mod_pos_bound j 2 ltac:(lia)).
      rewrite Jl, Jh. destruct (j =? i) eqn:Eji; bool_hyps.
      * by subst j; rewrite <- Hmine.
      * destruct (i mod 2 =? 0) eqn:Ei, (j mod 2 =? 0) eqn:Ej; bool_hyps; lia || done.
    + rewrite list_lookup_insert_ne by lia. destruct (j =? i) eqn:Eji; [|done].
      bool_hyps. by subst j.
Qed.

End Counters.

(** ** Invariant *)

Definition nbits (bf : GNUNET_CONTAINER_BloomFilter) : Z := 8 * bitArraySize bf.

(** [i] is the index of a bit of the filter. *)
Definition in_range (bf : GNUNET_CONTAINER_BloomFilter) (i : Z) : Prop := 0 <= i < nbits bf.

(** Sizes up to [2 ^ 29] bytes keep the bit indices inside of [unsigned int]. In a
    filter with a file, a bit is set if its counter is not zero. *)
Record bf_wf (bf : GNUNET_CONTAINER_BloomFilter) : Prop := {
  bf_len : Z.of_nat (length (bitArray bf)) = bitArraySize bf;
  bf_bytes : bytes_ok (bitArray bf);
  bf_size : 0 < bitArraySize bf <= 2 ^ 29;
  bf_file : forall f, fh bf = Some f -> bytes_ok f /\ 4 * bitArraySize bf <= Z.of_nat (length f)
    /\ forall i, in_range bf i -> bit_on (bitArray bf) i = (0 <? counter f i);
}.

(** What the filter knows about the use of a bit: the counter; without a file, 15
    for a bit that is set, as for a counter that reached its maximum. *)
Definition usage (bf : GNUNET_CONTAINER_BloomFilter) (i : Z) : Z :=
  match fh bf with
  | Some f => counter f i
  | None => if bit_on (bitArray bf) i then 15 else 0
  end.

(** The effect of an increment on what is known. *)
Definition bump (bf : GNUNET_CONTAINER_BloomFilter) (u : Z) : Z :=
  match fh bf with Some _ => if u <? 15 then u + 1 else u | None => 15 end.

(** The parameters that adding and removing do not change. *)
Definition shape (bf : GNUNET_CONTAINER_BloomFilter) : Z * Z * option nat :=
  (addressesPerElement bf, bitArraySize bf, length <$> fh bf).

Section Invariant.
Implicit Types bf : GNUNET_CONTAINER_BloomFilter.

Lemma bit_on_usage bf i : bf_wf bf -> in_range bf i -> bit_on (bitArray bf) i = (0 <? usage bf i).
Proof.
  intros Hw Hi. unfold usage. destruct (fh bf) as [f|] eqn:E.
  - by apply (bf_file _ Hw).
  - by destruct (bit_on _ _).
Qed.

Lemma usage_range bf i : bf_wf bf -> 0 <= usage bf i < 16.
Proof.
  intros Hw. unfold usage. destruct (fh bf) as [f|] eqn:E; [|case_if; lia].
  apply counter_range. by apply (bf_file _ Hw).
Qed.

Lemma in_range_bits bf i :
  bf_wf bf -> in_range bf i -> 0 <= i < 8 * Z.of_nat (length (bitArray bf)).
Proof. unfold in_range, nbits. intros [<- _ _ _]. done. Qed.

(** A step that changes bit [i] and its counter, to [c]. *)
Lemma file_step bf f bits' f' i c :
  bf_wf bf -> fh bf = Some f -> in_range bf i ->
  bytes_ok bits' /\ length bits' = length (bitArray bf)
  /\ (forall j, 0 <= j -> bit_on bits' j = if j =? i then (0 <? c) else bit_on (bitArray bf) j) ->
  bytes_ok f' /\ length f' = length f
  /\ (forall j, 0 <= j -> counter f' j = if j =? i then c else counter f j) ->
  let bf' := set_fh (Some f') (set_bits bits' bf) in
  bf_wf bf' /\ shape bf' = shape bf /\ usage bf' i = c
  /\ forall j, in_range bf j -> j <> i -> usage bf' j = usage bf j.
Proof.
  intros [Hl Hb Hs Hf] Ef Hi (Hb' & Hl' & Hon) (Hfb' & Hfl' & Hcu) bf'.
  destruct (Hf f Ef) as (Hfb & Hfl & Hcnt). unfold usage, shape, bf'; cbn. rewrite Ef.
  split_and!; [|cbn; by rewrite Hfl'| |].
  - split; cbn; [by rewrite Hl'|done|done|]. intros ? [= <-].
    split_and!; [done|by rewrite Hfl'|]. intros j Hj.
    rewrite Hon, Hcu by (unfold in_range in Hj; lia). case_if; [done|by apply Hcnt].
  - rewrite Hcu, Z.eqb_refl by (unfold in_range in Hi; lia). done.
  - intros j Hj Hne. rewrite Hcu, (proj2 (Z.eqb_neq j i)) by (unfold in_range in Hj; lia || done). done.
Qed.

Lemma counter_update_low f i c :
  bytes_ok f -> 0 <= i < 2 * Z.of_nat (length f) -> 0 <= c < 16 -> i mod 2 = 0 ->
  let f' := write_at f (i / 2)
              [u8 (Z.lor (Z.shiftl (Z.shiftr (value_at f (i / 2)) 4) 4) c)] in
  bytes_ok f' /\ length f' = length f
  /\ forall j, 0 <= j -> counter f' j = if j =? i then c else counter f j.
Proof.
  intros Hf Hi Hc E. pose proof (counter_update f i c Hf Hi Hc) as H. cbn zeta in H.
  by rewrite E in H.
Qed.

Lemma counter_update_high f i c :
  bytes_ok f -> 0 <= i < 2 * Z.of_nat (length f) -> 0 <= c < 16 -> i mod 2 <> 0 ->
  let f' := write_at f (i / 2)
              [u8 (Z.lor (Z.shiftl c 4) (Z.land (value_at f (i / 2)) 15))] in
  bytes_ok f' /\ length f' = length f
  /\ forall j, 0 <= j -> counter f' j = if j =? i then c else counter f j.
Proof.
  intros Hf Hi Hc E. pose proof (counter_update f i c Hf Hi Hc) as H. cbn zeta in H.
  by rewrite (proj2 (Z.eqb_neq _ _) E) in H.
Qed.

Lemma increment_spec bf i :
  bf_wf bf -> in_range bf i ->
  exists bf', incrementBitCallback bf i = Some (bf', GNUNET_YES) /\ bf_wf bf' /\ shape bf' = shape bf
    /\ usage bf' i = bump bf (usage bf i)
    /\ forall j, in_range bf j -> j <> i -> usage bf' j = usage bf j.
Proof.
  intros Hw Hi. pose proof (in_range_bits _ _ Hw Hi) as Hi'. pose proof Hw as [Hl Hb Hs Hf].
  unfold incrementBitCallback, incrementBit.
  destruct (setBit_spec _ i Hb Hi') as (bits & -> & Hb' & Hl' & Hon).
  destruct (fh bf) as [f|] eqn:Ef; cycle 1.
  { eexists. split; [done|]. unfold shape, usage. cbn. rewrite Ef, Hon, Z.eqb_refl by lia.
    split_and!; [|done|unfold bump; by rewrite Ef|].
    + split; cbn; try done. by rewrite Hl'.
    + intros j Hj Hne. rewrite Hon, (proj2 (Z.eqb_neq j i)) by (unfold in_range in *; lia). done. }
  destruct (Hf f eq_refl) as (Hfb & Hfl & Hcnt).
  assert (Hif : 0 <= i < 2 * Z.of_nat (length f)) by (unfold in_range, nbits in Hi; lia).
  pose proof (counter_range f i Hfb) as Hr.
  set (c := if counter f i <? 15 then counter f i + 1 else counter f i).
  assert (Hc : 0 <= c < 16 /\ 0 < c) by (unfold c; split_ifs; lia).
  destruct Hc as (Hc & Hpos).
  destruct (nibbles_of _ (value_at_byte f (i / 2) Hfb)) as (_ & [-> _] & _).
  assert (Hgo : forall f', bytes_ok f' /\ length f' = length f
            /\ (forall j, 0 <= j -> counter f' j = if j =? i then c else counter f j) ->
          exists bf', Some (set_fh (Some f') (set_bits bits bf), GNUNET_YES) = Some (bf', GNUNET_YES)
            /\ bf_wf bf' /\ shape bf' = shape bf
            /\ usage bf' i = bump bf (usage bf i)
            /\ forall j, in_range bf j -> j <> i -> usage bf' j = usage bf j).
  { intros f' Hf'. eexists. split; [done|].
    destruct (file_step bf f bits f' i c Hw Ef Hi) as (H1 & H2 & H3 & H4); [|done|].
    - split_and!; [done..|]. by rewrite (proj2 (Z.ltb_lt 0 c)).
    - split_and!; try done. rewrite H3. unfold bump, usage. by rewrite Ef. }
  unfold c, counter in *. destruct (i mod 2 =? 0) eqn:Ei; bool_hyps; apply Hgo.
  - by apply counter_update_low.
  - by apply counter_update_high.
Qed.

Lemma decrement_spec bf i :
  bf_wf bf -> in_range bf i -> fh bf <> None ->
  exists bf', decrementBitCallback bf i = Some (bf', GNUNET_YES) /\ bf_wf bf' /\ shape bf' = shape bf
    /\ usage bf' i = (if (0 <? usage bf i) && (usage bf i <? 15) then usage bf i - 1 else usage bf i)
    /\ forall j, in_range bf j -> j <> i -> usage bf' j = usage bf j.
Proof.
  intros Hw Hi Hne. pose proof (in_range_bits _ _ Hw Hi) as Hi'. pose proof Hw as [Hl Hb Hs Hf].
  unfold decrementBitCallback, decrementBit. destruct (fh bf) as [f|] eqn:Ef; [|done].
  destruct (Hf f eq_refl) as (Hfb & Hfl & Hcnt).
  assert (Hif : 0 <= i < 2 * Z.of_nat (length f)) by (unfold in_range, nbits in Hi; lia).
  pose proof (counter_range f i Hfb) as Hr.
  set (c := if (0 <? counter f i) && (counter f i <? 15) then counter f i - 1 else counter f i).
  assert (Hc : 0 <= c < 16) by (unfold c; split_ifs; lia).
  assert (Hbits : exists bits, (if c =? 0 then clearBit (bitArray bf) i else Some (bitArray bf)) = Some bits
            /\ bytes_ok bits /\ length bits = length (bitArray bf)
            /\ forall j, 0 <= j -> bit_on bits j = if j =? i then 0 <? c else bit_on (bitArray bf) j).
  { destruct (c =? 0) eqn:E0; bool_hyps.
    - rewrite E0. by apply clearBit_spec.
    - eexists. split_and!; [done..|]. intros j Hj. case_if; bool_hyps; [subst j|done].
      rewrite Hcnt by done. assert (Hci : 0 < counter f i) by (revert E0; unfold c; split_ifs; lia).
      rewrite !(proj2 (Z.ltb_lt _ _)) by lia. done. }
  destruct Hbits as (bits & Ebits & Hbs).
  destruct (nibbles_of _ (value_at_byte f (i / 2) Hfb)) as (_ & [_ ->] & _).
  assert (Hgo : forall f', bytes_ok f' /\ length f' = length f
            /\ (forall j, 0 <= j -> counter f' j = if j =? i then c else counter f j) ->
          exists bf', Some (set_fh (Some f') (set_bits bits bf), GNUNET_YES) = Some (bf', GNUNET_YES)
            /\ bf_wf bf' /\ shape bf' = shape bf /\ usage bf' i = c
            /\ forall j, in_range bf j -> j <> i -> usage bf' j = usage bf j).
  { intros f' Hf'. eexists. split; [done|]. by apply (file_step bf f bits f' i c Hw Ef Hi). }
  assert (Eu : usage bf i = counter f i) by (unfold usage; by rewrite Ef). rewrite Eu. fold c.
  clear Eu.
  unfold c, counter in *. destruct (i mod 2 =? 0) eqn:Ei; bool_hyps; rewrite Ebits; apply Hgo.
  - by apply counter_update_low.
  - by apply counter_update_high.
Qed.

End Invariant.

(** ** Elements *)

Section Elements.
Context (hash : list Z -> list Z).
Implicit Types bf : GNUNET_CONTAINER_BloomFilter.

(** The bits [iterateBits] visits, if the callback does not stop it. *)
Fixpoint word_bits (n : nat) (nb : Z) (slot : nat) (tmp : list Z) : list Z :=
  match n with
  | O => []
  | S n =>
      let '(tmp, slot) := if (slot <? 16)%nat then (tmp, slot) else (hash tmp, O) in
      rd32 (4 * slot) tmp mod nb :: word_bits n nb (S slot) tmp
  end.

Definition element_bits (bf : GNUNET_CONTAINER_BloomFilter) (e : list Z) : list Z :=
  word_bits (Z.to_nat (s32 (addressesPerElement bf))) (nbits bf) 0 e.

Fixpoint fold_bits {A : Type} (callback : A -> Z -> option (A * Z)) (arg : A) (l : list Z) : option A :=
  match l with
  | [] => Some arg
  | b :: l =>
      let? (arg, go) := callback arg b in
      if negb (GNUNET_YES =? go) then Some arg else fold_bits callback arg l
  end.

Lemma iterate_words_fold {A} n nb (callback : A -> Z -> option (A * Z)) slot tmp arg :
  iterate_words hash n nb callback slot tmp arg = fold_bits callback arg (word_bits n nb slot tmp).
Proof.
  revert slot tmp arg. induction n as [|n IH]; intros; [done|]. cbn [iterate_words word_bits].
  destruct (if (slot <? 16)%nat then _ else _) as [t s]. cbn [fold_bits].
  destruct (callback arg _) as [[a go]|]; [|done]. destruct (negb _); [done|apply IH].
Qed.

Lemma iterateBits_fold {A} bf (callback : A -> Z -> option (A * Z)) arg e :
  bf_wf bf -> iterateBits hash bf callback arg e = fold_bits callback arg (element_bits bf e).
Proof.
  intros [_ _ Hs _]. unfold iterateBits. rewrite u64_small by words.
  rewrite !(proj2 (Z.ltb_lt _ _)) by lia. rewrite Z.mul_comm. apply iterate_words_fold.
Qed.

Lemma element_bits_range bf e : 0 < nbits bf -> Forall (in_range bf) (element_bits bf e).
Proof.
  intros Hn. unfold element_bits. generalize (Z.to_nat (s32 (addressesPerElement bf))), 0%nat.
  intros n slot. revert slot e. induction n as [|n IH]; intros; [constructor|]. cbn [word_bits].
  destruct (if (slot <? 16)%nat then _ else _) as [t s]. constructor; [|apply IH].
  apply Z.mod_pos_bound. done.
Qed.

Lemma nbits_pos bf : bf_wf bf -> 0 < nbits bf.
Proof. intros [_ _ Hs _]. unfold nbits. lia. Qed.

Lemma element_bits_shape bf bf' e : shape bf' = shape bf -> element_bits bf' e = element_bits bf e.
Proof. unfold shape, element_bits, nbits. by intros [= -> -> _]. Qed.

Lemma in_range_shape bf bf' i : shape bf' = shape bf -> in_range bf i <-> in_range bf' i.
Proof. unfold shape, in_range, nbits. by intros [= _ -> _]. Qed.

(** How often [i] occurs in a list of bits. *)
Definition occ (l : list Z) (i : Z) : Z := Z.of_nat (count_occ Z.eq_dec l i).

Lemma occ_cons b l i : occ (b :: l) i = (if Z.eq_dec b i then 1 else 0) + occ l i.
Proof. unfold occ. cbn [count_occ]. destruct (Z.eq_dec b i); lia. Qed.

Lemma occ_nonneg l i : 0 <= occ l i.
Proof. unfold occ. lia. Qed.

Lemma occ_pos l i : 0 < occ l i <-> i ∈ l.
Proof.
  unfold occ. rewrite list_elem_of_In, (count_occ_In Z.eq_dec). lia.
Qed.

(** [n i] is how often bit [i] is used; the filter knows it, or has lost count. *)
Definition tracks bf (n : Z -> Z) : Prop :=
  forall i, in_range bf i -> usage bf i = 15 \/ usage bf i = n i.

Lemma tracks_add bf n l :
  bf_wf bf -> tracks bf n -> Forall (in_range bf) l ->
  exists bf', fold_bits incrementBitCallback bf l = Some bf' /\ bf_wf bf' /\ shape bf' = shape bf
    /\ tracks bf' (fun i => n i + occ l i).
Proof.
  revert bf n. induction l as [|b l IH]; intros bf n Hw Ht Hl.
  { exists bf. split_and!; try done. intros i Hi. unfold occ; cbn. rewrite Z.add_0_r. auto. }
  apply Forall_cons in Hl as [Hb Hl]. cbn [fold_bits].
  destruct (increment_spec bf b Hw Hb) as (bf1 & -> & Hw1 & Hs1 & Hu & Hr). cbn [negb].
  change (GNUNET_YES =? GNUNET_YES) with true. cbn [negb].
  destruct (IH bf1 (fun i => n i + if Z.eq_dec b i then 1 else 0)) as (bf' & -> & Hw' & Hs' & Ht').
  - done.
  - intros i Hi. apply (in_range_shape bf bf1 i Hs1) in Hi. destruct (Z.eq_dec b i) as [<-|Hne].
    + rewrite Hu. pose proof (usage_range bf b Hw). specialize (Ht b Hb).
      unfold bump. destruct (fh bf); [|by left]. split_ifs; lia.
    + rewrite Hr, Z.add_0_r by done. auto.
  - eapply Forall_impl; [exact Hl|]. intros i. by apply in_range_shape.
  - exists bf'. split_and!; [done..|congruence|]. intros i Hi. destruct (Ht' i Hi) as [?|E]; [by left|].
    right. rewrite E, occ_cons. lia.
Qed.

Lemma tracks_remove bf n l :
  bf_wf bf -> fh bf <> None -> (forall i, 0 <= n i) -> tracks bf (fun i => n i + occ l i) ->
  Forall (in_range bf) l ->
  exists bf', fold_bits decrementBitCallback bf l = Some bf' /\ bf_wf bf' /\ shape bf' = shape bf
    /\ tracks bf' n.
Proof.
  revert bf. induction l as [|b l IH]; intros bf Hw Hf Hn Ht Hl.
  { exists bf. split_and!; try done. intros i Hi. specialize (Ht i Hi). unfold occ in Ht; cbn in Ht.
    by rewrite Z.add_0_r in Ht. }
  apply Forall_cons in Hl as [Hb Hl]. cbn [fold_bits].
  destruct (decrement_spec bf b Hw Hb Hf) as (bf1 & -> & Hw1 & Hs1 & Hu & Hr). cbn [negb].
  change (GNUNET_YES =? GNUNET_YES) with true. cbn [negb].
  destruct (IH bf1) as (bf' & -> & Hw' & Hs' & Ht').
  - done.
  - unfold shape in Hs1. destruct (fh bf1), (fh bf); cbn in Hs1; congruence.
  - done.
  - intros i Hi. apply (in_range_shape bf bf1 i Hs1) in Hi. specialize (Ht i Hi).
    cbn beta in Ht. rewrite occ_cons in Ht. specialize (Hn i). pose proof (occ_nonneg l i).
    destruct (Z.eq_dec b i) as [<-|Hne].
    + rewrite Hu. pose proof (usage_range bf b Hw). split_ifs; lia.
    + rewrite Hr by done. by rewrite Z.add_0_l in Ht.
  - eapply Forall_impl; [exact Hl|]. intros i. by apply in_range_shape.
  - exists bf'. split_and!; [done..|congruence|done].
Qed.

(** The filter knows the exact numbers. *)
Definition exact bf (n : Z -> Z) : Prop := forall i, in_range bf i -> usage bf i = n i.

Lemma exact_add bf n l :
  bf_wf bf -> fh bf <> None -> exact bf n -> (forall i, n i + occ l i < 15) ->
  Forall (in_range bf) l ->
  exists bf', fold_bits incrementBitCallback bf l = Some bf' /\ exact bf' (fun i => n i + occ l i).
Proof.
  revert bf n. induction l as [|b l IH]; intros bf n Hw Hf He Hlt Hl.
  { exists bf. split; [done|]. intros i Hi. unfold occ; cbn. rewrite Z.add_0_r. auto. }
  apply Forall_cons in Hl as [Hb Hl]. cbn [fold_bits].
  destruct (increment_spec bf b Hw Hb) as (bf1 & -> & Hw1 & Hs1 & Hu & Hr).
  change (GNUNET_YES =? GNUNET_YES) with true. cbn [negb].
  destruct (IH bf1 (fun i => n i + if Z.eq_dec b i then 1 else 0)) as (bf' & -> & He').
  - done.
  - unfold shape in Hs1. destruct (fh bf1), (fh bf); cbn in Hs1; congruence.
  - intros i Hi. apply (in_range_shape bf bf1 i Hs1) in Hi. destruct (Z.eq_dec b i) as [<-|Hne].
    + rewrite Hu, (He b Hb). specialize (Hlt b). rewrite occ_cons in Hlt.
      destruct (Z.eq_dec b b) as [_|]; [|done]. pose proof (occ_nonneg l b).
      unfold bump. destruct (fh bf); [|done]. split_ifs; lia.
    + rewrite Hr, Z.add_0_r by done. auto.
  - intros i. specialize (Hlt i). rewrite occ_cons in Hlt. lia.
  - eapply Forall_impl; [exact Hl|]. intros i. by apply in_range_shape.
  - exists bf'. split; [done|]. intros i Hi. rewrite (He' i Hi), occ_cons. lia.
Qed.

Lemma exact_remove bf n l :
  bf_wf bf -> fh bf <> None -> (forall i, 0 <= n i) ->
  exact bf (fun i => n i + occ l i) -> (forall i, n i + occ l i < 15) -> Forall (in_range bf) l ->
  exists bf', fold_bits decrementBitCallback bf l = Some bf' /\ exact bf' n.
Proof.
  revert bf. induction l as [|b l IH]; intros bf Hw Hf Hn He Hlt Hl.
  { exists bf. split; [done|]. intros i Hi. rewrite (He i Hi). unfold occ; cbn. lia. }
  apply Forall_cons in Hl as [Hb Hl]. cbn [fold_bits].
  destruct (decrement_spec bf b Hw Hb Hf) as (bf1 & -> & Hw1 & Hs1 & Hu & Hr).
  change (GNUNET_YES =? GNUNET_YES) with true. cbn [negb].
  destruct (IH bf1) as (bf' & -> & He').
  - done.
  - unfold shape in Hs1. destruct (fh bf1), (fh bf); cbn in Hs1; congruence.
  - done.
  - intros i Hi. apply (in_range_shape bf bf1 i Hs1) in Hi. specialize (He i Hi). specialize (Hlt i).
    cbn beta in He. rewrite occ_cons in He, Hlt. specialize (Hn i). pose proof (occ_nonneg l i).
    destruct (Z.eq_dec b i) as [<-|Hne].
    + rewrite Hu. split_ifs; lia.
    + rewrite Hr by done. lia.
  - intros i. specialize (Hlt i). rewrite occ_cons in Hlt. destruct (Z.eq_dec b i); lia.
  - eapply Forall_impl; [exact Hl|]. intros i. by apply in_range_shape.
  - by exists bf'.
Qed.

Lemma test_spec bf e :
  bf_wf bf ->
  GNUNET_CONTAINER_bloomfilter_test hash (Some bf) e =
  Some (if forallb (bit_on (bitArray bf)) (element_bits bf e) then GNUNET_YES else GNUNET_NO).
Proof.
  intros Hw. cbn [GNUNET_CONTAINER_bloomfilter_test]. rewrite iterateBits_fold by done.
  pose proof (element_bits_range bf e (nbits_pos bf Hw)) as Hr.
  induction Hr as [|b l Hb _ IH]; [done|]. cbn [fold_bits forallb].
  unfold testBitCallback at 1. rewrite testBit_spec by (by apply in_range_bits).
  destruct (bit_on (bitArray bf) b); [exact IH|done].
Qed.

Lemma test_yes bf e :
  bf_wf bf ->
  GNUNET_CONTAINER_bloomfilter_test hash (Some bf) e = Some GNUNET_YES
  <-> forallb (bit_on (bitArray bf)) (element_bits bf e) = true.
Proof.
  intros Hw. rewrite test_spec by done.
  destruct (forallb (bit_on (bitArray bf)) (element_bits bf e)); split; intros H; try done.
Qed.

End Elements.

(** ** Empty filters *)

Section Empty.

Lemma write_at_spec f pos data :
  (Z.to_nat pos <= length f)%nat ->
  write_at f pos data = take (Z.to_nat pos) f ++ data ++ drop (Z.to_nat pos + length data) f.
Proof.
  intros Hp. unfold write_at, splice. rewrite take_app_le by done. do 2 f_equal.
  destruct (decide (Z.to_nat pos + length data <= length f)%nat) as [Hle|Hgt].
  - rewrite drop_app_le by done.
    replace (Z.to_nat pos + length data - length f)%nat with 0%nat by lia. apply app_nil_r.
  - rewrite !drop_ge; [done|lia|]. rewrite length_app, length_replicate. lia.
Qed.

Lemma write_zeros_spec fuel f pos left :
  0 <= pos -> 0 <= left <= Z.of_nat fuel * BUFFSIZE -> (Z.to_nat pos <= length f)%nat ->
  write_zeros fuel f pos left
  = Some (take (Z.to_nat pos) f ++ replicate (Z.to_nat left) 0 ++ drop (Z.to_nat (pos + left)) f).
Proof.
  revert f pos left.
  assert (H0 : forall fuel f pos, write_zeros fuel f pos 0 = Some (take (Z.to_nat pos) f
            ++ replicate (Z.to_nat 0) 0 ++ drop (Z.to_nat (pos + 0)) f)).
  { intros fl f pos. rewrite Z.add_0_r. change (replicate (Z.to_nat 0) 0) with (@nil Z).
    cbn [app]. rewrite take_drop. by destruct fl. }
  induction fuel as [|fuel IH]; intros f pos left Hp Hl Hlen.
  { by replace left with 0 by lia. }
  destruct (decide (left = 0)) as [->|Hne]; [apply H0|].
  cbn [write_zeros]. rewrite (proj2 (Z.ltb_lt 0 left)) by lia.
  set (res := if BUFFSIZE <? left then BUFFSIZE else left).
  assert (Hres : 0 < res <= left /\ (res = BUFFSIZE \/ res = left)).
  { unfold res, BUFFSIZE in *. split_ifs; lia. }
  destruct Hres as [Hres Hcase].
  set (f1 := write_at f pos (replicate (Z.to_nat res) 0)).
  assert (Ef1 : f1 = (take (Z.to_nat pos) f ++ replicate (Z.to_nat res) 0)
                     ++ drop (Z.to_nat (pos + res)) f).
  { unfold f1. rewrite write_at_spec, length_replicate, app_assoc by done. do 2 f_equal. lia. }
  assert (Hl1 : length (take (Z.to_nat pos) f ++ replicate (Z.to_nat res) 0)
                = Z.to_nat (pos + res)).
  { rewrite length_app, length_take, length_replicate. lia. }
  rewrite IH; [|lia| |rewrite Ef1, length_app, Hl1; lia].
  - f_equal. rewrite Ef1. rewrite take_app_le, take_ge by lia. rewrite <- !app_assoc. f_equal.
    rewrite app_assoc, <- replicate_add. f_equal; [f_equal; lia|].
    rewrite app_assoc, drop_app_ge, drop_drop, Hl1 by lia. f_equal. lia.
  - clearbody res. unfold BUFFSIZE in *. lia.
Qed.

Lemma make_empty_spec f size :
  0 <= size ->
  make_empty_file (Some f) size
  = Some (Some (replicate (Z.to_nat size) 0 ++ drop (Z.to_nat size) f), GNUNET_OK).
Proof.
  intros H. unfold make_empty_file. rewrite write_zeros_spec; [done|lia| |cbn; lia].
  pose proof (Z.div_pos size BUFFSIZE H ltac:(unfold BUFFSIZE; lia)).
  pose proof (Z.mod_pos_bound size BUFFSIZE ltac:(unfold BUFFSIZE; lia)).
  pose proof (Z.div_mod size BUFFSIZE ltac:(unfold BUFFSIZE; lia)).
  unfold BUFFSIZE in *. lia.
Qed.

Lemma bit_on_zeros n i : bit_on (replicate n 0) i = false.
Proof.
  unfold bit_on. destruct (replicate n 0 !! _) as [v|] eqn:E; [|done].
  apply lookup_replicate in E as [-> _]. apply Z.bits_0.
Qed.

Lemma counter_zeros n t i : 0 <= i < 2 * Z.of_nat n -> counter (replicate n 0 ++ t) i = 0.
Proof.
  intros Hi. unfold counter.
  assert (value_at (replicate n 0 ++ t) (i / 2) = 0) as ->; [|by case_if].
  unfold value_at, read_byte.
  assert (Z.to_nat (i / 2) < n)%nat.
  { apply Nat2Z.inj_lt. rewrite Z2Nat.id by (apply Z.div_pos; lia). apply Z.div_lt_upper_bound; lia. }
  rewrite lookup_app_l by (rewrite length_replicate; lia). by rewrite lookup_replicate_2.
Qed.

Lemma bytes_ok_zeros n : bytes_ok (replicate n 0).
Proof. apply Forall_replicate. unfold is_u8. lia. Qed.

(** A filter whose bits and counters are zero. *)
Lemma empty_wf size k f :
  0 < size <= 2 ^ 29 ->
  (forall g, f = Some g -> exists t, g = replicate (Z.to_nat (4 * size)) 0 ++ t /\ bytes_ok t) ->
  let bf := mk_bf (replicate (Z.to_nat size) 0) f k size in
  bf_wf bf /\ exact bf (fun _ => 0).
Proof.
  intros Hs Hf bf. split.
  - split; cbn; [rewrite length_replicate; lia|apply bytes_ok_zeros|done|].
    intros g Hg. destruct (Hf g Hg) as (t & -> & Ht). split_and!.
    + apply Forall_app; split; [apply bytes_ok_zeros|done].
    + rewrite length_app, length_replicate. lia.
    + intros i Hi. rewrite bit_on_zeros, counter_zeros; [done|].
      unfold in_range, nbits in Hi; cbn in Hi. lia.
  - intros i Hi. unfold usage; cbn. destruct f as [g|]; [|by rewrite bit_on_zeros].
    destruct (Hf g eq_refl) as (t & -> & Ht). apply counter_zeros.
    unfold in_range, nbits in Hi; cbn in Hi. lia.
Qed.

Lemma exact_tracks bf n : exact bf n -> tracks bf n.
Proof. intros H i Hi. right. by apply H. Qed.

End Empty.

(** ** Loading *)

Section Loading.

Lemma power_at_least_spec fuel m size :
  0 <= m <= 63 -> 63 - m <= Z.of_nat fuel -> size <= 2 ^ 63 ->
  exists n, power_at_least fuel (2 ^ m) size = Some (2 ^ n) /\ m <= n <= 63 /\ size <= 2 ^ n
    /\ (n = m \/ 2 ^ (n - 1) < size).
Proof.
  revert m. induction fuel as [|fuel IH]; intros m Hm Hf Hs; cbn [power_at_least].
  - replace m with 63 by lia. exists 63.
    change (2 ^ 63 <? u64 (2 ^ 63 * 2)) with false. rewrite andb_false_r. split_and!; done || lia.
  - destruct (2 ^ m <? size) eqn:E; bool_hyps; cbn [andb].
    2:{ exists m. split_and!; done || lia. }
    assert (m < 63) by (destruct (Z.eq_dec m 63); [subst; lia|lia]).
    assert (Hp : 2 ^ m * 2 = 2 ^ (m + 1)) by (rewrite Z.pow_add_r; lia).
    assert (2 ^ (m + 1) < 2 ^ 64) by (apply Z.pow_lt_mono_r; lia).
    assert (0 < 2 ^ m) by (apply Z.pow_pos_nonneg; lia).
    rewrite u64_small by (unfold is_u64; lia). rewrite (proj2 (Z.ltb_lt _ _)) by lia. rewrite Hp.
    destruct (IH (m + 1)) as (n & -> & Hn & Hle & Hmin); [lia|lia|done|].
    exists n. split_and!; try done; try lia. destruct Hmin as [->|?]; [|by right].
    right. by replace (m + 1 - 1) with m by lia.
Qed.

Lemma power_at_least_exact n :
  0 <= n <= 63 -> power_at_least 64 1 (2 ^ n) = Some (2 ^ n).
Proof.
  intros Hn. destruct (power_at_least_spec 64 0 (2 ^ n)) as (k & E & Hk & Hle & Hmin);
    [lia|cbn; lia|apply Z.pow_le_mono_r; lia|].
  change (2 ^ 0) with 1 in E. rewrite E. do 2 f_equal.
  apply Z.pow_le_mono_r_iff in Hle; [|lia..].
  destruct Hmin as [->|Hlt]; [lia|]. apply Z.pow_lt_mono_r_iff in Hlt; lia.
Qed.

Lemma counter_cons v l i :
  0 <= i -> counter (v :: l) i =
    if i =? 0 then Z.land v 15 else if i =? 1 then Z.shiftr v 4 else counter l (i - 2).
Proof.
  intros Hi. destruct (i =? 0) eqn:E0; bool_hyps; [by subst|].
  destruct (i =? 1) eqn:E1; bool_hyps; [by subst|].
  unfold counter, value_at, read_byte.
  replace i with ((i - 2) + 1 * 2) by lia. rewrite Z.mod_add, Z.div_add by lia.
  rewrite Z2Nat.inj_add by (try apply Z.div_pos; lia). change (Z.to_nat 1) with 1%nat.
  rewrite Nat.add_1_r. cbn [lookup list_lookup]. by replace (i - 2 + 1 * 2 - 2) with (i - 2) by lia.
Qed.

Lemma nonzero_pos x : 0 <= x < 16 -> negb (x =? 0) = (0 <? x).
Proof.
  intros Hx. destruct (Z.eq_dec x 0) as [->|Hne]; [done|].
  rewrite (proj2 (Z.eqb_neq x 0)), (proj2 (Z.ltb_lt 0 x)) by lia. done.
Qed.

(** Setting a bit under a condition. *)
Lemma setBit_if (c : bool) bits i :
  bytes_ok bits -> 0 <= i < 8 * Z.of_nat (length bits) ->
  exists bits', (if c then setBit bits i else Some bits) = Some bits' /\ bytes_ok bits'
    /\ length bits' = length bits
    /\ forall j, 0 <= j -> bit_on bits' j = ((j =? i) && c) || bit_on bits j.
Proof.
  intros Hb Hi. destruct c.
  - destruct (setBit_spec bits i Hb Hi) as (b & -> & ? & ? & Hon). exists b. split_and!; [done..|].
    intros j Hj. rewrite Hon by done. by destruct (j =? i).
  - exists bits. split_and!; try done. intros j Hj. by rewrite andb_false_r.
Qed.

(** The bits of a chunk [l] that starts with bit [pos]. *)
Definition chunk_bit (l : list Z) (pos j : Z) : bool :=
  (pos <=? j) && (j <? pos + 2 * Z.of_nat (length l)) && (0 <? counter l (j - pos)).

Lemma load_chunk_spec l pos bits :
  bytes_ok l -> bytes_ok bits -> 0 <= pos ->
  pos + 2 * Z.of_nat (length l) <= 8 * Z.of_nat (length bits) <= 2 ^ 32 ->
  exists bits', load_chunk l pos bits = Some bits' /\ bytes_ok bits' /\ length bits' = length bits
    /\ forall j, 0 <= j -> bit_on bits' j = bit_on bits j || chunk_bit l pos j.
Proof.
  intros Hl. revert pos bits. induction Hl as [|v l Hv Hl IH]; intros pos bits Hb Hp Hfit.
  { exists bits. split_and!; try done. intros j Hj. unfold chunk_bit. cbn [length].
    destruct (pos <=? j) eqn:E1, (j <? pos + 2 * Z.of_nat 0) eqn:E2; bool_hyps;
      try lia; by rewrite ?orb_false_r. }
  cbn [load_chunk length] in *. rewrite !u32_small by words.
  destruct (nibbles_of v Hv) as ([Hlo Hhi] & _ & Hz). rewrite Hz.
  destruct (setBit_if (negb (Z.land v 15 =? 0)) bits pos) as (b1 & -> & Hb1 & Hl1 & Hon1); [done|lia|].
  destruct (setBit_if (negb (Z.shiftr v 4 =? 0)) b1 (pos + 1)) as (b2 & -> & Hb2 & Hl2 & Hon2);
    [done|rewrite Hl1; lia|].
  destruct (IH (pos + 2) b2) as (b3 & -> & Hb3 & Hl3 & Hon3); [done|lia|rewrite Hl2, Hl1; lia|].
  exists b3. split_and!; [done..|congruence|]. intros j Hj. rewrite Hon3, Hon2, Hon1 by done.
  unfold chunk_bit. cbn [length].
  destruct (Z.lt_trichotomy j pos) as [Hlt|[->|Hgt]].
  - rewrite !(proj2 (Z.leb_gt _ j)), !(proj2 (Z.eqb_neq j _)) by lia.
    by rewrite !andb_false_l, !orb_false_r.
  - rewrite (proj2 (Z.leb_gt (pos + 2) pos)), (proj2 (Z.leb_le pos pos)),
      (proj2 (Z.eqb_neq pos (pos + 1))), Z.eqb_refl, (proj2 (Z.ltb_lt pos (pos + 2 * Z.of_nat (S (length l))))) by lia.
    rewrite Z.sub_diag, counter_cons by lia. cbn [Z.eqb andb orb].
    rewrite orb_false_r. rewrite orb_comm. f_equal.
    by apply nonzero_pos.
  - rewrite (proj2 (Z.eqb_neq j pos)), (proj2 (Z.leb_le pos j)) by lia. rewrite counter_cons by lia.
    rewrite (proj2 (Z.eqb_neq (j - pos) 0)) by lia. cbn [andb orb].
    destruct (Z.eq_dec j (pos + 1)) as [->|Hne].
    + rewrite (proj2 (Z.leb_gt (pos + 2) (pos + 1))), Z.eqb_refl, (proj2 (Z.ltb_lt (pos + 1) (pos + 2 * Z.of_nat (S (length l))))),
        (proj2 (Z.eqb_eq (pos + 1 - pos) 1)) by lia. cbn [andb orb].
      rewrite orb_false_r, orb_comm. f_equal.
      by apply nonzero_pos.
    + rewrite (proj2 (Z.eqb_neq j (pos + 1))), (proj2 (Z.leb_le (pos + 2) j)),
        (proj2 (Z.eqb_neq (j - pos) 1)) by lia. cbn [andb orb].
      replace (pos + 2 + 2 * Z.of_nat (length l)) with (pos + 2 * Z.of_nat (S (length l))) by lia.
      by replace (j - (pos + 2)) with (j - pos - 2) by lia.
Qed.

Lemma counter_slice f fpos n j :
  0 <= fpos -> 2 * fpos <= j < 2 * (fpos + Z.of_nat n) ->
  counter (slice (Z.to_nat fpos) n f) (j - 2 * fpos) = counter f j.
Proof.
  intros Hf Hj. set (k := j - 2 * fpos) in *. replace j with (k + fpos * 2) by lia.
  unfold counter, value_at, read_byte. rewrite Z.mod_add, Z.div_add by lia.
  assert (0 <= k / 2 < Z.of_nat n).
  { split; [apply Z.div_pos; lia|]. apply Z.div_lt_upper_bound; lia. }
  rewrite lookup_slice by lia. by replace (Z.to_nat (k / 2 + fpos)) with (Z.to_nat fpos + Z.to_nat (k / 2))%nat by lia.
Qed.

Lemma load_loop_spec fuel f fpos bits size :
  bytes_ok f -> Z.of_nat (length f) = 4 * size -> size <= 2 ^ 29 -> 0 <= fpos ->
  bytes_ok bits -> Z.of_nat (length bits) = size -> 4 * size - fpos <= Z.of_nat fuel * BUFFSIZE ->
  exists bits', load_loop fuel f fpos (2 * fpos) (8 * size) bits = Some bits' /\ bytes_ok bits'
    /\ length bits' = length bits
    /\ forall j, 0 <= j < 8 * size ->
         bit_on bits' j = bit_on bits j || ((2 * fpos <=? j) && (0 <? counter f j)).
Proof.
  intros Hf Hlf Hs. revert fpos bits. induction fuel as [|fuel IH]; intros fpos bits Hp Hb Hlb Hfuel;
    cbn [load_loop]; (destruct (2 * fpos <? 8 * size) eqn:E; bool_hyps; [|
      exists bits; split_and!; try done; intros j Hj;
      rewrite (proj2 (Z.leb_gt (2 * fpos) j)) by lia; by rewrite orb_false_r]); [lia|].
  set (chunk := slice _ _ f).
  assert (Hlc : Z.of_nat (length chunk) = Z.min BUFFSIZE (4 * size - fpos)).
  { unfold chunk, slice. rewrite length_take, length_drop. unfold BUFFSIZE. lia. }
  rewrite (proj2 (Z.eqb_neq _ 0)) by (rewrite Hlc; unfold BUFFSIZE; lia).
  destruct (load_chunk_spec chunk (2 * fpos) bits) as (b1 & -> & Hb1 & Hl1 & Hon1);
    [by apply bytes_ok_slice|done|lia|rewrite Hlc; unfold BUFFSIZE; lia|].
  assert (Hbit : forall j, 0 <= j < 8 * size -> chunk_bit chunk (2 * fpos) j
            = (2 * fpos <=? j) && (j <? 2 * (fpos + Z.of_nat (length chunk))) && (0 <? counter f j)).
  { intros j Hj. unfold chunk_bit. rewrite Z.mul_add_distr_l.
    destruct (2 * fpos <=? j) eqn:E1, (j <? 2 * fpos + 2 * Z.of_nat (length chunk)) eqn:E2; try done.
    apply Z.leb_le in E1. apply Z.ltb_lt in E2. cbn [andb]. f_equal.
    apply counter_slice; [done|]. rewrite Hlc in E2. unfold BUFFSIZE in *. lia. }
  destruct (Z.of_nat (length chunk) <? BUFFSIZE) eqn:Elt.
  - apply Z.ltb_lt in Elt. exists b1. split_and!; try done. intros j Hj. rewrite Hon1, Hbit by lia.
    rewrite (proj2 (Z.ltb_lt j _)) by lia. by rewrite andb_true_r.
  - apply Z.ltb_ge in Elt.
    assert (Hlen : Z.of_nat (length chunk) = BUFFSIZE) by lia.
    replace (2 * fpos + BUFFSIZE * 2) with (2 * (fpos + Z.of_nat (length chunk))) by lia.
    destruct (IH (fpos + Z.of_nat (length chunk)) b1) as (b2 & -> & Hb2 & Hl2 & Hon2);
      [lia|done|by rewrite Hl1|unfold BUFFSIZE in *; lia|].
    exists b2. split_and!; [done..|congruence|]. intros j Hj. rewrite Hon2, Hon1, Hbit by lia.
    rewrite <- orb_assoc. f_equal. rewrite (Z.ltb_antisym (2 * (fpos + Z.of_nat (length chunk))) j).
    destruct (2 * (fpos + Z.of_nat (length chunk)) <=? j) eqn:E3; cbn [negb].
    + apply Z.leb_le in E3. rewrite (proj2 (Z.leb_le (2 * fpos) j)) by lia. done.
    + by rewrite andb_true_r, orb_false_r.
Qed.

(** Filters made by [load] and used since: their size is a power of two and the
    file has the size it was made with. *)
Definition loadable (bf : GNUNET_CONTAINER_BloomFilter) : Prop :=
  (exists n, 16 <= n <= 29 /\ bitArraySize bf = 2 ^ n) /\ addressesPerElement bf <> 0
  /\ exists f, fh bf = Some f /\ Z.of_nat (length f) = 4 * bitArraySize bf.

Lemma loadable_shape bf bf' : shape bf' = shape bf -> loadable bf -> loadable bf'.
Proof.
  unfold shape, loadable. intros [= -> -> Hf] (Hn & Hk & f & Ef & Hl). split_and!; [done..|].
  rewrite Ef in Hf. destruct (fh bf') as [f'|]; cbn in Hf; [|done].
  exists f'. split; [done|]. by injection Hf as ->.
Qed.

Lemma reload_spec bf :
  bf_wf bf -> loadable bf ->
  GNUNET_CONTAINER_bloomfilter_load (fh bf) (bitArraySize bf) (addressesPerElement bf)
  = Some (Some bf).
Proof.
  intros [Hl Hb Hs Hf] ((n & Hn & En) & Hk & f & Ef & Hlf).
  destruct (Hf f Ef) as (Hfb & _ & Hcnt). unfold GNUNET_CONTAINER_bloomfilter_load.
  assert (Hge : 2 ^ 16 <= 2 ^ n) by (apply Z.pow_le_mono_r; lia).
  rewrite (proj2 (Z.eqb_neq _ _) Hk), (proj2 (Z.eqb_neq (bitArraySize bf) 0)) by lia. cbn [orb].
  rewrite (proj2 (Z.ltb_ge _ BUFFSIZE)) by (unfold BUFFSIZE; lia).
  rewrite En at 1. rewrite power_at_least_exact by lia. rewrite <- En, Ef.
  rewrite (proj2 (Z.eqb_neq _ 0)) by lia. rewrite !u64_small by words.
  rewrite (proj2 (Z.eqb_eq _ _)) by lia. cbn [negb].
  destruct (load_loop_spec (Z.to_nat (bitArraySize bf * 8 / (BUFFSIZE * 2) + 1)) f 0
    (replicate (Z.to_nat (bitArraySize bf)) 0) (bitArraySize bf))
    as (bits & E & Hb' & Hl' & Hon); try done; try lia.
  - apply bytes_ok_zeros.
  - rewrite length_replicate. lia.
  - pose proof (Z.div_mod (bitArraySize bf * 8) (BUFFSIZE * 2) ltac:(done)).
    pose proof (Z.mod_pos_bound (bitArraySize bf * 8) (BUFFSIZE * 2) ltac:(done)).
    pose proof (Z.div_pos (bitArraySize bf * 8) (BUFFSIZE * 2) ltac:(lia) ltac:(done)).
    unfold BUFFSIZE in *. lia.
  - rewrite Z.mul_0_r, (Z.mul_comm 8) in E. rewrite E. do 2 f_equal.
    rewrite length_replicate in Hl'.
    replace bits with (bitArray bf); [unfold set_bits; cbn; rewrite <- Ef; by destruct bf|].
    apply bits_ext; [done|done|lia|]. intros i Hi. rewrite Hl in Hi.
    rewrite Hon, bit_on_zeros, (proj2 (Z.leb_le _ i)) by lia. cbn [orb andb]. by apply Hcnt.
Qed.

End Loading.

(** ** Runs *)

Section Runs.
Context (hash : list Z -> list Z).
Implicit Types bf : GNUNET_CONTAINER_BloomFilter.

(** How often the elements [es] use bit [i]. *)
Definition uses bf (es : list (list Z)) (i : Z) : Z :=
  foldr (fun e n => n + occ (element_bits hash bf e) i) 0 es.

Lemma uses_nonneg bf es i : 0 <= uses bf es i.
Proof.
  induction es as [|e es IH]; cbn [uses foldr]; [done|].
  pose proof (occ_nonneg (element_bits hash bf e) i). unfold uses in IH. lia.
Qed.

(** The order of the elements does not matter. *)
#[export] Instance uses_proper bf : Proper ((≡ₚ) ==> (=) ==> (=)) (uses bf).
Proof.
  intros es es' H i ? <-. unfold uses.
  induction H; cbn [foldr]; [done|by f_equal|lia|congruence].
Qed.

Lemma uses_shape bf bf' es i : shape bf' = shape bf -> uses bf' es i = uses bf es i.
Proof.
  intros Hs. unfold uses. induction es as [|e es IH]; cbn [foldr]; [done|].
  by rewrite IH, (element_bits_shape hash bf bf').
Qed.

Lemma uses_elem bf es e i : e ∈ es -> i ∈ element_bits hash bf e -> 0 < uses bf es i.
Proof.
  intros He Hi. apply elem_of_Permutation in He as [es' ->]. apply occ_pos in Hi.
  pose proof (uses_nonneg bf es' i). unfold uses in *. cbn [foldr]. lia.
Qed.

Lemma uses_pos bf es i : 0 < uses bf es i -> exists e, e ∈ es /\ i ∈ element_bits hash bf e.
Proof.
  induction es as [|e es IH]; unfold uses; cbn [foldr]; [lia|]. intros H.
  destruct (Z.eq_dec (occ (element_bits hash bf e) i) 0) as [E|E].
  - destruct IH as (e' & ? & ?); [unfold uses; lia|]. exists e'. split; [by right|done].
  - exists e. split; [left|]. apply occ_pos. pose proof (occ_nonneg (element_bits hash bf e) i). lia.
Qed.

(** A client adds elements, removes elements it added, clears the filter. The
    second component is what it added and has not removed. *)
Inductive bloom_step : GNUNET_CONTAINER_BloomFilter * list (list Z) ->
    GNUNET_CONTAINER_BloomFilter * list (list Z) -> Prop :=
  | bloom_add bf es e bf' :
      GNUNET_CONTAINER_bloomfilter_add hash bf e = Some bf' -> bloom_step (bf, es) (bf', e :: es)
  | bloom_remove bf es e es' bf' :
      es ≡ₚ e :: es' -> GNUNET_CONTAINER_bloomfilter_remove hash bf e = Some bf' ->
      bloom_step (bf, es) (bf', es')
  | bloom_clear bf es bf' :
      GNUNET_CONTAINER_bloomfilter_clear bf = Some bf' -> bloom_step (bf, es) (bf', []).

(** A filter as it is made: in memory, or with a new file. *)
Definition created bf : Prop :=
  exists size k, 0 < size <= 2 ^ 29 /\
    (GNUNET_CONTAINER_bloomfilter_init None size k = Some bf
     \/ GNUNET_CONTAINER_bloomfilter_load None size k = Some (Some bf)).

(** The filter stands for the elements. *)
Definition holds bf es : Prop := bf_wf bf /\ tracks bf (uses bf es).

Lemma load_new size k :
  0 < size <= 2 ^ 29 -> k <> 0 ->
  exists bf, GNUNET_CONTAINER_bloomfilter_load None size k = Some (Some bf)
    /\ bf_wf bf /\ exact bf (fun _ => 0) /\ loadable bf /\ addressesPerElement bf = k.
Proof.
  intros Hs Hk. unfold GNUNET_CONTAINER_bloomfilter_load.
  rewrite (proj2 (Z.eqb_neq k 0) Hk). cbn [orb]. rewrite (proj2 (Z.eqb_neq size 0)) by lia.
  set (sz := if size <? BUFFSIZE then BUFFSIZE else size).
  assert (Hsz : 2 ^ 16 <= sz <= 2 ^ 29) by (unfold sz, BUFFSIZE; split_ifs; lia).
  destruct (power_at_least_spec 64 0 sz) as (n & E & Hn & Hle & Hmin); [lia|cbn; lia|lia|].
  change (2 ^ 0) with 1 in E. rewrite E.
  assert (Hn' : 16 <= n <= 29).
  { split.
    - assert (H16 : 2 ^ 16 <= 2 ^ n) by lia. apply Z.pow_le_mono_r_iff in H16; lia.
    - destruct Hmin as [->|Hlt]; [lia|].
      assert (H29 : 2 ^ (n - 1) < 2 ^ 29) by lia. apply Z.pow_lt_mono_r_iff in H29; lia. }
  assert (2 ^ n <= 2 ^ 29) by (apply Z.pow_le_mono_r; lia).
  rewrite u64_small, make_empty_spec by words. rewrite drop_nil, app_nil_r.
  eexists. split; [done|].
  destruct (empty_wf (2 ^ n) k (Some (replicate (Z.to_nat (2 ^ n * 4)) 0))) as [Hw He]; [lia| |].
  { intros g [= <-]. exists []. rewrite app_nil_r, (Z.mul_comm 4). split; [done|constructor]. }
  split_and!; [done..| |done]. split; [by exists n|]. split; [done|].
  eexists. split; [done|]. rewrite length_replicate. cbn. lia.
Qed.

Lemma load_new_spec size k bf :
  0 < size <= 2 ^ 29 -> GNUNET_CONTAINER_bloomfilter_load None size k = Some (Some bf) ->
  bf_wf bf /\ exact bf (fun _ => 0) /\ loadable bf.
Proof.
  intros Hs E. destruct (decide (k = 0)) as [->|Hk].
  { unfold GNUNET_CONTAINER_bloomfilter_load in E. by rewrite Z.eqb_refl in E. }
  destruct (load_new size k Hs Hk) as (bf' & E' & ? & ? & ? & _). rewrite E' in E.
  by injection E as ->.
Qed.

Lemma created_holds bf : created bf -> holds bf [] /\ exact bf (fun _ => 0).
Proof.
  intros (size & k & Hs & [E|E]).
  - unfold GNUNET_CONTAINER_bloomfilter_init in E. destruct (_ || _); [done|]. injection E as <-.
    destruct (empty_wf size k None Hs) as [Hw He]; [done|]. split; [|done].
    split; [done|]. by apply exact_tracks.
  - destruct (load_new_spec size k bf Hs E) as (Hw & He & _).
    split; [|done]. split; [done|]. by apply exact_tracks.
Qed.

Lemma bloom_add_spec bf es e :
  holds bf es -> exists bf', GNUNET_CONTAINER_bloomfilter_add hash bf e = Some bf'
    /\ holds bf' (e :: es) /\ shape bf' = shape bf.
Proof.
  intros [Hw Ht]. unfold GNUNET_CONTAINER_bloomfilter_add. rewrite iterateBits_fold by done.
  destruct (tracks_add bf _ (element_bits hash bf e) Hw Ht) as (bf' & -> & Hw' & Hs & Ht');
    [by apply element_bits_range, nbits_pos|].
  exists bf'. split_and!; try done. split; [done|]. intros i Hi.
  rewrite (uses_shape bf bf') by done. apply Ht'. done.
Qed.

Lemma bloom_remove_spec bf es e es' :
  holds bf es -> es ≡ₚ e :: es' ->
  exists bf', GNUNET_CONTAINER_bloomfilter_remove hash bf e = Some bf'
    /\ holds bf' es' /\ shape bf' = shape bf.
Proof.
  intros [Hw Ht] Hp. unfold GNUNET_CONTAINER_bloomfilter_remove.
  destruct (fh bf) as [f|] eqn:Ef.
  - rewrite iterateBits_fold by done.
    destruct (tracks_remove bf (uses bf es') (element_bits hash bf e)) as (bf' & -> & Hw' & Hs & Ht').
    + done.
    + by rewrite Ef.
    + apply uses_nonneg.
    + intros i Hi. specialize (Ht i Hi). by rewrite Hp in Ht.
    + by apply element_bits_range, nbits_pos.
    + exists bf'. split_and!; try done. split; [done|]. intros i Hi.
      rewrite (uses_shape bf bf') by done. by apply Ht'.
  - exists bf. split_and!; try done. split; [done|]. intros i Hi. specialize (Ht i Hi).
    rewrite Hp in Ht. pose proof (uses_nonneg bf es' i).
    pose proof (occ_nonneg (element_bits hash bf e) i).
    unfold uses in *. cbn [foldr] in Ht. unfold usage in *. rewrite Ef in *.
    destruct (bit_on _ _); lia.
Qed.

Lemma bloom_clear_spec bf :
  bf_wf bf -> exists bf', GNUNET_CONTAINER_bloomfilter_clear bf = Some bf'
    /\ bf_wf bf' /\ exact bf' (fun _ => 0) /\ shape bf' = shape bf.
Proof.
  intros [Hl Hb Hs Hf]. unfold GNUNET_CONTAINER_bloomfilter_clear. cbn [fh set_bits bitArraySize].
  destruct (fh bf) as [f|] eqn:Ef.
  - destruct (Hf f eq_refl) as (Hfb & Hlf & _). rewrite u64_small, make_empty_spec by words.
    eexists. split; [done|]. unfold set_fh, set_bits, shape; cbn. rewrite Ef. cbn.
    destruct (empty_wf (bitArraySize bf) (addressesPerElement bf)
      (Some (replicate (Z.to_nat (bitArraySize bf * 4)) 0 ++ drop (Z.to_nat (bitArraySize bf * 4)) f)))
      as [Hw He]; [done| |].
    { intros g [= <-]. exists (drop (Z.to_nat (bitArraySize bf * 4)) f).
      rewrite (Z.mul_comm 4). split; [done|by apply Forall_drop]. }
    split_and!; [done..|]. do 2 f_equal. rewrite length_app, length_replicate, length_drop. lia.
  - eexists. split; [done|]. unfold set_bits, shape; cbn. rewrite Ef.
    destruct (empty_wf (bitArraySize bf) (addressesPerElement bf) None) as [Hw He]; done.
Qed.

Lemma step_holds s s' :
  bloom_step s s' -> holds s.1 s.2 -> holds s'.1 s'.2 /\ shape s'.1 = shape s.1.
Proof.
  destruct 1 as [bf es e bf' E|bf es e es' bf' Hp E|bf es bf' E]; cbn; intros H.
  - destruct (bloom_add_spec bf es e H) as (? & E' & ?). rewrite E' in E. by injection E as ->.
  - destruct (bloom_remove_spec bf es e es' H Hp) as (? & E' & ?). rewrite E' in E. by injection E as ->.
  - destruct (bloom_clear_spec bf (proj1 H)) as (? & E' & Hw & He & Hs). rewrite E' in E.
    injection E as ->. split; [|done]. split; [done|]. by apply exact_tracks.
Qed.

Lemma run_holds s s' :
  rtc bloom_step s s' -> holds s.1 s.2 -> holds s'.1 s'.2 /\ shape s'.1 = shape s.1.
Proof.
  induction 1 as [|s s1 s' Hs _ IH]; [done|]. intros H. destruct (step_holds s s1 Hs H) as [H1 E1].
  destruct (IH H1) as [H2 E2]. split; [done|congruence].
Qed.

Lemma holds_test bf es e :
  holds bf es -> e ∈ es -> GNUNET_CONTAINER_bloomfilter_test hash (Some bf) e = Some GNUNET_YES.
Proof.
  intros [Hw Ht] He. apply test_yes; [done|]. apply forallb_forall. intros i Hi. apply list_elem_of_In in Hi.
  assert (Hr : in_range bf i).
  { pose proof (element_bits_range hash bf e (nbits_pos bf Hw)) as H.
    rewrite Forall_forall in H. by apply H. }
  rewrite bit_on_usage by done. apply Z.ltb_lt. pose proof (uses_elem bf es e i He Hi).
  destruct (Ht i Hr); lia.
Qed.

End Runs.

(** ** Union *)

Section Union.

Lemma le_decode_div x l : is_u8 x -> le_decode (x :: l) / 256 = le_decode l.
Proof.
  unfold is_u8. intros. cbn [le_decode]. rewrite (Z.mul_comm 256), Z.div_add, Z.div_small; lia.
Qed.

Lemma le_decode_mod x l : is_u8 x -> le_decode (x :: l) mod 256 = x.
Proof.
  unfold is_u8. intros. cbn [le_decode]. rewrite (Z.mul_comm 256), Z.mod_add, Z.mod_small; lia.
Qed.

(** Words are combined byte by byte. *)
Lemma le_encode_lor a b :
  bytes_ok a -> bytes_ok b -> length a = length b ->
  le_encode (length a) (Z.lor (le_decode a) (le_decode b)) = zip_with Z.lor a b.
Proof.
  intros Ha. revert b. induction Ha as [|x a Hx _ IH]; intros [|y b] Hb Hl; try done.
  apply Forall_cons in Hb as [Hy Hb]. cbn [length le_encode zip_with]. f_equal.
  - change 256 with (2 ^ 8). rewrite <- !Z.land_ones, Z.land_lor_distr_l, !Z.land_ones by lia.
    change (2 ^ 8) with 256. by rewrite !le_decode_mod.
  - change 256 with (2 ^ 8). rewrite <- !Z.shiftr_div_pow2, Z.shiftr_lor, !Z.shiftr_div_pow2 by lia.
    change (2 ^ 8) with 256. rewrite !le_decode_div by done. apply IH; [done|]. by injection Hl.
Qed.

Lemma or_words_spec n fc dc :
  bytes_ok fc -> bytes_ok dc -> length fc = length dc -> (8 * n <= length fc)%nat ->
  or_words n fc dc = zip_with Z.lor (take (8 * n) fc) (take (8 * n) dc) ++ drop (8 * n) fc.
Proof.
  revert fc dc. induction n as [|n IH]; intros fc dc Hf Hd Hl Hn; [done|]. cbn [or_words].
  replace 8%nat with (length (take 8 fc)) at 1 by (rewrite length_take; lia).
  rewrite le_encode_lor; [|by apply Forall_take|by apply Forall_take|rewrite !length_take; lia].
  rewrite IH; [|by apply Forall_drop|by apply Forall_drop|rewrite !length_drop; lia..].
  rewrite drop_drop, app_assoc. replace (8 * S n)%nat with (8 + 8 * n)%nat by lia. f_equal.
  rewrite <- !take_take_drop. apply eq_sym, zip_with_app. rewrite !length_take. lia.
Qed.

Lemma or_arrays_spec fc dc size :
  bytes_ok fc -> bytes_ok dc -> Z.of_nat (length fc) = size -> Z.of_nat (length dc) = size ->
  size <= 2 ^ 29 -> or_arrays fc dc size = zip_with Z.lor fc dc.
Proof.
  intros Hf Hd Hlf Hld Hs. unfold or_arrays.
  assert (0 <= size / 8 <= size) by (split; [apply Z.div_pos; lia|apply Z.div_le_upper_bound; lia]).
  pose proof (Z.mul_div_le size 8 ltac:(lia)).
  rewrite u32_small by (unfold is_u32; lia). set (n := Z.to_nat (size / 8)).
  rewrite or_words_spec by (done || lia). set (i := (8 * n)%nat).
  set (z := zip_with Z.lor (take i fc) (take i dc)).
  assert (Hz : length z = i) by (unfold z; rewrite length_zip_with, !length_take; lia).
  rewrite take_app_le, take_ge by lia. rewrite (drop_ge _ (Z.to_nat size)).
  2:{ rewrite length_app, Hz, length_drop. lia. }
  unfold slice. rewrite drop_app_ge, Hz, Nat.sub_diag, drop_0 by lia.
  rewrite app_nil_r, !take_ge by (rewrite length_drop; lia). unfold z.
  rewrite <- zip_with_app by (rewrite !length_take; lia). by rewrite !take_drop.
Qed.

Lemma bytes_ok_lor a b : bytes_ok a -> bytes_ok b -> bytes_ok (zip_with Z.lor a b).
Proof.
  intros Ha. revert b. induction Ha as [|x a Hx _ IH]; intros [|y b] Hb; cbn; try constructor.
  - apply Forall_cons in Hb as [Hy _]. by apply (word_lor 8).
  - apply IH. by apply Forall_cons in Hb as [_ ?].
Qed.

Lemma bit_on_lor a b i :
  length a = length b -> bit_on (zip_with Z.lor a b) i = bit_on a i || bit_on b i.
Proof.
  intros Hl. unfold bit_on. rewrite lookup_zip_with.
  destruct (decide (Z.to_nat (i / 8) < length a)%nat) as [Hi|Hi].
  - destruct (lookup_lt_is_Some_2 a _ Hi) as [x ->].
    destruct (lookup_lt_is_Some_2 b (Z.to_nat (i / 8))) as [y ->]; [lia|]. cbn.
    apply Z.lor_spec.
  - rewrite (lookup_ge_None_2 a), (lookup_ge_None_2 b) by lia. done.
Qed.

End Union.

(** ** Resizing *)

Section Resizing.

Lemma resize_power_spec fuel m size :
  0 <= m <= 31 -> 31 - m <= Z.of_nat fuel -> size <= 2 ^ 31 ->
  exists n, resize_power fuel (2 ^ m) size = Some (2 ^ n) /\ m <= n <= 31 /\ size <= 2 ^ n
    /\ (n = m \/ 2 ^ (n - 1) < size).
Proof.
  revert m. induction fuel as [|fuel IH]; intros m Hm Hf Hs; cbn [resize_power].
  - replace m with 31 by lia. exists 31. rewrite (proj2 (Z.ltb_ge _ _)) by lia. split_and!; done || lia.
  - destruct (2 ^ m <? size) eqn:E; bool_hyps.
    2:{ exists m. split_and!; done || lia. }
    assert (m < 31) by (destruct (Z.eq_dec m 31); [subst; lia|lia]).
    assert (Hp : 2 ^ m * 2 = 2 ^ (m + 1)) by (rewrite Z.pow_add_r; lia).
    assert (2 ^ (m + 1) < 2 ^ 32) by (apply Z.pow_lt_mono_r; lia).
    assert (0 < 2 ^ m) by (apply Z.pow_pos_nonneg; lia).
    rewrite u32_small by (unfold is_u32; lia). rewrite Hp.
    destruct (IH (m + 1)) as (n & -> & Hn & Hle & Hmin); [lia|lia|done|].
    exists n. split_and!; try done; try lia. destruct Hmin as [->|?]; [|by right].
    right. by replace (m + 1 - 1) with m by lia.
Qed.

(** For sizes above [2 ^ 31] the counter wraps to 0 and the loop does not end. *)
Lemma resize_power_diverges fuel m size :
  2 ^ 31 < size -> 0 <= m <= 31 ->
  resize_power fuel (2 ^ m) size = None /\ resize_power fuel 0 size = None.
Proof.
  intros Hs. revert m. induction fuel as [|fuel IH]; intros m Hm; cbn [resize_power].
  all: assert (2 ^ m <= 2 ^ 31) by (apply Z.pow_le_mono_r; lia).
  all: rewrite (proj2 (Z.ltb_lt (2 ^ m) size)), (proj2 (Z.ltb_lt 0 size)) by lia.
  { done. }
  change (u32 (0 * 2)) with 0. split; [|by apply (IH 0)].
  destruct (Z.eq_dec m 31) as [->|Hne]; [by apply (IH 0)|].
  assert (Hp : 2 ^ m * 2 = 2 ^ (m + 1)) by (rewrite Z.pow_add_r; lia).
  assert (2 ^ (m + 1) < 2 ^ 32) by (apply Z.pow_lt_mono_r; lia).
  rewrite Hp, u32_small by (unfold is_u32; lia). apply IH. lia.
Qed.

Lemma add_all_spec hash es es0 bf :
  holds hash bf es0 -> exists bf', add_all hash es bf = Some bf' /\ holds hash bf' (rev es ++ es0)
    /\ shape bf' = shape bf.
Proof.
  revert es0 bf. induction es as [|e es IH]; intros es0 bf H; [by exists bf|].
  cbn [add_all]. destruct (bloom_add_spec hash bf es0 e H) as (bf1 & -> & H1 & Hs1).
  destruct (IH (e :: es0) bf1 H1) as (bf' & -> & H' & Hs'). exists bf'.
  cbn [rev]. rewrite <- app_assoc. split_and!; [done..|congruence].
Qed.

End Resizing.

(** ** Exactness while no counter is full *)

Section Exactness.
Context (hash : list Z -> list Z).

(** No bit is used 15 times, the maximum of a counter. *)
Definition unsaturated (s : GNUNET_CONTAINER_BloomFilter * list (list Z)) : Prop :=
  forall i, uses hash s.1 s.2 i < 15.

Definition unsaturated_step (s s' : GNUNET_CONTAINER_BloomFilter * list (list Z)) : Prop :=
  bloom_step hash s s' /\ unsaturated s /\ unsaturated s'.

Lemma exact_ext bf n n' : exact bf n -> (forall i, n i = n' i) -> exact bf n'.
Proof. intros H E i Hi. rewrite <- E. by apply H. Qed.

Lemma exact_step s s' :
  unsaturated_step s s' -> holds hash s.1 s.2 -> fh s.1 <> None ->
  exact s.1 (uses hash s.1 s.2) -> exact s'.1 (uses hash s'.1 s'.2).
Proof.
  intros (Hstep & Hu & Hu') H Hf He. pose proof (step_holds hash s s' Hstep H) as [_ Hshape].
  pose proof H as [Hw _]. pose proof (nbits_pos _ Hw) as Hn.
  destruct Hstep as [bf es e bf' E|bf es e es' bf' Hp E|bf es bf' E];
    unfold unsaturated in *; cbn [fst snd] in *.
  - unfold GNUNET_CONTAINER_bloomfilter_add in E. rewrite iterateBits_fold in E by done.
    destruct (exact_add bf _ (element_bits hash bf e) Hw Hf He) as (bf1 & E1 & He1).
    + intros i. specialize (Hu' i). by rewrite (uses_shape hash bf bf') in Hu'.
    + by apply element_bits_range.
    + rewrite E1 in E. injection E as ->. eapply exact_ext; [done|]. intros i.
      by rewrite (uses_shape hash bf bf').
  - unfold GNUNET_CONTAINER_bloomfilter_remove in E. destruct (fh bf) as [f|] eqn:Ef; [|done].
    rewrite iterateBits_fold in E by done.
    destruct (exact_remove bf (uses hash bf es') (element_bits hash bf e)) as (bf1 & E1 & He1).
    + done.
    + by rewrite Ef.
    + apply uses_nonneg.
    + eapply exact_ext; [done|]. intros i. by rewrite Hp.
    + intros i. specialize (Hu i). by rewrite Hp in Hu.
    + by apply element_bits_range.
    + rewrite E1 in E. injection E as ->. eapply exact_ext; [done|]. intros i.
      by rewrite (uses_shape hash bf bf').
  - destruct (bloom_clear_spec bf Hw) as (bf1 & E1 & _ & He1 & _). rewrite E1 in E. by injection E as ->.
Qed.

Lemma exact_run s s' :
  rtc unsaturated_step s s' -> holds hash s.1 s.2 -> fh s.1 <> None ->
  exact s.1 (uses hash s.1 s.2) ->
  holds hash s'.1 s'.2 /\ exact s'.1 (uses hash s'.1 s'.2).
Proof.
  induction 1 as [|s s1 s' Hs _ IH]; [done|]. intros H Hf He.
  destruct (step_holds hash s s1 (proj1 Hs) H) as [H1 E1]. apply IH; [done| |by eapply exact_step].
  unfold shape in E1. destruct (fh s1.1), (fh s.1); cbn in E1; congruence.
Qed.

Lemma exact_test bf es e :
  holds hash bf es -> exact bf (uses hash bf es) ->
  GNUNET_CONTAINER_bloomfilter_test hash (Some bf) e = Some GNUNET_YES
  <-> forall b, b ∈ element_bits hash bf e -> exists e', e' ∈ es /\ b ∈ element_bits hash bf e'.
Proof.
  intros [Hw _] He. rewrite test_yes, forallb_forall by done.
  pose proof (element_bits_range hash bf e (nbits_pos bf Hw)) as Hr. rewrite Forall_forall in Hr.
  assert (Hon : forall b, b ∈ element_bits hash bf e ->
            bit_on (bitArray bf) b = true <-> exists e', e' ∈ es /\ b ∈ element_bits hash bf e').
  { intros b Hb. rewrite bit_on_usage, He, Z.ltb_lt by auto. split; [apply uses_pos|].
    intros (e' & ? & ?). by eapply uses_elem. }
  split; intros H b Hb.
  - apply Hon; [done|]. by apply H, list_elem_of_In.
  - apply list_elem_of_In in Hb. apply Hon; auto.
Qed.

End Exactness.

(** ** Properties *)

(** C34. A Bloom filter never denies an element that was added and not removed:
    in every run in which only elements added before are removed, every permitted
    call returns, and the test of an element that is there says yes. This holds
    with and without counter file, and although counters stop at 15. *)
Theorem bloom_no_false_negatives hash bf0 bf es :
  created bf0 -> rtc (bloom_step hash) (bf0, []) (bf, es) ->
  (forall e, e ∈ es -> GNUNET_CONTAINER_bloomfilter_test hash (Some bf) e = Some GNUNET_YES)
  /\ (forall e, exists bf', GNUNET_CONTAINER_bloomfilter_add hash bf e = Some bf')
  /\ (forall e, e ∈ es -> exists bf', GNUNET_CONTAINER_bloomfilter_remove hash bf e = Some bf')
  /\ exists bf', GNUNET_CONTAINER_bloomfilter_clear bf = Some bf'.
Proof.
  intros Hc Hrun. destruct (created_holds hash bf0 Hc) as [H0 _].
  destruct (run_holds hash _ _ Hrun H0) as [H _]. cbn in H. split_and!.
  - intros e. by apply holds_test.
  - intros e. destruct (bloom_add_spec hash bf es e H) as (bf' & ? & _). by exists bf'.
  - intros e [es' Hp]%elem_of_Permutation.
    destruct (bloom_remove_spec hash bf es e es' H Hp) as (bf' & ? & _). by exists bf'.
  - destruct (bloom_clear_spec bf (proj1 H)) as (bf' & ? & _). by exists bf'.
Qed.

(** With a counter file, and as long as no bit is used 15 times, removal is
    exact: the test of an element says yes if and only if each of its bits is a bit
    of an element that was added and not removed. *)
Theorem bloom_removal_exact hash size k bf0 bf es e :
  0 < size <= 2 ^ 29 -> GNUNET_CONTAINER_bloomfilter_load None size k = Some (Some bf0) ->
  rtc (unsaturated_step hash) (bf0, []) (bf, es) ->
  GNUNET_CONTAINER_bloomfilter_test hash (Some bf) e = Some GNUNET_YES
  <-> forall b, b ∈ element_bits hash bf e -> exists e', e' ∈ es /\ b ∈ element_bits hash bf e'.
Proof.
  intros Hs Hload Hrun. destruct (load_new_spec size k bf0 Hs Hload) as (Hw & He & Hl).
  destruct (exact_run hash _ _ Hrun) as [H He']; cbn in *.
  - split; [done|]. by apply exact_tracks.
  - destruct Hl as (_ & _ & f & -> & _). done.
  - done.
  - by apply exact_test.
Qed.

(** Loading a filter from the counter file of a filter in use restores it
    exactly, after any run of its operations. *)
Theorem bloom_reload hash size k bf0 bf es :
  0 < size <= 2 ^ 29 -> GNUNET_CONTAINER_bloomfilter_load None size k = Some (Some bf0) ->
  rtc (bloom_step hash) (bf0, []) (bf, es) ->
  GNUNET_CONTAINER_bloomfilter_load (fh bf) (bitArraySize bf) (addressesPerElement bf)
  = Some (Some bf).
Proof.
  intros Hs Hload Hrun. destruct (load_new_spec size k bf0 Hs Hload) as (Hw & He & Hl).
  destruct (run_holds hash _ _ Hrun) as [[Hw' _] Hshape]; cbn in *.
  - split; [done|]. by apply exact_tracks.
  - apply reload_spec; [done|]. by eapply loadable_shape.
Qed.

(** The union of two filters of the same size, computed 64 bits at a time with
    a tail of bytes, has the bits of both, so that the test of an element that one of
    them has says yes; filters of another size are refused. A filter made from the raw
    data of another one is a copy of it. *)
Theorem bloom_union hash a b :
  bf_wf a -> bf_wf b -> fh a = None -> fh b = None ->
  addressesPerElement a = addressesPerElement b -> addressesPerElement a <> 0 ->
  let '(rc, raw) := GNUNET_CONTAINER_bloomfilter_get_raw_data (Some b) (bitArraySize b) in
  rc = GNUNET_OK
  /\ GNUNET_CONTAINER_bloomfilter_init (Some raw) (bitArraySize b) (addressesPerElement b) = Some b
  /\ GNUNET_CONTAINER_bloomfilter_copy b = Some b
  /\ if bitArraySize a =? bitArraySize b then
       exists u, GNUNET_CONTAINER_bloomfilter_or a raw (bitArraySize b) = (u, GNUNET_OK)
         /\ GNUNET_CONTAINER_bloomfilter_or2 a b = (u, GNUNET_OK)
         /\ bf_wf u
         /\ (forall i, in_range a i ->
              bit_on (bitArray u) i = bit_on (bitArray a) i || bit_on (bitArray b) i)
         /\ forall e, GNUNET_CONTAINER_bloomfilter_test hash (Some a) e = Some GNUNET_YES
              \/ GNUNET_CONTAINER_bloomfilter_test hash (Some b) e = Some GNUNET_YES ->
              GNUNET_CONTAINER_bloomfilter_test hash (Some u) e = Some GNUNET_YES
     else GNUNET_CONTAINER_bloomfilter_or a raw (bitArraySize b) = (a, GNUNET_SYSERR)
       /\ GNUNET_CONTAINER_bloomfilter_or2 a b = (a, GNUNET_SYSERR).
Proof.
  intros Ha Hb Fa Fb Hk Hk0. unfold GNUNET_CONTAINER_bloomfilter_get_raw_data.
  rewrite Z.eqb_refl. cbn [negb]. pose proof Hb as [Lb Bb Sb _]. pose proof Ha as [La Ba Sa _].
  assert (Et : take (Z.to_nat (bitArraySize b)) (bitArray b) = bitArray b) by (apply take_ge; lia).
  assert (Ei : GNUNET_CONTAINER_bloomfilter_init (Some (bitArray b)) (bitArraySize b)
                 (addressesPerElement b) = Some b).
  { unfold GNUNET_CONTAINER_bloomfilter_init. rewrite !(proj2 (Z.eqb_neq 0 _)) by lia. cbn [orb].
    rewrite Et. destruct b; cbn in *. by subst. }
  rewrite Et. split_and!; [done|done|done|].
  unfold GNUNET_CONTAINER_bloomfilter_or, GNUNET_CONTAINER_bloomfilter_or2.
  destruct (bitArraySize a =? bitArraySize b) eqn:E; cbn [negb]; [|done]. apply Z.eqb_eq in E.
  rewrite <- E, or_arrays_spec by (done || lia). eexists. split_and!; [done|done| | |].
  - split; cbn; [rewrite length_zip_with; lia|by apply bytes_ok_lor|done|by rewrite Fa].
  - intros i Hi. cbn. apply bit_on_lor. lia.
  - set (u := set_bits _ a).
    assert (Hu : bf_wf u).
    { split; cbn; [rewrite length_zip_with; lia|by apply bytes_ok_lor|done|by rewrite Fa]. }
    intros e. rewrite !test_yes by done.
    assert (Eb : element_bits hash b e = element_bits hash a e).
    { unfold element_bits, nbits. by rewrite Hk, E. }
    rewrite Eb. change (element_bits hash u e) with (element_bits hash a e).
    assert (Hmono : forall v, (forall i, bit_on v i = true -> bit_on (bitArray u) i = true) ->
              forallb (bit_on v) (element_bits hash a e) = true ->
              forallb (bit_on (bitArray u)) (element_bits hash a e) = true).
    { intros v Hv. rewrite !forallb_forall. eauto. }
    intros [He|He]; [apply (Hmono (bitArray a))|apply (Hmono (bitArray b))]; try done;
      intros i Hi; cbn; rewrite bit_on_lor, Hi by lia; [done|apply orb_true_r].
Qed.

(** Resizing to a size of at most [2 ^ 29] bytes rebuilds the filter from the
    elements the iterator returns: it holds all of them. The number of bits per
    element stays what it was, whatever [k] the caller asks for. For a size above
    [2 ^ 31] the loop that looks for a power of two never ends. *)
Theorem bloom_resize hash bf es size k :
  bf_wf bf ->
  (0 < size <= 2 ^ 29 ->
   exists bf', GNUNET_CONTAINER_bloomfilter_resize hash bf es size k = Some bf' /\ bf_wf bf'
     /\ size <= bitArraySize bf' < 2 * size
     /\ addressesPerElement bf' = addressesPerElement bf
     /\ forall e, e ∈ es -> GNUNET_CONTAINER_bloomfilter_test hash (Some bf') e = Some GNUNET_YES)
  /\ (2 ^ 31 < size -> forall fuel, resize_power fuel 1 size = None).
Proof.
  intros [Hl Hb Hs Hf]. split.
  2:{ intros Hbig fuel. by apply (resize_power_diverges fuel 0 size). }
  intros Hsz. unfold GNUNET_CONTAINER_bloomfilter_resize.
  destruct (resize_power_spec 32 0 size) as (n & E & Hn & Hle & Hmin); [lia|cbn; lia|lia|].
  change (2 ^ 0) with 1 in E. rewrite E.
  assert (Hlt : 2 ^ n < 2 * size).
  { destruct Hmin as [->|Hlt]; [cbn; lia|].
    destruct (Z.eq_dec n 0) as [->|]; [cbn; lia|].
    replace n with (Z.succ (n - 1)) by lia. rewrite Z.pow_succ_r by lia. lia. }
  assert (H29 : 2 ^ n <= 2 ^ 29).
  { apply Z.pow_le_mono_r; [lia|]. assert (Hn30 : 2 ^ n < 2 ^ 30) by lia.
    apply Z.pow_lt_mono_r_iff in Hn30; lia. }
  cbn [fh bitArraySize]. set (bf1 := mk_bf _ _ _ _).
  assert (exists g, match fh bf with
      | None => Some bf1
      | Some f => let? (f, _) := make_empty_file (Some f) (u64 (2 ^ n * 4)) in Some (set_fh f bf1)
      end = Some (mk_bf (replicate (Z.to_nat (2 ^ n)) 0) g (addressesPerElement bf) (2 ^ n))
      /\ (forall h, g = Some h -> exists t, h = replicate (Z.to_nat (4 * 2 ^ n)) 0 ++ t /\ bytes_ok t))
    as (g & -> & Hg).
  { unfold bf1. destruct (fh bf) as [f|] eqn:Ef; [|by exists None].
    destruct (Hf f eq_refl) as (Hfb & _ & _). rewrite u64_small, make_empty_spec by words.
    eexists. split; [done|]. intros h [= <-]. eexists. rewrite (Z.mul_comm 4).
    split; [done|]. by apply Forall_drop. }
  destruct (empty_wf (2 ^ n) (addressesPerElement bf) g) as [Hw He]; [lia|done|].
  destruct (add_all_spec hash es [] (mk_bf (replicate (Z.to_nat (2 ^ n)) 0) g
              (addressesPerElement bf) (2 ^ n))) as (bf' & -> & H' & Hshape).
  { split; [done|]. by apply exact_tracks. }
  exists bf'. unfold shape in Hshape; cbn in Hshape. injection Hshape as Hk Hsize _.
  split_and!; [done|apply H'|lia|lia|done|].
  intros e Hin. eapply holds_test; [exact H'|]. rewrite app_nil_r.
  apply list_elem_of_In, in_rev. rewrite rev_involutive. by apply list_elem_of_In.
Qed.

(** ** Witnesses *)

(** An element whose bits are 5, 9 and 300, and a hash function. *)
Definition demo_element : list Z := be_encode 4 5 ++ be_encode 4 9 ++ be_encode 4 300.
Definition demo_hash (h : list Z) : list Z := rev h.

(** A filter of 64 bytes in memory with three bits per element. *)
Definition demo_filter : GNUNET_CONTAINER_BloomFilter := mk_bf (replicate 64 0) None 3 64.

Lemma demo_filter_created : created demo_filter.
Proof. exists 64, 3. split; [lia|]. left. reflexivity. Qed.

Lemma demo_filter_wf : bf_wf demo_filter.
Proof. apply (created_holds demo_hash _ demo_filter_created). Qed.

Lemma bloom_no_false_negatives_witness :
  exists bf, GNUNET_CONTAINER_bloomfilter_add demo_hash demo_filter demo_element = Some bf
    /\ GNUNET_CONTAINER_bloomfilter_test demo_hash (Some bf) demo_element = Some GNUNET_YES.
Proof.
  eexists. split; [vm_compute; reflexivity|].
  eapply (bloom_no_false_negatives demo_hash demo_filter _ [demo_element] demo_filter_created).
  - eapply rtc_l; [|apply rtc_refl]. apply bloom_add. vm_compute. reflexivity.
  - left.
Defined.

(** An element is added to a filter with a new file and removed again. *)
Lemma bloom_removal_exact_witness :
  exists bf0 bf, GNUNET_CONTAINER_bloomfilter_load None 1 1 = Some (Some bf0)
    /\ rtc (unsaturated_step demo_hash) (bf0, []) (bf, [])
    /\ GNUNET_CONTAINER_bloomfilter_test demo_hash (Some bf) demo_element <> Some GNUNET_YES.
Proof.
  destruct (load_new 1 1) as (bf0 & E & Hw & He & Hl & Hk0); [lia|lia|].
  assert (H0 : holds demo_hash bf0 []) by (split; [done|by apply exact_tracks]).
  destruct (bloom_add_spec demo_hash bf0 [] demo_element H0) as (bf1 & E1 & H1 & S1).
  destruct (bloom_remove_spec demo_hash bf1 [demo_element] demo_element [] H1) as (bf2 & E2 & H2 & S2);
    [done|].
  assert (Hu : forall bf es, (length es <= 1)%nat -> addressesPerElement bf = 1 ->
            unsaturated demo_hash (bf, es)).
  { intros bf [|e [|]] Hlen Hk i; [cbn; lia| |cbn in Hlen; lia].
    unfold uses. cbn [foldr fst snd]. unfold element_bits. rewrite Hk.
    change (Z.to_nat (s32 1)) with 1%nat. cbn [word_bits Nat.ltb Nat.leb].
    rewrite occ_cons. unfold occ. cbn [count_occ]. destruct (Z.eq_dec _ i); lia. }
  assert (K1 : addressesPerElement bf1 = 1) by (unfold shape in S1; congruence).
  assert (K2 : addressesPerElement bf2 = 1) by (unfold shape in S2; congruence).
  assert (Hrun : rtc (unsaturated_step demo_hash) (bf0, []) (bf2, [])).
  { eapply rtc_l; [|eapply rtc_l; [|apply rtc_refl]].
    - split; [by apply bloom_add|]. split; apply Hu; cbn; done || lia.
    - split; [by eapply bloom_remove|]. split; apply Hu; cbn; done || lia. }
  exists bf0, bf2. split; [exact E|]. split; [exact Hrun|].
  intros Hyes.
  rewrite (bloom_removal_exact demo_hash 1 1 bf0 bf2 [] demo_element ltac:(lia) E Hrun) in Hyes.
  specialize (Hyes (rd32 0 demo_element mod nbits bf2)). destruct Hyes as (e' & Hin & _).
  - unfold element_bits. rewrite K2. left.
  - by apply not_elem_of_nil in Hin.
Defined.

(** The file of a filter with one element. *)
Lemma bloom_reload_witness :
  exists bf0 bf, GNUNET_CONTAINER_bloomfilter_load None 1 3 = Some (Some bf0)
    /\ GNUNET_CONTAINER_bloomfilter_add demo_hash bf0 demo_element = Some bf
    /\ GNUNET_CONTAINER_bloomfilter_load (fh bf) (bitArraySize bf) (addressesPerElement bf)
       = Some (Some bf).
Proof.
  destruct (load_new 1 3) as (bf0 & E & Hw & He & Hl & _); [lia|lia|].
  assert (H0 : holds demo_hash bf0 []) by (split; [done|by apply exact_tracks]).
  destruct (bloom_add_spec demo_hash bf0 [] demo_element H0) as (bf1 & E1 & _ & _).
  exists bf0, bf1. split; [exact E|]. split; [exact E1|].
  eapply (bloom_reload demo_hash 1 3 bf0 bf1 [demo_element]); [lia|exact E|].
  eapply rtc_l; [|apply rtc_refl]. by apply bloom_add.
Defined.

Lemma bloom_union_witness :
  exists u, GNUNET_CONTAINER_bloomfilter_or2 demo_filter demo_filter = (u, GNUNET_OK) /\ bf_wf u.
Proof.
  pose proof (bloom_union demo_hash demo_filter demo_filter demo_filter_wf demo_filter_wf
                eq_refl eq_refl eq_refl ltac:(discriminate)) as H.
  destruct H as (_ & _ & _ & u & _ & Hu & Hw & _). exists u. split; [exact Hu|exact Hw].
Defined.

Lemma bloom_resize_witness :
  exists bf', GNUNET_CONTAINER_bloomfilter_resize demo_hash demo_filter [demo_element] 100 7 = Some bf'
    /\ addressesPerElement bf' = 3
    /\ GNUNET_CONTAINER_bloomfilter_test demo_hash (Some bf') demo_element = Some GNUNET_YES.
Proof.
  destruct (bloom_resize demo_hash demo_filter [demo_element] 100 7 demo_filter_wf) as [H _].
  destruct H as (bf' & E & _ & _ & Hk & Ht); [lia|].
  exists bf'. split; [exact E|]. split; [exact Hk|]. apply Ht. left.
Defined.
