(* ===== verification/Crc.v ===== *)
(** * Checksums: [src/util/crypto_crc.c]

    CRC-32 with a table, the Internet checksum (which the source calls CRC-16) and
    CRC-8. [None] is a failed assertion. *)

From S2P Require Import Prelude Endian.

(** ** CRC-32 *)

Definition POLYNOMIAL : Z := 3988292384.

(** One step of the shift register. *)
Definition crc_bit (h : Z) : Z :=
  Z.lxor (Z.shiftr h 1) (if negb (Z.land h 1 =? 0) then POLYNOMIAL else 0).

(** The inner loop of [crc_init]: entries [i + j] for [j = 0, 2 * i, 4 * i, ...]. *)
Definition crc_init_row (i h : Z) (table : list Z) : list Z :=
  fold_left (fun t n =>
      let j := 2 * i * Z.of_nat n in
      <[Z.to_nat (i + j) := Z.lxor (t !!! Z.to_nat j) h]> t)
    (seq 0 (Z.to_nat (256 / (2 * i)))) table.

(** [crc_init] fills the table for [i = 128, 64, ..., 1]. *)
Definition crc_init : list Z :=
  snd (fold_left (fun '(h, t) i => let h := crc_bit h in (h, crc_init_row i h t))
         [128; 64; 32; 16; 8; 4; 2; 1] (1, replicate 256 0)).

Definition crc_table : list Z := Eval vm_compute in crc_init.

(** The loop of [crc32]. *)
Fixpoint crc32_loop (crc : Z) (buf : list Z) : Z :=
  match buf with
  | [] => crc
  | b :: buf =>
      crc32_loop (Z.lxor (Z.shiftr crc 8) (crc_table !!! Z.to_nat (Z.land (Z.lxor crc b) 255))) buf
  end.

Definition crc32 (crc : Z) (buf : list Z) : option Z :=
  assert? negb (crc_table !!! 255%nat =? 0) in
  Some (Z.lxor (crc32_loop (Z.lxor crc 4294967295) buf) 4294967295).

(** The result is converted to [int32_t]; it is given as the 32-bit word here. *)
Definition GNUNET_CRYPTO_crc32_n (buf : list Z) : option Z :=
  let? crc := crc32 0 [] in crc32 crc buf.

(** ** Internet checksum *)

(** Sums 16-bit words in host (little-endian) order. For a buffer of odd length the
    last word is read with the byte [over] behind the buffer, which is masked out. *)
Fixpoint GNUNET_CRYPTO_crc16_step (over sum : Z) (buf : list Z) : Z :=
  match buf with
  | lo :: hi :: buf => GNUNET_CRYPTO_crc16_step over (u32 (sum + (lo + 256 * hi))) buf
  | [lo] => u32 (sum + Z.land (lo + 256 * over) (ntohs 65280))
  | [] => sum
  end.

Definition GNUNET_CRYPTO_crc16_finish (sum : Z) : Z :=
  let sum := u32 (Z.shiftr sum 16 + Z.land sum 65535) in
  let sum := u32 (sum + Z.shiftr sum 16) in
  u16 (Z.lnot sum).

Definition GNUNET_CRYPTO_crc16_n (over : Z) (buf : list Z) : Z :=
  GNUNET_CRYPTO_crc16_finish (GNUNET_CRYPTO_crc16_step over 0 buf).

(** ** CRC-8 *)

Definition crc8_bit (crc : Z) : Z :=
  let crc := if negb (0 =? Z.land crc 32768) then Z.lxor crc (Z.shiftl 4208 3) else crc in
  u32 (Z.shiftl crc 1).

Definition crc8_byte (crc b : Z) : Z := Nat.iter 8 crc8_bit (Z.lxor crc (Z.shiftl b 8)).

Definition crc8_loop (crc : Z) (buf : list Z) : Z := fold_left crc8_byte buf crc.

Definition GNUNET_CRYPTO_crc8_n (buf : list Z) : Z := u8 (Z.shiftr (crc8_loop 0 buf) 8).

(** ** The shift register *)

(** Bit by bit, the definition of the checksum: the register takes a byte and is
    shifted eight times. *)
Definition crc_byte_ref (crc b : Z) : Z := Nat.iter 8 crc_bit (Z.lxor crc b).

Section Register.

Lemma crc_bit_eq h : crc_bit h = Z.lxor (Z.shiftr h 1) (if Z.testbit h 0 then POLYNOMIAL else 0).
Proof.
  unfold crc_bit. f_equal. change (Z.land h 1) with (Z.land h (Z.ones 1)).
  rewrite Z.land_ones by lia. change (2 ^ 1) with 2. rewrite <- Z.bit0_mod.
  by destruct (Z.testbit h 0).
Qed.

(** The register is linear. *)
Lemma crc_bit_lxor x y : crc_bit (Z.lxor x y) = Z.lxor (crc_bit x) (crc_bit y).
Proof.
  rewrite !crc_bit_eq, Z.shiftr_lxor, Z.lxor_spec.
  rewrite !Z.lxor_assoc. f_equal. rewrite (Z.lxor_comm (if Z.testbit x 0 then _ else _)).
  rewrite !Z.lxor_assoc. f_equal.
  destruct (Z.testbit x 0), (Z.testbit y 0); cbn [xorb];
    rewrite ?Z.lxor_nilpotent, ?Z.lxor_0_r, ?Z.lxor_0_l; done.
Qed.

Lemma crc_iter_lxor n x y :
  Nat.iter n crc_bit (Z.lxor x y) = Z.lxor (Nat.iter n crc_bit x) (Nat.iter n crc_bit y).
Proof.
  induction n as [|n IH]; [done|].
  change (Nat.iter (S n) crc_bit ?v) with (crc_bit (Nat.iter n crc_bit v)).
  by rewrite IH, crc_bit_lxor.
Qed.

(** Zeros below the word are shifted out. *)
Lemma crc_iter_shiftl n k y :
  Nat.iter n crc_bit (Z.shiftl y (Z.of_nat (n + k))) = Z.shiftl y (Z.of_nat k).
Proof.
  revert k. induction n as [|n IH]; intros k; [done|].
  replace (S n + k)%nat with (n + S k)%nat by lia.
  change (Nat.iter (S n) crc_bit ?v) with (crc_bit (Nat.iter n crc_bit v)). rewrite IH.
  rewrite crc_bit_eq, Z.shiftl_spec_low, Z.lxor_0_r by lia.
  rewrite Z.shiftr_shiftl_l by lia. f_equal. lia.
Qed.

Lemma crc_iter_0 n : Nat.iter n crc_bit 0 = 0.
Proof.
  induction n as [|n IH]; [done|].
  change (Nat.iter (S n) crc_bit 0) with (crc_bit (Nat.iter n crc_bit 0)). by rewrite IH.
Qed.

(** No word is lost: the register is invertible on 32-bit words. *)
Lemma crc_bit_kernel z : is_u32 z -> crc_bit z = 0 -> z = 0.
Proof.
  unfold is_u32. intros Hz. rewrite crc_bit_eq. intros E. apply Z.lxor_eq in E.
  rewrite Z.shiftr_div_pow2 in E by lia. change (2 ^ 1) with 2 in E.
  pose proof (Z.div_mod z 2 ltac:(lia)) as Hd. pose proof (Z.bit0_mod z) as H0.
  destruct (Z.testbit z 0).
  - exfalso. assert (z / 2 < 2 ^ 31) by (apply Z.div_lt_upper_bound; lia).
    unfold POLYNOMIAL in E. lia.
  - cbn in H0. lia.
Qed.

Lemma crc_bit_u32 z : is_u32 z -> is_u32 (crc_bit z).
Proof.
  intros Hz. rewrite crc_bit_eq. unfold is_u32 in *. apply word_lxor; [lia| |case_if; done].
  rewrite Z.shiftr_div_pow2 by lia. split; [apply Z.div_pos; lia|].
  apply Z.div_lt_upper_bound; lia.
Qed.

Lemma crc_iter_kernel n z : is_u32 z -> Nat.iter n crc_bit z = 0 -> z = 0.
Proof.
  induction n as [|n IH]; [done|]. intros Hz E. apply IH; [done|].
  apply crc_bit_kernel; [|done]. clear E IH. induction n as [|n IH]; [done|]. by apply crc_bit_u32.
Qed.

End Register.

(** ** Table and register *)

Section Table.

Lemma crc_table_spec v : is_u8 v -> crc_table !!! Z.to_nat v = Nat.iter 8 crc_bit v.
Proof.
  intros Hv. apply Z.eqb_eq.
  apply (byte_cases (fun v => crc_table !!! Z.to_nat v =? Nat.iter 8 crc_bit v)); [|done].
  vm_compute. reflexivity.
Qed.

Lemma split_low_byte v : v = Z.lxor (Z.shiftl (Z.shiftr v 8) 8) (Z.land v 255).
Proof.
  change 255 with (Z.ones 8). apply Z.bits_inj'. intros i Hi.
  rewrite Z.lxor_spec, Z.land_spec. destruct (Z.lt_ge_cases i 8).
  - rewrite Z.shiftl_spec_low, Z.ones_spec_low, andb_true_r by lia. by destruct (Z.testbit v i).
  - rewrite Z.shiftl_spec, Z.shiftr_spec, Z.ones_spec_high, andb_false_r by lia.
    rewrite xorb_false_r. f_equal. lia.
Qed.

(** Eight steps of the register are one look into the table. *)
Lemma crc_step_table v :
  Nat.iter 8 crc_bit v = Z.lxor (Z.shiftr v 8) (crc_table !!! Z.to_nat (Z.land v 255)).
Proof.
  rewrite (split_low_byte v) at 1. rewrite crc_iter_lxor.
  change (Z.shiftl (Z.shiftr v 8) 8) with (Z.shiftl (Z.shiftr v 8) (Z.of_nat (8 + 0))).
  rewrite crc_iter_shiftl. change (Z.of_nat 0) with 0. rewrite Z.shiftl_0_r. f_equal.
  symmetry. apply crc_table_spec. change 255 with (Z.ones 8). rewrite Z.land_ones by lia. apply u8_range.
Qed.

Lemma crc32_loop_ref crc buf : bytes_ok buf -> crc32_loop crc buf = fold_left crc_byte_ref buf crc.
Proof.
  intros Hb. revert crc. induction Hb as [|b buf Hb _ IH]; intros crc; [done|].
  rewrite fold_left_cons. cbn [crc32_loop]. rewrite IH. f_equal. unfold crc_byte_ref.
  rewrite crc_step_table, Z.shiftr_lxor. f_equal.
  assert (Z.shiftr b 8 = 0) as ->; [|by rewrite Z.lxor_0_r].
  rewrite Z.shiftr_div_pow2 by lia. by apply Z.div_small.
Qed.

Lemma crc32_eq crc buf :
  crc32 crc buf = Some (Z.lxor (crc32_loop (Z.lxor crc 4294967295) buf) 4294967295).
Proof. reflexivity. Qed.

Lemma crc32_n_eq buf :
  GNUNET_CRYPTO_crc32_n buf = Some (Z.lxor (crc32_loop 4294967295 buf) 4294967295).
Proof. reflexivity. Qed.

Lemma le_decode_lxor b l : is_u8 b -> le_decode (b :: l) = Z.lxor b (Z.shiftl (le_decode l) 8).
Proof.
  intros Hb. cbn [le_decode]. rewrite Z.shiftl_mul_pow2 by lia. change (2 ^ 8) with 256.
  rewrite (Z.mul_comm 256). rewrite Z.add_nocarry_lxor; [done|].
  change 256 with (2 ^ 8). rewrite <- Z.shiftl_mul_pow2 by lia. apply Z.bits_inj'. intros i Hi.
  rewrite Z.land_spec, Z.bits_0. destruct (Z.lt_ge_cases i 8).
  - rewrite Z.shiftl_spec_low by lia. apply andb_false_r.
  - rewrite (word_bits_high 8 b) by done. done.
Qed.

(** The register after a message: that of the message as one number. *)
Lemma crc_fold_iter m s :
  bytes_ok m -> fold_left crc_byte_ref m s = Nat.iter (8 * length m) crc_bit (Z.lxor s (le_decode m)).
Proof.
  intros Hm. revert s. induction Hm as [|b m Hb Hm IH]; intros s.
  { cbn. by rewrite Z.lxor_0_r. }
  rewrite fold_left_cons, IH, le_decode_lxor by done. unfold crc_byte_ref. cbn [length].
  replace (8 * S (length m))%nat with (8 * length m + 8)%nat by lia.
  rewrite Nat.iter_add, <- Z.lxor_assoc, (crc_iter_lxor 8 (Z.lxor s b)).
  change (Z.shiftl (le_decode m) 8) with (Z.shiftl (le_decode m) (Z.of_nat (8 + 0))).
  rewrite crc_iter_shiftl. change (Z.of_nat 0) with 0. by rewrite Z.shiftl_0_r.
Qed.

Lemma crc_fold_u32 m s : bytes_ok m -> is_u32 s -> is_u32 (fold_left crc_byte_ref m s).
Proof.
  intros Hm. revert s. induction Hm as [|b m Hb _ IH]; intros s Hs; [done|].
  rewrite fold_left_cons. apply IH. unfold crc_byte_ref. generalize 8%nat. intros n.
  induction n as [|n IHn]; [|by apply crc_bit_u32].
  apply word_lxor; [lia|done|]. unfold is_u8 in Hb. lia.
Qed.

(** Two messages that differ inside of 32 consecutive bits. *)
Lemma crc32_burst m m' d k :
  bytes_ok m -> bytes_ok m' -> length m = length m' ->
  0 < d < 2 ^ 32 -> (k <= 8 * length m)%nat ->
  Z.lxor (le_decode m) (le_decode m') = Z.shiftl d (Z.of_nat k) ->
  GNUNET_CRYPTO_crc32_n m <> GNUNET_CRYPTO_crc32_n m'.
Proof.
  intros Hm Hm' Hl Hd Hk Hx. rewrite !crc32_n_eq, !crc32_loop_ref by done. intros E.
  injection E as E.
  assert (E' : fold_left crc_byte_ref m 4294967295 = fold_left crc_byte_ref m' 4294967295).
  { rewrite <- (Z.lxor_0_r (fold_left _ m _)), <- (Z.lxor_nilpotent 4294967295).
    rewrite <- Z.lxor_assoc, E, Z.lxor_assoc, Z.lxor_nilpotent. apply Z.lxor_0_r. }
  rewrite !crc_fold_iter, <- Hl in E' by done.
  assert (E2 : Nat.iter (8 * length m) crc_bit (Z.shiftl d (Z.of_nat k)) = 0).
  { rewrite <- Hx.
    replace (Z.lxor (le_decode m) (le_decode m'))
      with (Z.lxor (Z.lxor 4294967295 (le_decode m)) (Z.lxor 4294967295 (le_decode m'))).
    - rewrite crc_iter_lxor, E'. apply Z.lxor_nilpotent.
    - rewrite (Z.lxor_comm 4294967295), Z.lxor_assoc, <- (Z.lxor_assoc 4294967295).
      by rewrite Z.lxor_nilpotent, Z.lxor_0_l. }
  replace (8 * length m)%nat with ((8 * length m - k) + k)%nat in E2 by lia.
  rewrite Nat.iter_add in E2. pose proof (crc_iter_shiftl k 0 d) as Hs.
  rewrite Nat.add_0_r in Hs. rewrite Hs, Z.shiftl_0_r in E2.
  apply crc_iter_kernel in E2; [lia|]. unfold is_u32. lia.
Qed.

End Table.

(** ** The other checksums *)

Section Sums.

(** The sum of the 16-bit words of a buffer of even length. *)
Fixpoint word_sum (buf : list Z) : Z :=
  match buf with lo :: hi :: buf => (lo + 256 * hi) + word_sum buf | _ => 0 end.

Lemma pairs_ind (P : list Z -> Prop) :
  P [] -> (forall a, P [a]) -> (forall a b l, P l -> P (a :: b :: l)) -> forall l, P l.
Proof.
  intros H0 H1 H2. fix IH 1. intros [|a [|b l]]; [done|apply H1|]. apply H2, IH.
Qed.

Lemma even_S_S n : Nat.even (S (S n)) = Nat.even n.
Proof. done. Qed.

Lemma word_sum_app a b : Nat.even (length a) = true -> word_sum (a ++ b) = word_sum a + word_sum b.
Proof.
  induction a as [|x|x y a IH] using pairs_ind; [done|done|]. cbn [length app word_sum].
  rewrite even_S_S. intros H. rewrite IH by done. lia.
Qed.

Lemma word_sum_bound buf :
  bytes_ok buf -> 0 <= word_sum buf /\ 2 * word_sum buf <= 65535 * Z.of_nat (length buf).
Proof.
  induction buf as [|x|x y buf IH] using pairs_ind; cbn [word_sum length]; [lia|lia|].
  intros [Hx [Hy Hb]%Forall_cons]%Forall_cons. specialize (IH Hb). unfold is_u8 in *. lia.
Qed.

Lemma crc16_step_sum over sum buf :
  bytes_ok buf -> Nat.even (length buf) = true -> 0 <= sum -> sum + word_sum buf < 2 ^ 32 ->
  GNUNET_CRYPTO_crc16_step over sum buf = sum + word_sum buf.
Proof.
  revert sum. induction buf as [|x|x y buf IH] using pairs_ind; intros sum Hb He Hs Hlt.
  - cbn. lia.
  - done.
  - cbn [GNUNET_CRYPTO_crc16_step word_sum length] in *.
    apply Forall_cons in Hb as [Hx [Hy Hb]%Forall_cons]. rewrite even_S_S in He.
    pose proof (word_sum_bound buf Hb) as [? _]. unfold is_u8 in *.
    rewrite u32_small by words. rewrite IH; [lia|done|done|lia|lia].
Qed.

(** The two folds: the carries are added to the low half. *)
Lemma crc16_finish_eq s :
  0 <= s < 2 ^ 32 ->
  let t := s / 65536 + s mod 65536 in
  GNUNET_CRYPTO_crc16_finish s = 65535 - (if t <? 65536 then t else t - 65535).
Proof.
  intros Hs t. unfold GNUNET_CRYPTO_crc16_finish.
  replace (Z.land s 65535) with (s mod 65536)
    by (change 65535 with (Z.ones 16); by rewrite Z.land_ones by lia).
  rewrite !Z.shiftr_div_pow2 by lia. change (2 ^ 16) with 65536. fold t.
  pose proof (Z.div_mod s 65536 ltac:(lia)). pose proof (Z.mod_pos_bound s 65536 ltac:(lia)).
  assert (0 <= s / 65536 < 65536).
  { split; [apply Z.div_pos; lia|apply Z.div_lt_upper_bound; lia]. }
  assert (Ht : 0 <= t <= 131070) by lia. rewrite (u32_small t) by words.
  unfold u16, Z.lnot. change (2 ^ 16) with 65536.
  destruct (t <? 65536) eqn:E; bool_hyps.
  - rewrite (Z.div_small t 65536), Z.add_0_r, u32_small by words.
    symmetry. apply Z.mod_unique with (-1); lia.
  - assert (t / 65536 = 1) as -> by (symmetry; apply Z.div_unique with (t - 65536); lia).
    rewrite u32_small by words. symmetry. apply Z.mod_unique with (-2); lia.
Qed.

(** A sum and its complement give zero. *)
Lemma crc16_complement s :
  0 <= s -> s + 65535 < 2 ^ 32 ->
  GNUNET_CRYPTO_crc16_finish (s + GNUNET_CRYPTO_crc16_finish s) = 0.
Proof.
  intros Hs Hlt. rewrite (crc16_finish_eq s) by lia.
  set (t := s / 65536 + s mod 65536). set (r := if t <? 65536 then t else t - 65535).
  pose proof (Z.div_mod s 65536 ltac:(lia)). pose proof (Z.mod_pos_bound s 65536 ltac:(lia)).
  assert (0 <= s / 65536 < 65536).
  { split; [apply Z.div_pos; lia|apply Z.div_lt_upper_bound; lia]. }
  assert (Hr : exists q, 0 <= q /\ s = 65535 * q + r /\ 0 <= r <= 65535).
  { unfold r. destruct (t <? 65536) eqn:E; bool_hyps; unfold t in *.
    - exists (s / 65536). lia.
    - exists (s / 65536 + 1). lia. }
  destruct Hr as (q & Hq0 & Hq & Hr). clearbody r t.
  set (z := s + (65535 - r)). assert (Hz : z = 65535 * (q + 1)) by lia.
  rewrite crc16_finish_eq by lia.
  pose proof (Z.div_mod z 65536 ltac:(lia)). pose proof (Z.mod_pos_bound z 65536 ltac:(lia)).
  set (u := z / 65536 + z mod 65536).
  assert (0 <= z / 65536 < 65536).
  { split; [apply Z.div_pos; lia|apply Z.div_lt_upper_bound; lia]. }
  assert (Eu : u = z / 65536 + z mod 65536) by done. clearbody z u.
  assert (Hu : exists p, u = 65535 * p /\ 0 < p) by (exists (q + 1 - z / 65536); lia).
  destruct Hu as (p & Hp & Hpos). assert (u <= 131070) by lia.
  split_ifs; lia.
Qed.

Lemma crc16_of_even over buf :
  bytes_ok buf -> Nat.even (length buf) = true -> Z.of_nat (length buf) <= 2 ^ 17 - 2 ->
  GNUNET_CRYPTO_crc16_n over buf = GNUNET_CRYPTO_crc16_finish (word_sum buf).
Proof.
  intros Hb He Hl. unfold GNUNET_CRYPTO_crc16_n. pose proof (word_sum_bound buf Hb).
  rewrite crc16_step_sum by (done || lia). done.
Qed.

(** The register of the 8-bit checksum holds its value in the upper byte. *)
Lemma crc8_bit_spec v :
  is_u8 v -> exists w, is_u8 w /\ crc8_bit (Z.shiftl v 8) = Z.shiftl w 8.
Proof.
  intros Hv. exists (Z.shiftr (crc8_bit (Z.shiftl v 8)) 8).
  pose proof (byte_cases (fun v =>
    (0 <=? Z.shiftr (crc8_bit (Z.shiftl v 8)) 8) && (Z.shiftr (crc8_bit (Z.shiftl v 8)) 8 <? 256)
    && (crc8_bit (Z.shiftl v 8) =? Z.shiftl (Z.shiftr (crc8_bit (Z.shiftl v 8)) 8) 8))%bool
    ltac:(vm_compute; reflexivity) v Hv) as H.
  cbn beta in H. rewrite !andb_true_iff in H. bool_hyps. unfold is_u8. lia.
Qed.

Lemma crc8_iter_spec n v :
  is_u8 v -> exists w, is_u8 w /\ Nat.iter n crc8_bit (Z.shiftl v 8) = Z.shiftl w 8.
Proof.
  intros Hv. induction n as [|n (w & Hw & E)]; [by exists v|].
  destruct (crc8_bit_spec w Hw) as (w' & Hw' & E'). exists w'. split; [done|].
  rewrite <- E', <- E. done.
Qed.

Lemma crc8_byte_spec v b :
  is_u8 v -> is_u8 b -> exists w, is_u8 w /\ crc8_byte (Z.shiftl v 8) b = Z.shiftl w 8.
Proof.
  intros Hv Hb. unfold crc8_byte. rewrite <- Z.shiftl_lxor.
  apply crc8_iter_spec. by apply (word_lxor 8).
Qed.

Lemma crc8_loop_spec buf v :
  bytes_ok buf -> is_u8 v ->
  exists w, is_u8 w /\ crc8_loop (Z.shiftl v 8) buf = Z.shiftl w 8.
Proof.
  unfold crc8_loop. intros Hb. revert v.
  induction Hb as [|b buf Hb _ IH]; intros v Hv; [by exists v|].
  rewrite fold_left_cons. destruct (crc8_byte_spec v b Hv Hb) as (w & Hw & ->). auto.
Qed.

Lemma word_sum_encode c : is_u16 c -> word_sum (le_encode 2 c) = c.
Proof.
  unfold is_u16. intros Hc. cbn [le_encode word_sum]. pose proof (Z.div_mod c 256 ltac:(lia)).
  rewrite (Z.mod_small (c / 256) 256); [lia|].
  split; [apply Z.div_pos; lia|apply Z.div_lt_upper_bound; lia].
Qed.

Lemma crc8_self buf :
  bytes_ok buf -> GNUNET_CRYPTO_crc8_n (buf ++ [GNUNET_CRYPTO_crc8_n buf]) = 0.
Proof.
  intros Hb. destruct (crc8_loop_spec buf 0 Hb) as (w & Hw & E); [done|].
  change (Z.shiftl 0 8) with 0 in E.
  assert (En : GNUNET_CRYPTO_crc8_n buf = w).
  { unfold GNUNET_CRYPTO_crc8_n. rewrite E, Z.shiftr_shiftl_l, Z.shiftl_0_r by lia. by apply u8_small. }
  rewrite En. unfold GNUNET_CRYPTO_crc8_n, crc8_loop in *. rewrite fold_left_app, E, fold_left_cons.
  unfold crc8_byte. rewrite Z.lxor_nilpotent. vm_compute. reflexivity.
Qed.

End Sums.

(** ** Properties *)

(** The table-driven CRC-32 computes the checksum of the bit-serial shift
    register, for every buffer, and can be computed piece by piece: the result for a
    first piece is the starting value for the next. *)
Theorem crc32_is_shift_register a b crc :
  bytes_ok a -> bytes_ok b ->
  GNUNET_CRYPTO_crc32_n a = Some (Z.lxor (fold_left crc_byte_ref a 4294967295) 4294967295)
  /\ (let? c := crc32 crc a in crc32 c b) = crc32 crc (a ++ b).
Proof.
  intros Ha Hb. split.
  - by rewrite crc32_n_eq, crc32_loop_ref.
  - rewrite !crc32_eq, !crc32_loop_ref by (done || by apply Forall_app).
    rewrite fold_left_app, Z.lxor_assoc, Z.lxor_nilpotent, Z.lxor_0_r. done.
Qed.

(** C35. CRC-32 detects every burst error of up to 32 bits: two messages of the same
    length that differ, and only inside of 32 consecutive bits (wherever these are, the
    bits of a byte counted from the lowest), have different checksums. *)
Theorem crc32_detects_bursts m m' d k :
  bytes_ok m -> bytes_ok m' -> length m = length m' ->
  0 < d < 2 ^ 32 -> (k <= 8 * length m)%nat ->
  Z.lxor (le_decode m) (le_decode m') = Z.shiftl d (Z.of_nat k) ->
  GNUNET_CRYPTO_crc32_n m <> GNUNET_CRYPTO_crc32_n m'.
Proof.
  intros. by eapply crc32_burst.
Qed.

(** A packet that carries its checksum verifies: the Internet checksum of a
    buffer of even length, of at most [2 ^ 17 - 4] bytes, in which the checksum computed
    with a zero field has been stored in that field (at an even offset) is zero; the
    8-bit CRC of a buffer followed by its CRC is zero. *)
Theorem checksums_verify over pre post :
  bytes_ok pre -> bytes_ok post -> Nat.even (length pre) = true -> Nat.even (length post) = true ->
  Z.of_nat (length pre + length post) <= 2 ^ 17 - 4 ->
  let c := GNUNET_CRYPTO_crc16_n over (pre ++ [0; 0] ++ post) in
  GNUNET_CRYPTO_crc16_n over (pre ++ le_encode 2 c ++ post) = 0
  /\ GNUNET_CRYPTO_crc8_n (pre ++ [GNUNET_CRYPTO_crc8_n pre]) = 0.
Proof.
  intros Hp Hq Ep Eq Hl c. split.
  - assert (Hzero : bytes_ok [0; 0]) by (repeat constructor; unfold is_u8; lia).
    assert (Hall : forall x, bytes_ok x -> length x = 2%nat ->
              GNUNET_CRYPTO_crc16_n over (pre ++ x ++ post)
              = GNUNET_CRYPTO_crc16_finish (word_sum pre + (word_sum x + word_sum post))).
    { intros x Hx Lx. rewrite crc16_of_even.
      - rewrite !word_sum_app; [done|by rewrite Lx|done].
      - by apply Forall_app; split; [|apply Forall_app].
      - by rewrite !length_app, Lx, !Nat.even_add, Ep, Eq.
      - rewrite !length_app, Lx. lia. }
    pose proof (word_sum_bound pre Hp). pose proof (word_sum_bound post Hq).
    assert (Ec : c = GNUNET_CRYPTO_crc16_finish (word_sum pre + word_sum post)).
    { unfold c. by rewrite Hall. }
    rewrite Hall, Ec by (apply bytes_ok_le_encode || done).
    rewrite word_sum_encode by apply u16_range.
    rewrite <- (crc16_complement (word_sum pre + word_sum post)) by lia. f_equal. lia.
  - by apply crc8_self.
Qed.

(** ** Witnesses *)

Lemma crc32_is_shift_register_witness :
  GNUNET_CRYPTO_crc32_n [49; 50; 51] = Some (Z.lxor (fold_left crc_byte_ref [49; 50; 51] 4294967295) 4294967295)
  /\ (let? c := crc32 0 [49; 50; 51] in crc32 c [52]) = crc32 0 [49; 50; 51; 52].
Proof.
  apply (crc32_is_shift_register [49; 50; 51] [52] 0); repeat constructor; words.
Defined.

(** A burst over the border of two bytes. *)
Lemma crc32_detects_bursts_witness :
  GNUNET_CRYPTO_crc32_n [1; 2; 3] <> GNUNET_CRYPTO_crc32_n [1; 18; 7].
Proof.
  apply (crc32_detects_bursts [1; 2; 3] [1; 18; 7] 65 12);
    [repeat constructor; words..|reflexivity|lia|cbn; lia|reflexivity].
Defined.

Lemma checksums_verify_witness :
  let c := GNUNET_CRYPTO_crc16_n 99 ([69; 0; 0; 60] ++ [0; 0] ++ [172; 16]) in
  GNUNET_CRYPTO_crc16_n 99 ([69; 0; 0; 60] ++ le_encode 2 c ++ [172; 16]) = 0
  /\ GNUNET_CRYPTO_crc8_n ([69; 0; 0; 60] ++ [GNUNET_CRYPTO_crc8_n [69; 0; 0; 60]]) = 0.
Proof.
  apply (checksums_verify 99 [69; 0; 0; 60] [172; 16]);
    [repeat constructor; words..|reflexivity|reflexivity|cbn; lia].
Defined.
