(* ===== verification/Ibf.v ===== *)
(** * Invertible Bloom filters: [src/set/ibf.c]

    The data structure with which the set service reconciles two sets: every key is
    added to some buckets, filters are subtracted, and what is left is decoded from
    buckets that hold a single key. The host is little-endian. [None] is a failed
    assertion, an access outside of an array, or a loop that does not end. *)

From S2P Require Import Prelude Crc.

(** ** Data *)

Definition sizeof_IBF_Key : nat := 8.
Definition sizeof_IBF_KeyHash : nat := 4.

Record InvertibleBloomFilter := mk_ibf {
  ibf_size : Z;
  ibf_hash_num : Z;
  key_sum : list Z;
  key_hash_sum : list Z;
  ibf_count : list Z;
}.

(** ** Operations *)

(** [sizeof (struct IBF_KeyHash)] bytes of the key are hashed. *)
Definition IBF_KEY_HASH_VAL (k : Z) : option Z :=
  GNUNET_CRYPTO_crc32_n (take sizeof_IBF_KeyHash (le_encode sizeof_IBF_Key k)).

Definition ibf_key_from_hashcode (hash : list Z) : Z := le_decode (take sizeof_IBF_Key hash).

(** [sizeof (struct GNUNET_HashCode) / sizeof (struct IBF_Key)] copies. *)
Definition ibf_hashcode_from_key (key : Z) : list Z :=
  concat (replicate 8 (le_encode sizeof_IBF_Key key)).

(** Allocations succeed. *)
Definition ibf_create (size hash_num : Z) : option InvertibleBloomFilter :=
  assert? negb (0 =? size) in
  let zeros := replicate (Z.to_nat size) 0 in
  Some (mk_ibf size hash_num zeros zeros zeros).

(** The loop of [ibf_get_indices]; [dst] holds the [filled] indices. *)
Fixpoint get_indices_loop (fuel : nat) (size hash_num bucket i : Z) (dst : list Z)
  : option (list Z) :=
  if Z.of_nat (length dst) <? hash_num then
    match fuel with
    | O => None
    | S fuel =>
        let dst := if existsb (Z.eqb bucket) dst then dst else dst ++ [bucket mod size] in
        let x := Z.lor (Z.shiftl bucket 32) i in
        let? bucket := GNUNET_CRYPTO_crc32_n (le_encode 8 x) in
        get_indices_loop fuel size hash_num bucket (u32 (i + 1)) dst
    end
  else Some dst.

(** A bucket is tried at most [n * n + 2] times when [n] indices are there. *)
Definition indices_fuel (hash_num : Z) : nat :=
  Z.to_nat (hash_num * (hash_num * hash_num + 2)).

Definition ibf_get_indices (ibf : InvertibleBloomFilter) (key : Z) : option (list Z) :=
  let? bucket := GNUNET_CRYPTO_crc32_n (le_encode 8 key) in
  get_indices_loop (indices_fuel (ibf_hash_num ibf)) (ibf_size ibf) (ibf_hash_num ibf) bucket 0 [].

(** Updates an element of an array. *)
Definition update (f : Z -> Z) (i : Z) (l : list Z) : option (list Z) :=
  assert? 0 <=? i in
  let? v := l !! Z.to_nat i in Some (<[Z.to_nat i := f v]> l).

Fixpoint ibf_insert_into (ibf : InvertibleBloomFilter) (key : Z) (buckets : list Z) (side : Z)
  : option InvertibleBloomFilter :=
  match buckets with
  | [] => Some ibf
  | bucket :: buckets =>
      let? count := update (fun n => s8 (n + side)) bucket (ibf_count ibf) in
      let? keys := update (fun k => Z.lxor k key) bucket (key_sum ibf) in
      let? h := IBF_KEY_HASH_VAL key in
      let? hashes := update (fun k => Z.lxor k h) bucket (key_hash_sum ibf) in
      ibf_insert_into (mk_ibf (ibf_size ibf) (ibf_hash_num ibf) keys hashes count) key buckets side
  end.

Definition ibf_insert (ibf : InvertibleBloomFilter) (key : Z) : option InvertibleBloomFilter :=
  assert? ibf_hash_num ibf <=? ibf_size ibf in
  let? buckets := ibf_get_indices ibf key in
  ibf_insert_into ibf key buckets 1.

Definition ibf_remove (ibf : InvertibleBloomFilter) (key : Z) : option InvertibleBloomFilter :=
  assert? ibf_hash_num ibf <=? ibf_size ibf in
  let? buckets := ibf_get_indices ibf key in
  ibf_insert_into ibf key buckets (-1).

Definition ibf_is_empty (ibf : InvertibleBloomFilter) : Z :=
  if forallb (fun i =>
       (0 =? ibf_count ibf !!! i) && (0 =? key_hash_sum ibf !!! i) && (0 =? key_sum ibf !!! i))
     (seq 0 (Z.to_nat (ibf_size ibf)))
  then GNUNET_YES else GNUNET_NO.

(** The loop of [ibf_decode] over the buckets [idx]. Returns the filter, the return
    code, the side and the key. *)
Fixpoint decode_loop (ibf : InvertibleBloomFilter) (idx : list nat)
  : option (InvertibleBloomFilter * Z * Z * Z) :=
  match idx with
  | [] => Some (ibf, if ibf_is_empty ibf =? GNUNET_YES then GNUNET_NO else GNUNET_SYSERR, 0, 0)
  | i :: idx =>
      let? c := ibf_count ibf !! i in
      if negb (1 =? c) && negb (-1 =? c) then decode_loop ibf idx
      else
        let? key := key_sum ibf !! i in
        let? hash := IBF_KEY_HASH_VAL key in
        let? hs := key_hash_sum ibf !! i in
        if negb (hash =? hs) then decode_loop ibf idx
        else
          let? buckets := ibf_get_indices ibf key in
          if negb (existsb (Z.eqb (Z.of_nat i)) buckets) then decode_loop ibf idx
          else
            let? ibf := ibf_insert_into ibf key buckets (- c) in
            Some (ibf, GNUNET_YES, c, key)
  end.

Definition ibf_decode (ibf : InvertibleBloomFilter) : option (InvertibleBloomFilter * Z * Z * Z) :=
  decode_loop ibf (seq 0 (Z.to_nat (ibf_size ibf))).

Definition ibf_write_slice (ibf : InvertibleBloomFilter) (start count : Z) : option (list Z) :=
  assert? u32 (start + count) <=? ibf_size ibf in
  assert? start + count <=? Z.of_nat (length (key_sum ibf)) in
  let part l := slice (Z.to_nat start) (Z.to_nat count) l in
  Some (concat (map (le_encode 8) (part (key_sum ibf)))
        ++ concat (map (le_encode 4) (part (key_hash_sum ibf)))
        ++ map u8 (part (ibf_count ibf))).

(** Cuts a buffer into [n] integers of [w] bytes. *)
Fixpoint read_ints (w n : nat) (buf : list Z) : list Z :=
  match n with O => [] | S n => le_decode (take w buf) :: read_ints w n (drop w buf) end.

Definition ibf_read_slice (buf : list Z) (start count : Z) (ibf : InvertibleBloomFilter)
  : option InvertibleBloomFilter :=
  assert? 0 <? count in
  assert? u32 (start + count) <=? ibf_size ibf in
  assert? start + count <=? Z.of_nat (length (key_sum ibf)) in
  assert? 13 * count <=? Z.of_nat (length buf) in
  let n := Z.to_nat count in
  let hashes := drop (8 * n) buf in
  let counts := drop (4 * n) hashes in
  Some (mk_ibf (ibf_size ibf) (ibf_hash_num ibf)
          (splice (Z.to_nat start) (read_ints 8 n buf) (key_sum ibf))
          (splice (Z.to_nat start) (read_ints 4 n hashes) (key_hash_sum ibf))
          (splice (Z.to_nat start) (map s8 (read_ints 1 n counts)) (ibf_count ibf))).

Definition ibf_subtract (ibf1 ibf2 : InvertibleBloomFilter) : option InvertibleBloomFilter :=
  assert? ibf_size ibf1 =? ibf_size ibf2 in
  assert? ibf_hash_num ibf1 =? ibf_hash_num ibf2 in
  Some (mk_ibf (ibf_size ibf1) (ibf_hash_num ibf1)
          (zip_with Z.lxor (key_sum ibf1) (key_sum ibf2))
          (zip_with Z.lxor (key_hash_sum ibf1) (key_hash_sum ibf2))
          (zip_with (fun a b => s8 (a - b)) (ibf_count ibf1) (ibf_count ibf2))).

Definition ibf_dup (ibf : InvertibleBloomFilter) : InvertibleBloomFilter :=
  mk_ibf (ibf_size ibf) (ibf_hash_num ibf) (key_sum ibf) (key_hash_sum ibf) (ibf_count ibf).

(** ** Bucket indices *)

Section Indices.

(** The next bucket the loop looks at. *)
Definition next_bucket (b i : Z) : Z :=
  Z.lxor (crc32_loop 4294967295 (le_encode 8 (Z.lor (Z.shiftl b 32) i))) 4294967295.

Lemma crc32_n_u32 m c : bytes_ok m -> GNUNET_CRYPTO_crc32_n m = Some c -> is_u32 c.
Proof.
  intros Hm. rewrite crc32_n_eq, crc32_loop_ref by done. intros [= <-].
  apply (word_lxor 32); [lia| |lia]. apply crc_fold_u32; [done|]. unfold is_u32. lia.
Qed.

Lemma crc32_n_total m : exists c, GNUNET_CRYPTO_crc32_n m = Some c.
Proof. rewrite crc32_n_eq. by eexists. Qed.

Lemma next_bucket_eq b i :
  GNUNET_CRYPTO_crc32_n (le_encode 8 (Z.lor (Z.shiftl b 32) i)) = Some (next_bucket b i).
Proof. apply crc32_n_eq. Qed.

Lemma next_bucket_u32 b i : is_u32 (next_bucket b i).
Proof. eapply crc32_n_u32; [apply (bytes_ok_le_encode 8)|]. apply next_bucket_eq. Qed.

(** The number that is hashed: the counter in the low half, the bucket in the high
    half. *)
Lemma bucket_word b i :
  is_u32 b -> is_u32 i ->
  Z.lor (Z.shiftl b 32) i = Z.lxor (Z.shiftl b 32) i /\ is_u64 (Z.lxor (Z.shiftl b 32) i).
Proof.
  unfold is_u32, is_u64. intros Hb Hi. split.
  - symmetry. apply Z.lxor_lor. apply Z.bits_inj'. intros k Hk. rewrite Z.land_spec, Z.bits_0.
    destruct (Z.lt_ge_cases k 32).
    + by rewrite Z.shiftl_spec_low by lia.
    + rewrite (word_bits_high 32 i) by done. apply andb_false_r.
  - apply word_lxor; [lia| |lia]. rewrite Z.shiftl_mul_pow2 by lia. lia.
Qed.

(** Different counters lead to different buckets: a burst of at most 32 bits. *)
Lemma next_bucket_inj b i i' :
  is_u32 b -> is_u32 i -> is_u32 i' -> next_bucket b i = next_bucket b i' -> i = i'.
Proof.
  intros Hb Hi Hi' E. destruct (Z.eq_dec i i') as [|Hne]; [done|exfalso].
  destruct (bucket_word b i Hb Hi) as [E1 H1]. destruct (bucket_word b i' Hb Hi') as [E2 H2].
  assert (Hd : Z.lxor i i' <> 0) by (intros H0; apply Hne; by apply Z.lxor_eq).
  pose proof (word_lxor 32 i i' ltac:(lia) Hi Hi') as Hr.
  eapply (crc32_burst (le_encode 8 (Z.lor (Z.shiftl b 32) i))
            (le_encode 8 (Z.lor (Z.shiftl b 32) i')) (Z.lxor i i') 0).
  - apply bytes_ok_le_encode.
  - apply bytes_ok_le_encode.
  - by rewrite !length_le_encode.
  - lia.
  - lia.
  - rewrite !le_decode_encode, E1, E2. change (256 ^ Z.of_nat 8) with (2 ^ 64).
    rewrite !Z.mod_small by done. change (Z.of_nat 0) with 0. rewrite Z.shiftl_0_r.
    rewrite (Z.lxor_comm (Z.shiftl b 32)), Z.lxor_assoc, <- (Z.lxor_assoc (Z.shiftl b 32)).
    by rewrite Z.lxor_nilpotent, Z.lxor_0_l.
  - by rewrite !next_bucket_eq, E.
Qed.

(** The buckets looked at from bucket [b] and counter [i] on. *)
Fixpoint bucket_seq (b i : Z) (n : nat) {struct n} : Z :=
  match n with O => b | S n => bucket_seq (next_bucket b i) (i + 1) n end.

Lemma bucket_seq_S b i n :
  bucket_seq b i (S n) = next_bucket (bucket_seq b i n) (i + Z.of_nat n).
Proof.
  revert b i. induction n as [|n IH]; intros b i.
  - cbn. f_equal. lia.
  - change (bucket_seq b i (S (S n))) with (bucket_seq (next_bucket b i) (i + 1) (S n)).
    rewrite IH. cbn [bucket_seq]. f_equal. lia.
Qed.

Lemma bucket_seq_u32 b i n : is_u32 b -> is_u32 (bucket_seq b i n).
Proof. destruct n; [done|]. intros. rewrite bucket_seq_S. apply next_bucket_u32. Qed.

(** Among the buckets looked at there is soon one that is not in [dst]: a pair of
    successive buckets in [dst] determines the counter, so there are at most
    [length dst * length dst] of them. *)
Lemma fresh_bucket b i dst :
  is_u32 b -> 0 <= i -> i + Z.of_nat (length dst * length dst + 1) < 2 ^ 32 ->
  exists n, (n <= length dst * length dst + 1)%nat
    /\ (forall m, (m < n)%nat -> bucket_seq b i m ∈ dst) /\ bucket_seq b i n ∉ dst.
Proof.
  intros Hb Hi Hfit.
  set (N := (length dst * length dst + 1)%nat) in *.
  assert (Hsearch : forall k, (exists n, (n < k)%nat /\ (forall m, (m < n)%nat -> bucket_seq b i m ∈ dst)
              /\ bucket_seq b i n ∉ dst) \/ (forall m, (m < k)%nat -> bucket_seq b i m ∈ dst)).
  { induction k as [|k [(n & ? & ? & ?)|IH]]; [right; lia|left; exists n; auto with lia|].
    destruct (decide (bucket_seq b i k ∈ dst)) as [Hin|Hout].
    - right. intros m Hm. destruct (decide (m = k)) as [->|]; [done|]. apply IH. lia.
    - left. exists k. auto. }
  destruct (Hsearch (S N)) as [(n & Hn & ? & ?)|Hall]; [exists n; split_and!; auto; lia|exfalso].
  set (pairs := map (fun m => (bucket_seq b i m, bucket_seq b i (S m))) (seq 0 N)).
  assert (Hnd : NoDup pairs).
  { apply NoDup_fmap_2_strong; [|apply NoDup_seq]. intros m m' Hm Hm' E.
    apply pair_equal_spec in E as [E1 E2]. apply elem_of_seq in Hm. apply elem_of_seq in Hm'. rewrite !bucket_seq_S, <- E1 in E2.
    apply next_bucket_inj in E2; [lia|by apply bucket_seq_u32|unfold is_u32; lia..]. }
  assert (Hincl : List.incl pairs (list_prod dst dst)).
  { intros [x y] Hxy. apply in_map_iff in Hxy as (m & E & Hm).
    apply pair_equal_spec in E as [<- <-]. apply in_seq in Hm. apply in_prod; apply list_elem_of_In, Hall; lia. }
  apply NoDup_ListNoDup in Hnd.
  pose proof (NoDup_incl_length Hnd Hincl) as Hlen.
  unfold pairs in Hlen. rewrite length_map, length_seq, length_prod in Hlen. lia.
Qed.

Lemma existsb_elem b dst : existsb (Z.eqb b) dst = bool_decide (b ∈ dst).
Proof.
  case_bool_decide as H.
  - apply existsb_exists. exists b. split; [by apply list_elem_of_In|apply Z.eqb_refl].
  - apply not_true_iff_false. intros (x & Hx & E%Z.eqb_eq)%existsb_exists. subst x.
    by apply H, list_elem_of_In.
Qed.

(** One iteration. *)
Lemma get_indices_step fuel size h b i dst :
  Z.of_nat (length dst) < h ->
  get_indices_loop (S fuel) size h b i dst =
  get_indices_loop fuel size h (next_bucket b i) (u32 (i + 1))
    (if decide (b ∈ dst) then dst else dst ++ [b mod size]).
Proof.
  intros Hl. cbn [get_indices_loop]. rewrite (proj2 (Z.ltb_lt _ _)), next_bucket_eq by done.
  rewrite existsb_elem. by case_decide; [rewrite bool_decide_true|rewrite bool_decide_false].
Qed.

Lemma get_indices_retry n fuel size h b i dst :
  Z.of_nat (length dst) < h -> 0 <= i -> i + Z.of_nat n < 2 ^ 32 ->
  (forall m, (m < n)%nat -> bucket_seq b i m ∈ dst) ->
  get_indices_loop (n + fuel) size h b i dst
  = get_indices_loop fuel size h (bucket_seq b i n) (i + Z.of_nat n) dst.
Proof.
  revert b i. induction n as [|n IH]; intros b i Hl Hi Hfit Hin.
  { cbn. by rewrite Z.add_0_r. }
  change (S n + fuel)%nat with (S (n + fuel)). rewrite get_indices_step by done.
  rewrite decide_True by (apply (Hin 0%nat); lia). rewrite u32_small by words.
  rewrite IH; [f_equal; cbn; lia|done|lia|lia|].
  intros m Hm. apply (Hin (S m)). lia.
Qed.

Lemma get_indices_loop_total k fuel size h b i dst :
  0 < size -> 0 <= h <= 255 -> is_u32 b -> 0 <= i ->
  h = Z.of_nat (length dst + k) -> Z.of_nat k * (h * h + 2) <= Z.of_nat fuel ->
  i + Z.of_nat k * (h * h + 2) < 2 ^ 32 -> Forall (fun x => 0 <= x < size) dst ->
  exists l, get_indices_loop fuel size h b i dst = Some l /\ Z.of_nat (length l) = h
    /\ Forall (fun x => 0 <= x < size) l.
Proof.
  intros Hs Hh. revert fuel b i dst. induction k as [|k IH]; intros fuel b i dst Hb Hi Hk Hf Hfit Hd.
  { exists dst. split_and!; [|lia|done].
    destruct fuel; cbn [get_indices_loop]; by rewrite (proj2 (Z.ltb_ge _ _)) by lia. }
  assert (Hsq : Z.of_nat (length dst * length dst + 1) <= h * h + 1).
  { rewrite Nat2Z.inj_add, Nat2Z.inj_mul. apply Z.add_le_mono_r. apply Z.mul_le_mono_nonneg; lia. }
  assert (0 <= Z.of_nat k * (h * h + 2)) by (apply Z.mul_nonneg_nonneg; lia).
  rewrite Nat2Z.inj_succ, Z.mul_succ_l in Hf, Hfit.
  destruct (fresh_bucket b i dst Hb Hi) as (n & Hn & Hin & Hout); [lia|].
  assert (Hn' : Z.of_nat n <= h * h + 1) by lia.
  set (rest := Z.of_nat k * (h * h + 2)) in *. set (sq := h * h) in *.
  replace fuel with (n + S (fuel - n - 1))%nat by lia.
  rewrite get_indices_retry by (done || lia). rewrite get_indices_step by lia.
  rewrite decide_False by done. rewrite u32_small by (unfold is_u32; lia).
  apply IH; [apply next_bucket_u32|lia|rewrite length_app; cbn; lia|fold sq; lia|fold sq; lia|].
  apply Forall_app. split; [done|]. constructor; [by apply Z.mod_pos_bound|constructor].
Qed.

Lemma get_indices_more_fuel fuel extra size h b i dst l :
  get_indices_loop fuel size h b i dst = Some l ->
  get_indices_loop (fuel + extra) size h b i dst = Some l.
Proof.
  revert b i dst. induction fuel as [|fuel IH]; intros b i dst;
    destruct (Z.lt_ge_cases (Z.of_nat (length dst)) h) as [Hl|Hl].
  - cbn [get_indices_loop]. by rewrite (proj2 (Z.ltb_lt _ _)).
  - destruct extra; cbn [plus get_indices_loop]; by rewrite (proj2 (Z.ltb_ge _ _)).
  - cbn [plus]. rewrite !get_indices_step by done. apply IH.
  - cbn [plus get_indices_loop]. by rewrite (proj2 (Z.ltb_ge _ _)).
Qed.

End Indices.

(** ** Well-formed filters *)

Definition in_s8 (z : Z) : Prop := -128 <= z < 128.

Record ibf_wf (ibf : InvertibleBloomFilter) : Prop := {
  wf_size : 0 < ibf_size ibf < 2 ^ 31;
  wf_hash_num : 0 <= ibf_hash_num ibf <= 255;
  wf_len : Z.of_nat (length (key_sum ibf)) = ibf_size ibf
    /\ Z.of_nat (length (key_hash_sum ibf)) = ibf_size ibf
    /\ Z.of_nat (length (ibf_count ibf)) = ibf_size ibf;
  wf_keys : Forall is_u64 (key_sum ibf);
  wf_hashes : Forall is_u32 (key_hash_sum ibf);
  wf_counts : Forall in_s8 (ibf_count ibf);
}.

(** The size and the number of hashes, which no operation changes. *)
Definition ibf_params (ibf : InvertibleBloomFilter) : Z * Z := (ibf_size ibf, ibf_hash_num ibf).

Lemma get_indices_total ibf key :
  ibf_wf ibf ->
  exists l, ibf_get_indices ibf key = Some l /\ Z.of_nat (length l) = ibf_hash_num ibf
    /\ Forall (fun x => 0 <= x < ibf_size ibf) l.
Proof.
  intros Hw. pose proof (wf_size _ Hw). pose proof (wf_hash_num _ Hw) as Hh.
  unfold ibf_get_indices. destruct (crc32_n_total (le_encode 8 key)) as [c Hc]. rewrite Hc.
  apply (get_indices_loop_total (Z.to_nat (ibf_hash_num ibf))); cbn [length]; try lia.
  - eapply crc32_n_u32; [|exact Hc]. apply bytes_ok_le_encode.
  - unfold indices_fuel. rewrite !Z2Nat.id by (repeat apply Z.mul_nonneg_nonneg; lia). lia.
  - rewrite Z2Nat.id by lia. set (h := ibf_hash_num ibf) in *.
    assert (h * (h * h + 2) <= 255 * (255 * 255 + 2)); [|lia].
    apply Z.mul_le_mono_nonneg; [lia..|]. apply Z.add_le_mono_r, Z.mul_le_mono_nonneg; lia.
  - constructor.
Qed.

Lemma get_indices_params ibf ibf' key :
  ibf_params ibf' = ibf_params ibf -> ibf_get_indices ibf' key = ibf_get_indices ibf key.
Proof. unfold ibf_params, ibf_get_indices. by intros [= -> ->]. Qed.

(** ** Adding a key, as a function *)

(** Applies [f] to the elements at the given positions, one after the other. *)
Definition alters (f : Z -> Z) (bs : list Z) (l : list Z) : list Z :=
  fold_left (fun l b => alter f (Z.to_nat b) l) bs l.

(** How often position [j] is among [bs]. *)
Definition hits (bs : list Z) (j : nat) : nat := count_occ Nat.eq_dec (map Z.to_nat bs) j.

Definition key_hash (key : Z) : Z := default 0 (IBF_KEY_HASH_VAL key).
Definition indices (ibf : InvertibleBloomFilter) (key : Z) : list Z :=
  default [] (ibf_get_indices ibf key).

(** The filter after a key has been added to one side. *)
Definition add_key (side : Z) (ibf : InvertibleBloomFilter) (key : Z) : InvertibleBloomFilter :=
  let bs := indices ibf key in
  mk_ibf (ibf_size ibf) (ibf_hash_num ibf)
    (alters (fun k => Z.lxor k key) bs (key_sum ibf))
    (alters (fun k => Z.lxor k (key_hash key)) bs (key_hash_sum ibf))
    (alters (fun n => s8 (n + side)) bs (ibf_count ibf)).

Section Alters.

Lemma lookup_alters f bs l j : alters f bs l !! j = Nat.iter (hits bs j) f <$> l !! j.
Proof.
  revert l. induction bs as [|b bs IH]; intros l.
  { cbn. by destruct (l !! j). }
  unfold alters in *. rewrite fold_left_cons, IH. unfold hits. cbn [map count_occ].
  destruct (Nat.eq_dec (Z.to_nat b) j) as [<-|Hne].
  - rewrite list_lookup_alter_eq. destruct (l !! Z.to_nat b); cbn; [|done].
    by rewrite Nat.iter_swap.
  - by rewrite list_lookup_alter_ne.
Qed.

Lemma length_alters f bs l : length (alters f bs l) = length l.
Proof.
  revert l. induction bs as [|b bs IH]; intros l; [done|].
  unfold alters in *. by rewrite fold_left_cons, IH, length_alter.
Qed.

Lemma Forall_alters (P : Z -> Prop) f bs l :
  (forall x, P x -> P (f x)) -> Forall P l -> Forall P (alters f bs l).
Proof.
  intros Hf Hl. apply Forall_lookup. intros j x. rewrite lookup_alters.
  destruct (l !! j) as [y|] eqn:E; cbn; [|done]. intros [= <-].
  apply (Forall_lookup_1 _ _ _ _ Hl) in E. generalize (hits bs j). intros n.
  induction n; [done|]. by apply Hf.
Qed.

Lemma iter_commute (f g : Z -> Z) n m x :
  (forall y, f (g y) = g (f y)) ->
  Nat.iter n f (Nat.iter m g x) = Nat.iter m g (Nat.iter n f x).
Proof.
  intros Hc. assert (Hf : forall m y, f (Nat.iter m g y) = Nat.iter m g (f y)).
  { intros k y. induction k as [|k IH]; [done|]. cbn. rewrite Hc. by f_equal. }
  induction n as [|n IH]; [done|]. cbn. fold (Nat.iter n f (Nat.iter m g x)). rewrite IH. apply Hf.
Qed.

Lemma alters_commute f g bs cs l :
  (forall y, f (g y) = g (f y)) -> alters f bs (alters g cs l) = alters g cs (alters f bs l).
Proof.
  intros Hc. apply list_eq. intros j. rewrite !lookup_alters.
  destruct (l !! j); cbn; [|done]. f_equal. by apply iter_commute.
Qed.

Lemma alters_inverse (P : Z -> Prop) f g bs l :
  (forall x, P x -> P (g x)) -> (forall x, P x -> f (g x) = x) -> Forall P l ->
  alters f bs (alters g bs l) = l.
Proof.
  intros Hp Hi Hl. apply list_eq. intros j. rewrite !lookup_alters.
  destruct (l !! j) as [x|] eqn:E; cbn; [|done]. f_equal.
  apply (Forall_lookup_1 _ _ _ _ Hl) in E. generalize (hits bs j). intros n.
  revert x E. induction n as [|n IH]; intros x Hx; [done|].
  rewrite (Nat.iter_succ_r n _ g).
  change (Nat.iter (S n) f ?v) with (f (Nat.iter n f v)). rewrite IH; auto.
Qed.

(** Pointwise operations. *)
Lemma zip_alters_both (op : Z -> Z -> Z) f bs l k :
  (forall x y, op (f x) (f y) = op x y) ->
  zip_with op (alters f bs l) (alters f bs k) = zip_with op l k.
Proof.
  intros Ho. apply list_eq. intros j. rewrite !lookup_zip_with, !lookup_alters.
  destruct (l !! j) as [x|], (k !! j) as [y|]; cbn; try done. f_equal.
  generalize (hits bs j). intros n. induction n as [|n IH]; [done|]. cbn. by rewrite Ho.
Qed.

Lemma zip_alters_l (op : Z -> Z -> Z) f g bs l k :
  (forall x y, op (f x) y = g (op x y)) ->
  zip_with op (alters f bs l) k = alters g bs (zip_with op l k).
Proof.
  intros Ho. apply list_eq. intros j. rewrite !lookup_zip_with, !lookup_alters, !lookup_zip_with.
  destruct (l !! j) as [x|], (k !! j) as [y|]; cbn; try done. f_equal.
  generalize (hits bs j). intros n. induction n as [|n IH]; [done|]. cbn. rewrite Ho. by f_equal.
Qed.

Lemma zip_alters_r (op : Z -> Z -> Z) f g bs l k :
  (forall x y, op x (f y) = g (op x y)) ->
  zip_with op l (alters f bs k) = alters g bs (zip_with op l k).
Proof.
  intros Ho. apply list_eq. intros j. rewrite !lookup_zip_with, !lookup_alters, !lookup_zip_with.
  destruct (l !! j) as [x|], (k !! j) as [y|]; cbn; try done. f_equal.
  generalize (hits bs j). intros n. induction n as [|n IH]; [done|]. cbn. rewrite Ho. by f_equal.
Qed.

End Alters.

(** Counts modulo 256. *)
Section Counts.

Lemma s8_range z : in_s8 (s8 z).
Proof. unfold in_s8, s8. pose proof (Z.mod_pos_bound (z + 2 ^ 7) (2 ^ 8)). lia. Qed.

Lemma s8_small z : in_s8 z -> s8 z = z.
Proof. unfold in_s8, s8. intros. rewrite Z.mod_small; lia. Qed.

Lemma s8_eq x y : (x - y) mod 256 = 0 -> s8 x = s8 y.
Proof.
  intros H. unfold s8. change (2 ^ 8) with 256. f_equal.
  apply Z.mod_divide in H as [q Hq]; [|lia].
  replace (x + 2 ^ 7) with (y + 2 ^ 7 + q * 256) by lia. by rewrite Z.mod_add.
Qed.

(** [s8 z] differs from [z] by a multiple of 256. *)
Lemma s8_diff z : exists q, s8 z = z + q * 256.
Proof.
  exists (- ((z + 2 ^ 7) / 256)). unfold s8. change (2 ^ 8) with 256.
  pose proof (Z.div_mod (z + 2 ^ 7) 256). lia.
Qed.

End Counts.

(** Proves equations between counts modulo 256. *)
Ltac s8_solve :=
  repeat match goal with
  | |- context [s8 (?a + ?b)] =>
      match a with context [s8 ?z] => let q := fresh "q" in let E := fresh "E" in
        destruct (s8_diff z) as [q E]; rewrite E; clear E end
  | |- context [s8 (?a - ?b)] =>
      match a with context [s8 ?z] => let q := fresh "q" in let E := fresh "E" in
        destruct (s8_diff z) as [q E]; rewrite E; clear E end
  | |- context [s8 (?a - ?b)] =>
      match b with context [s8 ?z] => let q := fresh "q" in let E := fresh "E" in
        destruct (s8_diff z) as [q E]; rewrite E; clear E end
  end;
  apply s8_eq; apply Z.mod_divide; [lia|];
  match goal with |- (256 | ?x) => exists (x / 256); Z.div_mod_to_equations; lia end.

(** Computes the fields of a filter. *)
Ltac ibf_cbn := unfold add_key; cbn [ibf_size ibf_hash_num key_sum key_hash_sum ibf_count].

Section Keys.
Implicit Types ibf : InvertibleBloomFilter.

Lemma key_hash_spec key : IBF_KEY_HASH_VAL key = Some (key_hash key) /\ is_u32 (key_hash key).
Proof.
  unfold key_hash, IBF_KEY_HASH_VAL.
  destruct (crc32_n_total (take sizeof_IBF_KeyHash (le_encode sizeof_IBF_Key key))) as [c Hc].
  rewrite Hc. split; [done|]. eapply crc32_n_u32; [|exact Hc]. apply Forall_take, bytes_ok_le_encode.
Qed.

Lemma indices_spec ibf key :
  ibf_wf ibf -> ibf_get_indices ibf key = Some (indices ibf key)
    /\ Forall (fun x => 0 <= x < ibf_size ibf) (indices ibf key).
Proof.
  intros Hw. destruct (get_indices_total ibf key Hw) as (l & E & _ & Hl).
  unfold indices. by rewrite E.
Qed.

Lemma indices_params ibf ibf' key :
  ibf_params ibf' = ibf_params ibf -> indices ibf' key = indices ibf key.
Proof. intros H. unfold indices. by rewrite (get_indices_params ibf ibf'). Qed.

Lemma add_key_params side ibf key : ibf_params (add_key side ibf key) = ibf_params ibf.
Proof. done. Qed.

Lemma add_key_wf side ibf key : ibf_wf ibf -> is_u64 key -> ibf_wf (add_key side ibf key).
Proof.
  intros [Hs Hh (L1 & L2 & L3) Hk Hhs Hc] Hkey.
  split; cbn [add_key ibf_size ibf_hash_num key_sum key_hash_sum ibf_count]; try done.
  - by rewrite !length_alters.
  - apply Forall_alters; [|done]. intros x Hx. by apply (word_lxor 64).
  - apply Forall_alters; [|done]. intros x Hx. apply (word_lxor 32); [lia|done|].
    apply key_hash_spec.
  - apply Forall_alters; [|done]. intros. apply s8_range.
Qed.

Lemma update_alter f b l :
  0 <= b < Z.of_nat (length l) -> update f b l = Some (alter f (Z.to_nat b) l).
Proof.
  intros Hb. unfold update. rewrite (proj2 (Z.leb_le 0 b)) by lia.
  destruct (lookup_lt_is_Some_2 l (Z.to_nat b)) as [v Hv]; [lia|]. rewrite Hv. f_equal.
  apply list_eq. intros j. destruct (decide (j = Z.to_nat b)) as [->|Hne].
  - rewrite list_lookup_insert_eq, list_lookup_alter_eq, Hv by lia. done.
  - by rewrite list_lookup_insert_ne, list_lookup_alter_ne.
Qed.

Lemma insert_into_spec ibf key bs side :
  Z.of_nat (length (key_sum ibf)) = ibf_size ibf ->
  Z.of_nat (length (key_hash_sum ibf)) = ibf_size ibf ->
  Z.of_nat (length (ibf_count ibf)) = ibf_size ibf ->
  Forall (fun x => 0 <= x < ibf_size ibf) bs ->
  ibf_insert_into ibf key bs side =
  Some (mk_ibf (ibf_size ibf) (ibf_hash_num ibf)
    (alters (fun k => Z.lxor k key) bs (key_sum ibf))
    (alters (fun k => Z.lxor k (key_hash key)) bs (key_hash_sum ibf))
    (alters (fun n => s8 (n + side)) bs (ibf_count ibf))).
Proof.
  intros L1 L2 L3 Hbs. revert ibf L1 L2 L3 Hbs.
  induction bs as [|b bs IH]; intros ibf L1 L2 L3 Hbs; [by destruct ibf|].
  apply Forall_cons in Hbs as [Hb Hbs]. cbn [ibf_insert_into].
  rewrite !update_alter by lia. rewrite (proj1 (key_hash_spec key)), update_alter by lia.
  rewrite IH; cbn; rewrite ?length_alter; done.
Qed.

Lemma insert_spec ibf key :
  ibf_wf ibf -> ibf_hash_num ibf <= ibf_size ibf ->
  ibf_insert ibf key = Some (add_key 1 ibf key) /\ ibf_remove ibf key = Some (add_key (-1) ibf key).
Proof.
  intros Hw Hle. unfold ibf_insert, ibf_remove. rewrite (proj2 (Z.leb_le _ _) Hle).
  destruct (indices_spec ibf key Hw) as [-> Hi]. destruct (wf_len _ Hw) as (L1 & L2 & L3).
  by rewrite !insert_into_spec.
Qed.

(** Keys can be added in any order. *)
Lemma add_key_commute s s' ibf k k' :
  add_key s (add_key s' ibf k') k = add_key s' (add_key s ibf k) k'.
Proof.
  unfold add_key at 1 3. rewrite !(indices_params ibf) by done. ibf_cbn. f_equal.
  - apply alters_commute. intros y. by rewrite !Z.lxor_assoc, (Z.lxor_comm k).
  - apply alters_commute. intros y. by rewrite !Z.lxor_assoc, (Z.lxor_comm (key_hash k)).
  - apply alters_commute. intros y. s8_solve.
Qed.

Lemma lxor_cancel x y : Z.lxor (Z.lxor x y) y = x.
Proof. by rewrite Z.lxor_assoc, Z.lxor_nilpotent, Z.lxor_0_r. Qed.

(** Adding a key to the other side takes it out. *)
Lemma add_key_inverse s ibf k : ibf_wf ibf -> add_key (- s) (add_key s ibf k) k = ibf.
Proof.
  intros Hw. unfold add_key at 1. rewrite (indices_params ibf) by done. ibf_cbn.
  rewrite (alters_inverse (fun _ => True)); [|done|intros; apply lxor_cancel|by apply Forall_true].
  rewrite (alters_inverse (fun _ => True)); [|done|intros; apply lxor_cancel|by apply Forall_true].
  rewrite (alters_inverse in_s8); [by destruct ibf|intros; apply s8_range| |apply Hw].
  intros x Hx. rewrite <- (s8_small x) at 2 by done. s8_solve.
Qed.

Lemma add_key_inverse' s ibf k : ibf_wf ibf -> add_key s (add_key (- s) ibf k) k = ibf.
Proof. intros Hw. rewrite <- (Z.opp_involutive s) at 1. by apply add_key_inverse. Qed.

(** The difference of two filters, as a function. *)
Definition difference ibf1 ibf2 : InvertibleBloomFilter :=
  mk_ibf (ibf_size ibf1) (ibf_hash_num ibf1)
    (zip_with Z.lxor (key_sum ibf1) (key_sum ibf2))
    (zip_with Z.lxor (key_hash_sum ibf1) (key_hash_sum ibf2))
    (zip_with (fun a b => s8 (a - b)) (ibf_count ibf1) (ibf_count ibf2)).

Lemma difference_common a b k :
  ibf_params a = ibf_params b -> difference (add_key 1 a k) (add_key 1 b k) = difference a b.
Proof.
  intros Hp. unfold difference. ibf_cbn. rewrite (indices_params b a) by done. f_equal.
  - apply zip_alters_both. intros x y. rewrite (Z.lxor_comm y), Z.lxor_assoc, <- (Z.lxor_assoc k).
    by rewrite Z.lxor_nilpotent, Z.lxor_0_l.
  - apply zip_alters_both. intros x y.
    rewrite (Z.lxor_comm y), Z.lxor_assoc, <- (Z.lxor_assoc (key_hash k)).
    by rewrite Z.lxor_nilpotent, Z.lxor_0_l.
  - apply zip_alters_both. intros x y. s8_solve.
Qed.

Lemma difference_left a b k : difference (add_key 1 a k) b = add_key 1 (difference a b) k.
Proof.
  unfold difference at 1. ibf_cbn. rewrite (indices_params a (difference a b)) by done. f_equal.
  - apply zip_alters_l. intros x y. by rewrite !Z.lxor_assoc, (Z.lxor_comm k).
  - apply zip_alters_l. intros x y. by rewrite !Z.lxor_assoc, (Z.lxor_comm (key_hash k)).
  - apply zip_alters_l. intros x y. s8_solve.
Qed.

Lemma difference_right a b k :
  ibf_params a = ibf_params b -> difference a (add_key 1 b k) = add_key (-1) (difference a b) k.
Proof.
  intros Hp. unfold difference at 1. ibf_cbn.
  rewrite (indices_params b (difference a b)) by done. f_equal.
  - apply zip_alters_r. intros x y. by rewrite Z.lxor_assoc.
  - apply zip_alters_r. intros x y. by rewrite Z.lxor_assoc.
  - apply zip_alters_r. intros x y. s8_solve.
Qed.

End Keys.

(** ** Sets of keys *)

(** Inserting and removing lists of keys. *)
Fixpoint insert_all (keys : list Z) (ibf : InvertibleBloomFilter) : option InvertibleBloomFilter :=
  match keys with
  | [] => Some ibf
  | k :: keys => let? ibf := ibf_insert ibf k in insert_all keys ibf
  end.

Fixpoint remove_all (keys : list Z) (ibf : InvertibleBloomFilter) : option InvertibleBloomFilter :=
  match keys with
  | [] => Some ibf
  | k :: keys => let? ibf := ibf_remove ibf k in remove_all keys ibf
  end.

(** Keys with their sides. *)
Definition add_signed (l : list (Z * Z)) (ibf : InvertibleBloomFilter) : InvertibleBloomFilter :=
  fold_right (fun p i => add_key p.1 i p.2) ibf l.

Definition signed (s : Z) (keys : list Z) : list (Z * Z) := map (pair s) keys.

(** The parameters with which filters are used. *)
Definition usable (size hash_num : Z) : Prop :=
  0 < size < 2 ^ 31 /\ 0 <= hash_num <= 255 /\ hash_num <= size.

Section Sets.
Implicit Types ibf : InvertibleBloomFilter.

Lemma ibf_create_spec size hn :
  usable size hn -> exists ibf, ibf_create size hn = Some ibf /\ ibf_wf ibf
    /\ ibf_params ibf = (size, hn).
Proof.
  intros (Hs & Hh & _). unfold ibf_create. rewrite (proj2 (Z.eqb_neq 0 size)) by lia.
  eexists. split; [done|]. split; [|done].
  split; cbn; [done|done|rewrite length_replicate; lia|apply Forall_replicate; words..|].
  apply Forall_replicate. unfold in_s8. lia.
Qed.

Lemma add_signed_wf l ibf :
  ibf_wf ibf -> Forall (fun p => is_u64 p.2) l ->
  ibf_wf (add_signed l ibf) /\ ibf_params (add_signed l ibf) = ibf_params ibf.
Proof.
  intros Hw Hl. induction Hl as [|p l Hp _ [IH1 IH2]]; [done|]. cbn [add_signed fold_right].
  split; [by apply add_key_wf|exact IH2].
Qed.

Lemma add_signed_app l l' ibf : add_signed (l ++ l') ibf = add_signed l (add_signed l' ibf).
Proof. unfold add_signed. by rewrite fold_right_app. Qed.

(** The order does not matter. *)
#[export] Instance add_signed_proper : Proper ((≡ₚ) ==> (=) ==> (=)) add_signed.
Proof.
  intros l l' H ibf ? <-. induction H; cbn; [done|by f_equal|apply add_key_commute|congruence].
Qed.

Lemma insert_all_spec keys ibf :
  ibf_wf ibf -> ibf_hash_num ibf <= ibf_size ibf -> Forall is_u64 keys ->
  insert_all keys ibf = Some (add_signed (signed 1 (rev keys)) ibf)
  /\ remove_all keys ibf = Some (add_signed (signed (-1) (rev keys)) ibf).
Proof.
  intros Hw Hle Hk. revert ibf Hw Hle. induction Hk as [|k keys Hk _ IH]; intros ibf Hw Hle; [done|].
  cbn [insert_all remove_all rev]. unfold signed. rewrite !map_app, !add_signed_app.
  destruct (insert_spec ibf k Hw Hle) as [-> ->]. cbn [map add_signed fold_right fst snd].
  split; apply IH; by try apply add_key_wf.
Qed.

Lemma signed_u64 s keys : Forall is_u64 keys -> Forall (fun p => is_u64 p.2) (signed s keys).
Proof. intros H. by apply Forall_map. Qed.

Lemma signed_perm s l l' : l ≡ₚ l' -> signed s l ≡ₚ signed s l'.
Proof. apply Permutation_map. Qed.

Lemma signed_app s l l' : signed s (l ++ l') = signed s l ++ signed s l'.
Proof. apply map_app. Qed.

Lemma signed_rev s l : signed s (rev l) ≡ₚ signed s l.
Proof. apply signed_perm. by rewrite <- Permutation_rev. Qed.

Lemma signed_params l ibf : ibf_params (add_signed l ibf) = ibf_params ibf.
Proof. by induction l. Qed.

(** Keys on both sides cancel. *)
Lemma difference_signed l a b :
  ibf_params a = ibf_params b ->
  difference (add_signed (signed 1 l) a) (add_signed (signed 1 l) b) = difference a b.
Proof.
  intros Hp. induction l as [|k l IH]; [done|]. cbn [signed map add_signed fold_right fst snd].
  rewrite difference_common; [exact IH|]. clear IH. induction l; done.
Qed.

Lemma difference_signed_l l a b :
  difference (add_signed (signed 1 l) a) b = add_signed (signed 1 l) (difference a b).
Proof.
  induction l as [|k l IH]; [done|]. cbn [signed map add_signed fold_right fst snd].
  rewrite difference_left. f_equal. exact IH.
Qed.

Lemma difference_signed_r l a b :
  ibf_params a = ibf_params b ->
  difference a (add_signed (signed 1 l) b) = add_signed (signed (-1) l) (difference a b).
Proof.
  intros Hp. induction l as [|k l IH]; [done|]. cbn [signed map add_signed fold_right fst snd].
  rewrite difference_right; [f_equal; exact IH|]. clear IH. induction l; done.
Qed.

Lemma subtract_spec a b :
  ibf_params a = ibf_params b -> ibf_subtract a b = Some (difference a b).
Proof.
  unfold ibf_params, ibf_subtract. intros [= E1 E2].
  by rewrite (proj2 (Z.eqb_eq _ _) E1), (proj2 (Z.eqb_eq _ _) E2).
Qed.

Lemma zip_zero (op : Z -> Z -> Z) l :
  (forall x, x ∈ l -> op x x = 0) -> zip_with op l l = replicate (length l) 0.
Proof.
  induction l as [|x l IH]; intros H; [done|]. cbn. rewrite H by left. f_equal. apply IH.
  intros y Hy. apply H. by right.
Qed.

(** A filter minus itself is empty. *)
Lemma difference_self ibf :
  ibf_wf ibf -> ibf_create (ibf_size ibf) (ibf_hash_num ibf) = Some (difference ibf ibf).
Proof.
  intros [Hs _ (L1 & L2 & L3) _ _ _]. unfold ibf_create, difference.
  rewrite (proj2 (Z.eqb_neq 0 _)) by lia.
  rewrite !zip_zero by
    (intros; first [apply Z.lxor_nilpotent | cbn beta; by rewrite Z.sub_diag]).
  by replace (length (key_sum ibf)) with (Z.to_nat (ibf_size ibf)) by lia;
    replace (length (key_hash_sum ibf)) with (Z.to_nat (ibf_size ibf)) by lia;
    replace (length (ibf_count ibf)) with (Z.to_nat (ibf_size ibf)) by lia.
Qed.

End Sets.

(** ** Decoding *)

(** Successive successful calls of [ibf_decode]: sides and keys, last one first. *)
Inductive decodes : InvertibleBloomFilter -> list (Z * Z) -> InvertibleBloomFilter -> Prop :=
  | decodes_nil ibf : decodes ibf [] ibf
  | decodes_step ibf l ibf1 ibf2 side key :
      decodes ibf l ibf1 -> ibf_decode ibf1 = Some (ibf2, GNUNET_YES, side, key) ->
      decodes ibf ((side, key) :: l) ibf2.

Section Decoding.
Implicit Types ibf : InvertibleBloomFilter.

Lemma is_empty_spec ibf :
  ibf_wf ibf -> ibf_is_empty ibf = GNUNET_YES ->
  ibf_create (ibf_size ibf) (ibf_hash_num ibf) = Some ibf.
Proof.
  intros [Hs _ (L1 & L2 & L3) _ _ _]. unfold ibf_is_empty.
  destruct (forallb _ _) eqn:E; [intros _|done]. rewrite forallb_forall in E.
  assert (Hz : forall l, Z.of_nat (length l) = ibf_size ibf ->
            (forall i, (i < Z.to_nat (ibf_size ibf))%nat -> l !!! i = 0) ->
            replicate (Z.to_nat (ibf_size ibf)) 0 = l).
  { intros l Hl H. apply list_eq_same_length with (Z.to_nat (ibf_size ibf));
      [lia|rewrite length_replicate; lia|]. intros i x y Hi Hx Hy.
    apply lookup_replicate in Hx as [-> _]. apply list_lookup_total_correct in Hy.
    rewrite <- Hy. symmetry. by apply H. }
  assert (Hall : forall i, (i < Z.to_nat (ibf_size ibf))%nat ->
            ibf_count ibf !!! i = 0 /\ key_hash_sum ibf !!! i = 0 /\ key_sum ibf !!! i = 0).
  { intros i Hi. specialize (E i). rewrite in_seq, !andb_true_iff, !Z.eqb_eq in E. lia. }
  unfold ibf_create. rewrite (proj2 (Z.eqb_neq 0 _)) by lia. f_equal.
  assert (Hk := Hz (key_sum ibf) L1 (fun i Hi => proj2 (proj2 (Hall i Hi)))).
  assert (Hh := Hz (key_hash_sum ibf) L2 (fun i Hi => proj1 (proj2 (Hall i Hi)))).
  assert (Hc := Hz (ibf_count ibf) L3 (fun i Hi => proj1 (Hall i Hi))).
  destruct ibf as [size hn ks hs cs]. cbn in *. by f_equal.
Qed.

Lemma create_empty size hn ibf : ibf_create size hn = Some ibf -> ibf_is_empty ibf = GNUNET_YES.
Proof.
  unfold ibf_create. destruct (negb _); [intros [= <-]|done]. unfold ibf_is_empty.
  rewrite (proj2 (forallb_forall _ _)); [done|]. intros i Hi%in_seq.
  cbn [ibf_size ibf_count key_hash_sum key_sum] in *.
  by rewrite !(list_lookup_total_correct _ i 0) by (apply lookup_replicate; lia).
Qed.

(** What a call of [ibf_decode] does. *)
Definition decode_result ibf (o : option (InvertibleBloomFilter * Z * Z * Z)) : Prop :=
  exists ibf' ret side key, o = Some (ibf', ret, side, key)
    /\ (ret = GNUNET_YES /\ (side = 1 \/ side = -1) /\ is_u64 key /\ ibf' = add_key (- side) ibf key
        \/ ibf' = ibf /\ ret = (if ibf_is_empty ibf =? GNUNET_YES then GNUNET_NO else GNUNET_SYSERR)).

Lemma decode_loop_spec ibf idx :
  ibf_wf ibf -> Forall (fun i => (Z.of_nat i < ibf_size ibf)) idx ->
  decode_result ibf (decode_loop ibf idx).
Proof.
  intros Hw Hidx. destruct (wf_len _ Hw) as (L1 & L2 & L3).
  induction Hidx as [|i idx Hi _ IH].
  { do 4 eexists. split; [done|]. by right. }
  cbn [decode_loop].
  destruct (lookup_lt_is_Some_2 (ibf_count ibf) i) as [c ->]; [lia|].
  destruct (lookup_lt_is_Some_2 (key_sum ibf) i) as [key Hkey]; [lia|].
  destruct (lookup_lt_is_Some_2 (key_hash_sum ibf) i) as [hs ->]; [lia|].
  destruct (negb (1 =? c) && negb (-1 =? c)) eqn:Ec; [done|]. rewrite Hkey.
  rewrite (proj1 (key_hash_spec key)). destruct (negb (key_hash key =? hs)); [done|].
  destruct (indices_spec ibf key Hw) as [-> Hin]. destruct (negb (existsb (Z.eqb (Z.of_nat i)) (indices ibf key))); [done|].
  rewrite insert_into_spec by done. do 4 eexists. split; [done|]. left. split_and!; try done.
  - apply andb_false_iff in Ec. rewrite !negb_false_iff, !Z.eqb_eq in Ec. lia.
  - by eapply Forall_lookup_1; [apply (wf_keys _ Hw)|].
Qed.

Lemma decode_spec ibf : ibf_wf ibf -> decode_result ibf (ibf_decode ibf).
Proof.
  intros Hw. apply decode_loop_spec; [done|]. apply Forall_forall. intros i Hi.
  apply elem_of_seq in Hi. pose proof (wf_size _ Hw). lia.
Qed.

Lemma decode_no ibf ibf' side key :
  ibf_wf ibf -> ibf_decode ibf = Some (ibf', GNUNET_NO, side, key) ->
  ibf_create (ibf_size ibf) (ibf_hash_num ibf) = Some ibf.
Proof.
  intros Hw E. destruct (decode_spec ibf Hw) as (? & ? & ? & ? & E' & Hc). rewrite E in E'.
  injection E' as <- <- <- <-. destruct Hc as [[? _]|[_ Hret]]; [done|].
  apply is_empty_spec; [done|]. destruct (ibf_is_empty ibf =? GNUNET_YES) eqn:Hy; [|done].
  by apply Z.eqb_eq.
Qed.

Lemma decodes_spec ibf l ibf' :
  ibf_wf ibf -> decodes ibf l ibf' ->
  ibf_wf ibf' /\ ibf_params ibf' = ibf_params ibf
  /\ Forall (fun p => (p.1 = 1 \/ p.1 = -1) /\ is_u64 p.2) l /\ ibf = add_signed l ibf'.
Proof.
  intros Hw H. induction H as [ibf|ibf l ibf1 ibf2 side key _ IH E]; [done|].
  destruct (IH Hw) as (Hw1 & Hp1 & Hl & Heq).
  destruct (decode_spec ibf1 Hw1) as (? & ? & ? & ? & E' & Hcase). rewrite E in E'.
  injection E' as <- <- <- <-.
  assert (Hno : forall b : bool, GNUNET_YES <> (if b then GNUNET_NO else GNUNET_SYSERR)) by (by intros []).
  destruct Hcase as [(_ & Hside & Hkey & ->)|[_ Hret]]; [|by apply Hno in Hret].
  split_and!.
  - by apply add_key_wf.
  - done.
  - by constructor.
  - rewrite Heq. change ((side, key) :: l) with ([(side, key)] ++ l).
    rewrite (Permutation_app_comm [(side, key)] l), add_signed_app. f_equal.
    cbn [add_signed fold_right fst snd]. by rewrite add_key_inverse'.
Qed.

End Decoding.

(** ** Slices *)

Section Slices.

Lemma read_ints_encode w l rest :
  Forall (fun z => 0 <= z < 256 ^ Z.of_nat w) l ->
  read_ints w (length l) (concat (map (le_encode w) l) ++ rest) = l
  /\ drop (w * length l) (concat (map (le_encode w) l) ++ rest) = rest.
Proof.
  induction 1 as [|z l Hz _ [IH1 IH2]]; cbn [map concat length read_ints app].
  { by rewrite Nat.mul_0_r. }
  rewrite <- app_assoc. assert (Hw : length (le_encode w z) = w) by apply length_le_encode. split.
  - rewrite take_app_length', drop_app_length' by done. f_equal; [|exact IH1].
    rewrite le_decode_encode. by apply Z.mod_small.
  - replace (w * S (length l))%nat with (w + w * length l)%nat by lia.
    rewrite <- drop_drop, drop_app_length' by done. exact IH2.
Qed.

Lemma read_counts l :
  Forall in_s8 l -> map s8 (read_ints 1 (length l) (map u8 l)) = l.
Proof.
  induction 1 as [|z l Hz _ IH]; [done|]. cbn [map length read_ints take drop le_decode].
  rewrite drop_0, IH. f_equal. rewrite Z.mul_0_r, Z.add_0_r. rewrite <- (s8_small z) at 2 by done.
  apply s8_eq. unfold u8. change (2 ^ 8) with 256. rewrite Zminus_mod_idemp_l, Z.sub_diag. done.
Qed.

(** Replacing a part of an array by the same part of another one. *)
Lemma lookup_splice_part (start n : nat) (l k : list Z) i :
  (start + n <= length l)%nat -> (start + n <= length k)%nat ->
  splice start (slice start n l) k !! i
  = if decide (start <= i < start + n)%nat then l !! i else k !! i.
Proof.
  intros Hl Hk. rewrite lookup_splice by (rewrite length_slice; lia). rewrite length_slice by lia.
  case_decide; [|done]. rewrite lookup_slice by lia. f_equal. lia.
Qed.

(** Copying parts one after the other. *)
Lemma take_splice_part (start n : nat) (l k : list Z) :
  (start + n <= length l)%nat -> length k = length l -> take start k = take start l ->
  take (start + n) (splice start (slice start n l) k) = take (start + n) l.
Proof.
  intros Hl Hk Ht. apply list_eq. intros i.
  destruct (Nat.lt_ge_cases i (start + n)) as [Hi|Hi].
  - rewrite !lookup_take_lt by done. rewrite lookup_splice_part by lia. case_decide; [done|].
    rewrite <- (lookup_take_lt k start i), <- (lookup_take_lt l start i) by lia. by f_equal.
  - by rewrite !lookup_take_ge.
Qed.

Lemma length_concat_encode w l : length (concat (map (le_encode w) l)) = (w * length l)%nat.
Proof.
  induction l as [|z l IH]; cbn [map concat length]; [lia|].
  rewrite length_app, length_le_encode, IH. lia.
Qed.

(** [b] with the buckets of a slice replaced by those of [a]. *)
Definition merged (a b : InvertibleBloomFilter) (start n : nat) : InvertibleBloomFilter :=
  mk_ibf (ibf_size b) (ibf_hash_num b)
    (splice start (slice start n (key_sum a)) (key_sum b))
    (splice start (slice start n (key_hash_sum a)) (key_hash_sum b))
    (splice start (slice start n (ibf_count a)) (ibf_count b)).

Lemma slice_spec a b start count :
  ibf_wf a -> ibf_wf b -> ibf_size a = ibf_size b ->
  0 <= start -> 0 < count -> start + count <= ibf_size a ->
  exists buf, ibf_write_slice a start count = Some buf /\ Z.of_nat (length buf) = 13 * count
    /\ ibf_read_slice buf start count b = Some (merged a b (Z.to_nat start) (Z.to_nat count)).
Proof.
  intros Ha Hb Hsz Hs Hc Hle. destruct (wf_len _ Ha) as (L1 & L2 & L3).
  destruct (wf_len _ Hb) as (M1 & M2 & M3). pose proof (wf_size _ Ha).
  unfold ibf_write_slice, ibf_read_slice. rewrite !(u32_small (start + count)) by words.
  rewrite !(proj2 (Z.leb_le (start + count) _)) by lia. rewrite (proj2 (Z.ltb_lt 0 count)) by done.
  eexists. split; [reflexivity|]. set (n := Z.to_nat count). set (st := Z.to_nat start).
  assert (Hlen : forall l, Z.of_nat (length l) = ibf_size a -> length (slice st n l) = n)
    by (intros; apply length_slice; lia).
  assert (Hbuf : forall ks hs cs, length ks = n -> length hs = n -> length cs = n ->
    Z.of_nat (length (concat (map (le_encode 8) ks) ++ concat (map (le_encode 4) hs) ++ map u8 cs))
    = 13 * count).
  { intros. rewrite !length_app, !length_concat_encode, length_map. lia. }
  rewrite Hbuf by auto. split; [done|]. rewrite (proj2 (Z.leb_le _ _)) by lia. f_equal.
  destruct (read_ints_encode 8 (slice st n (key_sum a))
    (concat (map (le_encode 4) (slice st n (key_hash_sum a))) ++ map u8 (slice st n (ibf_count a))))
    as [R1 D1]; [apply Forall_take, Forall_drop, Ha|].
  destruct (read_ints_encode 4 (slice st n (key_hash_sum a)) (map u8 (slice st n (ibf_count a))))
    as [R2 D2]; [apply Forall_take, Forall_drop, Ha|].
  pose proof (read_counts (slice st n (ibf_count a))
    ltac:(apply Forall_take, Forall_drop, Ha)) as R3.
  rewrite !Hlen in R1, D1, R2, D2, R3 by done. rewrite D1, D2. unfold merged. by rewrite R1, R2, R3.
Qed.

Lemma merged_lookup (l k : list Z) (st n : nat) (P : Z -> Prop) :
  (st + n <= length l)%nat -> length k = length l -> Forall P l -> Forall P k ->
  length (splice st (slice st n l) k) = length l /\ Forall P (splice st (slice st n l) k).
Proof.
  intros Hl Hk Pl Pk. split.
  - rewrite length_splice; [done|]. rewrite length_slice; lia.
  - apply Forall_lookup. intros i x. rewrite lookup_splice_part by lia.
    case_decide; by apply Forall_lookup_1.
Qed.

Lemma merged_wf a b (st n : nat) :
  ibf_wf a -> ibf_wf b -> ibf_size a = ibf_size b -> Z.of_nat (st + n) <= ibf_size a ->
  ibf_wf (merged a b st n).
Proof.
  intros Ha Hb Hsz Hle. destruct (wf_len _ Ha) as (L1 & L2 & L3).
  destruct (wf_len _ Hb) as (M1 & M2 & M3). unfold merged.
  destruct (merged_lookup (key_sum a) (key_sum b) st n is_u64) as [K1 K2]; [lia|lia|apply Ha|apply Hb|].
  destruct (merged_lookup (key_hash_sum a) (key_hash_sum b) st n is_u32) as [H1 H2];
    [lia|lia|apply Ha|apply Hb|].
  destruct (merged_lookup (ibf_count a) (ibf_count b) st n in_s8) as [C1 C2];
    [lia|lia|apply Ha|apply Hb|].
  split; cbn [ibf_size ibf_hash_num key_sum key_hash_sum ibf_count]; try done; try apply Hb. lia.
Qed.

(** Sends the buckets from [start] on in messages of the given numbers of buckets. *)
Fixpoint transfer (a : InvertibleBloomFilter) (start : Z) (counts : list Z)
    (b : InvertibleBloomFilter) : option InvertibleBloomFilter :=
  match counts with
  | [] => Some b
  | n :: counts =>
      let? buf := ibf_write_slice a start n in
      let? b := ibf_read_slice buf start n b in
      transfer a (start + n) counts b
  end.

(** The buckets before [start] are the same. *)
Definition agree (a b : InvertibleBloomFilter) (start : nat) : Prop :=
  take start (key_sum b) = take start (key_sum a)
  /\ take start (key_hash_sum b) = take start (key_hash_sum a)
  /\ take start (ibf_count b) = take start (ibf_count a).

Lemma transfer_spec a counts start b :
  ibf_wf a -> ibf_wf b -> ibf_params a = ibf_params b -> 0 <= start ->
  Forall (fun n => 0 < n) counts -> start + foldr Z.add 0 counts = ibf_size a ->
  agree a b (Z.to_nat start) -> transfer a start counts b = Some a.
Proof.
  intros Ha Hb Hp Hs Hc. revert start b Hb Hp Hs.
  assert (Hnn : forall l, Forall (fun n => 0 < n) l -> 0 <= foldr Z.add 0 l).
  { induction 1; cbn; lia. }
  induction Hc as [|n counts Hn Hc IH]; intros start b Hb Hp Hs Hsum (A1 & A2 & A3);
    pose proof Hp as E; unfold ibf_params in E; apply pair_equal_spec in E as [E1 E2];
    destruct (wf_len _ Ha) as (L1 & L2 & L3); destruct (wf_len _ Hb) as (M1 & M2 & M3);
    cbn [foldr] in Hsum.
  - cbn [transfer]. f_equal. rewrite !take_ge in A1, A2, A3 by lia.
    destruct a, b. cbn in *. congruence.
  - pose proof (Hnn counts Hc).
    destruct (slice_spec a b start n) as (buf & Hw & _ & Hr); [done..|lia|].
    cbn [transfer]. rewrite Hw, Hr. apply IH; [apply merged_wf; (done || lia)|done|lia|lia|].
    rewrite Z2Nat.inj_add by lia.
    split_and!; apply take_splice_part; (done || lia).
Qed.

End Slices.

(** ** Properties *)

(** C23. Reconciliation: the filter over the keys [C ++ A] minus the filter over
    [C ++ B], inserted in any order, is the empty filter into which [A] has been
    inserted and from which [B] has been removed, and the keys [C] that both have leave
    no trace. In particular filters over the same keys differ by the empty filter. *)
Theorem ibf_reconciliation size hn A B C keysA keysB :
  usable size hn -> Forall is_u64 keysA -> Forall is_u64 keysB ->
  keysA ≡ₚ C ++ A -> keysB ≡ₚ C ++ B ->
  exists empty fA fB d e,
    ibf_create size hn = Some empty
    /\ insert_all keysA empty = Some fA /\ insert_all keysB empty = Some fB
    /\ ibf_subtract fA fB = Some d
    /\ insert_all A empty = Some e /\ remove_all B e = Some d
    /\ (A = [] -> B = [] -> d = empty).
Proof.
  intros Hu HkA HkB PA PB. destruct (ibf_create_spec size hn Hu) as (z & Hz & Hw & Hp).
  pose proof Hp as E. unfold ibf_params in E. apply pair_equal_spec in E as [E1 E2].
  assert (Hle : ibf_hash_num z <= ibf_size z) by (unfold usable in Hu; lia).
  assert (HA : Forall is_u64 A) by (rewrite PA in HkA; by apply Forall_app in HkA as [_ ?]).
  assert (HB : Forall is_u64 B) by (rewrite PB in HkB; by apply Forall_app in HkB as [_ ?]).
  destruct (add_signed_wf (signed 1 (rev A)) z Hw) as [WA PAe]; [by apply signed_u64, Forall_rev|].
  pose proof PAe as E. unfold ibf_params in E. apply pair_equal_spec in E as [E3 E4].
  exists z. do 4 eexists. split; [done|].
  split; [by apply insert_all_spec|]. split; [by apply insert_all_spec|].
  split; [apply subtract_spec; by rewrite !signed_params|].
  split; [by apply insert_all_spec|].
  assert (Hd : difference (add_signed (signed 1 (rev keysA)) z) (add_signed (signed 1 (rev keysB)) z)
               = add_signed (signed (-1) (rev B)) (add_signed (signed 1 (rev A)) z)).
  { rewrite !signed_rev, (signed_perm 1 _ _ PA), (signed_perm 1 _ _ PB).
    rewrite (signed_app 1 C A), (signed_app 1 C B), !add_signed_app.
    rewrite difference_signed by by rewrite !signed_params.
    rewrite difference_signed_r by by rewrite signed_params.
    rewrite difference_signed_l. do 2 f_equal.
    pose proof (difference_self z Hw) as Hs. rewrite E1, E2, Hz in Hs. congruence. }
  rewrite Hd. split.
  - apply insert_all_spec; [done| |done]. rewrite E3, E4. lia.
  - by intros -> ->.
Qed.

Lemma ibf_reconciliation_witness :
  usable 8 2 /\ exists empty fA fB d e,
    ibf_create 8 2 = Some empty
    /\ insert_all [7; 9; 3] empty = Some fA /\ insert_all [11; 9] empty = Some fB
    /\ ibf_subtract fA fB = Some d
    /\ insert_all [3; 7] empty = Some e /\ remove_all [11] e = Some d
    /\ ([3; 7] = [] -> [11] = [] -> d = empty).
Proof.
  assert (Hu : usable 8 2) by (unfold usable; lia). split; [exact Hu|].
  apply (ibf_reconciliation 8 2 [3; 7] [11] [9] [7; 9; 3] [11; 9] Hu).
  - repeat constructor; words.
  - repeat constructor; words.
  - cbn [app]. rewrite (Permutation_swap 9 7), (Permutation_swap 7 3). done.
  - apply Permutation_swap.
Defined.

(** Decoding: every call returns. When it reports a key, adding the key back to
    its side restores the filter, and [GNUNET_NO] is returned exactly for the empty
    filter, [GNUNET_SYSERR] when keys are left that cannot be decoded. A run of calls
    that ends with [GNUNET_NO] has listed the contents: the filter was the empty one
    with the reported keys on the reported sides. *)
Theorem ibf_decode_correct ibf :
  ibf_wf ibf ->
  (exists ibf' ret side key, ibf_decode ibf = Some (ibf', ret, side, key)
     /\ ibf_wf ibf' /\ ibf_params ibf' = ibf_params ibf
     /\ (ret = GNUNET_YES /\ (side = 1 \/ side = -1) /\ is_u64 key
           /\ (ibf_hash_num ibf <= ibf_size ibf ->
               (if side =? 1 then ibf_insert ibf' key else ibf_remove ibf' key) = Some ibf)
         \/ ret = GNUNET_NO /\ ibf' = ibf
           /\ ibf_create (ibf_size ibf) (ibf_hash_num ibf) = Some ibf
         \/ ret = GNUNET_SYSERR /\ ibf' = ibf
           /\ ibf_create (ibf_size ibf) (ibf_hash_num ibf) <> Some ibf))
  /\ (forall l ibf' side key, decodes ibf l ibf' ->
        ibf_decode ibf' = Some (ibf', GNUNET_NO, side, key) ->
        exists empty, ibf_create (ibf_size ibf) (ibf_hash_num ibf) = Some empty
          /\ ibf = add_signed l empty).
Proof.
  intros Hw. split.
  - destruct (decode_spec ibf Hw) as (ibf' & ret & side & key & -> & Hc).
    exists ibf', ret, side, key. split; [done|].
    destruct Hc as [(-> & Hside & Hkey & ->)|[-> ->]].
    + split; [by apply add_key_wf|]. split; [done|]. left. split_and!; [done..|]. intros Hle.
      destruct (insert_spec (add_key (- side) ibf key) key) as [I R];
        [by apply add_key_wf|done|]. rewrite I, R.
      by destruct Hside as [-> | ->]; cbn [Z.eqb Pos.eqb Z.opp]; rewrite add_key_inverse'.
    + split; [done|]. split; [done|]. right. destruct (ibf_is_empty ibf =? GNUNET_YES) eqn:E.
      * left. apply Z.eqb_eq in E. split_and!; try done. by apply is_empty_spec.
      * right. apply Z.eqb_neq in E. split_and!; try done. intros Hz. apply E. by apply create_empty in Hz.
  - intros l ibf' side key Hd E. destruct (decodes_spec ibf l ibf' Hw Hd) as (Hw' & Hp & _ & Heq).
    exists ibf'. split; [|done]. unfold ibf_params in Hp. apply pair_equal_spec in Hp as [<- <-].
    by eapply decode_no.
Qed.

(** The filter over one key, for the witnesses. *)
Definition one_key_filter : InvertibleBloomFilter :=
  mk_ibf 8 2 [0; 0; 0; 0; 0; 0; 0; 0] [0; 0; 0; 0; 0; 0; 0; 0] [0; 0; 0; 0; 0; 0; 0; 0].

Lemma one_key_filter_wf : ibf_wf one_key_filter.
Proof. split; cbn; try lia; repeat constructor; unfold in_s8; words. Qed.

Lemma ibf_decode_correct_witness :
  exists f, ibf_insert one_key_filter 9 = Some f
    /\ ibf_decode f = Some (one_key_filter, GNUNET_YES, 1, 9)
    /\ exists empty, ibf_create 8 2 = Some empty /\ f = add_signed [(1, 9)] empty.
Proof.
  destruct (insert_spec one_key_filter 9 one_key_filter_wf) as [E _]; [cbn; lia|].
  eexists. split; [exact E|]. split; [vm_compute; reflexivity|].
  refine (proj2 (ibf_decode_correct (add_key 1 one_key_filter 9) _) [(1, 9)] one_key_filter 0 0 _ _).
  - apply add_key_wf; [apply one_key_filter_wf|words].
  - eapply decodes_step; [apply decodes_nil|]. vm_compute. reflexivity.
  - vm_compute. reflexivity.
Defined.

(** Bucket indices: the search for [hash_num] buckets ends, although each
    candidate depends on the previous one (consecutive candidates that are rejected
    cannot repeat with another counter, as CRC-32 tells the counters apart); exactly
    [hash_num] indices are stored, each less than the size, so that neither the array
    of indices nor the arrays of the filter are accessed out of bounds. The indices
    depend on the key and the parameters only. *)
Theorem ibf_indices_bounds ibf key :
  ibf_wf ibf ->
  exists l, ibf_get_indices ibf key = Some l
    /\ Z.of_nat (length l) = ibf_hash_num ibf
    /\ Forall (fun x => 0 <= x < ibf_size ibf) l
    /\ (forall fuel, exists l', get_indices_loop (indices_fuel (ibf_hash_num ibf) + fuel)
          (ibf_size ibf) (ibf_hash_num ibf)
          (default 0 (GNUNET_CRYPTO_crc32_n (le_encode 8 key))) 0 [] = Some l' /\ l' = l)
    /\ (forall ibf', ibf_params ibf' = ibf_params ibf -> ibf_get_indices ibf' key = Some l).
Proof.
  intros Hw. destruct (get_indices_total ibf key Hw) as (l & E & Hl & Hb).
  exists l. split_and!; try done.
  - intros fuel. exists l. split; [|done]. apply get_indices_more_fuel.
    unfold ibf_get_indices in E. by destruct (GNUNET_CRYPTO_crc32_n _).
  - intros ibf' Hp. by rewrite (get_indices_params ibf ibf').
Qed.

Lemma ibf_indices_bounds_witness :
  exists l, ibf_get_indices one_key_filter 9 = Some l /\ length l = 2%nat.
Proof.
  destruct (ibf_indices_bounds one_key_filter 9 one_key_filter_wf) as (l & E & Hl & _).
  exists l. split; [exact E|]. cbn in Hl. lia.
Defined.

(** Slices: a filter that is sent in messages of any numbers of buckets that add up
    to its size, each of 13 bytes per bucket, and read into any filter with the same
    parameters, arrives unchanged. Reading one slice replaces exactly its buckets. *)
Theorem ibf_slices_roundtrip a b :
  ibf_wf a -> ibf_wf b -> ibf_params a = ibf_params b ->
  (forall counts, Forall (fun n => 0 < n) counts -> foldr Z.add 0 counts = ibf_size a ->
     transfer a 0 counts b = Some a)
  /\ (forall start count, 0 <= start -> 0 < count -> start + count <= ibf_size a ->
       exists buf c, ibf_write_slice a start count = Some buf
         /\ Z.of_nat (length buf) = 13 * count
         /\ ibf_read_slice buf start count b = Some c
         /\ ibf_wf c /\ ibf_params c = ibf_params b
         /\ forall i : nat,
              let from := if decide (start <= Z.of_nat i < start + count) then a else b in
              key_sum c !! i = key_sum from !! i
              /\ key_hash_sum c !! i = key_hash_sum from !! i
              /\ ibf_count c !! i = ibf_count from !! i).
Proof.
  intros Ha Hb Hp. split.
  - intros counts Hc Hsum. by apply transfer_spec.
  - intros start count Hs Hc Hle. pose proof Hp as E. unfold ibf_params in E.
    apply pair_equal_spec in E as [E1 E2].
    destruct (slice_spec a b start count) as (buf & W & L & R); [done..|].
    exists buf, (merged a b (Z.to_nat start) (Z.to_nat count)).
    split_and!; [done..|apply merged_wf; (done || lia)|done|].
    intros i. destruct (wf_len _ Ha) as (L1 & L2 & L3). destruct (wf_len _ Hb) as (M1 & M2 & M3).
    cbn [merged key_sum key_hash_sum ibf_count]. rewrite !lookup_splice_part by lia.
    by repeat case_decide; try lia.
Qed.

Lemma ibf_slices_roundtrip_witness :
  transfer (add_key 1 one_key_filter 9) 0 [3; 5] one_key_filter = Some (add_key 1 one_key_filter 9).
Proof.
  refine (proj1 (ibf_slices_roundtrip (add_key 1 one_key_filter 9) one_key_filter _ _ _) [3; 5] _ _).
  - apply add_key_wf; [apply one_key_filter_wf|words].
  - apply one_key_filter_wf.
  - reflexivity.
  - repeat constructor.
  - reflexivity.
Defined.

(** The buckets of a key need not be distinct: a candidate is compared before it is
    reduced modulo the size. A filter that holds only such a key cannot be decoded. *)
Lemma ibf_duplicate_buckets :
  let empty := mk_ibf 8 3 (replicate 8 0) (replicate 8 0) (replicate 8 0) in
  ibf_get_indices empty 3 = Some [2; 2; 2]
  /\ (let? f := ibf_insert empty 3 in
      let? r := ibf_decode f in Some (r.1.1.2)) = Some GNUNET_SYSERR.
Proof. vm_compute. done. Qed.

(** Keys that agree in the lower four of their eight bytes have the same hash. *)
Lemma ibf_key_hash_truncated k : IBF_KEY_HASH_VAL k = IBF_KEY_HASH_VAL (k mod 2 ^ 32).
Proof.
  unfold IBF_KEY_HASH_VAL. f_equal.
  assert (Ht : forall z, take sizeof_IBF_KeyHash (le_encode sizeof_IBF_Key z) = le_encode 4 z) by done.
  rewrite !Ht. change (2 ^ 32) with (256 ^ Z.of_nat 4). rewrite <- le_decode_encode.
  rewrite <- (le_encode_decode (le_encode 4 k)) at 1 by apply bytes_ok_le_encode.
  by rewrite length_le_encode.
Qed.
