(* ===== verification/Strings.v ===== *)
(** * Strings: [src/util/strings.c]

    The Crockford base-32 encoding of binary data, with which keys and hashes are
    printed, and the conversion of sizes and times from and to text. Strings are lists
    of bytes without the final zero. [None] is a failed assertion or a loop that does
    not end. Sizes are below 2^32, the range of the positions in the loops. *)

From Stdlib Require Import String Ascii.
From S2P Require Import Prelude Time.
#[local] Open Scope Z_scope.

(** A literal. *)
Definition str (s : string) : list Z := map (fun c => Z.of_N (N_of_ascii c)) (list_ascii_of_string s).

(** ** Base 32 *)

Definition toupper (a : Z) : Z := if (97 <=? a) && (a <=? 122) then a - 32 else a.

(** The result is an [unsigned int]; the callers store it in an [int], where the last
    value reads as -1. *)
Definition getValue__ (a : Z) : Z :=
  let a :=
    if (a =? 79) || (a =? 111) then 48
    else if (a =? 105) || (a =? 73) || (a =? 108) || (a =? 76) then 49
    else if (a =? 117) || (a =? 85) then 86
    else a in
  if (48 <=? a) && (a <=? 57) then a - 48
  else
    let a := if (97 <=? a) && (a <=? 122) then toupper a else a in
    if (65 <=? a) && (a <=? 90) then
      let dec := 0 in
      let dec := if 73 <? a then dec + 1 else dec in
      let dec := if 76 <? a then dec + 1 else dec in
      let dec := if 79 <? a then dec + 1 else dec in
      let dec := if 85 <? a then dec + 1 else dec in
      a - 65 + 10 - dec
    else -1.

Definition encTable__ : list Z := Eval vm_compute in str "0123456789ABCDEFGHJKMNPQRSTVWXYZ".

(** The loop of [GNUNET_STRINGS_data_to_string]: [data] from [rpos] on, what was written
    to [out]. [Some None] is [NULL]. *)
Fixpoint data_to_string_loop (fuel : nat) (size : Z) (data : list Z) (vbit bits : Z) (out : list Z)
    (out_size : Z) : option (option (list Z)) :=
  if negb (match data with [] => true | _ => false end) || (0 <? vbit) then
    match fuel with
    | O => None
    | S fuel =>
        let '(data, bits, vbit) :=
          match data with
          | b :: data' => if vbit <? 5 then (data', Z.lor (u32 (Z.shiftl bits 8)) b, vbit + 8)
                          else (data, bits, vbit)
          | [] => (data, bits, vbit)
          end in
        assert? (5 <=? vbit) || (vbit =? (size * 8) mod 5) in
        let '(bits, vbit) :=
          if vbit <? 5 then (u32 (Z.shiftl bits (5 - vbit)), 5) else (bits, vbit) in
        if out_size <=? Z.of_nat (length out) then Some None
        else
          let? c := encTable__ !! Z.to_nat (Z.land (Z.shiftr bits (vbit - 5)) 31) in
          data_to_string_loop fuel size data (vbit - 5) bits (out ++ [c]) out_size
    end
  else
    assert? 0 =? vbit in Some (Some out).

(** The string that is written before the final zero; [Some None] is [NULL]. *)
Definition GNUNET_STRINGS_data_to_string (data : list Z) (out_size : Z) : option (option (list Z)) :=
  let size := Z.of_nat (length data) in
  if out_size <? (size * 8 + 4) / 5 then Some None
  else data_to_string_loop (2 * length data + 1) size data 0 0 [] out_size.

Definition GNUNET_STRINGS_data_to_string_alloc (buf : list Z) : option (option (list Z)) :=
  let len := Z.of_nat (length buf) * 8 in
  let len := if 0 <? len mod 5 then len + (5 - len mod 5) else len in
  let len := len / 5 in
  assert? len + 1 <=? GNUNET_MAX_MALLOC_CHECKED in
  GNUNET_STRINGS_data_to_string buf len.

(** The loop of [GNUNET_STRINGS_string_to_data]: the characters before [rpos], last one
    first, and what was written from [wpos] on. *)
Fixpoint string_to_data_loop (chars : list Z) (wpos bits vbit : Z) (uout : list Z) : Z * list Z :=
  if 0 <? wpos then
    match chars with
    | [] => (GNUNET_SYSERR, uout)
    | c :: chars =>
        let ret := getValue__ c in
        let bits := u32 (Z.lor (Z.shiftl ret vbit) bits) in
        if -1 =? ret then (GNUNET_SYSERR, uout)
        else
          let vbit := vbit + 5 in
          if 8 <=? vbit
          then string_to_data_loop chars (wpos - 1) (Z.shiftr bits 8) (vbit - 8) (u8 bits :: uout)
          else string_to_data_loop chars wpos bits vbit uout
    end
  else if negb (match chars with [] => true | _ => false end) || negb (0 =? vbit)
  then (GNUNET_SYSERR, uout) else (GNUNET_OK, uout).

(** Returns the code and what was written at the end of the buffer. *)
Definition GNUNET_STRINGS_string_to_data (enc : list Z) (out_size : Z) : Z * list Z :=
  let encoded_len := u32 (out_size * 8) in
  match rev enc with
  | [] => if 0 =? out_size then (GNUNET_OK, []) else (GNUNET_SYSERR, [])
  | last :: chars =>
      let ret := getValue__ last in
      let '(vbit, shift) :=
        if 0 <? encoded_len mod 5 then (encoded_len mod 5, 5 - encoded_len mod 5) else (5, 0) in
      let bits := u32 (Z.shiftr ret shift) in
      if negb (u32 (encoded_len + shift) / 5 =? Z.of_nat (length enc)) then (GNUNET_SYSERR, [])
      else if -1 =? ret then (GNUNET_SYSERR, [])
      else string_to_data_loop chars out_size bits vbit []
  end.

Example base32_example :
  GNUNET_STRINGS_data_to_string_alloc [1; 2; 254] = Some (Some (str "041FW"))
  /\ GNUNET_STRINGS_string_to_data (str "o4lfw") 3 = (GNUNET_OK, [1; 2; 254]).
Proof. vm_compute. done. Qed.

(** *** The value of a string *)

(** Digits to the base 32, least significant first. *)
Fixpoint le32 (l : list Z) : Z := match l with [] => 0 | d :: l => d + 32 * le32 l end.

(** The number a string of characters stands for. *)
Definition string_value (s : list Z) : Z := le32 (map getValue__ (rev s)).

(** Characters the decoder accepts. *)
Definition valid_char (c : Z) : bool := negb (getValue__ c =? -1).

(** The number of zero bits that fill up the last character. *)
Definition padding_bits (size : Z) : Z := (- (size * 8)) mod 5.

Section Base32.

Lemma string_value_snoc s c : string_value (s ++ [c]) = getValue__ c + 32 * string_value s.
Proof. unfold string_value. by rewrite rev_app_distr. Qed.

Lemma lor_low x b k : 0 <= k -> 0 <= b < 2 ^ k -> Z.lor (x * 2 ^ k) b = x * 2 ^ k + b.
Proof.
  intros Hk Hb. symmetry. apply Z.add_nocarry_lor. apply Z.bits_inj'. intros i Hi.
  rewrite Z.land_spec, Z.bits_0, <- Z.shiftl_mul_pow2 by done. destruct (Z.lt_ge_cases i k).
  - by rewrite Z.shiftl_spec_low.
  - rewrite (word_bits_high k b) by done. apply andb_false_r.
Qed.

(** Values of up to 32 bits are known modulo smaller powers of two. *)
Lemma u32_mod_pow z k : 0 <= k <= 32 -> exists q, u32 z = z + q * 2 ^ k.
Proof.
  intros Hk. exists (- (z / 2 ^ 32) * 2 ^ (32 - k)). unfold u32.
  rewrite <- Z.mul_assoc, <- Z.pow_add_r by lia. replace (32 - k + k) with 32 by lia.
  pose proof (Z.div_mod z (2 ^ 32)). lia.
Qed.

(** [V] is the number read so far, [vbit] of its bits are not written yet. *)
Record enc_inv (V vbit bits : Z) (out : list Z) : Prop := {
  enc_bits : exists q, bits = V + q * 2 ^ vbit;
  enc_value : string_value out = V / 2 ^ vbit;
  enc_chars : Forall (fun c => valid_char c = true) out;
}.

Lemma enc_eat V vbit bits out b :
  0 <= vbit <= 24 -> 0 <= b < 256 -> enc_inv V vbit bits out ->
  enc_inv (V * 256 + b) (vbit + 8) (Z.lor (u32 (Z.shiftl bits 8)) b) out.
Proof.
  intros Hv Hb [[q Hq] Hval Hc]. split; [| |done].
  - assert (E : Z.lor (u32 (Z.shiftl bits 8)) b = u32 (Z.shiftl bits 8) + b).
    { rewrite Z.shiftl_mul_pow2 by lia. unfold u32. change (2 ^ 32) with (2 ^ 24 * 2 ^ 8).
      rewrite Z.mul_mod_distr_r by lia. by rewrite lor_low. }
    rewrite E. destruct (u32_mod_pow (Z.shiftl bits 8) (vbit + 8)) as [r ->]; [lia|].
    exists (q + r). rewrite Z.shiftl_mul_pow2, Hq, Z.pow_add_r by lia. ring.
  - rewrite Hval, Z.pow_add_r, (Z.mul_comm (2 ^ vbit)), <- Z.div_div by lia.
    change (2 ^ 8) with 256. f_equal. rewrite (Z.add_comm _ b), Z.div_add, Z.div_small by lia. lia.
Qed.

Lemma enc_pad V vbit bits out :
  0 <= vbit < 5 -> enc_inv V vbit bits out ->
  enc_inv (V * 2 ^ (5 - vbit)) 5 (u32 (Z.shiftl bits (5 - vbit))) out.
Proof.
  intros Hv [[q Hq] Hval Hc].
  assert (E : 2 ^ 5 = 2 ^ vbit * 2 ^ (5 - vbit)) by (rewrite <- Z.pow_add_r by lia; f_equal; lia).
  split; [| |done].
  - destruct (u32_mod_pow (Z.shiftl bits (5 - vbit)) 5) as [r ->]; [lia|]. exists (q + r).
    rewrite Z.shiftl_mul_pow2, Hq, E by lia. ring.
  - rewrite Hval, E, Z.div_mul_cancel_r; [done|apply Z.pow_nonzero; lia..].
Qed.

Lemma encTable_spec d :
  0 <= d < 32 -> exists c, encTable__ !! Z.to_nat d = Some c /\ getValue__ c = d /\ valid_char c = true.
Proof.
  intros Hd. assert (H : forallb (fun d => match encTable__ !! Z.to_nat d with
    | Some c => (getValue__ c =? d) && valid_char c | None => false end) (seqZ 0 32) = true) by reflexivity.
  rewrite forallb_forall in H. specialize (H d ltac:(apply list_elem_of_In, elem_of_seqZ; lia)).
  destruct (encTable__ !! Z.to_nat d) as [c|]; [|done]. exists c.
  apply andb_true_iff in H as [->%Z.eqb_eq Hv]. done.
Qed.

Lemma enc_emit V vbit bits out :
  5 <= vbit -> enc_inv V vbit bits out ->
  exists c, encTable__ !! Z.to_nat (Z.land (Z.shiftr bits (vbit - 5)) 31) = Some c
    /\ enc_inv V (vbit - 5) bits (out ++ [c]).
Proof.
  intros Hv [[q Hq] Hval Hc]. set (k := vbit - 5). assert (Hk : 0 <= k) by lia.
  replace vbit with (k + 5) in * by lia. rewrite Z.pow_add_r in * by lia. change (2 ^ 5) with 32 in *.
  change 31 with (Z.ones 5). rewrite Z.land_ones, Z.shiftr_div_pow2 by lia. change (2 ^ 5) with 32.
  assert (0 < 2 ^ k) by (apply Z.pow_pos_nonneg; lia).
  assert (Hd : (bits / 2 ^ k) mod 32 = (V / 2 ^ k) mod 32).
  { rewrite Hq. replace (V + q * (2 ^ k * 32)) with (V + q * 32 * 2 ^ k) by ring.
    rewrite Z.div_add, Z.mod_add by lia. done. }
  rewrite Hd. destruct (encTable_spec ((V / 2 ^ k) mod 32)) as (c & Ec & Hg & Hvc);
    [apply Z.mod_pos_bound; lia|]. exists c. split; [done|]. split.
  - exists (q * 32). rewrite Hq. ring.
  - rewrite string_value_snoc, Hg, Hval, <- Z.div_div by lia.
    pose proof (Z.div_mod (V / 2 ^ k) 32). lia.
  - apply Forall_app. split; [done|by constructor].
Qed.

(** The result of encoding: the digits of the number, shifted by the padding. *)
Definition encoded (size N : Z) (o : option (option (list Z))) : Prop :=
  exists s, o = Some (Some s) /\ Forall (fun c => valid_char c = true) s
    /\ Z.of_nat (length s) * 5 = size * 8 + padding_bits size
    /\ string_value s = N * 2 ^ padding_bits size.

Lemma be_decode_cons b l : be_decode (b :: l) = b * 256 ^ Z.of_nat (length l) + be_decode l.
Proof.
  unfold be_decode. cbn [rev]. generalize (rev l) (length_rev l). intros k <-.
  induction k as [|x k IH]; cbn [app le_decode length]; [lia|].
  rewrite IH, Nat2Z.inj_succ, Z.pow_succ_r by lia. ring.
Qed.

(** All bits are written. *)
Lemma enc_done size V N bits out :
  enc_inv V 0 bits out -> Z.of_nat (length out) * 5 = size * 8 + padding_bits size ->
  V = N * 2 ^ padding_bits size -> encoded size N (Some (Some out)).
Proof.
  intros [_ Hval Hc] Hl HV. exists out. split_and!; try done. by rewrite Hval, Z.div_1_r.
Qed.

Lemma enc_end fuel size V bits out out_size :
  enc_inv V 0 bits out -> size * 8 = 5 * Z.of_nat (length out) ->
  encoded size (V * 256 ^ 0 + 0) (data_to_string_loop fuel size [] 0 bits out out_size).
Proof.
  intros Hi Hs.
  assert (Hp : padding_bits size = 0) by (unfold padding_bits; Z.div_mod_to_equations; lia).
  destruct fuel; cbn; (eapply enc_done; [done|lia|]); rewrite Hp; change (256 ^ 0) with 1; lia.
Qed.

(** A character is written when at least 5 bits are there. *)
Lemma enc_step fuel size data V vbit bits out out_size N :
  5 <= vbit -> Z.of_nat (length out) < out_size -> enc_inv V vbit bits out ->
  (forall out', length out' = S (length out) -> enc_inv V (vbit - 5) bits out' ->
     encoded size N (data_to_string_loop fuel size data (vbit - 5) bits out' out_size)) ->
  encoded size N
    (if out_size <=? Z.of_nat (length out) then Some None
     else let? c := encTable__ !! Z.to_nat (Z.land (Z.shiftr bits (vbit - 5)) 31) in
          data_to_string_loop fuel size data (vbit - 5) bits (out ++ [c]) out_size).
Proof.
  intros Hv Hl Hi Hk. rewrite (proj2 (Z.leb_gt _ _) Hl).
  destruct (enc_emit V vbit bits out Hv Hi) as (c & -> & Hi'). apply Hk; [|done].
  rewrite length_app. cbn. lia.
Qed.

Lemma data_to_string_loop_spec fuel size data V vbit bits out out_size :
  bytes_ok data -> 0 <= vbit <= 7 -> enc_inv V vbit bits out ->
  size * 8 = 5 * Z.of_nat (length out) + vbit + 8 * Z.of_nat (length data) ->
  vbit + 8 * Z.of_nat (length data) <= 5 * Z.of_nat fuel -> size * 8 <= out_size * 5 ->
  encoded size (V * 256 ^ Z.of_nat (length data) + be_decode data)
    (data_to_string_loop fuel size data vbit bits out out_size).
Proof.
  revert data V vbit bits out. induction fuel as [|fuel IH]; intros data V vbit bits out Hd Hv Hi Hs Hf Ho.
  { destruct data; [|cbn [length] in Hf; lia]. assert (vbit = 0) as -> by (cbn [length] in Hf; lia).
    apply enc_end; [done|cbn [length] in Hs; lia]. }
  destruct data as [|b data].
  - destruct (Z.eq_dec vbit 0) as [-> |Hnz].
    { apply enc_end; [done|cbn [length] in Hs; lia]. }
    cbn [data_to_string_loop negb orb length] in *. rewrite (proj2 (Z.ltb_lt 0 vbit)) by lia.
    destruct (Z.leb_spec 5 vbit) as [H5|H5].
    + cbn [orb]. rewrite (proj2 (Z.ltb_ge vbit 5)) by done.
      apply (enc_step fuel size [] V); [done|lia|done|]. intros out' Hl' Hi'.
      apply (IH [] V); (done || cbn [length]; lia).
    + assert (vbit = size * 8 mod 5) as Hmod by (Z.div_mod_to_equations; lia).
      rewrite <- Hmod, Z.eqb_refl, (proj2 (Z.ltb_lt vbit 5)) by done. cbn [orb].
      apply enc_pad in Hi; [|lia].
      apply (enc_step fuel size [] (V * 2 ^ (5 - vbit)) 5); [lia|lia|exact Hi|]. intros out' Hl' Hi'.
      assert (Hpad : padding_bits size = 5 - vbit) by (unfold padding_bits; Z.div_mod_to_equations; lia).
      destruct fuel; cbn; (eapply enc_done; [exact Hi'|lia|]); rewrite Hpad;
        change (be_decode []) with 0; change (256 ^ Z.of_nat 0) with 1; ring.
  - apply Forall_cons in Hd as [Hb Hd]. cbn [data_to_string_loop negb orb length] in *.
    rewrite be_decode_cons.
    replace (V * 256 ^ Z.of_nat (S (length data)) + (b * 256 ^ Z.of_nat (length data) + be_decode data))
      with ((V * 256 + b) * 256 ^ Z.of_nat (length data) + be_decode data)
      by (rewrite Nat2Z.inj_succ, Z.pow_succ_r by lia; ring).
    destruct (Z.ltb_spec vbit 5) as [H5|H5].
    + rewrite (proj2 (Z.leb_le 5 _)), (proj2 (Z.ltb_ge (vbit + 8) 5)) by lia. cbn [orb].
      apply (enc_eat V vbit bits out b) in Hi; [|lia|done].
      apply (enc_step fuel size data (V * 256 + b) (vbit + 8)); [lia|lia|exact Hi|]. intros out' Hl' Hi'.
      apply IH; (done || lia).
    + rewrite (proj2 (Z.leb_le 5 _)), (proj2 (Z.ltb_ge vbit 5)) by lia. cbn [orb].
      apply (enc_step fuel size (b :: data) V vbit); [lia|lia|exact Hi|]. intros out' Hl' Hi'.
      replace ((V * 256 + b) * 256 ^ Z.of_nat (length data) + be_decode data)
        with (V * 256 ^ Z.of_nat (length (b :: data)) + be_decode (b :: data))
        by (rewrite be_decode_cons; cbn [length]; rewrite Nat2Z.inj_succ, Z.pow_succ_r by lia; ring).
      apply IH; [by constructor|lia|done|cbn [length]; lia..].
Qed.

Lemma data_to_string_spec data out_size :
  bytes_ok data ->
  if out_size <? (Z.of_nat (length data) * 8 + 4) / 5
  then GNUNET_STRINGS_data_to_string data out_size = Some None
  else encoded (Z.of_nat (length data)) (be_decode data) (GNUNET_STRINGS_data_to_string data out_size).
Proof.
  intros Hd. unfold GNUNET_STRINGS_data_to_string.
  destruct (Z.ltb_spec out_size ((Z.of_nat (length data) * 8 + 4) / 5)) as [|Ho]; [done|].
  apply (data_to_string_loop_spec _ _ _ 0); [done|lia| |cbn; lia|lia|Z.div_mod_to_equations; lia].
  split; [by exists 0|done|constructor].
Qed.

Lemma data_to_string_alloc_eq data :
  let n := Z.of_nat (length data) in
  GNUNET_STRINGS_data_to_string_alloc data =
    if (n * 8 + 4) / 5 + 1 <=? GNUNET_MAX_MALLOC_CHECKED then GNUNET_STRINGS_data_to_string data ((n * 8 + 4) / 5) else None.
Proof.
  intros n. unfold GNUNET_STRINGS_data_to_string_alloc. fold n.
  assert ((if 0 <? (n * 8) mod 5 then n * 8 + (5 - (n * 8) mod 5) else n * 8) / 5 = (n * 8 + 4) / 5) as ->; [|done].
  destruct (Z.ltb_spec 0 ((n * 8) mod 5)); Z.div_mod_to_equations; lia.
Qed.

Lemma getValue_range c : valid_char c = true -> 0 <= getValue__ c < 32.
Proof.
  unfold valid_char. intros H. apply negb_true_iff, Z.eqb_neq in H. revert H. unfold getValue__, toupper.
  repeat match goal with |- context [?a =? ?b] => destruct (Z.eqb_spec a b); cbn [orb] end;
  repeat match goal with |- context [?a <=? ?b] => destruct (Z.leb_spec a b); cbn [andb] end;
  repeat match goal with |- context [?a <? ?b] => destruct (Z.ltb_spec a b) end;
  cbn [andb] in *; lia.
Qed.

Lemma le32_snoc l d : le32 (l ++ [d]) = le32 l + d * 2 ^ (5 * Z.of_nat (length l)).
Proof.
  induction l as [|x l IH]; cbn [app le32 length]; [rewrite Z.mul_0_r; cbn; lia|].
  rewrite IH, Nat2Z.inj_succ. replace (5 * Z.succ _) with (5 + 5 * Z.of_nat (length l)) by lia.
  rewrite Z.pow_add_r by lia. change (2 ^ 5) with 32. ring.
Qed.

(** The characters in [seen], last one first, have been read; [t] bytes and [vbit] bits
    have been made of them. *)
Record dec_inv (P : Z) (seen : list Z) (bits vbit : Z) (uout : list Z) : Prop := {
  dec_vbit : 0 <= vbit < 8;
  dec_bits : 0 <= bits < 2 ^ vbit;
  dec_bytes : bytes_ok uout;
  dec_count : 5 * Z.of_nat (length seen) = P + 8 * Z.of_nat (length uout) + vbit;
  dec_value : le32 (map getValue__ seen) / 2 ^ P
              = be_decode uout + bits * 256 ^ Z.of_nat (length uout);
}.

Lemma pow_256 n : 0 <= n -> 256 ^ n = 2 ^ (8 * n).
Proof. intros. change 256 with (2 ^ 8). by rewrite <- Z.pow_mul_r. Qed.

(** One more character. *)
Lemma dec_read P seen bits vbit uout c :
  0 <= P -> valid_char c = true -> dec_inv P seen bits vbit uout ->
  let bits' := u32 (Z.lor (Z.shiftl (getValue__ c) vbit) bits) in
  0 <= bits' < 2 ^ (vbit + 5)
  /\ le32 (map getValue__ (seen ++ [c])) / 2 ^ P
     = be_decode uout + bits' * 256 ^ Z.of_nat (length uout).
Proof.
  intros HP Hc [Hv Hb Hy Hn Hval]. pose proof (getValue_range c Hc) as Hr.
  rewrite Z.shiftl_mul_pow2, lor_low by lia.
  assert (Hlt : getValue__ c * 2 ^ vbit + bits < 2 ^ (vbit + 5)).
  { rewrite Z.pow_add_r by lia. change (2 ^ 5) with 32.
    assert (getValue__ c * 2 ^ vbit <= 31 * 2 ^ vbit) by (apply Z.mul_le_mono_nonneg_r; lia). lia. }
  assert (Hnn : 0 <= getValue__ c * 2 ^ vbit) by (apply Z.mul_nonneg_nonneg; lia).
  assert (H12 : 2 ^ (vbit + 5) <= 2 ^ 12) by (apply Z.pow_le_mono_r; lia).
  rewrite u32_small by (unfold is_u32; lia). split; [lia|].
  rewrite map_app. cbn [map]. rewrite le32_snoc, length_map, Hn, pow_256 by lia.
  replace (P + 8 * Z.of_nat (length uout) + vbit) with (P + (vbit + 8 * Z.of_nat (length uout))) by lia.
  rewrite (Z.pow_add_r 2 P), (Z.mul_comm (2 ^ P)), Z.mul_assoc by lia.
  rewrite Z.div_add by (apply Z.pow_nonzero; lia). rewrite Hval, pow_256, Z.pow_add_r by lia. ring.
Qed.

(** The code is [GNUNET_OK] exactly for strings of valid characters. *)
Lemma string_to_data_loop_spec P n chars seen wpos bits vbit uout :
  0 <= P < 5 -> dec_inv P seen bits vbit uout -> wpos = n - Z.of_nat (length uout) -> 0 <= wpos ->
  5 * Z.of_nat (length seen + length chars) = P + 8 * n ->
  exists ret out, string_to_data_loop chars wpos bits vbit uout = (ret, out)
    /\ if forallb valid_char chars
       then ret = GNUNET_OK /\ Z.of_nat (length out) = n /\ bytes_ok out
            /\ be_decode out = le32 (map getValue__ (seen ++ chars)) / 2 ^ P
       else ret = GNUNET_SYSERR.
Proof.
  intros HP. revert seen wpos bits vbit uout.
  induction chars as [|c chars IH]; intros seen wpos bits vbit uout Hi Hw Hw0 Hcount;
    pose proof Hi as [Hv Hb Hy Hn Hval]; cbn [string_to_data_loop length] in *.
  - assert (wpos = 0 /\ vbit = 0) as [-> ->] by lia. cbn. do 2 eexists. split; [done|].
    split; [done|]. split; [lia|]. split; [done|]. rewrite app_nil_r, Hval.
    assert (bits = 0) as -> by (change (2 ^ 0) with 1 in Hb; lia). lia.
  - rewrite (proj2 (Z.ltb_lt 0 wpos)) by lia. cbn [forallb]. unfold valid_char at 1.
    rewrite (Z.eqb_sym (-1)). destruct (getValue__ c =? -1) eqn:E; cbn [negb andb]; [by do 2 eexists|].
    assert (Hc : valid_char c = true) by (unfold valid_char; by rewrite E).
    destruct (dec_read P seen bits vbit uout c ltac:(lia) Hc Hi) as [Hb' Hval'].
    set (bits' := u32 _) in *.
    rewrite (cons_middle c seen chars), app_assoc.
    assert (Hl : length (seen ++ [c]) = S (length seen)) by (rewrite length_app; cbn; lia).
    destruct (Z.leb_spec 8 (vbit + 5)) as [H8|H8].
    + apply IH; [|cbn [length]; lia|lia|lia]. rewrite Z.shiftr_div_pow2 by lia. change (2 ^ 8) with 256.
      split; [lia| |constructor; [apply Z.mod_pos_bound; lia|done]|rewrite Hl; cbn [length]; lia|].
      * split; [apply Z.div_pos; lia|]. apply Z.div_lt_upper_bound; [lia|].
        change 256 with (2 ^ 8). rewrite <- Z.pow_add_r by lia.
        replace (8 + (vbit + 5 - 8)) with (vbit + 5) by lia. apply Hb'.
      * rewrite Hval', be_decode_cons. cbn [length]. rewrite Nat2Z.inj_succ, Z.pow_succ_r by lia.
        unfold u8. change (2 ^ 8) with 256. pose proof (Z.div_mod bits' 256 ltac:(lia)) as Hdm.
        rewrite Hdm at 1. ring.
    + apply IH; [|lia|lia|lia]. split; [lia|done|done|rewrite Hl; lia|done].
Qed.

Lemma forallb_rev (f : Z -> bool) l : forallb f (rev l) = forallb f l.
Proof.
  apply eq_true_iff_eq. rewrite !forallb_forall. split; intros H x Hx; apply H; [by apply in_rev in Hx|].
  by apply in_rev.
Qed.

Lemma be_decode_inj l k :
  bytes_ok l -> bytes_ok k -> length l = length k -> be_decode l = be_decode k -> l = k.
Proof.
  intros Hl Hk Hn E. rewrite <- (be_encode_decode l Hl), <- (be_encode_decode k Hk).
  by rewrite Hn, E.
Qed.

(** Decoding, as a function of the number the string stands for. *)
Lemma string_to_data_spec enc n :
  0 <= n -> n * 8 < 2 ^ 32 ->
  exists ret out, GNUNET_STRINGS_string_to_data enc n = (ret, out)
    /\ if (Z.of_nat (length enc) * 5 =? n * 8 + padding_bits n) && forallb valid_char (rev enc)
       then ret = GNUNET_OK /\ Z.of_nat (length out) = n /\ bytes_ok out
            /\ be_decode out = string_value enc / 2 ^ padding_bits n
       else ret = GNUNET_SYSERR.
Proof.
  intros Hn Hlt. unfold GNUNET_STRINGS_string_to_data, string_value.
  rewrite (u32_small (n * 8)) by (unfold is_u32; lia). rewrite <- (length_rev enc).
  destruct (rev enc) as [|last chars]; cbn [forallb length].
  - unfold padding_bits. destruct (Z.eqb_spec 0 n) as [<-|Hnz].
    { do 2 eexists. split; [reflexivity|]. vm_compute. by repeat constructor. }
    rewrite (proj2 (Z.eqb_neq _ _)) by (Z.div_mod_to_equations; lia). by do 2 eexists.
  - assert (Hp : padding_bits n = if 0 <? n * 8 mod 5 then 5 - n * 8 mod 5 else 0).
    { unfold padding_bits. destruct (Z.ltb_spec 0 (n * 8 mod 5)); Z.div_mod_to_equations; lia. }
    replace (if 0 <? n * 8 mod 5 then (n * 8 mod 5, 5 - n * 8 mod 5) else (5, 0))
      with (5 - padding_bits n, padding_bits n) by (rewrite Hp; destruct (0 <? _); f_equal; lia).
    assert (HP : 0 <= padding_bits n < 5) by (apply Z.mod_pos_bound; lia).
    rewrite u32_small by (unfold is_u32; lia).
    replace ((n * 8 + padding_bits n) / 5 =? Z.of_nat (S (length chars)))
      with (Z.of_nat (S (length chars)) * 5 =? n * 8 + padding_bits n).
    2: { apply eq_true_iff_eq. rewrite !Z.eqb_eq. unfold padding_bits. Z.div_mod_to_equations; lia. }
    destruct (Z.eqb_spec (Z.of_nat (S (length chars)) * 5) (n * 8 + padding_bits n)) as [Hlen|];
      cbn [negb andb]; [|by do 2 eexists].
    unfold valid_char at 1. rewrite (Z.eqb_sym (-1)).
    destruct (getValue__ last =? -1) eqn:E; cbn [negb andb]; [by do 2 eexists|].
    assert (Hc : valid_char last = true) by (unfold valid_char; by rewrite E).
    pose proof (getValue_range last Hc) as Hr. set (P := padding_bits n) in *.
    rewrite Z.shiftr_div_pow2 by lia.
    assert (Hq : 0 <= getValue__ last / 2 ^ P < 2 ^ (5 - P)).
    { split; [apply Z.div_pos; lia|]. apply Z.div_lt_upper_bound; [lia|].
      rewrite <- Z.pow_add_r by lia. replace (P + (5 - P)) with 5 by lia. change (2 ^ 5) with 32. lia. }
    assert (2 ^ (5 - P) <= 2 ^ 5) by (apply Z.pow_le_mono_r; lia). change (2 ^ 5) with 32 in *.
    rewrite (u32_small (_ / _)) by (unfold is_u32; lia).
    apply (string_to_data_loop_spec P n chars [last]); [done| |cbn; lia|done|cbn [length]; lia].
    split; [lia|done|constructor|cbn [length]; lia|].
    cbn [map le32 length]. change (be_decode []) with 0. change (256 ^ Z.of_nat 0) with 1.
    rewrite Z.mul_0_r, Z.add_0_r. lia.
Qed.

End Base32.

(** ** Numbers with units *)

Definition strlen (s : list Z) : Z := Z.of_nat (length s).

(** The nonempty tokens of [strtok]; [tok] is the one being read. *)
Fixpoint strtok_loop (s : list Z) (c : Z) (tok : list Z) : list (list Z) :=
  match s with
  | [] => if strlen tok =? 0 then [] else [tok]
  | b :: s =>
      if b =? c then (if strlen tok =? 0 then [] else [tok]) ++ strtok_loop s c []
      else strtok_loop s c (tok ++ [b])
  end.

Definition tolower (c : Z) : Z := if (65 <=? c) && (c <=? 90) then c + 32 else c.

(** [0 == strcasecmp (a, b)] *)
Definition strcaseeq (a b : list Z) : bool := bool_decide (map tolower a = map tolower b).

Definition isdigit (c : Z) : bool := (48 <=? c) && (c <=? 57).
Definition isspace (c : Z) : bool := (c =? 32) || ((9 <=? c) && (c <=? 13)).

Fixpoint skip_space (s : list Z) : list Z :=
  match s with [] => [] | c :: s' => if isspace c then skip_space s' else s end.

(** The value of the leading digits, and what follows them. *)
Fixpoint read_digits (s : list Z) (v : Z) : Z * list Z :=
  match s with
  | c :: s' => if isdigit c then read_digits s' (10 * v + (c - 48)) else (v, s)
  | [] => (v, s)
  end.

(** [strtoull (s, &endptr, 10)]: the value, whether [errno] is set, and the string at
    [endptr]; [None] when there is no number. *)
Definition strtoull (s : list Z) : option (Z * bool * list Z) :=
  let s := skip_space s in
  let '(neg, s) :=
    match s with
    | c :: s' => if c =? 45 then (true, s') else if c =? 43 then (false, s') else (false, s)
    | [] => (false, s)
    end in
  match s with
  | c :: _ =>
      assert? isdigit c in
      let '(v, rest) := read_digits s 0 in
      if UINT64_MAX <? v then Some (UINT64_MAX, true, rest)
      else Some ((if neg : bool then u64 (- v) else v), false, rest)
  | [] => None
  end.

(** The value of a unit. *)
Fixpoint lookup_unit (table : list (list Z * Z)) (tok : list Z) : option Z :=
  match table with
  | [] => None
  | (name, value) :: table => if strcaseeq name tok then Some value else lookup_unit table tok
  end.

(** The inner loop of [convert_with_table] on one token. [Some None] is
    [GNUNET_SYSERR], otherwise [ret] and [last]. *)
Fixpoint convert_token (fuel : nat) (table : list (list Z * Z)) (tok : list Z) (ret last : Z)
  : option (option (Z * Z)) :=
  match fuel with
  | O => None
  | S fuel =>
      match lookup_unit table tok with
      | Some value => Some (Some (ret, u64 (last * value)))
      | None =>
          let ret := u64 (ret + last) in
          match strtoull tok with
          | None => Some None
          | Some (last, errno, endptr) =>
              if errno : bool then Some None
              else match endptr with
                   | [] => Some (Some (ret, last))
                   | _ => convert_token fuel table endptr ret last
                   end
          end
      end
  end.

Fixpoint convert_tokens (table : list (list Z * Z)) (toks : list (list Z)) (ret last : Z)
  : option (option Z) :=
  match toks with
  | [] => Some (Some (u64 (ret + last)))
  | tok :: toks =>
      let? r := convert_token (S (length tok)) table tok ret last in
      match r with
      | None => Some None
      | Some (ret, last) => convert_tokens table toks ret last
      end
  end.

(** [Some None] is [GNUNET_SYSERR]. *)
Definition convert_with_table (input : list Z) (table : list (list Z * Z)) : option (option Z) :=
  convert_tokens table (strtok_loop input 32 []) 0 0.

Definition size_table : list (list Z * Z) := Eval vm_compute in
  [(str "B", 1); (str "KiB", 1024); (str "kB", 1000); (str "MiB", 1024 * 1024);
   (str "MB", 1000 * 1000); (str "GiB", 1024 * 1024 * 1024); (str "GB", 1000 * 1000 * 1000);
   (str "TiB", 1024 * 1024 * 1024 * 1024); (str "TB", 1000 * 1000 * 1000 * 1024);
   (str "PiB", 1024 * 1024 * 1024 * 1024 * 1024); (str "PB", 1000 * 1000 * 1000 * 1024 * 1000);
   (str "EiB", 1024 * 1024 * 1024 * 1024 * 1024 * 1024);
   (str "EB", 1000 * 1000 * 1000 * 1024 * 1000 * 1000)].

Definition GNUNET_STRINGS_fancy_size_to_bytes (fancy_size : list Z) : option (option Z) :=
  convert_with_table fancy_size size_table.

Definition time_table : list (list Z * Z) := Eval vm_compute in
  [(str "us", 1); (str "ms", 1000); (str "s", 1000 * 1000); ([34], 1000 * 1000);
   (str "m", 60 * 1000 * 1000); (str "min", 60 * 1000 * 1000); (str "minute", 60 * 1000 * 1000);
   (str "minutes", 60 * 1000 * 1000); ([39], 60 * 1000 * 1000);
   (str "h", 60 * 60 * 1000 * 1000); (str "hour", 60 * 60 * 1000 * 1000);
   (str "hours", 60 * 60 * 1000 * 1000); (str "d", 24 * 60 * 60 * 1000 * 1000);
   (str "day", 24 * 60 * 60 * 1000 * 1000); (str "days", 24 * 60 * 60 * 1000 * 1000);
   (str "week", 7 * 24 * 60 * 60 * 1000 * 1000); (str "weeks", 7 * 24 * 60 * 60 * 1000 * 1000);
   (str "year", 31536000000000); (str "years", 31536000000000); (str "a", 31536000000000)].

Definition GNUNET_STRINGS_fancy_time_to_relative (fancy_time : list Z)
  : option (option GNUNET_TIME_Relative) :=
  if strcaseeq (str "forever") fancy_time then Some (Some GNUNET_TIME_UNIT_FOREVER_REL)
  else
    let? r := convert_with_table fancy_time time_table in
    Some (mk_rel <$> r).

(** "%llu" *)
Fixpoint print_digits (fuel : nat) (n : Z) : list Z :=
  match fuel with
  | O => []
  | S fuel => if n <? 10 then [48 + n] else print_digits fuel (n / 10) ++ [48 + n mod 10]
  end.

Definition print_llu (n : Z) : list Z := print_digits 20 n.

Definition GNUNET_STRINGS_byte_size_fancy (size : Z) : list Z :=
  let '(size, unit) :=
    if 5 * 1024 <? size then
      let size := size / 1024 in
      if 5 * 1024 <? size then
        let size := size / 1024 in
        if 5 * 1024 <? size then
          let size := size / 1024 in
          if 5 * 1024 <? size then (size / 1024, str "TiB") else (size, str "GiB")
        else (size, str "MiB")
      else (size, str "KiB")
    else (size, str "b") in
  print_llu size ++ [32] ++ unit.

(** The number and the unit [GNUNET_STRINGS_relative_time_to_string] prints for a time
    that is neither forever nor zero; texts are not translated. *)
Definition time_unit (dval do_round : Z) : Z * list Z :=
  if ((do_round =? GNUNET_YES) && (5 * 1000 <? dval)) || (0 =? dval mod 1000) then
    let dval := dval / 1000 in
    if ((do_round =? GNUNET_YES) && (5 * 1000 <? dval)) || (0 =? dval mod 1000) then
      let dval := dval / 1000 in
      if ((do_round =? GNUNET_YES) && (5 * 60 <? dval)) || (0 =? dval mod 60) then
        let dval := dval / 60 in
        if ((do_round =? GNUNET_YES) && (5 * 60 <? dval)) || (0 =? dval mod 60) then
          let dval := dval / 60 in
          if ((do_round =? GNUNET_YES) && (5 * 24 <? dval)) || (0 =? dval mod 24) then
            let dval := dval / 24 in
            (dval, if 1 =? dval then str "day" else str "days")
          else (dval, str "h")
        else (dval, str "m")
      else (dval, str "s")
    else (dval, str "ms")
  else (dval, [194; 181] ++ str "s").

Definition GNUNET_STRINGS_relative_time_to_string (delta : GNUNET_TIME_Relative) (do_round : Z)
  : list Z :=
  if rel_value_us GNUNET_TIME_UNIT_FOREVER_REL =? rel_value_us delta then str "forever"
  else if 0 =? rel_value_us delta then str "0 ms"
  else
    let '(dval, unit) := time_unit (rel_value_us delta) do_round in
    print_llu dval ++ [32] ++ unit.

Example time_example :
  GNUNET_STRINGS_relative_time_to_string (mk_rel 7200000000) 0 = str "2 h"
  /\ GNUNET_STRINGS_fancy_time_to_relative (str "2 h 10s") = Some (Some (mk_rel 7210000000)).
Proof. vm_compute. done. Qed.

Section Numbers.

Definition decimal_value (l : list Z) (v : Z) : Z := fold_left (fun v c => 10 * v + (c - 48)) l v.

Lemma isdigit_spec c : isdigit c = true <-> 48 <= c <= 57.
Proof. unfold isdigit. rewrite andb_true_iff, !Z.leb_le. done. Qed.

Lemma print_digits_spec fuel n :
  0 <= n < 10 ^ Z.of_nat fuel -> (0 < fuel)%nat ->
  Forall (fun c => isdigit c = true) (print_digits fuel n) /\ decimal_value (print_digits fuel n) 0 = n
  /\ print_digits fuel n <> [].
Proof.
  revert n. induction fuel as [|fuel IH]; intros n Hn Hf; [lia|]. cbn [print_digits].
  destruct (Z.ltb_spec n 10).
  { split_and!; [|cbn; lia|done]. constructor; [apply isdigit_spec; lia|constructor]. }
  rewrite Nat2Z.inj_succ, Z.pow_succ_r in Hn by lia.
  destruct fuel as [|fuel]; [cbn in Hn; lia|].
  destruct (IH (n / 10)) as (Hd & Hv & _); [|lia|].
  { split; [apply Z.div_pos; lia|]. apply Z.div_lt_upper_bound; lia. }
  pose proof (Z.mod_pos_bound n 10). split_and!.
  - apply Forall_app. split; [done|]. constructor; [apply isdigit_spec; lia|constructor].
  - unfold decimal_value in *. rewrite fold_left_app, Hv. cbn. pose proof (Z.div_mod n 10). lia.
  - destruct (print_digits (S fuel) (n / 10)); done.
Qed.

Lemma print_llu_spec n :
  is_u64 n -> exists c l, print_llu n = c :: l /\ Forall (fun c => isdigit c = true) (c :: l)
    /\ decimal_value (c :: l) 0 = n.
Proof.
  intros Hn. destruct (print_digits_spec 20 n) as (Hd & Hv & Hne); [unfold is_u64 in Hn; lia|lia|].
  unfold print_llu. destruct (print_digits 20 n) as [|c l]; [done|]. by exists c, l.
Qed.

Lemma read_digits_all l v : Forall (fun c => isdigit c = true) l -> read_digits l v = (decimal_value l v, []).
Proof.
  intros H. revert v. induction H as [|c l Hc _ IH]; intros v; [done|]. cbn [read_digits]. rewrite Hc, IH. done.
Qed.

Lemma strtoull_digits c l :
  Forall (fun c => isdigit c = true) (c :: l) -> is_u64 (decimal_value (c :: l) 0) ->
  strtoull (c :: l) = Some (decimal_value (c :: l) 0, false, []).
Proof.
  intros Hd Hu. pose proof Hd as [Hc _]%Forall_cons. pose proof (proj1 (isdigit_spec c) Hc) as Hr.
  unfold strtoull. cbn [skip_space]. unfold isspace.
  rewrite (proj2 (Z.eqb_neq c 32)), (proj2 (Z.leb_gt c 13)), andb_false_r by lia. cbn [orb].
  rewrite (proj2 (Z.eqb_neq c 45)), (proj2 (Z.eqb_neq c 43)), Hc by lia. rewrite read_digits_all by done.
  unfold is_u64, UINT64_MAX in *. by rewrite (proj2 (Z.ltb_ge _ _)) by lia.
Qed.

(** Tables of units whose names do not start with a digit. *)
Definition no_digit_units (table : list (list Z * Z)) : bool :=
  forallb (fun e => match e.1 with c :: _ => negb (isdigit (tolower c)) | [] => true end) table.

Lemma lookup_unit_digit table c l :
  no_digit_units table = true -> isdigit c = true -> lookup_unit table (c :: l) = None.
Proof.
  intros Ht Hc. induction table as [|[name value] table IH]; [done|].
  cbn [no_digit_units forallb fst] in Ht. apply andb_true_iff in Ht as [Hn Ht]. cbn [lookup_unit].
  unfold strcaseeq. rewrite bool_decide_false; [by apply IH|].
  destruct name as [|d name]; [done|]. cbn [map]. intros E. apply (f_equal (fun l => l !! 0%nat)) in E.
  cbn in E. apply (inj Some) in E. apply negb_true_iff in Hn. rewrite E in Hn.
  apply isdigit_spec in Hc. assert (tolower c = c) as Hlow.
  { unfold tolower. by rewrite (proj2 (Z.leb_gt 65 c)) by lia. }
  rewrite Hlow in Hn. apply isdigit_spec in Hc. congruence.
Qed.

Lemma strtok_word l r c tok :
  Forall (fun b => b <> c) l -> strtok_loop (l ++ r) c tok = strtok_loop r c (tok ++ l).
Proof.
  intros H. revert tok. induction H as [|b l Hb _ IH]; intros tok; [by rewrite app_nil_r|].
  cbn [app strtok_loop]. rewrite (proj2 (Z.eqb_neq b c) Hb), IH, <- app_assoc. done.
Qed.

(** "%llu %s" with a unit of the table. *)
Lemma convert_printed table n unit :
  no_digit_units table = true -> is_u64 n -> unit <> [] -> Forall (fun b => b <> 32) unit ->
  convert_with_table (print_llu n ++ [32] ++ unit) table =
  match lookup_unit table unit with
  | Some value => Some (Some (u64 (u64 (n * value))))
  | None => let? r := convert_token (S (length unit)) table unit 0 n in
            match r with None => Some None | Some (ret, last) => Some (Some (u64 (ret + last))) end
  end.
Proof.
  intros Ht Hn Hu Hsp. destruct (print_llu_spec n Hn) as (c & l & -> & Hd & Hv). unfold convert_with_table.
  assert (Hns : Forall (fun b => b <> 32) (c :: l)).
  { eapply Forall_impl; [exact Hd|]. intros b Hb%isdigit_spec. lia. }
  rewrite strtok_word by done. cbn [app strtok_loop]. rewrite Z.eqb_refl.
  change (strlen (c :: l) =? 0) with false. cbv iota.
  rewrite <- (app_nil_r unit) at 1. rewrite (strtok_word unit []) by done. cbn [app strtok_loop].
  replace (strlen unit =? 0) with false by (destruct unit; done). cbv iota.
  cbn [app convert_tokens]. pose proof Hd as [Hc _]%Forall_cons.
  assert (E1 : convert_token (S (length (c :: l))) table (c :: l) 0 0 = Some (Some (0, n))).
  { cbn [convert_token]. rewrite lookup_unit_digit by done.
    rewrite strtoull_digits by (done || by rewrite Hv). by rewrite Hv. }
  rewrite E1. destruct (lookup_unit table unit) as [value|] eqn:E.
  - cbn [convert_token]. by rewrite E.
  - destruct (convert_token _ table unit 0 n) as [[[ret last]|]|]; done.
Qed.

(** The unit without rounding. *)
Lemma time_unit_spec d :
  0 < d ->
  let '(n, unit) := time_unit d GNUNET_NO in
  unit <> [] /\ Forall (fun b => b <> 32) unit /\ 0 <= n <= d
  /\ if d mod 1000 =? 0 then exists f, lookup_unit time_table unit = Some f /\ n * f = d
     else unit = [194; 181; 115].
Proof.
  intros Hd. assert (Hsp : forall u, forallb (fun b => negb (b =? 32)) u = true -> Forall (fun b => b <> 32) u).
  { intros u H. apply Forall_forall. intros b Hb%list_elem_of_In. rewrite forallb_forall in H.
    specialize (H b Hb). by apply negb_true_iff, Z.eqb_neq in H. }
  unfold time_unit. change (GNUNET_NO =? GNUNET_YES) with false. cbn [andb orb].
  rewrite (Z.eqb_sym (d mod 1000)).
  repeat match goal with |- context [0 =? ?a mod ?b] =>
    destruct (Z.eqb_spec 0 (a mod b)); cbv beta iota end;
  (split; [try (destruct (1 =? _)); vm_compute; discriminate|];
   split; [apply Hsp; try (destruct (1 =? _)); reflexivity|]; split; [Z.div_mod_to_equations; lia|]);
  [exists (24 * 60 * 60 * 1000 * 1000)|exists (60 * 60 * 1000 * 1000)|exists (60 * 1000 * 1000)
  |exists (1000 * 1000)|exists 1000|reflexivity];
  (split; [try (destruct (1 =? _)); reflexivity|Z.div_mod_to_equations; lia]).
Qed.

Lemma forever_not_number c l :
  isdigit c = true -> strcaseeq (str "forever") (c :: l) = false.
Proof.
  intros Hc%isdigit_spec. unfold strcaseeq. apply bool_decide_eq_false_2. intros E.
  apply (f_equal (fun l => l !! 0%nat)) in E. cbn in E. apply (inj Some) in E.
  change (tolower (Z.of_N _)) with 102 in E. unfold tolower in E.
  rewrite (proj2 (Z.leb_gt 65 c)) in E by lia. cbn [andb] in E. lia.
Qed.

End Numbers.

(** ** Properties *)

(** C36. Base 32: binary data of any length are encoded into the characters of the
    alphabet, [(8 * size + 4) / 5] of them, and decoding gives the data back, also from
    a string in which letters have been confused (o for 0, i and l for 1, u for v, lower
    for upper case). Conversely a string is accepted for [n] bytes exactly when it has
    the length of their encoding and only valid characters, and then decodes to the [n]
    bytes of its value without the padding. The string that is allocated has the same
    characters, if it is not larger than what [GNUNET_malloc] permits; otherwise its assertion fails. *)
Theorem base32_roundtrip data :
  bytes_ok data -> Z.of_nat (length data) * 8 < 2 ^ 32 ->
  let n := Z.of_nat (length data) in
  exists s, GNUNET_STRINGS_data_to_string data ((n * 8 + 4) / 5) = Some (Some s)
    /\ GNUNET_STRINGS_data_to_string_alloc data = (if (n * 8 + 4) / 5 + 1 <=? GNUNET_MAX_MALLOC_CHECKED then Some (Some s) else None)
    /\ Z.of_nat (length s) = (n * 8 + 4) / 5
    /\ (forall s', map getValue__ s' = map getValue__ s ->
         GNUNET_STRINGS_string_to_data s' n = (GNUNET_OK, data))
    /\ (forall enc out, GNUNET_STRINGS_string_to_data enc n = (GNUNET_OK, out) <->
         Z.of_nat (length enc) = (n * 8 + 4) / 5 /\ forallb valid_char enc = true
         /\ Z.of_nat (length out) = n /\ bytes_ok out
         /\ be_decode out = string_value enc / 2 ^ padding_bits n).
Proof.
  intros Hd Hl n. pose proof (data_to_string_spec data ((n * 8 + 4) / 5) Hd) as Henc. fold n in Henc. rewrite Z.ltb_irrefl in Henc.
  destruct Henc as (s & E & Hc & Hlen & Hval). fold n in Hlen, Hval.
  assert (HP : 0 <= padding_bits n < 5) by (apply Z.mod_pos_bound; lia).
  assert (Hchars : forall k, Z.of_nat k * 5 = n * 8 + padding_bits n <-> Z.of_nat k = (n * 8 + 4) / 5).
  { intros k. unfold padding_bits in *. Z.div_mod_to_equations. lia. }
  assert (Hdec : forall enc out, GNUNET_STRINGS_string_to_data enc n = (GNUNET_OK, out) <->
         Z.of_nat (length enc) = (n * 8 + 4) / 5 /\ forallb valid_char enc = true
         /\ Z.of_nat (length out) = n /\ bytes_ok out
         /\ be_decode out = string_value enc / 2 ^ padding_bits n).
  { intros enc out. destruct (string_to_data_spec enc n) as (ret & out' & -> & H); [lia|done|].
    rewrite <- Hchars, forallb_rev in *.
    destruct (Z.eqb_spec (Z.of_nat (length enc) * 5) (n * 8 + padding_bits n)) as [He|He];
      [|cbn [andb] in H; subst ret; split; [intros [=]|by intros [? _]]].
    destruct (forallb valid_char enc); cbn [andb] in H; [|subst ret; split; [intros [=]|by intros (_ & ? & _)]].
    destruct H as (-> & L & B & V). split.
    - intros Ep. apply pair_equal_spec in Ep as [_ <-]. done.
    - intros (_ & _ & L' & B' & V'). f_equal. apply (be_decode_inj _ _ B B'); [lia|congruence]. }
  exists s. split_and!; [done|rewrite data_to_string_alloc_eq; fold n; by rewrite E|by apply Hchars| |done].
  intros s' Hs'. apply Hdec.
  assert (Ls : length s' = length s) by (by rewrite <- (length_map getValue__ s'), Hs', length_map).
  split_and!; [rewrite Ls; by apply Hchars| |done|done|].
  - apply forallb_forall. intros c Hin. unfold valid_char.
    apply (in_map getValue__) in Hin. rewrite Hs' in Hin. apply in_map_iff in Hin as (c' & <- & Hin').
    rewrite Forall_forall in Hc. apply Hc. by apply list_elem_of_In.
  - unfold string_value in *. rewrite map_rev, Hs', <- map_rev, Hval, Z.div_mul; [done|].
    apply Z.pow_nonzero; lia.
Qed.

Lemma base32_roundtrip_witness :
  exists s, GNUNET_STRINGS_data_to_string_alloc [1; 2; 254] = Some (Some s)
    /\ GNUNET_STRINGS_string_to_data s 3 = (GNUNET_OK, [1; 2; 254]).
Proof.
  destruct (base32_roundtrip [1; 2; 254]) as (s & _ & E & _ & Hs & _).
  - repeat constructor; words.
  - cbn. lia.
  - exists s. split; [exact E|]. apply Hs. reflexivity.
Defined.

(** Times as text: a relative time that is printed without rounding is read back
    exactly, except that the unit printed for times that are not whole milliseconds is
    not one that is read. *)
Theorem time_string_roundtrip t :
  rel_wf t ->
  GNUNET_STRINGS_fancy_time_to_relative (GNUNET_STRINGS_relative_time_to_string t GNUNET_NO) =
  if (rel_value_us t =? UINT64_MAX) || (rel_value_us t mod 1000 =? 0) then Some (Some t) else Some None.
Proof.
  destruct t as [d]. unfold rel_wf. cbn [rel_value_us]. intros Hd.
  unfold GNUNET_STRINGS_relative_time_to_string. cbn [rel_value_us GNUNET_TIME_relative_get_forever_].
  rewrite (Z.eqb_sym UINT64_MAX). destruct (Z.eqb_spec d UINT64_MAX) as [->|Hf]; [by vm_compute|].
  destruct (Z.eqb_spec 0 d) as [<-|Hz]; [by vm_compute|]. cbn [orb].
  unfold is_u64, UINT64_MAX in *. pose proof (time_unit_spec d ltac:(lia)) as H.
  destruct (time_unit d GNUNET_NO) as [n unit]. destruct H as (Hne & Hsp & Hn & Hu).
  unfold GNUNET_STRINGS_fancy_time_to_relative.
  destruct (print_llu_spec n ltac:(unfold is_u64; lia)) as (c & l & El & Hdig & _).
  pose proof Hdig as [Hc _]%Forall_cons.
  replace (strcaseeq (str "forever") (print_llu n ++ [32] ++ unit)) with false
    by (rewrite El; symmetry; by apply forever_not_number).
  rewrite convert_printed by (done || unfold is_u64; lia).
  destruct (d mod 1000 =? 0).
  - destruct Hu as (f & -> & Hnf). rewrite Hnf, !(u64_small d) by (unfold is_u64; lia). done.
  - subst unit. by vm_compute.
Qed.

Lemma time_string_roundtrip_witness :
  GNUNET_STRINGS_fancy_time_to_relative
    (GNUNET_STRINGS_relative_time_to_string (mk_rel 90000000) GNUNET_NO) = Some (Some (mk_rel 90000000))
  /\ GNUNET_STRINGS_fancy_time_to_relative
    (GNUNET_STRINGS_relative_time_to_string (mk_rel 1500) GNUNET_NO) = Some None.
Proof.
  split; rewrite time_string_roundtrip; (reflexivity || (unfold rel_wf, is_u64; cbn; lia)).
Defined.

(** A terabyte is not a thousand gigabytes. *)
Lemma size_terabyte :
  GNUNET_STRINGS_fancy_size_to_bytes (str "1 TB") = Some (Some 1024000000000)
  /\ GNUNET_STRINGS_fancy_size_to_bytes (str "1000 GB") = Some (Some 1000000000000).
Proof. vm_compute. done. Qed.
