(* ===== verification/Dns.v ===== *)
(** * DNS packets: [src/dns/dnsparser.c]

    The parser and the builder of DNS packets. A packet sits in memory [mem], of which
    the parser is told the first [len] bytes; [None] is an access outside of an array,
    the use of a member of a union that does not hold it or of a null pointer, or a loop
    that does not end. Strings are lists of nonzero bytes. Sums of offsets and lengths
    of objects in memory do not reach 2^64; the subtractions that can wrap around are
    written out. The host is little-endian, and the clock stands still during a call. *)

From S2P Require Import Prelude Time Message Strings.

(** ** The IDNA library *)

(** [libidn] converts names between UTF-8 and ASCII; [None] is a code other than
    [IDNA_SUCCESS]. *)
Class Idna := {
  idna_to_ascii_8z : list Z -> option (list Z);
  idna_to_unicode_8z8z : list Z -> option (list Z);
}.

(** ** Data *)

Abbreviation GNUNET_DNSPARSER_TYPE_NS := 2.
Abbreviation GNUNET_DNSPARSER_TYPE_CNAME := 5.
Abbreviation GNUNET_DNSPARSER_TYPE_SOA := 6.
Abbreviation GNUNET_DNSPARSER_TYPE_PTR := 12.
Abbreviation GNUNET_DNSPARSER_TYPE_MX := 15.
Abbreviation GNUNET_DNSPARSER_TYPE_SRV := 33.
Abbreviation GNUNET_DNSPARSER_TYPE_CERT := 37.

Definition sizeof_DnsHeader : Z := 12.
Definition sizeof_DnsQueryLine : Z := 4.
Definition sizeof_DnsRecordLine : Z := 10.
Definition sizeof_DnsSoaRecord : Z := 20.
Definition sizeof_DnsSrvRecord : Z := 6.

(** Not packed: a byte of padding follows the algorithm. *)
Definition sizeof_DnsCertRecord : Z := 6.

(** Names are pointers; [None] is [NULL]. *)
Abbreviation dns_name := (option (list Z)).

Record GNUNET_DNSPARSER_Query := mk_query {
  q_name : dns_name;
  q_type : Z;
  q_dns_traffic_class : Z;
}.

Record GNUNET_DNSPARSER_MxRecord := mk_mx {
  preference : Z;
  mxhost : dns_name;
}.

Record GNUNET_DNSPARSER_SrvRecord := mk_srv {
  target : dns_name;
  priority : Z;
  weight : Z;
  port : Z;
}.

Record GNUNET_DNSPARSER_CertRecord := mk_cert {
  cert_type : Z;
  cert_tag : Z;
  algorithm : Z;
  certificate_data : list Z;
}.

Record GNUNET_DNSPARSER_SoaRecord := mk_soa {
  mname : dns_name;
  rname : dns_name;
  serial : Z;
  refresh : Z;
  retry : Z;
  expire : Z;
  minimum_ttl : Z;
}.

(** The union [data] with the member that was stored last; [data_zero] is memory that
    is all zero, that is a null pointer whichever member is read. *)
Inductive record_data :=
  | data_zero
  | data_hostname (hostname : dns_name)
  | data_soa (soa : option GNUNET_DNSPARSER_SoaRecord)
  | data_cert (cert : option GNUNET_DNSPARSER_CertRecord)
  | data_mx (mx : option GNUNET_DNSPARSER_MxRecord)
  | data_srv (srv : option GNUNET_DNSPARSER_SrvRecord)
  | data_raw (data : list Z).

Record GNUNET_DNSPARSER_Record := mk_record {
  r_name : dns_name;
  r_data : record_data;
  expiration_time : GNUNET_TIME_Absolute;
  r_type : Z;
  r_dns_traffic_class : Z;
}.

(** [flags] are the two bytes of the bit field, [id] is kept in network byte order;
    both as the host reads them. The numbers of queries and records are the lengths of
    the arrays. *)
Record GNUNET_DNSPARSER_Packet := mk_packet {
  queries : list GNUNET_DNSPARSER_Query;
  answers : list GNUNET_DNSPARSER_Record;
  authority_records : list GNUNET_DNSPARSER_Record;
  additional_records : list GNUNET_DNSPARSER_Record;
  flags : Z;
  packet_id : Z;
}.

(** Zeroed entries of fresh arrays. *)
Definition zero_query : GNUNET_DNSPARSER_Query := mk_query None 0 0.
Definition zero_record : GNUNET_DNSPARSER_Record := mk_record None data_zero (mk_abs 0) 0 0.

(** Reads of the union: [None] when another member was stored. *)
Definition get_hostname (d : record_data) : option dns_name :=
  match d with data_zero => Some None | data_hostname h => Some h | _ => None end.
Definition get_soa (d : record_data) : option (option GNUNET_DNSPARSER_SoaRecord) :=
  match d with data_zero => Some None | data_soa s => Some s | _ => None end.
Definition get_cert (d : record_data) : option (option GNUNET_DNSPARSER_CertRecord) :=
  match d with data_zero => Some None | data_cert c => Some c | _ => None end.
Definition get_mx (d : record_data) : option (option GNUNET_DNSPARSER_MxRecord) :=
  match d with data_zero => Some None | data_mx m => Some m | _ => None end.
Definition get_srv (d : record_data) : option (option GNUNET_DNSPARSER_SrvRecord) :=
  match d with data_zero => Some None | data_srv s => Some s | _ => None end.
Definition get_raw (d : record_data) : option (list Z) :=
  match d with data_zero => Some [] | data_raw l => Some l | _ => None end.

(** ** Memory and strings *)

(** [memcpy] from and to an offset. *)
Definition load (mem : list Z) (off n : Z) : option (list Z) :=
  assert? (0 <=? off) && (off + n <=? Z.of_nat (length mem)) in
  Some (slice (Z.to_nat off) (Z.to_nat n) mem).

Definition store (dst : list Z) (pos : Z) (data : list Z) : option (list Z) :=
  assert? (0 <=? pos) && (pos + Z.of_nat (length data) <=? Z.of_nat (length dst)) in
  Some (splice (Z.to_nat pos) data dst).

(** The string that starts a buffer: "%.*s" stops at a zero byte. *)
Fixpoint cstr (l : list Z) : list Z :=
  match l with
  | [] => []
  | b :: l => if b =? 0 then [] else b :: cstr l
  end.

(** The position of a character. *)
Fixpoint strchr (s : list Z) (c : Z) : option nat :=
  match s with
  | [] => None
  | b :: s => if b =? c then Some O else S <$> strchr s c
  end.

Abbreviation char_dot := 46.

(** [ret[strlen(ret)-1] = '\0'] unless the string is empty. *)
Definition eat_trailing (ret : list Z) : list Z :=
  if 0 <? strlen ret then take (length ret - 1) ret else ret.

Definition non_null {A} (p : option A) : bool := match p with Some _ => true | None => false end.

Section Model.
Context {idna : Idna}.

(** ** Checking names *)

Definition GNUNET_DNSPARSER_check_label (label : list Z) : Z :=
  match strchr label char_dot with
  | Some _ => GNUNET_SYSERR
  | None =>
      match idna_to_ascii_8z label with
      | None => GNUNET_SYSERR
      | Some output => if 63 <? strlen output then GNUNET_SYSERR else GNUNET_OK
      end
  end.

Definition GNUNET_DNSPARSER_check_name (name : list Z) : Z :=
  if forallb (fun tok => GNUNET_OK =? GNUNET_DNSPARSER_check_label tok)
       (strtok_loop name char_dot [])
  then
    match idna_to_ascii_8z name with
    | None => GNUNET_SYSERR
    | Some output => if 253 <? strlen output then GNUNET_SYSERR else GNUNET_OK
    end
  else GNUNET_SYSERR.

(** ** Parsing *)

(** The loop of [parse_name], with the call for a pointer. Returns the name, or
    [None] for [NULL], and the offset. *)
Fixpoint parse_name_loop (fuel : nat) (mem : list Z) (len off depth : Z) (ret : list Z)
  : option (dns_name * Z) :=
  match fuel with
  | O => None
  | S fuel =>
      if len <=? off then Some (None, off)
      else
        let? b := mem !! Z.to_nat off in
        if 0 =? b then Some (Some (eat_trailing ret), off + 1)
        else if b <? 64 then
          if len <? off + 1 + b then Some (None, off)
          else
            let? raw := load mem (off + 1) b in
            let tmp := cstr raw in
            let tmp :=
              match idna_to_unicode_8z8z tmp with
              | None => ret ++ cstr raw ++ [char_dot]
              | Some utf8 => ret ++ utf8 ++ [char_dot]
              end in
            parse_name_loop fuel mem len (off + 1 + b) depth tmp
        else if 192 =? Z.land b 192 then
          if 32 <? depth then Some (None, off)
          else if len <? off + 1 then Some (None, off)
          else
            let? b2 := mem !! Z.to_nat (off + 1) in
            let xoff := Z.shiftl (b - 192) 8 + b2 in
            let? (xstr, _) := parse_name_loop fuel mem len xoff (depth + 1) [] in
            match xstr with
            | None => Some (None, off)
            | Some xstr =>
                let ret := ret ++ xstr ++ [char_dot] in
                if len <? strlen ret then Some (None, off)
                else Some (Some (eat_trailing ret), off + 2)
            end
        else Some (None, off)
  end.

(** At most 34 names are entered, and each iteration reads at least a byte. *)
Definition name_fuel (len : Z) : nat := 34 * (Z.to_nat len + 2).

Definition GNUNET_DNSPARSER_parse_name (mem : list Z) (len off : Z) : option (dns_name * Z) :=
  parse_name_loop (name_fuel len) mem len off 0 [].

Definition GNUNET_DNSPARSER_parse_query (mem : list Z) (len off : Z) (q : GNUNET_DNSPARSER_Query)
  : option (Z * Z * GNUNET_DNSPARSER_Query) :=
  let? (name, off) := GNUNET_DNSPARSER_parse_name mem len off in
  match name with
  | None => Some (GNUNET_SYSERR, off, q)
  | Some name =>
      let q := mk_query (Some name) (q_type q) (q_dns_traffic_class q) in
      if len <? off + sizeof_DnsQueryLine then Some (GNUNET_SYSERR, off, q)
      else
        let? ql := load mem off sizeof_DnsQueryLine in
        Some (GNUNET_OK, off + sizeof_DnsQueryLine, mk_query (Some name) (rd16 0 ql) (rd16 2 ql))
  end.

(** The second name is parsed also when the first one is malformed. *)
Definition GNUNET_DNSPARSER_parse_soa (mem : list Z) (len off : Z)
  : option (option GNUNET_DNSPARSER_SoaRecord * Z) :=
  let old_off := off in
  let? (mname, off) := GNUNET_DNSPARSER_parse_name mem len off in
  let? (rname, off) := GNUNET_DNSPARSER_parse_name mem len off in
  match mname, rname with
  | Some _, Some _ =>
      if len <? off + sizeof_DnsSoaRecord then Some (None, old_off)
      else
        let? sd := load mem off sizeof_DnsSoaRecord in
        Some (Some (mk_soa mname rname (rd32 0 sd) (rd32 4 sd) (rd32 8 sd) (rd32 12 sd) (rd32 16 sd)),
              off + sizeof_DnsSoaRecord)
  | _, _ => Some (None, old_off)
  end.

Definition GNUNET_DNSPARSER_parse_mx (mem : list Z) (len off : Z)
  : option (option GNUNET_DNSPARSER_MxRecord * Z) :=
  let old_off := off in
  if len <? off + 2 then Some (None, off)
  else
    let? mxpref := load mem off 2 in
    let? (name, off) := GNUNET_DNSPARSER_parse_name mem len (off + 2) in
    match name with
    | None => Some (None, old_off)
    | Some _ => Some (Some (mk_mx (rd16 0 mxpref) name), off)
    end.

Definition GNUNET_DNSPARSER_parse_srv (mem : list Z) (len off : Z)
  : option (option GNUNET_DNSPARSER_SrvRecord * Z) :=
  let old_off := off in
  if len <? off + sizeof_DnsSrvRecord then Some (None, off)
  else
    let? sd := load mem off sizeof_DnsSrvRecord in
    let? (name, off) := GNUNET_DNSPARSER_parse_name mem len (off + sizeof_DnsSrvRecord) in
    match name with
    | None => Some (None, old_off)
    | Some _ => Some (Some (mk_srv name (rd16 0 sd) (rd16 2 sd) (rd16 4 sd)), off)
    end.

Definition GNUNET_DNSPARSER_parse_cert (mem : list Z) (len off : Z)
  : option (option GNUNET_DNSPARSER_CertRecord * Z) :=
  if len <=? off + sizeof_DnsCertRecord then Some (None, off)
  else
    let? dcert := load mem off sizeof_DnsCertRecord in
    let off := off + sizeof_DnsCertRecord in
    let size := len - off in
    let? data := load mem off size in
    Some (Some (mk_cert (rd16 0 dcert) (rd16 2 dcert) (nth 4 dcert 0) data), off + size).

(** The switch of [parse_record]: the code, the offset and the data. *)
Definition parse_data (mem : list Z) (len off type data_len : Z)
  : option (Z * Z * record_data) :=
  let old_off := off in
  let code (present : bool) (off : Z) :=
    if negb present || negb (old_off + data_len =? off) then GNUNET_SYSERR else GNUNET_OK in
  if (type =? GNUNET_DNSPARSER_TYPE_NS) || (type =? GNUNET_DNSPARSER_TYPE_CNAME)
     || (type =? GNUNET_DNSPARSER_TYPE_PTR) then
    let? (hostname, off) := GNUNET_DNSPARSER_parse_name mem len off in
    Some (code (non_null hostname) off, off, data_hostname hostname)
  else if type =? GNUNET_DNSPARSER_TYPE_SOA then
    let? (soa, off) := GNUNET_DNSPARSER_parse_soa mem len off in
    Some (code (non_null soa) off, off, data_soa soa)
  else if type =? GNUNET_DNSPARSER_TYPE_MX then
    let? (mx, off) := GNUNET_DNSPARSER_parse_mx mem len off in
    Some (code (non_null mx) off, off, data_mx mx)
  else if type =? GNUNET_DNSPARSER_TYPE_SRV then
    let? (srv, off) := GNUNET_DNSPARSER_parse_srv mem len off in
    Some (code (non_null srv) off, off, data_srv srv)
  else
    let? data := load mem off data_len in
    Some (GNUNET_OK, off + data_len, data_raw data).

Definition GNUNET_DNSPARSER_parse_record (now : GNUNET_TIME_Absolute) (mem : list Z) (len off : Z)
    (r : GNUNET_DNSPARSER_Record) : option (Z * Z * GNUNET_DNSPARSER_Record) :=
  let? (name, off) := GNUNET_DNSPARSER_parse_name mem len off in
  match name with
  | None => Some (GNUNET_SYSERR, off, r)
  | Some name =>
      let r := mk_record (Some name) (r_data r) (expiration_time r) (r_type r)
                 (r_dns_traffic_class r) in
      if len <? off + sizeof_DnsRecordLine then Some (GNUNET_SYSERR, off, r)
      else
        let? rl := load mem off sizeof_DnsRecordLine in
        let off := off + sizeof_DnsRecordLine in
        let type := rd16 0 rl in
        let exp := GNUNET_TIME_relative_to_absolute now
                     (GNUNET_TIME_relative_multiply GNUNET_TIME_UNIT_SECONDS (rd32 4 rl)) in
        let r := mk_record (Some name) (r_data r) exp type (rd16 2 rl) in
        let data_len := rd16 8 rl in
        if len <? off + data_len then Some (GNUNET_SYSERR, off, r)
        else
          let? (ret, off, data) := parse_data mem len off type data_len in
          Some (ret, off, mk_record (Some name) data exp type (rd16 2 rl))
  end.

(** Parses the [n] entries of an array; those after a malformed one stay zero. *)
Fixpoint parse_array {A} (parse : Z -> A -> option (Z * Z * A)) (zero : A) (n : nat) (off : Z)
  : option (Z * Z * list A) :=
  match n with
  | O => Some (GNUNET_OK, off, [])
  | S n =>
      let? (ret, off, x) := parse off zero in
      if negb (GNUNET_OK =? ret) then Some (GNUNET_SYSERR, off, x :: replicate n zero)
      else
        let? (ret, off, l) := parse_array parse zero n off in
        Some (ret, off, x :: l)
  end.

(** ** Freeing: which members are followed *)

Definition GNUNET_DNSPARSER_free_record (r : GNUNET_DNSPARSER_Record) : option unit :=
  if r_type r =? GNUNET_DNSPARSER_TYPE_MX then let? _ := get_mx (r_data r) in Some tt
  else if r_type r =? GNUNET_DNSPARSER_TYPE_SOA then let? _ := get_soa (r_data r) in Some tt
  else if r_type r =? GNUNET_DNSPARSER_TYPE_SRV then let? _ := get_srv (r_data r) in Some tt
  else if r_type r =? GNUNET_DNSPARSER_TYPE_CERT then let? _ := get_cert (r_data r) in Some tt
  else if (r_type r =? GNUNET_DNSPARSER_TYPE_NS) || (r_type r =? GNUNET_DNSPARSER_TYPE_CNAME)
          || (r_type r =? GNUNET_DNSPARSER_TYPE_PTR)
  then let? _ := get_hostname (r_data r) in Some tt
  else let? _ := get_raw (r_data r) in Some tt.

Fixpoint free_records (l : list GNUNET_DNSPARSER_Record) : option unit :=
  match l with
  | [] => Some tt
  | r :: l => let? _ := GNUNET_DNSPARSER_free_record r in free_records l
  end.

Definition GNUNET_DNSPARSER_free_packet (p : GNUNET_DNSPARSER_Packet) : option unit :=
  let? _ := free_records (answers p) in
  let? _ := free_records (authority_records p) in
  free_records (additional_records p).

(** [GNUNET_DNSPARSER_parse] up to the label [error]: the code and the packet as far as
    it was parsed. *)
Definition parse_sections (now : GNUNET_TIME_Absolute) (mem : list Z) (len : Z)
  : option (Z * GNUNET_DNSPARSER_Packet) :=
  let? dns := load mem 0 sizeof_DnsHeader in
  let off := sizeof_DnsHeader in
  let id := le_decode (slice 0 2 dns) in
  let flags := le_decode (slice 2 2 dns) in
  let parse_r := GNUNET_DNSPARSER_parse_record now mem len in
  let array n off := parse_array parse_r zero_record (Z.to_nat n) off in
  let? (ret, off, qs) :=
    parse_array (GNUNET_DNSPARSER_parse_query mem len) zero_query (Z.to_nat (rd16 4 dns)) off in
  if negb (GNUNET_OK =? ret) then Some (GNUNET_SYSERR, mk_packet qs [] [] [] flags id)
  else
    let? (ret, off, an) := array (rd16 6 dns) off in
    if negb (GNUNET_OK =? ret) then Some (GNUNET_SYSERR, mk_packet qs an [] [] flags id)
    else
      let? (ret, off, au) := array (rd16 8 dns) off in
      if negb (GNUNET_OK =? ret) then Some (GNUNET_SYSERR, mk_packet qs an au [] flags id)
      else
        let? (ret, off, ad) := array (rd16 10 dns) off in
        if negb (GNUNET_OK =? ret) then Some (GNUNET_SYSERR, mk_packet qs an au ad flags id)
        else Some (GNUNET_OK, mk_packet qs an au ad flags id).

Definition GNUNET_DNSPARSER_parse (now : GNUNET_TIME_Absolute) (mem : list Z) (len : Z)
  : option (option GNUNET_DNSPARSER_Packet) :=
  if len <? sizeof_DnsHeader then Some None
  else
    let? (ret, p) := parse_sections now mem len in
    if GNUNET_OK =? ret then Some (Some p)
    else let? _ := GNUNET_DNSPARSER_free_packet p in Some None.

End Model.

(** ** Parsing is memory safe *)

(** The member of the union that belongs to a record type. *)
Definition data_of_type (type : Z) (d : record_data) : bool :=
  match d with
  | data_zero => true
  | data_hostname _ => (type =? GNUNET_DNSPARSER_TYPE_NS) || (type =? GNUNET_DNSPARSER_TYPE_CNAME)
                       || (type =? GNUNET_DNSPARSER_TYPE_PTR)
  | data_soa _ => type =? GNUNET_DNSPARSER_TYPE_SOA
  | data_cert _ => type =? GNUNET_DNSPARSER_TYPE_CERT
  | data_mx _ => type =? GNUNET_DNSPARSER_TYPE_MX
  | data_srv _ => type =? GNUNET_DNSPARSER_TYPE_SRV
  | data_raw _ =>
      negb (existsb (Z.eqb type)
        [GNUNET_DNSPARSER_TYPE_NS; GNUNET_DNSPARSER_TYPE_CNAME; GNUNET_DNSPARSER_TYPE_PTR;
         GNUNET_DNSPARSER_TYPE_SOA; GNUNET_DNSPARSER_TYPE_CERT; GNUNET_DNSPARSER_TYPE_MX;
         GNUNET_DNSPARSER_TYPE_SRV])
  end.

(** Records as the parser leaves them: only the data of certificates do not belong to
    their type. *)
Definition record_typed (r : GNUNET_DNSPARSER_Record) : Prop :=
  if r_type r =? GNUNET_DNSPARSER_TYPE_CERT
  then r_data r = data_zero \/ exists l, r_data r = data_raw l
  else data_of_type (r_type r) (r_data r) = true.

(** No pointer of a member is null. *)
Definition data_complete (d : record_data) : Prop :=
  match d with
  | data_zero => False
  | data_hostname h => h <> None
  | data_soa s => match s with Some s => mname s <> None /\ rname s <> None | None => False end
  | data_cert c => c <> None
  | data_mx m => match m with Some m => mxhost m <> None | None => False end
  | data_srv s => match s with Some s => target s <> None | None => False end
  | data_raw _ => True
  end.

Section Safety.
Context {idna : Idna}.
Variables (mem : list Z) (len : Z).
Hypothesis mem_bytes : bytes_ok mem.

(** One more byte than the parser is told about can be read. *)
Hypothesis len_ok : 0 <= len < Z.of_nat (length mem).

Lemma mem_lookup i : 0 <= i <= len -> exists b, mem !! Z.to_nat i = Some b /\ is_u8 b.
Proof.
  intros Hi. destruct (lookup_lt_is_Some_2 mem (Z.to_nat i)) as [b Hb]; [lia|].
  exists b. split; [done|]. by apply (Forall_lookup_1 _ _ _ _ mem_bytes Hb).
Qed.

Lemma load_spec off n :
  0 <= off -> 0 <= n -> off + n <= Z.of_nat (length mem) ->
  load mem off n = Some (slice (Z.to_nat off) (Z.to_nat n) mem).
Proof.
  intros. unfold load. by rewrite (proj2 (Z.leb_le 0 off)), (proj2 (Z.leb_le _ _)) by lia.
Qed.

(** Pointers are the bytes from 192 on. *)
Lemma pointer_byte b : 0 <= b < 256 -> (192 =? Z.land b 192) = true -> 192 <= b.
Proof.
  intros Hb. rewrite <- Z.leb_le. apply implb_true_iff.
  apply (byte_cases (fun b => implb (192 =? Z.land b 192) (192 <=? b))); [reflexivity|done].
Qed.

(** Every name is parsed within the fuel. *)
Lemma parse_name_loop_total fuel off depth ret :
  0 <= off -> 0 <= depth <= 33 ->
  (33 - depth) * (len + 2) + Z.max 0 (len - off) + 1 <= Z.of_nat fuel ->
  exists name off', parse_name_loop fuel mem len off depth ret = Some (name, off')
    /\ off <= off' <= Z.max off (len + 1) /\ (name <> None -> off < off').
Proof.
  revert off depth ret. induction fuel as [|fuel IH]; intros off depth ret Ho Hd Hf.
  { assert (0 <= (33 - depth) * (len + 2)) by (apply Z.mul_nonneg_nonneg; lia). lia. }
  cbn [parse_name_loop]. destruct (Z.leb_spec len off).
  { do 2 eexists. split; [done|]. split; [lia|done]. }
  destruct (mem_lookup off) as (b & -> & Hb); [lia|]. unfold is_u8 in Hb.
  destruct (Z.eqb_spec 0 b); [do 2 eexists; split; [done|]; split; [lia|lia]|].
  destruct (Z.ltb_spec b 64).
  { destruct (Z.ltb_spec len (off + 1 + b)).
    { do 2 eexists. split; [done|]. split; [lia|done]. }
    rewrite load_spec by lia.
    destruct (IH (off + 1 + b) depth
      (match idna_to_unicode_8z8z (cstr (slice (Z.to_nat (off + 1)) (Z.to_nat b) mem)) with
       | None => ret ++ cstr (slice (Z.to_nat (off + 1)) (Z.to_nat b) mem) ++ [char_dot]
       | Some utf8 => ret ++ utf8 ++ [char_dot] end)) as (name & off' & -> & Hle & Hn); [lia..|].
    do 2 eexists. split; [done|]. split; [lia|]. intros Hnn. specialize (Hn Hnn). lia. }
  destruct (192 =? Z.land b 192) eqn:Ep; [|do 2 eexists; split; [done|]; split; [lia|done]].
  destruct (Z.ltb_spec 32 depth); [do 2 eexists; split; [done|]; split; [lia|done]|].
  destruct (Z.ltb_spec len (off + 1)); [do 2 eexists; split; [done|]; split; [lia|done]|].
  destruct (mem_lookup (off + 1)) as (b2 & -> & Hb2); [lia|]. unfold is_u8 in Hb2.
  assert (Hge : 192 <= b).
  { by apply pointer_byte. }
  replace ((33 - depth) * (len + 2)) with ((33 - (depth + 1)) * (len + 2) + (len + 2)) in Hf by lia.
  assert (Hx : 0 <= Z.shiftl (b - 192) 8 + b2)
    by (pose proof (Z.shiftl_nonneg (b - 192) 8); lia).
  destruct (IH (Z.shiftl (b - 192) 8 + b2) (depth + 1) []) as (name & off' & -> & _ & _); [lia..|].
  destruct name as [xstr|]; [|do 2 eexists; split; [done|]; split; [lia|done]].
  destruct (len <? strlen _); do 2 eexists; (split; [done|]; split; [lia|done || lia]).
Qed.

Lemma parse_name_total off :
  0 <= off -> exists name off', GNUNET_DNSPARSER_parse_name mem len off = Some (name, off')
    /\ off <= off' <= Z.max off (len + 1) /\ (name <> None -> off < off').
Proof.
  intros Ho. apply parse_name_loop_total; [done|lia|]. unfold name_fuel. lia.
Qed.

(** The offset after a part that was parsed or not. *)
Definition advances (off off' : Z) : Prop := off <= off' <= Z.max off (len + 1).

Lemma advances_trans a b c : advances a b -> advances b c -> advances a c.
Proof. unfold advances. lia. Qed.

Lemma parse_soa_total off :
  0 <= off -> exists s off', GNUNET_DNSPARSER_parse_soa mem len off = Some (s, off')
    /\ advances off off' /\ (s = None -> off' = off) /\ (s <> None -> data_complete (data_soa s)).
Proof.
  intros Ho. unfold GNUNET_DNSPARSER_parse_soa, advances.
  destruct (parse_name_total off Ho) as (n1 & o1 & -> & H1 & _).
  destruct (parse_name_total o1) as (n2 & o2 & -> & H2 & _); [lia|].
  destruct n1, n2; try by (do 2 eexists; split; [done|]; split; [lia|]).
  destruct (Z.ltb_spec len (o2 + sizeof_DnsSoaRecord)) as [|Hl];
    [by (do 2 eexists; split; [done|]; split; [lia|])|]. unfold sizeof_DnsSoaRecord in *.
  rewrite load_spec by lia. do 2 eexists. split; [done|]. split; [lia|done].
Qed.

Lemma parse_mx_total off :
  0 <= off -> exists m off', GNUNET_DNSPARSER_parse_mx mem len off = Some (m, off')
    /\ advances off off' /\ (m = None -> off' = off) /\ (m <> None -> data_complete (data_mx m)).
Proof.
  intros Ho. unfold GNUNET_DNSPARSER_parse_mx, advances.
  destruct (Z.ltb_spec len (off + 2)); [by (do 2 eexists; split; [done|]; split; [lia|])|].
  rewrite load_spec by lia. destruct (parse_name_total (off + 2)) as (n & o & -> & H1 & _); [lia|].
  destruct n; do 2 eexists; (split; [done|]; split; [lia|done]).
Qed.

Lemma parse_srv_total off :
  0 <= off -> exists s off', GNUNET_DNSPARSER_parse_srv mem len off = Some (s, off')
    /\ advances off off' /\ (s = None -> off' = off) /\ (s <> None -> data_complete (data_srv s)).
Proof.
  intros Ho. unfold GNUNET_DNSPARSER_parse_srv, advances, sizeof_DnsSrvRecord.
  destruct (Z.ltb_spec len (off + 6)); [by (do 2 eexists; split; [done|]; split; [lia|])|].
  rewrite load_spec by lia. destruct (parse_name_total (off + 6)) as (n & o & -> & H1 & _); [lia|].
  destruct n; do 2 eexists; (split; [done|]; split; [lia|done]).
Qed.

Lemma parse_cert_total off :
  0 <= off -> exists c off', GNUNET_DNSPARSER_parse_cert mem len off = Some (c, off')
    /\ advances off off' /\ (c = None -> off' = off) /\ (c <> None -> off' = len).
Proof.
  intros Ho. unfold GNUNET_DNSPARSER_parse_cert, advances, sizeof_DnsCertRecord.
  destruct (Z.leb_spec len (off + 6)); [by (do 2 eexists; split; [done|]; split; [lia|])|].
  rewrite !load_spec by lia. do 2 eexists. split; [done|]. split; [lia|]. split; [done|lia].
Qed.

(** What a call of [parse_data] returns. *)
Definition data_parsed (off type data_len : Z) (o : option (Z * Z * record_data)) : Prop :=
  exists ret off' d, o = Some (ret, off', d) /\ advances off off'
    /\ (ret = GNUNET_OK -> off' = off + data_len /\ data_complete d)
    /\ (if type =? GNUNET_DNSPARSER_TYPE_CERT then exists l, d = data_raw l
        else data_of_type type d = true).

Lemma data_parsed_intro off type data_len off' d (present : bool) :
  advances off off' -> (present = true -> data_complete d) -> data_of_type type d = true ->
  type <> GNUNET_DNSPARSER_TYPE_CERT ->
  data_parsed off type data_len
    (Some (if negb present || negb (off + data_len =? off') then GNUNET_SYSERR else GNUNET_OK, off', d)).
Proof.
  intros Ha Hc Ht Hn. do 3 eexists. split; [done|]. split; [done|]. split.
  - destruct present; [|done]. destruct (Z.eqb_spec (off + data_len) off'); [|done].
    intros _. split; [done|]. by apply Hc.
  - by rewrite (proj2 (Z.eqb_neq _ _) Hn).
Qed.

Lemma non_null_some {A} (o : option A) : non_null o = true -> o <> None.
Proof. by destruct o. Qed.

Lemma parse_data_total off type data_len :
  0 <= off -> 0 <= data_len -> off + data_len <= len ->
  data_parsed off type data_len (parse_data mem len off type data_len).
Proof.
  intros Ho Hd Hle. unfold parse_data.
  destruct ((type =? GNUNET_DNSPARSER_TYPE_NS) || _ || _) eqn:E1.
  { destruct (parse_name_total off Ho) as (n & o & -> & H1 & _).
    apply data_parsed_intro; [done|apply non_null_some|done|]. intros ->. done. }
  destruct (Z.eqb_spec type GNUNET_DNSPARSER_TYPE_SOA) as [->|Hsoa].
  { destruct (parse_soa_total off Ho) as (x & o & -> & H1 & _ & Hc).
    apply data_parsed_intro; [done|intros ?%non_null_some; auto|done|done]. }
  destruct (Z.eqb_spec type GNUNET_DNSPARSER_TYPE_MX) as [->|Hmx].
  { destruct (parse_mx_total off Ho) as (x & o & -> & H1 & _ & Hc).
    apply data_parsed_intro; [done|intros ?%non_null_some; auto|done|done]. }
  destruct (Z.eqb_spec type GNUNET_DNSPARSER_TYPE_SRV) as [->|Hsrv].
  { destruct (parse_srv_total off Ho) as (x & o & -> & H1 & _ & Hc).
    apply data_parsed_intro; [done|intros ?%non_null_some; auto|done|done]. }
  rewrite load_spec by lia. do 3 eexists. split; [done|]. split; [unfold advances; lia|].
  split; [done|]. destruct (Z.eqb_spec type GNUNET_DNSPARSER_TYPE_CERT); [by eexists|].
  cbn [data_of_type existsb]. apply negb_true_iff. apply orb_false_iff in E1 as [[E1 E2]%orb_false_iff E3].
  rewrite E1, E2, E3. cbn [orb]. repeat (rewrite (proj2 (Z.eqb_neq type _)); [|done]). done.
Qed.

Lemma parse_query_total off :
  0 <= off -> exists ret off' q,
    GNUNET_DNSPARSER_parse_query mem len off zero_query = Some (ret, off', q)
    /\ advances off off' /\ (ret = GNUNET_OK -> q_name q <> None /\ off < off' <= len).
Proof.
  intros Ho. unfold GNUNET_DNSPARSER_parse_query, sizeof_DnsQueryLine, advances.
  destruct (parse_name_total off Ho) as (n & o & -> & H1 & _).
  destruct n as [n|]; [|by (do 3 eexists; split; [done|]; split; [lia|])].
  destruct (Z.ltb_spec len (o + 4)); [by (do 3 eexists; split; [done|]; split; [lia|])|].
  rewrite load_spec by lia. do 3 eexists. split; [done|]. split; [lia|]. split; [done|lia].
Qed.

Lemma parse_record_total now off :
  0 <= off -> exists ret off' r,
    GNUNET_DNSPARSER_parse_record now mem len off zero_record = Some (ret, off', r)
    /\ advances off off' /\ record_typed r
    /\ (ret = GNUNET_OK -> r_name r <> None /\ data_complete (r_data r) /\ off < off' <= len).
Proof.
  intros Ho. unfold GNUNET_DNSPARSER_parse_record, sizeof_DnsRecordLine.
  destruct (parse_name_total off Ho) as (n & o & -> & H1 & Hn).
  destruct n as [n|]; [|by (do 3 eexists; split; [done|]; split; [done|])].
  destruct (Z.ltb_spec len (o + 10)); [by (do 3 eexists; split; [done|]; split; [done|])|].
  rewrite load_spec by lia. set (rl := slice (Z.to_nat o) (Z.to_nat 10) mem).
  assert (Hrl : bytes_ok rl) by by apply bytes_ok_slice.
  pose proof (rd16_range 8 rl Hrl) as Hdl. unfold is_u16 in Hdl.
  destruct (Z.ltb_spec len (o + 10 + rd16 8 rl)).
  { do 3 eexists. split; [done|]. split; [unfold advances; lia|]. split; [|done].
    unfold record_typed. cbn. destruct (_ =? _); [by left|done]. }
  destruct (parse_data_total (o + 10) (rd16 0 rl) (rd16 8 rl)) as (ret & off' & d & -> & H2 & Hc & Ht);
    [lia..|]. do 3 eexists. split; [done|]. split; [unfold advances in *; lia|]. split.
  - unfold record_typed. cbn [r_type r_data]. destruct (_ =? _); [by right|done].
  - intros Hok. destruct (Hc Hok) as [-> Hcd]. split_and!; cbn; [done|done| |lia].
    specialize (Hn ltac:(done)). lia.
Qed.

(** Arrays of entries. *)
Lemma parse_array_total {A} (parse : Z -> A -> option (Z * Z * A)) zero (P Q : A -> Prop) n off :
  (forall off, 0 <= off -> exists ret off' x, parse off zero = Some (ret, off', x)
     /\ advances off off' /\ P x /\ (ret = GNUNET_OK -> Q x)) ->
  P zero -> 0 <= off ->
  exists ret off' l, parse_array parse zero n off = Some (ret, off', l)
    /\ advances off off' /\ length l = n /\ Forall P l /\ (ret = GNUNET_OK -> Forall Q l).
Proof.
  intros Hp Hz. revert off. induction n as [|n IH]; intros off Ho.
  { do 3 eexists. split; [done|]. split; [unfold advances; lia|done]. }
  cbn [parse_array]. destruct (Hp off Ho) as (ret & o & x & -> & H1 & Px & Qx).
  destruct (negb (GNUNET_OK =? ret)) eqn:E.
  { do 3 eexists. split; [done|]. split; [done|]. cbn [length]. rewrite length_replicate.
    split; [done|]. split; [|done]. constructor; [done|]. by apply Forall_replicate. }
  apply negb_false_iff, Z.eqb_eq in E.
  destruct (IH o) as (ret' & o' & l & -> & H2 & Hl & HP & HQ); [unfold advances in H1; lia|].
  do 3 eexists. split; [done|]. split; [by eapply advances_trans|]. cbn [length].
  split; [by f_equal|]. split; [by constructor|]. intros Hr. constructor; [by apply Qx|by apply HQ].
Qed.

Definition record_complete (r : GNUNET_DNSPARSER_Record) : Prop :=
  r_name r <> None /\ data_complete (r_data r).

Lemma parse_records_total now n off :
  0 <= off -> exists ret off' l,
    parse_array (GNUNET_DNSPARSER_parse_record now mem len) zero_record n off = Some (ret, off', l)
    /\ advances off off' /\ length l = n /\ Forall record_typed l
    /\ (ret = GNUNET_OK -> Forall record_complete l).
Proof.
  apply parse_array_total; [|done]. intros o Ho.
  destruct (parse_record_total now o Ho) as (ret & o' & r & E & Ha & Ht & Hc).
  do 3 eexists. split_and!; try done. intros Hr. destruct (Hc Hr) as (? & ? & _). done.
Qed.

(** All records of a packet. *)
Definition all_records (p : GNUNET_DNSPARSER_Packet) : list GNUNET_DNSPARSER_Record :=
  answers p ++ authority_records p ++ additional_records p.

Lemma parse_sections_total now :
  sizeof_DnsHeader <= len -> exists ret p, parse_sections now mem len = Some (ret, p)
    /\ Forall record_typed (all_records p)
    /\ (ret = GNUNET_OK \/ ret = GNUNET_SYSERR)
    /\ (ret = GNUNET_OK ->
         Forall (fun q => q_name q <> None) (queries p) /\ Forall record_complete (all_records p)).
Proof.
  intros Hl. unfold parse_sections. rewrite load_spec by (unfold sizeof_DnsHeader in *; lia).
  set (dns := slice _ _ mem).
  destruct (parse_array_total (GNUNET_DNSPARSER_parse_query mem len) zero_query (fun _ => True)
    (fun q => q_name q <> None) (Z.to_nat (rd16 4 dns)) sizeof_DnsHeader)
    as (ret & off & qs & -> & Ha & _ & _ & Hq); [|done|by unfold sizeof_DnsHeader|].
  { intros o Ho. destruct (parse_query_total o Ho) as (ret & o' & q & E & Ha & Hc).
    do 3 eexists. split_and!; try done. intros Hr. by apply Hc. }
  assert (Ho : 0 <= off) by (unfold advances, sizeof_DnsHeader in Ha; lia). clear Ha.
  destruct (negb (GNUNET_OK =? ret)) eqn:E; [by (do 2 eexists; split_and!; [done..|right|])|].
  apply negb_false_iff, Z.eqb_eq in E. specialize (Hq (eq_sym E)). clear E ret.
  destruct (parse_records_total now (Z.to_nat (rd16 6 dns)) off Ho)
    as (ret & off1 & an & -> & Ha & _ & Tan & Can).
  assert (Ho1 : 0 <= off1) by (unfold advances in Ha; lia). clear Ha.
  destruct (negb (GNUNET_OK =? ret)) eqn:E.
  { do 2 eexists. split; [done|]. unfold all_records. cbn. rewrite app_nil_r. split; [done|by split; [right|]]. }
  apply negb_false_iff, Z.eqb_eq in E. specialize (Can (eq_sym E)). clear E ret.
  destruct (parse_records_total now (Z.to_nat (rd16 8 dns)) off1 Ho1)
    as (ret & off2 & au & -> & Ha & _ & Tau & Cau).
  assert (Ho2 : 0 <= off2) by (unfold advances in Ha; lia). clear Ha.
  destruct (negb (GNUNET_OK =? ret)) eqn:E.
  { do 2 eexists. split; [done|]. unfold all_records. cbn. rewrite app_nil_r.
    split; [by apply Forall_app|by split; [right|]]. }
  apply negb_false_iff, Z.eqb_eq in E. specialize (Cau (eq_sym E)). clear E ret.
  destruct (parse_records_total now (Z.to_nat (rd16 10 dns)) off2 Ho2)
    as (ret & off3 & ad & -> & _ & _ & Tad & Cad).
  assert (Htyp : Forall record_typed (an ++ au ++ ad)) by (by rewrite !Forall_app).
  destruct (negb (GNUNET_OK =? ret)) eqn:E; [by (do 2 eexists; split_and!; [done..|right|])|].
  apply negb_false_iff, Z.eqb_eq in E. specialize (Cad (eq_sym E)).
  do 2 eexists. split; [done|]. split; [done|]. split; [by left|]. intros _. split; [done|].
  unfold all_records. by rewrite !Forall_app.
Qed.

End Safety.

(** *** Freeing *)

Section Freeing.

Lemma free_record_typed r :
  record_typed r -> r_type r <> GNUNET_DNSPARSER_TYPE_CERT -> GNUNET_DNSPARSER_free_record r = Some tt.
Proof.
  unfold record_typed, GNUNET_DNSPARSER_free_record. intros Ht Hn.
  rewrite (proj2 (Z.eqb_neq _ _) Hn) in *. destruct r as [n d e ty c]. cbn in *.
  destruct d; cbn in Ht |- *; [by repeat case_match|..];
    repeat match goal with
    | H : context [?x =? ?y] |- _ => destruct (Z.eqb_spec x y); cbn in H |- *; subst; try done
    end.
Qed.

Lemma free_records_typed l :
  Forall record_typed l -> Forall (fun r => r_type r <> GNUNET_DNSPARSER_TYPE_CERT) l ->
  free_records l = Some tt.
Proof.
  intros Ht Hn. induction Ht as [|r l Hr _ IH]; [done|]. apply Forall_cons in Hn as [Hn Hl].
  cbn [free_records]. rewrite free_record_typed by done. by apply IH.
Qed.

Lemma free_packet_typed p :
  Forall record_typed (all_records p) ->
  Forall (fun r => r_type r <> GNUNET_DNSPARSER_TYPE_CERT) (all_records p) ->
  GNUNET_DNSPARSER_free_packet p = Some tt.
Proof.
  unfold all_records, GNUNET_DNSPARSER_free_packet.
  rewrite !Forall_app. intros (A & B & C) (A' & B' & C').
  rewrite (free_records_typed _ A A'), (free_records_typed _ B B'). by apply free_records_typed.
Qed.

End Freeing.

(** ** Properties *)

(** A library that converts nothing, as for ASCII names. *)
Definition ascii_idna : Idna :=
  {| idna_to_ascii_8z := Some; idna_to_unicode_8z8z := Some |}.

(** C22. Parsing any bytes ends, within the bounded number of nested pointers, without
    reading beyond the byte that follows the payload: the packet is returned, or [NULL]
    after what was parsed has been freed. Left out are
    malformed payloads that contain a certificate record, for which freeing what was parsed can take the certificate
    for another kind of data ([dns_cert_confusion]). A packet that is returned has
    no null names or data. *)
Theorem dns_parse_safe `{Idna} now mem len :
  bytes_ok mem -> 0 <= len < Z.of_nat (length mem) ->
  (len < sizeof_DnsHeader -> GNUNET_DNSPARSER_parse now mem len = Some None)
  /\ (sizeof_DnsHeader <= len -> exists ret p, parse_sections now mem len = Some (ret, p)
        /\ (ret = GNUNET_OK ->
            GNUNET_DNSPARSER_parse now mem len = Some (Some p)
            /\ Forall (fun q => q_name q <> None) (queries p)
            /\ Forall record_complete (all_records p))
        /\ (ret <> GNUNET_OK ->
            Forall (fun r => r_type r <> GNUNET_DNSPARSER_TYPE_CERT) (all_records p) ->
            GNUNET_DNSPARSER_parse now mem len = Some None)).
Proof.
  intros Hm Hl. unfold GNUNET_DNSPARSER_parse. split.
  - intros Hlt. by rewrite (proj2 (Z.ltb_lt _ _) Hlt).
  - intros Hge. rewrite (proj2 (Z.ltb_ge _ _) Hge).
    destruct (parse_sections_total mem len Hm Hl now Hge) as (ret & p & -> & Ht & _ & Hc).
    exists ret, p. split; [done|]. split.
    + intros Hr. destruct (Hc Hr). by rewrite Hr.
    + intros Hr Hn. rewrite (proj2 (Z.eqb_neq GNUNET_OK ret)) by congruence.
      by rewrite free_packet_typed.
Qed.

(** A query for "foo", and a byte that follows it. *)
Definition sample_query : list Z :=
  [18; 52; 1; 0; 0; 1; 0; 0; 0; 0; 0; 0; 3; 102; 111; 111; 0; 0; 1; 0; 1].

Lemma dns_parse_safe_witness :
  @GNUNET_DNSPARSER_parse ascii_idna (mk_abs 0) (sample_query ++ [255]) 21
  = Some (Some (mk_packet [mk_query (Some [102; 111; 111]) 1 1] [] [] [] 1 13330)).
Proof.
  destruct (@dns_parse_safe ascii_idna (mk_abs 0) (sample_query ++ [255]) 21) as [_ H].
  - repeat constructor; words.
  - cbn. lia.
  - destruct H as (ret & p & E & Hok & _); [unfold sizeof_DnsHeader; lia|].
    vm_compute in E. apply Some_inj, pair_equal_spec in E as [<- <-]. by apply Hok.
Defined.

(** C40. Records are well typed: in a packet as far as it was parsed, the member of the
    union that was stored is the one that belongs to the type of the record, so that
    the packet can be freed (and packed); but the data of certificates are stored raw,
    whereas [GNUNET_DNSPARSER_free_record] follows them as a certificate. *)
Theorem dns_records_typed `{Idna} now mem len ret p :
  bytes_ok mem -> sizeof_DnsHeader <= len < Z.of_nat (length mem) ->
  parse_sections now mem len = Some (ret, p) ->
  (forall r, r ∈ all_records p -> r_type r <> GNUNET_DNSPARSER_TYPE_CERT ->
     data_of_type (r_type r) (r_data r) = true /\ GNUNET_DNSPARSER_free_record r = Some tt)
  /\ (forall r, r ∈ all_records p -> r_type r = GNUNET_DNSPARSER_TYPE_CERT -> ret = GNUNET_OK ->
     (exists l, r_data r = data_raw l) /\ GNUNET_DNSPARSER_free_record r = None).
Proof.
  intros Hm Hl E.
  destruct (parse_sections_total mem len Hm ltac:(unfold sizeof_DnsHeader in Hl; lia) now ltac:(lia))
    as (ret' & p' & E' & Ht & _ & Hc). rewrite E in E'.
  apply Some_inj, pair_equal_spec in E' as [<- <-]. rewrite Forall_forall in Ht. split.
  - intros r Hr Hn. split; [|by apply free_record_typed; [apply Ht|]].
    specialize (Ht r Hr). unfold record_typed in Ht. by rewrite (proj2 (Z.eqb_neq _ _) Hn) in Ht.
  - intros r Hr Hcert Hok. specialize (Ht r Hr). unfold record_typed in Ht. rewrite Hcert in Ht.
    destruct Ht as [Hz|[l Hraw]].
    + destruct (Hc Hok) as [_ Hall]. rewrite Forall_forall in Hall.
      destruct (Hall r Hr) as [_ Hd]. by rewrite Hz in Hd.
    + split; [by exists l|]. unfold GNUNET_DNSPARSER_free_record. by rewrite Hcert, Hraw.
Qed.

(** An answer of type [A] for the root. *)
Definition sample_answer (type : Z) : list Z :=
  [0; 0; 0; 128; 0; 0; 0; 1; 0; 0; 0; 0; 0; 0; type; 0; 1; 0; 0; 0; 60; 0; 4; 127; 0; 0; 1].

Lemma dns_records_typed_witness :
  GNUNET_DNSPARSER_free_record
    (mk_record (Some []) (data_raw [127; 0; 0; 1]) (mk_abs 60000000) 1 1) = Some tt
  /\ GNUNET_DNSPARSER_free_record
    (mk_record (Some []) (data_raw [127; 0; 0; 1]) (mk_abs 60000000) 37 1) = None.
Proof.
  split.
  - refine (proj2 (proj1 (@dns_records_typed ascii_idna (mk_abs 0) (sample_answer 1 ++ [0]) 27 1
      (mk_packet [] [mk_record (Some []) (data_raw [127; 0; 0; 1]) (mk_abs 60000000) 1 1] [] [] 32768 0)
      _ _ _) _ _ _)).
    + repeat constructor; words.
    + unfold sizeof_DnsHeader. cbn. lia.
    + vm_compute. reflexivity.
    + left.
    + done.
  - refine (proj2 (proj2 (@dns_records_typed ascii_idna (mk_abs 0) (sample_answer 37 ++ [0]) 27 1
      (mk_packet [] [mk_record (Some []) (data_raw [127; 0; 0; 1]) (mk_abs 60000000) 37 1] [] [] 32768 0)
      _ _ _) _ _ _ _)).
    + repeat constructor; words.
    + unfold sizeof_DnsHeader. cbn. lia.
    + vm_compute. reflexivity.
    + left.
    + reflexivity.
    + reflexivity.
Defined.

(** A payload with a certificate record and a truncated second record: the error path
    follows the bytes of the record as a pointer. *)
Lemma dns_cert_confusion :
  @GNUNET_DNSPARSER_parse ascii_idna (mk_abs 0)
    ([0; 0; 0; 128; 0; 0; 0; 2; 0; 0; 0; 0; 0; 0; 37; 0; 1; 0; 0; 0; 60; 0; 4; 127; 0; 0; 1; 9]) 27
  = None.
Proof. vm_compute. reflexivity. Qed.

(** A payload that ends in the first byte of a pointer: the byte that follows it is
    read. *)
Lemma dns_pointer_overread :
  let payload := [0; 0; 0; 128; 0; 1; 0; 0; 0; 0; 0; 0; 192] in
  @GNUNET_DNSPARSER_parse ascii_idna (mk_abs 0) payload 13 = None
  /\ @GNUNET_DNSPARSER_parse_name ascii_idna (payload ++ [0]) 13 12 = Some (Some [], 14).
Proof. vm_compute. done. Qed.

(** A label followed by a pointer to the root gets an additional dot. *)
Lemma dns_pointer_to_root :
  @GNUNET_DNSPARSER_parse_name ascii_idna [0; 3; 102; 111; 111; 192; 0; 9] 7 1
  = Some (Some [102; 111; 111; 46], 7).
Proof. vm_compute. reflexivity. Qed.
