(* ===== verification/DnsPack.v ===== *)
(** * DNS packets: assembly, second half of [src/dns/dnsparser.c]

    The builder writes a packet into an array [dst]; operations return the code, the
    array and the offset. [None] is an access outside of the array, a null pointer or a
    member of a union that does not hold it. The wire format is given as a function from
    packets to bytes, the builder is shown to compute it, and the parser of [Dns] to
    invert it. *)

From S2P Require Import Prelude Time Message Strings Dns.

Section Model.
Context {idna : Idna}.

(** ** Operations *)

(** The loop of [GNUNET_DNSPARSER_builder_add_name]; [false] is the jump to [fail]. *)
Fixpoint add_name_loop (fuel : nat) (dst : list Z) (pos : Z) (idna_name : list Z)
  : option (bool * list Z * Z) :=
  match fuel with
  | O => None
  | S fuel =>
      let dot := strchr idna_name char_dot in
      let len := match dot with None => strlen idna_name | Some n => Z.of_nat n end in
      if (64 <=? len) || (0 =? len) then Some (false, dst, pos)
      else
        let? dst := store dst pos [u8 len] in
        let? dst := store dst (pos + 1) (take (Z.to_nat len) idna_name) in
        let pos := pos + 1 + len in
        match dot with
        | None => Some (true, dst, pos)
        | Some _ => add_name_loop fuel dst pos (drop (Z.to_nat len + 1) idna_name)
        end
  end.

Definition GNUNET_DNSPARSER_builder_add_name (dst : list Z) (dst_len off : Z) (name : dns_name)
  : option (Z * list Z * Z) :=
  match name with
  | None => Some (GNUNET_SYSERR, dst, off)
  | Some name =>
      match idna_to_ascii_8z name with
      | None => Some (GNUNET_NO, dst, off)
      | Some idna_name =>
          if dst_len <? off + strlen idna_name + 2 then Some (GNUNET_NO, dst, off)
          else
            let? (ok, dst, pos) := add_name_loop (S (length idna_name)) dst off idna_name in
            if ok : bool then let? dst := store dst pos [0] in Some (GNUNET_OK, dst, pos + 1)
            else Some (GNUNET_NO, dst, off)
      end
  end.

Definition GNUNET_DNSPARSER_builder_add_query (dst : list Z) (dst_len off : Z)
    (query : GNUNET_DNSPARSER_Query) : option (Z * list Z * Z) :=
  let? (ret, dst, off) :=
    GNUNET_DNSPARSER_builder_add_name dst (u64 (dst_len - sizeof_DnsQueryLine)) off (q_name query) in
  if negb (ret =? GNUNET_OK) then Some (ret, dst, off)
  else
    let? dst := store dst off (be_encode 2 (q_type query) ++ be_encode 2 (q_dns_traffic_class query)) in
    Some (GNUNET_OK, dst, off + sizeof_DnsQueryLine).

Definition GNUNET_DNSPARSER_builder_add_mx (dst : list Z) (dst_len off : Z)
    (mx : GNUNET_DNSPARSER_MxRecord) : option (Z * list Z * Z) :=
  if dst_len <? off + 2 then Some (GNUNET_NO, dst, off)
  else
    let? dst := store dst off (be_encode 2 (preference mx)) in
    GNUNET_DNSPARSER_builder_add_name dst dst_len (off + 2) (mxhost mx).

(** [padding] is what the byte after the algorithm happens to hold. *)
Definition GNUNET_DNSPARSER_builder_add_cert (padding : Z) (dst : list Z) (dst_len off : Z)
    (cert : GNUNET_DNSPARSER_CertRecord) : option (Z * list Z * Z) :=
  if (UINT16_MAX <? cert_type cert) || (UINT16_MAX <? cert_tag cert) || (255 <? algorithm cert)
  then Some (GNUNET_SYSERR, dst, off)
  else if dst_len <? off + sizeof_DnsCertRecord + strlen (certificate_data cert)
  then Some (GNUNET_NO, dst, off)
  else
    let? dst := store dst off (be_encode 2 (u16 (cert_type cert)) ++ be_encode 2 (u16 (cert_tag cert))
                               ++ [u8 (algorithm cert); padding]) in
    let? dst := store dst (off + sizeof_DnsCertRecord) (certificate_data cert) in
    Some (GNUNET_OK, dst, off + sizeof_DnsCertRecord + strlen (certificate_data cert)).

Definition soa_bytes (soa : GNUNET_DNSPARSER_SoaRecord) : list Z :=
  be_encode 4 (serial soa) ++ be_encode 4 (refresh soa) ++ be_encode 4 (retry soa)
  ++ be_encode 4 (expire soa) ++ be_encode 4 (minimum_ttl soa).

Definition GNUNET_DNSPARSER_builder_add_soa (dst : list Z) (dst_len off : Z)
    (soa : GNUNET_DNSPARSER_SoaRecord) : option (Z * list Z * Z) :=
  let? (ret, dst, off) := GNUNET_DNSPARSER_builder_add_name dst dst_len off (mname soa) in
  if negb (GNUNET_OK =? ret) then Some (ret, dst, off)
  else
    let? (ret, dst, off) := GNUNET_DNSPARSER_builder_add_name dst dst_len off (rname soa) in
    if negb (GNUNET_OK =? ret) then Some (ret, dst, off)
    else if dst_len <? off + sizeof_DnsSoaRecord then Some (GNUNET_NO, dst, off)
    else
      let? dst := store dst off (soa_bytes soa) in
      Some (GNUNET_OK, dst, off + sizeof_DnsSoaRecord).

Definition GNUNET_DNSPARSER_builder_add_srv (dst : list Z) (dst_len off : Z)
    (srv : GNUNET_DNSPARSER_SrvRecord) : option (Z * list Z * Z) :=
  if dst_len <? off + sizeof_DnsSrvRecord then Some (GNUNET_NO, dst, off)
  else
    let? dst := store dst off (be_encode 2 (priority srv) ++ be_encode 2 (weight srv)
                               ++ be_encode 2 (port srv)) in
    let? (ret, dst, off) :=
      GNUNET_DNSPARSER_builder_add_name dst dst_len (off + sizeof_DnsSrvRecord) (target srv) in
    if negb (GNUNET_OK =? ret) then Some (ret, dst, off) else Some (GNUNET_OK, dst, off).

(** The switch of [add_record]. *)
Definition add_data (padding : Z) (dst : list Z) (dst_len pos type : Z) (d : record_data)
  : option (Z * list Z * Z) :=
  if type =? GNUNET_DNSPARSER_TYPE_MX then
    let? mx := get_mx d in let? mx := mx in GNUNET_DNSPARSER_builder_add_mx dst dst_len pos mx
  else if type =? GNUNET_DNSPARSER_TYPE_CERT then
    let? cert := get_cert d in let? cert := cert in
    GNUNET_DNSPARSER_builder_add_cert padding dst dst_len pos cert
  else if type =? GNUNET_DNSPARSER_TYPE_SOA then
    let? soa := get_soa d in let? soa := soa in GNUNET_DNSPARSER_builder_add_soa dst dst_len pos soa
  else if (type =? GNUNET_DNSPARSER_TYPE_NS) || (type =? GNUNET_DNSPARSER_TYPE_CNAME)
          || (type =? GNUNET_DNSPARSER_TYPE_PTR) then
    let? hostname := get_hostname d in
    GNUNET_DNSPARSER_builder_add_name dst dst_len pos hostname
  else if type =? GNUNET_DNSPARSER_TYPE_SRV then
    let? srv := get_srv d in let? srv := srv in GNUNET_DNSPARSER_builder_add_srv dst dst_len pos srv
  else
    let? raw := get_raw d in
    if dst_len <? pos + strlen raw then Some (GNUNET_NO, dst, pos)
    else let? dst := store dst pos raw in Some (GNUNET_OK, dst, pos + strlen raw).

(** The record line. *)
Definition record_line (now : GNUNET_TIME_Absolute) (r : GNUNET_DNSPARSER_Record) (data_len : Z)
  : list Z :=
  be_encode 2 (r_type r) ++ be_encode 2 (r_dns_traffic_class r)
  ++ be_encode 4 (u32 (rel_value_us (GNUNET_TIME_absolute_get_remaining now (expiration_time r))
                       / 1000 / 1000))
  ++ be_encode 2 (u16 data_len).

Definition add_record (now : GNUNET_TIME_Absolute) (padding : Z) (dst : list Z) (dst_len off : Z)
    (record : GNUNET_DNSPARSER_Record) : option (Z * list Z * Z) :=
  let start := off in
  let? (ret, dst, off) :=
    GNUNET_DNSPARSER_builder_add_name dst (u64 (dst_len - sizeof_DnsRecordLine)) off (r_name record) in
  if negb (GNUNET_OK =? ret) then Some (ret, dst, off)
  else
    let? (ret, dst, pos) :=
      add_data padding dst dst_len (off + sizeof_DnsRecordLine) (r_type record) (r_data record) in
    if negb (GNUNET_OK =? ret) then Some (GNUNET_NO, dst, start)
    else
      let data_len := pos - (off + sizeof_DnsRecordLine) in
      if UINT16_MAX <? data_len then Some (GNUNET_NO, dst, start)
      else
        let? dst := store dst off (record_line now record data_len) in
        Some (GNUNET_OK, dst, pos).

(** The loop over one array in [GNUNET_DNSPARSER_pack], from entry [i] on. Also returns
    the count that replaces the one in the header. *)
Fixpoint pack_array {A} (add : list Z -> Z -> A -> option (Z * list Z * Z)) (tmp : list Z) (off i : Z)
    (l : list A) : option (Z * list Z * Z * option Z) :=
  match l with
  | [] => Some (GNUNET_OK, tmp, off, None)
  | x :: l =>
      let? (ret, tmp, off) := add tmp off x in
      if GNUNET_SYSERR =? ret then Some (GNUNET_SYSERR, tmp, off, None)
      else if GNUNET_NO =? ret then Some (GNUNET_NO, tmp, off, Some (u16 (u32 (i - 1))))
      else pack_array add tmp off (i + 1) l
  end.

Definition header_bytes (id flags qc anc auc adc : Z) : list Z :=
  le_encode 2 id ++ le_encode 2 flags ++ be_encode 2 qc ++ be_encode 2 anc
  ++ be_encode 2 auc ++ be_encode 2 adc.

(** [tmp] is what the array of [max] bytes on the stack happens to hold. Returns the
    code and the buffer. *)
Definition GNUNET_DNSPARSER_pack (now : GNUNET_TIME_Absolute) (padding : Z) (tmp : list Z)
    (p : GNUNET_DNSPARSER_Packet) (max : Z) : option (Z * option (list Z)) :=
  let num {A} (l : list A) := Z.of_nat (length l) in
  if (UINT16_MAX <? num (queries p)) || (UINT16_MAX <? num (answers p))
     || (UINT16_MAX <? num (authority_records p)) || (UINT16_MAX <? num (additional_records p))
  then Some (GNUNET_SYSERR, None)
  else
    let off := sizeof_DnsHeader in
    let add_q tmp off q := GNUNET_DNSPARSER_builder_add_query tmp max off q in
    let add_r tmp off r := add_record now padding tmp max off r in
    let? (r1, tmp, off, c1) := pack_array add_q tmp off 0 (queries p) in
    if GNUNET_SYSERR =? r1 then Some (GNUNET_SYSERR, None)
    else
      let? (r2, tmp, off, c2) := pack_array add_r tmp off 0 (answers p) in
      if GNUNET_SYSERR =? r2 then Some (GNUNET_SYSERR, None)
      else
        let? (r3, tmp, off, c3) := pack_array add_r tmp off 0 (authority_records p) in
        if GNUNET_SYSERR =? r3 then Some (GNUNET_SYSERR, None)
        else
          let? (r4, tmp, off, c4) := pack_array add_r tmp off 0 (additional_records p) in
          if GNUNET_SYSERR =? r4 then Some (GNUNET_SYSERR, None)
          else
            let trc := existsb (Z.eqb GNUNET_NO) [r1; r2; r3; r4] in
            let fl := if trc then Z.lor (flags p) 2 else flags p in
            let? tmp := store tmp 0
              (header_bytes (packet_id p) fl
                 (default (num (queries p)) c1) (default (num (answers p)) c2)
                 (default (num (authority_records p)) c3)
                 (default (num (additional_records p)) c4)) in
            let? buf := load tmp 0 off in
            Some (if trc then GNUNET_NO else GNUNET_OK, Some buf).

(** ** Hexadecimal *)

(** "%02x" *)
Definition hex_digit (n : Z) : Z := if n <? 10 then 48 + n else 97 + (n - 10).

Fixpoint GNUNET_DNSPARSER_bin_to_hex (data : list Z) : list Z :=
  match data with
  | [] => []
  | b :: data => hex_digit (Z.shiftr b 4) :: hex_digit (Z.land b 15) :: GNUNET_DNSPARSER_bin_to_hex data
  end.

Definition hex_value (c : Z) : option Z :=
  if (48 <=? c) && (c <=? 57) then Some (c - 48)
  else if (97 <=? c) && (c <=? 102) then Some (c - 87)
  else if (65 <=? c) && (c <=? 70) then Some (c - 55)
  else None.

(** [sscanf (in, "%x", &h)] on a string of the two characters: space before the number is
    skipped, a sign is accepted, "0x" without a digit does not match. *)
Definition sscanf_x (a b : Z) : option Z :=
  if isspace a then hex_value b
  else if a =? 43 then hex_value b
  else if a =? 45 then (fun v => u32 (- v)) <$> hex_value b
  else if (a =? 48) && (b =? 120) then None
  else
    let? d := hex_value a in
    match hex_value b with Some e => Some (16 * d + e) | None => Some d end.

Fixpoint GNUNET_DNSPARSER_hex_to_bin (hex : list Z) : list Z :=
  match hex with
  | a :: b :: hex =>
      match sscanf_x (tolower a) (tolower b) with
      | None => []
      | Some h => u8 h :: GNUNET_DNSPARSER_hex_to_bin hex
      end
  | _ => []
  end.

(** ** The wire format *)

(** The labels of a name. *)
Fixpoint labels (s : list Z) : list (list Z) :=
  match s with
  | [] => [[]]
  | b :: s =>
      if b =? char_dot then [] :: labels s
      else match labels s with l :: ls => (b :: l) :: ls | [] => [[b]] end
  end.

Definition label_ok (l : list Z) : bool := (0 <? strlen l) && (strlen l <? 64).
Definition wire_label (l : list Z) : list Z := strlen l :: l.

Definition wire_name (n : dns_name) : option (list Z) :=
  let? n := n in
  let? a := idna_to_ascii_8z n in
  assert? forallb label_ok (labels a) in
  Some (concat (map wire_label (labels a)) ++ [0]).

Definition wire_query (q : GNUNET_DNSPARSER_Query) : option (list Z) :=
  let? w := wire_name (q_name q) in
  Some (w ++ be_encode 2 (q_type q) ++ be_encode 2 (q_dns_traffic_class q)).

Definition wire_mx (mx : GNUNET_DNSPARSER_MxRecord) : option (list Z) :=
  let? w := wire_name (mxhost mx) in Some (be_encode 2 (preference mx) ++ w).

Definition wire_soa (soa : GNUNET_DNSPARSER_SoaRecord) : option (list Z) :=
  let? w1 := wire_name (mname soa) in
  let? w2 := wire_name (rname soa) in
  Some (w1 ++ w2 ++ soa_bytes soa).

Definition wire_srv (srv : GNUNET_DNSPARSER_SrvRecord) : option (list Z) :=
  let? w := wire_name (target srv) in
  Some ((be_encode 2 (priority srv) ++ be_encode 2 (weight srv) ++ be_encode 2 (port srv)) ++ w).

Definition wire_cert (padding : Z) (c : GNUNET_DNSPARSER_CertRecord) : option (list Z) :=
  assert? (cert_type c <=? UINT16_MAX) && (cert_tag c <=? UINT16_MAX) && (algorithm c <=? 255) in
  Some ((be_encode 2 (u16 (cert_type c)) ++ be_encode 2 (u16 (cert_tag c))
         ++ [u8 (algorithm c); padding]) ++ certificate_data c).

Definition wire_data (padding : Z) (d : record_data) : option (list Z) :=
  match d with
  | data_zero => None
  | data_hostname h => wire_name h
  | data_soa s => let? s := s in wire_soa s
  | data_cert c => let? c := c in wire_cert padding c
  | data_mx m => let? m := m in wire_mx m
  | data_srv s => let? s := s in wire_srv s
  | data_raw l => Some l
  end.

Definition wire_record (now : GNUNET_TIME_Absolute) (padding : Z) (r : GNUNET_DNSPARSER_Record)
  : option (list Z) :=
  let? w := wire_name (r_name r) in
  let? d := wire_data padding (r_data r) in
  assert? strlen d <=? UINT16_MAX in
  Some (w ++ record_line now r (strlen d) ++ d).

(** The entries of an array one after the other. *)
Fixpoint wires {A} (wire : A -> option (list Z)) (l : list A) : option (list Z) :=
  match l with
  | [] => Some []
  | x :: l => let? w := wire x in let? ws := wires wire l in Some (w ++ ws)
  end.

Definition wire_packet (now : GNUNET_TIME_Absolute) (padding : Z) (p : GNUNET_DNSPARSER_Packet)
  : option (list Z) :=
  let num {A} (l : list A) := Z.of_nat (length l) in
  let? q := wires wire_query (queries p) in
  let? an := wires (wire_record now padding) (answers p) in
  let? au := wires (wire_record now padding) (authority_records p) in
  let? ad := wires (wire_record now padding) (additional_records p) in
  Some (header_bytes (packet_id p) (flags p) (num (queries p)) (num (answers p))
          (num (authority_records p)) (num (additional_records p)) ++ q ++ an ++ au ++ ad).

End Model.

(** ** Writing to the array *)

(** The outcome of a builder that is to write [w] at [off], below [lim]: it writes [w] if
    there is such a [w] and it fits, and fails otherwise; what is before [off] stays.
    When [strict], a failure leaves the offset. *)
Inductive builds (strict : bool) (dst : list Z) (lim off : Z) (w : option (list Z))
  : option (Z * list Z * Z) -> Prop :=
  | builds_ok w' dst' off' :
      w = Some w' -> off' = off + strlen w' -> off' <= lim -> length dst' = length dst ->
      take (Z.to_nat off') dst' = take (Z.to_nat off) dst ++ w' ->
      builds strict dst lim off w (Some (GNUNET_OK, dst', off'))
  | builds_no ret dst' off' :
      ret = GNUNET_NO \/ ret = GNUNET_SYSERR ->
      (forall w', w = Some w' -> lim < off + strlen w') -> length dst' = length dst ->
      take (Z.to_nat off) dst' = take (Z.to_nat off) dst -> (strict = true -> off' = off) ->
      builds strict dst lim off w (Some (ret, dst', off')).

Section Writing.
Implicit Types dst w : list Z.

Lemma store_spec dst pos w :
  0 <= pos -> pos + strlen w <= Z.of_nat (length dst) ->
  exists dst', store dst pos w = Some dst' /\ length dst' = length dst
    /\ take (Z.to_nat pos) dst' = take (Z.to_nat pos) dst
    /\ take (Z.to_nat (pos + strlen w)) dst' = take (Z.to_nat pos) dst ++ w.
Proof.
  unfold store, strlen. intros Hp Hl. rewrite (proj2 (Z.leb_le 0 pos)), (proj2 (Z.leb_le _ _)) by lia.
  eexists. split; [done|]. split; [apply length_splice; lia|]. unfold splice.
  assert (Ht : length (take (Z.to_nat pos) dst) = Z.to_nat pos) by (rewrite length_take; lia).
  split.
  - by rewrite take_app_length'.
  - rewrite Z2Nat.inj_add, Nat2Z.id by lia. rewrite app_assoc.
    apply take_app_length'. rewrite length_app. lia.
Qed.

Lemma strlen_app w w' : strlen (w ++ w') = strlen w + strlen w'.
Proof. unfold strlen. rewrite length_app. lia. Qed.

(** A longer prefix determines a shorter one. *)
Lemma take_mono (n m : nat) dst dst' :
  (n <= m)%nat -> take m dst' = take m dst -> take n dst' = take n dst.
Proof.
  intros Hle H. rewrite <- (Nat.min_l n m Hle), <- !take_take. by f_equal.
Qed.

End Writing.

(** ** Names *)

Section Names.
Context {idna : Idna}.
Implicit Types s dst : list Z.

Lemma labels_strchr s :
  match strchr s char_dot with
  | None => labels s = [s]
  | Some n => (n < length s)%nat /\ labels s = take n s :: labels (drop (n + 1) s)
  end.
Proof.
  induction s as [|b s IH]; [done|]. cbn [strchr labels]. destruct (b =? char_dot).
  - cbn. rewrite drop_0. split; [lia|done].
  - destruct (strchr s char_dot) as [n|]; cbn [fmap option_fmap option_map].
    + destruct IH as [Hn ->]. split; [cbn; lia|done].
    + by rewrite IH.
Qed.

Lemma length_wire_labels s : strlen (concat (map wire_label (labels s))) = strlen s + 1.
Proof.
  unfold strlen. induction s as [|b s IH]; [done|]. cbn [labels].
  destruct (b =? char_dot).
  - cbn [map concat wire_label app length]. lia.
  - destruct (labels s) as [|l ls]; [cbn in IH; lia|].
    cbn [map concat wire_label app] in *. cbn [length] in *. rewrite length_app in *. cbn [length] in *. lia.
Qed.

Lemma add_name_loop_spec fuel s dst pos :
  (length s < fuel)%nat -> 0 <= pos -> pos + strlen s + 1 <= Z.of_nat (length dst) ->
  exists ok dst' pos', add_name_loop fuel dst pos s = Some (ok, dst', pos')
    /\ length dst' = length dst /\ take (Z.to_nat pos) dst' = take (Z.to_nat pos) dst
    /\ ok = forallb label_ok (labels s)
    /\ (ok = true -> pos' = pos + strlen s + 1
        /\ take (Z.to_nat pos') dst' = take (Z.to_nat pos) dst ++ concat (map wire_label (labels s))).
Proof.
  revert s dst pos. induction fuel as [|fuel IH]; intros s dst pos Hf Hp Hl; [lia|].
  cbn [add_name_loop]. pose proof (labels_strchr s) as Hlab.
  set (l := match strchr s char_dot with None => s | Some n => take n s end).
  assert (Hlen : match strchr s char_dot with None => strlen s | Some n => Z.of_nat n end = strlen l
                 /\ strlen l <= strlen s /\ take (Z.to_nat (strlen l)) s = l).
  { subst l. unfold strlen. destruct (strchr s char_dot) as [n|].
    - destruct Hlab as [Hn _]. rewrite length_take, Nat2Z.id, Nat.min_l by lia. split_and!; [lia|lia|done].
    - rewrite Nat2Z.id. split_and!; [lia|lia|apply firstn_all]. }
  destruct Hlen as (-> & Hle & Ht). rewrite Ht.
  assert (Hok : label_ok l = negb ((64 <=? strlen l) || (0 =? strlen l))).
  { unfold label_ok, strlen. destruct (Z.leb_spec 64 (Z.of_nat (length l))), (Z.eqb_spec 0 (Z.of_nat (length l))); cbn; lia. }
  destruct ((64 <=? strlen l) || (0 =? strlen l)) eqn:E; cbn [negb] in Hok.
  { do 3 eexists. split; [done|]. split_and!; [done..| |done]. subst l.
    destruct (strchr s char_dot) as [n|]; [destruct Hlab as [_ ->]|rewrite Hlab]; cbn; by rewrite Hok. }
  apply orb_false_iff in E as [E1%Z.leb_gt E2%Z.eqb_neq].
  assert (0 < strlen l) by (unfold strlen in *; lia).
  replace (u8 (strlen l)) with (strlen l) by (symmetry; apply Z.mod_small; lia).
  destruct (store_spec dst pos [strlen l]) as (d1 & -> & L1 & P1 & W1); [lia|unfold strlen in *; cbn; lia|].
  destruct (store_spec d1 (pos + 1) l) as (d2 & -> & L2 & P2 & W2); [lia|unfold strlen in *; lia|].
  change (strlen [strlen l]) with 1 in W1. rewrite W1 in W2, P2.
  assert (P : take (Z.to_nat pos) d2 = take (Z.to_nat pos) dst).
  { rewrite <- P1. apply (take_mono _ (Z.to_nat (pos + 1))); [lia|]. by rewrite P2, W1. }
  assert (W : take (Z.to_nat (pos + 1 + strlen l)) d2 = take (Z.to_nat pos) dst ++ wire_label l).
  { rewrite W2. by rewrite <- app_assoc. }
  destruct (strchr s char_dot) as [n|] eqn:En; subst l.
  - destruct Hlab as [Hn ->]. assert (Hsl : strlen (take n s) = Z.of_nat n)
      by (unfold strlen; rewrite length_take; lia). rewrite Hsl in *. rewrite Nat2Z.id.
    assert (Hd : strlen (drop (n + 1) s) = strlen s - Z.of_nat n - 1)
      by (unfold strlen; rewrite length_drop; lia).
    destruct (IH (drop (n + 1) s) d2 (pos + 1 + Z.of_nat n)) as (ok & d3 & pos' & -> & L3 & P3 & Hok3 & W3);
      [rewrite length_drop; lia|lia|lia|].
    do 3 eexists. split; [done|]. split; [congruence|]. split; [|split].
    + rewrite <- P. by apply (take_mono _ (Z.to_nat (pos + 1 + Z.of_nat n))); [lia|].
    + cbn [forallb]. by rewrite Hok.
    + intros Ht'. destruct (W3 Ht') as [-> ->]. rewrite W. split; [lia|].
      cbn [map concat]. by rewrite <- app_assoc.
  - do 3 eexists. split; [done|]. split; [congruence|]. split; [done|]. rewrite Hlab. cbn [forallb map concat].
    rewrite Hok, app_nil_r. split; [done|]. intros _. split; [lia|done].
Qed.

Lemma add_name_spec dst lim off n :
  0 <= off -> lim <= Z.of_nat (length dst) ->
  builds true dst lim off (wire_name n) (GNUNET_DNSPARSER_builder_add_name dst lim off n).
Proof.
  intros Ho Hl. unfold GNUNET_DNSPARSER_builder_add_name, wire_name.
  destruct n as [n|]; [|by apply builds_no; [right|..]].
  destruct (idna_to_ascii_8z n) as [a|]; [|by apply builds_no; [left|..]].
  assert (Hwl : strlen (concat (map wire_label (labels a)) ++ [0]) = strlen a + 2).
  { rewrite strlen_app, length_wire_labels. change (strlen [0]) with 1. lia. }
  destruct (Z.ltb_spec lim (off + strlen a + 2)).
  { apply builds_no; [by left| |done..]. intros w'. destruct (forallb _ _); [|done]. intros [= <-]. lia. }
  destruct (add_name_loop_spec (S (length a)) a dst off) as (ok & d1 & pos & -> & L1 & P1 & Hok & W1);
    [lia|lia|lia|]. rewrite <- Hok. destruct ok; [|by apply builds_no; [left|..]].
  destruct (W1 eq_refl) as [-> W]. clear W1.
  destruct (store_spec d1 (off + strlen a + 1) [0]) as (d2 & -> & L2 & P2 & W2);
    [unfold strlen; lia|unfold strlen in *; cbn; lia|]. change (strlen [0]) with 1 in W2.
  eapply builds_ok; [done|lia|lia|congruence|]. by rewrite W2, W, app_assoc.
Qed.

End Names.

(** ** Records *)

Section Builders.
Context {idna : Idna}.
Implicit Types dst : list Z.

(** What was before the offset is not touched. *)
Lemma builds_prefix s dst lim off w ret dst' off' :
  0 <= off -> off <= Z.of_nat (length dst) -> builds s dst lim off w (Some (ret, dst', off')) ->
  length dst' = length dst /\ take (Z.to_nat off) dst' = take (Z.to_nat off) dst.
Proof.
  intros Ho Hl H. inversion H as [w' d o Hw -> Hlim L T|r d o Hr Hw L T Hs]; subst; [|done].
  split; [done|]. assert (Hle : (Z.to_nat off <= Z.to_nat (off + strlen w'))%nat)
    by (unfold strlen; lia).
  transitivity (take (Z.to_nat off) (take (Z.to_nat (off + strlen w')) dst')).
  { rewrite take_take. by f_equal; lia. }
  rewrite T. apply take_app_length'.
  rewrite length_take. lia.
Qed.

(** One part after the other. *)
Lemma builds_then s s' dst lim off w1 w2 o1 (k : list Z -> Z -> option (Z * list Z * Z)) :
  0 <= off -> lim <= Z.of_nat (length dst) -> builds s dst lim off w1 o1 ->
  (forall d1 w, w1 = Some w -> length d1 = length dst -> off + strlen w <= lim ->
     builds s' d1 lim (off + strlen w) w2 (k d1 (off + strlen w))) ->
  builds false dst lim off (let? a := w1 in let? b := w2 in Some (a ++ b))
    (let? (ret, d, o) := o1 in if negb (GNUNET_OK =? ret) then Some (ret, d, o) else k d o).
Proof.
  intros Ho Hl H1 H2.
  destruct H1 as [w d1 off1 -> -> Hlim L T|ret d1 off1 Hr Hw L T _].
  - cbn [negb Z.eqb GNUNET_OK Pos.eqb]. change (negb (GNUNET_OK =? GNUNET_OK)) with false. cbv iota.
    assert (Hoff : off <= off + strlen w) by (unfold strlen; lia).
    specialize (H2 d1 w eq_refl L Hlim).
    destruct (k d1 (off + strlen w)) as [[[ret d2] off2]|]; [|by inversion H2].
    inversion H2 as [w' d o -> Heq Hlim2 L2' T2|r d o Hr Hw2 L2' T2 _]; subst.
    + eapply builds_ok; [done| |exact Hlim2|congruence|].
      * rewrite strlen_app. lia.
      * by rewrite T2, T, app_assoc.
    + apply builds_no; [done| |congruence| |done].
      * intros w'. destruct w2 as [w2|]; [|done]. intros [= <-]. specialize (Hw2 w2 eq_refl).
        rewrite strlen_app. lia.
      * assert (Hp : builds false dst lim off (Some w) (Some (GNUNET_OK, d1, off + strlen w)))
          by (by eapply builds_ok).
        apply builds_prefix in Hp as [_ Hp]; [|lia|lia]. rewrite <- Hp.
        by apply (take_mono _ (Z.to_nat (off + strlen w))); [unfold strlen; lia|].
  - rewrite (proj2 (Z.eqb_neq GNUNET_OK ret)) by by destruct Hr as [-> | ->].
    apply builds_no; [done| |done..]. intros w'. destruct w1 as [w1|]; [|done].
    destruct w2 as [w2|]; [|done]. intros [= <-]. specialize (Hw w1 eq_refl).
    rewrite strlen_app. pose proof (Nat2Z.is_nonneg (length w2)). unfold strlen in *. lia.
Qed.

(** A part of fixed bytes. *)
Lemma builds_store s dst lim off w :
  0 <= off -> lim <= Z.of_nat (length dst) ->
  builds s dst lim off (Some w)
    (if lim <? off + strlen w then Some (GNUNET_NO, dst, off)
     else let? d := store dst off w in Some (GNUNET_OK, d, off + strlen w)).
Proof.
  intros Ho Hl. destruct (Z.ltb_spec lim (off + strlen w)).
  - apply builds_no; [by left| |done..]. by intros w' [= <-].
  - destruct (store_spec dst off w Ho) as (d & -> & L & P & W); [lia|]. by eapply builds_ok.
Qed.

Lemma builds_store_then s dst lim off w w2 (k : list Z -> option (Z * list Z * Z)) :
  0 <= off -> lim <= Z.of_nat (length dst) ->
  (forall d1, length d1 = length dst -> builds s d1 lim (off + strlen w) w2 (k d1)) ->
  builds false dst lim off (let? b := w2 in Some (w ++ b))
    (if lim <? off + strlen w then Some (GNUNET_NO, dst, off) else let? d := store dst off w in k d).
Proof.
  intros Ho Hl Hk.
  pose proof (builds_then s s dst lim off (Some w) w2 _ (fun d _ => k d) Ho Hl
    (builds_store s dst lim off w Ho Hl)) as H.
  destruct (lim <? off + strlen w); [apply H|destruct (store dst off w); apply H];
    intros d1 w' [= <-] L _; by apply Hk.
Qed.

Lemma add_mx_spec dst lim off mx :
  0 <= off -> lim <= Z.of_nat (length dst) ->
  builds false dst lim off (wire_mx mx) (GNUNET_DNSPARSER_builder_add_mx dst lim off mx).
Proof.
  intros Ho Hl. unfold GNUNET_DNSPARSER_builder_add_mx, wire_mx.
  apply (builds_store_then true dst lim off (be_encode 2 (preference mx))); [done|done|].
  intros d1 L. apply add_name_spec; [change (strlen (be_encode 2 _)) with 2|]; lia.
Qed.

Lemma add_srv_spec dst lim off srv :
  0 <= off -> lim <= Z.of_nat (length dst) ->
  builds false dst lim off (wire_srv srv) (GNUNET_DNSPARSER_builder_add_srv dst lim off srv).
Proof.
  intros Ho Hl. unfold GNUNET_DNSPARSER_builder_add_srv, wire_srv.
  set (w := be_encode 2 (priority srv) ++ _). change sizeof_DnsSrvRecord with (strlen w).
  apply (builds_store_then true); [done|done|]. intros d1 L.
  pose proof (add_name_spec d1 lim (off + strlen w) (target srv) ltac:(unfold strlen; lia) ltac:(lia)) as H.
  destruct (GNUNET_DNSPARSER_builder_add_name _ _ _ _) as [[[ret d2] o2]|]; [|done].
  destruct (Z.eqb_spec GNUNET_OK ret) as [<-|]; exact H.
Qed.

Lemma add_soa_spec dst lim off soa :
  0 <= off -> lim <= Z.of_nat (length dst) ->
  builds false dst lim off (wire_soa soa) (GNUNET_DNSPARSER_builder_add_soa dst lim off soa).
Proof.
  intros Ho Hl.
  replace (wire_soa soa) with
    (let? a := wire_name (mname soa) in
     let? b := (let? w2 := wire_name (rname soa) in let? b := Some (soa_bytes soa) in Some (w2 ++ b)) in
     Some (a ++ b))
    by (unfold wire_soa; by destruct (wire_name (mname soa)), (wire_name (rname soa))).
  apply (builds_then true false); [done|done|by apply add_name_spec|]. intros d1 w _ L Hle.
  assert (0 <= strlen w) by (unfold strlen; lia).
  apply (builds_then true true d1 lim _ (wire_name (rname soa)) (Some (soa_bytes soa)));
    [lia|lia|apply add_name_spec; lia|]. intros d2 w' _ L2 _.
  apply (builds_store true); [unfold strlen in *; lia|lia].
Qed.

Lemma add_cert_spec padding dst lim off cert :
  0 <= off -> lim <= Z.of_nat (length dst) ->
  builds true dst lim off (wire_cert padding cert)
    (GNUNET_DNSPARSER_builder_add_cert padding dst lim off cert).
Proof.
  intros Ho Hl. unfold GNUNET_DNSPARSER_builder_add_cert, wire_cert.
  rewrite !Z.ltb_antisym, <- !negb_andb.
  destruct ((cert_type cert <=? UINT16_MAX) && _ && _); cbn [negb]; [|by apply builds_no; [right|..]].
  set (w := be_encode 2 _ ++ _). set (w2 := certificate_data cert).
  assert (Hw : strlen w = sizeof_DnsCertRecord) by done.
  assert (Hww : strlen (w ++ w2) = sizeof_DnsCertRecord + strlen w2)
    by (by rewrite <- Hw, strlen_app).
  destruct (Z.leb_spec (off + sizeof_DnsCertRecord + strlen w2) lim) as [Hle|Hgt]; cbn [negb].
  - destruct (store_spec dst off w Ho) as (d & -> & L & P & W); [unfold strlen in *; lia|].
    destruct (store_spec d (off + sizeof_DnsCertRecord) w2) as (d2 & -> & L2 & P2 & W2);
      [unfold sizeof_DnsCertRecord; lia|unfold strlen in *; lia|].
    eapply builds_ok; [done|lia|lia|congruence|]. rewrite Hw in W. by rewrite W2, W, app_assoc.
  - apply builds_no; [by left| |done..]. intros w' Hw'. apply Some_inj in Hw' as <-. lia.
Qed.

(** The union holds a member with a pointer that is not null. *)
Definition data_present (d : record_data) : bool :=
  match d with
  | data_zero | data_soa None | data_cert None | data_mx None | data_srv None => false
  | _ => true
  end.

Lemma add_data_spec padding dst lim off type d :
  0 <= off -> lim <= Z.of_nat (length dst) -> data_of_type type d = true -> data_present d = true ->
  builds false dst lim off (wire_data padding d) (add_data padding dst lim off type d).
Proof.
  intros Ho Hl Ht Hp. assert (Hweak : forall w o, builds true dst lim off w o -> builds false dst lim off w o).
  { intros w o [w' d' off' E1 E2 E3 E4 E5|ret d' off' E1 E2 E3 E4 _]; [by eapply builds_ok|by apply builds_no]. }
  unfold add_data. destruct d as [|h|[s|]|[c|]|[m|]|[s|]|raw]; try done; cbn [data_of_type] in Ht.
  - apply orb_true_iff in Ht as [[Ht|Ht]%orb_true_iff|Ht]; apply Z.eqb_eq in Ht as ->;
      apply Hweak; by apply add_name_spec.
  - apply Z.eqb_eq in Ht as ->. by apply add_soa_spec.
  - apply Z.eqb_eq in Ht as ->. apply Hweak. by apply add_cert_spec.
  - apply Z.eqb_eq in Ht as ->. by apply add_mx_spec.
  - apply Z.eqb_eq in Ht as ->. by apply add_srv_spec.
  - apply negb_true_iff in Ht. cbn [existsb] in Ht. rewrite !orb_false_iff in Ht.
    destruct Ht as (-> & -> & -> & -> & -> & -> & -> & _). cbn [orb get_raw wire_data].
    by apply (builds_store false).
Qed.

Lemma add_query_spec dst lim off q :
  0 <= off -> sizeof_DnsHeader <= lim < 2 ^ 64 -> lim <= Z.of_nat (length dst) ->
  builds true dst lim off (wire_query q) (GNUNET_DNSPARSER_builder_add_query dst lim off q).
Proof.
  unfold sizeof_DnsHeader. intros Ho Hlim Hl.
  unfold GNUNET_DNSPARSER_builder_add_query, wire_query, sizeof_DnsQueryLine.
  rewrite u64_small by (unfold is_u64; lia). set (fixed := be_encode 2 _ ++ _).
  assert (Hf : strlen fixed = 4) by done.
  destruct (add_name_spec dst (lim - 4) off (q_name q) Ho ltac:(lia))
    as [w d1 off1 -> -> Hle L T|ret d1 off1 Hr Hw L T Hs].
  - change (negb (GNUNET_OK =? GNUNET_OK)) with false. cbv iota.
    destruct (store_spec d1 (off + strlen w) fixed) as (d2 & -> & L2 & P2 & W2);
      [unfold strlen; lia|lia|].
    eapply builds_ok; [done|rewrite strlen_app; lia|lia|congruence|].
    by rewrite Hf, T, <- app_assoc in W2.
  - rewrite (proj2 (Z.eqb_neq ret GNUNET_OK)) by by destruct Hr as [-> | ->].
    apply builds_no; [done| |done..]. intros w'. destruct (wire_name (q_name q)) as [w|]; [|done].
    intros E. apply Some_inj in E as <-. specialize (Hw w eq_refl). rewrite strlen_app. lia.
Qed.

(** A gap that is filled afterwards. *)
Lemma fill_gap (a g m : nat) (d1 d2 line w : list Z) :
  length line = g -> (a + g <= m)%nat -> (m <= length d2)%nat -> length d2 = length d1 ->
  take m d2 = take (a + g) d1 ++ w -> take m (splice a line d2) = take a d1 ++ line ++ w.
Proof.
  intros Hg Hm Hl L T. unfold splice. rewrite Hg.
  assert (Ha : take a d2 = take a d1).
  { transitivity (take a (take m d2)); [rewrite take_take; f_equal; lia|].
    rewrite T, take_app_le by (rewrite length_take; lia). rewrite take_take. f_equal. lia. }
  assert (Hd : take (m - a - g) (drop (a + g) d2) = w).
  { rewrite <- (drop_app_length' (take (a + g) d1) w (a + g)) by (rewrite length_take; lia).
    rewrite <- T, skipn_firstn_comm. f_equal. lia. }
  rewrite Ha, take_app_ge by (rewrite length_take; lia). f_equal.
  rewrite length_take, Nat.min_l by lia. rewrite take_app_ge by lia. by rewrite Hg, Hd.
Qed.

(** Records that can be packed. *)
Definition record_packable (r : GNUNET_DNSPARSER_Record) : Prop :=
  data_of_type (r_type r) (r_data r) = true /\ data_present (r_data r) = true.

Lemma add_record_spec now padding dst lim off r :
  0 <= off -> sizeof_DnsHeader <= lim < 2 ^ 64 -> lim <= Z.of_nat (length dst) -> record_packable r ->
  builds true dst lim off (wire_record now padding r) (add_record now padding dst lim off r).
Proof.
  unfold sizeof_DnsHeader. intros Ho Hlim Hl [Ht Hp].
  unfold add_record, wire_record, sizeof_DnsRecordLine. rewrite u64_small by (unfold is_u64; lia).
  destruct (add_name_spec dst (lim - 10) off (r_name r) Ho ltac:(lia))
    as [w d1 off1 -> -> Hle L T|ret d1 off1 Hr Hw L T Hs].
  2: { rewrite (proj2 (Z.eqb_neq GNUNET_OK ret)) by by destruct Hr as [-> | ->].
    apply builds_no; [done| |done..]. intros w'. destruct (wire_name (r_name r)) as [w|]; [|done].
    destruct (wire_data padding (r_data r)) as [wd|]; [|done]. destruct (strlen wd <=? _); [|done].
    intros E. apply Some_inj in E as <-. specialize (Hw w eq_refl).
    rewrite !strlen_app. change (strlen (record_line now r (strlen wd))) with 10. unfold strlen in *. lia. }
  change (negb (GNUNET_OK =? GNUNET_OK)) with false. cbv iota.
  assert (Hoff1 : off <= off + strlen w) by (unfold strlen; lia). set (off1 := off + strlen w) in *.
  assert (P1 : take (Z.to_nat off) d1 = take (Z.to_nat off) dst).
  { eapply (builds_prefix true dst lim off (Some w) GNUNET_OK d1 off1); [lia|lia|].
    eapply builds_ok; [done|done|lia|done|done]. }
  assert (Hkeep : forall d, take (Z.to_nat (off1 + 10)) d = take (Z.to_nat (off1 + 10)) d1 ->
    take (Z.to_nat off) d = take (Z.to_nat off) dst).
  { intros d Hd. rewrite <- P1. by apply (take_mono _ (Z.to_nat (off1 + 10))); [lia|]. }
  pose proof (add_data_spec padding d1 lim (off1 + 10) (r_type r) (r_data r) ltac:(lia) ltac:(lia) Ht Hp)
    as Hd.
  destruct (add_data padding d1 lim (off1 + 10) (r_type r) (r_data r)) as [[[ret d2] pos]|]; [|by inversion Hd].
  pose proof Hd as [L2 P2]%builds_prefix; [|lia|lia].
  inversion Hd as [wd d o Ewd Epos Hlim2 L2' T2|rt d o Hr Hw2 L2' T2 _]; subst.
  - change (negb (GNUNET_OK =? GNUNET_OK)) with false. cbv iota. rewrite Ewd.
    replace (off1 + 10 + strlen wd - (off1 + 10)) with (strlen wd) by lia.
    destruct (Z.ltb_spec UINT16_MAX (strlen wd)) as [Hbig|Hsmall].
    { rewrite (proj2 (Z.leb_gt _ _) Hbig). apply builds_no; [by left|done|congruence|by apply Hkeep|done]. }
    rewrite (proj2 (Z.leb_le _ _) Hsmall). set (line := record_line now r (strlen wd)).
    assert (Hline : length line = 10%nat) by done.
    unfold store. rewrite (proj2 (Z.leb_le 0 off1)) by lia. rewrite Hline.
    rewrite (proj2 (Z.leb_le _ _)) by lia. cbn [andb].
    assert (0 <= strlen wd) by (unfold strlen; lia).
    eapply builds_ok; [done| |exact Hlim2|rewrite length_splice; [congruence|lia]|].
    + rewrite !strlen_app. change (strlen line) with 10. lia.
    + rewrite (fill_gap (Z.to_nat off1) 10 _ d1 d2 line wd); [|done|lia|lia|done|].
      * by rewrite T, <- app_assoc.
      * replace (Z.to_nat off1 + 10)%nat with (Z.to_nat (off1 + 10)) by lia. exact T2.
  - rewrite (proj2 (Z.eqb_neq GNUNET_OK ret)) by by destruct Hr as [-> | ->].
    apply builds_no; [by left| |congruence|by apply Hkeep|done]. intros w'.
    destruct (wire_data padding (r_data r)) as [wd|]; [|done]. destruct (strlen wd <=? _); [|done].
    intros E. apply Some_inj in E as <-. specialize (Hw2 wd eq_refl). rewrite !strlen_app.
    change (strlen (record_line now r (strlen wd))) with 10. lia.
Qed.

End Builders.

(** ** Packets *)

(** The outcome of writing an array of entries whose bytes are [w]. *)
Inductive packs (dst : list Z) (lim off : Z) (w : option (list Z))
  : option (Z * list Z * Z * option Z) -> Prop :=
  | packs_ok w' dst' off' :
      w = Some w' -> off' = off + strlen w' -> off' <= lim -> length dst' = length dst ->
      take (Z.to_nat off') dst' = take (Z.to_nat off) dst ++ w' ->
      packs dst lim off w (Some (GNUNET_OK, dst', off', None))
  | packs_no ret dst' off' c :
      ret = GNUNET_NO \/ ret = GNUNET_SYSERR ->
      (forall w', w = Some w' -> lim < off + strlen w') -> length dst' = length dst ->
      off <= off' <= lim -> packs dst lim off w (Some (ret, dst', off', c)).

Section Packing.
Context {idna : Idna}.
Implicit Types dst : list Z.

Lemma strlen_nonneg (w : list Z) : 0 <= strlen w.
Proof. unfold strlen. lia. Qed.

Lemma pack_array_spec {A} (add : list Z -> Z -> A -> option (Z * list Z * Z)) wire lim l dst off i :
  (forall dst' off x, x ∈ l -> length dst' = length dst -> 0 <= off ->
     builds true dst' lim off (wire x) (add dst' off x)) ->
  0 <= off <= lim -> packs dst lim off (wires wire l) (pack_array add dst off i l).
Proof.
  revert dst off i. induction l as [|x l IH]; intros dst off i Hadd Ho.
  { eapply packs_ok; [done|unfold strlen; cbn [length]; lia|lia|done|]. by rewrite app_nil_r. }
  cbn [pack_array wires].
  destruct (Hadd dst off x ltac:(left) eq_refl ltac:(lia)) as [w d1 off1 -> -> Hle L T|ret d1 off1 Hr Hw L T Hs].
  - change (GNUNET_SYSERR =? GNUNET_OK) with false. change (GNUNET_NO =? GNUNET_OK) with false. cbv iota.
    pose proof (strlen_nonneg w).
    specialize (IH d1 (off + strlen w) (i + 1)). rewrite L in IH.
    destruct IH as [ws d2 off2 -> -> Hle2 L2 T2|ret d2 off2 c Hr Hw L2 Hoff].
    + intros d' o y Hy. apply Hadd. by right.
    + lia.
    + eapply packs_ok; [done|rewrite strlen_app; lia|done|congruence|]. by rewrite T2, T, app_assoc.
    + apply packs_no; [done| |congruence|lia]. intros w'. destruct (wires wire l) as [ws|]; [|done].
      intros E. apply Some_inj in E as <-. specialize (Hw ws eq_refl). rewrite strlen_app. lia.
  - rewrite (Hs eq_refl).
    assert (Hno : forall w', (let? w := wire x in let? ws := wires wire l in Some (w ++ ws)) = Some w' ->
      lim < off + strlen w').
    { intros w'. destruct (wire x) as [w|]; [|done]. destruct (wires wire l) as [ws|]; [|done].
      intros E. apply Some_inj in E as <-. specialize (Hw w eq_refl). rewrite strlen_app.
      pose proof (strlen_nonneg ws). lia. }
    destruct Hr as [-> | ->]; cbn; (apply packs_no; [tauto|done|done|lia]).
Qed.

(** The bytes of some arrays, if all have bytes. *)
Fixpoint joined (ws : list (option (list Z))) : option (list Z) :=
  match ws with
  | [] => Some []
  | w :: ws => let? a := w in let? b := joined ws in Some (a ++ b)
  end.

Lemma joined_snoc ws w :
  joined (ws ++ [w]) = let? a := joined ws in let? b := w in Some (a ++ b).
Proof.
  induction ws as [|x ws IH]; cbn [app joined]; [by destruct w; cbn; rewrite ?app_nil_r|].
  rewrite IH. destruct x as [x|]; [|done]. destruct (joined ws) as [a|]; [|done].
  destruct w; [|done]. by rewrite app_assoc.
Qed.

(** Those bytes do not fit. *)
Definition too_long (max : Z) (ws : list (option (list Z))) : Prop :=
  forall acc, joined ws = Some acc -> max < sizeof_DnsHeader + strlen acc.

Lemma too_long_snoc max ws w : too_long max ws -> too_long max (ws ++ [w]).
Proof.
  intros H acc. rewrite joined_snoc. destruct (joined ws) as [a|] eqn:E; [|done].
  destruct w as [w|]; [|done]. intros Ha. apply Some_inj in Ha as <-. specialize (H a E).
  rewrite strlen_app. pose proof (strlen_nonneg w). lia.
Qed.

(** The array after the sections [ws] have been written or have failed. *)
Definition so_far (max : Z) (ws : list (option (list Z))) (tmp : list Z) (off : Z) (failed : bool)
  : Prop :=
  Z.of_nat (length tmp) = max /\ sizeof_DnsHeader <= off <= max
  /\ if failed then too_long max ws
     else exists acc, joined ws = Some acc /\ off = sizeof_DnsHeader + strlen acc
            /\ drop 12 (take (Z.to_nat off) tmp) = acc.

Lemma so_far_step max ws tmp off failed w o :
  so_far max ws tmp off failed -> packs tmp max off w o ->
  exists ret tmp' off' c, o = Some (ret, tmp', off', c)
    /\ (ret = GNUNET_OK /\ c = None \/ ret = GNUNET_NO \/ ret = GNUNET_SYSERR)
    /\ so_far max (ws ++ [w]) tmp' off' (failed || negb (GNUNET_OK =? ret)).
Proof.
  intros (L & Ho & Hf) [w' d off' -> -> Hle L' T|ret d off' c Hr Hw L' Hoff].
  - do 4 eexists. split; [done|]. split; [by left|]. split; [lia|].
    pose proof (strlen_nonneg w'). split; [lia|]. rewrite orb_false_r. destruct failed; [by apply too_long_snoc|].
    destruct Hf as (acc & Ha & -> & Hacc). exists (acc ++ w'). rewrite joined_snoc, Ha.
    split; [done|]. rewrite strlen_app. split; [lia|]. rewrite T, drop_app_le; [by rewrite Hacc|].
    rewrite length_take. unfold sizeof_DnsHeader in *. lia.
  - do 4 eexists. split; [done|]. split; [tauto|]. split; [lia|]. split; [lia|].
    replace (failed || negb (GNUNET_OK =? ret)) with true
      by (destruct failed, Hr as [-> | ->]; done).
    destruct failed; [by apply too_long_snoc|]. destruct Hf as (acc & Ha & -> & Hacc).
    intros a. rewrite joined_snoc, Ha. destruct w as [w|]; [|done]. intros E. apply Some_inj in E as <-.
    specialize (Hw w eq_refl). rewrite strlen_app. lia.
Qed.

(** Packets whose records can be packed and counted. *)
Record packet_packable (p : GNUNET_DNSPARSER_Packet) : Prop := {
  packable_records : Forall record_packable (all_records p);
  packable_counts : Z.of_nat (length (queries p)) <= UINT16_MAX
    /\ Z.of_nat (length (answers p)) <= UINT16_MAX
    /\ Z.of_nat (length (authority_records p)) <= UINT16_MAX
    /\ Z.of_nat (length (additional_records p)) <= UINT16_MAX;
}.

(** What [GNUNET_DNSPARSER_pack] returns. *)
Definition pack_result (max : Z) (w : option (list Z)) (o : option (Z * option (list Z))) : Prop :=
  match o with
  | None => False
  | Some (ret, buf) =>
      (exists w', w = Some w' /\ strlen w' <= max /\ ret = GNUNET_OK /\ buf = Some w')
      \/ ((forall w', w = Some w' -> max < strlen w')
          /\ (ret = GNUNET_SYSERR /\ buf = None
              \/ ret = GNUNET_NO /\ exists b, buf = Some b /\ sizeof_DnsHeader <= strlen b <= max
                   /\ Z.testbit (nth 2 b 0) 1 = true))
  end.

Lemma length_header id fl a b c d : length (header_bytes id fl a b c d) = 12%nat.
Proof. done. Qed.

Lemma pack_finish tmp off hdr :
  length hdr = 12%nat -> sizeof_DnsHeader <= off <= Z.of_nat (length tmp) ->
  (let? tmp := store tmp 0 hdr in load tmp 0 off) = Some (hdr ++ drop 12 (take (Z.to_nat off) tmp)).
Proof.
  unfold sizeof_DnsHeader. intros Hh Ho. unfold store. rewrite Hh.
  rewrite (proj2 (Z.leb_le (0 + Z.of_nat 12) _)) by lia. cbn [Z.leb Z.compare andb]. unfold load.
  rewrite length_splice by (rewrite Hh; lia). rewrite (proj2 (Z.leb_le (0 + off) _)) by lia. cbn [Z.leb Z.compare andb].
  f_equal. unfold slice, splice. rewrite Hh. change (Z.to_nat 0) with 0%nat.
  rewrite drop_0, take_0. cbn [app plus]. rewrite take_app_ge by lia. f_equal.
  by rewrite Hh, skipn_firstn_comm.
Qed.

(** The end of [GNUNET_DNSPARSER_pack]. *)
Lemma pack_end now padding p max tmp off c1 c2 c3 c4 (trc : bool) :
  sizeof_DnsHeader <= off <= max -> Z.of_nat (length tmp) = max ->
  (trc = false -> c1 = None /\ c2 = None /\ c3 = None /\ c4 = None
     /\ exists body, drop 12 (take (Z.to_nat off) tmp) = body /\ strlen body = off - 12
       /\ wire_packet now padding p = Some
            (header_bytes (packet_id p) (flags p) (Z.of_nat (length (queries p)))
              (Z.of_nat (length (answers p))) (Z.of_nat (length (authority_records p)))
              (Z.of_nat (length (additional_records p))) ++ body)) ->
  (trc = true -> forall w', wire_packet now padding p = Some w' -> max < strlen w') ->
  pack_result max (wire_packet now padding p)
    (let? tmp := store tmp 0
       (header_bytes (packet_id p) (if trc then Z.lor (flags p) 2 else flags p)
          (default (Z.of_nat (length (queries p))) c1) (default (Z.of_nat (length (answers p))) c2)
          (default (Z.of_nat (length (authority_records p))) c3)
          (default (Z.of_nat (length (additional_records p))) c4)) in
     let? buf := load tmp 0 off in
     Some (if trc then GNUNET_NO else GNUNET_OK, Some buf)).
Proof.
  intros Ho Hl Hf Ht.
  pose proof (fun hdr H => pack_finish tmp off hdr H ltac:(lia)) as Hfin.
  specialize (Hfin _ (length_header (packet_id p) (if trc then Z.lor (flags p) 2 else flags p)
    (default (Z.of_nat (length (queries p))) c1) (default (Z.of_nat (length (answers p))) c2)
    (default (Z.of_nat (length (authority_records p))) c3)
    (default (Z.of_nat (length (additional_records p))) c4))).
  destruct (store tmp 0 _) as [tmp'|]; [|done]. rewrite Hfin. destruct trc; cbn [pack_result].
  - right. split; [by apply Ht|]. right. split; [done|]. eexists. split; [done|]. split.
    + rewrite strlen_app. unfold strlen. rewrite length_header, length_drop, length_take.
      unfold sizeof_DnsHeader in *. lia.
    + unfold header_bytes. cbn [le_encode app nth]. rewrite (Z.mod_pow2_bits_low _ 8) by lia.
      by rewrite Z.lor_spec, orb_true_r.
  - destruct (Hf eq_refl) as (-> & -> & -> & -> & body & Eb & Hb & ->). cbn [default]. left.
    eexists. split; [done|]. rewrite Eb. split; [|done].
    rewrite strlen_app, Hb. change (strlen (header_bytes _ _ _ _ _ _)) with 12. lia.
Qed.

Lemma wire_packet_joined now padding p :
  wire_packet now padding p =
  let? body := joined [wires wire_query (queries p); wires (wire_record now padding) (answers p);
                       wires (wire_record now padding) (authority_records p);
                       wires (wire_record now padding) (additional_records p)] in
  Some (header_bytes (packet_id p) (flags p) (Z.of_nat (length (queries p)))
          (Z.of_nat (length (answers p))) (Z.of_nat (length (authority_records p)))
          (Z.of_nat (length (additional_records p))) ++ body).
Proof.
  unfold wire_packet. cbn [joined]. repeat case_match; simplify_eq; by rewrite ?app_nil_r.
Qed.

Lemma too_long_packet now padding p max :
  too_long max [wires wire_query (queries p); wires (wire_record now padding) (answers p);
                wires (wire_record now padding) (authority_records p);
                wires (wire_record now padding) (additional_records p)] ->
  forall w', wire_packet now padding p = Some w' -> max < strlen w'.
Proof.
  intros H w'. rewrite wire_packet_joined. destruct (joined _) as [body|] eqn:E; [|done].
  intros Hw. apply Some_inj in Hw as <-. specialize (H body E). rewrite strlen_app.
  change (strlen (header_bytes _ _ _ _ _ _)) with 12. unfold sizeof_DnsHeader in H. lia.
Qed.

Lemma pack_spec now padding tmp p max :
  packet_packable p -> sizeof_DnsHeader <= max < 2 ^ 16 -> Z.of_nat (length tmp) = max ->
  pack_result max (wire_packet now padding p) (GNUNET_DNSPARSER_pack now padding tmp p max).
Proof.
  intros [Hr (N1 & N2 & N3 & N4)] Hmax Hl. unfold all_records in Hr.
  rewrite !Forall_app, !Forall_forall in Hr. destruct Hr as (R2 & R3 & R4).
  unfold GNUNET_DNSPARSER_pack.
  rewrite (proj2 (Z.ltb_ge _ _) N1), (proj2 (Z.ltb_ge _ _) N2), (proj2 (Z.ltb_ge _ _) N3),
    (proj2 (Z.ltb_ge _ _) N4). cbn [orb].
  assert (Hrec : forall l : list GNUNET_DNSPARSER_Record, (forall r, r ∈ l -> record_packable r) ->
    forall t o, Z.of_nat (length t) = max -> sizeof_DnsHeader <= o <= max ->
    packs t max o (wires (wire_record now padding) l)
      (pack_array (fun t o r => add_record now padding t max o r) t o 0 l)).
  { intros l Hlr t o Ht Ho. apply pack_array_spec; [|unfold sizeof_DnsHeader in *; lia].
    intros t' o' r Hin Ht' Ho'. apply add_record_spec; [done|lia|lia|by apply Hlr]. }
  assert (H0 : so_far max [] tmp sizeof_DnsHeader false).
  { split; [done|]. split; [lia|]. exists []. split; [done|]. split; [done|].
    by rewrite drop_ge by (rewrite length_take; unfold sizeof_DnsHeader; lia). }
  assert (Hsys : forall ws ws', too_long max ws ->
    ws ++ ws' = [wires wire_query (queries p); wires (wire_record now padding) (answers p);
                 wires (wire_record now padding) (authority_records p);
                 wires (wire_record now padding) (additional_records p)] ->
    pack_result max (wire_packet now padding p) (Some (GNUNET_SYSERR, None))).
  { intros ws ws' Hlong E. right. split; [|by left]. apply too_long_packet. rewrite <- E.
    clear E. revert ws Hlong. induction ws' as [|w ws' IH]; intros ws Hlong; [by rewrite app_nil_r|].
    rewrite (cons_middle w ws ws'), app_assoc. by apply IH, too_long_snoc. }
  destruct (so_far_step max [] tmp sizeof_DnsHeader false (wires wire_query (queries p))
    (pack_array (fun t o q => GNUNET_DNSPARSER_builder_add_query t max o q) tmp sizeof_DnsHeader 0 (queries p)) H0)
    as (r1 & t1 & o1 & c1 & -> & C1 & H1).
  { apply pack_array_spec; [|unfold sizeof_DnsHeader in *; lia].
    intros t' o' q _ Ht' Ho'. apply add_query_spec; [done|lia|lia]. }
  destruct (Z.eqb_spec GNUNET_SYSERR r1) as [<-|S1]; [by eapply (Hsys [_]); [apply H1|]|].
  destruct (so_far_step _ _ _ _ _ _ _ H1 (Hrec (answers p) R2 t1 o1 (proj1 H1) (proj1 (proj2 H1))))
    as (r2 & t2 & o2 & c2 & -> & C2 & H2).
  destruct (Z.eqb_spec GNUNET_SYSERR r2) as [<-|S2];
    [rewrite orb_true_r in H2; by eapply (Hsys [_; _]); [apply H2|]|].
  destruct (so_far_step _ _ _ _ _ _ _ H2 (Hrec (authority_records p) R3 t2 o2 (proj1 H2) (proj1 (proj2 H2))))
    as (r3 & t3 & o3 & c3 & -> & C3 & H3).
  destruct (Z.eqb_spec GNUNET_SYSERR r3) as [<-|S3];
    [rewrite orb_true_r in H3; by eapply (Hsys [_; _; _]); [apply H3|]|].
  destruct (so_far_step _ _ _ _ _ _ _ H3 (Hrec (additional_records p) R4 t3 o3 (proj1 H3) (proj1 (proj2 H3))))
    as (r4 & t4 & o4 & c4 & -> & C4 & H4).
  destruct (Z.eqb_spec GNUNET_SYSERR r4) as [<-|S4];
    [rewrite orb_true_r in H4; by eapply (Hsys [_; _; _; _]); [apply H4|]|].
  clear H0 H1 H2 H3 Hrec Hsys. cbn [app] in H4.
  replace (_ || negb (GNUNET_OK =? r4)) with (existsb (Z.eqb GNUNET_NO) [r1; r2; r3; r4]) in H4.
  2: { destruct C1 as [[-> _]|[-> | ->]], C2 as [[-> _]|[-> | ->]], C3 as [[-> _]|[-> | ->]],
         C4 as [[-> _]|[-> | ->]]; done. }
  destruct H4 as (L4 & O4 & H4). apply pack_end; [done|done| |].
  - intros Hf. rewrite Hf in H4. cbn [existsb] in Hf. rewrite !orb_false_iff, !Z.eqb_neq in Hf.
    destruct Hf as (F1 & F2 & F3 & F4 & _).
    assert (c1 = None /\ c2 = None /\ c3 = None /\ c4 = None) as (-> & -> & -> & ->)
      by (by destruct C1 as [[]|[]], C2 as [[]|[]], C3 as [[]|[]], C4 as [[]|[]]).
    split_and!; try done. destruct H4 as (acc & Ha & Ho & Hacc). exists acc.
    split; [done|]. split; [unfold sizeof_DnsHeader in Ho; lia|].
    by rewrite wire_packet_joined, Ha.
  - intros Ht. rewrite Ht in H4. by apply too_long_packet.
Qed.

End Packing.

(** ** Parsing inverts the wire format *)

(** The bytes [w] are at offset [off]. *)
Definition starts (mem : list Z) (off : Z) (w : list Z) : Prop :=
  exists pre post, mem = pre ++ w ++ post /\ strlen pre = off.

(** A name comes back: what the parser makes of the labels of its ASCII form. *)
Definition back `{Idna} (l : list Z) : list Z :=
  match idna_to_unicode_8z8z l with None => l | Some u => u end.

Definition name_back `{Idna} (a : list Z) : list Z :=
  eat_trailing (concat (map (fun l => back l ++ [char_dot]) (labels a))).

Definition name_stable `{Idna} (n : dns_name) : Prop :=
  forall s a, n = Some s -> idna_to_ascii_8z s = Some a -> Forall (fun b => b <> 0) a /\ name_back a = s.

Section Inverse.
Context {idna : Idna}.
Implicit Types mem w : list Z.

Lemma starts_app mem off w w' :
  starts mem off (w ++ w') -> starts mem off w /\ starts mem (off + strlen w) w'.
Proof.
  intros (pre & post & -> & <-). split.
  - exists pre, (w' ++ post). by rewrite <- app_assoc.
  - exists (pre ++ w), post. by rewrite strlen_app, <- !app_assoc.
Qed.

Lemma starts_cons mem off b w :
  starts mem off (b :: w) -> mem !! Z.to_nat off = Some b /\ starts mem (off + 1) w.
Proof.
  intros H. pose proof (starts_app mem off [b] w H) as [_ H']. split; [|done].
  destruct H as (pre & post & -> & <-). unfold strlen. by rewrite Nat2Z.id, lookup_app_r, Nat.sub_diag by done.
Qed.

Lemma starts_load mem off w n : starts mem off w -> n = strlen w -> load mem off n = Some w.
Proof.
  intros (pre & post & -> & <-) ->. unfold load, strlen. rewrite !length_app.
  rewrite (proj2 (Z.leb_le 0 _)), (proj2 (Z.leb_le _ _)) by lia. cbn [andb]. f_equal. rewrite !Nat2Z.id.
  unfold slice. rewrite drop_app_length'; [|done]. by apply take_app_length'.
Qed.

Lemma starts_nonneg mem off w : starts mem off w -> 0 <= off.
Proof. intros (pre & post & _ & <-). apply strlen_nonneg. Qed.

Lemma cstr_id l : Forall (fun b => b <> 0) l -> cstr l = l.
Proof.
  induction 1 as [|b l Hb _ IH]; [done|]. cbn. rewrite (proj2 (Z.eqb_neq b 0)) by done. by rewrite IH.
Qed.

Lemma labels_nonzero a : Forall (fun b => b <> 0) a -> Forall (Forall (fun b => b <> 0)) (labels a).
Proof.
  induction 1 as [|b a Hb _ IH]; cbn [labels]; [by repeat constructor|].
  destruct (b =? char_dot); [by constructor|]. destruct (labels a) as [|l ls]; [by repeat constructor|].
  apply Forall_cons in IH as [Hl Hls]. constructor; [by constructor|done].
Qed.

Lemma parse_labels ls fuel mem len off depth ret :
  forallb label_ok ls = true -> Forall (Forall (fun b => b <> 0)) ls -> (length ls < fuel)%nat ->
  starts mem off (concat (map wire_label ls) ++ [0]) ->
  off + strlen (concat (map wire_label ls) ++ [0]) <= len ->
  parse_name_loop fuel mem len off depth ret
  = Some (Some (eat_trailing (ret ++ concat (map (fun l => back l ++ [char_dot]) ls))),
          off + strlen (concat (map wire_label ls) ++ [0])).
Proof.
  revert fuel off ret. induction ls as [|l ls IH]; intros fuel off ret Hok Hnz Hf Hs Hle;
    (destruct fuel as [|fuel]; [cbn in Hf; lia|]); cbn [parse_name_loop].
  - cbn [map concat app] in *. apply starts_cons in Hs as [-> _]. change (strlen [0]) with 1 in *.
    rewrite (proj2 (Z.leb_gt len off)) by lia. by rewrite app_nil_r.
  - cbn [forallb] in Hok. apply andb_true_iff in Hok as [Hl Hok]. apply Forall_cons in Hnz as [Hln Hnz].
    cbn [map concat] in *. rewrite <- (app_assoc (wire_label l)) in *. set (rest := concat (map wire_label ls) ++ [0]) in *.
    assert (Hlen : strlen (wire_label l ++ rest) = 1 + strlen l + strlen rest)
      by (rewrite strlen_app; unfold wire_label, strlen; cbn [length]; lia).
    pose proof (strlen_nonneg rest). apply starts_app in Hs as [Hs1 Hs2].
    apply starts_cons in Hs1 as [-> Hs1].
    unfold label_ok in Hl. apply andb_true_iff in Hl as [Hl1%Z.ltb_lt Hl2%Z.ltb_lt].
    rewrite (proj2 (Z.leb_gt len off)), (proj2 (Z.eqb_neq 0 _)), (proj2 (Z.ltb_lt _ 64)),
      (proj2 (Z.ltb_ge len _)) by lia.
    rewrite (starts_load mem (off + 1) l) by done. rewrite (cstr_id l Hln).
    replace (match idna_to_unicode_8z8z l with
             | Some utf8 => ret ++ utf8 ++ [char_dot] | None => ret ++ l ++ [char_dot] end)
      with (ret ++ back l ++ [char_dot]) by (unfold back; by destruct (idna_to_unicode_8z8z l)).
    replace (strlen (wire_label l)) with (1 + strlen l) in Hs2
      by (unfold wire_label, strlen; cbn [length]; lia). rewrite Z.add_assoc in Hs2.
    rewrite IH; [|done|done|cbn in Hf; lia|exact Hs2|fold rest; lia]. fold rest. rewrite Hlen.
    f_equal. f_equal; [|lia]. by rewrite <- !app_assoc.
Qed.

Lemma parse_name_inverse mem len off n w :
  wire_name n = Some w -> name_stable n -> starts mem off w -> off + strlen w <= len ->
  GNUNET_DNSPARSER_parse_name mem len off = Some (n, off + strlen w).
Proof.
  unfold wire_name. destruct n as [n|]; [|done]. destruct (idna_to_ascii_8z n) as [a|] eqn:Ea; [|done].
  destruct (forallb label_ok (labels a)) eqn:Hok; [|done]. intros E Hst Hs Hle.
  apply Some_inj in E as <-. destruct (Hst n a eq_refl Ea) as [Hnz Hb].
  unfold GNUNET_DNSPARSER_parse_name. rewrite (parse_labels (labels a)); [|done|by apply labels_nonzero| |done|done].
  - by rewrite app_nil_l, <- Hb at 1.
  - pose proof (starts_nonneg _ _ _ Hs). rewrite strlen_app in Hle. change (strlen [0]) with 1 in Hle.
    assert (Hc : Z.of_nat (length (labels a)) <= strlen (concat (map wire_label (labels a)))).
    { generalize (labels a). intros ls. induction ls as [|l ls IH]; [done|].
      cbn [map concat]. rewrite strlen_app. unfold wire_label, strlen in *. cbn [length]. lia. }
    unfold name_fuel. lia.
Qed.

Lemma parse_mx_inverse mem len off mx w :
  is_u16 (preference mx) -> name_stable (mxhost mx) -> wire_mx mx = Some w ->
  starts mem off w -> off + strlen w <= len ->
  GNUNET_DNSPARSER_parse_mx mem len off = Some (Some mx, off + strlen w).
Proof.
  unfold wire_mx. intros Hp Hst. destruct (wire_name (mxhost mx)) as [wn|] eqn:En; [|done].
  intros E Hs Hle. apply Some_inj in E as <-. apply starts_app in Hs as [Hs1 Hs2].
  rewrite strlen_app in *. change (strlen (be_encode 2 (preference mx))) with 2 in *.
  pose proof (strlen_nonneg wn). unfold GNUNET_DNSPARSER_parse_mx.
  rewrite (proj2 (Z.ltb_ge _ _)) by lia. rewrite (starts_load _ _ _ 2 Hs1) by done.
  rewrite (parse_name_inverse _ _ _ _ _ En Hst Hs2) by lia.
  pose proof (rd16_field (preference mx) [] [] 0 eq_refl Hp) as Hr. rewrite app_nil_r in Hr. cbn [app] in Hr.
  rewrite Hr, Z.add_assoc. destruct mx as [pr [n|]]; [done|by cbn in En].
Qed.

Lemma parse_srv_inverse mem len off srv w :
  is_u16 (priority srv) -> is_u16 (weight srv) -> is_u16 (port srv) -> name_stable (target srv) ->
  wire_srv srv = Some w -> starts mem off w -> off + strlen w <= len ->
  GNUNET_DNSPARSER_parse_srv mem len off = Some (Some srv, off + strlen w).
Proof.
  unfold wire_srv. intros Hp Hw Ho Hst. destruct (wire_name (target srv)) as [wn|] eqn:En; [|done].
  intros E Hs Hle. apply Some_inj in E as <-. set (h := be_encode 2 (priority srv) ++ _) in *.
  apply starts_app in Hs as [Hs1 Hs2]. rewrite strlen_app in *. change (strlen h) with 6 in *.
  pose proof (strlen_nonneg wn). unfold GNUNET_DNSPARSER_parse_srv, sizeof_DnsSrvRecord.
  rewrite (proj2 (Z.ltb_ge _ _)) by lia. rewrite (starts_load _ _ _ 6 Hs1) by done.
  rewrite (parse_name_inverse _ _ _ _ _ En Hst Hs2) by lia.
  pose proof (rd16_field (priority srv) [] (be_encode 2 (weight srv) ++ be_encode 2 (port srv)) 0 eq_refl Hp) as H1.
  pose proof (rd16_field (weight srv) (be_encode 2 (priority srv)) (be_encode 2 (port srv)) 2 eq_refl Hw) as H2.
  pose proof (rd16_field (port srv) (be_encode 2 (priority srv) ++ be_encode 2 (weight srv)) [] 4 eq_refl Ho) as H3.
  rewrite app_nil_r, <- app_assoc in H3. fold h in H2, H3. cbn [app] in H1. fold h in H1.
  rewrite H1, H2, H3, Z.add_assoc. destruct srv as [[n|] a b c]; [done|by cbn in En].
Qed.

(** The numbers of a zone. *)
Definition soa_fits (s : GNUNET_DNSPARSER_SoaRecord) : Prop :=
  is_u32 (serial s) /\ is_u32 (refresh s) /\ is_u32 (retry s) /\ is_u32 (expire s)
  /\ is_u32 (minimum_ttl s).

Lemma soa_bytes_inverse s :
  soa_fits s -> rd32 0 (soa_bytes s) = serial s /\ rd32 4 (soa_bytes s) = refresh s
    /\ rd32 8 (soa_bytes s) = retry s /\ rd32 12 (soa_bytes s) = expire s
    /\ rd32 16 (soa_bytes s) = minimum_ttl s.
Proof.
  intros (H1 & H2 & H3 & H4 & H5). unfold soa_bytes.
  set (a := be_encode 4 (serial s)). set (b := be_encode 4 (refresh s)). set (c := be_encode 4 (retry s)).
  set (d := be_encode 4 (expire s)). set (e := be_encode 4 (minimum_ttl s)). split_and!.
  - by apply (rd32_field _ [] (b ++ c ++ d ++ e)).
  - by apply (rd32_field _ a (c ++ d ++ e)).
  - by apply (rd32_field _ (a ++ b) (d ++ e)).
  - by apply (rd32_field _ (a ++ b ++ c) e).
  - by apply (rd32_field _ (a ++ b ++ c ++ d) []).
Qed.

Lemma parse_soa_inverse mem len off soa w :
  soa_fits soa -> name_stable (mname soa) -> name_stable (rname soa) ->
  wire_soa soa = Some w -> starts mem off w -> off + strlen w <= len ->
  GNUNET_DNSPARSER_parse_soa mem len off = Some (Some soa, off + strlen w).
Proof.
  unfold wire_soa. intros Hf St1 St2. destruct (wire_name (mname soa)) as [w1|] eqn:E1; [|done].
  destruct (wire_name (rname soa)) as [w2|] eqn:E2; [|done]. intros E Hs Hle. apply Some_inj in E as <-.
  apply starts_app in Hs as [Hs1 Hs2]. apply starts_app in Hs2 as [Hs2 Hs3]. rewrite !strlen_app in *.
  change (strlen (soa_bytes soa)) with 20 in *. pose proof (strlen_nonneg w1). pose proof (strlen_nonneg w2).
  unfold GNUNET_DNSPARSER_parse_soa, sizeof_DnsSoaRecord.
  rewrite (parse_name_inverse _ _ _ _ _ E1 St1 Hs1) by lia.
  rewrite (parse_name_inverse _ _ _ _ _ E2 St2 Hs2) by lia.
  destruct (soa_bytes_inverse soa Hf) as (R1 & R2 & R3 & R4 & R5).
  rewrite (proj2 (Z.ltb_ge _ _)) by lia. rewrite (starts_load _ _ _ 20 Hs3) by done.
  rewrite R1, R2, R3, R4, R5, !Z.add_assoc.
  destruct soa as [[n1|] [n2|] a b c d e]; try done; by cbn in E1, E2.
Qed.

(** Data whose numbers have their widths and whose names come back. *)
Definition data_fits (d : record_data) : Prop :=
  match d with
  | data_hostname h => name_stable h
  | data_soa (Some s) => soa_fits s /\ name_stable (mname s) /\ name_stable (rname s)
  | data_mx (Some m) => is_u16 (preference m) /\ name_stable (mxhost m)
  | data_srv (Some s) => is_u16 (priority s) /\ is_u16 (weight s) /\ is_u16 (port s)
      /\ name_stable (target s)
  | _ => True
  end.

Lemma parse_data_inverse padding mem len off type d w :
  data_of_type type d = true -> data_fits d -> type <> GNUNET_DNSPARSER_TYPE_CERT ->
  wire_data padding d = Some w -> starts mem off w -> off + strlen w <= len ->
  parse_data mem len off type (strlen w) = Some (GNUNET_OK, off + strlen w, d).
Proof.
  intros Ht Hf Hn Hw Hs Hle. unfold parse_data.
  destruct d as [|h|[s|]|[c|]|[m|]|[s|]|raw]; try done; cbn [data_of_type wire_data data_fits] in *.
  - rewrite Ht, (parse_name_inverse _ _ _ _ _ Hw Hf Hs Hle), Z.eqb_refl.
    destruct h; [done|by cbn in Hw].
  - apply Z.eqb_eq in Ht as ->. destruct Hf as (F & S1 & S2).
    cbn. by rewrite (parse_soa_inverse _ _ _ _ _ F S1 S2 Hw Hs Hle), Z.eqb_refl.
  - by apply Z.eqb_eq in Ht.
  - apply Z.eqb_eq in Ht as ->. destruct Hf as (F & S1).
    cbn. by rewrite (parse_mx_inverse _ _ _ _ _ F S1 Hw Hs Hle), Z.eqb_refl.
  - apply Z.eqb_eq in Ht as ->. destruct Hf as (F1 & F2 & F3 & S1).
    cbn. by rewrite (parse_srv_inverse _ _ _ _ _ F1 F2 F3 S1 Hw Hs Hle), Z.eqb_refl.
  - apply negb_true_iff in Ht. cbn [existsb] in Ht. rewrite !orb_false_iff in Ht.
    destruct Ht as (-> & -> & -> & -> & _ & -> & -> & _). cbn [orb]. apply Some_inj in Hw as ->.
    by rewrite (starts_load _ _ _ _ Hs).
Qed.

Definition query_fits (q : GNUNET_DNSPARSER_Query) : Prop :=
  is_u16 (q_type q) /\ is_u16 (q_dns_traffic_class q) /\ name_stable (q_name q).

Lemma parse_query_inverse mem len off q w :
  query_fits q -> wire_query q = Some w -> starts mem off w -> off + strlen w <= len ->
  GNUNET_DNSPARSER_parse_query mem len off zero_query = Some (GNUNET_OK, off + strlen w, q).
Proof.
  intros (Ht & Hc & Hst). unfold wire_query. destruct (wire_name (q_name q)) as [wn|] eqn:En; [|done].
  intros E Hs Hle. apply Some_inj in E as <-. apply starts_app in Hs as [Hs1 Hs2].
  rewrite strlen_app in *. set (h := be_encode 2 (q_type q) ++ _) in *. change (strlen h) with 4 in *.
  unfold GNUNET_DNSPARSER_parse_query, sizeof_DnsQueryLine.
  rewrite (parse_name_inverse _ _ _ _ _ En Hst Hs1) by lia.
  destruct q as [[n|] ty c]; [|by cbn in En]. cbn [q_type q_dns_traffic_class q_name] in *.
  rewrite (proj2 (Z.ltb_ge _ _)) by lia. rewrite (starts_load _ _ _ 4 Hs2) by done.
  pose proof (rd16_field ty [] (be_encode 2 c) 0 eq_refl Ht) as H1.
  pose proof (rd16_field c (be_encode 2 ty) [] 2 eq_refl Hc) as H2.
  rewrite app_nil_r in H2. cbn [app] in H1. fold h in H1, H2. by rewrite H1, H2, Z.add_assoc.
Qed.

(** A record as it arrives at time [now'] when it was packed at time [now]: the
    expiration time has been rounded to seconds and taken modulo 2^32. *)
Definition received (now now' : GNUNET_TIME_Absolute) (r : GNUNET_DNSPARSER_Record)
  : GNUNET_DNSPARSER_Record :=
  mk_record (r_name r) (r_data r)
    (GNUNET_TIME_relative_to_absolute now'
       (GNUNET_TIME_relative_multiply GNUNET_TIME_UNIT_SECONDS
          (u32 (rel_value_us (GNUNET_TIME_absolute_get_remaining now (expiration_time r)) / 1000 / 1000))))
    (r_type r) (r_dns_traffic_class r).

Definition record_fits (r : GNUNET_DNSPARSER_Record) : Prop :=
  is_u16 (r_type r) /\ is_u16 (r_dns_traffic_class r) /\ r_type r <> GNUNET_DNSPARSER_TYPE_CERT
  /\ name_stable (r_name r) /\ data_of_type (r_type r) (r_data r) = true /\ data_fits (r_data r).

Lemma record_line_inverse now r n :
  is_u16 (r_type r) -> is_u16 (r_dns_traffic_class r) -> is_u16 n ->
  rd16 0 (record_line now r n) = r_type r /\ rd16 2 (record_line now r n) = r_dns_traffic_class r
  /\ rd32 4 (record_line now r n)
     = u32 (rel_value_us (GNUNET_TIME_absolute_get_remaining now (expiration_time r)) / 1000 / 1000)
  /\ rd16 8 (record_line now r n) = n.
Proof.
  intros Ht Hc Hn. unfold record_line.
  set (ttl := u32 (_ / 1000 / 1000)). assert (Httl : is_u32 ttl) by (apply Z.mod_pos_bound; lia).
  rewrite (Z.mod_small n (2 ^ 16) Hn : u16 n = n).
  set (a := be_encode 2 (r_type r)). set (b := be_encode 2 (r_dns_traffic_class r)).
  set (c := be_encode 4 ttl). set (d := be_encode 2 n). split_and!.
  - by apply (rd16_field _ [] (b ++ c ++ d)).
  - by apply (rd16_field _ a (c ++ d)).
  - by apply (rd32_field _ (a ++ b) d).
  - by apply (rd16_field _ (a ++ b ++ c) []).
Qed.

Lemma parse_record_inverse now now' padding mem len off r w :
  record_fits r -> wire_record now padding r = Some w -> starts mem off w -> off + strlen w <= len ->
  GNUNET_DNSPARSER_parse_record now' mem len off zero_record
  = Some (GNUNET_OK, off + strlen w, received now now' r).
Proof.
  intros (Ht & Hc & Hn & Hst & Hty & Hf). unfold wire_record.
  destruct (wire_name (r_name r)) as [wn|] eqn:En; [|done].
  destruct (wire_data padding (r_data r)) as [wd|] eqn:Ed; [|done].
  destruct (Z.leb_spec (strlen wd) UINT16_MAX) as [Hl|]; [|done].
  intros E Hs Hle. apply Some_inj in E as <-. pose proof (strlen_nonneg wd) as Hwd.
  assert (Hlen : is_u16 (strlen wd)) by (unfold is_u16, UINT16_MAX in *; lia).
  destruct (record_line_inverse now r (strlen wd) Ht Hc Hlen) as (L1 & L2 & L3 & L4).
  apply starts_app in Hs as [Hs1 Hs2]. apply starts_app in Hs2 as [Hs2 Hs3]. rewrite !strlen_app in *.
  set (line := record_line now r (strlen wd)) in *. change (strlen line) with 10 in *.
  unfold GNUNET_DNSPARSER_parse_record, sizeof_DnsRecordLine.
  rewrite (parse_name_inverse _ _ _ _ _ En Hst Hs1) by lia.
  destruct (r_name r) as [n|] eqn:Er; [|by cbn in En].
  rewrite (proj2 (Z.ltb_ge _ _)) by lia. rewrite (starts_load _ _ _ 10 Hs2) by done.
  rewrite L1, L2, L3, L4, (proj2 (Z.ltb_ge _ _)) by lia.
  rewrite (parse_data_inverse _ _ _ _ _ _ _ Hty Hf Hn Ed Hs3) by lia.
  unfold received. by rewrite Er, !Z.add_assoc.
Qed.

Lemma parse_array_inverse {A} (parse : Z -> A -> option (Z * Z * A)) zero wire (f : A -> A) mem len l off w :
  (forall x w off, x ∈ l -> wire x = Some w -> starts mem off w -> off + strlen w <= len ->
     parse off zero = Some (GNUNET_OK, off + strlen w, f x)) ->
  wires wire l = Some w -> starts mem off w -> off + strlen w <= len ->
  parse_array parse zero (length l) off = Some (GNUNET_OK, off + strlen w, map f l).
Proof.
  revert off w. induction l as [|x l IH]; intros off w Hp; cbn [wires length parse_array map].
  { intros [= <-] _ _. by rewrite Z.add_0_r. }
  destruct (wire x) as [w1|] eqn:E1; [|done]. destruct (wires wire l) as [ws|] eqn:E2; [|done].
  intros E Hs Hle. apply Some_inj in E as <-. apply starts_app in Hs as [Hs1 Hs2].
  rewrite strlen_app in *. pose proof (strlen_nonneg ws).
  rewrite (Hp x w1 off ltac:(left) E1 Hs1) by lia. change (negb (GNUNET_OK =? GNUNET_OK)) with false.
  cbv iota. rewrite (IH _ ws); [by rewrite Z.add_assoc| |done|done|lia].
  intros y wy o Hy. apply Hp. by right.
Qed.

(** A packet as it arrives. *)
Definition packet_received (now now' : GNUNET_TIME_Absolute) (p : GNUNET_DNSPARSER_Packet)
  : GNUNET_DNSPARSER_Packet :=
  mk_packet (queries p) (map (received now now') (answers p))
    (map (received now now') (authority_records p)) (map (received now now') (additional_records p))
    (flags p) (packet_id p).

Record packet_fits (p : GNUNET_DNSPARSER_Packet) : Prop := {
  fits_flags : is_u16 (flags p) /\ is_u16 (packet_id p);
  fits_queries : forall q, q ∈ queries p -> query_fits q;
  fits_records : forall r, r ∈ all_records p -> record_fits r;
}.

Lemma header_inverse id fl a b c d :
  is_u16 id -> is_u16 fl -> is_u16 a -> is_u16 b -> is_u16 c -> is_u16 d ->
  let h := header_bytes id fl a b c d in
  le_decode (slice 0 2 h) = id /\ le_decode (slice 2 2 h) = fl
  /\ rd16 4 h = a /\ rd16 6 h = b /\ rd16 8 h = c /\ rd16 10 h = d.
Proof.
  intros Hid Hfl Ha Hb Hc Hd. unfold header_bytes.
  set (i := le_encode 2 id). set (f := le_encode 2 fl). set (wa := be_encode 2 a).
  set (wb := be_encode 2 b). set (wc := be_encode 2 c). set (wd := be_encode 2 d). cbv zeta. split_and!.
  - change (slice 0 2 _) with i. subst i. rewrite le_decode_encode. by apply Z.mod_small.
  - change (slice 2 2 _) with f. subst f. rewrite le_decode_encode. by apply Z.mod_small.
  - by apply (rd16_field _ (i ++ f) (wb ++ wc ++ wd)).
  - by apply (rd16_field _ (i ++ f ++ wa) (wc ++ wd)).
  - by apply (rd16_field _ (i ++ f ++ wa ++ wb) wd).
  - by apply (rd16_field _ (i ++ f ++ wa ++ wb ++ wc) []).
Qed.

Lemma parse_packet_inverse now now' padding p w rest :
  packet_packable p -> packet_fits p -> wire_packet now padding p = Some w ->
  GNUNET_DNSPARSER_parse now' (w ++ rest) (strlen w) = Some (Some (packet_received now now' p)).
Proof.
  intros [_ (N1 & N2 & N3 & N4)] [[Ffl Fid] Fq Fr]. unfold wire_packet.
  destruct (wires wire_query (queries p)) as [w1|] eqn:E1; [|done].
  destruct (wires _ (answers p)) as [w2|] eqn:E2; [|done].
  destruct (wires _ (authority_records p)) as [w3|] eqn:E3; [|done].
  destruct (wires _ (additional_records p)) as [w4|] eqn:E4; [|done].
  intros E. apply Some_inj in E as <-.
  assert (Hc : forall n : nat, Z.of_nat n <= UINT16_MAX -> is_u16 (Z.of_nat n))
    by (unfold is_u16, UINT16_MAX; lia).
  destruct (header_inverse (packet_id p) (flags p) _ _ _ _ Fid Ffl (Hc _ N1) (Hc _ N2) (Hc _ N3) (Hc _ N4))
    as (R1 & R2 & R3 & R4 & R5 & R6).
  set (h := header_bytes _ _ _ _ _ _) in *. set (mem := (h ++ _) ++ rest). set (len := strlen _).
  assert (Hlen : len = 12 + strlen w1 + strlen w2 + strlen w3 + strlen w4)
    by (subst len; rewrite !strlen_app; change (strlen h) with 12; lia).
  pose proof (strlen_nonneg w1). pose proof (strlen_nonneg w2). pose proof (strlen_nonneg w3).
  pose proof (strlen_nonneg w4).
  assert (Hs : starts mem 0 (h ++ w1 ++ w2 ++ w3 ++ w4)) by (by exists [], rest).
  apply starts_app in Hs as [Hsh Hs]. apply starts_app in Hs as [Hs1 Hs]. apply starts_app in Hs as [Hs2 Hs].
  apply starts_app in Hs as [Hs3 Hs4]. change (strlen h) with 12 in *.
  assert (Hrec : forall l wl off, (forall r, r ∈ l -> record_fits r) ->
    wires (wire_record now padding) l = Some wl -> starts mem off wl -> off + strlen wl <= len ->
    parse_array (GNUNET_DNSPARSER_parse_record now' mem len) zero_record (length l) off
    = Some (GNUNET_OK, off + strlen wl, map (received now now') l)).
  { intros l wl off Hl. apply parse_array_inverse. intros r wr o Hr. apply parse_record_inverse. by apply Hl. }
  unfold all_records in Fr. unfold GNUNET_DNSPARSER_parse, parse_sections, sizeof_DnsHeader.
  rewrite (proj2 (Z.ltb_ge _ _)) by lia. rewrite (starts_load _ _ _ 12 Hsh) by done.
  rewrite R1, R2, R3, R4, R5, R6, !Nat2Z.id.
  rewrite (parse_array_inverse _ _ wire_query (fun q => q) mem len (queries p) 12 w1); [|..|lia]; [|..|done]; [|..|done].
  2: { intros q wq o Hq. apply parse_query_inverse. by apply Fq. }
  change (negb (GNUNET_OK =? GNUNET_OK)) with false. cbv iota.
  rewrite (Hrec (answers p) w2); [|set_solver|done|done|lia].
  change (negb (GNUNET_OK =? GNUNET_OK)) with false. cbv iota.
  rewrite (Hrec (authority_records p) w3); [|set_solver|done|done|lia].
  change (negb (GNUNET_OK =? GNUNET_OK)) with false. cbv iota.
  rewrite (Hrec (additional_records p) w4); [|set_solver|done|done|lia].
  change (negb (GNUNET_OK =? GNUNET_OK)) with false. cbv iota. change (GNUNET_OK =? GNUNET_OK) with true.
  cbv iota. unfold packet_received. by rewrite map_id.
Qed.

End Inverse.

(** ** Properties *)

(** A packet for the witnesses: a query and a mail exchange. *)
Definition sample_packet : GNUNET_DNSPARSER_Packet :=
  mk_packet [mk_query (Some [102; 111; 111]) 15 1]
    [mk_record (Some [102; 111; 111]) (data_mx (Some (mk_mx 10 (Some [97; 46; 98]))))
       (mk_abs 60000000) 15 1] [] [] 32768 7.

Lemma sample_packable : packet_packable sample_packet.
Proof. split; [by repeat constructor|cbn; unfold UINT16_MAX; lia]. Qed.

Lemma sample_stable s :
  Forall (fun b => b <> 0) s -> @name_back ascii_idna s = s -> @name_stable ascii_idna (Some s).
Proof. intros Hz Hb s' a E1 E2. cbn in E2. by simplify_eq. Qed.

Lemma sample_fits : @packet_fits ascii_idna sample_packet.
Proof.
  split.
  - split; unfold is_u16; cbn; lia.
  - intros q Hq. apply list_elem_of_singleton in Hq as ->.
    split_and!; [unfold is_u16; cbn; lia..|]. apply sample_stable; [by repeat constructor|done].
  - intros r Hr. apply list_elem_of_singleton in Hr as ->.
    split_and!; cbn [r_type r_dns_traffic_class r_name r_data]; try done; try (unfold is_u16; lia).
    + apply sample_stable; [by repeat constructor|done].
    + split; [unfold is_u16; cbn; lia|]. apply sample_stable; [by repeat constructor|done].
Qed.

(** C21. Round trip: a packet whose numbers have the widths of their fields, whose names
    come back from their ASCII form and that has no certificate records is packed
    whenever its wire format fits into [max] bytes, and the parser gets the same packet
    back, except that the times to live are in seconds from the time of parsing. *)
Theorem dns_pack_parse_roundtrip `{Idna} now now' padding tmp p max w rest :
  packet_packable p -> packet_fits p -> wire_packet now padding p = Some w ->
  sizeof_DnsHeader <= max < 2 ^ 16 -> Z.of_nat (length tmp) = max -> strlen w <= max ->
  GNUNET_DNSPARSER_pack now padding tmp p max = Some (GNUNET_OK, Some w)
  /\ GNUNET_DNSPARSER_parse now' (w ++ rest) (strlen w) = Some (Some (packet_received now now' p)).
Proof.
  intros Hp Hf Hw Hm Hl Hle. split; [|by eapply parse_packet_inverse].
  pose proof (pack_spec now padding tmp p max Hp Hm Hl) as Hs. rewrite Hw in Hs.
  destruct (GNUNET_DNSPARSER_pack now padding tmp p max) as [[ret buf]|]; [|done].
  destruct Hs as [(w' & E & _ & -> & ->)|[Hlong _]]; [congruence|]. specialize (Hlong w eq_refl). lia.
Qed.

Lemma dns_pack_parse_roundtrip_witness :
  exists w, @GNUNET_DNSPARSER_pack ascii_idna (mk_abs 0) 0 (replicate 512 170) sample_packet 512
            = Some (GNUNET_OK, Some w)
    /\ @GNUNET_DNSPARSER_parse ascii_idna (mk_abs 0) (w ++ []) (strlen w) = Some (Some sample_packet).
Proof.
  eexists. refine (@dns_pack_parse_roundtrip ascii_idna (mk_abs 0) (mk_abs 0) 0 (replicate 512 170)
    sample_packet 512 _ [] sample_packable sample_fits _ _ _ _).
  - vm_compute. reflexivity.
  - unfold sizeof_DnsHeader. lia.
  - reflexivity.
  - vm_compute. discriminate.
Defined.

(** C39. Packing stays within its array: whatever the names and the contents, with at
    least the size of a header the packet is written completely if and only if its wire
    format exists and fits; otherwise either a query or record is invalid, or the result
    is marked as truncated and no longer than [max]. *)
Theorem dns_pack_bounds `{Idna} now padding tmp p max :
  packet_packable p -> sizeof_DnsHeader <= max < 2 ^ 16 -> Z.of_nat (length tmp) = max ->
  exists ret buf, GNUNET_DNSPARSER_pack now padding tmp p max = Some (ret, buf)
    /\ (ret = GNUNET_OK <-> exists w, wire_packet now padding p = Some w /\ strlen w <= max)
    /\ (ret = GNUNET_OK -> buf = wire_packet now padding p)
    /\ (ret = GNUNET_NO -> exists b, buf = Some b /\ sizeof_DnsHeader <= strlen b <= max
          /\ Z.testbit (nth 2 b 0) 1 = true)
    /\ (ret = GNUNET_OK \/ ret = GNUNET_NO \/ ret = GNUNET_SYSERR /\ buf = None).
Proof.
  intros Hp Hm Hl. pose proof (pack_spec now padding tmp p max Hp Hm Hl) as Hs.
  destruct (GNUNET_DNSPARSER_pack now padding tmp p max) as [[ret buf]|]; [|done].
  exists ret, buf. split; [done|]. destruct Hs as [(w & E & Hle & -> & ->)|[Hlong Hres]].
  - split_and!; [|by rewrite E|done|by left]. split; [intros _; by exists w|done].
  - assert (Hn : ret <> GNUNET_OK) by (by destruct Hres as [[-> _]|[-> _]]).
    split_and!; [|done| |tauto].
    + split; [done|]. intros (w & E & Hle). specialize (Hlong w E). lia.
    + intros ->. destruct Hres as [[? _]|[_ Hb]]; [done|exact Hb].
Qed.

Lemma dns_pack_bounds_witness :
  exists buf, @GNUNET_DNSPARSER_pack ascii_idna (mk_abs 0) 0 (replicate 30 170) sample_packet 30
              = Some (GNUNET_NO, buf)
    /\ exists b, buf = Some b /\ sizeof_DnsHeader <= strlen b <= 30.
Proof.
  destruct (@dns_pack_bounds ascii_idna (mk_abs 0) 0 (replicate 30 170) sample_packet 30)
    as (ret & buf & E & _ & _ & Hno & _).
  - apply sample_packable.
  - unfold sizeof_DnsHeader. lia.
  - reflexivity.
  - exists buf. assert (Er : ret = GNUNET_NO) by (vm_compute in E; apply Some_inj, pair_equal_spec in E as [<- _]; reflexivity).
    rewrite <- Er at 1. split; [exact E|]. destruct (Hno Er) as (b & Eb & Hb & _). by exists b.
Defined.

(** Errors of the builder: a name, a query and a record are either written
    completely, at the offset, if their wire format exists and fits below the limit, or
    the call fails without moving the offset; in both cases what is before the offset
    stays, and no byte outside of the array is touched. *)
Theorem dns_builder_errors `{Idna} now padding dst lim off :
  0 <= off <= Z.of_nat (length dst) -> sizeof_DnsHeader <= lim < 2 ^ 64 ->
  lim <= Z.of_nat (length dst) ->
  let written w o :=
    exists ret dst' off', o = Some (ret, dst', off') /\ length dst' = length dst
      /\ take (Z.to_nat off) dst' = take (Z.to_nat off) dst
      /\ ((exists w', w = Some w' /\ off + strlen w' <= lim /\ ret = GNUNET_OK /\ off' = off + strlen w'
             /\ take (Z.to_nat off') dst' = take (Z.to_nat off) dst ++ w')
          \/ ((forall w', w = Some w' -> lim < off + strlen w') /\ off' = off
              /\ (ret = GNUNET_NO \/ ret = GNUNET_SYSERR))) in
  (forall n, written (wire_name n) (GNUNET_DNSPARSER_builder_add_name dst lim off n))
  /\ (forall q, written (wire_query q) (GNUNET_DNSPARSER_builder_add_query dst lim off q))
  /\ (forall r, record_packable r ->
        written (wire_record now padding r) (add_record now padding dst lim off r)).
Proof.
  intros Ho Hlim Hl written.
  assert (Hw : forall w o, builds true dst lim off w o -> written w o).
  { intros w o Hb. destruct o as [[[ret dst'] off']|]; [|by inversion Hb].
    pose proof Hb as [L P]%builds_prefix; [|lia|lia]. exists ret, dst', off'. split_and!; try done.
    inversion Hb as [w' d o' E1 E2 E3 E4 E5|r d o' E1 E2 E3 E4 E5]; subst.
    - left. exists w'. split_and!; done.
    - right. split_and!; [done|by apply E5|done]. }
  split_and!; intros; apply Hw.
  - apply add_name_spec; lia.
  - apply add_query_spec; lia.
  - apply add_record_spec; (done || lia).
Qed.

Lemma dns_builder_errors_witness :
  exists dst' ret off',
    @GNUNET_DNSPARSER_builder_add_name ascii_idna (replicate 16 0) 16 12 (Some [102; 111; 111])
    = Some (ret, dst', off') /\ take 12 dst' = replicate 12 0.
Proof.
  destruct (@dns_builder_errors ascii_idna (mk_abs 0) 0 (replicate 16 0) 16 12) as [Hn _].
  - cbn. lia.
  - unfold sizeof_DnsHeader. lia.
  - cbn. lia.
  - destruct (Hn (Some [102; 111; 111])) as (ret & d & o & E & _ & T & _).
    exists d, ret, o. split; [exact E|exact T].
Defined.

(** The count of a truncated section is one too small, and wraps around: the first query
    does not fit, the header counts 65535 queries. *)
Lemma dns_truncated_count :
  @GNUNET_DNSPARSER_pack ascii_idna (mk_abs 0) 0 (replicate 16 170)
    (mk_packet [mk_query (Some [102; 111; 111]) 1 1] [] [] [] 0 0) 16
  = Some (GNUNET_NO, Some [0; 0; 2; 0; 255; 255; 0; 0; 0; 0; 0; 0]).
Proof. vm_compute. reflexivity. Qed.

(** An array shorter than a header is overrun. *)
Lemma dns_pack_short :
  @GNUNET_DNSPARSER_pack ascii_idna (mk_abs 0) 0 [1; 2; 3; 4] (mk_packet [] [] [] [] 0 0) 4 = None.
Proof. vm_compute. reflexivity. Qed.

(** The name of the root, which the parser returns for a zero byte, is not packed. *)
Lemma dns_root_not_packed : @wire_name ascii_idna (Some []) = None.
Proof. reflexivity. Qed.

(** Hexadecimal digits come back. *)
Lemma dns_hex_roundtrip data :
  bytes_ok data -> GNUNET_DNSPARSER_hex_to_bin (GNUNET_DNSPARSER_bin_to_hex data) = data.
Proof.
  induction 1 as [|b data Hb _ IH]; [done|]. cbn [GNUNET_DNSPARSER_bin_to_hex GNUNET_DNSPARSER_hex_to_bin].
  assert (E : sscanf_x (tolower (hex_digit (Z.shiftr b 4))) (tolower (hex_digit (Z.land b 15))) = Some b).
  { apply (bool_decide_eq_true_1 (_ = _) ). revert b Hb.
    apply (byte_cases (fun b => bool_decide (sscanf_x (tolower (hex_digit (Z.shiftr b 4)))
      (tolower (hex_digit (Z.land b 15))) = Some b))). vm_compute. reflexivity. }
  rewrite E, IH. f_equal. by apply Z.mod_small.
Qed.
