(* ===== verification/Crypto.v ===== *)
(** * Hashes, key derivation and symmetric encryption

    [src/util/crypto_hash.c], [src/util/crypto_hkdf.c], [src/util/crypto_kdf.c] and
    [src/util/crypto_symmetric.c], over the functions of libgcrypt. Keys, hash codes and
    vectors are lists of bytes as in memory; words are read as a little-endian host
    does. [None] is a failed assertion or a loop that does not end within its fuel, or an
    error code where a function returns one. *)

From Stdlib Require Import String.
From S2P Require Import Prelude Strings.
#[local] Open Scope Z_scope.

(** ** libgcrypt *)

(** Message digests and ciphers, by the number of the algorithm. [gcry_md_open] says
    whether a handle can be opened, [gcry_md_hmac] is what is read from a handle after a
    key is set and a message written; [None] is a failure of one of the calls. *)
Class Gcrypt := {
  gcry_md_get_algo_dlen : Z -> Z;
  gcry_md_open : Z -> bool;
  gcry_md_hmac : Z -> list Z -> list Z -> option (list Z);
  gcry_md_hash_buffer : Z -> list Z -> list Z;
  gcry_cipher_encrypt : Z -> list Z -> list Z -> list Z -> option (list Z);
  gcry_cipher_decrypt : Z -> list Z -> list Z -> list Z -> option (list Z);
}.

Definition GCRY_MD_SHA256 : Z := 8.
Definition GCRY_MD_SHA512 : Z := 10.
Definition GCRY_CIPHER_AES256 : Z := 9.
Definition GCRY_CIPHER_TWOFISH : Z := 10.

(** What the documentation of libgcrypt says of the digests and of ciphers in CFB mode. *)
Class GcryptLaws `{Gcrypt} := {
  gcry_sha256 : gcry_md_open GCRY_MD_SHA256 = true /\ gcry_md_get_algo_dlen GCRY_MD_SHA256 = 32;
  gcry_sha512 : gcry_md_open GCRY_MD_SHA512 = true /\ gcry_md_get_algo_dlen GCRY_MD_SHA512 = 64;
  gcry_hmac_length : forall algo key buf, gcry_md_open algo = true ->
    exists mac, gcry_md_hmac algo key buf = Some mac
      /\ Z.of_nat (length mac) = gcry_md_get_algo_dlen algo;
  gcry_encrypt_length : forall algo key iv buf,
    algo = GCRY_CIPHER_AES256 \/ algo = GCRY_CIPHER_TWOFISH ->
    length key = 32%nat -> length iv = 16%nat ->
    exists out, gcry_cipher_encrypt algo key iv buf = Some out /\ length out = length buf;
  gcry_decrypt_encrypt : forall algo key iv buf out,
    gcry_cipher_encrypt algo key iv buf = Some out -> gcry_cipher_decrypt algo key iv out = Some buf;
}.

(** ** Hash codes: [crypto_hash.c] *)

Definition sizeof_HashCode : Z := 64.

(** [bits], an array of sixteen 32-bit words. *)
Definition hash_words (h : list Z) : list Z :=
  map (fun i => le_decode (slice (4 * i) 4 h)) (seq 0 16).
Definition hash_of_words (ws : list Z) : list Z := concat (map (le_encode 4) ws).

Definition GNUNET_CRYPTO_hash `{Gcrypt} (block : list Z) : list Z :=
  gcry_md_hash_buffer GCRY_MD_SHA512 block.

(** The string before the final zero. *)
Definition GNUNET_CRYPTO_hash_to_enc (block : list Z) : option (list Z) :=
  let? np := GNUNET_STRINGS_data_to_string block 103 in np.

(** [upper] is the conversion to upper case of libunistring, [enc] the characters up to
    the first zero. [None]: the write to [upper_enc] goes past its end. What is not
    written of it is taken as zero. *)
Definition GNUNET_CRYPTO_hash_from_string2 (upper : list Z -> list Z) (enc : list Z) (enclen : Z)
  : option (Z * list Z) :=
  let output := upper enc ++ [0] in
  assert? (Z.of_nat (length output) <=? enclen) in
  let upper_enc := output ++ repeat 0 (Z.to_nat enclen - length output) in
  Some (GNUNET_STRINGS_string_to_data upper_enc sizeof_HashCode).

Definition GNUNET_CRYPTO_hash_distance_u32 (a b : list Z) : Z :=
  let a1 := nth 1 (hash_words a) 0 in
  let b1 := nth 1 (hash_words b) 0 in
  let x1 := Z.shiftr (u32 (a1 - b1)) 16 in
  let x2 := Z.shiftr (u32 (b1 - a1)) 16 in
  u32 (x1 * x2).

(** [draws] are the random numbers in the order they are drawn. *)
Definition GNUNET_CRYPTO_hash_create_random (draws : list Z) : list Z :=
  hash_of_words (rev (take 16 draws)).

Definition GNUNET_CRYPTO_hash_difference (a b : list Z) : list Z :=
  hash_of_words (zip_with (fun x y => u32 (y - x)) (hash_words a) (hash_words b)).

Definition GNUNET_CRYPTO_hash_sum (a delta : list Z) : list Z :=
  hash_of_words (zip_with (fun x y => u32 (y + x)) (hash_words a) (hash_words delta)).

Definition GNUNET_CRYPTO_hash_xor (a b : list Z) : list Z :=
  hash_of_words (zip_with Z.lxor (hash_words a) (hash_words b)).

Definition GNUNET_CRYPTO_hash_get_bit (code : list Z) (bit : Z) : option Z :=
  assert? (bit <? 8 * sizeof_HashCode) in
  let? c := code !! Z.to_nat (Z.shiftr bit 3) in
  Some (if 0 <? Z.land c (Z.shiftl 1 (Z.land bit 7)) then 1 else 0).

(** [n] turns are left. *)
Fixpoint matching_bits_loop (n : nat) (i : Z) (first second : list Z) : option Z :=
  match n with
  | O => Some (sizeof_HashCode * 8)
  | S n =>
      let? b1 := GNUNET_CRYPTO_hash_get_bit first i in
      let? b2 := GNUNET_CRYPTO_hash_get_bit second i in
      if negb (b1 =? b2) then Some i else matching_bits_loop n (i + 1) first second
  end.

Definition GNUNET_CRYPTO_hash_matching_bits (first second : list Z) : option Z :=
  matching_bits_loop 512 0 first second.

(** The loops of the comparisons, on the words from the last down. *)
Fixpoint hash_cmp_loop (ws : list (Z * Z)) : Z :=
  match ws with
  | [] => 0
  | (w1, w2) :: ws => if w1 >? w2 then 1 else if w1 <? w2 then -1 else hash_cmp_loop ws
  end.

Definition GNUNET_CRYPTO_hash_cmp (h1 h2 : list Z) : Z :=
  hash_cmp_loop (rev (combine (hash_words h1) (hash_words h2))).

Fixpoint hash_xorcmp_loop (ws : list (Z * Z * Z)) : Z :=
  match ws with
  | [] => 0
  | (w1, w2, t) :: ws =>
      let d1 := Z.lxor w1 t in
      let d2 := Z.lxor w2 t in
      if d1 >? d2 then 1 else if d1 <? d2 then -1 else hash_xorcmp_loop ws
  end.

Definition GNUNET_CRYPTO_hash_xorcmp (h1 h2 target : list Z) : Z :=
  hash_xorcmp_loop (rev (combine (combine (hash_words h1) (hash_words h2)) (hash_words target))).

(** ** HKDF: [crypto_hkdf.c] *)

Section Derivation.
Context `{Gcrypt}.

Definition doHMAC (algo : Z) (key buf : list Z) : option (list Z) := gcry_md_hmac algo key buf.

Definition getPRK (algo : Z) (xts skm : list Z) : option (list Z) :=
  let? ret := doHMAC algo xts skm in Some (take (Z.to_nat (gcry_md_get_algo_dlen algo)) ret).

(** The loop K(i+1): [n] turns are left, [result] has been written. *)
Fixpoint hkdf_loop (n : nat) (i : Z) (prf : Z) (k : nat) (prk ctx result : list Z)
  : option (list Z) :=
  match n with
  | O => Some result
  | S n =>
      let plain := drop (length result - k) result ++ ctx ++ [u8 (i + 1)] in
      let? hc := doHMAC prf prk plain in
      hkdf_loop n (i + 1) prf k prk ctx (result ++ take k hc)
  end.

(** The result, of [out_len] bytes; [None] when [GNUNET_SYSERR] is returned. The list of
    lists is the variable arguments, the chunks of the context. *)
Definition GNUNET_CRYPTO_hkdf_v (out_len xtr_algo prf_algo : Z) (xts skm : list Z)
    (args : list (list Z)) : option (list Z) :=
  let k := gcry_md_get_algo_dlen prf_algo in
  if k =? 0 then None
  else if negb (gcry_md_open xtr_algo) then None
  else if negb (gcry_md_open prf_algo) then None
  else
    let? prk := getPRK xtr_algo xts skm in
    let t := out_len / k in
    let d := out_len mod k in
    let ctx := concat args in
    let kn := Z.to_nat k in
    let? result :=
      (if 0 <? t then let? hc := doHMAC prf_algo prk (ctx ++ [1]) in Some (take kn hc)
       else Some []) in
    let? result := hkdf_loop (Z.to_nat (t - 1)) 1 prf_algo kn prk ctx result in
    if 0 <? d then
      let? hc := (if 0 <? t
                  then doHMAC prf_algo prk (drop (length result - kn) result ++ ctx ++ [u8 (t + 1)])
                  else doHMAC prf_algo prk (ctx ++ [1])) in
      Some (result ++ take (Z.to_nat d) hc)
    else Some result.

Definition GNUNET_CRYPTO_hkdf (out_len xtr_algo prf_algo : Z) (xts skm : list Z)
    (args : list (list Z)) : option (list Z) :=
  GNUNET_CRYPTO_hkdf_v out_len xtr_algo prf_algo xts skm args.

(** ** Key derivation: [crypto_kdf.c] *)

Definition GNUNET_CRYPTO_kdf_v (out_len : Z) (xts skm : list Z) (args : list (list Z))
  : option (list Z) :=
  GNUNET_CRYPTO_hkdf_v out_len GCRY_MD_SHA512 GCRY_MD_SHA256 xts skm args.

Definition GNUNET_CRYPTO_kdf (out_len : Z) (xts skm : list Z) (args : list (list Z))
  : option (list Z) :=
  GNUNET_CRYPTO_kdf_v out_len xts skm args.

(** The number of bits of a positive number. *)
Definition mpi_nbits (n : Z) : Z := if n <=? 0 then 0 else Z.log2 n + 1.

(** The loop of [GNUNET_CRYPTO_kdf_mod_mpi], for a modulus that is positive; the bits
    from [nbits] on are cleared. *)
Fixpoint kdf_mod_mpi_loop (fuel : nat) (ctr nbits n : Z) (xts skm ctx : list Z) : option Z :=
  match fuel with
  | O => None
  | S fuel =>
      let? buf := GNUNET_CRYPTO_kdf ((nbits - 1) / 8 + 1) xts skm [ctx; le_encode 4 ctr] in
      let r := Z.land (be_decode buf) (Z.ones nbits) in
      assert? negb (Z.testbit r nbits) in
      if r <? n then Some r else kdf_mod_mpi_loop fuel (u32 (ctr + 1)) nbits n xts skm ctx
  end.

Definition GNUNET_CRYPTO_kdf_mod_mpi (fuel : nat) (n : Z) (xts skm ctx : list Z) : option Z :=
  kdf_mod_mpi_loop fuel 0 (mpi_nbits n) n xts skm ctx.

(** ** The rest of [crypto_hash.c] *)

(** The session key and the vector. *)
Definition GNUNET_CRYPTO_hash_to_aes_key (hc : list Z) : option (list Z * list Z) :=
  let? skey := GNUNET_CRYPTO_kdf 64 (str "Hash key derivation") hc [] in
  let? iv := GNUNET_CRYPTO_kdf 32 (str "Initialization vector derivation") hc [] in
  Some (skey, iv).

(** The result of the derivation is not checked: [None] leaves the key as it was. *)
Definition GNUNET_CRYPTO_hmac_derive_key_v (rkey salt : list Z) (argp : list (list Z))
  : option (list Z) :=
  GNUNET_CRYPTO_kdf_v 64 salt rkey argp.

Definition GNUNET_CRYPTO_hmac_derive_key (rkey salt : list Z) (argp : list (list Z))
  : option (list Z) :=
  GNUNET_CRYPTO_hmac_derive_key_v rkey salt argp.

Definition GNUNET_CRYPTO_hmac (key plaintext : list Z) : option (list Z) :=
  assert? gcry_md_open GCRY_MD_SHA512 in
  let? mc := gcry_md_hmac GCRY_MD_SHA512 key plaintext in
  Some (take (Z.to_nat sizeof_HashCode) mc).

(** ** Symmetric encryption: [crypto_symmetric.c]

    A session key is the key for AES followed by the one for Twofish, and so are vectors. *)

Definition aes_key (sessionkey : list Z) : list Z := slice 0 32 sessionkey.
Definition twofish_key (sessionkey : list Z) : list Z := slice 32 32 sessionkey.
Definition aes_iv (iv : list Z) : list Z := slice 0 16 iv.
Definition twofish_iv (iv : list Z) : list Z := slice 16 16 iv.

(** A handle is the algorithm, the key and the vector that were set. The failures of
    these calls, other than for a weak key, are those of the use of the handle. *)
Definition setup_cipher_aes (sessionkey iv : list Z) : Z * list Z * list Z :=
  (GCRY_CIPHER_AES256, aes_key sessionkey, aes_iv iv).
Definition setup_cipher_twofish (sessionkey iv : list Z) : Z * list Z * list Z :=
  (GCRY_CIPHER_TWOFISH, twofish_key sessionkey, twofish_iv iv).

Definition cipher_encrypt (handle : Z * list Z * list Z) : list Z -> option (list Z) :=
  let '(algo, key, iv) := handle in gcry_cipher_encrypt algo key iv.
Definition cipher_decrypt (handle : Z * list Z * list Z) : list Z -> option (list Z) :=
  let '(algo, key, iv) := handle in gcry_cipher_decrypt algo key iv.

(** The result, of the size of the block. *)
Definition GNUNET_CRYPTO_symmetric_encrypt (block sessionkey iv : list Z) : option (list Z) :=
  let handle := setup_cipher_aes sessionkey iv in
  let? tmp := cipher_encrypt handle block in
  let handle := setup_cipher_twofish sessionkey iv in
  cipher_encrypt handle tmp.

Definition GNUNET_CRYPTO_symmetric_decrypt (block sessionkey iv : list Z) : option (list Z) :=
  let handle := setup_cipher_twofish sessionkey iv in
  let? tmp := cipher_decrypt handle block in
  let handle := setup_cipher_aes sessionkey iv in
  cipher_decrypt handle tmp.

(** [None] when a derivation fails: its part of the vector is left as it was. *)
Definition GNUNET_CRYPTO_symmetric_derive_iv_v (skey salt : list Z) (argp : list (list Z))
  : option (list Z) :=
  let aes_salt := salt ++ str "AES!" in
  let twofish_salt := salt ++ str "FISH" in
  let? a := GNUNET_CRYPTO_kdf_v 16 aes_salt (aes_key skey) argp in
  let? t := GNUNET_CRYPTO_kdf_v 16 twofish_salt (twofish_key skey) argp in
  Some (a ++ t).

Definition GNUNET_CRYPTO_symmetric_derive_iv (skey salt : list Z) (argp : list (list Z))
  : option (list Z) :=
  GNUNET_CRYPTO_symmetric_derive_iv_v skey salt argp.

End Derivation.

(** ** Hash codes as numbers *)

Definition hash_ok (h : list Z) : Prop := bytes_ok h /\ length h = 64%nat.

(** A hash code is a number of 512 bits, the first byte the lowest. *)
Definition hash_value (h : list Z) : Z := le_decode h.

Fixpoint words_value (ws : list Z) : Z :=
  match ws with
  | [] => 0
  | w :: ws => w + 2 ^ 32 * words_value ws
  end.

Lemma le_decode_app a b : le_decode (a ++ b) = le_decode a + 256 ^ Z.of_nat (length a) * le_decode b.
Proof.
  induction a as [|x a IH]; [cbn [app le_decode length]; lia|].
  cbn [app le_decode length]. rewrite IH, Nat2Z.inj_succ, Z.pow_succ_r by lia. ring.
Qed.

Lemma words_value_spec ws : Forall is_u32 ws -> le_decode (hash_of_words ws) = words_value ws.
Proof.
  induction 1 as [|w ws Hw _ IH]; [done|].
  unfold hash_of_words in *. cbn [map concat words_value].
  rewrite le_decode_app, IH, length_le_encode, le_decode_encode.
  replace (w mod 256 ^ Z.of_nat 4) with w; [lia|]. symmetry. apply Z.mod_small. words.
Qed.

Lemma length_hash_words h : length (hash_words h) = 16%nat.
Proof. done. Qed.

Lemma hash_words_range h : bytes_ok h -> Forall is_u32 (hash_words h).
Proof.
  intros Hh. apply Forall_forall. intros w Hw.
  apply list_elem_of_In, in_map_iff in Hw as (i & <- & _).
  assert (Hl : (length (slice (4 * i) 4 h) <= 4)%nat) by (unfold slice; rewrite length_take; lia).
  destruct (le_decode_range (slice (4 * i) 4 h)) as [H0 H1]; [by apply bytes_ok_slice|].
  split; [done|]. eapply Z.lt_le_trans; [exact H1|].
  replace (2 ^ 32) with (256 ^ 4) by done. apply Z.pow_le_mono_r; lia.
Qed.

Lemma chunks_of_four n h : length h = (4 * n)%nat ->
  concat (map (fun i => slice (4 * i) 4 h) (seq 0 n)) = h.
Proof.
  revert h. induction n as [|n IH]; intros h Hl; [by destruct h|].
  cbn [seq map concat]. replace (slice (4 * 0) 4 h) with (take 4 h) by done.
  etransitivity; [|exact (take_drop 4 h)]. f_equal.
  etransitivity; [|apply (IH (drop 4 h)); rewrite length_drop; lia].
  rewrite <- seq_shift, map_map. f_equal. apply map_ext. intros i. unfold slice.
  rewrite drop_drop. f_equal. f_equal. lia.
Qed.

Lemma hash_of_words_words h : hash_ok h -> hash_of_words (hash_words h) = h.
Proof.
  intros [Hb Hl]. unfold hash_of_words, hash_words. rewrite map_map.
  etransitivity; [|exact (chunks_of_four 16 h Hl)]. f_equal. apply map_ext_in. intros i Hi.
  apply in_seq in Hi.
  replace 4%nat with (length (slice (4 * i) 4 h)) at 1 by (rewrite length_slice; lia).
  by apply le_encode_decode, bytes_ok_slice.
Qed.

Lemma words_of_concat n ws : length ws = n -> Forall is_u32 ws ->
  map (fun i => le_decode (slice (4 * i) 4 (hash_of_words ws))) (seq 0 n) = ws.
Proof.
  revert ws. induction n as [|n IH]; intros ws Hl Hw; [by destruct ws|].
  destruct ws as [|w ws]; [done|]. inversion Hw as [|? ? Hw1 Hw2]; subst.
  unfold hash_of_words in *. cbn [seq map concat]. f_equal.
  - change (slice (4 * 0) 4 (le_encode 4 w ++ concat (map (le_encode 4) ws))) with (le_encode 4 w).
    rewrite le_decode_encode. apply Z.mod_small. words.
  - rewrite <- seq_shift, map_map. etransitivity; [|apply (IH ws); [cbn in Hl; lia|done]].
    apply map_ext. intros i. f_equal. rewrite slice_app_r; [|rewrite length_le_encode; lia].
    rewrite length_le_encode. f_equal. lia.
Qed.

Lemma hash_words_of_words ws : length ws = 16%nat -> Forall is_u32 ws ->
  hash_words (hash_of_words ws) = ws.
Proof. apply words_of_concat. Qed.

Lemma hash_of_words_ok ws : length ws = 16%nat -> hash_ok (hash_of_words ws).
Proof.
  intros Hl. split.
  - apply Forall_concat, Forall_fmap, Forall_true. intros w. apply bytes_ok_le_encode.
  - unfold hash_of_words. rewrite length_concat, map_map.
    rewrite (map_ext _ (fun _ => 4%nat)) by (intros; apply length_le_encode).
    by do 17 (destruct ws as [|? ws]; try done).
Qed.

Lemma hash_value_words h : hash_ok h -> hash_value h = words_value (hash_words h).
Proof.
  intros Hh. rewrite <- (hash_of_words_words h Hh) at 1. apply words_value_spec.
  apply hash_words_range, Hh.
Qed.

Lemma hash_value_inj h1 h2 : hash_ok h1 -> hash_ok h2 -> hash_value h1 = hash_value h2 -> h1 = h2.
Proof.
  intros [H1 L1] [H2 L2] E. rewrite <- (le_encode_decode h1 H1), <- (le_encode_decode h2 H2).
  unfold hash_value in E. by rewrite E, L1, L2.
Qed.

(** ** Comparison *)

Lemma hash_cmp_loop_last l x y :
  hash_cmp_loop (l ++ [(x, y)]) = if hash_cmp_loop l =? 0 then Z.sgn (x - y) else hash_cmp_loop l.
Proof.
  induction l as [|[a b] l IH]; cbn [app hash_cmp_loop].
  - split_ifs; lia.
  - rewrite IH. destruct (a >? b) eqn:E1; [done|]. by destruct (a <? b) eqn:E2.
Qed.

Lemma hash_cmp_words a b : length a = length b -> Forall is_u32 a -> Forall is_u32 b ->
  hash_cmp_loop (rev (combine a b)) = Z.sgn (words_value a - words_value b).
Proof.
  revert b. induction a as [|x a IH]; intros [|y b] Hl Ha Hb; try done.
  inversion Ha; inversion Hb; subst. cbn [combine rev words_value].
  rewrite hash_cmp_loop_last, IH by (done || (cbn in Hl; lia)).
  destruct (Z.eqb_spec (Z.sgn (words_value a - words_value b)) 0) as [E|E]; words; nia.
Qed.

Lemma words_lxor_split x y a b : is_u32 x -> is_u32 y ->
  Z.lxor (x + 2 ^ 32 * a) (y + 2 ^ 32 * b) = Z.lxor x y + 2 ^ 32 * Z.lxor a b.
Proof.
  intros Hx Hy. assert (Hxy : is_u32 (Z.lxor x y)) by (by apply word_lxor).
  apply Z.bits_inj'. intros i Hi.
  rewrite Z.lxor_spec, !(Z.mul_comm (2 ^ 32)).
  assert (Hb : forall u v, is_u32 u -> Z.testbit (u + v * 2 ^ 32) i =
                 if i <? 32 then Z.testbit u i else Z.testbit v (i - 32)).
  { intros u v Hu. destruct (Z.ltb_spec i 32) as [Hlt|Hge].
    - rewrite <- (Z.mod_pow2_bits_low _ 32) by done. rewrite Z_mod_plus_full, Z.mod_small; [done|words].
    - replace i with (i - 32 + 32) at 1 by lia. rewrite <- Z.div_pow2_bits by lia.
      rewrite Z.div_add, Z.div_small; [done|words|lia]. }
  rewrite !Hb by done. destruct (i <? 32); by rewrite Z.lxor_spec.
Qed.

Lemma words_value_lxor a b : length a = length b -> Forall is_u32 a -> Forall is_u32 b ->
  words_value (zip_with Z.lxor a b) = Z.lxor (words_value a) (words_value b).
Proof.
  revert b. induction a as [|x a IH]; intros [|y b] Hl Ha Hb; try done.
  inversion Ha; inversion Hb; subst. cbn [zip_with words_value].
  rewrite IH by (done || (cbn in Hl; lia)). by rewrite words_lxor_split.
Qed.

Lemma lxor_words_range a b : Forall is_u32 a -> Forall is_u32 b -> Forall is_u32 (zip_with Z.lxor a b).
Proof.
  intros Ha. revert b. induction Ha as [|x a Hx _ IH]; intros [|y b] Hb; cbn; try constructor.
  - inversion Hb; subst. by apply word_lxor.
  - inversion Hb; subst. by apply IH.
Qed.

Lemma xorcmp_is_cmp_of_xor a b t : length a = length b -> length a = length t ->
  hash_xorcmp_loop (rev (combine (combine a b) t)) =
  hash_cmp_loop (rev (combine (zip_with Z.lxor a t) (zip_with Z.lxor b t))).
Proof.
  assert (Happ : forall l l' x y z, hash_xorcmp_loop l = hash_cmp_loop l' -> 
    hash_xorcmp_loop (l ++ [(x, y, z)]) = hash_cmp_loop (l' ++ [(Z.lxor x z, Z.lxor y z)])).
  { intros l l' x y z E. rewrite hash_cmp_loop_last, <- E.
    clear E. induction l as [|[[u v] w] l IH]; cbn [app hash_xorcmp_loop].
    - split_ifs; lia.
    - rewrite IH. destruct (Z.lxor u w >? _); [done|]. by destruct (Z.lxor u w <? _). }
  revert b t. induction a as [|x a IH]; intros [|y b] [|z t] H1 H2; try done.
  cbn [combine zip_with rev]. apply Happ, IH; cbn in *; lia.
Qed.

Lemma hash_cmp_value h1 h2 : hash_ok h1 -> hash_ok h2 ->
  GNUNET_CRYPTO_hash_cmp h1 h2 = Z.sgn (hash_value h1 - hash_value h2).
Proof.
  intros H1 H2. rewrite !hash_value_words by done. apply hash_cmp_words; [done| |].
  - apply hash_words_range, H1.
  - apply hash_words_range, H2.
Qed.

Lemma hash_xor_value a b : hash_ok a -> hash_ok b ->
  hash_value (GNUNET_CRYPTO_hash_xor a b) = Z.lxor (hash_value a) (hash_value b).
Proof.
  intros Ha Hb. rewrite (hash_value_words a), (hash_value_words b) by done.
  rewrite <- words_value_lxor; [|done|apply hash_words_range, Ha|apply hash_words_range, Hb].
  apply words_value_spec, lxor_words_range; apply hash_words_range; [apply Ha|apply Hb].
Qed.

Lemma hash_xorcmp_value h1 h2 t : hash_ok h1 -> hash_ok h2 -> hash_ok t ->
  GNUNET_CRYPTO_hash_xorcmp h1 h2 t =
  Z.sgn (Z.lxor (hash_value h1) (hash_value t) - Z.lxor (hash_value h2) (hash_value t)).
Proof.
  intros H1 H2 Ht. unfold GNUNET_CRYPTO_hash_xorcmp.
  pose proof (hash_words_range h1 (proj1 H1)). pose proof (hash_words_range h2 (proj1 H2)).
  pose proof (hash_words_range t (proj1 Ht)).
  rewrite !hash_value_words by done.
  rewrite xorcmp_is_cmp_of_xor, hash_cmp_words by (done || by apply lxor_words_range).
  by rewrite !words_value_lxor.
Qed.

Lemma hash_sum_difference a b : hash_ok a -> hash_ok b ->
  GNUNET_CRYPTO_hash_sum a (GNUNET_CRYPTO_hash_difference a b) = b.
Proof.
  intros Ha Hb. pose proof (hash_words_range a (proj1 Ha)) as Wa.
  pose proof (hash_words_range b (proj1 Hb)) as Wb.
  unfold GNUNET_CRYPTO_hash_sum, GNUNET_CRYPTO_hash_difference.
  rewrite hash_words_of_words; [|done|].
  - rewrite <- (hash_of_words_words b Hb) at 2. f_equal.
    generalize (hash_words a) (hash_words b) (length_hash_words a) (length_hash_words b) Wa Wb.
    clear. intros a b La Lb Wa Wb. rewrite <- La in Lb. clear La. revert b Lb Wb.
    induction Wa as [|x a Hx _ IH]; intros [|y b] Lb Wb; try done. cbn [zip_with].
    inversion Wb; subst. f_equal; [|apply IH; [cbn in Lb; lia|done]].
    unfold u32. rewrite Zplus_mod_idemp_l. replace (y - x + x) with y by lia.
    by apply Z.mod_small.
  - generalize (hash_words a) (hash_words b). clear. intros a b. revert b.
    induction a as [|x a IH]; intros [|y b]; cbn; constructor; [apply u32_range|apply IH].
Qed.

(** ** Single bits *)

Lemma le_decode_testbit l i : bytes_ok l -> 0 <= i ->
  Z.testbit (le_decode l) i =
  match l !! Z.to_nat (Z.shiftr i 3) with Some c => Z.testbit c (Z.land i 7) | None => false end.
Proof.
  intros Hl. revert i. induction Hl as [|x l Hx _ IH]; intros i Hi.
  - rewrite lookup_nil. apply Z.testbit_0_l.
  - rewrite Z.shiftr_div_pow2 by lia. change 7 with (Z.ones 3). rewrite Z.land_ones by lia.
    cbn [le_decode]. rewrite Z.mul_comm. change 256 with (2 ^ 8).
    destruct (Z.ltb_spec i 8) as [Hlt|Hge].
    + rewrite Z.div_small, Z.mod_small by (cbn; lia). cbn [Z.to_nat lookup list_lookup].
      rewrite <- (Z.mod_pow2_bits_low _ 8) by done. rewrite Z_mod_plus_full, Z.mod_small; [done|words].
    + replace i with (i - 8 + 8) at 1 by lia. rewrite <- Z.div_pow2_bits by lia.
      rewrite Z.div_add, Z.div_small, Z.add_0_l by (lia || words). rewrite IH by lia.
      rewrite Z.shiftr_div_pow2 by lia. change 7 with (Z.ones 3). rewrite Z.land_ones by lia.
      change (2 ^ 3) with 8. pose proof (Z.div_pos (i - 8) 8).
      assert (Eq : i / 8 = Z.succ ((i - 8) / 8))
        by (rewrite <- Z.add_1_r, <- Z.div_add by lia; f_equal; lia).
      assert (Em : i mod 8 = (i - 8) mod 8) by (rewrite <- (Z_mod_plus_full (i - 8) 1); f_equal; lia).
      rewrite Eq, Em, Z2Nat.inj_succ by lia. done.
Qed.

Lemma hash_get_bit_spec h i : hash_ok h -> 0 <= i < 512 ->
  GNUNET_CRYPTO_hash_get_bit h i = Some (Z.b2z (Z.testbit (hash_value h) i)).
Proof.
  intros [Hb Hl] Hi. unfold GNUNET_CRYPTO_hash_get_bit, hash_value, sizeof_HashCode.
  rewrite le_decode_testbit by (done || lia).
  replace (i <? 8 * 64) with true by (symmetry; apply Z.ltb_lt; lia).
  assert (Hq : (Z.to_nat (Z.shiftr i 3) < length h)%nat).
  { rewrite Hl, Z.shiftr_div_pow2 by lia. change (2 ^ 3) with 8.
    pose proof (Z.div_lt_upper_bound i 8 64). pose proof (Z.div_pos i 8). lia. }
  apply lookup_lt_is_Some in Hq as [c Hc]. rewrite Hc. f_equal.
  assert (Hj : 0 <= Z.land i 7).
  { change 7 with (Z.ones 3). rewrite Z.land_ones by lia. apply Z.mod_pos_bound. lia. }
  rewrite Z.shiftl_1_l, land_pow2 by done. pose proof (Z.pow_pos_nonneg 2 (Z.land i 7) ltac:(lia) Hj).
  destruct (Z.testbit c (Z.land i 7)); cbn [Z.b2z]; split_ifs; lia.
Qed.

Lemma matching_bits_loop_spec n i h1 h2 : hash_ok h1 -> hash_ok h2 -> 0 <= i -> i + Z.of_nat n = 512 ->
  exists m, matching_bits_loop n i h1 h2 = Some m /\ i <= m <= 512
    /\ (forall j, i <= j < m -> Z.testbit (hash_value h1) j = Z.testbit (hash_value h2) j)
    /\ (m < 512 -> Z.testbit (hash_value h1) m <> Z.testbit (hash_value h2) m).
Proof.
  intros H1 H2. revert i. induction n as [|n IH]; intros i Hi Hn; cbn [matching_bits_loop].
  - exists 512. split; [done|]. split; [lia|]. split; [intros j Hj; lia|lia].
  - rewrite !hash_get_bit_spec by (done || lia).
    destruct (Z.eqb_spec (Z.b2z (Z.testbit (hash_value h1) i)) (Z.b2z (Z.testbit (hash_value h2) i)))
      as [E|E]; cbn [negb].
    + destruct (IH (i + 1)) as (m & Em & Hm & Hs & Hd); [lia|lia|]. exists m.
      split; [done|]. split; [lia|]. split; [|done]. intros j Hj.
      destruct (decide (j = i)) as [->|]; [by apply Z.b2z_inj|apply Hs; lia].
    + exists i. split; [done|]. split; [lia|]. split; [intros j Hj; lia|congruence].
Qed.

(** ** HKDF as in RFC 5869 *)

Section Reference.
Context `{Gcrypt}.

Definition hmac_of (algo : Z) (key buf : list Z) : list Z := default [] (gcry_md_hmac algo key buf).

(** T(0) is empty, T(i) = HMAC(PRK, T(i-1) | info | i). *)
Fixpoint rfc5869_T (prf : Z) (prk info : list Z) (i : nat) : list Z :=
  match i with
  | O => []
  | S j => hmac_of prf prk (rfc5869_T prf prk info j ++ info ++ [Z.of_nat (S j)])
  end.

Definition rfc5869_Ts (prf : Z) (prk info : list Z) (n : nat) : list Z :=
  concat (map (rfc5869_T prf prk info) (seq 1 n)).

(** The first bytes of T(1) | T(2) | ... | T(N), with PRK = HMAC(salt, IKM). *)
Definition rfc5869 (L xtr prf : Z) (salt ikm info : list Z) : list Z :=
  let k := gcry_md_get_algo_dlen prf in
  take (Z.to_nat L) (rfc5869_Ts prf (hmac_of xtr salt ikm) info (Z.to_nat ((L + k - 1) / k))).

Context `{!GcryptLaws}.

Lemma hmac_of_spec algo key buf : gcry_md_open algo = true ->
  gcry_md_hmac algo key buf = Some (hmac_of algo key buf)
  /\ length (hmac_of algo key buf) = Z.to_nat (gcry_md_get_algo_dlen algo).
Proof.
  intros Ho. destruct (gcry_hmac_length algo key buf Ho) as (mac & E & Hl).
  unfold hmac_of. rewrite E. cbn [default]. split; [done|]. rewrite <- Hl. cbn. lia.
Qed.

Section Expand.
Context (prf : Z) (prk info : list Z) (Hopen : gcry_md_open prf = true).
#[local] Abbreviation T := (rfc5869_T prf prk info).
#[local] Abbreviation Ts := (rfc5869_Ts prf prk info).
#[local] Abbreviation k := (Z.to_nat (gcry_md_get_algo_dlen prf)).

Lemma length_T i : length (T (S i)) = k.
Proof. apply hmac_of_spec, Hopen. Qed.

Lemma Ts_S n : Ts (S n) = Ts n ++ T (S n).
Proof. unfold rfc5869_Ts. rewrite seq_S, map_app, concat_app. cbn [map concat]. by rewrite app_nil_r. Qed.

Lemma length_Ts n : length (Ts n) = (n * k)%nat.
Proof. induction n as [|n IH]; [done|]. rewrite Ts_S, length_app, IH, length_T. lia. Qed.

Lemma Ts_last n : drop (length (Ts (S n)) - k) (Ts (S n)) = T (S n).
Proof.
  rewrite length_Ts, Ts_S. replace (S n * k - k)%nat with (length (Ts n)) by (rewrite length_Ts; lia).
  apply drop_app_length.
Qed.

Lemma hmac_next i : (i < 255)%nat ->
  doHMAC prf prk (T i ++ info ++ [u8 (Z.of_nat i + 1)]) = Some (T (S i)).
Proof.
  intros Hi. replace (u8 (Z.of_nat i + 1)) with (Z.of_nat (S i)) by (rewrite u8_small; words; lia).
  apply hmac_of_spec, Hopen.
Qed.

Lemma take_T i : take k (T (S i)) = T (S i).
Proof. apply take_ge. by rewrite length_T. Qed.

Lemma hkdf_loop_spec n i : (S i + n <= 255)%nat ->
  hkdf_loop n (Z.of_nat (S i)) prf k prk info (Ts (S i)) = Some (Ts (S i + n)).
Proof.
  revert i. induction n as [|n IH]; intros i Hn; [by rewrite Nat.add_0_r|]. cbn [hkdf_loop].
  rewrite Ts_last, hmac_next by lia. rewrite take_T, <- Ts_S.
  replace (Z.of_nat (S i) + 1) with (Z.of_nat (S (S i))) by lia.
  rewrite IH by lia. f_equal. f_equal. lia.
Qed.

Lemma hkdf_whole_blocks t : (t <= 255)%nat ->
  (let? result := (if 0 <? Z.of_nat t then let? hc := doHMAC prf prk (info ++ [1]) in Some (take k hc)
                   else Some []) in
   hkdf_loop (Z.to_nat (Z.of_nat t - 1)) 1 prf k prk info result) = Some (Ts t).
Proof.
  intros Ht. destruct t as [|t]; [done|]. 
  replace (0 <? Z.of_nat (S t)) with true by (symmetry; apply Z.ltb_lt; lia).
  assert (H1 : doHMAC prf prk (info ++ [1]) = Some (T 1)) by (apply (hmac_next 0); lia).
  rewrite H1, take_T.
  pose proof (hkdf_loop_spec t 0) as Hloop. rewrite Ts_S in Hloop.
  change (Ts 0 ++ T 1) with (T 1) in Hloop. change (Z.of_nat 1) with 1 in Hloop.
  replace (Z.to_nat (Z.of_nat (S t) - 1)) with t by lia. rewrite Hloop by lia. done.
Qed.
End Expand.

Lemma hkdf_is_rfc5869_blocks L xtr prf xts skm args :
  gcry_md_open xtr = true -> gcry_md_open prf = true ->
  0 < gcry_md_get_algo_dlen prf -> 0 <= L <= 255 * gcry_md_get_algo_dlen prf ->
  GNUNET_CRYPTO_hkdf_v L xtr prf xts skm args = Some (rfc5869 L xtr prf xts skm (concat args))
  /\ Z.of_nat (length (rfc5869 L xtr prf xts skm (concat args))) = L.
Proof.
  intros Hx Hp Hk HL. unfold GNUNET_CRYPTO_hkdf_v, rfc5869, getPRK.
  set (k := gcry_md_get_algo_dlen prf) in *. set (info := concat args).
  destruct (hmac_of_spec xtr xts skm Hx) as [E El]. unfold doHMAC at 1. rewrite E.
  rewrite <- El, firstn_all. set (prk := hmac_of xtr xts skm).
  replace (k =? 0) with false by (symmetry; apply Z.eqb_neq; lia). rewrite Hx, Hp. cbn [negb].
  pose proof (Z.div_mod L k ltac:(lia)) as Hdm. pose proof (Z.mod_pos_bound L k Hk) as Hmod.
  assert (Ht : 0 <= L / k <= 255) by (split; [apply Z.div_pos; lia|apply Z.div_le_upper_bound; lia]).
  set (t := Z.to_nat (L / k)). replace (L / k) with (Z.of_nat t) in * by lia.
  pose proof (hkdf_whole_blocks prf prk info Hp t ltac:(lia)) as Hw. fold k in Hw.
  destruct (if 0 <? Z.of_nat t then _ else _) as [r|]; [|done]. rewrite Hw.
  pose proof (length_Ts prf prk info Hp) as Hlen. fold k in Hlen.
  assert (HlenZ : forall n, Z.of_nat (length (rfc5869_Ts prf prk info n)) = Z.of_nat n * k)
    by (intros n; rewrite Hlen; lia).
  destruct (Z.ltb_spec 0 (L mod k)) as [Hd|Hd].
  - replace ((L + k - 1) / k) with (Z.of_nat (S t)).
    2:{ apply (Z.div_unique _ _ _ (L mod k - 1)); lia. }
    rewrite Nat2Z.id. 
    assert (Hh : (if 0 <? Z.of_nat t
      then doHMAC prf prk (drop (length (rfc5869_Ts prf prk info t) - Z.to_nat k)
             (rfc5869_Ts prf prk info t) ++ info ++ [u8 (Z.of_nat t + 1)])
      else doHMAC prf prk (info ++ [1])) = Some (rfc5869_T prf prk info (S t))).
    { destruct t as [|t']; [by apply (hmac_next prf prk info Hp 0); lia|].
      replace (0 <? Z.of_nat (S t')) with true by (symmetry; apply Z.ltb_lt; lia).
      rewrite (Ts_last prf prk info Hp). apply (hmac_next prf prk info Hp). nia. }
    rewrite Hh, Ts_S. split.
    + f_equal. rewrite take_app_ge by (specialize (HlenZ t); lia). f_equal. f_equal.
      specialize (HlenZ t). lia.
    + rewrite <- Ts_S, length_take. specialize (HlenZ (S t)). lia.
  - replace ((L + k - 1) / k) with (Z.of_nat t) by (apply (Z.div_unique _ _ _ (k - 1)); lia).
    rewrite Nat2Z.id. specialize (HlenZ t). rewrite take_ge by lia. split; [done|]. lia.
Qed.
End Reference.

(** ** Derived keys and encryption *)

Section Laws.
Context `{GcryptLaws}.

Lemma kdf_spec L xts skm args : 0 <= L <= 8160 ->
  GNUNET_CRYPTO_kdf_v L xts skm args =
    Some (rfc5869 L GCRY_MD_SHA512 GCRY_MD_SHA256 xts skm (concat args))
  /\ Z.of_nat (length (rfc5869 L GCRY_MD_SHA512 GCRY_MD_SHA256 xts skm (concat args))) = L.
Proof.
  intros HL. apply hkdf_is_rfc5869_blocks; [apply gcry_sha512|apply gcry_sha256|..];
    rewrite (proj2 gcry_sha256); lia.
Qed.

Lemma kdf_total L xts skm args : 0 <= L <= 8160 ->
  exists out, GNUNET_CRYPTO_kdf_v L xts skm args = Some out /\ Z.of_nat (length out) = L.
Proof. intros HL. destruct (kdf_spec L xts skm args HL) as [E El]. by eexists. Qed.

Lemma hmac_derive_key_total rkey salt args :
  exists key, GNUNET_CRYPTO_hmac_derive_key rkey salt args = Some key /\ length key = 64%nat.
Proof. destruct (kdf_total 64 salt rkey args) as (out & E & El); [lia|]. exists out. split; [exact E|lia]. Qed.

Lemma hmac_total key plaintext :
  exists mac, GNUNET_CRYPTO_hmac key plaintext = Some mac /\ length mac = 64%nat.
Proof.
  unfold GNUNET_CRYPTO_hmac. rewrite (proj1 gcry_sha512).
  destruct (hmac_of_spec GCRY_MD_SHA512 key plaintext (proj1 gcry_sha512)) as [E El].
  rewrite E. eexists. split; [done|]. rewrite length_take, El, (proj2 gcry_sha512). done.
Qed.

Lemma derive_iv_total skey salt args :
  exists iv, GNUNET_CRYPTO_symmetric_derive_iv skey salt args = Some iv /\ length iv = 32%nat.
Proof.
  unfold GNUNET_CRYPTO_symmetric_derive_iv, GNUNET_CRYPTO_symmetric_derive_iv_v.
  destruct (kdf_total 16 (salt ++ str "AES!") (aes_key skey) args) as (a & -> & La); [lia|].
  destruct (kdf_total 16 (salt ++ str "FISH") (twofish_key skey) args) as (t & -> & Lt); [lia|].
  eexists. split; [done|]. rewrite length_app. lia.
Qed.

Lemma symmetric_encrypt_total block skey iv : length skey = 64%nat -> length iv = 32%nat ->
  exists out, GNUNET_CRYPTO_symmetric_encrypt block skey iv = Some out /\ length out = length block.
Proof.
  intros Hk Hi. unfold GNUNET_CRYPTO_symmetric_encrypt, setup_cipher_aes, setup_cipher_twofish.
  cbn [cipher_encrypt]. unfold aes_key, twofish_key, aes_iv, twofish_iv.
  destruct (gcry_encrypt_length GCRY_CIPHER_AES256 (slice 0 32 skey) (slice 0 16 iv) block)
    as (tmp & -> & Lt); [by left|rewrite length_slice; lia..|].
  destruct (gcry_encrypt_length GCRY_CIPHER_TWOFISH (slice 32 32 skey) (slice 16 16 iv) tmp)
    as (out & -> & Lo); [by right|rewrite length_slice; lia..|].
  exists out. split; [done|congruence].
Qed.

Lemma symmetric_decrypt_encrypt block skey iv out :
  GNUNET_CRYPTO_symmetric_encrypt block skey iv = Some out ->
  GNUNET_CRYPTO_symmetric_decrypt out skey iv = Some block.
Proof.
  unfold GNUNET_CRYPTO_symmetric_encrypt, GNUNET_CRYPTO_symmetric_decrypt, setup_cipher_aes,
    setup_cipher_twofish. cbn [cipher_encrypt cipher_decrypt].
  destruct (gcry_cipher_encrypt GCRY_CIPHER_AES256 _ _ _) as [tmp|] eqn:E1; [|done]. intros E2.
  rewrite (gcry_decrypt_encrypt _ _ _ _ _ E2). exact (gcry_decrypt_encrypt _ _ _ _ _ E1).
Qed.

(** What the turn of [GNUNET_CRYPTO_kdf_mod_mpi] with counter [ctr] draws. *)
Definition mpi_candidate (n : Z) (xts skm ctx : list Z) (ctr : Z) : Z :=
  let nbits := mpi_nbits n in
  Z.land (be_decode (rfc5869 ((nbits - 1) / 8 + 1) GCRY_MD_SHA512 GCRY_MD_SHA256 xts skm
                       (ctx ++ le_encode 4 ctr))) (Z.ones nbits).

Lemma kdf_mod_mpi_loop_step fuel ctr n xts skm ctx : 0 < n -> mpi_nbits n <= 65280 ->
  kdf_mod_mpi_loop (S fuel) ctr (mpi_nbits n) n xts skm ctx =
  let r := mpi_candidate n xts skm ctx ctr in
  if r <? n then Some r else kdf_mod_mpi_loop fuel (u32 (ctr + 1)) (mpi_nbits n) n xts skm ctx.
Proof.
  intros Hn Hb. cbn [kdf_mod_mpi_loop]. set (nbits := mpi_nbits n) in *.
  assert (Hpos : 0 < nbits).
  { subst nbits. unfold mpi_nbits. pose proof (Z.log2_nonneg n). split_ifs; lia. }
  assert (HL : 0 <= (nbits - 1) / 8 + 1 <= 8160).
  { pose proof (Z.div_pos (nbits - 1) 8). pose proof (Z.div_lt_upper_bound (nbits - 1) 8 8160). lia. }
  destruct (kdf_spec ((nbits - 1) / 8 + 1) xts skm [ctx; le_encode 4 ctr] HL) as [E _].
  unfold GNUNET_CRYPTO_kdf. rewrite E. cbn [concat]. rewrite app_nil_r.
  set (r := Z.land _ (Z.ones nbits)). change (mpi_candidate n xts skm ctx ctr) with r.
  replace (Z.testbit r nbits) with false; [reflexivity|].
  subst r. rewrite Z.land_spec, Z.ones_spec_high by lia. by rewrite andb_false_r.
Qed.

Lemma mpi_candidate_nonneg n xts skm ctx ctr : 0 <= mpi_candidate n xts skm ctx ctr.
Proof.
  unfold mpi_candidate. apply Z.land_nonneg. right. rewrite Z.ones_equiv.
  assert (0 <= mpi_nbits n) by (unfold mpi_nbits; pose proof (Z.log2_nonneg n); split_ifs; lia).
  pose proof (Z.pow_pos_nonneg 2 (mpi_nbits n)). lia.
Qed.

Lemma kdf_mod_mpi_loop_first k fuel ctr n xts skm ctx : 0 < n -> mpi_nbits n <= 65280 ->
  0 <= ctr -> ctr + Z.of_nat k < 2 ^ 32 -> (k < fuel)%nat ->
  (forall j, ctr <= j < ctr + Z.of_nat k -> n <= mpi_candidate n xts skm ctx j) ->
  mpi_candidate n xts skm ctx (ctr + Z.of_nat k) < n ->
  kdf_mod_mpi_loop fuel ctr (mpi_nbits n) n xts skm ctx =
    Some (mpi_candidate n xts skm ctx (ctr + Z.of_nat k)).
Proof.
  intros Hn Hb. revert fuel ctr. induction k as [|k IH]; intros fuel ctr Hc Hs Hf Hrej Hacc;
    (destruct fuel as [|fuel]; [lia|]); rewrite kdf_mod_mpi_loop_step by done; cbv zeta.
  - rewrite Z.add_0_r in *. apply Z.ltb_lt in Hacc. by rewrite Hacc.
  - replace (mpi_candidate n xts skm ctx ctr <? n) with false
      by (symmetry; apply Z.ltb_ge, Hrej; lia).
    rewrite u32_small by (split; lia). replace (ctr + Z.of_nat (S k)) with (ctr + 1 + Z.of_nat k) in * by lia.
    apply IH; try lia; try done. intros j Hj. apply Hrej. lia.
Qed.
End Laws.

(** ** An instance *)

#[local] Instance toy_gcrypt : Gcrypt := {
  gcry_md_get_algo_dlen a := if a =? GCRY_MD_SHA256 then 32 else if a =? GCRY_MD_SHA512 then 64 else 0;
  gcry_md_open a := (a =? GCRY_MD_SHA256) || (a =? GCRY_MD_SHA512);
  gcry_md_hmac a key buf :=
    let n := if a =? GCRY_MD_SHA256 then 32%nat else 64%nat in
    Some (map (fun i => u8 (i + fold_left (fun s x => 31 * s + x) (key ++ buf) 7)) (seqZ 0 (Z.of_nat n)));
  gcry_md_hash_buffer a buf :=
    map (fun i => u8 (i + fold_left (fun s x => 31 * s + x) buf 1)) (seqZ 0 64);
  gcry_cipher_encrypt a key iv buf := Some (map (fun b => Z.lxor b (nth 0 key 0)) buf);
  gcry_cipher_decrypt a key iv buf := Some (map (fun b => Z.lxor b (nth 0 key 0)) buf);
}.

#[local] Instance toy_gcrypt_laws : GcryptLaws.
Proof.
  split; try done.
  - intros algo key buf. unfold gcry_md_open, gcry_md_hmac, gcry_md_get_algo_dlen, toy_gcrypt. intros Ho.
    eexists. split; [reflexivity|]. rewrite length_map, length_seqZ.
    destruct (algo =? GCRY_MD_SHA256); [done|]. by destruct (algo =? GCRY_MD_SHA512).
  - intros algo key iv buf _ _ _. eexists. split; [done|]. apply length_map.
  - intros algo key iv buf out [= <-]. cbn. f_equal. rewrite map_map.
    etransitivity; [|apply map_id]. apply map_ext. intros b. by rewrite Z.lxor_assoc, Z.lxor_nilpotent, Z.lxor_0_r.
Defined.

(** ** Properties *)

(** Hash codes as numbers of 512 bits: [hash_cmp] compares the numbers, so that it is
    a total order, [hash_xorcmp] compares the distances to the target in the metric of
    Kademlia, the exclusive or read as a number, and is zero only for equal hashes;
    [hash_matching_bits] is the length of the common part of the two numbers from the
    lowest bit on; [hash_sum] is the inverse of [hash_difference]. *)
Theorem hash_codes_are_numbers h1 h2 target :
  hash_ok h1 -> hash_ok h2 -> hash_ok target ->
  GNUNET_CRYPTO_hash_cmp h1 h2 = Z.sgn (hash_value h1 - hash_value h2)
  /\ GNUNET_CRYPTO_hash_xorcmp h1 h2 target =
       Z.sgn (hash_value (GNUNET_CRYPTO_hash_xor h1 target)
              - hash_value (GNUNET_CRYPTO_hash_xor h2 target))
  /\ hash_value (GNUNET_CRYPTO_hash_xor h1 h2) = Z.lxor (hash_value h1) (hash_value h2)
  /\ (GNUNET_CRYPTO_hash_xorcmp h1 h2 target = 0 <-> h1 = h2)
  /\ (exists m, GNUNET_CRYPTO_hash_matching_bits h1 h2 = Some m /\ 0 <= m <= 512
       /\ (forall j, 0 <= j < m -> Z.testbit (hash_value h1) j = Z.testbit (hash_value h2) j)
       /\ (m < 512 -> Z.testbit (hash_value h1) m <> Z.testbit (hash_value h2) m))
  /\ GNUNET_CRYPTO_hash_sum h1 (GNUNET_CRYPTO_hash_difference h1 h2) = h2.
Proof.
  intros H1 H2 Ht. rewrite hash_xorcmp_value, !hash_xor_value by done. split_and!; try done.
  - by apply hash_cmp_value.
  - split; [|intros ->; by rewrite Z.sub_diag]. intros E. apply hash_value_inj; [done..|].
    assert (Ex : Z.lxor (hash_value h1) (hash_value target) = Z.lxor (hash_value h2) (hash_value target)) by lia.
    apply (f_equal (fun z => Z.lxor z (hash_value target))) in Ex.
    by rewrite !Z.lxor_assoc, Z.lxor_nilpotent, !Z.lxor_0_r in Ex.
  - by apply matching_bits_loop_spec.
  - by apply hash_sum_difference.
Qed.

Lemma hash_codes_are_numbers_witness :
  GNUNET_CRYPTO_hash_cmp (repeat 1 64) (repeat 2 64) = -1
  /\ exists m, GNUNET_CRYPTO_hash_matching_bits (repeat 1 64) (repeat 2 64) = Some m.
Proof.
  destruct (hash_codes_are_numbers (repeat 1 64) (repeat 2 64) (repeat 0 64))
    as (E & _ & _ & _ & (m & Em & _) & _); [split; [repeat constructor; words|done]..|].
  split; [rewrite E; reflexivity|by exists m].
Defined.

(** C32. Key derivation is HKDF as RFC 5869 defines it, for every output of at most 255
    blocks: the result is the first bytes of T(1) | T(2) | ..., of the length asked for,
    with the chunks of the context one after the other as info. *)
Theorem hkdf_is_rfc5869 `{GcryptLaws} L xtr prf xts skm args :
  gcry_md_open xtr = true -> gcry_md_open prf = true ->
  0 < gcry_md_get_algo_dlen prf -> 0 <= L <= 255 * gcry_md_get_algo_dlen prf ->
  GNUNET_CRYPTO_hkdf_v L xtr prf xts skm args = Some (rfc5869 L xtr prf xts skm (concat args))
  /\ Z.of_nat (length (rfc5869 L xtr prf xts skm (concat args))) = L.
Proof. apply hkdf_is_rfc5869_blocks. Qed.

Lemma hkdf_is_rfc5869_witness :
  exists out, GNUNET_CRYPTO_hkdf_v 80 GCRY_MD_SHA512 GCRY_MD_SHA256 [1] [2; 3] [[4]; [5; 6]] = Some out
    /\ Z.of_nat (length out) = 80.
Proof.
  eexists. apply (hkdf_is_rfc5869 80 GCRY_MD_SHA512 GCRY_MD_SHA256 [1] [2; 3] [[4]; [5; 6]]);
    [reflexivity..|cbn; lia|cbn; lia].
Defined.

(** Symmetric encryption with derived material: keys and vectors that the library
    derives have the sizes the ciphers need, encryption with them succeeds and keeps the
    size, and decryption gives the plaintext back. *)
Theorem symmetric_roundtrip `{GcryptLaws} hc salt args block :
  exists skey iv0 iv akey mac out,
    GNUNET_CRYPTO_hash_to_aes_key hc = Some (skey, iv0)
    /\ length skey = 64%nat /\ length iv0 = 32%nat
    /\ GNUNET_CRYPTO_symmetric_derive_iv skey salt args = Some iv /\ length iv = 32%nat
    /\ GNUNET_CRYPTO_hmac_derive_key skey salt args = Some akey /\ length akey = 64%nat
    /\ GNUNET_CRYPTO_hmac akey out = Some mac /\ length mac = 64%nat
    /\ GNUNET_CRYPTO_symmetric_encrypt block skey iv = Some out /\ length out = length block
    /\ GNUNET_CRYPTO_symmetric_decrypt out skey iv = Some block.
Proof.
  unfold GNUNET_CRYPTO_hash_to_aes_key, GNUNET_CRYPTO_kdf.
  destruct (kdf_total 64 (str "Hash key derivation") hc []) as (skey & -> & Ls); [lia|].
  destruct (kdf_total 32 (str "Initialization vector derivation") hc []) as (iv0 & -> & Li); [lia|].
  destruct (derive_iv_total skey salt args) as (iv & Eiv & Liv).
  destruct (hmac_derive_key_total skey salt args) as (akey & Ek & Lk).
  destruct (symmetric_encrypt_total block skey iv) as (out & Eo & Lo); [lia|lia|].
  destruct (hmac_total akey out) as (mac & Em & Lm).
  exists skey, iv0, iv, akey, mac, out.
  split_and!; try done; try lia. by apply symmetric_decrypt_encrypt.
Qed.

Lemma symmetric_roundtrip_witness :
  exists skey iv out, GNUNET_CRYPTO_symmetric_encrypt [1; 2; 3] skey iv = Some out
    /\ GNUNET_CRYPTO_symmetric_decrypt out skey iv = Some [1; 2; 3].
Proof.
  destruct (symmetric_roundtrip (repeat 9 64) [4] [[5; 6]] [1; 2; 3])
    as (skey & _ & iv & _ & _ & out & _ & _ & _ & _ & _ & _ & _ & _ & _ & E & _ & D).
  by exists skey, iv, out.
Defined.

(** The number derived modulo [n]: the first of the candidates below [n]. *)
Lemma kdf_mod_mpi_first `{GcryptLaws} k fuel n xts skm ctx : 0 < n -> mpi_nbits n <= 65280 ->
  Z.of_nat k < 2 ^ 32 -> (k < fuel)%nat ->
  (forall j, 0 <= j < Z.of_nat k -> n <= mpi_candidate n xts skm ctx j) ->
  mpi_candidate n xts skm ctx (Z.of_nat k) < n ->
  exists r, GNUNET_CRYPTO_kdf_mod_mpi fuel n xts skm ctx = Some r /\ 0 <= r < n
    /\ r = mpi_candidate n xts skm ctx (Z.of_nat k).
Proof.
  intros Hn Hb Hk Hf Hrej Hacc. exists (mpi_candidate n xts skm ctx (Z.of_nat k)).
  split; [|split; [split; [apply mpi_candidate_nonneg|done]|done]].
  apply (kdf_mod_mpi_loop_first k fuel 0); try done.
Qed.

(** A string of [enclen] characters does not fit in the array with its final zero; a
    shorter one is never a hash. *)
Lemma hash_from_string_never_ok upper enc enclen :
  match GNUNET_CRYPTO_hash_from_string2 upper enc enclen with
  | None => True
  | Some (r, _) => r = GNUNET_SYSERR /\ Z.of_nat (length (upper enc)) < enclen
  end.
Proof.
  unfold GNUNET_CRYPTO_hash_from_string2.
  destruct (Z.leb_spec (Z.of_nat (length (upper enc ++ [0]))) enclen) as [Hle|]; [|done].
  set (u := (upper enc ++ [0]) ++ _).
  destruct (string_to_data_spec u sizeof_HashCode) as (ret & out & -> & H); [done|done|].
  replace (forallb valid_char (rev u)) with false in H.
  - rewrite andb_false_r in H. split; [done|]. rewrite length_app in Hle. cbn in Hle. lia.
  - symmetry. apply not_true_is_false. intros Hf. rewrite forallb_forall in Hf.
    assert (Hz : valid_char 0 = true) by (apply Hf; rewrite <- in_rev; unfold u; rewrite !in_app_iff; cbn; tauto).
    by vm_compute in Hz.
Qed.
