(* ===== verification/CoreKx.v ===== *)
(** * Key exchange between peers: [src/core/gnunet-service-core_kx.c]

    Peers exchange signed ephemeral keys, confirm the session keys derived from them
    with PING and PONG, and then exchange encrypted messages with sequence numbers. An
    operation takes the state of one key exchange and returns the new one with what it
    does to the outside, in order; [None] is a failed assertion. Messages are given
    without the message header, their fixed size having been checked by the message
    queue. The clock stands still during an operation; random numbers are arguments. *)

From Stdlib Require Import String.
From S2P Require Import Prelude Endian Time Message Strings Crypto.
#[local] Open Scope Z_scope.

(** ** Elliptic curves *)

(** The functions of [crypto_ecc.c] that the code calls, the arguments in the order of the
    source less those for results; [None] is a failure. *)
Class Ecc := {
  GNUNET_CRYPTO_ecc_ecdh : list Z -> list Z -> option (list Z);
  GNUNET_CRYPTO_ecdhe_key_get_public : list Z -> list Z;
  GNUNET_CRYPTO_eddsa_key_get_public : list Z -> list Z;
  GNUNET_CRYPTO_eddsa_sign : list Z -> list Z -> option (list Z);
  GNUNET_CRYPTO_eddsa_verify : Z -> list Z -> list Z -> list Z -> bool;
}.

(** ** Data *)

Inductive GNUNET_CORE_KxState :=
  | GNUNET_CORE_KX_STATE_DOWN
  | GNUNET_CORE_KX_STATE_KEY_SENT
  | GNUNET_CORE_KX_STATE_KEY_RECEIVED
  | GNUNET_CORE_KX_STATE_UP
  | GNUNET_CORE_KX_STATE_REKEY_SENT
  | GNUNET_CORE_KX_PEER_DISCONNECT
  | GNUNET_CORE_KX_ITERATION_FINISHED
  | GNUNET_CORE_KX_CORE_DISCONNECT.

#[export] Instance KxState_eq_dec : EqDecision GNUNET_CORE_KxState.
Proof. solve_decision. Defined.

(** The values on the wire. *)
Definition kx_state_value (s : GNUNET_CORE_KxState) : Z :=
  match s with
  | GNUNET_CORE_KX_STATE_DOWN => 0
  | GNUNET_CORE_KX_STATE_KEY_SENT => 1
  | GNUNET_CORE_KX_STATE_KEY_RECEIVED => 2
  | GNUNET_CORE_KX_STATE_UP => 3
  | GNUNET_CORE_KX_STATE_REKEY_SENT => 4
  | GNUNET_CORE_KX_PEER_DISCONNECT => 5
  | GNUNET_CORE_KX_ITERATION_FINISHED => 6
  | GNUNET_CORE_KX_CORE_DISCONNECT => 7
  end.

Definition INITIAL_SET_KEY_RETRY_FREQUENCY := GNUNET_TIME_relative_multiply GNUNET_TIME_UNIT_SECONDS 10.
Definition MIN_PING_FREQUENCY := GNUNET_TIME_relative_multiply GNUNET_TIME_UNIT_SECONDS 5.
Definition REKEY_FREQUENCY := GNUNET_TIME_relative_multiply GNUNET_TIME_relative_get_hour_ 12.
Definition REKEY_TOLERANCE := GNUNET_TIME_relative_multiply GNUNET_TIME_relative_get_minute_ 5.
Definition MAX_MESSAGE_AGE := GNUNET_TIME_relative_multiply GNUNET_TIME_relative_get_hour_ 24.
Definition GNUNET_CONSTANTS_IDLE_CONNECTION_TIMEOUT :=
  GNUNET_TIME_relative_multiply GNUNET_TIME_relative_get_minute_ 5.

Definition GNUNET_TIME_STD_BACKOFF (r : GNUNET_TIME_Relative) : GNUNET_TIME_Relative :=
  GNUNET_TIME_relative_min (GNUNET_TIME_relative_multiply GNUNET_TIME_relative_get_minute_ 15)
    (GNUNET_TIME_relative_multiply (GNUNET_TIME_relative_max GNUNET_TIME_UNIT_MILLISECONDS r) 2).

(** [sizeof (struct EncryptedMessage)] and [ENCRYPTED_HEADER_SIZE]. *)
Definition sizeof_EncryptedMessage : Z := 88.
Definition ENCRYPTED_HEADER_SIZE : Z := 72.

Abbreviation PeerIdentity := (list Z) (only parsing).

(** Integers that are not in network byte order are as the host reads them. *)
Record EphemeralKeyMessage := mk_ekm {
  ekm_sender_status : Z;
  ekm_signature : list Z;
  ekm_purpose_size : Z;
  ekm_purpose_purpose : Z;
  ekm_creation_time : GNUNET_TIME_Absolute;
  ekm_expiration_time : GNUNET_TIME_Absolute;
  ekm_ephemeral_key : list Z;
  ekm_origin_identity : PeerIdentity;
}.

(** What is encrypted: the target and the challenge. *)
Record PingMessage := mk_ping {
  ping_iv_seed : Z;
  ping_body : list Z;
}.

(** What is encrypted: the challenge, a reserved word and the target. *)
Record PongMessage := mk_pong {
  pong_iv_seed : Z;
  pong_body : list Z;
}.

(** What is encrypted: sequence number, a reserved word, time stamp and payload. *)
Record EncryptedMessage := mk_enc {
  enc_iv_seed : Z;
  enc_hmac : list Z;
  enc_body : list Z;
}.

(** Tasks are given by the delay they were scheduled with. *)
Record GSC_KeyExchangeInfo := mk_kx {
  kx_peer : PeerIdentity;
  kx_ping : PingMessage;
  other_ephemeral_key : list Z;
  encrypt_key : list Z;
  decrypt_key : list Z;
  foreign_key_expires : GNUNET_TIME_Absolute;
  kx_timeout : GNUNET_TIME_Absolute;
  last_notify_timeout : GNUNET_TIME_Absolute;
  set_key_retry_frequency : GNUNET_TIME_Relative;
  retry_set_key_task : option GNUNET_TIME_Relative;
  keep_alive_task : option GNUNET_TIME_Relative;
  last_packets_bitmap : Z;
  last_sequence_number_received : Z;
  last_sequence_number_sent : Z;
  ping_challenge : Z;
  has_excess_bandwidth : Z;
  kx_status : GNUNET_CORE_KxState;
}.

(** The static variables. [current_ekm] is sent with the status of the moment. *)
Record KxGlobals := mk_globals {
  GSC_my_identity : PeerIdentity;
  my_private_key : list Z;
  my_ephemeral_key : list Z;
  current_ekm : EphemeralKeyMessage;
}.

(** What an operation does to the outside. *)
Inductive kx_event :=
  | NotifyMonitors (status : GNUNET_CORE_KxState) (timeout : GNUNET_TIME_Absolute)
  | SendEphemeralKey (m : EphemeralKeyMessage)
  | SendPing (m : PingMessage)
  | SendPong (m : PongMessage)
  | SendEncrypted (m : EncryptedMessage)
  | SessionsCreate
  | SessionsEnd
  | SessionsReinit
  | SessionsSolicit
  | TokenizerReceive (payload : list Z)
  | SessionsSetTypemap (m : list Z)
  | SessionsConfirmTypemap (m : list Z)
  | ClientsDeliver (m : list Z) (size options : Z).

(** ** Updates *)

Definition set_status s kx := mk_kx (kx_peer kx) (kx_ping kx) (other_ephemeral_key kx)
  (encrypt_key kx) (decrypt_key kx) (foreign_key_expires kx) (kx_timeout kx)
  (last_notify_timeout kx) (set_key_retry_frequency kx) (retry_set_key_task kx)
  (keep_alive_task kx) (last_packets_bitmap kx) (last_sequence_number_received kx)
  (last_sequence_number_sent kx) (ping_challenge kx) (has_excess_bandwidth kx) s.
Definition set_ping p c kx := mk_kx (kx_peer kx) p (other_ephemeral_key kx)
  (encrypt_key kx) (decrypt_key kx) (foreign_key_expires kx) (kx_timeout kx)
  (last_notify_timeout kx) (set_key_retry_frequency kx) (retry_set_key_task kx)
  (keep_alive_task kx) (last_packets_bitmap kx) (last_sequence_number_received kx)
  (last_sequence_number_sent kx) c (has_excess_bandwidth kx) (kx_status kx).
Definition set_foreign k t kx := mk_kx (kx_peer kx) (kx_ping kx) k
  (encrypt_key kx) (decrypt_key kx) t (kx_timeout kx)
  (last_notify_timeout kx) (set_key_retry_frequency kx) (retry_set_key_task kx)
  (keep_alive_task kx) (last_packets_bitmap kx) (last_sequence_number_received kx)
  (last_sequence_number_sent kx) (ping_challenge kx) (has_excess_bandwidth kx) (kx_status kx).
Definition set_keys e d kx := mk_kx (kx_peer kx) (kx_ping kx) (other_ephemeral_key kx)
  e d (foreign_key_expires kx) (kx_timeout kx)
  (last_notify_timeout kx) (set_key_retry_frequency kx) (retry_set_key_task kx)
  (keep_alive_task kx) (last_packets_bitmap kx) (last_sequence_number_received kx)
  (last_sequence_number_sent kx) (ping_challenge kx) (has_excess_bandwidth kx) (kx_status kx).
Definition set_timeout t n kx := mk_kx (kx_peer kx) (kx_ping kx) (other_ephemeral_key kx)
  (encrypt_key kx) (decrypt_key kx) (foreign_key_expires kx) t
  n (set_key_retry_frequency kx) (retry_set_key_task kx)
  (keep_alive_task kx) (last_packets_bitmap kx) (last_sequence_number_received kx)
  (last_sequence_number_sent kx) (ping_challenge kx) (has_excess_bandwidth kx) (kx_status kx).
Definition set_retry f t kx := mk_kx (kx_peer kx) (kx_ping kx) (other_ephemeral_key kx)
  (encrypt_key kx) (decrypt_key kx) (foreign_key_expires kx) (kx_timeout kx)
  (last_notify_timeout kx) f t
  (keep_alive_task kx) (last_packets_bitmap kx) (last_sequence_number_received kx)
  (last_sequence_number_sent kx) (ping_challenge kx) (has_excess_bandwidth kx) (kx_status kx).
Definition set_keep_alive t kx := mk_kx (kx_peer kx) (kx_ping kx) (other_ephemeral_key kx)
  (encrypt_key kx) (decrypt_key kx) (foreign_key_expires kx) (kx_timeout kx)
  (last_notify_timeout kx) (set_key_retry_frequency kx) (retry_set_key_task kx)
  t (last_packets_bitmap kx) (last_sequence_number_received kx)
  (last_sequence_number_sent kx) (ping_challenge kx) (has_excess_bandwidth kx) (kx_status kx).
Definition set_window b l kx := mk_kx (kx_peer kx) (kx_ping kx) (other_ephemeral_key kx)
  (encrypt_key kx) (decrypt_key kx) (foreign_key_expires kx) (kx_timeout kx)
  (last_notify_timeout kx) (set_key_retry_frequency kx) (retry_set_key_task kx)
  (keep_alive_task kx) b l
  (last_sequence_number_sent kx) (ping_challenge kx) (has_excess_bandwidth kx) (kx_status kx).
Definition set_sent n x kx := mk_kx (kx_peer kx) (kx_ping kx) (other_ephemeral_key kx)
  (encrypt_key kx) (decrypt_key kx) (foreign_key_expires kx) (kx_timeout kx)
  (last_notify_timeout kx) (set_key_retry_frequency kx) (retry_set_key_task kx)
  (keep_alive_task kx) (last_packets_bitmap kx) (last_sequence_number_received kx)
  n (ping_challenge kx) x (kx_status kx).

(** One operation after the other, with the events of both. *)
Definition andthen (m : option (GSC_KeyExchangeInfo * list kx_event))
    (f : GSC_KeyExchangeInfo -> option (GSC_KeyExchangeInfo * list kx_event))
  : option (GSC_KeyExchangeInfo * list kx_event) :=
  let? (kx, e1) := m in let? (kx, e2) := f kx in Some (kx, e1 ++ e2).

Notation "m >>> f" := (andthen m f) (at level 50, left associativity).

Definition done (kx : GSC_KeyExchangeInfo) : option (GSC_KeyExchangeInfo * list kx_event) :=
  Some (kx, []).
Definition emit (e : kx_event) (kx : GSC_KeyExchangeInfo)
  : option (GSC_KeyExchangeInfo * list kx_event) := Some (kx, [e]).
Definition when (b : bool) (f : GSC_KeyExchangeInfo -> option (GSC_KeyExchangeInfo * list kx_event))
    (kx : GSC_KeyExchangeInfo) : option (GSC_KeyExchangeInfo * list kx_event) :=
  if b then f kx else done kx.

Definition status_in (l : list GNUNET_CORE_KxState) (kx : GSC_KeyExchangeInfo) : bool :=
  existsb (fun s => bool_decide (kx_status kx = s)) l.

(** String constants with their final zero. *)
Definition context (s : string) : list Z := str s ++ [0].

Definition bytes_eqb (a b : list Z) : bool := bool_decide (a = b).

(** ** Sequence numbers

    The checks of [handle_encrypted] between decryption and time stamp, on
    [last_packets_bitmap] and [last_sequence_number_received]; [None] when the message
    is ignored. *)

Definition check_sequence (bitmap last snum : Z) : option (Z * Z) :=
  if last =? snum then None
  else if (last >? snum) && (last - snum >? 32) then None
  else if last >? snum then
    let rotbit := u32 (Z.shiftl 1 (last - snum - 1)) in
    if negb (Z.land bitmap rotbit =? 0) then None
    else Some (Z.lor bitmap rotbit, last)
  else
    let shift := snum - last in
    Some (if shift >=? 32 then 0 else u32 (Z.shiftl bitmap shift), snum).

(** ** Operations

    [GSC_KX_] functions, handlers and tasks. *)

Section Operations.
Context `{Gcrypt} `{Ecc} (g : KxGlobals) (now : GNUNET_TIME_Absolute).

(** [calculate_seed], of a random number. *)
Definition calculate_seed (r : Z) : Z := htonl r.

Definition monitor_notify_all (kx : GSC_KeyExchangeInfo)
  : option (GSC_KeyExchangeInfo * list kx_event) :=
  Some (set_timeout (kx_timeout kx) (kx_timeout kx) kx,
        [NotifyMonitors (kx_status kx) (kx_timeout kx)]).

(** [None] in the first three: the derivation fails and the result is not initialised. *)
Definition derive_auth_key (skey : list Z) (seed : Z) : option (list Z) :=
  GNUNET_CRYPTO_hmac_derive_key skey (le_encode 4 seed) [skey; context "authentication key"].

Definition derive_iv (skey : list Z) (seed : Z) (identity : PeerIdentity) : option (list Z) :=
  GNUNET_CRYPTO_symmetric_derive_iv skey (le_encode 4 seed) [identity; context "initialization vector"].

Definition derive_pong_iv (skey : list Z) (seed challenge : Z) (identity : PeerIdentity)
  : option (list Z) :=
  GNUNET_CRYPTO_symmetric_derive_iv skey (le_encode 4 seed)
    [identity; le_encode 4 challenge; context "pong initialization vector"].

(** [skey] is the key before, which stays when the derivation fails. *)
Definition derive_aes_key (sender receiver : PeerIdentity) (key_material skey : list Z) : list Z :=
  default skey (GNUNET_CRYPTO_kdf 64 (context "aes key generation vector") key_material
                  [sender; receiver]).

(** [Some None]: refused, nothing is written. *)
Definition do_encrypt (kx : GSC_KeyExchangeInfo) (iv in_ : list Z) : option (option (list Z)) :=
  let size := Z.of_nat (length in_) in
  if negb (size =? u16 size) then Some None
  else let? out := GNUNET_CRYPTO_symmetric_encrypt in_ (encrypt_key kx) iv in
       assert? (Z.of_nat (length out) =? size) in Some (Some out).

(** [None]: an error is returned. *)
Definition do_decrypt (kx : GSC_KeyExchangeInfo) (iv in_ : list Z) : option (list Z) :=
  let size := Z.of_nat (length in_) in
  if negb (size =? u16 size) then None
  else if negb (status_in [GNUNET_CORE_KX_STATE_KEY_RECEIVED; GNUNET_CORE_KX_STATE_UP;
                           GNUNET_CORE_KX_STATE_REKEY_SENT] kx) then None
  else let? out := GNUNET_CRYPTO_symmetric_decrypt in_ (decrypt_key kx) iv in
       if Z.of_nat (length out) =? size then Some out else None.

(** [rnd] is the two random numbers drawn, for the challenge and for the seed. *)
Definition setup_fresh_ping (rnd : Z * Z) (kx : GSC_KeyExchangeInfo)
  : option (GSC_KeyExchangeInfo * list kx_event) :=
  let challenge := fst rnd in
  let iv_seed := calculate_seed (snd rnd) in
  let? iv := derive_iv (encrypt_key kx) iv_seed (kx_peer kx) in
  let? r := do_encrypt kx iv (kx_peer kx ++ le_encode 4 challenge) in
  let body := match r with Some out => out | None => ping_body (kx_ping kx) end in
  done (set_ping (mk_ping iv_seed body) challenge kx).

Definition send_ping (kx : GSC_KeyExchangeInfo) : option (GSC_KeyExchangeInfo * list kx_event) :=
  emit (SendPing (kx_ping kx)) kx.

(** [current_ekm] with the status of the sender. *)
Definition ekm_with_status (s : GNUNET_CORE_KxState) (m : EphemeralKeyMessage) : EphemeralKeyMessage :=
  mk_ekm (kx_state_value s) (ekm_signature m) (ekm_purpose_size m) (ekm_purpose_purpose m)
    (ekm_creation_time m) (ekm_expiration_time m) (ekm_ephemeral_key m) (ekm_origin_identity m).

Definition send_key (kx : GSC_KeyExchangeInfo) : option (GSC_KeyExchangeInfo * list kx_event) :=
  assert? negb (bool_decide (kx_status kx = GNUNET_CORE_KX_STATE_DOWN)) in
  done (set_retry (set_key_retry_frequency kx) None kx)
  >>> emit (SendEphemeralKey (ekm_with_status (kx_status kx) (current_ekm g)))
  >>> when (negb (bool_decide (kx_status kx = GNUNET_CORE_KX_STATE_KEY_SENT))) send_ping
  >>> (fun kx => done (set_retry (set_key_retry_frequency kx) (Some (set_key_retry_frequency kx)) kx)).

Definition set_key_retry_task (kx : GSC_KeyExchangeInfo)
  : option (GSC_KeyExchangeInfo * list kx_event) :=
  let kx := set_retry (GNUNET_TIME_STD_BACKOFF (set_key_retry_frequency kx)) None kx in
  assert? negb (bool_decide (kx_status kx = GNUNET_CORE_KX_STATE_DOWN)) in
  send_key kx.

(** [GNUNET_new]. *)
Definition kx_new (pid : PeerIdentity) : GSC_KeyExchangeInfo :=
  mk_kx pid (mk_ping 0 (repeat 0 36)) (repeat 0 32) (repeat 0 64) (repeat 0 64)
    (mk_abs 0) (mk_abs 0) (mk_abs 0) INITIAL_SET_KEY_RETRY_FREQUENCY None None
    0 0 0 0 GNUNET_NO GNUNET_CORE_KX_STATE_DOWN.

Definition handle_transport_notify_connect (pid : PeerIdentity)
  : option (GSC_KeyExchangeInfo * list kx_event) :=
  done (set_status GNUNET_CORE_KX_STATE_KEY_SENT (kx_new pid))
  >>> monitor_notify_all
  >>> (fun kx =>
    let h1 := GNUNET_CRYPTO_hash pid in
    let h2 := GNUNET_CRYPTO_hash (GSC_my_identity g) in
    if 0 <? GNUNET_CRYPTO_hash_cmp h1 h2 then send_key kx
    else done (set_retry (set_key_retry_frequency kx) (Some GNUNET_TIME_UNIT_SECONDS) kx)).

(** The key exchange is freed at the end. *)
Definition handle_transport_notify_disconnect (kx : GSC_KeyExchangeInfo)
  : option (GSC_KeyExchangeInfo * list kx_event) :=
  emit SessionsEnd kx
  >>> (fun kx => done (set_retry (set_key_retry_frequency kx) None kx))
  >>> (fun kx => done (set_keep_alive None kx))
  >>> (fun kx => done (set_status GNUNET_CORE_KX_PEER_DISCONNECT kx))
  >>> monitor_notify_all.

Definition derive_session_keys (rnd : Z * Z) (kx : GSC_KeyExchangeInfo)
  : option (GSC_KeyExchangeInfo * list kx_event) :=
  match GNUNET_CRYPTO_ecc_ecdh (my_ephemeral_key g) (other_ephemeral_key kx) with
  | None => done kx
  | Some key_material =>
      done (set_keys (derive_aes_key (GSC_my_identity g) (kx_peer kx) key_material (encrypt_key kx))
                     (derive_aes_key (kx_peer kx) (GSC_my_identity g) key_material (decrypt_key kx)) kx)
      >>> (fun kx => done (set_window 0 0 kx))
      >>> setup_fresh_ping rnd
  end.

Definition GNUNET_SIGNATURE_PURPOSE_SET_ECC_KEY : Z := 16.

(** The signed part of the message, from [purpose] to its end. *)
Definition ekm_signed_bytes (m : EphemeralKeyMessage) : list Z :=
  be_encode 4 (ekm_purpose_size m) ++ be_encode 4 (ekm_purpose_purpose m)
  ++ be_encode 8 (abs_value_us (ekm_creation_time m))
  ++ be_encode 8 (abs_value_us (ekm_expiration_time m))
  ++ ekm_ephemeral_key m ++ ekm_origin_identity m.

(** The end of each case of the last [switch]. *)
Definition reply_key_or_ping (sender_status : Z) (kx : GSC_KeyExchangeInfo)
  : option (GSC_KeyExchangeInfo * list kx_event) :=
  if sender_status =? kx_state_value GNUNET_CORE_KX_STATE_KEY_SENT then send_key kx else send_ping kx.

(** The last [switch]: confirm via PING and PONG. *)
Definition confirm_key (sender_status : Z) (kx : GSC_KeyExchangeInfo)
  : option (GSC_KeyExchangeInfo * list kx_event) :=
  match kx_status kx with
  | GNUNET_CORE_KX_STATE_DOWN | GNUNET_CORE_KX_STATE_KEY_SENT =>
      assert? bool_decide (keep_alive_task kx = None) in
      done (set_status GNUNET_CORE_KX_STATE_KEY_RECEIVED kx)
      >>> monitor_notify_all >>> reply_key_or_ping sender_status
  | GNUNET_CORE_KX_STATE_KEY_RECEIVED =>
      assert? bool_decide (keep_alive_task kx = None) in
      reply_key_or_ping sender_status kx
  | GNUNET_CORE_KX_STATE_UP =>
      done (set_status GNUNET_CORE_KX_STATE_REKEY_SENT kx)
      >>> monitor_notify_all >>> reply_key_or_ping sender_status
  | GNUNET_CORE_KX_STATE_REKEY_SENT => reply_key_or_ping sender_status kx
  | _ => done kx
  end.

Definition handle_ephemeral_key (rnd : Z * Z) (m : EphemeralKeyMessage) (kx : GSC_KeyExchangeInfo)
  : option (GSC_KeyExchangeInfo * list kx_event) :=
  let end_t := ekm_expiration_time m in
  let start_t := ekm_creation_time m in
  let sender_status := ekm_sender_status m in
  if status_in [GNUNET_CORE_KX_STATE_KEY_RECEIVED; GNUNET_CORE_KX_STATE_UP;
                GNUNET_CORE_KX_STATE_REKEY_SENT] kx
     && (abs_value_us end_t <? abs_value_us (foreign_key_expires kx)) then done kx
  else if negb (bytes_eqb (ekm_origin_identity m) (kx_peer kx)) then done kx
  else if negb (ekm_purpose_size m =? 88)
          || negb (GNUNET_CRYPTO_eddsa_verify GNUNET_SIGNATURE_PURPOSE_SET_ECC_KEY (ekm_signed_bytes m)
                     (ekm_signature m) (ekm_origin_identity m)) then done kx
  else if (abs_value_us end_t <? abs_value_us (GNUNET_TIME_absolute_subtract now REKEY_TOLERANCE))
          || (abs_value_us start_t >? abs_value_us (GNUNET_TIME_absolute_add now REKEY_TOLERANCE))
       then done kx
  else
    derive_session_keys rnd (set_foreign (ekm_ephemeral_key m) end_t kx)
    >>> when ((sender_status =? kx_state_value GNUNET_CORE_KX_STATE_KEY_SENT)
              || (sender_status =? kx_state_value GNUNET_CORE_KX_STATE_KEY_RECEIVED))
         (emit SessionsReinit)
    >>> confirm_key sender_status.

(** [r] is the random number drawn for the seed. *)
Definition handle_ping (r : Z) (m : PingMessage) (kx : GSC_KeyExchangeInfo)
  : option (GSC_KeyExchangeInfo * list kx_event) :=
  if negb (status_in [GNUNET_CORE_KX_STATE_KEY_RECEIVED; GNUNET_CORE_KX_STATE_UP;
                      GNUNET_CORE_KX_STATE_REKEY_SENT] kx) then done kx
  else
    let? iv := derive_iv (decrypt_key kx) (ping_iv_seed m) (GSC_my_identity g) in
    match do_decrypt kx iv (ping_body m) with
    | None => done kx
    | Some t =>
        let target := slice 0 32 t in
        let challenge := le_decode (slice 32 4 t) in
        if negb (bytes_eqb target (GSC_my_identity g)) then done kx
        else
          let iv_seed := calculate_seed r in
          let? iv := derive_pong_iv (encrypt_key kx) iv_seed challenge (kx_peer kx) in
          let tx := le_encode 4 challenge ++ le_encode 4 0 ++ target in
          let? out := do_encrypt kx iv tx in
          let body := match out with Some out => out | None => repeat 0 40 end in
          emit (SendPong (mk_pong iv_seed body)) kx
    end.

Definition send_keep_alive (rnd : Z * Z) (kx : GSC_KeyExchangeInfo)
  : option (GSC_KeyExchangeInfo * list kx_event) :=
  let kx := set_keep_alive None kx in
  let left := GNUNET_TIME_absolute_get_remaining now (kx_timeout kx) in
  if 0 =? rel_value_us left then
    emit SessionsEnd kx
    >>> (fun kx => done (set_status GNUNET_CORE_KX_STATE_KEY_SENT kx))
    >>> monitor_notify_all >>> send_key
  else
    setup_fresh_ping rnd kx
    >>> send_ping
    >>> (fun kx =>
      let retry := GNUNET_TIME_relative_max (GNUNET_TIME_relative_divide left 2) MIN_PING_FREQUENCY in
      done (set_keep_alive (Some retry) kx)).

Definition update_timeout (kx : GSC_KeyExchangeInfo)
  : option (GSC_KeyExchangeInfo * list kx_event) :=
  let timeout := GNUNET_TIME_relative_to_absolute now GNUNET_CONSTANTS_IDLE_CONNECTION_TIMEOUT in
  let delta := GNUNET_TIME_absolute_get_difference (last_notify_timeout kx) timeout in
  done (set_timeout timeout (last_notify_timeout kx) kx)
  >>> when (rel_value_us delta >? 5 * 1000 * 1000) monitor_notify_all
  >>> (fun kx => done (set_keep_alive
        (Some (GNUNET_TIME_relative_divide GNUNET_CONSTANTS_IDLE_CONNECTION_TIMEOUT 2)) kx)).

Definition handle_pong (m : PongMessage) (kx : GSC_KeyExchangeInfo)
  : option (GSC_KeyExchangeInfo * list kx_event) :=
  if negb (status_in [GNUNET_CORE_KX_STATE_KEY_RECEIVED; GNUNET_CORE_KX_STATE_UP;
                      GNUNET_CORE_KX_STATE_REKEY_SENT] kx) then done kx
  else
    let? iv := derive_pong_iv (decrypt_key kx) (pong_iv_seed m) (ping_challenge kx)
                (GSC_my_identity g) in
    match do_decrypt kx iv (pong_body m) with
    | None => done kx
    | Some t =>
        let challenge := le_decode (slice 0 4 t) in
        let target := slice 8 32 t in
        if negb (bytes_eqb target (kx_peer kx)) || negb (ping_challenge kx =? challenge) then done kx
        else
          done (set_retry (set_key_retry_frequency kx) None kx)
          >>> (fun kx =>
            match kx_status kx with
            | GNUNET_CORE_KX_STATE_DOWN | GNUNET_CORE_KX_STATE_KEY_SENT => None
            | GNUNET_CORE_KX_STATE_KEY_RECEIVED =>
                done (set_status GNUNET_CORE_KX_STATE_UP kx)
                >>> monitor_notify_all
                >>> emit SessionsCreate
                >>> (fun kx => assert? bool_decide (keep_alive_task kx = None) in update_timeout kx)
            | GNUNET_CORE_KX_STATE_UP => update_timeout kx
            | GNUNET_CORE_KX_STATE_REKEY_SENT =>
                done (set_status GNUNET_CORE_KX_STATE_UP kx)
                >>> monitor_notify_all >>> update_timeout
            | _ => done kx
            end)
    end.

(** The envelope has the size of the message as a 16-bit number: [None] when the message
    does not fit in it. *)
Definition GSC_KX_encrypt_and_transmit (r : Z) (payload : list Z) (kx : GSC_KeyExchangeInfo)
  : option (GSC_KeyExchangeInfo * list kx_event) :=
  let used := Z.of_nat (length payload) + sizeof_EncryptedMessage in
  let kx := set_sent (u32 (last_sequence_number_sent kx + 1)) (has_excess_bandwidth kx) kx in
  let iv_seed := calculate_seed r in
  let ph := be_encode 4 (last_sequence_number_sent kx) ++ be_encode 4 0
            ++ be_encode 8 (abs_value_us now) ++ payload in
  assert? (used =? u16 used) in
  let? iv := derive_iv (encrypt_key kx) iv_seed (kx_peer kx) in
  let? out := do_encrypt kx iv ph in
  let? em := out in
  let? auth_key := derive_auth_key (encrypt_key kx) iv_seed in
  let? hmac := GNUNET_CRYPTO_hmac auth_key em in
  emit (SendEncrypted (mk_enc iv_seed hmac em))
    (set_sent (last_sequence_number_sent kx) GNUNET_NO kx).

(** The size of the message; its header says so, as the message queue has checked. *)
Definition enc_size (m : EncryptedMessage) : Z := ENCRYPTED_HEADER_SIZE + Z.of_nat (length (enc_body m)).

Definition check_encrypted (m : EncryptedMessage) : bool :=
  negb (u16 (enc_size m - sizeof_EncryptedMessage) <? sizeof_MessageHeader).

Definition handle_encrypted (m : EncryptedMessage) (kx : GSC_KeyExchangeInfo)
  : option (GSC_KeyExchangeInfo * list kx_event) :=
  if negb (bool_decide (kx_status kx = GNUNET_CORE_KX_STATE_UP)) then done kx
  else if 0 =? rel_value_us (GNUNET_TIME_absolute_get_remaining now (foreign_key_expires kx)) then
    emit SessionsEnd kx
    >>> (fun kx => done (set_keep_alive None kx))
    >>> (fun kx => done (set_status GNUNET_CORE_KX_STATE_KEY_SENT kx))
    >>> monitor_notify_all >>> send_key
  else
    let? auth_key := derive_auth_key (decrypt_key kx) (enc_iv_seed m) in
    let? ph := GNUNET_CRYPTO_hmac auth_key (enc_body m) in
    if negb (bytes_eqb ph (enc_hmac m)) then done kx
    else
      let? iv := derive_iv (decrypt_key kx) (enc_iv_seed m) (GSC_my_identity g) in
      match do_decrypt kx iv (enc_body m) with
      | None => done kx
      | Some pt =>
          let snum := be_decode (slice 0 4 pt) in
          match check_sequence (last_packets_bitmap kx) (last_sequence_number_received kx) snum with
          | None => done kx
          | Some (bitmap, last) =>
              let kx := set_window bitmap last kx in
              let t := mk_abs (be_decode (slice 8 8 pt)) in
              if rel_value_us (GNUNET_TIME_absolute_get_duration now t) >? rel_value_us MAX_MESSAGE_AGE
              then done kx
              else update_timeout kx >>> emit (TokenizerReceive (drop 16 pt))
          end
      end.

Definition handle_transport_notify_excess_bw (kx : GSC_KeyExchangeInfo)
  : option (GSC_KeyExchangeInfo * list kx_event) :=
  emit SessionsSolicit (set_sent (last_sequence_number_sent kx) GNUNET_YES kx).

Definition GNUNET_MESSAGE_TYPE_CORE_COMPRESSED_TYPE_MAP : Z := 86.
Definition GNUNET_MESSAGE_TYPE_CORE_BINARY_TYPE_MAP : Z := 87.
Definition GNUNET_MESSAGE_TYPE_CORE_CONFIRM_TYPE_MAP : Z := 89.
Definition GNUNET_CORE_OPTION_SEND_FULL_INBOUND : Z := 8.
Definition GNUNET_CORE_OPTION_SEND_HDR_INBOUND : Z := 16.

(** The callback of the tokenizer; it always returns [GNUNET_OK]. *)
Definition deliver_message (m : list Z) (kx : GSC_KeyExchangeInfo)
  : option (GSC_KeyExchangeInfo * list kx_event) :=
  if negb (bool_decide (kx_status kx = GNUNET_CORE_KX_STATE_UP)) then done kx
  else if (msg_type m =? GNUNET_MESSAGE_TYPE_CORE_BINARY_TYPE_MAP)
          || (msg_type m =? GNUNET_MESSAGE_TYPE_CORE_COMPRESSED_TYPE_MAP)
       then emit (SessionsSetTypemap m) kx
  else if msg_type m =? GNUNET_MESSAGE_TYPE_CORE_CONFIRM_TYPE_MAP
       then emit (SessionsConfirmTypemap m) kx
  else emit (ClientsDeliver m (msg_size m) GNUNET_CORE_OPTION_SEND_FULL_INBOUND) kx
       >>> emit (ClientsDeliver m sizeof_MessageHeader GNUNET_CORE_OPTION_SEND_HDR_INBOUND).

(** [use_ephemeral_keys] is the configuration. *)
Definition sign_ephemeral_key (use_ephemeral_keys : bool) (key : list Z) : option KxGlobals :=
  let expiration_time :=
    if use_ephemeral_keys
    then GNUNET_TIME_relative_to_absolute now (GNUNET_TIME_relative_add REKEY_FREQUENCY REKEY_TOLERANCE)
    else GNUNET_TIME_UNIT_FOREVER_ABS in
  let unsigned := mk_ekm 0 (ekm_signature (current_ekm g)) 88 GNUNET_SIGNATURE_PURPOSE_SET_ECC_KEY
                    now expiration_time (GNUNET_CRYPTO_ecdhe_key_get_public key) (GSC_my_identity g) in
  let? signature := GNUNET_CRYPTO_eddsa_sign (my_private_key g) (ekm_signed_bytes unsigned) in
  Some (mk_globals (GSC_my_identity g) (my_private_key g) key
    (mk_ekm 0 signature 88 GNUNET_SIGNATURE_PURPOSE_SET_ECC_KEY
       now expiration_time (GNUNET_CRYPTO_ecdhe_key_get_public key) (GSC_my_identity g))).

(** The body of the loop of [do_rekey]. *)
Definition rekey_one (rnd : Z * Z) (pos : GSC_KeyExchangeInfo)
  : option (GSC_KeyExchangeInfo * list kx_event) :=
  (if bool_decide (kx_status pos = GNUNET_CORE_KX_STATE_UP) then
     done (set_status GNUNET_CORE_KX_STATE_REKEY_SENT pos)
     >>> monitor_notify_all >>> derive_session_keys rnd
   else done pos)
  >>> (fun pos =>
    if bool_decide (kx_status pos = GNUNET_CORE_KX_STATE_DOWN) then
      done (set_status GNUNET_CORE_KX_STATE_KEY_SENT pos) >>> monitor_notify_all
    else done pos)
  >>> monitor_notify_all
  >>> send_key.

End Operations.

(** [key] is the new ephemeral key, or [None] when none could be created; [rnds] the
    random numbers drawn for each key exchange. *)
Definition do_rekey `{Gcrypt} `{Ecc} (g : KxGlobals) (now : GNUNET_TIME_Absolute)
    (use_ephemeral_keys : bool) (key : option (list Z)) (l : list ((Z * Z) * GSC_KeyExchangeInfo))
  : option (KxGlobals * list (GSC_KeyExchangeInfo * list kx_event)) :=
  let? key := key in
  let? g := sign_ephemeral_key g now use_ephemeral_keys key in
  let? l := mapM (fun '(rnd, pos) => rekey_one g rnd pos) l in
  Some (g, l).

Definition GSC_NEIGHBOURS_check_excess_bandwidth (kxinfo : GSC_KeyExchangeInfo) : Z :=
  has_excess_bandwidth kxinfo.

(** What a new monitor is sent; the peer of the last message is not set. *)
Definition GSC_KX_handle_client_monitor_peers (l : list GSC_KeyExchangeInfo)
  : list (PeerIdentity * kx_event) :=
  map (fun kx => (kx_peer kx, NotifyMonitors (kx_status kx) (kx_timeout kx))) l
  ++ [(repeat 0 32, NotifyMonitors GNUNET_CORE_KX_ITERATION_FINISHED GNUNET_TIME_UNIT_FOREVER_ABS)].

(** ** The window of sequence numbers *)

(** The state after a series of numbers, and those accepted, the latest first. *)
Definition window_step (st : Z * Z * list Z) (snum : Z) : Z * Z * list Z :=
  let '(bitmap, last, accepted) := st in
  match check_sequence bitmap last snum with
  | Some (bitmap, last) => (bitmap, last, snum :: accepted)
  | None => st
  end.

Definition window_run (snums : list Z) : Z * Z * list Z := fold_left window_step snums (0, 0, []).

(** What the bit map stands for: the numbers that were accepted when they were not the
    newest. *)
Record window_inv (st : Z * Z * list Z) (late : list Z) : Prop := {
  wi_bitmap : is_u32 (fst (fst st));
  wi_last : is_u32 (snd (fst st));
  wi_bits : forall s, 0 <= s < snd (fst st) -> snd (fst st) - s <= 32 ->
    Z.testbit (fst (fst st)) (snd (fst st) - s - 1) = bool_decide (s ∈ late);
  wi_late : forall s, s ∈ late -> s < snd (fst st) /\ s ∈ snd st;
  wi_newest : forall s, s ∈ snd st -> s <= snd (fst st);
  wi_reached : 0 < snd (fst st) -> snd (fst st) ∈ snd st;
  wi_count : forall s, (count_occ Z.eq_dec (snd st) s <= 1 + if decide (s ∈ late) then 1 else 0)%nat;
}.

Lemma land_rotbit bitmap k : 0 <= k < 32 ->
  (Z.land bitmap (u32 (Z.shiftl 1 k)) =? 0) = negb (Z.testbit bitmap k).
Proof.
  intros Hk. rewrite Z.shiftl_1_l, u32_small.
  2:{ split; [apply Z.pow_nonneg; lia|apply Z.pow_lt_mono_r; lia]. }
  apply land_pow2_zero. lia.
Qed.

Lemma shifted_bit bitmap sh i : is_u32 bitmap -> 0 < sh -> 0 <= i < 32 ->
  Z.testbit (if sh >=? 32 then 0 else u32 (Z.shiftl bitmap sh)) i =
  if i <? sh then false else Z.testbit bitmap (i - sh).
Proof.
  intros Hb Hs Hi. destruct (Z.geb_spec sh 32) as [H|H].
  - rewrite Z.testbit_0_l. by replace (i <? sh) with true by lia.
  - unfold u32. rewrite Z.mod_pow2_bits_low, Z.shiftl_spec by lia.
    destruct (Z.ltb_spec i sh); [|done]. apply Z.testbit_neg_r. lia.
Qed.

Lemma rotbit_bit bitmap k i : 0 <= k < 32 -> 0 <= i ->
  Z.testbit (Z.lor bitmap (u32 (Z.shiftl 1 k))) i = Z.testbit bitmap i || (k =? i).
Proof.
  intros Hk Hi. rewrite Z.shiftl_1_l, u32_small.
  2:{ split; [apply Z.pow_nonneg; lia|apply Z.pow_lt_mono_r; lia]. }
  rewrite Z.lor_spec, Z.pow2_bits_eqb by lia. done.
Qed.

(** A number is accepted if it is new, or at most 32 below the newest and not yet accepted
    as such. *)
Lemma check_sequence_spec st late snum : window_inv st late -> is_u32 snum ->
  check_sequence (fst (fst st)) (snd (fst st)) snum =
  if snum <? snd (fst st) then
    if (snd (fst st) - snum <=? 32) && negb (bool_decide (snum ∈ late))
    then Some (Z.lor (fst (fst st)) (u32 (Z.shiftl 1 (snd (fst st) - snum - 1))), snd (fst st))
    else None
  else if snum =? snd (fst st) then None
  else Some (if snum - snd (fst st) >=? 32 then 0
             else u32 (Z.shiftl (fst (fst st)) (snum - snd (fst st))), snum).
Proof.
  intros W Hs. destruct st as [[bitmap last] acc]. cbn [fst snd]. unfold check_sequence.
  destruct (Z.ltb_spec snum last) as [Hlt|Hge].
  - replace (last =? snum) with false by lia. replace (last >? snum) with true by lia. cbn [andb].
    destruct (Z.leb_spec (last - snum) 32) as [H32|H32].
    + replace (last - snum >? 32) with false by lia. rewrite land_rotbit by lia.
      pose proof (wi_bits _ _ W snum) as Hbit. cbn [fst snd] in Hbit.
      rewrite Hbit; [|words; lia|lia].
      rewrite negb_involutive. by destruct (bool_decide (snum ∈ late)).
    + by replace (last - snum >? 32) with true by lia.
  - replace (last >? snum) with false by lia. cbn [andb]. by rewrite Z.eqb_sym.
Qed.

Lemma window_inv_late bitmap last acc late snum :
  window_inv (bitmap, last, acc) late -> is_u32 snum -> snum < last -> last - snum <= 32 ->
  snum ∉ late ->
  window_inv (Z.lor bitmap (u32 (Z.shiftl 1 (last - snum - 1))), last, snum :: acc) (snum :: late).
Proof.
  intros [Wb Wl Wbits Wlate Wnew Wr Wc] Hs Hlt H32 Hnin. cbn [fst snd] in *.
  split; cbn [fst snd]; try done.
  - apply word_lor; [lia|done|apply u32_range].
  - intros s H0 H1. rewrite rotbit_bit, (Wbits s H0 H1) by lia.
    apply eq_bool_prop_intro. rewrite orb_True, !bool_decide_spec, elem_of_cons.
    rewrite Is_true_true, Z.eqb_eq. split; [intros [?|?]; [by right|left; lia]|intros [->|?]; [right; lia|by left]].
  - intros s [->|Hin]%elem_of_cons; [split; [done|left]|].
    destruct (Wlate s Hin). split; [done|by right].
  - intros s [->|Hin]%elem_of_cons; [lia|by apply Wnew].
  - intros H0. right. by apply Wr.
  - intros s. specialize (Wc s). destruct (Z.eq_dec snum s) as [<-|Hne].
    + rewrite count_occ_cons_eq by done. rewrite decide_False in Wc by done.
      rewrite decide_True by left. lia.
    + rewrite count_occ_cons_neq by done. destruct (decide (s ∈ late)).
      * rewrite decide_True by (by right). lia.
      * rewrite decide_False; [lia|]. intros [->|?]%elem_of_cons; done.
Qed.

Lemma window_inv_newest bitmap last acc late snum :
  window_inv (bitmap, last, acc) late -> is_u32 snum -> last < snum ->
  window_inv (if snum - last >=? 32 then 0 else u32 (Z.shiftl bitmap (snum - last)), snum, snum :: acc) late.
Proof.
  intros [Wb Wl Wbits Wlate Wnew Wr Wc] Hs Hlt. cbn [fst snd] in *.
  assert (Hfresh : snum ∉ acc) by (intros Hin%Wnew; lia).
  split; cbn [fst snd]; try done.
  - destruct (snum - last >=? 32); [done|apply u32_range].
  - intros s H0 H1. rewrite shifted_bit by (done || lia).
    destruct (Z.ltb_spec (snum - s - 1) (snum - last)).
    + symmetry. apply bool_decide_eq_false. intros Hin%Wlate. lia.
    + replace (snum - s - 1 - (snum - last)) with (last - s - 1) by lia. apply Wbits; lia.
  - intros s Hin. destruct (Wlate s Hin). split; [lia|by right].
  - intros s [->|Hin%Wnew]%elem_of_cons; lia.
  - intros _. left.
  - intros s. specialize (Wc s). destruct (Z.eq_dec snum s) as [<-|Hne].
    + rewrite count_occ_cons_eq by done. rewrite (proj1 (count_occ_not_In Z.eq_dec acc snum)).
      * lia.
      * by rewrite <- list_elem_of_In.
    + by rewrite count_occ_cons_neq.
Qed.

Lemma window_step_inv st late snum : window_inv st late -> is_u32 snum ->
  exists late', window_inv (window_step st snum) late'.
Proof.
  intros W Hs. destruct st as [[bitmap last] acc]. cbn [window_step].
  pose proof (check_sequence_spec _ _ _ W Hs) as E. cbn [fst snd] in E. rewrite E. clear E.
  destruct (Z.ltb_spec snum last) as [Hlt|Hge].
  - destruct (Z.leb_spec (last - snum) 32) as [H32|_]; cbn [andb]; [|by exists late].
    case_bool_decide as Hin; cbn [negb]; [by exists late|]. exists (snum :: late).
    by apply window_inv_late.
  - destruct (Z.eqb_spec snum last); [by exists late|]. exists late. apply window_inv_newest; [done..|lia].
Qed.

Lemma window_run_inv snums : Forall is_u32 snums -> exists late, window_inv (window_run snums) late.
Proof.
  intros Hs. unfold window_run.
  assert (H0 : exists late, window_inv (0, 0, []) late).
  { exists []. split; cbn; try done; try lia; intros s Hin; by apply elem_of_nil in Hin. }
  revert H0. generalize (0, 0, @nil Z). induction Hs as [|s snums Hs1 _ IH]; intros st [late W]; [by exists late|].
  rewrite fold_left_cons. apply IH. by eapply window_step_inv.
Qed.

(** The number that was the newest is accepted once more after a newer one. *)
Example replay_after_newer_accepted : window_run [5; 6; 5] = (1, 6, [5; 6; 5]).
Proof. reflexivity. Qed.

(** ** Runs

    What happens to a key exchange between the connection of the peer and its
    disconnection, with the random numbers drawn. A task that is not pending does not run,
    and payload is only sent while there is a session. *)

Inductive kx_input :=
  | EphemeralKeyReceived (rnd : Z * Z) (m : EphemeralKeyMessage)
  | PingReceived (r : Z) (m : PingMessage)
  | PongReceived (m : PongMessage)
  | EncryptedReceived (m : EncryptedMessage)
  | RetryTaskRuns
  | KeepAliveTaskRuns (rnd : Z * Z)
  | PayloadSent (r : Z) (payload : list Z)
  | ExcessBandwidth
  | Rekeyed (use_ephemeral_keys : bool) (key : list Z) (rnd : Z * Z).

Definition has_session (kx : GSC_KeyExchangeInfo) : bool :=
  match kx_status kx with
  | GNUNET_CORE_KX_STATE_UP | GNUNET_CORE_KX_STATE_REKEY_SENT => true
  | _ => false
  end.

Definition is_pending {A} (task : option A) : bool := match task with Some _ => true | None => false end.

Definition kx_step `{Gcrypt} `{Ecc} (st : KxGlobals * GSC_KeyExchangeInfo)
    (i : GNUNET_TIME_Absolute * kx_input) : option (KxGlobals * GSC_KeyExchangeInfo * list kx_event) :=
  let '(g, kx) := st in
  let '(now, i) := i in
  let with_g g (r : option (GSC_KeyExchangeInfo * list kx_event)) :=
    let? (kx, ev) := r in Some (g, kx, ev) in
  match i with
  | EphemeralKeyReceived rnd m => with_g g (handle_ephemeral_key g now rnd m kx)
  | PingReceived r m => with_g g (handle_ping g r m kx)
  | PongReceived m => with_g g (handle_pong g now m kx)
  | EncryptedReceived m => with_g g (when (check_encrypted m) (handle_encrypted g now m) kx)
  | RetryTaskRuns => with_g g (when (is_pending (retry_set_key_task kx)) (set_key_retry_task g) kx)
  | KeepAliveTaskRuns rnd => with_g g (when (is_pending (keep_alive_task kx)) (send_keep_alive g now rnd) kx)
  | PayloadSent r payload => with_g g (when (has_session kx) (GSC_KX_encrypt_and_transmit now r payload) kx)
  | ExcessBandwidth => with_g g (handle_transport_notify_excess_bw kx)
  | Rekeyed use key rnd =>
      let? (g, l) := do_rekey g now use (Some key) [(rnd, kx)] in
      match l with [r] => with_g g (Some r) | _ => None end
  end.

Fixpoint kx_run `{Gcrypt} `{Ecc} (st : KxGlobals * GSC_KeyExchangeInfo)
    (ins : list (GNUNET_TIME_Absolute * kx_input))
  : option (KxGlobals * GSC_KeyExchangeInfo * list kx_event) :=
  match ins with
  | [] => Some (st, [])
  | i :: ins =>
      let? (st, e1) := kx_step st i in
      let? (st, e2) := kx_run st ins in
      Some (st, e1 ++ e2)
  end.

(** The session of the peer: [GSC_SESSIONS_create] asserts that there is none. *)
Fixpoint sessions (session : bool) (ev : list kx_event) : option bool :=
  match ev with
  | [] => Some session
  | SessionsCreate :: ev => if session then None else sessions true ev
  | SessionsEnd :: ev => sessions false ev
  | _ :: ev => sessions session ev
  end.

Lemma sessions_app b e1 e2 : sessions b (e1 ++ e2) = let? b := sessions b e1 in sessions b e2.
Proof. revert b. induction e1 as [|[] e1 IH]; intros b; cbn; try apply IH; [done|by destruct b]. Qed.

(** The documented behaviour of the curve functions: both sides of a Diffie-Hellman
    exchange get the same secret, and a signature of a block is valid for the purpose the
    block names. *)
Class EccLaws `{Ecc} := {
  ecdh_total : forall a b, exists s,
    GNUNET_CRYPTO_ecc_ecdh a (GNUNET_CRYPTO_ecdhe_key_get_public b) = Some s;
  ecdh_agree : forall a b,
    GNUNET_CRYPTO_ecc_ecdh a (GNUNET_CRYPTO_ecdhe_key_get_public b) =
    GNUNET_CRYPTO_ecc_ecdh b (GNUNET_CRYPTO_ecdhe_key_get_public a);
  eddsa_sign_total : forall k m, exists s, GNUNET_CRYPTO_eddsa_sign k m = Some s;
  eddsa_verify_sign : forall k m s, GNUNET_CRYPTO_eddsa_sign k m = Some s ->
    GNUNET_CRYPTO_eddsa_verify (be_decode (slice 4 4 m)) m s (GNUNET_CRYPTO_eddsa_key_get_public k) = true;
}.

(** ** The invariant *)

(** Which tasks are pending: the key is sent again until the peer confirms it, and while
    there is a session, and only then, it is kept alive. *)
Definition tasks_ok (kx : GSC_KeyExchangeInfo) : Prop :=
  match kx_status kx with
  | GNUNET_CORE_KX_STATE_KEY_SENT | GNUNET_CORE_KX_STATE_KEY_RECEIVED =>
      retry_set_key_task kx <> None /\ keep_alive_task kx = None
  | GNUNET_CORE_KX_STATE_UP | GNUNET_CORE_KX_STATE_REKEY_SENT => keep_alive_task kx <> None
  | _ => False
  end.

Record kx_inv (kx : GSC_KeyExchangeInfo) : Prop := {
  inv_tasks : tasks_ok kx;
  inv_peer : length (kx_peer kx) = 32%nat;
  inv_encrypt_key : length (encrypt_key kx) = 64%nat;
  inv_decrypt_key : length (decrypt_key kx) = 64%nat;
}.

(** An operation that does not fail, keeps the invariant and does not create a session
    when there is one; afterwards there is one if the status says so. *)
Definition safe (kx : GSC_KeyExchangeInfo) (r : option (GSC_KeyExchangeInfo * list kx_event)) : Prop :=
  exists kx' ev, r = Some (kx', ev) /\ kx_inv kx' /\ kx_peer kx' = kx_peer kx
    /\ sessions (has_session kx) ev = Some (has_session kx').

Lemma safe_done kx : kx_inv kx -> safe kx (done kx).
Proof. intros Hi. by exists kx, []. Qed.

Lemma safe_when kx b f : kx_inv kx -> (b = true -> safe kx (f kx)) -> safe kx (when b f kx).
Proof. intros Hi Hf. destruct b; [by apply Hf|by apply safe_done]. Qed.

Section Safety.
Context `{GcryptLaws} `{EccLaws} (g : KxGlobals) (now : GNUNET_TIME_Absolute).

Lemma do_encrypt_total kx iv in_ : length (encrypt_key kx) = 64%nat -> length iv = 32%nat ->
  Z.of_nat (length in_) < 65536 ->
  exists out, do_encrypt kx iv in_ = Some (Some out) /\ length out = length in_
    /\ GNUNET_CRYPTO_symmetric_encrypt in_ (encrypt_key kx) iv = Some out.
Proof.
  intros Hk Hi Hl. destruct (symmetric_encrypt_total in_ (encrypt_key kx) iv Hk Hi) as (out & E & Lo).
  exists out. unfold do_encrypt. rewrite u16_small by (split; lia). rewrite Z.eqb_refl, E, Lo, Z.eqb_refl.
  done.
Qed.

Lemma derive_iv_ok skey seed id : exists iv, derive_iv skey seed id = Some iv /\ length iv = 32%nat.
Proof. apply derive_iv_total. Qed.

Lemma derive_pong_iv_ok skey seed c id :
  exists iv, derive_pong_iv skey seed c id = Some iv /\ length iv = 32%nat.
Proof. apply derive_iv_total. Qed.

Lemma derive_auth_key_ok skey seed : exists k, derive_auth_key skey seed = Some k.
Proof. destruct (hmac_derive_key_total skey (le_encode 4 seed) [skey; context "authentication key"])
         as (k & E & _). by exists k. Qed.

Lemma setup_fresh_ping_ok rnd kx : length (encrypt_key kx) = 64%nat -> length (kx_peer kx) = 32%nat ->
  exists iv body, derive_iv (encrypt_key kx) (calculate_seed (snd rnd)) (kx_peer kx) = Some iv
    /\ GNUNET_CRYPTO_symmetric_encrypt (kx_peer kx ++ le_encode 4 (fst rnd)) (encrypt_key kx) iv = Some body
    /\ length body = 36%nat
    /\ setup_fresh_ping rnd kx
       = Some (set_ping (mk_ping (calculate_seed (snd rnd)) body) (fst rnd) kx, []).
Proof.
  intros Hk Hp. unfold setup_fresh_ping.
  destruct (derive_iv_ok (encrypt_key kx) (calculate_seed (snd rnd)) (kx_peer kx)) as (iv & Eiv & Li).
  rewrite Eiv. destruct (do_encrypt_total kx iv (kx_peer kx ++ le_encode 4 (fst rnd)) Hk Li)
    as (out & E & Lo & Es); rewrite ?length_app, ?length_le_encode, ?Hp in *; [lia|].
  rewrite E. by exists iv, out.
Qed.

Lemma derive_aes_key_length s r km k : length (derive_aes_key s r km k) = 64%nat.
Proof.
  unfold derive_aes_key, GNUNET_CRYPTO_kdf.
  destruct (kdf_total 64 (context "aes key generation vector") km [s; r]) as (out & -> & L); [lia|].
  cbn. lia.
Qed.

Lemma derive_session_keys_ok rnd kx : kx_inv kx ->
  exists e d b l p c, length e = 64%nat /\ length d = 64%nat
    /\ derive_session_keys g rnd kx = Some (set_ping p c (set_window b l (set_keys e d kx)), []).
Proof.
  intros Hi. unfold derive_session_keys.
  destruct (GNUNET_CRYPTO_ecc_ecdh _ _) as [km|].
  - unfold done at 1. cbn [andthen]. 
    set (e := derive_aes_key _ _ km (encrypt_key kx)). set (d := derive_aes_key _ _ km (decrypt_key kx)).
    destruct (setup_fresh_ping_ok rnd (set_window 0 0 (set_keys e d kx))) as (iv & body & _ & _ & _ & E);
      [apply derive_aes_key_length|apply Hi|]. cbn [done andthen app]. rewrite E.
    do 6 eexists. split; [|split; [|reflexivity]]; apply derive_aes_key_length.
  - exists (encrypt_key kx), (decrypt_key kx), (last_packets_bitmap kx),
      (last_sequence_number_received kx), (kx_ping kx), (ping_challenge kx).
    split; [apply Hi|]. split; [apply Hi|]. by destruct kx.
Qed.
(** What is left to prove of an operation once its result is computed. *)
Ltac kx_result :=
  eexists _, _; split; [reflexivity|];
  split; [split; cbn; first [done | by split | by eauto using derive_aes_key_length]|by split].

(** The invariant before the key is sent, which sets the retry task. *)
Definition may_send_key (kx : GSC_KeyExchangeInfo) : Prop :=
  match kx_status kx with
  | GNUNET_CORE_KX_STATE_KEY_SENT | GNUNET_CORE_KX_STATE_KEY_RECEIVED => keep_alive_task kx = None
  | GNUNET_CORE_KX_STATE_UP | GNUNET_CORE_KX_STATE_REKEY_SENT => keep_alive_task kx <> None
  | _ => False
  end.

Lemma send_key_ok kx : may_send_key kx ->
  exists ev, send_key g kx = Some (set_retry (set_key_retry_frequency kx)
                                     (Some (set_key_retry_frequency kx)) kx, ev)
    /\ (forall b, sessions b ev = Some b).
Proof. destruct kx as [????????????????[]]; cbn; intros Hm; try done; eexists; split; done. Qed.

Lemma reply_ok s kx : may_send_key kx ->
  (retry_set_key_task kx <> None \/ has_session kx = true) ->
  exists r ev, reply_key_or_ping g s kx = Some (set_retry (set_key_retry_frequency kx) r kx, ev)
    /\ (forall b, sessions b ev = Some b) /\ (r <> None \/ has_session kx = true).
Proof.
  intros Hm Hr. unfold reply_key_or_ping. destruct (s =? _).
  - destruct (send_key_ok kx Hm) as (ev & -> & Hev). eexists _, ev. split; [done|]. split; [done|by left].
  - exists (retry_set_key_task kx), [SendPing (kx_ping kx)]. split; [by destruct kx|]. by split.
Qed.

Lemma set_key_retry_task_safe kx : kx_inv kx -> safe kx (set_key_retry_task g kx).
Proof.
  intros [Ht Hp He Hd]. unfold set_key_retry_task.
  set (kx' := set_retry _ None kx).
  assert (Hm : may_send_key kx') by (destruct kx as [????????????????[]]; cbn in *; tauto).
  destruct (send_key_ok kx' Hm) as (ev & E & Hev).
  exists (set_retry (set_key_retry_frequency kx') (Some (set_key_retry_frequency kx')) kx'), ev.
  destruct kx as [????????????????[]]; cbn in *; try done; rewrite E;
    (split; [done|]; split; [split; cbn; tauto|split; [done|apply Hev]]).
Qed.

Lemma handle_ping_safe r m kx : kx_inv kx -> safe kx (handle_ping g r m kx).
Proof.
  intros Hi. unfold handle_ping.
  destruct (negb _); [by apply safe_done|].
  destruct (derive_iv_ok (decrypt_key kx) (ping_iv_seed m) (GSC_my_identity g)) as (iv & -> & Li).
  destruct (do_decrypt kx iv (ping_body m)) as [t|]; [|by apply safe_done]. cbv zeta.
  unfold bytes_eqb. case_bool_decide as Ht; cbn [negb]; [|by apply safe_done].
  destruct (derive_pong_iv_ok (encrypt_key kx) (calculate_seed r) (le_decode (slice 32 4 t)) (kx_peer kx))
    as (iv' & -> & Li').
  edestruct (do_encrypt_total kx iv') as (out & -> & _); [apply Hi|done| |].
  - rewrite !length_app, !length_le_encode. unfold slice. rewrite length_take. lia.
  - eexists _, _. split; [reflexivity|]. by split; [|split].
Qed.

Lemma send_keep_alive_safe rnd kx : kx_inv kx -> keep_alive_task kx <> None ->
  safe kx (send_keep_alive g now rnd kx).
Proof.
  intros [Ht Hp He Hd] Hka. unfold send_keep_alive. cbv zeta.
  destruct (0 =? _).
  - destruct kx as [????????????????[]]; cbn in *; try done; try (by destruct Ht); kx_result.
  - destruct (setup_fresh_ping_ok rnd (set_keep_alive None kx)) as (iv & body & _ & _ & _ & E); [done..|].
    rewrite E. destruct kx as [????????????????[]]; cbn in *; try done; try (by destruct Ht); kx_result.
Qed.

Lemma update_timeout_eq kx : exists ev,
  update_timeout now kx =
    Some (set_keep_alive (Some (GNUNET_TIME_relative_divide GNUNET_CONSTANTS_IDLE_CONNECTION_TIMEOUT 2))
            (let t := GNUNET_TIME_relative_to_absolute now GNUNET_CONSTANTS_IDLE_CONNECTION_TIMEOUT in
             set_timeout t (if rel_value_us (GNUNET_TIME_absolute_get_difference (last_notify_timeout kx) t)
                               >? 5 * 1000 * 1000 then t else last_notify_timeout kx) kx), ev)
    /\ (forall b, sessions b ev = Some b)
    /\ (forall p, TokenizerReceive p ∉ ev).
Proof.
  unfold update_timeout. cbv zeta. destruct (_ >? _); eexists; (split; [reflexivity|]);
    (split; [done|]); intros p Hin; repeat (apply elem_of_cons in Hin as [Hin|Hin]; [done|]);
    by apply elem_of_nil in Hin.
Qed.

Lemma handle_transport_notify_excess_bw_safe kx : kx_inv kx -> safe kx (handle_transport_notify_excess_bw kx).
Proof. intros [Ht Hp He Hd]. destruct kx; cbn in *. kx_result. Qed.

Lemma handle_pong_safe m kx : kx_inv kx -> safe kx (handle_pong g now m kx).
Proof.
  intros Hi. unfold handle_pong.
  destruct (negb (status_in _ _)) eqn:Est; [by apply safe_done|].
  destruct (derive_pong_iv_ok (decrypt_key kx) (pong_iv_seed m) (ping_challenge kx) (GSC_my_identity g))
    as (iv & -> & Li).
  destruct (do_decrypt kx iv (pong_body m)) as [t|]; [|by apply safe_done]. cbv zeta.
  destruct (_ || _); [by apply safe_done|]. cbn [done andthen].
  destruct Hi as [Ht Hp He Hd].
  destruct kx as [p ping oek ek dk fke to lnt f rt ka bm lsr lss pc eb st]. cbn [kx_status set_retry].
  destruct st; cbn in Ht; try done.
  - cbn [done andthen monitor_notify_all set_status emit keep_alive_task set_timeout set_retry].
    rewrite (proj2 Ht), bool_decide_true by done.
    edestruct update_timeout_eq as (ev & -> & Hev & _). eexists _, _. split; [reflexivity|].
    split; [by split|]. split; [done|]. cbn. by rewrite app_nil_r || apply Hev.
  - edestruct update_timeout_eq as (ev & -> & Hev & _). eexists _, _. split; [reflexivity|].
    split; [by split|]. split; [done|]. apply Hev.
  - cbn [done andthen monitor_notify_all set_status set_timeout set_retry].
    edestruct update_timeout_eq as (ev & -> & Hev & _). eexists _, _. split; [reflexivity|].
    split; [by split|]. split; [done|]. cbn. apply Hev.
Qed.

Lemma encrypt_and_transmit_safe r payload kx : kx_inv kx -> Z.of_nat (length payload) + 88 < 65536 ->
  safe kx (GSC_KX_encrypt_and_transmit now r payload kx).
Proof.
  intros Hi Hl. unfold GSC_KX_encrypt_and_transmit, sizeof_EncryptedMessage. cbv zeta.
  rewrite u16_small, Z.eqb_refl by (split; lia).
  edestruct derive_iv_ok as (iv & -> & Li).
  edestruct (do_encrypt_total) as (out & -> & _); [apply Hi|exact Li| |].
  { rewrite !length_app, !length_be_encode. lia. }
  edestruct derive_auth_key_ok as (ak & ->). edestruct (hmac_total ak out) as (mac & -> & _).
  destruct Hi. destruct kx. eexists _, _. split; [reflexivity|]. by split.
Qed.

Lemma handle_encrypted_safe m kx : kx_inv kx -> safe kx (handle_encrypted g now m kx).
Proof.
  intros Hi. unfold handle_encrypted.
  case_bool_decide as Hst; cbn [negb]; [|by apply safe_done].
  destruct (0 =? _).
  { destruct Hi as [Ht Hp He Hd]. destruct kx. cbn in *. subst. cbn in *. kx_result. }
  edestruct derive_auth_key_ok as (ak & ->). edestruct (hmac_total ak (enc_body m)) as (mac & -> & _).
  destruct (negb _); [by apply safe_done|]. edestruct derive_iv_ok as (iv & -> & _).
  destruct (do_decrypt _ _ _) as [pt|]; [|by apply safe_done]. cbv zeta.
  destruct (check_sequence _ _ _) as [[bitmap last]|]; [|by apply safe_done].
  destruct Hi as [Ht Hp He Hd].
  destruct (_ >? _).
  - destruct kx. cbn in *. subst. cbn in *. eexists _, _. split; [reflexivity|]. by split.
  - edestruct update_timeout_eq as (ev & -> & Hev & _). destruct kx. cbn in *. subst.
    eexists _, _. split; [reflexivity|]. split; [by split|]. split; [done|].
    rewrite sessions_app. by rewrite Hev.
Qed.

Lemma safe_andthen kx m f : safe kx m -> (forall kx', kx_inv kx' -> safe kx' (f kx')) ->
  safe kx (m >>> f).
Proof.
  intros (kx1 & e1 & -> & Hi1 & Hp1 & Hs1) Hf. destruct (Hf kx1 Hi1) as (kx2 & e2 & E2 & Hi2 & Hp2 & Hs2).
  exists kx2, (e1 ++ e2). cbn [andthen]. rewrite E2. split; [done|]. split; [done|].
  split; [congruence|]. by rewrite sessions_app, Hs1.
Qed.

Lemma confirm_key_safe s kx : kx_inv kx -> safe kx (confirm_key g s kx).
Proof.
  intros [Ht Hp He Hd]. unfold confirm_key.
  destruct kx as [pe ping oek ek dk fke to lnt f rt ka bm lsr lss pc eb st]; cbn [kx_status].
  destruct st; cbn in Ht; try done; cbn [keep_alive_task];
    rewrite ?(proj2 Ht), ?bool_decide_true by done;
    cbn [done andthen monitor_notify_all set_status set_timeout kx_timeout kx_status
      kx_peer kx_ping other_ephemeral_key encrypt_key decrypt_key foreign_key_expires
      last_notify_timeout set_key_retry_frequency retry_set_key_task keep_alive_task last_packets_bitmap
      last_sequence_number_received last_sequence_number_sent ping_challenge has_excess_bandwidth];
    (edestruct reply_ok as (r & ev & -> & Hev & Hr);
      [|cbn [retry_set_key_task]; first [left; apply Ht|by right]|]; [cbn; done || apply Ht|]);
    (eexists _, _; split; [reflexivity|]; split; [split; cbn; try done|split; [done|apply Hev]]);
    destruct Hr; done.
Qed.

Lemma handle_ephemeral_key_safe rnd m kx : kx_inv kx -> safe kx (handle_ephemeral_key g now rnd m kx).
Proof.
  intros Hi. unfold handle_ephemeral_key. cbv zeta.
  destruct (_ && _); [by apply safe_done|]. destruct (negb (bytes_eqb _ _)); [by apply safe_done|].
  do 2 (destruct (_ || _); [by apply safe_done|]).
  assert (Hi' : kx_inv (set_foreign (ekm_ephemeral_key m) (ekm_expiration_time m) kx))
    by (destruct Hi; destruct kx; by split).
  apply safe_andthen; [apply safe_andthen|intros; by apply confirm_key_safe].
  - destruct (derive_session_keys_ok rnd _ Hi') as (e & d & b & l & p & c & Le & Ld & ->).
    destruct Hi. destruct kx. eexists _, _. split; [reflexivity|]. by split.
  - intros kx1 Hi1. apply safe_when; [done|]. intros _. by exists kx1, [SessionsReinit].
Qed.

Lemma rekey_one_safe rnd kx : kx_inv kx -> safe kx (rekey_one g rnd kx).
Proof.
  intros Hi. unfold rekey_one.
  assert (Hsend : forall kx, kx_inv kx -> safe kx (send_key g kx)).
  { intros kx0 [Ht Hp He Hd]. destruct (send_key_ok kx0) as (ev & -> & Hev).
    - unfold may_send_key, tasks_ok in *. destruct (kx_status kx0); tauto.
    - eexists _, _. split; [reflexivity|]. destruct kx0 as [????????????????[]]; cbn in *; try done;
        (split; [split; cbn; try done; by split; [|apply Ht]|split; [done|apply Hev]]). }
  assert (Hmon : forall kx, kx_inv kx -> safe kx (monitor_notify_all kx)).
  { intros kx0 []. destruct kx0. eexists _, _. split; [reflexivity|]. by split. }
  apply safe_andthen; [|done]. apply safe_andthen; [|done]. apply safe_andthen.
  - case_bool_decide as Hst; [|by apply safe_done].
    assert (Hi1 : kx_inv (set_timeout (kx_timeout kx) (kx_timeout kx)
                            (set_status GNUNET_CORE_KX_STATE_REKEY_SENT kx))).
    { destruct Hi as [Ht ? ? ?]. unfold tasks_ok in Ht. rewrite Hst in Ht. destruct kx. by split. }
    destruct (derive_session_keys_ok rnd _ Hi1) as (e & d & b & l & p & c & Le & Ld & E).
    destruct kx. cbn in Hst. subst. eexists _, _. split; [cbn [andthen done monitor_notify_all] in *|].
    { cbn [set_status kx_timeout] in *. rewrite E. reflexivity. }
    destruct Hi1. by split.
  - intros kx1 Hi1. case_bool_decide as Hst; [|by apply safe_done].
    destruct Hi1 as [Ht _ _ _]. unfold tasks_ok in Ht. by rewrite Hst in Ht.
Qed.

End Safety.

(** The size of a message has 16 bits. *)
Definition input_wf (i : kx_input) : Prop :=
  match i with
  | PayloadSent _ payload => Z.of_nat (length payload) + sizeof_EncryptedMessage < 65536
  | _ => True
  end.

Section Runs.
Context `{GcryptLaws} `{EccLaws}.

Lemma sign_ephemeral_key_total g now use key : exists s,
  GNUNET_CRYPTO_eddsa_sign (my_private_key g)
    (ekm_signed_bytes (mk_ekm 0 (ekm_signature (current_ekm g)) 88 GNUNET_SIGNATURE_PURPOSE_SET_ECC_KEY now
       (if use : bool then GNUNET_TIME_relative_to_absolute now (GNUNET_TIME_relative_add REKEY_FREQUENCY REKEY_TOLERANCE)
        else GNUNET_TIME_UNIT_FOREVER_ABS) (GNUNET_CRYPTO_ecdhe_key_get_public key) (GSC_my_identity g))) = Some s
  /\ sign_ephemeral_key g now use key =
     Some (mk_globals (GSC_my_identity g) (my_private_key g) key
       (mk_ekm 0 s 88 GNUNET_SIGNATURE_PURPOSE_SET_ECC_KEY now
       (if use then GNUNET_TIME_relative_to_absolute now (GNUNET_TIME_relative_add REKEY_FREQUENCY REKEY_TOLERANCE)
        else GNUNET_TIME_UNIT_FOREVER_ABS) (GNUNET_CRYPTO_ecdhe_key_get_public key) (GSC_my_identity g))).
Proof.
  unfold sign_ephemeral_key.
  destruct (eddsa_sign_total (my_private_key g) (ekm_signed_bytes (mk_ekm 0 (ekm_signature (current_ekm g)) 88
    GNUNET_SIGNATURE_PURPOSE_SET_ECC_KEY now
       (if use : bool then GNUNET_TIME_relative_to_absolute now (GNUNET_TIME_relative_add REKEY_FREQUENCY REKEY_TOLERANCE)
        else GNUNET_TIME_UNIT_FOREVER_ABS) (GNUNET_CRYPTO_ecdhe_key_get_public key) (GSC_my_identity g))))
    as [s E]. exists s. split; [exact E|]. cbv zeta. by rewrite E.
Qed.

Lemma kx_step_safe g kx i : kx_inv kx -> input_wf (snd i) ->
  exists g' kx' ev, kx_step (g, kx) i = Some (g', kx', ev) /\ kx_inv kx' /\ kx_peer kx' = kx_peer kx
    /\ sessions (has_session kx) ev = Some (has_session kx').
Proof.
  intros Hi Hwf. destruct i as [now i].
  assert (Hstep : forall r (g' : KxGlobals), safe kx r ->
    exists g'' kx' ev, (let? (kx', ev) := r in Some (g', kx', ev)) = Some (g'', kx', ev)
      /\ kx_inv kx' /\ kx_peer kx' = kx_peer kx /\ sessions (has_session kx) ev = Some (has_session kx')).
  { intros r g' (kx' & ev & -> & Hkx). by exists g', kx', ev. }
  destruct i; cbn [kx_step].
  - by apply Hstep, handle_ephemeral_key_safe.
  - by apply Hstep, handle_ping_safe.
  - by apply Hstep, handle_pong_safe.
  - apply Hstep, safe_when; [done|]. intros _. by apply handle_encrypted_safe.
  - apply Hstep, safe_when; [done|]. intros _. by apply set_key_retry_task_safe.
  - apply Hstep, safe_when; [done|]. intros Hp. apply send_keep_alive_safe; [done|].
    by destruct (keep_alive_task kx).
  - apply Hstep, safe_when; [done|]. intros _. by apply encrypt_and_transmit_safe.
  - by apply Hstep, handle_transport_notify_excess_bw_safe.
  - unfold do_rekey. destruct (sign_ephemeral_key_total g now use_ephemeral_keys key) as (s & _ & ->).
    cbn [mapM]. set (g' := mk_globals _ _ _ _).
    destruct (rekey_one_safe g' rnd kx Hi) as (kx' & ev & E & Hkx). cbn. rewrite E. cbn.
    by exists g', kx', ev.
Qed.

Lemma kx_run_safe ins g kx : kx_inv kx -> Forall (fun i => input_wf (snd i)) ins ->
  exists g' kx' ev, kx_run (g, kx) ins = Some (g', kx', ev) /\ kx_inv kx' /\ kx_peer kx' = kx_peer kx
    /\ sessions (has_session kx) ev = Some (has_session kx').
Proof.
  intros Hi Hwf. revert g kx Hi. induction Hwf as [|i ins Hw _ IH]; intros g kx Hi; [by exists g, kx, []|].
  destruct (kx_step_safe g kx i Hi Hw) as (g1 & kx1 & e1 & E1 & Hi1 & Hp1 & Hs1).
  destruct (IH g1 kx1 Hi1) as (g2 & kx2 & e2 & E2 & Hi2 & Hp2 & Hs2).
  exists g2, kx2, (e1 ++ e2). cbn [kx_run]. rewrite E1, E2. split; [done|]. split; [done|].
  split; [congruence|]. by rewrite sessions_app, Hs1.
Qed.

Lemma connect_safe g pid : length pid = 32%nat ->
  exists kx ev, handle_transport_notify_connect g pid = Some (kx, ev) /\ kx_inv kx /\ kx_peer kx = pid
    /\ kx_status kx = GNUNET_CORE_KX_STATE_KEY_SENT /\ sessions false ev = Some false.
Proof.
  intros Hp. unfold handle_transport_notify_connect. cbn [done andthen monitor_notify_all].
  cbv zeta. destruct (0 <? _); eexists _, _; (split; [reflexivity|]); by split; [split|].
Qed.
End Runs.

(** ** The foreign key *)

Definition keyed (kx : GSC_KeyExchangeInfo) : bool :=
  status_in [GNUNET_CORE_KX_STATE_KEY_RECEIVED; GNUNET_CORE_KX_STATE_UP;
             GNUNET_CORE_KX_STATE_REKEY_SENT] kx.

(** An operation that leaves the key of the other peer, and does not make the exchange
    appear to have one. *)
Definition keeps (kx : GSC_KeyExchangeInfo) (r : option (GSC_KeyExchangeInfo * list kx_event)) : Prop :=
  match r with
  | Some (kx', _) => kx_peer kx' = kx_peer kx /\ other_ephemeral_key kx' = other_ephemeral_key kx
      /\ foreign_key_expires kx' = foreign_key_expires kx /\ (keyed kx' = true -> keyed kx = true)
  | None => True
  end.

Lemma keeps_andthen kx m f : keeps kx m -> (forall kx', keeps kx' (f kx')) -> keeps kx (m >>> f).
Proof.
  destruct m as [[kx1 e1]|]; [|done]. cbn [andthen]. intros (Hp & Ho & Hf & Hk) Hstep. specialize (Hstep kx1).
  destruct (f kx1) as [[kx2 e2]|]; [|done]. cbn in *. destruct Hstep as (Hp' & Ho' & Hf' & Hk').
  split_and!; [congruence..|auto].
Qed.

Lemma keeps_from kx kx0 r : keeps kx (done kx0) -> keeps kx0 r -> keeps kx r.
Proof.
  intros (Hp & Ho & Hf & Hk). destruct r as [[kx2 e2]|]; [|done]. cbn. intros (Hp' & Ho' & Hf' & Hk').
  split_and!; [congruence..|auto].
Qed.

Lemma keeps_done kx : keeps kx (done kx).
Proof. done. Qed.

Lemma keeps_send_ping kx : keeps kx (send_ping kx).
Proof. done. Qed.

Lemma keeps_monitor kx : keeps kx (monitor_notify_all kx).
Proof. done. Qed.

Lemma keeps_when kx b f : (b = true -> keeps kx (f kx)) -> keeps kx (when b f kx).
Proof. destruct b; [auto|done]. Qed.

Create HintDb keeps discriminated.
#[export] Hint Constants Opaque : keeps.
#[export] Hint Resolve keeps_send_ping keeps_monitor : keeps.

(** Through the conditions and sequences of an operation. *)
Ltac keeps :=
  repeat match goal with
    | |- keeps _ (_ >>> _) => apply keeps_andthen; [|intros ?]
    | |- keeps _ (when _ _ _) => apply keeps_when; intros ?
    | |- keeps _ (match ?c with _ => _ end) => destruct c eqn:?
    | |- keeps _ None => exact I
    | |- keeps _ (done _) => split_and!; [reflexivity..|first [done|auto]]
    | |- keeps _ (emit _ _) => split_and!; [reflexivity..|done]
    | |- _ => solve [eauto with keeps nocore]
    end.

Section Foreign.
Context `{Gcrypt} `{Ecc} (g : KxGlobals) (now : GNUNET_TIME_Absolute).

Lemma keeps_send_key kx : keeps kx (send_key g kx).
Proof. unfold send_key. keeps. Qed.
Hint Resolve keeps_send_key : keeps.

Lemma keeps_setup_fresh_ping rnd kx : keeps kx (setup_fresh_ping rnd kx).
Proof. unfold setup_fresh_ping. cbv zeta. keeps. Qed.
Hint Resolve keeps_setup_fresh_ping : keeps.

Lemma keeps_derive_session_keys rnd kx : keeps kx (derive_session_keys g rnd kx).
Proof. unfold derive_session_keys. keeps. Qed.
Hint Resolve keeps_derive_session_keys : keeps.

Lemma keeps_update_timeout kx : keeps kx (update_timeout now kx).
Proof. unfold update_timeout. cbv zeta. keeps. Qed.
Hint Resolve keeps_update_timeout : keeps.

Lemma keeps_retry kx : keeps kx (set_key_retry_task g kx).
Proof.
  unfold set_key_retry_task. cbv zeta. destruct (negb _); [|done].
  by eapply keeps_from; [|apply keeps_send_key].
Qed.

Lemma keeps_keep_alive rnd kx : keeps kx (send_keep_alive g now rnd kx).
Proof.
  unfold send_keep_alive. cbv zeta. by eapply keeps_from; [|keeps].
Qed.

Lemma keeps_ping r m kx : keeps kx (handle_ping g r m kx).
Proof. unfold handle_ping. cbv zeta. keeps. Qed.

Lemma keeps_pong m kx : keeps kx (handle_pong g now m kx).
Proof.
  unfold handle_pong. cbv zeta. keeps; intros _; unfold keyed, status_in;
    match goal with E : kx_status _ = _ |- _ => by rewrite E end.
Qed.

Lemma keeps_encrypted m kx : keeps kx (handle_encrypted g now m kx).
Proof.
  unfold handle_encrypted. cbv zeta. keeps. eapply keeps_from; [|keeps]. done.
Qed.

Lemma keeps_transmit r payload kx : keeps kx (GSC_KX_encrypt_and_transmit now r payload kx).
Proof. unfold GSC_KX_encrypt_and_transmit. cbv zeta. keeps. Qed.
End Foreign.

(** What an ephemeral key message must satisfy to be accepted from [peer] at [now]. *)
Record ekm_authentic `{Ecc} (now : GNUNET_TIME_Absolute) (peer : PeerIdentity) (m : EphemeralKeyMessage)
  : Prop := {
  auth_origin : ekm_origin_identity m = peer;
  auth_size : ekm_purpose_size m = 88;
  auth_signature : GNUNET_CRYPTO_eddsa_verify GNUNET_SIGNATURE_PURPOSE_SET_ECC_KEY (ekm_signed_bytes m)
                     (ekm_signature m) peer = true;
  auth_not_expired : abs_value_us (GNUNET_TIME_absolute_subtract now REKEY_TOLERANCE)
                     <= abs_value_us (ekm_expiration_time m);
  auth_not_future : abs_value_us (ekm_creation_time m)
                    <= abs_value_us (GNUNET_TIME_absolute_add now REKEY_TOLERANCE);
}.

Section Authentication.
Context `{Gcrypt} `{Ecc} (now : GNUNET_TIME_Absolute).

Lemma keeps_reply g s kx : keeps kx (reply_key_or_ping g s kx).
Proof. unfold reply_key_or_ping. pose proof (keeps_send_key g). keeps. Qed.

Lemma confirm_key_same_key g s kx kx' ev : confirm_key g s kx = Some (kx', ev) ->
  kx_peer kx' = kx_peer kx /\ other_ephemeral_key kx' = other_ephemeral_key kx
  /\ foreign_key_expires kx' = foreign_key_expires kx.
Proof.
  assert (Hr : forall st, match (done (set_status st kx) >>> monitor_notify_all >>> reply_key_or_ping g s) with
    | Some (kx', _) => kx_peer kx' = kx_peer kx /\ other_ephemeral_key kx' = other_ephemeral_key kx
        /\ foreign_key_expires kx' = foreign_key_expires kx
    | None => True end).
  { intros st. cbn [done andthen monitor_notify_all].
    set (kx0 := set_timeout _ _ _). pose proof (keeps_reply g s kx0) as Hk.
    destruct (reply_key_or_ping g s kx0) as [[kx2 e2]|]; [|exact I]. subst kx0. cbn in Hk |- *. tauto. }
  unfold confirm_key. intros E.
  pose proof (keeps_reply g s kx) as Hk.
  destruct (kx_status kx); try (destruct (bool_decide _)); try done;
    first [ by injection E as <- _
          | rewrite E in Hk; cbn in Hk; tauto
          | match type of E with (done (set_status ?st _) >>> _ >>> _) = _ =>
              specialize (Hr st); rewrite E in Hr; exact Hr end ].
Qed.

Lemma handle_ephemeral_key_cases g rnd m kx kx' ev : handle_ephemeral_key g now rnd m kx = Some (kx', ev) ->
  kx' = kx \/ (ekm_authentic now (kx_peer kx) m /\ kx_peer kx' = kx_peer kx
    /\ other_ephemeral_key kx' = ekm_ephemeral_key m /\ foreign_key_expires kx' = ekm_expiration_time m).
Proof.
  unfold handle_ephemeral_key. cbv zeta. unfold bytes_eqb.
  destruct (_ && _); [intros [= <- _]; by left|].
  case_bool_decide as Ho; cbn [negb]; [|intros [= <- _]; by left].
  destruct (Z.eqb_spec (ekm_purpose_size m) 88) as [Hs|]; cbn [negb orb]; [|intros [= <- _]; by left].
  destruct (GNUNET_CRYPTO_eddsa_verify _ _ _ _) eqn:Hv; cbn [negb]; [|intros [= <- _]; by left].
  destruct (_ || _) eqn:Ht; [intros [= <- _]; by left|]. apply orb_false_iff in Ht as [Ht1 Ht2].
  apply Z.ltb_ge in Ht1. rewrite Z.gtb_ltb in Ht2. apply Z.ltb_ge in Ht2.
  set (kx0 := set_foreign _ _ kx). intros E. right.
  pose proof (keeps_derive_session_keys g rnd kx0) as Hk.
  destruct (derive_session_keys g rnd kx0) as [[kx1 e1]|]; [|done]. cbn [andthen] in E.
  destruct Hk as (Hp1 & Ho1 & Hf1 & _).
  assert (Hw : exists e2, when ((ekm_sender_status m =? kx_state_value GNUNET_CORE_KX_STATE_KEY_SENT)
      || (ekm_sender_status m =? kx_state_value GNUNET_CORE_KX_STATE_KEY_RECEIVED))
      (emit SessionsReinit) kx1 = Some (kx1, e2)) by (destruct (_ || _); by eexists).
  destruct Hw as [e2 Hw]. rewrite Hw in E. cbn [andthen] in E.
  destruct (confirm_key _ _ _) as [[kx2 e3]|] eqn:E2; [|done].
  apply confirm_key_same_key in E2 as (Hp2 & Ho2 & Hf2). injection E as <- _.
  split; [split; try done; by rewrite <- Ho|]. subst kx0. cbn in *. split_and!; congruence.
Qed.

Lemma keeps_rekey_one g rnd kx : keeps kx (rekey_one g rnd kx).
Proof.
  unfold rekey_one. pose proof (keeps_send_key g). pose proof (keeps_derive_session_keys g).
  apply keeps_andthen; [|auto]. apply keeps_andthen; [|keeps]. apply keeps_andthen.
  - case_bool_decide as Hst; [|done]. keeps. intros _. unfold keyed, status_in. by rewrite Hst.
  - intros kx1. keeps.
Qed.
End Authentication.

Lemma kx_step_authentic `{Gcrypt} `{Ecc} g kx i g' kx' ev : kx_step (g, kx) i = Some (g', kx', ev) ->
  keeps kx (done kx') \/ (exists rnd m, snd i = EphemeralKeyReceived rnd m
    /\ ekm_authentic (fst i) (kx_peer kx) m /\ kx_peer kx' = kx_peer kx
    /\ other_ephemeral_key kx' = ekm_ephemeral_key m /\ foreign_key_expires kx' = ekm_expiration_time m).
Proof.
  destruct i as [now i].
  assert (Hk : forall r g1, keeps kx r ->
    (let? (kx1, e1) := r in Some (g1, kx1, e1)) = Some (g', kx', ev) -> keeps kx (done kx')).
  { intros [[kx1 e1]|] g1 Hr E; [|done]. injection E as -> -> ->. exact Hr. }
  destruct i; cbn [kx_step]; intros E.
  - destruct (handle_ephemeral_key g now rnd m kx) as [[kx1 e1]|] eqn:E1; [|done].
    injection E as -> -> ->. apply handle_ephemeral_key_cases in E1 as [->|Hauth]; [by left|].
    right. by exists rnd, m.
  - left. eapply Hk; [|exact E]. apply keeps_ping.
  - left. eapply Hk; [|exact E]. apply keeps_pong.
  - left. eapply Hk; [|exact E]. apply keeps_when. intros _. apply keeps_encrypted.
  - left. eapply Hk; [|exact E]. apply keeps_when. intros _. apply keeps_retry.
  - left. eapply Hk; [|exact E]. apply keeps_when. intros _. apply keeps_keep_alive.
  - left. eapply Hk; [|exact E]. apply keeps_when. intros _. apply keeps_transmit.
  - left. by injection E as <- <- <-.
  - left. unfold do_rekey in E. destruct (sign_ephemeral_key _ _ _ _) as [g1|]; [|done].
    pose proof (keeps_rekey_one g1 rnd kx) as Hr. cbn in E.
    destruct (rekey_one g1 rnd kx) as [[kx1 e1]|]; [|done]. cbn in E. injection E as -> -> ->. exact Hr.
Qed.

Lemma kx_run_authentic `{Gcrypt} `{Ecc} ins g kx g' kx' ev : kx_run (g, kx) ins = Some (g', kx', ev) ->
  keeps kx (done kx') \/ (exists now rnd m, (now, EphemeralKeyReceived rnd m) ∈ ins
    /\ ekm_authentic now (kx_peer kx) m /\ kx_peer kx' = kx_peer kx
    /\ other_ephemeral_key kx' = ekm_ephemeral_key m /\ foreign_key_expires kx' = ekm_expiration_time m).
Proof.
  revert g kx g' kx' ev. induction ins as [|i ins IH]; intros g kx g' kx' ev E.
  { injection E as <- <- <-. by left. }
  cbn [kx_run] in E. destruct (kx_step (g, kx) i) as [[[g1 kx1] e1]|] eqn:E1; [|done].
  destruct (kx_run (g1, kx1) ins) as [[[g2 kx2] e2]|] eqn:E2; [|done]. injection E as <- <- _.
  apply IH in E2. apply kx_step_authentic in E1. destruct E2 as [K2|(now & rnd & m & Hin & Ha & Hp & Ho & Hf)].
  - destruct E1 as [K1|(rnd & m & Hi & Ha & Hp & Ho & Hf)]; [left; by eapply keeps_from|].
    right. exists (fst i), rnd, m. rewrite <- Hi, <- surjective_pairing. destruct K2 as (Hp2 & Ho2 & Hf2 & _).
    split; [left|]. split; [done|]. split_and!; congruence.
  - assert (Hp1 : kx_peer kx1 = kx_peer kx) by (destruct E1 as [(? & _)|(? & ? & _ & _ & ? & _)]; done).
    right. exists now, rnd, m. split; [by right|]. rewrite <- Hp1. split; [done|]. split_and!; congruence.
Qed.

(** ** Two peers *)

(** The other peer gets what was sent, in order; [rnd] gives the random numbers drawn for
    each message. *)
Section TwoPeers.
Context `{Gcrypt} `{Ecc}.

Definition deliver (g : KxGlobals) (now : GNUNET_TIME_Absolute) (rnd : kx_event -> Z * Z)
    (e : kx_event) (kx : GSC_KeyExchangeInfo) : option (GSC_KeyExchangeInfo * list kx_event) :=
  match e with
  | SendEphemeralKey m => handle_ephemeral_key g now (rnd e) m kx
  | SendPing m => handle_ping g (snd (rnd e)) m kx
  | SendPong m => handle_pong g now m kx
  | SendEncrypted m => when (check_encrypted m) (handle_encrypted g now m) kx
  | _ => done kx
  end.

Fixpoint deliver_all (g : KxGlobals) (now : GNUNET_TIME_Absolute) (rnd : kx_event -> Z * Z)
    (es : list kx_event) (kx : GSC_KeyExchangeInfo) : option (GSC_KeyExchangeInfo * list kx_event) :=
  match es with
  | [] => done kx
  | e :: es => deliver g now rnd e kx >>> deliver_all g now rnd es
  end.

(** Both connect, and what the first sends goes back and forth twice. *)
Definition handshake (gA gB : KxGlobals) (now : GNUNET_TIME_Absolute) (rndA rndB : kx_event -> Z * Z)
  : option (GSC_KeyExchangeInfo * GSC_KeyExchangeInfo) :=
  let? (kA, e) := handle_transport_notify_connect gA (GSC_my_identity gB) in
  let? (kB, _) := handle_transport_notify_connect gB (GSC_my_identity gA) in
  let? (kB, e) := deliver_all gB now rndB e kB in
  let? (kA, e) := deliver_all gA now rndA e kA in
  let? (kB, e) := deliver_all gB now rndB e kB in
  let? (kA, e) := deliver_all gA now rndA e kA in
  Some (kA, kB).

Fixpoint transmit_all (now : GNUNET_TIME_Absolute) (l : list (Z * list Z)) (kx : GSC_KeyExchangeInfo)
  : option (GSC_KeyExchangeInfo * list kx_event) :=
  match l with
  | [] => done kx
  | (r, payload) :: l => GSC_KX_encrypt_and_transmit now r payload kx >>> transmit_all now l
  end.

Fixpoint received (ev : list kx_event) : list (list Z) :=
  match ev with
  | [] => []
  | TokenizerReceive p :: ev => p :: received ev
  | _ :: ev => received ev
  end.

Lemma received_app a b : received (a ++ b) = received a ++ received b.
Proof. induction a as [|[] a IH]; cbn; rewrite ?IH; done. Qed.

(** The variables as [sign_ephemeral_key] leaves them, at a time in the validity of the key. *)
Record globals_ok (now : GNUNET_TIME_Absolute) (g : KxGlobals) : Prop := {
  go_identity : GSC_my_identity g = GNUNET_CRYPTO_eddsa_key_get_public (my_private_key g);
  go_length : length (GSC_my_identity g) = 32%nat;
  go_size : ekm_purpose_size (current_ekm g) = 88;
  go_purpose : ekm_purpose_purpose (current_ekm g) = GNUNET_SIGNATURE_PURPOSE_SET_ECC_KEY;
  go_origin : ekm_origin_identity (current_ekm g) = GSC_my_identity g;
  go_key : ekm_ephemeral_key (current_ekm g) = GNUNET_CRYPTO_ecdhe_key_get_public (my_ephemeral_key g);
  go_signature : GNUNET_CRYPTO_eddsa_sign (my_private_key g) (ekm_signed_bytes (current_ekm g))
                 = Some (ekm_signature (current_ekm g));
  go_created : abs_value_us (ekm_creation_time (current_ekm g)) <= abs_value_us now;
  go_expires : abs_value_us now < abs_value_us (ekm_expiration_time (current_ekm g)) < 2 ^ 64;
}.

Lemma sign_ephemeral_key_ok g now use key g' :
  sign_ephemeral_key g now use key = Some g' ->
  GSC_my_identity g = GNUNET_CRYPTO_eddsa_key_get_public (my_private_key g) ->
  length (GSC_my_identity g) = 32%nat -> 0 <= abs_value_us now < 2 ^ 63 ->
  globals_ok now g'.
Proof.
  unfold sign_ephemeral_key. cbv zeta. intros E Hid Hl Hnow.
  destruct (GNUNET_CRYPTO_eddsa_sign _ _) as [s|] eqn:Es; [|done]. injection E as <-.
  assert (E : GNUNET_TIME_relative_to_absolute now (GNUNET_TIME_relative_add REKEY_FREQUENCY REKEY_TOLERANCE)
              = mk_abs (43500000000 + abs_value_us now)).
  { change (GNUNET_TIME_relative_add REKEY_FREQUENCY REKEY_TOLERANCE) with (mk_rel 43500000000).
    unfold GNUNET_TIME_relative_to_absolute. cbn [rel_value_us].
    rewrite u64_small by (split; lia). replace (43500000000 =? UINT64_MAX) with false by done.
    by replace (43500000000 + abs_value_us now <? 43500000000) with false by lia. }
  rewrite E in *. split; try done.
  cbn [current_ekm ekm_expiration_time]. destruct use; [cbn [abs_value_us]; lia|].
  change (abs_value_us GNUNET_TIME_UNIT_FOREVER_ABS) with (2 ^ 64 - 1). lia.
Qed.
End TwoPeers.

(** ** Agreement on keys *)

Section Agreement.
Context `{GcryptLaws} `{EccLaws} (now : GNUNET_TIME_Absolute) (Hnow : is_u64 (abs_value_us now)).

(** The session key, whatever the key was before. *)
Definition session_key (sender receiver : PeerIdentity) (km : list Z) : list Z :=
  derive_aes_key sender receiver km [].

Lemma derive_aes_key_fresh s r km k : derive_aes_key s r km k = session_key s r km.
Proof.
  unfold session_key, derive_aes_key, GNUNET_CRYPTO_kdf.
  by destruct (kdf_total 64 (context "aes key generation vector") km [s; r]) as (out & -> & L); [lia|].
Qed.

(** A key exchange that has the session keys and sends a PING under them. *)
Record ready (g : KxGlobals) (kx : GSC_KeyExchangeInfo) (peer : PeerIdentity) (km : list Z) : Prop := {
  rd_peer : kx_peer kx = peer;
  rd_encrypt : encrypt_key kx = session_key (GSC_my_identity g) peer km;
  rd_decrypt : decrypt_key kx = session_key peer (GSC_my_identity g) km;
  rd_challenge : is_u32 (ping_challenge kx);
  rd_ping : exists iv, derive_iv (encrypt_key kx) (ping_iv_seed (kx_ping kx)) peer = Some iv
    /\ GNUNET_CRYPTO_symmetric_encrypt (peer ++ le_encode 4 (ping_challenge kx)) (encrypt_key kx) iv
       = Some (ping_body (kx_ping kx));
  rd_ping_length : length (ping_body (kx_ping kx)) = 36%nat;
  rd_received : last_sequence_number_received kx = 0;
  rd_bitmap : last_packets_bitmap kx = 0;
  rd_sent : last_sequence_number_sent kx = 0;
}.

Lemma subtract_tolerance : abs_value_us (GNUNET_TIME_absolute_subtract now REKEY_TOLERANCE) <= abs_value_us now.
Proof.
  unfold GNUNET_TIME_absolute_subtract. change (rel_value_us REKEY_TOLERANCE) with 300000000.
  split_ifs; [cbn; words|lia|]. cbn [abs_value_us]. rewrite u64_small by (words; lia). lia.
Qed.

Lemma add_tolerance : abs_value_us now <= abs_value_us (GNUNET_TIME_absolute_add now REKEY_TOLERANCE).
Proof.
  unfold GNUNET_TIME_absolute_add. change (rel_value_us REKEY_TOLERANCE) with 300000000.
  split_ifs; cbn [abs_value_us]; try lia; change (abs_value_us GNUNET_TIME_UNIT_FOREVER_ABS) with (2 ^ 64 - 1); words; lia.
Qed.

Lemma signed_bytes_status s m : ekm_signed_bytes (ekm_with_status s m) = ekm_signed_bytes m.
Proof. done. Qed.

Lemma signed_bytes_purpose m : be_decode (slice 4 4 (ekm_signed_bytes m)) = u32 (ekm_purpose_purpose m).
Proof.
  unfold ekm_signed_bytes. rewrite slice_app_r by (rewrite length_be_encode; lia).
  rewrite length_be_encode, slice_app_l by (rewrite length_be_encode; lia).
  rewrite slice_all by apply length_be_encode. apply be_decode_encode.
Qed.

(** The key of a peer is accepted, in the state the exchange starts in. *)
Lemma key_accepted gS g rnd st kx : globals_ok now gS -> globals_ok now g ->
  kx_status kx = GNUNET_CORE_KX_STATE_KEY_SENT -> kx_peer kx = GSC_my_identity gS ->
  kx_inv kx -> last_sequence_number_sent kx = 0 -> is_u32 (fst rnd) ->
  st = GNUNET_CORE_KX_STATE_KEY_SENT \/ st = GNUNET_CORE_KX_STATE_KEY_RECEIVED ->
  exists km kx' notify,
    GNUNET_CRYPTO_ecc_ecdh (my_ephemeral_key g) (GNUNET_CRYPTO_ecdhe_key_get_public (my_ephemeral_key gS)) = Some km
    /\ handle_ephemeral_key g now rnd (ekm_with_status st (current_ekm gS)) kx =
       Some (kx', [SessionsReinit; notify]
         ++ (if bool_decide (st = GNUNET_CORE_KX_STATE_KEY_SENT)
             then [SendEphemeralKey (ekm_with_status GNUNET_CORE_KX_STATE_KEY_RECEIVED (current_ekm g))]
             else []) ++ [SendPing (kx_ping kx')])
    /\ (exists t, notify = NotifyMonitors GNUNET_CORE_KX_STATE_KEY_RECEIVED t)
    /\ ready g kx' (GSC_my_identity gS) km
    /\ kx_status kx' = GNUNET_CORE_KX_STATE_KEY_RECEIVED
    /\ keep_alive_task kx' = None
    /\ foreign_key_expires kx' = ekm_expiration_time (current_ekm gS).
Proof.
  intros GS G Hst Hpeer Hi Hsent Hr Hss.
  destruct (ecdh_total (my_ephemeral_key g) (my_ephemeral_key gS)) as [km Ekm]. exists km.
  assert (Hkeyed : keyed kx = false) by (unfold keyed, status_in; by rewrite Hst).
  unfold handle_ephemeral_key. cbv zeta. fold (keyed kx). rewrite Hkeyed. cbn [andb].
  cbn [ekm_with_status ekm_origin_identity ekm_purpose_size ekm_signature ekm_expiration_time
       ekm_creation_time ekm_sender_status ekm_ephemeral_key].
  rewrite signed_bytes_status, (go_origin _ _ GS), (go_size _ _ GS), Hpeer.
  unfold bytes_eqb. rewrite (bool_decide_true (GSC_my_identity gS = _)) by done.
  pose proof (eddsa_verify_sign _ _ _ (go_signature _ _ GS)) as Hv.
  rewrite signed_bytes_purpose, (go_purpose _ _ GS), <- (go_identity _ _ GS) in Hv.
  change (u32 GNUNET_SIGNATURE_PURPOSE_SET_ECC_KEY) with GNUNET_SIGNATURE_PURPOSE_SET_ECC_KEY in Hv.
  rewrite Hv. cbn [negb orb andb].
  pose proof subtract_tolerance as Hsub. pose proof add_tolerance as Hadd.
  destruct (go_expires _ _ GS) as [Hexp _]. pose proof (go_created _ _ GS) as Hcr.
  replace (_ <? _) with false by lia. replace (_ >? _) with false by lia. cbn [orb].
  unfold derive_session_keys. cbn [set_foreign other_ephemeral_key]. rewrite (go_key _ _ GS), Ekm.
  destruct Hi as [Ht Hp He Hd]. unfold tasks_ok in Ht. rewrite Hst in Ht. destruct Ht as [_ Hka].
  cbn [done andthen]. rewrite !derive_aes_key_fresh, Z.eqb_refl. cbn [negb orb].
  set (kx1 := set_window 0 0 _).
  destruct (setup_fresh_ping_ok rnd kx1) as (iv & body & Eiv & Eenc & Lb & ->).
  { subst kx1. cbn. apply derive_aes_key_length. }
  { done. }
  destruct kx as [pe ping oek ek dk fke to lnt f rt ka bm lsr lss pc eb st0].
  cbn in Hst, Hpeer, Hka, Hsent, Hp. subst st0 pe ka lss.
  exists (set_retry f (if bool_decide (st = GNUNET_CORE_KX_STATE_KEY_SENT) then Some f else rt)
    (set_timeout to to (set_status GNUNET_CORE_KX_STATE_KEY_RECEIVED
      (set_ping (mk_ping (calculate_seed (snd rnd)) body) (fst rnd) kx1)))),
    (NotifyMonitors GNUNET_CORE_KX_STATE_KEY_RECEIVED to).
  split; [done|]. split; [by destruct Hss as [->| ->]|]. split; [by eexists|].
  split; [|done]. split; try done. by exists iv.
Qed.

(** ** PING and PONG *)

(** What is encrypted with the key is decrypted. *)
Lemma decrypts key kR iv in_ out : decrypt_key kR = key -> keyed kR = true ->
  Z.of_nat (length in_) < 65536 -> length out = length in_ ->
  GNUNET_CRYPTO_symmetric_encrypt in_ key iv = Some out ->
  do_decrypt kR iv out = Some in_.
Proof.
  intros Hk Hs Hl Lo E. unfold do_decrypt. fold (keyed kR). rewrite Hs, Hk, Lo.
  rewrite u16_small, Z.eqb_refl by (split; lia). cbn [negb].
  rewrite (symmetric_decrypt_encrypt _ _ _ _ E). by rewrite Z.eqb_refl.
Qed.

Lemma session_key_length s r km : length (session_key s r km) = 64%nat.
Proof. apply derive_aes_key_length. Qed.

(** The PING of [kB] is answered with a PONG that [kB] takes for its challenge. *)
Lemma ping_answered gA gB kA kB r km : length (GSC_my_identity gA) = 32%nat ->
  length (GSC_my_identity gB) = 32%nat ->
  ready gA kA (GSC_my_identity gB) km -> ready gB kB (GSC_my_identity gA) km -> keyed kA = true ->
  exists q iv, handle_ping gA r (kx_ping kB) kA = Some (kA, [SendPong q])
    /\ derive_pong_iv (decrypt_key kB) (pong_iv_seed q) (ping_challenge kB) (GSC_my_identity gB) = Some iv
    /\ length (pong_body q) = 40%nat
    /\ GNUNET_CRYPTO_symmetric_encrypt
         (le_encode 4 (ping_challenge kB) ++ le_encode 4 0 ++ GSC_my_identity gA) (encrypt_key kA) iv
       = Some (pong_body q).
Proof.
  intros LA LB RA RB Hk. destruct RB as [PB EB DB CB (iv & Eiv & Eenc) LP _ _ _].
  unfold handle_ping. fold (keyed kA). rewrite Hk. cbn [negb].
  assert (Hkey : decrypt_key kA = encrypt_key kB) by (rewrite (rd_decrypt _ _ _ _ RA), EB; done).
  rewrite Hkey, Eiv.
  assert (Lp : length (GSC_my_identity gA ++ le_encode 4 (ping_challenge kB)) = 36%nat)
    by (rewrite length_app, length_le_encode, LA; done).
  rewrite (decrypts (encrypt_key kB) kA iv (GSC_my_identity gA ++ le_encode 4 (ping_challenge kB)));
    [|done|done|rewrite Lp; lia|congruence|done].
  rewrite slice_app_l, slice_all, slice_app_r, LA, Nat.sub_diag, slice_all
    by (rewrite ?length_le_encode; lia).
  unfold bytes_eqb. rewrite bool_decide_true by done. cbn [negb].
  rewrite le_decode_encode, Z.mod_small by (change (256 ^ Z.of_nat 4) with (2 ^ 32); words).
  rewrite (rd_peer _ _ _ _ RA).
  destruct (derive_pong_iv_ok (encrypt_key kA) (calculate_seed r) (ping_challenge kB) (GSC_my_identity gB))
    as (iv' & Eiv' & Li'). rewrite Eiv'.
  destruct (do_encrypt_total kA iv' (le_encode 4 (ping_challenge kB) ++ le_encode 4 0 ++ GSC_my_identity gA))
    as (out & -> & Lo & Eo); [rewrite (rd_encrypt _ _ _ _ RA); apply session_key_length|done| |].
  { rewrite !length_app, !length_le_encode, LA. lia. }
  exists (mk_pong (calculate_seed r) out), iv'. split; [done|].
  replace (decrypt_key kB) with (encrypt_key kA) by (rewrite (rd_encrypt _ _ _ _ RA), DB; done).
  split; [done|]. split; [|done]. cbn [pong_body]. rewrite Lo, !length_app, !length_le_encode, LA. done.
Qed.

(** A key exchange whose session is up, for messages with sequence numbers above [n]. *)
Record session_up (g : KxGlobals) (kx : GSC_KeyExchangeInfo) (peer : PeerIdentity) (km : list Z) (n : Z)
  : Prop := {
  su_peer : kx_peer kx = peer;
  su_encrypt : encrypt_key kx = session_key (GSC_my_identity g) peer km;
  su_decrypt : decrypt_key kx = session_key peer (GSC_my_identity g) km;
  su_status : kx_status kx = GNUNET_CORE_KX_STATE_UP;
  su_received : 0 <= last_sequence_number_received kx <= n;
  su_expires : abs_value_us now < abs_value_us (foreign_key_expires kx) < 2 ^ 64;
}.

Lemma pong_accepted gB kB gA kA q iv km : ready gB kB (GSC_my_identity gA) km ->
  length (GSC_my_identity gA) = 32%nat ->
  kx_status kB = GNUNET_CORE_KX_STATE_KEY_RECEIVED -> keep_alive_task kB = None ->
  abs_value_us now < abs_value_us (foreign_key_expires kB) < 2 ^ 64 ->
  encrypt_key kA = session_key (GSC_my_identity gA) (GSC_my_identity gB) km ->
  derive_pong_iv (decrypt_key kB) (pong_iv_seed q) (ping_challenge kB) (GSC_my_identity gB) = Some iv ->
  length (pong_body q) = 40%nat ->
  GNUNET_CRYPTO_symmetric_encrypt
    (le_encode 4 (ping_challenge kB) ++ le_encode 4 0 ++ GSC_my_identity gA) (encrypt_key kA) iv
    = Some (pong_body q) ->
  exists kB' t ev, handle_pong gB now q kB =
      Some (kB', NotifyMonitors GNUNET_CORE_KX_STATE_UP t :: SessionsCreate :: ev)
    /\ (forall g' rnd k, deliver_all g' now rnd ev k = Some (k, []))
    /\ session_up gB kB' (GSC_my_identity gA) km 0 /\ last_sequence_number_sent kB' = 0.
Proof.
  intros R LA Hst Hka Hexp EA Eiv Lq Eq. destruct R as [P E D C _ _ Hrec _ Hsent].
  assert (Hkeyed : keyed kB = true) by (unfold keyed, status_in; by rewrite Hst).
  unfold handle_pong. fold (keyed kB). rewrite Hkeyed, Eiv. cbn [negb].
  assert (Hkey : decrypt_key kB = encrypt_key kA) by (rewrite D, EA; done).
  rewrite (decrypts (encrypt_key kA) kB iv (le_encode 4 (ping_challenge kB) ++ le_encode 4 0 ++ GSC_my_identity gA));
    [|done|done|rewrite !length_app, !length_le_encode, LA; lia
     |rewrite Lq, !length_app, !length_le_encode, LA; done|done].
  rewrite (slice_app_l 0 4), (slice_all 4) by (rewrite ?length_le_encode; lia).
  rewrite !(slice_app_r _ 32) by (rewrite ?length_le_encode; lia). rewrite !length_le_encode, slice_all by done.
  rewrite le_decode_encode, Z.mod_small by (change (256 ^ Z.of_nat 4) with (2 ^ 32); words).
  unfold bytes_eqb. rewrite P, bool_decide_true, Z.eqb_refl by done. cbn [negb orb].
  destruct kB as [pe ping oek ek dk fke to lnt f rt ka bm lsr lss pc eb st0].
  cbn in Hst, Hka, Hrec, Hsent, P, E, D, Hexp. subst st0 ka lsr lss.
  cbn [done andthen set_retry kx_status set_status monitor_notify_all set_timeout emit keep_alive_task].
  rewrite bool_decide_true by done. unfold update_timeout. cbv zeta.
  destruct (_ >? _); (eexists _, to, _; split; [reflexivity|]); (split; [done|]); (split; [|done]);
    (split; try done; lia).
Qed.

(** ** Encrypted messages *)

Lemma get_duration_now : rel_value_us (GNUNET_TIME_absolute_get_duration now now) = 0.
Proof.
  unfold GNUNET_TIME_absolute_get_duration. rewrite Z.ltb_irrefl. cbn [rel_value_us].
  rewrite Z.sub_diag. done.
Qed.

Lemma remaining_positive e : abs_value_us now < abs_value_us e < 2 ^ 64 ->
  (0 =? rel_value_us (GNUNET_TIME_absolute_get_remaining now e)) = false.
Proof.
  intros He. apply Z.eqb_neq. unfold GNUNET_TIME_absolute_get_remaining.
  split_ifs; [cbn; words|lia|]. cbn [rel_value_us]. rewrite u64_small by (words; lia). lia.
Qed.

(** The message for [peer] that has the payload under the key. *)
Definition carries (key : list Z) (peer : PeerIdentity) (snum : Z) (payload : list Z) (m : EncryptedMessage)
  : Prop :=
  let ph := be_encode 4 snum ++ be_encode 4 0 ++ be_encode 8 (abs_value_us now) ++ payload in
  exists iv ak, derive_iv key (enc_iv_seed m) peer = Some iv
    /\ GNUNET_CRYPTO_symmetric_encrypt ph key iv = Some (enc_body m)
    /\ length (enc_body m) = length ph
    /\ derive_auth_key key (enc_iv_seed m) = Some ak
    /\ GNUNET_CRYPTO_hmac ak (enc_body m) = Some (enc_hmac m).

Lemma transmit_spec r payload kx n : last_sequence_number_sent kx = n -> 0 <= n < 2 ^ 32 - 1 ->
  length (encrypt_key kx) = 64%nat -> Z.of_nat (length payload) < 65448 ->
  exists m, GSC_KX_encrypt_and_transmit now r payload kx =
      Some (set_sent (n + 1) GNUNET_NO kx, [SendEncrypted m])
    /\ carries (encrypt_key kx) (kx_peer kx) (n + 1) payload m.
Proof.
  intros Hn Hr Hk Hl. unfold GSC_KX_encrypt_and_transmit, sizeof_EncryptedMessage. cbv zeta.
  rewrite (u16_small (Z.of_nat (length payload) + 88)), Z.eqb_refl by (split; lia).
  cbn [set_sent last_sequence_number_sent encrypt_key kx_peer]. rewrite Hn, u32_small by (split; lia).
  destruct (derive_iv_ok (encrypt_key kx) (calculate_seed r) (kx_peer kx)) as (iv & Eiv & Li).
  rewrite Eiv. set (kx1 := set_sent _ _ kx).
  edestruct (do_encrypt_total kx1 iv) as (em & -> & Lem & Eem); [exact Hk|done| |].
  { rewrite !length_app, !length_be_encode. lia. }
  destruct (derive_auth_key_ok (encrypt_key kx) (calculate_seed r)) as (ak & Eak). rewrite Eak.
  destruct (hmac_total ak em) as (mac & Emac & _). rewrite Emac.
  exists (mk_enc (calculate_seed r) mac em). split; [done|]. by exists iv, ak.
Qed.

Lemma carried_fields snum payload : is_u32 snum ->
  let ph := be_encode 4 snum ++ be_encode 4 0 ++ be_encode 8 (abs_value_us now) ++ payload in
  be_decode (slice 0 4 ph) = snum /\ mk_abs (be_decode (slice 8 8 ph)) = now /\ drop 16 ph = payload.
Proof.
  intros Hs. cbv zeta. split_and!.
  - rewrite slice_app_l, slice_all, be_decode_encode by (rewrite ?length_be_encode; lia).
    by apply Z.mod_small.
  - rewrite !(slice_app_r _ 8), !length_be_encode by (rewrite ?length_be_encode; lia).
    rewrite slice_app_l, slice_all, be_decode_encode by (rewrite ?length_be_encode; lia).
    rewrite Z.mod_small by (change (256 ^ Z.of_nat 8) with (2 ^ 64); words). by destruct now.
  - rewrite !app_assoc, drop_app_ge; rewrite !length_app, !length_be_encode; [done|lia].
Qed.

Lemma encrypted_accepted gB kB peer km n snum payload m : session_up gB kB peer km n ->
  carries (decrypt_key kB) (GSC_my_identity gB) snum payload m ->
  n < snum < 2 ^ 32 -> Z.of_nat (length payload) < 65448 ->
  exists kB' ev, handle_encrypted gB now m kB = Some (kB', ev) /\ received ev = [payload]
    /\ session_up gB kB' peer km snum /\ encrypt_key kB' = encrypt_key kB
    /\ last_sequence_number_sent kB' = last_sequence_number_sent kB.
Proof.
  intros [PB EB DB SB RB XB] (iv & ak & Eiv & Eenc & Lb & Eak & Emac) Hn Hl.
  assert (Hkeyed : keyed kB = true) by (unfold keyed, status_in; by rewrite SB).
  destruct (carried_fields snum payload ltac:(split; lia)) as (F1 & F2 & F3).
  unfold handle_encrypted. rewrite SB, bool_decide_true by done. cbn [negb].
  rewrite remaining_positive, Eak, Emac, Eiv by done. unfold bytes_eqb.
  rewrite bool_decide_true by done. cbn [negb].
  erewrite decrypts; [|reflexivity|done| |exact Lb|exact Eenc]; [|rewrite !length_app, !length_be_encode; lia].
  rewrite F1, F2, F3, get_duration_now. unfold check_sequence.
  replace (last_sequence_number_received kB =? snum) with false by lia.
  replace (last_sequence_number_received kB >? snum) with false by lia. cbn [andb].
  change (0 >? rel_value_us MAX_MESSAGE_AGE) with false. cbn iota.
  unfold update_timeout. cbv zeta. destruct kB. cbn in *.
  destruct (_ >? _); (eexists _, _; split; [reflexivity|]); (split; [done|]);
    (split; [|done]); (split; try done; cbn; lia).
Qed.
Lemma carries_size key peer snum payload m : carries key peer snum payload m ->
  4 <= Z.of_nat (length payload) < 65448 -> check_encrypted m = true.
Proof.
  intros (iv & ak & _ & _ & Lb & _) Hl. unfold check_encrypted, enc_size.
  rewrite Lb, !length_app, !length_be_encode. unfold ENCRYPTED_HEADER_SIZE, sizeof_EncryptedMessage.
  rewrite u16_small by (split; lia). unfold sizeof_MessageHeader. apply negb_true_iff, Z.ltb_ge. lia.
Qed.

Lemma stream_delivered gA gB km rnd l kA kB n :
  encrypt_key kA = session_key (GSC_my_identity gA) (GSC_my_identity gB) km ->
  kx_peer kA = GSC_my_identity gB -> last_sequence_number_sent kA = n ->
  session_up gB kB (GSC_my_identity gA) km n ->
  0 <= n -> n + Z.of_nat (length l) < 2 ^ 32 ->
  Forall (fun p => 4 <= Z.of_nat (length (snd p)) < 65448) l ->
  exists kA' es kB' ev, transmit_all now l kA = Some (kA', es)
    /\ deliver_all gB now rnd es kB = Some (kB', ev) /\ received ev = map snd l
    /\ kx_status kB' = GNUNET_CORE_KX_STATE_UP.
Proof.
  intros EA PA Hn U Hn0 Hlen Hl. revert kA kB n EA PA Hn U Hn0 Hlen.
  induction Hl as [|[r payload] l Hp _ IH]; intros kA kB n EA PA Hn U Hn0 Hlen.
  { exists kA, [], kB, []. split_and!; [done..|]. apply U. }
  cbn [length snd] in Hlen, Hp.
  destruct (transmit_spec r payload kA n Hn) as (m & Et & Hc);
    [lia|rewrite EA; apply session_key_length|lia|].
  pose proof (carries_size _ _ _ _ _ Hc Hp) as Hck. rewrite PA, EA, <- (su_decrypt _ _ _ _ _ U) in Hc.
  destruct (encrypted_accepted gB kB _ km n (n + 1) payload m U Hc) as (kB1 & e1 & Eh & Er & U1 & _ & _);
    [lia|lia|].
  destruct (IH (set_sent (n + 1) GNUNET_NO kA) kB1 (n + 1)) as (kA' & es & kB' & ev & Et' & Ed & Er' & Us);
    [done..|lia|lia|].
  exists kA', (SendEncrypted m :: es), kB', (e1 ++ ev). cbn [transmit_all]. rewrite Et. cbn [andthen].
  rewrite Et'. split; [done|]. cbn [deliver_all deliver]. rewrite Hck. cbn [when]. rewrite Eh.
  cbn [andthen]. rewrite Ed. split; [done|]. split; [by rewrite received_app, Er, Er'|done].
Qed.

(** ** The handshake *)

Lemma connect_starts g pid : 0 < GNUNET_CRYPTO_hash_cmp (GNUNET_CRYPTO_hash pid) (GNUNET_CRYPTO_hash (GSC_my_identity g)) ->
  exists kx t, handle_transport_notify_connect g pid =
    Some (kx, [NotifyMonitors GNUNET_CORE_KX_STATE_KEY_SENT t;
               SendEphemeralKey (ekm_with_status GNUNET_CORE_KX_STATE_KEY_SENT (current_ekm g))]).
Proof.
  intros Hc. unfold handle_transport_notify_connect. cbn [done andthen monitor_notify_all]. cbv zeta.
  apply Z.ltb_lt in Hc. rewrite Hc. by eexists _, _.
Qed.

Lemma connect_ready g pid kx ev : handle_transport_notify_connect g pid = Some (kx, ev) ->
  last_sequence_number_sent kx = 0.
Proof.
  unfold handle_transport_notify_connect. cbn [done andthen monitor_notify_all]. cbv zeta.
  by destruct (0 <? _); intros [= <- _].
Qed.

Lemma handshake_completes gA gB rndA rndB : globals_ok now gA -> globals_ok now gB ->
  0 < GNUNET_CRYPTO_hash_cmp (GNUNET_CRYPTO_hash (GSC_my_identity gB)) (GNUNET_CRYPTO_hash (GSC_my_identity gA)) ->
  (forall e, is_u32 (fst (rndA e))) -> (forall e, is_u32 (fst (rndB e))) ->
  exists kA kB km, handshake gA gB now rndA rndB = Some (kA, kB)
    /\ session_up gA kA (GSC_my_identity gB) km 0 /\ session_up gB kB (GSC_my_identity gA) km 0
    /\ last_sequence_number_sent kA = 0 /\ last_sequence_number_sent kB = 0.
Proof.
  intros GA GB Hc HrA HrB. unfold handshake.
  pose proof (go_length _ _ GA) as LA. pose proof (go_length _ _ GB) as LB.
  destruct (connect_starts gA (GSC_my_identity gB) Hc) as (kA0 & t & EA0).
  destruct (connect_safe gA (GSC_my_identity gB) LB) as (kA0' & ev & EA0' & IA0 & PA0 & SA0 & _).
  rewrite EA0 in EA0'. injection EA0' as <- <-. rewrite EA0.
  destruct (connect_safe gB (GSC_my_identity gA) LA) as (kB0 & evB & EB0 & IB0 & PB0 & SB0 & _).
  rewrite EB0. cbn [deliver_all deliver done andthen].
  pose proof (connect_ready _ _ _ _ EA0) as NA0. pose proof (connect_ready _ _ _ _ EB0) as NB0.
  set (m1 := SendEphemeralKey _).
  destruct (key_accepted gA gB (rndB m1) GNUNET_CORE_KX_STATE_KEY_SENT kB0 GA GB SB0 PB0 IB0 NB0 (HrB m1))
    as (km & kB1 & n1 & Ekm & -> & (t1 & ->) & RB & SB1 & KB1 & XB1); [by left|].
  rewrite bool_decide_true by done. cbn [app andthen deliver_all deliver done].
  set (m2 := SendEphemeralKey _).
  destruct (key_accepted gB gA (rndA m2) GNUNET_CORE_KX_STATE_KEY_RECEIVED kA0 GB GA SA0 PA0 IA0 NA0 (HrA m2))
    as (km' & kA1 & n2 & Ekm' & -> & (t2 & ->) & RA & SA1 & KA1 & XA1); [by right|].
  rewrite ecdh_agree, Ekm in Ekm'. injection Ekm' as <-.
  rewrite bool_decide_false by done. cbn [app andthen].
  assert (YA : keyed kA1 = true) by (unfold keyed, status_in; by rewrite SA1).
  assert (YB : keyed kB1 = true) by (unfold keyed, status_in; by rewrite SB1).
  destruct (ping_answered gA gB kA1 kB1 (snd (rndA (SendPing (kx_ping kB1)))) km LA LB RA RB YA)
    as (qA & ivA & -> & EivA & LqA & EqA). cbn [app andthen deliver_all deliver done].
  destruct (ping_answered gB gA kB1 kA1 (snd (rndB (SendPing (kx_ping kA1)))) km LB LA RB RA YB)
    as (qB & ivB & -> & EivB & LqB & EqB). cbn [app andthen deliver_all deliver done].
  destruct (pong_accepted gB kB1 gA kA1 qA ivA km RB LA SB1 KB1) as (kB2 & t3 & ev3 & -> & Hev3 & UB & NB2);
    [rewrite XB1; apply GA|apply RA|done..|]. cbn [app andthen deliver_all deliver done].
  destruct (pong_accepted gA kA1 gB kB1 qB ivB km RA LB SA1 KA1) as (kA2 & t4 & ev4 & -> & Hev4 & UA & NA2);
    [rewrite XA1; apply GB|apply RB|done..|]. cbn [app andthen deliver_all deliver done].
  rewrite app_nil_r, Hev3. exists kA2, kB2, km. by split_and!.
Qed.
End Agreement.

(** A key that is received again gives the same session keys, and resets the window. *)
Lemma same_key_resets_window `{GcryptLaws} `{EccLaws} g rnd kx km : kx_inv kx ->
  GNUNET_CRYPTO_ecc_ecdh (my_ephemeral_key g) (other_ephemeral_key kx) = Some km ->
  encrypt_key kx = session_key (GSC_my_identity g) (kx_peer kx) km ->
  decrypt_key kx = session_key (kx_peer kx) (GSC_my_identity g) km ->
  exists kx', derive_session_keys g rnd kx = Some (kx', [])
    /\ encrypt_key kx' = encrypt_key kx /\ decrypt_key kx' = decrypt_key kx
    /\ last_sequence_number_received kx' = 0 /\ last_packets_bitmap kx' = 0.
Proof.
  intros Hi Ekm EA DA. unfold derive_session_keys. rewrite Ekm. cbn [done andthen].
  rewrite !derive_aes_key_fresh, <- EA, <- DA.
  destruct (setup_fresh_ping_ok rnd (set_window 0 0 (set_keys (encrypt_key kx) (decrypt_key kx) kx)))
    as (iv & body & _ & _ & _ & ->); [apply Hi..|]. by eexists.
Qed.

(** ** An instance *)

#[local] Instance toy_ecc : Ecc := {
  GNUNET_CRYPTO_ecc_ecdh a b := Some (le_encode 64 (le_decode a + le_decode b));
  GNUNET_CRYPTO_ecdhe_key_get_public a := a;
  GNUNET_CRYPTO_eddsa_key_get_public k := le_encode 32 (le_decode k);
  GNUNET_CRYPTO_eddsa_sign k m := Some (k ++ m);
  GNUNET_CRYPTO_eddsa_verify p m s pub :=
    (p =? be_decode (slice 4 4 m)) && bytes_eqb (drop (length s - length m) s) m;
}.

#[local] Instance toy_ecc_laws : EccLaws.
Proof.
  split.
  - intros a b. by eexists.
  - intros a b. cbn. by rewrite Z.add_comm.
  - intros k m. by eexists.
  - intros k m s [= <-]. cbn. rewrite Z.eqb_refl, length_app, Nat.add_sub, drop_app_length.
    unfold bytes_eqb. by rewrite bool_decide_true.
Defined.

#[local] Existing Instance toy_gcrypt.
#[local] Existing Instance toy_gcrypt_laws.

Definition toy_no_globals (id key : list Z) : KxGlobals :=
  mk_globals id key [] (mk_ekm 0 [] 0 0 (mk_abs 0) (mk_abs 0) [] []).
Definition toy_peer (n : Z) : KxGlobals :=
  default (toy_no_globals [] [])
    (sign_ephemeral_key (toy_no_globals (le_encode 32 n) [n]) (mk_abs 1000) true [n; n]).
Definition toyA : KxGlobals := Eval vm_compute in toy_peer 5.
Definition toyB : KxGlobals := Eval vm_compute in toy_peer 6.
Definition toy_kx0 : GSC_KeyExchangeInfo := Eval vm_compute in
  fst (default (kx_new [], []) (handle_transport_notify_connect toyB (GSC_my_identity toyA))).
Definition toy_ev0 : list kx_event := Eval vm_compute in
  snd (default (kx_new [], []) (handle_transport_notify_connect toyB (GSC_my_identity toyA))).
Definition toy_run1 : KxGlobals * GSC_KeyExchangeInfo * list kx_event := Eval vm_compute in
  default (toyB, kx_new [], []) (kx_run (toyB, toy_kx0)
    [(mk_abs 2000, EphemeralKeyReceived (8, 9)
                     (ekm_with_status GNUNET_CORE_KX_STATE_KEY_SENT (current_ekm toyA)))]).
Definition toy_kx1 : GSC_KeyExchangeInfo := Eval vm_compute in snd (fst toy_run1).
Definition toy_ev1 : list kx_event := Eval vm_compute in snd toy_run1.

(** ** Properties *)

(** C17. Key exchanges never fail an assertion and never stall: from the connection of a
    peer on, whatever messages arrive, whichever tasks run and whenever the ephemeral key
    is replaced, every operation completes. As long as the peer has not confirmed the key,
    it will be sent again; a session exists exactly in the states up and rekeying, is never
    created twice, and is kept alive in these states only; a disconnect ends it and leaves
    no task. *)
Theorem kx_safe `{GcryptLaws} `{EccLaws} g pid ins :
  length pid = 32%nat -> Forall (fun i => input_wf (snd i)) ins ->
  exists kx0 ev0 g' kx ev kx1 ev1,
    handle_transport_notify_connect g pid = Some (kx0, ev0)
    /\ kx_run (g, kx0) ins = Some (g', kx, ev)
    /\ kx_peer kx = pid /\ tasks_ok kx
    /\ sessions false (ev0 ++ ev) = Some (has_session kx)
    /\ handle_transport_notify_disconnect kx = Some (kx1, ev1)
    /\ sessions false (ev0 ++ ev ++ ev1) = Some false
    /\ retry_set_key_task kx1 = None /\ keep_alive_task kx1 = None.
Proof.
  intros Hp Hwf. destruct (connect_safe g pid Hp) as (kx0 & ev0 & E0 & I0 & P0 & S0 & Q0).
  destruct (kx_run_safe ins g kx0 I0 Hwf) as (g' & kx & ev & E & I & P & Q).
  assert (Hs0 : has_session kx0 = false) by (unfold has_session; by rewrite S0).
  eexists kx0, ev0, g', kx, ev, _, _. split; [done|]. split; [done|]. split; [congruence|].
  rewrite Hs0 in Q. split; [apply I|]. rewrite !sessions_app, Q0. split; [done|]. split; [reflexivity|].
  rewrite sessions_app, Q. by split.
Qed.

Lemma kx_safe_witness :
  exists kx0 ev0 g' kx ev,
    handle_transport_notify_connect (mk_globals [] [] [] (mk_ekm 0 [] 0 0 (mk_abs 0) (mk_abs 0) [] []))
      (repeat 7 32) = Some (kx0, ev0)
    /\ kx_run (mk_globals [] [] [] (mk_ekm 0 [] 0 0 (mk_abs 0) (mk_abs 0) [] []), kx0)
         [(mk_abs 5, RetryTaskRuns); (mk_abs 9, Rekeyed true [3] (1, 2))] = Some (g', kx, ev)
    /\ tasks_ok kx.
Proof.
  destruct (kx_safe (mk_globals [] [] [] (mk_ekm 0 [] 0 0 (mk_abs 0) (mk_abs 0) [] [])) (repeat 7 32)
    [(mk_abs 5, RetryTaskRuns); (mk_abs 9, Rekeyed true [3] (1, 2))])
    as (kx0 & ev0 & g' & kx & ev & _ & _ & E0 & E & _ & T & _); [reflexivity|by repeat constructor|].
  exists kx0, ev0, g', kx, ev. split; [exact E0|]. split; [exact E|exact T].
Defined.

(** C24. Authentication: whenever a key exchange has a foreign key (the state is key
    received, up or rekeying), that key and its expiration come from an ephemeral key
    message that was received for it with the identity of the peer, a valid signature of
    the peer and a validity that covered the time of receipt, up to the tolerance. *)
Theorem kx_authenticated `{Gcrypt} `{Ecc} g pid ins kx0 ev0 g' kx ev :
  handle_transport_notify_connect g pid = Some (kx0, ev0) ->
  kx_run (g, kx0) ins = Some (g', kx, ev) -> keyed kx = true ->
  exists now rnd m, (now, EphemeralKeyReceived rnd m) ∈ ins /\ ekm_authentic now pid m
    /\ other_ephemeral_key kx = ekm_ephemeral_key m /\ foreign_key_expires kx = ekm_expiration_time m.
Proof.
  intros E0 E Hk.
  assert (K0 : keyed kx0 = false /\ kx_peer kx0 = pid).
  { revert E0. unfold handle_transport_notify_connect. cbn [done andthen monitor_notify_all]. cbv zeta.
    by destruct (0 <? _); intros [= <- _]. }
  destruct K0 as [K0 P0]. apply kx_run_authentic in E as [(_ & _ & _ & Hkk)|(now & rnd & m & Hin & Ha & _ & Ho & Hf)].
  - rewrite K0 in Hkk. by specialize (Hkk Hk).
  - rewrite P0 in Ha. by exists now, rnd, m.
Qed.

Lemma kx_authenticated_witness :
  exists now rnd m,
    (now, EphemeralKeyReceived rnd m)
      ∈ [(mk_abs 2000, EphemeralKeyReceived (8, 9)
                         (ekm_with_status GNUNET_CORE_KX_STATE_KEY_SENT (current_ekm toyA)))]
    /\ ekm_authentic now (GSC_my_identity toyA) m /\ ekm_ephemeral_key m = [5; 5].
Proof.
  destruct (kx_authenticated toyB (GSC_my_identity toyA)
    [(mk_abs 2000, EphemeralKeyReceived (8, 9)
                     (ekm_with_status GNUNET_CORE_KX_STATE_KEY_SENT (current_ekm toyA)))]
    toy_kx0 toy_ev0 toyB toy_kx1 toy_ev1)
    as (now & rnd & m & Hin & Ha & Ho & _); [by vm_compute..|].
  exists now, rnd, m. split; [exact Hin|]. split; [exact Ha|]. rewrite <- Ho. by vm_compute.
Defined.

(** Replay protection. After any series of sequence numbers under one key, a number
    that was not yet accepted is accepted exactly if it is at most 32 below the newest
    one, and no number is accepted more than twice. *)
Theorem replay_window snums :
  Forall is_u32 snums ->
  let '(bitmap, last, accepted) := window_run snums in
  (forall s, (count_occ Z.eq_dec accepted s <= 2)%nat)
  /\ (forall s, count_occ Z.eq_dec accepted s = 2%nat -> check_sequence bitmap last s = None)
  /\ (forall s, s ∈ accepted -> s <= last) /\ (0 < last -> last ∈ accepted)
  /\ (forall s, is_u32 s -> 0 < s -> s ∉ accepted ->
       (is_Some (check_sequence bitmap last s) <-> last <= s + 32)).
Proof.
  intros Hs. destruct (window_run_inv snums Hs) as [late W].
  assert (Hu : Forall is_u32 (snd (window_run snums))).
  { clear W late. unfold window_run. assert (H0 : Forall is_u32 (snd (0, 0, @nil Z))) by constructor.
    revert H0. generalize (0, 0, @nil Z). induction Hs as [|s snums Hs1 _ IH]; intros st H0; [done|].
    rewrite fold_left_cons. apply IH. destruct st as [[b l] acc]. cbn [window_step].
    destruct (check_sequence b l s) as [[]|]; [by constructor|done]. }
  pose proof (check_sequence_spec (window_run snums) late) as Hspec.
  destruct (window_run snums) as [[bitmap last] acc]. cbn [fst snd] in *.
  destruct W as [Wb Wl Wbits Wlate Wnew Wr Wc]. cbn [fst snd] in *.
  assert (W : window_inv (bitmap, last, acc) late) by (by split).
  split_and!; try done.
  - intros s. specialize (Wc s). destruct (decide (s ∈ late)); lia.
  - intros s H2. specialize (Wc s). destruct (decide (s ∈ late)) as [Hin|]; [|lia].
    assert (Hin' : s ∈ acc) by (by apply Wlate). rewrite Forall_forall in Hu.
    rewrite (Hspec s W (Hu s Hin')). replace (s <? last) with true by (destruct (Wlate s Hin); lia).
    rewrite bool_decide_true by done. by rewrite andb_false_r.
  - intros s Hus Hpos Hnin. rewrite (Hspec s W Hus).
    destruct (Z.ltb_spec s last) as [Hlt|Hge].
    + rewrite bool_decide_false by (intros Hin%Wlate; tauto). rewrite andb_true_r.
      destruct (Z.leb_spec (last - s) 32); (split; [|lia || by eexists]); [lia|by intros [? ?]].
    + destruct (Z.eqb_spec s last) as [->|]; [exfalso; apply Hnin, Wr; lia|].
      split; [lia|]. by eexists.
Qed.

Lemma replay_window_witness :
  is_Some (check_sequence (fst (fst (window_run [1; 2; 40; 39]))) 40 20) <-> 40 <= 20 + 32.
Proof.
  destruct (replay_window [1; 2; 40; 39]) as (_ & _ & _ & _ & Hf); [by repeat constructor|].
  apply Hf; [by split|done|]. intros Hin. vm_compute in Hin.
  repeat (apply elem_of_cons in Hin as [Hin|Hin]; [done|]). by apply elem_of_nil in Hin.
Defined.

(** The channel after the handshake, in both directions. *)
Lemma channel_established `{GcryptLaws} `{EccLaws} now gA gB rndA rndB :
  is_u64 (abs_value_us now) -> globals_ok now gA -> globals_ok now gB ->
  0 < GNUNET_CRYPTO_hash_cmp (GNUNET_CRYPTO_hash (GSC_my_identity gB))
        (GNUNET_CRYPTO_hash (GSC_my_identity gA)) ->
  (forall e, is_u32 (fst (rndA e))) -> (forall e, is_u32 (fst (rndB e))) ->
  exists kA kB, handshake gA gB now rndA rndB = Some (kA, kB)
    /\ kx_status kA = GNUNET_CORE_KX_STATE_UP /\ kx_status kB = GNUNET_CORE_KX_STATE_UP
    /\ forall l, Z.of_nat (length l) < 2 ^ 32 ->
         Forall (fun p => 4 <= Z.of_nat (length (snd p)) < 65448) l ->
         (exists kA' es kB' ev, transmit_all now l kA = Some (kA', es)
            /\ deliver_all gB now rndB es kB = Some (kB', ev) /\ received ev = map snd l
            /\ kx_status kB' = GNUNET_CORE_KX_STATE_UP)
         /\ (exists kB' es kA' ev, transmit_all now l kB = Some (kB', es)
            /\ deliver_all gA now rndA es kA = Some (kA', ev) /\ received ev = map snd l
            /\ kx_status kA' = GNUNET_CORE_KX_STATE_UP).
Proof.
  intros Hnow GA GB Hc HrA HrB.
  destruct (handshake_completes now Hnow gA gB rndA rndB GA GB Hc HrA HrB)
    as (kA & kB & km & E & UA & UB & NA & NB).
  exists kA, kB. split; [done|]. split; [apply UA|]. split; [apply UB|]. intros l Hl Hp.
  split; eapply stream_delivered with (n := 0); try done; try lia; first [apply UA|apply UB].
Qed.

(** C16. Secure channel. Two peers with valid ephemeral keys that connect reach the state up
    on both sides by the messages they send, and then every series of payloads that one
    of them transmits is handed to the tokenizer of the other one, complete, unchanged and
    in order, in both directions. *)
Theorem secure_channel `{GcryptLaws} `{EccLaws} now gA gB rndA rndB :
  is_u64 (abs_value_us now) -> globals_ok now gA -> globals_ok now gB ->
  0 < GNUNET_CRYPTO_hash_cmp (GNUNET_CRYPTO_hash (GSC_my_identity gB))
        (GNUNET_CRYPTO_hash (GSC_my_identity gA)) ->
  (forall e, is_u32 (fst (rndA e))) -> (forall e, is_u32 (fst (rndB e))) ->
  exists kA kB, handshake gA gB now rndA rndB = Some (kA, kB)
    /\ kx_status kA = GNUNET_CORE_KX_STATE_UP /\ kx_status kB = GNUNET_CORE_KX_STATE_UP
    /\ forall l, Z.of_nat (length l) < 2 ^ 32 ->
         Forall (fun p => 4 <= Z.of_nat (length (snd p)) < 65448) l ->
         (exists kA' es kB' ev, transmit_all now l kA = Some (kA', es)
            /\ deliver_all gB now rndB es kB = Some (kB', ev) /\ received ev = map snd l)
         /\ (exists kB' es kA' ev, transmit_all now l kB = Some (kB', es)
            /\ deliver_all gA now rndA es kA = Some (kA', ev) /\ received ev = map snd l).
Proof.
  intros Hnow GA GB Hc HrA HrB.
  destruct (channel_established now gA gB rndA rndB Hnow GA GB Hc HrA HrB) as (kA & kB & E & UA & UB & Hs).
  exists kA, kB. split_and!; try done. intros l Hl Hp.
  destruct (Hs l Hl Hp) as [(kA' & es & kB' & ev & E1 & E2 & E3 & _) (kB2 & es2 & kA2 & ev2 & F1 & F2 & F3 & _)].
  split; [by exists kA', es, kB', ev|by exists kB2, es2, kA2, ev2].
Qed.

Lemma secure_channel_witness :
  exists kA kB, handshake toyB toyA (mk_abs 2000) (fun _ => (3, 4)) (fun _ => (8, 9)) = Some (kA, kB)
    /\ exists kA' es kB' ev, transmit_all (mk_abs 2000) [(1, [0; 4; 0; 77]); (2, [0; 5; 0; 78; 1])] kA = Some (kA', es)
       /\ deliver_all toyA (mk_abs 2000) (fun _ => (8, 9)) es kB = Some (kB', ev)
       /\ received ev = [[0; 4; 0; 77]; [0; 5; 0; 78; 1]].
Proof.
  destruct (secure_channel (mk_abs 2000) toyB toyA (fun _ => (3, 4)) (fun _ => (8, 9)))
    as (kA & kB & E & _ & _ & Hl); [by split|split; by vm_compute|split; by vm_compute|by vm_compute|by split..|].
  exists kA, kB. split; [exact E|].
  destruct (Hl [(1, [0; 4; 0; 77]); (2, [0; 5; 0; 78; 1])]) as [Hd _];
    [done|repeat constructor; cbn; lia|exact Hd].
Defined.
