(* ===== verification/TypeMap.v ===== *)
(** * Type maps: [src/core/gnunet-service-core_typemap.c]

    A type map is the set of message types a peer handles, as a bit map of 65536 bits in
    32-bit words. The service keeps its own map, with a counter for each type, and sends
    it to its neighbours, compressed if that makes it shorter. *)

From S2P Require Import Prelude Message Crypto.
#[local] Open Scope Z_scope.

(** ** zlib *)

(** [compress2] at level 9 and [uncompress] into a buffer of the size given; [None] is a
    result other than [Z_OK]. *)
Class Zlib := {
  compress2 : list Z -> option (list Z);
  uncompress : Z -> list Z -> option (list Z);
}.

(** Decompression gives back what was compressed, and does not look at what follows. *)
Class ZlibLaws `{Zlib} := {
  uncompress_compress : forall n data out rest, compress2 data = Some out ->
    Z.of_nat (length data) <= n -> uncompress n (out ++ rest) = Some data;
}.

(** ** Data *)

(** [bits] of [struct GSC_TypeMap]. *)
Abbreviation GSC_TypeMap := (list Z) (only parsing).

Definition TYPEMAP_WORDS : nat := 2048.
Definition sizeof_TypeMap : Z := 8192.

(** The map as it is in memory. *)
Definition typemap_bytes (tm : GSC_TypeMap) : list Z := concat (map (le_encode 4) tm).
Definition typemap_of_bytes (b : list Z) : GSC_TypeMap :=
  map (fun i => le_decode (slice (4 * i) 4 b)) (seq 0 TYPEMAP_WORDS).

(** The static variables. *)
Record TypeMapState := mk_tms {
  my_type_map : GSC_TypeMap;
  map_counters : list Z;
  my_tm_hash : list Z;
  hash_current : Z;
}.

Definition typemap_initial : TypeMapState :=
  mk_tms (repeat 0 2048) (repeat 0 (Z.to_nat 65536)) (repeat 0 64) GNUNET_NO.

(** ** Operations *)

Definition rehash_typemap (st : TypeMapState) : TypeMapState :=
  mk_tms (my_type_map st) (map_counters st) (my_tm_hash st) GNUNET_NO.

Definition GSC_TYPEMAP_hash `{Gcrypt} (tm : GSC_TypeMap) : list Z := GNUNET_CRYPTO_hash (typemap_bytes tm).

Definition GSC_TYPEMAP_check_hash `{Gcrypt} (hc : list Z) (st : TypeMapState) : TypeMapState * Z :=
  let st :=
    if GNUNET_NO =? hash_current st
    then mk_tms (my_type_map st) (map_counters st) (GSC_TYPEMAP_hash (my_type_map st)) GNUNET_YES
    else st in
  (st, if bool_decide (hc = my_tm_hash st) then GNUNET_YES else GNUNET_NO).

Definition CORE_BINARY_TYPE_MAP : Z := 87.
Definition CORE_COMPRESSED_TYPE_MAP : Z := 86.

Definition GSC_TYPEMAP_compute_type_map_message `{Zlib} (st : TypeMapState) : list Z :=
  let '(type, body) :=
    match compress2 (typemap_bytes (my_type_map st)) with
    | Some tmp =>
        if Z.of_nat (length tmp) >=? sizeof_TypeMap
        then (CORE_BINARY_TYPE_MAP, typemap_bytes (my_type_map st))
        else (CORE_COMPRESSED_TYPE_MAP, tmp)
    | None => (CORE_BINARY_TYPE_MAP, typemap_bytes (my_type_map st))
    end in
  be_encode 2 (u16 (u16 (Z.of_nat (length body)) + sizeof_MessageHeader)) ++ be_encode 2 type ++ body.

(** [mem] is the memory from the start of the message on, which is read behind the end
    of the message. *)
Definition GSC_TYPEMAP_get_from_message `{Zlib} (mem : list Z) : option GSC_TypeMap :=
  let size := msg_size mem in
  if msg_type mem =? CORE_BINARY_TYPE_MAP then
    if negb (size =? sizeof_TypeMap) then None
    else Some (typemap_of_bytes (slice 4 (Z.to_nat sizeof_TypeMap) mem))
  else if msg_type mem =? CORE_COMPRESSED_TYPE_MAP then
    match uncompress sizeof_TypeMap (slice 4 (Z.to_nat size) mem) with
    | Some ret => if Z.of_nat (length ret) =? sizeof_TypeMap then Some (typemap_of_bytes ret) else None
    | None => None
    end
  else None.

(** [bits[type / 32] |= (1 << (type % 32))] and [&= ~]. *)
Definition set_bit (tm : GSC_TypeMap) (type : Z) : option GSC_TypeMap :=
  let i := Z.to_nat (type / 32) in
  let? w := tm !! i in Some (<[i := Z.lor w (u32 (Z.shiftl 1 (type mod 32)))]> tm).

Definition clear_bit (tm : GSC_TypeMap) (type : Z) : option GSC_TypeMap :=
  let i := Z.to_nat (type / 32) in
  let? w := tm !! i in Some (<[i := Z.ldiff w (u32 (Z.shiftl 1 (type mod 32)))]> tm).

(** The loop of [GSC_TYPEMAP_add]; also whether the map was changed. *)
Fixpoint typemap_add_loop (types : list Z) (st : TypeMapState) : option (TypeMapState * Z) :=
  match types with
  | [] => Some (st, GNUNET_NO)
  | t :: types =>
      let? c := map_counters st !! Z.to_nat t in
      let counters := <[Z.to_nat t := u8 (c + 1)]> (map_counters st) in
      if 0 =? c then
        let? tm := set_bit (my_type_map st) t in
        let? (st, _) := typemap_add_loop types (mk_tms tm counters (my_tm_hash st) (hash_current st)) in
        Some (st, GNUNET_YES)
      else typemap_add_loop types (mk_tms (my_type_map st) counters (my_tm_hash st) (hash_current st))
  end.

Fixpoint typemap_remove_loop (types : list Z) (st : TypeMapState) : option (TypeMapState * Z) :=
  match types with
  | [] => Some (st, GNUNET_NO)
  | t :: types =>
      let? c := map_counters st !! Z.to_nat t in
      let counters := <[Z.to_nat t := u8 (c - 1)]> (map_counters st) in
      if 0 =? u8 (c - 1) then
        let? tm := clear_bit (my_type_map st) t in
        let? (st, _) := typemap_remove_loop types (mk_tms tm counters (my_tm_hash st) (hash_current st)) in
        Some (st, GNUNET_YES)
      else typemap_remove_loop types (mk_tms (my_type_map st) counters (my_tm_hash st) (hash_current st))
  end.

(** The message that is broadcast to all sessions, if any. *)
Definition broadcast_my_type_map `{Zlib} (st : TypeMapState) : option (list Z) :=
  Some (GSC_TYPEMAP_compute_type_map_message st).

Definition GSC_TYPEMAP_add `{Zlib} (types : list Z) (st : TypeMapState)
  : option (TypeMapState * option (list Z)) :=
  let? (st, changed) := typemap_add_loop types st in
  if GNUNET_YES =? changed then
    let st := rehash_typemap st in Some (st, broadcast_my_type_map st)
  else Some (st, None).

Definition GSC_TYPEMAP_remove `{Zlib} (types : list Z) (st : TypeMapState)
  : option (TypeMapState * option (list Z)) :=
  let? (st, changed) := typemap_remove_loop types st in
  if GNUNET_YES =? changed then
    let st := rehash_typemap st in Some (st, broadcast_my_type_map st)
  else Some (st, None).

(** The loop of [GSC_TYPEMAP_test_match]. *)
Fixpoint test_match_loop (tm : GSC_TypeMap) (types : list Z) : option Z :=
  match types with
  | [] => Some GNUNET_NO
  | t :: types =>
      let? w := tm !! Z.to_nat (t / 32) in
      if negb (0 =? Z.land w (u32 (Z.shiftl 1 (t mod 32)))) then Some GNUNET_YES
      else test_match_loop tm types
  end.

Definition GSC_TYPEMAP_test_match (tmap : option GSC_TypeMap) (types : list Z) : option Z :=
  match tmap with
  | None => Some GNUNET_NO
  | Some tm => match types with [] => Some GNUNET_YES | _ => test_match_loop tm types end
  end.

Definition GSC_TYPEMAP_create : GSC_TypeMap := repeat 0 TYPEMAP_WORDS.

Definition GSC_TYPEMAP_extend (tmap : option GSC_TypeMap) (types : list Z) : option GSC_TypeMap :=
  fold_left (fun r t => let? tm := r in set_bit tm t) types
    (Some (match tmap with Some tm => tm | None => GSC_TYPEMAP_create end)).

(** ** Type maps as sets *)

Definition tm_ok (tm : GSC_TypeMap) : Prop := length tm = TYPEMAP_WORDS /\ Forall is_u32 tm.

(** The types in the map. *)
Definition handles (tm : GSC_TypeMap) (t : Z) : bool :=
  match tm !! Z.to_nat (t / 32) with Some w => Z.testbit w (t mod 32) | None => false end.

Lemma word_index t : is_u16 t -> (Z.to_nat (t / 32) < TYPEMAP_WORDS)%nat.
Proof.
  intros Ht. pose proof (Z.div_pos t 32). pose proof (Z.div_lt_upper_bound t 32 2048).
  unfold TYPEMAP_WORDS, is_u16 in *. lia.
Qed.

Lemma bit_index t : 0 <= t mod 32 < 32.
Proof. apply Z.mod_pos_bound. lia. Qed.

Lemma one_bit k : 0 <= k < 32 -> u32 (Z.shiftl 1 k) = 2 ^ k.
Proof.
  intros Hk. rewrite Z.shiftl_1_l. apply u32_small. split; [apply Z.pow_nonneg; lia|].
  apply Z.pow_lt_mono_r; lia.
Qed.

(** Changing one word of the map. *)
Lemma handles_update tm t f : tm_ok tm -> is_u16 t ->
  (forall w, is_u32 w -> is_u32 (f w)) ->
  exists w, tm !! Z.to_nat (t / 32) = Some w /\ is_u32 w
    /\ tm_ok (<[Z.to_nat (t / 32) := f w]> tm)
    /\ forall t', is_u16 t' ->
         handles (<[Z.to_nat (t / 32) := f w]> tm) t' =
         if t' / 32 =? t / 32 then Z.testbit (f w) (t' mod 32) else handles tm t'.
Proof.
  intros [Hl Hw] Ht Hf. pose proof (word_index t Ht) as Hi. rewrite <- Hl in Hi.
  destruct (lookup_lt_is_Some_2 _ _ Hi) as [w Ew]. exists w. split; [done|].
  assert (Hww : is_u32 w) by (rewrite Forall_lookup in Hw; by eapply Hw).
  split; [done|]. split.
  - split; [by rewrite length_insert|]. apply Forall_insert; [done|by apply Hf].
  - intros t' Ht'. unfold handles. destruct (Z.eqb_spec (t' / 32) (t / 32)) as [E|E].
    + rewrite E, list_lookup_insert, decide_True by done. done.
    + rewrite list_lookup_insert_ne; [done|]. pose proof (Z.div_pos t 32). pose proof (Z.div_pos t' 32).
      unfold is_u16 in *. lia.
Qed.

Lemma same_type t t' : (t' / 32 =? t / 32) && (t' mod 32 =? t mod 32) = (t' =? t).
Proof.
  pose proof (Z.div_mod t 32). pose proof (Z.div_mod t' 32).
  destruct (Z.eqb_spec t' t) as [->|]; [by rewrite !Z.eqb_refl|].
  destruct (Z.eqb_spec (t' / 32) (t / 32)); [|done]. apply Z.eqb_neq. lia.
Qed.

Lemma set_bit_spec tm t : tm_ok tm -> is_u16 t ->
  exists tm', set_bit tm t = Some tm' /\ tm_ok tm'
    /\ forall t', is_u16 t' -> handles tm' t' = handles tm t' || (t' =? t).
Proof.
  intros Hok Ht. pose proof (bit_index t) as Hb.
  destruct (handles_update tm t (fun w => Z.lor w (u32 (Z.shiftl 1 (t mod 32)))) Hok Ht)
    as (w & Ew & Hw & Hok' & Hh).
  { intros w Hw. apply word_lor; [lia|done|apply u32_range]. }
  unfold set_bit. rewrite Ew. eexists. split; [done|]. split; [done|]. intros t' Ht'.
  rewrite (Hh t' Ht'), <- (same_type t t'). rewrite one_bit by done.
  unfold handles. destruct (Z.eqb_spec (t' / 32) (t / 32)) as [E|E]; [|cbn [andb]; by rewrite orb_false_r].
  pose proof (bit_index t'). rewrite E, Ew, Z.lor_spec, Z.pow2_bits_eqb by lia. cbn [andb].
  by rewrite (Z.eqb_sym (t mod 32)).
Qed.

Lemma clear_bit_spec tm t : tm_ok tm -> is_u16 t ->
  exists tm', clear_bit tm t = Some tm' /\ tm_ok tm'
    /\ forall t', is_u16 t' -> handles tm' t' = handles tm t' && negb (t' =? t).
Proof.
  intros Hok Ht. pose proof (bit_index t) as Hb.
  destruct (handles_update tm t (fun w => Z.ldiff w (u32 (Z.shiftl 1 (t mod 32)))) Hok Ht)
    as (w & Ew & Hw & Hok' & Hh).
  { intros w Hw. apply word_of_bits; [lia|..].
    - apply Z.ldiff_nonneg. left. apply Hw.
    - intros i Hi. rewrite Z.ldiff_spec, (word_bits_high 32 w) by (done || lia). done. }
  unfold clear_bit. rewrite Ew. eexists. split; [done|]. split; [done|]. intros t' Ht'.
  rewrite (Hh t' Ht'), <- (same_type t t'). rewrite one_bit by done.
  unfold handles. destruct (Z.eqb_spec (t' / 32) (t / 32)) as [E|E]; [|cbn [andb negb]; by rewrite andb_true_r].
  pose proof (bit_index t'). rewrite E, Ew, Z.ldiff_spec, Z.pow2_bits_eqb by lia. cbn [andb].
  by rewrite (Z.eqb_sym (t mod 32)).
Qed.

(** ** Counters *)

(** How many entries of the clients name the type. *)
Fixpoint occurrences (t : Z) (clients : list (list Z)) : nat :=
  match clients with
  | [] => 0
  | types :: clients => count_occ Z.eq_dec types t + occurrences t clients
  end.

Lemma occurrences_app t a b : occurrences t (a ++ b) = (occurrences t a + occurrences t b)%nat.
Proof. induction a as [|x a IH]; [done|]. cbn. rewrite IH. lia. Qed.

Lemma occurrences_pos t clients :
  (0 < occurrences t clients)%nat <-> exists types, types ∈ clients /\ t ∈ types.
Proof.
  induction clients as [|types clients IH]; cbn [occurrences].
  - split; [lia|]. intros (types & Hin & _). by apply elem_of_nil in Hin.
  - pose proof (count_occ_In Z.eq_dec types t) as Hc. split.
    + intros Hp. destruct (decide (count_occ Z.eq_dec types t = 0%nat)).
      * destruct (proj1 IH) as (ty & Hin & Ht); [lia|]. exists ty. split; [by right|done].
      * exists types. split; [left|]. apply list_elem_of_In, Hc. lia.
    + intros (ty & [->|Hin]%elem_of_cons & Ht).
      * apply list_elem_of_In, Hc in Ht. lia.
      * assert (0 < occurrences t clients)%nat by (apply IH; by exists ty). lia.
Qed.

(** The counters hold [cnt], and the map has the types whose counter is not zero. *)
Record counts (st : TypeMapState) (cnt : Z -> Z) : Prop := {
  co_map : tm_ok (my_type_map st);
  co_counters : forall t, is_u16 t -> map_counters st !! Z.to_nat t = Some (cnt t);
  co_range : forall t, is_u16 t -> 0 <= cnt t <= 255;
  co_bits : forall t, is_u16 t -> handles (my_type_map st) t = (0 <? cnt t);
}.

Lemma counts_ext st c c' : counts st c -> (forall t, is_u16 t -> c t = c' t) -> counts st c'.
Proof.
  intros [M C R B] E. split; [done|..]; intros t Ht.
  - rewrite <- (E t Ht). by apply C.
  - rewrite <- (E t Ht). by apply R.
  - rewrite <- (E t Ht). by apply B.
Qed.

(** One counter is changed, and its bit with it. *)
Lemma counts_update st cnt t v tm h hc : counts st cnt -> is_u16 t -> 0 <= v <= 255 ->
  tm_ok tm ->
  (forall t', is_u16 t' -> handles tm t' = if t' =? t then 0 <? v else handles (my_type_map st) t') ->
  counts (mk_tms tm (<[Z.to_nat t := v]> (map_counters st)) h hc) (fun t' => if t' =? t then v else cnt t').
Proof.
  intros [M C R B] Ht Hv Htm Hb. split; cbn [my_type_map map_counters]; [done|..]; intros t' Ht'.
  - destruct (Z.eqb_spec t' t) as [->|Hne].
    + rewrite list_lookup_insert, decide_True; [done|]. split; [done|].
      apply lookup_lt_is_Some_1. exists (cnt t). by apply C.
    + rewrite list_lookup_insert_ne; [by apply C|]. unfold is_u16 in *. lia.
  - destruct (t' =? t); [done|by apply R].
  - rewrite (Hb t' Ht'). destruct (t' =? t); [done|by apply B].
Qed.

(** Both loops are instances of one, which adds [d] to the counters and updates the map
    when the condition on the counter holds. *)
Fixpoint typemap_loop (d : Z) (cond : Z -> bool) (upd : GSC_TypeMap -> Z -> option GSC_TypeMap)
    (types : list Z) (st : TypeMapState) : option (TypeMapState * Z) :=
  match types with
  | [] => Some (st, GNUNET_NO)
  | t :: types =>
      let? c := map_counters st !! Z.to_nat t in
      let counters := <[Z.to_nat t := u8 (c + d)]> (map_counters st) in
      if cond c then
        let? tm := upd (my_type_map st) t in
        let? (st, _) := typemap_loop d cond upd types (mk_tms tm counters (my_tm_hash st) (hash_current st)) in
        Some (st, GNUNET_YES)
      else typemap_loop d cond upd types (mk_tms (my_type_map st) counters (my_tm_hash st) (hash_current st))
  end.

Lemma typemap_add_is_loop types st :
  typemap_add_loop types st = typemap_loop 1 (fun c => 0 =? c) set_bit types st.
Proof.
  revert st. induction types as [|t types IH]; intros st; [done|]. cbn [typemap_add_loop typemap_loop].
  destruct (map_counters st !! Z.to_nat t) as [c|]; [|done]. destruct (0 =? c); [|apply IH].
  destruct (set_bit _ _); [|done]. by rewrite IH.
Qed.

Lemma typemap_remove_is_loop types st :
  typemap_remove_loop types st = typemap_loop (-1) (fun c => 0 =? u8 (c - 1)) clear_bit types st.
Proof.
  revert st. induction types as [|t types IH]; intros st; [done|]. cbn [typemap_remove_loop typemap_loop].
  destruct (map_counters st !! Z.to_nat t) as [c|]; [|done]. change (c + -1) with (c - 1).
  destruct (0 =? u8 (c - 1)); [|apply IH]. destruct (clear_bit _ _); [|done]. by rewrite IH.
Qed.

Section Loop.
Context (d : Z) (cond : Z -> bool) (upd : GSC_TypeMap -> Z -> option GSC_TypeMap).
Hypothesis Hkeep : forall c, 0 <= c <= 255 -> 0 <= c + d <= 255 -> cond c = false -> (0 <? c + d) = (0 <? c).
Hypothesis Hupd : forall tm t c, tm_ok tm -> is_u16 t -> handles tm t = (0 <? c) ->
  0 <= c <= 255 -> 0 <= c + d <= 255 -> cond c = true ->
  exists tm', upd tm t = Some tm' /\ tm_ok tm'
    /\ forall t', is_u16 t' -> handles tm' t' = if t' =? t then 0 <? c + d else handles tm t'.
Hypothesis Hcross : forall c n, 0 <= c <= 255 -> 0 <= n -> 0 <= c + d * (1 + n) <= 255 -> cond c = true -> (0 <? c) <> (0 <? c + d * (1 + n)).

(** Every intermediate value of the counters is in range. *)
Definition in_range (cnt : Z -> Z) (types : list Z) : Prop :=
  forall t, is_u16 t -> 0 <= cnt t + d * Z.of_nat (count_occ Z.eq_dec types t) <= 255.

(** The counter of one of the types becomes positive, or zero. *)
Definition crosses (cnt : Z -> Z) (types : list Z) : Prop :=
  exists t, is_u16 t /\ (0 <? cnt t) <> (0 <? cnt t + d * Z.of_nat (count_occ Z.eq_dec types t)).

Lemma crosses_rest cnt t types : is_u16 t -> (0 <? cnt t + d) = (0 <? cnt t) -> crosses (fun t' => if t' =? t then cnt t + d else cnt t') types -> crosses cnt (t :: types).
Proof.
  intros Ht Hk (t' & Ht' & Hne). exists t'. split; [done|]. destruct (Z.eqb_spec t' t) as [->|].
  - rewrite count_occ_cons_eq by done. rewrite Hk in Hne. by replace (cnt t + d * Z.of_nat (S (count_occ Z.eq_dec types t))) with (cnt t + d + d * Z.of_nat (count_occ Z.eq_dec types t)) by lia.
  - by rewrite count_occ_cons_neq.
Qed.

Lemma in_range_first cnt t types : in_range cnt (t :: types) -> is_u16 t -> -1 <= d <= 1 ->
  0 <= cnt t <= 255 -> 0 <= cnt t + d <= 255.
Proof. intros Hr Ht Hd H0. specialize (Hr t Ht). rewrite count_occ_cons_eq in Hr by done. nia. Qed.

Lemma in_range_rest cnt t types : in_range cnt (t :: types) ->
  in_range (fun t' => if t' =? t then cnt t + d else cnt t') types.
Proof.
  intros Hr t' Ht'. specialize (Hr t' Ht'). destruct (Z.eqb_spec t' t) as [->|Hne].
  - rewrite count_occ_cons_eq in Hr by done. lia.
  - by rewrite count_occ_cons_neq in Hr by done.
Qed.

Lemma typemap_loop_spec types st cnt : -1 <= d <= 1 -> counts st cnt -> Forall is_u16 types ->
  in_range cnt types ->
  exists st' ch, typemap_loop d cond upd types st = Some (st', ch)
    /\ counts st' (fun t => cnt t + d * Z.of_nat (count_occ Z.eq_dec types t))
    /\ (ch = GNUNET_YES /\ crosses cnt types \/ ch = GNUNET_NO /\ my_type_map st' = my_type_map st)
    /\ hash_current st' = hash_current st /\ my_tm_hash st' = my_tm_hash st.
Proof.
  intros Hd Hc Ht. revert st cnt Hc. induction Ht as [|t types Ht _ IH]; intros st cnt Hc Hr.
  { exists st, GNUNET_NO. split; [done|]. split; [|by split; [right|]]. eapply counts_ext; [exact Hc|].
    intros. cbn. lia. }
  pose proof (co_range _ _ Hc t Ht) as H0. pose proof (in_range_first _ _ _ Hr Ht Hd H0) as H1.
  cbn [typemap_loop]. rewrite (co_counters _ _ Hc t Ht), u8_small by (split; lia).
  assert (Hnext : exists tm, tm_ok tm
    /\ (forall t', is_u16 t' -> handles tm t' = if t' =? t then 0 <? cnt t + d else handles (my_type_map st) t')
    /\ if cond (cnt t) then upd (my_type_map st) t = Some tm else tm = my_type_map st).
  { destruct (cond (cnt t)) eqn:Ec.
    - destruct (Hupd (my_type_map st) t (cnt t)) as (tm & E & Htm & Hh);
        [apply Hc|done|by apply Hc|done..|]. by exists tm.
    - exists (my_type_map st). split; [apply Hc|]. split; [|done]. intros t' Ht'.
      destruct (Z.eqb_spec t' t) as [->|]; [|done]. rewrite (co_bits _ _ Hc t Ht). symmetry. by apply Hkeep. }
  destruct Hnext as (tm & Htm & Hh & Hcond).
  destruct (IH _ _ (counts_update st cnt t (cnt t + d) tm (my_tm_hash st) (hash_current st) Hc Ht H1 Htm Hh)
              (in_range_rest _ _ _ Hr)) as (st' & ch & E & Hc' & Hm & Hhc & Hth).
  exists st', (if cond (cnt t) then GNUNET_YES else ch). split.
  { destruct (cond (cnt t)); [by rewrite Hcond, E|by rewrite <- Hcond, E]. }
  split; [|split; [|done]].
  - eapply counts_ext; [exact Hc'|]. intros t' Ht'. cbn beta. destruct (Z.eqb_spec t' t) as [->|].
    + rewrite count_occ_cons_eq by done. lia.
    + by rewrite count_occ_cons_neq by done.
  - destruct (cond (cnt t)) eqn:Ec.
    + left. split; [done|]. exists t. split; [done|]. specialize (Hr t Ht). rewrite count_occ_cons_eq, Nat2Z.inj_succ in * by done. rewrite <- Z.add_1_l in *. apply Hcross; [done|lia|done|done].
    + cbn [my_type_map] in Hm. rewrite <- Hcond. destruct Hm as [[-> Hx]|Hm]; [left|by right]. split; [done|]. apply crosses_rest; [done|by apply Hkeep|done].
Qed.
End Loop.

Lemma typemap_add_loop_spec types st cnt : counts st cnt -> Forall is_u16 types ->
  in_range 1 cnt types ->
  exists st' ch, typemap_add_loop types st = Some (st', ch)
    /\ counts st' (fun t => cnt t + 1 * Z.of_nat (count_occ Z.eq_dec types t))
    /\ (ch = GNUNET_YES /\ crosses 1 cnt types \/ ch = GNUNET_NO /\ my_type_map st' = my_type_map st)
    /\ hash_current st' = hash_current st /\ my_tm_hash st' = my_tm_hash st.
Proof.
  intros Hc Ht Hr. rewrite typemap_add_is_loop. apply typemap_loop_spec; try done; [| |].
  - intros c Hc0 _ E. apply Z.eqb_neq in E. lia.
  - intros tm t c Htm Htt Hh Hc0 _ E. apply Z.eqb_eq in E. subst c.
    destruct (set_bit_spec tm t Htm Htt) as (tm' & E' & Htm' & Hs). exists tm'. split; [done|]. split; [done|].
    intros t' Ht'. rewrite (Hs t' Ht'). destruct (t' =? t); [apply orb_true_r|apply orb_false_r].
  - intros c n _ Hn _ E. apply Z.eqb_eq in E. subst c. rewrite (proj2 (Z.ltb_lt 0 (0 + 1 * (1 + n)))) by lia. done.
Qed.

Lemma typemap_remove_loop_spec types st cnt : counts st cnt -> Forall is_u16 types ->
  in_range (-1) cnt types ->
  exists st' ch, typemap_remove_loop types st = Some (st', ch)
    /\ counts st' (fun t => cnt t + -1 * Z.of_nat (count_occ Z.eq_dec types t))
    /\ (ch = GNUNET_YES /\ crosses (-1) cnt types \/ ch = GNUNET_NO /\ my_type_map st' = my_type_map st)
    /\ hash_current st' = hash_current st /\ my_tm_hash st' = my_tm_hash st.
Proof.
  intros Hc Ht Hr. rewrite typemap_remove_is_loop. apply typemap_loop_spec; try done; [| |].
  - intros c Hc0 Hc1 E. apply Z.eqb_neq in E. rewrite u8_small in E by (split; lia). lia.
  - intros tm t c Htm Htt Hh Hc0 Hc1 E. rewrite u8_small in E by (split; lia). apply Z.eqb_eq in E.
    destruct (clear_bit_spec tm t Htm Htt) as (tm' & E' & Htm' & Hs). exists tm'. split; [done|]. split; [done|].
    intros t' Ht'. rewrite (Hs t' Ht'). destruct (t' =? t); [rewrite andb_false_r; lia|apply andb_true_r].
  - intros c n Hc0 Hn Hc1 E. rewrite u8_small in E by (split; lia). apply Z.eqb_eq in E. assert (c = 1) as -> by lia.
    rewrite (proj2 (Z.ltb_ge 0 (1 + -1 * (1 + n)))) by lia. done.
Qed.

(** ** Clients *)

(** The state of the service while clients come with the types they handle and go.
    [clients] are the types of those that are there. *)
Inductive typemap_reach `{Gcrypt} `{Zlib} : TypeMapState -> list (list Z) -> Prop :=
  | reach_start : typemap_reach typemap_initial []
  | reach_add st clients types st' msg : typemap_reach st clients -> Forall is_u16 types ->
      (forall t, occurrences t (types :: clients) <= 255)%nat ->
      GSC_TYPEMAP_add types st = Some (st', msg) -> typemap_reach st' (types :: clients)
  | reach_remove st c1 types c2 st' msg : typemap_reach st (c1 ++ types :: c2) ->
      GSC_TYPEMAP_remove types st = Some (st', msg) -> typemap_reach st' (c1 ++ c2)
  | reach_check st clients hc st' r : typemap_reach st clients ->
      GSC_TYPEMAP_check_hash hc st = (st', r) -> typemap_reach st' clients.

Record typemap_inv `{Gcrypt} (st : TypeMapState) (clients : list (list Z)) : Prop := {
  ti_counts : counts st (fun t => Z.of_nat (occurrences t clients));
  ti_types : Forall (Forall is_u16) clients;
  ti_hash : hash_current st = GNUNET_NO
            \/ hash_current st = GNUNET_YES /\ my_tm_hash st = GSC_TYPEMAP_hash (my_type_map st);
}.

Section Clients.
Context `{Gcrypt} `{Zlib}.

Lemma lookup_zeros n i w : repeat 0 n !! i = Some w -> w = 0.
Proof. intros E. by apply list_elem_of_lookup_2, list_elem_of_In, repeat_spec in E. Qed.

Lemma handles_empty t : handles (repeat 0 2048) t = false.
Proof.
  unfold handles. destruct (repeat 0 2048 !! Z.to_nat (t / 32)) as [w|] eqn:E; [|done].
  apply lookup_zeros in E as ->. apply Z.testbit_0_l.
Qed.

Lemma typemap_inv_initial : typemap_inv typemap_initial [].
Proof.
  split; [|constructor|by left].
  unfold typemap_initial. split; cbn [my_type_map map_counters occurrences].
  - split; [apply repeat_length|]. apply Forall_forall. intros w Hw.
    apply list_elem_of_In, repeat_spec in Hw. by subst.
  - intros t Ht. destruct (repeat 0 (Z.to_nat 65536) !! Z.to_nat t) as [c|] eqn:E.
    + by apply lookup_zeros in E as ->.
    + apply lookup_ge_None_1 in E. rewrite repeat_length in E. unfold is_u16 in Ht. lia.
  - intros; lia.
  - intros t Ht. apply handles_empty.
Qed.

(** After a loop the hash is invalidated and the map broadcast if the map was changed. *)
Lemma changed_inv st st' ch clients cnt : typemap_inv st clients ->
  counts st' (fun t => Z.of_nat (occurrences t cnt)) -> Forall (Forall is_u16) cnt ->
  (ch = GNUNET_YES /\ (exists t, is_u16 t /\ (0 <? Z.of_nat (occurrences t clients)) <> (0 <? Z.of_nat (occurrences t cnt)))
   \/ ch = GNUNET_NO /\ my_type_map st' = my_type_map st) ->
  hash_current st' = hash_current st -> my_tm_hash st' = my_tm_hash st ->
  exists st'' msg,
    (if GNUNET_YES =? ch then let st := rehash_typemap st' in Some (st, broadcast_my_type_map st)
     else Some (st', None)) = Some (st'', msg)
    /\ typemap_inv st'' cnt
    /\ match msg with
       | Some m => m = GSC_TYPEMAP_compute_type_map_message st'' /\ my_type_map st'' <> my_type_map st
       | None => my_type_map st'' = my_type_map st
       end.
Proof.
  intros [Hc0 _ Hh] Hc Hty [[-> (t & Ht & Hne)]|[-> Hm]] Hhc Hth.
  - eexists _, _. split; [reflexivity|]. split; [|split; [done|]].
    + split; [|done|by left]. destruct Hc. by split.
    + cbn. intros Em. apply Hne. rewrite <- (co_bits _ _ Hc0 t Ht), <- (co_bits _ _ Hc t Ht). by rewrite Em.
  - eexists _, _. split; [reflexivity|]. split; [|done]. split; [done|done|].
    rewrite Hhc, Hth, Hm. exact Hh.
Qed.

Lemma add_inv st clients types : typemap_inv st clients -> Forall is_u16 types ->
  (forall t, occurrences t (types :: clients) <= 255)%nat ->
  exists st' msg, GSC_TYPEMAP_add types st = Some (st', msg) /\ typemap_inv st' (types :: clients)
    /\ match msg with
       | Some m => m = GSC_TYPEMAP_compute_type_map_message st' /\ my_type_map st' <> my_type_map st
       | None => my_type_map st' = my_type_map st
       end.
Proof.
  intros Hi Ht Hocc. unfold GSC_TYPEMAP_add.
  destruct (typemap_add_loop_spec types st _ (ti_counts _ _ Hi) Ht) as (st' & ch & -> & Hc' & Hm & Hhc & Hth).
  { intros t _. specialize (Hocc t). cbn [occurrences] in Hocc. lia. }
  apply (changed_inv st st' ch clients); try done.
  - eapply counts_ext; [exact Hc'|]. intros t Ht'. cbn [occurrences]. lia.
  - constructor; [done|apply Hi].
  - destruct Hm as [[-> (t & Htt & Hne)]|?]; [left|by right]. split; [done|]. exists t. split; [done|]. cbn [occurrences]. by rewrite Nat2Z.inj_add, Z.add_comm, <- (Z.mul_1_l (Z.of_nat (count_occ Z.eq_dec types t))).
Qed.

Lemma remove_inv st c1 types c2 : typemap_inv st (c1 ++ types :: c2) ->
  exists st' msg, GSC_TYPEMAP_remove types st = Some (st', msg) /\ typemap_inv st' (c1 ++ c2)
    /\ match msg with
       | Some m => m = GSC_TYPEMAP_compute_type_map_message st' /\ my_type_map st' <> my_type_map st
       | None => my_type_map st' = my_type_map st
       end.
Proof.
  intros Hi. unfold GSC_TYPEMAP_remove. pose proof (ti_types _ _ Hi) as Hty.
  apply Forall_app in Hty as [Hty1 Hty2]. inversion Hty2 as [|? ? Ht Hty3]; subst.
  destruct (typemap_remove_loop_spec types st _ (ti_counts _ _ Hi) Ht) as (st' & ch & -> & Hc' & Hm & Hhc & Hth).
  { intros t Htt. pose proof (co_range _ _ (ti_counts _ _ Hi) t Htt) as Hr. cbn beta in *.
    rewrite occurrences_app in *. cbn [occurrences] in *. lia. }
  apply (changed_inv st st' ch (c1 ++ types :: c2)); try done.
  - eapply counts_ext; [exact Hc'|]. intros t Ht'. cbn beta. rewrite !occurrences_app. cbn [occurrences]. lia.
  - by apply Forall_app.
  - destruct Hm as [[-> (t & Htt & Hne)]|?]; [left|by right]. split; [done|]. exists t. split; [done|]. intros E. apply Hne. cbn beta. rewrite E. f_equal.
    rewrite !occurrences_app. cbn [occurrences]. lia.
Qed.

Lemma broadcast_iff st st' msg : match msg with
    | Some m => m = GSC_TYPEMAP_compute_type_map_message st' /\ my_type_map st' <> my_type_map st
    | None => my_type_map st' = my_type_map st
    end -> msg = if decide (my_type_map st' = my_type_map st) then None else Some (GSC_TYPEMAP_compute_type_map_message st').
Proof. destruct msg as [m|]; [intros [-> Hne]; by rewrite decide_False|intros E; by rewrite decide_True]. Qed.

Lemma check_hash_inv hc st clients : typemap_inv st clients ->
  let '(st', r) := GSC_TYPEMAP_check_hash hc st in
  typemap_inv st' clients /\ my_type_map st' = my_type_map st
  /\ r = if bool_decide (hc = GSC_TYPEMAP_hash (my_type_map st)) then GNUNET_YES else GNUNET_NO.
Proof.
  intros [Hc Hty Hh]. unfold GSC_TYPEMAP_check_hash. cbv zeta.
  destruct (Z.eqb_spec GNUNET_NO (hash_current st)) as [E|E].
  - cbn [my_tm_hash my_type_map]. split; [|done]. split; [destruct Hc; by split|done|by right].
  - destruct Hh as [Hh|[Hh1 Hh2]]; [congruence|]. rewrite <- Hh2. split; [|done]. split; [done..|by right].
Qed.

Lemma typemap_reach_inv st clients : typemap_reach st clients -> typemap_inv st clients.
Proof.
  induction 1 as [|st clients types st' msg _ IH Ht Hocc E|st c1 types c2 st' msg _ IH E|st clients hc st' r _ IH E].
  - apply typemap_inv_initial.
  - destruct (add_inv st clients types IH Ht Hocc) as (st2 & msg2 & E2 & Hi & _). congruence.
  - destruct (remove_inv st c1 types c2 IH) as (st2 & msg2 & E2 & Hi & _). congruence.
  - pose proof (check_hash_inv hc st clients IH) as Hc. rewrite E in Hc. apply Hc.
Qed.

Lemma test_match_spec tm types : tm_ok tm -> Forall is_u16 types -> types <> [] ->
  GSC_TYPEMAP_test_match (Some tm) types =
  Some (if existsb (handles tm) types then GNUNET_YES else GNUNET_NO).
Proof.
  intros [Hl Hw] Ht Hne. unfold GSC_TYPEMAP_test_match. destruct types as [|t types]; [done|]. clear Hne.
  induction Ht as [|t' types' Ht' _ IH]; [done|]. cbn [test_match_loop existsb].
  pose proof (word_index t' Ht') as Hi. rewrite <- Hl in Hi. destruct (lookup_lt_is_Some_2 _ _ Hi) as [w Ew].
  unfold handles at 1. rewrite Ew, one_bit, IH by apply bit_index. pose proof (bit_index t') as Hb.
  rewrite Z.eqb_sym, land_pow2_zero, negb_involutive by lia. by destruct (Z.testbit w (t' mod 32)).
Qed.
End Clients.

(** ** Messages *)

Section Messages.
Context `{ZlibLaws}.

Lemma typemap_bytes_roundtrip tm : tm_ok tm -> typemap_of_bytes (typemap_bytes tm) = tm.
Proof. intros [Hl Hw]. by apply words_of_concat. Qed.

Lemma length_typemap_bytes tm : tm_ok tm -> Z.of_nat (length (typemap_bytes tm)) = sizeof_TypeMap.
Proof.
  intros [Hl _]. unfold typemap_bytes, sizeof_TypeMap. change 8192 with (4 * Z.of_nat TYPEMAP_WORDS).
  rewrite <- Hl. clear. induction tm as [|w tm IH]; [done|]. cbn [map concat length].
  rewrite length_app, length_le_encode. lia.
Qed.

(** The message with this type and body. *)
Definition typemap_message (type : Z) (body : list Z) : list Z :=
  be_encode 2 (u16 (u16 (Z.of_nat (length body)) + sizeof_MessageHeader)) ++ be_encode 2 type ++ body.

Lemma typemap_message_fields type body rest : is_u16 type -> Z.of_nat (length body) < 2 ^ 16 - 4 ->
  msg_size (typemap_message type body ++ rest) = Z.of_nat (length body) + 4
  /\ msg_type (typemap_message type body ++ rest) = type
  /\ forall n, slice 4 n (typemap_message type body ++ rest) = take n (body ++ rest).
Proof.
  intros Ht Hl. unfold typemap_message, sizeof_MessageHeader. rewrite !u16_small by (rewrite ?u16_small; split; lia).
  rewrite <- !app_assoc. split_and!.
  - apply (rd16_field _ [] _ 0); [done|split; lia].
  - apply (rd16_field type (be_encode 2 (Z.of_nat (length body) + 4)) (body ++ rest) 2); [by rewrite length_be_encode|done].
  - intros n. unfold slice. rewrite app_assoc, drop_app_ge; rewrite length_app, !length_be_encode; [done|lia].
Qed.
End Messages.

(** ** An instance *)

(** Data that are all zero compress to their length. *)
#[local] Instance toy_zlib : Zlib := {
  compress2 data :=
    if forallb (Z.eqb 0) data && (Z.of_nat (length data) <? 2 ^ 16)
    then Some (be_encode 2 (Z.of_nat (length data))) else None;
  uncompress n source := Some (repeat 0 (Z.to_nat (be_decode (take 2 source))));
}.

#[local] Instance toy_zlib_laws : ZlibLaws.
Proof.
  split. intros n data out rest E _. unfold compress2, uncompress, toy_zlib in *.
  destruct (forallb (Z.eqb 0) data) eqn:Ez; [|done].
  destruct (Z.ltb_spec (Z.of_nat (length data)) (2 ^ 16)) as [Hl|]; [|done]. injection E as <-.
  rewrite take_app_le, take_ge by (rewrite length_be_encode; lia). f_equal.
  rewrite be_decode_encode, Z.mod_small, Nat2Z.id by (change (256 ^ Z.of_nat 2) with (2 ^ 16); lia).
  rewrite forallb_forall in Ez. clear Hl. induction data as [|x data IH]; [done|]. cbn [length repeat].
  rewrite IH by (intros; apply Ez; by right). f_equal. apply Z.eqb_eq, Ez. by left.
Defined.

#[local] Existing Instance toy_gcrypt.

(** ** Properties *)

(** C38. The type map of the service is the union of what its clients handle, as long as no
    type is named more than 255 times (the counters have 8 bits): in every reachable state a type is in the map if
    and only if a client that is there has named it. Adding and removing never fail; the
    message of the new map is broadcast if and only if the map has changed; and a hash is
    confirmed exactly if it is that of the current map. *)
Theorem typemap_tracks_clients `{Gcrypt} `{Zlib} st clients :
  typemap_reach st clients ->
  (forall t, is_u16 t ->
     handles (my_type_map st) t = true <-> exists types, types ∈ clients /\ t ∈ types)
  /\ (forall hc, snd (GSC_TYPEMAP_check_hash hc st) = GNUNET_YES <-> hc = GSC_TYPEMAP_hash (my_type_map st))
  /\ (forall types, Forall is_u16 types -> (forall t, occurrences t (types :: clients) <= 255)%nat ->
       exists st', GSC_TYPEMAP_add types st = Some (st', if decide (my_type_map st' = my_type_map st) then None
                                                       else Some (GSC_TYPEMAP_compute_type_map_message st')))
  /\ (forall c1 types c2, clients = c1 ++ types :: c2 ->
       exists st', GSC_TYPEMAP_remove types st = Some (st', if decide (my_type_map st' = my_type_map st) then None
                                                          else Some (GSC_TYPEMAP_compute_type_map_message st'))).
Proof.
  intros Hr. pose proof (typemap_reach_inv _ _ Hr) as Hi. split_and!.
  - intros t Ht. rewrite (co_bits _ _ (ti_counts _ _ Hi) t Ht), <- occurrences_pos, Z.ltb_lt. lia.
  - intros hc. pose proof (check_hash_inv hc st clients Hi) as Hc.
    destruct (GSC_TYPEMAP_check_hash hc st) as [st' r]. destruct Hc as (_ & _ & ->). cbn [snd].
    case_bool_decide; done.
  - intros types Ht Ho. destruct (add_inv st clients types Hi Ht Ho) as (st' & msg & E & _ & Hm).
    exists st'. rewrite E. by rewrite (broadcast_iff st st' msg Hm).
  - intros c1 types c2 ->. destruct (remove_inv st c1 types c2 Hi) as (st' & msg & E & _ & Hm).
    exists st'. rewrite E. by rewrite (broadcast_iff st st' msg Hm).
Qed.

Lemma typemap_tracks_clients_witness :
  handles (my_type_map typemap_initial) 7 = false
  /\ exists st' msg, GSC_TYPEMAP_add [7; 300] typemap_initial = Some (st', msg).
Proof.
  destruct (typemap_tracks_clients typemap_initial [] reach_start) as (Hh & _ & Ha & _). split.
  - apply not_true_is_false. intros E. apply Hh in E as (types & Hin & _); [|by split].
    by apply elem_of_nil in Hin.
  - destruct (Ha [7; 300]) as (st' & E).
    + repeat constructor; words.
    + intros t. cbn [occurrences count_occ]. do 2 destruct (Z.eq_dec _ t); lia.
    + by eexists _, _.
Defined.

(** Type map messages. A map that is sent compressed is received unchanged. A map that
    does not become shorter is sent as it is, in a message that no peer accepts: its size
    includes the header, while the receiver compares it with the size of the map. *)
Theorem typemap_message_roundtrip `{Gcrypt} `{ZlibLaws} st clients rest :
  typemap_reach st clients -> (4 <= length rest)%nat ->
  GSC_TYPEMAP_get_from_message (GSC_TYPEMAP_compute_type_map_message st ++ rest) =
  match compress2 (typemap_bytes (my_type_map st)) with
  | Some out => if Z.of_nat (length out) <? sizeof_TypeMap then Some (my_type_map st) else None
  | None => None
  end.
Proof.
  intros Hr Hrest. pose proof (co_map _ _ (ti_counts _ _ (typemap_reach_inv _ _ Hr))) as Hok.
  pose proof (length_typemap_bytes _ Hok) as Lb.
  assert (Hbin : GSC_TYPEMAP_get_from_message
    (typemap_message CORE_BINARY_TYPE_MAP (typemap_bytes (my_type_map st)) ++ rest) = None).
  { destruct (typemap_message_fields CORE_BINARY_TYPE_MAP (typemap_bytes (my_type_map st)) rest)
      as (Es & Et & _); [by split|rewrite Lb; done|].
    unfold GSC_TYPEMAP_get_from_message. by rewrite Es, Et, Lb. }
  unfold GSC_TYPEMAP_compute_type_map_message.
  destruct (compress2 (typemap_bytes (my_type_map st))) as [out|] eqn:Ec; [|exact Hbin].
  rewrite Z.geb_leb. destruct (Z.leb_spec sizeof_TypeMap (Z.of_nat (length out))) as [Hge|Hlt].
  { replace (Z.of_nat (length out) <? sizeof_TypeMap) with false by lia. exact Hbin. }
  replace (Z.of_nat (length out) <? sizeof_TypeMap) with true by lia.
  destruct (typemap_message_fields CORE_COMPRESSED_TYPE_MAP out rest) as (Es & Et & Eb);
    [by split|unfold sizeof_TypeMap in Hlt; lia|].
  fold (typemap_message CORE_COMPRESSED_TYPE_MAP out). unfold GSC_TYPEMAP_get_from_message.
  rewrite Es, Et. cbn [Z.eqb]. change (CORE_COMPRESSED_TYPE_MAP =? CORE_BINARY_TYPE_MAP) with false.
  rewrite Z.eqb_refl, Eb. cbn iota. rewrite take_app_ge by lia.
  rewrite (uncompress_compress _ _ _ _ Ec) by (rewrite Lb; done). by rewrite Lb, Z.eqb_refl, typemap_bytes_roundtrip.
Qed.

Lemma typemap_message_roundtrip_witness :
  GSC_TYPEMAP_get_from_message (GSC_TYPEMAP_compute_type_map_message typemap_initial ++ [1; 2; 3; 4])
  = Some (repeat 0 2048).
Proof.
  rewrite (typemap_message_roundtrip typemap_initial [] [1; 2; 3; 4] reach_start ltac:(cbn; lia)).
  vm_compute. reflexivity.
Defined.

(** A type that 257 clients handle disappears from the map when one of them leaves. *)
Example typemap_counter_wraps :
  (let? (st, _) := typemap_add_loop (repeat 7 257) typemap_initial in
   let? (st, _) := typemap_remove_loop [7] st in
   Some (handles (my_type_map st) 7)) = Some false.
Proof. vm_compute. reflexivity. Qed.
