(* ===== verification/CoreSessions.v ===== *)
(** * Sessions of the core service: [src/core/gnunet-service-core_sessions.c]

    A session holds the requests of clients for transmission to a peer, the messages that
    are ready for encryption, and the type map of the peer. Messages are combined into
    payloads, which the key exchange encrypts and transmits. An operation returns the new
    state and what it does to the other parts of the service, in order; [None] is a failed
    assertion or a loop that does not end within its fuel. *)

From stdpp Require Import gmap sorting.
From S2P Require Import Prelude Time Message Crypto CoreKx TypeMap.
#[local] Open Scope Z_scope.

(** ** Data *)

Definition GNUNET_CORE_PRIO_BACKGROUND : Z := 0.
Definition GNUNET_CORE_PRIO_BEST_EFFORT : Z := 1.
Definition GNUNET_CORE_PRIO_CRITICAL_CONTROL : Z := 3.
Definition GNUNET_CONSTANTS_MAX_ENCRYPTED_MESSAGE_SIZE : Z := 63 * 1024.
Definition MAX_ENCRYPTED_MESSAGE_QUEUE_SIZE : Z := 4.
Definition GNUNET_CONSTANTS_MAX_CORK_DELAY := GNUNET_TIME_relative_multiply GNUNET_TIME_UNIT_SECONDS 1.

(** Requests are identified by their address, and so are clients. *)
Record GSC_ClientActiveRequest := mk_car {
  car_id : Z;
  car_client : Z;
  car_target : list Z;
  car_priority : Z;
  was_solicited : Z;
  car_msize : Z;
}.

(** The size is that of the message that follows the entry. *)
Record SessionMessageEntry := mk_sme {
  sme_priority : Z;
  is_typemap : Z;
  is_typemap_confirm : Z;
  sme_deadline : GNUNET_TIME_Absolute;
  sme_msg : list Z;
}.

Definition sme_size (e : SessionMessageEntry) : Z := Z.of_nat (length (sme_msg e)).

(** Tasks are given by when they run: the corked messages at a time, the type map after a
    delay. *)
Record Session := mk_session {
  s_peer : list Z;
  active_client_requests : list GSC_ClientActiveRequest;
  smes : list SessionMessageEntry;
  s_tmap : list Z;
  cork_task : option GNUNET_TIME_Absolute;
  typemap_task : option GNUNET_TIME_Relative;
  typemap_delay : GNUNET_TIME_Relative;
  ready_to_transmit : Z;
}.

(** What an operation does to clients and to the key exchange. *)
Inductive session_event :=
  | SolicitRequest (car : GSC_ClientActiveRequest)
  | RejectRequest (car : GSC_ClientActiveRequest) (drop_client : Z)
  | EncryptAndTransmit (payload : list Z)
  | NotifyClients (tmap_old tmap_new : option (list Z)).

(** What the operations read: the clock, the length of the queue of the peer and its
    excess bandwidth, and which clients know the peer as connected. *)
Record SessionEnv := mk_env {
  se_now : GNUNET_TIME_Absolute;
  se_queue_length : Z;
  se_excess : Z;
  se_connected : Z -> bool;
}.

Definition set_requests l s := mk_session (s_peer s) l (smes s) (s_tmap s) (cork_task s) (typemap_task s)
  (typemap_delay s) (ready_to_transmit s).
Definition set_smes l s := mk_session (s_peer s) (active_client_requests s) l (s_tmap s) (cork_task s)
  (typemap_task s) (typemap_delay s) (ready_to_transmit s).
Definition set_tmap t s := mk_session (s_peer s) (active_client_requests s) (smes s) t (cork_task s)
  (typemap_task s) (typemap_delay s) (ready_to_transmit s).
Definition set_cork c s := mk_session (s_peer s) (active_client_requests s) (smes s) (s_tmap s) c
  (typemap_task s) (typemap_delay s) (ready_to_transmit s).
Definition set_typemap_task t d s := mk_session (s_peer s) (active_client_requests s) (smes s) (s_tmap s)
  (cork_task s) t d (ready_to_transmit s).
Definition set_ready r s := mk_session (s_peer s) (active_client_requests s) (smes s) (s_tmap s) (cork_task s)
  (typemap_task s) (typemap_delay s) r.

(** ** Transmission *)

Section Transmission.
Context (env : SessionEnv).

(** The first loop of [solicit_messages]. *)
Definition request_priority (base : Z) (l : list GSC_ClientActiveRequest) : Z :=
  fold_left (fun p car => if GNUNET_YES =? was_solicited car then p else Z.max p (car_priority car)) l base.

(** The second loop, up to the next request to solicit. *)
Fixpoint next_to_solicit (pmax so_size : Z) (l : list GSC_ClientActiveRequest)
  : option GSC_ClientActiveRequest :=
  match l with
  | [] => None
  | car :: l =>
      if car_priority car <? pmax then next_to_solicit pmax so_size l
      else if so_size + car_msize car >? GNUNET_CONSTANTS_MAX_ENCRYPTED_MESSAGE_SIZE then None
      else if GNUNET_YES =? was_solicited car then next_to_solicit pmax (so_size + car_msize car) l
      else Some car
  end.

Definition mark_solicited (car : GSC_ClientActiveRequest) (s : Session) : Session :=
  set_requests (map (fun c => if car_id c =? car_id car
                              then mk_car (car_id c) (car_client c) (car_target c) (car_priority c) GNUNET_YES (car_msize c)
                              else c) (active_client_requests s)) s.

(** [GNUNET_CONTAINER_DLL_remove]. *)
Definition remove_request (car : GSC_ClientActiveRequest) (s : Session) : Session :=
  set_requests (filter (fun c => car_id c <> car_id car) (active_client_requests s)) s.

(** [GSC_CLIENTS_solicit_request]; [transmission] is [try_transmission], which is called
    when the request is dropped. *)
Definition solicit_request (transmission : Session -> option (Session * list session_event))
    (car : GSC_ClientActiveRequest) (s : Session) : option (Session * list session_event) :=
  if negb (se_connected env (car_client car)) then
    let? (s, e) := transmission (remove_request car s) in
    Some (s, e ++ [RejectRequest car GNUNET_NO])
  else Some (s, [SolicitRequest car]).

Fixpoint solicit_loop (n : nat) (transmission : Session -> option (Session * list session_event))
    (pmax msize : Z) (s : Session) : option (Session * list session_event) :=
  match n with
  | O => None
  | S n =>
      match next_to_solicit pmax msize (active_client_requests s) with
      | None => Some (s, [])
      | Some car =>
          let? (s, e1) := solicit_request transmission car (mark_solicited car s) in
          let? (s, e2) := solicit_loop n transmission pmax msize s in
          Some (s, e1 ++ e2)
      end
  end.

Definition solicit_messages (transmission : Session -> option (Session * list session_event))
    (msize : Z) (s : Session) : option (Session * list session_event) :=
  let pmax := request_priority GNUNET_CORE_PRIO_BACKGROUND (active_client_requests s) in
  solicit_loop (S (length (active_client_requests s))) transmission pmax msize s.

(** The messages that fit: their size, the highest priority and the earliest deadline. *)
Fixpoint ready_messages (l : list SessionMessageEntry) (msize maxp : Z) (min_deadline : GNUNET_TIME_Absolute)
  : option (Z * Z * GNUNET_TIME_Absolute) :=
  match l with
  | [] => Some (msize, maxp, min_deadline)
  | pos :: l =>
      if msize + sme_size pos <=? GNUNET_CONSTANTS_MAX_ENCRYPTED_MESSAGE_SIZE then
        assert? (sme_size pos <? GNUNET_CONSTANTS_MAX_ENCRYPTED_MESSAGE_SIZE) in
        ready_messages l (msize + sme_size pos) (Z.max maxp (sme_priority pos))
          (GNUNET_TIME_absolute_min min_deadline (sme_deadline pos))
      else Some (msize, maxp, min_deadline)
  end.

(** The plaintext, and the entries that are left. *)
Fixpoint build_plaintext (l : list SessionMessageEntry) (used msize : Z) : list Z * list SessionMessageEntry :=
  match l with
  | [] => ([], [])
  | pos :: l' =>
      if used + sme_size pos <=? msize then
        let '(pbuf, rest) := build_plaintext l' (used + sme_size pos) msize in
        (sme_msg pos ++ pbuf, rest)
      else ([], l)
  end.

(** The end of [try_transmission], after priorities have been compared. *)
Definition transmit_or_cork (transmission : Session -> option (Session * list session_event))
    (excess maxpc msize : Z) (min_deadline : GNUNET_TIME_Absolute) (s : Session)
  : option (Session * list session_event) :=
  if ((GNUNET_YES =? excess) || (maxpc >=? GNUNET_CORE_PRIO_BEST_EFFORT))
     && ((0 =? msize)
         || ((msize <? GNUNET_CONSTANTS_MAX_ENCRYPTED_MESSAGE_SIZE / 2)
             && (abs_value_us min_deadline >? abs_value_us (se_now env))))
  then
    let? (s, e) := solicit_messages transmission msize s in
    if msize >? 0 then Some (set_cork (Some min_deadline) s, e) else Some (s, e)
  else
    let '(pbuf, rest) := build_plaintext (smes s) 0 msize in
    Some (set_ready GNUNET_NO (set_smes rest s), [EncryptAndTransmit pbuf]).

Fixpoint try_transmission (fuel : nat) (s : Session) : option (Session * list session_event) :=
  match fuel with
  | O => None
  | S fuel =>
      if negb (GNUNET_YES =? ready_to_transmit s) then Some (s, [])
      else if MAX_ENCRYPTED_MESSAGE_QUEUE_SIZE <=? se_queue_length env then Some (s, [])
      else
        let excess := se_excess env in
        let base := if GNUNET_YES =? excess then GNUNET_CORE_PRIO_BACKGROUND
                    else GNUNET_CORE_PRIO_BEST_EFFORT in
        let? (msize, maxp, min_deadline) := ready_messages (smes s) 0 base GNUNET_TIME_UNIT_FOREVER_ABS in
        if maxp <? GNUNET_CORE_PRIO_CRITICAL_CONTROL then
          let maxpc := request_priority base (active_client_requests s) in
          if maxpc >? maxp then solicit_messages (try_transmission fuel) 0 s
          else transmit_or_cork (try_transmission fuel) excess maxpc msize min_deadline s
        else transmit_or_cork (try_transmission fuel) GNUNET_NO GNUNET_CORE_PRIO_BACKGROUND msize
               min_deadline s
  end.

(** With fuel for every request. *)
Definition try_transmission_now (s : Session) : option (Session * list session_event) :=
  try_transmission (S (length (active_client_requests s))) s.

Definition pop_cork_task (s : Session) : option (Session * list session_event) :=
  try_transmission_now (set_cork None s).

(** ** Operations on a session *)

Definition start_typemap_task (s : Session) : Session :=
  set_typemap_task (Some GNUNET_TIME_UNIT_SECONDS) GNUNET_TIME_UNIT_SECONDS s.

(** [r] is the random number drawn, [hdr] the type map message. *)
Definition transmit_typemap_task (r : Z) (hdr : list Z) (s : Session) : Session * list session_event :=
  let typemap_delay := GNUNET_TIME_STD_BACKOFF (typemap_delay s) in
  let delay := mk_rel (u64 (rel_value_us typemap_delay + r)) in
  (set_typemap_task (Some delay) typemap_delay s, [EncryptAndTransmit hdr]).

(** The first entry with the flag is removed. *)
Fixpoint remove_first (flag : SessionMessageEntry -> Z) (l : list SessionMessageEntry)
  : list SessionMessageEntry :=
  match l with
  | [] => []
  | e :: l => if GNUNET_YES =? flag e then l else e :: remove_first flag l
  end.

Definition do_restart_typemap_message (hdr : list Z) (s : Session) : option (Session * list session_event) :=
  let sme := mk_sme GNUNET_CORE_PRIO_CRITICAL_CONTROL GNUNET_YES GNUNET_NO (mk_abs 0) hdr in
  let? (s, e) := try_transmission_now (set_smes (sme :: remove_first is_typemap (smes s)) s) in
  Some (start_typemap_task s, e).

Definition session_queue_request (car : GSC_ClientActiveRequest) (s : Session)
  : option (Session * list session_event) :=
  if car_msize car >? GNUNET_CONSTANTS_MAX_ENCRYPTED_MESSAGE_SIZE
  then Some (s, [RejectRequest car GNUNET_YES])
  else try_transmission_now (set_requests (active_client_requests s ++ [car]) s).

Definition session_dequeue_request (car : GSC_ClientActiveRequest) (s : Session)
  : option (Session * list session_event) :=
  try_transmission_now (remove_request car s).

Definition session_solicit (s : Session) : option (Session * list session_event) :=
  try_transmission_now (set_ready GNUNET_YES s).

(** Before the first entry of lower priority. *)
Fixpoint insert_by_priority (sme : SessionMessageEntry) (l : list SessionMessageEntry)
  : list SessionMessageEntry :=
  match l with
  | [] => [sme]
  | pos :: l' => if sme_priority pos >=? sme_priority sme then pos :: insert_by_priority sme l' else sme :: l
  end.

(** The entry [GSC_SESSIONS_transmit] makes. *)
Definition new_entry (msg : list Z) (cork priority : Z) : SessionMessageEntry :=
  mk_sme priority GNUNET_NO GNUNET_NO
    (if GNUNET_YES =? cork then GNUNET_TIME_relative_to_absolute (se_now env) GNUNET_CONSTANTS_MAX_CORK_DELAY
     else mk_abs 0)
    (take (Z.to_nat (msg_size msg)) msg).

Definition session_transmit (msg : list Z) (cork priority : Z) (s : Session)
  : option (Session * list session_event) :=
  try_transmission_now (set_smes (insert_by_priority (new_entry msg cork priority) (smes s)) s).

(** [sizeof (struct TypeMapConfirmationMessage)]. *)
Definition sizeof_TypeMapConfirmationMessage : Z := 72.

Definition confirmation_message `{Gcrypt} (nmap : list Z) : list Z :=
  be_encode 2 sizeof_TypeMapConfirmationMessage ++ be_encode 2 GNUNET_MESSAGE_TYPE_CORE_CONFIRM_TYPE_MAP
  ++ be_encode 4 0 ++ GSC_TYPEMAP_hash nmap.

(** After the map has been taken from the message. *)
Definition session_set_typemap `{Gcrypt} (nmap : list Z) (s : Session)
  : option (Session * list session_event) :=
  let sme := mk_sme GNUNET_CORE_PRIO_CRITICAL_CONTROL GNUNET_NO GNUNET_YES (se_now env)
               (confirmation_message nmap) in
  let? (s, e) := try_transmission_now (set_smes (sme :: remove_first is_typemap_confirm (smes s)) s) in
  Some (set_tmap nmap s, e ++ [NotifyClients (Some (s_tmap s)) (Some nmap)]).

End Transmission.

(** ** The sessions *)

Abbreviation sessions_map := (gmap (list Z) Session).

Definition find_session (peer : list Z) (m : sessions_map) : option Session := m !! peer.

(** An operation on the session of the peer, which exists. *)
Definition on_session (peer : list Z) (f : Session -> option (Session * list session_event))
    (m : sessions_map) (s : Session) : option (sessions_map * list session_event) :=
  let? (s, e) := f s in Some (<[peer := s]> m, e).

Definition GSC_SESSIONS_create (peer : list Z) (m : sessions_map) : option (sessions_map * list session_event) :=
  let s := mk_session peer [] [] GSC_TYPEMAP_create None None (mk_rel 0) GNUNET_NO in
  assert? bool_decide (find_session peer m = None) in
  Some (<[peer := start_typemap_task s]> m, [NotifyClients None (Some (s_tmap s))]).

Definition GSC_SESSIONS_end (pid : list Z) (m : sessions_map) : option (sessions_map * list session_event) :=
  match find_session pid m with
  | None => Some (m, [])
  | Some s => Some (delete pid m,
      map (fun car => RejectRequest car GNUNET_NO) (active_client_requests s)
      ++ [NotifyClients (Some (s_tmap s)) None])
  end.

Definition GSC_SESSIONS_reinit (peer : list Z) (m : sessions_map) : option (sessions_map * list session_event) :=
  match find_session peer m with
  | None => Some (m, [])
  | Some s => Some (<[peer := start_typemap_task s]> m, [])
  end.

Definition GSC_SESSIONS_confirm_typemap `{Gcrypt} (peer msg : list Z) (tms : TypeMapState) (m : sessions_map)
  : TypeMapState * sessions_map :=
  match find_session peer m with
  | None => (tms, m)
  | Some s =>
      if negb (msg_size msg =? sizeof_TypeMapConfirmationMessage) then (tms, m)
      else
        let '(tms, r) := GSC_TYPEMAP_check_hash (slice 8 64 msg) tms in
        if negb (GNUNET_YES =? r) then (tms, m)
        else (tms, <[peer := set_typemap_task None (typemap_delay s) s]> m)
  end.

Definition GSC_SESSIONS_queue_request (env : SessionEnv) (car : GSC_ClientActiveRequest) (m : sessions_map)
  : option (sessions_map * list session_event) :=
  match find_session (car_target car) m with
  | None => Some (m, [RejectRequest car GNUNET_NO])
  | Some s => on_session (car_target car) (session_queue_request env car) m s
  end.

Definition GSC_SESSIONS_dequeue_request (env : SessionEnv) (my_identity : list Z)
    (car : GSC_ClientActiveRequest) (m : sessions_map) : option (sessions_map * list session_event) :=
  if bool_decide (car_target car = my_identity) then Some (m, [])
  else let? s := find_session (car_target car) m in
       on_session (car_target car) (session_dequeue_request env car) m s.

Definition GSC_SESSIONS_solicit (env : SessionEnv) (pid : list Z) (m : sessions_map)
  : option (sessions_map * list session_event) :=
  match find_session pid m with
  | None => Some (m, [])
  | Some s => on_session pid (session_solicit env) m s
  end.

Definition GSC_SESSIONS_transmit (env : SessionEnv) (car : GSC_ClientActiveRequest) (msg : list Z)
    (cork priority : Z) (m : sessions_map) : option (sessions_map * list session_event) :=
  match find_session (car_target car) m with
  | None => Some (m, [])
  | Some s => on_session (car_target car) (session_transmit env msg cork priority) m s
  end.

(** [mem] is the memory from the start of the message on. *)
Definition GSC_SESSIONS_set_typemap `{Gcrypt} `{Zlib} (env : SessionEnv) (peer mem : list Z) (m : sessions_map)
  : option (sessions_map * list session_event) :=
  match GSC_TYPEMAP_get_from_message mem with
  | None => Some (m, [])
  | Some nmap =>
      match find_session peer m with
      | None => Some (m, [])
      | Some s => on_session peer (session_set_typemap env nmap) m s
      end
  end.

Definition GSC_SESSIONS_add_to_typemap (my_identity peer : list Z) (type : Z) (m : sessions_map)
  : option (sessions_map * list session_event) :=
  if bool_decide (peer = my_identity) then Some (m, [])
  else
    let? s := find_session peer m in
    let? r := GSC_TYPEMAP_test_match (Some (s_tmap s)) [type] in
    if GNUNET_YES =? r then Some (m, [])
    else let? nmap := GSC_TYPEMAP_extend (Some (s_tmap s)) [type] in
         Some (<[peer := set_tmap nmap s]> m, [NotifyClients (Some (s_tmap s)) (Some nmap)]).

(** ** What a transmission does *)

(** The payloads that are sent, in order. *)
Fixpoint payloads (ev : list session_event) : list (list Z) :=
  match ev with
  | [] => []
  | EncryptAndTransmit p :: ev => p :: payloads ev
  | _ :: ev => payloads ev
  end.

Lemma payloads_app a b : payloads (a ++ b) = payloads a ++ payloads b.
Proof. induction a as [|[] a IH]; cbn; rewrite ?IH; done. Qed.

(** Messages have a header with their size and are shorter than a payload may be. *)
Definition sendable (m : list Z) : Prop :=
  msg_wf m /\ Z.of_nat (length m) < GNUNET_CONSTANTS_MAX_ENCRYPTED_MESSAGE_SIZE.

(** The types of the messages of the core service itself. *)
Definition control_type (m : list Z) : bool :=
  (msg_type m =? GNUNET_MESSAGE_TYPE_CORE_BINARY_TYPE_MAP)
  || (msg_type m =? GNUNET_MESSAGE_TYPE_CORE_COMPRESSED_TYPE_MAP)
  || (msg_type m =? GNUNET_MESSAGE_TYPE_CORE_CONFIRM_TYPE_MAP).

(** An entry holds a message that is not too long, and of the type its flags say. *)
Definition entry_ok (e : SessionMessageEntry) : Prop :=
  sendable (sme_msg e)
  /\ (is_typemap e = GNUNET_YES \/ is_typemap_confirm e = GNUNET_YES -> control_type (sme_msg e) = true).

Lemma entry_ok_size e : entry_ok e -> 4 <= sme_size e < GNUNET_CONSTANTS_MAX_ENCRYPTED_MESSAGE_SIZE.
Proof. intros [[[_ H2 H3] Hm] _]. unfold sme_size in *. unfold sizeof_MessageHeader in *. lia. Qed.

Lemma client_entry_ok e : sendable (sme_msg e) -> is_typemap e <> GNUNET_YES -> is_typemap_confirm e <> GNUNET_YES ->
  entry_ok e.
Proof. intros Hs Ht Hc. split; [done|]. intros [?|?]; done. Qed.

Definition messages (l : list SessionMessageEntry) : list Z := concat (map sme_msg l).
Definition total_size (l : list SessionMessageEntry) : Z := Z.of_nat (length (messages l)).

Definition unsolicited (s : Session) : nat :=
  length (filter (fun c => was_solicited c <> GNUNET_YES) (active_client_requests s)).

Lemma unsolicited_le s : (unsolicited s <= length (active_client_requests s))%nat.
Proof. apply length_filter. Qed.

(** Some entries are taken from the front of the queue and sent in one payload, for
    which the session has to be ready; nothing else is sent. *)
Record moved (s s' : Session) (ev : list session_event) : Prop := {
  mv_sent : exists k, smes s' = drop k (smes s) /\ (k <= length (smes s))%nat
    /\ (k = 0%nat /\ payloads ev = [] /\ ready_to_transmit s' = ready_to_transmit s
        \/ (0 < k)%nat /\ payloads ev = [messages (take k (smes s))]
           /\ total_size (take k (smes s)) <= GNUNET_CONSTANTS_MAX_ENCRYPTED_MESSAGE_SIZE
           /\ ready_to_transmit s = GNUNET_YES /\ ready_to_transmit s' = GNUNET_NO);
  mv_unsolicited : (unsolicited s' <= unsolicited s)%nat;
  mv_requests : (length (active_client_requests s') <= length (active_client_requests s))%nat;
  mv_peer : s_peer s' = s_peer s;
  mv_tmap : s_tmap s' = s_tmap s;
  mv_task : typemap_task s' = typemap_task s /\ typemap_delay s' = typemap_delay s;
}.

Lemma moved_quiet s s' ev : smes s' = smes s -> ready_to_transmit s' = ready_to_transmit s ->
  payloads ev = [] -> (unsolicited s' <= unsolicited s)%nat ->
  (length (active_client_requests s') <= length (active_client_requests s))%nat ->
  s_peer s' = s_peer s -> s_tmap s' = s_tmap s -> typemap_task s' = typemap_task s ->
  typemap_delay s' = typemap_delay s -> moved s s' ev.
Proof.
  intros. split; try done. exists 0%nat. rewrite drop_0. split_and!; [done|lia|]. by left.
Qed.

Lemma moved_refl s : moved s s [].
Proof. by apply moved_quiet. Qed.

Lemma moved_trans s1 s2 s3 e1 e2 : moved s1 s2 e1 -> moved s2 s3 e2 -> moved s1 s3 (e1 ++ e2).
Proof.
  intros [(k & E & L & Hk) U R P T [A D]] [(k' & E' & L' & Hk') U' R' P' T' [A' D']].
  split; try lia; try congruence; [|split; congruence].
  rewrite payloads_app. destruct Hk as [(-> & -> & Hr)|(Hk & -> & Hs & Hr & Hr')].
  - exists k'. rewrite drop_0 in E. rewrite <- E. split_and!; [done..|]. rewrite <- Hr. done.
  - destruct Hk' as [(-> & -> & Hr2)|(_ & _ & _ & Hr2 & _)]; [|rewrite Hr2 in Hr'; done].
    exists k. rewrite drop_0 in E'. rewrite E', E. split_and!; [done|done|]. right.
    split_and!; [done|done|done|done|congruence].
Qed.

Lemma moved_entries (P : SessionMessageEntry -> Prop) s s' ev :
  moved s s' ev -> Forall P (smes s) -> Forall P (smes s').
Proof. intros [(k & -> & _) _ _ _ _ _]. apply Forall_drop. Qed.

(** ** The parts of a transmission *)

Lemma total_size_cons e l : total_size (e :: l) = sme_size e + total_size l.
Proof. unfold total_size, messages, sme_size. cbn. rewrite length_app. lia. Qed.

Lemma total_size_nonneg l : 0 <= total_size l.
Proof. unfold total_size. lia. Qed.

Definition max_priority (base : Z) (l : list SessionMessageEntry) : Z :=
  fold_left (fun p e => Z.max p (sme_priority e)) l base.

(** The longest front of the queue that fits, as a number of entries. *)
Fixpoint fitting (l : list SessionMessageEntry) (msize : Z) : nat :=
  match l with
  | [] => 0
  | e :: l => if msize + sme_size e <=? GNUNET_CONSTANTS_MAX_ENCRYPTED_MESSAGE_SIZE
              then S (fitting l (msize + sme_size e)) else 0
  end.

Lemma fitting_le l msize : (fitting l msize <= length l)%nat.
Proof. revert msize. induction l as [|e l IH]; intros msize; cbn; [lia|]. case_if; [|lia]. specialize (IH (msize + sme_size e)). lia. Qed.

Lemma fitting_size l msize : msize <= GNUNET_CONSTANTS_MAX_ENCRYPTED_MESSAGE_SIZE ->
  msize + total_size (take (fitting l msize) l) <= GNUNET_CONSTANTS_MAX_ENCRYPTED_MESSAGE_SIZE.
Proof.
  revert msize. induction l as [|e l IH]; intros msize Hm; cbn [fitting].
  { change (total_size _) with 0. lia. }
  split_ifs; cbn [take]; [|change (total_size []) with 0; lia]. rewrite total_size_cons. specialize (IH _ E). lia.
Qed.

Lemma fitting_nonempty l : Forall entry_ok l -> l <> [] -> (0 < fitting l 0)%nat.
Proof.
  intros [|e l' He _]; [done|]. intros _. cbn [fitting]. apply entry_ok_size in He.
  rewrite (proj2 (Z.leb_le _ _)) by lia. lia.
Qed.

Definition min_deadline (d : GNUNET_TIME_Absolute) (l : list SessionMessageEntry) : GNUNET_TIME_Absolute :=
  fold_left (fun d e => GNUNET_TIME_absolute_min d (sme_deadline e)) l d.

Lemma min_deadline_le d l : abs_value_us (min_deadline d l) <= abs_value_us d
  /\ Forall (fun e => abs_value_us (min_deadline d l) <= abs_value_us (sme_deadline e)) l.
Proof.
  revert d. induction l as [|e l IH]; intros d; [split; [done|constructor]|]. cbn [min_deadline fold_left].
  destruct (IH (GNUNET_TIME_absolute_min d (sme_deadline e))) as [H1 H2]. fold min_deadline in *.
  assert (Hmin : abs_value_us (GNUNET_TIME_absolute_min d (sme_deadline e))
                 = Z.min (abs_value_us d) (abs_value_us (sme_deadline e)))
    by (unfold GNUNET_TIME_absolute_min; case_if; bool_hyps; lia).
  unfold min_deadline in *. split; [lia|constructor; [lia|done]].
Qed.

Lemma ready_messages_spec l msize maxp d : Forall entry_ok l ->
  ready_messages l msize maxp d
  = Some (msize + total_size (take (fitting l msize) l), max_priority maxp (take (fitting l msize) l),
          min_deadline d (take (fitting l msize) l)).
Proof.
  intros Hl. revert msize maxp d. induction Hl as [|e l He _ IH]; intros msize maxp d;
    cbn [ready_messages fitting take]; [by change (total_size []) with 0; rewrite Z.add_0_r|].
  case_if; cbn [take]; [|by change (total_size []) with 0; rewrite Z.add_0_r].
  apply entry_ok_size in He. rewrite (proj2 (Z.ltb_lt _ _)), IH by lia.
  by rewrite total_size_cons, Z.add_assoc.
Qed.

Lemma build_plaintext_spec l k used : Forall entry_ok l -> (k <= length l)%nat ->
  build_plaintext l used (used + total_size (take k l)) = (messages (take k l), drop k l).
Proof.
  intros Hl. revert k used. induction Hl as [|e l He Hl IH]; intros k used Hk; [by destruct k|].
  apply entry_ok_size in He. destruct k as [|k].
  { cbn [build_plaintext take]. rewrite (proj2 (Z.leb_gt _ _)) by (change (total_size []) with 0; lia). done. }
  cbn [build_plaintext take drop]. rewrite total_size_cons.
  pose proof (total_size_nonneg (take k l)).
  rewrite (proj2 (Z.leb_le _ _)), Z.add_assoc, IH by (cbn in Hk; lia). done.
Qed.

Lemma next_to_solicit_unsolicited pmax so l car : next_to_solicit pmax so l = Some car ->
  In car l /\ was_solicited car <> GNUNET_YES.
Proof.
  revert so. induction l as [|c l IH]; intros so; cbn [next_to_solicit In]; [done|]. split_ifs; intros Hc; try done.
  1,2: by destruct (IH _ Hc); auto.
  injection Hc as <-. split; [by left|congruence].
Qed.

Lemma filter_map_le {A} (P Q : A -> Prop) `{!forall x, Decision (P x), !forall x, Decision (Q x)} (f : A -> A) l :
  (forall x, P (f x) -> Q x) -> (length (filter P (map f l)) <= length (filter Q l))%nat.
Proof.
  intros Hf. induction l as [|x l IH]; cbn [map]; [done|]. rewrite !filter_cons.
  destruct (decide (P (f x))) as [Hx|]; [rewrite decide_True by auto; cbn; lia|].
  destruct (decide (Q x)); cbn; lia.
Qed.

Lemma mark_solicited_less car s : In car (active_client_requests s) -> was_solicited car <> GNUNET_YES ->
  (unsolicited (mark_solicited car s) < unsolicited s)%nat.
Proof.
  intros Hin Hc. unfold unsolicited, mark_solicited. cbn [set_requests active_client_requests].
  set (f := fun c => if car_id c =? car_id car then _ else c).
  assert (Hf : forall x, was_solicited (f x) <> GNUNET_YES -> was_solicited x <> GNUNET_YES)
    by (intros x; unfold f; case_if; done).
  apply in_split in Hin as (l1 & l2 & ->). rewrite map_app, !filter_app, !length_app. cbn [map].
  rewrite !filter_cons, (decide_True (P := was_solicited car <> _)) by done.
  rewrite decide_False by (unfold f; rewrite Z.eqb_refl; cbn; auto). cbn [length].
  pose proof (fun l => filter_map_le (fun c => was_solicited c <> GNUNET_YES) (fun c => was_solicited c <> GNUNET_YES)
                f l Hf) as Hle.
  specialize (Hle l1) as H1. specialize (Hle l2) as H2. lia.
Qed.

Lemma remove_request_less car s : In (car_id car) (map car_id (active_client_requests s)) ->
  (length (active_client_requests (remove_request car s)) < length (active_client_requests s))%nat.
Proof.
  intros Hin. unfold remove_request. cbn [set_requests active_client_requests].
  apply in_map_iff in Hin as (c & Hid & Hin). apply in_split in Hin as (l1 & l2 & ->).
  rewrite filter_app, filter_cons, decide_False, !length_app by (intros H; by apply H). cbn [length].
  pose proof (length_filter (fun c => car_id c <> car_id car) l1).
  pose proof (length_filter (fun c => car_id c <> car_id car) l2). lia.
Qed.

Lemma unsolicited_remove car s : (unsolicited (remove_request car s) <= unsolicited s)%nat.
Proof.
  unfold unsolicited, remove_request. cbn [set_requests active_client_requests].
  induction (active_client_requests s) as [|c l IH]; [done|]. rewrite !filter_cons.
  destruct (decide (car_id c <> car_id car)); rewrite ?filter_cons; destruct (decide (was_solicited c <> GNUNET_YES));
    cbn [length]; lia.
Qed.

Lemma mark_solicited_moved car s : In car (active_client_requests s) -> was_solicited car <> GNUNET_YES ->
  moved s (mark_solicited car s) [].
Proof.
  intros Hin Hc. apply moved_quiet; try done; [pose proof (mark_solicited_less car s Hin Hc); lia|].
  unfold mark_solicited. cbn. by rewrite length_map.
Qed.

Lemma remove_request_moved car s : moved s (remove_request car s) [].
Proof. apply moved_quiet; try done; [apply unsolicited_remove|apply length_filter]. Qed.

(** A computation that ends, with a state that has only moved. *)
Definition moves (s : Session) (r : option (Session * list session_event)) : Prop :=
  exists s' ev, r = Some (s', ev) /\ moved s s' ev.

Section Loop.
Context (env : SessionEnv) (T : Session -> option (Session * list session_event)) (N : nat).
Hypothesis HT : forall s, Forall entry_ok (smes s) -> (length (active_client_requests s) < N)%nat -> moves s (T s).

Lemma solicit_request_moves car s : Forall entry_ok (smes s) -> (length (active_client_requests s) <= N)%nat ->
  In (car_id car) (map car_id (active_client_requests s)) ->
  moves s (solicit_request env T car s).
Proof.
  intros Hs HN Hin. unfold solicit_request. case_if; [|exists s, [SolicitRequest car]; split; [done|by apply moved_quiet]].
  pose proof (remove_request_less car s Hin).
  destruct (HT (remove_request car s) Hs) as (s' & ev & -> & Hm); [lia|].
  exists s', (ev ++ [RejectRequest car GNUNET_NO]). split; [done|].
  eapply (moved_trans _ _ _ [] _ (remove_request_moved car s)).
  eapply moved_trans; [done|]. by apply moved_quiet.
Qed.

Lemma solicit_loop_moves n pmax msize s : Forall entry_ok (smes s) -> (unsolicited s < n)%nat ->
  (length (active_client_requests s) <= N)%nat -> moves s (solicit_loop env n T pmax msize s).
Proof.
  revert s. induction n as [|n IH]; intros s Hs Hn HN; [lia|]. cbn [solicit_loop].
  destruct (next_to_solicit pmax msize (active_client_requests s)) as [car|] eqn:En.
  2: { exists s, []. split; [done|apply moved_refl]. }
  apply next_to_solicit_unsolicited in En as [Hin Hc].
  pose proof (mark_solicited_less car s Hin Hc) as Hless.
  pose proof (mark_solicited_moved car s Hin Hc) as Hm0.
  destruct (solicit_request_moves car (mark_solicited car s)) as (s1 & e1 & -> & H1);
    [done|pose proof (mv_requests _ _ _ Hm0); lia|..].
  { unfold mark_solicited. cbn. rewrite map_map. apply in_map_iff. exists car.
    split; [|done]. by rewrite Z.eqb_refl. }
  destruct (IH s1) as (s2 & e2 & -> & H2);
    [by eapply moved_entries|pose proof (mv_unsolicited _ _ _ H1); lia
    |pose proof (mv_requests _ _ _ H1); pose proof (mv_requests _ _ _ Hm0); lia|].
  exists s2, (e1 ++ e2). split; [done|].
  apply (moved_trans _ _ _ [] _ Hm0). by eapply moved_trans.
Qed.

Lemma solicit_messages_moves msize s : Forall entry_ok (smes s) ->
  (length (active_client_requests s) <= N)%nat -> moves s (solicit_messages env T msize s).
Proof.
  intros Hs HN. apply solicit_loop_moves; [done| |done]. pose proof (unsolicited_le s). lia.
Qed.
End Loop.

Lemma transmit_or_cork_moves env T N excess maxpc d s :
  (forall s, Forall entry_ok (smes s) -> (length (active_client_requests s) < N)%nat -> moves s (T s)) ->
  Forall entry_ok (smes s) -> (length (active_client_requests s) <= N)%nat -> ready_to_transmit s = GNUNET_YES ->
  excess = GNUNET_YES \/ GNUNET_CORE_PRIO_BEST_EFFORT <= maxpc \/ (0 < fitting (smes s) 0)%nat ->
  moves s (transmit_or_cork env T excess maxpc (total_size (take (fitting (smes s) 0) (smes s))) d s).
Proof.
  intros HT Hs HN Hr Hk. set (k := fitting (smes s) 0) in *. unfold transmit_or_cork. case_if.
  - destruct (solicit_messages_moves env T N HT (total_size (take k (smes s))) s Hs HN) as (s' & ev & -> & Hm).
    case_if; [|by exists s', ev]. exists (set_cork (Some d) s'), ev. split; [done|].
    rewrite <- (app_nil_r ev). eapply moved_trans; [done|]. by apply moved_quiet.
  - assert (Hpos : (0 < k)%nat).
    { destruct Hk as [->|[Hp|]]; [| |done].
      all: destruct k as [|k]; [|lia]; cbn [take] in E; change (total_size []) with 0 in E.
      - done.
      - rewrite (proj2 (Z.geb_le _ _) Hp), Bool.orb_true_r in E. done. }
    pose proof (fitting_le (smes s) 0). pose proof (build_plaintext_spec (smes s) k 0 Hs) as Hb.
    rewrite Z.add_0_l in Hb. rewrite Hb by done. eexists _, _. split; [reflexivity|].
    split; try done. exists k. split_and!; [done|done|right]. split_and!; try done.
    apply (fitting_size (smes s) 0). unfold GNUNET_CONSTANTS_MAX_ENCRYPTED_MESSAGE_SIZE. lia.
Qed.

Lemma request_priority_ge base l : base <= request_priority base l.
Proof.
  unfold request_priority. revert base. induction l as [|c l IH]; intros base; cbn [fold_left]; [lia|].
  case_if; [apply IH|]. etransitivity; [|apply IH]. lia.
Qed.

(** A transmission ends, whatever the requests and their clients are. *)
Lemma try_transmission_moves env fuel s : Forall entry_ok (smes s) ->
  (length (active_client_requests s) < fuel)%nat -> moves s (try_transmission env fuel s).
Proof.
  revert s. induction fuel as [|fuel IH]; intros s Hs Hf; [lia|]. cbn [try_transmission].
  assert (Hrefl : moves s (Some (s, []))) by (exists s, []; split; [done|apply moved_refl]).
  destruct (GNUNET_YES =? ready_to_transmit s) eqn:Hr; cbn [negb]; [|done].
  apply Z.eqb_eq in Hr. case_if; [done|].
  set (base := if _ : bool then GNUNET_CORE_PRIO_BACKGROUND else GNUNET_CORE_PRIO_BEST_EFFORT).
  rewrite ready_messages_spec, Z.add_0_l by done. case_if.
  - case_if; [apply solicit_messages_moves with (N := fuel); [done|done|lia]|].
    apply transmit_or_cork_moves with (N := fuel); [done|done|lia|done|].
    pose proof (request_priority_ge base (active_client_requests s)) as Hb. unfold base in Hb at 1.
    destruct (Z.eqb_spec GNUNET_YES (se_excess env)); [by left|by right; left].
  - apply transmit_or_cork_moves with (N := fuel); [done|done|lia|done|]. right. right.
    destruct (fitting (smes s) 0); [|lia]. exfalso. apply Z.ltb_ge in E0. cbn in E0. unfold base in E0.
    destruct (GNUNET_YES =? _); done.
Qed.

Lemma try_transmission_now_moves env s : Forall entry_ok (smes s) -> moves s (try_transmission_now env s).
Proof. intros Hs. by apply try_transmission_moves; [|lia]. Qed.

(** ** Requests *)

(** Which requests are rejected. *)
Fixpoint rejected (ev : list session_event) : list GSC_ClientActiveRequest :=
  match ev with
  | [] => []
  | RejectRequest car _ :: ev => car :: rejected ev
  | _ :: ev => rejected ev
  end.

Lemma rejected_app a b : rejected (a ++ b) = rejected a ++ rejected b.
Proof. induction a as [|[] a IH]; cbn; rewrite ?IH; done. Qed.

(** A request, but for whether it was solicited. *)
Definition unmarked (c : GSC_ClientActiveRequest) : GSC_ClientActiveRequest :=
  mk_car (car_id c) (car_client c) (car_target c) (car_priority c) GNUNET_NO (car_msize c).

(** What transmissions do to clients: they solicit and reject requests, and no more; the
    requests that are rejected had been queued and not been solicited, and the others stay. *)
Definition harmless (e : session_event) : Prop :=
  match e with NotifyClients _ _ => False | RejectRequest _ drop => drop = GNUNET_NO | _ => True end.

Record served (s s' : Session) (ev : list session_event) : Prop := {
  sv_harmless : Forall harmless ev;
  sv_left : map unmarked (active_client_requests s')
    = filter (fun c => car_id c ∉ map car_id (rejected ev)) (map unmarked (active_client_requests s));
  sv_rejected : forall car, car ∈ rejected ev -> exists c, c ∈ active_client_requests s
    /\ was_solicited c <> GNUNET_YES /\ unmarked c = unmarked car;
  sv_once : NoDup (map car_id (rejected ev));
  sv_marks : forall c', c' ∈ active_client_requests s' -> was_solicited c' <> GNUNET_YES ->
    c' ∈ active_client_requests s;
}.

Lemma unmarked_id c d : unmarked c = unmarked d -> car_id c = car_id d.
Proof. by intros [= ? _ _ _ _]. Qed.

Lemma served_quiet s s' ev : active_client_requests s' = active_client_requests s -> Forall harmless ev ->
  rejected ev = [] -> served s s' ev.
Proof.
  intros E Hh Hr. split; [done|rewrite E, Hr|rewrite Hr|rewrite Hr; constructor|by rewrite E].
  - rewrite filter_all; [done|]. intros x _ Hx. by apply elem_of_nil in Hx.
  - intros car Hx. by apply elem_of_nil in Hx.
Qed.

Lemma served_trans s1 s2 s3 e1 e2 : served s1 s2 e1 -> served s2 s3 e2 -> served s1 s3 (e1 ++ e2).
Proof.
  intros [H1 L1 R1 N1 M1] [H2 L2 R2 N2 M2].
  assert (Hsub : forall car, car ∈ rejected e2 -> car_id car ∉ map car_id (rejected e1)).
  { intros car Hc Hin. destruct (R2 car Hc) as (c & Hc2 & _ & Eu). apply unmarked_id in Eu.
    assert (Hu : unmarked c ∈ map unmarked (active_client_requests s2))
      by (apply list_elem_of_In, in_map, list_elem_of_In, Hc2).
    rewrite L1 in Hu. apply list_elem_of_filter in Hu as [Hu _]. apply Hu. cbn. by rewrite Eu. }
  split.
  - by apply Forall_app.
  - rewrite L2, L1, list_filter_filter, rejected_app, map_app. apply list_filter_iff.
    intros x. rewrite elem_of_app. tauto.
  - rewrite rejected_app. intros car [Hc|Hc]%elem_of_app; [by apply R1|].
    destruct (R2 car Hc) as (c & Hc2 & Hs & Eu). exists c. split; [by apply M1|done].
  - rewrite rejected_app, map_app. apply NoDup_app. split; [done|]. split; [|done].
    intros id Hid1 Hid2. apply list_elem_of_In, in_map_iff in Hid2 as (car & <- & Hc).
    apply list_elem_of_In in Hc. by apply (Hsub car Hc).
  - intros c' Hc' Hs. apply M1; [by apply M2|done].
Qed.

Lemma mark_solicited_requests car s :
  map unmarked (active_client_requests (mark_solicited car s)) = map unmarked (active_client_requests s)
  /\ forall c, c ∈ active_client_requests (mark_solicited car s) -> was_solicited c <> GNUNET_YES ->
       c ∈ active_client_requests s.
Proof.
  unfold mark_solicited. cbn [set_requests active_client_requests]. rewrite map_map. split.
  - apply map_ext. intros c. by case_if.
  - intros c Hc Hs. apply list_elem_of_In, in_map_iff in Hc as (d & E & Hd). revert E. case_if; intros <-; [done|].
    by apply list_elem_of_In.
Qed.

Lemma remove_request_unmarked car s :
  map unmarked (active_client_requests (remove_request car s))
  = filter (fun c => car_id c <> car_id car) (map unmarked (active_client_requests s)).
Proof.
  unfold remove_request. cbn [set_requests active_client_requests].
  induction (active_client_requests s) as [|c l IH]; [done|]. cbn [map]. rewrite !filter_cons. cbn [unmarked car_id].
  destruct (decide (car_id c <> car_id car)); cbn [map]; by rewrite IH.
Qed.

Section Served.
Context (env : SessionEnv) (T : Session -> option (Session * list session_event)).
Hypothesis HT : forall s s' ev, T s = Some (s', ev) -> served s s' ev.

Lemma solicit_request_served car s s' ev : car ∈ active_client_requests s -> was_solicited car <> GNUNET_YES ->
  solicit_request env T car (mark_solicited car s) = Some (s', ev) -> served s s' ev.
Proof.
  intros Hin Hc. unfold solicit_request. destruct (mark_solicited_requests car s) as [Em Hm]. case_if.
  2: { intros [= <- <-]. split; [by repeat constructor|cbn [rejected map]|by intros ? ?%elem_of_nil|constructor|done].
       rewrite Em, filter_all; [done|]. intros x _ Hx. by apply elem_of_nil in Hx. }
  destruct (T _) as [[s1 e]|] eqn:ET; [|done]. intros [= <- <-]. apply HT in ET as [H1 L1 R1 N1 M1].
  assert (Hsub : forall c, c ∈ active_client_requests (remove_request car (mark_solicited car s)) ->
    car_id c <> car_id car /\ c ∈ active_client_requests (mark_solicited car s)).
  { intros c Hcin. by apply list_elem_of_filter in Hcin. }
  split; rewrite ?rejected_app.
  - apply Forall_app. split; [done|]. by repeat constructor.
  - rewrite L1, remove_request_unmarked, Em, list_filter_filter. apply list_filter_iff.
    intros x. rewrite map_app, elem_of_app. cbn [rejected map]. rewrite list_elem_of_singleton. tauto.
  - intros car' [Hc'|Hc']%elem_of_app.
    + destruct (R1 car' Hc') as (c & Hcin & Hs & Eu). apply Hsub in Hcin as [_ Hcin]. exists c. split; [by apply Hm|done].
    + apply list_elem_of_singleton in Hc' as ->. by exists car.
  - rewrite map_app. apply NoDup_app. split; [done|]. split; [|by repeat constructor; intros ?%elem_of_nil].
    intros id Hid1 Hid2. cbn [rejected map] in Hid2. apply list_elem_of_singleton in Hid2 as ->.
    apply list_elem_of_In, in_map_iff in Hid1 as (car' & Ei & Hc').
    apply list_elem_of_In in Hc'. destruct (R1 car' Hc') as (c & Hcin & _ & Eu%unmarked_id). apply Hsub in Hcin as [Hne _].
    congruence.
  - intros c' Hc' Hs. apply Hm; [|done]. by apply Hsub, M1.
Qed.

Lemma solicit_loop_served n pmax msize s s' ev :
  solicit_loop env n T pmax msize s = Some (s', ev) -> served s s' ev.
Proof.
  revert s s' ev. induction n as [|n IH]; intros s s' ev; [done|]. cbn [solicit_loop].
  destruct (next_to_solicit pmax msize (active_client_requests s)) as [car|] eqn:En.
  2: { intros [= <- <-]. apply served_quiet; [done|constructor|done]. }
  apply next_to_solicit_unsolicited in En as [Hin%list_elem_of_In Hc].
  destruct (solicit_request _ _ _ _) as [[s1 e1]|] eqn:E1; [|done].
  destruct (solicit_loop _ _ _ _ _ s1) as [[s2 e2]|] eqn:E2; [|done]. intros [= <- <-].
  eapply served_trans; [by eapply solicit_request_served|by apply IH].
Qed.

Lemma transmit_or_cork_served excess maxpc msize d s s' ev :
  transmit_or_cork env T excess maxpc msize d s = Some (s', ev) -> served s s' ev.
Proof.
  unfold transmit_or_cork. case_if.
  - destruct (solicit_messages _ _ _ _) as [[s1 e1]|] eqn:E1; [|done]. apply solicit_loop_served in E1.
    case_if; intros [= <- <-]; [|done]. rewrite <- (app_nil_r e1). eapply served_trans; [done|].
    apply served_quiet; [done|constructor|done].
  - destruct (build_plaintext _ _ _) as [p rest]. intros [= <- <-]. apply served_quiet; [done|by repeat constructor|done].
Qed.
End Served.

Lemma try_transmission_served env fuel s s' ev : try_transmission env fuel s = Some (s', ev) -> served s s' ev.
Proof.
  revert s s' ev. induction fuel as [|fuel IH]; intros s s' ev; [done|]. cbn [try_transmission].
  assert (Hrefl : forall s, served s s []) by (intros x; apply served_quiet; [done|constructor|done]).
  case_if; [by intros [= <- <-]|]. case_if; [by intros [= <- <-]|].
  destruct (ready_messages _ _ _ _) as [[[msize maxp] d]|]; [|done].
  destruct (maxp <? _); [|by apply transmit_or_cork_served].
  destruct (_ >? maxp); [by apply solicit_loop_served|by apply transmit_or_cork_served].
Qed.

(** ** Runs of a session *)

Inductive session_op :=
  | Transmit (msg : list Z) (cork priority : Z)
  | QueueRequest (car : GSC_ClientActiveRequest)
  | DequeueRequest (car : GSC_ClientActiveRequest)
  | Solicit
  | PopCork
  | TransmitTypemap (r : Z) (hdr : list Z)
  | RestartTypemap (hdr : list Z)
  | SetTypemap (nmap : list Z).

Definition session_step `{Gcrypt} (env : SessionEnv) (op : session_op) (s : Session)
  : option (Session * list session_event) :=
  match op with
  | Transmit msg cork priority => session_transmit env msg cork priority s
  | QueueRequest car => session_queue_request env car s
  | DequeueRequest car => session_dequeue_request env car s
  | Solicit => session_solicit env s
  | PopCork => pop_cork_task env s
  | TransmitTypemap r hdr => Some (transmit_typemap_task r hdr s)
  | RestartTypemap hdr => do_restart_typemap_message env hdr s
  | SetTypemap nmap => session_set_typemap env nmap s
  end.

Fixpoint session_run `{Gcrypt} (ops : list (SessionEnv * session_op)) (s : Session)
  : option (Session * list session_event) :=
  match ops with
  | [] => Some (s, [])
  | (env, op) :: ops =>
      let? (s, e1) := session_step env op s in
      let? (s, e2) := session_run ops s in
      Some (s, e1 ++ e2)
  end.

(** Messages are sendable, type maps of their type, priorities those of the enumeration; a
    hash has 64 bytes. *)
Definition op_wf `{Gcrypt} (op : session_op) : Prop :=
  match op with
  | Transmit msg _ priority => sendable msg /\ 0 <= priority <= GNUNET_CORE_PRIO_CRITICAL_CONTROL
  | TransmitTypemap _ hdr | RestartTypemap hdr => sendable hdr /\ control_type hdr = true
  | SetTypemap nmap => hash_ok (GSC_TYPEMAP_hash nmap)
  | _ => True
  end.

(** The queue is sorted by priority, and has at most one type map and one confirmation. *)
Definition by_priority (a b : SessionMessageEntry) : Prop := sme_priority b <= sme_priority a.
Definition flagged (flag : SessionMessageEntry -> Z) (l : list SessionMessageEntry) : nat :=
  length (filter (fun e => flag e = GNUNET_YES) l).

Record queue_inv (l : list SessionMessageEntry) : Prop := {
  qi_entries : Forall entry_ok l;
  qi_priorities : Forall (fun e => sme_priority e <= GNUNET_CORE_PRIO_CRITICAL_CONTROL) l;
  qi_sorted : StronglySorted by_priority l;
  qi_typemap : (flagged is_typemap l <= 1)%nat;
  qi_confirm : (flagged is_typemap_confirm l <= 1)%nat;
}.

(** Messages of clients with a priority. *)
Definition from_client (p : Z) (e : SessionMessageEntry) : Prop :=
  sme_priority e = p /\ is_typemap e <> GNUNET_YES /\ is_typemap_confirm e <> GNUNET_YES.
#[global] Instance from_client_dec p e : Decision (from_client p e).
Proof. unfold from_client. apply _. Defined.

Definition client_messages (p : Z) (l : list SessionMessageEntry) : list (list Z) :=
  map sme_msg (filter (from_client p) l).

(** What the operations accept of the clients. *)
Fixpoint accepted (p : Z) (ops : list (SessionEnv * session_op)) : list (list Z) :=
  match ops with
  | [] => []
  | (_, Transmit msg _ priority) :: ops => if priority =? p then msg :: accepted p ops else accepted p ops
  | _ :: ops => accepted p ops
  end.

Lemma client_messages_app p a b : client_messages p (a ++ b) = client_messages p a ++ client_messages p b.
Proof. unfold client_messages. by rewrite filter_app, map_app. Qed.

(** *** The queue *)

Lemma insert_by_priority_split e l :
  exists l1 l2, l = l1 ++ l2 /\ insert_by_priority e l = l1 ++ e :: l2
    /\ Forall (fun x => sme_priority e <= sme_priority x) l1
    /\ (match l2 with [] => True | x :: _ => sme_priority x < sme_priority e end).
Proof.
  induction l as [|x l IH]; [by exists [], []|]. cbn [insert_by_priority].
  rewrite Z.geb_leb. split_ifs.
  - destruct IH as (l1 & l2 & -> & -> & H1 & H2). exists (x :: l1), l2. split_and!; auto.
  - exists [], (x :: l). split_and!; auto.
Qed.

Lemma flagged_app flag a b : flagged flag (a ++ b) = (flagged flag a + flagged flag b)%nat.
Proof. unfold flagged. by rewrite filter_app, length_app. Qed.

Lemma queue_inv_suffix a b : queue_inv (a ++ b) -> queue_inv b.
Proof.
  intros [E P S T C]. rewrite flagged_app in T, C. apply Forall_app in E as [_ E]. apply Forall_app in P as [_ P].
  apply StronglySorted_app_1_r in S. split; try done; lia.
Qed.

Lemma queue_inv_nil : queue_inv [].
Proof. split; [constructor..| |]; unfold flagged; cbn; lia. Qed.

Lemma insert_by_priority_inv e l : queue_inv l -> entry_ok e -> from_client (sme_priority e) e ->
  sme_priority e <= GNUNET_CORE_PRIO_CRITICAL_CONTROL ->
  queue_inv (insert_by_priority e l).
Proof.
  intros [E P S T C] He (_ & Ht & Hc) Hp. destruct (insert_by_priority_split e l) as (l1 & l2 & -> & -> & H1 & H2).
  apply Forall_app in E as [E1 E2]. apply Forall_app in P as [P1 P2].
  apply StronglySorted_app in S as (S & S1 & S2). rewrite flagged_app in T, C.
  split; rewrite ?flagged_app; [by apply Forall_app; auto|by apply Forall_app; auto| |
    unfold flagged in *; rewrite filter_cons, decide_False by done; lia..].
  assert (Hl2 : Forall (by_priority e) l2).
  { destruct l2 as [|x l2]; [done|]. apply StronglySorted_cons in S2 as [F2 _]. unfold by_priority in *.
    constructor; [lia|]. eapply Forall_impl; [exact F2|]. intros y Hy. cbn in Hy. lia. }
  apply StronglySorted_app_2; [|done|by apply StronglySorted_cons]. intros x y Hx [->|Hy]%elem_of_cons; [|by apply S].
  rewrite Forall_forall in H1. by apply H1.
Qed.

(** A message is put behind those of the same priority. *)
Lemma insert_by_priority_fifo e l p : queue_inv l -> from_client (sme_priority e) e ->
  client_messages p (insert_by_priority e l) = client_messages p l
    ++ (if sme_priority e =? p then [sme_msg e] else []).
Proof.
  intros [_ _ S _ _] He. destruct (insert_by_priority_split e l) as (l1 & l2 & -> & -> & H1 & H2).
  rewrite !client_messages_app, <- app_assoc. f_equal. unfold client_messages. rewrite filter_cons.
  destruct (Z.eqb_spec (sme_priority e) p) as [<-|Hne].
  - rewrite decide_True by done.
    rewrite (filter_none _ l2); [done|]. apply Forall_forall. apply StronglySorted_app in S as (_ & _ & S).
    destruct l2 as [|x l2]; [done|]. apply StronglySorted_cons in S as [F _]. unfold by_priority in F.
    constructor; [intros [? _]; lia|]. eapply Forall_impl; [exact F|]. intros y Hy [? _]. cbn in Hy. lia.
  - rewrite decide_False by (by intros [? _]). by rewrite app_nil_r.
Qed.

Lemma remove_first_split flag l :
  (flagged flag l = 0%nat /\ remove_first flag l = l)
  \/ exists l1 e l2, l = l1 ++ e :: l2 /\ flag e = GNUNET_YES /\ remove_first flag l = l1 ++ l2.
Proof.
  induction l as [|x l IH]; [by left|]. cbn [remove_first]. unfold flagged. rewrite filter_cons.
  destruct (Z.eqb_spec GNUNET_YES (flag x)) as [Hx|Hx].
  - right. by exists [], x, l.
  - rewrite decide_False by congruence. destruct IH as [[H1 ->]|(l1 & e & l2 & -> & He & ->)]; [by left|].
    right. by exists (x :: l1), e, l2.
Qed.

(** Control messages go to the front, in place of an earlier one of their kind. *)
Lemma control_entry_inv e l flag : queue_inv l -> entry_ok e ->
  sme_priority e = GNUNET_CORE_PRIO_CRITICAL_CONTROL ->
  flag = is_typemap /\ is_typemap_confirm e <> GNUNET_YES \/ flag = is_typemap_confirm /\ is_typemap e <> GNUNET_YES ->
  queue_inv (e :: remove_first flag l).
Proof.
  intros Hq He Hp Hflag.
  assert (Hr : queue_inv (remove_first flag l) /\ flagged flag (remove_first flag l) = 0%nat).
  { destruct (remove_first_split flag l) as [[H1 ->]|(l1 & x & l2 & -> & Hx & ->)]; [done|].
    destruct Hq as [E P S T C]. rewrite !Forall_app, !Forall_cons in *. destruct E as (E1 & _ & E2).
    destruct P as (P1 & _ & P2). apply StronglySorted_app in S as (S & S1 & S2).
    apply StronglySorted_cons in S2 as [_ S2]. change (x :: l2) with ([x] ++ l2) in T, C.
    rewrite !flagged_app in T, C.
    split; [split; rewrite ?flagged_app; [by apply Forall_app|by apply Forall_app| |lia|lia]|].
    - apply StronglySorted_app_2; [|done|done]. intros a b Ha Hb. apply S; [done|by right].
    - assert (flagged flag [x] = 1%nat) by (unfold flagged; rewrite filter_cons, decide_True by done; done).
      rewrite flagged_app. destruct Hflag as [[-> _]|[-> _]]; lia. }
  destruct Hr as [[E P S T C] H0]. split.
  - by constructor.
  - constructor; [lia|done].
  - apply StronglySorted_cons. split; [|done]. unfold by_priority. rewrite Hp. done.
  - destruct Hflag as [[-> _]|[_ Hn]]; unfold flagged in *; rewrite filter_cons;
      [case_decide; cbn [length]; lia|by rewrite decide_False].
  - destruct Hflag as [[_ Hn]|[-> _]]; unfold flagged in *; rewrite filter_cons;
      [by rewrite decide_False|case_decide; cbn [length]; lia].
Qed.

Lemma control_entry_fifo e l flag p : flag = is_typemap \/ flag = is_typemap_confirm -> flag e = GNUNET_YES ->
  client_messages p (e :: remove_first flag l) = client_messages p l.
Proof.
  intros Hflag He.
  assert (Hskip : forall x l1 l2, flag x = GNUNET_YES -> client_messages p (l1 ++ x :: l2) = client_messages p (l1 ++ l2)).
  { intros x l1 l2 Hx. rewrite !client_messages_app. f_equal. unfold client_messages. rewrite filter_cons, decide_False; [done|].
    unfold from_client. destruct Hflag as [-> | ->]; tauto. }
  transitivity (client_messages p (remove_first flag l)); [apply (Hskip e [] _ He)|].
  destruct (remove_first_split flag l) as [[_ ->]|(l1 & x & l2 & -> & Hx & ->)]; [done|].
  symmetry. by apply Hskip.
Qed.

(** *** Steps *)

(** A payload: messages that fit, sorted by priority, none of which could go before. *)
Record batch_ok (b rest : list SessionMessageEntry) : Prop := {
  ba_nonempty : b <> [];
  ba_entries : Forall entry_ok b;
  ba_size : total_size b <= GNUNET_CONSTANTS_MAX_ENCRYPTED_MESSAGE_SIZE;
  ba_sorted : StronglySorted by_priority (b ++ rest);
}.

(** At most one payload is sent, and for each priority the messages of clients in it and in
    the queue are those of the queue before and those that were accepted. *)
Definition conveys (l : list SessionMessageEntry) (acc : Z -> list (list Z)) (s' : Session)
    (ev : list session_event) : Prop :=
  queue_inv (smes s') /\ exists b, payloads ev = map messages b /\ (length b <= 1)%nat
    /\ Forall (fun x => batch_ok x (smes s')) b
    /\ forall p, client_messages p (concat b ++ smes s') = client_messages p l ++ acc p.

Lemma moved_conveys l acc s s' ev : moved s s' ev -> queue_inv (smes s) ->
  (forall p, client_messages p (smes s) = client_messages p l ++ acc p) -> conveys l acc s' ev.
Proof.
  intros [(k & E & Hk & H) _ _ _ _ _] Hq Hp. rewrite <- (take_drop k (smes s)) in Hq.
  split; [rewrite E; by eapply queue_inv_suffix|].
  destruct H as [(-> & -> & _)|(Hpos & -> & Hsize & _)].
  - exists []. rewrite drop_0 in E. rewrite E. split_and!; [done|cbn; lia|constructor|done].
  - exists [take k (smes s)]. split_and!; [done|done| |].
    + constructor; [|constructor]. destruct Hq as [Q _ S _ _]. apply Forall_app in Q as [Q _].
      rewrite E. split; [|done|done|done]. intros Ht. apply (f_equal length) in Ht. rewrite length_take in Ht.
      cbn in Ht. lia.
    + intros p. cbn [concat]. by rewrite app_nil_r, E, take_drop.
Qed.

Lemma confirmation_message_sendable `{Gcrypt} nmap : hash_ok (GSC_TYPEMAP_hash nmap) ->
  sendable (confirmation_message nmap) /\ control_type (confirmation_message nmap) = true.
Proof.
  intros [Hb Hl]. split.
  2: { unfold control_type, msg_type, confirmation_message. rewrite (rd16_field GNUNET_MESSAGE_TYPE_CORE_CONFIRM_TYPE_MAP (be_encode 2 _)); [done|
       by rewrite length_be_encode|by split]. }
  assert (L : length (confirmation_message nmap) = 72%nat)
    by (unfold confirmation_message; by rewrite !length_app, !length_be_encode, Hl).
  unfold sendable. rewrite L. split; [|done].
  assert (S : msg_size (confirmation_message nmap) = sizeof_TypeMapConfirmationMessage)
    by (apply (rd16_field _ []); [done|by split]).
  split; rewrite ?L, ?S; [|done|done]. unfold confirmation_message.
  repeat (apply Forall_app_2; [apply bytes_ok_be_encode|]). done.
Qed.

Lemma new_entry_msg env msg cork priority : msg_wf msg -> sme_msg (new_entry env msg cork priority) = msg.
Proof.
  intros [_ Hl _]. unfold new_entry. cbn [sme_msg]. rewrite <- Hl, Nat2Z.id. by rewrite take_ge.
Qed.

Section Steps.
Context (env : SessionEnv) (s : Session).
Hypothesis Hq : queue_inv (smes s).

(** A transmission after the queue has been changed. *)
Lemma transmission_conveys acc s1 : queue_inv (smes s1) ->
  (forall p, client_messages p (smes s1) = client_messages p (smes s) ++ acc p) ->
  exists s' ev, try_transmission_now env s1 = Some (s', ev) /\ conveys (smes s) acc s' ev.
Proof.
  intros Hq1 Hp. destruct (try_transmission_now_moves env s1) as (s' & ev & -> & Hm); [apply Hq1|].
  exists s', ev. split; [done|]. by eapply moved_conveys.
Qed.

Lemma transmission_only_conveys s1 : smes s1 = smes s ->
  exists s' ev, try_transmission_now env s1 = Some (s', ev) /\ conveys (smes s) (fun _ => []) s' ev.
Proof. intros E. apply transmission_conveys; rewrite E; [done|]. intros p. by rewrite app_nil_r. Qed.

Lemma transmit_conveys msg cork priority : sendable msg -> 0 <= priority <= GNUNET_CORE_PRIO_CRITICAL_CONTROL ->
  exists s' ev, session_transmit env msg cork priority s = Some (s', ev)
    /\ conveys (smes s) (fun p => if priority =? p then [msg] else []) s' ev.
Proof.
  intros [Hm Hl] Hp. pose proof (new_entry_msg env msg cork priority Hm) as En.
  apply transmission_conveys; cbn [set_smes smes].
  - apply insert_by_priority_inv; [done| |by split|cbn; lia]. apply client_entry_ok; [by rewrite En|done|done].
  - intros p. by rewrite insert_by_priority_fifo, En.
Qed.

Lemma control_conveys flag e : entry_ok e -> sme_priority e = GNUNET_CORE_PRIO_CRITICAL_CONTROL ->
  flag e = GNUNET_YES ->
  flag = is_typemap /\ is_typemap_confirm e <> GNUNET_YES \/ flag = is_typemap_confirm /\ is_typemap e <> GNUNET_YES ->
  exists s' ev, try_transmission_now env (set_smes (e :: remove_first flag (smes s)) s) = Some (s', ev)
    /\ conveys (smes s) (fun _ => []) s' ev.
Proof.
  intros He Hp Hf Hflag. apply transmission_conveys; cbn [set_smes smes]; [by apply control_entry_inv|].
  intros p. rewrite app_nil_r. apply control_entry_fifo; [tauto|done].
Qed.

Lemma typemap_conveys r hdr : sendable hdr /\ control_type hdr = true ->
  conveys (smes s) (fun _ => []) (fst (transmit_typemap_task r hdr s)) (snd (transmit_typemap_task r hdr s)).
Proof.
  intros Hh. set (e := mk_sme GNUNET_CORE_PRIO_CRITICAL_CONTROL GNUNET_YES GNUNET_NO (mk_abs 0) hdr).
  assert (He : messages [e] = hdr) by apply app_nil_r.
  split; [done|]. exists [[e]]. cbn [map]. rewrite He. split_and!; [done|done| |].
  - constructor; [|constructor]. split; [done|constructor; [by destruct Hh|constructor]|unfold total_size; rewrite He; destruct Hh as [[_ ?] _]; lia|].
    apply StronglySorted_cons. split; apply Hq.
  - intros p. rewrite app_nil_r. unfold client_messages. cbn [concat app].
    rewrite filter_cons, decide_False; [done|]. by intros (_ & [] & _).
Qed.

Lemma session_step_conveys `{Gcrypt} op : op_wf op ->
  exists s' ev, session_step env op s = Some (s', ev)
    /\ conveys (smes s) (fun p => accepted p [(env, op)]) s' ev.
Proof.
  intros Hop. destruct op as [msg cork priority|car|car| | |r hdr|hdr|nmap]; cbn [session_step accepted].
  - destruct Hop. by apply transmit_conveys.
  - unfold session_queue_request. case_if; [|by apply transmission_only_conveys]. eexists _, _. split; [done|].
    apply (moved_conveys _ _ s); [by apply moved_quiet|done|]. intros p. by rewrite app_nil_r.
  - by apply transmission_only_conveys.
  - by apply transmission_only_conveys.
  - by apply transmission_only_conveys.
  - eexists _, _. split; [done|]. by apply (typemap_conveys r).
  - unfold do_restart_typemap_message.
    destruct (control_conveys is_typemap (mk_sme GNUNET_CORE_PRIO_CRITICAL_CONTROL GNUNET_YES GNUNET_NO (mk_abs 0) hdr))
      as (s' & ev & -> & Hc); [by destruct Hop|done|done|by left|]. by eexists _, _.
  - unfold session_set_typemap.
    destruct (control_conveys is_typemap_confirm (mk_sme GNUNET_CORE_PRIO_CRITICAL_CONTROL GNUNET_NO GNUNET_YES
      (se_now env) (confirmation_message nmap))) as (s' & ev & -> & Hi & b & Hb & Hc);
      [by destruct (confirmation_message_sendable nmap Hop)|done|done|by right|].
    eexists _, _. split; [done|]. split; [done|]. exists b. rewrite payloads_app, app_nil_r. done.
Qed.
End Steps.

(** *** Runs *)

Lemma accepted_app p a b : accepted p (a ++ b) = accepted p a ++ accepted p b.
Proof. induction a as [|[env []] a IH]; cbn [app accepted]; rewrite ?IH; try done. by case_if. Qed.

Lemma session_run_conveys `{Gcrypt} ops s : queue_inv (smes s) -> Forall (fun o => op_wf (snd o)) ops ->
  exists s' ev b, session_run ops s = Some (s', ev) /\ queue_inv (smes s')
    /\ payloads ev = map messages b /\ (length b <= length ops)%nat
    /\ Forall (fun x => exists rest, batch_ok x rest) b
    /\ forall p, client_messages p (concat b ++ smes s') = client_messages p (smes s) ++ accepted p ops.
Proof.
  intros Hq Hops. revert s Hq. induction Hops as [|[env op] ops Hop _ IH]; intros s Hq.
  { exists s, [], []. split_and!; try done. intros p. by rewrite app_nil_r. }
  destruct (session_step_conveys env s Hq op Hop) as (s1 & e1 & E1 & Hq1 & b1 & Hp1 & L1 & Hb1 & Hc1).
  destruct (IH s1 Hq1) as (s' & e2 & b2 & E2 & Hq' & Hp2 & L2 & Hb2 & Hc2).
  exists s', (e1 ++ e2), (b1 ++ b2). cbn [session_run]. rewrite E1, E2, payloads_app, Hp1, Hp2, map_app.
  split_and!; [done|done|done|rewrite length_app; cbn [length]; lia|apply Forall_app; split; [|done]|].
  - eapply Forall_impl; [exact Hb1|]. intros x Hx. by exists (smes s1).
  - intros p. change ((env, op) :: ops) with ([(env, op)] ++ ops).
    rewrite concat_app, <- app_assoc, client_messages_app, Hc2, accepted_app, app_assoc, <- client_messages_app, Hc1.
    by rewrite app_assoc.
Qed.

Lemma batch_size b rest : batch_ok b rest -> 4 <= total_size b.
Proof.
  intros [Hn He _ _]. destruct He as [|e l He _]; [done|]. apply entry_ok_size in He.
  rewrite total_size_cons. pose proof (total_size_nonneg l). lia.
Qed.

(** ** Progress *)

Lemma request_priority_solicited base l : Forall (fun c => was_solicited c = GNUNET_YES) l ->
  request_priority base l = base.
Proof.
  intros Hl. unfold request_priority. induction Hl as [|c l Hc _ IH]; [done|]. cbn [fold_left]. by rewrite Hc.
Qed.

Lemma next_to_solicit_none pmax so l : Forall (fun c => was_solicited c = GNUNET_YES) l ->
  next_to_solicit pmax so l = None.
Proof.
  intros Hl. destruct (next_to_solicit pmax so l) as [car|] eqn:E; [|done].
  apply next_to_solicit_unsolicited in E as [Hin Hc]. rewrite Forall_forall in Hl.
  by apply list_elem_of_In, Hl in Hin.
Qed.

Lemma max_priority_ge base l : base <= max_priority base l.
Proof.
  unfold max_priority. revert base. induction l as [|e l IH]; intros base; cbn [fold_left]; [lia|].
  etransitivity; [|apply IH]. lia.
Qed.

(** What is sent next. *)
Definition next_payload (s : Session) : list SessionMessageEntry := take (fitting (smes s) 0) (smes s).
Definition next_deadline (s : Session) : GNUNET_TIME_Absolute :=
  min_deadline GNUNET_TIME_UNIT_FOREVER_ABS (next_payload s).

Definition sent_state (s : Session) : Session :=
  set_ready GNUNET_NO (set_smes (drop (fitting (smes s) 0) (smes s)) s).

Lemma transmit_or_cork_solicited env T excess maxpc s : Forall entry_ok (smes s) ->
  0 < total_size (next_payload s) ->
  Forall (fun c => was_solicited c = GNUNET_YES) (active_client_requests s) ->
  let r := transmit_or_cork env T excess maxpc (total_size (next_payload s)) (next_deadline s) s in
  r = Some (sent_state s, [EncryptAndTransmit (messages (next_payload s))])
  \/ r = Some (set_cork (Some (next_deadline s)) s, [])
     /\ abs_value_us (se_now env) < abs_value_us (next_deadline s).
Proof.
  intros He Hpos Hs. cbv zeta. unfold transmit_or_cork. case_if.
  - right. unfold solicit_messages. cbn [solicit_loop]. rewrite next_to_solicit_none by done.
    rewrite (proj2 (Z.gtb_lt _ _)) by done. split; [done|].
    apply andb_prop in E as [_ [E|[_ E]%andb_prop]%orb_prop]; [apply Z.eqb_eq in E; lia|].
    by apply Z.gtb_lt in E.
  - left. pose proof (build_plaintext_spec (smes s) _ 0 He (fitting_le (smes s) 0)) as Hb.
    rewrite Z.add_0_l in Hb. fold (next_payload s) in Hb. by rewrite Hb.
Qed.

Lemma next_payload_size s : Forall entry_ok (smes s) -> smes s <> [] -> 0 < total_size (next_payload s).
Proof.
  intros He Hne. pose proof (fitting_nonempty _ He Hne) as Hk. unfold next_payload.
  destruct He as [|e l He _]; [done|]. destruct (fitting _ _) as [|n]; [lia|]. cbn [take].
  apply entry_ok_size in He. rewrite total_size_cons. pose proof (total_size_nonneg (take n l)). lia.
Qed.

(** With nothing to solicit, the messages that fit are sent, or wait for their deadline. *)
Lemma try_transmission_progress env s : Forall entry_ok (smes s) -> smes s <> [] ->
  ready_to_transmit s = GNUNET_YES -> se_queue_length env < MAX_ENCRYPTED_MESSAGE_QUEUE_SIZE ->
  Forall (fun c => was_solicited c = GNUNET_YES) (active_client_requests s) ->
  let r := try_transmission_now env s in
  r = Some (sent_state s, [EncryptAndTransmit (messages (next_payload s))])
  \/ r = Some (set_cork (Some (next_deadline s)) s, [])
     /\ abs_value_us (se_now env) < abs_value_us (next_deadline s).
Proof.
  intros He Hne Hr Hl Hs. cbv zeta. pose proof (next_payload_size s He Hne) as Hpos.
  unfold try_transmission_now. cbn [try_transmission]. rewrite Hr, Z.eqb_refl. cbn [negb].
  rewrite (proj2 (Z.leb_gt _ _)) by done. rewrite ready_messages_spec, Z.add_0_l by done.
  rewrite request_priority_solicited by done. fold (next_payload s). fold (next_deadline s).
  set (base := if _ =? _ then GNUNET_CORE_PRIO_BACKGROUND else _).
  pose proof (max_priority_ge base (next_payload s)) as Hm.
  rewrite (Z.gtb_ltb base), (proj2 (Z.ltb_ge _ _) Hm). case_if; by apply transmit_or_cork_solicited.
Qed.

(** ** All sessions *)

Inductive sessions_op :=
  | Create (peer : list Z)
  | End_session (peer : list Z)
  | Reinit (peer : list Z)
  | ConfirmTypemap (peer msg : list Z) (tms : TypeMapState)
  | QueueFor (env : SessionEnv) (car : GSC_ClientActiveRequest)
  | DequeueFor (env : SessionEnv) (car : GSC_ClientActiveRequest)
  | SolicitFor (env : SessionEnv) (peer : list Z)
  | TransmitTo (env : SessionEnv) (car : GSC_ClientActiveRequest) (msg : list Z) (cork priority : Z)
  | ReceiveTypemap (env : SessionEnv) (peer mem : list Z)
  | AddToTypemap (peer : list Z) (type : Z).

Section All.
Context `{HG : Gcrypt} `{HZ : Zlib} (my_identity : list Z).

Definition op_peer (op : sessions_op) : list Z :=
  match op with
  | Create peer | End_session peer | Reinit peer | ConfirmTypemap peer _ _ | SolicitFor _ peer
  | ReceiveTypemap _ peer _ | AddToTypemap peer _ => peer
  | QueueFor _ car | DequeueFor _ car | TransmitTo _ car _ _ _ => car_target car
  end.

Definition sessions_step (op : sessions_op) (m : sessions_map) : option (sessions_map * list session_event) :=
  match op with
  | Create peer => GSC_SESSIONS_create peer m
  | End_session peer => GSC_SESSIONS_end peer m
  | Reinit peer => GSC_SESSIONS_reinit peer m
  | ConfirmTypemap peer msg tms => Some (snd (GSC_SESSIONS_confirm_typemap peer msg tms m), [])
  | QueueFor env car => GSC_SESSIONS_queue_request env car m
  | DequeueFor env car => GSC_SESSIONS_dequeue_request env my_identity car m
  | SolicitFor env peer => GSC_SESSIONS_solicit env peer m
  | TransmitTo env car msg cork priority => GSC_SESSIONS_transmit env car msg cork priority m
  | ReceiveTypemap env peer mem => GSC_SESSIONS_set_typemap env peer mem m
  | AddToTypemap peer type => GSC_SESSIONS_add_to_typemap my_identity peer type m
  end.

(** What the callers ensure: a session is created once, requests are removed and types
    added while there is a session (or for the peer itself), messages are well formed. *)
Definition allowed (m : sessions_map) (op : sessions_op) : Prop :=
  match op with
  | Create peer => m !! peer = None
  | DequeueFor _ car => car_target car = my_identity \/ is_Some (m !! car_target car)
  | AddToTypemap peer type => is_u16 type /\ (peer = my_identity \/ is_Some (m !! peer))
  | TransmitTo _ _ msg _ priority => sendable msg /\ 0 <= priority <= GNUNET_CORE_PRIO_CRITICAL_CONTROL
  | ReceiveTypemap _ _ mem => forall nmap, GSC_TYPEMAP_get_from_message mem = Some nmap -> hash_ok (GSC_TYPEMAP_hash nmap)
  | _ => True
  end.

Record session_ok (peer : list Z) (s : Session) : Prop := {
  so_peer : s_peer s = peer;
  so_queue : queue_inv (smes s);
  so_tmap : length (s_tmap s) = TYPEMAP_WORDS;
}.
Definition sessions_ok (m : sessions_map) : Prop := map_Forall session_ok m.

(** The session of the peer is changed only. *)
Definition steps_ok (peer : list Z) (m : sessions_map) (r : option (sessions_map * list session_event)) : Prop :=
  exists m' ev, r = Some (m', ev) /\ sessions_ok m' /\ forall q, q <> peer -> m' !! q = m !! q.

Lemma steps_insert peer m s ev : sessions_ok m -> session_ok peer s -> steps_ok peer m (Some (<[peer := s]> m, ev)).
Proof.
  intros Hm Hs. exists (<[peer := s]> m), ev. split_and!; [done|by apply map_Forall_insert_2|].
  intros q Hq. by rewrite lookup_insert_ne.
Qed.

Lemma steps_none peer m ev : sessions_ok m -> steps_ok peer m (Some (m, ev)).
Proof. intros Hm. by exists m, ev. Qed.

(** An operation on one session that keeps the peer and the queue, with a map of the right size. *)
Lemma steps_on peer m s f : sessions_ok m ->
  (exists s' ev, f s = Some (s', ev) /\ session_ok peer s') -> steps_ok peer m (on_session peer f m s).
Proof. intros Hm (s' & ev & E & Hs). unfold on_session. rewrite E. by apply steps_insert. Qed.

Lemma transmission_keeps env peer s s1 : session_ok peer s -> queue_inv (smes s1) -> s_peer s1 = s_peer s ->
  s_tmap s1 = s_tmap s -> exists s' ev, try_transmission_now env s1 = Some (s', ev) /\ session_ok peer s'.
Proof.
  intros [P Q T] Hq Hp Ht. destruct (try_transmission_now_moves env s1) as (s' & ev & -> & Hm); [apply Hq|].
  exists s', ev. split; [done|].
  destruct (moved_conveys (smes s1) (fun _ => []) _ _ _ Hm Hq) as [Hq' _]; [intros p; by rewrite app_nil_r|].
  destruct Hm as [_ _ _ Hp' Ht' _]. split; congruence.
Qed.

Lemma get_from_message_length mem nmap : GSC_TYPEMAP_get_from_message mem = Some nmap ->
  length nmap = TYPEMAP_WORDS.
Proof.
  assert (Hb : forall b, length (typemap_of_bytes b) = TYPEMAP_WORDS)
    by (intros b; unfold typemap_of_bytes; by rewrite length_map, length_seq).
  unfold GSC_TYPEMAP_get_from_message. repeat case_if; try done; [by intros [= <-]|].
  destruct (uncompress _ _); [|done]. case_if; [|done]. by intros [= <-].
Qed.

Lemma test_match_one tm type : length tm = TYPEMAP_WORDS -> is_u16 type ->
  exists r, GSC_TYPEMAP_test_match (Some tm) [type] = Some r.
Proof.
  intros Hl Ht. cbn [GSC_TYPEMAP_test_match test_match_loop].
  destruct (lookup_lt_is_Some_2 tm (Z.to_nat (type / 32))) as [w ->]; [rewrite Hl; by apply word_index|].
  case_if; by eexists.
Qed.

Lemma extend_one tm type : length tm = TYPEMAP_WORDS -> is_u16 type ->
  exists tm', GSC_TYPEMAP_extend (Some tm) [type] = Some tm' /\ length tm' = TYPEMAP_WORDS.
Proof.
  intros Hl Ht. cbn [GSC_TYPEMAP_extend fold_left]. unfold set_bit.
  destruct (lookup_lt_is_Some_2 tm (Z.to_nat (type / 32))) as [w ->]; [rewrite Hl; by apply word_index|].
  eexists. split; [done|]. by rewrite length_insert.
Qed.

(** With a session, or without. *)
Lemma sessions_step_ok op m : sessions_ok m -> allowed m op -> steps_ok (op_peer op) m (sessions_step op m).
Proof.
  intros Hm Ha. assert (Hget : forall p s, m !! p = Some s -> session_ok p s) by apply Hm.
  destruct op as [peer|peer|peer|peer msg tms|env car|env car|env peer|env car msg cork priority|env peer mem|peer type];
    cbn [sessions_step op_peer allowed] in *.
  - unfold GSC_SESSIONS_create, find_session. rewrite bool_decide_true by done. apply steps_insert; [done|].
    split; [done|apply queue_inv_nil|done].
  - unfold GSC_SESSIONS_end, find_session. destruct (m !! peer) as [s|]; [|by apply steps_none].
    eexists _, _. split_and!; [done|by apply map_Forall_delete|]. intros q Hq. by rewrite lookup_delete_ne.
  - unfold GSC_SESSIONS_reinit, find_session. destruct (m !! peer) as [s|] eqn:E; [|by apply steps_none].
    apply steps_insert; [done|]. by destruct (Hget _ _ E).
  - unfold GSC_SESSIONS_confirm_typemap, find_session. destruct (m !! peer) as [s|] eqn:E; [|by apply steps_none].
    case_if; [by apply steps_none|]. destruct (GSC_TYPEMAP_check_hash _ _) as [tms' r].
    case_if; [by apply steps_none|]. apply steps_insert; [done|]. by destruct (Hget _ _ E).
  - unfold GSC_SESSIONS_queue_request, find_session. destruct (m !! _) as [s|] eqn:E; [|by apply steps_none].
    pose proof (Hget _ _ E) as Hs. apply steps_on; [done|]. unfold session_queue_request.
    case_if; [by eexists _, _|]. by eapply transmission_keeps; [|apply Hs|..].
  - unfold GSC_SESSIONS_dequeue_request, find_session. case_bool_decide; [by apply steps_none|].
    destruct Ha as [|[s E]]; [done|]. rewrite E. pose proof (Hget _ _ E) as Hs. apply steps_on; [done|].
    by eapply transmission_keeps; [|apply Hs|..].
  - unfold GSC_SESSIONS_solicit, find_session. destruct (m !! _) as [s|] eqn:E; [|by apply steps_none].
    pose proof (Hget _ _ E) as Hs. apply steps_on; [done|]. by eapply transmission_keeps; [|apply Hs|..].
  - unfold GSC_SESSIONS_transmit, find_session. destruct (m !! _) as [s|] eqn:E; [|by apply steps_none].
    pose proof (Hget _ _ E) as Hs. apply steps_on; [done|]. destruct Ha as [[Hw Hl] Hp].
    eapply transmission_keeps; [done|..|done|done]. apply insert_by_priority_inv; [apply Hs| |by split|cbn; lia].
    apply client_entry_ok; [by rewrite new_entry_msg|done|done].
  - unfold GSC_SESSIONS_set_typemap, find_session.
    destruct (GSC_TYPEMAP_get_from_message mem) as [nmap|] eqn:En; [|by apply steps_none].
    destruct (m !! _) as [s|] eqn:E; [|by apply steps_none]. pose proof (Hget _ _ E) as Hs.
    apply steps_on; [done|]. unfold session_set_typemap. set (s1 := set_smes _ s).
    destruct (transmission_keeps env peer s s1) as (s' & ev & -> & [P Q T]); [done| |done|done|].
    { apply control_entry_inv; [apply Hs| |done|by right]. by destruct (confirmation_message_sendable nmap (Ha _ eq_refl)). }
    eexists _, _. split; [done|]. split; [done|done|by eapply get_from_message_length].
  - unfold GSC_SESSIONS_add_to_typemap, find_session. case_bool_decide; [by apply steps_none|].
    destruct Ha as [Ht [|[s E]]]; [done|]. rewrite E. destruct (Hget _ _ E) as [P Q T].
    destruct (test_match_one (s_tmap s) type T Ht) as (r & ->). case_if; [by apply steps_none|].
    destruct (extend_one (s_tmap s) type T Ht) as (nmap & -> & L). by apply steps_insert.
Qed.

(** Sessions come and go with [GSC_SESSIONS_create] and [GSC_SESSIONS_end] alone. *)
Definition connected_after (op : sessions_op) (before : bool) : bool :=
  match op with Create _ => true | End_session _ => false | _ => before end.

Lemma steps_connected op m m' ev : sessions_step op m = Some (m', ev) ->
  bool_decide (is_Some (m' !! op_peer op)) = connected_after op (bool_decide (is_Some (m !! op_peer op))).
Proof.
  assert (Hins : forall peer (s : Session), bool_decide (is_Some (<[peer := s]> m !! peer)) = true)
    by (intros peer s; apply bool_decide_true; by rewrite lookup_insert_eq).
  destruct op; cbn [sessions_step op_peer connected_after];
    unfold GSC_SESSIONS_create, GSC_SESSIONS_end, GSC_SESSIONS_reinit, GSC_SESSIONS_confirm_typemap,
      GSC_SESSIONS_queue_request, GSC_SESSIONS_dequeue_request, GSC_SESSIONS_solicit, GSC_SESSIONS_transmit,
      GSC_SESSIONS_set_typemap, GSC_SESSIONS_add_to_typemap, find_session, on_session;
    repeat (case_match; try done; cbn [snd]); intros [= <- <-]; try done; rewrite ?Hins; try done;
    try (symmetry; apply bool_decide_true; by eexists); try (apply bool_decide_ext; by f_equiv).
  - apply bool_decide_false. rewrite lookup_delete_eq. by intros [? ?].
  - apply bool_decide_false. intros [? E]. congruence.
Qed.

Fixpoint sessions_run (ops : list sessions_op) (m : sessions_map) : option (sessions_map * list session_event) :=
  match ops with
  | [] => Some (m, [])
  | op :: ops =>
      let? (m, e1) := sessions_step op m in
      let? (m, e2) := sessions_run ops m in
      Some (m, e1 ++ e2)
  end.

(** Which peers are connected, by the operations alone. *)
Definition track (op : sessions_op) (c : gset (list Z)) : gset (list Z) :=
  match op with
  | Create peer => {[peer]} ∪ c
  | End_session peer => c ∖ {[peer]}
  | _ => c
  end.

(** [allowed], for the set of peers that are connected. *)
Definition permitted (c : gset (list Z)) (op : sessions_op) : Prop :=
  match op with
  | Create peer => peer ∉ c
  | DequeueFor _ car => car_target car = my_identity \/ car_target car ∈ c
  | AddToTypemap peer type => is_u16 type /\ (peer = my_identity \/ peer ∈ c)
  | TransmitTo _ _ msg _ priority => sendable msg /\ 0 <= priority <= GNUNET_CORE_PRIO_CRITICAL_CONTROL
  | ReceiveTypemap _ _ mem => forall nmap, GSC_TYPEMAP_get_from_message mem = Some nmap -> hash_ok (GSC_TYPEMAP_hash nmap)
  | _ => True
  end.

Fixpoint permitted_run (c : gset (list Z)) (ops : list sessions_op) : Prop :=
  match ops with
  | [] => True
  | op :: ops => permitted c op /\ permitted_run (track op c) ops
  end.

Lemma permitted_allowed m op : permitted (dom m) op -> allowed m op.
Proof. destruct op; cbn; try done; [by rewrite not_elem_of_dom|by rewrite elem_of_dom..]. Qed.

Lemma step_dom op m m' ev : sessions_step op m = Some (m', ev) ->
  (forall q, q <> op_peer op -> m' !! q = m !! q) -> dom m' = track op (dom m).
Proof.
  intros Hs Ho. pose proof (steps_connected op m m' ev Hs) as Hc. apply set_eq. intros q.
  destruct (decide (q = op_peer op)) as [->|Hq].
  - rewrite elem_of_dom. destruct op; cbn [op_peer track connected_after] in *;
      try (rewrite elem_of_dom; do 2 case_bool_decide; first [discriminate|tauto]).
    + apply bool_decide_eq_true in Hc. set_solver.
    + apply bool_decide_eq_false in Hc. set_solver.
  - rewrite elem_of_dom, (Ho q Hq), <- elem_of_dom. clear Hs Hc Ho. destruct op; cbn [op_peer track] in *; set_solver.
Qed.

Lemma sessions_run_ok ops m : sessions_ok m -> permitted_run (dom m) ops ->
  exists m' ev, sessions_run ops m = Some (m', ev) /\ sessions_ok m' /\ dom m' = foldl (fun c op => track op c) (dom m) ops.
Proof.
  revert m. induction ops as [|op ops IH]; intros m Hm Hp; [by exists m, []|]. destruct Hp as [Hp Hps].
  destruct (sessions_step_ok op m Hm (permitted_allowed m op Hp)) as (m1 & e1 & E1 & Hm1 & Ho).
  pose proof (step_dom op m m1 e1 E1 Ho) as Hd. rewrite <- Hd in Hps.
  destruct (IH m1 Hm1 Hps) as (m' & e2 & E2 & Hm' & Hd').
  exists m', (e1 ++ e2). cbn [sessions_run]. rewrite E1, E2. split_and!; [done|done|]. cbn [foldl]. by rewrite <- Hd.
Qed.
End All.

(** ** Theorems *)

(** The state [GSC_SESSIONS_create] makes. *)
Definition new_session (peer : list Z) : Session :=
  start_typemap_task (mk_session peer [] [] GSC_TYPEMAP_create None None (mk_rel 0) GNUNET_NO).

(** C20. A session is a priority queue: in every run of its operations and tasks with messages
    shorter than 63 KiB (one of exactly 63 KiB is accepted, and then an assertion fails) and priorities up to 3 no assertion
    fails and every loop ends; the payloads it hands to the key exchange are non-empty series
    of complete messages, in the order of their priorities, that fit; and for each priority
    the messages that clients gave are sent or still queued, each once and in the order they
    came. At most one type map and one confirmation wait in the queue. *)
Theorem session_priority_fifo `{Gcrypt} peer ops :
  Forall (fun o => op_wf (snd o)) ops ->
  exists s ev b, session_run ops (new_session peer) = Some (s, ev)
    /\ payloads ev = map messages b
    /\ Forall (fun x => exists rest, batch_ok x rest) b
    /\ Forall (fun m => 4 <= Z.of_nat (length m) <= GNUNET_CONSTANTS_MAX_ENCRYPTED_MESSAGE_SIZE) (payloads ev)
    /\ (forall p, client_messages p (concat b) ++ client_messages p (smes s) = accepted p ops)
    /\ queue_inv (smes s).
Proof.
  intros Hops. destruct (session_run_conveys ops (new_session peer)) as (s & ev & b & E & Hq & Hp & _ & Hb & Hc);
    [apply queue_inv_nil|done|].
  exists s, ev, b. split_and!; try done.
  - rewrite Hp. apply Forall_map. eapply Forall_impl; [exact Hb|]. intros x [rest Hx].
    split; [by apply (batch_size x rest)|apply (ba_size _ _ Hx)].
  - intros p. by rewrite <- client_messages_app, Hc.
Qed.

(** C25. No message is stuck: when the transport is ready and all requests of clients have
    been solicited, the longest front of the queue that fits is sent at once, or a task is
    set for the earliest of its deadlines, which has not passed; and at that time, or at any
    time later, the task sends it. *)
Theorem session_progress env s :
  queue_inv (smes s) -> smes s <> [] -> ready_to_transmit s = GNUNET_YES ->
  se_queue_length env < MAX_ENCRYPTED_MESSAGE_QUEUE_SIZE ->
  Forall (fun c => was_solicited c = GNUNET_YES) (active_client_requests s) ->
  next_payload s <> []
  /\ exists s' ev, try_transmission_now env s = Some (s', ev)
  /\ (s' = sent_state s /\ payloads ev = [messages (next_payload s)]
      \/ cork_task s' = Some (next_deadline s) /\ ev = []
         /\ abs_value_us (se_now env) < abs_value_us (next_deadline s)
         /\ Forall (fun e => abs_value_us (next_deadline s) <= abs_value_us (sme_deadline e)) (next_payload s)
         /\ forall env', abs_value_us (next_deadline s) <= abs_value_us (se_now env') ->
              se_queue_length env' < MAX_ENCRYPTED_MESSAGE_QUEUE_SIZE ->
              exists s'', pop_cork_task env' s' = Some (s'', [EncryptAndTransmit (messages (next_payload s))])
                /\ smes s'' = drop (fitting (smes s) 0) (smes s)).
Proof.
  intros Hq Hne Hr Hl Hs. pose proof (qi_entries _ Hq) as He. split.
  { pose proof (next_payload_size s He Hne) as Hpos. intros E. by rewrite E in Hpos. }
  destruct (try_transmission_progress env s He Hne Hr Hl Hs) as [->|[-> Hd]]; eexists _, _; (split; [done|]).
  { by left. }
  right. split_and!; [done|done|done|apply min_deadline_le|]. intros env' Hd' Hl'. unfold pop_cork_task.
  destruct (try_transmission_progress env' (set_cork None (set_cork (Some (next_deadline s)) s))) as [->|[_ Hd2]];
    [done..|by eexists|]. unfold next_deadline, next_payload in *. cbn [set_cork smes] in Hd2. lia.
Qed.

(** In every run of the operations on all sessions no assertion fails: each session
    keeps its invariant, and there is a session exactly for the peers for which one was
    created and not ended. *)
Theorem sessions_safe `{Gcrypt} `{Zlib} my_identity ops :
  permitted_run my_identity ∅ ops ->
  exists m ev, sessions_run my_identity ops ∅ = Some (m, ev)
    /\ (forall peer s, m !! peer = Some s -> session_ok peer s)
    /\ dom m = foldl (fun c op => track op c) ∅ ops.
Proof.
  intros Hp. rewrite <- (dom_empty_L (M := gmap (list Z)) (A := Session)) in Hp at 1.
  destruct (sessions_run_ok my_identity ops ∅ (map_Forall_empty _) Hp) as (m & ev & E & Hm & Hd).
  exists m, ev. split_and!; [done|done|]. by rewrite Hd, dom_empty_L.
Qed.

(** A message of exactly the largest size a request may have fails the assertion of
    [try_transmission]. *)
Example message_of_maximal_size :
  let env := mk_env (mk_abs 5) 0 GNUNET_NO (fun _ => true) in
  let car := mk_car 1 1 [7] 1 GNUNET_NO GNUNET_CONSTANTS_MAX_ENCRYPTED_MESSAGE_SIZE in
  let msg := be_encode 2 GNUNET_CONSTANTS_MAX_ENCRYPTED_MESSAGE_SIZE ++ [1; 2] ++ repeat 0 (Z.to_nat 64508) in
  exists s, (let? (s, _) := session_solicit env (new_session [7]) in
             let? (s, _) := session_queue_request env car s in Some s) = Some s
    /\ Forall (fun c => was_solicited c = GNUNET_YES) (active_client_requests s)
    /\ (let? (s, _) := session_dequeue_request env car s in session_transmit env msg GNUNET_NO 1 s) = None.
Proof. cbv zeta. eexists. split; [reflexivity|]. split; [by repeat constructor|]. by vm_compute. Qed.

(** ** Concrete runs *)

#[local] Existing Instance toy_gcrypt.
#[local] Existing Instance toy_zlib.

Definition demo_env (now : Z) : SessionEnv := mk_env (mk_abs now) 0 GNUNET_NO (fun _ => true).
Definition demo_low : list Z := [0; 5; 0; 77; 1].
Definition demo_high : list Z := [0; 6; 0; 78; 2; 3].

(** Two messages wait for the transport, the more important one goes first. *)
Definition demo_ops : list (SessionEnv * session_op) :=
  [(demo_env 5, Transmit demo_low GNUNET_NO 1); (demo_env 6, Transmit demo_high GNUNET_NO 2); (demo_env 7, Solicit)].

Lemma demo_sendable m : m = demo_low \/ m = demo_high -> sendable m.
Proof.
  intros [-> | ->]; (split; [split; [repeat constructor; words|done|done]|done]).
Qed.

Lemma session_priority_fifo_witness :
  exists s ev, session_run demo_ops (new_session [7]) = Some (s, ev)
    /\ payloads ev = [demo_high ++ demo_low] /\ queue_inv (smes s).
Proof.
  destruct (session_priority_fifo [7] demo_ops) as (s & ev & b & E & _ & _ & _ & _ & Hq).
  - apply Forall_cons_2; [|apply Forall_cons_2; [|apply Forall_cons_2; [exact I|constructor]]];
      (split; [apply demo_sendable; auto|unfold GNUNET_CORE_PRIO_CRITICAL_CONTROL; lia]).
  - exists s, ev. split; [exact E|]. split; [|exact Hq]. vm_compute in E. injection E as <- <-. reflexivity.
Defined.

(** A message that may be delayed. *)
Definition demo_corked : Session :=
  set_ready GNUNET_YES (set_smes [mk_sme 1 GNUNET_NO GNUNET_NO (mk_abs 1000) demo_low] (new_session [7])).

Lemma demo_corked_inv : queue_inv (smes demo_corked).
Proof.
  apply (insert_by_priority_inv (mk_sme 1 GNUNET_NO GNUNET_NO (mk_abs 1000) demo_low) [] queue_inv_nil);
    [apply client_entry_ok; [apply demo_sendable; auto|done|done]|by split|done].
Qed.

Lemma session_progress_witness :
  exists s', try_transmission_now (demo_env 5) demo_corked = Some (s', []) /\ cork_task s' = Some (mk_abs 1000)
    /\ exists s'', pop_cork_task (demo_env 1000) s' = Some (s'', [EncryptAndTransmit demo_low]).
Proof.
  destruct (session_progress (demo_env 5) demo_corked) as (_ & s' & ev & E & [[_ Hp]|(Hc & -> & _ & _ & Hpop)]);
    [exact demo_corked_inv|done|done|done|constructor|..].
  - exfalso. vm_compute in E. injection E as <- <-. discriminate Hp.
  - exists s'. split; [exact E|]. split; [exact Hc|].
    destruct (Hpop (demo_env 1000)) as (s'' & E' & _); [by vm_compute|done|]. exists s''. exact E'.
Defined.

Lemma sessions_safe_witness :
  exists m ev, sessions_run [1] [Create [7]; Create [8]; SolicitFor (demo_env 5) [7];
      TransmitTo (demo_env 6) (mk_car 1 1 [7] 1 GNUNET_YES 5) demo_low GNUNET_NO 1; AddToTypemap [8] 77; End_session [7]] ∅
    = Some (m, ev) /\ dom m = {[[8]]}.
Proof.
  edestruct (sessions_safe [1]) as (m & ev & E & _ & Hd); [|exists m, ev; split; [exact E|]].
  - cbn [permitted_run permitted track]. split_and!; try done; try set_solver. by apply demo_sendable; auto.
  - rewrite Hd. cbn [foldl track]. set_solver.
Defined.
