(* ===== verification/CoreClients.v ===== *)
(** * Clients of the core service: [src/core/gnunet-service-core.c]

    Clients register the types of messages they handle, ask for permission to send to a
    peer, send, and are told about neighbours that share a type with them and about
    messages. The state of the service is put together here from that of the clients, the
    sessions ([CoreSessions]) and the type map ([TypeMap]); what sessions emit is carried out
    by the functions of the clients that they call. *)

From stdpp Require Import gmap.
From S2P Require Import Prelude Time Message Tokenizer Crypto CoreKx TypeMap CoreSessions.
#[local] Open Scope Z_scope.

(** ** Data *)

(** [connectmap] has no values. A request is given by its address; the fields of requests
    that wait are in the list of the session. *)
Record GSC_Client := mk_client {
  c_types : option (list Z);
  c_requests : option (gmap (list Z) Z);
  connectmap : gset (list Z);
  c_options : Z;
  got_init : Z;
}.

Definition types_of (c : GSC_Client) : list Z := default [] (c_types c).
Definition tcnt (c : GSC_Client) : Z := Z.of_nat (length (types_of c)).

(** Clients by address, and the list of clients from [client_head] on. *)
Record CoreState := mk_core {
  client_store : gmap Z GSC_Client;
  client_list : list Z;
  all_client_options : Z;
  core_sessions : sessions_map;
  core_typemap : TypeMapState;
}.

(** What is sent to clients and to the key exchange. *)
Inductive core_event :=
  | SendInitReply (client : Z)
  | SendReady (client : Z) (peer : list Z) (msize : Z)
  | SendNotifyConnect (client : Z) (peer : list Z)
  | SendNotifyDisconnect (client : Z) (peer : list Z)
  | SendNotifyTraffic (client mtype : Z) (peer payload : list Z)
  | DropClient (client : Z)
  | KxTransmit (peer payload : list Z).

(** The clock, the state of the queues of peers, and the length of the queue of a client when
    a message is delivered with some options. *)
Record CoreEnv := mk_core_env {
  ce_now : GNUNET_TIME_Absolute;
  ce_queue_length : list Z -> Z;
  ce_excess : list Z -> Z;
  ce_mq_length : Z -> list Z -> Z -> Z;
}.

Definition set_store x st := mk_core x (client_list st) (all_client_options st) (core_sessions st) (core_typemap st).
Definition set_list x st := mk_core (client_store st) x (all_client_options st) (core_sessions st) (core_typemap st).
Definition set_options x st := mk_core (client_store st) (client_list st) x (core_sessions st) (core_typemap st).
Definition set_sessions x st := mk_core (client_store st) (client_list st) (all_client_options st) x (core_typemap st).
Definition set_typemap x st := mk_core (client_store st) (client_list st) (all_client_options st) (core_sessions st) x.

Definition set_requests_of r c := mk_client (c_types c) r (connectmap c) (c_options c) (got_init c).
Definition set_connectmap m c := mk_client (c_types c) (c_requests c) m (c_options c) (got_init c).

Definition MAX_QUEUE : Z := 128.
Definition GNUNET_CORE_OPTION_SEND_FULL_OUTBOUND : Z := 32.
Definition GNUNET_CORE_OPTION_SEND_HDR_OUTBOUND : Z := 64.
Definition GNUNET_SERVER_MAX_MESSAGE_SIZE : Z := 65536.
Definition sizeof_NotifyTrafficMessage : Z := 36.
Definition GNUNET_MESSAGE_TYPE_CORE_NOTIFY_INBOUND : Z := 70.
Definition GNUNET_MESSAGE_TYPE_CORE_NOTIFY_OUTBOUND : Z := 71.

Abbreviation result := (option (CoreState * list core_event)).

(** One operation after another. *)
Definition and_then (r : result) (f : CoreState -> result) : result :=
  let? (st, e1) := r in
  let? (st, e2) := f st in
  Some (st, e1 ++ e2).

Fixpoint for_each {A} (f : A -> CoreState -> result) (l : list A) (st : CoreState) : result :=
  match l with
  | [] => Some (st, [])
  | x :: l => and_then (f x st) (for_each f l)
  end.

Section Clients.
Context `{Gcrypt} `{Zlib} (GSC_my_identity : list Z).

(** The order in which a map of peers is iterated. *)
Context (order : forall A, gmap (list Z) A -> list (list Z)).

(** ** Neighbours *)

Definition contains (peer : list Z) (m : gset (list Z)) : Z := if bool_decide (peer ∈ m) then GNUNET_YES else GNUNET_NO.

Definition GSC_CLIENTS_notify_client_about_neighbour (neighbour : list Z) (tmap_old tmap_new : option (list Z))
    (id : Z) (st : CoreState) : result :=
  let? client := client_store st !! id in
  if negb (GNUNET_YES =? got_init client) then Some (st, [])
  else
    let? old_match := GSC_TYPEMAP_test_match tmap_old (types_of client) in
    let? new_match := GSC_TYPEMAP_test_match tmap_new (types_of client) in
    if old_match =? new_match then
      assert? (old_match =? contains neighbour (connectmap client)) in Some (st, [])
    else if GNUNET_NO =? old_match then
      assert? (GNUNET_NO =? contains neighbour (connectmap client)) in
      Some (set_store (<[id := set_connectmap ({[neighbour]} ∪ connectmap client) client]> (client_store st)) st,
            [SendNotifyConnect id neighbour])
    else
      assert? (GNUNET_YES =? contains neighbour (connectmap client)) in
      Some (set_store (<[id := set_connectmap (connectmap client ∖ {[neighbour]}) client]> (client_store st)) st,
            [SendNotifyDisconnect id neighbour]).

Definition GSC_CLIENTS_notify_clients_about_neighbour (neighbour : list Z) (tmap_old tmap_new : option (list Z))
    (st : CoreState) : result :=
  for_each (GSC_CLIENTS_notify_client_about_neighbour neighbour tmap_old tmap_new) (client_list st) st.

(** ** What sessions emit *)

(** The request is removed from the map of its client, which has it. *)
Definition forget_request (id : Z) (peer : list Z) (rid : Z) (st : CoreState) : option CoreState :=
  let? client := client_store st !! id in
  let? requests := c_requests client in
  assert? bool_decide (requests !! peer = Some rid) in
  Some (set_store (<[id := set_requests_of (Some (delete peer requests)) client]> (client_store st)) st).

(** [client_drop] is [client_disconnect_cb], which [GNUNET_SERVICE_client_drop] calls. *)
Definition GSC_CLIENTS_reject_request (client_drop : Z -> CoreState -> result) (car : GSC_ClientActiveRequest)
    (drop_client : Z) (st : CoreState) : result :=
  let? st := forget_request (car_client car) (car_target car) (car_id car) st in
  if GNUNET_YES =? drop_client
  then and_then (Some (st, [DropClient (car_client car)])) (client_drop (car_client car))
  else Some (st, []).

Definition session_call (client_drop : Z -> CoreState -> result) (peer : list Z) (e : session_event) (st : CoreState)
  : result :=
  match e with
  | SolicitRequest car => Some (st, [SendReady (car_client car) (car_target car) (car_msize car)])
  | RejectRequest car drop_client => GSC_CLIENTS_reject_request client_drop car drop_client st
  | EncryptAndTransmit payload => Some (st, [KxTransmit peer payload])
  | NotifyClients tmap_old tmap_new => GSC_CLIENTS_notify_clients_about_neighbour peer tmap_old tmap_new st
  end.

Definition session_env (env : CoreEnv) (peer : list Z) (st : CoreState) : SessionEnv :=
  mk_env (ce_now env) (ce_queue_length env peer) (ce_excess env peer)
    (fun id => match client_store st !! id with
               | Some c => bool_decide (peer ∈ connectmap c)
               | None => false
               end).

(** An operation on the sessions, with what it calls. *)
Definition with_sessions (client_drop : Z -> CoreState -> result) (peer : list Z)
    (f : sessions_map -> option (sessions_map * list session_event)) (st : CoreState) : result :=
  let? (m, ev) := f (core_sessions st) in
  for_each (session_call client_drop peer) ev (set_sessions m st).

(** Only [GSC_SESSIONS_queue_request] drops clients. *)
Definition no_drop (id : Z) (st : CoreState) : result := None.

Definition dequeue_request (env : CoreEnv) (id : Z) (peer : list Z) (rid : Z) (st : CoreState) : result :=
  with_sessions no_drop peer
    (GSC_SESSIONS_dequeue_request (session_env env peer st) GSC_my_identity (mk_car rid id peer 0 0 0)) st.

Definition GSC_SESSIONS_broadcast_typemap (env : CoreEnv) (msg : list Z) (st : CoreState) : result :=
  for_each (fun peer st => with_sessions no_drop peer (fun m =>
      let? s := m !! peer in on_session peer (do_restart_typemap_message (session_env env peer st) msg) m s) st)
    (order Session (core_sessions st)) st.

Definition GSC_SESSIONS_notify_client_about_sessions (id : Z) (st : CoreState) : result :=
  for_each (fun peer st =>
      let? s := core_sessions st !! peer in
      GSC_CLIENTS_notify_client_about_neighbour peer None (Some (s_tmap s)) id st)
    (order Session (core_sessions st)) st.

(** The type map has been changed; the new one is broadcast if there is a message. *)
Definition typemap_changed (env : CoreEnv) (r : option (TypeMapState * option (list Z))) (st : CoreState) : result :=
  let? (tms, hdr) := r in
  match hdr with
  | Some msg => GSC_SESSIONS_broadcast_typemap env msg (set_typemap tms st)
  | None => Some (set_typemap tms st, [])
  end.

(** ** Clients come and go *)

Definition client_connect_cb (id : Z) (st : CoreState) : result :=
  Some (set_list (id :: client_list st)
          (set_store (<[id := mk_client None None ∅ 0 GNUNET_NO]> (client_store st)) st), []).

Definition destroy_active_client_request (env : CoreEnv) (id : Z) (key : list Z) (st : CoreState) : result :=
  let? client := client_store st !! id in
  let? requests := c_requests client in
  let? rid := requests !! key in
  let? st := forget_request id key rid st in
  dequeue_request env id key rid st.

Definition client_disconnect_cb (env : CoreEnv) (id : Z) (st : CoreState) : result :=
  let? c := client_store st !! id in
  and_then
    (match c_requests c with
     | Some requests => for_each (destroy_active_client_request env id) (order Z requests)
                          (set_list (filter (fun i => i <> id) (client_list st)) st)
     | None => Some (set_list (filter (fun i => i <> id) (client_list st)) st, [])
     end)
    (fun st => and_then
       (match c_types c with
        | Some types => typemap_changed env (GSC_TYPEMAP_remove types (core_typemap st)) st
        | None => Some (st, [])
        end)
       (fun st =>
          let store := delete id (client_store st) in
          Some (set_options (fold_left (fun o i => Z.lor o (match store !! i with Some c => c_options c | None => 0 end))
                               (client_list st) 0) (set_store store st), []))).

Definition handle_client_init (env : CoreEnv) (id options : Z) (types : list Z) (st : CoreState) : result :=
  let? c := client_store st !! id in
  assert? (GNUNET_NO =? contains GSC_my_identity (connectmap c)) in
  let c := mk_client (Some types) (c_requests c) ({[GSC_my_identity]} ∪ connectmap c) options GNUNET_YES in
  let st := set_options (Z.lor (all_client_options st) options) (set_store (<[id := c]> (client_store st)) st) in
  and_then (typemap_changed env (GSC_TYPEMAP_add types (core_typemap st)) st)
    (fun st => and_then (Some (st, [SendInitReply id])) (GSC_SESSIONS_notify_client_about_sessions id)).

(** ** Requests *)

(** [GSC_CLIENTS_solicit_request] for a request to the peer itself, which is in no session. *)
Definition solicit_loopback (id : Z) (peer : list Z) (msize : Z) (st : CoreState) : result :=
  let? c := client_store st !! id in
  assert? (GNUNET_YES =? contains peer (connectmap c)) in
  Some (st, [SendReady id peer msize]).

(** [addr] is the address of a new request. *)
Definition handle_client_send_request (env : CoreEnv) (id addr : Z) (peer : list Z) (priority msize : Z)
    (st : CoreState) : result :=
  let? c := client_store st !! id in
  let requests := default ∅ (c_requests c) in
  let st := set_store (<[id := set_requests_of (Some requests) c]> (client_store st)) st in
  let is_loopback := bool_decide (peer = GSC_my_identity) in
  if negb is_loopback && negb (GNUNET_YES =? contains peer (connectmap c)) then Some (st, [])
  else
    and_then
      (match requests !! peer with
       | None => Some (set_store (<[id := set_requests_of (Some (<[peer := addr]> requests)) c]> (client_store st)) st, [])
       | Some rid => dequeue_request env id peer rid st
       end)
      (fun st =>
         if is_loopback then solicit_loopback id peer msize st
         else
           let car := mk_car (default addr (requests !! peer)) id peer priority GNUNET_NO msize in
           with_sessions (client_disconnect_cb env) peer
             (GSC_SESSIONS_queue_request (session_env env peer st) car) st).

(** ** Messages *)

Definition type_match (type : Z) (c : GSC_Client) : Z :=
  if (0 =? tcnt c) && negb (0 =? c_options c) then GNUNET_YES
  else if existsb (Z.eqb type) (types_of c) then GNUNET_YES else GNUNET_NO.

Definition has_option (options flag : Z) : bool := negb (0 =? Z.land options flag).

(** The loop of [GSC_CLIENTS_deliver_message], for one client. *)
Definition deliver_to_client (env : CoreEnv) (sender msg : list Z) (msize options : Z) (id : Z) (st : CoreState)
  : result :=
  let? c := client_store st !! id in
  let tm := type_match (msg_type msg) c in
  if negb (has_option (c_options c) options
           || (has_option options GNUNET_CORE_OPTION_SEND_FULL_INBOUND && (GNUNET_YES =? tm))) then Some (st, [])
  else if has_option options GNUNET_CORE_OPTION_SEND_HDR_INBOUND
          && (has_option (c_options c) GNUNET_CORE_OPTION_SEND_FULL_INBOUND || (GNUNET_YES =? tm)) then Some (st, [])
  else if has_option options GNUNET_CORE_OPTION_SEND_HDR_OUTBOUND
          && has_option (c_options c) GNUNET_CORE_OPTION_SEND_FULL_OUTBOUND then Some (st, [])
  else if MAX_QUEUE <? ce_mq_length env id msg options then Some (st, [])
  else
    let mtype := if has_option options (Z.lor GNUNET_CORE_OPTION_SEND_FULL_INBOUND GNUNET_CORE_OPTION_SEND_HDR_INBOUND)
                 then GNUNET_MESSAGE_TYPE_CORE_NOTIFY_INBOUND else GNUNET_MESSAGE_TYPE_CORE_NOTIFY_OUTBOUND in
    assert? (negb (has_option (c_options c) GNUNET_CORE_OPTION_SEND_FULL_INBOUND)
             || negb (GNUNET_YES =? tm)
             || (GNUNET_YES =? contains sender (connectmap c))) in
    Some (st, [SendNotifyTraffic id mtype sender (take (Z.to_nat msize) msg)]).

Definition GSC_CLIENTS_deliver_message (env : CoreEnv) (sender msg : list Z) (msize options : Z) (st : CoreState)
  : result :=
  if GNUNET_SERVER_MAX_MESSAGE_SIZE <=? msize + sizeof_NotifyTrafficMessage then Some (st, [])
  else if negb (has_option (all_client_options st) options
                || has_option options GNUNET_CORE_OPTION_SEND_FULL_INBOUND) then Some (st, [])
  else
    and_then (with_sessions no_drop sender (GSC_SESSIONS_add_to_typemap GSC_my_identity sender (msg_type msg)) st)
      (fun st => for_each (deliver_to_client env sender msg msize options) (client_list st) st).

(** Delivery in full and of the header only. *)
Definition deliver_both (env : CoreEnv) (sender msg : list Z) (full hdr : Z) (st : CoreState) : result :=
  and_then (GSC_CLIENTS_deliver_message env sender msg (msg_size msg) full st)
    (GSC_CLIENTS_deliver_message env sender msg sizeof_MessageHeader hdr).

(** The request is that of client [id], with address [rid] and target [target]. *)
Definition tokenized_cb (env : CoreEnv) (id rid : Z) (target : list Z) (cork priority : Z) (message : list Z)
    (st : CoreState) : result :=
  and_then (deliver_both env target message GNUNET_CORE_OPTION_SEND_FULL_OUTBOUND
              GNUNET_CORE_OPTION_SEND_HDR_OUTBOUND st)
    (fun st =>
       if bool_decide (target = GSC_my_identity)
       then deliver_both env target message GNUNET_CORE_OPTION_SEND_FULL_INBOUND
              GNUNET_CORE_OPTION_SEND_HDR_INBOUND st
       else with_sessions no_drop target
              (GSC_SESSIONS_transmit (session_env env target st) (mk_car rid id target 0 0 0) message cork priority) st).

(** [data] follows the [struct SendMessage] in memory at address [buf]. The state that the
    callback of the tokenizer changes is its closure. *)
Definition handle_client_send (ALIGN_FACTOR : Z) (fresh : nat -> Z) (env : CoreEnv) (id : Z) (peer : list Z)
    (priority cork buf : Z) (data : list Z) (st : CoreState) : result :=
  let? c := client_store st !! id in
  let? requests := c_requests c in
  match requests !! peer with
  | None => Some (st, [])
  | Some rid =>
      let? st := forget_request id peer rid st in
      let cb (cls : result) (m : list Z) := (and_then cls (tokenized_cb env id rid peer cork priority m), GNUNET_OK) in
      let? (_, cls, _) := GNUNET_MST_from_buffer ALIGN_FACTOR fresh cb GNUNET_MST_create (Some (st, [])) buf data
                            true GNUNET_NO in
      and_then cls (dequeue_request env id peer rid)
  end.

End Clients.

(** ** Type maps and clients *)

Lemma test_match_loop_total tm types : length tm = TYPEMAP_WORDS -> Forall is_u16 types ->
  test_match_loop tm types = Some GNUNET_YES \/ test_match_loop tm types = Some GNUNET_NO.
Proof.
  intros Hl. induction 1 as [|t types Ht _ IH]; cbn [test_match_loop]; [by right|].
  destruct (lookup_lt_is_Some_2 tm (Z.to_nat (t / 32))) as [w ->]; [rewrite Hl; by apply word_index|].
  case_if; [by left|done].
Qed.

Lemma test_match_total tmap types : (forall tm, tmap = Some tm -> length tm = TYPEMAP_WORDS) -> Forall is_u16 types ->
  GSC_TYPEMAP_test_match tmap types = Some GNUNET_YES \/ GSC_TYPEMAP_test_match tmap types = Some GNUNET_NO.
Proof.
  intros Hl Ht. destruct tmap as [tm|]; [|by right]. cbn [GSC_TYPEMAP_test_match].
  destruct types; [by left|]. apply test_match_loop_total; [by apply Hl|done].
Qed.

Section Invariant.
Context (me : list Z).

(** The client knows a neighbour by its type map. *)
Definition neighbour_of (V : gmap (list Z) (list Z)) (c : GSC_Client) (p : list Z) : Prop :=
  GSC_TYPEMAP_test_match (V !! p) (types_of c) = Some GNUNET_YES.

(** A client is connected to the peer itself and to the neighbours that handle one of its
    types; before it is initialised it is connected to none. *)
Record conn_ok (V : gmap (list Z) (list Z)) (c : GSC_Client) : Prop := {
  co_init : got_init c = GNUNET_YES -> me ∈ connectmap c
    /\ forall p, p <> me -> p ∈ connectmap c <-> neighbour_of V c p;
  co_fresh : got_init c <> GNUNET_YES -> connectmap c = ∅ /\ c_options c = 0;
}.

(** Sessions and clients have the same requests, but for [xcar], which its client has
    given up, and for [xreq], which the session has given up. *)
Record core_inv (xcar : option (Z * list Z * Z)) (xreq : option (Z * list Z)) (st : CoreState) : Prop := {
  ci_list : forall id, id ∈ client_list st -> is_Some (client_store st !! id);
  ci_nodup : NoDup (client_list st);
  ci_me : core_sessions st !! me = None;
  ci_sessions : sessions_ok (core_sessions st);
  ci_types : forall id c, client_store st !! id = Some c -> Forall is_u16 (types_of c);
  ci_queued : forall p s car, core_sessions st !! p = Some s -> car ∈ active_client_requests s ->
    car_target car = p
    /\ (xcar = Some (car_client car, p, car_id car) /\ was_solicited car = GNUNET_YES
        \/ exists c rq, client_store st !! car_client car = Some c /\ c_requests c = Some rq
           /\ rq !! p = Some (car_id car));
  ci_ids : forall p s, core_sessions st !! p = Some s -> NoDup (map car_id (active_client_requests s));
  ci_waiting : forall id c rq p rid, client_store st !! id = Some c -> c_requests c = Some rq ->
    rq !! p = Some rid -> p <> me -> xreq <> Some (id, p) ->
    exists s car, core_sessions st !! p = Some s /\ car ∈ active_client_requests s
      /\ car_id car = rid /\ car_client car = id;
  ci_absent : forall id p rid i c rq, xcar = Some (id, p, rid) -> client_store st !! i = Some c ->
    c_requests c = Some rq -> rq !! p <> Some rid;
  ci_unqueued : forall id p s car c rq, xreq = Some (id, p) -> core_sessions st !! p = Some s ->
    car ∈ active_client_requests s -> client_store st !! id = Some c -> c_requests c = Some rq -> rq !! p <> Some (car_id car);
  ci_typemap : length (my_type_map (core_typemap st)) = TYPEMAP_WORDS;
}.

(** The clients in the list know the neighbours with the type maps in [V]. *)
Definition conns (V : gmap (list Z) (list Z)) (st : CoreState) : Prop :=
  forall id c, id ∈ client_list st -> client_store st !! id = Some c -> conn_ok V c.

(** *** Notifications *)

Definition change (p : list Z) (new : option (list Z)) (V : gmap (list Z) (list Z)) : gmap (list Z) (list Z) :=
  partial_alter (fun _ => new) p V.

Lemma conn_ok_change V c p new m : conn_ok V c -> p <> me -> got_init c = GNUNET_YES ->
  (forall q, q <> p -> q ∈ m <-> q ∈ connectmap c) ->
  (p ∈ m <-> GSC_TYPEMAP_test_match new (types_of c) = Some GNUNET_YES) ->
  conn_ok (change p new V) (set_connectmap m c).
Proof.
  intros [Hi _] Hp Hg Hm Hn. destruct (Hi Hg) as [Hme Hq]. split; [|by cbn].
  intros _. cbn [set_connectmap connectmap]. split; [by apply Hm|]. intros q Hqne.
  unfold neighbour_of, change. cbn [set_connectmap types_of c_types].
  destruct (decide (q = p)) as [->|Hqp].
  - rewrite lookup_partial_alter_eq. done.
  - rewrite lookup_partial_alter_ne by done. rewrite Hm by done. by apply Hq.
Qed.

Lemma notify_client_ok V p new id c st : client_store st !! id = Some c -> conn_ok V c -> p <> me ->
  Forall is_u16 (types_of c) ->
  (forall q tm, V !! q = Some tm -> length tm = TYPEMAP_WORDS) -> (forall tm, new = Some tm -> length tm = TYPEMAP_WORDS) ->
  exists m e, GSC_CLIENTS_notify_client_about_neighbour p (V !! p) new id st
    = Some (set_store (<[id := set_connectmap m c]> (client_store st)) st, e)
    /\ conn_ok (change p new V) (set_connectmap m c).
Proof.
  intros Hc Hok Hp Ht Hl Hn. unfold GSC_CLIENTS_notify_client_about_neighbour. rewrite Hc.
  assert (Hsame : set_store (<[id := set_connectmap (connectmap c) c]> (client_store st)) st = st).
  { destruct st, c. unfold set_store, set_connectmap. cbn in *. by rewrite insert_id. }
  destruct (Z.eqb_spec GNUNET_YES (got_init c)) as [Hg|Hg]; cbn [negb].
  2: { exists (connectmap c), []. rewrite Hsame. split; [done|]. destruct Hok as [_ Hf].
       split; [|done]. intros E. cbn in E. congruence. }
  symmetry in Hg. destruct (co_init _ _ Hok Hg) as [Hme Hq]. specialize (Hq p Hp). unfold neighbour_of in Hq.
  pose proof (test_match_total (V !! p) (types_of c) ltac:(apply Hl) Ht) as Hold.
  pose proof (test_match_total new (types_of c) Hn Ht) as Hnew.
  assert (Hctn : contains p (connectmap c) = GNUNET_YES /\ p ∈ connectmap c
                 \/ contains p (connectmap c) = GNUNET_NO /\ p ∉ connectmap c)
    by (unfold contains; case_bool_decide; auto).
  destruct Hold as [Eo|Eo], Hnew as [En|En]; rewrite Eo, En in *; cbn [Z.eqb GNUNET_YES GNUNET_NO Pos.eqb];
    destruct Hctn as [[-> Hin]|[-> Hin]]; cbn [Z.eqb GNUNET_YES GNUNET_NO Pos.eqb]; try (exfalso; tauto);
    try (exfalso; apply Hin; by apply Hq); try (exfalso; apply Hq in Hin; done).
  - exists (connectmap c), []. rewrite Hsame. split; [done|]. by apply conn_ok_change.
  - eexists _, _. split; [done|]. apply conn_ok_change; try done; [set_solver|]. rewrite En. split; [set_solver|done].
  - eexists _, _. split; [done|]. apply conn_ok_change; try done; [set_solver|]. rewrite En. split; [done|set_solver].
  - exists (connectmap c), []. rewrite Hsame. split; [done|]. apply conn_ok_change; try done.
    rewrite En. split; [by intros ?%Hin|done].
Qed.

(** Only the map of connected peers is changed, in the clients of a list. *)
Lemma notify_list_ok V p new l st : NoDup l -> p <> me ->
  (forall q tm, V !! q = Some tm -> length tm = TYPEMAP_WORDS) -> (forall tm, new = Some tm -> length tm = TYPEMAP_WORDS) ->
  (forall id, id ∈ l -> exists c, client_store st !! id = Some c /\ conn_ok V c /\ Forall is_u16 (types_of c)) ->
  exists store e, for_each (GSC_CLIENTS_notify_client_about_neighbour p (V !! p) new) l st = Some (set_store store st, e)
    /\ (forall id, id ∉ l -> store !! id = client_store st !! id)
    /\ (forall id, id ∈ l -> exists c m, client_store st !! id = Some c /\ store !! id = Some (set_connectmap m c)
          /\ conn_ok (change p new V) (set_connectmap m c)).
Proof.
  intros Hl Hp HV Hn. revert st. induction Hl as [|id l Hid _ IH]; intros st Hs.
  { exists (client_store st), []. split_and!; [by destruct st|done|]. intros id Hid. by apply elem_of_nil in Hid. }
  destruct (Hs id) as (c & Hc & Hok & Ht); [by left|].
  destruct (notify_client_ok V p new id c st Hc Hok Hp Ht HV Hn) as (m & e & E & Hok').
  destruct (IH (set_store (<[id := set_connectmap m c]> (client_store st)) st)) as (store & e' & E' & Hout & Hin).
  { intros i Hi. destruct (Hs i) as (ci & Hci & ?); [by right|]. exists ci. split; [|done].
    cbn [set_store client_store]. rewrite lookup_insert_ne; [done|]. by intros ->. }
  exists store, (e ++ e'). cbn [for_each]. unfold and_then at 1. rewrite E, E'. split_and!; [done|..].
  - intros i Hi. apply not_elem_of_cons in Hi as [Hne Hi]. rewrite Hout by done. cbn. by rewrite lookup_insert_ne.
  - intros i [->|Hi]%elem_of_cons.
    + exists c, m. split_and!; [done| |done]. rewrite Hout by done. cbn. by rewrite lookup_insert_eq.
    + destruct (Hin i Hi) as (ci & mi & Hci & ?). exists ci, mi. split; [|done]. cbn in Hci.
      rewrite lookup_insert_ne in Hci; [done|]. by intros ->.
Qed.

(** The parts of the state that events of sessions do not change. *)
Definition same_frame (st st' : CoreState) : Prop :=
  client_list st' = client_list st /\ all_client_options st' = all_client_options st
  /\ core_sessions st' = core_sessions st /\ core_typemap st' = core_typemap st
  /\ (forall id, option_Forall2 (fun c c' => c_types c' = c_types c /\ c_options c' = c_options c /\ got_init c' = got_init c
        /\ (c_requests c = None <-> c_requests c' = None)) (client_store st !! id) (client_store st' !! id)).

Lemma same_frame_refl st : same_frame st st.
Proof.
  split_and!; try done. intros id. destruct (client_store st !! id); by constructor.
Qed.

Lemma same_frame_trans a b c : same_frame a b -> same_frame b c -> same_frame a c.
Proof.
  intros (A1 & A2 & A3 & A4 & A5) (B1 & B2 & B3 & B4 & B5). split_and!; try congruence.
  intros id. specialize (A5 id). specialize (B5 id).
  inversion A5 as [x y (X1 & X2 & X3 & X4) Ex Ey|Ex Ey]; rewrite <- Ey in B5; inversion B5 as [x' y' (Y1 & Y2 & Y3 & Y4) Ex' Ey'|]; constructor.
  split_and!; try congruence. tauto.
Qed.

Lemma notify_clients_ok xc xr V p new st : core_inv xc xr st -> conns V st -> p <> me ->
  (forall q tm, V !! q = Some tm -> length tm = TYPEMAP_WORDS) -> (forall tm, new = Some tm -> length tm = TYPEMAP_WORDS) ->
  exists st' e, GSC_CLIENTS_notify_clients_about_neighbour p (V !! p) new st = Some (st', e)
    /\ core_inv xc xr st' /\ conns (change p new V) st' /\ same_frame st st'.
Proof.
  intros [L N M S Y Q I W X U K] C Hp T Hn.
  destruct (notify_list_ok V p new (client_list st) st N Hp T Hn) as (store & e & E & Hout & Hin).
  { intros id Hid. destruct (L id Hid) as [c Hc]. exists c. split_and!; [done|by eapply C|by eapply Y]. }
  assert (Hst : forall id, exists f, (forall c, exists m, f c = set_connectmap m c) /\ store !! id = f <$> client_store st !! id).
  { intros id. destruct (decide (id ∈ client_list st)) as [Hid|Hid].
    - destruct (Hin id Hid) as (c & m & Hc & Hs & _). exists (set_connectmap m). split; [by eexists|]. by rewrite Hc, Hs.
    - exists (fun c => set_connectmap (connectmap c) c). split; [by eexists|]. rewrite (Hout id Hid).
      destruct (client_store st !! id) as [[]|]; done. }
  assert (Hback : forall id c', store !! id = Some c' -> exists c m, client_store st !! id = Some c /\ c' = set_connectmap m c).
  { intros id c' Hc'. destruct (Hst id) as (f & Hf & Ef). rewrite Ef in Hc'.
    destruct (client_store st !! id) as [c|]; [|done]. injection Hc' as <-. destruct (Hf c) as [m ->]. by exists c, m. }
  assert (Hfwd : forall id c, client_store st !! id = Some c -> exists m, store !! id = Some (set_connectmap m c)).
  { intros id c Hc. destruct (Hst id) as (f & Hf & Ef). rewrite Ef, Hc. destruct (Hf c) as [m Em]. exists m. cbn. by rewrite Em. }
  exists (set_store store st), e. split_and!; [exact E| | |].
  - split; cbn [set_store client_store client_list core_sessions core_typemap]; try done.
    + intros id Hid. destruct (L id Hid) as [c Hc]. destruct (Hfwd id c Hc) as [m ->]. by eexists.
    + intros id c' Hc'. destruct (Hback id c' Hc') as (c & m & Hc & ->). exact (Y id c Hc).
    + intros q s car Hs Hcar. destruct (Q q s car Hs Hcar) as [Ht [Hx|(c & rq & Hc & Hrq & Hid)]]; [auto|].
      split; [done|right]. destruct (Hfwd _ c Hc) as [m ->]. eexists _, _. done.
    + intros id c' rq q rid Hc'. destruct (Hback id c' Hc') as (c & m & Hc & ->). exact (W id c rq q rid Hc).
    + intros id q rid i c' rq Hx Hc'. destruct (Hback i c' Hc') as (c & m & Hc & ->). exact (X id q rid i c rq Hx Hc).
    + intros id q s car c' rq Hx Hs Hcar Hc'. destruct (Hback id c' Hc') as (c & m & Hc & ->). exact (U id q s car c rq Hx Hs Hcar Hc).
  - intros id c' Hid Hc'. destruct (Hin id Hid) as (c & m & Hc & Hs & Hok). cbn in Hc'. rewrite Hs in Hc'. by injection Hc' as <-.
  - split_and!; try done. intros id. cbn. destruct (Hst id) as (f & Hf & ->).
    destruct (client_store st !! id) as [c|]; constructor. by destruct (Hf c) as [m ->].
Qed.

(** *** Transmissions *)

Definition has_request (store : gmap Z GSC_Client) (car : GSC_ClientActiveRequest) : Prop :=
  exists c rq, store !! car_client car = Some c /\ c_requests c = Some rq /\ rq !! car_target car = Some (car_id car).

Lemma forget_request_ok id peer rid c rq st : client_store st !! id = Some c -> c_requests c = Some rq ->
  rq !! peer = Some rid ->
  forget_request id peer rid st
  = Some (set_store (<[id := set_requests_of (Some (delete peer rq)) c]> (client_store st)) st).
Proof. intros Hc Hrq Hr. unfold forget_request. by rewrite Hc, Hrq, bool_decide_true. Qed.

(** The requests that are rejected are taken from their clients. *)
Record forgotten (p : list Z) (cars : list GSC_ClientActiveRequest) (store store' : gmap Z GSC_Client) : Prop := {
  fo_same : forall id, (forall car, car ∈ cars -> car_client car <> id) -> store' !! id = store !! id;
  fo_gone : forall car, car ∈ cars -> exists c rq, store !! car_client car = Some c /\ c_requests c = Some rq
    /\ store' !! car_client car = Some (set_requests_of (Some (delete p rq)) c);
}.

Lemma forgotten_dec (cars : list GSC_ClientActiveRequest) id : (exists car, car ∈ cars /\ car_client car = id)
  \/ (forall car, car ∈ cars -> car_client car <> id).
Proof.
  destruct (decide (id ∈ map car_client cars)) as [Hin|Hin].
  - left. apply list_elem_of_In, in_map_iff in Hin as (car & E & Hcar). exists car. split; [by apply list_elem_of_In|done].
  - right. intros car Hcar <-. apply Hin. by apply list_elem_of_In, in_map, list_elem_of_In.
Qed.

(** What is left of a client. *)
Definition remains (p : list Z) (cars : list GSC_ClientActiveRequest) (id : Z) (c c' : GSC_Client) : Prop :=
  c' = c /\ (forall car, car ∈ cars -> car_client car <> id)
  \/ exists rq, c_requests c = Some rq /\ c' = set_requests_of (Some (delete p rq)) c.

Lemma forgotten_back p cars store store' id c' : forgotten p cars store store' -> store' !! id = Some c' ->
  exists c, store !! id = Some c /\ remains p cars id c c'.
Proof.
  intros [Hs Hg] Hc'. destruct (forgotten_dec cars id) as [(car & Hcar & <-)|Hne].
  - destruct (Hg car Hcar) as (c & rq & Hc & Hrq & E). exists c. split; [done|]. right. exists rq. split; [done|]. congruence.
  - rewrite (Hs id Hne) in Hc'. exists c'. split; [done|]. by left.
Qed.

Lemma forgotten_fwd p cars store store' id c : forgotten p cars store store' -> store !! id = Some c ->
  exists c', store' !! id = Some c' /\ remains p cars id c c'.
Proof.
  intros [Hs Hg] Hc. destruct (forgotten_dec cars id) as [(car & Hcar & <-)|Hne].
  - destruct (Hg car Hcar) as (c2 & rq & Hc2 & Hrq & E). eexists. split; [exact E|]. right. exists rq.
    assert (c2 = c) as -> by congruence. done.
  - exists c. rewrite (Hs id Hne). split; [done|]. by left.
Qed.

(** The events of a transmission do that and no more. *)
Lemma harmless_ok drop p ev st : Forall harmless ev -> NoDup (map car_id (rejected ev)) ->
  (forall car, car ∈ rejected ev -> car_target car = p /\ has_request (client_store st) car) ->
  exists store e, for_each (session_call drop p) ev st = Some (set_store store st, e)
    /\ forgotten p (rejected ev) (client_store st) store.
Proof.
  intros Hh. revert st. induction Hh as [|x ev Hx _ IH]; intros st Hn Hr.
  { exists (client_store st), []. split; [by destruct st|]. split; [done|]. intros car Hc. by apply elem_of_nil in Hc. }
  assert (Hplain : forall e0, rejected (x :: ev) = rejected ev -> session_call drop p x st = Some (st, e0) ->
    exists store e, for_each (session_call drop p) (x :: ev) st = Some (set_store store st, e)
      /\ forgotten p (rejected (x :: ev)) (client_store st) store).
  { intros e0 Er Ec. rewrite Er in *. destruct (IH st Hn Hr) as (store & e & E & Hf). exists store, (e0 ++ e).
    cbn [for_each]. unfold and_then at 1. by rewrite Ec, E. }
  destruct x as [car|car d|payload|old new]; [by eapply Hplain| |by eapply Hplain|done]. cbn in Hx. subst d. clear Hplain.
  cbn [rejected map] in *. apply NoDup_cons in Hn as [Hni Hn].
  destruct (Hr car) as (Ht & c & rq & Hc & Hrq & Hid); [by left|].
  set (c' := set_requests_of (Some (delete p rq)) c).
  assert (Hother : forall car', car' ∈ rejected ev -> car_client car' <> car_client car).
  { intros car' Hc' Ecl. destruct (Hr car') as (Ht' & c2 & rq2 & Hc2 & Hrq2 & Hid2); [by right|]. apply Hni.
    apply list_elem_of_In, in_map_iff. exists car'. split; [|by apply list_elem_of_In]. rewrite Ecl in Hc2.
    rewrite Ht in Hid. rewrite Ht' in Hid2. congruence. }
  destruct (IH (set_store (<[car_client car := c']> (client_store st)) st) Hn) as (store & e & E & [H1 H2]).
  { intros car' Hc'. destruct (Hr car') as (Ht' & c2 & rq2 & Hc2 & Hrest); [by right|]. split; [done|]. exists c2, rq2.
    split; [|done]. cbn. rewrite lookup_insert_ne; [done|]. intros Ecl. by apply (Hother car' Hc'). }
  exists store, e. split; [|split].
  - cbn [for_each session_call]. unfold GSC_CLIENTS_reject_request. rewrite Ht in Hid |- *.
    rewrite (forget_request_ok _ _ _ c rq st Hc Hrq Hid).
    fold c'. change (GNUNET_YES =? GNUNET_NO) with false. unfold and_then at 1. by rewrite E.
  - intros id Hne. rewrite H1 by (intros car' Hc'; apply Hne; by right). cbn.
    rewrite lookup_insert_ne; [done|]. apply Hne. by left.
  - intros car' [->|Hc']%elem_of_cons.
    + exists c, rq. split_and!; [done|done|]. rewrite H1 by (intros car' Hc'; by apply Hother). cbn. by rewrite lookup_insert_eq.
    + destruct (H2 car' Hc') as (c2 & rq2 & Hc2 & ?). exists c2, rq2. split; [|done]. cbn in Hc2.
      rewrite lookup_insert_ne in Hc2; [done|]. intros Ecl. by apply (Hother car' Hc').
Qed.

Lemma NoDup_ids_filter (P : GSC_ClientActiveRequest -> Prop) `{!forall x, Decision (P x)} l :
  NoDup (map car_id l) -> NoDup (map car_id (filter P l)).
Proof.
  induction l as [|c l IH]; intros Hn; [done|]. cbn [map] in Hn. apply NoDup_cons in Hn as [Hni Hn].
  rewrite filter_cons. destruct (decide (P c)); [|by apply IH]. cbn [map]. apply NoDup_cons. split; [|by apply IH].
  intros Hin. apply Hni. apply list_elem_of_In, in_map_iff in Hin as (d & E & Hd). rewrite <- E.
  apply list_elem_of_In in Hd. apply list_elem_of_filter in Hd as [_ Hd]. by apply list_elem_of_In, in_map, list_elem_of_In.
Qed.

Lemma map_id_unmarked l : map car_id (map unmarked l) = map car_id l.
Proof. rewrite map_map. by apply map_ext. Qed.

Lemma same_id_same (l : list GSC_ClientActiveRequest) a b : NoDup (map car_id l) -> a ∈ l -> b ∈ l ->
  car_id a = car_id b -> a = b.
Proof.
  intros Hn Ha Hb E. apply list_elem_of_lookup in Ha as [i Hi]. apply list_elem_of_lookup in Hb as [j Hj].
  change (NoDup (car_id <$> l)) in Hn.
  assert (i = j) as ->; [|congruence]. apply (NoDup_lookup _ i j (car_id a) Hn); rewrite list_lookup_fmap.
  - by rewrite Hi.
  - rewrite Hj. cbn. by rewrite E.
Qed.

(** The requests of a session before and after a transmission. *)
Lemma served_requests s s' ev : served s s' ev -> NoDup (map car_id (active_client_requests s)) ->
  NoDup (map car_id (active_client_requests s'))
  /\ (forall c', c' ∈ active_client_requests s' -> exists c, c ∈ active_client_requests s /\ unmarked c = unmarked c'
        /\ (car_id c ∉ map car_id (rejected ev)) /\ (was_solicited c = GNUNET_YES -> was_solicited c' = GNUNET_YES))
  /\ (forall c, c ∈ active_client_requests s -> car_id c ∉ map car_id (rejected ev) ->
        exists c', (c' ∈ active_client_requests s') /\ unmarked c' = unmarked c).
Proof.
  intros [_ L R N M] Hn.
  split_and!.
  - rewrite <- map_id_unmarked, L. apply NoDup_ids_filter. by rewrite map_id_unmarked.
  - intros c' Hc'. assert (Hu : unmarked c' ∈ map unmarked (active_client_requests s'))
      by (apply list_elem_of_In, in_map, list_elem_of_In, Hc').
    rewrite L in Hu. apply list_elem_of_filter in Hu as [Hr Hu].
    apply list_elem_of_In, in_map_iff in Hu as (c & Eu & Hc). apply list_elem_of_In in Hc.
    exists c. split_and!; [done|done|by rewrite (unmarked_id c c' Eu)|]. intros Hs.
    destruct (decide (was_solicited c' = GNUNET_YES)) as [|Hne]; [done|]. pose proof (M c' Hc' Hne) as Hc2.
    by rewrite (same_id_same _ c c' Hn Hc Hc2 (unmarked_id c c' Eu)) in Hs.
  - intros c Hc Hr. assert (Hu : unmarked c ∈ map unmarked (active_client_requests s')).
    { rewrite L. apply list_elem_of_filter. split; [done|]. by apply list_elem_of_In, in_map, list_elem_of_In. }
    apply list_elem_of_In, in_map_iff in Hu as (c' & Eu & Hc'). exists c'. split; [by apply list_elem_of_In|done].
Qed.

Lemma unmarked_fields c d : unmarked c = unmarked d ->
  car_id c = car_id d /\ car_client c = car_client d /\ car_target c = car_target d.
Proof. by intros [= ? ? ? _ _]. Qed.

Section Transmission.
Context (xc : option (Z * list Z * Z)) (xr : option (Z * list Z)) (st : CoreState)
  (p : list Z) (s s' : Session) (ev : list session_event) (store : gmap Z GSC_Client).
Hypothesis Hinv : core_inv xc xr st.
Hypothesis Hs : core_sessions st !! p = Some s.
Hypothesis Hsv : served s s' ev.

(** What is rejected was queued, and not sent for. *)
Lemma rejected_known car : car ∈ rejected ev -> car_target car = p /\ has_request (client_store st) car.
Proof.
  intros Hc. destruct (sv_rejected _ _ _ Hsv car Hc) as (c & Hcs & Hns & Eu).
  destruct (unmarked_fields c car Eu) as (Ei & Ec & Et).
  destruct (ci_queued _ _ _ Hinv p s c Hs Hcs) as [Ht [[_ Hy]|(cl & rq & Hcl & Hrq & Hid)]]; [done|].
  rewrite Et in Ht. split; [done|]. exists cl, rq. rewrite <- Ec, Ht, <- Ei. done.
Qed.

Hypothesis Hfo : forgotten p (rejected ev) (client_store st) store.

Lemma queued_after q t car : <[p := s']> (core_sessions st) !! q = Some t -> car ∈ active_client_requests t ->
  car_target car = q
  /\ (xc = Some (car_client car, q, car_id car) /\ was_solicited car = GNUNET_YES
      \/ exists c rq, store !! car_client car = Some c /\ c_requests c = Some rq /\ rq !! q = Some (car_id car)).
Proof.
  intros Ht Hcar. pose proof (ci_queued _ _ _ Hinv) as Q. destruct (decide (q = p)) as [->|Hq].
  - destruct (served_requests s s' ev Hsv (ci_ids _ _ _ Hinv p s Hs)) as (_ & Hback & _).
    rewrite lookup_insert_eq in Ht. injection Ht as <-. destruct (Hback car Hcar) as (c & Hc & Eu & Hnr & Hmark).
    destruct (unmarked_fields c car Eu) as (Ei & Ec & Et).
    destruct (Q p s c Hs Hc) as [Hct [[Hx Hy]|(cl & rq & Hcl & Hrq & Hid)]].
    { split; [congruence|]. left. rewrite Ei, Ec in Hx. auto. }
    split; [congruence|]. right. rewrite <- Ec, <- Ei. exists cl, rq. split; [|done]. rewrite (fo_same _ _ _ _ Hfo); [done|].
    intros car2 Hr2 Ecl. destruct (rejected_known car2 Hr2) as (Ht2 & c2 & rq2 & Hc2 & Hrq2 & Hid2). apply Hnr.
    rewrite Ecl in Hc2. rewrite Ht2 in Hid2. assert (car_id car2 = car_id c) as <- by congruence.
    by apply list_elem_of_In, in_map, list_elem_of_In.
  - rewrite lookup_insert_ne in Ht by done.
    destruct (Q q t car Ht Hcar) as [Hct [Hx|(cl & rq & Hcl & Hrq & Hid)]]; [auto|]. split; [done|]. right.
    destruct (forgotten_fwd _ _ _ _ _ cl Hfo Hcl) as (c' & -> & [[-> _]|(rq2 & Hrq2 & ->)]); [by exists cl, rq|].
    eexists _, (delete p rq2). split_and!; [done|done|]. rewrite lookup_delete_ne by done. congruence.
Qed.

Lemma waiting_after id c' rq' q rid : store !! id = Some c' -> c_requests c' = Some rq' ->
  rq' !! q = Some rid -> q <> me -> xr <> Some (id, q) ->
  exists t car, <[p := s']> (core_sessions st) !! q = Some t /\ car ∈ active_client_requests t
    /\ car_id car = rid /\ car_client car = id.
Proof.
  intros Hc' Hrq' Hq Hme Hxr. destruct (forgotten_back _ _ _ _ _ c' Hfo Hc') as (c & Hc & Hcase).
  assert (Hold : exists rq, c_requests c = Some rq /\ rq !! q = Some rid
            /\ (q = p -> forall car, car ∈ rejected ev -> car_client car <> id)).
  { destruct Hcase as [[-> Hne]|(rq & Hrq & ->)]; [by exists rq'|]. exists rq. cbn in Hrq'. injection Hrq' as <-.
    destruct (decide (q = p)) as [->|Hqp]; [by rewrite lookup_delete_eq in Hq|].
    rewrite lookup_delete_ne in Hq by done. split_and!; [done|done|]. by intros ->. }
  destruct Hold as (rq & Hrq & Hrid & Hne).
  destruct (ci_waiting _ _ _ Hinv id c rq q rid Hc Hrq Hrid Hme Hxr) as (t & car & Ht & Hcar & Hi & Hcl).
  destruct (decide (q = p)) as [->|Hqp]; [|exists t, car; by rewrite lookup_insert_ne].
  assert (t = s) as -> by congruence. pose proof (ci_ids _ _ _ Hinv p s Hs) as Hids.
  destruct (served_requests s s' ev Hsv Hids) as (_ & _ & Hfwd). destruct (Hfwd car Hcar) as (car' & Hcar' & Eu).
  { intros Hin. apply list_elem_of_In, in_map_iff in Hin as (car2 & Ei2 & Hr2). apply list_elem_of_In in Hr2.
    destruct (sv_rejected _ _ _ Hsv car2 Hr2) as (c3 & Hc3 & _ & Eu3).
    destruct (unmarked_fields _ _ Eu3) as (Ei3 & Ec3 & _). apply (Hne eq_refl car2 Hr2).
    rewrite <- Ec3, <- Hcl. f_equal. apply (same_id_same _ _ _ Hids); [done|done|congruence]. }
  destruct (unmarked_fields _ _ Eu) as (Ei & Ec & _). exists s', car'. rewrite lookup_insert_eq.
  split_and!; [done|done|congruence|congruence].
Qed.

Lemma unqueued_after id q t car c' rq' : xr = Some (id, q) -> <[p := s']> (core_sessions st) !! q = Some t ->
  car ∈ active_client_requests t -> store !! id = Some c' -> c_requests c' = Some rq' -> rq' !! q <> Some (car_id car).
Proof.
  intros Hx Ht Hcar Hc' Hrq' Hr.
  assert (Hold : exists t0 car0, core_sessions st !! q = Some t0 /\ car0 ∈ active_client_requests t0 /\ car_id car0 = car_id car).
  { destruct (decide (q = p)) as [->|Hq]; [|rewrite lookup_insert_ne in Ht by done; eauto].
    rewrite lookup_insert_eq in Ht. injection Ht as <-.
    destruct (served_requests s s' ev Hsv (ci_ids _ _ _ Hinv p s Hs)) as (_ & Hback & _).
    destruct (Hback car Hcar) as (c & Hc & (Ei & _ & _)%unmarked_fields & _). eauto. }
  destruct Hold as (t0 & car0 & Ht0 & Hcar0 & Ei). rewrite <- Ei in Hr.
  destruct (forgotten_back _ _ _ _ id c' Hfo Hc') as (c & Hc & [[-> _]|(rq & Hrq & ->)]).
  - exact (ci_unqueued _ _ _ Hinv id q t0 car0 c rq' Hx Ht0 Hcar0 Hc Hrq' Hr).
  - cbn in Hrq'. injection Hrq' as <-. apply lookup_delete_Some in Hr as [_ Hr].
    exact (ci_unqueued _ _ _ Hinv id q t0 car0 c rq Hx Ht0 Hcar0 Hc Hrq Hr).
Qed.
End Transmission.

Definition request_of (store : gmap Z GSC_Client) (id : Z) (p : list Z) : option Z :=
  match store !! id with
  | Some c => match c_requests c with Some rq => rq !! p | None => None end
  | None => None
  end.

Lemma request_of_Some store id p r : request_of store id p = Some r <->
  exists c rq, store !! id = Some c /\ c_requests c = Some rq /\ rq !! p = Some r.
Proof.
  unfold request_of. split.
  - destruct (store !! id) as [c|]; [|done]. destruct (c_requests c) as [rq|] eqn:E; [|done]. eauto.
  - by intros (c & rq & -> & -> & ?).
Qed.

(** Clients and peers that are no target of a request. *)
Definition spared (p : list Z) (s : Session) (id : Z) (q : list Z) : Prop :=
  q <> p \/ forall car, car ∈ active_client_requests s -> car_client car <> id.

(** Requests are lost, but not those in [K]. *)
Definition kept (K : Z -> list Z -> Prop) (store store' : gmap Z GSC_Client) : Prop :=
  (forall id q, K id q -> request_of store' id q = request_of store id q)
  /\ forall id q, request_of store' id q = request_of store id q \/ request_of store' id q = None.

(** Clients may lose requests, but those in [K]; they stay otherwise as they are. *)
Definition quiet_frame (K : Z -> list Z -> Prop) (st st' : CoreState) : Prop :=
  kept K (client_store st) (client_store st') /\ client_list st' = client_list st
  /\ all_client_options st' = all_client_options st
  /\ core_sessions st' = core_sessions st /\ core_typemap st' = core_typemap st
  /\ (forall id, option_Forall2 (fun c c' => exists r, c' = set_requests_of r c /\ (c_requests c = None <-> r = None))
        (client_store st !! id) (client_store st' !! id)).

Lemma forgotten_kept p s s' ev store store' : served s s' ev -> forgotten p (rejected ev) store store' ->
  kept (spared p s) store store'.
Proof.
  intros Hsv Hfo. split; intros id q; [intros Hk|]; unfold request_of;
    (destruct (forgotten_dec (rejected ev) id) as [(car & Hcar & <-)|Hne];
     [destruct (fo_gone _ _ _ _ Hfo car Hcar) as (c & rq & -> & -> & ->); cbn|rewrite (fo_same _ _ _ _ Hfo id Hne); auto]).
  - destruct Hk as [Hq|Hne]; [by rewrite lookup_delete_ne|].
    destruct (sv_rejected _ _ _ Hsv car Hcar) as (car' & Hcar' & _ & (_ & Ec & _)%unmarked_fields).
    by destruct (Hne car' Hcar').
  - destruct (decide (q = p)) as [->|Hq]; [right; by rewrite lookup_delete_eq|left; by rewrite lookup_delete_ne].
Qed.

(** A transmission of a session, with what it calls, keeps the invariant. *)
Lemma transmission_ok drop xc xr p s s' ev st : core_inv xc xr st -> core_sessions st !! p = Some s ->
  served s s' ev -> session_ok p s' ->
  exists st' e, for_each (session_call drop p) ev (set_sessions (<[p := s']> (core_sessions st)) st) = Some (st', e)
    /\ core_inv xc xr st' /\ quiet_frame (spared p s) (set_sessions (<[p := s']> (core_sessions st)) st) st'.
Proof.
  intros Hinv Hs Hsv Hok. set (st1 := set_sessions (<[p := s']> (core_sessions st)) st).
  pose proof (rejected_known xc xr st p s s' ev Hinv Hs Hsv) as Hreq.
  destruct (harmless_ok drop p ev st1 (sv_harmless _ _ _ Hsv) (sv_once _ _ _ Hsv) Hreq) as (store & e & E & Hfo).
  change (client_store st1) with (client_store st) in Hfo. exists (set_store store st1), e. split; [exact E|].
  pose proof (served_requests s s' ev Hsv (ci_ids _ _ _ Hinv p s Hs)) as (Hids & _ & _).
  pose proof (queued_after xc xr st p s s' ev store Hinv Hs Hsv Hfo) as HQ.
  pose proof (waiting_after xc xr st p s s' ev store Hinv Hs Hsv Hfo) as HW.
  pose proof (unqueued_after xc xr st p s s' ev store Hinv Hs Hsv Hfo) as HU.
  destruct Hinv as [L N M S Y Q I W X U K]. split.
  - split; cbn [set_store set_sessions st1 client_store client_list core_sessions core_typemap]; try done.
    + intros id Hid. destruct (L id Hid) as [c Hc]. destruct (forgotten_fwd _ _ _ _ id c Hfo Hc) as (c' & -> & _). by eexists.
    + rewrite lookup_insert_ne; [done|]. intros ->. congruence.
    + by apply map_Forall_insert_2.
    + intros id c' Hc'. destruct (forgotten_back _ _ _ _ id c' Hfo Hc') as (c & Hc & [[-> _]|(rq & _ & ->)]); exact (Y id c Hc).
    + intros q t Ht. destruct (decide (q = p)) as [->|Hq].
      * rewrite lookup_insert_eq in Ht. by injection Ht as <-.
      * rewrite lookup_insert_ne in Ht by done. by eapply I.
    + intros id q rid i c' rq' Hx Hc' Hrq'. destruct (forgotten_back _ _ _ _ i c' Hfo Hc') as (c & Hc & [[-> _]|(rq & Hrq & ->)]).
      * exact (X id q rid i c rq' Hx Hc Hrq').
      * cbn in Hrq'. injection Hrq' as <-. intros [_ Hdel]%lookup_delete_Some. exact (X id q rid i c rq Hx Hc Hrq Hdel).
  - split_and!; [by eapply forgotten_kept|done..|]. intros id. cbn [set_store set_sessions st1 client_store].
    destruct (client_store st !! id) as [c|] eqn:Hc.
    + destruct (forgotten_fwd _ _ _ _ id c Hfo Hc) as (c' & -> & [[-> _]|(rq & Hrq & ->)]); constructor.
      { exists (c_requests c). by destruct c. }
      exists (Some (delete p rq)). by rewrite Hrq.
    + destruct (store !! id) as [c'|] eqn:Hc'; [|constructor].
      destruct (forgotten_back _ _ _ _ id c' Hfo Hc') as (c & Hc2 & _). congruence.
Qed.


(** *** Operations on sessions *)

(** The type maps of neighbours. *)
Definition view (st : CoreState) : gmap (list Z) (list Z) := s_tmap <$> core_sessions st.

(** Clients may lose requests and sessions change, but not who knows whom. *)
Definition quiet (K : Z -> list Z -> Prop) (st st' : CoreState) : Prop :=
  kept K (client_store st) (client_store st') /\ client_list st' = client_list st /\ all_client_options st' = all_client_options st
  /\ view st' = view st /\ core_typemap st' = core_typemap st
  /\ (forall id, option_Forall2 (fun c c' => exists r, c' = set_requests_of r c /\ (c_requests c = None <-> r = None))
        (client_store st !! id) (client_store st' !! id)).

Lemma kept_trans K a b c : kept K a b -> kept K b c -> kept K a c.
Proof.
  intros [H1 H1'] [H2 H2']. split; intros id q; [intros Hk; by rewrite (H2 id q Hk), (H1 id q Hk)|].
  destruct (H2' id q) as [->|]; auto.
Qed.

Lemma quiet_refl K st : quiet K st st.
Proof.
  split_and!; try done; [by split; auto|]. intros id. destruct (client_store st !! id) as [c|]; constructor.
  exists (c_requests c). by destruct c.
Qed.

Lemma quiet_weaken (K K' : Z -> list Z -> Prop) st st' : (forall id q, K' id q -> K id q) -> quiet K st st' -> quiet K' st st'.
Proof. intros HK [[H1 H1'] H2]. split; [|done]. split; [|done]. intros id q Hk. by apply H1, HK. Qed.

Lemma quiet_trans K a b c : quiet K a b -> quiet K b c -> quiet K a c.
Proof.
  intros (A0 & A1 & A2 & A3 & A4 & A5) (B0 & B1 & B2 & B3 & B4 & B5).
  split_and!; try congruence; [by eapply kept_trans|].
  intros id. specialize (A5 id). specialize (B5 id).
  inversion A5 as [x y (r & -> & Hr) Ex Ey|Ex Ey]; rewrite <- Ey in B5;
    inversion B5 as [x' y' (r' & -> & Hr') Ex' Ey'|]; constructor. exists r'. split; [done|]. cbn in Hr'. tauto.
Qed.

Lemma requests_conns V st st' : client_list st' = client_list st ->
  (forall id, option_Forall2 (fun c c' => exists r, c' = set_requests_of r c /\ (c_requests c = None <-> r = None))
    (client_store st !! id) (client_store st' !! id)) -> conns V st -> conns V st'.
Proof.
  intros A1 A5 Hc id c Hid Hs. rewrite A1 in Hid. specialize (A5 id). rewrite Hs in A5.
  inversion A5 as [x y (r & -> & _) Ex Ey|]; subst. destruct (Hc id x Hid (eq_sym Ex)). by split.
Qed.

Lemma quiet_conns K V st st' : quiet K st st' -> conns V st -> conns V st'.
Proof. intros (_ & A1 & _ & _ & _ & A5). by apply requests_conns. Qed.

Lemma view_insert st p s : view (set_sessions (<[p := s]> (core_sessions st)) st) = <[p := s_tmap s]> (view st).
Proof. unfold view. cbn. by rewrite fmap_insert. Qed.

Lemma view_same st p s s' : core_sessions st !! p = Some s -> s_tmap s' = s_tmap s ->
  view (set_sessions (<[p := s']> (core_sessions st)) st) = view st.
Proof. intros Hs Ht. rewrite view_insert, insert_id; [done|]. unfold view. by rewrite lookup_fmap, Hs, Ht. Qed.

Lemma frame_quiet K st st' p s s' : core_sessions st !! p = Some s -> s_tmap s' = s_tmap s ->
  quiet_frame K (set_sessions (<[p := s']> (core_sessions st)) st) st' -> quiet K st st'.
Proof.
  intros Hs Ht (A0 & A1 & A2 & A3 & A4 & A5). split_and!; try done. rewrite <- (view_same st p s s' Hs Ht).
  unfold view. by rewrite A3.
Qed.

Lemma for_each_app {A} (f : A -> CoreState -> result) l1 l2 st :
  for_each f (l1 ++ l2) st = and_then (for_each f l1 st) (for_each f l2).
Proof.
  revert st. induction l1 as [|x l1 IH]; intros st; cbn [app for_each].
  - unfold and_then. by destruct (for_each f l2 st) as [[? ?]|].
  - unfold and_then in *. destruct (f x st) as [[st1 e1]|]; [|done]. rewrite IH.
    destruct (for_each f l1 st1) as [[st2 e2]|]; [|done].
    destruct (for_each f l2 st2) as [[st3 e3]|]; [|done]. by rewrite app_assoc.
Qed.

(** A transmission of the session [s1], after which the session is changed by [h]. *)
Lemma try_ok drop env xc xr p s1 h st : core_inv xc xr (set_sessions (<[p := s1]> (core_sessions st)) st) ->
  session_ok p s1 ->
  (forall s, session_ok p s -> session_ok p (h s)) ->
  (forall s, active_client_requests (h s) = active_client_requests s) ->
  exists s' ev st' e, try_transmission_now env s1 = Some (s', ev)
    /\ for_each (session_call drop p) ev (set_sessions (<[p := h s']> (core_sessions st)) st) = Some (st', e)
    /\ core_inv xc xr st' /\ quiet_frame (spared p s1) (set_sessions (<[p := h s']> (core_sessions st)) st) st'
    /\ s_tmap s' = s_tmap s1.
Proof.
  intros Hi Hok Hh Ha. destruct Hok as [P Q T].
  destruct (try_transmission_now_moves env s1) as (s' & ev & E & Hm); [apply Q|].
  pose proof (try_transmission_served env _ _ _ _ E) as [H1 H2 H3 H4 H5].
  assert (Hsv : served s1 (h s') ev) by (split; rewrite ?Ha; done).
  assert (Hok' : session_ok p (h s')).
  { apply Hh. destruct (moved_conveys (smes s1) (fun _ => []) _ _ _ Hm Q) as [Hq' _]; [intros q; by rewrite app_nil_r|].
    destruct Hm as [_ _ _ Hp Ht _]. split; congruence. }
  destruct (transmission_ok drop xc xr p s1 (h s') ev _ Hi) as (st' & e & Ee & Hi' & Hf);
    [cbn; by rewrite lookup_insert_eq|done|done|].
  cbn [set_sessions core_sessions] in Ee, Hf. rewrite insert_insert_eq in Ee, Hf.
  exists s', ev, st', e. split_and!; [done|exact Ee|done|exact Hf|apply Hm].
Qed.

(** What an operation promises that tells clients nothing about neighbours. *)
Definition quietly (K : Z -> list Z -> Prop) (xc : option (Z * list Z * Z)) (xr : option (Z * list Z)) (st : CoreState)
    (r : result) : Prop :=
  exists st' e, r = Some (st', e) /\ core_inv xc xr st' /\ quiet K st st'.

Lemma quietly_weaken (K K' : Z -> list Z -> Prop) xc xr st r : (forall id q, K' id q -> K id q) ->
  quietly K xc xr st r -> quietly K' xc xr st r.
Proof. intros HK (st' & e & E & Hi & Hq). exists st', e. split_and!; [done|done|]. by eapply quiet_weaken. Qed.

Lemma quietly_trans K xc xr xc' xr' st r f : quietly K xc xr st r ->
  (forall st', core_inv xc xr st' -> quiet K st st' -> quietly K xc' xr' st' (f st')) ->
  quietly K xc' xr' st (and_then r f).
Proof.
  intros (st1 & e1 & -> & Hi & Hq) Hf. destruct (Hf st1 Hi Hq) as (st2 & e2 & E2 & Hi2 & Hq2).
  exists st2, (e1 ++ e2). unfold and_then. rewrite E2. split_and!; [done|done|by eapply quiet_trans].
Qed.

Lemma quietly_for_each {A} K xc xr (f : A -> CoreState -> result) l st :
  core_inv xc xr st -> (forall x st', x ∈ l -> core_inv xc xr st' -> quiet K st st' -> quietly K xc xr st' (f x st')) ->
  quietly K xc xr st (for_each f l st).
Proof.
  revert st. induction l as [|x l IH]; intros st Hi Hf.
  { exists st, []. split_and!; [done|done|apply quiet_refl]. }
  cbn [for_each]. apply (quietly_trans K xc xr); [apply Hf; [by left|done|apply quiet_refl]|].
  intros st1 Hi1 Hq1. apply IH; [done|]. intros y st2 Hy Hi2 Hq2. apply Hf; [by right|done|by eapply quiet_trans].
Qed.

(** An operation on a session that changes it to [s1] and transmits. *)
Lemma session_try_quietly drop env xc xr p s s1 h st : core_sessions st !! p = Some s ->
  core_inv xc xr (set_sessions (<[p := s1]> (core_sessions st)) st) ->
  session_ok p s1 -> s_tmap s1 = s_tmap s ->
  (forall s, session_ok p s -> session_ok p (h s)) ->
  (forall s, active_client_requests (h s) = active_client_requests s /\ s_tmap (h s) = s_tmap s) ->
  quietly (spared p s1) xc xr st (with_sessions drop p
    (fun m => let? (s', e) := try_transmission_now env s1 in Some (<[p := h s']> m, e)) st).
Proof.
  intros Hs Hi Hok Ht Hh Ha.
  destruct (try_ok drop env xc xr p s1 h st Hi Hok Hh (fun s => proj1 (Ha s)))
    as (s' & ev & st' & e & E & Ee & Hi' & Hf & Ht').
  unfold with_sessions. rewrite E. exists st', e. split_and!; [exact Ee|done|].
  eapply frame_quiet; [done| |done]. rewrite (proj2 (Ha s')). congruence.
Qed.

(** *** Changes of requests *)

(** The requests of clients for one peer and those in its session are changed together. *)
Lemma core_inv_change xc xr xc' xr' st p s s1 store :
  core_inv xc xr st -> core_sessions st !! p = Some s -> session_ok p s1 ->
  NoDup (map car_id (active_client_requests s1)) ->
  (forall id, option_Forall2 (fun c c' => exists r, c' = set_requests_of r c) (client_store st !! id) (store !! id)) ->
  (forall id q, q <> p -> request_of store id q = request_of (client_store st) id q) ->
  (forall car, car ∈ active_client_requests s1 -> car_target car = p
    /\ (xc' = Some (car_client car, p, car_id car) /\ was_solicited car = GNUNET_YES
        \/ request_of store (car_client car) p = Some (car_id car))) ->
  (forall id q r, xc = Some (id, q, r) -> q = p) ->
  (forall id r, request_of store id p = Some r -> xr' <> Some (id, p) ->
    exists car, car ∈ active_client_requests s1 /\ car_id car = r /\ car_client car = id) ->
  (forall id q, xr = Some (id, q) -> q = p) ->
  (forall id q r i, xc' = Some (id, q, r) -> request_of store i q <> Some r) ->
  (forall id q car, xr' = Some (id, q) -> q = p /\ (car ∈ active_client_requests s1 -> request_of store id p <> Some (car_id car))) ->
  core_inv xc' xr' (set_sessions (<[p := s1]> (core_sessions st)) (set_store store st)).
Proof.
  intros [L N M S Y Q I W X U K] Hs Hok Hn Hst Hq HF HFx HC HCx HX HU.
  assert (Hp : p <> me) by (intros ->; congruence).
  split; cbn [set_store set_sessions client_store client_list core_sessions core_typemap]; try done.
  - intros id Hid. destruct (L id Hid) as [c Hc]. specialize (Hst id). rewrite Hc in Hst. inversion Hst. by eexists.
  - by rewrite lookup_insert_ne.
  - by apply map_Forall_insert_2.
  - intros id c' Hc'. specialize (Hst id). rewrite Hc' in Hst. inversion Hst as [c ? [r ->] Hc|]; subst.
    exact (Y id c (eq_sym Hc)).
  - intros q t car Ht Hcar. destruct (decide (q = p)) as [->|Hqp].
    + rewrite lookup_insert_eq in Ht. injection Ht as <-. destruct (HF car Hcar) as [Hct Hcase]. split; [done|].
      by rewrite <- request_of_Some.
    + rewrite lookup_insert_ne in Ht by done. destruct (Q q t car Ht Hcar) as [Hct [[Hx _]|Hr]].
      * destruct Hqp. by eapply HFx.
      * split; [done|]. right. rewrite <- request_of_Some, Hq by done. by apply request_of_Some.
  - intros q t Ht. destruct (decide (q = p)) as [->|Hqp].
    + rewrite lookup_insert_eq in Ht. by injection Ht as <-.
    + rewrite lookup_insert_ne in Ht by done. by eapply I.
  - intros id c' rq' q rid Hc' Hrq' Hrid Hme Hx.
    assert (Hr : request_of store id q = Some rid) by (apply request_of_Some; eauto).
    destruct (decide (q = p)) as [->|Hqp].
    + destruct (HC id rid Hr Hx) as (car & Hcar & ?). exists s1, car. by rewrite lookup_insert_eq.
    + rewrite Hq in Hr by done. apply request_of_Some in Hr as (c & rq & Hc & Hrq & Hrid').
      destruct (W id c rq q rid Hc Hrq Hrid' Hme) as (t & car & Ht & ?).
      { intros Hx'. destruct Hqp. by eapply HCx. }
      exists t, car. by rewrite lookup_insert_ne.
  - intros id q rid i c' rq' Hx Hc' Hrq' Hr. apply (HX id q rid i Hx). apply request_of_Some. eauto.
  - intros id q t car c' rq' Hx Ht Hcar Hc' Hrq' Hr. destruct (HU id q car Hx) as [-> Hne].
    rewrite lookup_insert_eq in Ht. injection Ht as <-. apply (Hne Hcar). apply request_of_Some. eauto.
Qed.

(** The session is changed, its requests are not. *)
Lemma core_inv_session xc xr st p s s1 : core_inv xc xr st -> core_sessions st !! p = Some s ->
  session_ok p s1 -> active_client_requests s1 = active_client_requests s ->
  core_inv xc xr (set_sessions (<[p := s1]> (core_sessions st)) st).
Proof.
  intros [L N M S Y Q I W X U K] Hs Hok E. assert (Hp : p <> me) by (intros ->; congruence).
  assert (Hget : forall q t, <[p := s1]> (core_sessions st) !! q = Some t -> exists t', core_sessions st !! q = Some t'
    /\ active_client_requests t = active_client_requests t').
  { intros q t Ht. destruct (decide (q = p)) as [->|Hq].
    - rewrite lookup_insert_eq in Ht. injection Ht as <-. eauto.
    - rewrite lookup_insert_ne in Ht by done. eauto. }
  split; cbn [set_sessions client_store client_list core_sessions core_typemap]; try done.
  - by rewrite lookup_insert_ne.
  - by apply map_Forall_insert_2.
  - intros q t car Ht. destruct (Hget q t Ht) as (t' & Ht' & ->). by apply Q.
  - intros q t Ht. destruct (Hget q t Ht) as (t' & Ht' & ->). by eapply I.
  - intros id c rq q rid Hc Hrq Hr Hme Hx. destruct (W id c rq q rid Hc Hrq Hr Hme Hx) as (t & car & Ht & ?).
    destruct (decide (q = p)) as [->|Hq].
    + assert (t = s) as -> by congruence. exists s1, car. rewrite lookup_insert_eq, E. done.
    + exists t, car. by rewrite lookup_insert_ne.
  - intros id q t car c rq Hx Ht. destruct (Hget q t Ht) as (t' & Ht' & ->). by apply (U id q t' car).
Qed.

(** *** Requests are given up *)

Lemma session_remove_ok p car s : session_ok p s -> session_ok p (remove_request car s).
Proof. by intros [P Q T]. Qed.

Lemma dequeue_quietly env xc xr st p s id rid : core_sessions st !! p = Some s -> p <> me ->
  core_inv xc xr (set_sessions (<[p := remove_request (mk_car rid id p 0 0 0) s]> (core_sessions st)) st) ->
  session_ok p s ->
  quietly (spared p (remove_request (mk_car rid id p 0 0 0) s)) xc xr st (dequeue_request me env id p rid st).
Proof.
  intros Hs Hp Hi Hok.
  destruct (session_try_quietly no_drop (session_env env p st) xc xr p s
    (remove_request (mk_car rid id p 0 0 0) s) (fun s => s) st Hs Hi) as (st' & e & E & Hr); [by apply session_remove_ok|done|done|done|].
  exists st', e. split; [|done]. rewrite <- E. unfold dequeue_request, with_sessions, GSC_SESSIONS_dequeue_request, find_session.
  cbn [car_target]. rewrite bool_decide_false, Hs by done. done.
Qed.

Lemma dequeue_loopback env st id rid : dequeue_request me env id me rid st = Some (st, []).
Proof.
  unfold dequeue_request, with_sessions, GSC_SESSIONS_dequeue_request. cbn [car_target].
  rewrite bool_decide_true by done. by destruct st.
Qed.

Lemma set_store_same st : set_store (client_store st) st = st.
Proof. by destruct st. Qed.

Lemma requests_same (store : gmap Z GSC_Client) id :
  option_Forall2 (fun c c' => exists r, c' = set_requests_of r c) (store !! id) (store !! id).
Proof. destruct (store !! id) as [c|]; constructor. exists (c_requests c). by destruct c. Qed.

(** The session gives up a request that its client still has. *)
Lemma dequeue_recycled env st id p rid : core_inv None None st -> request_of (client_store st) id p = Some rid -> p <> me ->
  quietly (fun i q => q <> p \/ i = id) None (Some (id, p)) st (dequeue_request me env id p rid st).
Proof.
  intros Hi Hr Hp. pose proof Hi as [L N M S Y Q I W X U K].
  apply request_of_Some in Hr as (c & rq & Hc & Hrq & Hrid).
  destruct (W id c rq p rid Hc Hrq Hrid Hp ltac:(done)) as (s & car & Hs & Hcar & Ei & Ec).
  eapply quietly_weaken; [|apply (dequeue_quietly env _ _ st p s); [done|done| |by apply S]].
  { intros i q [Hq| ->]; [by left|]. right. intros car' Hcar'. apply list_elem_of_filter in Hcar' as [Hne Hcar'].
    intros Ecl. apply Hne. cbn [car_id]. destruct (Q p s car' Hs Hcar') as [Ht [[Hx _]|(c2 & rq2 & Hc2 & Hrq2 & Hr2)]]; [done|].
    rewrite Ecl in Hc2. congruence. }
  rewrite <- (set_store_same st) at 2. apply (core_inv_change None None None (Some (id, p)) st p s); try done.
  - by apply session_remove_ok, S.
  - apply NoDup_ids_filter. by eapply I.
  - intros i. apply requests_same.
  - intros car' Hcar'. apply list_elem_of_filter in Hcar' as [_ Hcar'].
    destruct (Q p s car' Hs Hcar') as [Ht [[Hx _]|Hq]]; [done|]. split; [done|]. right. by apply request_of_Some.
  - intros i r Hi' Hx. apply request_of_Some in Hi' as (c' & rq' & Hc' & Hrq' & Hr').
    destruct (W i c' rq' p r Hc' Hrq' Hr' Hp ltac:(done)) as (s2 & car2 & Hs2 & Hcar2 & Ei2 & Ec2).
    assert (s2 = s) as -> by congruence. exists car2. split; [|done]. apply list_elem_of_filter. split; [|done].
    cbn [car_id]. intros E. apply Hx. f_equal. f_equal. rewrite <- Ec, <- Ec2. f_equal.
    apply (same_id_same _ _ _ (I p s Hs)); [done|done|congruence].
  - intros i q car' [= <- <-]. split; [done|]. intros [Hne _]%list_elem_of_filter. cbn [car_id] in Hne.
    unfold request_of. rewrite Hc, Hrq, Hrid. congruence.
Qed.

(** A client gives up a request. *)
Definition without (id : Z) (p : list Z) (store : gmap Z GSC_Client) : gmap Z GSC_Client :=
  match store !! id with
  | Some c => match c_requests c with
              | Some rq => <[id := set_requests_of (Some (delete p rq)) c]> store
              | None => store
              end
  | None => store
  end.

Lemma forget_request_without id p rid st : request_of (client_store st) id p = Some rid ->
  forget_request id p rid st = Some (set_store (without id p (client_store st)) st).
Proof.
  intros (c & rq & Hc & Hrq & Hr)%request_of_Some. rewrite (forget_request_ok id p rid c rq st Hc Hrq Hr).
  unfold without. by rewrite Hc, Hrq.
Qed.

Lemma request_of_without id p store i q :
  request_of (without id p store) i q = if bool_decide (i = id /\ q = p) then None else request_of store i q.
Proof.
  unfold without, request_of. destruct (store !! id) as [c|] eqn:Hc.
  - destruct (c_requests c) as [rq|] eqn:Hrq.
    + destruct (decide (i = id)) as [->|Hi].
      * rewrite lookup_insert_eq, Hc, Hrq. cbn. destruct (decide (q = p)) as [->|Hq].
        -- by rewrite lookup_delete_eq, bool_decide_true.
        -- rewrite lookup_delete_ne, bool_decide_false; [done|by intros [_ ->]|done].
      * rewrite lookup_insert_ne, bool_decide_false; [done|by intros [-> _]|done].
    + case_bool_decide as E; [|done]. destruct E as [-> ->]. by rewrite Hc, Hrq.
  - case_bool_decide as E; [|done]. destruct E as [-> ->]. by rewrite Hc.
Qed.

Lemma without_requests id p store i :
  option_Forall2 (fun c c' => exists r, c' = set_requests_of r c /\ (c_requests c = None <-> r = None))
    (store !! i) (without id p store !! i).
Proof.
  assert (Hsame : option_Forall2 (fun c c' => exists r, c' = set_requests_of r c /\ (c_requests c = None <-> r = None))
    (store !! i) (store !! i)).
  { destruct (store !! i) as [c|]; constructor. exists (c_requests c). by destruct c. }
  unfold without. destruct (store !! id) as [c|] eqn:Hc; [|done]. destruct (c_requests c) as [rq|] eqn:Hrq; [|done].
  destruct (decide (i = id)) as [->|Hi]; [|by rewrite lookup_insert_ne].
  rewrite lookup_insert_eq, Hc. constructor. exists (Some (delete p rq)). by rewrite Hrq.
Qed.

Lemma without_quiet id p st : quiet (fun _ q => q <> p) st (set_store (without id p (client_store st)) st).
Proof.
  split_and!; try done; [|intros i; apply without_requests]. split; intros i q; cbn [set_store client_store];
    rewrite request_of_without; [intros Hq; rewrite bool_decide_false; [done|by intros [_ ->]]|].
  case_bool_decide; auto.
Qed.

Lemma insert_session_same st p s : core_sessions st !! p = Some s -> set_sessions (<[p := s]> (core_sessions st)) st = st.
Proof. intros Hs. rewrite insert_id by done. by destruct st. Qed.

(** Requests to the peer itself are in no session. *)
Lemma core_inv_loopback st store : core_inv None None st ->
  (forall id, option_Forall2 (fun c c' => exists r, c' = set_requests_of r c) (client_store st !! id) (store !! id)) ->
  (forall id q, q <> me -> request_of store id q = request_of (client_store st) id q) ->
  core_inv None None (set_store store st).
Proof.
  intros [L N M S Y Q I W X U K] Hst Hq.
  split; cbn [set_store client_store client_list core_sessions core_typemap]; try done.
  - intros id Hid. destruct (L id Hid) as [c Hc]. specialize (Hst id). rewrite Hc in Hst. inversion Hst. by eexists.
  - intros id c' Hc'. specialize (Hst id). rewrite Hc' in Hst. inversion Hst as [c ? [r ->] Hc|]; subst.
    exact (Y id c (eq_sym Hc)).
  - intros q t car Ht Hcar. destruct (Q q t car Ht Hcar) as [Hct [[Hx _]|Hr]]; [done|]. split; [done|]. right.
    rewrite <- request_of_Some, Hq; [by apply request_of_Some|]. intros ->. congruence.
  - intros id c' rq' q rid Hc' Hrq' Hrid Hme Hx.
    assert (Hr : request_of store id q = Some rid) by (apply request_of_Some; eauto).
    rewrite Hq in Hr by done. apply request_of_Some in Hr as (c & rq & Hc & Hrq & Hrid'). by eapply W.
Qed.

Lemma static_requests (store store' : gmap Z GSC_Client) :
  (forall i, option_Forall2 (fun c c' => exists r, c' = set_requests_of r c /\ (c_requests c = None <-> r = None))
    (store !! i) (store' !! i)) ->
  forall i, option_Forall2 (fun c c' => exists r, c' = set_requests_of r c) (store !! i) (store' !! i).
Proof. intros H i. destruct (H i) as [c c' (r & -> & _)|]; constructor. by exists r. Qed.

Lemma forget_loopback st id : core_inv None None st -> core_inv None None (set_store (without id me (client_store st)) st).
Proof.
  intros Hi. apply core_inv_loopback; [done|apply static_requests; intros i; apply without_requests|].
  intros i q Hq. rewrite request_of_without, bool_decide_false; [done|]. by intros [_ ->].
Qed.

(** The request is with its client and in the session. *)
Lemma request_in_session st id p rid : core_inv None None st -> request_of (client_store st) id p = Some rid -> p <> me ->
  exists s car, core_sessions st !! p = Some s /\ car ∈ active_client_requests s /\ car_id car = rid /\ car_client car = id.
Proof.
  intros Hi (c & rq & Hc & Hrq & Hr)%request_of_Some Hp. by eapply (ci_waiting _ _ _ Hi).
Qed.

(** A client gives up a request and tells the session. *)
Lemma destroy_quietly env st id p rid : core_inv None None st -> request_of (client_store st) id p = Some rid ->
  exists st' e, destroy_active_client_request me env id p st = Some (st', e) /\ core_inv None None st'
    /\ quiet (fun _ q => q <> p) st st' /\ request_of (client_store st') id p = None.
Proof.
  intros Hi Hr. pose proof Hr as (c & rq & Hc & Hrq & Hrid)%request_of_Some.
  unfold destroy_active_client_request. rewrite Hc, Hrq, Hrid, (forget_request_without _ _ _ _ Hr).
  set (st1 := set_store (without id p (client_store st)) st).
  assert (Hq1 : quiet (fun _ q => q <> p) st st1) by apply without_quiet.
  assert (Hnone : request_of (client_store st1) id p = None)
    by (cbn [st1 set_store client_store]; by rewrite request_of_without, bool_decide_true).
  destruct (decide (p = me)) as [->|Hp].
  { rewrite dequeue_loopback. exists st1, []. split_and!; [done|by apply forget_loopback|done|done]. }
  destruct (request_in_session st id p rid Hi Hr Hp) as (s & car & Hs & Hcar & Ei & Ec).
  pose proof Hi as [L N M S Y Q I W X U K].
  destruct (dequeue_quietly env None None st1 p s id rid Hs Hp) as (st' & e & E & Hi2 & Hq2); [|by apply S|].
  - apply (core_inv_change None None None None st p s); try done.
    + by apply session_remove_ok, S.
    + apply NoDup_ids_filter. by eapply I.
    + apply static_requests. intros i. apply without_requests.
    + intros i q Hq. rewrite request_of_without, bool_decide_false; [done|]. by intros [_ ->].
    + intros car' Hcar'. apply list_elem_of_filter in Hcar' as [Hne Hcar'].
      destruct (Q p s car' Hs Hcar') as [Ht [[Hx _]|Hq]]; [done|]. split; [done|]. right.
      rewrite request_of_without, bool_decide_false; [by apply request_of_Some|]. intros [Ecl _]. apply Hne. cbn [car_id].
      destruct Hq as (c2 & rq2 & Hc2 & Hrq2 & Hr2). rewrite Ecl in Hc2. congruence.
    + intros i r Hir _. rewrite request_of_without in Hir. case_bool_decide as Hb; [done|].
      apply request_of_Some in Hir as (c' & rq' & Hc' & Hrq' & Hr').
      destruct (W i c' rq' p r Hc' Hrq' Hr' Hp ltac:(done)) as (s2 & car2 & Hs2 & Hcar2 & Ei2 & Ec2).
      assert (s2 = s) as -> by congruence. exists car2. split; [|done]. apply list_elem_of_filter. split; [|done].
      cbn [car_id]. intros E. apply Hb. split; [|done]. rewrite <- Ec, <- Ec2. f_equal.
      apply (same_id_same _ _ _ (I p s Hs)); [done|done|congruence].
  - exists st', e. split_and!; [exact E|done| |].
    + eapply quiet_trans; [done|]. eapply quiet_weaken; [|exact Hq2]. by left.
    + destruct Hq2 as ((_ & Hsh) & _). destruct (Hsh id p) as [->|]; done.
Qed.

(** A client gives up a request that was solicited, to send. *)
Lemma forget_to_send st id p rid s car : core_inv None None st -> request_of (client_store st) id p = Some rid -> p <> me ->
  core_sessions st !! p = Some s -> car ∈ active_client_requests s -> car_id car = rid -> was_solicited car = GNUNET_YES ->
  core_inv (Some (id, p, rid)) None (set_store (without id p (client_store st)) st).
Proof.
  intros Hi Hr Hp Hs Hcar Ei Hsol.
  destruct (request_in_session st id p rid Hi Hr Hp) as (s2 & car2 & Hs2 & Hcar2 & Ei2 & Ec2).
  assert (s2 = s) as -> by congruence. pose proof Hi as [L N M S Y Q I W X U K].
  assert (car2 = car) as -> by (apply (same_id_same _ _ _ (I p s Hs)); [done|done|congruence]).
  rewrite <- (insert_session_same (set_store (without id p (client_store st)) st) p s) by done.
  apply (core_inv_change None None (Some (id, p, rid)) None st p s); try done.
  - by apply S.
  - by eapply I.
  - apply static_requests. intros i. apply without_requests.
  - intros i q Hq. rewrite request_of_without, bool_decide_false; [done|]. by intros [_ ->].
  - intros car' Hcar'. destruct (Q p s car' Hs Hcar') as [Ht [[Hx _]|Hq]]; [done|]. split; [done|].
    rewrite request_of_without. case_bool_decide as Hb.
    + left. destruct Hb as [Ecl _]. apply request_of_Some in Hq. rewrite Ecl in Hq.
      assert (car_id car' = rid) as Eid by congruence.
      assert (car' = car) as -> by (apply (same_id_same _ _ _ (I p s Hs)); [done|done|congruence]). by rewrite Ecl, Eid.
    + right. by apply request_of_Some.
  - intros i r Hir _. rewrite request_of_without in Hir. case_bool_decide as Hb; [done|].
    apply request_of_Some in Hir as (c' & rq' & Hc' & Hrq' & Hr').
    destruct (W i c' rq' p r Hc' Hrq' Hr' Hp ltac:(done)) as (s3 & car3 & Hs3 & Hcar3 & ? & ?).
    assert (s3 = s) as -> by congruence. by exists car3.
  - intros i q r j [= <- <- <-]. rewrite request_of_without. case_bool_decide as Hb; [done|].
    intros (c' & rq' & Hc' & Hrq' & Hr')%request_of_Some.
    destruct (W j c' rq' p rid Hc' Hrq' Hr' Hp ltac:(done)) as (s3 & car3 & Hs3 & Hcar3 & Ei3 & Ec3).
    assert (s3 = s) as -> by congruence. apply Hb. split; [|done]. rewrite <- Ec2, <- Ec3. f_equal.
    apply (same_id_same _ _ _ (I p s Hs)); [done|done|congruence].
Qed.

(** After sending the session gives it up as well. *)
Lemma dequeue_sent env st id p rid s : core_inv (Some (id, p, rid)) None st -> core_sessions st !! p = Some s -> p <> me ->
  quietly (fun _ q => q <> p) None None st (dequeue_request me env id p rid st).
Proof.
  intros Hi Hs Hp. pose proof Hi as [L N M S Y Q I W X U K].
  eapply quietly_weaken; [|apply (dequeue_quietly env _ _ st p s); [done|done| |by apply S]]; [by left|].
  rewrite <- (set_store_same st) at 2. apply (core_inv_change (Some (id, p, rid)) None None None st p s); try done.
  - by apply session_remove_ok, S.
  - apply NoDup_ids_filter. by eapply I.
  - intros i. apply requests_same.
  - intros car Hcar. apply list_elem_of_filter in Hcar as [Hne Hcar]. cbn [car_id] in Hne.
    destruct (Q p s car Hs Hcar) as [Ht [[Hx _]|Hq]]; [congruence|]. split; [done|]. right. by apply request_of_Some.
  - intros i q r [= _ <- _]. done.
  - intros i r (c' & rq' & Hc' & Hrq' & Hr')%request_of_Some _.
    destruct (W i c' rq' p r Hc' Hrq' Hr' Hp ltac:(done)) as (s2 & car2 & Hs2 & Hcar2 & Ei2 & Ec2).
    assert (s2 = s) as -> by congruence. exists car2. split; [|done]. apply list_elem_of_filter. split; [|done].
    cbn [car_id]. intros E. apply (X id p rid i c' rq' eq_refl Hc' Hrq'). congruence.
Qed.
End Invariant.
