(* ===== verification/CoreService.v ===== *)
(** * The core service as a whole

    Clients, sessions and the type map are put together: the events the service handles,
    the assertions that hold in every run of them, and what clients are told about their
    neighbours. *)

From stdpp Require Import gmap.
From S2P Require Import Prelude Time Message Tokenizer Crypto CoreKx TypeMap CoreSessions CoreClients.
#[local] Open Scope Z_scope.

(** ** What the service handles *)

(** Messages and connections of clients, calls of the key exchange for a peer, and tasks of
    sessions. For a type map, [behind] is what follows the message in memory. *)
Inductive core_op :=
  | ClientConnect (id : Z)
  | ClientDisconnect (id : Z)
  | ClientInit (id options : Z) (types : list Z)
  | ClientSendRequest (id addr : Z) (peer : list Z) (priority msize : Z)
  | ClientSend (id : Z) (peer : list Z) (priority cork buf : Z) (data : list Z)
  | KxCall (peer behind : list Z) (e : kx_event)
  | CorkTask (peer : list Z)
  | TypemapTask (peer : list Z) (r : Z).

Section Events.
Context `{Gcrypt} `{Zlib} (me : list Z) (order : forall A, gmap (list Z) A -> list (list Z))
  (ALIGN_FACTOR : Z) (fresh : nat -> Z).

Definition core_initial : CoreState := mk_core ∅ [] 0 ∅ typemap_initial.

(** The calls of the key exchange to sessions and clients. *)
Definition kx_call (env : CoreEnv) (peer behind : list Z) (e : kx_event) (st : CoreState) : result :=
  match e with
  | SessionsCreate => with_sessions no_drop peer (GSC_SESSIONS_create peer) st
  | SessionsEnd => with_sessions no_drop peer (GSC_SESSIONS_end peer) st
  | SessionsReinit => with_sessions no_drop peer (GSC_SESSIONS_reinit peer) st
  | SessionsSolicit => with_sessions no_drop peer (GSC_SESSIONS_solicit (session_env env peer st) peer) st
  | SessionsSetTypemap m =>
      with_sessions no_drop peer (GSC_SESSIONS_set_typemap (session_env env peer st) peer (m ++ behind)) st
  | SessionsConfirmTypemap m =>
      let '(tms, sessions) := GSC_SESSIONS_confirm_typemap peer m (core_typemap st) (core_sessions st) in
      Some (set_typemap tms (set_sessions sessions st), [])
  | ClientsDeliver m size options => GSC_CLIENTS_deliver_message me env peer m size options st
  | _ => Some (st, [])
  end.

Definition core_step (env : CoreEnv) (op : core_op) (st : CoreState) : result :=
  match op with
  | ClientConnect id => client_connect_cb id st
  | ClientDisconnect id => client_disconnect_cb me order env id st
  | ClientInit id options types => handle_client_init me order env id options types st
  | ClientSendRequest id addr peer priority msize => handle_client_send_request me order env id addr peer priority msize st
  | ClientSend id peer priority cork buf data =>
      handle_client_send me ALIGN_FACTOR fresh env id peer priority cork buf data st
  | KxCall peer behind e => kx_call env peer behind e st
  | CorkTask peer =>
      let? s := core_sessions st !! peer in
      with_sessions no_drop peer (fun m => on_session peer (pop_cork_task (session_env env peer st)) m s) st
  | TypemapTask peer r =>
      let? s := core_sessions st !! peer in
      let hdr := GSC_TYPEMAP_compute_type_map_message (core_typemap st) in
      with_sessions no_drop peer (fun m => on_session peer (fun s => Some (transmit_typemap_task r hdr s)) m s) st
  end.

Fixpoint core_run (ops : list (CoreEnv * core_op)) (st : CoreState) : result :=
  match ops with
  | [] => Some (st, [])
  | (env, op) :: ops => and_then (core_step env op st) (core_run ops)
  end.
End Events.

Section Service.
Context `{HG : Gcrypt} `{HZ : Zlib} (me : list Z) (order : forall A, gmap (list Z) A -> list (list Z)).

Abbreviation core_inv := (core_inv me).
Abbreviation conns := (conns me).
Abbreviation quietly := (quietly me).

(** ** Notifications *)

Definition core_good (xc : option (Z * list Z * Z)) (xr : option (Z * list Z)) (st : CoreState) : Prop :=
  core_inv xc xr st /\ conns (view st) st.

(** Clients are told about neighbours and may lose requests; sessions stay. *)
Record evolves (st st' : CoreState) : Prop := {
  ev_list : client_list st' = client_list st;
  ev_options : all_client_options st' = all_client_options st;
  ev_typemap : core_typemap st' = core_typemap st;
  ev_dom : forall q, is_Some (core_sessions st !! q) -> is_Some (core_sessions st' !! q);
  ev_store : forall id, option_Forall2 (fun c c' => c_types c' = c_types c /\ c_options c' = c_options c
    /\ got_init c' = got_init c /\ (c_requests c = None <-> c_requests c' = None))
    (client_store st !! id) (client_store st' !! id);
}.

Lemma evolves_refl st : evolves st st.
Proof. split; try done. intros id. destruct (client_store st !! id); by constructor. Qed.

Lemma evolves_trans a b c : evolves a b -> evolves b c -> evolves a c.
Proof.
  intros [A1 A2 A3 A4 A5] [B1 B2 B3 B4 B5]. split; try congruence; [auto|]. intros id. specialize (A5 id). specialize (B5 id).
  inversion A5 as [x y (X1 & X2 & X3 & X4) Ex Ey|Ex Ey]; rewrite <- Ey in B5;
    inversion B5 as [x' y' (Y1 & Y2 & Y3 & Y4) Ex' Ey'|]; constructor.
  split_and!; try congruence. tauto.
Qed.

Lemma view_Some st q : is_Some (core_sessions st !! q) <-> is_Some (view st !! q).
Proof. unfold view. rewrite lookup_fmap. by rewrite fmap_is_Some. Qed.

Lemma quiet_evolves K st st' : quiet K st st' -> evolves st st'.
Proof.
  intros (_ & A1 & A2 & A3 & A4 & A5). split; try done.
  - intros q. rewrite (view_Some st), (view_Some st'), A3. done.
  - intros id. destruct (A5 id) as [c c' (r & -> & Hr)|]; constructor. done.
Qed.

Definition runs (xc : option (Z * list Z * Z)) (xr : option (Z * list Z)) (st : CoreState) (r : result) : Prop :=
  exists st' e, r = Some (st', e) /\ core_good xc xr st' /\ evolves st st'.

Lemma quietly_runs K xc xr st r : conns (view st) st -> quietly K xc xr st r -> runs xc xr st r.
Proof.
  intros Hc (st' & e & -> & Hi & Hq). exists st', e. split_and!; [done| |by eapply quiet_evolves].
  split; [done|]. assert (view st' = view st) as -> by apply Hq. by eapply quiet_conns.
Qed.

Lemma runs_trans xc xr xc' xr' st r f : runs xc xr st r ->
  (forall st', core_good xc xr st' -> evolves st st' -> runs xc' xr' st' (f st')) -> runs xc' xr' st (and_then r f).
Proof.
  intros (st1 & e1 & -> & Hg & He) Hf. destruct (Hf st1 Hg He) as (st2 & e2 & E2 & Hg2 & He2).
  exists st2, (e1 ++ e2). unfold and_then. rewrite E2. split_and!; [done|done|by eapply evolves_trans].
Qed.

Lemma runs_none xc xr st e : core_good xc xr st -> runs xc xr st (Some (st, e)).
Proof. intros Hg. exists st, e. split_and!; [done|done|apply evolves_refl]. Qed.

Lemma runs_for_each {A} xc xr (f : A -> CoreState -> result) l st : core_good xc xr st ->
  (forall x st', x ∈ l -> core_good xc xr st' -> evolves st st' -> runs xc xr st' (f x st')) ->
  runs xc xr st (for_each f l st).
Proof.
  revert st. induction l as [|x l IH]; intros st Hg Hf; [by apply runs_none|]. cbn [for_each].
  apply (runs_trans xc xr); [apply Hf; [by left|done|apply evolves_refl]|].
  intros st1 Hg1 He1. apply IH; [done|]. intros y st2 Hy Hg2 He2. apply Hf; [by right|done|by eapply evolves_trans].
Qed.

Lemma view_length xc xr st q tm : core_inv xc xr st -> view st !! q = Some tm -> length tm = TYPEMAP_WORDS.
Proof.
  intros Hi. unfold view. rewrite lookup_fmap. intros (s & Hs & ->)%fmap_Some.
  apply (so_tmap q s). by apply (ci_sessions _ _ _ _ Hi).
Qed.

Lemma change_Some p tm V : change p (Some tm) V = <[p := tm]> V.
Proof. apply map_eq. intros q. unfold change. destruct (decide (q = p)) as [->|Hq].
  - by rewrite lookup_partial_alter_eq, lookup_insert_eq.
  - by rewrite lookup_partial_alter_ne, lookup_insert_ne.
Qed.

(** Clients are told that the type map of a neighbour was changed, from that in [V]. *)
Lemma notified drop xc xr V p s1 st : core_inv xc xr st -> core_sessions st !! p = Some s1 ->
  conns V st -> (forall q tm, V !! q = Some tm -> length tm = TYPEMAP_WORDS) ->
  view st = <[p := s_tmap s1]> V ->
  exists st' e, for_each (session_call drop p) [NotifyClients (V !! p) (Some (s_tmap s1))] st = Some (st', e)
    /\ core_good xc xr st' /\ evolves st st' /\ core_sessions st' = core_sessions st.
Proof.
  intros Hi Hs Hc HV Hv.
  assert (Hp : p <> me) by (intros ->; rewrite (ci_me _ _ _ _ Hi) in Hs; done).
  destruct (notify_clients_ok me xc xr V p (Some (s_tmap s1)) st Hi Hc Hp HV) as (st' & e & E & Hi' & Hc' & F1 & F2 & F3 & F4 & F5).
  { intros tm [= <-]. apply (so_tmap p s1). by apply (ci_sessions _ _ _ _ Hi). }
  exists st', e. cbn [for_each session_call]. unfold and_then at 1. rewrite E. split_and!; [by rewrite app_nil_r|split; [done|]| |done].
  - rewrite change_Some, <- Hv in Hc'. unfold view in *. by rewrite F3.
  - split; try done. intros q. by rewrite F3.
Qed.

(** ** Type maps of neighbours *)

(** The neighbour handles the type. *)
Definition neighbour_handles (st : CoreState) (p : list Z) (type : Z) : Prop :=
  exists s, core_sessions st !! p = Some s /\ GSC_TYPEMAP_test_match (Some (s_tmap s)) [type] = Some GNUNET_YES.

Lemma extend_matches tm type tm' : GSC_TYPEMAP_extend (Some tm) [type] = Some tm' ->
  GSC_TYPEMAP_test_match (Some tm') [type] = Some GNUNET_YES.
Proof.
  cbn [GSC_TYPEMAP_extend fold_left GSC_TYPEMAP_test_match test_match_loop]. unfold set_bit.
  destruct (tm !! Z.to_nat (type / 32)) as [w|] eqn:E; [|done]. intros [= <-].
  rewrite list_lookup_insert, decide_True by (split; [done|by eapply lookup_lt_Some]).
  rewrite one_bit by apply bit_index. pose proof (bit_index type).
  rewrite Z.eqb_sym, land_pow2_zero, Z.lor_spec, Z.pow2_bits_true, orb_true_r by lia. done.
Qed.

Lemma match_member tm type types : length tm = TYPEMAP_WORDS -> Forall is_u16 types -> type ∈ types ->
  GSC_TYPEMAP_test_match (Some tm) [type] = Some GNUNET_YES -> GSC_TYPEMAP_test_match (Some tm) types = Some GNUNET_YES.
Proof.
  intros Hl Ht Hin Hm. destruct types as [|t0 types0]; [by apply elem_of_nil in Hin|].
  change (test_match_loop tm [type] = Some GNUNET_YES) in Hm. change (test_match_loop tm (t0 :: types0) = Some GNUNET_YES).
  revert Hin. induction Ht as [|t types Ht _ IH]; intros Hin; [by apply elem_of_nil in Hin|].
  cbn [test_match_loop] in *. destruct (lookup_lt_is_Some_2 tm (Z.to_nat (t / 32))) as [w Ew]; [rewrite Hl; by apply word_index|].
  rewrite Ew. case_if; [done|]. apply elem_of_cons in Hin as [->|Hin]; [|by apply IH].
  rewrite Ew in Hm. by rewrite E in Hm.
Qed.

Lemma core_inv_tmap xc xr st p s nmap : core_inv xc xr st -> core_sessions st !! p = Some s -> length nmap = TYPEMAP_WORDS ->
  core_inv xc xr (set_sessions (<[p := set_tmap nmap s]> (core_sessions st)) st).
Proof.
  intros Hi Hs Hl. apply (core_inv_session me _ _ _ _ s); [done|done| |done].
  destruct (ci_sessions _ _ _ _ Hi p s Hs). by split.
Qed.

Lemma add_to_typemap_runs xc xr p type st : core_good xc xr st -> is_u16 type ->
  p = me \/ is_Some (core_sessions st !! p) ->
  exists st' e, with_sessions no_drop p (GSC_SESSIONS_add_to_typemap me p type) st = Some (st', e)
    /\ core_good xc xr st' /\ evolves st st' /\ (p <> me -> neighbour_handles st' p type).
Proof.
  intros [Hi Hc] Ht Hs. unfold with_sessions, GSC_SESSIONS_add_to_typemap, find_session. case_bool_decide as Hp.
  { exists st, []. split_and!; [by destruct st|done|apply evolves_refl|done]. }
  destruct Hs as [|[s Hs]]; [done|]. rewrite Hs. pose proof (ci_sessions _ _ _ _ Hi p s Hs) as [P Q T].
  destruct (test_match_total (Some (s_tmap s)) [type]) as [E|E]; [by intros tm [= <-]|by constructor|..]; rewrite E.
  { exists st, []. split_and!; [by destruct st|done|apply evolves_refl|]. intros _. by exists s. }
  change (GNUNET_YES =? GNUNET_NO) with false. destruct (extend_one (s_tmap s) type T Ht) as (nmap & En & L). rewrite En.
  set (st1 := set_sessions _ st). assert (Hv : view st !! p = Some (s_tmap s)) by (unfold view; by rewrite lookup_fmap, Hs).
  destruct (notified no_drop xc xr (view st) p (set_tmap nmap s) st1) as (st' & e & E' & Hg & [F1 F2 F3 F4 F5] & Hse).
  - by apply core_inv_tmap.
  - cbn. by rewrite lookup_insert_eq.
  - exact Hc.
  - intros q tm. by eapply view_length.
  - apply view_insert.
  - exists st', e. rewrite Hv in E'. split_and!; [exact E'|done| |].
    + split; [exact F1|exact F2|exact F3| |exact F5]. intros q Hq. apply F4. cbn.
      destruct (decide (q = p)) as [->|Hne]; [by rewrite lookup_insert_eq|by rewrite lookup_insert_ne].
    + intros _. exists (set_tmap nmap s). rewrite Hse. cbn. rewrite lookup_insert_eq. split; [done|]. by eapply extend_matches.
Qed.

(** ** Operations on sessions *)

Hypothesis hash_bytes : forall block, hash_ok (GNUNET_CRYPTO_hash block).

Lemma same_sessions st : set_sessions (core_sessions st) st = st.
Proof. by destruct st. Qed.

Lemma set_typemap_runs env p mem st : core_good None None st ->
  runs None None st (with_sessions no_drop p (GSC_SESSIONS_set_typemap env p mem) st).
Proof.
  intros [Hi Hc]. assert (Hnone : runs None None st (Some (set_sessions (core_sessions st) st, [])))
    by (rewrite same_sessions; by apply runs_none).
  unfold with_sessions, GSC_SESSIONS_set_typemap, find_session.
  destruct (GSC_TYPEMAP_get_from_message mem) as [nmap|] eqn:En; [|exact Hnone].
  destruct (core_sessions st !! p) as [s|] eqn:Hs; [|exact Hnone]. clear Hnone.
  pose proof (get_from_message_length mem nmap En) as L. pose proof (ci_sessions _ _ _ _ Hi p s Hs) as [P Q T].
  unfold on_session, session_set_typemap. set (s1 := set_smes _ s).
  assert (Hok : session_ok p s1).
  { split; [done| |done]. apply control_entry_inv; [done| |done|by right]. by destruct (confirmation_message_sendable nmap (hash_bytes _)). }
  destruct (try_ok me no_drop env None None p s1 (set_tmap nmap) st) as (s' & ev & st1 & e & E & Ee & Hi1 & (A0 & A1 & A2 & A3 & A4 & A5) & Ht).
  - by apply (core_inv_session me _ _ _ _ s).
  - done.
  - intros s2 []. by split.
  - done.
  - rewrite E, for_each_app. unfold and_then. rewrite Ee.
    assert (Hv : view st !! p = Some (s_tmap s')) by (unfold view; rewrite lookup_fmap, Hs, Ht; done).
    destruct (notified no_drop None None (view st) p (set_tmap nmap s') st1 Hi1) as (st2 & e2 & E2 & Hg & He & _).
    + rewrite A3. cbn. by rewrite lookup_insert_eq.
    + by apply (requests_conns me _ st).
    + intros q tm. by eapply view_length.
    + unfold view. rewrite A3. apply (view_insert st).
    + rewrite Hv in E2. cbn [set_tmap s_tmap] in E2. rewrite E2. exists st2, (e ++ e2). split_and!; [done|done|].
      eapply evolves_trans; [|exact He]. split; [done|done|done| |].
      * intros q Hq. rewrite A3. cbn. destruct (decide (q = p)) as [->|Hne]; [by rewrite lookup_insert_eq|by rewrite lookup_insert_ne].
      * intros id. specialize (A5 id). cbn [set_sessions client_store] in A5.
        destruct A5 as [c c' (r & -> & Hr)|]; by constructor.
Qed.

(** An operation that changes the session to [s1] and transmits. *)
Lemma try_runs drop env xc xr p s s1 st : core_good xc xr st -> core_sessions st !! p = Some s ->
  session_ok p s1 -> active_client_requests s1 = active_client_requests s -> s_tmap s1 = s_tmap s ->
  runs xc xr st (with_sessions drop p
    (fun m => let? (s', e) := try_transmission_now env s1 in Some (<[p := s']> m, e)) st).
Proof.
  intros [Hi Hc] Hs Hok Ha Ht. eapply quietly_runs; [done|].
  apply (session_try_quietly me drop env xc xr p s s1 (fun s => s)); try done. by apply (core_inv_session me _ _ _ _ s).
Qed.

Lemma solicit_runs env p st : core_good None None st ->
  runs None None st (with_sessions no_drop p (GSC_SESSIONS_solicit env p) st).
Proof.
  intros Hg. unfold GSC_SESSIONS_solicit, find_session.
  destruct (core_sessions st !! p) as [s|] eqn:Hs.
  - pose proof (ci_sessions _ _ _ _ (proj1 Hg) p s Hs) as [P Q T].
    destruct (try_runs no_drop env None None p s (set_ready GNUNET_YES s) st Hg Hs) as (st' & e & E & ?); [done..|].
    exists st', e. split; [|done]. rewrite <- E. unfold with_sessions. by rewrite Hs.
  - exists st, []. unfold with_sessions. rewrite Hs. split_and!; [by destruct st|done|apply evolves_refl].
Qed.

Lemma pop_cork_runs env p s st : core_good None None st -> core_sessions st !! p = Some s ->
  runs None None st (with_sessions no_drop p (fun m => on_session p (pop_cork_task env) m s) st).
Proof.
  intros Hg Hs. pose proof (ci_sessions _ _ _ _ (proj1 Hg) p s Hs) as [P Q T].
  by apply (try_runs no_drop env None None p s (set_cork None s) st Hg Hs).
Qed.

(** A change of the session alone. *)
Lemma session_only_runs drop p s s1 e st : core_good None None st -> core_sessions st !! p = Some s -> session_ok p s1 ->
  active_client_requests s1 = active_client_requests s -> s_tmap s1 = s_tmap s ->
  Forall (fun x => exists m, x = EncryptAndTransmit m) e ->
  runs None None st (with_sessions drop p (fun m => Some (<[p := s1]> m, e)) st).
Proof.
  intros [Hi Hc] Hs Hok Ha Ht He. unfold with_sessions.
  assert (Hfor : forall st, exists e', for_each (session_call drop p) e st = Some (st, e')).
  { induction He as [|x e [m ->] _ IH]; intros st'; [by exists []|]. destruct (IH st') as [e' E]. cbn [for_each].
    exists (KxTransmit p m :: e'). unfold and_then at 1. cbn [session_call]. by rewrite E. }
  destruct (Hfor (set_sessions (<[p := s1]> (core_sessions st)) st)) as [e' ->]. eexists _, _. split_and!; [done| |].
  - split; [by apply (core_inv_session me _ _ _ _ s)|]. by rewrite (view_same st p s s1 Hs Ht).
  - split; try done; [|apply (ev_store st st (evolves_refl st))]. intros q Hq. cbn.
    destruct (decide (q = p)) as [->|Hne]; [by rewrite lookup_insert_eq|by rewrite lookup_insert_ne].
Qed.

Lemma typemap_task_runs r hdr p s st : core_good None None st -> core_sessions st !! p = Some s ->
  runs None None st (with_sessions no_drop p (fun m => on_session p (fun s => Some (transmit_typemap_task r hdr s)) m s) st).
Proof.
  intros Hg Hs. pose proof (ci_sessions _ _ _ _ (proj1 Hg) p s Hs) as [P Q T].
  apply (session_only_runs no_drop p s); [done|done|by split|done|done|]. repeat constructor. by eexists.
Qed.

Lemma reinit_runs p st : core_good None None st ->
  runs None None st (with_sessions no_drop p (GSC_SESSIONS_reinit p) st).
Proof.
  intros Hg. unfold GSC_SESSIONS_reinit, find_session. destruct (core_sessions st !! p) as [s|] eqn:Hs.
  - pose proof (ci_sessions _ _ _ _ (proj1 Hg) p s Hs) as [P Q T].
    destruct (session_only_runs no_drop p s (start_typemap_task s) [] st Hg Hs) as (st' & e & E & ?);
      [by split|done|done|constructor|]. exists st', e. split; [|done]. rewrite <- E. unfold with_sessions. by rewrite Hs.
  - exists st, []. unfold with_sessions. rewrite Hs. split_and!; [by destruct st|done|apply evolves_refl].
Qed.

(** ** Sessions come and go *)

Lemma core_inv_create p st : core_inv None None st -> p <> me -> core_sessions st !! p = None ->
  core_inv None None (set_sessions (<[p := new_session p]> (core_sessions st)) st).
Proof.
  intros [L N M S Y Q I W X U K] Hp Hs.
  split; cbn [set_sessions client_store client_list core_sessions core_typemap]; try done.
  - by rewrite lookup_insert_ne.
  - apply map_Forall_insert_2; [|done]. split; [done|apply queue_inv_nil|done].
  - intros q s car Hq. destruct (decide (q = p)) as [->|Hne]; [|rewrite lookup_insert_ne in Hq by done; by apply Q].
    rewrite lookup_insert_eq in Hq. injection Hq as <-. intros Hin. by apply elem_of_nil in Hin.
  - intros q s Hq. destruct (decide (q = p)) as [->|Hne]; [|rewrite lookup_insert_ne in Hq by done; by eapply I].
    rewrite lookup_insert_eq in Hq. injection Hq as <-. constructor.
  - intros id c rq q rid Hc Hrq Hr Hme Hx. destruct (W id c rq q rid Hc Hrq Hr Hme Hx) as (s & car & Hq & ?).
    exists s, car. rewrite lookup_insert_ne; [done|]. intros ->. congruence.
Qed.

Lemma create_runs p st : core_good None None st -> p <> me -> core_sessions st !! p = None ->
  runs None None st (with_sessions no_drop p (GSC_SESSIONS_create p) st).
Proof.
  intros [Hi Hc] Hp Hs. unfold with_sessions, GSC_SESSIONS_create, find_session. rewrite bool_decide_true by done.
  destruct (notified no_drop None None (view st) p (new_session p)
    (set_sessions (<[p := new_session p]> (core_sessions st)) st)) as (st' & e & E & Hg & [F1 F2 F3 F4 F5] & _).
  - by apply core_inv_create.
  - cbn. by rewrite lookup_insert_eq.
  - exact Hc.
  - intros q tm. by eapply view_length.
  - apply view_insert.
  - assert (Hv : view st !! p = None) by (unfold view; by rewrite lookup_fmap, Hs). rewrite Hv in E.
    exists st', e. split_and!; [exact E|done|]. split; [done|done|done| |done].
    intros q Hq. apply F4. cbn. destruct (decide (q = p)) as [->|Hne]; [by rewrite lookup_insert_eq|by rewrite lookup_insert_ne].
Qed.

Lemma rejected_all l : rejected (map (fun car => RejectRequest car GNUNET_NO) l) = l.
Proof. induction l as [|c l IH]; [done|]. cbn. by rewrite IH. Qed.

(** All requests of the session are taken from their clients. *)
Lemma core_inv_end p s st store : core_inv None None st -> core_sessions st !! p = Some s ->
  forgotten p (active_client_requests s) (client_store st) store ->
  core_inv None None (set_store store (set_sessions (delete p (core_sessions st)) st)).
Proof.
  intros [L N M S Y Q I W X U K] Hs Hfo.
  split; cbn [set_store set_sessions client_store client_list core_sessions core_typemap]; try done.
  - intros id Hid. destruct (L id Hid) as [c Hc]. destruct (forgotten_fwd _ _ _ _ id c Hfo Hc) as (c' & -> & _). by eexists.
  - by rewrite lookup_delete_None; right.
  - by apply map_Forall_delete.
  - intros id c' Hc'. destruct (forgotten_back _ _ _ _ id c' Hfo Hc') as (c & Hc & [[-> _]|(rq & _ & ->)]); exact (Y id c Hc).
  - intros q t car [Hne Hq]%lookup_delete_Some Hcar. destruct (Q q t car Hq Hcar) as [Ht [[? _]|(c & rq & Hc & Hrq & Hr)]]; [done|].
    split; [done|right]. destruct (forgotten_fwd _ _ _ _ _ c Hfo Hc) as (c' & -> & [[-> _]|(rq2 & Hrq2 & ->)]); [eauto|].
    eexists _, (delete p rq2). split_and!; [done|done|]. rewrite lookup_delete_ne by done. congruence.
  - intros q t [_ Hq]%lookup_delete_Some. by eapply I.
  - intros id c' rq' q rid Hc' Hrq' Hr Hme Hx.
    destruct (forgotten_back _ _ _ _ id c' Hfo Hc') as (c & Hc & Hcase).
    assert (Hold : exists rq, c_requests c = Some rq /\ rq !! q = Some rid /\ q <> p).
    { destruct Hcase as [[-> Hne]|(rq & Hrq & ->)].
      - exists rq'. split_and!; [done|done|]. intros ->.
        destruct (W id c rq' p rid Hc Hrq' Hr Hme ltac:(done)) as (s2 & car & Hs2 & Hcar & _ & Ecl).
        assert (s2 = s) as -> by congruence. by apply (Hne car Hcar).
      - cbn in Hrq'. injection Hrq' as <-. apply lookup_delete_Some in Hr as [Hne Hr]. by exists rq. }
    destruct Hold as (rq & Hrq & Hrid & Hqp).
    destruct (W id c rq q rid Hc Hrq Hrid Hme ltac:(done)) as (t & car & Ht & ?). exists t, car. by rewrite lookup_delete_ne.
Qed.

(** What a session end leaves of the clients and the service. *)
Record stays (st st' : CoreState) : Prop := {
  st_list : client_list st' = client_list st;
  st_options : all_client_options st' = all_client_options st;
  st_typemap : core_typemap st' = core_typemap st;
  st_store : forall id, option_Forall2 (fun c c' => c_types c' = c_types c /\ c_options c' = c_options c
    /\ got_init c' = got_init c)
    (client_store st !! id) (client_store st' !! id);
}.

Lemma end_runs p st : core_good None None st ->
  exists st' e, with_sessions no_drop p (GSC_SESSIONS_end p) st = Some (st', e) /\ core_good None None st' /\ stays st st'.
Proof.
  intros [Hi Hc]. unfold with_sessions, GSC_SESSIONS_end, find_session.
  destruct (core_sessions st !! p) as [s|] eqn:Hs.
  2: { exists st, []. split_and!; [by destruct st|done|]. split; [done..|]. intros id. destruct (client_store st !! id); by constructor. }
  assert (Hp : p <> me) by (intros ->; rewrite (ci_me _ _ _ _ Hi) in Hs; done).
  set (ev := map _ _). set (st1 := set_sessions (delete p (core_sessions st)) st).
  destruct (harmless_ok no_drop p ev st1) as (store & e & E & Hfo).
  - unfold ev. apply Forall_map, Forall_forall. done.
  - unfold ev. rewrite rejected_all. by apply (ci_ids _ _ _ _ Hi p s).
  - unfold ev. rewrite rejected_all. intros car Hcar.
    destruct (ci_queued _ _ _ _ Hi p s car Hs Hcar) as [Ht [[? _]|(c & rq & ?)]]; [done|]. split; [done|].
    exists c, rq. by rewrite Ht.
  - unfold ev in Hfo. rewrite rejected_all in Hfo. rewrite for_each_app. unfold and_then at 1. rewrite E.
    assert (Hc2 : conns (view st) (set_store store st1)).
    { intros id c' Hid Hc'. destruct (forgotten_back _ _ _ _ id c' Hfo Hc') as (c & Hcc & [[-> _]|(rq & _ & ->)]).
      - by apply (Hc id).
      - destruct (Hc id c Hid Hcc). by split. }
    destruct (notify_clients_ok me None None (view st) p None (set_store store st1)) as (st' & e' & E' & Hi' & Hc' & F1 & F2 & F3 & F4 & F5);
      [by apply (core_inv_end p s)|done|done|intros q tm; by eapply view_length|done|].
    assert (Hv : view st !! p = Some (s_tmap s)) by (unfold view; by rewrite lookup_fmap, Hs). rewrite Hv in E'.
    exists st', (e ++ e' ++ []). cbn [for_each session_call]. unfold and_then at 1. rewrite E'. split_and!; [done|split; [done|]|].
    + assert (view st' = change p None (view st)) as ->; [|done]. unfold view. rewrite F3. cbn. by rewrite fmap_delete.
    + split; [done|done|done|]. intros id. specialize (F5 id). cbn [set_store client_store st1] in F5.
      destruct (client_store st !! id) as [c|] eqn:Hcc.
      * destruct (forgotten_fwd _ _ _ _ id c Hfo Hcc) as (c1 & Ec1 & Hrem). rewrite Ec1 in F5.
        inversion F5 as [x y (X1 & X2 & X3 & X4)|]; subst. constructor.
        destruct Hrem as [[-> _]|(rq & Hrq & ->)]; [done|]. done.
      * destruct (store !! id) as [c1|] eqn:Ec1; [destruct (forgotten_back _ _ _ _ id c1 Hfo Ec1) as (c & Hc3 & _); change (client_store st !! id = Some c) in Hc3; congruence|].
        inversion F5. constructor.
Qed.

(** ** The type map of the service *)

Hypothesis compress_bytes : forall data out, compress2 data = Some out -> bytes_ok out.
Hypothesis order_keys : forall A (m : gmap (list Z) A), order A m ≡ₚ (map_to_list m).*1.

Lemma order_elem {A} (m : gmap (list Z) A) p : p ∈ order A m <-> is_Some (m !! p).
Proof.
  rewrite (order_keys A m). rewrite list_elem_of_fmap. split.
  - intros ([q x] & -> & Hx%elem_of_map_to_list). by eexists.
  - intros [x Hx]. exists (p, x). split; [done|]. by apply elem_of_map_to_list.
Qed.

Lemma order_nodup {A} (m : gmap (list Z) A) : NoDup (order A m).
Proof. rewrite (order_keys A m). apply NoDup_fst_map_to_list. Qed.

Lemma typemap_bytes_ok tm : bytes_ok (typemap_bytes tm).
Proof. unfold typemap_bytes. induction tm as [|w tm IH]; [constructor|]. cbn [map concat]. apply Forall_app_2; [apply bytes_ok_le_encode|done]. Qed.

Lemma typemap_bytes_length tm : length tm = TYPEMAP_WORDS -> Z.of_nat (length (typemap_bytes tm)) = sizeof_TypeMap.
Proof.
  intros Hl. unfold typemap_bytes, sizeof_TypeMap. change 8192 with (4 * Z.of_nat TYPEMAP_WORDS). rewrite <- Hl. clear.
  induction tm as [|w tm IH]; [done|]. cbn [map concat length]. rewrite length_app, length_le_encode. lia.
Qed.

Lemma typemap_message_sendable type body : bytes_ok body -> Z.of_nat (length body) <= sizeof_TypeMap ->
  type = CORE_BINARY_TYPE_MAP \/ type = CORE_COMPRESSED_TYPE_MAP ->
  sendable (typemap_message type body) /\ control_type (typemap_message type body) = true.
Proof.
  intros Hb Hl Ht. unfold sizeof_TypeMap in Hl.
  assert (Hu : is_u16 type) by (destruct Ht as [-> | ->]; by split).
  destruct (typemap_message_fields type body [] Hu) as (Hsz & Hty & _); [lia|]. rewrite app_nil_r in Hsz, Hty.
  assert (L : Z.of_nat (length (typemap_message type body)) = Z.of_nat (length body) + 4)
    by (unfold typemap_message; rewrite !length_app, !length_be_encode; lia).
  split; [split; [split|]|].
  - unfold typemap_message. repeat (apply Forall_app_2; [apply bytes_ok_be_encode|]). done.
  - lia.
  - rewrite Hsz. unfold sizeof_MessageHeader. lia.
  - rewrite L. unfold GNUNET_CONSTANTS_MAX_ENCRYPTED_MESSAGE_SIZE. lia.
  - unfold control_type. rewrite Hty. by destruct Ht as [-> | ->].
Qed.

Lemma type_map_message_sendable tms : length (my_type_map tms) = TYPEMAP_WORDS ->
  sendable (GSC_TYPEMAP_compute_type_map_message tms) /\ control_type (GSC_TYPEMAP_compute_type_map_message tms) = true.
Proof.
  intros Hl. pose proof (typemap_bytes_ok (my_type_map tms)) as Hb. pose proof (typemap_bytes_length _ Hl) as Hn.
  unfold GSC_TYPEMAP_compute_type_map_message.
  destruct (compress2 _) as [out|] eqn:E; [rewrite Z.geb_leb; split_ifs|];
    apply typemap_message_sendable; auto; try lia. by eapply compress_bytes.
Qed.

Lemma broadcast_quietly env msg xc xr st : core_inv xc xr st -> sendable msg -> control_type msg = true ->
  quietly (fun _ _ => False) xc xr st (GSC_SESSIONS_broadcast_typemap order env msg st).
Proof.
  intros Hi Hm Hct. unfold GSC_SESSIONS_broadcast_typemap. apply quietly_for_each; [done|].
  intros p st1 Hp Hi1 (_ & _ & _ & Hv & _). apply order_elem, view_Some in Hp. rewrite <- Hv in Hp.
  apply view_Some in Hp as [s Hs]. pose proof (ci_sessions _ _ _ _ Hi1 p s Hs) as [P Q T].
  set (sme := mk_sme GNUNET_CORE_PRIO_CRITICAL_CONTROL GNUNET_YES GNUNET_NO (mk_abs 0) msg).
  set (s1 := set_smes (sme :: remove_first is_typemap (smes s)) s).
  assert (Hok : session_ok p s1).
  { split; [done| |done]. apply control_entry_inv; [done| |done|by left]. by split. }
  destruct (session_try_quietly me no_drop (session_env env p st1) xc xr p s s1 start_typemap_task st1) as (st2 & e & E & Hi2 & Hq2).
  - done.
  - by apply (core_inv_session me _ _ _ _ s).
  - done.
  - done.
  - intros s2 []. by split.
  - done.
  - exists st2, e. split_and!; [|done|by eapply quiet_weaken; [|exact Hq2]]. rewrite <- E. unfold with_sessions. rewrite Hs.
    unfold on_session, do_restart_typemap_message. fold sme. fold s1.
    by destruct (try_transmission_now _ s1) as [[s2 e2]|].
Qed.

Lemma core_inv_typemap xc xr tms st : core_inv xc xr st -> length (my_type_map tms) = TYPEMAP_WORDS ->
  core_inv xc xr (set_typemap tms st).
Proof. intros [L N M S Y Q I W X U K] Hl. by split. Qed.

(** The new map is announced if it was changed. *)
Lemma typemap_changed_quietly env tms msg xc xr st : core_inv xc xr st -> length (my_type_map tms) = TYPEMAP_WORDS ->
  match msg with Some m => m = GSC_TYPEMAP_compute_type_map_message tms | None => True end ->
  quietly (fun _ _ => False) xc xr (set_typemap tms st) (typemap_changed order env (Some (tms, msg)) st).
Proof.
  intros Hi Hl Hm. pose proof (core_inv_typemap xc xr tms st Hi Hl) as Hi'. unfold typemap_changed. destruct msg as [m|].
  - subst m. destruct (type_map_message_sendable tms Hl). by apply broadcast_quietly.
  - eexists _, _. split_and!; [done|done|apply quiet_refl].
Qed.

(** ** Messages *)

(** A client that wants the message knows the sender. *)
Lemma type_match_connected V sender msg c : conn_ok me V c -> Forall is_u16 (types_of c) ->
  type_match (msg_type msg) c = GNUNET_YES ->
  sender = me \/ (sender <> me /\ exists tm, V !! sender = Some tm /\ length tm = TYPEMAP_WORDS
    /\ GSC_TYPEMAP_test_match (Some tm) [msg_type msg] = Some GNUNET_YES) ->
  c_options c <> 0 -> sender ∈ connectmap c.
Proof.
  intros [Hi Hf] Ht Hm Hs Ho. destruct (decide (got_init c = GNUNET_YES)) as [Hg|Hg]; [|by destruct (Hf Hg)].
  destruct (Hi Hg) as [Hme Hq]. destruct Hs as [->|(Hne & tm & Hv & Hl & Hh)]; [done|]. apply Hq; [done|].
  unfold neighbour_of. rewrite Hv. unfold type_match, tcnt in Hm. destruct (types_of c) as [|t types] eqn:Et; [done|].
  rewrite (proj2 (Z.eqb_neq 0 _)) in Hm by (cbn; lia). cbn [andb] in Hm.
  destruct (existsb _ _) eqn:E in Hm; [|done]. apply existsb_exists in E as (t' & Hin & E').
  apply Z.eqb_eq in E' as <-. apply (match_member tm (msg_type msg)); [done|done|by apply list_elem_of_In|done].
Qed.

Lemma deliver_to_client_ok env sender msg msize options id st xc xr : core_good xc xr st -> id ∈ client_list st ->
  sender = me \/ neighbour_handles st sender (msg_type msg) ->
  exists e, deliver_to_client env sender msg msize options id st = Some (st, e).
Proof.
  intros [Hi Hc] Hid Hs. destruct (ci_list _ _ _ _ Hi id Hid) as [c Hcc]. unfold deliver_to_client. rewrite Hcc.
  do 4 (case_if; [by eexists|]). destruct (has_option (c_options c) GNUNET_CORE_OPTION_SEND_FULL_INBOUND) eqn:Ho; [|by eexists].
  destruct (Z.eqb_spec GNUNET_YES (type_match (msg_type msg) c)) as [Ht|Ht]; [|by eexists].
  assert (Hin : sender ∈ connectmap c).
  { apply (type_match_connected (view st) sender msg); [by apply (Hc id)|by apply (ci_types _ _ _ _ Hi id)|done| |].
    - destruct Hs as [->|(s & Hse & Hh)]; [by left|]. destruct (decide (sender = me)) as [->|Hne]; [by left|]. right.
      split; [done|]. exists (s_tmap s). unfold view. rewrite lookup_fmap, Hse. split_and!; [done| |done].
      apply (so_tmap sender s). by apply (ci_sessions _ _ _ _ Hi).
    - intros Hz. by rewrite Hz in Ho. }
  unfold contains. rewrite bool_decide_true by done. by eexists.
Qed.

Lemma deliver_message_runs env sender msg msize options xc xr st : core_good xc xr st -> bytes_ok msg ->
  sender = me \/ is_Some (core_sessions st !! sender) ->
  runs xc xr st (GSC_CLIENTS_deliver_message me env sender msg msize options st).
Proof.
  intros Hg Hb Hs. unfold GSC_CLIENTS_deliver_message. do 2 (case_if; [by apply runs_none|]).
  destruct (add_to_typemap_runs xc xr sender (msg_type msg) st Hg) as (st1 & e1 & E1 & Hg1 & He1 & Hh);
    [by apply rd16_range|done|].
  assert (Hall : forall l, (forall id, id ∈ l -> id ∈ client_list st1) ->
    exists e, for_each (deliver_to_client env sender msg msize options) l st1 = Some (st1, e)).
  { induction l as [|id l IH]; intros Hl; [by exists []|]. cbn [for_each].
    destruct (deliver_to_client_ok env sender msg msize options id st1 xc xr Hg1) as [e Ee]; [apply Hl; by left| |].
    { destruct (decide (sender = me)); [by left|right; by apply Hh]. }
    destruct IH as [e' Ee']; [intros; apply Hl; by right|]. unfold and_then at 1. rewrite Ee, Ee'. by eexists. }
  destruct (Hall (client_list st1)) as [e2 E2]; [done|]. unfold and_then. rewrite E1, E2. by exists st1, (e1 ++ e2).
Qed.

Lemma deliver_both_runs env sender msg full hdr xc xr st : core_good xc xr st -> bytes_ok msg ->
  sender = me \/ is_Some (core_sessions st !! sender) -> runs xc xr st (deliver_both me env sender msg full hdr st).
Proof.
  intros Hg Hb Hs. apply (runs_trans xc xr); [by apply deliver_message_runs|]. intros st1 Hg1 He1.
  apply deliver_message_runs; [done|done|]. destruct Hs as [->|Hs]; [by left|]. right. by apply (ev_dom _ _ He1).
Qed.

Lemma transmit_runs env p car msg cork priority xc xr st : core_good xc xr st -> car_target car = p ->
  is_Some (core_sessions st !! p) -> sendable msg -> 0 <= priority <= GNUNET_CORE_PRIO_CRITICAL_CONTROL ->
  runs xc xr st (with_sessions no_drop p (GSC_SESSIONS_transmit env car msg cork priority) st).
Proof.
  intros Hg <- [s Hs] [Hw Hl] Hp. pose proof (ci_sessions _ _ _ _ (proj1 Hg) _ s Hs) as [P Q T].
  set (s1 := set_smes (insert_by_priority (new_entry env msg cork priority) (smes s)) s).
  destruct (try_runs no_drop env xc xr (car_target car) s s1 st Hg Hs) as (st' & e & E & ?); [|done|done|].
  - split; [done| |done]. apply insert_by_priority_inv; [done| |by split|cbn; lia].
    apply client_entry_ok; [by rewrite new_entry_msg|done|done].
  - exists st', e. split; [|done]. rewrite <- E. unfold with_sessions, GSC_SESSIONS_transmit, find_session. by rewrite Hs.
Qed.

Lemma tokenized_runs env id rid p cork priority msg xc xr st : core_good xc xr st ->
  p = me \/ is_Some (core_sessions st !! p) -> sendable msg -> 0 <= priority <= GNUNET_CORE_PRIO_CRITICAL_CONTROL ->
  runs xc xr st (tokenized_cb me env id rid p cork priority msg st).
Proof.
  intros Hg Hp Hm Hpr. assert (Hb : bytes_ok msg) by apply Hm.
  apply (runs_trans xc xr); [by apply deliver_both_runs|]. intros st1 Hg1 He1. case_bool_decide as Hme.
  - apply deliver_both_runs; [done|done|by left].
  - apply transmit_runs; try done. destruct Hp as [|Hp]; [done|]. by apply (ev_dom _ _ He1).
Qed.

(** ** Sending *)

(** The request is in the session of the peer, and was solicited. *)
Definition solicited (st : CoreState) (p : list Z) (rid : Z) : Prop :=
  match core_sessions st !! p with
  | Some s => Exists (fun car => car_id car = rid /\ was_solicited car = GNUNET_YES) (active_client_requests s)
  | None => False
  end.

#[global] Instance solicited_dec st p rid : Decision (solicited st p rid).
Proof. unfold solicited. destruct (core_sessions st !! p); apply _. Defined.

Section Sending.
Context (ALIGN_FACTOR : Z) (fresh : nat -> Z) (env : CoreEnv) (id : Z) (p : list Z) (priority cork buf : Z) (data : list Z).
Hypothesis data_bytes : bytes_ok data.
Hypothesis data_length : Z.of_nat (length data) < GNUNET_CONSTANTS_MAX_ENCRYPTED_MESSAGE_SIZE.
Hypothesis priority_range : 0 <= priority <= GNUNET_CORE_PRIO_CRITICAL_CONTROL.

(** All messages in the buffer are handed on, one after the other. *)
Lemma messages_run rid xc xr st : core_good xc xr st -> p = me \/ is_Some (core_sessions st !! p) ->
  exists m r ret, GNUNET_MST_from_buffer ALIGN_FACTOR fresh
      (fun (cls : result) (m : list Z) => (and_then cls (tokenized_cb me env id rid p cork priority m), GNUNET_OK))
      GNUNET_MST_create (Some (st, [])) buf data true GNUNET_NO = Some (m, r, ret)
    /\ runs xc xr st r.
Proof.
  intros Hg Hp. set (cb := fun (cls : result) (m : list Z) => _).
  destruct (from_buffer_spec ALIGN_FACTOR fresh cb GNUNET_MST_create (Some (st, [])) buf data true GNUNET_NO)
    as (m & r & ret & E & _ & Hk & _); [apply tokenizer_create_wf|done|..].
  { unfold GNUNET_CONSTANTS_MAX_ENCRYPTED_MESSAGE_SIZE in data_length. cbn. lia. }
  exists m, r, ret. split; [exact E|].
  assert (Er : r = fst (fst (tokenize cb GNUNET_NO (Some (st, [])) (unread GNUNET_MST_create ++ data)))).
  { unfold keep in Hk. destruct (tokenize cb _ _ _) as [[cls1 ret1] rest1]. injection Hk as -> _. done. }
  rewrite Er. apply (tokenize_keeps cb (runs xc xr st) (length data)).
  - done.
  - done.
  - by apply runs_none.
  - intros cls msg Hr Hw Hl. cbn [cb fst]. apply (runs_trans xc xr); [done|]. intros st1 Hg1 He1.
    apply tokenized_runs; [done| |split; [done|lia]|done]. destruct Hp as [->|Hp]; [by left|]. right. by apply (ev_dom _ _ He1).
Qed.

Lemma send_runs st c rq : core_good None None st -> client_store st !! id = Some c -> c_requests c = Some rq ->
  (forall rid, rq !! p = Some rid -> p = me \/ solicited st p rid) ->
  runs None None st (handle_client_send me ALIGN_FACTOR fresh env id p priority cork buf data st).
Proof.
  intros Hg Hc Hrq Hsol. unfold handle_client_send. rewrite Hc, Hrq.
  destruct (rq !! p) as [rid|] eqn:Hr; [|by apply runs_none]. specialize (Hsol rid eq_refl).
  assert (Hreq : request_of (client_store st) id p = Some rid) by (apply request_of_Some; eauto).
  rewrite (forget_request_without id p rid st Hreq). set (st1 := set_store _ st).
  pose proof (without_quiet id p st) as Hq. fold st1 in Hq. pose proof (quiet_evolves _ _ _ Hq) as He.
  assert (Hc1 : conns (view st1) st1) by (eapply quiet_conns; [exact Hq|apply Hg]).
  assert (Hxc : exists xc, core_inv xc None st1 /\ (p = me \/ is_Some (core_sessions st !! p))
    /\ forall st', core_good xc None st' -> evolves st1 st' -> runs None None st' (dequeue_request me env id p rid st')).
  { destruct (decide (p = me)) as [->|Hp].
    - exists None. split_and!; [by apply forget_loopback, Hg|by left|]. intros st' Hg' _. rewrite dequeue_loopback. by apply runs_none.
    - destruct Hsol as [|Hsol]; [done|]. unfold solicited in Hsol. destruct (core_sessions st !! p) as [s|] eqn:Hs; [|done].
      apply Exists_exists in Hsol as (car & Hcar & Hid & Hy). exists (Some (id, p, rid)).
      split_and!; [apply (forget_to_send me st id p rid s car); try done; apply Hg|right; by eexists|].
      intros st' Hg' He'. destruct (ev_dom _ _ He' p) as [s' Hs']; [by exists s|].
      eapply quietly_runs; [apply Hg'|]. apply (dequeue_sent me env st' id p rid s'); [apply Hg'|done|done]. }
  destruct Hxc as (xc & Hi & Hp & Hd). destruct (messages_run rid xc None st1) as (m & r & ret & E & Hr1); [done|done|].
  rewrite E. destruct (runs_trans xc None None None st1 r (dequeue_request me env id p rid) Hr1 Hd) as (st' & e & E' & Hg' & He').
  exists st', e. split_and!; [exact E'|done|by eapply evolves_trans].
Qed.
End Sending.

(** ** The state of the service *)

Definition types_in (store : gmap Z GSC_Client) (id : Z) : option (list Z) :=
  match store !! id with Some c => c_types c | None => None end.

(** The types that clients have registered. *)
Definition registered (st : CoreState) : list (list Z) := omap (types_in (client_store st)) (client_list st).

(** What the service keeps of its clients together. *)
Record core_books (st : CoreState) : Prop := {
  ok_store : forall id, is_Some (client_store st !! id) -> id ∈ client_list st;
  ok_clients : forall id c, client_store st !! id = Some c -> got_init c = GNUNET_YES <-> is_Some (c_types c);
  ok_options : forall n, Z.testbit (all_client_options st) n = true <->
    exists id c, client_store st !! id = Some c /\ Z.testbit (c_options c) n = true;
  ok_types : exists clients, clients ≡ₚ registered st /\ typemap_inv (core_typemap st) clients;
}.

Record core_ok (st : CoreState) : Prop := {
  ok_good : core_good None None st;
  ok_books : core_books st;
}.

Lemma registered_ext st st' : client_list st' = client_list st ->
  (forall id, id ∈ client_list st -> types_in (client_store st') id = types_in (client_store st) id) ->
  registered st' = registered st.
Proof.
  unfold registered. intros -> Ht. induction (client_list st) as [|id l IH]; [done|]. cbn [omap list_omap].
  rewrite (Ht id) by (by left). rewrite IH by (intros; apply Ht; by right). done.
Qed.

Lemma stays_refl st : stays st st.
Proof. split; [done..|]. intros id. destruct (client_store st !! id); by constructor. Qed.

Lemma evolves_stays st st' : evolves st st' -> stays st st'.
Proof.
  intros [A1 A2 A3 _ A5]. split; [done..|]. intros id. destruct (A5 id) as [c c' (? & ? & ? & _)|]; by constructor.
Qed.

Lemma stays_client st st' id c' : stays st st' -> client_store st' !! id = Some c' ->
  exists c, client_store st !! id = Some c /\ c_types c' = c_types c /\ c_options c' = c_options c
    /\ got_init c' = got_init c.
Proof. intros [_ _ _ H] Hc. specialize (H id). rewrite Hc in H. inversion H as [c ? Hr E|]; subst. by exists c. Qed.

Lemma stays_client_fwd st st' id c : stays st st' -> client_store st !! id = Some c ->
  exists c', client_store st' !! id = Some c' /\ c_types c' = c_types c /\ c_options c' = c_options c
    /\ got_init c' = got_init c.
Proof. intros [_ _ _ H] Hc. specialize (H id). rewrite Hc in H. inversion H as [? c' Hr E|]; subst. by exists c'. Qed.

Lemma stays_types st st' id : stays st st' -> types_in (client_store st') id = types_in (client_store st) id.
Proof. intros [_ _ _ H]. unfold types_in. destruct (H id) as [c c' [Ht _]|]; done. Qed.

Lemma stays_registered st st' : stays st st' -> registered st' = registered st.
Proof. intros Hs. apply registered_ext; [apply Hs|]. intros id _. by apply stays_types. Qed.

Lemma stays_books st st' : core_books st -> stays st st' -> core_books st'.
Proof.
  intros [T C O Y] Hs. split.
  - intros id [c' Hc']. destruct (stays_client st st' id c' Hs Hc') as (c & Hc & _). rewrite (st_list _ _ Hs). apply T. by eexists.
  - intros id c' Hc'. destruct (stays_client st st' id c' Hs Hc') as (c & Hc & Et & _ & Ei). rewrite Et, Ei. by apply (C id).
  - intros n. rewrite (st_options _ _ Hs), O. split.
    + intros (id & c & Hc & Hn). destruct (stays_client_fwd st st' id c Hs Hc) as (c' & Hc' & _ & Eo & _). exists id, c'. by rewrite Eo.
    + intros (id & c' & Hc' & Hn). destruct (stays_client st st' id c' Hs Hc') as (c & Hc & _ & Eo & _). exists id, c. by rewrite <- Eo.
  - destruct Y as (clients & Hp & Hti). exists clients. by rewrite (stays_registered st st' Hs), (st_typemap _ _ Hs).
Qed.

Lemma stays_ok st st' : core_ok st -> core_good None None st' -> stays st st' -> core_ok st'.
Proof. intros [_ Hb] Hg Hs. split; [done|]. by eapply stays_books. Qed.

Lemma runs_ok st r : core_ok st -> runs None None st r -> exists st' e, r = Some (st', e) /\ core_ok st' /\ evolves st st'.
Proof.
  intros Hok (st' & e & -> & Hg & He). exists st', e. split_and!; [done| |done]. by apply (stays_ok st); [|done|apply evolves_stays].
Qed.

(** ** Clients go *)

Lemma core_inv_off_list id st : core_inv None None st ->
  core_inv None None (set_list (filter (fun i => i <> id) (client_list st)) st).
Proof.
  intros [L N M S Y Q I W X U K]. split; cbn [set_list client_store client_list core_sessions core_typemap]; try done.
  - intros i [_ Hi]%list_elem_of_filter. by apply L.
  - by apply NoDup_filter.
Qed.

(** Every request of the client is given up. *)
Lemma destroy_all_quietly env id l st : NoDup l -> core_inv None None st ->
  (forall k, k ∈ l -> is_Some (request_of (client_store st) id k)) ->
  exists st' e, for_each (destroy_active_client_request me env id) l st = Some (st', e) /\ core_inv None None st'
    /\ quiet (fun _ _ => False) st st' /\ forall k, k ∈ l -> request_of (client_store st') id k = None.
Proof.
  intros Hn. revert st. induction Hn as [|k l Hk _ IH]; intros st Hi Hl.
  { exists st, []. split_and!; [done|done|apply quiet_refl|]. intros k Hk. by apply elem_of_nil in Hk. }
  destruct (Hl k) as [rid Hr]; [by left|].
  destruct (destroy_quietly me env st id k rid Hi Hr) as (st1 & e1 & E1 & Hi1 & Hq1 & Hnone).
  destruct (IH st1 Hi1) as (st2 & e2 & E2 & Hi2 & Hq2 & Hgone).
  { intros k' Hk'. destruct Hq1 as ((Hkeep & _) & _). rewrite Hkeep; [apply Hl; by right|]. by intros ->. }
  exists st2, (e1 ++ e2). cbn [for_each]. unfold and_then at 1. rewrite E1, E2. split_and!; [done|done| |].
  - eapply quiet_trans; [|exact Hq2]. by eapply quiet_weaken; [|exact Hq1].
  - intros k' [->|Hk']%elem_of_cons; [|by apply Hgone]. destruct Hq2 as ((_ & Hsh) & _). destruct (Hsh id k) as [->|]; done.
Qed.

(** A client without requests is freed. *)
Lemma core_inv_free id opts st : core_inv None None st -> id ∉ client_list st ->
  (forall q, request_of (client_store st) id q = None) ->
  core_inv None None (set_options opts (set_store (delete id (client_store st)) st)).
Proof.
  intros [L N M S Y Q I W X U K] Hid Hnone.
  split; cbn [set_options set_store client_store client_list core_sessions core_typemap]; try done.
  - intros i Hi. rewrite lookup_delete_ne; [by apply L|]. by intros ->.
  - intros i c [_ Hc]%lookup_delete_Some. by eapply Y.
  - intros q s car Hs Hcar. destruct (Q q s car Hs Hcar) as [Ht [[? _]|(c & rq & Hc & Hrq & Hr)]]; [done|]. split; [done|right].
    exists c, rq. rewrite lookup_delete_ne; [done|]. intros E. specialize (Hnone q). rewrite E in Hnone.
    unfold request_of in Hnone. rewrite Hc, Hrq, Hr in Hnone. done.
  - intros i c rq q rid [_ Hc]%lookup_delete_Some. by eapply W.
Qed.

Lemma registered_without st id c : id ∈ client_list st -> NoDup (client_list st) -> client_store st !! id = Some c ->
  registered st ≡ₚ option_list (c_types c)
    ++ omap (types_in (client_store st)) (filter (fun i => i <> id) (client_list st)).
Proof.
  intros Hid Hn Hc. unfold registered. revert Hid. induction Hn as [|i l Hi _ IH]; intros Hid; [by apply elem_of_nil in Hid|].
  rewrite filter_cons. destruct (decide (i = id)) as [->|Hne].
  - rewrite decide_False by (intros Hf; by apply Hf). rewrite filter_all by (intros x Hx ->; done).
    cbn [omap list_omap]. unfold types_in at 1. rewrite Hc. by destruct (c_types c).
  - rewrite decide_True by done. apply elem_of_cons in Hid as [->|Hid]; [done|].
    cbn [omap list_omap]. destruct (types_in _ i) as [t|]; [|by apply IH]. rewrite (IH Hid). apply Permutation_middle.
Qed.

Lemma occurrences_perm t a b : a ≡ₚ b -> occurrences t a = occurrences t b.
Proof. induction 1; cbn [occurrences]; lia. Qed.

Lemma typemap_inv_perm tms a b : a ≡ₚ b -> typemap_inv tms a -> typemap_inv tms b.
Proof.
  intros Hp [C T Hh]. split; [|by rewrite <- Hp|done]. eapply counts_ext; [exact C|]. intros t _. cbn beta.
  by rewrite (occurrences_perm t a b Hp).
Qed.

Lemma fold_lor_spec {A} (f : A -> Z) l a n :
  Z.testbit (fold_left (fun o i => Z.lor o (f i)) l a) n = true
  <-> Z.testbit a n = true \/ exists i, i ∈ l /\ Z.testbit (f i) n = true.
Proof.
  revert a. induction l as [|x l IH]; intros a; cbn [fold_left].
  - split; [auto|]. intros [?|(i & Hi & _)]; [done|]. by apply elem_of_nil in Hi.
  - rewrite IH, Z.lor_spec, orb_true_iff. setoid_rewrite elem_of_cons. naive_solver.
Qed.

(** What is announced when the types of a client are taken from the map. *)
Lemma unregister_quietly env st c clients : core_inv None None st -> clients ≡ₚ option_list (c_types c) ++ registered st ->
  typemap_inv (core_typemap st) clients ->
  exists st' e, match c_types c with
      | Some types => typemap_changed order env (GSC_TYPEMAP_remove types (core_typemap st)) st
      | None => Some (st, [])
      end = Some (st', e)
    /\ core_inv None None st' /\ quiet (fun _ _ => False) st (set_typemap (core_typemap st) st')
    /\ typemap_inv (core_typemap st') (registered st).
Proof.
  intros Hi Hp Ht. apply (typemap_inv_perm _ _ _ Hp) in Ht. destruct (c_types c) as [types|]; cbn [option_list app] in Ht.
  - destruct (remove_inv (core_typemap st) [] types (registered st) Ht) as (tms & msg & -> & Ht' & Hm).
    assert (Hl : length (my_type_map tms) = TYPEMAP_WORDS) by apply (co_map _ _ (ti_counts _ _ Ht')).
    destruct (typemap_changed_quietly env tms msg None None st Hi Hl) as (st' & e & E & Hi' & A0 & A1 & A2 & A3 & A4 & A5);
      [destruct msg; [by destruct Hm|done]|].
    exists st', e. split_and!; [exact E|done| |by rewrite A4]. split_and!; done.
  - exists st, []. split_and!; [done|done| |done]. destruct st. apply quiet_refl.
Qed.

(** First the client leaves the list and gives up its requests. *)
Lemma leave_quietly env id c st : core_inv None None st -> client_store st !! id = Some c ->
  exists st' e,
    match c_requests c with
    | Some requests => for_each (destroy_active_client_request me env id) (order Z requests)
                         (set_list (filter (fun i => i <> id) (client_list st)) st)
    | None => Some (set_list (filter (fun i => i <> id) (client_list st)) st, [])
    end = Some (st', e) /\ core_inv None None st'
    /\ quiet (fun _ _ => False) (set_list (filter (fun i => i <> id) (client_list st)) st) st'
    /\ forall q, request_of (client_store st') id q = None.
Proof.
  intros Hi Hcc. apply (core_inv_off_list id) in Hi. set (st1 := set_list _ st) in *.
  destruct (c_requests c) as [rq|] eqn:Hrq.
  - destruct (destroy_all_quietly env id (order Z rq) st1) as (st2 & e2 & E2 & Hi2 & Hq2 & Hgone);
      [apply order_nodup|done| |].
    { intros k [r Hr]%order_elem. exists r. apply request_of_Some. eauto. }
    exists st2, e2. split_and!; [done|done|done|]. intros q. destruct (rq !! q) as [r|] eqn:Hr.
    + apply Hgone, order_elem. by eexists.
    + destruct Hq2 as ((_ & Hsh) & _). destruct (Hsh id q) as [->|]; [|done]. unfold request_of. cbn. by rewrite Hcc, Hrq.
  - exists st1, []. split_and!; [done|done|apply quiet_refl|]. intros q. unfold request_of. cbn. by rewrite Hcc, Hrq.
Qed.

(** Then its memory is freed and the options of those that are left are combined. *)
Definition freed (id : Z) (st : CoreState) : CoreState :=
  let store := delete id (client_store st) in
  set_options (fold_left (fun o i => Z.lor o (match store !! i with Some c => c_options c | None => 0 end)) (client_list st) 0)
    (set_store store st).

Lemma freed_options id st : (forall i, is_Some (client_store st !! i) -> i <> id -> i ∈ client_list st) ->
  forall n, Z.testbit (all_client_options (freed id st)) n = true <->
    exists i c, client_store (freed id st) !! i = Some c /\ Z.testbit (c_options c) n = true.
Proof.
  intros T n. unfold freed. cbn [set_options all_client_options set_store client_store].
  rewrite (fold_lor_spec (fun i => match delete id (client_store st) !! i with Some c => c_options c | None => 0 end)).
  rewrite Z.testbit_0_l. split.
  - intros [?|(i & Hin & Hn)]; [done|]. destruct (delete id (client_store st) !! i) as [ci|] eqn:Hci; [by exists i, ci|].
    by rewrite Z.testbit_0_l in Hn.
  - intros (i & ci & Hci & Hn). right. exists i. rewrite Hci. split; [|done]. apply lookup_delete_Some in Hci as [Hne Hci].
    apply T; [by eexists|done].
Qed.

Lemma freed_registered id st : id ∉ client_list st -> registered (freed id st) = registered st.
Proof.
  intros Hid. apply registered_ext; [done|]. intros i Hi. unfold types_in. cbn. rewrite lookup_delete_ne; [done|].
  by intros ->.
Qed.

Lemma freed_ok id st : core_good None None st -> id ∉ client_list st ->
  (forall q, request_of (client_store st) id q = None) ->
  (forall i, is_Some (client_store st !! i) -> i <> id -> i ∈ client_list st) ->
  (forall i c, client_store st !! i = Some c -> got_init c = GNUNET_YES <-> is_Some (c_types c)) ->
  typemap_inv (core_typemap st) (registered st) -> core_ok (freed id st).
Proof.
  intros [Hi Hc] Hid Hnone T C Hty.
  assert (Hget : forall i ci, client_store (freed id st) !! i = Some ci -> i <> id /\ client_store st !! i = Some ci)
    by (unfold freed; cbn; intros i ci [Hne Hci]%lookup_delete_Some; done).
  split; [|split].
  - split; [by apply core_inv_free|]. change (view (freed id st)) with (view st). intros i ci Hin [_ Hci]%Hget. by apply (Hc i).
  - intros i [ci [Hne Hci]%Hget]. apply T; [by eexists|done].
  - intros i ci [_ Hci]%Hget. by apply (C i).
  - by apply freed_options.
  - exists (registered st). by rewrite freed_registered.
Qed.

Lemma disconnect_ok env id c st : core_ok st -> client_store st !! id = Some c ->
  exists st' e, client_disconnect_cb me order env id st = Some (st', e) /\ core_ok st'
    /\ client_store st' !! id = None /\ client_list st' = filter (fun i => i <> id) (client_list st).
Proof.
  intros [[Hi Hc] [T C O (clients & Hp & Hty)]] Hcc. unfold client_disconnect_cb. rewrite Hcc.
  set (st1 := set_list (filter (fun i => i <> id) (client_list st)) st).
  destruct (leave_quietly env id c st Hi Hcc) as (st2 & e2 & E2 & Hi2 & Hq2 & Hnone). fold st1 in E2, Hq2. rewrite E2.
  pose proof (evolves_stays _ _ (quiet_evolves _ _ _ Hq2)) as Hs2. unfold and_then at 1.
  destruct (unregister_quietly env st2 c clients Hi2) as (st3 & e3 & E3 & Hi3 & Hq3 & Hty3).
  { rewrite (stays_registered _ _ Hs2), Hp. apply (registered_without st id c); [apply T; by eexists|apply Hi|done]. }
  { by rewrite (st_typemap _ _ Hs2). }
  assert (Hq : quiet (fun _ _ => False) st1 (set_typemap (core_typemap st1) st3)).
  { eapply quiet_trans; [exact Hq2|]. assert (Et : core_typemap st2 = core_typemap st1) by apply Hq2. rewrite <- Et. exact Hq3. }
  pose proof (evolves_stays _ _ (quiet_evolves _ _ _ Hq)) as Hs.
  assert (Hl3 : client_list st3 = filter (fun i => i <> id) (client_list st)) by apply Hs.
  exists (freed id st3), (e2 ++ e3 ++ []). unfold and_then. rewrite E3. split_and!; [done| |apply lookup_delete_eq|exact Hl3].
  apply freed_ok.
  - split; [done|]. assert (Hv : view st3 = view st) by (transitivity (view st1); [apply Hq|done]). rewrite Hv.
    apply (quiet_conns me _ (view st) _ _ Hq). intros j cj [_ Hj]%list_elem_of_filter Hcj. by apply (Hc j).
  - rewrite Hl3. by intros [Hf _]%list_elem_of_filter.
  - intros q. destruct Hq3 as ((_ & Hsh) & _). destruct (Hsh id q) as [E|E]; cbn in E; [rewrite E|]; done.
  - intros i [ci Hci] Hne. rewrite Hl3. apply list_elem_of_filter. split; [done|].
    destruct (stays_client _ _ i ci Hs Hci) as (ci' & Hci' & _). apply T. by eexists.
  - intros i ci Hci. destruct (stays_client _ _ i ci Hs Hci) as (ci' & Hci' & Et & _ & Ei). rewrite Et, Ei. by apply (C i).
  - rewrite (stays_registered _ _ (evolves_stays _ _ (quiet_evolves _ _ _ Hq3)) : registered st3 = registered st2). done.
Qed.

(** ** Clients come *)

Lemma connect_ok id st : core_ok st -> client_store st !! id = None ->
  exists st' e, client_connect_cb id st = Some (st', e) /\ core_ok st'.
Proof.
  intros [[[L N M S Y Q I W X U K] Hc] [T C O (clients & Hp & Hty)]] Hid. eexists _, _. split; [done|].
  set (c0 := mk_client None None ∅ 0 GNUNET_NO).
  assert (Hnl : id ∉ client_list st) by (intros Hin; destruct (L id Hin); congruence).
  assert (Hget : forall i c, <[id := c0]> (client_store st) !! i = Some c -> i = id /\ c = c0 \/ client_store st !! i = Some c).
  { intros i c. destruct (decide (i = id)) as [->|Hne]; [rewrite lookup_insert_eq; intros [= <-]; auto|rewrite lookup_insert_ne by done; auto]. }
  assert (Hkeep : forall i c, client_store st !! i = Some c -> <[id := c0]> (client_store st) !! i = Some c)
    by (intros i c Hi; rewrite lookup_insert_ne; [done|congruence]).
  split; [split; [split|]|split]; cbn [set_list set_store client_store client_list core_sessions core_typemap all_client_options]; try done.
  - intros i [->|Hi]%elem_of_cons; [rewrite lookup_insert_eq; by eexists|]. destruct (L i Hi) as [c Hcc]. exists c. by apply Hkeep.
  - by apply NoDup_cons.
  - intros i c [[-> ->]|Hi]%Hget; [constructor|by eapply Y].
  - intros q s car Hs Hcar. destruct (Q q s car Hs Hcar) as [Ht [?|(c & rq & Hcc & ?)]]; [auto|]. split; [done|right].
    exists c, rq. split; [by apply Hkeep|done].
  - intros i c rq q rid [[-> ->]|Hi]%Hget; [done|by apply (W i c)].
  - intros i c [->|Hi]%elem_of_cons Hcc.
    + cbn in Hcc. rewrite lookup_insert_eq in Hcc. injection Hcc as <-. by split.
    + apply (Hc i); [done|]. cbn in Hcc. rewrite lookup_insert_ne in Hcc; [done|]. by intros ->.
  - intros i. destruct (decide (i = id)) as [->|Hne]; [by left|]. rewrite lookup_insert_ne by done. intros Hi. right. by apply T.
  - intros i c [[-> ->]|Hi]%Hget; [by split; [|intros [? ?]]|by apply (C i)].
  - intros n. rewrite O. split.
    + intros (i & c & Hcc & Hn). exists i, c. split; [by apply Hkeep|done].
    + intros (i & c & [[-> ->]|Hi]%Hget & Hn); [cbn in Hn; by rewrite Z.testbit_0_l in Hn|by exists i, c].
  - exists clients. split; [|done]. rewrite Hp.
    rewrite <- (registered_ext st (set_store (<[id := c0]> (client_store st)) st)); [|done|].
    + unfold registered. cbn [client_list client_store set_list set_store omap list_omap].
      assert (types_in (<[id := c0]> (client_store st)) id = None) as ->; [|done]. unfold types_in. by rewrite lookup_insert_eq.
    + intros i Hi. unfold types_in. cbn. rewrite lookup_insert_ne; [done|]. by intros ->.
Qed.

Lemma core_inv_client xc xr id c c' st : core_inv xc xr st -> client_store st !! id = Some c -> c_requests c' = c_requests c ->
  Forall is_u16 (types_of c') -> core_inv xc xr (set_store (<[id := c']> (client_store st)) st).
Proof.
  intros [L N M S Y Q I W X U K] Hc Hr Ht.
  assert (Hget : forall i ci, <[id := c']> (client_store st) !! i = Some ci ->
    exists c0, client_store st !! i = Some c0 /\ c_requests ci = c_requests c0 /\ Forall is_u16 (types_of ci)).
  { intros i ci. destruct (decide (i = id)) as [->|Hne].
    - rewrite lookup_insert_eq. intros [= <-]. by exists c.
    - rewrite lookup_insert_ne by done. intros Hi. exists ci. split_and!; [done|done|by eapply Y]. }
  assert (Hkeep : forall i ci, client_store st !! i = Some ci ->
    exists c1, <[id := c']> (client_store st) !! i = Some c1 /\ c_requests c1 = c_requests ci).
  { intros i ci Hi. destruct (decide (i = id)) as [->|Hne]; [rewrite lookup_insert_eq|rewrite lookup_insert_ne by done]; eexists; [|done].
    split; [done|]. congruence. }
  split; cbn [set_store client_store client_list core_sessions core_typemap]; try done.
  - intros i Hi. destruct (L i Hi) as [ci Hci]. destruct (Hkeep i ci Hci) as (? & -> & _). by eexists.
  - intros i ci Hci. by destruct (Hget i ci Hci) as (? & _ & _ & ?).
  - intros q s car Hs Hcar. destruct (Q q s car Hs Hcar) as [Hct [?|(ci & rq & Hci & Hrq & Hid)]]; [auto|]. split; [done|right].
    destruct (Hkeep _ ci Hci) as (c1 & Hc1 & E1). exists c1, rq. rewrite E1. done.
  - intros i ci rq q rid Hci Hrq. destruct (Hget i ci Hci) as (c0 & Hc0 & E0 & _). rewrite E0 in Hrq. by apply (W i c0).
  - intros i q rid j ci rq Hx Hci Hrq. destruct (Hget j ci Hci) as (c0 & Hc0 & E0 & _). rewrite E0 in Hrq. by apply (X i q rid j c0).
  - intros i q s car ci rq Hx Hs Hcar Hci Hrq. destruct (Hget i ci Hci) as (c0 & Hc0 & E0 & _). rewrite E0 in Hrq.
    by apply (U i q s car c0).
Qed.

(** A new client is told about the sessions in [l]; it knows those in [W]. *)
Lemma notify_sessions_ok l id W c st : NoDup l -> client_store st !! id = Some c -> conn_ok me W c -> Forall is_u16 (types_of c) ->
  (forall q tm, W !! q = Some tm -> length tm = TYPEMAP_WORDS) ->
  (forall p, p ∈ l -> W !! p = None /\ p <> me /\ exists s, core_sessions st !! p = Some s /\ length (s_tmap s) = TYPEMAP_WORDS) ->
  exists m e W', for_each (fun peer st =>
      let? s := core_sessions st !! peer in
      GSC_CLIENTS_notify_client_about_neighbour peer None (Some (s_tmap s)) id st) l st
    = Some (set_store (<[id := set_connectmap m c]> (client_store st)) st, e)
    /\ conn_ok me W' (set_connectmap m c)
    /\ forall q, (q ∈ l -> W' !! q = view st !! q) /\ (q ∉ l -> W' !! q = W !! q).
Proof.
  intros Hn. revert W c st. induction Hn as [|p l Hp _ IH]; intros W c st Hc Hok Ht HW Hl.
  { exists (connectmap c), [], W. split_and!.
    - destruct st, c. unfold set_store, set_connectmap. cbn in *. by rewrite insert_id.
    - by destruct c.
    - intros q. split; [intros Hq; by apply elem_of_nil in Hq|done]. }
  destruct (Hl p) as (Hnone & Hpm & s & Hs & Hlen); [by left|].
  destruct (notify_client_ok me W p (Some (s_tmap s)) id c st Hc Hok Hpm Ht HW) as (m & e & E & Hok'); [by intros tm [= <-]|].
  rewrite Hnone in E. rewrite change_Some in Hok'.
  destruct (IH (<[p := s_tmap s]> W) (set_connectmap m c) (set_store (<[id := set_connectmap m c]> (client_store st)) st))
    as (m' & e' & W' & E' & Hok'' & HW').
  - cbn. by rewrite lookup_insert_eq.
  - done.
  - done.
  - intros q tm. destruct (decide (q = p)) as [->|Hq]; [rewrite lookup_insert_eq; by intros [= <-]|rewrite lookup_insert_ne by done; apply HW].
  - intros q Hq. destruct (Hl q) as (? & ? & ?); [by right|]. split_and!; [|done|done]. rewrite lookup_insert_ne; [done|]. by intros ->.
  - exists m', (e ++ e'), W'. split_and!.
    + cbn [for_each]. unfold and_then at 1. rewrite Hs, E. cbn [set_store client_store core_sessions] in E'. rewrite E'.
      unfold set_store. cbn. by rewrite insert_insert_eq.
    + done.
    + intros q. destruct (HW' q) as [H1 H2]. split.
      * intros [->|Hq]%elem_of_cons; [|by apply H1]. rewrite H2, lookup_insert_eq by done. unfold view. by rewrite lookup_fmap, Hs.
      * intros [Hne Hq]%not_elem_of_cons. rewrite H2 by done. by rewrite lookup_insert_ne.
Qed.

Lemma core_inv_options xc xr opts st : core_inv xc xr st -> core_inv xc xr (set_options opts st).
Proof. intros [L N M S Y Q I W X U K]. by split. Qed.

(** The client as [handle_client_init] leaves it, before it is told about sessions. *)
Definition initialised (c : GSC_Client) (options : Z) (types : list Z) : GSC_Client :=
  mk_client (Some types) (c_requests c) ({[me]} ∪ connectmap c) options GNUNET_YES.

Definition with_init (id : Z) (c : GSC_Client) (options : Z) (types : list Z) (tms : TypeMapState) (st : CoreState) : CoreState :=
  set_typemap tms (set_options (Z.lor (all_client_options st) options)
    (set_store (<[id := initialised c options types]> (client_store st)) st)).

Lemma omap_types_ext (l : list Z) (store store' : gmap Z GSC_Client) : (forall i, i ∈ l -> types_in store i = types_in store' i) ->
  omap (types_in store) l = omap (types_in store') l.
Proof.
  induction l as [|i l IH]; intros Hl; [done|]. cbn [omap list_omap]. rewrite (Hl i) by (by left).
  by rewrite IH by (intros; apply Hl; by right).
Qed.

Lemma init_books id c options types tms st : core_books st -> NoDup (client_list st) -> client_store st !! id = Some c ->
  got_init c <> GNUNET_YES -> c_options c = 0 -> typemap_inv tms (types :: registered st) ->
  core_books (with_init id c options types tms st).
Proof.
  intros [T C O Y] Hn Hc Hg Ho Hty. set (st' := with_init id c options types tms st).
  assert (Hget : forall i ci, client_store st' !! i = Some ci ->
    i = id /\ ci = initialised c options types \/ i <> id /\ client_store st !! i = Some ci).
  { intros i ci. unfold st', with_init. cbn. destruct (decide (i = id)) as [->|Hne].
    - rewrite lookup_insert_eq. intros [= <-]. auto.
    - rewrite lookup_insert_ne by done. auto. }
  assert (Hid : id ∈ client_list st) by (apply T; by eexists). split.
  - intros i [ci [[-> _]|[_ Hci]]%Hget]; [done|]. apply T. by eexists.
  - intros i ci [[-> ->]|[_ Hci]]%Hget; [by split; eauto|by apply (C i)].
  - intros n. unfold st', with_init at 1. cbn [set_typemap set_options all_client_options]. rewrite Z.lor_spec, orb_true_iff, O. split.
    + intros [(i & ci & Hci & Hb)|Hb].
      * exists i, ci. split; [|done]. unfold st', with_init. cbn. rewrite lookup_insert_ne; [done|]. intros <-.
        assert (ci = c) as -> by congruence. rewrite Ho, Z.testbit_0_l in Hb. done.
      * exists id, (initialised c options types). split; [|done]. unfold st', with_init. cbn. by rewrite lookup_insert_eq.
    + intros (i & ci & [[-> ->]|[_ Hci]]%Hget & Hb); [by right|left; eauto].
  - exists (types :: registered st). split; [|exact Hty].
    assert (Hcn : c_types c = None) by (destruct (c_types c) eqn:E; [|done]; destruct Hg; apply (C id c Hc); by rewrite E).
    rewrite (registered_without st id c Hid Hn Hc), Hcn. cbn [option_list app].
    rewrite (registered_without st' id (initialised c options types)); [|done|done|unfold st', with_init; cbn; by rewrite lookup_insert_eq].
    cbn [initialised c_types option_list app]. apply Permutation_skip. change (client_list st') with (client_list st).
    rewrite (omap_types_ext _ (client_store st) (client_store st')); [done|]. intros i [Hne _]%list_elem_of_filter.
    unfold st', with_init, types_in. cbn. by rewrite lookup_insert_ne.
Qed.

Lemma conn_ok_ext V V' c : (forall q, V !! q = V' !! q) -> conn_ok me V c -> conn_ok me V' c.
Proof. intros E [H1 H2]. split; [|done]. unfold neighbour_of in *. by setoid_rewrite <- E. Qed.

(** The new client is told about all sessions. *)
Lemma new_client_informed id c st : core_inv None None st -> client_store st !! id = Some c -> Forall is_u16 (types_of c) ->
  got_init c = GNUNET_YES -> connectmap c = {[me]} ->
  exists m e, GSC_SESSIONS_notify_client_about_sessions order id st
      = Some (set_store (<[id := set_connectmap m c]> (client_store st)) st, e)
    /\ conn_ok me (view st) (set_connectmap m c).
Proof.
  intros Hi Hc Ht Hg Hm.
  destruct (notify_sessions_ok (order Session (core_sessions st)) id ∅ c st) as (m & e & W & E & Hok & HW); try done.
  - apply order_nodup.
  - split; [|done]. intros _. rewrite Hm. split; [set_solver|]. intros q Hq. unfold neighbour_of.
    rewrite lookup_empty. split; [set_solver|done].
  - intros q [s Hs]%order_elem. split_and!; [apply lookup_empty| |].
    + intros ->. rewrite (ci_me _ _ _ _ Hi) in Hs. done.
    + exists s. split; [done|]. apply (so_tmap q s). by apply (ci_sessions _ _ _ _ Hi).
  - exists m, e. split; [exact E|]. apply (conn_ok_ext W); [|done]. intros q. destruct (HW q) as [H1 H2].
    destruct (decide (q ∈ order Session (core_sessions st))) as [Hq|Hq]; [by apply H1|].
    rewrite H2, lookup_empty by done. symmetry. apply eq_None_not_Some. intros Hv. by apply view_Some, order_elem in Hv.
Qed.

Lemma init_ok env id c options types st : core_ok st -> client_store st !! id = Some c -> got_init c <> GNUNET_YES ->
  Forall is_u16 types -> (forall t, occurrences t (types :: registered st) <= 255)%nat ->
  exists st' e, handle_client_init me order env id options types st = Some (st', e) /\ core_ok st'.
Proof.
  intros [[Hi Hc] Hb] Hcc Hg Ht Hocc. pose proof Hb as [T C O (clients & Hp & Hty)].
  destruct (co_fresh _ _ _ (Hc id c (T id ltac:(by eexists)) Hcc) Hg) as [Hemp Ho].
  unfold handle_client_init. rewrite Hcc. unfold contains. rewrite bool_decide_false by (rewrite Hemp; set_solver).
  change (GNUNET_NO =? GNUNET_NO) with true. cbv iota. fold (initialised c options types).
  set (st1 := set_options _ _). change (core_typemap st1) with (core_typemap st).
  destruct (add_inv (core_typemap st) (registered st) types) as (tms & msg & -> & Hty' & Hm); [by eapply typemap_inv_perm|done|done|].
  destruct (typemap_changed_quietly env tms msg None None st1) as (st2 & e2 & -> & Hi2 & Hq2);
    [apply core_inv_options, (core_inv_client _ _ id c); done|apply (co_map _ _ (ti_counts _ _ Hty'))|destruct msg; [by destruct Hm|done]|].
  set (st1' := with_init id c options types tms st). change (set_typemap tms st1) with st1' in Hq2.
  pose proof (evolves_stays _ _ (quiet_evolves _ _ _ Hq2)) as Hs2. pose proof Hq2 as (_ & A1 & _ & A3 & _ & A5).
  assert (Hget : forall i c2, client_store st2 !! i = Some c2 -> exists c1 r, client_store st1' !! i = Some c1 /\ c2 = set_requests_of r c1).
  { intros i c2 Hc2. specialize (A5 i). rewrite Hc2 in A5. inversion A5 as [c1 ? (r & -> & _) E|]; subst. by exists c1, r. }
  assert (Hid1 : client_store st1' !! id = Some (initialised c options types)) by apply lookup_insert_eq.
  destruct (stays_client_fwd _ _ id _ Hs2 Hid1) as (c2 & Hc2 & _). destruct (Hget id c2 Hc2) as (c1 & r & Hc1 & ->).
  assert (c1 = initialised c options types) as -> by congruence. set (c2 := set_requests_of r _) in *.
  destruct (new_client_informed id c2 st2 Hi2 Hc2) as (m & e3 & E3 & Hok); [done|done|cbn; rewrite Hemp; set_solver|].
  unfold and_then. rewrite E3. eexists _, _. split; [done|]. set (st3 := set_store _ st2). split; [split|].
  - by apply (core_inv_client _ _ id c2).
  - intros i ci Hin Hci. change (view st3) with (view st2). cbn [st3 set_store client_store] in Hci.
    destruct (decide (i = id)) as [->|Hne]; [rewrite lookup_insert_eq in Hci; by injection Hci as <-|].
    rewrite lookup_insert_ne in Hci by done. destruct (Hget i ci Hci) as (c0 & r0 & Hc0 & ->).
    cbn in Hc0. rewrite lookup_insert_ne in Hc0 by done. rewrite A3.
    change (client_list st3) with (client_list st2) in Hin. rewrite A1 in Hin. destruct (Hc i c0 Hin Hc0). by split.
  - apply (stays_books st2); [apply (stays_books st1'); [apply init_books; [done|apply Hi|done..]|done]|].
    split; [done..|]. intros i. cbn [st3 set_store client_store]. destruct (decide (i = id)) as [->|Hne].
    + rewrite lookup_insert_eq, Hc2. by constructor.
    + rewrite lookup_insert_ne by done. destruct (client_store st2 !! i); by constructor.
Qed.

(** ** Requests *)

Lemma request_of_set store id r c i q :
  request_of (<[id := set_requests_of (Some r) c]> store) i q = if bool_decide (i = id) then r !! q else request_of store i q.
Proof.
  unfold request_of. case_bool_decide as Hi; [subst; by rewrite lookup_insert_eq|by rewrite lookup_insert_ne].
Qed.

Lemma set_requests_static (store : gmap Z GSC_Client) id r c : store !! id = Some c ->
  forall i, option_Forall2 (fun c c' => exists r, c' = set_requests_of r c) (store !! i) (<[id := set_requests_of r c]> store !! i).
Proof.
  intros Hc i. destruct (decide (i = id)) as [->|Hne].
  - rewrite Hc, lookup_insert_eq. constructor. by exists r.
  - rewrite lookup_insert_ne by done. apply requests_same.
Qed.

(** Only requests of clients are changed. *)
Lemma static_stays st store :
  (forall i, option_Forall2 (fun c c' => exists r, c' = set_requests_of r c) (client_store st !! i) (store !! i)) ->
  stays st (set_store store st).
Proof. intros H. split; [done..|]. intros i. cbn [set_store client_store]. destruct (H i) as [c c' [r ->]|]; by constructor. Qed.

Lemma static_conns V st store :
  (forall i, option_Forall2 (fun c c' => exists r, c' = set_requests_of r c) (client_store st !! i) (store !! i)) ->
  conns V st -> conns V (set_store store st).
Proof.
  intros H Hc i c' Hi Hc'. specialize (H i). cbn in Hc'. rewrite Hc' in H. inversion H as [c ? [r ->] E|]; subst.
  destruct (Hc i c Hi (eq_sym E)). by split.
Qed.

(** The map of requests is made when it is needed. *)
Lemma make_requests_ok st id c : core_ok st -> client_store st !! id = Some c ->
  core_ok (set_store (<[id := set_requests_of (Some (default ∅ (c_requests c))) c]> (client_store st)) st).
Proof.
  intros [[Hi Hc] Hb] Hcc. pose proof (set_requests_static _ id (Some (default ∅ (c_requests c))) c Hcc) as Hst.
  split; [split|].
  - apply core_inv_loopback; [done|done|]. intros i q _. rewrite request_of_set. case_bool_decide as E; [|done]. subst i.
    unfold request_of. rewrite Hcc. by destruct (c_requests c).
  - by apply static_conns.
  - eapply stays_books; [exact Hb|by apply static_stays].
Qed.

(** A request to the peer itself. *)
Lemma put_loopback st id c rq addr : core_inv None None st -> client_store st !! id = Some c -> c_requests c = Some rq ->
  core_inv None None (set_store (<[id := set_requests_of (Some (<[me := addr]> rq)) c]> (client_store st)) st).
Proof.
  intros Hi Hc Hrq. apply core_inv_loopback; [done|by apply set_requests_static|]. intros i q Hq. rewrite request_of_set.
  case_bool_decide as E; [|done]. subst i. rewrite lookup_insert_ne by done. unfold request_of. by rewrite Hc, Hrq.
Qed.

(** A request that is not in the session yet. *)
Lemma put_request st id c rq p addr s : core_inv None None st -> client_store st !! id = Some c -> c_requests c = Some rq ->
  rq !! p = None -> core_sessions st !! p = Some s -> (forall car, car ∈ active_client_requests s -> car_id car <> addr) ->
  core_inv None (Some (id, p)) (set_store (<[id := set_requests_of (Some (<[p := addr]> rq)) c]> (client_store st)) st).
Proof.
  intros Hi Hc Hrq Hr Hs Hfresh. pose proof Hi as [L N M S Y Q I W X U K].
  assert (Hnone : request_of (client_store st) id p = None) by (unfold request_of; by rewrite Hc, Hrq).
  rewrite <- (insert_session_same (set_store _ st) p s) by done.
  apply (core_inv_change me None None None (Some (id, p)) st p s); try done.
  - by apply S.
  - by eapply I.
  - by apply set_requests_static.
  - intros i q Hq. rewrite request_of_set. case_bool_decide as E; [|done]. subst i. rewrite lookup_insert_ne by done.
    unfold request_of. by rewrite Hc, Hrq.
  - intros car Hcar. destruct (Q p s car Hs Hcar) as [Ht [[? _]|Hq]]; [done|]. split; [done|right].
    apply request_of_Some in Hq. rewrite request_of_set, bool_decide_false; [done|]. intros E. rewrite E in Hq. congruence.
  - intros i r Hir Hx. rewrite request_of_set in Hir. case_bool_decide as E; [subst i; done|].
    assert (Hp : p <> me) by (intros ->; congruence).
    destruct (request_in_session me st i p r Hi Hir Hp) as (s2 & car & Hs2 & ?). assert (s2 = s) as -> by congruence. eauto.
  - intros i q car [= <- <-]. split; [done|]. intros Hcar. rewrite request_of_set, bool_decide_true, lookup_insert_eq by done.
    intros [= E]. by apply (Hfresh car Hcar).
Qed.

(** The session takes the request. *)
Lemma queue_quietly env st id p rid priority msize s : core_inv None (Some (id, p)) st ->
  request_of (client_store st) id p = Some rid -> core_sessions st !! p = Some s ->
  msize <= GNUNET_CONSTANTS_MAX_ENCRYPTED_MESSAGE_SIZE ->
  quietly (fun _ _ => False) None None st (with_sessions (client_disconnect_cb me order env) p
    (GSC_SESSIONS_queue_request (session_env env p st) (mk_car rid id p priority GNUNET_NO msize)) st).
Proof.
  intros Hi Hr Hs Hm. pose proof Hi as [L N M S Y Q I W X U K]. assert (Hp : p <> me) by (intros ->; congruence).
  set (car := mk_car rid id p priority GNUNET_NO msize). set (s1 := set_requests (active_client_requests s ++ [car]) s).
  assert (Hok : session_ok p s1) by (destruct (S p s Hs); by split).
  destruct (session_try_quietly me (client_disconnect_cb me order env) (session_env env p st) None None p s s1 (fun s => s) st)
    as (st' & e & E & Hi' & Hq'); try done.
  - rewrite <- (set_store_same st) at 2. apply (core_inv_change me None (Some (id, p)) None None st p s); try done.
    + cbn. rewrite map_app. apply NoDup_app. split_and!; [by eapply I| |apply NoDup_singleton].
      intros x Hx ->%list_elem_of_singleton. apply list_elem_of_In, in_map_iff in Hx as (car' & Ei & Hcar'). apply list_elem_of_In in Hcar'.
      apply request_of_Some in Hr as (c & rq & Hc & Hrq & Hr). apply (U id p s car' c rq eq_refl Hs Hcar' Hc Hrq). by rewrite Ei.
    + intros i. apply requests_same.
    + intros car' [Hcar'| ->%list_elem_of_singleton]%elem_of_app; [|by auto].
      destruct (Q p s car' Hs Hcar') as [Ht [[? _]|Hq]]; [done|]. split; [done|right]. by apply request_of_Some.
    + intros i r Hir _. destruct (decide (i = id)) as [->|Hne].
      * exists car. split_and!; [apply elem_of_app; right; by left|cbn; congruence|done].
      * apply request_of_Some in Hir as (c & rq & Hc & Hrq & Hir).
        destruct (W i c rq p r Hc Hrq Hir Hp) as (s2 & car2 & Hs2 & Hcar2 & ?); [congruence|].
        assert (s2 = s) as -> by congruence. exists car2. split; [|done]. apply elem_of_app. by left.
    + by intros i q [= <- <-].
  - exists st', e. split_and!; [|done|by eapply quiet_weaken; [|exact Hq']]. rewrite <- E.
    unfold with_sessions, GSC_SESSIONS_queue_request, find_session. cbn [car_target car]. rewrite Hs. unfold on_session, session_queue_request.
    cbn [car_msize]. rewrite Z.gtb_ltb, (proj2 (Z.ltb_ge _ _)) by done. done.
Qed.

(** A request that the session did not take is given up. *)
Lemma forget_unqueued st id p rid s : core_inv None (Some (id, p)) st -> request_of (client_store st) id p = Some rid ->
  core_sessions st !! p = Some s -> core_inv None None (set_store (without id p (client_store st)) st).
Proof.
  intros Hi Hr Hs. pose proof Hi as [L N M S Y Q I W X U K]. assert (Hp : p <> me) by (intros ->; congruence).
  rewrite <- (insert_session_same (set_store _ st) p s) by done.
  apply (core_inv_change me None (Some (id, p)) None None st p s); try done.
  - by apply S.
  - by eapply I.
  - apply static_requests. intros i. apply without_requests.
  - intros i q Hq. rewrite request_of_without, bool_decide_false; [done|]. by intros [_ ->].
  - intros car Hcar. destruct (Q p s car Hs Hcar) as [Ht [[? _]|Hq]]; [done|]. split; [done|right].
    rewrite request_of_without, bool_decide_false; [by apply request_of_Some|]. intros [E _]. rewrite E in Hq.
    destruct Hq as (c & rq & Hc & Hrq & Hq). by apply (U id p s car c rq eq_refl Hs Hcar Hc Hrq).
  - intros i r Hir _. rewrite request_of_without in Hir. case_bool_decide as Hb; [done|].
    apply request_of_Some in Hir as (c & rq & Hc & Hrq & Hir).
    destruct (W i c rq p r Hc Hrq Hir Hp) as (s2 & car2 & Hs2 & Hcar2 & ?); [intros [= <-]; by apply Hb|].
    assert (s2 = s) as -> by congruence. by exists car2.
  - by intros i q [= <- <-].
Qed.

Lemma request_client store id p rid : request_of store id p = Some rid -> is_Some (store !! id).
Proof. intros (c & rq & Hc & _)%request_of_Some. by exists c. Qed.

(** A request that is too long costs the client its connection. *)
Lemma queue_ok env st id p rid priority msize s : core_inv None (Some (id, p)) st -> conns (view st) st -> core_books st ->
  request_of (client_store st) id p = Some rid -> core_sessions st !! p = Some s ->
  exists st' e, with_sessions (client_disconnect_cb me order env) p
    (GSC_SESSIONS_queue_request (session_env env p st) (mk_car rid id p priority GNUNET_NO msize)) st = Some (st', e) /\ core_ok st'.
Proof.
  intros Hi Hc Hb Hr Hs. destruct (Z.le_gt_cases msize GNUNET_CONSTANTS_MAX_ENCRYPTED_MESSAGE_SIZE) as [Hm|Hm].
  - destruct (queue_quietly env st id p rid priority msize s Hi Hr Hs Hm) as (st' & e & E & Hi' & Hq). exists st', e.
    split; [exact E|]. assert (Hv : view st' = view st) by apply Hq. split; [split; [done|]|].
    + rewrite Hv. by eapply quiet_conns.
    + eapply stays_books; [exact Hb|]. eapply evolves_stays, quiet_evolves, Hq.
  - set (st1 := set_store (without id p (client_store st)) st).
    assert (Hst : forall i, option_Forall2 (fun c c' => exists r, c' = set_requests_of r c) (client_store st !! i)
      (without id p (client_store st) !! i)) by (apply static_requests; intros i; apply without_requests).
    assert (Hok : core_ok st1).
    { split; [split; [by eapply forget_unqueued|by apply static_conns]|]. eapply stays_books; [exact Hb|by apply static_stays]. }
    destruct (request_client _ _ _ _ Hr) as [c Hcc]. destruct (stays_client_fwd st st1 id c (static_stays st _ Hst) Hcc) as (c' & Hc' & _).
    destruct (disconnect_ok env id c' st1 Hok Hc') as (st' & e & E & Hok' & _). exists st', ([DropClient id] ++ e ++ []). split; [|done].
    unfold with_sessions, GSC_SESSIONS_queue_request, find_session. cbn [car_target]. rewrite Hs. unfold on_session, session_queue_request.
    cbn [car_msize]. rewrite Z.gtb_ltb, (proj2 (Z.ltb_lt _ _)) by done. rewrite insert_session_same by done.
    cbn [for_each session_call]. unfold GSC_CLIENTS_reject_request. cbn [car_client car_target car_id].
    rewrite (forget_request_without id p rid st Hr). change (GNUNET_YES =? GNUNET_YES) with true. cbv iota. unfold and_then. fold st1.
    rewrite E. by rewrite app_assoc.
Qed.

(** No request in a session has this address. *)
Definition fresh_address (st : CoreState) (addr : Z) : Prop :=
  map_Forall (fun _ s => Forall (fun car => car_id car <> addr) (active_client_requests s)) (core_sessions st).

Lemma connected_session st id c p : core_good None None st -> id ∈ client_list st -> client_store st !! id = Some c ->
  p ∈ connectmap c -> p <> me -> is_Some (core_sessions st !! p).
Proof.
  intros [Hi Hc] Hid Hcc Hin Hp. destruct (Hc id c Hid Hcc) as [H1 H2].
  destruct (decide (got_init c = GNUNET_YES)) as [Hg|Hg]; [|destruct (H2 Hg) as [E _]; rewrite E in Hin; set_solver].
  apply (proj2 (H1 Hg)) in Hin; [|done]. unfold neighbour_of in Hin. apply view_Some.
  destruct (view st !! p); [by eexists|done].
Qed.

(** [received] is the state after the message has been received, with a map of requests. *)
Lemma loopback_request_ok env st id c rq addr msize : core_ok st -> client_store st !! id = Some c -> c_requests c = Some rq ->
  me ∈ connectmap c ->
  exists st' e, and_then
      (match rq !! me with
       | None => Some (set_store (<[id := set_requests_of (Some (<[me := addr]> rq)) c]> (client_store st)) st, [])
       | Some rid => dequeue_request me env id me rid st
       end) (solicit_loopback id me msize) = Some (st', e) /\ core_ok st'.
Proof.
  intros [[Hi Hc] Hb] Hcc Hrq Hme. unfold and_then, solicit_loopback, contains.
  destruct (rq !! me) as [rid|].
  - rewrite dequeue_loopback, Hcc, bool_decide_true by done. by eexists _, _.
  - cbn [set_store client_store]. rewrite lookup_insert_eq. cbn [set_requests_of connectmap]. rewrite bool_decide_true by done.
    eexists _, _. split; [done|]. pose proof (set_requests_static _ id (Some (<[me := addr]> rq)) c Hcc) as Hst.
    split; [split; [by apply put_loopback|by apply static_conns]|]. eapply stays_books; [exact Hb|by apply static_stays].
Qed.

Lemma neighbour_request_ok env st id c rq p addr priority msize : core_ok st -> client_store st !! id = Some c ->
  c_requests c = Some rq -> p ∈ connectmap c -> p <> me -> fresh_address st addr ->
  exists st' e, and_then
      (match rq !! p with
       | None => Some (set_store (<[id := set_requests_of (Some (<[p := addr]> rq)) c]> (client_store st)) st, [])
       | Some rid => dequeue_request me env id p rid st
       end)
      (fun st => with_sessions (client_disconnect_cb me order env) p
         (GSC_SESSIONS_queue_request (session_env env p st) (mk_car (default addr (rq !! p)) id p priority GNUNET_NO msize)) st)
      = Some (st', e) /\ core_ok st'.
Proof.
  intros [[Hi Hc] Hb] Hcc Hrq Hin Hp Hfresh.
  destruct (connected_session st id c p) as [s Hs]; [done|apply (ok_store _ Hb); by eexists|done|done|done|].
  destruct (rq !! p) as [rid|] eqn:Hr; [change (default addr (Some rid)) with rid|change (default addr None) with addr].
  - assert (Hreq : request_of (client_store st) id p = Some rid) by (apply request_of_Some; eauto).
    destruct (dequeue_recycled me env st id p rid Hi Hreq Hp) as (st1 & e1 & -> & Hi1 & Hq1).
    assert (Hv : view st1 = view st) by apply Hq1. pose proof Hq1 as ((Hkeep & _) & _).
    pose proof (evolves_stays _ _ (quiet_evolves _ _ _ Hq1)) as Hst.
    destruct (ev_dom _ _ (quiet_evolves _ _ _ Hq1) p) as [s1 Hs1]; [by exists s|].
    destruct (queue_ok env st1 id p rid priority msize s1) as (st2 & e2 & E2 & Hok2); try done.
    + rewrite Hv. by eapply quiet_conns.
    + by eapply stays_books.
    + rewrite Hkeep; [done|by right].
    + unfold and_then. rewrite E2. by eexists _, _.
  - pose proof (set_requests_static _ id (Some (<[p := addr]> rq)) c Hcc) as Hst.
    destruct (queue_ok env (set_store (<[id := set_requests_of (Some (<[p := addr]> rq)) c]> (client_store st)) st)
      id p addr priority msize s) as (st2 & e2 & E2 & Hok2); try done.
    + apply (put_request st id c rq p addr s); try done. intros car Hcar. pose proof (Hfresh p s Hs) as Hf. cbn in Hf. rewrite Forall_forall in Hf. by apply Hf.
    + by apply static_conns.
    + eapply stays_books; [exact Hb|by apply static_stays].
    + cbn [set_store client_store]. rewrite request_of_set, bool_decide_true, lookup_insert_eq by done. done.
    + unfold and_then. rewrite E2. by eexists _, _.
Qed.

Lemma send_request_ok env id c addr p priority msize st : core_ok st -> client_store st !! id = Some c ->
  (p = me -> got_init c = GNUNET_YES) -> fresh_address st addr ->
  exists st' e, handle_client_send_request me order env id addr p priority msize st = Some (st', e) /\ core_ok st'.
Proof.
  intros Hok Hcc Hme Hfresh. unfold handle_client_send_request. rewrite Hcc. cbv zeta.
  pose proof (make_requests_ok st id c Hok Hcc) as Hok1. set (rq := default ∅ (c_requests c)) in *.
  set (st1 := set_store (<[id := set_requests_of (Some rq) c]> (client_store st)) st) in *.
  assert (Hc1 : client_store st1 !! id = Some (set_requests_of (Some rq) c)) by (cbn; by rewrite lookup_insert_eq).
  assert (Hid : id ∈ client_list st) by (apply (ok_store _ (ok_books _ Hok)); by eexists).
  unfold contains. destruct (decide (p = me)) as [->|Hp].
  - rewrite (bool_decide_true (me = me)) by done. cbn [negb andb].
    apply (loopback_request_ok env st1 id (set_requests_of (Some rq) c) rq addr msize); try done.
    by destruct (co_init _ _ _ (proj2 (ok_good _ Hok) id c Hid Hcc) (Hme eq_refl)).
  - rewrite (bool_decide_false (p = me)) by done. cbn [negb andb]. case_bool_decide as Hin.
    + change (negb (GNUNET_YES =? GNUNET_YES)) with false. cbv iota.
      by apply (neighbour_request_ok env st1 id (set_requests_of (Some rq) c) rq p addr priority msize).
    + change (negb (GNUNET_YES =? GNUNET_NO)) with true. cbv iota. by eexists _, _.
Qed.

(** ** Runs *)

(** What is assumed of a run. Clients keep to the protocol: a client initialises once, asks to
    send to its own peer after that, and sends what the service has solicited. The key exchange makes sessions
    for other peers that have none and delivers for sessions that exist; new requests get new
    addresses. Two assumptions are limits of the code, which fails an assertion beyond them although it accepts such
    requests: messages are shorter than 63 KiB (not equal), and clients name a type at most 255 times altogether. *)
Definition op_allowed (st : CoreState) (op : core_op) : Prop :=
  match op with
  | ClientConnect id => client_store st !! id = None
  | ClientDisconnect id => is_Some (client_store st !! id)
  | ClientInit id _ types =>
      match client_store st !! id with
      | Some c => got_init c <> GNUNET_YES /\ Forall is_u16 types
          /\ Forall (fun t => (occurrences t (types :: registered st) <= 255)%nat) (concat (types :: registered st))
      | None => False
      end
  | ClientSendRequest id addr peer _ _ =>
      match client_store st !! id with
      | Some c => (peer <> me \/ got_init c = GNUNET_YES) /\ fresh_address st addr
      | None => False
      end
  | ClientSend id peer priority _ _ data =>
      match client_store st !! id with
      | Some c =>
          match c_requests c with
          | Some rq => match rq !! peer with Some rid => peer = me \/ solicited st peer rid | None => True end
          | None => False
          end
          /\ bytes_ok data /\ Z.of_nat (length data) < GNUNET_CONSTANTS_MAX_ENCRYPTED_MESSAGE_SIZE
          /\ 0 <= priority <= GNUNET_CORE_PRIO_CRITICAL_CONTROL
      | None => False
      end
  | KxCall peer _ SessionsCreate => peer <> me /\ core_sessions st !! peer = None
  | KxCall peer _ (ClientsDeliver m _ _) => bytes_ok m /\ is_Some (core_sessions st !! peer)
  | KxCall _ _ _ => True
  | CorkTask peer | TypemapTask peer _ => is_Some (core_sessions st !! peer)
  end.

#[global] Instance op_allowed_dec st op : Decision (op_allowed st op).
Proof.
  destruct op as [id|id|id options types|id addr peer priority msize|id peer priority cork buf data|peer behind []|peer|peer r];
    cbn [op_allowed]; try apply _;
    (destruct (client_store st !! id) as [c|]; [|apply _]); [apply _..|].
  destruct (c_requests c) as [rq|]; [|apply _]. destruct (rq !! peer); apply _.
Defined.

Lemma occurrences_absent t clients : t ∉ concat clients -> occurrences t clients = 0%nat.
Proof.
  induction clients as [|types clients IH]; [done|]. cbn [concat occurrences]. intros [H1 H2]%not_elem_of_app.
  rewrite IH by done. rewrite (proj1 (count_occ_not_In Z.eq_dec types t)); [done|]. by rewrite <- list_elem_of_In.
Qed.

Lemma occurrences_bound clients : Forall (fun t => (occurrences t clients <= 255)%nat) (concat clients) ->
  forall t, (occurrences t clients <= 255)%nat.
Proof.
  intros Hf t. destruct (decide (t ∈ concat clients)) as [Hin|Hin]; [|rewrite occurrences_absent by done; lia].
  rewrite Forall_forall in Hf. by apply Hf.
Qed.

Lemma confirm_ok env peer behind m st : core_ok st ->
  exists st', kx_call me env peer behind (SessionsConfirmTypemap m) st = Some (st', []) /\ core_ok st'.
Proof.
  intros Hok. cbn [kx_call]. assert (Hsame : set_typemap (core_typemap st) (set_sessions (core_sessions st) st) = st) by by destruct st.
  unfold GSC_SESSIONS_confirm_typemap, find_session. destruct (core_sessions st !! peer) as [s|] eqn:Hs; [|rewrite Hsame; eauto].
  case_if; [rewrite Hsame; eauto|]. destruct Hok as [[Hi Hc] [T C O (clients & Hp & Hty)]].
  pose proof (check_hash_inv (slice 8 64 m) (core_typemap st) clients Hty) as Hch.
  destruct (GSC_TYPEMAP_check_hash _ _) as [tms r]. destruct Hch as (Hty' & _ & _).
  assert (Hl : length (my_type_map tms) = TYPEMAP_WORDS) by apply (co_map _ _ (ti_counts _ _ Hty')).
  assert (Hgood : forall ss, core_inv None None (set_sessions ss st) -> view (set_sessions ss st) = view st ->
    core_ok (set_typemap tms (set_sessions ss st))).
  { intros ss Hi' Hv. split; [split; [by apply core_inv_typemap|]|by split; eauto].
    change (view (set_typemap tms (set_sessions ss st))) with (view (set_sessions ss st)). by rewrite Hv. }
  case_if; eexists; (split; [done|]); apply Hgood.
  - by rewrite same_sessions.
  - by rewrite same_sessions.
  - destruct (ci_sessions _ _ _ _ Hi peer s Hs). by apply (core_inv_session me _ _ _ _ s).
  - by apply (view_same st peer s).
Qed.

Context (ALIGN_FACTOR : Z) (fresh : nat -> Z).

Lemma kx_call_ok env peer behind e st : core_ok st -> op_allowed st (KxCall peer behind e) ->
  exists st' ev, kx_call me env peer behind e st = Some (st', ev) /\ core_ok st'.
Proof.
  intros Hok Ha. pose proof (ok_good _ Hok) as Hg.
  assert (Hruns : forall r, runs None None st r -> exists st' ev, r = Some (st', ev) /\ core_ok st').
  { intros r Hr. destruct (runs_ok st r Hok Hr) as (st' & ev & -> & Hok' & _). eauto. }
  destruct e as [status timeout|m|m|m|m| | | | |payload|m|m|m size options]; cbn [op_allowed] in Ha; cbn [kx_call]; eauto.
  - destruct Ha. by apply Hruns, create_runs.
  - destruct (end_runs peer st Hg) as (st' & ev & E & Hg' & Hs). exists st', ev. split; [done|]. by eapply stays_ok.
  - by apply Hruns, reinit_runs.
  - by apply Hruns, solicit_runs.
  - by apply Hruns, set_typemap_runs.
  - destruct (confirm_ok env peer behind m st Hok) as (st' & E & Hok'). eauto.
  - destruct Ha. apply Hruns, deliver_message_runs; auto.
Qed.

Lemma core_step_ok env op st : core_ok st -> op_allowed st op ->
  exists st' e, core_step me order ALIGN_FACTOR fresh env op st = Some (st', e) /\ core_ok st'.
Proof.
  intros Hok Ha. pose proof (ok_good _ Hok) as Hg.
  assert (Hruns : forall r, runs None None st r -> exists st' ev, r = Some (st', ev) /\ core_ok st').
  { intros r Hr. destruct (runs_ok st r Hok Hr) as (st' & ev & -> & Hok' & _). eauto. }
  destruct op as [id|id|id options types|id addr peer priority msize|id peer priority cork buf data|peer behind e|peer|peer r];
    cbn [core_step op_allowed] in *.
  - by apply connect_ok.
  - destruct Ha as [c Hc]. destruct (disconnect_ok env id c st Hok Hc) as (st' & e & E & Hok' & _). eauto.
  - destruct (client_store st !! id) as [c|] eqn:Hc; [|done]. destruct Ha as (Hg' & Ht & Hocc).
    apply (init_ok env id c); try done. by apply occurrences_bound.
  - destruct (client_store st !! id) as [c|] eqn:Hc; [|done]. destruct Ha as (Hme & Hf).
    apply (send_request_ok env id c); try done. intros ->. by destruct Hme.
  - destruct (client_store st !! id) as [c|] eqn:Hc; [|done]. destruct Ha as (Hrq & Hb & Hl & Hp).
    destruct (c_requests c) as [rq|] eqn:Erq; [|done]. apply Hruns. apply (send_runs _ _ _ _ _ _ _ _ _ Hb Hl Hp st c rq); try done.
    intros rid Hrid. by rewrite Hrid in Hrq.
  - by apply kx_call_ok.
  - destruct Ha as [s Hs]. rewrite Hs. by apply Hruns, pop_cork_runs.
  - destruct Ha as [s Hs]. rewrite Hs. by apply Hruns, typemap_task_runs.
Qed.

(** Every operation is allowed in the state in which it comes. *)
Fixpoint run_allowed (ops : list (CoreEnv * core_op)) (st : CoreState) : Prop :=
  match ops with
  | [] => True
  | (env, op) :: ops => op_allowed st op
      /\ match core_step me order ALIGN_FACTOR fresh env op st with
         | Some (st', _) => run_allowed ops st'
         | None => True
         end
  end.

#[global] Instance run_allowed_dec ops st : Decision (run_allowed ops st).
Proof.
  revert st. induction ops as [|[env op] ops IH]; intros st; cbn [run_allowed]; [apply _|].
  destruct (core_step _ _ _ _ _ _ _) as [[st' e]|]; apply _.
Defined.

Lemma core_run_ok ops st : core_ok st -> run_allowed ops st ->
  exists st' e, core_run me order ALIGN_FACTOR fresh ops st = Some (st', e) /\ core_ok st'.
Proof.
  revert st. induction ops as [|[env op] ops IH]; intros st Hok Ha; [by exists st, []|]. destruct Ha as [Ha Hr].
  destruct (core_step_ok env op st Hok Ha) as (st1 & e1 & E1 & Hok1).
  rewrite E1 in Hr. destruct (IH st1 Hok1 Hr) as (st2 & e2 & E2 & Hok2).
  exists st2, (e1 ++ e2). cbn [core_run]. unfold and_then. by rewrite E1, E2.
Qed.

Lemma core_initial_ok : core_ok core_initial.
Proof.
  split; [split; [split|]|split]; unfold core_initial; cbn; try done.
  - intros id Hid. by apply elem_of_nil in Hid.
  - constructor.
  - intros id [c Hc]. done.
  - intros n. rewrite Z.testbit_0_l. split; [done|]. by intros (id & c & Hc & _).
  - exists []. split; [done|]. apply typemap_inv_initial.
Qed.
End Service.

(** ** What clients are told *)

Section Told.
Context `{HG : Gcrypt} `{HZ : Zlib} (me : list Z) (order : forall A, gmap (list Z) A -> list (list Z)).

(** The peers a client takes as connected after these messages of the service. *)
Definition learn (id : Z) (m : gset (list Z)) (e : core_event) : gset (list Z) :=
  match e with
  | SendInitReply i => if i =? id then {[me]} ∪ m else m
  | SendNotifyConnect i p => if i =? id then {[p]} ∪ m else m
  | SendNotifyDisconnect i p => if i =? id then m ∖ {[p]} else m
  | _ => m
  end.
Definition learns (id : Z) (ev : list core_event) (m : gset (list Z)) : gset (list Z) := fold_left (learn id) ev m.

Lemma learns_app id a b m : learns id (a ++ b) m = learns id b (learns id a m).
Proof. apply fold_left_app. Qed.

(** Clients that are there after an operation know what they have been told. *)
Definition tells (st : CoreState) (r : result) : Prop :=
  forall st' e, r = Some (st', e) -> forall id c', client_store st' !! id = Some c' ->
    exists c, client_store st !! id = Some c /\ connectmap c' = learns id e (connectmap c).

Lemma tells_same st st' e : (forall id c', client_store st' !! id = Some c' ->
    exists c, client_store st !! id = Some c /\ connectmap c' = connectmap c) ->
  (forall id m, learns id e m = m) -> tells st (Some (st', e)).
Proof. intros Hs He st2 e2 [= <- <-] id c' Hc'. destruct (Hs id c' Hc') as (c & Hc & E). exists c. by rewrite He. Qed.

Lemma tells_none st e : (forall id m, learns id e m = m) -> tells st (Some (st, e)).
Proof. apply tells_same. eauto. Qed.

Lemma tells_trans st r f : tells st r -> (forall st', tells st' (f st')) -> tells st (and_then r f).
Proof.
  intros Hr Hf st2 e2 E id c2 Hc2. unfold and_then in E. destruct r as [[st1 e1]|]; [|done].
  destruct (f st1) as [[st3 e3]|] eqn:Ef; [|done]. injection E as -> <-.
  destruct (Hf st1 st2 e3 Ef id c2 Hc2) as (c1 & Hc1 & E2). destruct (Hr st1 e1 eq_refl id c1 Hc1) as (c & Hc & E1).
  exists c. by rewrite learns_app, <- E1.
Qed.

Lemma tells_for_each {A} (f : A -> CoreState -> result) l st : (forall x st, tells st (f x st)) -> tells st (for_each f l st).
Proof.
  intros Hf. revert st. induction l as [|x l IH]; intros st; [by apply tells_none|]. cbn [for_each]. by apply tells_trans.
Qed.

(** The client at an address is changed, but not whom it knows. *)
Lemma insert_connectmap (store : gmap Z GSC_Client) i c c1 : store !! i = Some c -> connectmap c1 = connectmap c ->
  forall id c', <[i := c1]> store !! id = Some c' -> exists c, store !! id = Some c /\ connectmap c' = connectmap c.
Proof.
  intros Hc E id c'. destruct (decide (id = i)) as [->|Hne].
  - rewrite lookup_insert_eq. intros [= <-]. eauto.
  - rewrite lookup_insert_ne by done. eauto.
Qed.

Lemma notify_tells p old new id st : tells st (GSC_CLIENTS_notify_client_about_neighbour p old new id st).
Proof.
  unfold GSC_CLIENTS_notify_client_about_neighbour. destruct (client_store st !! id) as [c|] eqn:Hc; [|done].
  assert (Hset : forall m e, (forall i, i <> id -> learns i [e] = fun m => m) -> learns id [e] (connectmap c) = m ->
    tells st (Some (set_store (<[id := set_connectmap m c]> (client_store st)) st, [e]))).
  { intros m e Ho Hm st' e' [= <- <-] i c'. cbn [set_store client_store]. destruct (decide (i = id)) as [->|Hne].
    - rewrite lookup_insert_eq. intros [= <-]. exists c. by rewrite Hm.
    - rewrite lookup_insert_ne by done. intros Hc'. exists c'. by rewrite Ho. }
  assert (Hother : forall i, i <> id -> (id =? i) = false) by (intros; apply Z.eqb_neq; congruence).
  case_if; [by apply tells_none|]. destruct (GSC_TYPEMAP_test_match old _) as [o|]; [|done].
  destruct (GSC_TYPEMAP_test_match new _) as [n|]; [|done]. case_if; [case_if; [by apply tells_none|done]|].
  case_if; (case_if; [|done]); apply Hset; unfold learns; cbn; rewrite ?Z.eqb_refl; try done; intros i Hi; by rewrite Hother.
Qed.

Lemma forget_connectmap id p rid st st' : forget_request id p rid st = Some st' ->
  forall i c', client_store st' !! i = Some c' -> exists c, client_store st !! i = Some c /\ connectmap c' = connectmap c.
Proof.
  unfold forget_request. destruct (client_store st !! id) as [c|] eqn:Hc; [|done]. destruct (c_requests c); [|done].
  case_if; [|done]. intros [= <-]. by apply (insert_connectmap _ id c).
Qed.

Lemma session_call_tells drop p e st : (forall id st, tells st (drop id st)) -> tells st (session_call drop p e st).
Proof.
  intros Hd. destruct e as [car|car d|payload|old new]; cbn [session_call]; try by apply tells_none.
  - unfold GSC_CLIENTS_reject_request. destruct (forget_request _ _ _ st) as [st1|] eqn:E; [|done].
    pose proof (forget_connectmap _ _ _ _ _ E) as Hf. case_if; [|by apply tells_same].
    apply tells_trans; [by apply tells_same|done].
  - apply tells_for_each. intros id st1. apply notify_tells.
Qed.

Lemma with_sessions_tells drop p f st : (forall id st, tells st (drop id st)) -> tells st (with_sessions drop p f st).
Proof.
  intros Hd. unfold with_sessions. destruct (f (core_sessions st)) as [[m ev]|]; [|done].
  change (tells st) with (tells (set_sessions m st)). apply tells_for_each. intros e st1. by apply session_call_tells.
Qed.

Lemma no_drop_tells id st : tells st (no_drop id st).
Proof. done. Qed.

Lemma dequeue_tells env id p rid st : tells st (dequeue_request me env id p rid st).
Proof. apply with_sessions_tells, no_drop_tells. Qed.

Lemma broadcast_tells env msg st : tells st (GSC_SESSIONS_broadcast_typemap order env msg st).
Proof. apply tells_for_each. intros p st1. apply with_sessions_tells, no_drop_tells. Qed.

Lemma typemap_changed_tells env r st : tells st (typemap_changed order env r st).
Proof.
  unfold typemap_changed. destruct r as [[tms [msg|]]|]; [| |done].
  - change (tells st) with (tells (set_typemap tms st)). apply broadcast_tells.
  - apply tells_same; [|done]. cbn. eauto.
Qed.

Lemma destroy_tells env id p st : tells st (destroy_active_client_request me env id p st).
Proof.
  unfold destroy_active_client_request. destruct (client_store st !! id) as [c|]; [|done]. destruct (c_requests c) as [rq|]; [|done].
  destruct (rq !! p) as [rid|]; [|done]. destruct (forget_request id p rid st) as [st1|] eqn:E; [|done].
  intros st2 e E2 i c2 Hc2. destruct (dequeue_tells env id p rid st1 st2 e E2 i c2 Hc2) as (c1 & Hc1 & E1).
  destruct (forget_connectmap _ _ _ _ _ E i c1 Hc1) as (c0 & Hc0 & E0). exists c0. by rewrite <- E0.
Qed.

Lemma disconnect_tells env id st : tells st (client_disconnect_cb me order env id st).
Proof.
  unfold client_disconnect_cb. destruct (client_store st !! id) as [c|]; [|done].
  apply tells_trans; [|intros st1; apply tells_trans].
  - change (tells st) with (tells (set_list (filter (fun i => i <> id) (client_list st)) st)). destruct (c_requests c).
    + apply tells_for_each. intros p st1. apply destroy_tells.
    + by apply tells_none.
  - destruct (c_types c); [apply typemap_changed_tells|by apply tells_none].
  - intros st2. apply tells_same; [|done]. cbn. intros i c' [_ Hc']%lookup_delete_Some. eauto.
Qed.

Lemma deliver_to_client_tells env sender msg msize options id st :
  tells st (deliver_to_client env sender msg msize options id st).
Proof.
  unfold deliver_to_client. destruct (client_store st !! id) as [c|]; [|done].
  do 4 (case_if; [by apply tells_none|]). case_if; [by apply tells_none|done].
Qed.

Lemma deliver_message_tells env sender msg msize options st :
  tells st (GSC_CLIENTS_deliver_message me env sender msg msize options st).
Proof.
  unfold GSC_CLIENTS_deliver_message. do 2 (case_if; [by apply tells_none|]).
  apply tells_trans; [apply with_sessions_tells, no_drop_tells|]. intros st1. apply tells_for_each.
  intros id st2. apply deliver_to_client_tells.
Qed.

Lemma deliver_both_tells env sender msg full hdr st : tells st (deliver_both me env sender msg full hdr st).
Proof. apply tells_trans; [apply deliver_message_tells|]. intros st1. apply deliver_message_tells. Qed.

Lemma tokenized_tells env id rid p cork priority msg st : tells st (tokenized_cb me env id rid p cork priority msg st).
Proof.
  apply tells_trans; [apply deliver_both_tells|]. intros st1. case_bool_decide; [apply deliver_both_tells|].
  apply with_sessions_tells, no_drop_tells.
Qed.

Lemma send_tells ALIGN_FACTOR fresh env id p priority cork buf data st : bytes_ok data -> Z.of_nat (length data) < 2 ^ 63 ->
  tells st (handle_client_send me ALIGN_FACTOR fresh env id p priority cork buf data st).
Proof.
  intros Hb Hl. unfold handle_client_send. destruct (client_store st !! id) as [c|]; [|done]. destruct (c_requests c) as [rq|]; [|done].
  destruct (rq !! p) as [rid|]; [|by apply tells_none]. destruct (forget_request id p rid st) as [st1|] eqn:E; [|done].
  set (cb := fun (cls : result) (m : list Z) => _).
  destruct (from_buffer_spec ALIGN_FACTOR fresh cb GNUNET_MST_create (Some (st1, [])) buf data true GNUNET_NO)
    as (m & r & ret & -> & _ & Hk & _); [apply tokenizer_create_wf|done|cbn; lia|].
  apply tells_trans; [|intros st2; apply dequeue_tells].
  assert (Er : r = fst (fst (tokenize cb GNUNET_NO (Some (st1, [])) (unread GNUNET_MST_create ++ data)))).
  { unfold keep in Hk. destruct (tokenize cb _ _ _) as [[cls1 ret1] rest1]. injection Hk as -> _. done. }
  rewrite Er. apply (tokenize_keeps cb (tells st) (length data)); [done|done| |].
  - apply tells_same; [|done]. by eapply forget_connectmap.
  - intros cls msg Hr _ _. cbn [cb fst]. apply tells_trans; [done|]. intros st2. apply tokenized_tells.
Qed.

Lemma send_request_tells env id addr p priority msize st :
  tells st (handle_client_send_request me order env id addr p priority msize st).
Proof.
  unfold handle_client_send_request. destruct (client_store st !! id) as [c|] eqn:Hc; [|done]. cbv zeta.
  set (st1 := set_store (<[id := set_requests_of (Some (default ∅ (c_requests c))) c]> (client_store st)) st).
  assert (H1 : forall i c', client_store st1 !! i = Some c' -> exists c, client_store st !! i = Some c /\ connectmap c' = connectmap c)
    by by apply (insert_connectmap _ id c).
  case_if; [by apply tells_same|]. apply tells_trans.
  - destruct (default ∅ (c_requests c) !! p) as [rid|].
    + intros st2 e E2 i c2 Hc2. destruct (dequeue_tells env id p rid st1 st2 e E2 i c2 Hc2) as (c1 & Hc1 & E1).
      destruct (H1 i c1 Hc1) as (c0 & Hc0 & E0). exists c0. by rewrite <- E0.
    + apply tells_same; [|done]. cbn [set_store client_store st1]. rewrite insert_insert_eq. by apply (insert_connectmap _ id c).
  - intros st2. case_if; [|apply with_sessions_tells; intros; apply disconnect_tells].
    unfold solicit_loopback. destruct (client_store st2 !! id); [|done]. case_if; [by apply tells_none|done].
Qed.

(** Operations on sessions that tell nothing about neighbours. *)
Lemma harmless_silent p ev st st' e : Forall harmless ev -> for_each (session_call no_drop p) ev st = Some (st', e) ->
  forall id m, learns id e m = m.
Proof.
  intros Hh. revert st st' e. induction Hh as [|x ev Hx _ IH]; intros st st' e E id m; [by injection E as <- <-|].
  cbn [for_each] in E. unfold and_then in E. destruct (session_call no_drop p x st) as [[st1 e1]|] eqn:E1; [|done].
  destruct (for_each _ ev st1) as [[st2 e2]|] eqn:E2; [|done]. injection E as <- <-. rewrite learns_app.
  assert (learns id e1 m = m) as ->; [|by eapply IH].
  destruct x as [car|car d|payload|old new]; cbn [session_call] in E1; [by injection E1 as <- <-| |by injection E1 as <- <-|done].
  cbn in Hx. subst d. unfold GSC_CLIENTS_reject_request in E1. destruct (forget_request _ _ _ _); [|done]. by injection E1 as <- <-.
Qed.

Lemma broadcast_silent env msg st st' e : GSC_SESSIONS_broadcast_typemap order env msg st = Some (st', e) ->
  forall id m, learns id e m = m.
Proof.
  unfold GSC_SESSIONS_broadcast_typemap. generalize (order Session (core_sessions st)). intros l. revert st st' e.
  induction l as [|p l IH]; intros st st' e E id m; [by injection E as <- <-|]. cbn [for_each] in E. unfold and_then in E.
  destruct (with_sessions _ _ _ _) as [[st1 e1]|] eqn:E1; [|done]. destruct (for_each _ l st1) as [[st2 e2]|] eqn:E2; [|done].
  injection E as <- <-. rewrite learns_app. assert (learns id e1 m = m) as ->; [|by eapply IH].
  unfold with_sessions in E1. destruct (core_sessions st !! p) as [s|]; [|done]. unfold on_session, do_restart_typemap_message in E1.
  destruct (try_transmission_now _ _) as [[s1 ev]|] eqn:Et; [|done].
  pose proof (try_transmission_served _ _ _ _ _ Et) as [Hh _ _ _ _]. by eapply harmless_silent.
Qed.

Lemma init_tells env id options types st : tells st (handle_client_init me order env id options types st).
Proof.
  unfold handle_client_init. destruct (client_store st !! id) as [c|] eqn:Hc; [|done]. case_if; [|done].
  set (st1 := set_options _ _). intros st3 e3 E3. unfold and_then in E3.
  destruct (typemap_changed order env (GSC_TYPEMAP_add types (core_typemap st1)) st1) as [[st2 e2]|] eqn:E2; [|done].
  destruct (GSC_SESSIONS_notify_client_about_sessions order id st2) as [[st4 e4]|] eqn:E4; [|done]. injection E3 as -> <-.
  intros i c3 Hc3. assert (Hn : tells st2 (GSC_SESSIONS_notify_client_about_sessions order id st2)).
  { apply tells_for_each. intros q st5. destruct (core_sessions st5 !! q); [apply notify_tells|done]. }
  destruct (Hn st3 e4 E4 i c3 Hc3) as (c2 & Hc2 & Ec2).
  destruct (typemap_changed_tells env _ st1 st2 e2 E2 i c2 Hc2) as (c1 & Hc1 & Ec1).
  assert (Hs : forall m, learns i e2 m = m).
  { unfold typemap_changed in E2. destruct (GSC_TYPEMAP_add _ _) as [[tms [msg|]]|]; [| |done].
    - by apply (broadcast_silent env msg _ _ _ E2).
    - by injection E2 as <- <-. }
  rewrite Hs in Ec1. cbn [st1 set_options set_store client_store] in Hc1.
  destruct (decide (i = id)) as [->|Hne].
  - rewrite lookup_insert_eq in Hc1. injection Hc1 as <-. exists c. split; [done|]. rewrite Ec2, Ec1, learns_app, Hs.
    change (learns id (?x :: e4) ?m) with (learns id e4 (learn id m x)). cbn [learn]. by rewrite Z.eqb_refl.
  - rewrite lookup_insert_ne in Hc1 by done. exists c1. split; [done|]. rewrite Ec2, Ec1, learns_app, Hs.
    change (learns i (?x :: e4) ?m) with (learns i e4 (learn i m x)). cbn [learn]. by rewrite (proj2 (Z.eqb_neq id i)) by congruence.
Qed.

Lemma kx_call_tells env peer behind e st : tells st (kx_call me env peer behind e st).
Proof.
  destruct e; cbn [kx_call]; try (by apply tells_none); try (apply with_sessions_tells, no_drop_tells).
  - destruct (GSC_SESSIONS_confirm_typemap _ _ _ _) as [tms ss]. apply tells_same; [|done]. cbn. eauto.
  - apply deliver_message_tells.
Qed.

Context (ALIGN_FACTOR : Z) (fresh : nat -> Z).

Lemma step_tells env op st : op_allowed me st op -> (forall id, op <> ClientConnect id) ->
  tells st (core_step me order ALIGN_FACTOR fresh env op st).
Proof.
  intros Ha Hop.
  destruct op as [id|id|id options types|id addr peer priority msize|id peer priority cork buf data|peer behind e|peer|peer r];
    cbn [core_step op_allowed] in *.
  - by destruct (Hop id).
  - apply disconnect_tells.
  - apply init_tells.
  - apply send_request_tells.
  - destruct (client_store st !! id) as [c|]; [|done]. destruct Ha as (_ & Hb & Hl & _).
    apply send_tells; [done|]. unfold GNUNET_CONSTANTS_MAX_ENCRYPTED_MESSAGE_SIZE in Hl. lia.
  - apply kx_call_tells.
  - destruct (core_sessions st !! peer); [apply with_sessions_tells, no_drop_tells|done].
  - destruct (core_sessions st !! peer); [apply with_sessions_tells, no_drop_tells|done].
Qed.

(** The peers that a client takes as connected after a run, from the messages it was sent
    since it connected. *)
Fixpoint informed (id : Z) (ops : list (CoreEnv * core_op)) (st : CoreState) (m : gset (list Z)) : gset (list Z) :=
  match ops with
  | [] => m
  | (env, op) :: ops =>
      match core_step me order ALIGN_FACTOR fresh env op st with
      | Some (st', e) => informed id ops st' (match op with
                                              | ClientConnect i => if i =? id then ∅ else m
                                              | _ => learns id e m
                                              end)
      | None => m
      end
  end.

Lemma run_informed id ops st m : run_allowed me order ALIGN_FACTOR fresh ops st ->
  (forall c, client_store st !! id = Some c -> connectmap c = m) ->
  forall st' e c, core_run me order ALIGN_FACTOR fresh ops st = Some (st', e) -> client_store st' !! id = Some c ->
  connectmap c = informed id ops st m.
Proof.
  revert st m. induction ops as [|[env op] ops IH]; intros st m Ha Hm st' e c E Hc; cbn [core_run informed] in *.
  { injection E as -> _. by apply Hm. }
  destruct Ha as [Ha Hr]. unfold and_then in E. destruct (core_step _ _ _ _ env op st) as [[st1 e1]|] eqn:E1; [|done].
  destruct (core_run _ _ _ _ ops st1) as [[st2 e2]|] eqn:E2; [|done]. injection E as -> _.
  apply (IH st1 _ Hr) with (st' := st') (e := e2); [|done|done]. clear IH Hr E2 Hc c. intros c Hc.
  assert (Hother : (forall i, op <> ClientConnect i) -> connectmap c = learns id e1 m).
  { intros Hop. destruct (step_tells env op st Ha Hop st1 e1 E1 id c Hc) as (c0 & Hc0 & ->). by rewrite (Hm c0 Hc0). }
  destruct op as [i|i|i options types|i addr peer priority msize|i peer priority cork buf data|peer behind x|peer|peer r];
    try (by apply Hother).
  cbn [core_step] in E1. injection E1 as <- <-. cbn [set_list set_store client_store] in Hc.
  destruct (Z.eqb_spec i id) as [->|Hne].
  - rewrite lookup_insert_eq in Hc. by injection Hc as <-.
  - rewrite lookup_insert_ne in Hc by done. by apply Hm.
Qed.
End Told.

(** ** Properties *)

Section Facts.
Context `{HG : Gcrypt} `{HZ : Zlib} (me : list Z) (st : CoreState) (Hok : core_ok me st).

Lemma known_neighbours id c p : client_store st !! id = Some c -> got_init c = GNUNET_YES ->
  p ∈ connectmap c <-> p = me \/ exists s, core_sessions st !! p = Some s
    /\ GSC_TYPEMAP_test_match (Some (s_tmap s)) (types_of c) = Some GNUNET_YES.
Proof.
  intros Hc Hg. destruct Hok as [[Hi Hcn] Hb]. assert (Hid : id ∈ client_list st) by (apply (ok_store _ Hb); by eexists).
  destruct (co_init _ _ _ (Hcn id c Hid Hc) Hg) as [Hme Hq]. destruct (decide (p = me)) as [->|Hp]; [by split; auto|].
  rewrite (Hq p Hp). unfold neighbour_of, view. rewrite lookup_fmap. destruct (core_sessions st !! p) as [s|]; cbn.
  - split; [right; eauto|]. intros [?|(s' & [= <-] & ?)]; done.
  - split; [done|]. intros [?|(s' & ? & _)]; done.
Qed.

Lemma requests_queued id p rid : p <> me ->
  request_of (client_store st) id p = Some rid <-> exists s car, core_sessions st !! p = Some s
    /\ car ∈ active_client_requests s /\ car_id car = rid /\ car_client car = id /\ car_target car = p.
Proof.
  intros Hp. destruct Hok as [[Hi _] _]. split.
  - intros Hr. destruct (request_in_session me st id p rid Hi Hr Hp) as (s & car & Hs & Hcar & ? & ?). exists s, car.
    split_and!; [done..|]. by apply (ci_queued _ _ _ _ Hi p s car Hs Hcar).
  - intros (s & car & Hs & Hcar & <- & <- & _). destruct (ci_queued _ _ _ _ Hi p s car Hs Hcar) as [_ [[? _]|Hq]]; [done|].
    by apply request_of_Some.
Qed.

Lemma own_type_map t : is_u16 t ->
  handles (my_type_map (core_typemap st)) t = true <-> exists id c, client_store st !! id = Some c /\ t ∈ types_of c.
Proof.
  intros Ht. destruct Hok as [_ [T C O (clients & Hp & Hty)]].
  rewrite (co_bits _ _ (ti_counts _ _ Hty) t Ht), Z.ltb_lt.
  assert (0 < Z.of_nat (occurrences t clients) <-> (0 < occurrences t clients)%nat) as -> by lia.
  rewrite occurrences_pos. setoid_rewrite Hp. unfold registered. setoid_rewrite list_elem_of_omap. split.
  - intros (types & (id & Hid & Ht') & Hin). unfold types_in in Ht'. destruct (client_store st !! id) as [c|] eqn:Hc; [|done].
    exists id, c. split; [done|]. unfold types_of. by rewrite Ht'.
  - intros (id & c & Hc & Hin). unfold types_of in Hin. destruct (c_types c) as [types|] eqn:Et; [|by apply elem_of_nil in Hin].
    exists types. split; [|done]. exists id. split; [apply T; by eexists|]. unfold types_in. by rewrite Hc.
Qed.
End Facts.

(** C13. The core service, clients and sessions on top of any behaviour of the key exchange that keeps to its
    interface, is safe. In every run within [op_allowed] (clients keep to the protocol; messages are shorter than 63 KiB
    and all clients together name each type at most 255 times, since beyond these the code fails assertions) no
    assertion fails and nothing is dereferenced that does not exist; an initialised client
    knows exactly its own peer and the neighbours whose type map has one of its types; a
    request is with its client exactly if it waits in the session of its peer; the options
    are those of all clients together; and the type map that is announced is the union of
    the types of the clients. The hypotheses are that hashes have 64 bytes, that compressed
    data are bytes, and that iterating over a map visits every key once. *)
Theorem core_service_safe `{Gcrypt} `{Zlib} me order ALIGN_FACTOR fresh ops :
  (forall block, hash_ok (GNUNET_CRYPTO_hash block)) ->
  (forall data out, compress2 data = Some out -> bytes_ok out) ->
  (forall A (m : gmap (list Z) A), order A m ≡ₚ (map_to_list m).*1) ->
  run_allowed me order ALIGN_FACTOR fresh ops core_initial ->
  exists st ev, core_run me order ALIGN_FACTOR fresh ops core_initial = Some (st, ev)
    /\ (forall id c p, client_store st !! id = Some c -> got_init c = GNUNET_YES ->
          p ∈ connectmap c <-> p = me \/ exists s, core_sessions st !! p = Some s
            /\ GSC_TYPEMAP_test_match (Some (s_tmap s)) (types_of c) = Some GNUNET_YES)
    /\ (forall id p rid, p <> me ->
          request_of (client_store st) id p = Some rid <-> exists s car, core_sessions st !! p = Some s
            /\ car ∈ active_client_requests s /\ car_id car = rid /\ car_client car = id /\ car_target car = p)
    /\ (forall n, Z.testbit (all_client_options st) n = true <->
          exists id c, client_store st !! id = Some c /\ Z.testbit (c_options c) n = true)
    /\ (forall t, is_u16 t -> handles (my_type_map (core_typemap st)) t = true <->
          exists id c, client_store st !! id = Some c /\ t ∈ types_of c).
Proof.
  intros Hh Hc Ho Hr.
  destruct (core_run_ok me order Hh Hc Ho ALIGN_FACTOR fresh ops core_initial (core_initial_ok me) Hr) as (st & ev & E & Hok).
  exists st, ev. split_and!; [done|..].
  - by apply (known_neighbours me st Hok).
  - by apply (requests_queued me st Hok).
  - apply (ok_options _ (ok_books _ _ Hok)).
  - by apply (own_type_map me st Hok).
Qed.

(** C14. Clients are told the truth: in every run in which clients keep to the protocol, the
    peers an initialised client has been told of by [CORE_INIT_REPLY] and connect
    notifications, and not by later disconnect notifications, are its own peer and the peers
    with which there is a session whose type map has one of the types of the client. *)
Theorem clients_informed `{Gcrypt} `{Zlib} me order ALIGN_FACTOR fresh ops :
  (forall block, hash_ok (GNUNET_CRYPTO_hash block)) ->
  (forall data out, compress2 data = Some out -> bytes_ok out) ->
  (forall A (m : gmap (list Z) A), order A m ≡ₚ (map_to_list m).*1) ->
  run_allowed me order ALIGN_FACTOR fresh ops core_initial ->
  exists st ev, core_run me order ALIGN_FACTOR fresh ops core_initial = Some (st, ev)
    /\ forall id c p, client_store st !! id = Some c -> got_init c = GNUNET_YES ->
        p ∈ informed me order ALIGN_FACTOR fresh id ops core_initial ∅ <->
        p = me \/ exists s, core_sessions st !! p = Some s
          /\ GSC_TYPEMAP_test_match (Some (s_tmap s)) (types_of c) = Some GNUNET_YES.
Proof.
  intros Hh Hc Ho Hr.
  destruct (core_run_ok me order Hh Hc Ho ALIGN_FACTOR fresh ops core_initial (core_initial_ok me) Hr) as (st & ev & E & Hok).
  exists st, ev. split; [done|]. intros id c p Hcc Hg.
  rewrite <- (run_informed me order ALIGN_FACTOR fresh id ops core_initial ∅ Hr) with (st' := st) (e := ev) (c := c); [|done..].
  by apply (known_neighbours me st Hok id).
Qed.

(** ** Concrete runs *)

#[local] Existing Instance toy_gcrypt.
#[local] Existing Instance toy_zlib.

Definition demo_order (A : Type) (m : gmap (list Z) A) : list (list Z) := (map_to_list m).*1.
Definition demo_core_env : CoreEnv := mk_core_env (mk_abs 5) (fun _ => 0) (fun _ => GNUNET_YES) (fun _ _ _ => 0).

(** Two clients; a peer connects and sends a message of type 77, for which the first client
    is registered. The client asks to send, is told that it may, and sends; then the peer
    disconnects. *)
Definition demo_core_ops : list (CoreEnv * core_op) := map (pair demo_core_env)
  [ClientConnect 1; ClientConnect 2; ClientInit 1 0 [77; 300];
   KxCall [7] [] SessionsCreate; KxCall [7] [] SessionsSolicit;
   KxCall [7] [] (ClientsDeliver [0; 5; 0; 77; 1] 5 GNUNET_CORE_OPTION_SEND_FULL_INBOUND);
   ClientInit 2 GNUNET_CORE_OPTION_SEND_FULL_INBOUND [77];
   ClientSendRequest 1 100 [7] 1 6; ClientSend 1 [7] 1 GNUNET_NO 0 [0; 6; 1; 44; 2; 3];
   ClientSendRequest 1 101 [9] 1 6; ClientSendRequest 2 102 [1] 1 5; ClientSend 2 [1] 1 GNUNET_NO 0 [0; 5; 0; 77; 1];
   KxCall [7] [] SessionsEnd; ClientDisconnect 1].

Lemma demo_hash block : hash_ok (GNUNET_CRYPTO_hash block).
Proof.
  unfold GNUNET_CRYPTO_hash, gcry_md_hash_buffer, toy_gcrypt. split; [|by rewrite length_map, length_seqZ].
  apply Forall_map, Forall_forall. intros i _. apply u8_range.
Qed.

Lemma demo_compress data out : compress2 data = Some out -> bytes_ok out.
Proof. unfold compress2, toy_zlib. destruct (_ && _); [|done]. intros [= <-]. apply bytes_ok_be_encode. Qed.

Definition demo_result (r : result) : bool :=
  match r with
  | Some (st, _) => bool_decide (client_list st = [2]) && handles (my_type_map (core_typemap st)) 77
                    && negb (handles (my_type_map (core_typemap st)) 300)
  | None => false
  end.

Lemma core_service_safe_witness :
  exists st ev, core_run [1] demo_order 8 Z.of_nat demo_core_ops core_initial = Some (st, ev)
    /\ demo_result (Some (st, ev)) = true.
Proof.
  assert (Hres : demo_result (core_run [1] demo_order 8 Z.of_nat demo_core_ops core_initial) = true) by (vm_compute; reflexivity).
  destruct (core_service_safe [1] demo_order 8 Z.of_nat demo_core_ops) as (st & ev & E & _).
  - exact demo_hash.
  - exact demo_compress.
  - intros A m. reflexivity.
  - apply (bool_decide_unpack _). vm_compute. exact I.
  - exists st, ev. rewrite E in Hres. split; [exact E|exact Hres].
Defined.

(** After the first eight operations of the run both clients have been told of the peer. *)
Lemma clients_informed_witness :
  exists st ev, core_run [1] demo_order 8 Z.of_nat (take 8 demo_core_ops) core_initial = Some (st, ev)
    /\ forall c, client_store st !! 1 = Some c -> got_init c = GNUNET_YES ->
        [1] ∈ informed [1] demo_order 8 Z.of_nat 1 (take 8 demo_core_ops) core_initial ∅.
Proof.
  destruct (clients_informed [1] demo_order 8 Z.of_nat (take 8 demo_core_ops)) as (st & ev & E & Hi).
  - exact demo_hash.
  - exact demo_compress.
  - intros A m. reflexivity.
  - apply (bool_decide_unpack _). vm_compute. exact I.
  - exists st, ev. split; [exact E|]. intros c Hc Hg. apply (Hi 1 c [1] Hc Hg). left. reflexivity.
Defined.

Example demo_informed : informed [1] demo_order 8 Z.of_nat 1 (take 8 demo_core_ops) core_initial ∅ = {[ [1]; [7] ]}.
Proof. apply (bool_decide_unpack _). vm_compute. exact I. Qed.

(** *** Clients that do not keep to the protocol *)

Definition demo_fails `{Gcrypt} (ops : list (CoreEnv * core_op)) : bool :=
  match core_run [1] demo_order 8 Z.of_nat ops core_initial with Some _ => false | None => true end.

(** A second [CORE_INIT] fails the assertion that the peer itself is not in the map yet. *)
Example second_init : demo_fails (map (pair demo_core_env)
  [ClientConnect 1; ClientInit 1 0 [77]; ClientInit 1 0 [77]]) = true.
Proof. by vm_compute. Qed.

(** Sending before any request looks into a map that does not exist. *)
Example send_before_request : demo_fails (map (pair demo_core_env)
  [ClientConnect 1; ClientInit 1 0 [77]; ClientSend 1 [1] 1 GNUNET_NO 0 [0; 5; 0; 77; 1]]) = true.
Proof. by vm_compute. Qed.

(** A request for the peer itself before [CORE_INIT] fails the assertion of
    [GSC_CLIENTS_solicit_request]. *)
Example loopback_before_init : demo_fails (map (pair demo_core_env)
  [ClientConnect 1; ClientSendRequest 1 100 [1] 1 5]) = true.
Proof. by vm_compute. Qed.

(** A client sends without waiting for the service. Meanwhile the peer has changed its type
    map; the session rejects the request, which its client does not have any more. *)
#[local] Instance short_gcrypt : Gcrypt := {
  gcry_md_get_algo_dlen := @gcry_md_get_algo_dlen toy_gcrypt;
  gcry_md_open := @gcry_md_open toy_gcrypt;
  gcry_md_hmac := @gcry_md_hmac toy_gcrypt;
  gcry_md_hash_buffer a buf := repeat 0 64;
  gcry_cipher_encrypt := @gcry_cipher_encrypt toy_gcrypt;
  gcry_cipher_decrypt := @gcry_cipher_decrypt toy_gcrypt;
}.

Example unsolicited_send :
  let busy := mk_core_env (mk_abs 5) (fun _ => 4) (fun _ => GNUNET_YES) (fun _ _ _ => 0) in
  demo_fails (map (pair busy)
      [ClientConnect 1; ClientInit 1 0 [77]; KxCall [7] [] SessionsCreate; KxCall [7] [] SessionsSolicit;
       KxCall [7] [] (ClientsDeliver [0; 5; 0; 77; 1] 5 GNUNET_CORE_OPTION_SEND_FULL_INBOUND);
       ClientSendRequest 1 100 [7] 1 6]
    ++ [(demo_core_env, KxCall [7] (repeat 0 100) (SessionsSetTypemap [0; 6; 0; 86; 32; 0]));
        (busy, KxCall [7] [] SessionsSolicit); (demo_core_env, ClientSend 1 [7] 0 GNUNET_NO 0 [0; 6; 1; 44; 2; 3])]) = true.
Proof. by vm_compute. Qed.
