(* ===== verification/CoreStack.v ===== *)
(** * The core service from peer to peer

    The session of a peer combines the messages of its clients into payloads
    ([CoreSessions]), the key exchange encrypts and transmits them ([CoreKx]), the other
    peer decrypts them and its tokenizer ([Tokenizer]) cuts them into messages, which
    [deliver_message] gives to the clients. Here the components are put together as in the
    service. *)

From stdpp Require Import sorting.
From S2P Require Import Prelude Time Message Tokenizer Crypto CoreKx TypeMap CoreSessions.
#[local] Open Scope Z_scope.

(** [deliver_message] as the callback of the tokenizer: what it does is appended to what
    was done before. *)
Definition tokenizer_callback (kx : GSC_KeyExchangeInfo) (evs : list kx_event) (client : unit) (m : list Z)
  : list kx_event * Z :=
  match deliver_message m kx with
  | Some (_, ev) => (evs ++ ev, GNUNET_OK)
  | None => (evs, GNUNET_SYSERR)
  end.

(** The calls of [GNUNET_SERVER_mst_receive] in [handle_encrypted], for payloads at their
    addresses. *)
Fixpoint receive_payloads (ALIGN_FACTOR : Z) (fresh : nat -> Z) (kx : GSC_KeyExchangeInfo)
    (l : list (Z * list Z)) (m : GNUNET_MessageStreamTokenizer) (evs : list kx_event)
  : option (GNUNET_MessageStreamTokenizer * list kx_event) :=
  match l with
  | [] => Some (m, evs)
  | (buf, payload) :: l =>
      let? (m, evs, _) := GNUNET_SERVER_mst_receive ALIGN_FACTOR fresh (tokenizer_callback kx) m evs tt
                            buf payload true GNUNET_NO in
      receive_payloads ALIGN_FACTOR fresh kx l m evs
  end.

(** The messages given in full to the part of the service that passes them on to clients. *)
Fixpoint given_to_clients (evs : list kx_event) : list (list Z) :=
  match evs with
  | [] => []
  | ClientsDeliver m n options :: evs =>
      if options =? GNUNET_CORE_OPTION_SEND_FULL_INBOUND
      then take (Z.to_nat n) m :: given_to_clients evs else given_to_clients evs
  | _ :: evs => given_to_clients evs
  end.

Lemma given_to_clients_app a b : given_to_clients (a ++ b) = given_to_clients a ++ given_to_clients b.
Proof. induction a as [|[] a IH]; cbn; rewrite ?IH; try done. by case_if. Qed.

Section Receive.
Context (kx : GSC_KeyExchangeInfo) (Hup : kx_status kx = GNUNET_CORE_KX_STATE_UP).

Lemma callback_ok evs u m : snd (tokenizer_callback kx evs u m) <> GNUNET_SYSERR.
Proof.
  unfold tokenizer_callback, deliver_message. rewrite bool_decide_true by done. cbn [negb].
  destruct (_ || _); [done|]. by destruct (_ =? _).
Qed.

(** One message: it goes to the clients, if it is not one of the service. *)
Lemma callback_gives evs m : msg_wf m ->
  given_to_clients (fst (tokenizer_callback kx evs tt m))
  = given_to_clients evs ++ (if control_type m then [] else [m]).
Proof.
  intros [_ Hl _]. unfold tokenizer_callback, deliver_message, control_type.
  rewrite bool_decide_true by done. cbn [negb].
  destruct (_ || (msg_type m =? GNUNET_MESSAGE_TYPE_CORE_COMPRESSED_TYPE_MAP)); cbn [orb];
    [by cbn [emit andthen fst]; rewrite given_to_clients_app|].
  destruct (msg_type m =? _); [by cbn [emit andthen fst]; rewrite given_to_clients_app|].
  cbn [emit andthen fst app]. rewrite given_to_clients_app. cbn [given_to_clients].
  rewrite Z.eqb_refl, take_ge by lia. done.
Qed.

Lemma delivered_to_clients evs ms : Forall msg_wf ms ->
  given_to_clients (Tokenizer.deliver_all (fun c => tokenizer_callback kx c tt) evs ms)
  = given_to_clients evs ++ filter (fun m => control_type m = false) ms.
Proof.
  intros Hms. revert evs. induction Hms as [|m ms Hm _ IH]; intros evs; [by cbn; rewrite app_nil_r|].
  unfold Tokenizer.deliver_all in *. cbn [fold_left]. rewrite IH, callback_gives, <- app_assoc by done.
  rewrite filter_cons. destruct (control_type m); [by rewrite decide_False|by rewrite decide_True].
Qed.

(** Payloads that consist of complete messages. *)
Lemma receive_payloads_spec ALIGN_FACTOR fresh l mss m evs :
  mst_wf m -> unread m = [] -> map snd l = map (@concat Z) mss -> Forall (Forall msg_wf) mss ->
  mst_pos m + Z.of_nat (length (concat (map snd l))) < 2 ^ 63 ->
  exists m', receive_payloads ALIGN_FACTOR fresh kx l m evs
    = Some (m', Tokenizer.deliver_all (fun c => tokenizer_callback kx c tt) evs (concat mss)).
Proof.
  intros Hm Hu Hl Hms Hlen. revert mss m evs Hm Hu Hl Hms Hlen.
  induction l as [|[buf payload] l IH]; intros [|ms mss] m evs Hm Hu Hl Hms Hlen; try done; [by exists m|].
  cbn [map snd concat] in *. injection Hl as -> Hl. apply Forall_cons in Hms as [Hms1 Hms2].
  rewrite length_app in Hlen.
  assert (Hb : bytes_ok (concat ms)).
  { apply Forall_concat. eapply Forall_impl; [exact Hms1|]. by intros x [? _ _]. }
  cbn [receive_payloads]. unfold GNUNET_SERVER_mst_receive.
  destruct (from_buffer_spec ALIGN_FACTOR fresh (fun c msg => tokenizer_callback kx c tt msg) m evs buf (concat ms)
              true GNUNET_NO) as (m1 & cls & ret & -> & Hm1 & Hk & Hun & Hpos & _); [done|done|lia|].
  rewrite Hu, <- (app_nil_r (concat ms)) in Hk. cbn [app] in Hk.
  rewrite tokenize_messages in Hk; [|done|intros c x; apply callback_ok].
  change (tokenize _ GNUNET_NO ?c []) with (c, GNUNET_OK, @nil Z) in Hk.
  cbn [keep orb] in Hk. injection Hk as -> ->.
  destruct (IH mss m1 (Tokenizer.deliver_all (fun c => tokenizer_callback kx c tt) evs ms)) as (m' & E);
    [done|by apply Hun|done|done|lia|].
  exists m'. etransitivity; [exact E|]. do 2 f_equal. unfold Tokenizer.deliver_all. by rewrite fold_left_app.
Qed.
End Receive.

(** Entries of clients, whatever their priority. *)
Definition client_entry (e : SessionMessageEntry) : Prop :=
  is_typemap e <> GNUNET_YES /\ is_typemap_confirm e <> GNUNET_YES.
#[global] Instance client_entry_dec e : Decision (client_entry e).
Proof. unfold client_entry. apply _. Defined.

(** Numbers (random ones, addresses) for a series of payloads. *)
Fixpoint with_numbers (f : nat -> Z) (l : list (list Z)) : list (Z * list Z) :=
  match l with
  | [] => []
  | p :: l => (f (length l), p) :: with_numbers f l
  end.

Lemma with_numbers_snd f l : map snd (with_numbers f l) = l.
Proof. induction l as [|p l IH]; [done|]. cbn. by rewrite IH. Qed.

Lemma client_messages_in p e l : e ∈ l -> from_client p e -> sme_msg e ∈ client_messages p l.
Proof.
  intros Hin Hc. unfold client_messages. apply list_elem_of_In, in_map, list_elem_of_In.
  by apply list_elem_of_filter.
Qed.

(** What clients send is not of the types of the service. *)
Definition client_types_ok (ops : list (SessionEnv * session_op)) : Prop :=
  forall p m, m ∈ accepted p ops -> control_type m = false.

(** The messages that are not of the service are those of clients. *)
Lemma client_entries_by_type ops l rest :
  (forall p, client_messages p l ++ client_messages p rest = accepted p ops) -> client_types_ok ops ->
  Forall entry_ok l ->
  filter (fun m => control_type m = false) (map sme_msg l) = map sme_msg (filter client_entry l).
Proof.
  intros Hacc Hty Hok.
  assert (Hcl : forall e, e ∈ l -> client_entry e -> control_type (sme_msg e) = false).
  { intros e Hin [H1 H2]. apply (Hty (sme_priority e)). rewrite <- Hacc. apply elem_of_app. left.
    by apply client_messages_in. }
  clear Hacc. induction Hok as [|e l [_ He] _ IH]; [done|]. cbn [map]. rewrite !filter_cons.
  rewrite IH by (intros x Hx; apply Hcl; by right).
  destruct (decide (client_entry e)) as [Hc|Hc].
  - rewrite decide_True; [done|]. apply Hcl; [left|done].
  - rewrite decide_False; [done|]. intros E. rewrite He in E; [done|].
    unfold client_entry in Hc. destruct (decide (is_typemap e = GNUNET_YES)); [by left|right].
    destruct (decide (is_typemap_confirm e = GNUNET_YES)); [done|]. by destruct Hc.
Qed.

Lemma payload_messages b : concat (map sme_msg b) = messages b.
Proof. done. Qed.

Lemma batches_wf b : Forall (fun x => exists rest, batch_ok x rest) b ->
  Forall entry_ok (concat b) /\ Forall (Forall msg_wf) (map (map sme_msg) b).
Proof.
  intros Hb. split.
  - apply Forall_concat. eapply Forall_impl; [exact Hb|]. by intros x [rest [_ ? _ _]].
  - apply Forall_map. eapply Forall_impl; [exact Hb|]. intros x [rest [_ He _ _]]. apply Forall_map.
    eapply Forall_impl; [exact He|]. by intros e [[? _] _].
Qed.

Lemma batches_size b : Forall (fun x => exists rest, batch_ok x rest) b ->
  Forall (fun m => 4 <= Z.of_nat (length m) <= GNUNET_CONSTANTS_MAX_ENCRYPTED_MESSAGE_SIZE) (map messages b)
  /\ Z.of_nat (length (concat (map messages b)))
     <= Z.of_nat (length b) * GNUNET_CONSTANTS_MAX_ENCRYPTED_MESSAGE_SIZE.
Proof.
  induction 1 as [|x b [rest Hx] _ [IH1 IH2]]; [split; [constructor|done]|]. cbn [map concat].
  pose proof (batch_size x rest Hx) as H4. pose proof (ba_size _ _ Hx) as HM. unfold total_size in *.
  split; [by constructor|]. rewrite length_app. cbn [length]. lia.
Qed.

(** From a session to the delivery at the other peer: two peers that have completed the key exchange, the session
    of the one, the encrypted messages between them and the tokenizer of the other convey
    the messages of clients (shorter than 63 KiB and not of the types that control sessions). Whatever the operations on the session are, what is given to
    [GSC_CLIENTS_deliver_message] of the other peer (which drops messages for clients that are too busy) are the messages that left the queue, complete and unchanged;
    for each priority these and the ones that still wait are the messages that clients
    gave, in this order. *)
Theorem core_end_to_end `{GcryptLaws} `{EccLaws} now gA gB rndA rndB ops r addr ALIGN_FACTOR fresh :
  is_u64 (abs_value_us now) -> globals_ok now gA -> globals_ok now gB ->
  0 < GNUNET_CRYPTO_hash_cmp (GNUNET_CRYPTO_hash (GSC_my_identity gB)) (GNUNET_CRYPTO_hash (GSC_my_identity gA)) ->
  (forall e, is_u32 (fst (rndA e))) -> (forall e, is_u32 (fst (rndB e))) ->
  Forall (fun o => op_wf (snd o)) ops -> client_types_ok ops -> Z.of_nat (length ops) < 2 ^ 32 ->
  exists kA kB s ev b kA' es kB' evB mst out,
    handshake gA gB now rndA rndB = Some (kA, kB)
    /\ session_run ops (new_session (GSC_my_identity gB)) = Some (s, ev)
    /\ transmit_all now (with_numbers r (payloads ev)) kA = Some (kA', es)
    /\ deliver_all gB now rndB es kB = Some (kB', evB)
    /\ receive_payloads ALIGN_FACTOR fresh kB' (with_numbers addr (received evB)) GNUNET_SERVER_mst_create []
       = Some (mst, out)
    /\ given_to_clients out = map sme_msg (filter client_entry b)
    /\ forall p, client_messages p b ++ client_messages p (smes s) = accepted p ops.
Proof.
  intros Hnow GA GB Hc HrA HrB Hops Hty Hlen.
  destruct (channel_established now gA gB rndA rndB Hnow GA GB Hc HrA HrB) as (kA & kB & Eh & _ & _ & Hch).
  destruct (session_run_conveys ops (new_session (GSC_my_identity gB)))
    as (s & ev & b & Es & Hq & Hp & Hbl & Hb & Hacc); [apply queue_inv_nil|done|].
  destruct (batches_size b Hb) as [Hsz Htot]. destruct (batches_wf b Hb) as [Hent Hwf].
  destruct (Hch (with_numbers r (payloads ev))) as [(kA' & es & kB' & evB & Et & Ed & Er & Hup) _].
  { rewrite <- (length_map snd), with_numbers_snd, Hp, length_map. lia. }
  { rewrite <- (Forall_map snd (fun m => 4 <= Z.of_nat (length m) < 65448)), with_numbers_snd, Hp.
    eapply Forall_impl; [exact Hsz|]. intros m Hm. unfold GNUNET_CONSTANTS_MAX_ENCRYPTED_MESSAGE_SIZE in Hm. cbn in Hm |- *. lia. }
  rewrite with_numbers_snd, Hp in Er.
  destruct (receive_payloads_spec kB' Hup ALIGN_FACTOR fresh (with_numbers addr (received evB)) (map (map sme_msg) b)
              GNUNET_SERVER_mst_create []) as (mst & Erec); [apply tokenizer_create_wf|done| |done| |].
  { rewrite with_numbers_snd, Er, map_map. done. }
  { rewrite with_numbers_snd, Er. cbn [mst_pos GNUNET_SERVER_mst_create GNUNET_MST_create].
    unfold GNUNET_CONSTANTS_MAX_ENCRYPTED_MESSAGE_SIZE in Htot. lia. }
  assert (Hp' : forall p, client_messages p (concat b) ++ client_messages p (smes s) = accepted p ops)
    by (intros p; by rewrite <- client_messages_app, Hacc).
  do 11 eexists. split_and!; [exact Eh|exact Es|exact Et|exact Ed|exact Erec| |exact Hp'].
  rewrite <- concat_map, delivered_to_clients; [|done|].
  - by rewrite (client_entries_by_type ops _ (smes s)).
  - apply Forall_map. eapply Forall_impl; [exact Hent|]. by intros e [[? _] _].
Qed.

(** ** A concrete run *)

#[local] Existing Instance toy_gcrypt.
#[local] Existing Instance toy_gcrypt_laws.
#[local] Existing Instance toy_ecc.
#[local] Existing Instance toy_ecc_laws.

Lemma core_end_to_end_witness :
  exists kA kB s ev b kA' es kB' evB mst out,
    handshake toyB toyA (mk_abs 2000) (fun _ => (3, 4)) (fun _ => (8, 9)) = Some (kA, kB)
    /\ session_run demo_ops (new_session (GSC_my_identity toyA)) = Some (s, ev)
    /\ transmit_all (mk_abs 2000) (with_numbers (fun _ => 1) (payloads ev)) kA = Some (kA', es)
    /\ deliver_all toyA (mk_abs 2000) (fun _ => (8, 9)) es kB = Some (kB', evB)
    /\ receive_payloads 8 (fun _ => 7) kB' (with_numbers (fun _ => 16) (received evB)) GNUNET_SERVER_mst_create []
       = Some (mst, out)
    /\ given_to_clients out = map sme_msg (filter client_entry b)
    /\ forall p, client_messages p b ++ client_messages p (smes s) = accepted p demo_ops.
Proof.
  apply (core_end_to_end (mk_abs 2000) toyB toyA (fun _ => (3, 4)) (fun _ => (8, 9)) demo_ops);
    [by split|split; by vm_compute|split; by vm_compute|by vm_compute|by split..| | |done].
  - apply Forall_cons_2; [|apply Forall_cons_2; [|apply Forall_cons_2; [exact I|constructor]]];
      (split; [apply demo_sendable; auto|unfold GNUNET_CORE_PRIO_CRITICAL_CONTROL; lia]).
  - intros p m. cbn [accepted demo_ops]. do 2 case_if; intros Hin;
      repeat (apply elem_of_cons in Hin as [->|Hin]; [reflexivity|]); by apply elem_of_nil in Hin.
Defined.
