(* ===== verification/FsTree.v ===== *)
(** * File sharing: the encoder of files, [src/fs/fs_tree.c]

    A file is published as a tree of blocks: the data is cut into blocks of 32 KiB (depth 0), and the
    content hash keys of up to 256 blocks, each the hash of a block and the hash of its encryption, form
    a block of the next depth. The key of the last block, with the length of the file, is its URI. *)

From stdpp Require Import list.
From S2P Require Import Prelude Endian Crypto.
#[local] Open Scope Z_scope.

(** ** Sizes *)

Definition DBLOCK_SIZE : Z := 32 * 1024.
Definition CHK_PER_INODE : Z := 256.
Definition sizeof_ContentHashKey : Z := 128.

Fixpoint compute_depth_loop (fuel : nat) (treeDepth fl flen : Z) : option Z :=
  if fl <? flen then
    match fuel with
    | O => None
    | S fuel =>
        let treeDepth := u32 (treeDepth + 1) in
        if u64 (fl * CHK_PER_INODE) <? fl then Some treeDepth else compute_depth_loop fuel treeDepth (u64 (fl * CHK_PER_INODE)) flen
    end
  else Some treeDepth.

(** Seven rounds lead to the overflow. *)
Definition GNUNET_FS_compute_depth (flen : Z) : option Z := compute_depth_loop 7 1 DBLOCK_SIZE flen.

Definition GNUNET_FS_tree_compute_tree_size (depth : Z) : Z := Nat.iter (Z.to_nat depth) (fun rsize => u64 (rsize * CHK_PER_INODE)) DBLOCK_SIZE.

(** [None]: a failed assertion or a division by 0. *)
Definition GNUNET_FS_tree_compute_iblock_size (depth end_offset : Z) : option Z :=
  assert? 0 <? depth in
  assert? 0 <? end_offset in
  let bds := GNUNET_FS_tree_compute_tree_size depth in
  assert? negb (bds =? 0) in
  let md := end_offset mod bds in
  if 0 =? md then Some (u16 (CHK_PER_INODE * sizeof_ContentHashKey))
  else
    let bds := bds / CHK_PER_INODE in
    assert? negb (bds =? 0) in
    let ret := u32 (md / bds) in
    let ret := if negb (0 =? md mod bds) then u32 (ret + 1) else ret in
    Some (u16 (ret * sizeof_ContentHashKey)).

Definition GNUNET_FS_tree_calculate_block_size (fsize offset depth : Z) : option Z :=
  assert? 0 <? fsize in
  assert? offset <=? fsize in
  if depth =? 0 then
    if (u64 (offset + DBLOCK_SIZE) >? fsize) || (u64 (offset + DBLOCK_SIZE) <? offset) then Some (u64 (fsize - offset)) else Some DBLOCK_SIZE
  else
    let rsize := GNUNET_FS_tree_compute_tree_size (depth - 1) in
    let epos := u64 (offset + u64 (rsize * CHK_PER_INODE)) in
    let epos := if (epos <? offset) || (epos >? fsize) then fsize else epos in
    assert? negb (rsize =? 0) in
    let chks := u32 (u64 (epos - offset + rsize - 1) / rsize) in
    assert? chks <=? CHK_PER_INODE in
    Some (chks * sizeof_ContentHashKey).

Definition compute_chk_offset (depth end_offset : Z) : option Z :=
  let bds := GNUNET_FS_tree_compute_tree_size depth in
  let end_offset := if depth >? 0 then u64 (end_offset - 1) else end_offset in
  assert? negb (bds =? 0) in
  let ret := u32 (end_offset / bds) in
  Some (ret mod CHK_PER_INODE).

(** ** The encoder *)

Record ContentHashKey := mk_chk { chk_key : list Z; chk_query : list Z }.

#[export] Instance ContentHashKey_eq_dec : EqDecision ContentHashKey.
Proof. solve_decision. Defined.

Definition chk_bytes (c : ContentHashKey) : list Z := chk_key c ++ chk_query c.
Definition chk_zero : ContentHashKey := mk_chk (repeat 0 64) (repeat 0 64).

(** The key of the last block and the length of the file in network byte order. *)
Record FS_Uri := mk_uri { uri_chk : ContentHashKey; uri_file_length : Z }.

(** The callbacks [proc] and [progress] can be null. *)
Record GNUNET_FS_TreeEncoder := mk_te {
  te_proc : bool;
  te_progress : bool;
  te_emsg : option (list Z);
  te_uri : option FS_Uri;
  te_size : Z;
  publish_offset : Z;
  current_depth : Z;
  chk_tree_depth : Z;
  chk_tree : list ContentHashKey;
  in_next : bool;
}.

Definition GNUNET_BLOCK_TYPE_FS_DBLOCK : Z := 1.
Definition GNUNET_BLOCK_TYPE_FS_IBLOCK : Z := 2.

(** Calls of the callbacks. *)
Inductive tree_call :=
  | Proc (chk : ContentHashKey) (offset depth type : Z) (enc : list Z)
  | Progress (offset : Z) (pt_block : list Z) (depth : Z)
  | Cont.

Definition GNUNET_FS_tree_encoder_create (size : Z) (proc progress : bool) : option GNUNET_FS_TreeEncoder :=
  let? depth := GNUNET_FS_compute_depth size in
  Some (mk_te proc progress None None size 0 0 depth (repeat chk_zero (Z.to_nat (depth * CHK_PER_INODE))) false).

Section Encoder.
Context `{Gcrypt}.

(** The bytes that are read and the error message. *)
Context (reader : Z -> Z -> list Z * option (list Z)).

(** The plaintext of the next block; [inr] is the message of an error. [None]: more is read than the
    array of keys has. *)
Definition read_block (te : GNUNET_FS_TreeEncoder) : option (list Z + option (list Z)) :=
  if 0 =? current_depth te then
    let pt_size := u16 (Z.min DBLOCK_SIZE (u64 (te_size te - publish_offset te))) in
    let '(iob, emsg) := reader (publish_offset te) pt_size in
    if negb (pt_size =? Z.of_nat (length iob)) then Some (inr emsg) else Some (inl iob)
  else
    let? pt_size := GNUNET_FS_tree_compute_iblock_size (current_depth te) (publish_offset te) in
    let row := concat (map chk_bytes (drop (Z.to_nat ((current_depth te - 1) * CHK_PER_INODE)) (chk_tree te))) in
    assert? (pt_size <=? Z.of_nat (length row)) in
    Some (inl (take (Z.to_nat pt_size) row)).

Definition next_depth (te : GNUNET_FS_TreeEncoder) (publish_offset off : Z) : Z :=
  if 0 =? current_depth te then
    if (publish_offset =? te_size te) || (0 =? publish_offset mod (CHK_PER_INODE * DBLOCK_SIZE)) then u32 (current_depth te + 1) else current_depth te
  else if (off =? CHK_PER_INODE) || (publish_offset =? te_size te) then u32 (current_depth te + 1) else 0.

(** The next block is encrypted and given to the callbacks. [in_next] is set during the callbacks only. *)
Definition GNUNET_FS_tree_encoder_next (te : GNUNET_FS_TreeEncoder) : option (GNUNET_FS_TreeEncoder * list tree_call) :=
  assert? negb (in_next te) in
  if chk_tree_depth te =? current_depth te then
    let off := CHK_PER_INODE * (chk_tree_depth te - 1) in
    let? c := chk_tree te !! Z.to_nat off in
    Some (mk_te (te_proc te) (te_progress te) (te_emsg te) (Some (mk_uri c (GNUNET_htonll (te_size te)))) (te_size te) (publish_offset te) (current_depth te)
            (chk_tree_depth te) (chk_tree te) false, [Cont])
  else
    let? block := read_block te in
    match block with
    | inr emsg =>
        Some (mk_te (te_proc te) (te_progress te) emsg (te_uri te) (te_size te) (publish_offset te) (current_depth te) (chk_tree_depth te) (chk_tree te) false, [Cont])
    | inl pt_block =>
        let? off := compute_chk_offset (current_depth te) (publish_offset te) in
        let i := Z.to_nat (current_depth te * CHK_PER_INODE + off) in
        assert? (i <? length (chk_tree te))%nat in
        let key := GNUNET_CRYPTO_hash pt_block in
        let? (sk, iv) := GNUNET_CRYPTO_hash_to_aes_key key in
        let? enc := GNUNET_CRYPTO_symmetric_encrypt pt_block sk iv in
        let mychk := mk_chk key (GNUNET_CRYPTO_hash enc) in
        let type := if 0 =? current_depth te then GNUNET_BLOCK_TYPE_FS_DBLOCK else GNUNET_BLOCK_TYPE_FS_IBLOCK in
        let calls := (if te_proc te then [Proc mychk (publish_offset te) (current_depth te) type enc] else [])
                       ++ (if te_progress te then [Progress (publish_offset te) pt_block (current_depth te)] else []) in
        let o := if 0 =? current_depth te then u64 (publish_offset te + Z.of_nat (length pt_block)) else publish_offset te in
        Some (mk_te (te_proc te) (te_progress te) (te_emsg te) (te_uri te) (te_size te) o (next_depth te o off) (chk_tree_depth te)
                (<[i := mychk]> (chk_tree te)) false, calls)
    end.

(** The calls of the owner of the encoder, each after the callbacks of the one before. *)
Fixpoint encoder_run (n : nat) (te : GNUNET_FS_TreeEncoder) : option (GNUNET_FS_TreeEncoder * list tree_call) :=
  match n with
  | O => Some (te, [])
  | S n =>
      let? (te, calls) := GNUNET_FS_tree_encoder_next te in
      let? (te, calls') := encoder_run n te in
      Some (te, calls ++ calls')
  end.
End Encoder.

Definition GNUNET_FS_tree_encoder_get_uri (te : GNUNET_FS_TreeEncoder) : option FS_Uri := te_uri te.

(** The error message. *)
Definition GNUNET_FS_tree_encoder_finish (te : GNUNET_FS_TreeEncoder) : option (option (list Z)) :=
  assert? negb (in_next te) in Some (te_emsg te).

(** ** Arithmetic *)

(** What a block of the given depth covers. *)
Definition span (d : nat) : Z := 2 ^ 15 * 256 ^ Z.of_nat d.

Lemma span_pos d : 0 < span d.
Proof. unfold span. lia. Qed.

Lemma span_S d : span (S d) = 256 * span d.
Proof. unfold span. rewrite Nat2Z.inj_succ, Z.pow_succ_r by lia. lia. Qed.

Lemma span_le d : (d <= 6)%nat -> span d <= 2 ^ 63.
Proof. intros. unfold span. pose proof (Z.pow_le_mono_r 256 (Z.of_nat d) 6). lia. Qed.

Lemma tree_size_eq d : (d <= 6)%nat -> GNUNET_FS_tree_compute_tree_size (Z.of_nat d) = span d.
Proof.
  intros Hd. unfold GNUNET_FS_tree_compute_tree_size. rewrite Nat2Z.id. induction d as [|d IH]; [done|].
  cbn [Nat.iter nat_rect]. change (nat_rect _ _ _ d) with (Nat.iter d (fun rsize => u64 (rsize * CHK_PER_INODE)) DBLOCK_SIZE). rewrite IH by lia.
  pose proof (span_le (S d) Hd). rewrite span_S in *. pose proof (span_pos d). unfold CHK_PER_INODE, u64. rewrite Z.mod_small; lia.
Qed.

(** Rounding up. *)
Definition cdiv (a b : Z) : Z := (a + b - 1) / b.

Lemma cdiv_spec a b : 0 < b -> (cdiv a b - 1) * b < a <= cdiv a b * b.
Proof. intros Hb. unfold cdiv. pose proof (Z.div_mod (a + b - 1) b). pose proof (Z.mod_pos_bound (a + b - 1) b Hb). nia. Qed.

Lemma cdiv_unique a b c : 0 < b -> (c - 1) * b < a <= c * b -> cdiv a b = c.
Proof. intros Hb Hc. pose proof (cdiv_spec a b Hb). nia. Qed.

Lemma seqZ_snoc n : 0 <= n -> seqZ 0 (n + 1) = seqZ 0 n ++ [n].
Proof. intros Hn. rewrite seqZ_app by lia. f_equal. Qed.

(** The number of levels: the smallest number of which the topmost block covers the file. *)
Lemma depth_loop_spec fuel k flen : (fuel + k = 7)%nat -> 0 <= flen <= 2 ^ 63 -> (k = 0%nat \/ span (k - 1) < flen) ->
  exists d, compute_depth_loop fuel (Z.of_nat (S k)) (span k) flen = Some (Z.of_nat (S d)) /\ (d <= 6)%nat /\ flen <= span d /\ (d = 0%nat \/ span (d - 1) < flen).
Proof.
  revert k. induction fuel as [|fuel IH]; intros k Hk Hf Hlt.
  - assert (k = 7%nat) as -> by lia. destruct Hlt as [?|Hlt]; [done|]. change (span (7 - 1)) with (2 ^ 63) in Hlt. lia.
  - cbn [compute_depth_loop]. destruct (Z.ltb_spec (span k) flen) as [H1|H1].
    + assert (Hk6 : (k < 6)%nat).
      { destruct (decide (k < 6)%nat) as [|Hn]; [done|]. assert (k = 6%nat) as -> by lia. change (span 6) with (2 ^ 63) in H1. lia. }
      pose proof (span_le (S k) ltac:(lia)). pose proof (span_pos k). pose proof (span_S k).
      assert (u64 (span k * CHK_PER_INODE) = span (S k)) as -> by (unfold CHK_PER_INODE, u64; rewrite Z.mod_small; lia).
      rewrite (proj2 (Z.ltb_ge _ _)) by lia. replace (u32 (Z.of_nat (S k) + 1)) with (Z.of_nat (S (S k))) by (unfold u32; rewrite Z.mod_small; lia).
      apply IH; [lia|done|]. right. by replace (S k - 1)%nat with k by lia.
    + exists k. split_and!; [done| |done|done]. destruct (decide (k <= 6)%nat); [done|]. assert (k = 7%nat) as -> by lia.
      destruct Hlt as [?|Hlt]; [done|]. change (span (7 - 1)) with (2 ^ 63) in Hlt. lia.
Qed.

Lemma compute_depth_spec flen : 0 <= flen <= 2 ^ 63 ->
  exists d, GNUNET_FS_compute_depth flen = Some (Z.of_nat (S d)) /\ (d <= 6)%nat /\ flen <= span d /\ (d = 0%nat \/ span (d - 1) < flen).
Proof. intros Hf. apply (depth_loop_spec 7 0); [done|done|by left]. Qed.

(** ** The tree of a file *)

(** Digests have the length of the algorithm. *)
Class HashLength `{Gcrypt} := gcry_hash_length : forall buf, length (gcry_md_hash_buffer GCRY_MD_SHA512 buf) = 64%nat.

Section Tree.
Context `{GcryptLaws, !HashLength}.
Context (data : list Z).
#[local] Notation size := (Z.of_nat (length data)).

Definition encrypted (pt : list Z) : list Z :=
  default [] (let? (sk, iv) := GNUNET_CRYPTO_hash_to_aes_key (GNUNET_CRYPTO_hash pt) in GNUNET_CRYPTO_symmetric_encrypt pt sk iv).
Definition chk_of (pt : list Z) : ContentHashKey := mk_chk (GNUNET_CRYPTO_hash pt) (GNUNET_CRYPTO_hash (encrypted pt)).

(** The number of children of the block of depth [S d] at an offset. *)
Definition children (d : nat) (off : Z) : Z := cdiv (Z.min (span (S d)) (size - off)) (span d).

(** The plaintext of the block of depth [d] at an offset. *)
Fixpoint plain (d : nat) (off : Z) : list Z :=
  match d with
  | O => slice (Z.to_nat off) (Z.to_nat (Z.min DBLOCK_SIZE (size - off))) data
  | S d' => concat (map (fun i => chk_bytes (chk_of (plain d' (off + i * span d')))) (seqZ 0 (children d' off)))
  end.
Definition chk (d : nat) (off : Z) : ContentHashKey := chk_of (plain d off).

(** The blocks below a block and itself, as depth and offset, in the order in which they are encoded. *)
Fixpoint nodes (d : nat) (off : Z) : list (nat * Z) :=
  match d with
  | O => [(O, off)]
  | S d' => concat (map (fun i => nodes d' (off + i * span d')) (seqZ 0 (children d' off))) ++ [(d, off)]
  end.

Lemma encrypted_eq pt : exists sk iv, GNUNET_CRYPTO_hash_to_aes_key (GNUNET_CRYPTO_hash pt) = Some (sk, iv)
  /\ GNUNET_CRYPTO_symmetric_encrypt pt sk iv = Some (encrypted pt) /\ length (encrypted pt) = length pt
  /\ GNUNET_CRYPTO_symmetric_decrypt (encrypted pt) sk iv = Some pt.
Proof.
  unfold encrypted, GNUNET_CRYPTO_hash_to_aes_key.
  edestruct (kdf_total 64) as (sk & -> & L1); [lia|]. edestruct (kdf_total 32) as (iv & -> & L2); [lia|].
  destruct (symmetric_encrypt_total pt sk iv) as (out & E & L); [lia|lia|]. exists sk, iv. rewrite E. cbn. split_and!; [done|done|done|]. by apply symmetric_decrypt_encrypt.
Qed.

Lemma length_chk_bytes pt : length (chk_bytes (chk_of pt)) = 128%nat.
Proof. unfold chk_bytes, chk_of, GNUNET_CRYPTO_hash. cbn. by rewrite length_app, !gcry_hash_length. Qed.

Lemma length_concat_const {A} (n : nat) (l : list (list A)) : (forall x, x ∈ l -> length x = n) -> length (concat l) = (length l * n)%nat.
Proof.
  induction l as [|x l IH]; intros Hl; [done|]. cbn. rewrite length_app, IH, (Hl x); [done|by left|]. intros y Hy. apply Hl. by right.
Qed.

Lemma length_plain_S d off : length (plain (S d) off) = (Z.to_nat (children d off) * 128)%nat.
Proof.
  cbn. rewrite (length_concat_const 128), length_map, length_seqZ; [done|].
  intros x (i & <- & _)%list_elem_of_In%in_map_iff. apply length_chk_bytes.
Qed.

Lemma length_plain_0 off : 0 <= off <= size -> Z.of_nat (length (plain 0 off)) = Z.min DBLOCK_SIZE (size - off).
Proof. intros Ho. cbn. unfold DBLOCK_SIZE. rewrite length_slice; lia. Qed.

Lemma children_range d off : off < size -> 1 <= children d off <= 256.
Proof.
  intros Ho. unfold children. pose proof (span_pos d). pose proof (span_S d). pose proof (cdiv_spec (Z.min (span (S d)) (size - off)) (span d) ltac:(done)). nia.
Qed.

(** Aligned blocks: their size and their place in the block above. *)
Definition block_end (d : nat) (off : Z) : Z := Z.min (off + span d) size.

Lemma iblock_size_eq d m : (S d <= 6)%nat -> 0 <= m -> m * span (S d) < size -> size <= 2 ^ 63 ->
  GNUNET_FS_tree_compute_iblock_size (Z.of_nat (S d)) (block_end (S d) (m * span (S d))) = Some (children d (m * span (S d)) * 128).
Proof.
  intros Hd Hm Hlt Hs. unfold GNUNET_FS_tree_compute_iblock_size, block_end. pose proof (span_pos d) as Hp. pose proof (span_S d) as HS. pose proof (span_le (S d) Hd).
  rewrite (proj2 (Z.ltb_lt 0 (Z.of_nat (S d)))) by lia. rewrite (proj2 (Z.ltb_lt 0 (Z.min _ _))) by nia. rewrite tree_size_eq by done.
  rewrite (proj2 (Z.eqb_neq (span (S d)) 0)) by lia. cbn [negb]. pose proof (children_range d (m * span (S d)) Hlt) as Hc. unfold children in *.
  destruct (decide (m * span (S d) + span (S d) <= size)) as [Hle|Hgt].
  - rewrite !Z.min_l by lia. replace (m * span (S d) + span (S d)) with ((m + 1) * span (S d)) by ring. rewrite Z.mod_mul by lia.
    rewrite (cdiv_unique _ _ 256) by nia. done.
  - rewrite !Z.min_r in * by lia. replace (size mod span (S d)) with (size - m * span (S d)) by (apply (Z.mod_unique_pos _ _ m); nia).
    rewrite (proj2 (Z.eqb_neq 0 _)) by lia. replace (span (S d) / CHK_PER_INODE) with (span d) by (rewrite HS, Z.mul_comm; unfold CHK_PER_INODE; symmetry; apply Z.div_mul; lia).
    rewrite (proj2 (Z.eqb_neq (span d) 0)) by lia. cbn [negb]. set (a := size - m * span (S d)) in *. f_equal.
    pose proof (Z.div_mod a (span d) ltac:(lia)) as Hdm. pose proof (Z.mod_pos_bound a (span d) Hp) as Hmp. unfold sizeof_ContentHashKey.
    set (q := a / span d) in *. set (r := a mod span d) in *. assert (Ha : 0 < a < 256 * span d) by (unfold a; lia). clearbody q r a.
    assert (0 <= q < 256) as Hq by nia.
    unfold u16, u32. rewrite (Z.mod_small q) by lia. destruct (Z.eqb_spec 0 r) as [E|E]; cbn [negb].
    + rewrite (cdiv_unique a (span d) q) in * by nia. rewrite Z.mod_small; lia.
    + rewrite (cdiv_unique a (span d) (q + 1)) in * by nia. rewrite (Z.mod_small (q + 1)) by lia. rewrite Z.mod_small; lia.
Qed.

Lemma chk_offset_eq d m : (S d <= 6)%nat -> 0 <= m < 2 ^ 32 -> m * span (S d) < size -> size <= 2 ^ 63 ->
  compute_chk_offset (Z.of_nat (S d)) (block_end (S d) (m * span (S d))) = Some (m mod 256).
Proof.
  intros Hd Hm Hlt Hs. unfold compute_chk_offset, block_end. pose proof (span_pos (S d)) as Hp. rewrite tree_size_eq by done.
  rewrite (proj2 (Z.eqb_neq (span (S d)) 0)) by lia. cbn [negb]. change (Z.of_nat (S d) >? 0) with true. cbv iota. set (e := Z.min _ _).
  assert (He : m * span (S d) < e <= m * span (S d) + span (S d) /\ e <= 2 ^ 63) by lia. unfold u64, u32. rewrite (Z.mod_small (e - 1)) by lia.
  replace ((e - 1) / span (S d)) with m by (apply (Z.div_unique_pos _ _ m (e - 1 - m * span (S d))); nia). by rewrite (Z.mod_small m).
Qed.

Lemma chk_offset_0 m : 0 <= m < 2 ^ 32 -> compute_chk_offset 0 (m * span 0) = Some (m mod 256).
Proof.
  intros Hm. unfold compute_chk_offset. change (0 >? 0) with false. cbv iota. change (GNUNET_FS_tree_compute_tree_size 0) with (span 0). change (span 0 =? 0) with false.
  cbn [negb]. rewrite Z.div_mul by done. unfold u32. by rewrite (Z.mod_small m).
Qed.

(** The receiver expects blocks of the size they have. *)
Lemma block_size_eq d m : (d <= 6)%nat -> 0 <= m -> m * span d < size -> size <= 2 ^ 63 ->
  GNUNET_FS_tree_calculate_block_size size (m * span d) (Z.of_nat d) = Some (Z.of_nat (length (plain d (m * span d)))).
Proof.
  intros Hd Hm Hlt Hs. unfold GNUNET_FS_tree_calculate_block_size. pose proof (span_pos d) as Hp. set (off := m * span d) in *.
  assert (Ho : 0 <= off) by (unfold off; nia). rewrite (proj2 (Z.ltb_lt 0 size)), (proj2 (Z.leb_le off size)) by lia. destruct d as [|d].
  - change (Z.of_nat 0 =? 0) with true. cbv iota. rewrite length_plain_0 by lia. unfold u64, DBLOCK_SIZE. rewrite (Z.mod_small (off + _)), (Z.mod_small (size - off)) by lia.
    destruct (Z.gtb_spec (off + 32 * 1024) size), (Z.ltb_spec (off + 32 * 1024) off); cbn [orb]; f_equal; lia.
  - change (Z.of_nat (S d) =? 0) with false. cbv iota. replace (Z.of_nat (S d) - 1) with (Z.of_nat d) by lia. rewrite tree_size_eq by lia.
    pose proof (span_pos d) as Hp'. pose proof (span_S d) as HS. pose proof (span_le (S d) Hd) as HL. unfold CHK_PER_INODE, u64.
    rewrite (Z.mod_small (span d * 256)) by lia. rewrite (Z.mod_small (off + span d * 256)) by lia. rewrite (proj2 (Z.ltb_ge (off + _) off)) by lia. cbn [orb].
    assert ((if off + span d * 256 >? size then size else off + span d * 256) = off + Z.min (span (S d)) (size - off)) as -> by (destruct (Z.gtb_spec (off + span d * 256) size); lia).
    rewrite (proj2 (Z.eqb_neq (span d) 0)) by lia. cbn [negb]. replace (off + Z.min (span (S d)) (size - off) - off) with (Z.min (span (S d)) (size - off)) by lia.
    rewrite (Z.mod_small (_ + span d - 1)) by lia. fold (cdiv (Z.min (span (S d)) (size - off)) (span d)). fold (children d off).
    pose proof (children_range d off Hlt) as Hc. unfold u32, sizeof_ContentHashKey. rewrite Z.mod_small by lia. rewrite (proj2 (Z.leb_le _ 256)) by lia. rewrite length_plain_S. f_equal. lia.
Qed.

(** *** Steps of the encoder *)

Context (reader : Z -> Z -> list Z * option (list Z)).
Context (Hreader : forall off n, 0 <= off -> 0 <= n -> off + n <= size -> fst (reader off n) = slice (Z.to_nat off) (Z.to_nat n) data).
Context (proc progress : bool) (dd : nat) (Hsize : 0 < size <= 2 ^ 63) (Hdd : (dd <= 6)%nat).

Definition encoder (o : Z) (d : nat) (tree : list ContentHashKey) : GNUNET_FS_TreeEncoder :=
  mk_te proc progress None None size o (Z.of_nat d) (Z.of_nat (S dd)) tree false.

(** The offset at which a block is reported: the end of blocks of keys. *)
Definition reported (d : nat) (off : Z) : Z := match d with O => off | S _ => block_end d off end.

Definition node_calls (n : nat * Z) : list tree_call :=
  let '(d, off) := n in
  (if proc then [Proc (chk d off) (reported d off) (Z.of_nat d) (match d with O => GNUNET_BLOCK_TYPE_FS_DBLOCK | S _ => GNUNET_BLOCK_TYPE_FS_IBLOCK end)
                   (encrypted (plain d off))] else [])
  ++ (if progress then [Progress (reported d off) (plain d off) (Z.of_nat d)] else []).

Lemma step_block d off o k tree : (d <= dd)%nat -> reported d off = o -> read_block reader (encoder o d tree) = Some (inl (plain d off)) ->
  compute_chk_offset (Z.of_nat d) o = Some k -> 0 <= k < 256 -> (length tree = S dd * 256)%nat ->
  let o' := match d with O => u64 (o + Z.of_nat (length (plain 0 off))) | S _ => o end in
  GNUNET_FS_tree_encoder_next reader (encoder o d tree)
    = Some (mk_te proc progress None None size o' (next_depth (encoder o d tree) o' k) (Z.of_nat (S dd)) (<[(d * 256 + Z.to_nat k)%nat := chk d off]> tree) false, node_calls (d, off)).
Proof.
  intros Hd Hr Hread Hk Hkr Hlen o'. unfold GNUNET_FS_tree_encoder_next. cbn [in_next encoder negb chk_tree_depth current_depth].
  rewrite (proj2 (Z.eqb_neq _ _)) by lia. fold (encoder o d tree). rewrite Hread. cbn [publish_offset encoder current_depth]. rewrite Hk.
  unfold CHK_PER_INODE. replace (Z.to_nat (Z.of_nat d * 256 + k)) with (d * 256 + Z.to_nat k)%nat by lia. cbn [chk_tree encoder].
  rewrite (proj2 (Nat.ltb_lt _ _)) by lia. destruct (encrypted_eq (plain d off)) as (sk & iv & -> & -> & _). cbn [te_proc te_progress te_emsg te_uri te_size].
  unfold node_calls. rewrite Hr. destruct d as [|d]; done.
Qed.

(** Entries of a row of the array. *)
Definition row (tree : list ContentHashKey) (r : nat) (n : Z) (f : Z -> ContentHashKey) : Prop :=
  forall j, 0 <= j < n -> tree !! (r * 256 + Z.to_nat j)%nat = Some (f j).

Lemma row_bytes tree r n f : 0 <= n -> row tree r n f -> exists rest, drop (r * 256) tree = map f (seqZ 0 n) ++ rest.
Proof.
  intros Hn Hrow. exists (drop (Z.to_nat n) (drop (r * 256) tree)). rewrite <- (take_drop (Z.to_nat n) (drop (r * 256) tree)) at 1. f_equal.
  apply list_eq. intros i. destruct (decide (i < Z.to_nat n)%nat) as [Hi|Hi].
  - rewrite lookup_take_lt, lookup_drop by done. replace i with (Z.to_nat (Z.of_nat i)) at 1 by lia. rewrite Hrow by lia.
    change (map f) with (fmap (M := list) f). rewrite list_lookup_fmap, lookup_seqZ_lt by lia. done.
  - rewrite lookup_take_ge by lia. symmetry. change (map f) with (fmap (M := list) f). rewrite list_lookup_fmap, lookup_seqZ_ge by lia. done.
Qed.

Lemma read_dblock o tree : 0 <= o < size -> read_block reader (encoder o 0 tree) = Some (inl (plain 0 o)).
Proof.
  intros Ho. unfold read_block. cbn [current_depth encoder te_size publish_offset]. change (0 =? Z.of_nat 0) with true. cbv iota.
  assert (u16 (Z.min DBLOCK_SIZE (u64 (size - o))) = Z.min DBLOCK_SIZE (size - o)) as ->.
  { unfold u16, u64, DBLOCK_SIZE. rewrite (Z.mod_small (size - o)) by lia. rewrite Z.mod_small; lia. }
  pose proof (Hreader o (Z.min DBLOCK_SIZE (size - o)) ltac:(lia) ltac:(unfold DBLOCK_SIZE; lia) ltac:(lia)) as Hr.
  destruct (reader _ _) as [iob emsg]. cbn in Hr. subst iob. fold (plain 0 o). rewrite length_plain_0 by lia. by rewrite Z.eqb_refl.
Qed.

Lemma read_iblock d m tree : (S d <= 6)%nat -> 0 <= m -> m * span (S d) < size ->
  row tree d (children d (m * span (S d))) (fun j => chk d (m * span (S d) + j * span d)) ->
  read_block reader (encoder (block_end (S d) (m * span (S d))) (S d) tree) = Some (inl (plain (S d) (m * span (S d)))).
Proof.
  intros Hd Hm Hlt Hrow. unfold read_block. cbn [current_depth encoder publish_offset]. change (0 =? Z.of_nat (S d)) with false. cbv iota.
  rewrite iblock_size_eq by (done || lia). pose proof (children_range d (m * span (S d)) Hlt) as Hc.
  replace (Z.to_nat ((Z.of_nat (S d) - 1) * CHK_PER_INODE)) with (d * 256)%nat by (unfold CHK_PER_INODE; lia). cbn [chk_tree encoder].
  destruct (row_bytes tree d (children d (m * span (S d))) _ ltac:(lia) Hrow) as (rest & ->). rewrite map_app, concat_app, map_map.
  change (concat (map (fun x => chk_bytes (chk d (m * span (S d) + x * span d))) (seqZ 0 (children d (m * span (S d)))))) with (plain (S d) (m * span (S d))).
  pose proof (length_plain_S d (m * span (S d))) as Hl. rewrite length_app.
  rewrite (proj2 (Z.leb_le _ _)) by (rewrite Hl; lia). by rewrite take_app_length' by (rewrite Hl; lia).
Qed.

(** *** A whole run *)

(** From here the encoder makes the blocks that are left, then calls the continuation, with the URI. *)
Definition finishes (done : list (nat * Z)) (te : GNUNET_FS_TreeEncoder) : Prop :=
  exists rest te', done ++ rest = nodes dd 0 /\ encoder_run reader (S (length rest)) te = Some (te', concat (map node_calls rest) ++ [Cont])
    /\ te_uri te' = Some (mk_uri (chk dd 0) (GNUNET_htonll size)) /\ te_emsg te' = None.

Lemma finishes_step done n te te' : GNUNET_FS_tree_encoder_next reader te = Some (te', node_calls n) -> finishes (done ++ [n]) te' -> finishes done te.
Proof.
  intros E (rest & te2 & Hn & Hr & Hu). exists (n :: rest), te2. rewrite <- app_assoc in Hn. split_and!; [exact Hn| |apply Hu..].
  cbn [length]. change (encoder_run reader (S (S (length rest))) te) with (let? (te, calls) := GNUNET_FS_tree_encoder_next reader te in
    let? (te, calls') := encoder_run reader (S (length rest)) te in Some (te, calls ++ calls')).
  rewrite E, Hr. cbn [map concat]. by rewrite app_assoc.
Qed.

Lemma finishes_end o tree : (length tree = S dd * 256)%nat -> tree !! (dd * 256)%nat = Some (chk dd 0) -> finishes (nodes dd 0) (encoder o (S dd) tree).
Proof.
  intros Hlen Ht. eexists [], _. split_and!; [apply app_nil_r| |..].
  - cbn [length encoder_run]. unfold GNUNET_FS_tree_encoder_next. cbn [in_next encoder negb chk_tree_depth current_depth]. rewrite Z.eqb_refl.
    replace (Z.to_nat (CHK_PER_INODE * (Z.of_nat (S dd) - 1))) with (dd * 256)%nat by (unfold CHK_PER_INODE; lia). cbn [chk_tree encoder]. rewrite Ht. done.
  - done.
  - done.
Qed.

Lemma row_insert tree r n f r' i c : row tree r n f -> (r <> r' \/ n <= Z.of_nat i) -> (i < 256)%nat -> n <= 256 -> row (<[(r' * 256 + i)%nat := c]> tree) r n f.
Proof. intros Hrow Hne Hi Hn j Hj. rewrite list_lookup_insert_ne by lia. by apply Hrow. Qed.

Lemma row_extend tree r n f : 0 <= n < 256 -> (r * 256 + 256 <= length tree)%nat -> row tree r n f -> row (<[(r * 256 + Z.to_nat n)%nat := f n]> tree) r (n + 1) f.
Proof.
  intros Hn Hlen Hrow j Hj. destruct (decide (j = n)) as [->|Hne]; [by rewrite list_lookup_insert_eq by lia|]. rewrite list_lookup_insert_ne by lia. apply Hrow. lia.
Qed.

(** The blocks with the same block of keys above them. *)
Definition group_part (g j : Z) : list (nat * Z) := map (fun i => (O, g * span 1 + i * span 0)) (seqZ 0 j).
Definition groups (g : Z) : list (nat * Z) := concat (map (fun i => nodes 1 (i * span 1)) (seqZ 0 g)).

Lemma group_part_snoc g j : 0 <= j -> group_part g (j + 1) = group_part g j ++ [(O, g * span 1 + j * span 0)].
Proof. intros Hj. unfold group_part. by rewrite seqZ_snoc, map_app. Qed.

Lemma nodes_group g : nodes 1 (g * span 1) = group_part g (children 0 (g * span 1)) ++ [(1%nat, g * span 1)].
Proof. cbn [nodes]. f_equal. unfold group_part. by induction (seqZ 0 _); cbn; f_equal. Qed.

Lemma groups_snoc g : 0 <= g -> groups (g + 1) = groups g ++ nodes 1 (g * span 1).
Proof. intros Hg. unfold groups. rewrite seqZ_snoc, map_app, concat_app by done. cbn. by rewrite app_nil_r. Qed.

Lemma nodes_top : nodes 2 0 = groups (children 1 0) ++ [(2%nat, 0)].
Proof. reflexivity. Qed.

(** Up to two levels of blocks of keys. *)
Context (Hd2 : (dd <= 2)%nat) (Htop : size <= span dd) (Hmin : dd = O \/ span (dd - 1) < size).

Ltac span_lia := change (span 0) with 32768 in *; change (span 1) with 8388608 in *; change (span 2) with 2147483648 in *; lia.

Lemma size_le_2 : size <= span 2.
Proof. destruct dd as [|[|[|d]]]; [span_lia|span_lia|done|lia]. Qed.

Lemma end_of_file tree : (1 <= dd)%nat -> (length tree = S dd * 256)%nat -> row tree 1 (children 1 0) (fun j => chk 1 (j * span 1)) ->
  finishes (groups (children 1 0)) (encoder size 2 tree).
Proof.
  intros Hge Hlen Hrow. pose proof (children_range 1 0 ltac:(lia)) as Hc. destruct (decide (dd = 1%nat)) as [E1|Hne].
  - assert (children 1 0 = 1) as Ec by (unfold children; apply cdiv_unique; rewrite E1 in Htop; span_lia).
    rewrite Ec in *. change (groups 1) with (groups (0 + 1)). rewrite groups_snoc by lia. change (groups 0 ++ nodes 1 (0 * span 1)) with (nodes 1 0).
    pose proof (finishes_end size tree) as Hend. rewrite E1 in Hend. apply Hend; [lia|]. exact (Hrow 0 ltac:(lia)).
  - assert (E2 : dd = 2%nat) by lia. assert (Ee : block_end 2 (0 * span 2) = size) by (unfold block_end; pose proof size_le_2; span_lia).
    pose proof (step_block 2 0 size 0 tree) as Hstep. cbv zeta in Hstep. eapply finishes_step; [apply Hstep|].
    + lia.
    + exact Ee.
    + pose proof (read_iblock 1 0 tree ltac:(lia) ltac:(lia) ltac:(lia) Hrow) as R. by rewrite Ee in R.
    + pose proof (chk_offset_eq 1 0 ltac:(lia) ltac:(lia) ltac:(lia) ltac:(lia)) as R. by rewrite Ee in R.
    + lia.
    + done.
    + unfold next_depth. cbn [current_depth te_size encoder]. change (0 =? Z.of_nat 2) with false. cbv iota. rewrite Z.eqb_refl, orb_true_r.
      change (u32 (Z.of_nat 2 + 1)) with (Z.of_nat 3). rewrite <- nodes_top. change (2 * 256 + Z.to_nat 0)%nat with 512%nat.
      pose proof (finishes_end size (<[512%nat := chk 2 0]> tree)) as Hend. rewrite E2 in Hend. apply Hend; [rewrite length_insert; lia|].
      apply list_lookup_insert_eq. lia.
Qed.

(** Before the block of data [j] of the group [g]. *)
Record at_data (g j : Z) (tree : list ContentHashKey) : Prop := {
  ad_g : 0 <= g;
  ad_j : 0 <= j < 256;
  ad_lt : g * span 1 + j * span 0 < size;
  ad_len : (length tree = S dd * 256)%nat;
  ad_row0 : row tree 0 j (fun i => chk 0 (g * span 1 + i * span 0));
  ad_row1 : (1 <= dd)%nat -> row tree 1 g (fun i => chk 1 (i * span 1));
}.

(** Before the block of keys of the group [g]. *)
Record at_keys (g : Z) (tree : list ContentHashKey) : Prop := {
  ak_g : 0 <= g;
  ak_lt : g * span 1 < size;
  ak_len : (length tree = S dd * 256)%nat;
  ak_row0 : row tree 0 (children 0 (g * span 1)) (fun i => chk 0 (g * span 1 + i * span 0));
  ak_row1 : (1 <= dd)%nat -> row tree 1 g (fun i => chk 1 (i * span 1));
}.

Lemma data_step g j tree : at_data g j tree -> exists tree', let o := g * span 1 + j * span 0 in let o' := Z.min (o + span 0) size in
  GNUNET_FS_tree_encoder_next reader (encoder o 0 tree)
    = Some (encoder o' (if decide (o' = size \/ j = 255) then 1 else 0) tree', node_calls (O, o))
  /\ if decide (o' = size \/ j = 255) then at_keys g tree' /\ o' = block_end 1 (g * span 1) /\ children 0 (g * span 1) = j + 1
     else at_data g (j + 1) tree' /\ o' = g * span 1 + (j + 1) * span 0.
Proof.
  intros [Hg Hj Hlt Hlen R0 R1]. pose proof size_le_2 as H2. set (o := g * span 1 + j * span 0) in *.
  exists (<[(0 * 256 + Z.to_nat j)%nat := chk 0 o]> tree). cbv zeta. set (o' := Z.min (o + span 0) size).
  assert (Hr0 : row (<[(0 * 256 + Z.to_nat j)%nat := chk 0 o]> tree) 0 (j + 1) (fun i => chk 0 (g * span 1 + i * span 0))) by (apply (row_extend tree 0 j (fun i => chk 0 (g * span 1 + i * span 0))); [lia|lia|done]).
  assert (Hg256 : g < 256) by span_lia.
  assert (Hr1 : (1 <= dd)%nat -> row (<[(0 * 256 + Z.to_nat j)%nat := chk 0 o]> tree) 1 g (fun i => chk 1 (i * span 1))) by (intros Hge; apply row_insert; [auto|by left|lia|lia]).
  pose proof (step_block 0 o o j tree) as Hstep. cbv zeta in Hstep. rewrite Hstep; clear Hstep.
  - assert (u64 (o + Z.of_nat (length (plain 0 o))) = o') as -> by (rewrite length_plain_0 by span_lia; unfold u64, DBLOCK_SIZE; rewrite Z.mod_small; subst o'; span_lia).
    assert (next_depth (encoder o 0 tree) o' j = Z.of_nat (if decide (o' = size \/ j = 255) then 1 else 0)) as ->.
    { unfold next_depth. cbn [current_depth te_size encoder]. change (0 =? Z.of_nat 0) with true. cbv iota. unfold CHK_PER_INODE, DBLOCK_SIZE.
      case_decide as Hd.
      - destruct (Z.eqb_spec o' size) as [|Hne]; [done|]. destruct Hd as [?|Hj255]; [done|].
        assert (o' = (g + 1) * 8388608) as -> by (subst o' o j; span_lia). change (256 * (32 * 1024)) with 8388608. by rewrite Z.mod_mul.
      - destruct (Z.eqb_spec o' size) as [|Hne]; [tauto|]. cbn [orb]. rewrite (proj2 (Z.eqb_neq 0 _)); [done|].
        assert (o' mod (256 * (32 * 1024)) = (j + 1) * 32768) as ->; [|lia]. symmetry. apply (Z.mod_unique_pos _ _ g); [lia|]. subst o' o. span_lia. }
    split; [done|]. case_decide as Hd.
    + assert (Hc : children 0 (g * span 1) = j + 1) by (unfold children; apply cdiv_unique; [done|]; subst o' o; span_lia).
      split_and!; [|subst o' o; unfold block_end; span_lia|done]. split; try done; [span_lia|by rewrite length_insert|by rewrite Hc].
    + split; [|subst o' o; span_lia]. split; try done; [lia|subst o' o; span_lia|by rewrite length_insert].
  - lia.
  - done.
  - apply read_dblock. span_lia.
  - replace o with ((g * 256 + j) * span 0) by (subst o; span_lia). rewrite chk_offset_0 by span_lia. f_equal. rewrite Z.add_comm, Z.mod_add by done. by apply Z.mod_small.
  - done.
  - done.
Qed.

Lemma keys_step g tree : (1 <= dd)%nat -> at_keys g tree -> exists tree', let o := block_end 1 (g * span 1) in
  GNUNET_FS_tree_encoder_next reader (encoder o 1 tree) = Some (encoder o (if decide (o = size) then 2 else 0) tree', node_calls (1%nat, g * span 1))
  /\ (length tree' = S dd * 256)%nat /\ row tree' 1 (g + 1) (fun i => chk 1 (i * span 1)).
Proof.
  intros Hge [Hg Hlt Hlen R0 R1]. pose proof size_le_2 as H2. assert (Hg256 : g < 256) by span_lia. cbv zeta. set (o := block_end 1 (g * span 1)).
  exists (<[(1 * 256 + Z.to_nat g)%nat := chk 1 (g * span 1)]> tree).
  pose proof (step_block 1 (g * span 1) o g tree) as Hstep. cbv zeta in Hstep. rewrite Hstep; clear Hstep; try done.
  - split_and!; [|by rewrite length_insert|by apply (row_extend tree 1 g (fun i => chk 1 (i * span 1))); [lia|lia|auto]].
    assert (next_depth (encoder o 1 tree) o g = Z.of_nat (if decide (o = size) then 2 else 0)) as ->; [|done].
    unfold next_depth. cbn [current_depth te_size encoder]. change (0 =? Z.of_nat 1) with false. cbv iota. unfold CHK_PER_INODE.
    rewrite (proj2 (Z.eqb_neq g 256)) by lia. cbn [orb]. by case_decide as Hd; [rewrite (proj2 (Z.eqb_eq _ _)) by done|rewrite (proj2 (Z.eqb_neq _ _)) by done].
  - by apply (read_iblock 0 g); [lia|..].
  - unfold o. rewrite (chk_offset_eq 0 g) by (lia || done). f_equal. by apply Z.mod_small.
Qed.

Lemma finishes_from m :
  (forall g j tree, at_data g j tree -> 2 * (size - (g * span 1 + j * span 0)) <= Z.of_nat m -> finishes (groups g ++ group_part g j) (encoder (g * span 1 + j * span 0) 0 tree))
  /\ (forall g tree, at_keys g tree -> 2 * (size - block_end 1 (g * span 1)) + 1 <= Z.of_nat m ->
        finishes (groups g ++ group_part g (children 0 (g * span 1))) (encoder (block_end 1 (g * span 1)) 1 tree)).
Proof.
  pose proof size_le_2 as H2. induction m as [|m [IHd IHk]].
  { split; [intros g j tree [] ?; span_lia|]. intros g tree [] Hm. unfold block_end in Hm. span_lia. }
  split.
  - intros g j tree Ha Hm. pose proof Ha as [Hg Hj Hlt _ _ _]. destruct (data_step g j tree Ha) as (tree' & E & Hn). cbv zeta in E, Hn.
    eapply finishes_step; [exact E|]. rewrite <- app_assoc, <- group_part_snoc by lia. case_decide as Hd.
    + destruct Hn as (Hk & -> & Ec). rewrite <- Ec. apply IHk; [done|]. unfold block_end. span_lia.
    + destruct Hn as (Hk & ->). apply IHd; [done|]. span_lia.
  - intros g tree Ha Hm. pose proof Ha as [Hg Hlt Hlen R0 R1]. destruct (decide (dd = O)) as [E0|Hne].
    + assert (g = 0) as -> by (rewrite E0 in Htop; span_lia). assert (children 0 (0 * span 1) = 1) as Ec by (unfold children; apply cdiv_unique; [done|]; rewrite E0 in Htop; span_lia).
      rewrite Ec in *. pose proof (finishes_end (block_end 1 (0 * span 1)) tree) as Hend. rewrite E0 in Hend. apply Hend; [lia|]. exact (R0 0 ltac:(lia)).
    + destruct (keys_step g tree ltac:(lia) Ha) as (tree' & E & Hlen' & R1'). cbv zeta in E. eapply finishes_step; [exact E|].
      rewrite <- app_assoc, <- nodes_group, <- groups_snoc by done. case_decide as Hd.
      * rewrite Hd. assert (children 1 0 = g + 1) as Ec by (unfold children, block_end in *; apply cdiv_unique; [done|]; span_lia). rewrite <- Ec in *. apply end_of_file; [lia|done|done].
      * assert (Ee : block_end 1 (g * span 1) = (g + 1) * span 1 + 0 * span 0) by (unfold block_end in *; span_lia). rewrite Ee.
        rewrite <- (app_nil_r (groups (g + 1))). apply (IHd (g + 1) 0); [|span_lia]. split; [lia|lia|unfold block_end in *; span_lia|done|intros i Hi; lia|done].
Qed.

Lemma encoder_finishes : finishes [] (encoder 0 0 (repeat chk_zero (S dd * 256))).
Proof.
  destruct (finishes_from (Z.to_nat (2 * size))) as [Hf _]. apply (Hf 0 0); [|lia].
  split; [lia|lia|lia|apply repeat_length|intros i Hi; lia|intros _ i Hi; lia].
Qed.
End Tree.

(** What every step does, whatever the reader returns. *)
Lemma next_cases `{Gcrypt} reader te te' calls : GNUNET_FS_tree_encoder_next reader te = Some (te', calls) ->
  in_next te' = false /\ te_size te' = te_size te
  /\ (forall c off d ty enc, Proc c off d ty enc ∈ calls -> off = publish_offset te /\ d = current_depth te)
  /\ (publish_offset te' = publish_offset te /\ current_depth te' = current_depth te \/ exists k, 0 <= k < 256 /\ current_depth te' = next_depth te (publish_offset te') k
      /\ (current_depth te <> 0 -> publish_offset te' = publish_offset te)).
Proof.
  assert (Hc : forall c off d ty enc, Proc c off d ty enc ∈ [Cont] -> False) by (by intros c off d ty enc ?%list_elem_of_singleton).
  unfold GNUNET_FS_tree_encoder_next. destruct (negb _); [|done].
  destruct (_ =? _); [destruct (_ !! _); [|done]; intros [= <- <-]; cbn; split_and!; [done|done|naive_solver|by left]|].
  destruct (read_block _ _) as [[pt|e]|]; [|intros [= <- <-]; cbn; split_and!; [done|done|naive_solver|by left]|done].
  destruct (compute_chk_offset _ _) as [k|] eqn:Ek; [|done]. destruct (_ <? _)%nat; [|done]. destruct (GNUNET_CRYPTO_hash_to_aes_key _) as [[? ?]|]; [|done].
  destruct (GNUNET_CRYPTO_symmetric_encrypt _ _ _); [|done]. intros [= <- <-]. cbn [in_next te_size publish_offset current_depth]. split_and!; [done|done| |].
  - intros c off d ty enc [Hin|Hin]%elem_of_app; [destruct (te_proc te); [apply list_elem_of_singleton in Hin; by injection Hin as -> -> -> -> ->|by apply elem_of_nil in Hin]|].
    destruct (te_progress te); [by apply list_elem_of_singleton in Hin|by apply elem_of_nil in Hin].
  - right. exists k. split; [|split; [done|]].
    + revert Ek. unfold compute_chk_offset. destruct (negb _); [|done]. intros [= <-]. apply Z.mod_pos_bound. done.
    + intros Hne. by destruct (current_depth te).
Qed.

Lemma run_in_next `{Gcrypt} reader n te te' calls : encoder_run reader n te = Some (te', calls) -> in_next te = false -> in_next te' = false.
Proof.
  revert te calls. induction n as [|n IH]; intros te calls; cbn; [by intros [= <- _]|]. destruct (GNUNET_FS_tree_encoder_next reader te) as [[te1 c1]|] eqn:E; [|done].
  destruct (encoder_run reader n te1) as [[te3 c3]|] eqn:E3; [|done]. intros [= <- _] _. apply (IH _ _ E3). by apply next_cases in E as [? _].
Qed.

Lemma whole_tree `{GcryptLaws, !HashLength} data reader proc progress :
  0 < Z.of_nat (length data) <= 2 ^ 31 ->
  (forall off n, 0 <= off -> 0 <= n -> off + n <= Z.of_nat (length data) -> fst (reader off n) = slice (Z.to_nat off) (Z.to_nat n) data) ->
  exists te dd te', (dd <= 2)%nat /\ Z.of_nat (length data) <= span dd /\ GNUNET_FS_tree_encoder_create (Z.of_nat (length data)) proc progress = Some te
    /\ GNUNET_FS_compute_depth (Z.of_nat (length data)) = Some (Z.of_nat (S dd))
    /\ encoder_run reader (S (length (nodes data dd 0))) te = Some (te', concat (map (node_calls data proc progress) (nodes data dd 0)) ++ [Cont])
    /\ te_uri te' = Some (mk_uri (chk data dd 0) (GNUNET_htonll (Z.of_nat (length data)))) /\ te_emsg te' = None.
Proof.
  intros Hs Hr. destruct (compute_depth_spec (Z.of_nat (length data))) as (dd & Ed & Hd6 & Htop & Hmin); [lia|].
  assert (Hd2 : (dd <= 2)%nat).
  { destruct Hmin as [->|Hmin]; [lia|]. destruct (decide (dd <= 2)%nat) as [|Hn]; [done|]. exfalso.
    assert (span 2 <= span (dd - 1)) by (unfold span; apply Z.mul_le_mono_nonneg_l; [lia|]; apply Z.pow_le_mono_r; lia). change (span 2) with (2 ^ 31) in *. lia. }
  destruct (encoder_finishes data reader Hr proc progress dd ltac:(lia) Hd6 Hd2 Htop Hmin) as (rest & te' & Hn & Hrun & Hu & He). cbn [app] in Hn. subst rest.
  eexists _, dd, te'. split_and!; [done|done|unfold GNUNET_FS_tree_encoder_create; by rewrite Ed|done| |done|done].
  replace (Z.to_nat (Z.of_nat (S dd) * CHK_PER_INODE)) with (S dd * 256)%nat by (unfold CHK_PER_INODE; lia). exact Hrun.
Qed.

(** C11. The encoder, called until it calls the continuation, makes exactly the blocks of the tree of a file of
    up to 2^31 bytes, each once and after the blocks below it, and the URI has the key of the topmost. *)
Theorem file_encoded `{GcryptLaws, !HashLength} data reader proc progress :
  0 < Z.of_nat (length data) <= 2 ^ 31 ->
  (forall off n, 0 <= off -> 0 <= n -> off + n <= Z.of_nat (length data) -> fst (reader off n) = slice (Z.to_nat off) (Z.to_nat n) data) ->
  exists te dd te', GNUNET_FS_tree_encoder_create (Z.of_nat (length data)) proc progress = Some te
    /\ GNUNET_FS_compute_depth (Z.of_nat (length data)) = Some (Z.of_nat (S dd))
    /\ encoder_run reader (S (length (nodes data dd 0))) te = Some (te', concat (map (node_calls data proc progress) (nodes data dd 0)) ++ [Cont])
    /\ GNUNET_FS_tree_encoder_get_uri te' = Some (mk_uri (chk data dd 0) (GNUNET_htonll (Z.of_nat (length data))))
    /\ GNUNET_FS_tree_encoder_finish te' = Some None.
Proof.
  intros Hs Hr. destruct (whole_tree data reader proc progress Hs Hr) as (te & dd & te' & _ & _ & Hc & Hd & Hrun & Hu & He). exists te, dd, te'. split_and!; try done.
  assert (Hn : in_next te = false) by (revert Hc; unfold GNUNET_FS_tree_encoder_create; rewrite Hd; by intros [= <-]).
  unfold GNUNET_FS_tree_encoder_finish. by rewrite (run_in_next _ _ _ _ _ Hrun Hn), He.
Qed.

Lemma file_encoded_witness : let data := [7; 8; 9] in let reader := fun off n => (slice (Z.to_nat off) (Z.to_nat n) data, None) in
  exists te dd te', GNUNET_FS_tree_encoder_create 3 true false = Some te
    /\ GNUNET_FS_compute_depth 3 = Some (Z.of_nat (S dd))
    /\ @encoder_run toy_gcrypt reader (S (length (@nodes data dd 0))) te = Some (te', concat (map (@node_calls toy_gcrypt data true false) (nodes data dd 0)) ++ [Cont])
    /\ GNUNET_FS_tree_encoder_get_uri te' = Some (mk_uri (@chk toy_gcrypt data dd 0) (GNUNET_htonll 3))
    /\ GNUNET_FS_tree_encoder_finish te' = Some None.
Proof.
  assert (HL : @HashLength toy_gcrypt) by (intros buf; done). intros data reader.
  exact (@file_encoded toy_gcrypt toy_gcrypt_laws HL data reader true false ltac:(done) ltac:(done)).
Defined.

(** Blocks of keys of blocks of keys are made at the end of the file only, so that of the first 2^31 bytes of a
    larger file, which ends before the file does, is never made. *)
Lemma large_file_incomplete `{Gcrypt} reader size proc progress te n te' calls : 2 ^ 31 < size ->
  GNUNET_FS_tree_encoder_create size proc progress = Some te -> encoder_run reader n te = Some (te', calls) ->
  forall c off d ty enc, Proc c off d ty enc ∈ calls -> 2 <= d -> off = size.
Proof.
  intros _ Hc. assert (Hte : te_size te = size /\ current_depth te = 0).
  { revert Hc. unfold GNUNET_FS_tree_encoder_create. destruct (GNUNET_FS_compute_depth size); [|done]. by intros [= <-]. }
  destruct Hte as [Hs Hd0]. assert (Hinv : 2 <= current_depth te -> publish_offset te = te_size te) by lia. rewrite <- Hs. clear Hc Hs Hd0.
  revert te calls Hinv. induction n as [|n IH]; intros te calls Hinv; cbn; [intros [= _ <-]; by intros ? ? ? ? ? ?%elem_of_nil|].
  destruct (GNUNET_FS_tree_encoder_next reader te) as [[te1 c1]|] eqn:E; [|done]. destruct (encoder_run reader n te1) as [[te3 c3]|] eqn:E3; [|done].
  intros [= -> <-]. apply next_cases in E as (_ & Es & Hcalls & Hnext). intros c off d ty enc [Hin|Hin]%elem_of_app Hd.
  - destruct (Hcalls _ _ _ _ _ Hin) as [-> ->]. auto.
  - rewrite <- Es. eapply (IH te1 c3); [|done|done|done]. rewrite Es. destruct Hnext as [[-> ->]|(k & Hk & -> & Ho)]; [done|]. unfold next_depth.
    destruct (Z.eqb_spec 0 (current_depth te)) as [E0|Hne]; [rewrite <- E0; change (u32 (0 + 1)) with 1; case_match; lia|].
    rewrite (proj2 (Z.eqb_neq k CHK_PER_INODE)) by (unfold CHK_PER_INODE; lia). cbn [orb]. by destruct (Z.eqb_spec (publish_offset te1) (te_size te)).
Qed.
