(* ===== verification/FsDownload.v ===== *)
(** * File sharing: downloads, [src/fs/fs_download.c]

    A download asks the file sharing service for the blocks of a file from the top of the tree: the
    blocks that arrive are decrypted, data is written to the file, and blocks of keys give the
    requests for the blocks below. Requests have addresses. This file has the download of a
    single file that does not exist yet: the reconstruction of parts from an old file or from
    meta data and recursive downloads of directories are left out. *)

From stdpp Require Import gmap list.
From S2P Require Import Prelude Endian Crypto FsTree.
#[local] Open Scope Z_scope.

Inductive BlockRequestState :=
  | BRS_INIT | BRS_RECONSTRUCT_DOWN | BRS_RECONSTRUCT_META_UP | BRS_RECONSTRUCT_UP
  | BRS_CHK_SET | BRS_DOWNLOAD_DOWN | BRS_DOWNLOAD_UP | BRS_ERROR.

#[export] Instance BlockRequestState_eq_dec : EqDecision BlockRequestState.
Proof. solve_decision. Defined.

(** [num_children] is the length of the list. *)
Record DownloadRequest := mk_dr {
  dr_parent : option Z;
  dr_children : list Z;
  dr_chk : ContentHashKey;
  dr_offset : Z;
  dr_depth : Z;
  dr_chk_idx : Z;
  dr_state : BlockRequestState;
}.

Notation requests := (gmap Z DownloadRequest).

Definition set_state (s : BlockRequestState) (r : DownloadRequest) : DownloadRequest :=
  mk_dr (dr_parent r) (dr_children r) (dr_chk r) (dr_offset r) (dr_depth r) (dr_chk_idx r) s.
Definition set_chk (c : ContentHashKey) (r : DownloadRequest) : DownloadRequest :=
  mk_dr (dr_parent r) (dr_children r) c (dr_offset r) (dr_depth r) (dr_chk_idx r) (dr_state r).

(** The entry in the queue of jobs. *)
Inductive job_state := NotQueued | Queued | Running.

#[export] Instance job_state_eq_dec : EqDecision job_state.
Proof. solve_decision. Defined.

(** [dc_active] pairs the queries of requests with their addresses, [dc_file] is the content of the file,
    which has a name if [dc_filename]; [dc_task] is the pending task, which starts the download or tries to connect again. *)
Record DownloadContext := mk_dc {
  dc_uri : FS_Uri;
  dc_filename : bool;
  dc_options : Z;
  dc_offset : Z;
  dc_length : Z;
  dc_completed : Z;
  dc_treedepth : Z;
  dc_active : option (list (list Z * Z));
  dc_requests : requests;
  top_request : option Z;
  dc_mq : bool;
  dc_job : job_state;
  dc_task : bool;
  dc_file : list Z;
  dc_emsg : bool;
  has_finished : bool;
  issue_requests : bool;
}.

Definition set_requests (rs : requests) (dc : DownloadContext) : DownloadContext :=
  mk_dc (dc_uri dc) (dc_filename dc) (dc_options dc) (dc_offset dc) (dc_length dc) (dc_completed dc) (dc_treedepth dc) (dc_active dc) rs (top_request dc)
    (dc_mq dc) (dc_job dc) (dc_task dc) (dc_file dc) (dc_emsg dc) (has_finished dc) (issue_requests dc).
Definition set_active (act : option (list (list Z * Z))) (dc : DownloadContext) : DownloadContext :=
  mk_dc (dc_uri dc) (dc_filename dc) (dc_options dc) (dc_offset dc) (dc_length dc) (dc_completed dc) (dc_treedepth dc) act (dc_requests dc) (top_request dc)
    (dc_mq dc) (dc_job dc) (dc_task dc) (dc_file dc) (dc_emsg dc) (has_finished dc) (issue_requests dc).
Definition set_connection (mq : bool) (job : job_state) (task : bool) (dc : DownloadContext) : DownloadContext :=
  mk_dc (dc_uri dc) (dc_filename dc) (dc_options dc) (dc_offset dc) (dc_length dc) (dc_completed dc) (dc_treedepth dc) (dc_active dc) (dc_requests dc) (top_request dc)
    mq job task (dc_file dc) (dc_emsg dc) (has_finished dc) (issue_requests dc).
Definition set_file (file : list Z) (dc : DownloadContext) : DownloadContext :=
  mk_dc (dc_uri dc) (dc_filename dc) (dc_options dc) (dc_offset dc) (dc_length dc) (dc_completed dc) (dc_treedepth dc) (dc_active dc) (dc_requests dc) (top_request dc)
    (dc_mq dc) (dc_job dc) (dc_task dc) file (dc_emsg dc) (has_finished dc) (issue_requests dc).
Definition set_completed (n : Z) (dc : DownloadContext) : DownloadContext :=
  mk_dc (dc_uri dc) (dc_filename dc) (dc_options dc) (dc_offset dc) (dc_length dc) n (dc_treedepth dc) (dc_active dc) (dc_requests dc) (top_request dc)
    (dc_mq dc) (dc_job dc) (dc_task dc) (dc_file dc) (dc_emsg dc) (has_finished dc) (issue_requests dc).

(** Messages to the service and events for the application. *)
Inductive dl_out :=
  | StartSearch (type : Z) (query : list Z)
  | StatusStart | StatusActive | StatusInactive | StatusError | StatusCompleted
  | StatusProgress (offset : Z) (data : list Z) (depth : Z).

Definition GNUNET_FS_DOWNLOAD_NO_TEMPORARIES : Z := 4.

(** ** Where blocks are stored *)

Fixpoint disk_offset_loop (n : nat) (loff lsize ioff : Z) : option Z :=
  match n with
  | O => Some (u64 (loff + ioff * sizeof_ContentHashKey))
  | S n =>
      let loff := u64 (loff + lsize) in
      let lsize := u64 (lsize + CHK_PER_INODE - 1) / CHK_PER_INODE in
      assert? 0 <? lsize in
      assert? 0 =? ioff mod CHK_PER_INODE in
      disk_offset_loop n loff lsize (ioff / CHK_PER_INODE)
  end.

Definition compute_disk_offset (fsize off depth : Z) : option Z :=
  if 0 =? depth then Some off
  else
    let n := u64 (fsize + DBLOCK_SIZE - 1) / DBLOCK_SIZE in
    assert? 0 =? off mod DBLOCK_SIZE in
    disk_offset_loop (Z.to_nat (depth - 1)) (u64 (n * DBLOCK_SIZE)) (u64 (n * sizeof_ContentHashKey)) (u32 (off / DBLOCK_SIZE)).

(** The content of the file, empty as long as there is no file. A write creates it and fills a gap with zeros. *)
Definition write_at (off : nat) (data file : list Z) : list Z :=
  take off (file ++ repeat 0 (off - length file)) ++ data ++ drop (off + length data) file.
Definition truncate (n : nat) (file : list Z) : list Z := match file with [] => [] | _ => take n (file ++ repeat 0 (n - length file)) end.

(** ** Requests *)

(** The requests for the children with the given indices. *)
Fixpoint create_children (create : Z -> requests * Z -> option (Z * (requests * Z))) (l : list Z) (st : requests * Z) : option (list Z * (requests * Z)) :=
  match l with
  | [] => Some ([], st)
  | i :: l =>
      let? (c, st) := create i st in
      let? (cs, st) := create_children create l st in
      Some (c :: cs, st)
  end.

(** The store of requests goes with the address of the next one. *)
Fixpoint create_download_request (depth : nat) (parent : option Z) (chk_idx dr_off file_start_offset desired_length : Z) (st : requests * Z)
  : option (Z * (requests * Z)) :=
  let '(rs, a) := st in
  match depth with
  | O => Some (a, (<[a := mk_dr parent [] chk_zero dr_off 0 chk_idx BRS_INIT]> rs, a + 1))
  | S d =>
      let child_block_size := GNUNET_FS_tree_compute_tree_size (Z.of_nat d) in
      assert? negb (child_block_size =? 0) in
      let head_skip := if dr_off <? file_start_offset then u32 ((file_start_offset - dr_off) / child_block_size) else 0 in
      let bytes := u64 (u64 (file_start_offset + desired_length) - dr_off) in
      let num := u32 (bytes / child_block_size) in
      let num := if u64 (num * child_block_size) <? bytes then u32 (num + 1) else num in
      assert? num >? head_skip in
      let num := num - head_skip in
      let num := if num >? CHK_PER_INODE then CHK_PER_INODE else num in
      assert? num >? 0 in
      let? (cs, (rs, next)) := create_children (fun i => create_download_request d (Some a) i (u64 (dr_off + i * child_block_size)) file_start_offset desired_length)
                                 (seqZ head_skip num) (rs, a + 1) in
      Some (a, (<[a := mk_dr parent cs chk_zero dr_off (Z.of_nat depth) chk_idx BRS_INIT]> rs, next))
  end.

(** The request and those above it of which all children are done; a path has as many requests as the tree levels. *)
Fixpoint propagate_up (fuel : nat) (a : Z) (rs : requests) : option requests :=
  match fuel with
  | O => None
  | S fuel =>
      let? r := rs !! a in
      let rs := <[a := set_state BRS_DOWNLOAD_UP r]> rs in
      match dr_parent r with
      | None => Some rs
      | Some p =>
          let? x := rs !! p in
          let? states := mapM (fun c => dr_state <$> rs !! c) (dr_children x) in
          if forallb (fun s => bool_decide (s = BRS_DOWNLOAD_UP)) states then propagate_up fuel p rs else Some rs
      end
  end.

(** The request and all above it have failed. *)
Fixpoint mark_error (fuel : nat) (a : Z) (rs : requests) : option requests :=
  match fuel with
  | O => None
  | S fuel =>
      let? r := rs !! a in
      let rs := <[a := set_state BRS_ERROR r]> rs in
      match dr_parent r with None => Some rs | Some p => mark_error fuel p rs end
  end.

Definition retry_entry (r : DownloadRequest) : dl_out :=
  StartSearch (if 0 =? dr_depth r then GNUNET_BLOCK_TYPE_FS_DBLOCK else GNUNET_BLOCK_TYPE_FS_IBLOCK) (chk_query (dr_chk r)).

(** In the order of the list. *)
Fixpoint schedule_all (schedule : Z -> DownloadContext -> option (DownloadContext * list dl_out)) (l : list Z) (dc : DownloadContext)
  : option (DownloadContext * list dl_out) :=
  match l with
  | [] => Some (dc, [])
  | c :: l =>
      let? (dc, out) := schedule c dc in
      let? (dc, out') := schedule_all schedule l dc in
      Some (dc, out ++ out')
  end.

Fixpoint schedule_block_download (fuel : nat) (a : Z) (dc : DownloadContext) : option (DownloadContext * list dl_out) :=
  match fuel with
  | O => None
  | S fuel =>
      let? r := dc_requests dc !! a in
      match dr_state r with
      | BRS_CHK_SET =>
          let? act := dc_active dc in
          if bool_decide ((chk_query (dr_chk r), a) ∈ act) then Some (dc, [])
          else
            let dc := set_active (Some ((chk_query (dr_chk r), a) :: act)) dc in
            if dc_mq dc then Some (dc, [retry_entry r]) else Some (dc, [])
      | BRS_DOWNLOAD_DOWN => schedule_all (schedule_block_download fuel) (dr_children r) dc
      | BRS_DOWNLOAD_UP | BRS_ERROR => Some (dc, [])
      | _ => None
      end
  end.

(** ** Connection *)

(** [ok]: whether the connection is made. *)
Definition do_reconnect (ok : bool) (dc : DownloadContext) : option (DownloadContext * list dl_out) :=
  if ok then
    let dc := set_connection true (dc_job dc) false dc in
    let? act := dc_active dc in
    let? rs := mapM (fun e => dc_requests dc !! snd e) act in
    Some (dc, map retry_entry rs)
  else Some (set_connection false (dc_job dc) true dc, []).

Definition try_reconnect (dc : DownloadContext) : DownloadContext := set_connection false (dc_job dc) true dc.

Definition download_mq_error_handler (dc : DownloadContext) : DownloadContext := try_reconnect (set_connection false (dc_job dc) (dc_task dc) dc).

Definition activate_fs_download (ok : bool) (dc : DownloadContext) : option (DownloadContext * list dl_out) :=
  assert? negb (dc_mq dc) in
  assert? (match dc_active dc with Some _ => true | None => false end) in
  let? (dc, out) := do_reconnect ok dc in
  Some (dc, out ++ [StatusActive]).

Definition deactivate_fs_download (dc : DownloadContext) : DownloadContext * list dl_out :=
  (set_connection false (dc_job dc) (dc_task dc) dc, [StatusInactive]).

(** A running job is stopped first. *)
Definition dequeue (dc : DownloadContext) : DownloadContext * list dl_out :=
  match dc_job dc with
  | NotQueued => (dc, [])
  | Queued => (set_connection (dc_mq dc) NotQueued (dc_task dc) dc, [])
  | Running => let '(dc, out) := deactivate_fs_download dc in (set_connection (dc_mq dc) NotQueued (dc_task dc) dc, out)
  end.

(** There are no child downloads. *)
Definition check_completed (dc : DownloadContext) : DownloadContext * list dl_out :=
  let '(dc, out) := dequeue dc in
  (mk_dc (dc_uri dc) (dc_filename dc) (dc_options dc) (dc_offset dc) (dc_length dc) (dc_completed dc) (dc_treedepth dc) (dc_active dc) (dc_requests dc) (top_request dc)
     (dc_mq dc) (dc_job dc) false (dc_file dc) (dc_emsg dc) true (issue_requests dc), out ++ [StatusCompleted]).

(** The end of [process_result_with_request] after an error. *)
Definition signal_error (dc : DownloadContext) : option (DownloadContext * list dl_out) :=
  assert? dc_mq dc in
  let dc := mk_dc (dc_uri dc) (dc_filename dc) (dc_options dc) (dc_offset dc) (dc_length dc) (dc_completed dc) (dc_treedepth dc) None ∅ None
              false (dc_job dc) (dc_task dc) (dc_file dc) true (has_finished dc) (issue_requests dc) in
  let '(dc, out) := dequeue dc in
  Some (dc, StatusError :: out).

Section Download.
Context `{Gcrypt}.

(** A key from the plaintext of a block. *)
Definition chk_at (pt : list Z) (i : Z) : ContentHashKey :=
  let off := Z.to_nat (i * sizeof_ContentHashKey) in mk_chk (slice off 64 pt) (slice (off + 64) 64 pt).

(** The requests below a block of keys, from the last. *)
Fixpoint trigger_children (fuel : nat) (pt : list Z) (l : list Z) (dc : DownloadContext) : option (DownloadContext * list dl_out) :=
  match l with
  | [] => Some (dc, [])
  | c :: l =>
      let? r := dc_requests dc !! c in
      assert? bool_decide (dr_state r = BRS_INIT) in
      assert? ((dr_chk_idx r + 1) * sizeof_ContentHashKey <=? Z.of_nat (length pt)) in
      let dc := set_requests (<[c := set_state BRS_CHK_SET (set_chk (chk_at pt (dr_chk_idx r)) r)]> (dc_requests dc)) dc in
      let? (dc, out) := if issue_requests dc then schedule_block_download fuel c dc else Some (dc, []) in
      let? (dc, out') := trigger_children fuel pt l dc in
      Some (dc, out ++ out')
  end.

(** The bytes of a block of data that are in the requested range. *)
Definition progress_of (dc : DownloadContext) (r : DownloadRequest) (size : Z) : option Z :=
  let app := size in
  let? app := if dr_offset r <? dc_offset dc then
      assert? app >? dc_offset dc - dr_offset r in Some (app - (dc_offset dc - dr_offset r))
    else Some app in
  if u64 (dr_offset r + size) >? u64 (dc_offset dc + dc_length dc) then
    assert? app >? u64 (dr_offset r + size) - u64 (dc_offset dc + dc_length dc) in
    Some (app - (u64 (dr_offset r + size) - u64 (dc_offset dc + dc_length dc)))
  else Some app.

Definition fail_result (dc : DownloadContext) : option (DownloadContext * list dl_out * bool) := let? (dc, out) := signal_error dc in Some (dc, out, false).

(** The plaintext of a block for the request [a]; [io]: whether the file can be opened, positioned and written. The boolean says whether to go on. *)
Definition accept_block (io : bool) (pt : list Z) (size a : Z) (r : DownloadRequest) (dc : DownloadContext) : option (DownloadContext * list dl_out * bool) :=
  let fuel := Z.to_nat (dc_treedepth dc) in
  let fsize := GNUNET_ntohll (uri_file_length (dc_uri dc)) in
  let? off := compute_disk_offset fsize (dr_offset r) (dr_depth r) in
  let store := dc_filename dc && ((dr_depth r =? dc_treedepth dc) || (Z.land (dc_options dc) GNUNET_FS_DOWNLOAD_NO_TEMPORARIES =? 0)) in
  if store && negb io then fail_result dc
  else
    let dc := if store then set_file (write_at (Z.to_nat off) pt (dc_file dc)) dc else dc in
    let? dc := if 0 =? dr_depth r then
        let? app := progress_of dc r size in Some (set_completed (u64 (dc_completed dc + app)) dc)
      else Some dc in
    assert? dc_completed dc <=? dc_length dc in
    let dc := set_requests (<[a := set_state BRS_DOWNLOAD_DOWN r]> (dc_requests dc)) dc in
    let? dc := if 0 =? dr_depth r then let? rs := propagate_up fuel a (dc_requests dc) in Some (set_requests rs dc) else Some dc in
    let? (dc, out) := if dc_completed dc =? dc_length dc then
        let dc := if dc_filename dc then set_file (truncate (Z.to_nat fsize) (dc_file dc)) dc else dc in
        assert? 0 =? dr_depth r in
        Some (check_completed dc)
      else Some (dc, []) in
    let out := StatusProgress (dr_offset r) pt (dr_depth r) :: out in
    if 0 =? dr_depth r then Some (dc, out, true)
    else
      assert? 0 =? size mod sizeof_ContentHashKey in
      let? (dc, out') := trigger_children fuel pt (rev (dr_children r)) dc in
      Some (dc, out ++ out', true).

(** A block for the request [a]. *)
Definition process_result_with_request (io : bool) (data query : list Z) (a : Z) (dc : DownloadContext) : option (DownloadContext * list dl_out * bool) :=
  let size := Z.of_nat (length data) in
  let? r := dc_requests dc !! a in
  let? bs := GNUNET_FS_tree_calculate_block_size (GNUNET_ntohll (uri_file_length (dc_uri dc))) (dr_offset r) (dr_depth r) in
  if negb (size =? bs) then
    let? rs := mark_error (Z.to_nat (dc_treedepth dc)) a (dc_requests dc) in fail_result (set_requests rs dc)
  else
    let? act := dc_active dc in
    let dc := set_active (Some (filter (fun e => e <> (query, a)) act)) dc in
    let? (skey, iv) := GNUNET_CRYPTO_hash_to_aes_key (chk_key (dr_chk r)) in
    match GNUNET_CRYPTO_symmetric_decrypt data skey iv with
    | None => fail_result dc
    | Some pt => accept_block io pt size a r dc
    end.

Fixpoint process_results (io : bool) (data query : list Z) (l : list Z) (dc : DownloadContext) : option (DownloadContext * list dl_out) :=
  match l with
  | [] => Some (dc, [])
  | a :: l =>
      let? (dc, out, go_on) := process_result_with_request io data query a dc in
      if go_on : bool then let? (dc, out') := process_results io data query l dc in Some (dc, out ++ out') else Some (dc, out)
  end.

(** The requests for the hash of the data are those at the time of the message: the requests that
    [process_result_with_request] adds are for other blocks, and the map is large enough not to grow. *)
Definition handle_put (io : bool) (data : list Z) (dc : DownloadContext) : option (DownloadContext * list dl_out) :=
  let query := GNUNET_CRYPTO_hash data in
  let? act := dc_active dc in
  process_results io data query (map snd (filter (fun e => fst e = query) act)) dc.
End Download.

(** ** Start *)

(** [Some None] is null: the range is not in the file. [len] is the size of the map [active]. *)
Definition create_download_context (uri : FS_Uri) (filename : bool) (offset length options : Z) : option (option DownloadContext) :=
  let fsize := GNUNET_ntohll (uri_file_length uri) in
  if (u64 (offset + length) <? offset) || (u64 (offset + length) >? fsize) then Some None
  else
    let len := u32 (1 + 2 * (length / DBLOCK_SIZE)) in
    assert? (0 <? len) && (len * 8 <=? GNUNET_MAX_MALLOC_CHECKED) in
    let? treedepth := GNUNET_FS_compute_depth fsize in
    Some (Some (mk_dc uri filename options offset length 0 treedepth (Some []) ∅ None false NotQueued true [] false false false)).

Definition GNUNET_FS_download_start_downloading_ (dc : DownloadContext) : option DownloadContext :=
  if dc_completed dc =? dc_length dc then Some dc
  else if dc_mq dc then Some dc
  else
    assert? bool_decide (dc_job dc = NotQueued) in
    assert? negb (dc_task dc) in
    assert? (match dc_active dc with Some _ => true | None => false end) in
    Some (set_connection (dc_mq dc) Queued (dc_task dc) dc).

(** For a file that does not exist and without meta data. *)
Definition GNUNET_FS_download_start_task_ (dc : DownloadContext) : option (DownloadContext * list dl_out) :=
  let dc := set_connection (dc_mq dc) (dc_job dc) false dc in
  if 0 =? dc_length dc then let '(dc, out) := check_completed dc in Some (dc, StatusStart :: out)
  else if dc_emsg dc then Some (dc, [])
  else
    let? (top, (rs, _)) := create_download_request (Z.to_nat (dc_treedepth dc - 1)) None 0 0 (dc_offset dc) (dc_length dc) (dc_requests dc, 0) in
    let? r := rs !! top in
    let rs := <[top := set_state BRS_CHK_SET (set_chk (uri_chk (dc_uri dc)) r)]> rs in
    let dc := mk_dc (dc_uri dc) (dc_filename dc) (dc_options dc) (dc_offset dc) (dc_length dc) (dc_completed dc) (dc_treedepth dc) (dc_active dc) rs (Some top)
                (dc_mq dc) (dc_job dc) (dc_task dc) (dc_file dc) (dc_emsg dc) (has_finished dc) true in
    let? dc := GNUNET_FS_download_start_downloading_ dc in
    let? (dc, out) := schedule_block_download (Z.to_nat (dc_treedepth dc)) top dc in
    Some (dc, StatusStart :: out).

(** ** Events *)

Inductive dl_event :=
  | Activate (ok : bool)
  | Deactivate
  | ConnectionError
  | Reconnect (ok : bool)
  | Put (io : bool) (data : list Z).

Definition dl_step `{Gcrypt} (ev : dl_event) (dc : DownloadContext) : option (DownloadContext * list dl_out) :=
  match ev with
  | Activate ok => activate_fs_download ok (set_connection (dc_mq dc) Running (dc_task dc) dc)
  | Deactivate => Some (deactivate_fs_download (set_connection (dc_mq dc) Queued (dc_task dc) dc))
  | ConnectionError => Some (download_mq_error_handler dc, [])
  | Reconnect ok => do_reconnect ok (set_connection (dc_mq dc) (dc_job dc) false dc)
  | Put io data => handle_put io data dc
  end.

(** ** Behaviour at the limits *)

(** In a file of 2^31 + 1 bytes the second block of depth 2 is stored in the same place as the block of depth 3. *)
Example disk_blocks_overlap : exists off2 off3, compute_disk_offset (2 ^ 31 + 1) (2 ^ 31) 2 = Some off2 /\ GNUNET_FS_tree_calculate_block_size (2 ^ 31 + 1) (2 ^ 31) 2 = Some 128
  /\ compute_disk_offset (2 ^ 31 + 1) 0 3 = Some off3 /\ off2 < off3 < off2 + 128.
Proof. eexists _, _. split_and!; vm_compute; reflexivity. Qed.

(** Of a file of 16 MiB, 8 MiB are wanted from 4 MiB on: the first block of keys gets a request for a child 383, which it does not have. *)
Definition partial_requests : option (Z * (requests * Z)) := create_download_request 2 None 0 0 (2 ^ 22) (2 ^ 23) (∅, 0).

Example partial_download_fails : exists top rs n a r, partial_requests = Some (top, (rs, n)) /\ rs !! a = Some r /\ dr_depth r = 1 /\ dr_offset r = 0
  /\ GNUNET_FS_tree_calculate_block_size (2 ^ 24) 0 1 = Some 32768
  /\ forall dc fuel pt, dc_requests dc = rs -> length pt = Z.to_nat 32768 -> trigger_children fuel pt (rev (dr_children r)) dc = None.
Proof.
  destruct partial_requests as [[top [rs n]]|] eqn:E; [|vm_compute in E; done].
  assert (Hc : match partial_requests with Some (_, (rs, _)) => match rs !! 1 with Some r => (dr_depth r =? 1) && (dr_offset r =? 0)
     && match rev (dr_children r) with c :: _ => match rs !! c with Some x => dr_chk_idx x =? 383 | None => false end | [] => false end | None => false end | None => false end = true) by (vm_compute; done).
  rewrite E in Hc. destruct (rs !! 1) as [r|] eqn:Er; [|done]. apply andb_true_iff in Hc as [[Hd Ho]%andb_true_iff Hk]. exists top, rs, n, 1, r.
  split_and!; [done|done|lia|lia|vm_compute; done|]. intros dc fuel pt <- Hp. destruct (rev (dr_children r)) as [|c l]; [done|]. cbn [trigger_children].
  destruct (dc_requests dc !! c) as [x|]; [|done]. case_match; [|done]. rewrite (proj2 (Z.leb_gt _ _)); [done|]. unfold sizeof_ContentHashKey. lia.
Qed.
