(* ===== verification/FsTransfer.v ===== *)
(** * File sharing: a published file is downloaded

    The invariant of a download of a whole file, that it always can go on, and that what arrives is the file that was
    encoded. *)

From stdpp Require Import gmap list.
From S2P Require Import Prelude Endian Crypto FsTree FsDownload.
#[local] Open Scope Z_scope.

(** ** Runs *)

(** Events that can occur: the queue stops a job while it is connected; [ok]: what is assumed of the blocks that the service sends. *)
Definition enabled (ok : list Z -> Prop) (ev : dl_event) (dc : DownloadContext) : Prop :=
  match ev with
  | Activate _ => dc_job dc = Queued
  | Deactivate => dc_job dc = Running /\ dc_task dc = false
  | ConnectionError => dc_mq dc = true
  | Reconnect _ => dc_task dc = true
  | Put _ b => dc_mq dc = true /\ ok b
  end.

Inductive reaches `{Gcrypt} (ok : list Z -> Prop) (dc : DownloadContext) : DownloadContext -> Prop :=
  | reaches_start : reaches ok dc dc
  | reaches_step dc1 dc2 ev out : reaches ok dc dc1 -> enabled ok ev dc1 -> dl_step ev dc1 = Some (dc2, out) -> reaches ok dc dc2.

Fixpoint dl_run `{Gcrypt} (evs : list dl_event) (dc : DownloadContext) : option DownloadContext :=
  match evs with
  | [] => Some dc
  | ev :: evs => let? (dc, _) := dl_step ev dc in dl_run evs dc
  end.

(** The encoder is called once for each block of the file and once more; its calls and the URI. *)
Definition publish `{Gcrypt} (reader : Z -> Z -> list Z * option (list Z)) (data : list Z) : option (list tree_call * FS_Uri) :=
  let? te := GNUNET_FS_tree_encoder_create (Z.of_nat (length data)) true false in
  let? depth := GNUNET_FS_compute_depth (Z.of_nat (length data)) in
  let? (te, calls) := encoder_run reader (S (length (nodes data (Z.to_nat (depth - 1)) 0))) te in
  let? uri := GNUNET_FS_tree_encoder_get_uri te in
  Some (calls, uri).

Definition published (calls : list tree_call) (b : list Z) : Prop := exists c off d ty, Proc c off d ty b ∈ calls.

(** The hash of a block is that of no other block that was published. *)
Definition no_collision `{Gcrypt} (calls : list tree_call) (b : list Z) : Prop := forall b', published calls b' -> GNUNET_CRYPTO_hash b = GNUNET_CRYPTO_hash b' -> b = b'.

(** ** The tree of requests *)

(** What of a request does not change. *)
Definition shape (r : DownloadRequest) : option Z * list Z * Z * Z * Z := (dr_parent r, dr_children r, dr_offset r, dr_depth r, dr_chk_idx r).

Section Transfer.
Context `{GcryptLaws, !HashLength}.
Context (data : list Z).
#[local] Notation size := (Z.of_nat (length data)).
#[local] Notation chk := (chk data).
#[local] Notation plain := (plain data).
#[local] Notation children := (children data).
Context (dd : nat) (Hsize : 0 < size <= 2 ^ 31) (Hd2 : (dd <= 2)%nat) (Htop : size <= span dd).

(** The request [c] is the child number [i] of the request [a] for a block of depth [S d]. *)
Record child_of (rs : requests) (a : Z) (r : DownloadRequest) (d : nat) (i : nat) (c : Z) (rc : DownloadRequest) : Prop := {
  co_lookup : rs !! c = Some rc;
  co_depth : dr_depth rc = Z.of_nat d;
  co_offset : dr_offset rc = dr_offset r + Z.of_nat i * span d;
  co_parent : dr_parent rc = Some a;
  co_idx : dr_chk_idx rc = Z.of_nat i;
}.

(** A request for the block of depth [d] and number [m]. *)
Record request_ok (rs : requests) (a : Z) (r : DownloadRequest) (d : nat) (m : Z) : Prop := {
  ro_depth : dr_depth r = Z.of_nat d;
  ro_m : 0 <= m;
  ro_offset : dr_offset r = m * span d;
  ro_lt : m * span d < size;
  ro_leaf : d = O -> dr_children r = [];
  ro_count : forall d', d = S d' -> length (dr_children r) = Z.to_nat (children d' (dr_offset r));
  ro_children : forall d', d = S d' -> forall i c, dr_children r !! i = Some c -> exists rc, child_of rs a r d' i c rc;
}.

(** The requests with addresses from [lo] to [hi], for the blocks below the one of depth [d] and number [m]. *)
Record subtree (rs : requests) (lo hi : Z) (d : nat) (m : Z) (parent : option Z) (idx : Z) : Prop := {
  sb_order : lo < hi;
  sb_root : exists r, rs !! lo = Some r /\ request_ok rs lo r d m /\ dr_parent r = parent /\ dr_chk_idx r = idx;
  sb_all : forall a, lo <= a < hi -> exists r, rs !! a = Some r /\ dr_state r = BRS_INIT /\ exists d' m', (d' <= d)%nat /\ request_ok rs a r d' m'
    /\ (a = lo \/ exists p rp, lo <= p < hi /\ rs !! p = Some rp /\ child_of rs p rp d' (Z.to_nat (dr_chk_idx r)) a r /\ dr_depth rp = Z.of_nat (S d')
                              /\ dr_children rp !! Z.to_nat (dr_chk_idx r) = Some a);
}.

Lemma request_ok_frame rs rs' a r d m : (forall b, is_Some (rs !! b) -> rs' !! b = rs !! b) -> request_ok rs a r d m -> request_ok rs' a r d m.
Proof.
  intros Hf [A B C D E F G]. split; try done. intros d' Hd i c Hc. destruct (G d' Hd i c Hc) as (rc & [P1 P2 P3 P4 P5]). exists rc. split; try done. by rewrite Hf.
Qed.

Lemma subtree_frame rs rs' lo hi d m parent idx : (forall b, is_Some (rs !! b) -> rs' !! b = rs !! b) -> subtree rs lo hi d m parent idx -> subtree rs' lo hi d m parent idx.
Proof.
  intros Hf [A (r & Hr & Hok & Hp) C]. split; [done| |].
  - exists r. split_and!; [by rewrite Hf|by eapply request_ok_frame|apply Hp..].
  - intros a Ha. destruct (C a Ha) as (x & Hx & Hi & d' & m' & Hd & Hx' & Hor). exists x. split_and!; [by rewrite Hf|done|]. exists d', m'.
    split_and!; [done|by eapply request_ok_frame|]. destruct Hor as [?|(p & rp & H1' & H2' & [P1 P2 P3 P4 P5] & H4')]; [by left|]. right. exists p, rp.
    split; [done|]. split; [by rewrite Hf|]. split; [|done]. split; try done. by rewrite Hf.
Qed.

(** Requests are made at new addresses. *)
Definition fresh (rs : requests) (next : Z) : Prop := forall b, is_Some (rs !! b) -> b < next.

Definition created (rs rs' : requests) (lo hi : Z) : Prop := (forall b, ~ (lo <= b < hi) -> rs' !! b = rs !! b) /\ fresh rs' hi.

Lemma created_old rs rs' lo hi b : fresh rs lo -> created rs rs' lo hi -> is_Some (rs !! b) -> rs' !! b = rs !! b.
Proof. intros Hf [Hc _] Hb. apply Hc. specialize (Hf b Hb). lia. Qed.

(** The children with numbers from [k] on are made, one after the other. *)
Lemma create_children_ok create d m a k n :
  (forall i rs lo, k <= i < k + Z.of_nat n -> fresh rs lo -> exists rs' hi, create i (rs, lo) = Some (lo, (rs', hi)) /\ created rs rs' lo hi /\ subtree rs' lo hi d (m + i) (Some a) i) ->
  forall rs lo, fresh rs lo -> exists cs rs' hi, create_children create (seqZ k (Z.of_nat n)) (rs, lo) = Some (cs, (rs', hi)) /\ length cs = n /\ lo <= hi /\ created rs rs' lo hi
    /\ (forall i c, cs !! i = Some c -> exists h, lo <= c /\ h <= hi /\ subtree rs' c h d (m + (k + Z.of_nat i)) (Some a) (k + Z.of_nat i))
    /\ (forall b, lo <= b < hi -> exists i c h, cs !! i = Some c /\ c <= b < h /\ h <= hi /\ subtree rs' c h d (m + (k + Z.of_nat i)) (Some a) (k + Z.of_nat i)).
Proof.
  revert k. induction n as [|n IH]; intros k Hcr rs lo Hf.
  { exists [], rs, lo. cbn. split_and!; [done|done|lia|done|done|intros b Hb; lia]. }
  rewrite Nat2Z.inj_succ, seqZ_cons by lia. replace (Z.pred (Z.succ (Z.of_nat n))) with (Z.of_nat n) by lia. cbn [create_children].
  destruct (Hcr k rs lo ltac:(lia) Hf) as (rs1 & h1 & -> & [Hc1 Hf1] & Hs1). pose proof (sb_order _ _ _ _ _ _ _ Hs1) as Ho1.
  destruct (IH (Z.succ k)) with (rs := rs1) (lo := h1) as (cs & rs2 & h2 & -> & Hlen & Hle & [Hc2 Hf2] & Hch & Hcov); [|done|].
  { intros i rs' lo' Hi. apply Hcr. lia. }
  assert (Hs1' : subtree rs2 lo h1 d (m + (k + 0)) (Some a) (k + 0)).
  { rewrite Z.add_0_r. eapply subtree_frame; [|exact Hs1]. intros b Hb. apply Hc2. specialize (Hf1 b Hb). lia. }
  exists (lo :: cs), rs2, h2. split_and!; [done|cbn; lia|lia| | |].
  - split; [|done]. intros b Hb. rewrite Hc2, Hc1; [done|lia|lia].
  - intros [|i] c Hi; cbn in Hi.
    + injection Hi as <-. exists h1. split_and!; [lia|lia|done].
    + destruct (Hch i c Hi) as (h & ? & ? & Hs). exists h. split_and!; [lia|lia|]. replace (k + Z.of_nat (S i)) with (Z.succ k + Z.of_nat i) by lia. done.
  - intros b Hb. destruct (decide (b < h1)) as [Hlt|Hge].
    + exists O, lo, h1. split; [done|]. split; [lia|]. split; [lia|done].
    + destruct (Hcov b ltac:(lia)) as (i & c & h & Hi & ? & ? & Hs). exists (S i), c, h. split; [done|]. split; [lia|]. split; [lia|].
      replace (k + Z.of_nat (S i)) with (Z.succ k + Z.of_nat i) by lia. done.
Qed.

Lemma round_up b s : 0 < s -> 0 < b < 2 ^ 32 -> s <= 2 ^ 31 ->
  (let num := u32 (b / s) in if u64 (num * s) <? b then u32 (num + 1) else num) = cdiv b s.
Proof.
  intros Hs Hb Hs'. pose proof (Z.div_mod b s ltac:(lia)) as Hdm. pose proof (Z.mod_pos_bound b s Hs) as Hm. set (q := b / s) in *. set (r := b mod s) in *.
  clearbody q r. assert (0 <= q <= b) by nia. cbv zeta. unfold u32, u64. rewrite (Z.mod_small q) by lia. rewrite (Z.mod_small (q * s)) by nia.
  symmetry. destruct (Z.ltb_spec (q * s) b) as [Hlt|Hge].
  - assert (q + 1 <= b + 1) by lia. assert (q < b \/ s = 1) as [?|?] by nia; [|nia]. rewrite (Z.mod_small (q + 1)) by lia. apply cdiv_unique; nia.
  - apply cdiv_unique; nia.
Qed.

Lemma cap_children d off : 0 <= off < size -> Z.min 256 (cdiv (size - off) (span d)) = children d off.
Proof.
  intros Ho. unfold FsTree.children. pose proof (span_pos d) as Hp. pose proof (span_S d) as HS. pose proof (cdiv_spec (size - off) (span d) Hp) as Hc. symmetry.
  apply cdiv_unique; [done|]. destruct (Z.min_spec 256 (cdiv (size - off) (span d))) as [[? ->]|[? ->]]; destruct (Z.min_spec (span (S d)) (size - off)) as [[? ->]|[? ->]]; nia.
Qed.

Lemma create_leaf m parent idx rs lo : 0 <= m -> m * span 0 < size -> fresh rs lo ->
  exists rs' hi, create_download_request 0 parent idx (m * span 0) 0 size (rs, lo) = Some (lo, (rs', hi)) /\ created rs rs' lo hi /\ subtree rs' lo hi 0 m parent idx.
Proof.
  intros Hm Hlt Hf. cbn [create_download_request]. set (r := mk_dr parent [] chk_zero (m * span 0) 0 idx BRS_INIT). exists (<[lo := r]> rs), (lo + 1). split; [done|].
  assert (Hok : request_ok (<[lo := r]> rs) lo r 0 m) by (split; done). split; [split|split].
  - intros b Hb. rewrite lookup_insert_ne by lia. done.
  - intros b Hb. destruct (decide (b = lo)) as [->|Hne]; [lia|]. rewrite lookup_insert_ne in Hb by done. specialize (Hf b Hb). lia.
  - lia.
  - exists r. rewrite lookup_insert_eq. done.
  - intros a Ha. assert (a = lo) as -> by lia. exists r. rewrite lookup_insert_eq. split_and!; [done|done|]. exists O, m. split_and!; [done|done|by left].
Qed.

Lemma create_ok d : (d <= 2)%nat -> forall m parent idx rs lo, 0 <= m -> m * span d < size -> fresh rs lo ->
  exists rs' hi, create_download_request d parent idx (m * span d) 0 size (rs, lo) = Some (lo, (rs', hi)) /\ created rs rs' lo hi /\ subtree rs' lo hi d m parent idx.
Proof.
  induction d as [|d IH]; intros Hd m parent idx rs lo Hm Hlt Hf; cbn [create_download_request].
  { by apply (create_leaf m parent idx rs lo). }
  assert (Hsp : span d <= 2 ^ 31 /\ span (S d) <= 2 ^ 31) by (destruct d as [|[|d]]; [done|done|lia]).
  pose proof (span_pos d) as Hp. pose proof (span_S d) as HS. set (off := m * span (S d)) in *. assert (Ho : 0 <= off) by (unfold off; nia).
  rewrite tree_size_eq by lia. rewrite (proj2 (Z.eqb_neq (span d) 0)) by lia. cbn [negb]. rewrite (proj2 (Z.ltb_ge off 0)) by done.
  assert (u64 (u64 (0 + size) - off) = size - off) as -> by (unfold u64; rewrite !Z.mod_small; [done|lia|rewrite Z.mod_small; lia]).
  pose proof (round_up (size - off) (span d) Hp ltac:(lia) ltac:(lia)) as Hru. cbv zeta in Hru. rewrite Hru.
  pose proof (cap_children d off ltac:(lia)) as Hcap. pose proof (children_range data d off Hlt) as Hrange.
  rewrite (proj2 (Z.gtb_lt (cdiv _ _) 0)) by lia. rewrite Z.sub_0_r.
  assert ((if cdiv (size - off) (span d) >? CHK_PER_INODE then CHK_PER_INODE else cdiv (size - off) (span d)) = children d off) as ->.
  { unfold CHK_PER_INODE. destruct (Z.gtb_spec (cdiv (size - off) (span d)) 256); lia. }
  rewrite (proj2 (Z.gtb_lt (children d off) 0)) by lia.
  destruct (create_children_ok (fun i => create_download_request d (Some lo) i (u64 (off + i * span d)) 0 size) d (256 * m) lo 0 (Z.to_nat (children d off)))
    with (rs := rs) (lo := lo + 1) as (cs & rs1 & hi & E & Hlen & Hle & [Hc1 Hf1] & Hch & Hcov).
  { intros i rs' lo' Hi Hf'. assert (off + i * span d < size) as Hi'.
    { unfold FsTree.children in Hi. pose proof (cdiv_spec (Z.min (span (S d)) (size - off)) (span d) Hp). nia. }
    assert (u64 (off + i * span d) = (256 * m + i) * span d) as -> by (unfold u64; rewrite Z.mod_small; unfold off; nia).
    apply IH; [lia|lia|unfold off in Hi'; nia|done]. }
  { intros b Hb. specialize (Hf b Hb). lia. }
  rewrite Z2Nat.id in E by lia. rewrite E. set (r := mk_dr parent cs chk_zero off (Z.of_nat (S d)) idx BRS_INIT).
  assert (Hkeep : forall b, is_Some (rs1 !! b) -> b <> lo) by (intros b Hb ->; specialize (Hc1 lo ltac:(lia)); rewrite Hc1 in Hb; specialize (Hf lo Hb); lia).
  assert (Hfr : forall b, is_Some (rs1 !! b) -> <[lo := r]> rs1 !! b = rs1 !! b) by (intros b Hb; rewrite lookup_insert_ne; [done|]; by intros ->; eapply Hkeep).
  assert (Hkids : forall i c, cs !! i = Some c -> exists h rc, lo + 1 <= c /\ h <= hi /\ subtree (<[lo := r]> rs1) c h d (256 * m + Z.of_nat i) (Some lo) (Z.of_nat i)
     /\ child_of (<[lo := r]> rs1) lo r d i c rc).
  { intros i c Hi. destruct (Hch i c Hi) as (h & Hc & Hh & Hs). apply (subtree_frame _ _ _ _ _ _ _ _ Hfr) in Hs. rewrite Z.add_0_l in Hs. exists h.
    destruct (sb_root _ _ _ _ _ _ _ Hs) as (rc & Hrc & Hok & Hpar & Hidx). exists rc. split_and!; try done. split; try done; [apply Hok|].
    rewrite (ro_offset _ _ _ _ _ Hok). cbn. unfold off. nia. }
  assert (Hok : request_ok (<[lo := r]> rs1) lo r (S d) m).
  { split; try done; [by intros d' [= <-]|]. intros d' [= <-] i c Hi. destruct (Hkids i c Hi) as (h & rc & _ & _ & _ & Hco). by exists rc. }
  eexists _, hi. split; [done|]. split; [split|split].
  - intros b Hb. rewrite lookup_insert_ne by lia. apply Hc1. lia.
  - intros b Hb. destruct (decide (b = lo)) as [->|Hne]; [lia|]. rewrite lookup_insert_ne in Hb by done. by apply Hf1.
  - lia.
  - exists r. rewrite lookup_insert_eq. done.
  - intros a Ha. destruct (decide (a = lo)) as [->|Hne].
    { exists r. rewrite lookup_insert_eq. split_and!; [done|done|]. exists (S d), m. split_and!; [done|done|by left]. }
    destruct (Hcov a ltac:(lia)) as (i & c & h & Hi & Hac & Hh & Hs). apply (subtree_frame _ _ _ _ _ _ _ _ Hfr) in Hs.
    destruct (sb_all _ _ _ _ _ _ _ Hs a Hac) as (x & Hx & Hxi & d' & m' & Hd' & Hxok & Hor). exists x. split_and!; [done|done|]. exists d', m'. split_and!; [lia|done|]. right.
    destruct (Hkids i c Hi) as (h' & rc & Hc & _ & _ & Hco). destruct Hor as [->|(p & rp & Hpr & Hrest)]; [|exists p, rp; split; [lia|done]].
    exists lo, r. split; [lia|]. rewrite lookup_insert_eq. split; [done|]. pose proof (co_lookup _ _ _ _ _ _ _ Hco) as Hl. assert (rc = x) as -> by congruence.
    rewrite (co_idx _ _ _ _ _ _ _ Hco), Nat2Z.id. assert (d' = d) as -> by (apply Nat2Z.inj; rewrite <- (ro_depth _ _ _ _ _ Hxok); by apply Hco). done.
Qed.

(** *** The whole tree *)

(** [a] is a child of [p]. *)
Definition below (rs : requests) (p : Z) (rp : DownloadRequest) (d : nat) (a : Z) (r : DownloadRequest) : Prop :=
  rs !! p = Some rp /\ child_of rs p rp d (Z.to_nat (dr_chk_idx r)) a r /\ dr_depth rp = Z.of_nat (S d) /\ dr_children rp !! Z.to_nat (dr_chk_idx r) = Some a.

Record tree_ok (rs : requests) (top : Z) : Prop := {
  to_top : exists r, rs !! top = Some r /\ request_ok rs top r dd 0 /\ dr_parent r = None;
  to_all : forall a r, rs !! a = Some r -> exists d m, (d <= dd)%nat /\ request_ok rs a r d m /\ (a = top \/ exists p rp, below rs p rp d a r);
}.

Lemma request_ok_shape rs rs' a r r' d m : (forall b, shape <$> rs' !! b = shape <$> rs !! b) -> shape r' = shape r -> request_ok rs a r d m -> request_ok rs' a r' d m.
Proof.
  intros Hs [= E1 E2 E3 E4 E5] [A B C D E F G]. split; rewrite ?E1, ?E2, ?E3, ?E4; try done. intros d' Hd i c Hc. destruct (G d' Hd i c Hc) as (rc & [P1 P2 P3 P4 P5]).
  pose proof (Hs c) as Hc'. rewrite P1 in Hc'. destruct (rs' !! c) as [rc'|] eqn:Erc; [|done]. injection Hc' as F1 F2 F3 F4 F5. exists rc'. split; congruence.
Qed.

Lemma tree_ok_shape rs rs' top : (forall b, shape <$> rs' !! b = shape <$> rs !! b) -> tree_ok rs top -> tree_ok rs' top.
Proof.
  intros Hs [(r & Hr & Hok & Hp) Hall]. assert (Hget : forall b x, rs !! b = Some x -> exists x', rs' !! b = Some x' /\ shape x' = shape x).
  { intros b x Hb. pose proof (Hs b) as Hb'. rewrite Hb in Hb'. destruct (rs' !! b) as [x'|]; [|done]. exists x'. split; [done|]. unfold shape in *. injection Hb'. congruence. }
  split.
  - destruct (Hget top r Hr) as (r' & Hr' & Hsh). exists r'. split_and!; [done|by eapply request_ok_shape|]. injection Hsh as E _ _ _ _. congruence.
  - intros a r1' Hr1'. pose proof (Hs a) as Ha. rewrite Hr1' in Ha. destruct (rs !! a) as [r1|] eqn:Er1; [|done]. injection Ha as Hsh.
    destruct (Hall a r1 Er1) as (d & m & Hd & Hok1 & Hor). exists d, m. split_and!; [done|eapply request_ok_shape; [done| |done]; unfold shape; congruence|].
    destruct Hor as [?|(p & rp & Hrp & [P1 P2 P3 P4 P5] & Hdp & Hcp)]; [by left|]. right. destruct (Hget p rp Hrp) as (rp' & Hrp' & Hshp). injection Hshp as G1 G2 G3 G4 G5.
    exists p, rp'. split_and!; [done| |congruence|congruence]. split; congruence.
Qed.

Lemma tree_of_subtree rs hi : subtree rs 0 hi dd 0 None 0 -> (forall a, is_Some (rs !! a) -> 0 <= a < hi) -> tree_ok rs 0 /\ forall a r, rs !! a = Some r -> dr_state r = BRS_INIT.
Proof.
  intros [_ (r & Hr & Hok & Hp & _) Hall] Hdom. split; [split|].
  - by exists r.
  - intros a x Hx. destruct (Hall a) as (x' & Hx' & _ & d & m & Hd & Hxok & Hor); [apply Hdom; by rewrite Hx|]. assert (x' = x) as -> by congruence. exists d, m.
    split_and!; [done|done|]. destruct Hor as [?|(p & rp & _ & Hb)]; [by left|right; by exists p, rp].
  - intros a x Hx. destruct (Hall a) as (x' & Hx' & Hi & _); [apply Hdom; by rewrite Hx|]. congruence.
Qed.

Section TreeOk.
Context (rs : requests) (top : Z) (Htree : tree_ok rs top).

Lemma depth_unique c rc d m d' m' : request_ok rs c rc d m -> request_ok rs c rc d' m' -> d' = d /\ m' = m.
Proof.
  intros Hoc Hoc'. assert (d' = d) as -> by (apply Nat2Z.inj; rewrite <- (ro_depth _ _ _ _ _ Hoc); symmetry; apply Hoc'). split; [done|].
  pose proof (ro_offset _ _ _ _ _ Hoc) as E. rewrite (ro_offset _ _ _ _ _ Hoc') in E. pose proof (span_pos d). nia.
Qed.

Lemma parent_of c rc d m : rs !! c = Some rc -> request_ok rs c rc d m -> (d < dd)%nat ->
  exists p rp, below rs p rp d c rc /\ request_ok rs p rp (S d) (m / 256) /\ Z.of_nat (Z.to_nat (dr_chk_idx rc)) = m mod 256.
Proof.
  intros Hc Hoc Hlt. destruct (to_all _ _ Htree c rc Hc) as (d' & m' & Hd' & Hoc' & Hor). destruct (depth_unique _ _ _ _ _ _ Hoc Hoc') as [-> ->]. destruct Hor as [->|(p & rp & Hbel)].
  - destruct (to_top _ _ Htree) as (rt & Hrt & Hot & _). assert (rt = rc) as -> by congruence. destruct (depth_unique _ _ _ _ _ _ Hot Hoc) as [-> _]. lia.
  - exists p, rp. pose proof Hbel as (Hrp & Hco & Hdp & Hcp). split; [done|]. destruct (to_all _ _ Htree p rp Hrp) as (dp & mp & Hdp' & Hop & _).
    assert (dp = S d) as -> by (apply Nat2Z.inj; rewrite <- Hdp; symmetry; apply Hop). set (i := Z.to_nat (dr_chk_idx rc)) in *.
    assert (Hi : (i < 256)%nat).
    { apply lookup_lt_Some in Hcp. rewrite (ro_count _ _ _ _ _ Hop d eq_refl) in Hcp. rewrite (ro_offset _ _ _ _ _ Hop) in Hcp.
      pose proof (children_range data d (mp * span (S d)) (ro_lt _ _ _ _ _ Hop)). lia. }
    pose proof (co_offset _ _ _ _ _ _ _ Hco) as Hoff. rewrite (ro_offset _ _ _ _ _ Hoc), (ro_offset _ _ _ _ _ Hop), span_S in Hoff. pose proof (span_pos d) as Hp.
    assert (m = 256 * mp + Z.of_nat i) as Em by nia. split.
    + replace (m / 256) with mp; [done|]. apply (Z.div_unique_pos _ _ mp (Z.of_nat i)); lia.
    + apply (Z.mod_unique_pos _ _ mp); lia.
Qed.

Lemma at_top c rc m : rs !! c = Some rc -> request_ok rs c rc dd m -> c = top.
Proof.
  intros Hc Hoc. destruct (to_all _ _ Htree c rc Hc) as (d' & m' & Hd' & Hoc' & [?|(p & rp & Hrp & _ & Hdp & _)]); [done|]. destruct (depth_unique _ _ _ _ _ _ Hoc Hoc') as [-> _].
  destruct (to_all _ _ Htree p rp Hrp) as (dp & mp & Hdp' & Hop & _). rewrite (ro_depth _ _ _ _ _ Hop) in Hdp. lia.
Qed.

Lemma request_unique a b ra rb d m : (d <= dd)%nat -> rs !! a = Some ra -> rs !! b = Some rb -> request_ok rs a ra d m -> request_ok rs b rb d m -> a = b.
Proof.
  remember (dd - d)%nat as k eqn:Ek. revert a b ra rb d m Ek. induction k as [|k IH]; intros a b ra rb d m Ek Hd Ha Hb Hoa Hob.
  - assert (d = dd) as -> by lia. rewrite (at_top a ra m), (at_top b rb m); done.
  - destruct (parent_of a ra d m Ha Hoa) as (p & rp & (Hrp & _ & _ & Hcp) & Hop & Hi); [lia|]. destruct (parent_of b rb d m Hb Hob) as (p' & rp' & (Hrp' & _ & _ & Hcp') & Hop' & Hi'); [lia|].
    assert (p = p') as <- by (eapply (IH p p' rp rp' (S d)); [lia|lia|done..]). assert (rp = rp') as <- by congruence.
    assert (Z.to_nat (dr_chk_idx ra) = Z.to_nat (dr_chk_idx rb)) as Ei by lia. congruence.
Qed.

Lemma request_exists d m : (d <= dd)%nat -> 0 <= m -> m * span d < size -> exists a r, rs !! a = Some r /\ request_ok rs a r d m.
Proof.
  remember (dd - d)%nat as k eqn:Ek. revert d m Ek. induction k as [|k IH]; intros d m Ek Hd Hm Hlt.
  - assert (d = dd) as -> by lia. assert (m = 0) as -> by (pose proof (span_pos dd); nia). destruct (to_top _ _ Htree) as (r & Hr & Hok & _). by exists top, r.
  - pose proof (span_pos d) as Hp. pose proof (span_S d) as HS. pose proof (Z.div_mod m 256 ltac:(lia)) as Hdm. pose proof (Z.mod_pos_bound m 256 ltac:(lia)) as Hmm.
    destruct (IH (S d) (m / 256)) as (p & rp & Hrp & Hop); [lia|lia|apply Z.div_pos; lia|nia|].
    assert (Hi : m mod 256 < children d (m / 256 * span (S d))).
    { unfold FsTree.children. pose proof (cdiv_spec (Z.min (span (S d)) (size - m / 256 * span (S d))) (span d) Hp). nia. }
    pose proof (ro_count _ _ _ _ _ Hop d eq_refl) as Hlen. rewrite (ro_offset _ _ _ _ _ Hop) in Hlen.
    destruct (lookup_lt_is_Some_2 (dr_children rp) (Z.to_nat (m mod 256))) as [c Hc]; [lia|].
    destruct (ro_children _ _ _ _ _ Hop d eq_refl _ c Hc) as (rc & Hco). exists c, rc. split; [apply Hco|].
    destruct (to_all _ _ Htree c rc (co_lookup _ _ _ _ _ _ _ Hco)) as (d' & m' & _ & Hok & _).
    assert (d' = d) as -> by (apply Nat2Z.inj; rewrite <- (co_depth _ _ _ _ _ _ _ Hco); symmetry; apply Hok).
    replace m with m'; [done|]. pose proof (ro_offset _ _ _ _ _ Hok) as E1. rewrite (co_offset _ _ _ _ _ _ _ Hco), (ro_offset _ _ _ _ _ Hop) in E1. nia.
Qed.
End TreeOk.

(** ** Completed requests *)

Definition all_up (rs : requests) (cs : list Z) : Prop := forall c, c ∈ cs -> exists rc, rs !! c = Some rc /\ dr_state rc = BRS_DOWNLOAD_UP.
Definition up_ok (rs : requests) (a : Z) : Prop :=
  forall r, rs !! a = Some r -> (dr_state r = BRS_DOWNLOAD_UP -> all_up rs (dr_children r)) /\ (dr_state r = BRS_DOWNLOAD_DOWN -> ~ all_up rs (dr_children r)).

(** A request is known when the block above it has arrived. *)
Definition waiting (r : DownloadRequest) : Prop := dr_state r = BRS_INIT \/ dr_state r = BRS_CHK_SET.
Definition states_ok (rs : requests) : Prop :=
  (forall a r, rs !! a = Some r -> waiting r \/ dr_state r = BRS_DOWNLOAD_DOWN \/ dr_state r = BRS_DOWNLOAD_UP)
  /\ forall p rp d a r, below rs p rp d a r -> dr_state r = BRS_INIT <-> waiting rp.

(** Some states went from "down" to "up", nothing else changed. *)
Definition raised (rs rs' : requests) : Prop := forall b, shape <$> rs' !! b = shape <$> rs !! b
  /\ forall rb, rs !! b = Some rb -> exists rb', rs' !! b = Some rb' /\ dr_chk rb' = dr_chk rb
      /\ (dr_state rb' = dr_state rb \/ dr_state rb = BRS_DOWNLOAD_DOWN /\ dr_state rb' = BRS_DOWNLOAD_UP).

Lemma raised_trans rs1 rs2 rs3 : raised rs1 rs2 -> raised rs2 rs3 -> raised rs1 rs3.
Proof.
  intros H12 H23 b. destruct (H12 b) as [S1 F1], (H23 b) as [S2 F2]. split; [congruence|]. intros rb Hb. destruct (F1 rb Hb) as (r2 & Hr2 & C2 & St2).
  destruct (F2 r2 Hr2) as (r3 & Hr3 & C3 & St3). exists r3. split_and!; [done|congruence|]. destruct St2 as [E2|[? ?]], St3 as [E3|[? ?]]; [left|right|right|]; intuition congruence.
Qed.

Lemma below_shape rs rs' p rp' d a r' : (forall b, shape <$> rs' !! b = shape <$> rs !! b) -> below rs' p rp' d a r' ->
  exists rp r, below rs p rp d a r /\ rs' !! p = Some rp' /\ rs' !! a = Some r'.
Proof.
  intros Hs (Hp & [P1 P2 P3 P4 P5] & Hd & Hc). pose proof (Hs p) as Sp. pose proof (Hs a) as Sa. rewrite Hp in Sp. rewrite P1 in Sa.
  destruct (rs !! p) as [rp|] eqn:Ep; [|done]. destruct (rs !! a) as [r|] eqn:Ea; [|done]. injection Sp as A1 A2 A3 A4 A5. injection Sa as B1 B2 B3 B4 B5.
  exists rp, r. split_and!; [|done|done]. split; [done|]. split; [split; congruence|]. split; congruence.
Qed.

Lemma raised_states rs rs' : raised rs rs' -> states_ok rs -> states_ok rs'.
Proof.
  intros Hr [S1 S2]. assert (Hw : forall b rb rb', rs !! b = Some rb -> rs' !! b = Some rb' -> (waiting rb' <-> waiting rb) /\ (dr_state rb' = BRS_INIT <-> dr_state rb = BRS_INIT)).
  { intros b rb rb' Hb Hb'. destruct (proj2 (Hr b) rb Hb) as (x & Hx & _ & St). assert (x = rb') as -> by congruence. unfold waiting. destruct St as [->|[-> ->]]; [done|].
    split; split; intros; intuition discriminate. }
  split.
  - intros a r' Hr'. pose proof (proj1 (Hr a)) as Sh. rewrite Hr' in Sh. destruct (rs !! a) as [r|] eqn:Ea; [|done]. destruct (proj2 (Hr a) r Ea) as (x & Hx & _ & St).
    assert (x = r') as -> by congruence. destruct St as [E|[_ E]]; [|auto]. unfold waiting. rewrite E. by apply (S1 a).
  - intros p rp' d a r' Hb. destruct (below_shape rs rs' p rp' d a r' (fun b => proj1 (Hr b)) Hb) as (rp & r & Hb' & Hp' & Ha'). pose proof Hb' as (Hp & Hco & _).
    rewrite (proj2 (Hw a r r' (co_lookup _ _ _ _ _ _ _ Hco) Ha')), (proj1 (Hw p rp rp' Hp Hp')). by eapply S2.
Qed.

Lemma child_parent rs top b rb a : tree_ok rs top -> rs !! b = Some rb -> a ∈ dr_children rb -> exists ra d, below rs b rb d a ra.
Proof.
  intros Ht Hb [i Hi]%list_elem_of_lookup. destruct (to_all _ _ Ht b rb Hb) as (d & m & Hd & Hok & _). destruct d as [|d]; [by rewrite (ro_leaf _ _ _ _ _ Hok) in Hi|].
  destruct (ro_children _ _ _ _ _ Hok d eq_refl i a Hi) as (ra & Hco). exists ra, d. pose proof (co_idx _ _ _ _ _ _ _ Hco) as Ei.
  split; [done|]. rewrite Ei, Nat2Z.id. split; [done|]. split; [apply Hok|done].
Qed.

Lemma mapM_states rs cs : (forall c, c ∈ cs -> is_Some (rs !! c)) -> exists states, mapM (fun c => dr_state <$> rs !! c) cs = Some states
  /\ (forallb (fun s => bool_decide (s = BRS_DOWNLOAD_UP)) states = true <-> all_up rs cs).
Proof.
  induction cs as [|c cs IH]; intros Hcs; cbn; [exists []; split; [done|]; split; [by intros _ c ?%elem_of_nil|done]|].
  destruct (Hcs c) as [rc Hrc]; [by left|]. rewrite Hrc. cbn. destruct IH as (states & -> & Hst); [intros; apply Hcs; by right|]. cbn. eexists. split; [done|]. cbn.
  rewrite andb_true_iff, Hst, bool_decide_eq_true. unfold all_up. setoid_rewrite elem_of_cons. split.
  - intros [E Hall] c' [->|Hc']; [by exists rc|auto].
  - intros Hall. split; [|auto]. destruct (Hall c) as (x & Hx & E); [by left|]. congruence.
Qed.

Lemma raised_one rs a r : rs !! a = Some r -> dr_state r = BRS_DOWNLOAD_DOWN -> raised rs (<[a := set_state BRS_DOWNLOAD_UP r]> rs).
Proof.
  intros Hr Hd b. destruct (decide (b = a)) as [->|Hne].
  - rewrite lookup_insert_eq, Hr. split; [done|]. intros rb [= <-]. eexists. split; [done|]. split; [done|]. by right.
  - rewrite lookup_insert_ne by done. split; [done|]. intros rb Hb. exists rb. split_and!; [done|done|by left].
Qed.

(** All requests are as they should be but for [a], the children of which are done. *)
Lemma propagate_ok top fuel a r rs d m : tree_ok rs top -> states_ok rs -> rs !! a = Some r -> request_ok rs a r d m -> (dd - d < fuel)%nat -> (d <= dd)%nat ->
  dr_state r = BRS_DOWNLOAD_DOWN -> all_up rs (dr_children r) -> (forall b, b <> a -> up_ok rs b) ->
  exists rs', propagate_up fuel a rs = Some rs' /\ raised rs rs' /\ (forall b, up_ok rs' b) /\ exists r', rs' !! a = Some r' /\ dr_state r' = BRS_DOWNLOAD_UP.
Proof.
  revert a r rs d m. induction fuel as [|fuel IH]; intros a r rs d m Ht Hst Hr Hok Hf Hdd Hdown Hall Hother; [lia|]. cbn [propagate_up]. rewrite Hr.
  set (rs1 := <[a := set_state BRS_DOWNLOAD_UP r]> rs). pose proof (raised_one rs a r Hr Hdown) as Hraise. fold rs1 in Hraise.
  pose proof (tree_ok_shape rs rs1 top (fun b => proj1 (Hraise b)) Ht) as Ht1. pose proof (raised_states rs rs1 Hraise Hst) as Hst1.
  assert (Hr1 : rs1 !! a = Some (set_state BRS_DOWNLOAD_UP r)) by apply lookup_insert_eq.
  assert (Hne1 : forall b, b <> a -> rs1 !! b = rs !! b) by (intros b Hb; unfold rs1; by rewrite lookup_insert_ne).
  assert (Hup : forall cs, all_up rs cs -> all_up rs1 cs).
  { intros cs Hcs c Hc. destruct (Hcs c Hc) as (rc & Hrc & Hu). destruct (decide (c = a)) as [->|Hca]; [eexists; split; [done|done]|exists rc; by rewrite Hne1]. }
  assert (Hback : forall cs, a ∉ cs -> all_up rs1 cs -> all_up rs cs).
  { intros cs Ha Hcs c Hc. destruct (Hcs c Hc) as (rc & Hrc & Hu). rewrite Hne1 in Hrc by (by intros ->). by exists rc. }
  assert (Hself : up_ok rs1 a) by (intros x Hx; rewrite Hr1 in Hx; injection Hx as <-; split; [intros _; by apply Hup|done]).
  assert (Hrest : forall b, b <> a -> dr_parent r <> Some b -> up_ok rs1 b).
  { intros b Hb Hpar x Hx. rewrite Hne1 in Hx by done. destruct (Hother b Hb x Hx) as [U1 U2]. split; [auto|]. intros Hd Hu. apply (U2 Hd). apply Hback; [|done].
    intros Hin. destruct (child_parent rs top b x a Ht Hx Hin) as (ra & d' & (_ & Hco & _)). apply Hpar. rewrite <- (co_parent _ _ _ _ _ _ _ Hco).
    f_equal. pose proof (co_lookup _ _ _ _ _ _ _ Hco). congruence. }
  destruct (dr_parent r) as [p|] eqn:Ep.
  2: { exists rs1. split_and!; [done|done| |by eexists]. intros b. destruct (decide (b = a)) as [->|Hb]; [done|]. by apply Hrest. }
  destruct (to_all _ _ Ht a r Hr) as (d' & m' & _ & Hok' & [->|(p' & rp & Hbel)]).
  { destruct (to_top _ _ Ht) as (rt & Hrt & _ & Hnone). congruence. }
  assert (d' = d) as -> by (apply Nat2Z.inj; rewrite <- (ro_depth _ _ _ _ _ Hok); symmetry; apply Hok').
  pose proof Hbel as (Hrp & Hco & Hdp & Hcp). assert (p' = p) as -> by (pose proof (co_parent _ _ _ _ _ _ _ Hco); congruence).
  destruct (to_all _ _ Ht p rp Hrp) as (dp & mp & Hdpd & Hokp & _). assert (dp = S d) as -> by (apply Nat2Z.inj; rewrite <- Hdp; symmetry; apply Hokp).
  assert (Hpa : p <> a) by (intros ->; assert (rp = r) as -> by congruence; rewrite (ro_depth _ _ _ _ _ Hok) in Hdp; lia).
  rewrite (Hne1 p Hpa), Hrp. destruct (mapM_states rs1 (dr_children rp)) as (states & -> & Hstates).
  { intros c Hc. destruct (child_parent rs top p rp c Ht Hrp Hc) as (rc & dc & (_ & Hcoc & _)). pose proof (co_lookup _ _ _ _ _ _ _ Hcoc) as Hl.
    destruct (decide (c = a)) as [->|Hca]; [by rewrite Hr1|by rewrite Hne1, Hl]. }
  assert (Hpdown : dr_state rp = BRS_DOWNLOAD_DOWN).
  { destruct (proj1 Hst p rp Hrp) as [Hw|[?|Hu]]; [|done|].
    - apply (proj2 Hst _ _ _ _ _ Hbel) in Hw. congruence.
    - destruct (Hother p Hpa rp Hrp) as [U1 _]. destruct (U1 Hu a) as (x & Hx & Hxu); [by eapply list_elem_of_lookup_2|]. congruence. }
  destruct (forallb _ states) eqn:Eall.
  - destruct (IH p rp rs1 (S d) mp) as (rs' & -> & Hr' & Hu' & rp' & Hrp' & Hup'); try done.
    + by rewrite Hne1.
    + eapply request_ok_shape; [apply Hraise|done|done].
    + lia.
    + by apply Hstates.
    + intros b Hb. destruct (decide (b = a)) as [->|Hba]; [done|]. apply Hrest; [done|congruence].
    + exists rs'. split_and!; [done|by eapply raised_trans|done|]. destruct (proj2 (Hr' a) _ Hr1) as (r' & Hr'' & _ & [E|[E _]]); [|done]. by exists r'.
  - exists rs1. split_and!; [done|done| |by eexists]. intros b. destruct (decide (b = a)) as [->|Hb]; [done|]. destruct (decide (b = p)) as [->|Hbp]; [|apply Hrest; congruence].
    intros x Hx. rewrite Hne1, Hrp in Hx by done. injection Hx as <-. split; [congruence|]. intros _ Hu. apply Hstates in Hu. congruence.
Qed.

(** ** Counting *)

Definition block_length (o : Z) : Z := Z.min DBLOCK_SIZE (size - o).
Definition total (l : list Z) : Z := foldr (fun o s => block_length o + s) 0 l.
Definition data_offsets : list Z := map (fun j => j * span 0) (seqZ 0 (cdiv size (span 0))).

Lemma total_cons o l : total (o :: l) = block_length o + total l.
Proof. done. Qed.

Lemma total_app l k : total (l ++ k) = total l + total k.
Proof. induction l as [|o l IH]; [done|]. rewrite <- app_comm_cons, !total_cons, IH. lia. Qed.

Lemma data_offsets_elem o : o ∈ data_offsets <-> exists m, 0 <= m /\ o = m * span 0 /\ o < size.
Proof.
  unfold data_offsets. pose proof (cdiv_spec size (span 0) ltac:(done)) as Hc. rewrite list_elem_of_In, in_map_iff. split.
  - intros (m & <- & Hm%list_elem_of_In%elem_of_seqZ). exists m. split_and!; [lia|done|]. nia.
  - intros (m & Hm & -> & Hlt). exists m. split; [done|]. apply list_elem_of_In, elem_of_seqZ. change (span 0) with 32768 in *. lia.
Qed.

Lemma data_offsets_nodup : NoDup data_offsets.
Proof. apply (NoDup_fmap_2_strong (fun j => j * span 0)); [|apply NoDup_seqZ]. intros x y _ _ E. change (span 0) with 32768 in E. lia. Qed.

Lemma total_offsets : total data_offsets = size.
Proof.
  assert (Hk : forall n, total (map (fun j => j * span 0) (seqZ 0 (Z.of_nat n))) = Z.min (Z.of_nat n * span 0) size \/ size <= (Z.of_nat n - 1) * span 0).
  { induction n as [|n IH]; [left; change (0 = Z.min (0 * 32768) size); lia|]. replace (Z.of_nat (S n)) with (Z.of_nat n + 1) by lia. rewrite seqZ_snoc, map_app, total_app by lia. cbn [map]. rewrite total_cons. change (total []) with 0.
    unfold block_length, DBLOCK_SIZE. change (span 0) with 32768 in *. lia. }
  unfold data_offsets. pose proof (cdiv_spec size (span 0) ltac:(done)) as Hc. destruct (Hk (Z.to_nat (cdiv size (span 0)))) as [E|E]; rewrite Z2Nat.id in E by (change (span 0) with 32768 in *; lia).
  - rewrite E. apply Z.min_r. lia.
  - lia.
Qed.

Lemma total_submseteq l k : (forall o, o ∈ k -> 0 < block_length o) -> l ⊆+ k -> total l <= total k.
Proof.
  intros Hk Hs. apply submseteq_Permutation in Hs as [k' Hp]. assert (total k = total (l ++ k')) as ->.
  { clear Hk. induction Hp as [|x a b _ IH|x y a|a b c _ IH1 _ IH2]; rewrite ?total_cons; lia. }
  rewrite total_app. enough (0 <= total k') by lia. assert (Hk' : forall o, o ∈ k' -> 0 < block_length o) by (intros o Ho; apply Hk; rewrite Hp; apply elem_of_app; by right).
  clear Hp. induction k' as [|o k' IH]; [done|]. rewrite total_cons. pose proof (Hk' o ltac:(by left)). enough (0 <= total k') by lia. apply IH. intros. apply Hk'. by right.
Qed.

Lemma offsets_positive o : o ∈ data_offsets -> 0 < block_length o.
Proof. intros (m & _ & _ & Hlt)%data_offsets_elem. unfold block_length, DBLOCK_SIZE. lia. Qed.

Lemma total_le l : NoDup l -> (forall o, o ∈ l -> o ∈ data_offsets) -> total l <= size.
Proof. intros HN Hl. rewrite <- total_offsets. apply total_submseteq; [apply offsets_positive|]. by apply NoDup_submseteq. Qed.

Lemma total_lt l o : NoDup l -> (forall o, o ∈ l -> o ∈ data_offsets) -> o ∈ data_offsets -> o ∉ l -> total l + block_length o <= size.
Proof.
  intros HN Hl Ho Hn. pose proof (total_le (o :: l)) as Ht. rewrite total_cons in Ht. rewrite Z.add_comm. apply Ht; [by constructor|]. intros x [->|Hx]%elem_of_cons; auto.
Qed.

(** ** The file on disk *)

Lemma disk_offset d m : (d <= 2)%nat -> 0 <= m -> m * span d < size ->
  exists off, compute_disk_offset size (m * span d) (Z.of_nat d) = Some off /\ match d with O => off = m * span 0 | S _ => size <= off < 2 ^ 33 end.
Proof.
  intros Hd Hm Hlt. unfold compute_disk_offset. destruct d as [|d]; [by eexists|]. change (0 =? Z.of_nat (S d)) with false. cbv iota.
  replace (Z.to_nat (Z.of_nat (S d) - 1)) with d by lia. pose proof (span_pos d) as Hp. unfold DBLOCK_SIZE, sizeof_ContentHashKey. change (32 * 1024) with 32768.
  assert (u64 (size + 32768 - 1) / 32768 = cdiv size 32768) as -> by (unfold u64, cdiv; rewrite Z.mod_small by lia; done). pose proof (cdiv_spec size 32768 ltac:(lia)) as Hc.
  set (n := cdiv size 32768) in *. clearbody n. assert (1 <= n <= 65536) by lia.
  destruct d as [|[|d]]; [| |lia].
  - change (span 1) with (256 * 32768) in *. rewrite Z.mul_assoc, Z.mod_mul, Z.div_mul by done. cbn [disk_offset_loop Z.eqb].
    eexists. split; [done|]. unfold u64, u32, sizeof_ContentHashKey. rewrite (Z.mod_small (n * 32768)), (Z.mod_small (m * 256)) by lia. rewrite Z.mod_small; lia.
  - change (span 2) with (65536 * 32768) in *. rewrite Z.mul_assoc, Z.mod_mul, Z.div_mul by done. cbn [disk_offset_loop Z.eqb]. assert (m = 0) as -> by lia.
    unfold u64, u32, CHK_PER_INODE, sizeof_ContentHashKey. rewrite (Z.mod_small (n * 32768)), (Z.mod_small (n * 128)) by lia. rewrite (Z.mod_small (n * 128 + 256 - 1)) by lia.
    assert (1 <= (n * 128 + 256 - 1) / 256) by (apply Z.div_le_lower_bound; lia). rewrite (proj2 (Z.ltb_lt 0 _)) by lia. cbn [Z.eqb Z.mul Z.modulo Z.div Z.div_eucl].
    eexists. split; [done|]. rewrite (Z.mod_small (n * 32768 + n * 128)) by lia. change ((0 * 65536) mod 2 ^ 32 / 256 * 128) with 0. rewrite Z.add_0_r, Z.mod_small; lia.
Qed.

Lemma write_at_old off pt file i x : file !! i = Some x -> (i < off \/ off + length pt <= i)%nat -> write_at off pt file !! i = Some x.
Proof.
  intros Hi Hoff. pose proof (lookup_lt_Some _ _ _ Hi) as Hl. unfold write_at. assert (Ht : length (take off (file ++ repeat 0 (off - length file))) = off) by (rewrite length_take, length_app, repeat_length; lia).
  destruct Hoff as [Hlt|Hge].
  - rewrite lookup_app_l by lia. rewrite lookup_take_lt by done. by rewrite lookup_app_l.
  - rewrite lookup_app_r by lia. rewrite lookup_app_r by lia. rewrite lookup_drop. rewrite <- Hi. f_equal. lia.
Qed.

Lemma write_at_new off pt file j x : pt !! j = Some x -> write_at off pt file !! (off + j)%nat = Some x.
Proof.
  intros Hj. pose proof (lookup_lt_Some _ _ _ Hj) as Hl. unfold write_at. assert (Ht : length (take off (file ++ repeat 0 (off - length file))) = off) by (rewrite length_take, length_app, repeat_length; lia).
  rewrite lookup_app_r by lia. rewrite lookup_app_l by lia. rewrite <- Hj. f_equal. lia.
Qed.

Lemma truncate_data file : (forall i, (i < length data)%nat -> file !! i = data !! i) -> truncate (length data) file = data.
Proof.
  intros Hf. unfold truncate. assert (Hlen : (length data <= length file)%nat).
  { destruct (decide (length data <= length file)%nat); [done|]. exfalso. pose proof (Hf (length file) ltac:(lia)) as E. rewrite lookup_ge_None_2 in E by lia.
    symmetry in E. apply lookup_ge_None in E. lia. }
  destruct file as [|x file]; [cbn [length] in Hlen; lia|]. replace (length data - length (x :: file))%nat with O by lia. cbn [repeat]. rewrite app_nil_r. apply list_eq. intros i. destruct (decide (i < length data)%nat).
  - rewrite lookup_take_lt by done. by apply Hf.
  - rewrite lookup_take_ge by lia. symmetry. apply lookup_ge_None. lia.
Qed.

(** ** Keys of the blocks below *)

Lemma drop_concat_const {A} (n i : nat) (l : list (list A)) : (forall x, x ∈ l -> length x = n) -> drop (i * n) (concat l) = concat (drop i l).
Proof.
  revert l. induction i as [|i IH]; intros l Hl; [done|]. destruct l as [|x l]; [cbn [concat]; by rewrite !drop_nil|]. cbn [concat drop]. rewrite <- IH by (intros; apply Hl; by right).
  rewrite drop_app_ge by (rewrite (Hl x); [lia|by left]). f_equal. rewrite (Hl x); [lia|by left].
Qed.

Lemma chk_at_eq d off i : 0 <= i < children d off -> chk_at (plain (S d) off) i = chk d (off + i * span d).
Proof.
  intros Hi. unfold chk_at, sizeof_ContentHashKey. replace (Z.to_nat (i * 128)) with (Z.to_nat i * 128)%nat by lia. unfold slice. cbn [FsTree.plain].
  rewrite <- drop_drop. rewrite (drop_concat_const 128) by (intros x (j & <- & _)%list_elem_of_In%in_map_iff; apply length_chk_bytes).
  set (f := fun j => chk_bytes (chk_of (plain d (off + j * span d)))). assert (exists rest, drop (Z.to_nat i) (map f (seqZ 0 (children d off))) = f i :: rest) as (rest & ->).
  { exists (drop (S (Z.to_nat i)) (map f (seqZ 0 (children d off)))). apply drop_S. change (map f) with (fmap (M := list) f).
    rewrite list_lookup_fmap, lookup_seqZ_lt by lia. by rewrite Z2Nat.id, Z.add_0_l by lia. }
  cbn [concat]. unfold f, FsTree.chk, chk_bytes. set (c := chk_of _). assert (Lk : length (chk_key c) = 64%nat /\ length (chk_query c) = 64%nat).
  { unfold c, chk_of, GNUNET_CRYPTO_hash. cbn. by rewrite !gcry_hash_length. }
  destruct c as [k q]. cbn in *. destruct Lk as [Lk Lq]. rewrite <- !app_assoc. rewrite take_app_length' by lia. rewrite (drop_app_length' k) by lia. by rewrite take_app_length' by lia.
Qed.

(** The requests [l] are made active. *)
Lemma trigger_ok fuel pt l dc act : (0 < fuel)%nat -> issue_requests dc = true -> dc_active dc = Some act -> NoDup l ->
  (forall c, c ∈ l -> exists r, dc_requests dc !! c = Some r /\ dr_state r = BRS_INIT /\ (dr_chk_idx r + 1) * 128 <= Z.of_nat (length pt) /\ forall q, (q, c) ∉ act) ->
  exists rs' act' out, trigger_children fuel pt l dc = Some (set_active (Some act') (set_requests rs' dc), out)
    /\ (forall b, b ∉ l -> rs' !! b = dc_requests dc !! b)
    /\ (forall c r, c ∈ l -> dc_requests dc !! c = Some r -> rs' !! c = Some (set_state BRS_CHK_SET (set_chk (chk_at pt (dr_chk_idx r)) r)))
    /\ (forall q b, (q, b) ∈ act' <-> (q, b) ∈ act \/ exists r, b ∈ l /\ dc_requests dc !! b = Some r /\ q = chk_query (chk_at pt (dr_chk_idx r)))
    /\ (NoDup act -> NoDup act').
Proof.
  intros Hf. revert dc act. induction l as [|c l IH]; intros dc act Hi Ha HN Hl; cbn [trigger_children].
  { exists (dc_requests dc), act, []. split_and!; [destruct dc; cbn in *; by subst|done|by intros c r ?%elem_of_nil| |done]. intros q b. split; [by left|].
    by intros [?|(r & ?%elem_of_nil & _)]. }
  apply NoDup_cons in HN as [Hc HN]. destruct (Hl c) as (r & Hr & Hinit & Hidx & Hact); [by left|]. rewrite Hr, bool_decide_eq_true_2 by done.
  unfold sizeof_ContentHashKey. rewrite (proj2 (Z.leb_le _ _)) by done. change (issue_requests (set_requests _ dc)) with (issue_requests dc). rewrite Hi.
  set (r' := set_state BRS_CHK_SET (set_chk (chk_at pt (dr_chk_idx r)) r)). set (dc1 := set_requests (<[c := r']> (dc_requests dc)) dc).
  set (q0 := chk_query (chk_at pt (dr_chk_idx r))). set (dc2 := set_active (Some ((q0, c) :: act)) dc1).
  assert (exists out, schedule_block_download fuel c dc1 = Some (dc2, out)) as (out & ->).
  { destruct fuel as [|fuel]; [lia|]. cbn [schedule_block_download]. change (dc_requests dc1) with (<[c := r']> (dc_requests dc)). rewrite lookup_insert_eq.
    change (dr_state r') with BRS_CHK_SET. cbv iota. change (dc_active dc1) with (dc_active dc). rewrite Ha. change (chk_query (dr_chk r')) with q0.
    rewrite bool_decide_eq_false_2 by apply Hact. fold dc2. destruct (dc_mq dc2); by eexists. }
  destruct (IH dc2 ((q0, c) :: act)) as (rs' & act' & out' & -> & Hb & Hin & Hel & Hnd); [done|done|done| |].
  { intros c' Hc'. destruct (Hl c') as (x & Hx & ? & ? & Hn); [by right|]. exists x. change (dc_requests dc2) with (<[c := r']> (dc_requests dc)).
    rewrite lookup_insert_ne by (by intros ->). split_and!; [done|done|done|]. intros q [[= -> ->]|?]%elem_of_cons; [done|by eapply Hn]. }
  change (dc_requests dc2) with (<[c := r']> (dc_requests dc)) in *. exists rs', act', (out ++ out'). split_and!; [done| | | |].
  - intros b [Hbc Hbl]%not_elem_of_cons. rewrite Hb by done. by rewrite lookup_insert_ne.
  - intros c' x [->|Hc']%elem_of_cons Hx.
    + rewrite Hb by done. rewrite lookup_insert_eq. by assert (x = r) as -> by congruence.
    + apply Hin; [done|]. by rewrite lookup_insert_ne by (by intros ->).
  - intros q b. rewrite Hel, elem_of_cons. setoid_rewrite elem_of_cons. split.
    + intros [[[= -> ->]|?]|(x & Hbl & Hx & ->)]; [right; exists r; auto|by left|]. right. exists x. rewrite lookup_insert_ne in Hx by (by intros ->). auto.
    + intros [?|(x & [->|Hbl] & Hx & ->)]; [by left; right| |].
      * left. left. assert (x = r) as -> by congruence. done.
      * right. exists x. rewrite lookup_insert_ne by (by intros ->). auto.
  - intros Hn. apply Hnd. constructor; [apply Hact|done].
Qed.

(** ** The invariant *)

(** [got]: the offsets of the blocks of data that have arrived. *)
Record core_ok (top : Z) (rs : requests) (act : list (list Z * Z)) (completed : Z) (file : list Z) (got : list Z) : Prop := {
  ok_tree : tree_ok rs top;
  ok_states : states_ok rs;
  ok_top : forall r, rs !! top = Some r -> dr_state r <> BRS_INIT;
  ok_chk : forall a r d m, rs !! a = Some r -> request_ok rs a r d m -> dr_state r <> BRS_INIT -> dr_chk r = chk d (m * span d);
  ok_active : forall q a, (q, a) ∈ act <-> exists r, rs !! a = Some r /\ dr_state r = BRS_CHK_SET /\ q = chk_query (dr_chk r);
  ok_nodup : NoDup act;
  ok_up : forall a, up_ok rs a;
  ok_got_nodup : NoDup got;
  ok_got : forall o, o ∈ got <-> exists a r m, rs !! a = Some r /\ request_ok rs a r 0 m /\ o = m * span 0 /\ dr_state r = BRS_DOWNLOAD_UP;
  ok_completed : completed = total got;
  ok_file : forall o i, o ∈ got -> o <= i < o + block_length o -> file !! Z.to_nat i = data !! Z.to_nat i;
}.

Lemma got_offset top rs act completed file got o : core_ok top rs act completed file got -> o ∈ got -> o ∈ data_offsets.
Proof.
  intros Hc Ho. apply (ok_got _ _ _ _ _ _ Hc) in Ho as (a & r & m & _ & Hok & -> & _). apply data_offsets_elem. exists m. split_and!; [apply Hok|done|]. apply (ro_lt _ _ _ _ _ Hok).
Qed.

(** Leaves are never in the state "down". *)
Lemma leaf_not_down rs b rb m : up_ok rs b -> rs !! b = Some rb -> request_ok rs b rb 0 m -> dr_state rb <> BRS_DOWNLOAD_DOWN.
Proof. intros Hu Hb Hok Hd. apply (Hu rb Hb); [done|]. rewrite (ro_leaf _ _ _ _ _ Hok) by done. by intros c ?%elem_of_nil. Qed.

(** Requests other than [a] that wait keep their keys, and [a] does not wait any more. *)
Definition advanced (rs rs' : requests) (a : Z) : Prop :=
  (forall b rb, b <> a -> rs !! b = Some rb -> dr_state rb = BRS_CHK_SET -> rs' !! b = Some rb)
  /\ (forall b rb', rs' !! b = Some rb' -> waiting rb' -> b <> a /\ exists rb, rs !! b = Some rb /\ waiting rb).

Definition leave (q : list Z) (a : Z) (act : list (list Z * Z)) : list (list Z * Z) := filter (fun e => e <> (q, a)) act.

Lemma all_up_same rs rs' cs : (forall c rc, rs !! c = Some rc -> dr_state rc = BRS_DOWNLOAD_UP -> exists rc', rs' !! c = Some rc' /\ dr_state rc' = BRS_DOWNLOAD_UP) ->
  all_up rs cs -> all_up rs' cs.
Proof. intros Hs Hu c Hc. destruct (Hu c Hc) as (rc & Hrc & E). by eapply Hs. Qed.

(** The same requests in other states. *)
Definition same_shape (rs rs' : requests) : Prop := forall b, shape <$> rs' !! b = shape <$> rs !! b.

Lemma same_shape_sym rs rs' : same_shape rs rs' -> same_shape rs' rs.
Proof. intros Hs b. symmetry. apply Hs. Qed.

Lemma same_shape_insert rs a r r' : rs !! a = Some r -> shape r' = shape r -> same_shape rs (<[a := r']> rs).
Proof. intros Hr Hs b. destruct (decide (b = a)) as [->|Hb]; [rewrite lookup_insert_eq, Hr; cbn; by rewrite Hs|by rewrite lookup_insert_ne]. Qed.

Lemma same_request rs rs' b rb d m : same_shape rs rs' -> rs !! b = Some rb -> request_ok rs b rb d m -> exists rb', rs' !! b = Some rb' /\ request_ok rs' b rb' d m.
Proof.
  intros Hs Hb Hok. pose proof (Hs b) as Hsb. rewrite Hb in Hsb. destruct (rs' !! b) as [rb'|] eqn:Eb; [|done]. injection Hsb as A1 A2 A3 A4 A5. exists rb'. split; [done|].
  eapply request_ok_shape; [exact Hs| |exact Hok]. unfold shape. congruence.
Qed.

Lemma same_lookup rs rs' b rb' : same_shape rs rs' -> rs' !! b = Some rb' -> exists rb, rs !! b = Some rb.
Proof. intros Hs Hb. pose proof (Hs b) as Hsb. rewrite Hb in Hsb. destruct (rs !! b) as [rb|]; [by exists rb|done]. Qed.

(** A leaf leaves the state in which it waits. *)
Lemma leaf_states rs a r : states_ok rs -> rs !! a = Some r -> dr_children r = [] -> dr_state r = BRS_CHK_SET -> states_ok (<[a := set_state BRS_DOWNLOAD_DOWN r]> rs).
Proof.
  intros Hss Hr Hleaf Hst. set (rs1 := <[a := _]> rs). pose proof (same_shape_insert rs a r (set_state BRS_DOWNLOAD_DOWN r) Hr eq_refl) as Hsh. fold rs1 in Hsh.
  assert (K1a : rs1 !! a = Some (set_state BRS_DOWNLOAD_DOWN r)) by apply lookup_insert_eq.
  assert (K1 : forall b, b <> a -> rs1 !! b = rs !! b) by (intros b Hb; unfold rs1; by rewrite lookup_insert_ne). split.
  - intros b rb Hb. destruct (decide (b = a)) as [->|Hba]; [rewrite K1a in Hb; injection Hb as <-; auto|]. rewrite K1 in Hb by done. by apply (proj1 Hss b).
  - intros p rp' d b rb' Hb. destruct (below_shape rs rs1 p rp' d b rb' Hsh Hb) as (rp & rb & Hbel & Hp' & Hb'). pose proof Hbel as (Hp & Hco & _ & Hcp).
    assert (Hpa : p <> a) by (intros ->; assert (rp = r) as -> by congruence; by rewrite Hleaf in Hcp). rewrite K1 in Hp' by done. assert (rp' = rp) as -> by congruence.
    rewrite <- (proj2 Hss p rp d b rb Hbel). pose proof (co_lookup _ _ _ _ _ _ _ Hco) as Hl. destruct (decide (b = a)) as [->|Hba].
    + rewrite K1a in Hb'. injection Hb' as <-. assert (rb = r) as -> by congruence. cbn. by rewrite Hst.
    + rewrite K1 in Hb' by done. by assert (rb' = rb) as -> by congruence.
Qed.

(** A leaf that waits is completed. *)
Lemma leaf_done top rs a r m : tree_ok rs top -> states_ok rs -> (forall b, up_ok rs b) -> rs !! a = Some r -> request_ok rs a r 0 m -> dr_state r = BRS_CHK_SET ->
  exists rs' r', propagate_up (S dd) a (<[a := set_state BRS_DOWNLOAD_DOWN r]> rs) = Some rs' /\ same_shape rs rs' /\ states_ok rs' /\ (forall b, up_ok rs' b)
    /\ rs' !! a = Some r' /\ dr_state r' = BRS_DOWNLOAD_UP /\ dr_chk r' = dr_chk r
    /\ forall b rb rb', b <> a -> rs !! b = Some rb -> rs' !! b = Some rb' -> dr_chk rb' = dr_chk rb
         /\ (rb' = rb \/ dr_state rb = BRS_DOWNLOAD_DOWN /\ dr_state rb' = BRS_DOWNLOAD_UP).
Proof.
  intros Ht Hss Hup Hr Hok Hst. pose proof (ro_leaf _ _ _ _ _ Hok eq_refl) as Hleaf. pose proof (leaf_states rs a r Hss Hr Hleaf Hst) as Hss1.
  pose proof (same_shape_insert rs a r (set_state BRS_DOWNLOAD_DOWN r) Hr eq_refl) as Hsh1. set (rs1 := <[a := set_state BRS_DOWNLOAD_DOWN r]> rs) in *.
  assert (K1a : rs1 !! a = Some (set_state BRS_DOWNLOAD_DOWN r)) by apply lookup_insert_eq.
  assert (K1 : forall b, b <> a -> rs1 !! b = rs !! b) by (intros b Hb; unfold rs1; by rewrite lookup_insert_ne).
  assert (Hallsame : forall cs, all_up rs1 cs <-> all_up rs cs).
  { intros cs. split; apply all_up_same; intros c rc Hrc Hu; (destruct (decide (c = a)) as [->|Hca]; [|exists rc; by rewrite ?K1 in * by done]).
    - rewrite K1a in Hrc. by injection Hrc as <-.
    - congruence. }
  destruct (propagate_ok top (S dd) a (set_state BRS_DOWNLOAD_DOWN r) rs1 0 m (tree_ok_shape rs rs1 top Hsh1 Ht) Hss1 K1a) as (rs' & E & Hraise & Hup' & r' & Hr' & Hr'u); try done.
  { apply (request_ok_shape rs rs1 a r); [exact Hsh1|done|exact Hok]. }
  { lia. }
  { lia. }
  { cbn. rewrite Hleaf. by intros c ?%elem_of_nil. }
  { intros b Hb rb Hrb. rewrite K1 in Hrb by done. rewrite !Hallsame. by apply (Hup b). }
  exists rs', r'. split_and!; try done.
  - intros b. by rewrite (proj1 (Hraise b)), Hsh1.
  - by eapply raised_states.
  - destruct (proj2 (Hraise a) _ K1a) as (x & Hx & Hxc & _). assert (x = r') as -> by congruence. done.
  - intros b rb rb' Hba Hb Hb'. destruct (proj2 (Hraise b) rb) as (x & Hx & Hxc & Hxs); [by rewrite K1|]. assert (x = rb') as -> by congruence. split; [done|].
    pose proof (proj1 (Hraise b)) as Hs. rewrite Hb', K1, Hb in Hs by done. injection Hs as A1 A2 A3 A4 A5. destruct Hxs as [Es|?]; [left|by right].
    destruct rb, rb'. cbn in *. by subst.
Qed.

Lemma leave_elem q a act e : e ∈ leave q a act <-> e ∈ act /\ e <> (q, a).
Proof. unfold leave. rewrite list_elem_of_filter. tauto. Qed.

Lemma plain_0_lookup m i : 0 <= m -> m * span 0 <= i < m * span 0 + block_length (m * span 0) -> plain 0 (m * span 0) !! (Z.to_nat i - Z.to_nat (m * span 0))%nat = data !! Z.to_nat i.
Proof. intros Hm Hi. cbn [FsTree.plain]. unfold block_length in Hi. change (span 0) with 32768 in *. rewrite lookup_slice by lia. f_equal. lia. Qed.

(** Blocks that were written stay when another is. *)
Lemma file_extended got m file : let o := m * span 0 in 0 <= m -> o < size -> o ∉ got -> (forall x, x ∈ got -> x ∈ data_offsets) ->
  (forall x i, x ∈ got -> x <= i < x + block_length x -> file !! Z.to_nat i = data !! Z.to_nat i) ->
  forall x i, x ∈ o :: got -> x <= i < x + block_length x -> write_at (Z.to_nat o) (plain 0 o) file !! Z.to_nat i = data !! Z.to_nat i.
Proof.
  intros o Hm Hlt Hnew Hgoto Hfile x i Hx Hi. assert (Hor : 0 <= o < size) by (split; [unfold o; change (span 0) with 32768; lia|done]).
  assert (Hlen : Z.of_nat (length (plain 0 o)) = block_length o) by (apply length_plain_0; lia). apply elem_of_cons in Hx as [->|Hx].
  - replace (Z.to_nat i) with (Z.to_nat o + (Z.to_nat i - Z.to_nat o))%nat at 1 by lia.
    destruct (lookup_lt_is_Some_2 data (Z.to_nat i)) as [y Hy]; [unfold block_length in Hi; lia|]. rewrite Hy. apply write_at_new. rewrite <- Hy. by apply plain_0_lookup.
  - pose proof (Hfile x i Hx Hi) as Hf. destruct (proj1 (data_offsets_elem x) (Hgoto x Hx)) as (mx & Hmx & Ex & Hxlt).
    destruct (lookup_lt_is_Some_2 data (Z.to_nat i)) as [y Hy]; [unfold block_length in Hi; change (span 0) with 32768 in *; lia|]. rewrite Hy in *. apply write_at_old; [done|].
    assert (mx <> m) by (intros ->; subst x; done). unfold block_length, o, DBLOCK_SIZE in *. change (span 0) with 32768 in *. lia.
Qed.

Lemma data_arrives top rs act completed file got a r m : core_ok top rs act completed file got -> rs !! a = Some r -> request_ok rs a r 0 m -> dr_state r = BRS_CHK_SET ->
  exists rs', propagate_up (S dd) a (<[a := set_state BRS_DOWNLOAD_DOWN r]> rs) = Some rs' /\ advanced rs rs' a
    /\ completed + block_length (m * span 0) <= size
    /\ core_ok top rs' (leave (chk_query (dr_chk r)) a act) (completed + block_length (m * span 0)) (write_at (Z.to_nat (m * span 0)) (plain 0 (m * span 0)) file) (m * span 0 :: got).
Proof.
  intros Hc Hr Hok Hst. pose proof Hc as [Ht Hss Htp Hchk Hact Hnd Hup Hgn Hgot Hcomp Hfile].
  destruct (leaf_done top rs a r m Ht Hss Hup Hr Hok Hst) as (rs' & r' & E & Hsh & Hss' & Hup' & Hr' & Hu' & Hc' & Hoth). exists rs'. split; [done|].
  pose proof (tree_ok_shape rs rs' top Hsh Ht) as Ht'. set (o := m * span 0) in *.
  assert (Ho : o ∈ data_offsets) by (apply data_offsets_elem; exists m; split_and!; [apply Hok|done|apply (ro_lt _ _ _ _ _ Hok)]).
  assert (Hnew : o ∉ got).
  { intros (a' & x & m' & Hx & Hxok & Eo & Hxu)%Hgot. assert (m' = m) as -> by (unfold o in Eo; change (span 0) with 32768 in Eo; lia).
    assert (a' = a) as -> by (by eapply (request_unique rs top Ht a' a x r 0 m); [lia|..]). congruence. }
  assert (Hgoto : forall x, x ∈ got -> x ∈ data_offsets) by (intros x Hx; by eapply got_offset).
  split; [split|split].
  - intros b rb Hba Hb Hbs. destruct (same_lookup rs' rs b rb (same_shape_sym _ _ Hsh) Hb) as [rb' Hb']. destruct (Hoth b rb rb' Hba Hb Hb') as [_ [->|[Hd _]]]; [done|congruence].
  - intros b rb' Hb' Hw. destruct (decide (b = a)) as [->|Hba]; [assert (rb' = r') as -> by congruence; unfold waiting in Hw; rewrite Hu' in Hw; intuition discriminate|]. split; [done|].
    destruct (same_lookup rs rs' b rb' Hsh Hb') as [rb Hb]. exists rb. split; [done|]. destruct (Hoth b rb rb' Hba Hb Hb') as [_ [->|[_ Hd]]]; [done|]. unfold waiting in Hw. rewrite Hd in Hw. intuition discriminate.
  - rewrite Hcomp. by apply total_lt.
  - split; try done.
    + intros x Hx. destruct (decide (top = a)) as [->|Hne]; [assert (x = r') as -> by congruence; by rewrite Hu'|]. destruct (same_lookup rs rs' top x Hsh Hx) as [y Hy].
      destruct (Hoth top y x Hne Hy Hx) as [_ [->|[_ Hd]]]; [by apply Htp|by rewrite Hd].
    + intros b rb' d' m' Hb' Hbok Hbs. destruct (same_lookup rs rs' b rb' Hsh Hb') as [rb Hb].
      destruct (same_request rs' rs b rb' d' m' (same_shape_sym _ _ Hsh) Hb' Hbok) as (rb2 & Hb2 & Hbok2). assert (rb2 = rb) as -> by congruence. destruct (decide (b = a)) as [->|Hba].
      * assert (rb' = r') as -> by congruence. assert (rb = r) as -> by congruence. rewrite Hc'. apply (Hchk a r); [done|done|by rewrite Hst].
      * destruct (Hoth b rb rb' Hba Hb Hb') as [-> Hor]. apply (Hchk b rb); [done|done|]. destruct Hor as [->|[-> _]]; done.
    + intros q b. rewrite leave_elem, Hact. split.
      * intros [(rb & Hb & Hbs & ->) Hne]. destruct (decide (b = a)) as [->|Hba]; [by assert (rb = r) as -> by congruence|].
        destruct (same_lookup rs' rs b rb (same_shape_sym _ _ Hsh) Hb) as [rb' Hb']. exists rb'. destruct (Hoth b rb rb' Hba Hb Hb') as [-> [->|[Hd _]]]; [done|congruence].
      * intros (rb' & Hb' & Hbs & ->). destruct (decide (b = a)) as [->|Hba]; [assert (rb' = r') as -> by congruence; congruence|]. destruct (same_lookup rs rs' b rb' Hsh Hb') as [rb Hb].
        destruct (Hoth b rb rb' Hba Hb Hb') as [_ [->|[_ Hd]]]; [|congruence]. split; [by exists rb|]. by intros [= _ ->].
    + by apply NoDup_filter.
    + by constructor.
    + intros x. rewrite elem_of_cons, Hgot. split.
      * intros [->|(b & rb & m' & Hb & Hbok & -> & Hbu)].
        -- destruct (same_request rs rs' a r 0 m Hsh Hr Hok) as (y & Hy & Hyok). assert (y = r') as -> by congruence. by exists a, r', m.
        -- destruct (same_request rs rs' b rb 0 m' Hsh Hb Hbok) as (y & Hy & Hyok). exists b, y, m'. split_and!; try done. destruct (decide (b = a)) as [->|Hba]; [congruence|].
           destruct (Hoth b rb y Hba Hb Hy) as [_ [->|[_ Hd]]]; done.
      * intros (b & rb' & m' & Hb' & Hbok & -> & Hbu). destruct (same_request rs' rs b rb' 0 m' (same_shape_sym _ _ Hsh) Hb' Hbok) as (rb & Hb & Hbok').
        destruct (decide (b = a)) as [->|Hba].
        -- left. assert (rb = r) as -> by congruence. unfold o. f_equal. by destruct (depth_unique _ _ _ _ _ _ _ Hok Hbok').
        -- right. exists b, rb, m'. split_and!; try done. destruct (Hoth b rb rb' Hba Hb Hb') as [_ [->|[Hd _]]]; [done|]. by destruct (leaf_not_down rs b rb m' (Hup b) Hb Hbok').
    + rewrite total_cons, Hcomp. lia.
    + apply (file_extended got m file); [apply Hok|apply (ro_lt _ _ _ _ _ Hok)|done|done|done].
Qed.

(** What becomes of the requests when the block of keys [a] arrives. *)
Inductive keys_change (a : Z) (cs : list Z) (b : Z) (rb rb' : DownloadRequest) : Prop :=
  | kc_self : b = a -> rb' = set_state BRS_DOWNLOAD_DOWN rb -> keys_change a cs b rb rb'
  | kc_child : b <> a -> b ∈ cs -> dr_state rb = BRS_INIT -> dr_state rb' = BRS_CHK_SET -> keys_change a cs b rb rb'
  | kc_other : b <> a -> b ∉ cs -> rb' = rb -> keys_change a cs b rb rb'.

Section Keys.
Context (top : Z) (rs rs' : requests) (a : Z) (r : DownloadRequest) (d : nat) (m : Z).
Context (Ht : tree_ok rs top) (Hss : states_ok rs) (Hup : forall b, up_ok rs b) (Hr : rs !! a = Some r) (Hok : request_ok rs a r (S d) m) (Hst : dr_state r = BRS_CHK_SET).
Context (Hsh : same_shape rs rs') (Hch : forall b rb rb', rs !! b = Some rb -> rs' !! b = Some rb' -> keys_change a (dr_children r) b rb rb').

Lemma keys_child c : c ∈ dr_children r -> exists rc, below rs a r d c rc /\ dr_state rc = BRS_INIT.
Proof.
  intros Hc. destruct (child_parent rs top a r c Ht Hr Hc) as (rc & d' & Hb). pose proof Hb as (_ & _ & Hd & _). rewrite (ro_depth _ _ _ _ _ Hok) in Hd.
  assert (d' = d) as -> by lia. exists rc. split; [done|]. apply (proj2 Hss _ _ _ _ _ Hb). by right.
Qed.

Lemma keys_forward b rb : rs !! b = Some rb -> exists rb', rs' !! b = Some rb' /\ keys_change a (dr_children r) b rb rb'.
Proof. intros Hb. destruct (same_lookup rs' rs b rb (same_shape_sym _ _ Hsh) Hb) as [rb' Hb']. exists rb'. split; [done|]. by apply Hch. Qed.

Lemma keys_back b rb' : rs' !! b = Some rb' -> exists rb, rs !! b = Some rb /\ keys_change a (dr_children r) b rb rb'.
Proof. intros Hb'. destruct (same_lookup rs rs' b rb' Hsh Hb') as [rb Hb]. exists rb. split; [done|]. by apply Hch. Qed.

Lemma keys_advanced : advanced rs rs' a.
Proof.
  split.
  - intros b rb Hba Hb Hbs. destruct (keys_forward b rb Hb) as (rb' & Hb' & [?|_ Hin Hi _|_ _ ->]); [done|congruence|done].
  - intros b rb' Hb' Hw. destruct (keys_back b rb' Hb') as (rb & Hb & [-> ->|Hba _ Hi _|Hba _ ->]).
    + unfold waiting in Hw. cbn in Hw. intuition discriminate.
    + split; [done|]. exists rb. split; [done|by left].
    + split; [done|]. by exists rb.
Qed.

Lemma keys_states : states_ok rs'.
Proof.
  split.
  - intros b rb' Hb'. destruct (keys_back b rb' Hb') as (rb & Hb & [_ ->|_ _ _ Hs|_ _ ->]); [by right; left|left; by right|by apply (proj1 Hss b)].
  - intros p rp' d' b rb' Hb. destruct (below_shape rs rs' p rp' d' b rb' Hsh Hb) as (rp & rb & Hbel & Hp' & Hb'). pose proof Hbel as (Hp & Hco & _ & Hcp).
    pose proof (co_lookup _ _ _ _ _ _ _ Hco) as Hl. pose proof (proj2 Hss _ _ _ _ _ Hbel) as Hw. pose proof (Hch b rb rb' Hl Hb') as Cb. pose proof (Hch p rp rp' Hp Hp') as Cp.
    assert (Hin : b ∈ dr_children rp) by (by eapply list_elem_of_lookup_2). destruct Cp as [-> ->|Hpa Hpc Hpi Hps|Hpa Hpc ->].
    + assert (rp = r) as -> by congruence. unfold waiting. cbn. split; [|intuition discriminate]. intros Hi.
      destruct Cb as [-> ->|_ _ _ Hs|_ Hn _]; [done|congruence|done].
    + unfold waiting. split; [by right|]. intros _. assert (Hbi : dr_state rb = BRS_INIT) by (apply Hw; by left). destruct Cb as [-> ->|_ Hbc _ _|_ _ ->]; [|exfalso|done].
      * assert (rb = r) as -> by congruence. congruence.
      * destruct (keys_child b Hbc) as (rc & (_ & Hco' & _) & _). pose proof (co_lookup _ _ _ _ _ _ _ Hco'). assert (rc = rb) as -> by congruence.
        pose proof (co_parent _ _ _ _ _ _ _ Hco'). pose proof (co_parent _ _ _ _ _ _ _ Hco). congruence.
    + destruct Cb as [-> ->|_ Hbc _ _|_ _ ->]; [|exfalso|done].
      * assert (rb = r) as -> by congruence. cbn. rewrite <- Hw, Hst. done.
      * destruct (keys_child b Hbc) as (rc & (_ & Hco' & _) & _). pose proof (co_lookup _ _ _ _ _ _ _ Hco'). assert (rc = rb) as -> by congruence.
        pose proof (co_parent _ _ _ _ _ _ _ Hco'). pose proof (co_parent _ _ _ _ _ _ _ Hco). congruence.
Qed.

Lemma keys_up b : up_ok rs' b.
Proof.
  assert (Hall : forall cs, all_up rs' cs <-> all_up rs cs).
  { intros cs. split; apply all_up_same; intros c rc Hrc Hu.
    - destruct (keys_back c rc Hrc) as (x & Hx & [_ ->|_ _ _ Hs|_ _ ->]); [done|congruence|by exists x].
    - destruct (keys_forward c rc Hrc) as (x & Hx & [-> ->|_ _ Hi _|_ _ ->]); [assert (rc = r) as -> by congruence; congruence|congruence|by exists rc]. }
  intros rb' Hb'. rewrite !Hall. destruct (keys_back b rb' Hb') as (rb & Hb & [-> ->|_ _ _ Hs|_ _ ->]).
  - assert (rb = r) as -> by congruence. cbn. split; [done|]. intros _ Hu. pose proof (ro_count _ _ _ _ _ Hok d eq_refl) as Hlen. rewrite (ro_offset _ _ _ _ _ Hok) in Hlen.
    pose proof (children_range data d (m * span (S d)) (ro_lt _ _ _ _ _ Hok)). destruct (lookup_lt_is_Some_2 (dr_children r) 0) as [c Hc]; [lia|]. apply list_elem_of_lookup_2 in Hc.
    destruct (keys_child c Hc) as (rc & (_ & Hco & _) & Hi). destruct (Hu c Hc) as (x & Hx & Hxu). pose proof (co_lookup _ _ _ _ _ _ _ Hco). congruence.
  - rewrite Hs. by split.
  - by apply (Hup b).
Qed.

Lemma keys_arrive act act' completed file file' got : core_ok top rs act completed file got ->
  (forall c rc', c ∈ dr_children r -> rs' !! c = Some rc' -> dr_chk rc' = chk_at (plain (S d) (m * span (S d))) (dr_chk_idx rc')) ->
  (forall q b, (q, b) ∈ act' <-> (q, b) ∈ leave (chk_query (dr_chk r)) a act \/ exists rb', b ∈ dr_children r /\ rs' !! b = Some rb' /\ q = chk_query (dr_chk rb')) ->
  NoDup act' -> (forall i x, file !! i = Some x -> (i < length data)%nat -> file' !! i = Some x) -> core_ok top rs' act' completed file' got.
Proof.
  intros [_ _ Htp Hchk Hact Hnd _ Hgn Hgot Hcomp Hfile] Hcc Hact' Hnd' Hf. split; try done.
  - by eapply tree_ok_shape.
  - apply keys_states.
  - intros x Hx. destruct (keys_back top x Hx) as (y & Hy & [_ ->|_ _ _ Hs|_ _ ->]); [done|congruence|by apply Htp].
  - intros b rb' d' m' Hb' Hbok Hbs. destruct (same_request rs' rs b rb' d' m' (same_shape_sym _ _ Hsh) Hb' Hbok) as (rb & Hb & Hbok').
    destruct (Hch b rb rb' Hb Hb') as [-> ->|_ Hin _ _|_ _ ->]; [|clear Hb|by apply (Hchk b rb)].
    + cbn. apply (Hchk a rb); [done|done|]. by assert (rb = r) as -> by congruence; rewrite Hst.
    + rewrite (Hcc b rb' Hin Hb'). destruct (keys_child b Hin) as (rc & (_ & Hco & _ & Hcp) & _). pose proof (Hsh b) as Hs. rewrite Hb', (co_lookup _ _ _ _ _ _ _ Hco) in Hs.
      injection Hs as A1 A2 A3 A4 A5. rewrite A5, (co_idx _ _ _ _ _ _ _ Hco). apply lookup_lt_Some in Hcp. rewrite (ro_count _ _ _ _ _ Hok d eq_refl), (ro_offset _ _ _ _ _ Hok) in Hcp.
      rewrite chk_at_eq by lia. assert (d' = d) as -> by (apply Nat2Z.inj; rewrite <- (ro_depth _ _ _ _ _ Hbok), A4; apply Hco). f_equal.
      rewrite <- (ro_offset _ _ _ _ _ Hbok), A3, (co_offset _ _ _ _ _ _ _ Hco), (ro_offset _ _ _ _ _ Hok). done.
  - intros q b. rewrite Hact', leave_elem, Hact. split.
    + intros [[(rb & Hb & Hbs & ->) Hne]|(rb' & Hin & Hb' & ->)].
      * destruct (keys_forward b rb Hb) as (rb' & Hb' & [-> _|_ _ Hi _|_ _ ->]); [by assert (rb = r) as -> by congruence|congruence|by exists rb].
      * destruct (keys_back b rb' Hb') as (rb & Hb & [-> _|_ _ _ Hs|_ Hn _]); [|by exists rb'|done]. destruct (keys_child a Hin) as (rc & (_ & Hco & Hd & _) & _).
        assert (rc = r) as -> by (pose proof (co_lookup _ _ _ _ _ _ _ Hco); congruence). rewrite (co_depth _ _ _ _ _ _ _ Hco) in Hd. lia.
    + intros (rb' & Hb' & Hbs & ->). destruct (keys_back b rb' Hb') as (rb & Hb & [_ ->|_ Hin _ _|Hba _ ->]); [done|right; by exists rb'|]. left. split; [by exists rb|]. by intros [= _ ->].
  - apply keys_up.
  - intros o. rewrite Hgot. split.
    + intros (b & rb & m' & Hb & Hbok & -> & Hbu). destruct (same_request rs rs' b rb 0 m' Hsh Hb Hbok) as (rb' & Hb' & Hbok'). exists b, rb', m'. split_and!; try done.
      destruct (Hch b rb rb' Hb Hb') as [-> ->|_ _ Hi _|_ _ ->]; [assert (rb = r) as -> by congruence; congruence|congruence|done].
    + intros (b & rb' & m' & Hb' & Hbok & -> & Hbu). destruct (same_request rs' rs b rb' 0 m' (same_shape_sym _ _ Hsh) Hb' Hbok) as (rb & Hb & Hbok'). exists b, rb, m'. split_and!; try done.
      destruct (Hch b rb rb' Hb Hb') as [_ ->|_ _ _ Hs|_ _ ->]; [done|congruence|done].
  - intros o i Ho Hi. pose proof (Hfile o i Ho Hi) as E. apply Hgot in Ho as (b & rb & m' & _ & Hbok & -> & _). pose proof (ro_lt _ _ _ _ _ Hbok). pose proof (ro_m _ _ _ _ _ Hbok).
    assert (Hlt : (Z.to_nat i < length data)%nat) by (unfold block_length in Hi; change (span 0) with 32768 in *; lia). destruct (lookup_lt_is_Some_2 data _ Hlt) as [y Hy]. rewrite Hy in *. by apply Hf.
Qed.
End Keys.
(** ** Blocks arrive *)

(** While a request waits, a block of data below it has not arrived. *)
Lemma waiting_incomplete top rs act completed file got a r d m : core_ok top rs act completed file got -> rs !! a = Some r -> request_ok rs a r d m -> waiting r -> completed < size.
Proof.
  intros Hc. pose proof Hc as [Ht Hss _ _ _ _ _ Hgn Hgot Hcomp _]. revert a r m. induction d as [|d IH]; intros a r m Hr Hok Hw.
  - assert (Ho : m * span 0 ∈ data_offsets) by (apply data_offsets_elem; exists m; split_and!; [apply Hok|done|apply (ro_lt _ _ _ _ _ Hok)]).
    assert (Hn : m * span 0 ∉ got).
    { intros (a' & x & m' & Hx & Hxok & Eo & Hxu)%Hgot. assert (m' = m) as -> by (change (span 0) with 32768 in Eo; lia).
      assert (a' = a) as -> by (by eapply (request_unique rs top Ht a' a x r 0 m); [lia|..]). assert (x = r) as -> by congruence. destruct Hw; congruence. }
    pose proof (total_lt got (m * span 0) Hgn (fun o => got_offset _ _ _ _ _ _ o Hc) Ho Hn). pose proof (offsets_positive _ Ho). lia.
  - pose proof (ro_count _ _ _ _ _ Hok d eq_refl) as Hlen. rewrite (ro_offset _ _ _ _ _ Hok) in Hlen. pose proof (children_range data d (m * span (S d)) (ro_lt _ _ _ _ _ Hok)).
    destruct (lookup_lt_is_Some_2 (dr_children r) 0) as [c Hcl]; [lia|]. destruct (child_parent rs top a r c Ht Hr (list_elem_of_lookup_2 _ _ _ Hcl)) as (rc & d' & Hb).
    pose proof Hb as (_ & Hco & Hd & _). rewrite (ro_depth _ _ _ _ _ Hok) in Hd. assert (d' = d) as -> by lia. pose proof (co_lookup _ _ _ _ _ _ _ Hco) as Hrc.
    destruct (to_all _ _ Ht c rc Hrc) as (d' & m' & _ & Hokc & _). assert (d' = d) as -> by (apply Nat2Z.inj; rewrite <- (ro_depth _ _ _ _ _ Hokc); apply Hco).
    apply (IH c rc m'); [done|done|]. left. by apply (proj2 Hss _ _ _ _ _ Hb).
Qed.

(** The download of the whole file to a file with a name, of which the intermediate blocks are stored too. *)
Record config (dc : DownloadContext) : Prop := {
  cf_uri : dc_uri dc = mk_uri (chk dd 0) (GNUNET_htonll size);
  cf_filename : dc_filename dc = true;
  cf_options : Z.land (dc_options dc) GNUNET_FS_DOWNLOAD_NO_TEMPORARIES = 0;
  cf_offset : dc_offset dc = 0;
  cf_length : dc_length dc = size;
  cf_depth : dc_treedepth dc = Z.of_nat (S dd);
  cf_issue : issue_requests dc = true;
  cf_emsg : dc_emsg dc = false;
}.

Record transfer (dc : DownloadContext) (act : list (list Z * Z)) : Prop := {
  tr_config : config dc;
  tr_active : dc_active dc = Some act;
  tr_core : exists top got, core_ok top (dc_requests dc) act (dc_completed dc) (dc_file dc) got;
}.

Definition connected (dc : DownloadContext) : Prop := dc_mq dc = true /\ dc_job dc = Running /\ dc_task dc = false.
Definition idle (dc : DownloadContext) : Prop := dc_mq dc = false /\ dc_job dc = NotQueued /\ dc_task dc = false.
Definition open (dc : DownloadContext) : Prop := (exists act, transfer dc act) /\ dc_completed dc <> size /\ has_finished dc = false.
Definition finished (dc : DownloadContext) : Prop := dc_file dc = data /\ has_finished dc = true /\ idle dc.
Definition failed (dc : DownloadContext) : Prop := dc_emsg dc = true /\ has_finished dc = false /\ idle dc.

(** What a block leads to that was expected by the request [a]. *)
Definition accepted (dc dc' : DownloadContext) (a : Z) : Prop := (exists act, transfer dc' act) /\ advanced (dc_requests dc) (dc_requests dc') a
  /\ (dc_completed dc' <> size /\ has_finished dc' = false /\ connected dc' \/ dc_completed dc' = size /\ finished dc').

Lemma file_length_eq dc : config dc -> GNUNET_ntohll (uri_file_length (dc_uri dc)) = size.
Proof. intros Hc. rewrite (cf_uri _ Hc). cbn. apply ntohll_htonll. unfold is_u64. lia. Qed.

Lemma progress_eq dc rs a r m : config dc -> request_ok rs a r 0 m -> progress_of dc r (block_length (m * span 0)) = Some (block_length (m * span 0)).
Proof.
  intros Hc Hok. unfold progress_of. rewrite (cf_offset _ Hc), (cf_length _ Hc), (ro_offset _ _ _ _ _ Hok). pose proof (ro_m _ _ _ _ _ Hok). pose proof (ro_lt _ _ _ _ _ Hok).
  unfold block_length, DBLOCK_SIZE. change (span 0) with 32768 in *. rewrite (proj2 (Z.ltb_ge (m * 32768) 0)) by lia. unfold u64. rewrite !Z.mod_small by lia.
  rewrite Z.gtb_ltb, (proj2 (Z.ltb_ge _ _)) by lia. done.
Qed.

Ltac dc_cbn := cbn [set_active set_requests set_file set_completed set_connection dc_uri dc_filename dc_options dc_offset dc_length dc_completed dc_treedepth dc_active dc_requests top_request
  dc_mq dc_job dc_task dc_file dc_emsg has_finished issue_requests].

Lemma signal_error_ok dc : connected dc -> has_finished dc = false -> exists dc' out, signal_error dc = Some (dc', out) /\ failed dc'.
Proof.
  intros (Hm & Hj & Ht) Hf. unfold signal_error. rewrite Hm. cbn [dc_job dc_task]. unfold dequeue. cbn [dc_job]. rewrite Hj. eexists _, _. split; [done|].
  unfold failed, idle. cbn. by rewrite Ht.
Qed.

(** All data has arrived. *)
Lemma complete_file top rs act completed file got : core_ok top rs act completed file got -> completed = size -> forall i, (i < length data)%nat -> file !! i = data !! i.
Proof.
  intros Hc Hdone i Hi. set (m := Z.of_nat i / 32768). pose proof (Z.div_mod (Z.of_nat i) 32768 ltac:(lia)). pose proof (Z.mod_pos_bound (Z.of_nat i) 32768 ltac:(lia)).
  assert (Ho : m * span 0 ∈ data_offsets) by (apply data_offsets_elem; exists m; unfold m; change (span 0) with 32768; split_and!; [lia|done|lia]).
  destruct (decide (m * span 0 ∈ got)) as [Hin|Hn].
  - rewrite <- (Nat2Z.id i). apply (ok_file _ _ _ _ _ _ Hc (m * span 0)); [done|]. unfold block_length, DBLOCK_SIZE, m. change (span 0) with 32768. lia.
  - pose proof (total_lt got _ (ok_got_nodup _ _ _ _ _ _ Hc) (fun o => got_offset _ _ _ _ _ _ o Hc) Ho Hn) as Hlt. rewrite <- (ok_completed _ _ _ _ _ _ Hc) in Hlt.
    pose proof (offsets_positive _ Ho). lia.
Qed.

Lemma core_ok_data top rs act completed file got : core_ok top rs act completed file got -> core_ok top rs act completed data got.
Proof. intros []. by split. Qed.

Lemma total_nonneg l : (forall o, o ∈ l -> o ∈ data_offsets) -> 0 <= total l.
Proof. intros Hl. apply (total_submseteq [] l); [|apply submseteq_nil_l]. intros o Ho. by apply offsets_positive, Hl. Qed.

(** The plaintext of a block that a request waits for. *)
Lemma block_decrypted io dc act a r d m : transfer dc act -> dc_requests dc !! a = Some r -> request_ok (dc_requests dc) a r d m -> (d <= dd)%nat -> dr_state r = BRS_CHK_SET ->
  process_result_with_request io (encrypted (plain d (m * span d))) (chk_query (dr_chk r)) a dc
    = accept_block io (plain d (m * span d)) (Z.of_nat (length (plain d (m * span d)))) a r (set_active (Some (leave (chk_query (dr_chk r)) a act)) dc).
Proof.
  intros [Hcf Hact (top & got & Hcore)] Hr Hok Hd Hst. unfold process_result_with_request. rewrite (file_length_eq dc Hcf), Hr, (ro_offset _ _ _ _ _ Hok), (ro_depth _ _ _ _ _ Hok).
  rewrite block_size_eq by (try lia; apply Hok). destruct (encrypted_eq (plain d (m * span d))) as (sk & iv & Ek & _ & Elen & Ed). rewrite Elen, Z.eqb_refl. cbn [negb]. rewrite Hact.
  rewrite (ok_chk _ _ _ _ _ _ Hcore a r d m Hr Hok) by congruence. change (chk_key (chk d (m * span d))) with (GNUNET_CRYPTO_hash (plain d (m * span d))). by rewrite Ek, Ed.
Qed.

Lemma block_of_data dc act a r m : transfer dc act -> connected dc -> has_finished dc = false -> dc_requests dc !! a = Some r -> request_ok (dc_requests dc) a r 0 m -> dr_state r = BRS_CHK_SET ->
  exists dc' out, process_result_with_request true (encrypted (plain 0 (m * span 0))) (chk_query (dr_chk r)) a dc = Some (dc', out, true) /\ accepted dc dc' a.
Proof.
  intros Htr Hconn Hfin Hr Hok Hst. rewrite (block_decrypted true dc act) by (done || lia). destruct Htr as [Hcf Hact (top & got & Hcore)].
  destruct (data_arrives _ _ _ _ _ _ a r m Hcore Hr Hok Hst) as (rs' & Ep & Hadv & Hle & Hcore'). set (off := m * span 0) in *.
  unfold accept_block. dc_cbn. rewrite (file_length_eq dc Hcf), (ro_offset _ _ _ _ _ Hok), (ro_depth _ _ _ _ _ Hok), (cf_depth _ Hcf), Nat2Z.id. fold off.
  change (compute_disk_offset size off (Z.of_nat 0)) with (Some off). change (0 =? Z.of_nat 0) with true. cbv iota. dc_cbn. rewrite (cf_filename _ Hcf), (cf_options _ Hcf). cbn [Z.eqb]. rewrite orb_true_r. cbn [andb negb].
  rewrite length_plain_0 by (split; [unfold off; pose proof (ro_m _ _ _ _ _ Hok); change (span 0) with 32768; lia|pose proof (ro_lt _ _ _ _ _ Hok); lia]).
  assert (Hpos : 0 < block_length off) by (apply offsets_positive, data_offsets_elem; exists m; split_and!; [apply Hok|done|apply (ro_lt _ _ _ _ _ Hok)]).
  fold (block_length off). rewrite (progress_eq _ (dc_requests dc) a r m) by (done || by destruct Hcf). fold off. dc_cbn.
  assert (0 <= dc_completed dc) by (rewrite (ok_completed _ _ _ _ _ _ Hcore); apply total_nonneg; intros o; by eapply got_offset).
  assert (u64 (dc_completed dc + block_length off) = dc_completed dc + block_length off) as -> by (unfold u64; rewrite Z.mod_small; lia).
  rewrite (cf_length _ Hcf), (proj2 (Z.leb_le _ _) Hle), Ep. dc_cbn. rewrite (cf_length _ Hcf).
  destruct (Z.eqb_spec (dc_completed dc + block_length off) size) as [Edone|Hmore].
  - rewrite (cf_filename _ Hcf), Nat2Z.id, (truncate_data _ (complete_file _ _ _ _ _ _ Hcore' Edone)). unfold check_completed, dequeue. dc_cbn. destruct Hconn as (Hm & Hj & Htk). rewrite Hj.
    eexists _, _. split; [done|]. split; [|split; [done|right; split; [done|split_and!; done]]]. eexists. split; [by destruct Hcf|done|]. exists top, (off :: got). dc_cbn. by eapply core_ok_data.
  - eexists _, _. split; [done|]. split; [|split; [done|left; split_and!; [done|done|done]]]. eexists. split; [by destruct Hcf|done|]. by exists top, (off :: got).
Qed.

Lemma children_nodup rs a r d m : request_ok rs a r d m -> NoDup (dr_children r).
Proof.
  intros Hok. destruct d as [|d]; [rewrite (ro_leaf _ _ _ _ _ Hok) by done; constructor|]. apply NoDup_alt. intros i j c Hi Hj.
  destruct (ro_children _ _ _ _ _ Hok d eq_refl i c Hi) as (x & Hx). destruct (ro_children _ _ _ _ _ Hok d eq_refl j c Hj) as (y & Hy).
  pose proof (co_lookup _ _ _ _ _ _ _ Hx) as Lx. pose proof (co_lookup _ _ _ _ _ _ _ Hy) as Ly. pose proof (co_idx _ _ _ _ _ _ _ Hx) as Ix. pose proof (co_idx _ _ _ _ _ _ _ Hy) as Iy.
  assert (x = y) as -> by congruence. lia.
Qed.

(** The requests below a block of keys that arrives become active. *)
Lemma trigger_block dc act top got a r d m pt : core_ok top (dc_requests dc) act (dc_completed dc) (dc_file dc) got -> issue_requests dc = true ->
  dc_requests dc !! a = Some r -> request_ok (dc_requests dc) a r (S d) m -> dr_state r = BRS_CHK_SET -> pt = plain (S d) (m * span (S d)) ->
  forall dc1, dc1 = set_requests (<[a := set_state BRS_DOWNLOAD_DOWN r]> (dc_requests dc)) (set_active (Some (leave (chk_query (dr_chk r)) a act)) dc) ->
  forall off, size <= off -> exists rs' act' out, trigger_children (S dd) pt (rev (dr_children r)) (set_file (write_at (Z.to_nat off) pt (dc_file dc)) dc1)
      = Some (set_active (Some act') (set_requests rs' (set_file (write_at (Z.to_nat off) pt (dc_file dc)) dc1)), out)
    /\ advanced (dc_requests dc) rs' a /\ core_ok top rs' act' (dc_completed dc) (write_at (Z.to_nat off) pt (dc_file dc)) got.
Proof.
  intros Hcore Hi Hr Hok Hst Hpt dc1 Hdc1 off Hoff. pose proof Hcore as [Ht Hss _ _ Hact Hnd Hup _ _ _ _]. set (rs := dc_requests dc) in *.
  assert (Hkid : forall c, c ∈ dr_children r -> c <> a /\ exists rc, rs !! c = Some rc /\ dr_state rc = BRS_INIT /\ (dr_chk_idx rc + 1) * 128 <= Z.of_nat (length pt)).
  { intros c Hc. destruct (keys_child top rs a r d m Ht Hss Hr Hok Hst c Hc) as (rc & (_ & Hco & Hd & Hcp) & Hci). pose proof (co_lookup _ _ _ _ _ _ _ Hco) as Hl. split.
    - intros ->. assert (rc = r) as -> by congruence. congruence.
    - exists rc. split_and!; [done|done|]. apply lookup_lt_Some in Hcp. rewrite (ro_count _ _ _ _ _ Hok d eq_refl), (ro_offset _ _ _ _ _ Hok) in Hcp.
      rewrite Hpt, length_plain_S. pose proof (co_idx _ _ _ _ _ _ _ Hco). lia. }
  destruct (trigger_ok (S dd) pt (rev (dr_children r)) (set_file (write_at (Z.to_nat off) pt (dc_file dc)) dc1) (leave (chk_query (dr_chk r)) a act))
    as (rs' & act' & out & -> & Hother & Hnew & Hact' & Hnd'); [lia|by subst dc1|by subst dc1| | |].
  { rewrite <- Permutation_rev. by eapply children_nodup. }
  { intros c Hc. apply list_elem_of_In, in_rev, list_elem_of_In in Hc. destruct (Hkid c Hc) as (Hca & rc & Hrc & Hci & Hidx). exists rc. subst dc1. dc_cbn. fold rs.
    rewrite lookup_insert_ne by done. split_and!; [done|done|done|]. intros q [(x & Hx & Hxs & _)%Hact _]%leave_elem. congruence. }
  exists rs', act', out. split; [done|]. subst dc1. cbn [set_file set_requests dc_requests] in Hother, Hnew, Hact'. fold rs in Hother, Hnew, Hact'.
  assert (Hel : forall c, c ∈ rev (dr_children r) <-> c ∈ dr_children r) by (intros c; rewrite !list_elem_of_In; symmetry; apply in_rev).
  assert (Hlk : forall b rb, rs !! b = Some rb -> exists rb', rs' !! b = Some rb' /\ shape rb' = shape rb /\ keys_change a (dr_children r) b rb rb'
    /\ (b ∈ dr_children r -> dr_chk rb' = chk_at pt (dr_chk_idx rb))).
  { intros b rb Hb. destruct (decide (b ∈ dr_children r)) as [Hin|Hn].
    - destruct (Hkid b Hin) as (Hba & rc & Hrc & Hci & _). assert (rc = rb) as -> by congruence. rewrite (Hnew b rb) by (by rewrite ?lookup_insert_ne, ?Hel).
      eexists. split; [done|]. split_and!; [done|by apply kc_child|done].
    - rewrite Hother by (by rewrite Hel). destruct (decide (b = a)) as [->|Hba].
      + rewrite lookup_insert_eq. assert (rb = r) as -> by congruence. eexists. split; [done|]. split_and!; [done|by apply kc_self|done].
      + rewrite lookup_insert_ne by done. exists rb. split_and!; [done|done|by apply kc_other|done]. }
  assert (Hsh : same_shape rs rs').
  { intros b. destruct (rs !! b) as [rb|] eqn:Eb; [destruct (Hlk b rb Eb) as (rb' & -> & E & _); cbn; by rewrite E|]. cbn.
    rewrite Hother, lookup_insert_ne, Eb; [done|by intros ->; congruence|]. rewrite Hel. intros Hin. destruct (Hkid b Hin) as (_ & rc & ? & _). congruence. }
  assert (Hch : forall b rb rb', rs !! b = Some rb -> rs' !! b = Some rb' -> keys_change a (dr_children r) b rb rb').
  { intros b rb rb' Hb Hb'. destruct (Hlk b rb Hb) as (x & Hx & _ & Hk & _). by assert (x = rb') as -> by congruence. }
  split; [by eapply (keys_advanced rs rs' a r Hsh Hch)|].
  apply (keys_arrive top rs rs' a r d m Ht Hss Hup Hr Hok Hst Hsh Hch act act' _ (dc_file dc)); [done| | |by apply Hnd', NoDup_filter|].
  - intros c rc' Hc Hrc'. destruct (Hkid c Hc) as (_ & rc & Hrc & _). destruct (Hlk c rc Hrc) as (x & Hx & Hs & _ & Hk). assert (x = rc') as -> by congruence.
    rewrite (Hk Hc), Hpt. injection Hs as _ _ _ _ ->. done.
  - intros q b. rewrite Hact'. f_equiv. split.
    + intros (x & Hb%Hel & Hx & ->). destruct (Hkid b Hb) as (Hba & _). rewrite lookup_insert_ne in Hx by done. destruct (Hlk b x Hx) as (y & Hy & _ & _ & Hk). exists y. rewrite (Hk Hb). done.
    + intros (y & Hb & Hy & ->). destruct (Hkid b Hb) as (Hba & rc & Hrc & _). destruct (Hlk b rc Hrc) as (y' & Hy' & _ & _ & Hk). assert (y' = y) as -> by congruence.
      exists rc. rewrite Hel, lookup_insert_ne, (Hk Hb) by done. done.
  - intros i x Hix Hlt. apply write_at_old; [done|]. lia.
Qed.

Lemma block_of_keys dc act a r d m : transfer dc act -> connected dc -> has_finished dc = false -> dc_requests dc !! a = Some r -> request_ok (dc_requests dc) a r (S d) m -> (S d <= dd)%nat ->
  dr_state r = BRS_CHK_SET ->
  exists dc' out, process_result_with_request true (encrypted (plain (S d) (m * span (S d)))) (chk_query (dr_chk r)) a dc = Some (dc', out, true) /\ accepted dc dc' a.
Proof.
  intros Htr Hconn Hfin Hr Hok Hd Hst. rewrite (block_decrypted true dc act) by done. destruct Htr as [Hcf Hact (top & got & Hcore)].
  destruct (disk_offset (S d) m) as (o & Eo & Ho); [lia|apply Hok|apply (ro_lt _ _ _ _ _ Hok)|].
  pose proof (waiting_incomplete _ _ _ _ _ _ a r (S d) m Hcore Hr Hok (or_intror Hst)) as Hlt.
  destruct (trigger_block dc act top got a r d m _ Hcore (cf_issue _ Hcf) Hr Hok Hst eq_refl _ eq_refl o ltac:(lia)) as (rs' & act' & out & Etr & Hadv & Hcore'). set (off := m * span (S d)) in *.
  unfold accept_block. dc_cbn. rewrite (file_length_eq dc Hcf), (ro_offset _ _ _ _ _ Hok), (ro_depth _ _ _ _ _ Hok), (cf_depth _ Hcf), Nat2Z.id. fold off. rewrite Eo.
  change (0 =? Z.of_nat (S d)) with false. cbv iota. dc_cbn. rewrite (cf_filename _ Hcf), (cf_options _ Hcf). cbn [Z.eqb]. rewrite orb_true_r. cbn [andb negb]. dc_cbn.
  rewrite (cf_length _ Hcf), (proj2 (Z.leb_le _ _)) by lia. rewrite (proj2 (Z.eqb_neq _ _)) by lia. rewrite length_plain_S.
  assert (Z.of_nat (Z.to_nat (children d off) * 128) mod sizeof_ContentHashKey = 0) as -> by (unfold sizeof_ContentHashKey; rewrite Nat2Z.inj_mul; by apply Z.mod_mul). cbn [Z.eqb].
  change (set_requests (<[a:=set_state BRS_DOWNLOAD_DOWN r]> (dc_requests dc)) (set_file ?f ?x)) with (set_file f (set_requests (<[a:=set_state BRS_DOWNLOAD_DOWN r]> (dc_requests dc)) x)).
  rewrite Etr. eexists _, _. split; [done|]. split; [|split; [done|left; split_and!; [dc_cbn; lia|done|done]]]. exists act'. split; [by destruct Hcf|done|]. by exists top, got.
Qed.

(** A block that a request waits for, or an error of the file. *)
Lemma process_block io dc act a r d m : transfer dc act -> connected dc -> has_finished dc = false -> dc_requests dc !! a = Some r -> request_ok (dc_requests dc) a r d m -> (d <= dd)%nat ->
  dr_state r = BRS_CHK_SET ->
  exists dc' out, process_result_with_request io (encrypted (plain d (m * span d))) (chk_query (dr_chk r)) a dc = Some (dc', out, io) /\ if io then accepted dc dc' a else failed dc'.
Proof.
  intros Htr Hconn Hfin Hr Hok Hd Hst. destruct io; [destruct d; [by eapply block_of_data|by eapply block_of_keys]|].
  rewrite (block_decrypted false dc act) by done. destruct Htr as [Hcf Hact (top & got & Hcore)]. destruct (disk_offset d m) as (o & Eo & _); [lia|apply Hok|apply (ro_lt _ _ _ _ _ Hok)|].
  unfold accept_block. dc_cbn. rewrite (file_length_eq dc Hcf), (ro_offset _ _ _ _ _ Hok), (ro_depth _ _ _ _ _ Hok), Eo.
  rewrite (cf_filename _ Hcf), (cf_options _ Hcf). cbn [Z.eqb]. rewrite orb_true_r. cbn [andb negb]. unfold fail_result.
  destruct (signal_error_ok (set_active (Some (leave (chk_query (dr_chk r)) a act)) dc)) as (dc' & out & -> & Hf); [done|done|]. by exists dc', out.
Qed.

(** The hash of the block is that of no other block of the file. *)
Definition genuine (b : list Z) : Prop := forall d m, (d <= dd)%nat -> 0 <= m -> m * span d < size ->
  GNUNET_CRYPTO_hash b = chk_query (chk d (m * span d)) -> b = encrypted (plain d (m * span d)).

(** What a block leads to that was expected by the requests [l]. *)
Definition received (io : bool) (dc dc' : DownloadContext) (l : list Z) : Prop :=
  (exists act, transfer dc' act)
    /\ (forall b rb', dc_requests dc' !! b = Some rb' -> waiting rb' -> b ∉ l /\ exists rb, dc_requests dc !! b = Some rb /\ waiting rb)
    /\ ((dc_completed dc' <> size /\ has_finished dc' = false /\ connected dc') \/ (dc_completed dc' = size /\ finished dc'))
  \/ io = false /\ failed dc'.

Definition expected (dc : DownloadContext) (q : list Z) (a : Z) : Prop := exists r, dc_requests dc !! a = Some r /\ dr_state r = BRS_CHK_SET /\ q = chk_query (dr_chk r).

Lemma process_results_ok io b l dc act : genuine b -> transfer dc act -> connected dc -> has_finished dc = false -> dc_completed dc <> size -> NoDup l ->
  (forall a, a ∈ l -> expected dc (GNUNET_CRYPTO_hash b) a) ->
  exists dc' out, process_results io b (GNUNET_CRYPTO_hash b) l dc = Some (dc', out) /\ received io dc dc' l.
Proof.
  intros Hg. revert dc act. induction l as [|a l IH]; intros dc act Htr Hconn Hfin Hopen HN Hl; cbn [process_results].
  { eexists _, _. split; [done|]. left. split_and!; [by exists act| |by left]. intros x rx Hx Hw. split; [apply not_elem_of_nil|by exists rx]. }
  apply NoDup_cons in HN as [Ha HN]. destruct (Hl a ltac:(by left)) as (r & Hr & Hst & Hq). pose proof Htr as [_ _ (top & got & Hcore)].
  destruct (to_all _ _ (ok_tree _ _ _ _ _ _ Hcore) a r Hr) as (d & m & Hd & Hok & _). assert (Eb : b = encrypted (plain d (m * span d))).
  { apply Hg; [done|apply Hok|apply (ro_lt _ _ _ _ _ Hok)|]. rewrite Hq. f_equal. apply (ok_chk _ _ _ _ _ _ Hcore a r d m Hr Hok). congruence. }
  destruct (process_block io dc act a r d m Htr Hconn Hfin Hr Hok Hd Hst) as (dc1 & out1 & E1 & Hres). rewrite <- Eb, <- Hq in E1. rewrite E1. destruct io.
  2: { eexists _, _. split; [done|]. right. done. }
  destruct Hres as ([act1 Htr1] & [Hkeep Hless] & Hstate).
  assert (Hl1 : forall x, x ∈ l -> expected dc1 (GNUNET_CRYPTO_hash b) x).
  { intros x Hx. destruct (Hl x ltac:(by right)) as (rx & Hrx & Hsx & Eq). exists rx. split_and!; [|done|done]. apply Hkeep; [by intros ->|done|done]. }
  destruct Hstate as [(Hopen1 & Hfin1 & Hconn1)|[Hdone1 Hfin1]].
  - destruct (IH dc1 act1 Htr1 Hconn1 Hfin1 Hopen1 HN Hl1) as (dc' & out' & -> & Hrec). eexists _, _. split; [done|].
    destruct Hrec as [(Htr' & Hless' & Hs')|[? _]]; [|done]. left. split_and!; [done| |done]. intros x rx Hx Hw. destruct (Hless' x rx Hx Hw) as (Hxl & rx1 & Hx1 & Hw1).
    destruct (Hless x rx1 Hx1 Hw1) as (Hxa & rx0 & Hx0 & Hw0). split; [by apply not_elem_of_cons|by exists rx0].
  - destruct l as [|x l].
    + cbn. eexists _, _. split; [done|]. left. split_and!; [by exists act1| |by right]. intros x rx Hx Hw. destruct (Hless x rx Hx Hw) as (Hxa & Hrest). split; [by intros ->%list_elem_of_singleton|done].
    + exfalso. destruct (Hl1 x ltac:(by left)) as (rx & Hrx & Hsx & _). destruct Htr1 as [_ _ (top1 & got1 & Hcore1)].
      destruct (to_all _ _ (ok_tree _ _ _ _ _ _ Hcore1) x rx Hrx) as (dx & mx & _ & Hokx & _). pose proof (waiting_incomplete _ _ _ _ _ _ x rx dx mx Hcore1 Hrx Hokx (or_intror Hsx)). lia.
Qed.

Lemma handle_put_ok io b dc act : genuine b -> transfer dc act -> connected dc -> has_finished dc = false -> dc_completed dc <> size ->
  exists dc' out, handle_put io b dc = Some (dc', out) /\ received io dc dc' (map snd (filter (fun e => fst e = GNUNET_CRYPTO_hash b) act)).
Proof.
  intros Hg Htr Hconn Hfin Hopen. unfold handle_put. rewrite (tr_active _ _ Htr). pose proof Htr as [_ _ (top & got & Hcore)]. eapply process_results_ok; [done|done|done|done|done| |].
  - apply (NoDup_fmap_2_strong snd); [|apply NoDup_filter; apply (ok_nodup _ _ _ _ _ _ Hcore)]. intros [q1 a1] [q2 a2] [E1 _]%list_elem_of_filter [E2 _]%list_elem_of_filter Ea. cbn in *. congruence.
  - intros a Ha. apply list_elem_of_fmap in Ha as ([q a'] & -> & Hf). apply list_elem_of_filter in Hf as [Eq Hin]. cbn in *. subst q. by apply (ok_active _ _ _ _ _ _ Hcore) in Hin.
Qed.

(** ** Reachable states *)

(** Connected, waiting to connect again, or in the queue. *)
Definition control (dc : DownloadContext) : Prop :=
  connected dc \/ dc_mq dc = false /\ dc_job dc = Running /\ dc_task dc = true \/ dc_mq dc = false /\ dc_job dc = Queued /\ dc_task dc = false.

Definition download_ok (dc : DownloadContext) : Prop := open dc /\ control dc \/ finished dc \/ failed dc.

Lemma open_connection mq job task dc : open dc -> open (set_connection mq job task dc).
Proof. intros [[act [Hc Ha Hcore]] Hrest]. split; [|done]. exists act. split; [by destruct Hc|done|done]. Qed.

Lemma reconnect_ok ok dc : open dc -> dc_job dc = Running -> exists dc' out, do_reconnect ok dc = Some (dc', out) /\ open dc' /\ control dc'.
Proof.
  intros Ho Hj. unfold do_reconnect. destruct ok; [|eexists _, _; split; [done|]; split; [by apply open_connection|by right; left]]. dc_cbn.
  pose proof Ho as [[act [_ Hact (top & got & Hcore)]] _]. rewrite Hact. assert (exists rs, mapM (fun e : list Z * Z => dc_requests dc !! e.2) act = Some rs) as (rs & ->).
  { apply mapM_is_Some, Forall_forall. intros [q a] (r & Hr & _)%(ok_active _ _ _ _ _ _ Hcore). cbn. by rewrite Hr. }
  eexists _, _. split; [done|]. split; [by apply open_connection|by left].
Qed.

Lemma step_ok ok ev dc : (forall b, ok b -> genuine b) -> download_ok dc -> enabled ok ev dc -> exists dc' out, dl_step ev dc = Some (dc', out) /\ download_ok dc'.
Proof.
  intros Hgen Hok Hen. assert (Hidle : idle dc -> False) by (intros (Hm & Hj & Ht); destruct ev; cbn in Hen; intuition congruence).
  destruct Hok as [[Ho Hc]|[(_ & _ & Hi)|(_ & _ & Hi)]]; [|by destruct (Hidle Hi)..]. destruct ev as [b| | |b|io b]; cbn [enabled dl_step] in *.
  - assert (Hm : dc_mq dc = false) by (destruct Hc as [(? & ? & ?)|[(? & ? & ?)|(? & ? & ?)]]; congruence). unfold activate_fs_download. dc_cbn. rewrite Hm. cbn [negb].
    pose proof Ho as [[act [_ Hact _]] _]. rewrite Hact. destruct (reconnect_ok b (set_connection false Running (dc_task dc) dc)) as (dc' & out & -> & Hd); [by apply open_connection|done|].
    eexists _, _. split; [done|]. by left.
  - eexists _, _. split; [done|]. left. split; [by do 2 apply open_connection|]. destruct Hen as [_ Ht]. right. right. by rewrite <- Ht.
  - eexists _, _. split; [done|]. left. split; [by do 2 apply open_connection|]. destruct Hc as [(_ & Hj & _)|[(Hm & _)|(Hm & _)]]; [|congruence..]. right. by left.
  - destruct Hc as [(_ & _ & Ht)|[(_ & Hj & _)|(_ & _ & Ht)]]; [congruence| |congruence].
    destruct (reconnect_ok b (set_connection (dc_mq dc) (dc_job dc) false dc)) as (dc' & out & -> & Hd); [by apply open_connection|done|]. eexists _, _. split; [done|]. by left.
  - destruct Hen as [Hmq Hg%Hgen]. assert (Hconn : connected dc) by (destruct Hc as [?|[(? & _)|(? & _)]]; [done|congruence..]). pose proof Ho as [[act Htr] [Hne Hfin]].
    destruct (handle_put_ok io b dc act Hg Htr Hconn Hfin Hne) as (dc' & out & -> & Hrec). eexists _, _. split; [done|].
    destruct Hrec as [(Htr' & _ & [(? & ? & ?)|[_ ?]])|[_ ?]]; [left; split; [by split|by left]|by right; left|by right; right].
Qed.

Lemma reaches_ok ok dc dc' : (forall b, ok b -> genuine b) -> download_ok dc -> reaches ok dc dc' -> download_ok dc'.
Proof.
  intros Hgen Hok Hr. induction Hr as [|dc1 dc2 ev out _ IH Hen Hs]; [done|]. destruct (step_ok ok ev dc1 Hgen IH Hen) as (x & o & E & Hx). congruence.
Qed.

(** *** The start *)

Lemma core_start rs r : tree_ok rs 0 -> (forall a x, rs !! a = Some x -> dr_state x = BRS_INIT) -> rs !! 0 = Some r ->
  core_ok 0 (<[0 := set_state BRS_CHK_SET (set_chk (chk dd 0) r)]> rs) [(chk_query (chk dd 0), 0)] 0 [] [].
Proof.
  intros Ht Hinit Hr. set (r' := set_state BRS_CHK_SET (set_chk (chk dd 0) r)). pose proof (same_shape_insert rs 0 r r' Hr eq_refl) as Hsh. set (rs' := <[0 := r']> rs) in *.
  pose proof (tree_ok_shape rs rs' 0 Hsh Ht) as Ht'. assert (Hr' : rs' !! 0 = Some r') by apply lookup_insert_eq.
  assert (Hst : forall a x, rs' !! a = Some x -> a = 0 /\ x = r' \/ a <> 0 /\ dr_state x = BRS_INIT).
  { intros a x Hx. destruct (decide (a = 0)) as [->|Ha]; [left; split; congruence|]. right. split; [done|]. unfold rs' in Hx. rewrite lookup_insert_ne in Hx by done. by eapply Hinit. }
  assert (Hw : forall a x, rs' !! a = Some x -> waiting x) by (intros a x Hx; destruct (Hst a x Hx) as [[_ ->]|[_ ?]]; [by right|by left]).
  assert (Hnone : forall a x, rs' !! a = Some x -> dr_state x <> BRS_DOWNLOAD_UP /\ dr_state x <> BRS_DOWNLOAD_DOWN) by (intros a x Hx; destruct (Hw a x Hx) as [->| ->]; done).
  destruct (to_top _ _ Ht') as (rt & Hrt & Hokt & Hpt). assert (rt = r') as -> by congruence. split.
  - done.
  - split; [intros a x Hx; left; by eapply Hw|]. intros p rp d a x (Hp & Hco & _). pose proof (co_lookup _ _ _ _ _ _ _ Hco) as Hx. split; [intros _; by eapply Hw|intros _].
    destruct (Hst a x Hx) as [[-> ->]|[_ ?]]; [|done]. rewrite (co_parent _ _ _ _ _ _ _ Hco) in Hpt. done.
  - intros x Hx. assert (x = r') as -> by congruence. done.
  - intros a x d m Hx Hok Hs. destruct (Hst a x Hx) as [[-> ->]|[_ ?]]; [|done]. destruct (depth_unique _ _ _ _ _ _ _ Hokt Hok) as [-> ->]. done.
  - intros q a. rewrite list_elem_of_singleton. split; [intros [= -> ->]; by exists r'|]. intros (x & Hx & Hs & ->). by destruct (Hst a x Hx) as [[-> ->]|[_ ?]]; [|congruence].
  - apply NoDup_singleton.
  - intros a x Hx. by destruct (Hnone a x Hx).
  - constructor.
  - intros o. split; [by intros ?%elem_of_nil|]. intros (a & x & m & Hx & _ & _ & Hu). by destruct (Hnone a x Hx).
  - done.
  - by intros o i ?%elem_of_nil.
Qed.

Lemma start_ok options : GNUNET_FS_compute_depth size = Some (Z.of_nat (S dd)) -> Z.land options GNUNET_FS_DOWNLOAD_NO_TEMPORARIES = 0 ->
  exists dc0 dc out, create_download_context (mk_uri (chk dd 0) (GNUNET_htonll size)) true 0 size options = Some (Some dc0)
    /\ GNUNET_FS_download_start_task_ dc0 = Some (dc, out) /\ download_ok dc /\ dc_job dc = Queued.
Proof.
  intros Hdepth Hopt. unfold create_download_context. cbn [uri_file_length]. rewrite ntohll_htonll by (unfold is_u64; lia).
  assert (u64 (0 + size) = size) as -> by (unfold u64; rewrite Z.mod_small; lia). rewrite (proj2 (Z.ltb_ge size 0)), Z.gtb_ltb, Z.ltb_irrefl, Hdepth by lia. cbn [orb].
  assert (Hmap : (0 <? u32 (1 + 2 * (size / DBLOCK_SIZE))) && (u32 (1 + 2 * (size / DBLOCK_SIZE)) * 8 <=? GNUNET_MAX_MALLOC_CHECKED) = true).
  { assert (0 <= size / DBLOCK_SIZE <= 65536) by (split; [apply Z.div_pos; [lia|done]|apply Z.div_le_upper_bound; unfold DBLOCK_SIZE; lia]).
    unfold u32. rewrite Z.mod_small by lia. apply andb_true_iff. split; [apply Z.ltb_lt|apply Z.leb_le]; unfold GNUNET_MAX_MALLOC_CHECKED; lia. }
  rewrite Hmap. clear Hmap.
  destruct (create_ok dd Hd2 0 None 0 ∅ 0 ltac:(lia) ltac:(lia)) as (rs & hi & Ec & [Hold Hfresh] & Hsub); [intros b [? Hb]; by rewrite lookup_empty in Hb|].
  destruct (tree_of_subtree rs hi Hsub) as [Htree Hinit].
  { intros a Ha. split; [|by apply Hfresh]. destruct (decide (0 <= a)) as [|Hn]; [done|]. rewrite Hold in Ha by lia. destruct Ha as [? Ha]. by rewrite lookup_empty in Ha. }
  destruct (to_top _ _ Htree) as (r & Hr & _). pose proof (core_start rs r Htree Hinit Hr) as Hcore.
  match goal with |- exists _ _ _, Some (Some ?x) = _ /\ _ => exists x end. unfold GNUNET_FS_download_start_task_. dc_cbn.
  rewrite (proj2 (Z.eqb_neq 0 size)) by lia. replace (Z.to_nat (Z.of_nat (S dd) - 1)) with dd by lia. rewrite Z.mul_0_l in Ec. rewrite Ec, Hr. cbn [uri_chk].
  set (rs' := <[0 := _]> rs) in *. unfold GNUNET_FS_download_start_downloading_. dc_cbn. rewrite (proj2 (Z.eqb_neq 0 size)) by lia. cbn [negb]. rewrite bool_decide_eq_true_2 by done.
  dc_cbn. rewrite Nat2Z.id. cbn [schedule_block_download]. dc_cbn. unfold rs' at 1. rewrite lookup_insert_eq. cbn [dr_state set_state set_chk dr_chk]. dc_cbn.
  rewrite bool_decide_eq_false_2 by apply not_elem_of_nil. eexists _, _. split; [done|]. split; [done|]. split; [|done]. left. split; [|by right; right]. split; [|by split; [dc_cbn; lia|]].
  eexists. split; [by split|done|]. by exists 0, [].
Qed.

(** *** Progress *)

#[local] Instance waiting_dec r : Decision (waiting r).
Proof. unfold waiting. apply _. Defined.

Definition waiters (rs : requests) : requests := filter (fun e => waiting e.2) rs.

Lemma waiters_less rs rs' a r : (forall b rb', rs' !! b = Some rb' -> waiting rb' -> b <> a /\ exists rb, rs !! b = Some rb /\ waiting rb) -> rs !! a = Some r -> waiting r ->
  (base.size (dom (waiters rs')) < base.size (dom (waiters rs)))%nat.
Proof.
  intros Hless Hr Hw. apply subset_size. split.
  - intros b (rb' & Hb)%elem_of_dom. apply map_lookup_filter_Some in Hb as [Hb Hwb]. destruct (Hless b rb' Hb Hwb) as (_ & rb & Hb0 & Hw0). apply elem_of_dom. exists rb. by apply map_lookup_filter_Some.
  - intros Hsub. assert (Ha : a ∈ dom (waiters rs)) by (apply elem_of_dom; exists r; by apply map_lookup_filter_Some). apply Hsub, elem_of_dom in Ha as [r' Hr'].
    apply map_lookup_filter_Some in Hr' as [Hr' Hw']. by destruct (Hless a r' Hr' Hw').
Qed.

(** Above a request that waits one is active. *)
Lemma waiting_active top rs act completed file got a r d m : core_ok top rs act completed file got -> rs !! a = Some r -> request_ok rs a r d m -> (d <= dd)%nat -> waiting r ->
  exists b rb d' m', rs !! b = Some rb /\ request_ok rs b rb d' m' /\ (d' <= dd)%nat /\ dr_state rb = BRS_CHK_SET.
Proof.
  intros [Ht Hss Htp _ _ _ _ _ _ _ _]. remember (dd - d)%nat as k eqn:Ek. revert a r d m Ek. induction k as [|k IH]; intros a r d m Ek Hr Hok Hd Hw;
    (destruct Hw as [Hi|Hs]; [|by exists a, r, d, m]).
  - assert (d = dd) as -> by lia. rewrite (at_top rs top Ht a r m Hr Hok) in Hr. by destruct (Htp r Hr).
  - destruct (parent_of rs top Ht a r d m Hr Hok) as (p & rp & Hb & Hop & _); [lia|]. pose proof Hb as (Hp & _). apply (IH p rp (S d) (m / 256)); [lia|done|done|lia|]. by apply (proj2 Hss _ _ _ _ _ Hb).
Qed.

Lemma some_active dc act : transfer dc act -> dc_completed dc <> size ->
  exists a r d m, dc_requests dc !! a = Some r /\ request_ok (dc_requests dc) a r d m /\ (d <= dd)%nat /\ dr_state r = BRS_CHK_SET.
Proof.
  intros [_ _ (top & got & Hc)] Hne. pose proof Hc as [Ht Hss _ _ _ _ Hup Hgn Hgot Hcomp _]. assert (exists o, o ∈ data_offsets /\ o ∉ got) as (o & Ho & Hn).
  { destruct (decide (Forall (fun o => o ∈ got) data_offsets)) as [Hall|Hn].
    - exfalso. apply Hne. rewrite Hcomp, <- total_offsets. apply Z.le_antisymm; apply total_submseteq.
      + apply offsets_positive.
      + apply NoDup_submseteq; [done|]. intros o. by eapply got_offset.
      + intros o Ho. by eapply offsets_positive, got_offset.
      + apply NoDup_submseteq; [apply data_offsets_nodup|]. by apply Forall_forall.
    - apply not_Forall_Exists, Exists_exists in Hn as (o & Ho & Hn); [|intros o; apply _]. by exists o. }
  apply data_offsets_elem in Ho as (m & Hm & -> & Hlt). destruct (request_exists _ top Ht 0 m ltac:(lia) Hm Hlt) as (a & r & Hr & Hok).
  apply (waiting_active _ _ _ _ _ _ a r 0 m Hc Hr Hok ltac:(lia)). destruct (proj1 Hss a r Hr) as [?|[Hd|Hu]]; [done| |].
  - by destruct (leaf_not_down _ a r m (Hup a) Hr Hok).
  - destruct Hn. apply Hgot. by exists a, r, m.
Qed.

Lemma transfer_completes (sent : list Z -> Prop) dc act : (forall d m, (d <= dd)%nat -> 0 <= m -> m * span d < size -> sent (encrypted (plain d (m * span d))) /\ genuine (encrypted (plain d (m * span d)))) ->
  transfer dc act -> connected dc -> has_finished dc = false -> dc_completed dc <> size ->
  exists blocks dc', (forall b, b ∈ blocks -> sent b) /\ dl_run (map (Put true) blocks) dc = Some dc' /\ finished dc'.
Proof.
  intros Hsent. remember (base.size (dom (waiters (dc_requests dc)))) as n eqn:En. revert dc act En. induction (lt_wf n) as [n _ IH]. intros dc act -> Htr Hconn Hfin Hopen.
  destruct (some_active dc act Htr Hopen) as (a & r & d & m & Hr & Hok & Hd & Hst). set (b := encrypted (plain d (m * span d))).
  destruct (Hsent d m Hd) as [Hs Hg]; [apply Hok|apply (ro_lt _ _ _ _ _ Hok)|]. fold b in Hs, Hg. pose proof Htr as [_ _ (top & got & Hcore)].
  destruct (handle_put_ok true b dc act Hg Htr Hconn Hfin Hopen) as (dc1 & out & E & Hrec). destruct Hrec as [([act1 Htr1] & Hless & Hstate)|[? _]]; [|done].
  destruct Hstate as [(Hopen1 & Hfin1 & Hconn1)|[_ Hfin1]].
  - destruct (IH (base.size (dom (waiters (dc_requests dc1))))) with (dc := dc1) (act := act1) as (blocks & dc' & Hb & Hrun & Hf); try done.
    + apply (waiters_less _ _ a r); [|done|by right]. intros x rx Hx Hw. destruct (Hless x rx Hx Hw) as [Hn Hrest]. split; [|done]. intros ->. apply Hn.
      apply list_elem_of_fmap. exists (chk_query (dr_chk r), a). split; [done|]. apply list_elem_of_filter. split; [|apply (ok_active _ _ _ _ _ _ Hcore); by exists r].
      rewrite (ok_chk _ _ _ _ _ _ Hcore a r d m Hr Hok) by congruence. done.
    + exists (b :: blocks), dc'. split_and!; [by intros x [->|Hx]%elem_of_cons; [|apply Hb]| |done]. cbn [map dl_run dl_step]. by rewrite E.
  - exists [b], dc1. split_and!; [by intros x ->%list_elem_of_singleton| |done]. cbn [map dl_run dl_step]. by rewrite E.
Qed.

End Transfer.

(** ** From the encoder to the download *)

Lemma nodes_elem (data : list Z) d' m' d m : (d' <= d)%nat -> m * span d <= m' * span d' < (m + 1) * span d -> m' * span d' < Z.of_nat (length data) -> (d', m' * span d') ∈ nodes data d (m * span d).
Proof.
  revert m. induction d as [|d IH]; intros m Hd Hr Hlt.
  { assert (d' = O) as -> by lia. change (span 0) with 32768 in *. assert (m' = m) as -> by lia. by apply list_elem_of_singleton. }
  cbn [nodes]. pose proof (span_pos d) as Hp. pose proof (span_S d) as HS. apply elem_of_app. destruct (decide (d' = S d)) as [->|Hne].
  { right. assert (m' = m) as -> by nia. by apply list_elem_of_singleton. }
  left. set (off := m * span (S d)) in *. set (x := m' * span d') in *. set (i := (x - off) / span d).
  pose proof (Z.div_mod (x - off) (span d) ltac:(lia)) as Hdm. pose proof (Z.mod_pos_bound (x - off) (span d) Hp) as Hm. fold i in Hdm.
  assert (Hi : 0 <= i < 256) by (split; [apply Z.div_pos; lia|apply Z.div_lt_upper_bound; lia]).
  assert (Hc : i < children data d off) by (unfold children; pose proof (cdiv_spec (Z.min (span (S d)) (Z.of_nat (length data) - off)) (span d) Hp); nia).
  apply list_elem_of_In, in_concat. exists (nodes data d (off + i * span d)). split; [|apply list_elem_of_In].
  - apply (in_map (fun i => nodes data d (off + i * span d))), list_elem_of_In, elem_of_seqZ. lia.
  - assert (off + i * span d = (256 * m + i) * span d) as E by (unfold off; nia). rewrite E. apply IH; [lia| |done]. rewrite <- E. replace ((256 * m + i + 1) * span d) with (off + i * span d + span d) by (unfold off; nia). lia.
Qed.

Lemma node_published `{GcryptLaws, !HashLength} data dd d m : (d <= dd)%nat -> 0 <= m -> m * span d < Z.of_nat (length data) -> Z.of_nat (length data) <= span dd ->
  published (concat (map (node_calls data true false) (nodes data dd 0)) ++ [Cont]) (encrypted (plain data d (m * span d))).
Proof.
  intros Hd Hm Hlt Htop. eexists _, _, _, _. apply elem_of_app. left. apply list_elem_of_In, in_concat. exists (node_calls data true false (d, m * span d)). split; [|by left].
  apply in_map, list_elem_of_In. apply (nodes_elem data d m dd 0); [done|pose proof (span_pos d); nia|done].
Qed.

(** A file is published and its download is started. *)
Lemma transfer_started `{GcryptLaws, !HashLength} data reader options : 0 < Z.of_nat (length data) <= 2 ^ 31 ->
  (forall off n, 0 <= off -> 0 <= n -> off + n <= Z.of_nat (length data) -> fst (reader off n) = slice (Z.to_nat off) (Z.to_nat n) data) ->
  Z.land options GNUNET_FS_DOWNLOAD_NO_TEMPORARIES = 0 ->
  exists dd calls uri dc0 dc out, (dd <= 2)%nat /\ Z.of_nat (length data) <= span dd /\ publish reader data = Some (calls, uri)
    /\ create_download_context uri true 0 (Z.of_nat (length data)) options = Some (Some dc0) /\ GNUNET_FS_download_start_task_ dc0 = Some (dc, out) /\ download_ok data dd dc
    /\ (forall d m, (d <= dd)%nat -> 0 <= m -> m * span d < Z.of_nat (length data) -> published calls (encrypted (plain data d (m * span d)))).
Proof.
  intros Hs Hr Ho. destruct (whole_tree data reader true false Hs Hr) as (te & dd & te' & Hd2 & Htop & Hc & Hd & Hrun & Hu & _).
  destruct (start_ok data dd Hs Hd2 options Hd Ho) as (dc0 & dc & out & Hc0 & Hst & Hok & _).
  exists dd, (concat (map (node_calls data true false) (nodes data dd 0)) ++ [Cont]), (mk_uri (chk data dd 0) (GNUNET_htonll (Z.of_nat (length data)))), dc0, dc, out.
  split_and!; [done|done| |done|done|done|].
  - unfold publish. rewrite Hc, Hd. replace (Z.to_nat (Z.of_nat (S dd) - 1)) with dd by lia. rewrite Hrun. unfold GNUNET_FS_tree_encoder_get_uri. by rewrite Hu.
  - intros d m Hdd Hm Hlt. by apply node_published.
Qed.

Lemma genuine_blocks `{GcryptLaws, !HashLength} data dd calls b :
  (forall d m, (d <= dd)%nat -> 0 <= m -> m * span d < Z.of_nat (length data) -> published calls (encrypted (plain data d (m * span d)))) -> no_collision calls b -> genuine data dd b.
Proof. intros Hp Hn d m Hd Hm Hlt E. apply Hn; [by apply Hp|done]. Qed.

(** *** Examples *)

Definition sample_data : list Z := [7; 8; 9].
Definition sample_reader (off n : Z) : list Z * option (list Z) := (slice (Z.to_nat off) (Z.to_nat n) sample_data, None).
Definition sample_block : list Z := @encrypted toy_gcrypt sample_data.

(** The one block is published, and completes the download. *)
Definition sample_ok : bool :=
  match @publish toy_gcrypt sample_reader sample_data with
  | Some ([Proc _ _ _ _ b; Cont], uri) =>
      match create_download_context uri true 0 3 0 with
      | Some (Some dc0) =>
          match GNUNET_FS_download_start_task_ dc0 with
          | Some (dc, _) =>
              match @dl_step toy_gcrypt (Activate true) dc with
              | Some (dc1, _) =>
                  bool_decide (b = sample_block) && bool_decide (dc_job dc = Queued) && dc_mq dc1
                  && match @dl_step toy_gcrypt (Put true sample_block) dc1 with Some (dc2, _) => has_finished dc2 | None => false end
              | None => false
              end
          | None => false
          end
      | _ => false
      end
  | _ => false
  end.

Lemma sample_run calls uri dc0 dc out : @publish toy_gcrypt sample_reader sample_data = Some (calls, uri) -> create_download_context uri true 0 3 0 = Some (Some dc0) ->
  GNUNET_FS_download_start_task_ dc0 = Some (dc, out) ->
  (forall b, published calls b -> @no_collision toy_gcrypt calls b) /\ (exists dc1, @reaches toy_gcrypt (@no_collision toy_gcrypt calls) dc dc1 /\ dc_mq dc1 = true)
    /\ exists dc2, @reaches toy_gcrypt (@no_collision toy_gcrypt calls) dc dc2 /\ has_finished dc2 = true.
Proof.
  intros Hp Hc Hs. assert (Hok : sample_ok = true) by (vm_compute; done). unfold sample_ok in Hok. revert Hok. generalize sample_block. intros blk Hok. rewrite Hp in Hok. destruct calls as [|[c off d ty b| |] [|[ | |] [|]]]; try done. rewrite Hc, Hs in Hok.
  destruct (dl_step (Activate true) dc) as [[dc1 o1]|] eqn:E1; [|done]. apply andb_true_iff in Hok as [[[Hb Hj]%andb_true_iff Hm]%andb_true_iff Hf]. apply bool_decide_eq_true in Hb, Hj. subst b.
  destruct (dl_step (Put true blk) dc1) as [[dc2 o2]|] eqn:E2; [|done].
  assert (Hone : forall b, published [Proc c off d ty blk; Cont] b -> b = blk).
  { intros b (? & ? & ? & ? & [E|[E|E%elem_of_nil]%elem_of_cons]%elem_of_cons); [by injection E|done..]. }
  assert (Hno : @no_collision toy_gcrypt [Proc c off d ty blk; Cont] blk) by (intros b ->%Hone; done).
  assert (Hr1 : @reaches toy_gcrypt (@no_collision toy_gcrypt [Proc c off d ty blk; Cont]) dc dc1) by (eapply (reaches_step _ _ dc dc1 (Activate true)); [apply reaches_start|done|done]).
  split; [by intros b ->%Hone|]. split; [by exists dc1|]. exists dc2. split; [|done]. by eapply (reaches_step _ _ dc1 dc2 (Put true blk)).
Qed.



(** C8. From every state that such a download reaches and in which it is connected it can be finished: there are published blocks that,
    sent one after the other while writes succeed, complete the file, if no two different published blocks have the same hash. *)
Theorem download_completes `{GcryptLaws, !HashLength} data reader options : 0 < Z.of_nat (length data) <= 2 ^ 31 ->
  (forall off n, 0 <= off -> 0 <= n -> off + n <= Z.of_nat (length data) -> fst (reader off n) = slice (Z.to_nat off) (Z.to_nat n) data) ->
  Z.land options GNUNET_FS_DOWNLOAD_NO_TEMPORARIES = 0 ->
  exists calls uri dc0 dc out, publish reader data = Some (calls, uri)
    /\ create_download_context uri true 0 (Z.of_nat (length data)) options = Some (Some dc0) /\ GNUNET_FS_download_start_task_ dc0 = Some (dc, out)
    /\ forall dc', reaches (no_collision calls) dc dc' -> dc_mq dc' = true -> (forall b, published calls b -> no_collision calls b) ->
         exists blocks dc'', (forall b, b ∈ blocks -> published calls b) /\ dl_run (map (Put true) blocks) dc' = Some dc'' /\ has_finished dc'' = true /\ dc_file dc'' = data.
Proof.
  intros Hs Hr Ho. destruct (transfer_started data reader options Hs Hr Ho) as (dd & calls & uri & dc0 & dc & out & Hd2 & Htop & Hpub & Hc0 & Hst & Hok & Hblocks).
  exists calls, uri, dc0, dc, out. split_and!; [done..|]. intros dc' Hreach Hmq Hdiff. assert (Hgen : forall b, no_collision calls b -> genuine data dd b) by (intros b; by apply genuine_blocks).
  pose proof (reaches_ok data dd Hs Hd2 _ dc dc' Hgen Hok Hreach) as Hok'.
  destruct Hok' as [[((act & Htr) & Hne & Hf) Hc]|[(_ & _ & Hm & _)|(_ & _ & Hm & _)]]; [|congruence..].
  assert (Hconn : connected dc') by (destruct Hc as [?|[(? & _)|(? & _)]]; [done|congruence..]).
  destruct (transfer_completes data dd Hs Hd2 Htop (published calls) dc' act) as (blocks & dc'' & Hb & Hrun & Hfile & Hfin & _); [|done..|by exists blocks, dc''].
  intros d m Hd Hm Hlt. split; [by apply Hblocks|]. by apply Hgen, Hdiff, Hblocks.
Qed.

Lemma download_completes_witness : exists calls uri dc0 dc out dc' blocks dc'', @publish toy_gcrypt sample_reader sample_data = Some (calls, uri)
    /\ create_download_context uri true 0 3 0 = Some (Some dc0) /\ GNUNET_FS_download_start_task_ dc0 = Some (dc, out)
    /\ @reaches toy_gcrypt (@no_collision toy_gcrypt calls) dc dc' /\ @dl_run toy_gcrypt (map (Put true) blocks) dc' = Some dc'' /\ has_finished dc'' = true /\ dc_file dc'' = sample_data.
Proof.
  assert (HL : @HashLength toy_gcrypt) by (intros buf; done).
  destruct (@download_completes toy_gcrypt toy_gcrypt_laws HL sample_data sample_reader 0 ltac:(done) ltac:(done) ltac:(done)) as (calls & uri & dc0 & dc & out & Hp & Hc & Hs & Hok).
  destruct (sample_run calls uri dc0 dc out Hp Hc Hs) as (Hn & (dc1 & Hr & Hm) & _). destruct (Hok dc1 Hr Hm Hn) as (blocks & dc'' & _ & Hrun & Hf & Hd).
  by exists calls, uri, dc0, dc, out, dc1, blocks, dc''.
Defined.

(** *** Behaviour at the limits *)

Definition sample_events (options : Z) (evs : list dl_event) : option DownloadContext :=
  match @publish toy_gcrypt sample_reader sample_data with
  | Some (_, uri) =>
      match create_download_context uri true 0 3 options with
      | Some (Some dc0) => let? (dc, _) := GNUNET_FS_download_start_task_ dc0 in @dl_run toy_gcrypt evs dc
      | _ => None
      end
  | None => None
  end.

(** Without temporary blocks nothing is stored. *)
Example no_temporaries_no_file : match sample_events GNUNET_FS_DOWNLOAD_NO_TEMPORARIES [Activate true; Put true sample_block] with
  | Some dc => has_finished dc = true /\ dc_file dc = []
  | None => False
  end.
Proof. vm_compute. done. Qed.

(** A download that is stopped while it waits to connect again still connects, and the next time that it runs an assertion fails. *)
Example stopped_download_connects : (if sample_events 0 [Activate true; ConnectionError; Deactivate; Reconnect true] is Some _ then True else False)
  /\ sample_events 0 [Activate true; ConnectionError; Deactivate; Reconnect true; Activate true] = None.
Proof. vm_compute. done. Qed.
